(* ===== verification/_CoqProject ===== *)
-Q . S2P
Prelude.v
BfcAllocator.v
BfcRegions.v
BfcInvariant.v
BfcChunks.v
BfcCoalesce.v
BfcAlloc.v
BfcGrow.v
BfcMerge.v
BfcCollect.v
BfcSystem.v
BfcContract.v
BfcTheorems.v
Coding.v
OrderedCode.v
EdgeSet.v
Graph.v
GraphInvariant.v
GraphEdges.v
GraphProps.v
GraphContract.v
GraphSteps.v
GraphExport.v
GraphCalls.v
GraphAlgorithm.v
GraphDFS.v
GraphPrune.v
GraphClaims.v
GraphCycles.v
GraphCyclesDFS.v
GraphCyclesInsert.v
GraphCyclesOps.v
GraphCyclesEdit.v
GraphCyclesPath.v
GraphCyclesTheorems.v
BCast.v
TensorShape.v
TensorShapeSpec.v
TensorShapeTheorems.v
StridedSlice.v
StridedSliceProofs.v
StridedSliceRun.v
StridedSliceArgs.v
StridedSliceTheorems.v
PendingCounts.v
PendingCountsTheorems.v
TableBlock.v
TableBlockProofs.v
TableBlockTheorems.v
Crc32c.v
Crc32cTheorems.v
InputStream.v
InputStreamProofs.v
BufferedStream.v
RecordFile.v
RecordFileProofs.v
RecordFileTheorems.v
RecordIntegrity.v
TableIterator.v
TableIteratorProofs.v
TableFile.v
TableFileFormat.v
TableFileBuild.v
TableFileRead.v
TableFileTheorems.v
Hash.v
Cancellation.v
FifoQueue.v
FifoQueueProofs.v
FifoQueueFlush.v
FifoQueueThreads.v
FifoQueueTheorems.v
Rendezvous.v
RendezvousSteps.v
RendezvousInv.v
RendezvousSafety.v
RendezvousTheorems.v
RendezvousCancel.v
RendezvousLiveness.v
RendezvousRefine.v
