(* ===== verification/Prelude.v ===== *)
(** * Verification of the TensorFlow runtime core

    TensorFlow's runtime keeps device memory, tensor shapes, encoded keys, record files and
    graphs of operations, and passes tensors between threads and through queues.  This library
    models the parts of the runtime whose logic is self-contained, as executable definitions
    translated function by function from the C++ under [src/tensorflow], and proves what the
    callers of these parts rely on.

    ** How the code is modelled

    - Integers are [Z]; where the code can reach a wrap-around it is written out ([u8], [u32],
      [u64], [i32], [i64] below).  Addresses are [Z], a null pointer is 0.
    - A class with mutable fields is a [Record]; a method is a function of the state monad [M]
      below.  Its outcome is a value, [Crash] (a failed [CHECK], [DCHECK] or [LOG(FATAL)], or an
      access outside a container, which is undefined behaviour in C++) or [NoFuel] (a loop that
      did not end within its bound).  Theorems about results are total: they show that the
      method returns, neither crashing nor running out of fuel, unless they say otherwise.
    - A status is a value ([OK], [InvalidArgument], ...); messages are dropped.
    - Code outside the repository (the device's sub-allocator, the data of tensors) is an
      interface or an argument.  Logging is dropped.  Methods run one at a time, as under the
      mutex of the class, except in the rendezvous and the queues, whose threads interleave.

    ** The parts and where they are modelled

    - Best-fit-with-coalescing allocator ([core/common_runtime/bfc_allocator.h], [.cc]):
      [BfcAllocator] has the constants, chunks, bins, regions and every method from
      [ChunkFromHandle] to [AllocateRawInternal] and [DeallocateRawInternal], over the type
      class [SubAllocator].  [BfcRegions] proves the address map of the regions, [BfcInvariant]
      states the invariant (regions partitioned into linked chunks, bins sorted and complete,
      free list, time stamps), [BfcChunks], [BfcCoalesce], [BfcAlloc], [BfcGrow], [BfcMerge] and
      [BfcCollect] show that each method preserves it, [BfcSystem] defines histories of calls
      and their invariant, [BfcContract] the abstract heap, [BfcTheorems] has the theorems
      C1-C6: refinement of the abstract heap, absence of crashes, separation, accounting,
      termination, best fit, garbage collection, size classes, and four defects.  [Extend] has
      fuel for its two loops: 1000 iterations suffice for a 64-bit size (64 doublings, and
      0.9^k shrinks a size to its fixed point in fewer), except where
      [bfc_backpedal_diverges] and [bfc_zero_region_diverges] show divergence.  The histories
      have a memory limit below 2^63, requests of at most 2^64 - 256 bytes, frees of blocks in
      use only, and no garbage collection together with a timing counter; [bfc_request_overflow]
      and [bfc_gc_timestamps_crash] show what happens outside of them.
    - Integer coding ([core/lib/core/coding.cc], [raw_coding.h]): [Coding], C31.  The loops
      have the number of 7-bit groups as fuel (10 or 5).
    - Ordered encoding ([core/lib/strings/ordered_code.cc]): [OrderedCode], C32, round trips
      and order preservation.
    - Incremental topological order used to cluster operations ([compiler/jit/graphcycles]):
      [GraphCycles] has the ordered set and the graph; [GraphCyclesDFS], [GraphCyclesInsert],
      [GraphCyclesOps], [GraphCyclesEdit] and [GraphCyclesPath] prove the searches and the
      operations; [GraphCyclesTheorems] has C21 and C22.  The searches have the number of edges as
      fuel, which the proofs show to be enough.
    - Broadcasting ([core/util/bcast.cc]): [BCast], C33, against numpy's rule.
    - Tensor shapes ([core/framework/tensor_shape.cc], [.h], [core/util/overflow.h]):
      [TensorShape] has the packed representation and the operations for full and partial
      shapes; [TensorShapeSpec] relates it to lists of dimensions; [TensorShapeTheorems] has
      C34-C37, in which [denotes] gives a shape its list of dimensions, or [None] for a partial
      shape of unknown rank.  The result of [MergeWith] may be its first shape ([aliased]).
    - Strided slices ([core/util/strided_slice_op.cc]), which compute with partial shapes:
      [StridedSlice] has the model, [StridedSliceProofs], [StridedSliceRun] and
      [StridedSliceArgs] the steps, [StridedSliceTheorems] C38 and C39: the slice of each
      dimension, the flags, and the soundness of shape inference.
    - Graphs of operations ([core/graph/edgeset.h], [graph.h], [graph.cc]), which clients build,
      change and export: [EdgeSet] has the small sets of edges, [Graph] the nodes, edges and
      properties as objects on a heap with the methods of [Node] and [Graph].  [GraphInvariant]
      states the invariant, with holes for the states inside [RemoveNode]; [GraphEdges] and
      [GraphProps] run the operations on it; [GraphContract] has the abstract graph, the calls of
      a client, when they are permitted and what they promise; [GraphSteps], [GraphExport] (the
      inputs of a node and the exported messages) and [GraphCalls] show that each keeps its
      promise, and run histories from the constructor on.  [GraphClaims] has C13
      (refinement), C14 (types) and C15 (copy on write), and a defect of recycled nodes.  The
      order of a hash set of edges is a parameter that gives some permutation; the registry of
      operations and the inference of types are parameters without assumptions, except that they
      know the operation of the source and the sink.  Histories are shorter than 2^31 - 3 calls,
      since ids are 32-bit numbers that are never reused.
    - Graph algorithms ([core/graph/algorithm.cc]): [GraphAlgorithm] has the searches, pruning and
      the fixing of source and sink edges; [GraphDFS] proves the loop with an explicit stack
      and the searches of a graph, [GraphPrune] the two edits; [GraphClaims] has C16-C18.
      A search has one step for each start node and, for each node, its visit, its end and its
      edges as fuel; the breadth-first search the number of nodes.
    - Pending counts of the executor ([core/common_runtime/pending_counts.h]): [PendingCounts]
      has the layout and the packed and large counts, [PendingCountsTheorems] C19 (the bytes
      refine a table of node states, whatever the layout) and C20 (the streamlined activation
      equals the sequence of calls it replaces).
    - Blocks of sorted tables ([core/lib/io/block_builder.cc], [block.cc]), over [Coding]:
      [TableBlock] has the builder and the iterator, [TableBlockProofs] the format, the
      steps of the iterator and the state of the builder, [TableBlockTheorems]
      C30: the round trip, seeking, and the length check that a wrapped sum defeats.  The
      binary search has 33 steps, enough for 2^32 restart points; the scan has the length of
      the block, since every entry has at least three bytes.
    - Checksums ([core/lib/hash/crc32c.cc], [crc32c_accelerate.cc], [crc32c.h]): [Crc32c] has the
      four tables and both routines, [Crc32cTheorems] C27 (both equal the bit-by-bit
      definition; damage of up to four bytes is detected).  The instructions of the
      processor are parameters with the documented behaviour; the loops have the length of the
      buffer as fuel.
    - Input streams ([core/lib/io/inputstream_interface.h], [random_inputstream.cc],
      [buffered_inputstream.cc]): [InputStream] has the interface as a type class, the law
      [StreamOf] of a stream over given bytes, and the implementations; [InputStreamProofs] and
      [BufferedStream] prove the law for each, C25 and C26.  [RandomAccessFile::Read] is a
      parameter with its documented behaviour ([file_of]).
    - Record files ([core/lib/io/record_writer.cc], [record_reader.cc]), over streams,
      [Crc32c] and [Coding]: [RecordFile] has the writer and the readers, [RecordFileProofs] the
      steps, [RecordFileTheorems] C23 (round trip) and [RecordIntegrity] C24 (what is accepted,
      what is reported).  Client theorems are proved for every stream that satisfies
      [StreamOf].  The metadata scan has one more step than there are records as fuel.
    - Table files ([core/lib/io/table_builder.cc], [table.cc], [format.cc], [iterator.cc],
      [two_level_iterator.cc]), over blocks, [Crc32c] and [Coding]: [TableIterator] has the
      interface of iterators as a type class, its law [IteratorOver], the iterator of a block
      and the two-level iterator, [TableIteratorProofs] the law for each; [TableFile] has the
      builder, the format and the reader, [TableFileFormat] the framing, [TableFileBuild] the
      state of the builder as blocks, index and open block, [TableFileRead] the reading of a
      finished file, and [TableFileTheorems] C28 (round trip and lookups), the law of the
      two-level iterator over any index and blocks that keep it, and C29 (damage).  The
      compression library is a parameter that gives back what it was given ([snappy_ok]).  The
      loop over empty blocks has two more steps than there are blocks as fuel.
    - Hashing ([core/lib/hash/hash.cc]): [Hash], C40.
    - Cancellation and rendezvous ([core/framework/cancellation.cc], [rendezvous.cc]):
      [Cancellation] has one definition per critical section of the manager; [Rendezvous] the
      in-process rendezvous with its managers as threads of actions, a step being the next
      action of any thread.  [RendezvousSteps] describes each action by an inductive relation,
      [RendezvousInv] counts closures, references and costs, [RendezvousSafety] states the
      invariant and shows that every step keeps it and none fails, [RendezvousTheorems] and
      [RendezvousCancel] that the steps end and what remains then; [RendezvousLiveness] has C8
      (safety), C9 (liveness) and two defects, [RendezvousRefine] C7 (refinement of a mailbox).  The order of iteration
      over a hash table is a parameter that gives some permutation of the table.  The theorems
      exclude moves in which a [Recv] times out, and the last part of C9 several managers,
      since the two defects show that they break what is stated.
    - Queues of tensors ([core/kernels/queue_base.cc], [fifo_queue.cc], [typed_queue.h],
      [queue_op.cc], [core/util/batch_util.cc]), over [Cancellation]: [FifoQueue] has the deques of
      the components, the waiting attempts with their closures as data, flushing, and threads of
      actions as in the rendezvous.  [FifoQueueProofs] describes the callbacks of the attempts by
      a history of the elements that go in and out, [FifoQueueFlush] the flushing,
      [FifoQueueThreads] states the invariant of all threads and shows that each action keeps it;
      [FifoQueueTheorems] has C10 (refinement of a first-in first-out queue: every move extends
      a history of the elements put in and taken out, in the order in which the operations took
      their turns, and the history explains every state on the way), C11 (each operation
      completes once), C12 (progress) and three defects.  A flush has one more round than there
      are attempts and elements asked for as fuel.  The theorems assume that allocations succeed,
      that the types of the components can be copied, and that the sizes of batches fit 31
      bits ([environment_ok], [move_ok]); C12 concludes that all threads end only if no step is
      cancelled, since a defect shows a deadlock.

    ** What is not modelled

    Kernels, the XLA and MLIR compilers, TensorFlow Lite, device drivers, the distributed
    runtime, graph optimisation and the language bindings are numeric code, generated
    code or glue to libraries that are not in the repository.  Of the modelled classes, debug
    strings, logging, most destructors, compressed record files and the allocator's retry helper,
    which waits for other threads, are left out. *)

From stdpp Require Export base tactics list list_numbers numbers gmap strings sorting.
From Stdlib Require Export ZArith Lia.

#[global] Open Scope Z_scope.

(** ** Machine integers

    A w-bit integer of the source is a [Z]; the conversions below write out the
    wrap-around where the code can reach it. *)

Definition u8 (z : Z) : Z := z mod 2 ^ 8.
Definition u32 (z : Z) : Z := z mod 2 ^ 32.
Definition u64 (z : Z) : Z := z mod 2 ^ 64.
Definition i32 (z : Z) : Z := (z + 2 ^ 31) mod 2 ^ 32 - 2 ^ 31.
Definition i64 (z : Z) : Z := (z + 2 ^ 63) mod 2 ^ 64 - 2 ^ 63.

Lemma u64_small z : 0 <= z < 2 ^ 64 -> u64 z = z.
Proof. apply Z.mod_small. Qed.

Lemma u32_small z : 0 <= z < 2 ^ 32 -> u32 z = z.
Proof. apply Z.mod_small. Qed.

Lemma u8_small z : 0 <= z < 2 ^ 8 -> u8 z = z.
Proof. apply Z.mod_small. Qed.

Lemma u64_range z : 0 <= u64 z < 2 ^ 64.
Proof. apply Z.mod_pos_bound. lia. Qed.

Lemma u32_range z : 0 <= u32 z < 2 ^ 32.
Proof. apply Z.mod_pos_bound. lia. Qed.

Lemma u8_range z : 0 <= u8 z < 2 ^ 8.
Proof. apply Z.mod_pos_bound. lia. Qed.

Lemma i64_small z : - 2 ^ 63 <= z < 2 ^ 63 -> i64 z = z.
Proof. intros. unfold i64. rewrite Z.mod_small; lia. Qed.

Lemma i32_small z : - 2 ^ 31 <= z < 2 ^ 31 -> i32 z = z.
Proof. intros. unfold i32. rewrite Z.mod_small; lia. Qed.

Lemma i64_range z : - 2 ^ 63 <= i64 z < 2 ^ 63.
Proof. unfold i64. pose proof (Z.mod_pos_bound (z + 2 ^ 63) (2 ^ 64) ltac:(lia)). lia. Qed.

(** ** Outcomes of code that can abort or loop

    [Val] is a normal return.  [Crash] is a failed [CHECK]/[DCHECK], a
    [LOG(FATAL)] or an access outside a container (undefined behaviour in C++).
    [NoFuel] is a loop that did not finish within the iterations allotted to it. *)

Inductive outcome (A : Type) : Type :=
| Val (a : A)
| Crash
| NoFuel.
Arguments Val {A} a.
Arguments Crash {A}.
Arguments NoFuel {A}.

(** A state monad over outcomes: the methods of a class with a mutable state. *)
Definition M (S A : Type) : Type := S -> outcome (A * S).

#[export] Instance M_ret {S} : MRet (M S) := fun A a s => Val (a, s).
#[export] Instance M_bind {S} : MBind (M S) := fun A B k m s =>
  match m s with
  | Val (a, s') => k a s'
  | Crash => Crash
  | NoFuel => NoFuel
  end.

Section monad.
Context {S : Type}.

Definition get : M S S := fun s => Val (s, s).
Definition put (s : S) : M S unit := fun _ => Val (tt, s).
Definition gets {A} (f : S -> A) : M S A := fun s => Val (f s, s).
Definition modify (f : S -> S) : M S unit := fun s => Val (tt, f s).
Definition crash {A} : M S A := fun _ => Crash.
Definition nofuel {A} : M S A := fun _ => NoFuel.
Definition CHECK (b : bool) : M S unit := if b then mret tt else crash.
Definition of_option {A} (o : option A) : M S A :=
  match o with Some a => mret a | None => crash end.

(** [wp t m s Q]: run from [s], [m] does not crash and every result satisfies
    [Q]; with [t = true] it also finishes within its fuel. *)
Definition wp (t : bool) {A} (m : M S A) (s : S) (Q : A -> S -> Prop) : Prop :=
  match m s with
  | Val (a, s') => Q a s'
  | Crash => False
  | NoFuel => t = false
  end.

Lemma wp_ret t {A} (a : A) s (Q : A -> S -> Prop) : Q a s -> wp t (mret a) s Q.
Proof. done. Qed.

Lemma wp_bind t {A B} (m : M S A) (k : A -> M S B) s (Q : B -> S -> Prop) :
  wp t m s (fun a s' => wp t (k a) s' Q) -> wp t (m ≫= k) s Q.
Proof. unfold wp, mbind, M_bind. destruct (m s) as [[a s']| |]; done. Qed.

(** Reading the state in front of a run. *)
Lemma run_get {A} (f : S -> M S A) s : (get ≫= f) s = f s s.
Proof. done. Qed.

Lemma run_bind {A B} (m : M S A) (k : A -> M S B) s a s' : m s = Val (a, s') -> (m ≫= k) s = k a s'.
Proof. intros E. unfold mbind, M_bind. by rewrite E. Qed.

Lemma wp_assoc t {A B C} (m : M S A) (f : A -> M S B) (k : B -> M S C) s (Q : C -> S -> Prop) :
  wp t (m ≫= f) s (fun b s' => wp t (k b) s' Q) -> wp t (m ≫= fun a => f a ≫= k) s Q.
Proof. unfold wp, mbind, M_bind. destruct (m s) as [[a s']| |]; [|done..]. by destruct (f a s') as [[b s'']| |]. Qed.

Lemma wp_mono t {A} (m : M S A) s (Q R : A -> S -> Prop) :
  wp t m s Q -> (forall a s', Q a s' -> R a s') -> wp t m s R.
Proof. unfold wp. destruct (m s) as [[a s']| |]; eauto. Qed.

Lemma wp_gets t {A} (f : S -> A) s (Q : A -> S -> Prop) : Q (f s) s -> wp t (gets f) s Q.
Proof. done. Qed.

Lemma wp_get t s (Q : S -> S -> Prop) : Q s s -> wp t get s Q.
Proof. done. Qed.

Lemma wp_modify t (f : S -> S) s (Q : unit -> S -> Prop) : Q tt (f s) -> wp t (modify f) s Q.
Proof. done. Qed.

Lemma wp_put t (s' : S) s (Q : unit -> S -> Prop) : Q tt s' -> wp t (put s') s Q.
Proof. done. Qed.

Lemma wp_CHECK t b s (Q : unit -> S -> Prop) : b = true -> Q tt s -> wp t (CHECK b) s Q.
Proof. by intros ->. Qed.

Lemma wp_of_option t {A} (o : option A) a s (Q : A -> S -> Prop) :
  o = Some a -> Q a s -> wp t (of_option o) s Q.
Proof. by intros ->. Qed.

Lemma wp_total_partial t {A} (m : M S A) s (Q : A -> S -> Prop) : wp true m s Q -> wp t m s Q.
Proof. unfold wp. by destruct (m s) as [[a s']| |]. Qed.

(** What a [wp] says of a run. *)
Lemma wp_run t {A} (m : M S A) s (Q : A -> S -> Prop) a s' :
  wp t m s Q -> m s = Val (a, s') -> Q a s'.
Proof. unfold wp. intros H E. by rewrite E in H. Qed.

Lemma wp_no_crash t {A} (m : M S A) s (Q : A -> S -> Prop) : wp t m s Q -> m s <> Crash.
Proof. unfold wp. by destruct (m s) as [[a s']| |]. Qed.

Lemma wp_total {A} (m : M S A) s (Q : A -> S -> Prop) :
  wp true m s Q -> exists a s', m s = Val (a, s') /\ Q a s'.
Proof. unfold wp. destruct (m s) as [[a s']| |]; [eauto|done|done]. Qed.

End monad.

(** Symbolic execution of monadic code: the primitive steps are discharged, the
    calls of other operations are left as [wp] goals. *)
Ltac wp_step :=
  lazymatch goal with
  | |- wp _ (_ ≫= _) _ _ => apply wp_bind
  | |- wp _ (mret _) _ _ => apply wp_ret
  | |- wp _ (gets _) _ _ => apply wp_gets
  | |- wp _ get _ _ => apply wp_get
  | |- wp _ (modify _) _ _ => apply wp_modify
  | |- wp _ (put _) _ _ => apply wp_put
  end.
Ltac wp_steps := repeat (wp_step; cbn beta iota).

(** ** Notation and hints

    [m @ s ⇓ Q]: from the state [s] the method [m] returns, and its result and final state
    satisfy [Q].  The database [machine] closes side conditions on machine integers. *)

Declare Scope runtime_scope.
Notation "m @ s ⇓ Q" := (wp true m s Q) (at level 70, s at next level, Q at level 200, no associativity) : runtime_scope.

Create HintDb machine.
#[export] Hint Resolve u8_range u32_range u64_range i64_range : machine.
#[export] Hint Resolve wp_ret wp_get wp_put : machine.
#[export] Hint Rewrite @run_get : machine.
#[export] Hint Extern 2 (_ <= _ < _) => lia : machine.

(** ** Errors as values: [tensorflow::Status] *)

Inductive error_code : Set :=
| CANCELLED | UNKNOWN | INVALID_ARGUMENT | DEADLINE_EXCEEDED | NOT_FOUND
| ALREADY_EXISTS | PERMISSION_DENIED | RESOURCE_EXHAUSTED | FAILED_PRECONDITION
| ABORTED | OUT_OF_RANGE | UNIMPLEMENTED | INTERNAL | UNAVAILABLE | DATA_LOSS.

#[export] Instance error_code_eq_dec : EqDecision error_code.
Proof. solve_decision. Defined.

Inductive result (A : Type) : Type :=
| Ok (a : A)
| Err (c : error_code).
Arguments Ok {A} a.
Arguments Err {A} c.

#[export] Instance result_ret : MRet result := fun A a => Ok a.
#[export] Instance result_bind : MBind result := fun A B k m =>
  match m with Ok a => k a | Err c => Err c end.

Lemma result_bind_Ok {A B} (m : result A) (k : A -> result B) b :
  (m ≫= k) = Ok b <-> exists a, m = Ok a /\ k a = Ok b.
Proof.
  destruct m as [a|c]; simpl; split.
  - eauto.
  - by intros (? & [= ->] & ?).
  - done.
  - by intros (? & ? & ?).
Qed.

Definition Status : Type := result unit.
Definition OK : Status := Ok tt.

Definition ok (s : Status) : bool := match s with Ok _ => true | Err _ => false end.

(** ** Filters *)

Lemma filter_all {A} (P : A -> Prop) `{forall x, Decision (P x)} l : Forall P l -> filter P l = l.
Proof. induction 1 as [|x l Hx _ IH]; [done|]. by rewrite filter_cons_True, IH. Qed.

Lemma filter_none {A} (P : A -> Prop) `{forall x, Decision (P x)} l : Forall (fun x => ~ P x) l -> filter P l = [].
Proof. induction 1 as [|x l Hx _ IH]; [done|]. by rewrite filter_cons_False. Qed.

(** ** Arithmetic shared by the components *)

Lemma div_mul_exact a b : 0 < b -> (b | a) -> a / b * b = a.
Proof. intros Hb [k ->]. rewrite Z.div_mul; lia. Qed.

Lemma Z_divide_mod0 a b : b <> 0 -> (b | a) <-> a mod b = 0.
Proof. intros. symmetry. by apply Z.mod_divide. Qed.

(** ** Bits *)

Lemma land_ones_mod a n : 0 <= n -> Z.land a (2 ^ n - 1) = a mod 2 ^ n.
Proof. intros Hn. rewrite <- Z.land_ones by done. f_equal. rewrite Z.ones_equiv. lia. Qed.

Lemma testbit_high a s n : 0 <= a < 2 ^ s -> s <= n -> Z.testbit a n = false.
Proof.
  intros Ha Hn. destruct (Z.eq_dec a 0) as [->|Hne]; [apply Z.bits_0|].
  apply Z.bits_above_log2; [lia|]. apply Z.log2_lt_pow2; [lia|].
  assert (2 ^ s <= 2 ^ n); [|lia]. apply Z.pow_le_mono_r; lia.
Qed.

(** Bits that do not overlap: "or" is addition. *)
Lemma lor_shift_add a b s : 0 <= s -> 0 <= a < 2 ^ s -> Z.lor a (Z.shiftl b s) = a + b * 2 ^ s.
Proof.
  intros Hs Ha. rewrite <- Z.shiftl_mul_pow2 by done. rewrite Z.add_nocarry_lxor, Z.lxor_lor; try done.
  all: apply Z.bits_inj'; intros n Hn; rewrite Z.land_spec, Z.bits_0, andb_false_iff;
    destruct (Z.lt_ge_cases n s); [right; by apply Z.shiftl_spec_low|left; by apply (testbit_high a s)].
Qed.

Lemma land_add_shift a b s : 0 <= s -> 0 <= a < 2 ^ s -> Z.land (a + b * 2 ^ s) (2 ^ s - 1) = a.
Proof. intros Hs Ha. rewrite land_ones_mod, Z.mod_add by lia. by apply Z.mod_small. Qed.

(** Facts about bytes, by enumeration. *)
Lemma byte_forall (P : Z -> bool) : forallb P (seqZ 0 256) = true -> forall x, 0 <= x < 256 -> P x = true.
Proof.
  intros H x Hx. rewrite forallb_forall in H. apply H, list_elem_of_In, elem_of_seqZ. lia.
Qed.

Lemma byte_high x : 0 <= x < 256 -> (Z.land x 128 =? 0) = (x <? 128).
Proof. intros Hx. apply eqb_prop. revert x Hx. apply byte_forall. by vm_compute. Qed.

(** ** Lists shared by the components *)

(** Membership in concatenations. *)
Ltac elem :=
  rewrite ?elem_of_app, ?elem_of_cons, ?elem_of_nil in *; tauto.

Definition zsum (l : list Z) : Z := foldr Z.add 0 l.

Lemma zsum_app l1 l2 : zsum (l1 ++ l2) = zsum l1 + zsum l2.
Proof. induction l1 as [|x l1 IH]; simpl; [done|]. rewrite IH. lia. Qed.

Lemma zsum_nonneg l : Forall (fun x => 0 <= x) l -> 0 <= zsum l.
Proof. induction 1; simpl; lia. Qed.

Lemma zsum_Permutation l1 l2 : l1 ≡ₚ l2 -> zsum l1 = zsum l2.
Proof. induction 1; simpl; lia. Qed.

#[export] Instance zsum_proper : Proper ((≡ₚ) ==> (=)) zsum.
Proof. intros ???. by apply zsum_Permutation. Qed.

Lemma StronglySorted_lookup_lt {A} (R : relation A) (l : list A) i j x y :
  StronglySorted R l -> l !! i = Some x -> l !! j = Some y -> (i < j)%nat -> R x y.
Proof.
  intros Hs. revert i j. induction Hs as [|z l Hs IH Hz]; intros [|i] [|j]; simpl; try done || lia.
  - intros [= ->] Hj _. rewrite Forall_forall in Hz. apply Hz. by eapply list_elem_of_lookup_2.
  - intros Hi Hj Hij. apply (IH i j); [done..|lia].
Qed.

Lemma app_eq_inv_not_elem {A} (x : A) (k1 l1 k2 l2 : list A) :
  k1 ++ x :: k2 = l1 ++ x :: l2 -> x ∉ k1 -> x ∉ l1 -> k1 = l1 /\ k2 = l2.
Proof.
  revert l1. induction k1 as [|y k1 IH]; intros [|z l1] E Hk Hl; simplify_eq/=; [done|..].
  - exfalso. apply Hl. left.
  - exfalso. apply Hk. left.
  - rewrite not_elem_of_cons in Hk, Hl. destruct (IH l1) as [-> ->]; naive_solver.
Qed.

(** One summand replaced. *)
Lemma sum_insert {A} (f : A -> nat) l i x y :
  l !! i = Some x -> (sum_list_with f (<[i := y]> l) + f x = sum_list_with f l + f y)%nat.
Proof.
  intros Hi. apply list_elem_of_split_length in Hi as (l1 & l2 & -> & ->).
  rewrite insert_app_r_alt, Nat.sub_diag by done. cbn. rewrite !sum_list_with_app. cbn. lia.
Qed.
