(* ===== verification/BfcAllocator.v ===== *)
(** * The BFC ("best fit with coalescing") allocator: the model

    [core/common_runtime/bfc_allocator.{h,cc}]: chunks in a vector, linked into the
    physical order of each region, free chunks indexed by size in 21 bins, a region
    manager mapping addresses to chunk handles, split on allocation, coalescing on
    deallocation, delayed coalescing of timestamped chunks, growth through a
    sub-allocator and garbage collection of free regions.

    A pointer is its address in [Z] (0 is [nullptr]).  A [ChunkHandle] that may be
    [kInvalidChunkHandle] is an [option nat], a [BinNum] that may be
    [kInvalidBinNum] likewise.  [CHECK], [DCHECK] and [LOG(FATAL)] failures and
    accesses outside a vector or array are [Crash].  Logging is not modelled. *)

From S2P Require Import Prelude.

(** The interface [SubAllocator] of [core/framework/allocator.h]: the device or
    host memory source.  [sa_Alloc s alignment num_bytes] returns 0 on failure. *)
Class SubAllocator (S : Type) := {
  sa_Alloc : S -> Z -> Z -> Z * S;
  sa_Free : S -> Z -> Z -> S
}.

(** ** Constants and size arithmetic *)

Definition kMinAllocationBits : Z := 8.
Definition kMinAllocationSize : Z := Z.shiftl 1 kMinAllocationBits.
Definition kNumBins : nat := 21.
Definition kMaxInternalFragmentation : Z := Z.shiftl 128 20.

Definition RoundedBytes (bytes : Z) : Z :=
  u64 (kMinAllocationSize *
       (u64 (bytes + kMinAllocationSize - 1) / kMinAllocationSize)).

(** [__builtin_clzll] on a 64-bit word, and the two variants of the logarithm. *)
Definition clzll (n : Z) : Z := 63 - Z.log2 n.
Definition Log2FloorNonZero (n : Z) : Z := Z.lxor 63 (clzll n).

Fixpoint Log2FloorNonZeroSlow_loop (fuel : nat) (n r : Z) : Z :=
  match fuel with
  | O => r
  | S f => if 0 <? n then Log2FloorNonZeroSlow_loop f (Z.shiftr n 1) (r + 1) else r
  end.
Definition Log2FloorNonZeroSlow (n : Z) : Z := Log2FloorNonZeroSlow_loop 64 n 0 - 1.

Definition BinNumToSize (index : nat) : Z := u64 (Z.shiftl 256 (Z.of_nat index)).

Definition BinNumForSize (bytes : Z) : nat :=
  let v := Z.shiftr (Z.max bytes 256) kMinAllocationBits in
  Z.to_nat (Z.min (Z.of_nat kNumBins - 1) (Log2FloorNonZero v)).

(** [bytes * kBackpedalFactor] in single precision: [f32_round] rounds a natural
    number to 24 significant bits, ties to even, and 0.9f is 15099494 / 2^24. *)
Definition f32_round (m : Z) : Z :=
  let e := Z.log2 m - 23 in
  if e <=? 0 then m
  else
    let q := m / 2 ^ e in
    let r := m mod 2 ^ e in
    let half := 2 ^ (e - 1) in
    if (half <? r) || ((r =? half) && Z.odd q) then (q + 1) * 2 ^ e else q * 2 ^ e.
Definition kBackpedalFactor_mantissa : Z := 15099494.
Definition backpedal (bytes : Z) : Z :=
  RoundedBytes (f32_round (f32_round bytes * kBackpedalFactor_mantissa) / 2 ^ 24).

(** ** Data *)

Record Chunk := mkChunk {
  c_size : Z;
  c_requested_size : Z;
  c_allocation_id : Z;
  c_ptr : Z;
  c_prev : option nat;
  c_next : option nat;
  c_bin_num : option nat;
  c_freed_at_count : Z
}.

Definition default_Chunk : Chunk := mkChunk 0 0 (-1) 0 None None None 0.

Definition in_use (c : Chunk) : bool := negb (c_allocation_id c =? -1).

Definition c_set_size v (c : Chunk) := mkChunk v (c_requested_size c) (c_allocation_id c) (c_ptr c) (c_prev c) (c_next c) (c_bin_num c) (c_freed_at_count c).
Definition c_set_requested_size v (c : Chunk) := mkChunk (c_size c) v (c_allocation_id c) (c_ptr c) (c_prev c) (c_next c) (c_bin_num c) (c_freed_at_count c).
Definition c_set_allocation_id v (c : Chunk) := mkChunk (c_size c) (c_requested_size c) v (c_ptr c) (c_prev c) (c_next c) (c_bin_num c) (c_freed_at_count c).
Definition c_set_ptr v (c : Chunk) := mkChunk (c_size c) (c_requested_size c) (c_allocation_id c) v (c_prev c) (c_next c) (c_bin_num c) (c_freed_at_count c).
Definition c_set_prev v (c : Chunk) := mkChunk (c_size c) (c_requested_size c) (c_allocation_id c) (c_ptr c) v (c_next c) (c_bin_num c) (c_freed_at_count c).
Definition c_set_next v (c : Chunk) := mkChunk (c_size c) (c_requested_size c) (c_allocation_id c) (c_ptr c) (c_prev c) v (c_bin_num c) (c_freed_at_count c).
Definition c_set_bin_num v (c : Chunk) := mkChunk (c_size c) (c_requested_size c) (c_allocation_id c) (c_ptr c) (c_prev c) (c_next c) v (c_freed_at_count c).
Definition c_set_freed_at_count v (c : Chunk) := mkChunk (c_size c) (c_requested_size c) (c_allocation_id c) (c_ptr c) (c_prev c) (c_next c) (c_bin_num c) v.

(** [Bin::ChunkComparator]: by size, then by address. *)
Definition chunk_lt (a b : Chunk) : bool :=
  if negb (c_size a =? c_size b) then c_size a <? c_size b else c_ptr a <? c_ptr b.

Definition ChunkComparator (cs : list Chunk) (ha hb : nat) : bool :=
  match cs !! ha, cs !! hb with
  | Some a, Some b => chunk_lt a b
  | _, _ => false
  end.

(** [std::set<ChunkHandle, ChunkComparator>] in iteration order. *)
Fixpoint FreeChunkSet_insert (lt : nat -> nat -> bool) (h : nat) (l : list nat) : list nat :=
  match l with
  | [] => [h]
  | x :: t => if lt h x then h :: l
              else if lt x h then x :: FreeChunkSet_insert lt h t
              else l
  end.

Definition FreeChunkSet_erase (lt : nat -> nat -> bool) (h : nat) (l : list nat) : list nat :=
  List.filter (fun x => lt x h || lt h x) l.

(** Erasing the element an iterator points to. *)
Definition FreeChunkSet_erase_iter (h : nat) (l : list nat) : list nat :=
  List.filter (fun x => negb (Nat.eqb x h)) l.

(** [AllocationRegion] and [RegionManager]. *)
Record AllocationRegion := mkRegion {
  r_ptr : Z;
  r_memory_size : Z;
  r_end_ptr : Z;
  r_handles : list (option nat)
}.

Definition new_AllocationRegion (ptr memory_size : Z) : AllocationRegion :=
  let n_handles := u64 (memory_size + kMinAllocationSize - 1) / kMinAllocationSize in
  mkRegion ptr memory_size (ptr + memory_size) (replicate (Z.to_nat n_handles) None).

Definition IndexFor (r : AllocationRegion) (p : Z) : option nat :=
  if (r_ptr r <=? p) && (p <? r_ptr r + r_memory_size r)
  then Some (Z.to_nat (Z.shiftr (p - r_ptr r) kMinAllocationBits))
  else None.

Definition region_get_handle (r : AllocationRegion) (p : Z) : option (option nat) :=
  i ← IndexFor r p; r_handles r !! i.

Definition region_set_handle (r : AllocationRegion) (p : Z) (h : option nat) : option AllocationRegion :=
  i ← IndexFor r p;
  if bool_decide (i < length (r_handles r))%nat
  then Some (mkRegion (r_ptr r) (r_memory_size r) (r_end_ptr r) (<[i:=h]> (r_handles r)))
  else None.

Definition Comparator (p : Z) (other : AllocationRegion) : bool := p <? r_end_ptr other.

(** [std::upper_bound] over the regions, ordered by [end_ptr]. *)
Fixpoint upper_bound (p : Z) (l : list AllocationRegion) : nat :=
  match l with
  | [] => O
  | r :: t => if Comparator p r then O else S (upper_bound p t)
  end.

Definition RegionFor (l : list AllocationRegion) (p : Z) : option (nat * AllocationRegion) :=
  let entry := upper_bound p l in
  r ← l !! entry; Some (entry, r).

Definition AddAllocationRegion (l : list AllocationRegion) (ptr memory_size : Z) : list AllocationRegion :=
  let entry := upper_bound ptr l in
  take entry l ++ new_AllocationRegion ptr memory_size :: drop entry l.

Definition RemoveAllocationRegion (l : list AllocationRegion) (it : nat) : list AllocationRegion :=
  delete it l.

Definition rm_get_handle (l : list AllocationRegion) (p : Z) : option (option nat) :=
  '(_, r) ← RegionFor l p; region_get_handle r p.

Definition rm_set_handle (l : list AllocationRegion) (p : Z) (h : option nat) : option (list AllocationRegion) :=
  '(i, r) ← RegionFor l p; r' ← region_set_handle r p h; Some (<[i:=r']> l).

Definition rm_erase (l : list AllocationRegion) (p : Z) : option (list AllocationRegion) :=
  rm_set_handle l p None.

#[export] Instance Chunk_eq_dec : EqDecision Chunk.
Proof. solve_decision. Defined.

#[export] Instance AllocationRegion_eq_dec : EqDecision AllocationRegion.
Proof. solve_decision. Defined.

Record AllocatorStats := mkStats {
  num_allocs : Z;
  bytes_in_use : Z;
  peak_bytes_in_use : Z;
  largest_alloc_size : Z;
  bytes_limit : Z
}.

Section model.
Context {Sub : Type} `{!SubAllocator Sub}.

Record BFCAllocator := mkBFC {
  memory_limit_ : Z;
  garbage_collection_ : bool;
  curr_region_allocation_bytes_ : Z;
  total_region_allocated_bytes_ : Z;
  started_backpedal_ : bool;
  sub_allocator_ : Sub;
  timing_counter_ : option Z;
  timestamped_chunks_ : list nat;
  safe_frontier_ : Z;
  regions_ : list AllocationRegion;
  chunks_ : list Chunk;
  free_chunks_list_ : option nat;
  next_allocation_id_ : Z;
  stats_ : AllocatorStats;
  bins_ : list (list nat)
}.

Definition set_curr_region_allocation_bytes (v : Z) (s : BFCAllocator) : BFCAllocator :=
  mkBFC (s.(memory_limit_)) (s.(garbage_collection_)) v (s.(total_region_allocated_bytes_)) (s.(started_backpedal_)) (s.(sub_allocator_)) (s.(timing_counter_)) (s.(timestamped_chunks_)) (s.(safe_frontier_)) (s.(regions_)) (s.(chunks_)) (s.(free_chunks_list_)) (s.(next_allocation_id_)) (s.(stats_)) (s.(bins_)).
Definition set_total_region_allocated_bytes (v : Z) (s : BFCAllocator) : BFCAllocator :=
  mkBFC (s.(memory_limit_)) (s.(garbage_collection_)) (s.(curr_region_allocation_bytes_)) v (s.(started_backpedal_)) (s.(sub_allocator_)) (s.(timing_counter_)) (s.(timestamped_chunks_)) (s.(safe_frontier_)) (s.(regions_)) (s.(chunks_)) (s.(free_chunks_list_)) (s.(next_allocation_id_)) (s.(stats_)) (s.(bins_)).
Definition set_started_backpedal (v : bool) (s : BFCAllocator) : BFCAllocator :=
  mkBFC (s.(memory_limit_)) (s.(garbage_collection_)) (s.(curr_region_allocation_bytes_)) (s.(total_region_allocated_bytes_)) v (s.(sub_allocator_)) (s.(timing_counter_)) (s.(timestamped_chunks_)) (s.(safe_frontier_)) (s.(regions_)) (s.(chunks_)) (s.(free_chunks_list_)) (s.(next_allocation_id_)) (s.(stats_)) (s.(bins_)).
Definition set_sub_allocator (v : Sub) (s : BFCAllocator) : BFCAllocator :=
  mkBFC (s.(memory_limit_)) (s.(garbage_collection_)) (s.(curr_region_allocation_bytes_)) (s.(total_region_allocated_bytes_)) (s.(started_backpedal_)) v (s.(timing_counter_)) (s.(timestamped_chunks_)) (s.(safe_frontier_)) (s.(regions_)) (s.(chunks_)) (s.(free_chunks_list_)) (s.(next_allocation_id_)) (s.(stats_)) (s.(bins_)).
Definition set_timing_counter (v : option Z) (s : BFCAllocator) : BFCAllocator :=
  mkBFC (s.(memory_limit_)) (s.(garbage_collection_)) (s.(curr_region_allocation_bytes_)) (s.(total_region_allocated_bytes_)) (s.(started_backpedal_)) (s.(sub_allocator_)) v (s.(timestamped_chunks_)) (s.(safe_frontier_)) (s.(regions_)) (s.(chunks_)) (s.(free_chunks_list_)) (s.(next_allocation_id_)) (s.(stats_)) (s.(bins_)).
Definition set_timestamped_chunks (v : list nat) (s : BFCAllocator) : BFCAllocator :=
  mkBFC (s.(memory_limit_)) (s.(garbage_collection_)) (s.(curr_region_allocation_bytes_)) (s.(total_region_allocated_bytes_)) (s.(started_backpedal_)) (s.(sub_allocator_)) (s.(timing_counter_)) v (s.(safe_frontier_)) (s.(regions_)) (s.(chunks_)) (s.(free_chunks_list_)) (s.(next_allocation_id_)) (s.(stats_)) (s.(bins_)).
Definition set_safe_frontier (v : Z) (s : BFCAllocator) : BFCAllocator :=
  mkBFC (s.(memory_limit_)) (s.(garbage_collection_)) (s.(curr_region_allocation_bytes_)) (s.(total_region_allocated_bytes_)) (s.(started_backpedal_)) (s.(sub_allocator_)) (s.(timing_counter_)) (s.(timestamped_chunks_)) v (s.(regions_)) (s.(chunks_)) (s.(free_chunks_list_)) (s.(next_allocation_id_)) (s.(stats_)) (s.(bins_)).
Definition set_regions (v : list AllocationRegion) (s : BFCAllocator) : BFCAllocator :=
  mkBFC (s.(memory_limit_)) (s.(garbage_collection_)) (s.(curr_region_allocation_bytes_)) (s.(total_region_allocated_bytes_)) (s.(started_backpedal_)) (s.(sub_allocator_)) (s.(timing_counter_)) (s.(timestamped_chunks_)) (s.(safe_frontier_)) v (s.(chunks_)) (s.(free_chunks_list_)) (s.(next_allocation_id_)) (s.(stats_)) (s.(bins_)).
Definition set_chunks (v : list Chunk) (s : BFCAllocator) : BFCAllocator :=
  mkBFC (s.(memory_limit_)) (s.(garbage_collection_)) (s.(curr_region_allocation_bytes_)) (s.(total_region_allocated_bytes_)) (s.(started_backpedal_)) (s.(sub_allocator_)) (s.(timing_counter_)) (s.(timestamped_chunks_)) (s.(safe_frontier_)) (s.(regions_)) v (s.(free_chunks_list_)) (s.(next_allocation_id_)) (s.(stats_)) (s.(bins_)).
Definition set_free_chunks_list (v : option nat) (s : BFCAllocator) : BFCAllocator :=
  mkBFC (s.(memory_limit_)) (s.(garbage_collection_)) (s.(curr_region_allocation_bytes_)) (s.(total_region_allocated_bytes_)) (s.(started_backpedal_)) (s.(sub_allocator_)) (s.(timing_counter_)) (s.(timestamped_chunks_)) (s.(safe_frontier_)) (s.(regions_)) (s.(chunks_)) v (s.(next_allocation_id_)) (s.(stats_)) (s.(bins_)).
Definition set_next_allocation_id (v : Z) (s : BFCAllocator) : BFCAllocator :=
  mkBFC (s.(memory_limit_)) (s.(garbage_collection_)) (s.(curr_region_allocation_bytes_)) (s.(total_region_allocated_bytes_)) (s.(started_backpedal_)) (s.(sub_allocator_)) (s.(timing_counter_)) (s.(timestamped_chunks_)) (s.(safe_frontier_)) (s.(regions_)) (s.(chunks_)) (s.(free_chunks_list_)) v (s.(stats_)) (s.(bins_)).
Definition set_stats (v : AllocatorStats) (s : BFCAllocator) : BFCAllocator :=
  mkBFC (s.(memory_limit_)) (s.(garbage_collection_)) (s.(curr_region_allocation_bytes_)) (s.(total_region_allocated_bytes_)) (s.(started_backpedal_)) (s.(sub_allocator_)) (s.(timing_counter_)) (s.(timestamped_chunks_)) (s.(safe_frontier_)) (s.(regions_)) (s.(chunks_)) (s.(free_chunks_list_)) (s.(next_allocation_id_)) v (s.(bins_)).
Definition set_bins (v : list (list nat)) (s : BFCAllocator) : BFCAllocator :=
  mkBFC (s.(memory_limit_)) (s.(garbage_collection_)) (s.(curr_region_allocation_bytes_)) (s.(total_region_allocated_bytes_)) (s.(started_backpedal_)) (s.(sub_allocator_)) (s.(timing_counter_)) (s.(timestamped_chunks_)) (s.(safe_frontier_)) (s.(regions_)) (s.(chunks_)) (s.(free_chunks_list_)) (s.(next_allocation_id_)) (s.(stats_)) v.

Abbreviation MB := (M BFCAllocator).

(** [BFCAllocator::BFCAllocator]; the [CHECK]s on the bin sizes are
    [bins_check] below. *)
Definition BFCAllocator_init (sub : Sub) (total_memory : Z) (allow_growth garbage_collection : bool) : BFCAllocator :=
  let curr := if allow_growth then RoundedBytes (Z.min total_memory 1048576)
              else RoundedBytes total_memory in
  mkBFC total_memory garbage_collection curr 0 false sub None [] 0 [] [] None 1
        (mkStats 0 0 0 0 total_memory) (replicate kNumBins []).

Definition bins_check : bool :=
  forallb (fun b =>
    let bin_size := BinNumToSize b in
    (BinNumForSize bin_size =? b)%nat
    && (BinNumForSize (bin_size + 255) =? b)%nat
    && (BinNumForSize (bin_size * 2 - 1) =? b)%nat
    && (if (b + 1 <? kNumBins)%nat then negb (BinNumForSize (bin_size * 2) =? b)%nat else true))
  (seq 0 kNumBins).

(** ** Chunks *)

Definition ChunkFromHandle (h : nat) : MB Chunk :=
  s ← get; of_option (chunks_ s !! h).

(** A write through the pointer [ChunkFromHandle(h)]. *)
Definition modify_chunk (h : nat) (f : Chunk -> Chunk) : MB unit :=
  c ← ChunkFromHandle h;
  modify (fun s => set_chunks (<[h := f c]> (chunks_ s)) s).

Definition get_handle (p : Z) : MB (option nat) :=
  s ← get; of_option (rm_get_handle (regions_ s) p).

Definition set_handle (p : Z) (h : nat) : MB unit :=
  s ← get;
  rs ← of_option (rm_set_handle (regions_ s) p (Some h));
  modify (set_regions rs).

Definition erase_handle (p : Z) : MB unit :=
  s ← get;
  rs ← of_option (rm_erase (regions_ s) p);
  modify (set_regions rs).

Definition AllocateChunk : MB nat :=
  s ← get;
  match free_chunks_list_ s with
  | Some h =>
      c ← ChunkFromHandle h;
      modify (set_free_chunks_list (c_next c));;
      mret h
  | None =>
      let h := length (chunks_ s) in
      modify (set_chunks (chunks_ s ++ [default_Chunk]));;
      mret h
  end.

Definition DeallocateChunk (h : nat) : MB unit :=
  s ← get;
  modify_chunk h (fun c =>
    c_set_next (free_chunks_list_ s) (c_set_bin_num None (c_set_allocation_id (-1) c)));;
  modify (set_free_chunks_list (Some h)).

Definition DeleteChunk (h : nat) : MB unit :=
  c ← ChunkFromHandle h;
  erase_handle (c_ptr c);;
  DeallocateChunk h.

Definition is_none {A} (o : option A) : bool := match o with None => true | Some _ => false end.

Definition InsertFreeChunkIntoBin (h : nat) : MB unit :=
  c ← ChunkFromHandle h;
  CHECK (negb (in_use c) && is_none (c_bin_num c));;
  let bin_num := BinNumForSize (c_size c) in
  modify_chunk h (c_set_bin_num (Some bin_num));;
  s ← get;
  free_chunks ← of_option (bins_ s !! bin_num);
  modify (set_bins (<[bin_num := FreeChunkSet_insert (ChunkComparator (chunks_ s)) h free_chunks]> (bins_ s))).

Definition RemoveFreeChunkIterFromBin (bin_num : nat) (h : nat) : MB unit :=
  c ← ChunkFromHandle h;
  CHECK (negb (in_use c) && negb (is_none (c_bin_num c)));;
  s ← get;
  free_chunks ← of_option (bins_ s !! bin_num);
  modify (set_bins (<[bin_num := FreeChunkSet_erase_iter h free_chunks]> (bins_ s)));;
  modify_chunk h (c_set_bin_num None).

Definition RemoveFreeChunkFromBin (h : nat) : MB unit :=
  c ← ChunkFromHandle h;
  CHECK (negb (in_use c) && negb (is_none (c_bin_num c)));;
  bin_num ← of_option (c_bin_num c);
  s ← get;
  free_chunks ← of_option (bins_ s !! bin_num);
  let fc' := FreeChunkSet_erase (ChunkComparator (chunks_ s)) h free_chunks in
  CHECK (length fc' <? length free_chunks)%nat;;
  modify (set_bins (<[bin_num := fc']> (bins_ s)));;
  modify_chunk h (c_set_bin_num None).

Definition MarkFree (h : nat) : MB unit :=
  c ← ChunkFromHandle h;
  CHECK (in_use c && is_none (c_bin_num c));;
  modify_chunk h (c_set_allocation_id (-1));;
  s ← get;
  match timing_counter_ s with
  | Some v =>
      modify (set_timing_counter (Some (v + 1)));;
      modify_chunk h (c_set_freed_at_count (v + 1))
  | None => mret tt
  end;;
  modify (fun s => let st := stats_ s in
    set_stats (mkStats (num_allocs st) (bytes_in_use st - c_size c) (peak_bytes_in_use st)
                       (largest_alloc_size st) (bytes_limit st)) s).

(** ** Splitting and merging *)

Definition SplitChunk (h : nat) (num_bytes : Z) : MB unit :=
  h_new_chunk ← AllocateChunk;
  c ← ChunkFromHandle h;
  CHECK (negb (in_use c) && is_none (c_bin_num c));;
  let new_ptr := c_ptr c + num_bytes in
  modify_chunk h_new_chunk (c_set_ptr new_ptr);;
  set_handle new_ptr h_new_chunk;;
  modify_chunk h_new_chunk (c_set_size (u64 (c_size c - num_bytes)));;
  modify_chunk h (c_set_size num_bytes);;
  modify_chunk h_new_chunk (c_set_allocation_id (-1));;
  modify_chunk h_new_chunk (c_set_freed_at_count (c_freed_at_count c));;
  let h_neighbor := c_next c in
  modify_chunk h_new_chunk (c_set_prev (Some h));;
  modify_chunk h_new_chunk (c_set_next h_neighbor);;
  modify_chunk h (c_set_next (Some h_new_chunk));;
  match h_neighbor with
  | Some hn => modify_chunk hn (c_set_prev (Some h_new_chunk))
  | None => mret tt
  end;;
  InsertFreeChunkIntoBin h_new_chunk.

Definition Merge (h1 h2 : nat) : MB unit :=
  c1 ← ChunkFromHandle h1;
  c2 ← ChunkFromHandle h2;
  CHECK (negb (in_use c1) && negb (in_use c2));;
  let h3 := c_next c2 in
  modify_chunk h1 (c_set_next h3);;
  CHECK (bool_decide (c_prev c2 = Some h1));;
  match h3 with
  | Some h => modify_chunk h (c_set_prev (Some h1))
  | None => mret tt
  end;;
  modify_chunk h1 (fun c => c_set_size (u64 (c_size c + c_size c2)) c);;
  modify_chunk h1 (fun c => c_set_freed_at_count (Z.max (c_freed_at_count c) (c_freed_at_count c2)) c);;
  DeleteChunk h2.

Definition TryToCoalesce (h : nat) (ignore_freed_at : bool) : MB nat :=
  c ← ChunkFromHandle h;
  if negb ignore_freed_at && (0 <? c_freed_at_count c) then mret h
  else
    match c_next c with
    | Some hn =>
        n ← ChunkFromHandle hn;
        if negb (in_use n) && ((c_freed_at_count n =? 0) || ignore_freed_at) then
          RemoveFreeChunkFromBin hn;;
          Merge h hn
        else mret tt
    | None => mret tt
    end;;
    c ← ChunkFromHandle h;
    match c_prev c with
    | Some hp =>
        n ← ChunkFromHandle hp;
        if negb (in_use n) && ((c_freed_at_count n =? 0) || ignore_freed_at) then
          RemoveFreeChunkFromBin hp;;
          Merge hp h;;
          mret hp
        else mret h
    | None => mret h
    end.

(** ** Allocation *)

(** The inner loop of [FindChunkPtr]: the first chunk of a bin, in bin order,
    whose time stamp is acceptable and which is large enough. *)
Fixpoint FindInBin (rounded_bytes freed_before : Z) (l : list nat) : MB (option nat) :=
  match l with
  | [] => mret None
  | h :: t =>
      chunk ← ChunkFromHandle h;
      CHECK (negb (in_use chunk));;
      if (0 <? freed_before) && (freed_before <? c_freed_at_count chunk) then
        FindInBin rounded_bytes freed_before t
      else if rounded_bytes <=? c_size chunk then mret (Some h)
      else FindInBin rounded_bytes freed_before t
  end.

(** The body of [FindChunkPtr] once a chunk has been found. *)
Definition TakeChunk (bin_num : nat) (h : nat) (rounded_bytes num_bytes : Z) : MB Z :=
  RemoveFreeChunkIterFromBin bin_num h;;
  chunk ← ChunkFromHandle h;
  (if (u64 (rounded_bytes * 2) <=? c_size chunk)
      || (kMaxInternalFragmentation <=? u64 (c_size chunk - rounded_bytes))
   then SplitChunk h rounded_bytes
   else mret tt);;
  modify_chunk h (c_set_requested_size num_bytes);;
  s ← get;
  modify_chunk h (c_set_allocation_id (next_allocation_id_ s));;
  modify (set_next_allocation_id (next_allocation_id_ s + 1));;
  chunk ← ChunkFromHandle h;
  modify (fun s =>
    let st := stats_ s in
    let b := bytes_in_use st + c_size chunk in
    set_stats (mkStats (num_allocs st + 1) b (Z.max (peak_bytes_in_use st) b)
                       (Z.max (largest_alloc_size st) (c_size chunk)) (bytes_limit st)) s);;
  mret (c_ptr chunk).

(** [n] bins remain to be searched, from bin [kNumBins - n] on. *)
Fixpoint FindChunkPtr_loop (n : nat) (rounded_bytes num_bytes freed_before : Z) : MB Z :=
  match n with
  | O => mret 0
  | S n' =>
      let bin_num := (kNumBins - n)%nat in
      s ← get;
      free_chunks ← of_option (bins_ s !! bin_num);
      found ← FindInBin rounded_bytes freed_before free_chunks;
      match found with
      | Some h => TakeChunk bin_num h rounded_bytes num_bytes
      | None => FindChunkPtr_loop n' rounded_bytes num_bytes freed_before
      end
  end.

Definition FindChunkPtr (bin_num : nat) (rounded_bytes num_bytes freed_before : Z) : MB Z :=
  FindChunkPtr_loop (kNumBins - bin_num)%nat rounded_bytes num_bytes freed_before.

(** ** Growth *)

Fixpoint GrowRegion_loop (fuel : nat) (rounded_bytes curr : Z) (increased : bool) : outcome (Z * bool) :=
  if curr <? rounded_bytes then
    match fuel with
    | O => NoFuel
    | S f => GrowRegion_loop f rounded_bytes (u64 (curr * 2)) true
    end
  else Val (curr, increased).

Definition SubAlloc (alignment bytes : Z) : MB Z :=
  s ← get;
  let '(p, sub) := sa_Alloc (sub_allocator_ s) alignment bytes in
  modify (set_sub_allocator sub);;
  mret p.

Fixpoint Backpedal_loop (fuel : nat) (alignment rounded_bytes bytes : Z) : MB (Z * Z) :=
  match fuel with
  | O => nofuel
  | S f =>
      let bytes := backpedal bytes in
      if bytes <? rounded_bytes then mret (0, bytes)
      else
        mem_addr ← SubAlloc alignment bytes;
        if mem_addr =? 0 then Backpedal_loop f alignment rounded_bytes bytes
        else mret (mem_addr, bytes)
  end.

Definition Extend (fuel : nat) (alignment rounded_bytes : Z) : MB bool :=
  s ← get;
  let available_bytes := u64 (memory_limit_ s - total_region_allocated_bytes_ s) in
  let available_bytes := available_bytes / kMinAllocationSize * kMinAllocationSize in
  if available_bytes <? rounded_bytes then mret false
  else
    '(curr, increased_allocation) ←
       (fun s => match GrowRegion_loop fuel rounded_bytes (curr_region_allocation_bytes_ s) false with
                 | Val r => Val (r, s)
                 | Crash => Crash
                 | NoFuel => NoFuel
                 end);
    modify (set_curr_region_allocation_bytes curr);;
    let bytes := Z.min curr available_bytes in
    mem_addr ← SubAlloc alignment bytes;
    s ← get;
    '(mem_addr, bytes) ←
       (if (mem_addr =? 0) && negb (started_backpedal_ s) then
          modify (set_started_backpedal true);;
          Backpedal_loop fuel alignment rounded_bytes bytes
        else mret (mem_addr, bytes));
    if mem_addr =? 0 then mret false
    else
      (if negb increased_allocation then
         modify (fun s => set_curr_region_allocation_bytes (u64 (curr_region_allocation_bytes_ s * 2)) s)
       else mret tt);;
      modify (fun s => set_total_region_allocated_bytes (u64 (total_region_allocated_bytes_ s + bytes)) s);;
      CHECK (bytes mod kMinAllocationSize =? 0);;
      modify (fun s => set_regions (AddAllocationRegion (regions_ s) mem_addr bytes) s);;
      h ← AllocateChunk;
      modify_chunk h (fun c =>
        c_set_freed_at_count 0 (c_set_next None (c_set_prev None (c_set_allocation_id (-1)
          (c_set_size bytes (c_set_ptr mem_addr c))))));;
      set_handle mem_addr h;;
      InsertFreeChunkIntoBin h;;
      mret true.

(** ** Time-stamped chunks *)

(** The first loop of [MergeTimestampedChunks]: drains the queue into the
    addresses to merge and the handles to keep. *)
Fixpoint MergeTimestamped_drain (required_bytes : Z) (queue : list nat) (to_merge : list Z) (new_ts_queue : list nat)
  : MB (list Z * list nat) :=
  match queue with
  | [] => mret (to_merge, new_ts_queue)
  | h :: queue =>
      c ← ChunkFromHandle h;
      oh ← get_handle (c_ptr c);
      match oh with
      | None => MergeTimestamped_drain required_bytes queue to_merge new_ts_queue
      | Some h' =>
          if in_use c || is_none (c_bin_num c) then
            MergeTimestamped_drain required_bytes queue to_merge new_ts_queue
          else if c_freed_at_count c =? 0 then
            MergeTimestamped_drain required_bytes queue (to_merge ++ [c_ptr c]) new_ts_queue
          else
            s ← get;
            if c_freed_at_count c <? safe_frontier_ s then
              modify_chunk h (c_set_freed_at_count 0);;
              MergeTimestamped_drain required_bytes queue (to_merge ++ [c_ptr c]) new_ts_queue
            else if 0 <? required_bytes then
              MergeTimestamped_drain required_bytes queue (to_merge ++ [c_ptr c]) new_ts_queue
            else MergeTimestamped_drain required_bytes queue to_merge (new_ts_queue ++ [h'])
      end
  end.

Definition push_timestamped (h : nat) : MB unit :=
  modify (fun s => set_timestamped_chunks (timestamped_chunks_ s ++ [h]) s).

(** The second loop: coalesces the collected chunks. *)
Fixpoint MergeTimestamped_merge (required_bytes : Z) (to_merge : list Z) (satisfied : bool) : MB bool :=
  match to_merge with
  | [] => mret satisfied
  | ptr :: to_merge =>
      oh ← get_handle ptr;
      match oh with
      | None => MergeTimestamped_merge required_bytes to_merge satisfied
      | Some h =>
          if (required_bytes =? 0) || negb satisfied then
            c ← ChunkFromHandle h;
            CHECK (negb (is_none (c_bin_num c)) && negb (in_use c));;
            RemoveFreeChunkFromBin h;;
            new_h ← TryToCoalesce h (0 <? required_bytes);
            InsertFreeChunkIntoBin new_h;;
            if 0 <? required_bytes then
              c ← ChunkFromHandle new_h;
              (if negb (Nat.eqb new_h h) && (0 <? c_freed_at_count c)
               then push_timestamped new_h else mret tt);;
              MergeTimestamped_merge required_bytes to_merge
                (if required_bytes <=? c_size c then true else satisfied)
            else MergeTimestamped_merge required_bytes to_merge satisfied
          else
            push_timestamped h;;
            MergeTimestamped_merge required_bytes to_merge satisfied
      end
  end.

Definition MergeTimestampedChunks (required_bytes : Z) : MB bool :=
  let satisfied := required_bytes =? 0 in
  s ← get;
  '(to_merge, new_ts_queue) ←
    MergeTimestamped_drain required_bytes (timestamped_chunks_ s) [] [];
  modify (set_timestamped_chunks new_ts_queue);;
  MergeTimestamped_merge required_bytes to_merge satisfied.

(** ** Garbage collection of free regions *)

(** The [while] loop over the chunks of a region that looks for one in use. *)
Fixpoint AnyUse_loop (fuel : nat) (oh : option nat) : MB bool :=
  match oh with
  | None => mret false
  | Some h =>
      match fuel with
      | O => nofuel
      | S f =>
          c ← ChunkFromHandle h;
          if in_use c then mret true else AnyUse_loop f (c_next c)
      end
  end.

Fixpoint FreeRegions_loop (fuel : nat) (rs : list AllocationRegion) (ptrs : gset Z) (total_free_bytes : Z)
  : MB (gset Z * Z) :=
  match rs with
  | [] => mret (ptrs, total_free_bytes)
  | region :: rs =>
      h ← get_handle (r_ptr region);
      any_use ← AnyUse_loop fuel h;
      if (any_use : bool) then FreeRegions_loop fuel rs ptrs total_free_bytes
      else FreeRegions_loop fuel rs ({[r_ptr region]} ∪ ptrs)
             (u64 (total_free_bytes + r_memory_size region))
  end.

(** Removes the chunks of a region from the bins and deletes them. *)
Fixpoint DeleteChunks_loop (fuel : nat) (oh : option nat) : MB unit :=
  match oh with
  | None => mret tt
  | Some h =>
      match fuel with
      | O => nofuel
      | S f =>
          c ← ChunkFromHandle h;
          (if negb (is_none (c_bin_num c)) then RemoveFreeChunkFromBin h else mret tt);;
          c ← ChunkFromHandle h;
          let h_to_delete := h in
          let oh := c_next c in
          DeleteChunk h_to_delete;;
          DeleteChunks_loop f oh
      end
  end.

(** [it] is the position of the iterator in the vector of regions, [n] the
    number of regions not yet visited. *)
Fixpoint DeallocateRegions_loop (fuel n : nat) (region_ptrs : gset Z) (it : nat) : MB unit :=
  match n with
  | O => mret tt
  | S n =>
      s ← get;
      r ← of_option (regions_ s !! it);
      if bool_decide (r_ptr r ∈ region_ptrs) then
        h ← get_handle (r_ptr r);
        DeleteChunks_loop fuel h;;
        modify (fun s => set_sub_allocator (sa_Free (sub_allocator_ s) (r_ptr r) (r_memory_size r)) s);;
        modify (fun s => set_total_region_allocated_bytes
                           (u64 (total_region_allocated_bytes_ s - r_memory_size r)) s);;
        modify (fun s => set_regions (RemoveAllocationRegion (regions_ s) it) s);;
        DeallocateRegions_loop fuel n region_ptrs it
      else DeallocateRegions_loop fuel n region_ptrs (S it)
  end.

Definition DeallocateRegions (region_ptrs : gset Z) : MB unit :=
  s ← get;
  DeallocateRegions_loop (length (chunks_ s)) (length (regions_ s)) region_ptrs 0.

Definition DeallocateFreeRegions (rounded_bytes : Z) : MB bool :=
  s ← get;
  if negb (garbage_collection_ s) then mret false
  else
    '(free_region_ptrs, total_free_bytes) ←
       FreeRegions_loop (length (chunks_ s)) (regions_ s) ∅ 0;
    if total_free_bytes =? 0 then mret false
    else
      let available_bytes :=
        u64 (memory_limit_ s - total_region_allocated_bytes_ s + total_free_bytes) in
      if available_bytes <? rounded_bytes then mret false
      else
        DeallocateRegions free_region_ptrs;;
        mret true.

(** ** The public operations *)

Definition AllocateRawInternal (fuel : nat) (alignment num_bytes freed_before : Z) : MB Z :=
  if num_bytes =? 0 then mret 0
  else
    let rounded_bytes := RoundedBytes num_bytes in
    let bin_num := BinNumForSize rounded_bytes in
    s ← get;
    (match timestamped_chunks_ s with
     | [] => mret tt
     | _ => MergeTimestampedChunks 0;; mret tt
     end);;
    ptr ← FindChunkPtr bin_num rounded_bytes num_bytes freed_before;
    if negb (ptr =? 0) then mret ptr
    else
      extended ← Extend fuel alignment rounded_bytes;
      ptr ← (if (extended : bool) then FindChunkPtr bin_num rounded_bytes num_bytes freed_before
             else mret 0);
      if negb (ptr =? 0) then mret ptr
      else
        s ← get;
        ptr ← (if (freed_before =? 0) && negb (bool_decide (timestamped_chunks_ s = [])) then
                 merged ← MergeTimestampedChunks rounded_bytes;
                 if (merged : bool) then FindChunkPtr bin_num rounded_bytes num_bytes freed_before
                 else mret 0
               else mret 0);
        if negb (ptr =? 0) then mret ptr
        else
          deallocated ← DeallocateFreeRegions rounded_bytes;
          if (deallocated : bool) then
            extended ← Extend fuel alignment rounded_bytes;
            if (extended : bool) then FindChunkPtr bin_num rounded_bytes num_bytes freed_before
            else mret 0
          else mret 0.

Definition DeallocateRawInternal (ptr : Z) : MB unit :=
  if ptr =? 0 then mret tt
  else
    oh ← get_handle ptr;
    h ← of_option oh;
    MarkFree h;;
    s ← get;
    match timing_counter_ s with
    | Some _ =>
        InsertFreeChunkIntoBin h;;
        push_timestamped h
    | None =>
        h' ← TryToCoalesce h false;
        InsertFreeChunkIntoBin h'
    end.

Definition SetSafeFrontier (count : Z) : MB unit :=
  modify (fun s => if safe_frontier_ s <? count then set_safe_frontier count s else s).

Definition chunk_of_ptr (ptr : Z) : MB Chunk :=
  oh ← get_handle ptr;
  h ← of_option oh;
  ChunkFromHandle h.

Definition RequestedSize (ptr : Z) : MB Z :=
  CHECK (negb (ptr =? 0));;
  c ← chunk_of_ptr ptr;
  mret (c_requested_size c).

Definition AllocatedSize (ptr : Z) : MB Z :=
  c ← chunk_of_ptr ptr;
  mret (c_size c).

Definition AllocationId (ptr : Z) : MB Z :=
  c ← chunk_of_ptr ptr;
  mret (c_allocation_id c).

Definition GetStats : MB AllocatorStats := gets stats_.

Definition ClearStats : MB unit :=
  modify (fun s => let st := stats_ s in
    set_stats (mkStats 0 (bytes_in_use st) (bytes_in_use st) 0 (bytes_limit st)) s).

(** [SetTimingCounter]: the value of the shared counter that is installed. *)
Definition SetTimingCounter (sc : option Z) : MB unit :=
  modify (set_timing_counter sc).

End model.
Arguments BFCAllocator Sub : clear implicits.
