(* ===== verification/BfcRegions.v ===== *)
(** * The region manager of the BFC allocator

    [AllocationRegion] and [RegionManager] ([bfc_allocator.h]) keep, for a sorted
    vector of disjoint memory regions, an array of chunk handles with one slot per
    256 bytes.  The lemmas below show that the vector implements a finite map from
    the slot addresses [rm_addr] to handles: lookups, updates, insertion and removal
    of a region. *)

From S2P Require Import Prelude BfcAllocator.

Lemma kMin_256 : kMinAllocationSize = 256.
Proof. reflexivity. Qed.

(** ** Well-formed region vectors *)

Record region_wf (r : AllocationRegion) : Prop := {
  rw_ptr : 0 < r_ptr r;
  rw_size : 0 < r_memory_size r;
  rw_div : (256 | r_memory_size r);
  rw_end : r_end_ptr r = r_ptr r + r_memory_size r;
  rw_bound : r_end_ptr r < 2 ^ 64;
  rw_handles : length (r_handles r) = Z.to_nat (r_memory_size r / 256)
}.

Definition region_before (r1 r2 : AllocationRegion) : Prop := r_end_ptr r1 <= r_ptr r2.

Definition rm_wf (rs : list AllocationRegion) : Prop :=
  Forall region_wf rs /\ StronglySorted region_before rs.

(** [p] is the address of a slot of region [r]. *)
Definition slot_of (r : AllocationRegion) (p : Z) : Prop :=
  r_ptr r <= p < r_end_ptr r /\ (256 | p - r_ptr r).

Definition rm_addr (rs : list AllocationRegion) (p : Z) : Prop :=
  exists r, r ∈ rs /\ slot_of r p.

Definition geometry (r : AllocationRegion) : Z * Z * Z := (r_ptr r, r_memory_size r, r_end_ptr r).

(** ** Lookup *)

Lemma upper_bound_split rs l1 r l2 p :
  rs = l1 ++ r :: l2 -> rm_wf rs -> r_ptr r <= p < r_end_ptr r -> upper_bound p rs = length l1.
Proof.
  intros -> [Hwf Hs] Hp. apply StronglySorted_app in Hs as (Hs & _ & _).
  assert (Forall (fun x => r_end_ptr x <= p) l1) as Hl.
  { apply Forall_forall. intros x Hx. assert (region_before x r) as Hb by (apply Hs; [done|elem]).
    unfold region_before in Hb. lia. }
  clear Hwf Hs. induction Hl as [|x l1 Hx Hl IH]; simpl; unfold Comparator.
  - destruct (Z.ltb_spec p (r_end_ptr r)); [done|lia].
  - destruct (Z.ltb_spec p (r_end_ptr x)); [lia|]. by rewrite IH.
Qed.

Lemma RegionFor_split rs l1 r l2 p :
  rs = l1 ++ r :: l2 -> rm_wf rs -> r_ptr r <= p < r_end_ptr r ->
  RegionFor rs p = Some (length l1, r).
Proof.
  intros E Hwf Hp. unfold RegionFor. rewrite (upper_bound_split _ _ _ _ _ E Hwf Hp), E.
  by rewrite list_lookup_middle.
Qed.

Definition slot_index (r : AllocationRegion) (p : Z) : nat := Z.to_nat ((p - r_ptr r) / 256).

Lemma IndexFor_slot r p :
  region_wf r -> r_ptr r <= p < r_end_ptr r -> IndexFor r p = Some (slot_index r p).
Proof.
  intros [] Hp. unfold IndexFor, slot_index, kMinAllocationBits.
  destruct (Z.leb_spec (r_ptr r) p), (Z.ltb_spec p (r_ptr r + r_memory_size r)); simpl; try lia.
  rewrite Z.shiftr_div_pow2 by lia. done.
Qed.

Lemma slot_index_lt r p :
  region_wf r -> r_ptr r <= p < r_end_ptr r -> (slot_index r p < length (r_handles r))%nat.
Proof.
  intros [] Hp. unfold slot_index. rewrite rw_handles0.
  destruct rw_div0 as [k Hk]. apply Z2Nat.inj_lt; [apply Z.div_pos; lia| |].
  - rewrite Hk, Z.div_mul; lia.
  - apply Z.div_lt_upper_bound; [lia|]. rewrite Hk, Z.div_mul by lia. lia.
Qed.

Lemma slot_index_inj r p q :
  slot_of r p -> slot_of r q -> slot_index r p = slot_index r q -> p = q.
Proof.
  unfold slot_of, slot_index. intros [? [k Hk]] [? [j Hj]].
  rewrite Hk, Hj, !Z.div_mul by lia. lia.
Qed.

Lemma rm_get_handle_split rs l1 r l2 p :
  rs = l1 ++ r :: l2 -> rm_wf rs -> r_ptr r <= p < r_end_ptr r ->
  rm_get_handle rs p = r_handles r !! slot_index r p.
Proof.
  intros E Hwf Hp. unfold rm_get_handle. rewrite (RegionFor_split _ _ _ _ _ E Hwf Hp). simpl.
  unfold region_get_handle. rewrite IndexFor_slot; [done| |done].
  destruct Hwf as [Hwf _]. rewrite E in Hwf. decompose_Forall. done.
Qed.

Lemma rm_wf_region rs r : rm_wf rs -> r ∈ rs -> region_wf r.
Proof. intros [H _] Hr. rewrite Forall_forall in H. auto. Qed.

Lemma rm_get_handle_addr rs p : rm_wf rs -> rm_addr rs p -> is_Some (rm_get_handle rs p).
Proof.
  intros Hwf (r & Hr & Hp & _). apply list_elem_of_split in Hr as (l1 & l2 & E).
  rewrite (rm_get_handle_split _ _ _ _ _ E Hwf Hp). apply lookup_lt_is_Some_2.
  apply slot_index_lt; [|done]. apply (rm_wf_region rs); [done|]. rewrite E. elem.
Qed.

(** Two regions that share an address are the same region. *)
Lemma rm_region_unique rs r1 r2 p :
  rm_wf rs -> r1 ∈ rs -> r2 ∈ rs ->
  r_ptr r1 <= p < r_end_ptr r1 -> r_ptr r2 <= p < r_end_ptr r2 -> r1 = r2.
Proof.
  intros Hwf H1 H2 Hp1 Hp2.
  apply list_elem_of_split in H1 as (l1 & l2 & E1), H2 as (k1 & k2 & E2).
  pose proof (RegionFor_split _ _ _ _ _ E1 Hwf Hp1) as F1.
  pose proof (RegionFor_split _ _ _ _ _ E2 Hwf Hp2) as F2. congruence.
Qed.

(** ** Update *)

(** Replacing a region by one with the same geometry. *)
Lemma rm_wf_geometry rs rs' :
  map geometry rs = map geometry rs' -> Forall region_wf rs' -> rm_wf rs -> rm_wf rs'.
Proof.
  intros E Hwf' [Hwf Hs]. split; [done|]. clear Hwf Hwf'. revert rs' E.
  induction Hs as [|r rs Hs IH Hr]; intros [|r' rs'] E; try discriminate; [constructor|].
  injection E as Ea Eb Ec Ed.
  constructor; [by apply IH|]. rewrite Forall_forall in *. intros x Hx.
  assert (geometry x ∈ map geometry rs) as Hg by (rewrite Ed; by apply list_elem_of_fmap_2).
  apply list_elem_of_fmap in Hg as (y & Hy & Hin). specialize (Hr _ Hin).
  unfold region_before in *. injection Hy as ???. lia.
Qed.

Lemma rm_addr_geometry rs rs' p :
  map geometry rs = map geometry rs' -> rm_addr rs p -> rm_addr rs' p.
Proof.
  intros E (r & Hr & Hs).
  assert (geometry r ∈ map geometry rs') as Hg by (rewrite <- E; by apply list_elem_of_fmap_2).
  apply list_elem_of_fmap in Hg as (r' & Hg & Hr'). exists r'. split; [done|].
  injection Hg as Ea Eb Ec. unfold slot_of in *. by rewrite <- Ea, <- Ec.
Qed.

Lemma rm_set_handle_spec rs p o :
  rm_wf rs -> rm_addr rs p ->
  exists rs', rm_set_handle rs p o = Some rs'
    /\ rm_wf rs' /\ map geometry rs' = map geometry rs
    /\ forall q, rm_addr rs q ->
         rm_get_handle rs' q = if decide (q = p) then Some o else rm_get_handle rs q.
Proof.
  intros Hwf (r & Hr & Hp). pose proof (rm_wf_region _ _ Hwf Hr) as Hrw.
  apply list_elem_of_split in Hr as (l1 & l2 & E). destruct Hp as [Hp Hd].
  set (r' := mkRegion (r_ptr r) (r_memory_size r) (r_end_ptr r) (<[slot_index r p:=o]> (r_handles r))).
  exists (l1 ++ r' :: l2).
  assert (rm_set_handle rs p o = Some (l1 ++ r' :: l2)) as Hset.
  { unfold rm_set_handle. rewrite (RegionFor_split _ _ _ _ _ E Hwf Hp). simpl.
    unfold region_set_handle. rewrite IndexFor_slot by done. simpl.
    rewrite bool_decide_true by (by apply slot_index_lt). simpl.
    rewrite E, insert_app_r_alt by lia. by rewrite Nat.sub_diag. }
  assert (map geometry (l1 ++ r' :: l2) = map geometry rs) as Hg.
  { rewrite E, !map_app. done. }
  assert (rm_wf (l1 ++ r' :: l2)) as Hwf'.
  { apply (rm_wf_geometry rs); [done| |done]. destruct Hwf as [Hf _]. rewrite E in Hf.
    apply Forall_app in Hf as [? Hf]. apply Forall_cons in Hf as [? ?].
    apply Forall_app; split; [done|]. constructor; [|done].
    destruct Hrw; constructor; simpl; try done. by rewrite length_insert. }
  split_and!; [done..|]. intros q (rq & Hrq & Hq).
  destruct (decide (rq = r)) as [->|Hne].
  - rewrite (rm_get_handle_split _ _ r' l2 _ eq_refl Hwf') by apply Hq.
    change (slot_index r' q) with (slot_index r q). simpl. case_decide as Hqp.
    + subst q. apply list_lookup_insert_eq, slot_index_lt; [done|apply Hq].
    + rewrite list_lookup_insert_ne.
      * symmetry. apply (rm_get_handle_split _ _ _ _ _ E Hwf), Hq.
      * intros Hi. apply Hqp. symmetry. by apply (slot_index_inj r).
  - assert (q <> p) as Hqp.
    { intros ->. apply Hne. apply (rm_region_unique rs _ _ p); [done..| |apply Hq|done].
      rewrite E. elem. }
    rewrite decide_False by done. rewrite E in Hrq.
    assert (rq ∈ l1 ++ r' :: l2) as Hrq' by elem.
    apply list_elem_of_split in Hrq' as (k1 & k2 & E').
    rewrite (rm_get_handle_split _ _ _ _ _ E' Hwf') by apply Hq.
    rewrite <- E in Hrq. apply list_elem_of_split in Hrq as (j1 & j2 & E'').
    by rewrite (rm_get_handle_split _ _ _ _ _ E'' Hwf) by apply Hq.
Qed.

(** ** Adding and removing a region *)

Lemma upper_bound_insert rs p :
  take (upper_bound p rs) rs ++ drop (upper_bound p rs) rs = rs
  /\ Forall (fun r => r_end_ptr r <= p) (take (upper_bound p rs) rs)
  /\ (StronglySorted region_before rs -> Forall region_wf rs ->
      Forall (fun r => p < r_end_ptr r) (drop (upper_bound p rs) rs)).
Proof.
  split; [apply take_drop|]. induction rs as [|r rs [IH1 IH2]]; simpl; [by split|].
  unfold Comparator. destruct (Z.ltb_spec p (r_end_ptr r)); simpl.
  - split; [constructor|]. intros Hs Hwf. inversion Hs as [|? ? Hs' Hr]; subst.
    inversion Hwf as [|? ? _ Hwf']; subst. constructor; [done|].
    rewrite Forall_forall in *. intros x Hx. specialize (Hr _ Hx). specialize (Hwf' _ Hx).
    destruct Hwf'. unfold region_before in Hr. lia.
  - split; [by constructor|]. intros Hs Hwf. inversion Hs; inversion Hwf; subst. auto.
Qed.

(** [p, p + n) does not meet any region. *)
Definition fresh_range (rs : list AllocationRegion) (p n : Z) : Prop :=
  Forall (fun r => p + n <= r_ptr r \/ r_end_ptr r <= p) rs.

Lemma new_region_wf p n :
  0 < p -> 0 < n -> (256 | n) -> p + n < 2 ^ 64 -> region_wf (new_AllocationRegion p n).
Proof.
  intros Hp Hn [k ->] Hb. constructor; simpl; try done; [by exists k|].
  rewrite length_replicate, kMin_256, u64_small by lia. f_equal.
  replace (k * 256 + 256 - 1) with (255 + k * 256) by lia.
  rewrite !Z.div_add, Z.div_mul by lia. done.
Qed.

Lemma AddAllocationRegion_wf rs p n :
  rm_wf rs -> 0 < p -> 0 < n -> (256 | n) -> p + n < 2 ^ 64 -> fresh_range rs p n ->
  rm_wf (AddAllocationRegion rs p n).
Proof.
  intros [Hwf Hs] Hp Hn Hd Hb Hf.
  destruct (upper_bound_insert rs p) as (E & H1 & H2). specialize (H2 Hs Hwf).
  unfold AddAllocationRegion.
  set (l1 := take (upper_bound p rs) rs) in *. set (l2 := drop (upper_bound p rs) rs) in *.
  clearbody l1 l2. subst rs.
  apply Forall_app in Hwf as [Hw1 Hw2]. apply StronglySorted_app in Hs as (Hs12 & Hs1 & Hs2).
  split.
  - apply Forall_app; split; [done|]. constructor; [by apply new_region_wf|done].
  - apply StronglySorted_app. rewrite !Forall_forall in *. split_and!; [|done|].
    + intros x y Hx [->|Hy]%elem_of_cons; [|auto]. unfold region_before; simpl. auto.
    + constructor; [done|]. apply Forall_forall. intros x Hx. unfold region_before; simpl.
      unfold fresh_range in Hf. rewrite Forall_forall in Hf.
      destruct (Hf x) as [?|?]; [elem|done|]. specialize (H2 _ Hx). simpl in H2. lia.
Qed.

Lemma AddAllocationRegion_elem rs p n r :
  r ∈ AddAllocationRegion rs p n <-> r = new_AllocationRegion p n \/ r ∈ rs.
Proof.
  unfold AddAllocationRegion. rewrite elem_of_app, elem_of_cons.
  assert (r ∈ rs <-> r ∈ take (upper_bound p rs) rs \/ r ∈ drop (upper_bound p rs) rs) as ->
    by (by rewrite <- elem_of_app, take_drop). tauto.
Qed.

(** Lookups only depend on the region that holds the address. *)
Lemma rm_get_handle_mono rs rs' r p :
  rm_wf rs -> rm_wf rs' -> r ∈ rs -> r ∈ rs' -> r_ptr r <= p < r_end_ptr r ->
  rm_get_handle rs' p = rm_get_handle rs p.
Proof.
  intros Hwf Hwf' Hr Hr' Hp.
  apply list_elem_of_split in Hr as (l1 & l2 & E), Hr' as (k1 & k2 & E').
  rewrite (rm_get_handle_split _ _ _ _ _ E Hwf Hp).
  by rewrite (rm_get_handle_split _ _ _ _ _ E' Hwf' Hp).
Qed.

Lemma rm_get_handle_new rs p n q :
  rm_wf (AddAllocationRegion rs p n) -> slot_of (new_AllocationRegion p n) q ->
  rm_get_handle (AddAllocationRegion rs p n) q = Some None.
Proof.
  intros Hwf Hq. set (r := new_AllocationRegion p n) in *.
  assert (r ∈ AddAllocationRegion rs p n) as Hr by (apply AddAllocationRegion_elem; by left).
  pose proof (rm_wf_region _ _ Hwf Hr) as Hrw.
  apply list_elem_of_split in Hr as (l1 & l2 & E).
  rewrite (rm_get_handle_split _ _ _ _ _ E Hwf) by apply Hq.
  pose proof (slot_index_lt r q Hrw (proj1 Hq)) as Hlt.
  unfold r, new_AllocationRegion in *. simpl in *. rewrite length_replicate in Hlt.
  by apply lookup_replicate_2.
Qed.

Lemma RemoveAllocationRegion_wf rs it : rm_wf rs -> rm_wf (RemoveAllocationRegion rs it).
Proof.
  intros [Hwf Hs]. unfold RemoveAllocationRegion. split; [by apply Forall_delete|].
  clear Hwf. revert it. induction Hs as [|r rs Hs IH Hr]; intros [|it]; simpl; try by constructor.
  - done.
  - constructor; [apply IH|by apply Forall_delete].
Qed.
