(* ===== verification/BfcInvariant.v ===== *)
(** * The BFC allocator: its representation invariant

    The chunks of a region form a doubly linked list in address order that covers
    the region without gaps ([seg]); the dead chunks form the free list; the bins
    hold exactly the free chunks, each in the bin of its size, ordered by size and
    address; the region manager maps the address of each live chunk to its handle. *)

From S2P Require Import Prelude BfcAllocator BfcRegions.

(** ** Linked segments of chunks *)

Definition nxt (q : option nat) (t : list nat) : option nat :=
  match t with [] => q | h :: _ => Some h end.

Fixpoint lst (p : option nat) (l : list nat) : option nat :=
  match l with [] => p | h :: t => lst (Some h) t end.

(** The chunks [hs] are linked in this order, after [p] and before [q], and cover
    the addresses from [a] to [e]. *)
Fixpoint seg (cs : list Chunk) (p : option nat) (a : Z) (hs : list nat) (e : Z) (q : option nat) : Prop :=
  match hs with
  | [] => a = e
  | h :: t => exists c, cs !! h = Some c /\ c_ptr c = a /\ 0 < c_size c /\ (256 | c_size c)
                /\ c_prev c = p /\ c_next c = nxt q t
                /\ seg cs (Some h) (a + c_size c) t e q
  end.

(** The fields of a chunk that [seg] reads. *)
Definition shape (c : Chunk) := (c_ptr c, c_size c, c_prev c, c_next c).

Lemma seg_frame cs cs' p a hs e q :
  (forall h, h ∈ hs -> shape <$> cs' !! h = shape <$> cs !! h) ->
  seg cs p a hs e q -> seg cs' p a hs e q.
Proof.
  revert p a. induction hs as [|h t IH]; intros p a Hf; simpl; [done|].
  intros (c & Hc & ? & ? & ? & ? & ? & Ht).
  pose proof (Hf h ltac:(left)) as Hh. rewrite Hc in Hh.
  destruct (cs' !! h) as [c'|] eqn:Hc'; [|done]. injection Hh as E1 E2 E3 E4.
  exists c'. rewrite E1, E2, E3, E4. split_and!; try done.
  apply IH; [|done]. intros x Hx. apply Hf. by right.
Qed.

Lemma nxt_app q l1 l2 : nxt q (l1 ++ l2) = nxt (nxt q l2) l1.
Proof. by destruct l1. Qed.

Lemma seg_app cs p a l1 l2 e q :
  seg cs p a (l1 ++ l2) e q <->
  exists m, seg cs p a l1 m (nxt q l2) /\ seg cs (lst p l1) m l2 e q.
Proof.
  revert p a. induction l1 as [|h t IH]; intros p a; simpl.
  - split; [eauto|]. by intros (m & -> & H).
  - split.
    + intros (c & Hc & ? & ? & ? & ? & Hn & Ht). apply IH in Ht as (m & Ha & Hb).
      exists m. split; [|done]. exists c. rewrite nxt_app in Hn. split_and!; done.
    + intros (m & (c & Hc & ? & ? & ? & ? & Hn & Ht) & Hb). exists c.
      rewrite nxt_app. split_and!; try done. apply IH. eauto.
Qed.

Lemma seg_le cs p a hs e q : seg cs p a hs e q -> a <= e /\ (256 | e - a).
Proof.
  revert p a. induction hs as [|h t IH]; intros p a; simpl.
  - intros ->. split; [lia|]. rewrite Z.sub_diag. apply Z.divide_0_r.
  - intros (c & _ & _ & ? & ? & _ & _ & Ht). apply IH in Ht as [? Hd]. split; [lia|].
    replace (e - a) with (e - (a + c_size c) + c_size c) by lia. by apply Z.divide_add_r.
Qed.

Lemma seg_elem cs p a hs e q h :
  seg cs p a hs e q -> h ∈ hs ->
  exists c, cs !! h = Some c /\ a <= c_ptr c /\ c_ptr c + c_size c <= e
    /\ 0 < c_size c /\ (256 | c_size c) /\ (256 | c_ptr c - a).
Proof.
  intros Hs Hh. apply list_elem_of_split in Hh as (l1 & l2 & ->).
  apply seg_app in Hs as (m & Ha & Hb). simpl in Hb.
  destruct Hb as (c & Hc & Hp & ? & ? & _ & _ & Hd).
  apply seg_le in Ha as [??], Hd as [??]. exists c. subst m. split_and!; try done; lia.
Qed.

(** Two chunks of a segment do not overlap. *)
Lemma seg_disjoint cs p a hs e q h1 h2 c1 c2 :
  seg cs p a hs e q -> h1 ∈ hs -> h2 ∈ hs -> h1 <> h2 ->
  cs !! h1 = Some c1 -> cs !! h2 = Some c2 ->
  c_ptr c1 + c_size c1 <= c_ptr c2 \/ c_ptr c2 + c_size c2 <= c_ptr c1.
Proof.
  intros Hs H1 H2 Hne Hc1 Hc2. apply list_elem_of_split in H1 as (l1 & l2 & ->).
  apply seg_app in Hs as (m & Ha & Hb). simpl in Hb.
  destruct Hb as (c & Hc & Hp & ? & ? & _ & _ & Hd). simplify_eq.
  apply elem_of_app in H2 as [H2|H2].
  - destruct (seg_elem _ _ _ _ _ _ _ Ha H2) as (c' & ? & ? & ? & _). simplify_eq. lia.
  - apply elem_of_cons in H2 as [->|H2]; [done|].
    destruct (seg_elem _ _ _ _ _ _ _ Hd H2) as (c' & ? & ? & ? & _). simplify_eq. lia.
Qed.

(** ** The free list *)

Fixpoint flist (cs : list Chunk) (o : option nat) (fl : list nat) : Prop :=
  match fl with
  | [] => o = None
  | h :: t => o = Some h /\ exists c, cs !! h = Some c /\ flist cs (c_next c) t
  end.

Lemma flist_frame cs cs' o fl :
  (forall h, h ∈ fl -> c_next <$> cs' !! h = c_next <$> cs !! h) ->
  flist cs o fl -> flist cs' o fl.
Proof.
  revert o. induction fl as [|h t IH]; intros o Hf; simpl; [done|].
  intros (-> & c & Hc & Ht). split; [done|]. pose proof (Hf h ltac:(left)) as Hh.
  rewrite Hc in Hh. destruct (cs' !! h) as [c'|]; [|done]. injection Hh as Hh.
  exists c'. split; [done|]. rewrite Hh. apply IH; [|done]. intros x Hx. apply Hf. by right.
Qed.

(** ** Ordered sets of free chunks *)

Section free_chunk_set.
Context (lt : nat -> nat -> bool).
Context (lt_trans : forall x y z, lt x y = true -> lt y z = true -> lt x z = true).
Context (lt_irrefl : forall x, lt x x = false).

Abbreviation sorted := (StronglySorted (fun x y => lt x y = true)).

Lemma FreeChunkSet_insert_spec h l :
  sorted l -> (forall x, x ∈ l -> lt h x = true \/ lt x h = true) ->
  sorted (FreeChunkSet_insert lt h l)
  /\ forall x, x ∈ FreeChunkSet_insert lt h l <-> x = h \/ x ∈ l.
Proof using lt_trans.
  induction l as [|y l IH]; intros Hs Ht; simpl.
  { split; [repeat constructor|]. intros x. rewrite list_elem_of_singleton, elem_of_nil. tauto. }
  inversion Hs as [|? ? Hs' Hy]; subst. destruct (lt h y) eqn:Ehy.
  - split; [|intros x; by rewrite elem_of_cons]. constructor; [done|]. constructor; [done|].
    eapply Forall_impl; [apply Hy|]. simpl. eauto.
  - destruct (Ht y ltac:(left)) as [?|Eyh]; [congruence|]. rewrite Eyh.
    destruct IH as [IH1 IH2]; [done|intros x Hx; apply Ht; by right|]. split.
    + constructor; [done|]. apply Forall_forall. intros x [->|Hx]%IH2; [done|].
      rewrite Forall_forall in Hy. auto.
    + intros x. rewrite !elem_of_cons, IH2. tauto.
Qed.

Lemma sorted_filter f l : sorted l -> sorted (List.filter f l).
Proof using Type.
  induction 1 as [|y l Hs IH Hy]; simpl; [constructor|]. destruct (f y); [|done].
  constructor; [done|]. rewrite Forall_forall in *. intros x Hx.
  apply Hy. rewrite list_elem_of_In in *. by apply filter_In in Hx as [? _].
Qed.

Lemma FreeChunkSet_erase_spec h l :
  sorted l -> (forall x, x ∈ l -> x <> h -> lt h x = true \/ lt x h = true) ->
  sorted (FreeChunkSet_erase lt h l)
  /\ (forall x, x ∈ FreeChunkSet_erase lt h l <-> x ∈ l /\ x <> h)
  /\ (h ∈ l -> (length (FreeChunkSet_erase lt h l) < length l)%nat).
Proof using lt_irrefl.
  intros Hs Ht. unfold FreeChunkSet_erase. split_and!.
  - by apply sorted_filter.
  - intros x. rewrite !list_elem_of_In, filter_In, <- list_elem_of_In, orb_true_iff. split.
    + intros [Hx Hlt]. split; [done|]. intros ->. rewrite lt_irrefl in Hlt. by destruct Hlt.
    + intros [Hx Hne]. specialize (Ht _ Hx Hne). tauto.
  - intros Hh. clear Hs Ht. induction l as [|y l IH]; [by apply not_elem_of_nil in Hh|].
    simpl. apply elem_of_cons in Hh as [->|Hh].
    + rewrite lt_irrefl. simpl. pose proof (filter_length_le (fun x => lt x y || lt y x) l). lia.
    + specialize (IH Hh). destruct (lt y h || lt h y); simpl; lia.
Qed.

Lemma FreeChunkSet_erase_iter_spec h l :
  sorted l ->
  sorted (FreeChunkSet_erase_iter h l)
  /\ forall x, x ∈ FreeChunkSet_erase_iter h l <-> x ∈ l /\ x <> h.
Proof using Type.
  intros Hs. unfold FreeChunkSet_erase_iter. split; [by apply sorted_filter|].
  intros x. rewrite !list_elem_of_In, filter_In, negb_true_iff, Nat.eqb_neq. tauto.
Qed.

Lemma sorted_frame (lt' : nat -> nat -> bool) l :
  (forall x y, x ∈ l -> y ∈ l -> lt' x y = lt x y) ->
  sorted l -> StronglySorted (fun x y => lt' x y = true) l.
Proof using Type.
  intros Hf. induction 1 as [|y l Hs IH Hy]; constructor.
  - apply IH. intros. apply Hf; by right.
  - rewrite Forall_forall in *. intros x Hx. rewrite Hf; [auto|left|by right].
Qed.

End free_chunk_set.

Lemma ChunkComparator_trans cs x y z :
  ChunkComparator cs x y = true -> ChunkComparator cs y z = true -> ChunkComparator cs x z = true.
Proof.
  unfold ChunkComparator, chunk_lt. destruct (cs !! x), (cs !! y), (cs !! z); try done.
  repeat match goal with |- context [?a =? ?b] => destruct (Z.eqb_spec a b) end; simpl;
    rewrite ?Z.ltb_lt in *; lia.
Qed.

Lemma ChunkComparator_irrefl cs x : ChunkComparator cs x x = false.
Proof.
  unfold ChunkComparator, chunk_lt. destruct (cs !! x); [|done].
  rewrite Z.eqb_refl. simpl. apply Z.ltb_irrefl.
Qed.

Lemma ChunkComparator_total cs x y cx cy :
  cs !! x = Some cx -> cs !! y = Some cy -> c_ptr cx <> c_ptr cy ->
  ChunkComparator cs x y = true \/ ChunkComparator cs y x = true.
Proof.
  intros Hx Hy Hne. unfold ChunkComparator, chunk_lt. rewrite Hx, Hy.
  rewrite (Z.eqb_sym (c_size cy)). destruct (Z.eqb_spec (c_size cx) (c_size cy)); simpl;
    rewrite !Z.ltb_lt; lia.
Qed.

(** The fields of a chunk that the comparator reads. *)
Lemma ChunkComparator_frame cs cs' x y :
  shape <$> cs' !! x = shape <$> cs !! x -> shape <$> cs' !! y = shape <$> cs !! y ->
  ChunkComparator cs' x y = ChunkComparator cs x y.
Proof.
  unfold ChunkComparator. destruct (cs !! x), (cs' !! x), (cs !! y), (cs' !! y); try done; simpl.
  intros [= E1 E2 _ _] [= E3 E4 _ _]. unfold chunk_lt. by rewrite E1, E2, E3, E4.
Qed.

(** ** The invariant *)

(** What the allocator relies on from its [SubAllocator]: a block that is handed
    out does not overlap the blocks that are still outstanding. *)
Class SubAllocatorSpec (Sub : Type) `{SubAllocator Sub} := {
  sa_blocks : Sub -> list (Z * Z);
  sa_Alloc_ok : forall s al n p s',
    0 < n -> sa_Alloc s al n = (p, s') -> p <> 0 ->
    0 < p /\ p + n < 2 ^ 64
    /\ (forall q m, (q, m) ∈ sa_blocks s -> p + n <= q \/ q + m <= p)
    /\ (p, n) ∈ sa_blocks s'
    /\ forall b, b ∈ sa_blocks s -> b ∈ sa_blocks s';
  sa_Alloc_fail : forall s al n s',
    sa_Alloc s al n = (0, s') -> forall b, b ∈ sa_blocks s -> b ∈ sa_blocks s';
  sa_Free_ok : forall s p n b,
    b ∈ sa_blocks s -> b <> (p, n) -> b ∈ sa_blocks (sa_Free s p n)
}.

(** A block in the hands of a client: address, size, requested size, id. *)
Definition block_of (c : Chunk) : Z * Z * Z * Z :=
  (c_ptr c, c_size c, c_requested_size c, c_allocation_id c).

Definition used_blocks (cs : list Chunk) : list (Z * Z * Z * Z) :=
  map block_of (List.filter in_use cs).

Section invariant.
Context {Sub : Type} `{!SubAllocator Sub} `{!SubAllocatorSpec Sub}.

Implicit Types s : BFCAllocator Sub.

(** The blocks in use: the abstract state of the allocator. *)
Definition blocks s : list (Z * Z * Z * Z) := used_blocks (chunks_ s).

(** The chunks [hs] of region [r]; all of it, unless the region is being
    dismantled, when they cover an upper part of it. *)
Definition region_seg (cs : list Chunk) (dis : option Z) (r : AllocationRegion) (hs : list nat) : Prop :=
  if bool_decide (dis = Some (r_ptr r)) then
    exists p a, seg cs p a hs (r_end_ptr r) None /\ r_ptr r <= a /\ (256 | a - r_ptr r)
  else hs <> [] /\ seg cs None (r_ptr r) hs (r_end_ptr r) None.

(** A live chunk: [held] are the free chunks that are temporarily out of the bins. *)
Definition chunk_ok (held : list nat) (nid : Z) (h : nat) (c : Chunk) : Prop :=
  (if in_use c then c_bin_num c = None /\ 0 < c_allocation_id c < nid
   else c_bin_num c = if decide (h ∈ held) then None else Some (BinNumForSize (c_size c)))
  /\ 0 <= c_freed_at_count c.

(** [L]: the chunks of each region, in address order; [spare]: a chunk record that
    was just taken from the free list; [fl]: the free list. *)
Record mem_inv (held : list nat) (dis : option Z) (L : list (list nat)) (spare fl : list nat) s : Prop := {
  m_rm : rm_wf (regions_ s);
  m_segs : Forall2 (region_seg (chunks_ s) dis) (regions_ s) L;
  m_handles : forall p, rm_addr (regions_ s) p -> forall h,
    rm_get_handle (regions_ s) p = Some (Some h)
    <-> h ∈ concat L /\ exists c, chunks_ s !! h = Some c /\ c_ptr c = p;
  m_perm : concat L ++ spare ++ fl ≡ₚ seq 0 (length (chunks_ s));
  m_fl : flist (chunks_ s) (free_chunks_list_ s) fl;
  m_dead : forall h c, h ∈ spare ++ fl -> chunks_ s !! h = Some c ->
    in_use c = false /\ c_bin_num c = None;
  m_bins_len : length (bins_ s) = kNumBins;
  m_bins : forall b l, bins_ s !! b = Some l ->
    StronglySorted (fun x y => ChunkComparator (chunks_ s) x y = true) l
    /\ forall h, h ∈ l <-> h ∈ concat L /\ exists c, chunks_ s !! h = Some c /\ c_bin_num c = Some b;
  m_chunk : forall h c, h ∈ concat L -> chunks_ s !! h = Some c ->
    chunk_ok held (next_allocation_id_ s) h c;
  m_ids : forall h1 h2 c1 c2, chunks_ s !! h1 = Some c1 -> chunks_ s !! h2 = Some c2 ->
    in_use c1 = true -> c_allocation_id c1 = c_allocation_id c2 -> h1 = h2;
  m_nid : 0 < next_allocation_id_ s;
  m_ts : forall h, h ∈ timestamped_chunks_ s ->
    exists c, chunks_ s !! h = Some c /\ rm_addr (regions_ s) (c_ptr c)
}.

(** Limits and accounting. *)
Record acct_inv s : Prop := {
  a_limit : 0 <= memory_limit_ s < 2 ^ 63;
  a_total : total_region_allocated_bytes_ s = zsum (map r_memory_size (regions_ s));
  a_total_le : total_region_allocated_bytes_ s <= memory_limit_ s;
  a_curr : 0 <= curr_region_allocation_bytes_ s < 2 ^ 64
           /\ (256 | curr_region_allocation_bytes_ s);
  a_sub : forall r, r ∈ regions_ s -> (r_ptr r, r_memory_size r) ∈ sa_blocks (sub_allocator_ s);
  a_stats : bytes_in_use (stats_ s) = zsum (map (fun b => b.1.1.2) (blocks s));
  a_counter : match timing_counter_ s with Some v => 0 <= v | None => timestamped_chunks_ s = [] end;
  a_frontier : 0 <= safe_frontier_ s
}.

(** The invariant between operations. *)
Definition inv s : Prop := (exists L fl, mem_inv [] None L [] fl s) /\ acct_inv s.

(** What the operations on the chunk structure leave alone. *)
Record frame s s' : Prop := {
  f_limit : memory_limit_ s' = memory_limit_ s;
  f_gc : garbage_collection_ s' = garbage_collection_ s;
  f_curr : curr_region_allocation_bytes_ s' = curr_region_allocation_bytes_ s;
  f_total : total_region_allocated_bytes_ s' = total_region_allocated_bytes_ s;
  f_back : started_backpedal_ s' = started_backpedal_ s;
  f_sub : sub_allocator_ s' = sub_allocator_ s;
  f_counter : timing_counter_ s' = timing_counter_ s;
  f_ts : timestamped_chunks_ s' = timestamped_chunks_ s;
  f_safe : safe_frontier_ s' = safe_frontier_ s;
  f_nid : next_allocation_id_ s' = next_allocation_id_ s;
  f_stats : stats_ s' = stats_ s;
  f_geometry : map geometry (regions_ s') = map geometry (regions_ s);
  f_blocks : blocks s' = blocks s
}.

#[export] Instance frame_preorder : PreOrder frame.
Proof.
  split; [by intros s; constructor|].
  intros s1 s2 s3 [] []; constructor; congruence.
Qed.

Lemma mem_inv_ext held dis L spare fl s s' :
  regions_ s' = regions_ s -> chunks_ s' = chunks_ s -> bins_ s' = bins_ s ->
  free_chunks_list_ s' = free_chunks_list_ s -> next_allocation_id_ s' = next_allocation_id_ s ->
  timestamped_chunks_ s' = timestamped_chunks_ s ->
  mem_inv held dis L spare fl s -> mem_inv held dis L spare fl s'.
Proof.
  intros E1 E2 E3 E4 E5 E6 []. constructor; rewrite ?E1, ?E2, ?E3, ?E4, ?E5, ?E6; done.
Qed.

Lemma sizes_geometry rs rs' :
  map geometry rs' = map geometry rs -> map r_memory_size rs' = map r_memory_size rs.
Proof.
  revert rs'. induction rs as [|r rs IH]; intros [|r' rs'] E; try done.
  injection E as ????. simpl. f_equal; auto.
Qed.

Lemma acct_frame s s' : frame s s' -> acct_inv s -> acct_inv s'.
Proof.
  intros [] []. constructor; rewrite ?f_limit0, ?f_total0, ?f_curr0, ?f_sub0, ?f_counter0, ?f_ts0,
    ?f_safe0, ?f_stats0, ?f_blocks0; try done.
  - by rewrite (sizes_geometry (regions_ s)).
  - intros r Hr. assert (geometry r ∈ map geometry (regions_ s)) as Hg.
    { rewrite <- f_geometry0. by apply list_elem_of_fmap_2. }
    apply list_elem_of_fmap in Hg as (r' & Hg & Hr'). injection Hg as -> -> _. auto.
Qed.

(** ** Consequences of the invariant *)

Section facts.
Context (held : list nat) (dis : option Z) (L : list (list nat)) (spare fl : list nat) (s : BFCAllocator Sub).
Context (Hinv : mem_inv held dis L spare fl s).

Lemma perm_NoDup : NoDup (concat L ++ spare ++ fl).
Proof. rewrite (m_perm _ _ _ _ _ _ Hinv). apply NoDup_seq. Qed.

Lemma region_seg_weak r hs :
  region_seg (chunks_ s) dis r hs ->
  exists p a, seg (chunks_ s) p a hs (r_end_ptr r) None /\ r_ptr r <= a /\ (256 | a - r_ptr r).
Proof.
  unfold region_seg. case_bool_decide; [done|]. intros [_ H']. exists None, (r_ptr r).
  split_and!; [done|lia|]. rewrite Z.sub_diag. apply Z.divide_0_r.
Qed.

Lemma live_region h :
  h ∈ concat L ->
  exists i r hs, regions_ s !! i = Some r /\ L !! i = Some hs /\ h ∈ hs /\ region_seg (chunks_ s) dis r hs.
Proof.
  intros Hh. apply list_elem_of_In, in_concat in Hh as (hs & Hhs & Hh).
  rewrite <- list_elem_of_In in Hhs. rewrite <- list_elem_of_In in Hh. apply list_elem_of_lookup_1 in Hhs as [i Hi].
  destruct (Forall2_lookup_r _ _ _ _ _ (m_segs _ _ _ _ _ _ Hinv) Hi) as (r & Hr & Hseg).
  by exists i, r, hs.
Qed.

Lemma live_chunk_at h :
  h ∈ concat L ->
  exists i r hs p a c, regions_ s !! i = Some r /\ L !! i = Some hs /\ h ∈ hs
    /\ seg (chunks_ s) p a hs (r_end_ptr r) None
    /\ chunks_ s !! h = Some c /\ 0 < c_size c /\ (256 | c_size c)
    /\ r_ptr r <= c_ptr c /\ c_ptr c + c_size c <= r_end_ptr r /\ slot_of r (c_ptr c).
Proof.
  intros Hh. destruct (live_region h Hh) as (i & r & hs & Hr & Hi & Hhs & Hseg).
  apply region_seg_weak in Hseg as (p & a & Hseg & Ha & Hd).
  destruct (seg_elem _ _ _ _ _ _ _ Hseg Hhs) as (c & Hc & Hle & Hle2 & Hpos & Hdiv & Hdiv2).
  exists i, r, hs, p, a, c. split_and!; try done; try lia. split; [lia|].
  replace (c_ptr c - r_ptr r) with (c_ptr c - a + (a - r_ptr r)) by lia. by apply Z.divide_add_r.
Qed.

Lemma live_chunk h :
  h ∈ concat L ->
  exists c, chunks_ s !! h = Some c /\ 0 < c_size c /\ (256 | c_size c)
    /\ rm_addr (regions_ s) (c_ptr c)
    /\ exists r, r ∈ regions_ s /\ r_ptr r <= c_ptr c /\ c_ptr c + c_size c <= r_end_ptr r.
Proof.
  intros Hh.
  destruct (live_chunk_at h Hh) as (i & r & hs & p & a & c & Hr & _ & _ & _ & ? & ? & ? & ? & ? & ?).
  apply list_elem_of_lookup_2 in Hr. exists c. split_and!; try done; by exists r.
Qed.

(** A live chunk lies in one region; its size and address fit in 64 bits. *)
Lemma live_bounds h c :
  h ∈ concat L -> chunks_ s !! h = Some c ->
  0 < c_ptr c /\ 0 < c_size c /\ c_ptr c + c_size c < 2 ^ 64 /\ (256 | c_size c)
  /\ rm_addr (regions_ s) (c_ptr c).
Proof.
  intros Hh Hc. destruct (live_chunk h Hh) as (c' & Hc' & ? & ? & ? & r & Hr & ? & ?). simplify_eq.
  destruct (rm_wf_region _ _ (m_rm _ _ _ _ _ _ Hinv) Hr). split_and!; try done; lia.
Qed.

Lemma live_handle h c :
  h ∈ concat L -> chunks_ s !! h = Some c -> rm_get_handle (regions_ s) (c_ptr c) = Some (Some h).
Proof.
  intros Hh Hc. apply (m_handles _ _ _ _ _ _ Hinv); [by apply (live_bounds h)|]. eauto.
Qed.

Lemma live_ptr_inj h1 h2 c1 c2 :
  h1 ∈ concat L -> h2 ∈ concat L -> chunks_ s !! h1 = Some c1 -> chunks_ s !! h2 = Some c2 ->
  c_ptr c1 = c_ptr c2 -> h1 = h2.
Proof.
  intros H1 H2 Hc1 Hc2 E. pose proof (live_handle _ _ H1 Hc1) as E1.
  pose proof (live_handle _ _ H2 Hc2) as E2. rewrite E in E1. congruence.
Qed.

Lemma live_lt h : h ∈ concat L -> (h < length (chunks_ s))%nat.
Proof. intros Hh. destruct (live_chunk h Hh) as (c & Hc & _). by apply lookup_lt_Some in Hc. Qed.

Lemma dead_lt h : h ∈ spare ++ fl -> (h < length (chunks_ s))%nat.
Proof.
  intros Hh. assert (h ∈ seq 0 (length (chunks_ s))) as Hs.
  { rewrite <- (m_perm _ _ _ _ _ _ Hinv). apply elem_of_app. by right. }
  apply elem_of_seq in Hs. lia.
Qed.

Lemma live_not_dead h : h ∈ concat L -> h ∈ spare ++ fl -> False.
Proof.
  intros H1 H2. pose proof perm_NoDup as Hn. apply NoDup_app in Hn as (_ & Hn & _). by eapply Hn.
Qed.

(** Every record is live or dead; the records in use are live. *)
Lemma used_live h c : chunks_ s !! h = Some c -> in_use c = true -> h ∈ concat L.
Proof.
  intros Hc Hu. assert (h ∈ seq 0 (length (chunks_ s))) as Hs.
  { apply elem_of_seq. apply lookup_lt_Some in Hc. lia. }
  rewrite <- (m_perm _ _ _ _ _ _ Hinv) in Hs. apply elem_of_app in Hs as [?|Hs]; [done|].
  destruct (m_dead _ _ _ _ _ _ Hinv h c Hs Hc). congruence.
Qed.

(** Distinct live chunks do not overlap, in the same region or not. *)
Lemma live_disjoint h1 h2 c1 c2 :
  h1 ∈ concat L -> h2 ∈ concat L -> h1 <> h2 -> chunks_ s !! h1 = Some c1 -> chunks_ s !! h2 = Some c2 ->
  c_ptr c1 + c_size c1 <= c_ptr c2 \/ c_ptr c2 + c_size c2 <= c_ptr c1.
Proof.
  intros H1 H2 Hne Hc1 Hc2.
  destruct (live_chunk_at h1 H1) as (i & r1 & hs1 & p1 & a1 & d1 & Hr1 & Hi1 & Hh1 & Hs1 & ? & ? & ? & ? & ? & _).
  destruct (live_chunk_at h2 H2) as (j & r2 & hs2 & p2 & a2 & d2 & Hr2 & Hi2 & Hh2 & Hs2 & ? & ? & ? & ? & ? & _).
  simplify_eq. destruct (m_rm _ _ _ _ _ _ Hinv) as [_ Hsort].
  destruct (Nat.lt_trichotomy i j) as [Hij|[->|Hij]].
  - pose proof (StronglySorted_lookup_lt _ _ _ _ _ _ Hsort Hr1 Hr2 Hij) as Hb. red in Hb. lia.
  - simplify_eq. eapply (seg_disjoint _ _ _ _ _ _ h1 h2 c1 c2); [exact Hs1|..]; done.
  - pose proof (StronglySorted_lookup_lt _ _ _ _ _ _ Hsort Hr2 Hr1 Hij) as Hb. red in Hb. lia.
Qed.

End facts.
End invariant.
