(* ===== verification/BfcChunks.v ===== *)
(** * The BFC allocator: operations on chunks preserve the invariant

    Bin insertion and removal, the free list of chunk records, splitting, merging
    and coalescing.  None of them changes the set of blocks in use. *)

From S2P Require Import Prelude BfcAllocator BfcRegions BfcInvariant.

(** ** Blocks in use under updates of one record *)

Lemma lookup_split {A} (l : list A) h c :
  l !! h = Some c -> exists l1 l2, l = l1 ++ c :: l2 /\ length l1 = h
    /\ forall c', <[h:=c']> l = l1 ++ c' :: l2.
Proof.
  intros Hc. apply list_elem_of_split_length in Hc as (l1 & l2 & -> & Hl). exists l1, l2.
  split_and!; [done..|]. intros c'. subst h. rewrite insert_app_r_alt by lia. by rewrite Nat.sub_diag.
Qed.

Lemma used_blocks_app l1 l2 : used_blocks (l1 ++ l2) = used_blocks l1 ++ used_blocks l2.
Proof. unfold used_blocks. by rewrite List.filter_app, map_app. Qed.

Lemma used_blocks_cons c l :
  used_blocks (c :: l) = (if in_use c then [block_of c] else []) ++ used_blocks l.
Proof. unfold used_blocks. simpl. by destruct (in_use c). Qed.

Lemma used_blocks_same cs h c c' :
  cs !! h = Some c -> in_use c' = in_use c -> (in_use c = true -> block_of c' = block_of c) ->
  used_blocks (<[h:=c']> cs) = used_blocks cs.
Proof.
  intros Hc Hu Hb. destruct (lookup_split _ _ _ Hc) as (l1 & l2 & -> & _ & ->).
  rewrite !used_blocks_app, !used_blocks_cons, Hu. destruct (in_use c); [|done]. by rewrite Hb.
Qed.

Lemma used_blocks_take cs h c c' :
  cs !! h = Some c -> in_use c = false -> in_use c' = true ->
  used_blocks (<[h:=c']> cs) ≡ₚ block_of c' :: used_blocks cs.
Proof.
  intros Hc Hu Hu'. destruct (lookup_split _ _ _ Hc) as (l1 & l2 & -> & _ & ->).
  rewrite !used_blocks_app, !used_blocks_cons, Hu, Hu'. simpl. symmetry. apply Permutation_middle.
Qed.

Lemma used_blocks_free cs h c c' :
  cs !! h = Some c -> in_use c = true -> in_use c' = false ->
  used_blocks cs ≡ₚ block_of c :: used_blocks (<[h:=c']> cs).
Proof.
  intros Hc Hu Hu'. destruct (lookup_split _ _ _ Hc) as (l1 & l2 & -> & _ & ->).
  rewrite !used_blocks_app, !used_blocks_cons, Hu, Hu'. simpl. symmetry. apply Permutation_middle.
Qed.

Lemma shape_insert (cs : list Chunk) h c c' x :
  cs !! h = Some c -> shape c' = shape c -> shape <$> <[h:=c']> cs !! x = shape <$> cs !! x.
Proof.
  intros Hc Hs. destruct (decide (x = h)) as [->|Hne].
  - rewrite list_lookup_insert_eq by (by eapply lookup_lt_Some). rewrite Hc. simpl. by rewrite Hs.
  - by rewrite list_lookup_insert_ne.
Qed.

(** ** Replacing some chunks of a segment by others *)

Lemma lst_nonempty p p' l : l <> [] -> lst p l = lst p' l.
Proof. by destruct l. Qed.

Lemma nxt_head q l l' : head l = head l' -> nxt q l = nxt q l'.
Proof. destruct l, l'; simpl; congruence. Qed.

(** The chunks [A] become [B]; the chunk that follows them, if there is one, is
    relinked to the last of [B]; the others do not change. *)
Definition relinked (cs cs' : list Chunk) (A B l2 : list nat) : Prop :=
  forall x, x ∉ A -> x ∉ B ->
    cs' !! x = if decide (head l2 = Some x) then c_set_prev (lst None B) <$> cs !! x else cs !! x.

Lemma seg_relink cs cs' p a l1 A B l2 e :
  A <> [] -> B <> [] -> head A = head B -> relinked cs cs' A B l2 ->
  (forall x, x ∈ l1 ++ l2 -> x ∉ A /\ x ∉ B) -> NoDup (l1 ++ l2) ->
  (forall p a e, seg cs p a A e (nxt None l2) -> seg cs' p a B e (nxt None l2)) ->
  seg cs p a (l1 ++ A ++ l2) e None -> seg cs' p a (l1 ++ B ++ l2) e None.
Proof.
  intros HA HB Hhd Hr Hout Hnd Hseg. rewrite !seg_app. intros (m & H1 & H2).
  exists m. split.
  { replace (nxt None (B ++ l2)) with (nxt None (A ++ l2)) by (rewrite !nxt_app; by apply nxt_head).
    eapply seg_frame; [|done]. intros x Hx. destruct (Hout x ltac:(elem)) as [Hxa Hxb].
    rewrite Hr by done. rewrite decide_False; [done|]. intros Hh.
    destruct l2 as [|y l2]; [done|]. injection Hh as ->. apply NoDup_app in Hnd as (_ & Hnd & _).
    by apply (Hnd x); [|left]. }
  rewrite !seg_app in *. destruct H2 as (m2 & H2 & H3). exists m2. split; [by apply Hseg|].
  destruct l2 as [|y l2]; [done|]. cbn [seg] in *.
  destruct H3 as (c & Hc & ? & ? & ? & ? & ? & H3). exists (c_set_prev (lst None B) c).
  destruct (Hout y ltac:(elem)) as [Hya Hyb].
  split_and!; try done.
  { rewrite Hr, decide_True by done. by rewrite Hc. }
  { cbn. by apply lst_nonempty. }
  eapply seg_frame; [|exact H3]. intros x Hx. destruct (Hout x ltac:(elem)) as [Hxa Hxb].
  rewrite Hr by done. rewrite decide_False; [done|]. cbn. intros [= ->].
  apply NoDup_app in Hnd as (_ & _ & Hnd). by apply NoDup_cons in Hnd as [? _].
Qed.

Lemma head_Some_elem {A} (l : list A) x : head l = Some x -> x ∈ l.
Proof. destruct l; [done|]. intros [= ->]. left. Qed.

(** A handle occurs in one region only. *)
Lemma NoDup_concat_lookup (L : list (list nat)) x i j hs hs' :
  NoDup (concat L) -> L !! i = Some hs -> L !! j = Some hs' -> x ∈ hs -> x ∈ hs' -> i = j.
Proof.
  revert i j. induction L as [|h0 L IH]; intros i j Hnd Hi Hj Hx Hx'; [done|].
  cbn in Hnd. apply NoDup_app in Hnd as (_ & Hd & Hnd).
  assert (forall k hs, L !! k = Some hs -> x ∈ hs -> x ∈ concat L) as Hin.
  { intros k l Hk Hl. apply list_elem_of_In, in_concat. exists l.
    split; apply list_elem_of_In; [by eapply list_elem_of_lookup_2|done]. }
  destruct i as [|i], j as [|j]; simplify_eq/=; [done| | |f_equal; eauto].
  - exfalso. eapply Hd; [done|]. by eapply Hin.
  - exfalso. eapply Hd; [done|]. by eapply Hin.
Qed.

(** [region_seg] reads the geometry of a region only. *)
Lemma Forall2_geometry rs rs' (P : AllocationRegion -> list nat -> Prop) L :
  (forall r r' hs, geometry r = geometry r' -> P r hs -> P r' hs) ->
  map geometry rs' = map geometry rs -> Forall2 P rs L -> Forall2 P rs' L.
Proof.
  intros HP E HF. revert rs' E. induction HF as [|r hs rs L Hr HF IH]; intros [|r' rs'] E;
    try discriminate; [constructor|].
  injection E as E1 E2 E3 E4. constructor; [|by apply IH].
  apply (HP r); [|done]. unfold geometry. congruence.
Qed.

Lemma region_seg_geometry cs dis r r' hs :
  geometry r = geometry r' -> region_seg cs dis r hs -> region_seg cs dis r' hs.
Proof. unfold region_seg. intros [= <- _ <-]. done. Qed.

(** Blocks in use, record by record. *)
Definition used_block (c : Chunk) : option (Z * Z * Z * Z) :=
  if in_use c then Some (block_of c) else None.

Lemma used_blocks_ext cs cs' :
  (forall x, used_block <$> cs' !! x = used_block <$> cs !! x) -> used_blocks cs' = used_blocks cs.
Proof.
  revert cs'. induction cs as [|c cs IH]; intros [|c' cs'] Hx; [done|by specialize (Hx 0%nat)..|].
  rewrite !used_blocks_cons. rewrite (IH cs') by (intros x; apply (Hx (S x))).
  pose proof (Hx 0%nat) as H0. simpl in H0. injection H0 as H0. unfold used_block in H0.
  destruct (in_use c), (in_use c'); congruence.
Qed.

Definition bkey (c : Chunk) : Z * Z := (c_size c, c_ptr c).

Lemma ChunkComparator_key cs cs' x y :
  bkey <$> cs' !! x = bkey <$> cs !! x -> bkey <$> cs' !! y = bkey <$> cs !! y ->
  ChunkComparator cs' x y = ChunkComparator cs x y.
Proof.
  unfold ChunkComparator. destruct (cs !! x), (cs' !! x), (cs !! y), (cs' !! y); try done; simpl.
  intros [= E1 E2] [= E3 E4]. unfold chunk_lt. by rewrite E1, E2, E3, E4.
Qed.

Section chunks.
Context {Sub : Type} `{!SubAllocator Sub} `{!SubAllocatorSpec Sub}.
Implicit Types s : BFCAllocator Sub.

(** ** Symbolic execution of the primitives *)

Lemma wp_ChunkFromHandle t h c s Q : chunks_ s !! h = Some c -> Q c s -> wp t (ChunkFromHandle h) s Q.
Proof. intros Hc HQ. unfold ChunkFromHandle. wp_steps. by eapply wp_of_option. Qed.

Lemma wp_modify_chunk t h f c s (Q : unit -> BFCAllocator Sub -> Prop) :
  chunks_ s !! h = Some c -> Q tt (set_chunks (<[h:=f c]> (chunks_ s)) s) -> wp t (modify_chunk h f) s Q.
Proof.
  intros Hc HQ. unfold modify_chunk. apply wp_bind. eapply wp_ChunkFromHandle; [done|].
  by apply wp_modify.
Qed.

Lemma wp_get_handle t p o s Q :
  rm_get_handle (regions_ s) p = Some o -> Q o s -> wp t (get_handle p) s Q.
Proof. intros Hc HQ. unfold get_handle. wp_steps. by eapply wp_of_option. Qed.

(** ** Changing the fields of a live chunk other than its shape *)

Lemma mem_inv_update held held' dis L spare fl s s' h c c' nid' :
  mem_inv held dis L spare fl s ->
  h ∈ concat L -> chunks_ s !! h = Some c -> shape c' = shape c ->
  regions_ s' = regions_ s -> chunks_ s' = <[h:=c']> (chunks_ s) ->
  free_chunks_list_ s' = free_chunks_list_ s -> timestamped_chunks_ s' = timestamped_chunks_ s ->
  next_allocation_id_ s' = nid' -> 0 < nid' ->
  length (bins_ s') = kNumBins ->
  (forall b l, bins_ s' !! b = Some l ->
     StronglySorted (fun x y => ChunkComparator (chunks_ s) x y = true) l
     /\ forall x, x ∈ l <-> if decide (x = h) then c_bin_num c' = Some b
                           else x ∈ concat L /\ exists cx, chunks_ s !! x = Some cx /\ c_bin_num cx = Some b) ->
  chunk_ok held' nid' h c' ->
  (forall x cx, x <> h -> chunk_ok held (next_allocation_id_ s) x cx -> chunk_ok held' nid' x cx) ->
  (in_use c' = true -> forall x cx, x <> h -> chunks_ s !! x = Some cx ->
     in_use cx = true -> c_allocation_id cx <> c_allocation_id c') ->
  mem_inv held' dis L spare fl s'.
Proof.
  intros Hi Hh Hc Hsh Er Ec Ef Et En Hn Hbl Hb Hok Hok' Hid.
  pose proof (lookup_lt_Some _ _ _ Hc) as Hlt.
  assert (forall x, x ∈ spare ++ fl -> chunks_ s' !! x = chunks_ s !! x) as Hdead.
  { intros x Hx. rewrite Ec, list_lookup_insert_ne; [done|]. intros ->.
    by eapply (live_not_dead _ _ _ _ _ _ Hi). }
  assert (forall x, shape <$> chunks_ s' !! x = shape <$> chunks_ s !! x) as Hshape.
  { intros x. rewrite Ec. by eapply shape_insert. }
  assert (forall x cx, chunks_ s' !! x = Some cx ->
            (x = h /\ cx = c') \/ (x <> h /\ chunks_ s !! x = Some cx)) as Hinv_lk.
  { intros x cx. rewrite Ec, list_lookup_insert_Some. intros [(-> & -> & _)|[? ?]]; auto. }
  constructor; rewrite ?Er, ?Et, ?En.
  - apply Hi.
  - eapply Forall2_impl; [apply Hi|]. intros r hs. unfold region_seg. case_bool_decide.
    + intros (p & a & Hs & ?). exists p, a. split; [|done]. eapply seg_frame; [|done]. auto.
    + intros [? Hs]. split; [done|]. eapply seg_frame; [|done]. auto.
  - intros p Hp x. rewrite (m_handles _ _ _ _ _ _ Hi p Hp). apply and_iff_compat_l.
    pose proof (Hshape x) as Hx. split; intros (cx & Hcx & Hpx); rewrite Hcx in Hx.
    + destruct (chunks_ s' !! x) as [cx'|]; [|done]. injection Hx as ? _ _ _. exists cx'. by split; [|congruence].
    + destruct (chunks_ s !! x) as [cx'|]; [|done]. injection Hx as ? _ _ _. exists cx'. by split; [|congruence].
  - rewrite Ec, length_insert. apply Hi.
  - rewrite Ef. eapply flist_frame; [|apply Hi]. intros x Hx. rewrite Hdead; [done|]. elem.
  - intros x cx Hx. rewrite Hdead by done. by apply Hi.
  - done.
  - intros b l Hl. destruct (Hb b l Hl) as [Hs Hm]. split.
    + eapply sorted_frame; [|done]. intros x y _ _. apply ChunkComparator_frame; auto.
    + intros x. rewrite Hm. case_decide as Hx.
      * subst x. split; [intros E; split; [done|]; exists c'; split; [|done]|].
        -- rewrite Ec. by apply list_lookup_insert_eq.
        -- intros (_ & cx & Hcx & E). apply Hinv_lk in Hcx as [[_ ->]|[? _]]; done.
      * rewrite Ec, list_lookup_insert_ne by done. done.
  - intros x cx Hx Hcx. apply Hinv_lk in Hcx as [[-> ->]|[Hne Hcx]]; [done|].
    apply Hok'; [done|]. by apply Hi.
  - intros x y cx cy Hcx Hcy Hu E.
    assert (in_use cy = true) as Huy by (unfold in_use in *; by rewrite <- E).
    apply Hinv_lk in Hcx as [[-> ->]|[Hne Hcx]], Hcy as [[-> ->]|[Hne' Hcy]]; try done.
    + exfalso. by eapply Hid; [..|symmetry].
    + exfalso. by eapply Hid.
    + by eapply (m_ids _ _ _ _ _ _ Hi).
  - done.
  - intros x Hx. destruct (m_ts _ _ _ _ _ _ Hi x Hx) as (cx & Hcx & Hp).
    pose proof (Hshape x) as Hsx. rewrite Hcx in Hsx.
    destruct (chunks_ s' !! x) as [cx'|]; [|done]. injection Hsx as E _ _ _. exists cx'. by rewrite E.
Qed.

(** ** Bins *)

Lemma BinNumForSize_lt n : (BinNumForSize n < kNumBins)%nat.
Proof. unfold BinNumForSize, kNumBins. lia. Qed.

Lemma set_bins_frame s cs' bins' h c c' :
  chunks_ s !! h = Some c -> cs' = <[h:=c']> (chunks_ s) ->
  in_use c' = in_use c -> block_of c' = block_of c ->
  frame s (set_bins bins' (set_chunks cs' s)).
Proof. intros Hc -> Hu Hb. constructor; try done. by eapply used_blocks_same. Qed.

Lemma held_other (h x : nat) held A (a b : A) :
  x <> h -> (if decide (x ∈ h :: held) then a else b) = (if decide (x ∈ held) then a else b).
Proof. intros Hne. do 2 case_decide; try done; exfalso; elem. Qed.

Lemma chunk_ok_held h held nid x cx :
  x <> h -> chunk_ok (h :: held) nid x cx <-> chunk_ok held nid x cx.
Proof. intros Hne. unfold chunk_ok. by rewrite held_other. Qed.

(** A held chunk goes into the bin of its size. *)
Lemma InsertFreeChunkIntoBin_spec t held dis L spare fl s h c :
  mem_inv (h :: held) dis L spare fl s -> h ∉ held -> h ∈ concat L ->
  chunks_ s !! h = Some c -> in_use c = false ->
  wp t (InsertFreeChunkIntoBin h) s (fun _ s' =>
    mem_inv held dis L spare fl s' /\ frame s s'
    /\ regions_ s' = regions_ s /\ free_chunks_list_ s' = free_chunks_list_ s
    /\ chunks_ s' = <[h := c_set_bin_num (Some (BinNumForSize (c_size c))) c]> (chunks_ s)).
Proof.
  intros Hi Hnh Hh Hc Hu. pose proof (m_chunk _ _ _ _ _ _ Hi h c Hh Hc) as Hok.
  assert (c_bin_num c = None) as Hb0.
  { destruct Hok as [Hok _]. rewrite Hu, decide_True in Hok by left. done. }
  unfold InsertFreeChunkIntoBin. apply wp_bind. eapply wp_ChunkFromHandle; [done|].
  apply wp_bind, wp_CHECK; [by rewrite Hu, Hb0|].
  apply wp_bind. eapply wp_modify_chunk; [done|]. wp_steps. cbn [chunks_ bins_ set_chunks].
  set (b := BinNumForSize (c_size c)).
  assert (b < length (bins_ s))%nat as Hbl by (rewrite (m_bins_len _ _ _ _ _ _ Hi); apply BinNumForSize_lt).
  destruct (lookup_lt_is_Some_2 _ _ Hbl) as [l Hl].
  eapply wp_of_option; [done|]. cbn beta. apply wp_modify.
  set (c' := c_set_bin_num (Some b) c). set (cs' := <[h:=c']> (chunks_ s)).
  split; [|split_and!; [by eapply set_bins_frame|done..]].
  destruct (m_bins _ _ _ _ _ _ Hi b l Hl) as [Hs Hm].
  assert (h ∉ l) as Hhl. { rewrite Hm. intros (_ & c0 & Hc0 & E). congruence. }
  assert (forall x y, ChunkComparator cs' x y = ChunkComparator (chunks_ s) x y) as Hcmp.
  { intros x y. apply ChunkComparator_frame; by eapply shape_insert. }
  assert (StronglySorted (fun x y => ChunkComparator cs' x y = true) (FreeChunkSet_insert (ChunkComparator cs') h l)
          /\ forall x, x ∈ FreeChunkSet_insert (ChunkComparator cs') h l <-> x = h \/ x ∈ l) as [Hs' Hm'].
  { apply (FreeChunkSet_insert_spec (ChunkComparator cs') (ChunkComparator_trans cs') h l); [apply (sorted_frame (ChunkComparator (chunks_ s))); auto|].
    intros x Hx. rewrite !Hcmp. pose proof Hx as Hx'. apply Hm in Hx' as (Hxl & cx & Hcx & _).
    eapply ChunkComparator_total; [done..|]. intros E. apply Hhl.
    by rewrite (live_ptr_inj _ _ _ _ _ _ Hi h x c cx). }
  eapply (mem_inv_update (h :: held) held _ _ _ _ s _ h c c'); try done.
  - apply Hi.
  - cbn. rewrite length_insert. apply Hi.
  - cbn. intros b' l'. rewrite list_lookup_insert_Some. intros [(<- & <- & _)|[Hne Hl']].
    + split; [apply (sorted_frame (ChunkComparator cs')); auto|]. intros x. rewrite Hm'.
      case_decide as Hx; [by subst; split; [|left]|]. rewrite Hm. tauto.
    + destruct (m_bins _ _ _ _ _ _ Hi b' l' Hl') as [Hs2 Hm2]. split; [done|].
      intros x. rewrite Hm2. case_decide as Hx; [subst x|done]. cbn. split.
      * intros (_ & c0 & Hc0 & E). congruence.
      * intros [= E]. by rewrite E in Hne.
  - cbn. destruct Hok as [_ ?]. split; [|done]. change (in_use c') with (in_use c). rewrite Hu.
    by rewrite decide_False.
  - intros x cx Hx. cbn. by rewrite chunk_ok_held.
  - change (in_use c') with (in_use c). congruence.
Qed.

(** The bin of a free chunk that is not held. *)
Lemma free_chunk_bin held dis L spare fl s h c :
  mem_inv held dis L spare fl s -> h ∈ concat L -> h ∉ held ->
  chunks_ s !! h = Some c -> in_use c = false ->
  c_bin_num c = Some (BinNumForSize (c_size c))
  /\ exists l, bins_ s !! BinNumForSize (c_size c) = Some l /\ h ∈ l.
Proof.
  intros Hi Hh Hnh Hc Hu. destruct (m_chunk _ _ _ _ _ _ Hi h c Hh Hc) as [Hok _].
  rewrite Hu, decide_False in Hok by done. split; [done|].
  assert (BinNumForSize (c_size c) < length (bins_ s))%nat as Hbl
    by (rewrite (m_bins_len _ _ _ _ _ _ Hi); apply BinNumForSize_lt).
  destruct (lookup_lt_is_Some_2 _ _ Hbl) as [l Hl]. exists l. split; [done|].
  apply (m_bins _ _ _ _ _ _ Hi _ _ Hl). eauto.
Qed.

(** Taking a free chunk out of its bin, whichever way the set element is erased. *)
Lemma remove_from_bin held dis L spare fl s h c l l' :
  mem_inv held dis L spare fl s -> h ∈ concat L -> h ∉ held ->
  chunks_ s !! h = Some c -> in_use c = false ->
  bins_ s !! BinNumForSize (c_size c) = Some l ->
  StronglySorted (fun x y => ChunkComparator (chunks_ s) x y = true) l' ->
  (forall x, x ∈ l' <-> x ∈ l /\ x <> h) ->
  let s' := set_chunks (<[h := c_set_bin_num None c]> (chunks_ s))
              (set_bins (<[BinNumForSize (c_size c) := l']> (bins_ s)) s) in
  mem_inv (h :: held) dis L spare fl s' /\ frame s s'.
Proof.
  intros Hi Hh Hnh Hc Hu Hl Hs' Hm'. cbn zeta.
  pose proof (m_chunk _ _ _ _ _ _ Hi h c Hh Hc) as [Hok Hf]. rewrite Hu, decide_False in Hok by done.
  destruct (m_bins _ _ _ _ _ _ Hi _ _ Hl) as [_ Hm].
  split; [|constructor; try done; by eapply used_blocks_same].
  eapply (mem_inv_update held (h :: held) _ _ _ _ s _ h c (c_set_bin_num None c)); try done.
  - apply Hi.
  - cbn. rewrite length_insert. apply Hi.
  - cbn. intros b' l2. rewrite list_lookup_insert_Some. intros [(<- & <- & _)|[Hne Hl']].
    + split; [done|]. intros x. rewrite Hm', Hm. case_decide as Hx; [|tauto].
      split; [|done]. by intros [_ ?].
    + destruct (m_bins _ _ _ _ _ _ Hi b' l2 Hl') as [Hs2 Hm2]. split; [done|].
      intros x. rewrite Hm2. case_decide as Hx; [subst x|done]. split; [|done].
      intros (_ & c0 & Hc0 & E). congruence.
  - split; [|done]. change (in_use (c_set_bin_num None c)) with (in_use c). rewrite Hu.
    by rewrite decide_True by left.
  - intros x cx Hx. cbn. by rewrite chunk_ok_held.
  - change (in_use (c_set_bin_num None c)) with (in_use c). congruence.
Qed.

Lemma RemoveFreeChunkFromBin_spec t held dis L spare fl s h c :
  mem_inv held dis L spare fl s -> h ∈ concat L -> h ∉ held ->
  chunks_ s !! h = Some c -> in_use c = false ->
  wp t (RemoveFreeChunkFromBin h) s (fun _ s' =>
    mem_inv (h :: held) dis L spare fl s' /\ frame s s'
    /\ regions_ s' = regions_ s /\ free_chunks_list_ s' = free_chunks_list_ s
    /\ chunks_ s' = <[h := c_set_bin_num None c]> (chunks_ s)).
Proof.
  intros Hi Hh Hnh Hc Hu.
  destruct (free_chunk_bin _ _ _ _ _ _ _ _ Hi Hh Hnh Hc Hu) as (Hb & l & Hl & Hhl).
  destruct (m_bins _ _ _ _ _ _ Hi _ _ Hl) as [Hs Hm].
  destruct (FreeChunkSet_erase_spec (ChunkComparator (chunks_ s)) (ChunkComparator_irrefl _) h l Hs)
    as (Hs' & Hm' & Hlen).
  { intros x Hx Hne. apply Hm in Hx as (Hxl & cx & Hcx & _).
    eapply ChunkComparator_total; [done..|]. intros E. apply Hne.
    by rewrite (live_ptr_inj _ _ _ _ _ _ Hi h x c cx). }
  unfold RemoveFreeChunkFromBin. apply wp_bind. eapply wp_ChunkFromHandle; [done|].
  apply wp_bind, wp_CHECK; [by rewrite Hu, Hb|].
  apply wp_bind. eapply wp_of_option; [done|]. wp_steps. eapply wp_of_option; [done|].
  cbn beta zeta. apply wp_bind, wp_CHECK; [apply Nat.ltb_lt; auto|]. wp_steps.
  eapply wp_modify_chunk; [done|].
  destruct (remove_from_bin _ _ _ _ _ _ _ _ _ _ Hi Hh Hnh Hc Hu Hl Hs' Hm') as [H1 H2].
  split_and!; [exact H1|exact H2|done..].
Qed.

Lemma RemoveFreeChunkIterFromBin_spec t held dis L spare fl s h c b l :
  mem_inv held dis L spare fl s -> h ∈ l -> bins_ s !! b = Some l -> h ∉ held ->
  chunks_ s !! h = Some c -> in_use c = false ->
  wp t (RemoveFreeChunkIterFromBin b h) s (fun _ s' =>
    mem_inv (h :: held) dis L spare fl s' /\ frame s s'
    /\ regions_ s' = regions_ s /\ free_chunks_list_ s' = free_chunks_list_ s
    /\ chunks_ s' = <[h := c_set_bin_num None c]> (chunks_ s)).
Proof.
  intros Hi Hhl Hl Hnh Hc Hu. destruct (m_bins _ _ _ _ _ _ Hi _ _ Hl) as [Hs Hm].
  assert (h ∈ concat L /\ c_bin_num c = Some b) as [Hh Hb].
  { apply Hm in Hhl as (Hh & c0 & Hc0 & Hb). simplify_eq. done. }
  destruct (free_chunk_bin _ _ _ _ _ _ _ _ Hi Hh Hnh Hc Hu) as (Hb' & _ & _ & _).
  assert (b = BinNumForSize (c_size c)) as -> by congruence.
  destruct (FreeChunkSet_erase_iter_spec (ChunkComparator (chunks_ s)) h l Hs) as [Hs' Hm'].
  unfold RemoveFreeChunkIterFromBin. apply wp_bind. eapply wp_ChunkFromHandle; [done|].
  apply wp_bind, wp_CHECK; [by rewrite Hu, Hb|]. wp_steps. eapply wp_of_option; [done|].
  cbn beta zeta. wp_steps. eapply wp_modify_chunk; [done|].
  destruct (remove_from_bin _ _ _ _ _ _ _ _ _ _ Hi Hh Hnh Hc Hu Hl Hs' Hm') as [H1 H2].
  split_and!; [exact H1|exact H2|done..].
Qed.

(** ** Relinking chunks of a region *)

Lemma concat_insert_perm (L : list (list nat)) i hs hs' :
  L !! i = Some hs -> hs ++ concat (<[i:=hs']> L) ≡ₚ hs' ++ concat L.
Proof.
  intros Hi. destruct (lookup_split _ _ _ Hi) as (L1 & L2 & -> & _ & ->).
  rewrite !concat_app. cbn. solve_Permutation.
Qed.

Lemma concat_insert_elem (L : list (list nat)) i l1 A B l2 x :
  L !! i = Some (l1 ++ A ++ l2) -> NoDup (concat L) ->
  x ∈ concat (<[i := l1 ++ B ++ l2]> L) <-> x ∈ B \/ (x ∈ concat L /\ x ∉ A).
Proof.
  intros Hi Hnd. destruct (lookup_split _ _ _ Hi) as (L1 & L2 & -> & _ & ->).
  rewrite !concat_app in *. cbn in *.
  assert (x ∈ A -> x ∉ concat L1 /\ x ∉ l1 /\ x ∉ l2 /\ x ∉ concat L2) as HA.
  { intros HxA. apply NoDup_app in Hnd as (_ & H1 & Hnd). apply NoDup_app in Hnd as (Hnd & H2 & _).
    apply NoDup_app in Hnd as (_ & H3 & Hnd). apply NoDup_app in Hnd as (_ & H4 & _).
    split_and!; intros Hx.
    - apply (H1 x); [done|]. elem.
    - apply (H3 x); [done|]. elem.
    - by apply (H4 x).
    - apply (H2 x); [|done]. elem. }
  rewrite !elem_of_app. tauto.
Qed.

(** The chunks [A] of a region become [B]; of the chunks behind them at most a
    back link changes. *)
Section swap.
Context (held held' : list nat) (dis dis' : option Z) (L : list (list nat)) (spare spare' fl fl' : list nat).
Context (s s' : BFCAllocator Sub) (i : nat) (l1 A B l2 : list nat).
Context (Hi : mem_inv held dis L spare fl s).
Context (HL : L !! i = Some (l1 ++ A ++ l2)).
Context (Hperm : B ++ spare' ++ fl' ≡ₚ A ++ spare ++ fl).
Context (Hrel : forall x, x ∉ A ++ B -> exists f, chunks_ s' !! x = f <$> chunks_ s !! x
  /\ (f = id \/ (exists o, f = c_set_prev o) /\ x ∈ l2)).
Context (Hsegi : forall r, regions_ s !! i = Some r ->
  region_seg (chunks_ s) dis r (l1 ++ A ++ l2) -> region_seg (chunks_ s') dis' r (l1 ++ B ++ l2)).
Context (Hdis : forall j r hs, j <> i -> regions_ s !! j = Some r ->
  region_seg (chunks_ s') dis r hs -> region_seg (chunks_ s') dis' r hs).
Context (Hlen : length (chunks_ s') = length (chunks_ s)).
Context (Hwf : rm_wf (regions_ s')) (Hgeo : map geometry (regions_ s') = map geometry (regions_ s)).
Context (Hhan : forall q, rm_addr (regions_ s) q -> forall h,
  rm_get_handle (regions_ s') q = Some (Some h)
  <-> (h ∈ B /\ exists c, chunks_ s' !! h = Some c /\ c_ptr c = q)
      \/ (h ∉ A /\ h ∉ B /\ rm_get_handle (regions_ s) q = Some (Some h))).
Context (Hfl : flist (chunks_ s') (free_chunks_list_ s') fl').
Context (Hold : forall x c, x ∈ A ++ B -> chunks_ s !! x = Some c ->
  in_use c = false /\ c_bin_num c = None).
Context (Hnew : forall x c, x ∈ A ++ B -> chunks_ s' !! x = Some c ->
  in_use c = false /\ c_bin_num c = None /\ 0 <= c_freed_at_count c /\ rm_addr (regions_ s) (c_ptr c)).
Context (Hheld : forall x, x ∈ B -> x ∈ held').
Context (Hheld' : forall x, x ∉ A ++ B -> x ∈ held' <-> x ∈ held).
Context (Eb : bins_ s' = bins_ s) (En : next_allocation_id_ s' = next_allocation_id_ s).
Context (Et : timestamped_chunks_ s' = timestamped_chunks_ s).

Abbreviation L' := (<[i := l1 ++ B ++ l2]> L).

Lemma rl_NoDup : NoDup (concat L).
Proof.
  pose proof (perm_NoDup _ _ _ _ _ _ Hi) as Hnd. by apply NoDup_app in Hnd as (? & _).
Qed.

Lemma rl_elem x : x ∈ concat L' <-> x ∈ B \/ (x ∈ concat L /\ x ∉ A).
Proof. apply concat_insert_elem; [done|apply rl_NoDup]. Qed.

Lemma rl_in x : x ∈ l1 ++ A ++ l2 -> x ∈ concat L.
Proof.
  intros Hx. apply list_elem_of_In, in_concat. exists (l1 ++ A ++ l2).
  split; apply list_elem_of_In; [by eapply list_elem_of_lookup_2|done].
Qed.

Lemma rl_NoDup_i : NoDup (l1 ++ A ++ l2).
Proof.
  pose proof rl_NoDup as Hnd. destruct (lookup_split _ _ _ HL) as (L1 & L2 & -> & _ & _).
  rewrite concat_app in Hnd. cbn in Hnd. apply NoDup_app in Hnd as (_ & _ & Hnd).
  by apply NoDup_app in Hnd as (? & _ & _).
Qed.

Lemma rl_B x : x ∈ concat L -> x ∈ B -> x ∈ A.
Proof.
  intros Hx Hxb. assert (x ∈ B ++ spare' ++ fl') as Hx' by elem. rewrite Hperm in Hx'.
  apply elem_of_app in Hx' as [?|Hd]; [done|]. exfalso. by eapply (live_not_dead _ _ _ _ _ _ Hi).
Qed.

Lemma rl_out x : x ∈ l1 ++ l2 -> x ∉ A /\ x ∉ B.
Proof.
  intros Hx. assert (x ∉ A) as HxA.
  { intros HxA. pose proof rl_NoDup_i as Hnd. apply NoDup_app in Hnd as (_ & H1 & Hnd).
    apply NoDup_app in Hnd as (_ & H2 & _). apply elem_of_app in Hx as [Hx|Hx].
    - apply (H1 x); [done|]. elem.
    - by apply (H2 x). }
  split; [done|]. intros HxB. apply HxA, rl_B; [|done]. apply rl_in. elem.
Qed.

Lemma rl_NoDup_12 : NoDup (l1 ++ l2).
Proof.
  pose proof rl_NoDup_i as Hnd. apply NoDup_app in Hnd as (? & H1 & Hnd).
  apply NoDup_app in Hnd as (_ & _ & ?). apply NoDup_app. split_and!; [done| |done].
  intros x Hx Hx'. apply (H1 x); [done|]. elem.
Qed.

(** Chunks outside [A] and [B] keep everything but the link. *)
Lemma rl_back x c' :
  x ∉ A ++ B -> chunks_ s' !! x = Some c' ->
  exists c, chunks_ s !! x = Some c /\ c_ptr c' = c_ptr c /\ c_size c' = c_size c
    /\ c_bin_num c' = c_bin_num c /\ c_allocation_id c' = c_allocation_id c
    /\ c_freed_at_count c' = c_freed_at_count c.
Proof.
  intros Hx Hc'. destruct (Hrel x Hx) as (f & E & Hf). rewrite E in Hc'.
  destruct (chunks_ s !! x) as [c|]; [|done]. injection Hc' as <-. exists c. split; [done|].
  by destruct Hf as [->|[[o ->] _]].
Qed.

Lemma rl_forw x c :
  x ∉ A ++ B -> chunks_ s !! x = Some c ->
  exists c', chunks_ s' !! x = Some c' /\ c_ptr c' = c_ptr c /\ c_size c' = c_size c
    /\ c_bin_num c' = c_bin_num c.
Proof.
  intros Hx Hc. destruct (Hrel x Hx) as (f & E & Hf). rewrite Hc in E.
  exists (f c). split; [done|]. by destruct Hf as [->|[[o ->] _]].
Qed.

(** The dead records are not relinked. *)
Lemma rl_dead x : x ∉ A ++ B -> x ∉ concat L -> chunks_ s' !! x = chunks_ s !! x.
Proof.
  intros Hx Hd. destruct (Hrel x Hx) as (f & -> & Hf).
  destruct Hf as [->|[_ Hx2]]; [by destruct (chunks_ s !! x)|]. exfalso. apply Hd, rl_in. elem.
Qed.

Lemma rl_segs : Forall2 (region_seg (chunks_ s') dis') (regions_ s') L'.
Proof.
  pose proof (m_segs _ _ _ _ _ _ Hi) as HF.
  assert (Forall2 (region_seg (chunks_ s') dis') (regions_ s) L') as HF'.
  { apply Forall2_same_length_lookup. pose proof (Forall2_length _ _ _ HF) as Hln.
    split; [by rewrite length_insert|]. intros j r hs Hr Hhs.
    destruct (Forall2_lookup_l _ _ _ _ _ HF Hr) as (hs0 & Hhs0 & Hs0).
    apply list_lookup_insert_Some in Hhs as [(<- & <- & _)|[Hne Hhs]].
    - rewrite HL in Hhs0. injection Hhs0 as <-. by apply Hsegi.
    - simplify_eq. assert (forall x, x ∈ hs -> chunks_ s' !! x = chunks_ s !! x) as Hf.
      { intros x Hx. assert (x ∉ l1 ++ A ++ l2) as Hxi.
        { pose proof rl_NoDup as Hnd. intros Hxi. apply Hne.
          by eapply (NoDup_concat_lookup L x). }
        assert (x ∈ concat L) as HxL by (apply list_elem_of_In, in_concat; exists hs; split;
          apply list_elem_of_In; [by eapply list_elem_of_lookup_2|done]).
        assert (x ∉ B) as HxB by (intros HxB; apply Hxi; pose proof (rl_B x HxL HxB); elem).
        destruct (Hrel x ltac:(elem)) as (f & -> & Hf).
        destruct Hf as [->|[_ Hx2]]; [by destruct (chunks_ s !! x)|]. exfalso. elem. }
      apply (Hdis j); [congruence|done|]. unfold region_seg in *. case_bool_decide.
      + destruct Hs0 as (p & a & Hs & ?). exists p, a. split; [|done].
        eapply seg_frame; [|done]. intros x Hx. by rewrite Hf.
      + destruct Hs0 as [? Hs]. split; [done|]. eapply seg_frame; [|done]. intros x Hx. by rewrite Hf. }
  apply (Forall2_geometry (regions_ s)); [|done|done]. intros r r' hs. apply region_seg_geometry.
Qed.

Lemma rl_handles p :
  rm_addr (regions_ s') p -> forall h,
  rm_get_handle (regions_ s') p = Some (Some h)
  <-> h ∈ concat L' /\ exists c, chunks_ s' !! h = Some c /\ c_ptr c = p.
Proof.
  intros Hp h. apply (rm_addr_geometry _ (regions_ s)) in Hp; [|done].
  rewrite Hhan, rl_elem by done. rewrite (m_handles _ _ _ _ _ _ Hi p Hp). split.
  - intros [[? ?]|(HnA & HnB & Hh & c & Hc & E)]; [by split; [left|]|].
    split; [by right|]. destruct (rl_forw h c ltac:(elem) Hc) as (c' & Hc' & E' & _).
    exists c'. by split; [|congruence].
  - intros [[HhB|[Hh HnA]] (c' & Hc' & E)]; [left; eauto|].
    destruct (decide (h ∈ B)) as [HhB|HnB]; [left; eauto|]. right. split_and!; [done..|].
    destruct (rl_back h c' ltac:(elem) Hc') as (c & Hc & E' & _). exists c. by split; [|congruence].
Qed.

Lemma rl_perm : concat L' ++ spare' ++ fl' ≡ₚ seq 0 (length (chunks_ s')).
Proof.
  rewrite Hlen, <- (m_perm _ _ _ _ _ _ Hi).
  pose proof (concat_insert_perm L i _ (l1 ++ B ++ l2) HL) as HP.
  apply (Permutation_app_inv_l (l1 ++ A ++ l2)).
  rewrite (app_assoc (l1 ++ A ++ l2)), HP.
  transitivity ((B ++ spare' ++ fl') ++ (l1 ++ l2 ++ concat L)); [solve_Permutation|].
  rewrite Hperm. solve_Permutation.
Qed.

Lemma rl_bins b l :
  bins_ s' !! b = Some l ->
  StronglySorted (fun x y => ChunkComparator (chunks_ s') x y = true) l
  /\ forall h, h ∈ l <-> h ∈ concat L' /\ exists c, chunks_ s' !! h = Some c /\ c_bin_num c = Some b.
Proof.
  rewrite Eb. intros Hl. destruct (m_bins _ _ _ _ _ _ Hi b l Hl) as [Hs Hm].
  assert (forall x, x ∈ l -> x ∉ A ++ B) as Hno.
  { intros x Hx HxAB. apply Hm in Hx as (_ & c & Hc & E). destruct (Hold x c HxAB Hc). congruence. }
  split.
  - apply (sorted_frame (ChunkComparator (chunks_ s))); [|done]. intros x y Hx Hy.
    apply ChunkComparator_key.
    + pose proof Hx as Hx'. apply Hm in Hx' as (_ & c & Hc & _).
      destruct (rl_forw x c (Hno x Hx) Hc) as (c' & -> & E1 & E2 & _). rewrite Hc. unfold bkey. simpl. congruence.
    + pose proof Hy as Hy'. apply Hm in Hy' as (_ & c & Hc & _).
      destruct (rl_forw y c (Hno y Hy) Hc) as (c' & -> & E1 & E2 & _). rewrite Hc. unfold bkey. simpl. congruence.
  - intros h. rewrite Hm, rl_elem. split.
    + intros (Hh & c & Hc & E). assert (h ∉ A ++ B) as HhAB by (apply Hno, Hm; eauto).
      split; [right; split; [done|elem]|].
      destruct (rl_forw h c HhAB Hc) as (c' & Hc' & _ & _ & E'). exists c'. by split; [|congruence].
    + intros (Hh & c' & Hc' & E). destruct (decide (h ∈ A ++ B)) as [HhAB|HhAB].
      { destruct (Hnew h c' HhAB Hc') as (_ & ? & _). congruence. }
      split; [elem|]. destruct (rl_back h c' HhAB Hc') as (c & Hc & _ & _ & E' & _).
      exists c. by split; [|congruence].
Qed.

Lemma rl_chunk h c' :
  h ∈ concat L' -> chunks_ s' !! h = Some c' -> chunk_ok held' (next_allocation_id_ s') h c'.
Proof.
  rewrite En, rl_elem. intros Hh Hc'. destruct (decide (h ∈ A ++ B)) as [HhAB|HhAB].
  - destruct (Hnew h c' HhAB Hc') as (Hu & Hbn & Hf & _). split; [|done]. rewrite Hu.
    rewrite decide_True; [done|]. apply Hheld. elem.
  - destruct (rl_back h c' HhAB Hc') as (c & Hc & _ & E2 & E3 & E4 & E5).
    destruct (m_chunk _ _ _ _ _ _ Hi h c) as [Hok Hf]; [elem|done|].
    unfold chunk_ok, in_use in *. rewrite E2, E3, E4, E5. split; [|done].
    destruct (negb _); [done|]. rewrite Hok. pose proof (Hheld' h HhAB). do 2 case_decide; tauto.
Qed.

Lemma rl_ids h1 h2 c1 c2 :
  chunks_ s' !! h1 = Some c1 -> chunks_ s' !! h2 = Some c2 ->
  in_use c1 = true -> c_allocation_id c1 = c_allocation_id c2 -> h1 = h2.
Proof.
  intros Hc1 Hc2 Hu E.
  assert (in_use c2 = true) as Hu2 by (unfold in_use in *; by rewrite <- E).
  assert (h1 ∉ A ++ B) as H1 by (intros H1; destruct (Hnew _ _ H1 Hc1); congruence).
  assert (h2 ∉ A ++ B) as H2 by (intros H2; destruct (Hnew _ _ H2 Hc2); congruence).
  destruct (rl_back _ _ H1 Hc1) as (d1 & Hd1 & _ & _ & _ & E1 & _).
  destruct (rl_back _ _ H2 Hc2) as (d2 & Hd2 & _ & _ & _ & E2 & _).
  apply (m_ids _ _ _ _ _ _ Hi h1 h2 d1 d2); [done..| |congruence].
  unfold in_use in *. by rewrite <- E1.
Qed.

Lemma rl_ts h :
  h ∈ timestamped_chunks_ s' ->
  exists c, chunks_ s' !! h = Some c /\ rm_addr (regions_ s') (c_ptr c).
Proof.
  rewrite Et. intros Hh. destruct (m_ts _ _ _ _ _ _ Hi h Hh) as (c & Hc & Ha).
  destruct (decide (h ∈ A ++ B)) as [HhAB|HhAB].
  - assert (h < length (chunks_ s'))%nat as Hlt by (rewrite Hlen; by eapply lookup_lt_Some).
    destruct (lookup_lt_is_Some_2 _ _ Hlt) as [c' Hc']. exists c'. split; [done|].
    apply (rm_addr_geometry (regions_ s)); [done|]. by apply (Hnew h).
  - destruct (rl_forw h c HhAB Hc) as (c' & Hc' & E & _). exists c'. split; [done|].
    apply (rm_addr_geometry (regions_ s)); [done|]. by rewrite E.
Qed.

Lemma rl_blocks : blocks s' = blocks s.
Proof.
  apply used_blocks_ext. intros x. destruct (decide (x ∈ A ++ B)) as [Hx|Hx].
  - destruct (chunks_ s !! x) as [c|] eqn:Hc.
    + assert (x < length (chunks_ s'))%nat as Hlt by (rewrite Hlen; by eapply lookup_lt_Some).
      destruct (lookup_lt_is_Some_2 _ _ Hlt) as [c' Hc']. rewrite Hc'. simpl. unfold used_block.
      destruct (Hold x c Hx Hc) as [-> _]. by destruct (Hnew x c' Hx Hc') as [-> _].
    + apply lookup_ge_None in Hc. rewrite <- Hlen in Hc. apply lookup_ge_None in Hc. by rewrite Hc.
  - destruct (Hrel x Hx) as (f & -> & Hf). destruct (chunks_ s !! x) as [c|]; [|done]. simpl.
    by destruct Hf as [->|[[o ->] _]].
Qed.

Lemma mem_inv_swap : mem_inv held' dis' L' spare' fl' s' /\ blocks s' = blocks s.
Proof using All.
  split; [|apply rl_blocks]. constructor.
  - done.
  - apply rl_segs.
  - apply rl_handles.
  - apply rl_perm.
  - done.
  - intros h c Hh Hc. destruct (decide (h ∈ A ++ B)) as [HhAB|HhAB].
    { destruct (Hnew h c HhAB Hc) as (? & ? & _). done. }
    assert (h ∈ spare ++ fl) as Hd.
    { assert (h ∈ B ++ spare' ++ fl') as Hx by elem. rewrite Hperm in Hx. elem. }
    rewrite rl_dead in Hc; [by apply (m_dead _ _ _ _ _ _ Hi h)|done|].
    intros HhL. by eapply (live_not_dead _ _ _ _ _ _ Hi).
  - rewrite Eb. apply Hi.
  - apply rl_bins.
  - apply rl_chunk.
  - apply rl_ids.
  - rewrite En. apply Hi.
  - apply rl_ts.
Qed.

End swap.

(** The special case of non-empty lists with the same head, relinked properly. *)
Lemma mem_inv_relink held held' dis L spare spare' fl fl' s s' i l1 A B l2 :
  mem_inv held dis L spare fl s ->
  L !! i = Some (l1 ++ A ++ l2) -> A <> [] -> B <> [] -> head A = head B ->
  B ++ spare' ++ fl' ≡ₚ A ++ spare ++ fl ->
  relinked (chunks_ s) (chunks_ s') A B l2 ->
  (forall p a e, seg (chunks_ s) p a A e (nxt None l2) -> seg (chunks_ s') p a B e (nxt None l2)) ->
  length (chunks_ s') = length (chunks_ s) ->
  rm_wf (regions_ s') -> map geometry (regions_ s') = map geometry (regions_ s) ->
  (forall q, rm_addr (regions_ s) q -> forall h,
     rm_get_handle (regions_ s') q = Some (Some h)
     <-> (h ∈ B /\ exists c, chunks_ s' !! h = Some c /\ c_ptr c = q)
         \/ (h ∉ A /\ h ∉ B /\ rm_get_handle (regions_ s) q = Some (Some h))) ->
  flist (chunks_ s') (free_chunks_list_ s') fl' ->
  (forall x c, x ∈ A ++ B -> chunks_ s !! x = Some c -> in_use c = false /\ c_bin_num c = None) ->
  (forall x c, x ∈ A ++ B -> chunks_ s' !! x = Some c ->
     in_use c = false /\ c_bin_num c = None /\ 0 <= c_freed_at_count c /\ rm_addr (regions_ s) (c_ptr c)) ->
  (forall x, x ∈ B -> x ∈ held') -> (forall x, x ∉ A ++ B -> x ∈ held' <-> x ∈ held) ->
  bins_ s' = bins_ s -> next_allocation_id_ s' = next_allocation_id_ s ->
  timestamped_chunks_ s' = timestamped_chunks_ s ->
  mem_inv held' dis (<[i := l1 ++ B ++ l2]> L) spare' fl' s' /\ blocks s' = blocks s.
Proof.
  intros Hi HL HA HB Hhd Hperm Hrel Hseg Hlen Hwf Hgeo Hhan Hfl Hold Hnew Hheld Hheld' Eb En Et.
  assert (forall p a e, seg (chunks_ s) p a (l1 ++ A ++ l2) e None ->
            seg (chunks_ s') p a (l1 ++ B ++ l2) e None) as Hsegs.
  { intros p a e. apply (seg_relink _ _ _ _ _ A); try done; [by eapply rl_out|by eapply rl_NoDup_12]. }
  apply (mem_inv_swap held held' dis dis L spare spare' fl fl' s s' i l1 A B l2); try done.
  - intros x Hx. rewrite (Hrel x) by elem. case_decide as Hd.
    + exists (c_set_prev (lst None B)). split; [done|]. right. split; [eauto|by apply head_Some_elem].
    + exists id. split; [by destruct (chunks_ s !! x)|]. by left.
  - intros r _. unfold region_seg. case_bool_decide.
    + intros (p & a & Hs & ?). exists p, a. split; [|done]. by apply Hsegs.
    + intros [? Hs]. split; [by destruct l1, B|by apply Hsegs].
Qed.


End chunks.
