(* ===== verification/BfcCoalesce.v ===== *)
(** * The BFC allocator: splitting, merging and coalescing

    [AllocateChunk], [SplitChunk], [Merge], [TryToCoalesce]: each preserves the
    invariant, leaves the blocks in use alone and passes every [CHECK]. *)

From S2P Require Import Prelude BfcAllocator BfcRegions BfcInvariant BfcChunks.

(** Lookup in a vector after several writes. *)
Ltac lk :=
  cbn [chunks_ set_chunks set_regions set_free_chunks_list set_bins set_stats set_next_allocation_id
       set_timing_counter set_timestamped_chunks set_sub_allocator set_total_region_allocated_bytes
       set_curr_region_allocation_bytes set_started_backpedal];
  repeat first
    [ rewrite list_lookup_insert_ne by (congruence || done)
    | rewrite list_lookup_insert_eq by (rewrite ?length_insert; lia) ];
  first [eassumption | reflexivity].

Lemma nxt_None l : nxt None l = head l.
Proof. by destruct l. Qed.

Section coalesce.
Context {Sub : Type} `{!SubAllocator Sub} `{!SubAllocatorSpec Sub}.
Implicit Types s : BFCAllocator Sub.

(** ** The position of a live chunk *)

Lemma live_position held dis L spare fl s h c :
  mem_inv held dis L spare fl s -> h ∈ concat L -> chunks_ s !! h = Some c ->
  exists i r l1 l2, regions_ s !! i = Some r /\ L !! i = Some (l1 ++ h :: l2)
    /\ c_next c = head l2
    /\ r_ptr r <= c_ptr c /\ c_ptr c + c_size c <= r_end_ptr r /\ (256 | c_ptr c - r_ptr r)
    /\ 0 < c_size c /\ (256 | c_size c)
    /\ (dis = None -> c_prev c = lst None l1).
Proof.
  intros Hi Hh Hc. destruct (live_region _ _ _ _ _ _ Hi h Hh) as (i & r & hs & Hr & HL & Hin & Hseg).
  apply list_elem_of_split in Hin as (l1 & l2 & ->). exists i, r, l1, l2.
  pose proof Hseg as Hseg'. apply (region_seg_weak) in Hseg' as (p & a & Hs & Ha & Hd).
  apply seg_app in Hs as (m & Hs1 & Hs2). cbn in Hs2.
  destruct Hs2 as (c' & Hc' & Hp & ? & ? & Hpr & Hn & Hs3).
  simplify_eq. apply seg_le in Hs1 as [? Hd1], Hs3 as [? _]. rewrite nxt_None in Hn.
  split_and!; try done; try lia.
  - replace (c_ptr c - r_ptr r) with (c_ptr c - a + (a - r_ptr r)) by lia. by apply Z.divide_add_r.
  - intros ->. unfold region_seg in Hseg. rewrite bool_decide_false in Hseg by done.
    destruct Hseg as [_ Hs]. apply seg_app in Hs as (m & _ & Hs2). cbn in Hs2.
    destruct Hs2 as (c' & Hc'' & _ & _ & _ & E & _). by simplify_eq.
Qed.

(** ** Taking a chunk record *)

Lemma mem_inv_grow held dis L s :
  mem_inv held dis L [] [] s ->
  mem_inv held dis L [length (chunks_ s)] [] (set_chunks (chunks_ s ++ [default_Chunk]) s).
Proof.
  intros Hi. set (n := length (chunks_ s)).
  assert (forall x c, chunks_ s !! x = Some c -> (chunks_ s ++ [default_Chunk]) !! x = Some c) as Hlk.
  { intros x c Hc. by apply lookup_app_l_Some. }
  assert (forall x c, (chunks_ s ++ [default_Chunk]) !! x = Some c ->
            chunks_ s !! x = Some c \/ x = n /\ c = default_Chunk) as Hlk'.
  { intros x c [?|[? Hx]]%lookup_app_Some; [by left|right].
    apply list_lookup_singleton_Some in Hx as [? ->]. split; [unfold n; lia|done]. }
  assert (forall x, x ∈ concat L -> (chunks_ s ++ [default_Chunk]) !! x = chunks_ s !! x) as Hlive.
  { intros x Hx. apply lookup_app_l. by apply (live_lt _ _ _ _ _ _ Hi). }
  constructor; cbn.
  - apply Hi.
  - pose proof (m_segs _ _ _ _ _ _ Hi) as HF. apply Forall2_same_length_lookup.
    split; [by eapply Forall2_length|]. intros j r hs Hr Hhs.
    pose proof (Forall2_lookup_lr _ _ _ _ _ _ HF Hr Hhs) as Hs.
    assert (forall x, x ∈ hs -> shape <$> (chunks_ s ++ [default_Chunk]) !! x = shape <$> chunks_ s !! x) as Hf.
    { intros x Hx. rewrite Hlive; [done|]. apply list_elem_of_In, in_concat. exists hs.
      split; apply list_elem_of_In; [by eapply list_elem_of_lookup_2|done]. }
    unfold region_seg in *. case_bool_decide.
    + destruct Hs as (p & a & Hs & ?). exists p, a. split; [|done]. by eapply seg_frame.
    + destruct Hs as [? Hs]. split; [done|]. by eapply seg_frame.
  - intros p Hp h. rewrite (m_handles _ _ _ _ _ _ Hi p Hp). split; intros (Hh & c & Hc & E);
      (split; [done|]; exists c; split; [|done]); rewrite Hlive in *; done.
  - rewrite length_app, seq_app. cbn. rewrite <- (m_perm _ _ _ _ _ _ Hi). cbn. solve_Permutation.
  - apply (m_fl _ _ _ _ _ _ Hi).
  - intros h c Hh Hc. apply list_elem_of_singleton in Hh as ->.
    apply Hlk' in Hc as [Hc|[_ ->]]; [|done]. apply lookup_lt_Some in Hc. unfold n in Hc. lia.
  - apply Hi.
  - intros b l Hl. destruct (m_bins _ _ _ _ _ _ Hi b l Hl) as [Hs Hm]. split.
    + apply (sorted_frame (ChunkComparator (chunks_ s))); [|done]. intros x y Hx Hy.
      apply Hm in Hx as [Hx _], Hy as [Hy _].
      apply ChunkComparator_frame; by rewrite Hlive.
    + intros h. rewrite Hm. split; intros (Hh & c & Hc & E);
        (split; [done|]; exists c; split; [|done]); rewrite Hlive in *; done.
  - intros h c Hh. rewrite Hlive by done. by apply Hi.
  - intros h1 h2 c1 c2 Hc1 Hc2 Hu E.
    apply Hlk' in Hc1 as [Hc1|[_ ->]]; [|done]. apply Hlk' in Hc2 as [Hc2|[_ ->]].
    + by apply (m_ids _ _ _ _ _ _ Hi h1 h2 c1 c2).
    + exfalso. unfold in_use in Hu. by rewrite E in Hu.
  - apply Hi.
  - intros h Hh. destruct (m_ts _ _ _ _ _ _ Hi h Hh) as (c & Hc & Ha). eauto.
Qed.

Lemma used_blocks_grow cs : used_blocks (cs ++ [default_Chunk]) = used_blocks cs.
Proof. rewrite used_blocks_app. cbn. apply app_nil_r. Qed.

Lemma AllocateChunk_spec t held dis L fl s :
  mem_inv held dis L [] fl s ->
  wp t AllocateChunk s (fun h s' => exists fl',
    mem_inv held dis L [h] fl' s' /\ frame s s'
    /\ regions_ s' = regions_ s /\ bins_ s' = bins_ s
    /\ (forall x c, chunks_ s !! x = Some c -> chunks_ s' !! x = Some c)
    /\ is_Some (chunks_ s' !! h) /\ h ∉ concat L).
Proof.
  intros Hi. unfold AllocateChunk. wp_steps. pose proof (m_fl _ _ _ _ _ _ Hi) as Hfl.
  destruct fl as [|h fl]; cbn in Hfl.
  - rewrite Hfl. wp_steps. exists []. split_and!; try done.
    + by apply mem_inv_grow.
    + constructor; try done. apply used_blocks_grow.
    + intros x c Hc. by apply lookup_app_l_Some.
    + cbn. rewrite lookup_app_r, Nat.sub_diag by lia. done.
    + intros Hh. apply (live_lt _ _ _ _ _ _ Hi) in Hh. lia.
  - destruct Hfl as (E & c & Hc & Hfl). rewrite E. wp_steps.
    eapply wp_ChunkFromHandle; [done|]. wp_steps. exists fl. split_and!; try done.
    + destruct Hi. constructor; try done.
    + intros Hh. eapply (live_not_dead _ _ _ _ _ _ Hi h); [done|]. left.
Qed.

(** ** Splitting *)

Lemma wp_set_handle t p h s rs (Q : unit -> BFCAllocator Sub -> Prop) :
  rm_set_handle (regions_ s) p (Some h) = Some rs -> Q tt (set_regions rs s) -> wp t (set_handle p h) s Q.
Proof. intros E HQ. unfold set_handle. wp_steps. eapply wp_of_option; [done|]. by wp_steps. Qed.

Lemma wp_erase_handle t p s rs (Q : unit -> BFCAllocator Sub -> Prop) :
  rm_set_handle (regions_ s) p None = Some rs -> Q tt (set_regions rs s) -> wp t (erase_handle p) s Q.
Proof. intros E HQ. unfold erase_handle, rm_erase. wp_steps. eapply wp_of_option; [done|]. by wp_steps. Qed.

(** The two halves of a split chunk. *)
Definition split_low (c : Chunk) (k : Z) (hn : nat) : Chunk :=
  c_set_next (Some hn) (c_set_size k c).
Definition split_high (c cn : Chunk) (k : Z) (h : nat) : Chunk :=
  mkChunk (c_size c - k) (c_requested_size cn) (-1) (c_ptr c + k) (Some h) (c_next c) (c_bin_num cn)
    (c_freed_at_count c).

Section split.
Context (L : list (list nat)) (fl : list nat) (s s' : BFCAllocator Sub) (h hn : nat) (c cn : Chunk) (k : Z).
Context (held : list nat).
Context (Hi : mem_inv held None L [hn] fl s) (Hh : h ∈ concat L) (Hheld : h ∈ held).
Context (Hc : chunks_ s !! h = Some c) (Hu : in_use c = false) (Hcn : chunks_ s !! hn = Some cn).
Context (Hk : 0 < k < c_size c) (Hdiv : (256 | k)).
Context (Hcs : forall x, chunks_ s' !! x =
  if decide (x = h) then Some (split_low c k hn)
  else if decide (x = hn) then Some (split_high c cn k h)
  else if decide (c_next c = Some x) then c_set_prev (Some hn) <$> chunks_ s !! x
  else chunks_ s !! x).
Context (Hlen : length (chunks_ s') = length (chunks_ s)).
Context (Hrs : rm_set_handle (regions_ s) (c_ptr c + k) (Some hn) = Some (regions_ s')).
Context (Hfcl : free_chunks_list_ s' = free_chunks_list_ s) (Hb : bins_ s' = bins_ s).
Context (Hn : next_allocation_id_ s' = next_allocation_id_ s).
Context (Ht : timestamped_chunks_ s' = timestamped_chunks_ s).

Lemma split_addr : rm_addr (regions_ s) (c_ptr c + k).
Proof.
  destruct (live_position _ _ _ _ _ _ _ _ Hi Hh Hc) as (i & r & l1 & l2 & Hr & _ & _ & ? & ? & Hd & _).
  exists r. split; [by eapply list_elem_of_lookup_2|]. split; [lia|].
  replace (c_ptr c + k - r_ptr r) with (c_ptr c - r_ptr r + k) by lia. by apply Z.divide_add_r.
Qed.

(** No chunk starts inside another one. *)
Lemma split_fresh y : rm_get_handle (regions_ s) (c_ptr c + k) <> Some (Some y).
Proof.
  intros E. apply (m_handles _ _ _ _ _ _ Hi _ split_addr) in E as (Hy & cy & Hcy & E).
  destruct (decide (y = h)) as [->|Hne]; [simplify_eq; lia|].
  destruct (live_bounds _ _ _ _ _ _ Hi y cy Hy Hcy).
  destruct (live_disjoint _ _ _ _ _ _ Hi y h cy c); [done..|lia|lia].
Qed.

Lemma split_hn : hn ∉ concat L.
Proof. intros HL. eapply (live_not_dead _ _ _ _ _ _ Hi hn); [done|]. left. Qed.

(** The handles after the split: the new one at the cut, the others as before. *)
Lemma split_handles q y : rm_addr (regions_ s) q ->
  rm_get_handle (regions_ s') q = (if decide (q = c_ptr c + k) then Some (Some hn) else rm_get_handle (regions_ s) q) ->
  rm_get_handle (regions_ s') q = Some (Some y)
  <-> (y ∈ [h; hn] /\ exists cy, chunks_ s' !! y = Some cy /\ c_ptr cy = q)
      \/ (y ∉ [h] /\ y ∉ [h; hn] /\ rm_get_handle (regions_ s) q = Some (Some y)).
Proof using All.
  intros Hq Hget. pose proof split_hn as Hhn. assert (h <> hn) as Hne by congruence. rewrite Hget. case_decide as Hqk.
  - subst q. split.
    + intros [= ->]. left. split; [elem|]. exists (split_high c cn k h).
      by rewrite Hcs, decide_False, decide_True by done.
    + intros [(Hy & cy & Hcy & E)|(_ & _ & E)]; [|by apply split_fresh in E].
      assert (y = h \/ y = hn) as [-> | ->] by elem; [|done].
      rewrite Hcs, decide_True in Hcy by done. injection Hcy as <-. cbn in E. lia.
  - split.
    + intros E. pose proof E as E'. apply (m_handles _ _ _ _ _ _ Hi q Hq) in E' as (Hy & cy & Hcy & Ep).
      destruct (decide (y = h)) as [->|Hyh].
      * left. split; [elem|]. exists (split_low c k hn). rewrite Hcs, decide_True by done.
         by simplify_eq.
      * right. assert (y <> hn) by congruence. split_and!; [elem..|done].
    + intros [(Hy & cy & Hcy & E)|(_ & _ & E)]; [|done].
      assert (y = h \/ y = hn) as [-> | ->] by elem.
      * rewrite Hcs, decide_True in Hcy by done. injection Hcy as <-. cbn in E. subst q.
         by apply (live_handle _ _ _ _ _ _ Hi).
      * rewrite Hcs, decide_False, decide_True in Hcy by done. injection Hcy as <-. cbn in E. done.
Qed.

Lemma split_flist : flist (chunks_ s') (free_chunks_list_ s') fl.
Proof using All.
  pose proof split_hn as Hhn.
  rewrite Hfcl. eapply flist_frame; [|apply Hi]. intros x Hx.
  assert (x ∉ concat L) as HxL by (intros HxL; eapply (live_not_dead _ _ _ _ _ _ Hi x); [done|elem]).
  assert (x <> h) by congruence.
  assert (x <> hn).
  { intros ->. pose proof (perm_NoDup _ _ _ _ _ _ Hi) as Hnd. apply NoDup_app in Hnd as (_ & _ & Hnd).
    cbn in Hnd. by apply NoDup_cons in Hnd as [? _]. }
  rewrite Hcs, !decide_False by done. case_decide; [|done]. by destruct (chunks_ s !! x).
Qed.

Lemma mem_inv_split :
  exists L', mem_inv (hn :: held) None L' [] fl s' /\ blocks s' = blocks s
    /\ h ∈ concat L' /\ hn ∈ concat L' /\ rm_wf (regions_ s')
    /\ map geometry (regions_ s') = map geometry (regions_ s).
Proof using All.
  pose proof split_hn as Hhn.
  assert (h <> hn) as Hne by congruence.
  destruct (live_position _ _ _ _ _ _ _ _ Hi Hh Hc) as (i & r & l1 & l2 & Hr & HL & Hnx & _ & _ & _ & _ & Hd & _).
  pose proof (m_chunk _ _ _ _ _ _ Hi h c Hh Hc) as [Hok Hf]. rewrite Hu, decide_True in Hok by done.
  destruct (m_dead _ _ _ _ _ _ Hi hn cn ltac:(left) Hcn) as [Hun Hbn].
  destruct (rm_set_handle_spec (regions_ s) (c_ptr c + k) (Some hn)) as (rs & Ers & Hwf & Hgeo & Hget);
    [apply Hi|apply split_addr|]. rewrite Hrs in Ers. injection Ers as <-.
  assert (h ∈ concat (<[i := l1 ++ [h; hn] ++ l2]> L) /\ hn ∈ concat (<[i := l1 ++ [h; hn] ++ l2]> L)) as [Hh1 Hh2].
  { pose proof (rl_NoDup held None L [hn] fl s Hi) as Hnd.
    split; apply (concat_insert_elem L i l1 [h] [h; hn] l2); try done; left; elem. }
  assert (forall x cx, x ∈ [h] ++ [h; hn] -> chunks_ s !! x = Some cx ->
     in_use cx = false /\ c_bin_num cx = None) as Hold.
  { intros x cx Hx Hcx. assert (x = h \/ x = hn) as [-> | ->] by elem; by simplify_eq. }
  assert (forall x cx, x ∈ [h] ++ [h; hn] -> chunks_ s' !! x = Some cx ->
     in_use cx = false /\ c_bin_num cx = None /\ 0 <= c_freed_at_count cx
     /\ rm_addr (regions_ s) (c_ptr cx)) as Hnew.
  { intros x cx Hx. rewrite Hcs. assert (x = h \/ x = hn) as [-> | ->] by elem.
    - rewrite decide_True by done. intros [= <-]. split_and!; try done.
      by apply (live_bounds _ _ _ _ _ _ Hi h c).
    - rewrite decide_False, decide_True by done. intros [= <-]. split_and!; try done. apply split_addr. }
  assert (relinked (chunks_ s) (chunks_ s') [h] [h; hn] l2) as Hrel.
  { intros x Hx1 Hx2. rewrite Hcs, decide_False, decide_False by elem. by rewrite Hnx. }
  exists (<[i := l1 ++ [h; hn] ++ l2]> L). rewrite (and_assoc (mem_inv _ _ _ _ _ _)).
  split; [|split_and!; done].
  eapply (mem_inv_relink held _ _ L [hn] [] fl fl s s' i l1 [h] [h; hn] l2); try done.
  - intros p a e. cbn. intros (c0 & Hc0 & ? & ? & ? & ? & Hn0 & <-). simplify_eq.
    exists (split_low c k hn). rewrite Hcs, decide_True by done. split_and!; try done; cbn; try lia.
    exists (split_high c cn k h). rewrite Hcs, decide_False, decide_True by done.
    split_and!; try done; cbn; try lia. apply Z.divide_sub_r; done.
  - intros q Hq y. apply split_handles; [done|by apply Hget].
  - exact split_flist.
  - intros x Hx. assert (x = h \/ x = hn) as [-> | ->] by elem; [by right|by left].
  - intros x Hx. elem.
Qed.

End split.

Lemma frame_patch s s' :
  frame s (set_chunks (chunks_ s) (set_regions (regions_ s) s')) ->
  map geometry (regions_ s') = map geometry (regions_ s) -> blocks s' = blocks s -> frame s s'.
Proof. intros [] ??. by constructor. Qed.

(** Case analysis on a lookup after several writes. *)
Ltac lk_cases x :=
  cbn [chunks_ set_chunks set_regions set_free_chunks_list];
  rewrite ?list_lookup_insert, ?length_insert;
  repeat case_decide; try done; destruct_and?; simplify_eq; try done; try tauto.

Lemma SplitChunk_spec t L fl s h c k :
  mem_inv [h] None L [] fl s -> h ∈ concat L -> chunks_ s !! h = Some c -> in_use c = false ->
  0 < k < c_size c -> (256 | k) ->
  wp t (SplitChunk h k) s (fun _ s' => exists L' fl' c',
    mem_inv [h] None L' [] fl' s' /\ frame s s' /\ h ∈ concat L'
    /\ chunks_ s' !! h = Some c' /\ c_ptr c' = c_ptr c /\ c_size c' = k /\ in_use c' = false).
Proof.
  intros Hi Hh Hc Hu Hk Hd. unfold SplitChunk. apply wp_bind.
  eapply wp_mono; [eapply AllocateChunk_spec; exact Hi|]. intros hn s1 (fl1 & Hi1 & Hfr & _ & _ & Hext & [cn Hcn] & Hhn).
  cbn beta. pose proof (Hext _ _ Hc) as Hc1.
  pose proof (m_chunk _ _ _ _ _ _ Hi1 h c Hh Hc1) as [Hok _]. rewrite Hu, decide_True in Hok by left.
  apply wp_bind. eapply wp_ChunkFromHandle; [done|]. apply wp_bind, wp_CHECK; [by rewrite Hu, Hok|].
  assert (h <> hn) as Hne by congruence.
  pose proof (lookup_lt_Some _ _ _ Hc1) as Hlh. pose proof (lookup_lt_Some _ _ _ Hcn) as Hlhn.
  destruct (live_bounds _ _ _ _ _ _ Hi1 h c Hh Hc1) as (? & ? & ? & _).
  destruct (rm_set_handle_spec (regions_ s1) (c_ptr c + k) (Some hn)) as (rs & Ers & _ & Hgeo & _);
    [apply Hi1|by eapply split_addr|].
  assert (forall x, c_next c = Some x -> x <> h /\ x <> hn /\ is_Some (chunks_ s1 !! x)) as Hnb.
  { intros x Hx. destruct (live_position _ _ _ _ _ _ _ _ Hi1 Hh Hc1) as (i & r & l1 & l2 & _ & HL & Hnx & _).
    rewrite Hnx in Hx. apply head_Some_elem in Hx.
    assert (x ∈ concat L) as HxL by (eapply (rl_in L i l1 [h] l2); [done|elem]).
    pose proof (rl_NoDup_i _ _ _ _ _ _ i l1 [h] l2 Hi1 HL) as Hnd.
    apply NoDup_app in Hnd as (_ & _ & Hnd). cbn in Hnd. apply NoDup_cons in Hnd as [Hnd _].
    split_and!; [congruence|congruence|]. destruct (live_chunk _ _ _ _ _ _ Hi1 x HxL) as (? & ? & _). done. }
  apply wp_bind. eapply wp_modify_chunk; [lk|].
  apply wp_bind. eapply wp_set_handle; [exact Ers|].
  apply wp_bind. eapply wp_modify_chunk; [lk|]. apply wp_bind. eapply wp_modify_chunk; [lk|].
  apply wp_bind. eapply wp_modify_chunk; [lk|]. apply wp_bind. eapply wp_modify_chunk; [lk|].
  apply wp_bind. eapply wp_modify_chunk; [lk|]. apply wp_bind. eapply wp_modify_chunk; [lk|].
  apply wp_bind. eapply wp_modify_chunk; [lk|].
  rewrite (u64_small (c_size c - k)) by lia.
  apply wp_bind.
  eapply (wp_mono t _ _ (fun _ s' => regions_ s' = rs /\ frame s1 (set_chunks (chunks_ s1) (set_regions (regions_ s1) s'))
    /\ free_chunks_list_ s' = free_chunks_list_ s1 /\ bins_ s' = bins_ s1
    /\ length (chunks_ s') = length (chunks_ s1)
    /\ forall x, chunks_ s' !! x =
      if decide (x = h) then Some (split_low c k hn)
      else if decide (x = hn) then Some (split_high c cn k h)
      else if decide (c_next c = Some x) then c_set_prev (Some hn) <$> chunks_ s1 !! x
      else chunks_ s1 !! x)).
  { destruct (c_next c) as [x|] eqn:Hx; [destruct (Hnb x eq_refl) as (Hxh & Hxn & [cx Hcx]);
      pose proof (lookup_lt_Some _ _ _ Hcx); eapply wp_modify_chunk; [lk|]|apply wp_ret];
      (split_and!; [done|by constructor|done|done|by cbn; rewrite !length_insert|]);
      intros y; lk_cases y; first [by rewrite Hcx|unfold split_high; by rewrite Hx]. }
  intros _ s2 (E1 & Hfr2 & E3 & E4 & E5 & E6).
  destruct (mem_inv_split L fl1 s1 s2 h hn c cn k [h]) as (L' & Hi2 & Hbl & HhL & HhnL & _ & Hg);
    try done; [left|by rewrite E1|apply Hfr2..|].
  assert (chunks_ s2 !! hn = Some (split_high c cn k h)) as Hc2
    by (rewrite E6, decide_False, decide_True; done).
  eapply wp_mono; [eapply (InsertFreeChunkIntoBin_spec t [h] None L' [] fl1 s2 hn); try done;
    rewrite list_elem_of_singleton; congruence|].
  intros _ s3 (Hi3 & Hfr3 & _ & _ & E7). exists L', fl1, (split_low c k hn). split_and!; try done.
  - transitivity s1; [done|]. transitivity s2; [by apply frame_patch|done].
  - rewrite E7, list_lookup_insert_ne, E6, decide_True; done.
Qed.

(** ** Merging *)

Definition merged (c1 c2 : Chunk) : Chunk :=
  c_set_freed_at_count (Z.max (c_freed_at_count c1) (c_freed_at_count c2))
    (c_set_size (c_size c1 + c_size c2) (c_set_next (c_next c2) c1)).
Definition dead_chunk (o : option nat) (c : Chunk) : Chunk :=
  c_set_next o (c_set_bin_num None (c_set_allocation_id (-1) c)).

Section merge.
Context (L : list (list nat)) (fl : list nat) (s s' : BFCAllocator Sub) (h1 h2 : nat) (c1 c2 : Chunk).
Context (held held' : list nat) (i : nat) (l1 l2 : list nat).
Context (Hi : mem_inv held None L [] fl s) (HL : L !! i = Some (l1 ++ [h1; h2] ++ l2)).
Context (Hheld1 : h1 ∈ held) (Hheld2 : h2 ∈ held) (Hheld1' : h1 ∈ held').
Context (Hheld' : forall x, x <> h1 -> x <> h2 -> x ∈ held' <-> x ∈ held).
Context (Hc1 : chunks_ s !! h1 = Some c1) (Hu1 : in_use c1 = false).
Context (Hc2 : chunks_ s !! h2 = Some c2) (Hu2 : in_use c2 = false).
Context (Hcs : forall x, chunks_ s' !! x =
  if decide (x = h1) then Some (merged c1 c2)
  else if decide (x = h2) then Some (dead_chunk (free_chunks_list_ s) c2)
  else if decide (c_next c2 = Some x) then c_set_prev (Some h1) <$> chunks_ s !! x
  else chunks_ s !! x).
Context (Hlen : length (chunks_ s') = length (chunks_ s)).
Context (Hrs : rm_set_handle (regions_ s) (c_ptr c2) None = Some (regions_ s')).
Context (Hfcl : free_chunks_list_ s' = Some h2) (Hb : bins_ s' = bins_ s).
Context (Hn : next_allocation_id_ s' = next_allocation_id_ s).
Context (Ht : timestamped_chunks_ s' = timestamped_chunks_ s).

Lemma merge_live : h1 ∈ concat L /\ h2 ∈ concat L /\ h1 <> h2.
Proof using Hi HL.
  clear - Hi HL.
  split_and!; [eapply (rl_in L i l1 [h1; h2] l2); [done|elem]..|].
  pose proof (rl_NoDup_i _ _ _ _ _ _ i l1 [h1; h2] l2 Hi HL) as Hnd.
  apply NoDup_app in Hnd as (_ & _ & Hnd). cbn in Hnd. apply NoDup_cons in Hnd as [Hnd _].
  intros ->. apply Hnd. left.
Qed.

Lemma merge_next : c_next c2 = head l2.
Proof using Hi HL Hc2.
  destruct merge_live as (_ & Hh2 & _). clear - Hi HL Hc2 Hh2.
  destruct (live_position _ _ _ _ _ _ _ _ Hi Hh2 Hc2) as (j & r & k1 & k2 & _ & HL2 & Hnx & _).
  pose proof (rl_NoDup _ _ _ _ _ _ Hi) as HndL.
  assert (i = j) as <- by (eapply (NoDup_concat_lookup L h2); eauto; elem).
  assert (h2 ∉ l1 ++ [h1] /\ h2 ∉ k1) as [HnA HnB].
  { pose proof (rl_NoDup_i _ _ _ _ _ _ i l1 [h1; h2] l2 Hi HL) as Hnd.
    replace (l1 ++ [h1; h2] ++ l2) with ((l1 ++ [h1]) ++ h2 :: l2) in Hnd by (by rewrite <- app_assoc).
    pose proof (rl_NoDup_i _ _ _ _ _ _ i k1 [h2] k2 Hi HL2) as Hnd'.
    apply NoDup_app in Hnd as (_ & Hnd & _), Hnd' as (_ & Hnd' & _).
    split; intros Hx; [eapply Hnd|eapply Hnd']; try done; left. }
  rewrite Hnx. rename HL2 into E2.
  replace (l1 ++ [h1; h2] ++ l2) with ((l1 ++ [h1]) ++ h2 :: l2) in HL by (by rewrite <- app_assoc).
  rewrite HL in E2. injection E2 as E2.
  destruct (app_eq_inv_not_elem _ _ _ _ _ E2 HnA HnB) as [_ <-]. done.
Qed.

(** The merged chunks are linked and adjacent. *)
Lemma merge_adjacent : c_prev c2 = Some h1 /\ c_ptr c2 = c_ptr c1 + c_size c1.
Proof using Hi HL Hc1 Hc2.
  clear - Hi HL Hc1 Hc2.
  destruct (Forall2_lookup_r _ _ _ _ _ (m_segs _ _ _ _ _ _ Hi) HL) as (r & _ & [_ Hs]).
  apply seg_app in Hs as (m & _ & Hs). cbn in Hs.
  destruct Hs as (d1 & Hd1 & ? & _ & _ & _ & _ & d2 & Hd2 & ? & _ & _ & ? & _). simplify_eq. split; [done|lia].
Qed.

Lemma merge_neighbor x : c_next c2 = Some x -> x <> h1 /\ x <> h2 /\ is_Some (chunks_ s !! x).
Proof using Hi HL Hc2.
  rewrite merge_next. clear - Hi HL. intros Hx. apply head_Some_elem in Hx.
  assert (x ∈ concat L) as HxL by (eapply (rl_in L i l1 [h1; h2] l2); [done|elem]).
  pose proof (rl_NoDup_i _ _ _ _ _ _ i l1 [h1; h2] l2 Hi HL) as Hnd.
  apply NoDup_app in Hnd as (_ & _ & Hnd). cbn in Hnd. apply NoDup_cons in Hnd as [Hn1 Hnd].
  apply NoDup_cons in Hnd as [Hn2 _].
  destruct (live_chunk _ _ _ _ _ _ Hi x HxL) as (? & ? & _).
  split_and!; [intros ->; elem|intros ->; elem|done].
Qed.

Lemma merge_handles rs' :
  rm_set_handle (regions_ s) (c_ptr c2) None = Some rs' ->
  rm_wf rs' /\ map geometry rs' = map geometry (regions_ s)
  /\ forall q, rm_addr (regions_ s) q -> forall y,
     rm_get_handle rs' q = Some (Some y)
     <-> (y ∈ [h1] /\ exists c, chunks_ s' !! y = Some c /\ c_ptr c = q)
         \/ (y ∉ [h1; h2] /\ y ∉ [h1] /\ rm_get_handle (regions_ s) q = Some (Some y)).
Proof.
  intros Ers'. destruct merge_live as (Hh1 & Hh2 & Hne).
  destruct (rm_set_handle_spec (regions_ s) (c_ptr c2) None) as (rs & Ers & Hwf & Hgeo & Hget);
    [apply Hi|by apply (live_bounds _ _ _ _ _ _ Hi h2 c2)|]. rewrite Ers' in Ers. injection Ers as <-.
  split_and!; [done..|]. intros q Hq y. rewrite Hget by done.
  pose proof (live_handle _ _ _ _ _ _ Hi h2 c2 Hh2 Hc2) as Hg2.
  pose proof (live_handle _ _ _ _ _ _ Hi h1 c1 Hh1 Hc1) as Hg1.
  assert (chunks_ s' !! h1 = Some (merged c1 c2)) as Hm by (by rewrite Hcs, decide_True).
  case_decide as Hqp.
  - subst q. split; [done|]. intros [(Hy & c & Hc & E)|(Hy & _ & E)].
    + apply list_elem_of_singleton in Hy as ->. rewrite Hm in Hc. injection Hc as <-. cbn in E. congruence.
    + rewrite Hg2 in E. injection E as <-. exfalso. elem.
  - split.
    + intros E. destruct (decide (y = h1)) as [->|Hy1].
      * left. split; [left|]. eexists. split; [done|]. cbn.
        apply (m_handles _ _ _ _ _ _ Hi q Hq) in E as (_ & c & Hc & <-). congruence.
      * right. assert (y <> h2) as Hy2.
        { intros ->. apply (m_handles _ _ _ _ _ _ Hi q Hq) in E as (_ & c & Hc & <-). congruence. }
        split_and!; [elem..|done].
    + intros [(Hy & c & Hc & E)|(_ & _ & E)]; [|done].
      apply list_elem_of_singleton in Hy as ->. rewrite Hm in Hc. injection Hc as <-. cbn in E. congruence.
Qed.

Lemma mem_inv_merge :
  mem_inv held' None (<[i := l1 ++ [h1] ++ l2]> L) [] (h2 :: fl) s' /\ blocks s' = blocks s.
Proof using All.
  destruct merge_live as (Hh1 & Hh2 & Hne). pose proof merge_next as Hnx.
  destruct (merge_handles _ Hrs) as (Hwf & Hgeo & Hhan).
  pose proof (m_chunk _ _ _ _ _ _ Hi h1 c1 Hh1 Hc1) as [Hok1 Hf1]. rewrite Hu1, decide_True in Hok1 by done.
  pose proof (m_chunk _ _ _ _ _ _ Hi h2 c2 Hh2 Hc2) as [Hok2 Hf2]. rewrite Hu2, decide_True in Hok2 by done.
  eapply (mem_inv_relink held _ _ L [] [] fl (h2 :: fl) s s' i l1 [h1; h2] [h1] l2); try done.
  - intros x Hx1 Hx2. rewrite Hcs, decide_False, decide_False by elem. by rewrite Hnx.
  - intros p a e. cbn. intros (d1 & Hd1 & ? & ? & ? & ? & _ & d2 & Hd2 & ? & ? & ? & _ & ? & <-).
    simplify_eq. exists (merged c1 c2). rewrite Hcs, decide_True by done.
    split_and!; try done; cbn; try lia. by apply Z.divide_add_r.
  - cbn. split; [done|]. exists (dead_chunk (free_chunks_list_ s) c2).
    rewrite Hcs, decide_False, decide_True by done. split; [done|]. cbn.
    eapply flist_frame; [|apply Hi]. intros x Hx.
    assert (x ∉ concat L) as HxL by (intros HxL; by eapply (live_not_dead _ _ _ _ _ _ Hi x)).
    rewrite Hcs, decide_False, decide_False by congruence. case_decide; [|done].
    by destruct (chunks_ s !! x).
  - intros x cx Hx Hcx. assert (x = h1 \/ x = h2) as [-> | ->] by elem; by simplify_eq.
  - intros x cx Hx. rewrite Hcs. assert (x = h1 \/ x = h2) as [-> | ->] by elem.
    + rewrite decide_True by done. intros [= <-]. split_and!; try done; [cbn; lia|].
      by apply (live_bounds _ _ _ _ _ _ Hi h1 c1).
    + rewrite decide_False, decide_True by done. intros [= <-]. split_and!; try done.
      by apply (live_bounds _ _ _ _ _ _ Hi h2 c2).
  - intros x Hx. by apply list_elem_of_singleton in Hx as ->.
  - intros x Hx. apply Hheld'; elem.
Qed.

End merge.

Lemma Merge_spec t L fl s h1 h2 c1 c2 held held' i l1 l2 :
  mem_inv held None L [] fl s -> L !! i = Some (l1 ++ [h1; h2] ++ l2) ->
  h1 ∈ held -> h2 ∈ held -> h1 ∈ held' ->
  (forall x, x <> h1 -> x <> h2 -> x ∈ held' <-> x ∈ held) ->
  chunks_ s !! h1 = Some c1 -> in_use c1 = false -> chunks_ s !! h2 = Some c2 -> in_use c2 = false ->
  wp t (Merge h1 h2) s (fun _ s' => exists L' fl',
    mem_inv held' None L' [] fl' s' /\ frame s s' /\ h1 ∈ concat L'
    /\ chunks_ s' !! h1 = Some (merged c1 c2)).
Proof.
  intros Hi HL Hd1 Hd2 Hd1' Hd' Hc1 Hu1 Hc2 Hu2.
  destruct (merge_live _ _ _ _ _ _ _ _ _ Hi HL) as (Hh1 & Hh2 & Hne).
  pose proof (merge_next _ _ _ _ _ _ _ _ _ _ Hi HL Hc2) as Hnx.
  destruct (live_bounds _ _ _ _ _ _ Hi h1 c1 Hh1 Hc1) as (? & ? & ? & _).
  destruct (live_bounds _ _ _ _ _ _ Hi h2 c2 Hh2 Hc2) as (? & ? & ? & _ & Ha2).
  destruct (merge_adjacent _ _ _ _ _ _ _ _ _ _ _ Hi HL Hc1 Hc2) as [Hpv Hpt].
  destruct (rm_set_handle_spec (regions_ s) (c_ptr c2) None) as (rs & Ers & _ & Hgeo & _); [apply Hi|done|].
  pose proof (merge_neighbor _ _ _ _ _ _ _ _ _ _ Hi HL Hc2) as Hnb.
  pose proof (lookup_lt_Some _ _ _ Hc1). pose proof (lookup_lt_Some _ _ _ Hc2).
  unfold Merge. apply wp_bind. eapply wp_ChunkFromHandle; [done|].
  apply wp_bind. eapply wp_ChunkFromHandle; [done|].
  apply wp_bind, wp_CHECK; [by rewrite Hu1, Hu2|].
  apply wp_bind. eapply wp_modify_chunk; [lk|].
  apply wp_bind, wp_CHECK; [by apply bool_decide_true|].
  apply wp_bind.
  eapply (wp_mono t _ _ (fun _ s1 => regions_ s1 = regions_ s
    /\ frame s (set_chunks (chunks_ s) (set_regions (regions_ s) s1))
    /\ free_chunks_list_ s1 = free_chunks_list_ s /\ bins_ s1 = bins_ s
    /\ length (chunks_ s1) = length (chunks_ s)
    /\ forall x, chunks_ s1 !! x =
      if decide (x = h1) then Some (c_set_next (c_next c2) c1)
      else if decide (c_next c2 = Some x) then c_set_prev (Some h1) <$> chunks_ s !! x
      else chunks_ s !! x)).
  { destruct (c_next c2) as [x|] eqn:Hx; [destruct (Hnb x eq_refl) as (Hxh & Hxn & [cx Hcx]);
      pose proof (lookup_lt_Some _ _ _ Hcx); eapply wp_modify_chunk; [lk|]|apply wp_ret];
      (split_and!; [done|by constructor|done|done|by cbn; rewrite !length_insert|]);
      intros y; lk_cases y; by rewrite Hcx. }
  intros _ s1 (E1 & Hfr1 & E3 & E4 & E5 & E6).
  assert (chunks_ s1 !! h1 = Some (c_set_next (c_next c2) c1)) as Hc1' by (by rewrite E6, decide_True).
  assert (chunks_ s1 !! h2 = Some c2) as Hc2'.
  { rewrite E6, decide_False, decide_False; [done| |done]. intros Hx. by destruct (Hnb _ Hx) as (_ & ? & _). }
  apply wp_bind. eapply wp_modify_chunk; [done|]. apply wp_bind. eapply wp_modify_chunk; [lk|].
  unfold DeleteChunk. apply wp_bind. eapply wp_ChunkFromHandle; [lk|].
  apply wp_bind. eapply wp_erase_handle; [cbn; rewrite E1; exact Ers|].
  unfold DeallocateChunk. wp_steps. eapply wp_modify_chunk; [lk|]. wp_steps.
  match goal with |- exists _ _, mem_inv _ _ _ _ _ ?st /\ _ => set (s2 := st) end.
  assert (forall x, chunks_ s2 !! x =
    if decide (x = h1) then Some (merged c1 c2)
    else if decide (x = h2) then Some (dead_chunk (free_chunks_list_ s) c2)
    else if decide (c_next c2 = Some x) then c_set_prev (Some h1) <$> chunks_ s !! x
    else chunks_ s !! x) as Hcs2.
  { intros x. subst s2. cbn. rewrite E3, !list_lookup_insert, !length_insert, E5, E6.
    unfold merged. cbn. rewrite u64_small by lia.
    repeat case_decide; try done; destruct_and?; simplify_eq; try done; try tauto; exfalso; lia. }
  assert (h1 ∈ concat (<[i:=l1 ++ [h1] ++ l2]> L)) as Hin.
  { apply (concat_insert_elem L i l1 [h1; h2] [h1] l2); [done|by eapply rl_NoDup|]. left. left. }
  destruct (mem_inv_merge L fl s s2 h1 h2 c1 c2 held held' i l1 l2) as [Hi2 Hbl]; try done;
    try (apply Hfr1).
  { subst s2. cbn. by rewrite !length_insert. }
  exists (<[i:=l1 ++ [h1] ++ l2]> L), (h2 :: fl). split_and!; try done.
  - apply frame_patch; [|done|done]. destruct Hfr1. by constructor.
  - by rewrite Hcs2, decide_True.
Qed.

(** ** Coalescing *)

Lemma lst_Some l x : lst None l = Some x -> exists l', l = l' ++ [x].
Proof.
  destruct l as [|y l' _] using rev_ind; [done|]. intros E. exists l'.
  f_equal. assert (forall p k, lst p (k ++ [y]) = Some y) as Hl.
  { intros p k. revert p. induction k; intros p; simpl; auto. }
  rewrite Hl in E. congruence.
Qed.

(** A free chunk [h], out of the bins; the blocks in use are those of [s0]. *)
Definition holding (s0 : BFCAllocator Sub) (h : nat) s : Prop :=
  exists L fl c, mem_inv [h] None L [] fl s /\ frame s0 s /\ h ∈ concat L
    /\ chunks_ s !! h = Some c /\ in_use c = false.

Lemma coalesce_next t s0 s h hn c n :
  holding s0 h s -> chunks_ s !! h = Some c -> c_next c = Some hn ->
  chunks_ s !! hn = Some n -> in_use n = false ->
  wp t (RemoveFreeChunkFromBin hn;; Merge h hn) s (fun _ s' => holding s0 h s').
Proof.
  intros (L & fl & c' & Hi & Hfr & Hh & Hc' & Hu) Hc Hnx Hn Hun. assert (c' = c) as -> by congruence.
  destruct (live_position _ _ _ _ _ _ _ _ Hi Hh Hc) as (i & r & l1 & l2 & _ & HL & Hnx' & _).
  rewrite Hnx in Hnx'. destruct l2 as [|x l2]; [done|]. injection Hnx' as <-.
  destruct (merge_live _ _ _ _ _ _ _ _ _ Hi HL) as (_ & Hhn & Hne).
  apply wp_bind. eapply wp_mono; [eapply RemoveFreeChunkFromBin_spec; [exact Hi|done| |done|done]|].
  { rewrite list_elem_of_singleton. congruence. }
  intros _ s1 (Hi1 & Hfr1 & _ & _ & E1). cbn beta.
  eapply wp_mono; [eapply (Merge_spec t L fl s1 h hn) with (held' := [h]); [exact Hi1|exact HL|..]|].
  - elem.
  - left.
  - left.
  - intros x H1 H2. elem.
  - rewrite E1, list_lookup_insert_ne by done. done.
  - done.
  - rewrite E1, list_lookup_insert_eq by (by eapply lookup_lt_Some). done.
  - done.
  - intros _ s2 (L2 & fl2 & Hi2 & Hfr2 & Hh2 & Hc2). exists L2, fl2, (merged c (c_set_bin_num None n)).
    split_and!; try done. transitivity s; [done|]. by transitivity s1.
Qed.

Lemma coalesce_prev t s0 s h hp c n :
  holding s0 h s -> chunks_ s !! h = Some c -> c_prev c = Some hp ->
  chunks_ s !! hp = Some n -> in_use n = false ->
  wp t (RemoveFreeChunkFromBin hp;; Merge hp h;; mret hp) s (fun h' s' => h' = hp /\ holding s0 hp s').
Proof.
  intros (L & fl & c' & Hi & Hfr & Hh & Hc' & Hu) Hc Hpv Hn Hun. assert (c' = c) as -> by congruence.
  destruct (live_position _ _ _ _ _ _ _ _ Hi Hh Hc) as (i & r & l1 & l2 & _ & HL & _ & _ & _ & _ & _ & _ & Hpv').
  rewrite Hpv in Hpv'. specialize (Hpv' eq_refl). symmetry in Hpv'.
  apply lst_Some in Hpv' as [l1' ->].
  rewrite <- app_assoc in HL. cbn in HL.
  destruct (merge_live _ _ _ _ _ _ _ _ _ Hi HL) as (Hhp & _ & Hne).
  apply wp_bind. eapply wp_mono; [eapply RemoveFreeChunkFromBin_spec; [exact Hi|done| |done|done]|].
  { rewrite list_elem_of_singleton. congruence. }
  intros _ s1 (Hi1 & Hfr1 & _ & _ & E1). cbn beta. apply wp_bind.
  eapply wp_mono; [eapply (Merge_spec t L fl s1 hp h) with (held' := [hp]); [exact Hi1|exact HL|..]|].
  - left.
  - elem.
  - left.
  - intros x H1 H2. elem.
  - rewrite E1, list_lookup_insert_eq by (by eapply lookup_lt_Some). done.
  - done.
  - rewrite E1, list_lookup_insert_ne by done. done.
  - done.
  - intros _ s2 (L2 & fl2 & Hi2 & Hfr2 & Hh2 & Hc2). apply wp_ret. split; [done|].
    exists L2, fl2, (merged (c_set_bin_num None n) c).
    split_and!; try done. transitivity s; [done|]. by transitivity s1.
Qed.

Lemma TryToCoalesce_spec t s0 s h b :
  holding s0 h s -> wp t (TryToCoalesce h b) s (fun h' s' => holding s0 h' s').
Proof.
  intros Hh. pose proof Hh as (L & fl & c & Hi & _ & Hl & Hc & Hu).
  unfold TryToCoalesce. apply wp_bind. eapply wp_ChunkFromHandle; [done|]. cbn beta.
  destruct (negb b && (0 <? c_freed_at_count c)); [by apply wp_ret|].
  assert (forall s', holding s0 h s' ->
    wp t (c ← ChunkFromHandle h;
          match c_prev c with
          | Some hp =>
              n ← ChunkFromHandle hp;
              if negb (in_use n) && ((c_freed_at_count n =? 0) || b) then
                RemoveFreeChunkFromBin hp;; Merge hp h;; mret hp
              else mret h
          | None => mret h
          end) s' (fun h' s'' => holding s0 h' s'')) as Hprev.
  { intros s' Hh'. pose proof Hh' as (L' & fl' & c' & Hi' & _ & Hl' & Hc' & Hu').
    apply wp_bind. eapply wp_ChunkFromHandle; [done|]. destruct (c_prev c') as [hp|] eqn:Hp; [|by apply wp_ret].
    destruct (live_position _ _ _ _ _ _ _ _ Hi' Hl' Hc') as (i & r & l1 & l2 & _ & HL & _ & _ & _ & _ & _ & _ & Hpv).
    rewrite Hp in Hpv. specialize (Hpv eq_refl). symmetry in Hpv. apply lst_Some in Hpv as [l1' ->].
    assert (hp ∈ concat L') as Hhp by (eapply (rl_in L' i _ [h] l2); [done|elem]).
    destruct (live_chunk _ _ _ _ _ _ Hi' hp Hhp) as (n & Hn & _).
    apply wp_bind. eapply wp_ChunkFromHandle; [done|]. cbn beta.
    destruct (in_use n) eqn:Hun; cbn [negb andb]; [by apply wp_ret|]. destruct (_ || b); [|by apply wp_ret].
    eapply wp_mono; [by eapply coalesce_prev|]. by intros h' s'' [-> ?]. }
  apply wp_bind. destruct (c_next c) as [hn|] eqn:Hnx; [|apply wp_ret; by apply Hprev].
  destruct (live_position _ _ _ _ _ _ _ _ Hi Hl Hc) as (i & r & l1 & l2 & _ & HL & Hnx' & _).
  rewrite Hnx in Hnx'. symmetry in Hnx'. apply head_Some_elem in Hnx'.
  assert (hn ∈ concat L) as Hhn by (eapply (rl_in L i _ [h] l2); [done|elem]).
  destruct (live_chunk _ _ _ _ _ _ Hi hn Hhn) as (n & Hn & _).
  apply wp_bind. eapply wp_ChunkFromHandle; [done|]. cbn beta.
  destruct (in_use n) eqn:Hun; cbn [negb andb]; [apply wp_ret; by apply Hprev|].
  destruct (_ || b); [|apply wp_ret; by apply Hprev].
  eapply wp_mono; [by eapply coalesce_next|]. cbn beta. auto.
Qed.

End coalesce.
