(* ===== verification/BfcAlloc.v ===== *)
(** * The BFC allocator: allocating and freeing a block

    [MarkFree], [DeallocateRawInternal], [FindChunkPtr]: the invariant is preserved,
    a freed block leaves the set of blocks in use, a found chunk joins it, and the
    search is best fit. *)

From S2P Require Import Prelude BfcAllocator BfcRegions BfcInvariant BfcChunks BfcCoalesce.

(** ** Bin numbers *)

Lemma kMax_eq : kMaxInternalFragmentation = 134217728.
Proof. reflexivity. Qed.

Lemma Log2FloorNonZero_log2 n : 0 < n < 2 ^ 64 -> Log2FloorNonZero n = Z.log2 n.
Proof.
  intros Hn. unfold Log2FloorNonZero, clzll.
  assert (0 <= Z.log2 n < 64) as Hl.
  { split; [apply Z.log2_nonneg|]. apply Z.log2_lt_pow2; lia. }
  generalize dependent (Z.log2 n). intros k Hk.
  assert (forall j, (j < 64)%nat -> Z.lxor 63 (63 - Z.of_nat j) = Z.of_nat j) as Hx.
  { intros j Hj. do 64 (destruct j as [|j]; [reflexivity|]). lia. }
  rewrite <- (Z2Nat.id k) at 1 by lia. rewrite Hx by lia. lia.
Qed.

Lemma BinNumForSize_eq n :
  0 < n < 2 ^ 64 -> BinNumForSize n = Z.to_nat (Z.min 20 (Z.log2 (Z.max n 256 / 256))).
Proof.
  intros Hn. unfold BinNumForSize, kMinAllocationBits, kNumBins.
  rewrite Z.shiftr_div_pow2 by lia. change (2 ^ 8) with 256.
  rewrite Log2FloorNonZero_log2; [done|]. split.
  - apply Z.div_str_pos. lia.
  - apply Z.div_lt_upper_bound; lia.
Qed.

Lemma BinNumForSize_mono m n :
  0 < m <= n -> n < 2 ^ 64 -> (BinNumForSize m <= BinNumForSize n)%nat.
Proof.
  intros Hm Hn. rewrite !BinNumForSize_eq by lia. apply Z2Nat.inj_le.
  - pose proof (Z.log2_nonneg (Z.max m 256 / 256)). lia.
  - pose proof (Z.log2_nonneg (Z.max n 256 / 256)). lia.
  - apply Z.min_le_compat_l, Z.log2_le_mono, Z.div_le_mono; lia.
Qed.

Section alloc.
Context {Sub : Type} `{!SubAllocator Sub} `{!SubAllocatorSpec Sub}.
Implicit Types s : BFCAllocator Sub.

(** What every operation leaves alone: the configuration. *)
Record same_config s s' : Prop := {
  k_limit : memory_limit_ s' = memory_limit_ s;
  k_gc : garbage_collection_ s' = garbage_collection_ s;
  k_timing : timing_counter_ s' = None <-> timing_counter_ s = None
}.

#[export] Instance same_config_preorder : PreOrder same_config.
Proof.
  split; [by intros s; constructor|]. intros s1 s2 s3 [E1 E2 E3] [F1 F2 F3].
  constructor; [congruence..|]. tauto.
Qed.

Lemma frame_config s s' : frame s s' -> same_config s s'.
Proof. intros H. constructor; [apply H..|]. by rewrite (f_counter _ _ H). Qed.

(** ** Freeing *)

Lemma MarkFree_spec t L fl s h c :
  mem_inv [] None L [] fl s -> acct_inv s -> h ∈ concat L -> chunks_ s !! h = Some c -> in_use c = true ->
  wp t (MarkFree h) s (fun _ s' => exists c',
    mem_inv [h] None L [] fl s' /\ acct_inv s' /\ same_config s s'
    /\ chunks_ s' !! h = Some c' /\ in_use c' = false
    /\ timestamped_chunks_ s' = timestamped_chunks_ s
    /\ next_allocation_id_ s' = next_allocation_id_ s
    /\ blocks s ≡ₚ block_of c :: blocks s').
Proof.
  intros Hi Ha Hh Hc Hu. pose proof (m_chunk _ _ _ _ _ _ Hi h c Hh Hc) as [Hok Hf].
  rewrite Hu in Hok. destruct Hok as [Hbn Hid]. pose proof (lookup_lt_Some _ _ _ Hc) as Hlt.
  unfold MarkFree. apply wp_bind. eapply wp_ChunkFromHandle; [done|].
  apply wp_bind, wp_CHECK; [by rewrite Hu, Hbn|].
  apply wp_bind. eapply wp_modify_chunk; [done|]. wp_steps. cbn [timing_counter_ set_chunks].
  set (c0 := c_set_allocation_id (-1) c).
  eapply (wp_mono t _ _ (fun _ s' => exists v c', s' = set_timing_counter v (set_chunks (<[h:=c']> (chunks_ s)) s)
    /\ (v = None <-> timing_counter_ s = None) /\ match v with Some x => 0 <= x | None => True end
    /\ shape c' = shape c /\ in_use c' = false /\ c_bin_num c' = None /\ 0 <= c_freed_at_count c')).
  { pose proof (a_counter _ Ha) as Hcnt. destruct (timing_counter_ s) as [v|] eqn:Hv.
    - wp_steps. eapply wp_modify_chunk; [lk|]. exists (Some (v + 1)), (c_set_freed_at_count (v + 1) c0).
      split_and!; try done; [|lia|cbn; lia]. cbn. unfold set_timing_counter, set_chunks; cbn. by rewrite list_insert_insert_eq.
    - wp_steps. exists None, c0. split_and!; try done.
      unfold set_timing_counter, set_chunks; cbn. by rewrite Hv. }
  intros _ s' (v & c' & -> & Hv & Hv' & Hsh & Hu' & Hb' & Hf'). apply wp_modify.
  match goal with |- exists _, mem_inv _ _ _ _ _ ?st /\ _ => set (s2 := st) end.
  assert (blocks s ≡ₚ block_of c :: blocks s2) as Hbl by (by eapply used_blocks_free).
  exists c'. split_and!; try done; [| |cbn; lk].
  - eapply (mem_inv_update [] [h] _ _ _ _ s s2 h c c'); try done.
    + apply Hi.
    + apply Hi.
    + cbn. intros b l Hl. destruct (m_bins _ _ _ _ _ _ Hi b l Hl) as [Hs Hm]. split; [done|].
      intros x. rewrite Hm. case_decide as Hx; [subst x|done].
      split; [|congruence]. intros (_ & c1 & Hc1 & E). congruence.
    + split; [|done]. rewrite Hu', Hb'. by rewrite decide_True by left.
    + intros x cx Hx. cbn. by rewrite (chunk_ok_held h []).
    + congruence.
  - constructor; try (apply Ha).
    + cbn. rewrite (a_stats _ Ha), Hbl. cbn. lia.
    + cbn. pose proof (a_counter _ Ha) as Hcnt. destruct v; [done|]. by rewrite (proj1 Hv eq_refl) in Hcnt.
Qed.

(** Inserting the coalesced chunk restores the invariant. *)
Lemma insert_holding t s0 s h :
  holding s0 h s -> acct_inv s0 ->
  wp t (InsertFreeChunkIntoBin h) s (fun _ s' => inv s' /\ frame s0 s'
    /\ exists c, chunks_ s' !! h = Some c /\ rm_addr (regions_ s') (c_ptr c)).
Proof.
  intros (L & fl & c & Hi & Hfr & Hh & Hc & Hu) Ha.
  eapply wp_mono; [eapply (InsertFreeChunkIntoBin_spec t [] None L [] fl s h c); try done; elem|].
  intros _ s' (Hi' & Hfr' & _). assert (frame s0 s') as Hf by (by transitivity s).
  split_and!; [split; [eauto|by eapply acct_frame]|done|].
  destruct (live_chunk _ _ _ _ _ _ Hi' h Hh) as (c' & ? & _ & _ & ? & _). eauto.
Qed.

Lemma mem_inv_push held dis L spare fl s h c :
  mem_inv held dis L spare fl s -> chunks_ s !! h = Some c -> rm_addr (regions_ s) (c_ptr c) ->
  mem_inv held dis L spare fl (set_timestamped_chunks (timestamped_chunks_ s ++ [h]) s).
Proof.
  intros Hi Hc Ha. constructor; try (apply Hi). cbn. intros x [Hx|Hx]%elem_of_app; [by apply Hi|].
  apply list_elem_of_singleton in Hx as ->. eauto.
Qed.

Lemma block_chunk L fl s p n rq id :
  mem_inv [] None L [] fl s -> (p, n, rq, id) ∈ blocks s ->
  exists h c, h ∈ concat L /\ chunks_ s !! h = Some c /\ in_use c = true /\ block_of c = (p, n, rq, id)
    /\ rm_get_handle (regions_ s) p = Some (Some h).
Proof.
  intros Hi Hb. unfold blocks, used_blocks in Hb. apply list_elem_of_fmap in Hb as (c & E & Hin).
  apply list_elem_of_In, filter_In in Hin as [Hin Hu].
  apply list_elem_of_In, list_elem_of_lookup_1 in Hin as [h Hc].
  pose proof (used_live _ _ _ _ _ _ Hi h c Hc Hu) as Hh. exists h, c. split_and!; try done.
  injection E as -> _ _ _. by apply (live_handle _ _ _ _ _ _ Hi).
Qed.

Lemma DeallocateRawInternal_spec t s p n rq id :
  inv s -> (p, n, rq, id) ∈ blocks s ->
  wp t (DeallocateRawInternal p) s (fun _ s' =>
    inv s' /\ same_config s s' /\ next_allocation_id_ s' = next_allocation_id_ s
    /\ blocks s ≡ₚ (p, n, rq, id) :: blocks s').
Proof.
  intros [(L & fl & Hi) Ha] Hb.
  destruct (block_chunk _ _ _ _ _ _ _ Hi Hb) as (h & c & Hh & Hc & Hu & Eb & Hg).
  destruct (live_bounds _ _ _ _ _ _ Hi h c Hh Hc) as (Hp & _ & _ & _ & Haddr).
  assert (c_ptr c = p) as Ep by (by injection Eb).
  unfold DeallocateRawInternal. destruct (Z.eqb_spec p 0) as [->|_]; [lia|].
  apply wp_bind. eapply wp_get_handle; [done|]. apply wp_bind. eapply wp_of_option; [done|].
  apply wp_bind. eapply wp_mono; [by eapply MarkFree_spec|].
  intros _ s1 (c' & Hi1 & Ha1 & Hk & Hc' & Hu' & Ets & Eid & Hbl). rewrite Eb in Hbl. wp_steps.
  assert (holding s1 h s1) as Hhold by (exists L, fl, c'; split_and!; try done; reflexivity).
  pose proof (a_counter _ Ha1) as Hcnt.
  destruct (timing_counter_ s1) as [v|] eqn:Ev.
  - apply wp_bind. eapply wp_mono.
    { eapply (InsertFreeChunkIntoBin_spec t [] None L [] fl s1 h c'); try done. elem. }
    intros _ s2 (Hi2 & Hfr2 & Er & _ & E2). apply wp_modify.
    assert (chunks_ s2 !! h = Some (c_set_bin_num (Some (BinNumForSize (c_size c'))) c')) as Hc2.
    { rewrite E2. apply list_lookup_insert_eq. by eapply lookup_lt_Some. }
    split_and!.
    + split.
      * exists L, fl. eapply mem_inv_push; [done..|]. by apply (live_bounds _ _ _ _ _ _ Hi2 h _ Hh Hc2).
      * pose proof (acct_frame _ _ Hfr2 Ha1) as Ha2. constructor; try (apply Ha2). cbn.
        rewrite (f_counter _ _ Hfr2), Ev. done.
    + transitivity s1; [done|]. transitivity s2; [by apply frame_config|]. by constructor.
    + cbn. by rewrite (f_nid _ _ Hfr2).
    + change (blocks (set_timestamped_chunks _ s2)) with (blocks s2). by rewrite (f_blocks _ _ Hfr2).
  - apply wp_bind. eapply wp_mono; [by apply (TryToCoalesce_spec t s1)|].
    intros h' s2 Hhold2. eapply wp_mono; [by eapply insert_holding|].
    intros _ s3 (Hinv & Hfr3 & _). split_and!; [done| | |].
    + transitivity s1; [done|]. by apply frame_config.
    + by rewrite (f_nid _ _ Hfr3).
    + by rewrite (f_blocks _ _ Hfr3).
Qed.

(** ** Finding a chunk *)

Lemma zsum_map_ge {A} (f : A -> Z) l x : (forall y, y ∈ l -> 0 <= f y) -> x ∈ l -> f x <= zsum (map f l).
Proof.
  induction l as [|y l IH]; intros Hf Hx; [by apply not_elem_of_nil in Hx|]. cbn. fold (zsum (map f l)).
  assert (0 <= f y) by (apply Hf; left).
  assert (0 <= zsum (map f l)) by (apply zsum_nonneg, Forall_fmap, Forall_forall; intros; apply Hf; by right).
  apply elem_of_cons in Hx as [->|Hx]; [lia|]. specialize (IH ltac:(intros; apply Hf; by right) Hx). lia.
Qed.

(** A chunk is no larger than the memory limit. *)
Lemma live_size held L spare fl s h c :
  mem_inv held None L spare fl s -> acct_inv s -> h ∈ concat L -> chunks_ s !! h = Some c ->
  c_size c <= memory_limit_ s < 2 ^ 63.
Proof.
  intros Hi Ha Hh Hc. destruct (live_chunk _ _ _ _ _ _ Hi h Hh) as (c' & Hc' & ? & _ & _ & r & Hr & ? & ?).
  simplify_eq. split; [|apply Ha]. etransitivity; [|apply (a_total_le _ Ha)]. rewrite (a_total _ Ha).
  destruct (rm_wf_region _ _ (m_rm _ _ _ _ _ _ Hi) Hr).
  etransitivity; [|apply (zsum_map_ge r_memory_size _ r); [|done]]; [lia|].
  intros y Hy. destruct (rm_wf_region _ _ (m_rm _ _ _ _ _ _ Hi) Hy). lia.
Qed.

(** The chunks that an allocation may use: free, large enough and freed early enough. *)
Definition eligible (rounded_bytes freed_before : Z) (c : Chunk) : Prop :=
  rounded_bytes <= c_size c /\ ~ (0 < freed_before < c_freed_at_count c).

Definition candidate s (rounded_bytes freed_before : Z) (h : nat) (c : Chunk) : Prop :=
  h ∈ concat (bins_ s) /\ chunks_ s !! h = Some c /\ eligible rounded_bytes freed_before c.

Lemma FindInBin_spec t s rb fb l :
  (forall h, h ∈ l -> exists c, chunks_ s !! h = Some c /\ in_use c = false) ->
  wp t (FindInBin rb fb l) s (fun o s' => s' = s /\
    match o with
    | None => forall h c, h ∈ l -> chunks_ s !! h = Some c -> ~ eligible rb fb c
    | Some h => exists l1 l2 c, l = l1 ++ h :: l2 /\ chunks_ s !! h = Some c /\ eligible rb fb c
        /\ forall x cx, x ∈ l1 -> chunks_ s !! x = Some cx -> ~ eligible rb fb cx
    end).
Proof.
  induction l as [|h l IH]; intros Hl; simpl.
  { apply wp_ret. split; [done|]. intros h c Hh. by apply not_elem_of_nil in Hh. }
  destruct (Hl h ltac:(left)) as (c & Hc & Hu).
  apply wp_bind. eapply wp_ChunkFromHandle; [done|]. apply wp_bind, wp_CHECK; [by rewrite Hu|].
  assert (~ eligible rb fb c -> wp t (FindInBin rb fb l) s (fun o s' => s' = s /\
    match o with
    | None => forall h0 c0, h0 ∈ h :: l -> chunks_ s !! h0 = Some c0 -> ~ eligible rb fb c0
    | Some h0 => exists l1 l2 c0, h :: l = l1 ++ h0 :: l2 /\ chunks_ s !! h0 = Some c0 /\ eligible rb fb c0
        /\ forall x cx, x ∈ l1 -> chunks_ s !! x = Some cx -> ~ eligible rb fb cx
    end)) as Hskip.
  { intros Hne. eapply wp_mono; [apply IH; intros; apply Hl; by right|].
    intros o s' [-> Ho]. split; [done|]. destruct o as [h0|].
    - destruct Ho as (l1 & l2 & c0 & -> & ? & ? & Hl1). exists (h :: l1), l2, c0. split_and!; try done.
      intros x cx [->|Hx]%elem_of_cons Hcx; [congruence|eauto].
    - intros h0 c0 [->|Hx]%elem_of_cons Hcx; [congruence|eauto]. }
  destruct (Z.ltb_spec 0 fb), (Z.ltb_spec fb (c_freed_at_count c)); cbn [andb];
    try (apply Hskip; intros [_ He]; apply He; lia).
  all: destruct (Z.leb_spec rb (c_size c)); [|apply Hskip; intros [? _]; lia].
  all: apply wp_ret; split; [done|]; exists [], l, c; unfold eligible; split_and!; try done; try lia;
    intros x cx Hx; by apply not_elem_of_nil in Hx.
Qed.

Lemma bins_free L fl s b l h :
  mem_inv [] None L [] fl s -> bins_ s !! b = Some l -> h ∈ l ->
  h ∈ concat L /\ exists c, chunks_ s !! h = Some c /\ in_use c = false /\ b = BinNumForSize (c_size c).
Proof.
  intros Hi Hl Hh. apply (m_bins _ _ _ _ _ _ Hi b l Hl) in Hh as (HhL & c & Hc & Hb).
  split; [done|]. exists c. destruct (m_chunk _ _ _ _ _ _ Hi h c HhL Hc) as [Hok _].
  destruct (in_use c); [destruct Hok; congruence|]. rewrite decide_False in Hok by elem.
  split_and!; [done..|congruence].
Qed.

(** The chunk [c] has been handed out: a block of [n] bytes at its address. *)
Definition handed_out s s' (c : Chunk) (rounded_bytes num_bytes : Z) : Prop :=
  inv s' /\ same_config s s'
  /\ next_allocation_id_ s' = next_allocation_id_ s + 1
  /\ timestamped_chunks_ s' = timestamped_chunks_ s
  /\ exists n, blocks s' ≡ₚ (c_ptr c, n, num_bytes, next_allocation_id_ s) :: blocks s
     /\ rounded_bytes <= n <= c_size c
     /\ n < 2 * rounded_bytes /\ n - rounded_bytes < kMaxInternalFragmentation.

(** Marking a held chunk as in use. *)
Lemma hand_out s0 s s2 h c c' num_bytes st' :
  holding s0 h s -> acct_inv s0 -> chunks_ s !! h = Some c ->
  c' = c_set_allocation_id (next_allocation_id_ s) (c_set_requested_size num_bytes c) ->
  bytes_in_use st' = bytes_in_use (stats_ s) + c_size c ->
  s2 = set_stats st' (set_next_allocation_id (next_allocation_id_ s + 1)
         (set_chunks (<[h:=c']> (chunks_ s)) s)) ->
  inv s2 /\ same_config s0 s2 /\ next_allocation_id_ s2 = next_allocation_id_ s0 + 1
  /\ timestamped_chunks_ s2 = timestamped_chunks_ s0
  /\ blocks s2 ≡ₚ (c_ptr c, c_size c, num_bytes, next_allocation_id_ s0) :: blocks s0.
Proof.
  intros (L & fl & c0 & Hi & Hfr & Hh & Hc0 & Hu) Ha Hc Ec' Est Es2.
  assert (c0 = c) as -> by congruence. pose proof (f_nid _ _ Hfr) as En.
  pose proof (m_nid _ _ _ _ _ _ Hi) as Hpos.
  assert (in_use c' = true) as Hu'.
  { rewrite Ec'. unfold in_use. cbn. destruct (Z.eqb_spec (next_allocation_id_ s) (-1)); [lia|done]. }
  assert (blocks s2 ≡ₚ (c_ptr c, c_size c, num_bytes, next_allocation_id_ s0) :: blocks s0) as Hbl.
  { rewrite Es2. unfold blocks. cbn. rewrite (used_blocks_take _ h c c' Hc Hu Hu').
    change (used_blocks (chunks_ s)) with (blocks s). rewrite (f_blocks _ _ Hfr), Ec'. cbn. by rewrite <- En. }
  pose proof (m_chunk _ _ _ _ _ _ Hi h c Hh Hc) as [Hok Hf]. rewrite Hu, decide_True in Hok by left.
  split_and!; [split| | | |done].
  - exists L, fl.
    eapply (mem_inv_update [h] [] _ _ _ _ s s2 h c c' (next_allocation_id_ s + 1));
      rewrite ?Es2, ?Ec'; try done; try lia.
    + apply Hi.
    + cbn. intros b l Hl. destruct (m_bins _ _ _ _ _ _ Hi b l Hl) as [Hs Hm]. split; [done|].
      intros x. rewrite Hm. case_decide as Hx; [subst x|done].
      split; [|cbn; congruence]. intros (_ & c1 & Hc1 & E). congruence.
    + rewrite <- Ec'. split; [|by rewrite Ec']. rewrite Hu', Ec'. cbn. split; [done|lia].
    + intros x cx Hx [Hxok ?]. split; [|done]. destruct (in_use cx); [destruct Hxok; split; [done|lia]|].
      by rewrite held_other in Hxok.
    + intros _ x cx Hx Hcx Hux. cbn.
      pose proof (used_live _ _ _ _ _ _ Hi x cx Hcx Hux) as HxL.
      destruct (m_chunk _ _ _ _ _ _ Hi x cx HxL Hcx) as [Hxok _]. rewrite Hux in Hxok. lia.
  - pose proof (acct_frame _ _ Hfr Ha) as Ha'. constructor; rewrite ?Es2; try (apply Ha').
    rewrite <- Es2, Hbl. rewrite Es2. cbn. rewrite Est, (f_stats _ _ Hfr), (a_stats _ Ha). unfold zsum. lia.
  - transitivity s; [by apply frame_config|]. rewrite Es2. by constructor.
  - rewrite Es2. cbn. lia.
  - rewrite Es2. cbn. apply Hfr.
Qed.

Lemma TakeChunk_spec t s b l h c rb nb :
  inv s -> bins_ s !! b = Some l -> h ∈ l -> chunks_ s !! h = Some c ->
  rb <= c_size c -> 0 < rb < 2 ^ 64 -> (256 | rb) ->
  wp t (TakeChunk b h rb nb) s (fun p s' => p = c_ptr c /\ handed_out s s' c rb nb).
Proof.
  intros [(L & fl & Hi) Ha] Hl Hh Hc Hle Hrb Hdiv.
  destruct (bins_free _ _ _ _ _ _ Hi Hl Hh) as (HhL & c0 & Hc0 & Hu & _).
  assert (c0 = c) as -> by congruence.
  destruct (live_bounds _ _ _ _ _ _ Hi h c HhL Hc) as (? & ? & ? & _).
  pose proof (live_size _ _ _ _ _ _ _ Hi Ha HhL Hc) as Hsz.
  unfold TakeChunk. apply wp_bind.
  eapply wp_mono; [eapply (RemoveFreeChunkIterFromBin_spec t [] None L [] fl s h c b l); try done; apply not_elem_of_nil|].
  intros _ s1 (Hi1 & Hfr1 & _ & _ & E1). cbn beta.
  assert (chunks_ s1 !! h = Some (c_set_bin_num None c)) as Hc1.
  { rewrite E1. apply list_lookup_insert_eq. by eapply lookup_lt_Some. }
  apply wp_bind. eapply wp_ChunkFromHandle; [done|]. apply wp_bind.
  eapply (wp_mono t _ _ (fun _ s2 => holding s h s2 /\ exists c2, chunks_ s2 !! h = Some c2
    /\ c_ptr c2 = c_ptr c /\ rb <= c_size c2 <= c_size c
    /\ c_size c2 < 2 * rb /\ c_size c2 - rb < kMaxInternalFragmentation)).
  { cbn [c_size c_set_bin_num]. rewrite (u64_small (c_size c - rb)) by lia.
    destruct (_ || _) eqn:Esplit.
    - assert (rb < c_size c) as Hlt.
      { apply orb_true_iff in Esplit as [E|E]; apply Z.leb_le in E.
        - rewrite u64_small in E by lia. lia.
        - rewrite kMax_eq in E. lia. }
      eapply wp_mono; [eapply (SplitChunk_spec t L fl s1 h); try done; cbn; lia|].
      intros _ s2 (L2 & fl2 & c2 & Hi2 & Hfr2 & Hh2 & Hc2 & Hp2 & Hs2 & Hu2).
      split; [exists L2, fl2, c2; split_and!; try done; by transitivity s1|].
      exists c2. rewrite Hp2, Hs2, kMax_eq. split_and!; try done; lia.
    - apply wp_ret. split; [exists L, fl; eexists; split_and!; try done|].
      apply orb_false_iff in Esplit as [E E']. apply Z.leb_gt in E, E'.
      rewrite u64_small in E by lia. eexists. split_and!; try done; cbn; lia. }
  intros _ s2 (Hhold & c2 & Hc2 & Hp2 & Hs2 & Hfrag).
  pose proof Hhold as (L2 & fl2 & _ & _ & Hfr2 & _ & _ & _).
  pose proof (lookup_lt_Some _ _ _ Hc2) as Hlt2.
  apply wp_bind. eapply wp_modify_chunk; [done|]. wp_steps. eapply wp_modify_chunk; [lk|]. wp_steps.
  eapply wp_ChunkFromHandle; [lk|]. wp_steps. cbn [c_ptr c_size c_set_allocation_id c_set_requested_size].
  match goal with |- _ /\ handed_out s ?st _ _ _ => set (s3 := st) end.
  set (c3 := c_set_allocation_id (next_allocation_id_ s2) (c_set_requested_size nb c2)).
  destruct (hand_out s s2 s3 h c2 c3 nb (stats_ s3)) as (Hinv & Hk & Hnid & Hts & Hbl); try done.
  { subst s3. cbn. unfold set_stats, set_next_allocation_id, set_chunks; cbn. by rewrite list_insert_insert_eq. }
  split; [done|]. split_and!; try done. exists (c_size c2). rewrite <- Hp2. done.
Qed.

(** The first candidate in the order of size and address is handed out; there is
    none only if the search returns [nullptr], which changes nothing. *)
Definition best_fit s s' (rb nb fb p : Z) : Prop :=
  (p = 0 /\ s' = s /\ forall h c, ~ candidate s rb fb h c)
  \/ (p <> 0 /\ exists h c, candidate s rb fb h c /\ p = c_ptr c /\ handed_out s s' c rb nb
      /\ forall h' c', candidate s rb fb h' c' -> h' <> h -> ChunkComparator (chunks_ s) h h' = true).

Lemma bins_elem L fl s h :
  mem_inv [] None L [] fl s -> h ∈ concat (bins_ s) ->
  exists b l, bins_ s !! b = Some l /\ h ∈ l /\ (b < kNumBins)%nat.
Proof.
  intros Hi Hh. apply list_elem_of_In, in_concat in Hh as (l & Hl & Hh).
  rewrite <- list_elem_of_In in Hl. rewrite <- list_elem_of_In in Hh.
  apply list_elem_of_lookup_1 in Hl as [b Hb]. exists b, l. split_and!; try done.
  rewrite <- (m_bins_len _ _ _ _ _ _ Hi). by eapply lookup_lt_Some.
Qed.

(** Chunks of a lower bin are smaller. *)
Lemma bins_order L fl s b b' l l' h h' c c' :
  mem_inv [] None L [] fl s -> bins_ s !! b = Some l -> bins_ s !! b' = Some l' -> h ∈ l -> h' ∈ l' ->
  chunks_ s !! h = Some c -> chunks_ s !! h' = Some c' -> (b < b')%nat -> c_size c < c_size c'.
Proof.
  intros Hi Hl Hl' Hh Hh' Hc Hc' Hlt.
  destruct (bins_free _ _ _ _ _ _ Hi Hl Hh) as (HL & d & Hd & _ & E).
  destruct (bins_free _ _ _ _ _ _ Hi Hl' Hh') as (HL' & d' & Hd' & _ & E').
  assert (d = c) as -> by congruence. assert (d' = c') as -> by congruence.
  destruct (live_bounds _ _ _ _ _ _ Hi h c HL Hc) as (? & ? & ? & _).
  destruct (live_bounds _ _ _ _ _ _ Hi h' c' HL' Hc') as (? & ? & ? & _).
  destruct (Z.lt_ge_cases (c_size c) (c_size c')) as [?|Hge]; [done|].
  pose proof (BinNumForSize_mono (c_size c') (c_size c)). lia.
Qed.

Lemma FindChunkPtr_loop_spec t s rb nb fb n :
  inv s -> 0 < rb < 2 ^ 64 -> (256 | rb) -> (n <= kNumBins)%nat ->
  (forall b l h c, (b < kNumBins - n)%nat -> bins_ s !! b = Some l -> h ∈ l -> chunks_ s !! h = Some c ->
     ~ eligible rb fb c) ->
  wp t (FindChunkPtr_loop n rb nb fb) s (fun p s' => best_fit s s' rb nb fb p).
Proof.
  intros Hinv Hrb Hdiv. induction n as [|n IH]; intros Hn Hlow; simpl.
  - apply wp_ret. left. split_and!; try done. intros h c (Hh & Hc & He).
    destruct Hinv as [(L & fl & Hi) _].
    destruct (bins_elem _ _ _ _ Hi Hh) as (b & l & Hl & Hin & Hb).
    eapply (Hlow b l h c); try done; lia.
  - wp_steps. pose proof Hinv as [(L & fl & Hi) Ha].
    assert (kNumBins - S n < length (bins_ s))%nat as Hlt
      by (rewrite (m_bins_len _ _ _ _ _ _ Hi); lia).
    destruct (lookup_lt_is_Some_2 _ _ Hlt) as [l Hl]. eapply wp_of_option; [exact Hl|]. cbn beta.
    apply wp_bind. eapply wp_mono.
    { apply FindInBin_spec. intros h Hh.
      destruct (bins_free _ _ _ _ _ _ Hi Hl Hh) as (_ & c & ? & ? & _). eauto. }
    intros [h|] s1 [-> Ho]; cbn beta.
    + destruct Ho as (l1 & l2 & c & El & Hc & He & Hno).
      assert (h ∈ l) as Hh by (rewrite El; elem).
      destruct (bins_free _ _ _ _ _ _ Hi Hl Hh) as (HhL & _).
      destruct (live_bounds _ _ _ _ _ _ Hi h c HhL Hc) as (Hp & _).
      eapply wp_mono; [eapply (TakeChunk_spec t s); try done; apply He|].
      intros p s' [-> Hout]. right. split; [lia|]. exists h, c. split_and!; try done.
      * split_and!; [|done|done]. apply list_elem_of_In, in_concat. exists l.
        split; apply list_elem_of_In; [by eapply list_elem_of_lookup_2|done].
      * intros h' c' (Hh' & Hc' & He') Hne.
        destruct (bins_elem _ _ _ _ Hi Hh') as (b & l' & Hl' & Hin & Hb).
        destruct (Nat.lt_trichotomy b (kNumBins - S n)) as [Hb'|[->|Hb']].
        -- exfalso. by eapply (Hlow b l' h' c').
        -- rewrite Hl in Hl'. injection Hl' as <-. rewrite El in Hin.
           destruct (m_bins _ _ _ _ _ _ Hi _ _ Hl) as [Hs _]. rewrite El in Hs.
           apply StronglySorted_app in Hs as (_ & _ & Hs). inversion Hs as [|? ? _ Hf]; subst.
           rewrite Forall_forall in Hf. apply elem_of_app in Hin as [Hin|Hin]; [exfalso; by eapply Hno|].
           apply elem_of_cons in Hin as [->|Hin]; [done|auto].
        -- pose proof (bins_order _ _ _ _ _ _ _ _ _ _ _ Hi Hl Hl' Hh Hin Hc Hc' Hb') as Hsz.
           unfold ChunkComparator, chunk_lt. rewrite Hc, Hc'.
           destruct (Z.eqb_spec (c_size c) (c_size c')); [lia|]. cbn. by apply Z.ltb_lt.
    + apply IH; [lia|]. intros b l' h c Hb Hl' Hh Hc.
      destruct (decide (b = (kNumBins - S n)%nat)) as [->|Hne].
      * rewrite Hl in Hl'. injection Hl' as <-. eauto.
      * eapply Hlow; try done; lia.
Qed.

Lemma FindChunkPtr_spec t s rb nb fb :
  inv s -> 0 < rb < 2 ^ 64 -> (256 | rb) ->
  wp t (FindChunkPtr (BinNumForSize rb) rb nb fb) s (fun p s' => best_fit s s' rb nb fb p).
Proof.
  intros Hinv Hrb Hdiv. unfold FindChunkPtr. apply FindChunkPtr_loop_spec; try done; [lia|].
  intros b l h c Hb Hl Hh Hc [He _]. destruct Hinv as [(L & fl & Hi) _].
  destruct (bins_free _ _ _ _ _ _ Hi Hl Hh) as (HL & d & Hd & _ & ->).
  assert (d = c) as -> by congruence.
  destruct (live_bounds _ _ _ _ _ _ Hi h c HL Hc) as (? & ? & ? & _).
  pose proof (BinNumForSize_lt rb). pose proof (BinNumForSize_mono rb (c_size c)). lia.
Qed.

End alloc.
