(* ===== verification/BfcGrow.v ===== *)
(** * The BFC allocator: growing through the sub-allocator

    [RoundedBytes], the backpedalling in single precision, [Extend]: the new region
    is within the memory limit, disjoint from the others, and becomes one free chunk. *)

From S2P Require Import Prelude BfcAllocator BfcRegions BfcInvariant BfcChunks BfcCoalesce BfcAlloc.

(** ** Rounding *)

Lemma RoundedBytes_spec n :
  0 <= n <= 2 ^ 64 - 256 -> n <= RoundedBytes n < n + 256 /\ (256 | RoundedBytes n).
Proof.
  intros Hn. unfold RoundedBytes. rewrite kMin_256, (u64_small (n + 256 - 1)) by lia.
  pose proof (Z.div_mod (n + 256 - 1) 256 ltac:(lia)).
  pose proof (Z.mod_pos_bound (n + 256 - 1) 256 ltac:(lia)).
  rewrite u64_small by lia. split; [lia|]. apply Z.divide_factor_l.
Qed.

Lemma RoundedBytes_le n m : 0 <= n <= m -> m < 2 ^ 64 -> (256 | m) -> RoundedBytes n <= m.
Proof.
  intros Hn Hm Hd. destruct Hd as [k ->].
  destruct (RoundedBytes_spec n) as [Hr [j Hj]]; [lia|]. rewrite Hj in *. nia.
Qed.

Lemma f32_round_bound m : 0 < m -> 0 <= f32_round m /\ f32_round m * 2 ^ 24 <= m * (2 ^ 24 + 1).
Proof.
  intros Hm. unfold f32_round. set (e := Z.log2 m - 23). destruct (Z.leb_spec e 0) as [|He]; [lia|].
  pose proof (Z.log2_spec m Hm) as [Hlo _].
  assert (2 ^ Z.log2 m = 2 ^ 24 * 2 ^ (e - 1)) as E1
    by (rewrite <- Z.pow_add_r by lia; f_equal; unfold e; lia).
  assert (2 ^ e = 2 * 2 ^ (e - 1)) as E2
    by (replace e with (1 + (e - 1)) at 1 by lia; rewrite Z.pow_add_r by lia; done).
  assert (0 < 2 ^ (e - 1)) as Hp by (apply Z.pow_pos_nonneg; lia).
  pose proof (Z.div_mod m (2 ^ e) ltac:(lia)) as Hdm.
  pose proof (Z.mod_pos_bound m (2 ^ e) ltac:(lia)).
  pose proof (Z.div_pos m (2 ^ e) ltac:(lia) ltac:(lia)).
  destruct (_ || _) eqn:E.
  - assert (2 ^ (e - 1) <= m mod 2 ^ e) as Hh.
    { apply orb_true_iff in E as [E|E]; [apply Z.ltb_lt in E; lia|].
      apply andb_true_iff in E as [E _]. apply Z.eqb_eq in E. lia. }
    split; [nia|]. nia.
  - split; [nia|]. nia.
Qed.

Lemma f32_round_0 : f32_round 0 = 0.
Proof. reflexivity. Qed.

Lemma backpedal_raw b :
  0 <= b -> 0 <= f32_round (f32_round b * kBackpedalFactor_mantissa) / 2 ^ 24
            /\ 100 * (f32_round (f32_round b * kBackpedalFactor_mantissa) / 2 ^ 24) <= 91 * b.
Proof.
  intros Hb. destruct (decide (b = 0)) as [->|Hne]; [by vm_compute|].
  destruct (f32_round_bound b) as [Hx Hx']; [lia|]. set (x := f32_round b) in *.
  unfold kBackpedalFactor_mantissa. destruct (decide (x = 0)) as [->|Hx0].
  { replace (f32_round (0 * 15099494) / 2 ^ 24) with 0 by reflexivity. lia. }
  destruct (f32_round_bound (x * 15099494)) as [Hz Hz']; [lia|]. set (z := f32_round (x * 15099494)) in *.
  pose proof (Z.div_mod z (2 ^ 24) ltac:(lia)). pose proof (Z.mod_pos_bound z (2 ^ 24) ltac:(lia)).
  split; [apply Z.div_pos; lia|]. change (2 ^ 24) with 16777216 in *. set (v := z / 16777216) in *.
  assert (v * 16777216 * 16777216 <= x * 15099494 * 16777217) by lia. lia.
Qed.

Lemma backpedal_spec b :
  0 <= b < 2 ^ 64 -> (256 | b) -> 0 <= backpedal b <= b /\ (256 | backpedal b).
Proof.
  intros Hb Hd. destruct (backpedal_raw b) as [H1 H2]; [lia|]. unfold backpedal.
  set (v := f32_round _ / 2 ^ 24) in *.
  assert (b <= 2 ^ 64 - 256) as Hb' by (destruct Hd as [k ->]; lia).
  destruct (RoundedBytes_spec v) as [Hr Hr']; [lia|].
  pose proof (RoundedBytes_le v b ltac:(lia) ltac:(lia) Hd). split; [lia|done].
Qed.

(** From 2560 bytes on, backpedalling makes progress. *)
Lemma backpedal_lt b : 2560 <= b < 2 ^ 64 -> (256 | b) -> backpedal b < b.
Proof.
  intros Hb Hd. destruct (Z.lt_ge_cases b 3072) as [Hs|Hs].
  - destruct Hd as [k ->]. assert (k = 10 \/ k = 11) as [-> | ->] by lia; by vm_compute.
  - destruct (backpedal_raw b) as [H1 H2]; [lia|]. unfold backpedal. set (v := f32_round _ / 2 ^ 24) in *.
    destruct (RoundedBytes_spec v) as [Hr _]; [destruct Hd as [k ->]; lia|]. lia.
Qed.

(** Below that, it is stuck. *)
Lemma backpedal_stuck b : 0 < b < 2560 -> (256 | b) -> backpedal b = b.
Proof.
  intros Hb [k ->].
  assert (k = 1 \/ k = 2 \/ k = 3 \/ k = 4 \/ k = 5 \/ k = 6 \/ k = 7 \/ k = 8 \/ k = 9)
    as [->|[->|[->|[->|[->|[->|[->|[-> | ->]]]]]]]] by lia; reflexivity.
Qed.

Lemma u64_divide z : (256 | z) -> (256 | u64 z).
Proof.
  intros Hd. unfold u64. rewrite Z.mod_eq by lia. apply Z.divide_sub_r; [done|].
  apply Z.divide_mul_l. exists (2 ^ 56). reflexivity.
Qed.

Lemma GrowRegion_loop_spec fuel rb curr inc :
  0 <= curr < 2 ^ 64 -> (256 | curr) ->
  match GrowRegion_loop fuel rb curr inc with
  | Val (c, _) => rb <= c /\ 0 <= c < 2 ^ 64 /\ (256 | c)
  | Crash => False
  | NoFuel => True
  end.
Proof.
  revert curr inc. induction fuel as [|f IH]; intros curr inc Hc Hd; simpl;
    destruct (Z.ltb_spec curr rb); try done.
  apply IH; [apply u64_range|]. apply u64_divide. by apply Z.divide_mul_l.
Qed.

(** The loop terminates: the size at least doubles, up to a request of 2^63. *)
Lemma GrowRegion_loop_total fuel rb curr inc :
  0 < curr -> rb <= 2 ^ 63 -> rb <= curr * 2 ^ Z.of_nat fuel ->
  exists r, GrowRegion_loop fuel rb curr inc = Val r.
Proof.
  revert curr inc. induction fuel as [|f IH]; intros curr inc Hc Hrb Hf; simpl;
    destruct (Z.ltb_spec curr rb); try (by eexists).
  - cbn in Hf. lia.
  - rewrite u64_small by lia. apply IH; [lia..|].
    rewrite Nat2Z.inj_succ, Z.pow_succ_r in Hf by lia. lia.
Qed.

(** A region occurs once. *)
Lemma region_index rs i j r :
  rm_wf rs -> rs !! i = Some r -> rs !! j = Some r -> i = j.
Proof.
  intros Hwf Hr Hr0. destruct (rm_wf_region _ _ Hwf (list_elem_of_lookup_2 _ _ _ Hr)).
  destruct Hwf as [_ Hso]. destruct (Nat.lt_trichotomy i j) as [Hl|[?|Hl]]; [|done|]; exfalso.
  - pose proof (StronglySorted_lookup_lt _ _ _ _ _ _ Hso Hr Hr0 Hl) as Hb. red in Hb. lia.
  - pose proof (StronglySorted_lookup_lt _ _ _ _ _ _ Hso Hr0 Hr Hl) as Hb. red in Hb. lia.
Qed.

Section grow.
Context {Sub : Type} `{!SubAllocator Sub} `{!SubAllocatorSpec Sub}.
Implicit Types s : BFCAllocator Sub.

(** ** A region without chunks *)

Definition insert_at {A} (k : nat) (x : A) (l : list A) : list A := take k l ++ x :: drop k l.

Lemma concat_insert_at k (L : list (list nat)) : concat (insert_at k [] L) = concat L.
Proof. unfold insert_at. rewrite concat_app. cbn. by rewrite <- concat_app, take_drop. Qed.

Lemma region_seg_dis cs p q r hs :
  q <> Some (r_ptr r) -> p <> Some (r_ptr r) -> region_seg cs p r hs -> region_seg cs q r hs.
Proof. intros. unfold region_seg in *. rewrite bool_decide_false in * by done. done. Qed.

Lemma fresh_ptr rs p n r :
  rm_wf rs -> fresh_range rs p n -> 0 < n -> r ∈ rs -> r_ptr r <> p.
Proof.
  intros Hwf Hf Hn Hr. unfold fresh_range in Hf. rewrite Forall_forall in Hf.
  destruct (rm_wf_region _ _ Hwf Hr). specialize (Hf _ Hr). simpl in Hf. lia.
Qed.

Lemma mem_inv_add_region L fl s p n :
  mem_inv [] None L [] fl s -> 0 < p -> 0 < n -> (256 | n) -> p + n < 2 ^ 64 ->
  fresh_range (regions_ s) p n ->
  mem_inv [] (Some p) (insert_at (upper_bound p (regions_ s)) [] L) [] fl
    (set_regions (AddAllocationRegion (regions_ s) p n) s).
Proof.
  intros Hi Hp Hn Hd Hb Hfr. pose proof (m_rm _ _ _ _ _ _ Hi) as Hwf.
  pose proof (AddAllocationRegion_wf _ _ _ Hwf Hp Hn Hd Hb Hfr) as Hwf'.
  assert (forall q, rm_addr (regions_ s) q -> rm_addr (AddAllocationRegion (regions_ s) p n) q) as Hmono.
  { intros q (r & Hr & Hq). exists r. split; [|done]. apply AddAllocationRegion_elem. by right. }
  constructor; cbn; rewrite ?concat_insert_at; try (apply Hi); try done.
  - unfold AddAllocationRegion, insert_at. pose proof (m_segs _ _ _ _ _ _ Hi) as HF.
    assert (Forall2 (region_seg (chunks_ s) (Some p)) (regions_ s) L) as HF'.
    { apply Forall2_same_length_lookup. split; [by eapply Forall2_length|]. intros j r hs Hr Hhs.
      apply (region_seg_dis _ None); [|done|by eapply Forall2_lookup_lr].
      apply list_elem_of_lookup_2 in Hr. pose proof (fresh_ptr _ _ _ _ Hwf Hfr Hn Hr). congruence. }
    apply Forall2_app; [by apply Forall2_take|]. constructor; [|by apply Forall2_drop].
    unfold region_seg. cbn. rewrite bool_decide_true by done. exists None, (p + n).
    split_and!; [done|lia|]. by replace (p + n - p) with n by lia.
  - intros q (r & Hr & Hq) h. apply AddAllocationRegion_elem in Hr as [->|Hr].
    + rewrite rm_get_handle_new by done. split; [done|]. intros (Hh & c & Hc & E). exfalso.
      destruct (live_chunk _ _ _ _ _ _ Hi h Hh) as (c' & Hc' & ? & _ & _ & r & Hr & ? & ?).
      assert (c' = c) as -> by congruence. unfold fresh_range in Hfr. rewrite Forall_forall in Hfr.
      specialize (Hfr _ Hr). destruct Hq as [Hq _]. cbn in Hq, Hfr. lia.
    + rewrite (rm_get_handle_mono (regions_ s) _ r); try done; [|apply AddAllocationRegion_elem; by right|apply Hq].
      apply (m_handles _ _ _ _ _ _ Hi). by exists r.
  - intros h Hh. destruct (m_ts _ _ _ _ _ _ Hi h Hh) as (c & Hc & Ha). eauto.
Qed.

(** The chunk record [h] becomes the single chunk of the region. *)
Lemma mem_inv_attach L fl s s' i r h c' :
  mem_inv [] (Some (r_ptr r)) L [h] fl s -> regions_ s !! i = Some r -> L !! i = Some [] ->
  chunks_ s' = <[h:=c']> (chunks_ s) -> shape c' = (r_ptr r, r_memory_size r, None, None) ->
  in_use c' = false -> c_bin_num c' = None -> c_freed_at_count c' = 0 ->
  rm_set_handle (regions_ s) (r_ptr r) (Some h) = Some (regions_ s') ->
  free_chunks_list_ s' = free_chunks_list_ s -> bins_ s' = bins_ s ->
  next_allocation_id_ s' = next_allocation_id_ s -> timestamped_chunks_ s' = timestamped_chunks_ s ->
  mem_inv [h] None (<[i := [h]]> L) [] fl s' /\ blocks s' = blocks s
  /\ map geometry (regions_ s') = map geometry (regions_ s).
Proof.
  intros Hi Hr HL Ec Hsh Hu Hbn Hf0 Ers Efc Eb En Et. injection Hsh as Hp Hs Hpv Hnx.
  assert (r ∈ regions_ s) as Hrin by (by eapply list_elem_of_lookup_2).
  pose proof (m_rm _ _ _ _ _ _ Hi) as Hwf. pose proof (rm_wf_region _ _ Hwf Hrin) as Hrw.
  assert (rm_addr (regions_ s) (r_ptr r)) as Haddr.
  { exists r. split; [done|]. destruct Hrw. split; [lia|]. rewrite Z.sub_diag. apply Z.divide_0_r. }
  destruct (rm_set_handle_spec (regions_ s) (r_ptr r) (Some h) Hwf Haddr) as (rs & Ers' & Hwf' & Hgeo & Hget).
  rewrite Ers in Ers'. injection Ers' as <-.
  pose proof (dead_lt _ _ _ _ _ _ Hi h ltac:(left)) as Hlt.
  assert (h ∉ concat L) as HhL by (intros HhL; eapply (live_not_dead _ _ _ _ _ _ Hi h); [done|left]).
  rewrite (and_assoc (mem_inv _ _ _ _ _ _)). split; [|done].
  apply (mem_inv_swap [] [h] (Some (r_ptr r)) None L [h] [] fl fl s s' i [] [] [h] []); try done.
  - intros x Hx. exists id. split; [|by left]. rewrite Ec, list_lookup_insert_ne by (intros ->; elem).
    by destruct (chunks_ s !! x).
  - intros r0 Hr0 _. assert (r0 = r) as -> by congruence. unfold region_seg.
    rewrite bool_decide_false by done. split; [done|]. exists c'. destruct Hrw.
    rewrite Ec, list_lookup_insert_eq by done. rewrite Hp, Hs, Hpv, Hnx. split_and!; try done; lia.
  - intros j r0 hs Hj Hr0. apply region_seg_dis; [done|]. intros [= E].
    apply Hj. assert (r0 = r) as ->.
    { apply (rm_region_unique (regions_ s) _ _ (r_ptr r)); [done|by eapply list_elem_of_lookup_2|done| |].
      - destruct (rm_wf_region _ _ Hwf (list_elem_of_lookup_2 _ _ _ Hr0)). lia.
      - destruct Hrw. lia. }
    apply (region_index (regions_ s) _ _ r); done.
  - by rewrite Ec, length_insert.
  - intros q Hq y. rewrite Hget by done. case_decide as Hqp.
    + subst q. split.
      * intros [= <-]. left. split; [left|]. exists c'. by rewrite Ec, list_lookup_insert_eq.
      * intros [(Hy & _)|(_ & _ & E)]; [by apply list_elem_of_singleton in Hy as ->|]. exfalso.
        apply (m_handles _ _ _ _ _ _ Hi _ Haddr) in E as (Hy & cy & Hcy & Ey).
        destruct (live_chunk_at _ _ _ _ _ _ Hi y Hy) as (j & rj & hs & p & a & d & Hrj & HLj & Hyj & Hsg & Hd & ? & _ & ? & ? & _).
        assert (d = cy) as -> by congruence.
        assert (rj = r) as -> by (destruct Hrw; apply (rm_region_unique (regions_ s) _ _ (r_ptr r));
          [done|by eapply list_elem_of_lookup_2|done|lia|lia]).
        assert (j = i) as -> by (by apply (region_index (regions_ s) _ _ r)).
        assert (hs = []) as -> by congruence. by apply not_elem_of_nil in Hyj.
    + split.
      * intros E. right. split_and!; [elem| |done]. intros Hy. apply list_elem_of_singleton in Hy as ->.
        by apply (m_handles _ _ _ _ _ _ Hi q Hq) in E as (? & _).
      * intros [(Hy & c & Hc & E)|(_ & _ & E)]; [|done]. apply list_elem_of_singleton in Hy as ->.
        rewrite Ec, list_lookup_insert_eq in Hc by done. congruence.
  - rewrite Ec, Efc. eapply flist_frame; [|apply Hi]. intros x Hx. rewrite list_lookup_insert_ne; [done|].
    intros ->. pose proof (perm_NoDup _ _ _ _ _ _ Hi) as Hnd. apply NoDup_app in Hnd as (_ & _ & Hnd).
    cbn in Hnd. by apply NoDup_cons in Hnd as [? _].
  - intros x c Hx Hc. apply list_elem_of_singleton in Hx as ->.
    apply (m_dead _ _ _ _ _ _ Hi h); [left|done].
  - intros x c Hx Hc. apply list_elem_of_singleton in Hx as ->.
    rewrite Ec, list_lookup_insert_eq in Hc by done. injection Hc as <-. rewrite Hp, Hf0. by split_and!.
  - intros x Hx. cbn in Hx. split; [done|]. intros Hx'. by apply not_elem_of_nil in Hx'.
Qed.

(** ** Requests to the sub-allocator *)

(** [p] is what the sub-allocator returned for [n] bytes; [s'] differs from [s] in the
    state of the sub-allocator, which still owes the earlier blocks. *)
Definition sub_answer s s' (p n : Z) : Prop :=
  s' = set_sub_allocator (sub_allocator_ s') s
  /\ (forall b, b ∈ sa_blocks (sub_allocator_ s) -> b ∈ sa_blocks (sub_allocator_ s'))
  /\ (p <> 0 -> 0 < p /\ p + n < 2 ^ 64 /\ (p, n) ∈ sa_blocks (sub_allocator_ s')
       /\ forall q m, (q, m) ∈ sa_blocks (sub_allocator_ s) -> p + n <= q \/ q + m <= p).

Lemma SubAlloc_spec t al n s :
  0 < n -> wp t (SubAlloc al n) s (fun p s' => sub_answer s s' p n).
Proof.
  intros Hn. unfold SubAlloc. do 2 wp_step. destruct (sa_Alloc _ _ _) as [p sub] eqn:E. wp_steps.
  split; [done|]. cbn. destruct (decide (p = 0)) as [->|Hp].
  - split; [|done]. by eapply sa_Alloc_fail.
  - destruct (sa_Alloc_ok _ _ _ _ _ Hn E Hp) as (? & ? & ? & ? & ?). done.
Qed.

Lemma sub_answer_trans s s1 s2 p n m :
  sub_answer s s1 0 m -> sub_answer s1 s2 p n -> sub_answer s s2 p n.
Proof.
  intros (E1 & Hb1 & _) (E2 & Hb2 & Hp). split_and!.
  - rewrite E2 at 1. by rewrite E1.
  - auto.
  - intros Hne. destruct (Hp Hne) as (? & ? & ? & Hd). split_and!; auto.
Qed.

Lemma sub_answer_null s n : sub_answer s s 0 n.
Proof. split_and!; [by destruct s|done|done]. Qed.

(** Backpedalling shrinks a request by a constant factor while it is above 5888. *)
Lemma backpedal_shrink b : 5888 <= b < 2 ^ 64 -> (256 | b) -> 1000 * backpedal b <= 955 * b.
Proof.
  intros Hb Hd. destruct (backpedal_raw b) as [H1 H2]; [lia|]. unfold backpedal. set (v := f32_round _ / 2 ^ 24) in *.
  destruct (RoundedBytes_spec v) as [Hr _]; [destruct Hd as [k ->]; lia|]. lia.
Qed.

Definition backpedal_steps (k : nat) (b : Z) : Prop := b * 955 ^ Z.of_nat k <= 5888 * 1000 ^ Z.of_nat k.

Lemma backpedal_steps_bound b : b < 2 ^ 63 -> backpedal_steps 800 b.
Proof.
  intros Hb. unfold backpedal_steps.
  assert (2 ^ 63 * 955 ^ Z.of_nat 800 <= 5888 * 1000 ^ Z.of_nat 800) as Hc by (apply Z.leb_le; vm_compute; done).
  etrans; [|apply Hc]. apply Z.mul_le_mono_nonneg_r; lia.
Qed.

Lemma backpedal_steps_succ k b :
  backpedal_steps (S k) b -> 5888 <= b < 2 ^ 64 -> (256 | b) -> backpedal_steps k (backpedal b).
Proof.
  unfold backpedal_steps. intros Hk Hb Hd. pose proof (backpedal_shrink b Hb Hd).
  rewrite !Nat2Z.inj_succ, !Z.pow_succ_r in Hk by lia.
  pose proof (Z.pow_nonneg 955 (Z.of_nat k) ltac:(lia)). nia.
Qed.

(** [fuel] iterations are enough from [b] on. *)
Definition backpedal_enough (fuel : nat) (b : Z) : Prop :=
  b < 2560 + 256 * Z.of_nat fuel \/ exists k, backpedal_steps k b /\ (k + 16 <= fuel)%nat.

Lemma backpedal_enough_step f b :
  backpedal_enough (S f) b -> 2560 <= b < 2 ^ 64 -> (256 | b) -> backpedal_enough f (backpedal b).
Proof.
  intros He Hb Hd. destruct (backpedal_spec b ltac:(lia) Hd) as [_ Hbd].
  pose proof (backpedal_lt b ltac:(lia) Hd) as Hlt.
  assert (backpedal b <= b - 256) as Hle by (destruct Hd as [u Hu], Hbd as [v Hv]; lia).
  destruct He as [He|(k & Hk & Hf)]; [left; lia|].
  destruct (Z.lt_ge_cases b 5888) as [Hsm|Hbig]; [left; lia|]. destruct k as [|k].
  - unfold backpedal_steps in Hk. cbn in Hk. left. lia.
  - right. exists k. split; [apply backpedal_steps_succ; [done|lia|done]|lia].
Qed.

Lemma Backpedal_loop_spec t fuel al rb b s :
  0 < rb <= b -> b < 2 ^ 64 -> (256 | b) ->
  (t = true -> 2560 <= rb /\ backpedal_enough fuel b) ->
  wp t (Backpedal_loop fuel al rb b) s (fun r s' =>
    sub_answer s s' r.1 r.2 /\ (r.1 <> 0 -> rb <= r.2 <= b /\ (256 | r.2))).
Proof.
  revert b s. induction fuel as [|f IH]; intros b s Hrb Hb Hd Hk.
  { simpl. destruct t; [|done]. destruct (Hk eq_refl) as (? & [?|(? & _ & ?)]); [lia|lia]. }
  simpl. destruct (backpedal_spec b ltac:(lia) Hd) as [Hbp Hbd].
  destruct (Z.ltb_spec (backpedal b) rb) as [Hlt|Hge].
  { wp_steps. split; [apply sub_answer_null|done]. }
  wp_step. eapply wp_mono; [apply SubAlloc_spec; lia|]. intros p s1 Hans.
  destruct (Z.eqb_spec p 0) as [->|Hp].
  - eapply wp_mono; [apply IH; [lia|lia|done|]|].
    + intros Et. destruct (Hk Et) as [? ?]. split; [done|]. apply backpedal_enough_step; [done|lia|done].
    + intros r s2 [Hr1 Hr2]. split; [exact (sub_answer_trans _ _ _ _ _ _ Hans Hr1)|].
      intros Hr. destruct (Hr2 Hr). split; [lia|done].
  - wp_steps. split; [done|]. intros _. split; [cbn; lia|done].
Qed.

(** ** Extend *)

(** [Extend] changes no block; a new free chunk is there when it succeeds. *)
Record extended s s' (rb : Z) (ok : bool) : Prop := {
  e_inv : inv s';
  e_config : same_config s s';
  e_blocks : blocks s' = blocks s;
  e_nid : next_allocation_id_ s' = next_allocation_id_ s;
  e_ts : timestamped_chunks_ s' = timestamped_chunks_ s;
  e_found : ok = true -> forall fb, exists h c, candidate s' rb fb h c;
  e_fail : ok = false -> chunks_ s' = chunks_ s /\ bins_ s' = bins_ s /\ regions_ s' = regions_ s;
  e_curr : ok = false -> 0 < curr_region_allocation_bytes_ s -> 0 < curr_region_allocation_bytes_ s';
  e_back : started_backpedal_ s = true -> started_backpedal_ s' = true
}.

(** When the loops of [Extend] finish. *)
Definition extend_terminates (fuel : nat) s (rb : Z) : Prop :=
  (1000 <= fuel)%nat /\ 0 < curr_region_allocation_bytes_ s
  /\ (2560 <= rb \/ started_backpedal_ s = true).

Lemma free_chunk_in_bins held dis L spare fl s h c :
  mem_inv held dis L spare fl s -> h ∈ concat L -> h ∉ held ->
  chunks_ s !! h = Some c -> in_use c = false -> h ∈ concat (bins_ s).
Proof.
  intros Hi Hh Hn Hc Hu. destruct (free_chunk_bin _ _ _ _ _ _ _ _ Hi Hh Hn Hc Hu) as (_ & l & Hl & Hin).
  apply list_elem_of_lookup_2, list_elem_of_In in Hl. apply list_elem_of_In in Hin.
  apply list_elem_of_In, in_concat. eauto.
Qed.

Lemma upper_bound_le p rs : (upper_bound p rs <= length rs)%nat.
Proof. induction rs as [|r rs IH]; simpl; [lia|]. destruct (Comparator p r); lia. Qed.

Lemma insert_at_lookup {A} k (x : A) l : (k <= length l)%nat -> insert_at k x l !! k = Some x.
Proof.
  intros Hk. unfold insert_at. rewrite lookup_app_r; rewrite length_take_le by done; [|done].
  by rewrite Nat.sub_diag.
Qed.

(** The new region becomes one free chunk. *)
Lemma new_region_spec t L fl s p n :
  mem_inv [] None L [] fl s -> 0 < p -> 0 < n -> (256 | n) -> p + n < 2 ^ 64 ->
  fresh_range (regions_ s) p n ->
  wp t (modify (fun s => set_regions (AddAllocationRegion (regions_ s) p n) s);;
        h ← AllocateChunk;
        modify_chunk h (fun c =>
          c_set_freed_at_count 0 (c_set_next None (c_set_prev None (c_set_allocation_id (-1)
            (c_set_size n (c_set_ptr p c))))));;
        set_handle p h;;
        InsertFreeChunkIntoBin h;;
        mret true) s (fun ok s' => ok = true /\ frame (set_regions (AddAllocationRegion (regions_ s) p n) s) s'
    /\ (exists L' fl', mem_inv [] None L' [] fl' s')
    /\ exists h c, h ∈ concat (bins_ s') /\ chunks_ s' !! h = Some c /\ c_size c = n /\ c_freed_at_count c = 0).
Proof.
  intros Hi Hp Hn Hd Hb Hfr. pose proof (mem_inv_add_region _ _ _ _ _ Hi Hp Hn Hd Hb Hfr) as Hi1.
  do 2 wp_step. set (s1 := set_regions _ s) in *. set (i := upper_bound p (regions_ s)) in *.
  wp_step. eapply wp_mono; [apply (AllocateChunk_spec t _ _ _ _ _ Hi1)|].
  intros h s2 (fl2 & Hi2 & Hfr2 & Er2 & Eb2 & Hc2 & [c Hc] & HhL). cbn beta.
  wp_step. eapply wp_modify_chunk; [exact Hc|]. set (c' := c_set_freed_at_count 0 _).
  assert (regions_ s1 !! i = Some (new_AllocationRegion p n)) as Hri by apply insert_at_lookup, upper_bound_le.
  pose proof (m_rm _ _ _ _ _ _ Hi2) as Hwf.
  assert (rm_addr (regions_ s2) p) as Hpa.
  { exists (new_AllocationRegion p n). rewrite Er2. split; [by eapply list_elem_of_lookup_2|].
    split; [cbn; lia|]. cbn. rewrite Z.sub_diag. apply Z.divide_0_r. }
  destruct (rm_set_handle_spec _ p (Some h) Hwf Hpa) as (rs & Ers & _).
  wp_step. eapply wp_set_handle; [exact Ers|]. set (s3 := set_regions rs _).
  assert (h < length (chunks_ s2))%nat as Hlt by (by eapply lookup_lt_Some).
  destruct (mem_inv_attach _ fl2 s2 s3 i (new_AllocationRegion p n) h c' Hi2) as (Hi3 & Hbl & Hgeo); try done.
  { by rewrite Er2. }
  { apply insert_at_lookup. rewrite <- (Forall2_length _ _ _ (m_segs _ _ _ _ _ _ Hi)). apply upper_bound_le. }
  { by destruct (m_dead _ _ _ _ _ _ Hi2 h c ltac:(left) Hc). }
  assert (h ∈ concat (<[i:=[h]]> (insert_at i [] L))) as Hh3.
  { apply list_elem_of_In, in_concat. exists [h]. split; [|by left]. apply list_elem_of_In.
    apply (list_elem_of_lookup_2 _ i), list_lookup_insert_eq. eapply lookup_lt_Some, insert_at_lookup.
    rewrite <- (Forall2_length _ _ _ (m_segs _ _ _ _ _ _ Hi)). apply upper_bound_le. }
  assert (chunks_ s3 !! h = Some c') as Hc3 by (by apply list_lookup_insert_eq).
  wp_step. eapply wp_mono; [eapply (InsertFreeChunkIntoBin_spec t [] None _ [] fl2 s3 h c' Hi3); try done|].
  - apply not_elem_of_nil.
  - intros [] s4 (Hi4 & Hfr4 & Er4 & _ & Ec4). cbn beta. wp_steps. split; [done|].
    assert (frame s2 s3) as Hfr3 by (apply frame_patch; [by constructor|done|done]).
    split; [by etrans; [|etrans]; [apply Hfr2|apply Hfr3|]|]. split; [eauto|].
    assert (chunks_ s4 !! h = Some (c_set_bin_num (Some (BinNumForSize (c_size c'))) c')) as Hc4
      by (rewrite Ec4; eapply list_lookup_insert_eq, lookup_lt_Some, Hc3).
    eexists h, _. split_and!; [|exact Hc4|done|done].
    eapply (free_chunk_in_bins _ _ _ _ _ _ _ _ Hi4); [|apply not_elem_of_nil|exact Hc4|done]. done.
Qed.

(** ** Accounting of a new region *)

Lemma add_region_sizes rs p n :
  zsum (map r_memory_size (AddAllocationRegion rs p n)) = zsum (map r_memory_size rs) + n.
Proof.
  unfold AddAllocationRegion. set (k := upper_bound p rs). rewrite <- (take_drop k rs) at 3.
  rewrite !map_app, !zsum_app. cbn. unfold zsum. lia.
Qed.

Lemma fresh_sub s s' p n :
  acct_inv s -> rm_wf (regions_ s) -> sub_answer s s' p n -> p <> 0 -> fresh_range (regions_ s) p n.
Proof.
  intros Ha Hwf (_ & _ & Hp) Hne. destruct (Hp Hne) as (_ & _ & _ & Hd). apply Forall_forall. intros r Hr.
  pose proof (Hd _ _ (a_sub _ Ha _ Hr)). destruct (rm_wf_region _ _ Hwf Hr). lia.
Qed.

(** The state between the answer of the sub-allocator and the new region. *)
Lemma acct_add_region s s1 s' p n curr :
  acct_inv s -> sub_answer s s1 p n -> p <> 0 -> 0 < n ->
  n <= memory_limit_ s - total_region_allocated_bytes_ s ->
  0 <= curr < 2 ^ 64 -> (256 | curr) ->
  memory_limit_ s' = memory_limit_ s -> total_region_allocated_bytes_ s' = total_region_allocated_bytes_ s + n ->
  curr_region_allocation_bytes_ s' = curr -> sub_allocator_ s' = sub_allocator_ s1 ->
  regions_ s' = AddAllocationRegion (regions_ s) p n -> stats_ s' = stats_ s -> chunks_ s' = chunks_ s ->
  timing_counter_ s' = timing_counter_ s -> timestamped_chunks_ s' = timestamped_chunks_ s ->
  safe_frontier_ s' = safe_frontier_ s -> acct_inv s'.
Proof.
  intros Ha (_ & Hb & Hp) Hne Hn Hle Hc Hcd E1 E2 E3 E4 E5 E6 E7 E8 E9 E10. destruct (Hp Hne) as (? & ? & Hin & _).
  constructor; unfold blocks; rewrite ?E1, ?E2, ?E3, ?E4, ?E5, ?E6, ?E7, ?E8, ?E9, ?E10; try apply Ha; try done.
  - rewrite add_region_sizes. by rewrite (a_total _ Ha).
  - lia.
  - intros r [->|Hr]%AddAllocationRegion_elem; [done|]. by apply Hb, (a_sub _ Ha).
Qed.

Lemma total_nonneg s : acct_inv s -> rm_wf (regions_ s) -> 0 <= total_region_allocated_bytes_ s.
Proof.
  intros Ha Hwf. rewrite (a_total _ Ha). apply zsum_nonneg, Forall_map, Forall_forall. intros r Hr.
  destruct (rm_wf_region _ _ Hwf Hr). cbn. lia.
Qed.

(** The memory that is still available, a multiple of 256. *)
Lemma available_bytes_spec s :
  acct_inv s -> rm_wf (regions_ s) ->
  let av := u64 (memory_limit_ s - total_region_allocated_bytes_ s) / kMinAllocationSize * kMinAllocationSize in
  0 <= av <= memory_limit_ s - total_region_allocated_bytes_ s /\ av < 2 ^ 63 /\ (256 | av).
Proof.
  intros Ha Hwf av. pose proof (total_nonneg s Ha Hwf). destruct (a_limit _ Ha). pose proof (a_total_le _ Ha).
  unfold av. rewrite kMin_256, u64_small by lia. set (d := memory_limit_ s - _).
  pose proof (Z.div_mod d 256 ltac:(lia)). pose proof (Z.mod_pos_bound d 256 ltac:(lia)).
  split_and!; [lia..|]. apply Z.divide_factor_r.
Qed.

(** The fields that no part of [Extend] before the new region touches. *)
Lemma extend_prefix s s1 rb :
  inv s -> 0 <= curr_region_allocation_bytes_ s1 < 2 ^ 64 -> (256 | curr_region_allocation_bytes_ s1) ->
  (0 < curr_region_allocation_bytes_ s -> 0 < curr_region_allocation_bytes_ s1) ->
  (started_backpedal_ s = true -> started_backpedal_ s1 = true) ->
  (forall b, b ∈ sa_blocks (sub_allocator_ s) -> b ∈ sa_blocks (sub_allocator_ s1)) ->
  s1 = set_sub_allocator (sub_allocator_ s1) (set_started_backpedal (started_backpedal_ s1)
         (set_curr_region_allocation_bytes (curr_region_allocation_bytes_ s1) s)) ->
  extended s s1 rb false.
Proof.
  intros [(L & fl & Hi) Ha] Hc Hcd Hc0 Hsb Hb E. set (cur := curr_region_allocation_bytes_ s1) in *.
  set (sb := started_backpedal_ s1) in *. set (sub := sub_allocator_ s1) in *. clearbody cur sb sub. subst s1.
  constructor; try done.
  split.
  - exists L, fl. eapply mem_inv_ext; [..|exact Hi]; done.
  - constructor; try (apply Ha); [done|]. intros r Hr. by apply Hb, (a_sub _ Ha).
Qed.

Lemma sub_answer_started s s1 p n sb :
  sub_answer s s1 p n -> sub_answer (set_started_backpedal sb s) (set_started_backpedal sb s1) p n.
Proof. intros (E & Hb & Hp). split_and!; [|done|done]. rewrite E at 1. done. Qed.

Lemma backpedal_part t fuel al rb n p s s1 :
  sub_answer s s1 p n -> 0 < rb <= n -> n < 2 ^ 63 -> (256 | n) ->
  (t = true -> (1000 <= fuel)%nat /\ (2560 <= rb \/ started_backpedal_ s = true)) ->
  wp t (if (p =? 0) && negb (started_backpedal_ s1) then
          modify (set_started_backpedal true);;
          Backpedal_loop fuel al rb n
        else mret (p, n)) s1 (fun r s2 =>
    exists sb, sub_answer (set_started_backpedal sb s) s2 r.1 r.2
      /\ (started_backpedal_ s = true -> sb = true)
      /\ (r.1 <> 0 -> rb <= r.2 <= n /\ (256 | r.2))).
Proof.
  intros Hans Hrb Hn Hd Ht. assert (started_backpedal_ s1 = started_backpedal_ s) as Esb.
  { destruct Hans as (E & _). by rewrite E. }
  destruct (Z.eqb_spec p 0) as [->|Hp]; [destruct (started_backpedal_ s1) eqn:Es|]; cbn [andb negb].
  - wp_steps. exists true. split_and!; [|done|done]. destruct Hans as (E & Hb & _). split_and!; [|done|done].
    rewrite E at 1. destruct s; cbn in *. by rewrite <- Esb.
  - wp_steps. eapply wp_mono; [apply Backpedal_loop_spec; [done|lia|done|]|].
    + intros Et. destruct (Ht Et) as [Hf Hor]. split; [destruct Hor; [done|congruence]|].
      right. exists 800%nat. split; [by apply backpedal_steps_bound|lia].
    + intros r s2 [Hr1 Hr2]. exists true. split_and!; [|done|done].
      exact (sub_answer_trans _ _ _ _ _ _ (sub_answer_started _ _ _ _ true Hans) Hr1).
  - wp_steps. exists (started_backpedal_ s). split_and!; [|done|intros _; split; [cbn; lia|done]].
    by destruct s.
Qed.

(** [Extend] adds a region with one free chunk that is large enough, or fails and
    leaves the chunks as they are. *)
Lemma Extend_spec t fuel al rb s :
  inv s -> 0 < rb < 2 ^ 64 -> (256 | rb) -> (t = true -> extend_terminates fuel s rb) ->
  wp t (Extend fuel al rb) s (fun ok s' => extended s s' rb ok).
Proof.
  intros Hinv Hrb Hd Ht. pose proof Hinv as [(L & fl & Hi) Ha]. pose proof (m_rm _ _ _ _ _ _ Hi) as Hwf.
  destruct (available_bytes_spec s Ha Hwf) as (Hav & Hav63 & Havd). destruct (a_curr _ Ha) as [Hcur Hcurd].
  unfold Extend. do 2 wp_step. cbv zeta. set (av := u64 _ / _ * _) in *.
  destruct (Z.ltb_spec av rb) as [|Hge].
  { wp_steps. apply extend_prefix; try done. by destruct s. }
  wp_step. pose proof (GrowRegion_loop_spec fuel rb _ false Hcur Hcurd) as Hg. unfold wp at 1.
  destruct (GrowRegion_loop fuel rb _ false) as [[c inc]| |] eqn:Eg; [|done|].
  2:{ destruct t; [|done]. destruct (Ht eq_refl) as (? & ? & _).
      destruct (GrowRegion_loop_total fuel rb (curr_region_allocation_bytes_ s) false) as [r Er]; [done|lia| |congruence].
      pose proof (Z.pow_le_mono_r 2 63 (Z.of_nat fuel) ltac:(lia) ltac:(lia)). nia. }
  destruct Hg as (Hrc & Hc & Hcd). do 2 wp_step. set (sX := set_curr_region_allocation_bytes c s).
  assert (256 | Z.min c av) as Hmd by (destruct (Z.min_spec c av) as [[_ ->]|[_ ->]]; done).
  wp_step. eapply wp_mono; [apply SubAlloc_spec; lia|]. intros p1 s1 Hans1. cbn beta.
  do 2 wp_step. wp_step. eapply wp_mono; [eapply (backpedal_part t fuel al rb _ _ sX); [exact Hans1|lia|lia|done|]|].
  { intros Et. by destruct (Ht Et) as (? & ? & ?). }
  intros [p n] s2 (sb & Hans & Hsb & Hpn). cbn [fst snd] in *. destruct Hans as (E2 & Hb2 & Hans2).
  destruct (Z.eqb_spec p 0) as [->|Hp].
  { wp_steps. apply extend_prefix; try done; rewrite E2; try done. cbn. lia. }
  destruct (Hpn Hp) as [Hn Hnd]. destruct (Hans2 Hp) as (Hp0 & Hpb & _).
  wp_step. apply (wp_mono _ _ _ (fun _ s3 => exists c', s3 = set_curr_region_allocation_bytes c' s2
                                              /\ 0 <= c' < 2 ^ 64 /\ (256 | c'))).
  { destruct inc; cbn [negb]; wp_steps.
    - exists c. split_and!; [|lia|lia|done]. by rewrite E2.
    - eexists. split_and!; [done|apply u64_range|apply u64_range|]. apply u64_divide, Z.divide_mul_l. by rewrite E2. }
  intros [] s3 (c' & E3 & Hc' & Hcd'). do 2 wp_step.
  wp_step. apply wp_CHECK. { rewrite kMin_256. apply Z.eqb_eq, Z_divide_mod0; [done|done]. }
  set (s4 := set_total_region_allocated_bytes _ s3).
  assert (s4 = set_total_region_allocated_bytes (total_region_allocated_bytes_ s + n)
            (set_sub_allocator (sub_allocator_ s2) (set_started_backpedal sb (set_curr_region_allocation_bytes c' s)))) as E4.
  { unfold s4. rewrite E3, E2. cbn. rewrite u64_small; [done|].
    pose proof (total_nonneg s Ha Hwf). destruct (a_limit _ Ha). lia. }
  clearbody s4.
  assert (sub_answer s (set_sub_allocator (sub_allocator_ s2) s) p n) as Hans by (by split_and!).
  eapply wp_mono; [apply (new_region_spec t L fl s4 p n)|].
  - rewrite E4. eapply mem_inv_ext; [..|exact Hi]; done.
  - done.
  - lia.
  - done.
  - done.
  - rewrite E4. by apply (fresh_sub s _ _ _ Ha Hwf Hans).
  - cbn beta. intros ok s5 (-> & Hfr & Hm & h & ch & Hh & Hch & Hsz & Hfc). constructor; try done.
    + split; [done|]. apply (acct_frame _ _ Hfr). rewrite E4.
      by apply (acct_add_region s _ _ p n c' Ha Hans); try lia.
    + etrans; [|apply (frame_config _ _ Hfr)]. by rewrite E4.
    + rewrite (f_blocks _ _ Hfr). by rewrite E4.
    + rewrite (f_nid _ _ Hfr). by rewrite E4.
    + rewrite (f_ts _ _ Hfr). by rewrite E4.
    + intros _ fb. exists h, ch. split_and!; [done|done|]. unfold eligible. lia.
    + intros Hs. rewrite (f_back _ _ Hfr), E4. cbn. auto.
Qed.

End grow.
