(* ===== verification/BfcMerge.v ===== *)
(** * The BFC allocator: delayed coalescing of time-stamped chunks

    [MergeTimestampedChunks]: the queue of freed chunks is drained, chunks behind the
    safe frontier lose their time stamp, and the collected addresses are coalesced.
    The blocks in use are not affected. *)

From S2P Require Import Prelude BfcAllocator BfcRegions BfcInvariant BfcChunks BfcCoalesce BfcAlloc.

Section merge.
Context {Sub : Type} `{!SubAllocator Sub} `{!SubAllocatorSpec Sub}.
Implicit Types s : BFCAllocator Sub.

(** The operation reorganises free memory and nothing else. *)
Record quiet s s' : Prop := {
  q_config : same_config s s';
  q_blocks : blocks s' = blocks s;
  q_nid : next_allocation_id_ s' = next_allocation_id_ s;
  q_curr : curr_region_allocation_bytes_ s' = curr_region_allocation_bytes_ s;
  q_back : started_backpedal_ s' = started_backpedal_ s
}.

#[export] Instance quiet_preorder : PreOrder quiet.
Proof.
  split; [by intros s; constructor|]. intros s1 s2 s3 [] []. constructor; [by etrans|congruence..].
Qed.

Lemma frame_quiet s s' : frame s s' -> quiet s s'.
Proof. intros H. constructor; [by apply frame_config|apply H..]. Qed.

(** A handle that may stand on the queue. *)
Definition queued s (h : nat) : Prop :=
  exists c, chunks_ s !! h = Some c /\ rm_addr (regions_ s) (c_ptr c).

(** An address that may be merged: no block in use starts there. *)
Definition mergeable s (p : Z) : Prop :=
  rm_addr (regions_ s) p /\ forall b, b ∈ blocks s -> b.1.1.1 <> p.

Lemma binned_live held dis L spare fl s h c :
  mem_inv held dis L spare fl s -> chunks_ s !! h = Some c -> c_bin_num c <> None -> h ∈ concat L.
Proof.
  intros Hi Hc Hb. assert (h ∈ seq 0 (length (chunks_ s))) as Hs.
  { apply elem_of_seq. apply lookup_lt_Some in Hc. lia. }
  rewrite <- (m_perm _ _ _ _ _ _ Hi) in Hs. apply elem_of_app in Hs as [?|Hs]; [done|].
  by destruct (m_dead _ _ _ _ _ _ Hi h c Hs Hc).
Qed.

(** A live chunk that is in use is one of the blocks. *)
Lemma used_block_elem s h c : chunks_ s !! h = Some c -> in_use c = true -> block_of c ∈ blocks s.
Proof.
  intros Hc Hu. unfold blocks, used_blocks. apply list_elem_of_fmap. exists c. split; [done|].
  apply list_elem_of_In, filter_In. split; [|done]. apply list_elem_of_In. by eapply list_elem_of_lookup_2.
Qed.

Lemma free_mergeable held L spare fl s h c :
  mem_inv held None L spare fl s -> h ∈ concat L -> chunks_ s !! h = Some c -> in_use c = false ->
  mergeable s (c_ptr c).
Proof.
  intros Hi Hh Hc Hu. split; [by apply (live_bounds _ _ _ _ _ _ Hi h c)|]. intros b Hb Ep.
  apply list_elem_of_fmap in Hb as (c' & -> & Hc'). apply list_elem_of_In, filter_In in Hc' as [Hc' Hu'].
  apply list_elem_of_In, list_elem_of_lookup_1 in Hc' as [h' Hc']. cbn in Ep.
  assert (h' = h) as ->; [|congruence].
  eapply (live_ptr_inj _ _ _ _ _ _ Hi h' h c' c); try done. by eapply used_live.
Qed.

Lemma frame_addr s s' p : frame s s' -> rm_addr (regions_ s) p -> rm_addr (regions_ s') p.
Proof. intros Hfr. apply rm_addr_geometry. symmetry. apply Hfr. Qed.

Lemma frame_mergeable s s' p : frame s s' -> mergeable s p -> mergeable s' p.
Proof. intros Hfr [Ha Hb]. split; [by eapply frame_addr|]. by rewrite (f_blocks _ _ Hfr). Qed.

(** Clearing the time stamp of a live free chunk. *)
Lemma clear_stamp L fl s h c :
  mem_inv [] None L [] fl s -> h ∈ concat L -> chunks_ s !! h = Some c -> in_use c = false ->
  let s' := set_chunks (<[h := c_set_freed_at_count 0 c]> (chunks_ s)) s in
  mem_inv [] None L [] fl s' /\ frame s s' /\ forall x, queued s x -> queued s' x.
Proof.
  intros Hi Hh Hc Hu s'. pose proof (m_chunk _ _ _ _ _ _ Hi h c Hh Hc) as [Hok Hf].
  pose proof (lookup_lt_Some _ _ _ Hc) as Hlt. split_and!.
  - eapply (mem_inv_update [] [] _ _ _ _ s s' h c (c_set_freed_at_count 0 c)); try done; try (apply Hi).
    + intros b l Hl. destruct (m_bins _ _ _ _ _ _ Hi b l Hl) as [Hs Hm]. split; [done|].
      intros x. rewrite Hm. destruct (decide (x = h)) as [->|Hx]; [|done]. split; [|by eauto].
      intros (_ & c1 & Hc1 & E). by assert (c1 = c) as -> by congruence.
    + intros Hu'. change (in_use c = true) in Hu'. congruence.
  - constructor; try done. by eapply used_blocks_same.
  - intros x (cx & Hx & Hax). destruct (decide (x = h)) as [->|Hne].
    + exists (c_set_freed_at_count 0 c). split; [by apply list_lookup_insert_eq|]. by assert (cx = c) as -> by congruence.
    + exists cx. split; [by rewrite <- Hx; apply list_lookup_insert_ne|done].
Qed.

Lemma drain_spec t rb L fl q tm nts s :
  mem_inv [] None L [] fl s -> Forall (queued s) q -> Forall (mergeable s) tm -> Forall (queued s) nts ->
  wp t (MergeTimestamped_drain rb q tm nts) s (fun r s' =>
    mem_inv [] None L [] fl s' /\ frame s s' /\ Forall (mergeable s') r.1 /\ Forall (queued s') r.2).
Proof.
  revert tm nts s. induction q as [|h q IH]; intros tm nts s Hi Hq Htm Hnts; simpl.
  { wp_steps. split_and!; done. }
  apply Forall_cons in Hq as [(c & Hc & Haddr) Hq].
  destruct (rm_get_handle_addr _ _ (m_rm _ _ _ _ _ _ Hi) Haddr) as [oh Hoh].
  wp_step. eapply wp_ChunkFromHandle; [done|]. wp_step. eapply wp_get_handle; [done|].
  destruct oh as [h'|]; [|by apply IH].
  destruct (in_use c || is_none (c_bin_num c)) eqn:E; [by apply IH|].
  apply orb_false_iff in E as [Hu Hb].
  assert (h ∈ concat L) as Hh by (eapply binned_live; [done|done|]; by destruct (c_bin_num c)).
  assert (mergeable s (c_ptr c)) as Hm by (by eapply free_mergeable).
  assert (Forall (mergeable s) (tm ++ [c_ptr c])) as Htm' by (apply Forall_app; split; [done|by constructor]).
  destruct (c_freed_at_count c =? 0); [by apply IH|]. wp_steps.
  destruct (c_freed_at_count c <? safe_frontier_ s).
  - wp_step. eapply wp_modify_chunk; [done|].
    destruct (clear_stamp L fl s h c Hi Hh Hc Hu) as (Hi' & Hfr & Hqd).
    eapply wp_mono; [apply IH; [done|..]|].
    + by eapply Forall_impl.
    + eapply Forall_impl; [done|]. intros p. by apply frame_mergeable.
    + by eapply Forall_impl.
    + cbn beta. intros r s' (? & ? & ? & ?). split_and!; try done. by etrans.
  - destruct (0 <? rb); [by apply IH|]. apply IH; try done. apply Forall_app. split; [done|].
    constructor; [|done]. apply (m_handles _ _ _ _ _ _ Hi _ Haddr) in Hoh as (_ & c' & Hc' & Ep).
    exists c'. by rewrite Ep.
Qed.

(** Appending to the queue. *)
Lemma push_timestamped_spec t s h :
  inv s -> timing_counter_ s <> None -> queued s h ->
  wp t (push_timestamped h) s (fun _ s' => inv s' /\ quiet s s' /\ timing_counter_ s' <> None
    /\ regions_ s' = regions_ s).
Proof.
  intros [(L & fl & Hi) Ha] Ht (c & Hc & Haddr). unfold push_timestamped. wp_steps. split_and!; try done.
  split; [exists L, fl; by eapply mem_inv_push|].
  constructor; try (apply Ha). pose proof (a_counter _ Ha). cbn. by destruct (timing_counter_ s).
Qed.

Lemma quiet_mergeable s s' p : quiet s s' -> regions_ s' = regions_ s -> mergeable s p -> mergeable s' p.
Proof. intros Hq Hr [Ha Hb]. split; [by rewrite Hr|]. by rewrite (q_blocks _ _ Hq). Qed.

(** One address: the chunk leaves its bin, is coalesced and goes back. *)
Lemma merge_one {A} t s h c b (k : nat -> M (BFCAllocator Sub) A) Q :
  inv s -> (exists p, rm_addr (regions_ s) p /\ rm_get_handle (regions_ s) p = Some (Some h)) ->
  chunks_ s !! h = Some c -> in_use c = false ->
  (forall new_h s', inv s' -> frame s s' -> queued s' new_h -> wp t (k new_h) s' Q) ->
  wp t (RemoveFreeChunkFromBin h;; new_h ← TryToCoalesce h b; InsertFreeChunkIntoBin new_h;; k new_h) s Q.
Proof.
  intros [(L & fl & Hi) Ha] (p & Hp & Hg) Hc Hu Hk. apply (m_handles _ _ _ _ _ _ Hi p Hp) in Hg as (Hh & _).
  wp_step. eapply wp_mono; [eapply (RemoveFreeChunkFromBin_spec t [] None L [] fl s h c); try done; apply not_elem_of_nil|].
  intros _ s1 (Hi1 & Hfr1 & _ & _ & E1). wp_step.
  eapply wp_mono; [apply (TryToCoalesce_spec t s)|].
  { exists L, fl, (c_set_bin_num None c). split_and!; try done. rewrite E1. apply list_lookup_insert_eq.
    by eapply lookup_lt_Some. }
  intros h' s2 Hhold. wp_step. eapply wp_mono; [by apply (insert_holding t s)|].
  intros _ s3 (? & ? & ?). by apply Hk.
Qed.

Lemma merge_loop_spec t rb tm sat s :
  inv s -> timing_counter_ s <> None -> Forall (mergeable s) tm ->
  wp t (MergeTimestamped_merge rb tm sat) s (fun _ s' => inv s' /\ quiet s s').
Proof.
  revert sat s. induction tm as [|p tm IH]; intros sat s Hinv Ht Htm; simpl.
  { wp_steps. by split. }
  apply Forall_cons in Htm as [[Haddr Hb] Htm]. pose proof Hinv as [(L & fl & Hi) Ha].
  destruct (rm_get_handle_addr _ _ (m_rm _ _ _ _ _ _ Hi) Haddr) as [oh Hoh].
  wp_step. eapply wp_get_handle; [done|]. destruct oh as [h|]; [|by apply IH].
  pose proof (proj1 (m_handles _ _ _ _ _ _ Hi _ Haddr _) Hoh) as (Hh & c & Hc & Ep).
  assert (in_use c = false) as Hu.
  { destruct (in_use c) eqn:Hu; [|done]. by destruct (Hb (block_of c) (used_block_elem s h c Hc Hu)). }
  destruct ((rb =? 0) || negb sat).
  - wp_step. eapply wp_ChunkFromHandle; [done|]. wp_step. apply wp_CHECK.
    { destruct (free_chunk_bin _ _ _ _ _ _ _ _ Hi Hh (not_elem_of_nil h) Hc Hu) as [-> _]. by rewrite Hu. }
    eapply merge_one; [done|by exists p|done|done|]. clear Hc Hu Hoh Hh. intros new_h s1 Hinv1 Hfr1 Hq1.
    assert (timing_counter_ s1 <> None) as Ht1 by (by rewrite (f_counter _ _ Hfr1)).
    assert (Forall (mergeable s1) tm) as Htm1.
    { eapply Forall_impl; [done|]. intros x. by apply frame_mergeable. }
    destruct (0 <? rb).
    + destruct Hq1 as (c1 & Hc1 & Haddr1). wp_step. eapply wp_ChunkFromHandle; [done|]. wp_step.
      eapply (wp_mono _ _ _ (fun _ s' => inv s' /\ quiet s1 s' /\ timing_counter_ s' <> None /\ regions_ s' = regions_ s1)).
      { destruct (_ && _); [apply push_timestamped_spec; try done; by exists c1|]. wp_steps. by split_and!. }
      intros _ s2 (Hinv2 & Hq2 & Ht2 & Er2). eapply wp_mono; [apply IH; [done|done|]|].
      * eapply Forall_impl; [done|]. intros x. by apply quiet_mergeable.
      * cbn beta. intros _ s3 (? & ?). split; [done|]. etrans; [by apply frame_quiet|]. by etrans.
    + eapply wp_mono; [by apply IH|]. cbn beta. intros _ s3 (? & ?). split; [done|].
      etrans; [by apply frame_quiet|done].
  - wp_step. eapply wp_mono; [apply push_timestamped_spec; [done|done|]|].
    { exists c. by rewrite Ep. }
    intros _ s1 (Hinv1 & Hq1 & Ht1 & Er). eapply wp_mono; [apply IH; [done|done|]|].
    + eapply Forall_impl; [done|]. intros x. by apply quiet_mergeable.
    + cbn beta. intros _ s2 (? & ?). split; [done|]. by etrans.
Qed.

Lemma MergeTimestampedChunks_spec t rb s :
  inv s -> timing_counter_ s <> None ->
  wp t (MergeTimestampedChunks rb) s (fun _ s' => inv s' /\ quiet s s').
Proof.
  intros [(L & fl & Hi) Ha] Ht. unfold MergeTimestampedChunks. do 2 wp_step. wp_step.
  eapply wp_mono; [apply (drain_spec t rb L fl); [done| |done|done]|].
  { apply Forall_forall. apply (m_ts _ _ _ _ _ _ Hi). }
  intros [tm nts] s1 (Hi1 & Hfr & Htm & Hnts). cbn [fst snd] in *. do 2 wp_step.
  set (s2 := set_timestamped_chunks nts s1).
  pose proof (acct_frame _ _ Hfr Ha) as Ha1. assert (timing_counter_ s1 <> None) as Ht1 by (by rewrite (f_counter _ _ Hfr)).
  eapply wp_mono; [apply merge_loop_spec|].
  - split.
    + exists L, fl. constructor; try (apply Hi1). by apply Forall_forall.
    + constructor; try (apply Ha1). pose proof (a_counter _ Ha1). cbn. by destruct (timing_counter_ s1).
  - done.
  - eapply Forall_impl; [done|]. by intros x.
  - cbn beta. intros _ s3 (? & ?). split; [done|]. etrans; [by apply frame_quiet|]. transitivity s2; [by constructor|done].
Qed.

End merge.
