(* ===== verification/BfcCollect.v ===== *)
(** * The BFC allocator: garbage collection of free regions

    [DeallocateFreeRegions]: the regions none of whose chunks is in use are found,
    their chunks leave the bins and the region table, and the memory goes back to the
    sub-allocator.  No block in use is affected, and the loops over the linked chunks
    finish. *)

From S2P Require Import Prelude BfcAllocator BfcRegions BfcInvariant BfcChunks BfcCoalesce BfcAlloc BfcGrow BfcMerge.

Section collect.
Context {Sub : Type} `{!SubAllocator Sub} `{!SubAllocatorSpec Sub}.
Implicit Types s : BFCAllocator Sub.

(** ** Looking for chunks in use *)

Lemma seg_AnyUse t s fuel hs p a e :
  seg (chunks_ s) p a hs e None -> (length hs <= fuel)%nat ->
  wp t (AnyUse_loop fuel (nxt None hs)) s (fun any s' => s' = s
    /\ (any = true <-> exists h c, h ∈ hs /\ chunks_ s !! h = Some c /\ in_use c = true)).
Proof.
  revert fuel p a. induction hs as [|h hs IH]; intros fuel p a Hs Hf.
  { destruct fuel; simpl; wp_steps; (split; [done|]; split; [done|]; intros (h & _ & Hh & _); by apply not_elem_of_nil in Hh). }
  destruct Hs as (c & Hc & _ & _ & _ & _ & Hn & Hs). destruct fuel as [|f]; [simpl in Hf; lia|]. simpl.
  wp_step. eapply wp_ChunkFromHandle; [done|]. destruct (in_use c) eqn:Hu.
  { wp_steps. split; [done|]. split; [|done]. intros _. exists h, c. split_and!; [left|done|done]. }
  rewrite Hn. eapply wp_mono; [eapply IH; [done|simpl in Hf; lia]|]. intros any s' [-> Hiff]. split; [done|].
  rewrite Hiff. split.
  - intros (x & cx & ? & ? & ?). exists x, cx. split_and!; [by right|done|done].
  - intros (x & cx & [->|Hx]%elem_of_cons & Hcx & Hux); [congruence|eauto].
Qed.

Lemma live_count held dis L spare fl s i hs :
  mem_inv held dis L spare fl s -> L !! i = Some hs -> (length hs <= length (chunks_ s))%nat.
Proof.
  intros Hi Hl. pose proof (Permutation_length (m_perm _ _ _ _ _ _ Hi)) as Hp.
  rewrite length_seq, length_app in Hp. apply list_elem_of_split_length in Hl as (l1 & l2 & -> & _).
  rewrite concat_app in Hp. simpl in Hp. rewrite !length_app in Hp. lia.
Qed.

(** No block in use lies in the region. *)
Definition region_free s (r : AllocationRegion) : Prop :=
  forall b, b ∈ blocks s -> ~ (r_ptr r <= b.1.1.1 < r_end_ptr r).

Lemma region_free_chunks held dis L spare fl s i r hs :
  mem_inv held dis L spare fl s -> regions_ s !! i = Some r -> L !! i = Some hs ->
  region_free s r <-> ~ exists h c, h ∈ hs /\ chunks_ s !! h = Some c /\ in_use c = true.
Proof.
  intros Hi Hr Hl. split.
  - intros Hf (h & c & Hh & Hc & Hu). apply (Hf _ (used_block_elem s h c Hc Hu)). cbn.
    pose proof (Forall2_lookup_lr _ _ _ _ _ _ (m_segs _ _ _ _ _ _ Hi) Hr Hl) as Hs.
    apply (region_seg_weak dis s) in Hs as (p & a & Hs & ? & _).
    destruct (seg_elem _ _ _ _ _ _ _ Hs Hh) as (c' & Hc' & ? & ? & ? & _).
    assert (c' = c) as -> by congruence. lia.
  - intros Hn b Hb Hin. apply Hn. apply list_elem_of_fmap in Hb as (c & -> & Hc).
    apply list_elem_of_In, filter_In in Hc as [Hc Hu]. apply list_elem_of_In, list_elem_of_lookup_1 in Hc as [h Hc].
    exists h, c. split_and!; try done. pose proof (used_live _ _ _ _ _ _ Hi h c Hc Hu) as Hh.
    destruct (live_chunk_at _ _ _ _ _ _ Hi h Hh) as (j & r' & hs' & p & a & c' & Hr' & Hl' & Hh' & _ & Hc' & ? & _ & ? & ? & _).
    assert (c' = c) as -> by congruence. pose proof (m_rm _ _ _ _ _ _ Hi) as Hwf.
    assert (r' = r) as -> by (cbn in Hin; apply (rm_region_unique (regions_ s) _ _ (c_ptr c));
      [done|by eapply list_elem_of_lookup_2|by eapply list_elem_of_lookup_2|lia|lia]).
    assert (j = i) as -> by (by apply (region_index (regions_ s) _ _ r)). by assert (hs' = hs) as -> by congruence.
Qed.

(** The chunk at the start of a region. *)
Lemma region_head L fl s i r hs :
  mem_inv [] None L [] fl s -> regions_ s !! i = Some r -> L !! i = Some hs ->
  seg (chunks_ s) None (r_ptr r) hs (r_end_ptr r) None
  /\ rm_get_handle (regions_ s) (r_ptr r) = Some (nxt None hs).
Proof.
  intros Hi Hr Hl. pose proof (Forall2_lookup_lr _ _ _ _ _ _ (m_segs _ _ _ _ _ _ Hi) Hr Hl) as [Hne Hs].
  split; [done|]. destruct hs as [|h hs]; [done|]. destruct Hs as (c & Hc & Hp & _).
  rewrite <- Hp. apply (live_handle _ _ _ _ _ _ Hi h c); [|done].
  apply list_elem_of_In, in_concat. exists (h :: hs). split; [|by left].
  apply list_elem_of_In. by eapply list_elem_of_lookup_2.
Qed.

(** The set of regions to release: exactly the free ones. *)
Lemma FreeRegions_loop_spec t s fuel rs ptrs tot :
  inv s -> (length (chunks_ s) <= fuel)%nat -> rs ⊆ regions_ s ->
  wp t (FreeRegions_loop fuel rs ptrs tot) s (fun r s' => s' = s
    /\ forall p, p ∈ r.1 <-> p ∈ ptrs \/ exists g, g ∈ rs /\ r_ptr g = p /\ region_free s g).
Proof.
  intros [(L & fl & Hi) Ha] Hf. revert ptrs tot. induction rs as [|r rs IH]; intros ptrs tot Hsub; simpl.
  { wp_steps. split; [done|]. intros p. cbn. split; [by left|]. intros [?|(g & Hg & _)]; [done|].
    by apply not_elem_of_nil in Hg. }
  assert (r ∈ regions_ s) as [i Hr]%list_elem_of_lookup_1 by (apply Hsub; left).
  destruct (Forall2_lookup_l _ _ _ _ _ (m_segs _ _ _ _ _ _ Hi) Hr) as (hs & Hl & _).
  destruct (region_head _ _ _ _ _ _ Hi Hr Hl) as [Hs Hg].
  wp_step. eapply wp_get_handle; [done|]. wp_step. eapply wp_mono; [eapply seg_AnyUse; [done|]|].
  { etrans; [by eapply live_count|done]. }
  intros any s' [-> Hany]. pose proof (region_free_chunks _ _ _ _ _ _ _ _ _ Hi Hr Hl) as Hfree.
  destruct any; (eapply wp_mono; [apply IH; set_solver|]); intros res s' [-> Hres]; (split; [done|]); intros p;
    rewrite Hres; setoid_rewrite elem_of_cons.
  - split; [naive_solver|]. intros [?|(g & [->|Hg'] & Hp & Hfr)]; [by left| |naive_solver].
    exfalso. by apply Hfree, Hany.
  - rewrite elem_of_union, elem_of_singleton. split; [|naive_solver].
    intros [[->|?]|(g & ? & ? & ?)]; [|by left|naive_solver]. right. exists r. split_and!; [by left|done|].
    apply Hfree. intros Hx. by apply Hany in Hx.
Qed.

(** ** Deleting the chunks of a region *)

(** A region may be dismantled: the invariant asks less of it. *)
Lemma mem_inv_dismantle L fl s i r :
  mem_inv [] None L [] fl s -> regions_ s !! i = Some r -> mem_inv [] (Some (r_ptr r)) L [] fl s.
Proof.
  intros Hi Hr. constructor; try (apply Hi). eapply Forall2_impl; [apply Hi|]. intros r' hs Hs.
  destruct (decide (r_ptr r = r_ptr r')) as [E|Hne].
  - unfold region_seg in *. rewrite bool_decide_true by congruence.
    destruct Hs as [_ Hs]. exists None, (r_ptr r'). split_and!; [done|lia|].
    rewrite Z.sub_diag. apply Z.divide_0_r.
  - apply (region_seg_dis _ None); [congruence|done|done].
Qed.

(** The first chunk of the region being dismantled is deleted. *)
Lemma DeleteChunk_spec t L fl s i r h hs c :
  mem_inv [h] (Some (r_ptr r)) L [] fl s -> regions_ s !! i = Some r -> L !! i = Some (h :: hs) ->
  chunks_ s !! h = Some c -> in_use c = false -> c_bin_num c = None ->
  wp t (DeleteChunk h) s (fun _ s' =>
    mem_inv [] (Some (r_ptr r)) (<[i := hs]> L) [] (h :: fl) s' /\ frame s s'
    /\ length (chunks_ s') = length (chunks_ s)).
Proof.
  intros Hi Hr Hl Hc Hu Hbn.
  assert (h ∈ concat L) as Hh.
  { apply list_elem_of_In, in_concat. exists (h :: hs). split; [|by left].
    apply list_elem_of_In. by eapply list_elem_of_lookup_2. }
  destruct (live_bounds _ _ _ _ _ _ Hi h c Hh Hc) as (_ & _ & _ & _ & Haddr).
  destruct (rm_set_handle_spec (regions_ s) (c_ptr c) None (m_rm _ _ _ _ _ _ Hi) Haddr) as (rs & Ers & Hwf' & Hgeo & Hget).
  pose proof (lookup_lt_Some _ _ _ Hc) as Hlt.
  unfold DeleteChunk. wp_step. eapply wp_ChunkFromHandle; [done|].
  wp_step. eapply wp_erase_handle; [exact Ers|]. unfold DeallocateChunk. wp_steps.
  eapply wp_modify_chunk; [done|]. wp_steps. cbn [free_chunks_list_ set_regions].
  match goal with |- mem_inv _ _ _ _ _ ?st /\ _ => set (s2 := st) end.
  set (c' := dead_chunk (free_chunks_list_ s) c).
  assert (chunks_ s2 = <[h := c']> (chunks_ s)) as E2 by done.
  assert (length (chunks_ s2) = length (chunks_ s)) as Hlen by (rewrite E2; apply length_insert).
  pose proof (m_chunk _ _ _ _ _ _ Hi h c Hh Hc) as [_ Hf].
  destruct (mem_inv_swap [h] [] (Some (r_ptr r)) (Some (r_ptr r)) L [] [] fl (h :: fl) s s2 i [] [h] [] hs) as [Hi2 Hb2];
    try done.
  - intros x Hx. exists id. split; [|by left]. rewrite E2, list_lookup_insert_ne by (intros ->; elem).
    by destruct (chunks_ s !! x).
  - intros r0 Hr0. assert (r0 = r) as -> by congruence. unfold region_seg. rewrite bool_decide_true by done.
    intros (p & a & Hs & Ha & Hd). destruct Hs as (c0 & Hc0 & Hp & Hpos & Hd0 & _ & _ & Hs).
    exists (Some h), (a + c_size c0). split_and!; [|lia|].
    + eapply seg_frame; [|exact Hs]. intros x Hx. rewrite E2, list_lookup_insert_ne; [done|]. intros ->.
      pose proof (perm_NoDup _ _ _ _ _ _ Hi) as Hnd. apply NoDup_app in Hnd as (Hnd & _ & _).
      apply list_elem_of_split_length in Hl as (l1 & l2 & -> & _). rewrite concat_app in Hnd. simpl in Hnd.
      apply NoDup_app in Hnd as (_ & _ & Hnd). apply NoDup_cons in Hnd as [Hnd _]. apply Hnd. elem.
    + replace (a + c_size c0 - r_ptr r) with (a - r_ptr r + c_size c0) by lia. by apply Z.divide_add_r.
  - intros q Hq y. rewrite Hget by done. case_decide as Hqp.
    + subst q. split; [done|]. intros [(Hy & _)|(Hy & _ & E)]; [by apply not_elem_of_nil in Hy|].
      rewrite (live_handle _ _ _ _ _ _ Hi h c Hh Hc) in E. injection E as <-. exfalso. apply Hy. left.
    + split.
      * intros E. right. split_and!; [|apply not_elem_of_nil|done]. intros Hy. apply list_elem_of_singleton in Hy as ->.
        apply (m_handles _ _ _ _ _ _ Hi q Hq) in E as (_ & c0 & Hc0 & E). congruence.
      * intros [(Hy & _)|(_ & _ & E)]; [by apply not_elem_of_nil in Hy|done].
  - split; [done|]. exists c'. split; [by rewrite E2; apply list_lookup_insert_eq|].
    change (c_next c') with (free_chunks_list_ s). eapply flist_frame; [|apply Hi]. intros x Hx.
    rewrite E2, list_lookup_insert_ne; [done|]. intros ->.
    by apply (live_not_dead _ _ _ _ _ _ Hi x Hh).
  - intros x cx Hx Hcx. apply list_elem_of_singleton in Hx as ->. by assert (cx = c) as -> by congruence.
  - intros x cx Hx Hcx. apply list_elem_of_singleton in Hx as ->.
    rewrite E2, list_lookup_insert_eq in Hcx by done. injection Hcx as <-. by split_and!.
  - intros x Hx. cbn in Hx. split; [intros Hx'; by apply not_elem_of_nil in Hx'|done].
Qed.

Lemma DeleteChunks_loop_spec t L fl s i r hs fuel :
  mem_inv [] (Some (r_ptr r)) L [] fl s -> regions_ s !! i = Some r -> L !! i = Some hs ->
  region_free s r -> (length hs <= fuel)%nat ->
  wp t (DeleteChunks_loop fuel (nxt None hs)) s (fun _ s' => exists fl',
    mem_inv [] (Some (r_ptr r)) (<[i := []]> L) [] fl' s' /\ frame s s'
    /\ length (chunks_ s') = length (chunks_ s)).
Proof.
  revert L fl s r fuel. induction hs as [|h hs IH]; intros L fl s r fuel Hi Hr Hl Hfree Hf.
  { destruct fuel; simpl; wp_steps; exists fl; rewrite list_insert_id by done; by split_and!. }
  pose proof (Forall2_lookup_lr _ _ _ _ _ _ (m_segs _ _ _ _ _ _ Hi) Hr Hl) as Hs.
  unfold region_seg in Hs. rewrite bool_decide_true in Hs by done. destruct Hs as (p & a & Hs & _).
  destruct Hs as (c & Hc & _ & _ & _ & _ & Hn & _). destruct fuel as [|f]; [simpl in Hf; lia|]. simpl.
  assert (in_use c = false) as Hu.
  { destruct (in_use c) eqn:Hu; [|done]. exfalso.
    apply (proj1 (region_free_chunks _ _ _ _ _ _ _ _ _ Hi Hr Hl) Hfree). exists h, c. split_and!; [left|done|done]. }
  assert (h ∈ concat L) as Hh.
  { apply list_elem_of_In, in_concat. exists (h :: hs). split; [|by left].
    apply list_elem_of_In. by eapply list_elem_of_lookup_2. }
  destruct (free_chunk_bin _ _ _ _ _ _ _ _ Hi Hh (not_elem_of_nil h) Hc Hu) as [Hb _].
  wp_step. eapply wp_ChunkFromHandle; [done|]. rewrite Hb. cbn [negb is_none]. wp_step.
  eapply wp_mono; [eapply (RemoveFreeChunkFromBin_spec t [] _ L [] fl s h c); try done; apply not_elem_of_nil|].
  intros _ s1 (Hi1 & Hfr1 & Er1 & _ & E1).
  assert (chunks_ s1 !! h = Some (c_set_bin_num None c)) as Hc1
    by (rewrite E1; eapply list_lookup_insert_eq, lookup_lt_Some, Hc).
  wp_step. eapply wp_ChunkFromHandle; [done|]. cbn [c_next c_set_bin_num]. rewrite Hn. wp_step.
  eapply wp_mono; [eapply (DeleteChunk_spec t L fl s1 i r h hs); try done; by rewrite Er1|].
  intros _ s2 (Hi2 & Hfr2 & Hlen2). assert (frame s s2) as Hfr by (by etrans).
  assert (exists r2, regions_ s2 !! i = Some r2 /\ geometry r2 = geometry r) as (r2 & Hr2 & Eg).
  { pose proof (f_equal (fun l => l !! i) (f_geometry _ _ Hfr)) as E. cbn in E.
    rewrite !list_lookup_fmap, Hr in E. destruct (regions_ s2 !! i) as [r2|]; [|done]. injection E as E1g E2g E3g. exists r2. split; [done|]. unfold geometry. congruence. }
  injection Eg as Ep Ez Ee. rewrite <- Ep in Hi2 |- *.
  eapply wp_mono; [apply (IH (<[i:=hs]> L) (h :: fl) s2 r2); try done|].
  - apply list_lookup_insert_eq. by eapply lookup_lt_Some.
  - unfold region_free. rewrite (f_blocks _ _ Hfr), Ep, Ee. done.
  - simpl in Hf. lia.
  - cbn beta. intros _ s3 (fl' & Hi3 & Hfr3 & Hlen3). exists fl'. rewrite list_insert_insert_eq in Hi3.
    split_and!; [done|by etrans|]. rewrite Hlen3, Hlen2, E1. apply length_insert.
Qed.

(** ** Removing the empty region *)

Lemma concat_delete_nil (L : list (list nat)) i : L !! i = Some [] -> concat (delete i L) = concat L.
Proof.
  intros Hl. apply list_elem_of_split_length in Hl as (l1 & l2 & -> & ->). rewrite delete_middle.
  rewrite !concat_app. done.
Qed.

Lemma mem_inv_remove L fl s i r :
  mem_inv [] (Some (r_ptr r)) L [] fl s -> regions_ s !! i = Some r -> L !! i = Some [] ->
  timestamped_chunks_ s = [] ->
  mem_inv [] None (delete i L) [] fl (set_regions (RemoveAllocationRegion (regions_ s) i) s).
Proof.
  intros Hi Hr Hl Hts. pose proof (m_rm _ _ _ _ _ _ Hi) as Hwf.
  pose proof (RemoveAllocationRegion_wf _ i Hwf) as Hwf'. unfold RemoveAllocationRegion in *.
  assert (forall g, g ∈ delete i (regions_ s) -> g ∈ regions_ s) as Hsub.
  { intros g Hg. eapply sublist_subseteq; [apply sublist_delete|done]. }
  constructor; cbn; rewrite ?concat_delete_nil by done; try (apply Hi); try done.
  - pose proof (m_segs _ _ _ _ _ _ Hi) as Hs. pose proof (Forall2_length _ _ _ Hs) as Hlen.
    assert (forall j g hs, j <> i -> regions_ s !! j = Some g -> L !! j = Some hs -> region_seg (chunks_ s) None g hs) as Hseg.
    { intros j g hs Hj Hg Hl'. apply (region_seg_dis _ (Some (r_ptr r))); [done| |by eapply Forall2_lookup_lr].
      intros [= E]. apply Hj, (region_index (regions_ s) _ _ g); [done|done|].
      assert (g = r) as ->; [|done].
      pose proof (rm_wf_region _ _ Hwf (list_elem_of_lookup_2 _ _ _ Hr)) as [].
      pose proof (rm_wf_region _ _ Hwf (list_elem_of_lookup_2 _ _ _ Hg)) as [].
      apply (rm_region_unique (regions_ s) _ _ (r_ptr r)); [done|by eapply list_elem_of_lookup_2..|lia|lia]. }
    apply Forall2_same_length_lookup. split.
    + by rewrite !length_delete by (by eexists); rewrite Hlen.
    + intros j g hs Hg Hl'. destruct (decide (j < i)%nat).
      * rewrite list_lookup_delete_lt in Hg by lia. rewrite list_lookup_delete_lt in Hl' by lia. apply (Hseg j); [lia|done|done].
      * rewrite list_lookup_delete_ge in Hg by lia. rewrite list_lookup_delete_ge in Hl' by lia. apply (Hseg (S j)); [lia|done|done].
  - intros p (g & Hg & Hp) h. pose proof Hp as [Hp' _]. rewrite (rm_get_handle_mono (regions_ s) _ g); try done; [|by apply Hsub].
    apply (m_handles _ _ _ _ _ _ Hi). exists g. split; [by apply Hsub|done].
  - rewrite Hts. intros h Hh. by apply not_elem_of_nil in Hh.
Qed.

Lemma frame_region s s' i r :
  frame s s' -> regions_ s !! i = Some r -> exists r', regions_ s' !! i = Some r' /\ geometry r' = geometry r.
Proof.
  intros Hfr Hr. pose proof (f_equal (fun l => l !! i) (f_geometry _ _ Hfr)) as E. cbn in E.
  rewrite !list_lookup_fmap, Hr in E. destruct (regions_ s' !! i) as [r2|]; [|done].
  injection E as E1 E2 E3. exists r2. split; [done|]. unfold geometry. congruence.
Qed.

Lemma delete_sizes rs i r :
  rs !! i = Some r -> zsum (map r_memory_size (delete i rs)) = zsum (map r_memory_size rs) - r_memory_size r.
Proof.
  intros Hr. apply list_elem_of_split_length in Hr as (r1 & r2 & -> & ->). rewrite delete_middle.
  rewrite !map_app, !zsum_app. cbn. unfold zsum. lia.
Qed.

(** The accounts after a region has been returned to the sub-allocator. *)
Lemma acct_remove s s' i r :
  acct_inv s -> rm_wf (regions_ s) -> regions_ s !! i = Some r -> timestamped_chunks_ s = [] ->
  s' = set_regions (RemoveAllocationRegion (regions_ s) i)
         (set_total_region_allocated_bytes (u64 (total_region_allocated_bytes_ s - r_memory_size r))
            (set_sub_allocator (sa_Free (sub_allocator_ s) (r_ptr r) (r_memory_size r)) s)) ->
  acct_inv s'.
Proof.
  intros Ha Hwf Hr Hts ->. pose proof (rm_wf_region _ _ Hwf (list_elem_of_lookup_2 _ _ _ Hr)) as Hrw.
  assert (0 <= total_region_allocated_bytes_ s - r_memory_size r) as Hge.
  { rewrite (a_total _ Ha), <- (delete_sizes _ i) by done. apply zsum_nonneg, Forall_map, Forall_forall.
    intros g Hg. assert (g ∈ regions_ s) as Hg' by (eapply sublist_subseteq; [apply sublist_delete|done]).
    destruct (rm_wf_region _ _ Hwf Hg'). cbn. lia. }
  destruct (a_limit _ Ha). pose proof (a_total_le _ Ha). destruct Hrw.
  constructor; cbn; rewrite ?u64_small by lia; try (apply Ha); try lia.
  - unfold RemoveAllocationRegion. rewrite (delete_sizes _ i r) by done. by rewrite (a_total _ Ha).
  - intros g Hg. assert (g ∈ regions_ s) as Hg' by (eapply sublist_subseteq; [apply sublist_delete|done]).
    apply sa_Free_ok; [by apply (a_sub _ Ha)|]. intros [= E _].
    apply list_elem_of_lookup_1 in Hg as [j Hj]. unfold RemoveAllocationRegion in Hj.
    assert (g = r) as ->.
    { destruct (rm_wf_region _ _ Hwf Hg'). apply (rm_region_unique (regions_ s) _ _ (r_ptr r));
        [done|done|by eapply list_elem_of_lookup_2|lia|lia]. }
    destruct (decide (j < i)%nat).
    + rewrite list_lookup_delete_lt in Hj by lia. pose proof (region_index _ _ _ _ Hwf Hj Hr). lia.
    + rewrite list_lookup_delete_ge in Hj by lia. pose proof (region_index _ _ _ _ Hwf Hj Hr). lia.
Qed.

Lemma release_region {A} t fuel s i r (k : M (BFCAllocator Sub) A) Q :
  inv s -> timestamped_chunks_ s = [] -> regions_ s !! i = Some r -> region_free s r ->
  (length (chunks_ s) <= fuel)%nat ->
  (forall s', inv s' -> quiet s s' -> timestamped_chunks_ s' = [] -> length (chunks_ s') = length (chunks_ s) ->
     map geometry (regions_ s') = delete i (map geometry (regions_ s)) -> wp t k s' Q) ->
  wp t (h ← get_handle (r_ptr r);
        DeleteChunks_loop fuel h;;
        modify (fun s => set_sub_allocator (sa_Free (sub_allocator_ s) (r_ptr r) (r_memory_size r)) s);;
        modify (fun s => set_total_region_allocated_bytes
                           (u64 (total_region_allocated_bytes_ s - r_memory_size r)) s);;
        modify (fun s => set_regions (RemoveAllocationRegion (regions_ s) i) s);;
        k) s Q.
Proof.
  intros [(L & fl & Hi) Ha] Hts Hr Hfree Hf Hk.
  destruct (Forall2_lookup_l _ _ _ _ _ (m_segs _ _ _ _ _ _ Hi) Hr) as (hs & Hl & _).
  destruct (region_head _ _ _ _ _ _ Hi Hr Hl) as [_ Hg]. wp_step. eapply wp_get_handle; [done|].
  pose proof (mem_inv_dismantle _ _ _ _ _ Hi Hr) as Hid. wp_step.
  eapply wp_mono; [apply (DeleteChunks_loop_spec t L fl s i r hs fuel Hid); try done; etrans; [by eapply live_count|done]|].
  intros _ s1 (fl1 & Hi1 & Hfr1 & Hlen1). wp_steps. destruct (frame_region _ _ _ _ Hfr1 Hr) as (r1 & Hr1 & Eg).
  pose proof (f_ts _ _ Hfr1) as Ets. rewrite Hts in Ets.
  injection Eg as Ep Ez Ee. rewrite <- Ep in Hi1. set (s2 := set_regions _ _).
  assert (s2 = set_regions (RemoveAllocationRegion (regions_ s1) i)
         (set_total_region_allocated_bytes (u64 (total_region_allocated_bytes_ s1 - r_memory_size r1))
            (set_sub_allocator (sa_Free (sub_allocator_ s1) (r_ptr r1) (r_memory_size r1)) s1))) as E2
    by (by rewrite Ep, Ez).
  apply Hk; clearbody s2.
  - split.
    + eexists _, fl1. eapply mem_inv_ext; [..|apply (mem_inv_remove _ fl1 s1 i r1 Hi1 Hr1)]; rewrite ?E2; try done.
      apply list_lookup_insert_eq. by eapply lookup_lt_Some.
    + apply (acct_remove s1 _ i r1); [by eapply acct_frame|apply Hi1|done|done|done].
  - etrans; [by apply frame_quiet|]. rewrite E2. by constructor.
  - by rewrite E2.
  - by rewrite E2.
  - rewrite E2. cbn. unfold RemoveAllocationRegion. rewrite <- (f_geometry _ _ Hfr1). apply list_fmap_delete.
Qed.

(** ** The collection *)

(** The regions of the set contain no block in use. *)
Definition collectable s (ptrs : gset Z) : Prop :=
  forall g, g ∈ map geometry (regions_ s) -> g.1.1 ∈ ptrs ->
    forall b, b ∈ blocks s -> ~ (g.1.1 <= b.1.1.1 < g.2).

Lemma DeallocateRegions_loop_spec t fuel n ptrs it s :
  inv s -> timestamped_chunks_ s = [] -> (length (chunks_ s) <= fuel)%nat ->
  (it + n = length (regions_ s))%nat -> collectable s ptrs ->
  wp t (DeallocateRegions_loop fuel n ptrs it) s (fun _ s' => inv s' /\ quiet s s'
    /\ timestamped_chunks_ s' = []
    /\ map geometry (regions_ s') = take it (map geometry (regions_ s))
         ++ filter (fun g => g.1.1 ∉ ptrs) (drop it (map geometry (regions_ s)))).
Proof.
  revert it s. induction n as [|n IH]; intros it s Hinv Hts Hf Hn Hcol; simpl.
  { wp_steps. split_and!; try done. rewrite drop_ge, take_ge, app_nil_r by (rewrite length_map; lia). done. }
  do 2 wp_step. destruct (lookup_lt_is_Some_2 (regions_ s) it) as [r Hr]; [lia|].
  wp_step. eapply wp_of_option; [done|].
  assert (map geometry (regions_ s) !! it = Some (geometry r)) as Hg by (by rewrite list_lookup_fmap, Hr).
  rewrite (drop_S _ _ _ Hg). case_bool_decide as Hin.
  - eapply release_region; try done.
    { intros b Hb. apply (Hcol (geometry r)); [by eapply list_elem_of_lookup_2|done|done]. }
    intros s1 Hinv1 Hq1 Hts1 Hlen1 Eg1. eapply wp_mono; [apply IH; try done; [lia| |]|].
    + apply (f_equal length) in Eg1. rewrite length_delete, !length_map in Eg1 by (by eexists). lia.
    + intros g Hg1. rewrite (q_blocks _ _ Hq1). apply Hcol. rewrite Eg1 in Hg1.
      eapply sublist_subseteq; [apply sublist_delete|done].
    + cbn beta. intros _ s2 (? & ? & ? & Eg2). split_and!; [done|by etrans|done|].
      rewrite Eg2, Eg1, filter_cons_False by (by intros Hx; apply Hx).
      apply list_elem_of_split_length in Hg as (l1 & l2 & -> & Ei). subst it. rewrite delete_middle.
      rewrite !take_app_length, drop_app_length. cbn.
      by rewrite drop_app_ge, Nat.sub_succ_l, Nat.sub_diag by lia.
  - eapply wp_mono; [apply IH; try done; lia|]. cbn beta. intros _ s2 (? & ? & ? & Eg2). split_and!; try done.
    rewrite Eg2, (take_S_r _ _ _ Hg), filter_cons_True by done. by rewrite <- app_assoc.
Qed.

(** When regions are collected, no block in use is touched; the queue of time-stamped
    chunks has to be empty, its handles are not revised. *)
Lemma DeallocateFreeRegions_spec t rb s :
  inv s -> (garbage_collection_ s = true -> timestamped_chunks_ s = []) ->
  wp t (DeallocateFreeRegions rb) s (fun ok s' => inv s' /\ quiet s s'
    /\ timestamped_chunks_ s' = timestamped_chunks_ s
    /\ (ok = false -> s' = s)
    /\ (ok = true -> forall r, r ∈ regions_ s' -> ~ region_free s' r)).
Proof.
  intros Hinv Hts. unfold DeallocateFreeRegions. do 2 wp_step.
  destruct (garbage_collection_ s); cbn [negb]; [|by wp_steps; split_and!].
  specialize (Hts eq_refl). wp_step. eapply wp_mono; [by apply (FreeRegions_loop_spec t s _ _ ∅ 0)|].
  intros [ptrs tot] s' [-> Hp]. cbn [fst snd] in Hp.
  destruct (tot =? 0); [by wp_steps; split_and!|]. destruct (_ <? rb); [by wp_steps; split_and!|].
  wp_step. unfold DeallocateRegions. do 2 wp_step.
  assert (collectable s ptrs) as Hcol.
  { intros g Hg Hgp b Hb. apply Hp in Hgp as [Hgp|(r & Hr & Ep & Hfree)]; [by apply not_elem_of_empty in Hgp|].
    apply list_elem_of_fmap in Hg as (r' & -> & Hr'). cbn in Ep |- *. assert (r' = r) as ->; [|by apply Hfree].
    destruct Hinv as [(L & fl & Hi) _]. pose proof (m_rm _ _ _ _ _ _ Hi) as Hwf.
    destruct (rm_wf_region _ _ Hwf Hr), (rm_wf_region _ _ Hwf Hr').
    apply (rm_region_unique (regions_ s) _ _ (r_ptr r)); [done..|lia|lia]. }
  eapply wp_mono; [by apply DeallocateRegions_loop_spec|].
  cbn beta. intros _ s1 (Hinv1 & Hq1 & Hts1 & Eg). wp_steps. split_and!; try done; [congruence|].
  intros _ r Hr Hfree. assert (geometry r ∈ map geometry (regions_ s1)) as Hin by (by apply list_elem_of_fmap_2).
  rewrite Eg in Hin. cbn in Hin. rewrite drop_0 in Hin. apply list_elem_of_filter in Hin as [Hnp Hin].
  apply Hnp, Hp. right. apply list_elem_of_fmap in Hin as (r' & Er & Hr'). injection Er as E1 E2 E3.
  exists r'. split_and!; [done|done|]. unfold region_free. rewrite <- E1, <- E3, <- (q_blocks _ _ Hq1). done.
Qed.

End collect.
