(* ===== verification/BfcSystem.v ===== *)
(** * The BFC allocator: the public operations and the reachable states

    [AllocateRawInternal] composed from merging, best fit, growth and collection;
    the reachable states of an allocator under any sequence of calls; the contract of
    the allocator towards its clients. *)

From S2P Require Import Prelude BfcAllocator BfcRegions BfcInvariant BfcChunks BfcCoalesce BfcAlloc BfcGrow BfcMerge BfcCollect.

Section system.
Context {Sub : Type} `{!SubAllocator Sub} `{!SubAllocatorSpec Sub}.
Implicit Types s : BFCAllocator Sub.

(** ** Allocation *)

(** Free memory was reorganised or acquired, the blocks are the same. *)
Record same_blocks s s' : Prop := {
  b_inv : inv s';
  b_config : same_config s s';
  b_blocks : blocks s' = blocks s;
  b_nid : next_allocation_id_ s' = next_allocation_id_ s
}.

(** The block [p] was added to the blocks in use. *)
Definition allocated s s' (rb nb p : Z) : Prop :=
  inv s' /\ same_config s s' /\ next_allocation_id_ s' = next_allocation_id_ s + 1
  /\ exists n, blocks s' ≡ₚ (p, n, nb, next_allocation_id_ s) :: blocks s
     /\ rb <= n < 2 * rb /\ n - rb < kMaxInternalFragmentation.

Definition alloc_result s s' (rb nb p : Z) : Prop :=
  (p = 0 /\ same_blocks s s') \/ (p <> 0 /\ allocated s s' rb nb p).

Lemma same_blocks_refl s : inv s -> same_blocks s s.
Proof. intros. by constructor. Qed.

Lemma same_blocks_quiet s s1 s2 : same_blocks s s1 -> inv s2 -> quiet s1 s2 -> same_blocks s s2.
Proof. intros [] Hi []. constructor; [done|by etrans|congruence..]. Qed.

Lemma same_blocks_extended s s1 s2 rb ok : same_blocks s s1 -> extended s1 s2 rb ok -> same_blocks s s2.
Proof. intros [] []. constructor; [done|by etrans|congruence..]. Qed.

Lemma find_spec t s s1 rb nb fb :
  same_blocks s s1 -> 0 < rb < 2 ^ 64 -> (256 | rb) ->
  wp t (FindChunkPtr (BinNumForSize rb) rb nb fb) s1 (fun p s' =>
    (p <> 0 /\ allocated s s' rb nb p) \/ (p = 0 /\ s' = s1 /\ forall h c, ~ candidate s1 rb fb h c)).
Proof.
  intros [Hi Hk Hb Hn] Hrb Hd. eapply wp_mono; [by apply FindChunkPtr_spec|]. intros p s' [(-> & -> & Hno)|(Hp & h & c & _ & Hpc & Ho & _)].
  - right. by split_and!.
  - left. split; [done|]. destruct Ho as (Hi' & Hk' & Hn' & _ & n & Hbl & Hle & Hfrag1 & Hfrag2).
    split_and!; [done|by etrans|congruence|]. exists n. rewrite Hbl, Hb, Hn, Hpc. split_and!; [done|lia..].
Qed.

(** Extending and searching again finds a chunk unless the extension fails. *)
Lemma extend_find t fuel al s s1 rb nb fb :
  same_blocks s s1 -> 0 < rb < 2 ^ 64 -> (256 | rb) -> (t = true -> extend_terminates fuel s1 rb) ->
  wp t (extended ← Extend fuel al rb;
        if (extended : bool) then FindChunkPtr (BinNumForSize rb) rb nb fb else mret 0) s1 (fun p s' =>
    (p <> 0 /\ allocated s s' rb nb p) \/ (p = 0 /\ extended s1 s' rb false)).
Proof.
  intros Hs Hrb Hd Ht. wp_step. eapply wp_mono; [apply Extend_spec; [apply Hs|done..]|]. intros ok s2 He.
  destruct ok; [|wp_steps; by right].
  eapply wp_mono; [apply (find_spec t s s2); [by eapply same_blocks_extended|done|done]|].
  intros p s' [?|(-> & -> & Hno)]; [by left|]. destruct (e_found _ _ _ _ He eq_refl fb) as (h & c & Hc).
  by destruct (Hno h c).
Qed.

(** Delayed merging and searching again. *)
Lemma merge_find t s s1 rb nb fb :
  same_blocks s s1 -> 0 < rb < 2 ^ 64 -> (256 | rb) ->
  wp t (if (fb =? 0) && negb (bool_decide (timestamped_chunks_ s1 = [])) then
          merged ← MergeTimestampedChunks rb;
          if (merged : bool) then FindChunkPtr (BinNumForSize rb) rb nb fb else mret 0
        else mret 0) s1 (fun p s' =>
    (p <> 0 /\ allocated s s' rb nb p) \/ (p = 0 /\ inv s' /\ quiet s1 s')).
Proof.
  intros Hs Hrb Hd. pose proof (b_inv _ _ Hs) as Hinv. destruct (_ && _) eqn:E; [|wp_steps; by right].
  apply andb_true_iff in E as [_ E]. apply negb_true_iff, bool_decide_eq_false in E.
  assert (timing_counter_ s1 <> None) as Ht.
  { destruct Hinv as [_ Ha]. pose proof (a_counter _ Ha) as Hc. intros En. by rewrite En in Hc. }
  wp_step. eapply wp_mono; [by apply MergeTimestampedChunks_spec|]. intros m s2 [Hi2 Hq2].
  destruct m; [|wp_steps; by right].
  eapply wp_mono; [apply (find_spec t s s2); [by eapply same_blocks_quiet|done|done]|].
  intros p s' [?|(-> & -> & _)]; [by left|by right].
Qed.

(** Garbage collection is not combined with time-stamped deallocation. *)
Definition gc_untimed s : Prop := garbage_collection_ s = true -> timing_counter_ s = None.

Lemma gc_untimed_config s s' : same_config s s' -> gc_untimed s -> gc_untimed s'.
Proof. intros Hk Hg E. apply (k_timing _ _ Hk), Hg. by rewrite <- (k_gc _ _ Hk). Qed.

Lemma gc_untimed_queue s : inv s -> gc_untimed s -> garbage_collection_ s = true -> timestamped_chunks_ s = [].
Proof. intros [_ Ha] Hg E. pose proof (a_counter _ Ha) as Hc. by rewrite (Hg E) in Hc. Qed.

Lemma RoundedBytes_pos n : 0 < n <= 2 ^ 64 - 256 -> 0 < RoundedBytes n < 2 ^ 64 /\ (256 | RoundedBytes n).
Proof.
  intros Hn. destruct (RoundedBytes_spec n ltac:(lia)) as [Hr Hd]. split; [|done]. split; [lia|].
  destruct Hd as [k Hk]. lia.
Qed.

Lemma AllocateRawInternal_spec t fuel al nb fb s :
  inv s -> gc_untimed s -> 0 < nb <= 2 ^ 64 - 256 ->
  (t = true -> extend_terminates fuel s (RoundedBytes nb)) ->
  wp t (AllocateRawInternal fuel al nb fb) s (fun p s' => alloc_result s s' (RoundedBytes nb) nb p).
Proof.
  intros Hinv Hgc Hnb Ht. destruct (RoundedBytes_pos nb Hnb) as [Hrb Hd].
  unfold AllocateRawInternal. destruct (Z.eqb_spec nb 0); [lia|]. cbv zeta. set (rb := RoundedBytes nb) in *.
  do 2 wp_step. wp_step.
  apply (wp_mono _ _ _ (fun _ s1 => inv s1 /\ quiet s s1)).
  { destruct (timestamped_chunks_ s) eqn:E; [by wp_steps|]. wp_step.
    eapply wp_mono; [apply MergeTimestampedChunks_spec; [done|]|by intros; wp_steps].
    destruct Hinv as [_ Ha]. pose proof (a_counter _ Ha) as Hc. intros En. rewrite En, E in Hc. done. }
  intros _ s1 [Hi1 Hq1]. assert (same_blocks s s1) as Hs1 by (by eapply same_blocks_quiet; [apply same_blocks_refl|..]).
  wp_step. eapply wp_mono; [by apply (find_spec t s s1)|].
  intros p s2 [[Hp Hal]|(-> & -> & _)].
  { destruct (Z.eqb_spec p 0); [done|]. cbn [negb]. wp_steps. by right. }
  cbn [negb Z.eqb].
  assert (t = true -> extend_terminates fuel s1 rb) as Ht1.
  { intros E. destruct (Ht E) as (? & ? & ?). unfold extend_terminates. by rewrite (q_curr _ _ Hq1), (q_back _ _ Hq1). }
  apply wp_assoc. eapply wp_mono; [by apply (extend_find t fuel al s s1)|].
  intros p s2 [[Hp Hal]|[-> He2]].
  { destruct (Z.eqb_spec p 0); [done|]. cbn [negb]. wp_steps. by right. }
  pose proof (same_blocks_extended _ _ _ _ _ Hs1 He2) as Hs2. cbn [negb Z.eqb].
  do 2 wp_step. wp_step. eapply wp_mono; [by apply (merge_find t s s2)|].
  intros p s3 [[Hp Hal]|(-> & Hi3 & Hq3)].
  { destruct (Z.eqb_spec p 0); [done|]. cbn [negb]. wp_steps. by right. }
  pose proof (same_blocks_quiet _ _ _ Hs2 Hi3 Hq3) as Hs3. cbn [negb Z.eqb].
  wp_step. eapply wp_mono; [apply DeallocateFreeRegions_spec; [done|]|].
  { apply gc_untimed_queue; [done|]. by eapply gc_untimed_config; [apply Hs3|]. }
  intros ok s4 (Hi4 & Hq4 & _). pose proof (same_blocks_quiet _ _ _ Hs3 Hi4 Hq4) as Hs4.
  destruct ok; [|wp_steps; by left].
  eapply wp_mono; [apply (extend_find t fuel al s s4); [done..|]|].
  - intros E. destruct (Ht1 E) as (? & Hcur & Hbk). split; [done|].
    rewrite (q_curr _ _ Hq4), (q_curr _ _ Hq3), (q_back _ _ Hq4), (q_back _ _ Hq3).
    split; [by apply (e_curr _ _ _ _ He2)|]. destruct Hbk; [by left|right]. by apply (e_back _ _ _ _ He2).
  - cbn beta. intros p s5 [?|[-> He5]]; [by right|left]. split; [done|]. by eapply same_blocks_extended.
Qed.

(** ** Reachable states *)

Inductive event : Type :=
| EvAlloc (num_bytes p : Z)
| EvFree (p : Z)
| EvSafeFrontier (count : Z)
| EvClearStats
| EvTick (v : Z).

(** One call of the public interface.  A client frees only [nullptr] or an address it was
    given and has not freed, and does not ask for more than 2^64 - 256 bytes. *)
Inductive step : event -> BFCAllocator Sub -> BFCAllocator Sub -> Prop :=
| step_alloc fuel alignment num_bytes freed_before p s s' :
    0 <= num_bytes <= 2 ^ 64 - 256 ->
    AllocateRawInternal fuel alignment num_bytes freed_before s = Val (p, s') ->
    step (EvAlloc num_bytes p) s s'
| step_free p s s' :
    (p = 0 \/ exists n rq id, (p, n, rq, id) ∈ blocks s) ->
    DeallocateRawInternal p s = Val (tt, s') ->
    step (EvFree p) s s'
| step_frontier count s s' :
    SetSafeFrontier count s = Val (tt, s') -> step (EvSafeFrontier count) s s'
| step_clear s s' :
    ClearStats s = Val (tt, s') -> step EvClearStats s s'
(** Another user of the [SharedCounter] advances it. *)
| step_tick v v' s :
    timing_counter_ s = Some v -> v <= v' -> step (EvTick v') s (set_timing_counter (Some v') s).

(** A freshly constructed allocator of less than 2^63 bytes, with its time counter installed or
    not; an allocator that collects garbage has none. *)
Definition initial (total_memory : Z) s : Prop :=
  exists sub allow_growth gc counter,
    SetTimingCounter counter (BFCAllocator_init sub total_memory allow_growth gc) = Val (tt, s)
    /\ 0 <= total_memory < 2 ^ 63 /\ (gc = true -> counter = None)
    /\ match counter with Some v => 0 <= v | None => True end.

Inductive reachable (total_memory : Z) : list event -> BFCAllocator Sub -> Prop :=
| reach_init s : initial total_memory s -> reachable total_memory [] s
| reach_step evs e s s' : reachable total_memory evs s -> step e s s' -> reachable total_memory (evs ++ [e]) s'.

Lemma RoundedBytes_range n : 0 <= n < 2 ^ 63 -> 0 <= RoundedBytes n < 2 ^ 64 /\ (256 | RoundedBytes n).
Proof. intros Hn. destruct (RoundedBytes_spec n) as [? ?]; [lia|]. split; [lia|done]. Qed.

Lemma initial_inv total s : initial total s -> inv s /\ gc_untimed s /\ blocks s = [].
Proof.
  intros (sub & ag & gc & tc & [= <-] & Htot & Hgc & Htc). split_and!; [|done|done]. split.
  - exists [], []. constructor; cbn; try done; try (by intros ? ?%not_elem_of_nil).
    + split; constructor.
    + intros p (r & Hr & _). by apply not_elem_of_nil in Hr.
    + intros b l Hl. apply (lookup_replicate kNumBins (@nil nat)) in Hl as [-> _]. split; [constructor|]. intros h.
      split; [by intros ?%not_elem_of_nil|]. by intros (?%not_elem_of_nil & _).
  - constructor; cbn; try done; try lia.
    + destruct ag; apply RoundedBytes_range; lia.
    + intros r Hr. by apply not_elem_of_nil in Hr.
    + by destruct tc.
Qed.

(** What a step does to the blocks. *)
Lemma step_inv e s s' :
  step e s s' -> inv s -> gc_untimed s ->
  inv s' /\ gc_untimed s' /\ memory_limit_ s' = memory_limit_ s
  /\ match e with
     | EvAlloc nb p =>
         (p = 0 /\ blocks s' = blocks s /\ next_allocation_id_ s' = next_allocation_id_ s)
         \/ (p <> 0 /\ 0 < nb /\ allocated s s' (RoundedBytes nb) nb p)
     | EvFree p => next_allocation_id_ s' = next_allocation_id_ s
         /\ (p = 0 /\ blocks s' = blocks s \/ exists n rq id, blocks s ≡ₚ (p, n, rq, id) :: blocks s')
     | _ => blocks s' = blocks s /\ next_allocation_id_ s' = next_allocation_id_ s
     end.
Proof.
  intros Hst Hinv Hgc. destruct Hst as [fuel al nb fb p s s' Hnb E|p s s' Hp E|count s s' [= <-]|s s' [= <-]|v v' s Ev Hv].
  - destruct (decide (nb = 0)) as [->|Hne]; [injection E as <- <-; split_and!; try done; left; done|].
    pose proof (wp_run _ _ _ _ _ _ (AllocateRawInternal_spec false fuel al nb fb s Hinv Hgc ltac:(lia) ltac:(done)) E)
      as [(-> & Hs)|(Hp & Hal)].
    + split_and!; [apply Hs|by eapply gc_untimed_config; [apply Hs|]|apply Hs|]. left. destruct Hs. done.
    + pose proof Hal as (Hi' & Hk & _). split_and!; [done|by eapply gc_untimed_config|apply Hk|]. right. split_and!; [done|lia|done].
  - destruct (decide (p = 0)) as [->|Hne].
    { injection E as <-. split_and!; try done. by left. }
    destruct Hp as [?|(n & rq & id & Hb)]; [done|].
    pose proof (wp_run _ _ _ _ _ _ (DeallocateRawInternal_spec false s p n rq id Hinv Hb) E) as (Hi' & Hk & Hn & Hbl).
    split_and!; [done|by eapply gc_untimed_config|apply Hk|done|]. right. eauto.
  - destruct Hinv as [(L & fl & Hi) Ha]. destruct (Z.ltb_spec (safe_frontier_ s) count) as [Hlt|]; [|by split_and!; [split; eauto|..]].
    split_and!; try done. split; [exists L, fl; by eapply mem_inv_ext; [..|exact Hi]|].
    pose proof (a_frontier _ Ha). constructor; try (apply Ha). cbn. lia.
  - destruct Hinv as [(L & fl & Hi) Ha]. split_and!; try done.
    split; [exists L, fl; by eapply mem_inv_ext; [..|exact Hi]|]. constructor; apply Ha.
  - destruct Hinv as [(L & fl & Hi) Ha]. split_and!; try done.
    + split; [exists L, fl; by eapply mem_inv_ext; [..|exact Hi]|]. constructor; try (apply Ha).
      pose proof (a_counter _ Ha) as Hc. rewrite Ev in Hc. cbn. lia.
    + intros E. specialize (Hgc E). congruence.
Qed.

Lemma reachable_inv total evs s :
  reachable total evs s -> inv s /\ gc_untimed s /\ memory_limit_ s = total.
Proof.
  induction 1 as [s Hs|evs e s s' _ (Hi & Hg & Hl) Hst].
  - destruct (initial_inv _ _ Hs) as (? & ? & _). split_and!; [done|done|]. by destruct Hs as (? & ? & ? & ? & [= <-] & _).
  - destruct (step_inv _ _ _ Hst Hi Hg) as (? & ? & ? & _). split_and!; [done|done|congruence].
Qed.

End system.
