(* ===== verification/BfcContract.v ===== *)
(** * The BFC allocator: its contract

    An abstract heap of disjoint blocks with fresh identifiers, the theorem that the
    allocator implements it, and the properties of reachable states: memory safety,
    accounting, limits, termination. *)

From S2P Require Import Prelude BfcAllocator BfcRegions BfcInvariant BfcChunks BfcCoalesce BfcAlloc BfcGrow BfcMerge BfcCollect BfcSystem.

(** ** The abstract heap *)

Record heap := mkHeap {
  h_blocks : list (Z * Z * Z * Z);
  h_next : Z
}.

Definition disjoint_blocks (b b' : Z * Z * Z * Z) : Prop :=
  b.1.1.1 + b.1.1.2 <= b'.1.1.1 \/ b'.1.1.1 + b'.1.1.2 <= b.1.1.1.

(** The steps a client may rely on: a new block is disjoint from all blocks in use, large
    enough, not wasteful, and carries a new identifier. *)
Inductive heap_step : event -> heap -> heap -> Prop :=
| heap_alloc num_bytes p n h h' :
    0 < p -> 0 < num_bytes <= n -> n < 2 * (num_bytes + 256) ->
    n < num_bytes + 256 + kMaxInternalFragmentation ->
    (forall b, b ∈ h_blocks h -> disjoint_blocks (p, n, num_bytes, h_next h) b) ->
    h_blocks h' ≡ₚ (p, n, num_bytes, h_next h) :: h_blocks h -> h_next h' = h_next h + 1 ->
    heap_step (EvAlloc num_bytes p) h h'
| heap_alloc_null num_bytes h : heap_step (EvAlloc num_bytes 0) h h
| heap_free p n rq id h h' :
    h_blocks h ≡ₚ (p, n, rq, id) :: h_blocks h' -> h_next h' = h_next h ->
    heap_step (EvFree p) h h'
| heap_free_null h : heap_step (EvFree 0) h h
| heap_frontier count h : heap_step (EvSafeFrontier count) h h
| heap_clear h : heap_step EvClearStats h h
| heap_tick v h : heap_step (EvTick v) h h.

Inductive heap_run : list event -> heap -> Prop :=
| run_nil : heap_run [] (mkHeap [] 1)
| run_snoc evs e h h' : heap_run evs h -> heap_step e h h' -> heap_run (evs ++ [e]) h'.

Section contract.
Context {Sub : Type} `{!SubAllocator Sub} `{!SubAllocatorSpec Sub}.
Implicit Types s : BFCAllocator Sub.

Definition abs s : heap := mkHeap (blocks s) (next_allocation_id_ s).

(** ** The blocks of a state *)

Lemma NoDup_used_ids cs :
  (forall h1 h2 c1 c2, cs !! h1 = Some c1 -> cs !! h2 = Some c2 -> in_use c1 = true ->
     c_allocation_id c1 = c_allocation_id c2 -> h1 = h2) ->
  NoDup (map c_allocation_id (List.filter in_use cs)).
Proof.
  induction cs as [|c cs IH]; intros Hinj; simpl; [constructor|].
  assert (NoDup (map c_allocation_id (List.filter in_use cs))) as Hnd.
  { apply IH. intros h1 h2 c1 c2 H1 H2 Hu E. specialize (Hinj (S h1) (S h2) c1 c2 H1 H2 Hu E). lia. }
  destruct (in_use c) eqn:Hu; simpl; [|done]. constructor; [|done].
  intros Hin. apply list_elem_of_fmap in Hin as (c' & E & Hc').
  apply list_elem_of_In, filter_In in Hc' as [Hc' _]. apply list_elem_of_In, list_elem_of_lookup_1 in Hc' as [h Hh].
  by specialize (Hinj O (S h) c c' eq_refl Hh Hu E).
Qed.

Lemma blocks_ids_NoDup s : inv s -> NoDup (map (fun b => b.2) (blocks s)).
Proof.
  intros [(L & fl & Hi) _]. unfold blocks, used_blocks. rewrite map_map.
  apply NoDup_used_ids, (m_ids _ _ _ _ _ _ Hi).
Qed.

Lemma blocks_elem s b :
  b ∈ blocks s <-> exists h c, chunks_ s !! h = Some c /\ in_use c = true /\ b = block_of c.
Proof.
  unfold blocks, used_blocks. rewrite list_elem_of_fmap. split.
  - intros (c & -> & Hc). apply list_elem_of_In, filter_In in Hc as [Hc Hu].
    apply list_elem_of_In, list_elem_of_lookup_1 in Hc as [h Hh]. eauto.
  - intros (h & c & Hc & Hu & ->). exists c. split; [done|]. apply list_elem_of_In, filter_In. split; [|done].
    apply list_elem_of_In. by eapply list_elem_of_lookup_2.
Qed.

(** A block lies in one region, at a multiple of 256 from its start. *)
Lemma block_bounds s p n rq id :
  inv s -> (p, n, rq, id) ∈ blocks s ->
  0 < p /\ 0 < n /\ (256 | n)
  /\ exists r, r ∈ regions_ s /\ r_ptr r <= p /\ p + n <= r_end_ptr r /\ (256 | p - r_ptr r).
Proof.
  intros [(L & fl & Hi) _] (h & c & Hc & Hu & E)%blocks_elem. injection E as -> -> -> ->.
  pose proof (used_live _ _ _ _ _ _ Hi h c Hc Hu) as Hh.
  destruct (live_bounds _ _ _ _ _ _ Hi h c Hh Hc) as (? & ? & _ & ? & _).
  destruct (live_position _ _ _ _ _ _ h c Hi Hh Hc) as (i & r & _ & _ & Hr & _ & _ & ? & ? & ? & _).
  split_and!; try done. exists r. split_and!; try done. by eapply list_elem_of_lookup_2.
Qed.

Lemma blocks_disjoint s b b' :
  inv s -> b ∈ blocks s -> b' ∈ blocks s -> b <> b' -> disjoint_blocks b b'.
Proof.
  intros [(L & fl & Hi) _] (h & c & Hc & Hu & ->)%blocks_elem (h' & c' & Hc' & Hu' & ->)%blocks_elem Hne.
  apply (live_disjoint _ _ _ _ _ _ Hi h h'); try done; [by eapply used_live..|]. intros ->. congruence.
Qed.

Lemma blocks_fresh s s' p n rq id :
  inv s' -> blocks s' ≡ₚ (p, n, rq, id) :: blocks s ->
  0 < p /\ forall b, b ∈ blocks s -> disjoint_blocks (p, n, rq, id) b.
Proof.
  intros Hinv Hb. assert ((p, n, rq, id) ∈ blocks s') as Hin by (rewrite Hb; left). split.
  - destruct Hinv as [(L & fl & Hi) _]. apply blocks_elem in Hin as (h & c & Hc & Hu & E). injection E as -> _ _ _.
    by apply (live_bounds _ _ _ _ _ _ Hi h c (used_live _ _ _ _ _ _ Hi h c Hc Hu) Hc).
  - intros b Hbs. apply (blocks_disjoint s'); [done|done|rewrite Hb; by right|]. intros <-.
    pose proof (blocks_ids_NoDup _ Hinv) as Hnd. rewrite Hb in Hnd. cbn in Hnd. apply NoDup_cons in Hnd as [Hnd _].
    apply Hnd. apply list_elem_of_fmap. by exists (p, n, rq, id).
Qed.

(** ** Refinement *)

Lemma step_abs e s s' : step e s s' -> inv s -> gc_untimed s -> heap_step e (abs s) (abs s').
Proof.
  intros Hst Hinv Hgc. pose proof (step_inv _ _ _ Hst Hinv Hgc) as (Hi' & _ & _ & He).
  assert (forall x y, blocks x = blocks y -> next_allocation_id_ x = next_allocation_id_ y -> abs x = abs y) as Habs.
  { intros x y E1 E2. unfold abs. by rewrite E1, E2. }
  destruct Hst as [fuel al nb fb p s s' Hnb _|p s s' _ _|count s s' _|s s' _|v v' s _ _].
  - destruct He as [(-> & E1 & E2)|(Hp & Hpos & _ & _ & Hn & n & Hb & Hle & Hfr)].
    { rewrite (Habs s' s) by done. constructor. }
    destruct (blocks_fresh _ _ _ _ _ _ Hi' Hb) as [Hp0 Hd]. destruct (RoundedBytes_spec nb ltac:(lia)) as [Hr _].
    apply (heap_alloc nb p n); cbn; try done; lia.
  - destruct He as [Hn [(-> & E1)|(n & rq & id & Hb)]].
    + rewrite (Habs s' s) by done. constructor.
    + by apply (heap_free p n rq id).
  - destruct He. rewrite (Habs s' s) by done. constructor.
  - destruct He. rewrite (Habs s' s) by done. constructor.
  - exact (heap_tick v' (abs s)).
Qed.

Lemma reachable_heap_run total evs s : reachable total evs s -> heap_run evs (abs s).
Proof.
  induction 1 as [s Hs|evs e s s' Hr IH Hst].
  - destruct (initial_inv _ _ Hs) as (_ & _ & Hb). destruct Hs as (? & ? & ? & ? & [= <-] & _). constructor.
  - destruct (reachable_inv _ _ _ Hr) as (Hi & Hg & _). econstructor; [done|]. by apply step_abs.
Qed.

(** ** Accounting *)

Definition used_size (c : Chunk) : Z := if in_use c then c_size c else 0.
Definition chunk_sum (f : Chunk -> Z) (cs : list Chunk) (hs : list nat) : Z :=
  zsum (map (fun h => default 0 (f <$> cs !! h)) hs).

Lemma used_blocks_sum cs : zsum (map (fun b => b.1.1.2) (used_blocks cs)) = zsum (map used_size cs).
Proof.
  induction cs as [|c cs IH]; [done|]. rewrite used_blocks_cons, map_app, zsum_app, IH.
  change (zsum (map used_size (c :: cs))) with (used_size c + zsum (map used_size cs)).
  f_equal. unfold used_size. destruct (in_use c); cbn; lia.
Qed.

Lemma chunk_sum_seq f cs : chunk_sum f cs (seq 0 (length cs)) = zsum (map f cs).
Proof.
  unfold chunk_sum. f_equal. apply list_eq. intros i. change (map ?g ?l) with (g <$> l). rewrite !list_lookup_fmap.
  destruct (decide (i < length cs)%nat) as [Hl|Hl].
  - rewrite lookup_seq_lt by done. cbn. by destruct (lookup_lt_is_Some_2 cs i Hl) as [c ->].
  - rewrite lookup_seq_ge, (lookup_ge_None_2 cs) by lia. done.
Qed.

Lemma chunk_sum_app f cs l1 l2 : chunk_sum f cs (l1 ++ l2) = chunk_sum f cs l1 + chunk_sum f cs l2.
Proof. unfold chunk_sum. by rewrite map_app, zsum_app. Qed.

Lemma seg_sum cs p a hs e q : seg cs p a hs e q -> chunk_sum used_size cs hs <= e - a.
Proof.
  revert p a. induction hs as [|h hs IH]; intros p a; [simpl; intros ->; unfold chunk_sum, zsum; cbn; lia|].
  intros (c & Hc & _ & Hs & _ & _ & _ & Ht). apply IH in Ht. change (h :: hs) with ([h] ++ hs).
  rewrite chunk_sum_app. assert (chunk_sum used_size cs [h] <= c_size c) as Hh; [|lia].
  unfold chunk_sum. cbn. rewrite Hc. cbn. unfold used_size. destruct (in_use c); lia.
Qed.

Lemma regions_sum cs rs L :
  Forall2 (region_seg cs None) rs L -> Forall region_wf rs ->
  chunk_sum used_size cs (concat L) <= zsum (map r_memory_size rs).
Proof.
  induction 1 as [|r hs rs L Hs _ IH]; intros Hwf; [done|]. apply Forall_cons in Hwf as [Hr Hwf].
  cbn [concat map]. rewrite chunk_sum_app. specialize (IH Hwf). destruct Hs as [_ Hs]. apply seg_sum in Hs.
  destruct Hr. change (zsum (?x :: ?l)) with (x + zsum l). lia.
Qed.

Lemma blocks_sum_le s :
  inv s -> zsum (map (fun b => b.1.1.2) (blocks s)) <= total_region_allocated_bytes_ s.
Proof.
  intros [(L & fl & Hi) Ha]. unfold blocks. rewrite used_blocks_sum, <- chunk_sum_seq.
  assert (chunk_sum used_size (chunks_ s) (seq 0 (length (chunks_ s)))
          = chunk_sum used_size (chunks_ s) (concat L ++ fl)) as ->.
  { unfold chunk_sum. by rewrite <- (m_perm _ _ _ _ _ _ Hi). }
  rewrite chunk_sum_app. assert (chunk_sum used_size (chunks_ s) fl = 0) as ->.
  { assert (forall h, h ∈ fl -> default 0 (used_size <$> chunks_ s !! h) = 0) as Hz.
    { intros h Hh. destruct (chunks_ s !! h) as [c|] eqn:Hc; [|done]. cbn. unfold used_size.
      by destruct (m_dead _ _ _ _ _ _ Hi h c Hh Hc) as [-> _]. }
    clear -Hz. unfold chunk_sum. induction fl as [|h fl IH]; [done|]. cbn. rewrite (Hz h) by left.
    fold (zsum (map (fun h => default 0 (used_size <$> chunks_ s !! h)) fl)). rewrite IH; [done|].
    intros x Hx. apply Hz. by right. }
  rewrite (a_total _ Ha), Z.add_0_r. apply regions_sum; [apply (m_segs _ _ _ _ _ _ Hi)|apply (m_rm _ _ _ _ _ _ Hi)].
Qed.

(** The queries on a block in use. *)
Lemma chunk_of_ptr_spec t s p n rq id :
  inv s -> (p, n, rq, id) ∈ blocks s ->
  wp t (chunk_of_ptr p) s (fun c s' => s' = s /\ block_of c = (p, n, rq, id)).
Proof.
  intros [(L & fl & Hi) _] Hb. destruct (block_chunk _ _ _ _ _ _ _ Hi Hb) as (h & c & _ & Hc & _ & Eb & Hg).
  unfold chunk_of_ptr. wp_step. eapply wp_get_handle; [done|]. wp_step. eapply wp_of_option; [done|].
  by eapply wp_ChunkFromHandle.
Qed.

(** Every block has at least the requested size. *)
Lemma reachable_sizes total evs s :
  reachable total evs s -> Forall (fun b => 0 < b.1.2 <= b.1.1.2) (blocks s).
Proof.
  induction 1 as [s Hs|evs e s s' Hr IH Hst].
  - by destruct (initial_inv _ _ Hs) as (_ & _ & ->).
  - destruct (reachable_inv _ _ _ Hr) as (Hi & Hg & _). pose proof (step_abs _ _ _ Hst Hi Hg) as Ha.
    change (Forall (fun b => 0 < b.1.2 <= b.1.1.2) (h_blocks (abs s'))).
    change (Forall (fun b => 0 < b.1.2 <= b.1.1.2) (h_blocks (abs s))) in IH.
    destruct Ha as [nb p n h h' ? ? ? ? ? Hp ?|? ?|p n rq id h h' Hp ?|?|?|?|?]; try done.
    + rewrite Hp. constructor; [cbn; lia|done].
    + rewrite Hp in IH. by apply Forall_cons in IH as [_ IH].
Qed.

End contract.
