(* ===== verification/BfcTheorems.v ===== *)
(** * The BFC allocator: the theorems

    What the allocator guarantees in every reachable state, and what it does not
    guarantee at the limits: requests that overflow the rounding, requests that make
    backpedalling loop, garbage collection combined with time stamps.  The witnesses run
    the model over [arena], a sub-allocator that never reuses addresses. *)

From S2P Require Import Prelude BfcAllocator BfcRegions BfcInvariant BfcChunks BfcCoalesce BfcAlloc BfcGrow BfcMerge BfcCollect BfcSystem BfcContract.

(** ** A concrete sub-allocator *)

(** [ar_cap] bytes in blocks above [ar_next]. *)
Record arena := mkArena { ar_next : Z; ar_cap : Z; ar_blocks : list (Z * Z) }.

Definition arena_top (a : arena) : Z :=
  foldr (fun b m => Z.max (b.1 + b.2) m) (Z.max 4096 (ar_next a)) (ar_blocks a).

#[export] Instance arena_SubAllocator : SubAllocator arena := {
  sa_Alloc a _ n :=
    let p := arena_top a in
    if (zsum (map snd (ar_blocks a)) + n <=? ar_cap a) && (p + n <? 2 ^ 64)
    then (p, mkArena (p + n) (ar_cap a) ((p, n) :: ar_blocks a)) else (0, a);
  sa_Free a p n := mkArena (ar_next a) (ar_cap a) (filter (fun b => b <> (p, n)) (ar_blocks a))
}.

Lemma arena_top_ge a b : b ∈ ar_blocks a -> b.1 + b.2 <= arena_top a.
Proof.
  unfold arena_top. induction (ar_blocks a) as [|x l IH]; [by intros ?%not_elem_of_nil|].
  intros [->|Hb]%elem_of_cons; cbn; [lia|]. specialize (IH Hb). lia.
Qed.

Lemma arena_top_pos a : 4096 <= arena_top a.
Proof. unfold arena_top. induction (ar_blocks a); cbn; lia. Qed.

#[export] Instance arena_spec : SubAllocatorSpec arena.
Proof.
  refine {| sa_blocks := ar_blocks |}.
  - intros a al n p a' Hn E Hp. cbn in E. destruct (_ && _) eqn:Hc; [|by injection E as <- _].
    apply andb_true_iff in Hc as [_ Hc%Z.ltb_lt]. injection E as <- <-. pose proof (arena_top_pos a).
    split_and!; [lia|done| |left|by right]. intros q m Hq. right. by apply (arena_top_ge a (q, m)).
  - intros a al n a' E b Hb. cbn in E. destruct (_ && _); [injection E as ? <-; by right|by injection E as <-].
  - intros a p n b Hb Hne. cbn. by apply list_elem_of_filter.
Defined.

(** ** Backpedalling on a request that can never be met *)

Lemma f32_round_lower m : 0 < m -> m * (2 ^ 24 - 1) <= f32_round m * 2 ^ 24.
Proof.
  intros Hm. unfold f32_round. set (e := Z.log2 m - 23). destruct (Z.leb_spec e 0) as [|He]; [lia|].
  pose proof (Z.log2_spec m Hm) as [Hlo _].
  assert (2 ^ Z.log2 m = 2 ^ 24 * 2 ^ (e - 1)) as E1
    by (rewrite <- Z.pow_add_r by lia; f_equal; unfold e; lia).
  assert (2 ^ e = 2 * 2 ^ (e - 1)) as E2
    by (replace e with (1 + (e - 1)) at 1 by lia; rewrite Z.pow_add_r by lia; done).
  assert (0 < 2 ^ (e - 1)) as Hp by (apply Z.pow_pos_nonneg; lia).
  pose proof (Z.div_mod m (2 ^ e) ltac:(lia)) as Hdm.
  pose proof (Z.mod_pos_bound m (2 ^ e) ltac:(lia)).
  destruct (_ || _) eqn:E; [nia|].
  assert (m mod 2 ^ e <= 2 ^ (e - 1)) as Hh; [|nia].
  apply orb_false_iff in E as [E _]. apply Z.ltb_ge in E. lia.
Qed.

Lemma backpedal_lower b : 2560 <= b < 2 ^ 64 -> (256 | b) -> 2304 <= backpedal b.
Proof.
  intros Hb Hd. pose proof (f32_round_lower b ltac:(lia)) as Hx. unfold backpedal. set (x := f32_round b) in *.
  pose proof (f32_round_lower (x * kBackpedalFactor_mantissa)) as Hz. unfold kBackpedalFactor_mantissa in *.
  set (z := f32_round (x * 15099494)) in *. destruct (backpedal_raw b ltac:(lia)) as [_ Hle].
  fold x in Hle. unfold kBackpedalFactor_mantissa in Hle. fold z in Hle.
  change (2 ^ 24) with 16777216 in *. specialize (Hz ltac:(lia)).
  pose proof (Z.div_mod z 16777216 ltac:(lia)). pose proof (Z.mod_pos_bound z 16777216 ltac:(lia)).
  set (v := z / 16777216) in *. destruct (RoundedBytes_spec v) as [Hr [k Hk]].
  { destruct Hd as [j Hj]. lia. }
  lia.
Qed.

Section diverge.
Context {Sub : Type} `{!SubAllocator Sub}.
Context (sub_fails : forall (sub : Sub) al n, (sa_Alloc sub al n).1 = 0).

Lemma SubAlloc_run al n (s : BFCAllocator Sub) :
  SubAlloc al n s = Val ((sa_Alloc (sub_allocator_ s) al n).1,
                         set_sub_allocator (sa_Alloc (sub_allocator_ s) al n).2 s).
Proof. unfold SubAlloc, mbind, M_bind, get. cbn. by destruct (sa_Alloc _ _ _). Qed.

Lemma Backpedal_loop_diverges fuel al rb b (s : BFCAllocator Sub) :
  0 < rb <= 2304 -> rb <= b < 2 ^ 64 -> (256 | b) -> Backpedal_loop fuel al rb b s = NoFuel.
Proof using sub_fails.
  intros Hrb. revert b s. induction fuel as [|f IH]; intros b s Hb Hd; [done|]. simpl.
  assert (rb <= backpedal b) as Hge.
  { destruct (Z.lt_ge_cases b 2560); [rewrite backpedal_stuck by (done || lia); lia|].
    pose proof (backpedal_lower b ltac:(lia) Hd). lia. }
  destruct (backpedal_spec b ltac:(lia) Hd) as [Hle Hd'].
  destruct (Z.ltb_spec (backpedal b) rb); [lia|]. unfold mbind, M_bind. rewrite SubAlloc_run, sub_fails. cbn.
  apply IH; [lia|done].
Qed.

End diverge.

(** ** A region size that has wrapped to 0 *)

Lemma GrowRegion_loop_zero fuel rb inc : 0 < rb -> GrowRegion_loop fuel rb 0 inc = NoFuel.
Proof.
  intros Hrb. revert inc. induction fuel as [|f IH]; intros inc; cbn [GrowRegion_loop]; rewrite (proj2 (Z.ltb_lt 0 rb)) by done; [done|]. apply IH.
Qed.

Lemma Extend_zero {Sub} `{!SubAllocator Sub} `{!SubAllocatorSpec Sub} fuel al rb (s : BFCAllocator Sub) :
  inv s -> 0 < rb -> (256 | rb) -> curr_region_allocation_bytes_ s = 0 ->
  rb <= memory_limit_ s - total_region_allocated_bytes_ s -> Extend fuel al rb s = NoFuel.
Proof.
  intros [(L & fl & Hi) Ha] Hrb [k Hk] H0 Hav. pose proof (m_rm _ _ _ _ _ _ Hi) as Hwf. pose proof (total_nonneg s Ha Hwf). destruct (a_limit _ Ha).
  unfold Extend. rewrite run_get. cbv zeta. rewrite kMin_256, u64_small by lia. set (d := memory_limit_ s - _) in *.
  pose proof (Z.div_mod d 256 ltac:(lia)). pose proof (Z.mod_pos_bound d 256 ltac:(lia)).
  rewrite (proj2 (Z.ltb_ge _ _)) by lia. unfold mbind, M_bind. by rewrite H0, GrowRegion_loop_zero.
Qed.

(** ** Theorems on reachable states *)

Section theorems.
Context {Sub : Type} `{!SubAllocator Sub} `{!SubAllocatorSpec Sub}.
Implicit Types s : BFCAllocator Sub.

(** C1: refinement.  Every history of calls of the allocator is a history of the abstract
    heap: each successful allocation yields a block disjoint from all blocks in use, at
    least as large as requested, with bounded waste and a new identifier; each
    deallocation removes exactly the block that was freed.  The histories have a memory limit
    below 2^63, requests of at most 2^64 - 256 bytes and frees of blocks in use only, and do not
    combine garbage collection with a timing counter. *)
Theorem bfc_refines_heap total evs s : reachable total evs s -> heap_run evs (abs s).
Proof. apply reachable_heap_run. Qed.

(** C2: after every history with a memory limit below 2^63, requests of at most 2^64 - 256 bytes
    and frees of blocks in use only, on an allocator that does not combine garbage collection
    with a timing counter, no further allocation of at most 2^64 - 256 bytes and no free of a
    block in use fails a [CHECK] or accesses a container out of range, and the queries on a block
    return its own data.  The restrictions are needed: with garbage collection and a timing
    counter a [CHECK] can fail ([bfc_gc_timestamps_crash]), and larger requests are rounded to
    0 bytes ([bfc_request_overflow]). *)
Theorem bfc_no_crash total evs s :
  reachable total evs s ->
  (forall fuel al nb fb, 0 <= nb <= 2 ^ 64 - 256 -> AllocateRawInternal fuel al nb fb s <> Crash)
  /\ (forall p n rq id, (p, n, rq, id) ∈ blocks s ->
        DeallocateRawInternal p s <> Crash
        /\ RequestedSize p s = Val (rq, s) /\ AllocatedSize p s = Val (n, s) /\ AllocationId p s = Val (id, s)).
Proof.
  intros Hr. destruct (reachable_inv _ _ _ Hr) as (Hi & Hg & _). split.
  - intros fuel al nb fb Hnb. destruct (decide (nb = 0)) as [->|Hne]; [by cbn|].
    by apply (wp_no_crash _ _ _ _ (AllocateRawInternal_spec false fuel al nb fb s Hi Hg ltac:(lia) ltac:(done))).
  - intros p n rq id Hb. split; [by apply (wp_no_crash _ _ _ _ (DeallocateRawInternal_spec false s p n rq id Hi Hb))|].
    destruct (wp_total _ _ _ (chunk_of_ptr_spec true s p n rq id Hi Hb)) as (c & s' & E & -> & Eb).
    assert (p <> 0) as Hp by (destruct (block_bounds s p n rq id Hi Hb); lia).
    injection Eb as <- <- <- <-. unfold RequestedSize, AllocatedSize, AllocationId, mbind, M_bind.
    apply Z.eqb_neq in Hp. rewrite Hp. cbn. by rewrite E.
Qed.

(** C3: in every reachable state the blocks in use are pairwise disjoint, each lies inside a
    region that the sub-allocator has handed out, at a 256-byte offset, and is at least
    as large as its request; no two share an identifier.  The states are those of the histories
    with a memory limit below 2^63, requests of at most 2^64 - 256 bytes, frees of blocks in use
    only, and no garbage collection together with a timing counter. *)
Theorem bfc_blocks_separate total evs s :
  reachable total evs s ->
  NoDup (map (fun b => b.2) (blocks s))
  /\ (forall b b', b ∈ blocks s -> b' ∈ blocks s -> b <> b' -> disjoint_blocks b b')
  /\ (forall p n rq id, (p, n, rq, id) ∈ blocks s -> 0 < rq <= n /\ exists r, r ∈ regions_ s
        /\ r_ptr r <= p /\ p + n <= r_end_ptr r /\ (256 | p - r_ptr r)
        /\ (r_ptr r, r_memory_size r) ∈ sa_blocks (sub_allocator_ s)).
Proof.
  intros Hr. destruct (reachable_inv _ _ _ Hr) as (Hi & _). split_and!; [by apply blocks_ids_NoDup|..].
  - intros b b' Hb Hb' Hne. by apply (blocks_disjoint s).
  - intros p n rq id Hb. pose proof (reachable_sizes _ _ _ Hr) as Hs. rewrite Forall_forall in Hs.
    split; [by apply (Hs _ Hb)|]. destruct (block_bounds s p n rq id Hi Hb) as (_ & _ & _ & r & Hrr & ? & ? & ?).
    exists r. split_and!; try done. by apply (a_sub _ (proj2 Hi)).
Qed.

(** C4: the statistics are exact and the limit holds: [bytes_in_use] is the sum of the sizes
    of the blocks in use, which is at most the memory taken from the sub-allocator, which
    never exceeds the limit given to the constructor.  The histories have a memory limit below
    2^63, requests of at most 2^64 - 256 bytes and frees of blocks in use only, and do not combine
    garbage collection with a timing counter. *)
Theorem bfc_accounting total evs s :
  reachable total evs s ->
  bytes_in_use (stats_ s) = zsum (map (fun b => b.1.1.2) (blocks s))
  /\ bytes_in_use (stats_ s) <= zsum (map r_memory_size (regions_ s)) <= total.
Proof.
  intros Hr. destruct (reachable_inv _ _ _ Hr) as (Hi & _ & <-). pose proof (blocks_sum_le s Hi).
  destruct Hi as [_ Ha]. rewrite (a_stats _ Ha). split; [done|].
  pose proof (a_total _ Ha). pose proof (a_total_le _ Ha). lia.
Qed.

(** While the region size is not 0, an allocation of at least 2560 bytes (or any, once
    backpedalling has started) finishes: the loops of [Extend] need at most 1000 iterations.  It
    returns [nullptr] and leaves the blocks as they are, or a new block. *)
Lemma bfc_allocate_returns total evs s fuel al nb fb :
  reachable total evs s -> 0 < nb <= 2 ^ 64 - 256 -> extend_terminates fuel s (RoundedBytes nb) ->
  exists p s', AllocateRawInternal fuel al nb fb s = Val (p, s') /\ alloc_result s s' (RoundedBytes nb) nb p.
Proof.
  intros Hr Hnb Ht. destruct (reachable_inv _ _ _ Hr) as (Hi & Hg & _).
  by apply (wp_total _ _ _ (AllocateRawInternal_spec true fuel al nb fb s Hi Hg Hnb (fun _ => Ht))).
Qed.

(** Freeing a block in use always succeeds and removes that block and no other. *)
Lemma bfc_deallocate_returns total evs s p n rq id :
  reachable total evs s -> (p, n, rq, id) ∈ blocks s ->
  exists s', DeallocateRawInternal p s = Val (tt, s') /\ blocks s ≡ₚ (p, n, rq, id) :: blocks s'
    /\ bytes_in_use (stats_ s') = bytes_in_use (stats_ s) - n.
Proof.
  intros Hr Hb. destruct (reachable_inv _ _ _ Hr) as (Hi & _).
  destruct (wp_total _ _ _ (DeallocateRawInternal_spec true s p n rq id Hi Hb)) as ([] & s' & E & Hi' & _ & _ & Hbl).
  exists s'. split_and!; try done. rewrite (a_stats _ (proj2 Hi)), (a_stats _ (proj2 Hi')), Hbl. cbn [map fst snd].
  change (zsum (n :: ?l)) with (n + zsum l). lia.
Qed.

(** C5: termination.  In a state reached with a memory limit below 2^63, requests of at most
    2^64 - 256 bytes, frees of blocks in use only and no garbage collection together with a timing
    counter, as long as [curr_region_allocation_bytes_] is not 0, an allocation whose rounded size
    is at least 2560 bytes (or any, once backpedalling has started) finishes: the loops of
    [Extend] need at most 1000 iterations.  It returns [nullptr] and leaves the blocks as they
    are, or a new block.  Freeing a block in use always succeeds and removes that block and no
    other.  The two conditions on allocations matter, and the code guarantees neither: the region
    size is doubled without a check, becomes 0 when it was 2^63, and the loop that doubles it then
    never ends ([bfc_zero_region_diverges], [bfc_region_size_wraps]); and backpedalling can get
    stuck above a smaller request ([bfc_backpedal_diverges]). *)
Theorem bfc_requests_return :
  (forall total evs s fuel al nb fb,
  reachable total evs s -> 0 < nb <= 2 ^ 64 - 256 ->
  (1000 <= fuel)%nat -> 0 < curr_region_allocation_bytes_ s -> (2560 <= RoundedBytes nb \/ started_backpedal_ s = true) ->
  exists p s', AllocateRawInternal fuel al nb fb s = Val (p, s') /\ alloc_result s s' (RoundedBytes nb) nb p)
  /\ (forall total evs s p n rq id,
  reachable total evs s -> (p, n, rq, id) ∈ blocks s ->
  exists s', DeallocateRawInternal p s = Val (tt, s') /\ blocks s ≡ₚ (p, n, rq, id) :: blocks s'
    /\ bytes_in_use (stats_ s') = bytes_in_use (stats_ s) - n).
Proof.
  split; [|exact bfc_deallocate_returns]. intros total evs s fuel al nb fb Hr Hnb Hf Hc Hb. by eapply bfc_allocate_returns.
Qed.

(** The search is best fit: [FindChunkPtr] hands out the smallest free chunk that is large
    enough and old enough, the one with the lowest address among equals, split so that
    less than half of it and less than 128MB is wasted; it returns [nullptr], without
    any effect, exactly when there is no such chunk. *)
Lemma bfc_best_fit total evs s rb nb fb :
  reachable total evs s -> 0 < rb < 2 ^ 64 -> (256 | rb) ->
  exists p s', FindChunkPtr (BinNumForSize rb) rb nb fb s = Val (p, s') /\ best_fit s s' rb nb fb p.
Proof.
  intros Hr Hrb Hd. destruct (reachable_inv _ _ _ Hr) as (Hi & _).
  by apply (wp_total _ _ _ (FindChunkPtr_spec true s rb nb fb Hi Hrb Hd)).
Qed.

(** Garbage collection changes no block and leaves no region without blocks in use
    behind, or has no effect at all. *)
Lemma bfc_collect total evs s rb :
  reachable total evs s ->
  exists ok s', DeallocateFreeRegions rb s = Val (ok, s') /\ inv s' /\ blocks s' = blocks s
    /\ (ok = false -> s' = s) /\ (ok = true -> forall r, r ∈ regions_ s' -> ~ region_free s' r).
Proof.
  intros Hr. destruct (reachable_inv _ _ _ Hr) as (Hi & Hg & _).
  destruct (wp_total _ _ _ (DeallocateFreeRegions_spec true rb s Hi (gc_untimed_queue s Hi Hg)))
    as (ok & s' & E & Hi' & Hq & _ & H1 & H2).
  exists ok, s'. split_and!; try done. apply Hq.
Qed.

(** C6: searching and collecting.  The search is best fit: [FindChunkPtr] hands out the smallest
    free chunk that is large enough and old enough, the one with the lowest address among equals,
    split so that less than half of it and less than 128MB is wasted; it returns [nullptr],
    without any effect, exactly when there is no such chunk.  Garbage collection changes no block
    and leaves no region without blocks in use behind, or has no effect at all.  The states are
    those of the histories with a memory limit below 2^63, requests of at most 2^64 - 256 bytes,
    frees of blocks in use only, and no garbage collection together with a timing counter. *)
Theorem bfc_best_fit_and_collect total evs s rb :
  reachable total evs s ->
  (forall nb fb, 0 < rb < 2 ^ 64 -> (256 | rb) -> exists p s', FindChunkPtr (BinNumForSize rb) rb nb fb s = Val (p, s') /\ best_fit s s' rb nb fb p)
  /\ (exists ok s', DeallocateFreeRegions rb s = Val (ok, s') /\ inv s' /\ blocks s' = blocks s
    /\ (ok = false -> s' = s) /\ (ok = true -> forall r, r ∈ regions_ s' -> ~ region_free s' r)).
Proof. intros Hr. split; [intros nb fb Hrb Hd; by eapply bfc_best_fit|by eapply bfc_collect]. Qed.

(** When the region size is 0, doubling does not change it: a request that no free chunk serves
    and that the memory limit admits never returns. *)
Theorem bfc_zero_region_diverges s al nb fb fuel :
  inv s -> 0 < nb <= 2 ^ 64 - 256 -> curr_region_allocation_bytes_ s = 0 -> timestamped_chunks_ s = [] ->
  (forall h c, ~ candidate s (RoundedBytes nb) fb h c) ->
  RoundedBytes nb <= memory_limit_ s - total_region_allocated_bytes_ s ->
  AllocateRawInternal fuel al nb fb s = NoFuel.
Proof.
  intros Hi Hnb H0 Hts Hno Hav. destruct (RoundedBytes_pos nb Hnb) as [Hrb Hd]. unfold AllocateRawInternal.
  destruct (Z.eqb_spec nb 0); [lia|]. cbv zeta. set (rb := RoundedBytes nb) in *. rewrite run_get, Hts.
  destruct (wp_total _ _ _ (FindChunkPtr_spec true s rb nb fb Hi Hrb Hd)) as (p & s' & Ef & [(-> & -> & _)|(_ & h & c & Hc & _)]); [|by destruct (Hno h c)].
  unfold mbind, M_bind, mret, M_ret. rewrite Ef. cbn [Z.eqb negb]. rewrite Extend_zero by (done || lia). done.
Qed.

(** A request of at most 2304 bytes (rounded) never returns when the sub-allocator refuses
    every request: backpedalling by a factor of 0.9 and rounding up to 256 bytes gets
    stuck above the request, so the loop in [Extend] runs forever. *)
Theorem bfc_backpedal_diverges s al rb fuel :
  (forall (sub : Sub) al n, (sa_Alloc sub al n).1 = 0) ->
  inv s -> 0 < rb <= 2304 -> (256 | rb) -> started_backpedal_ s = false ->
  rb + 256 <= memory_limit_ s - total_region_allocated_bytes_ s ->
  Extend fuel al rb s = NoFuel.
Proof.
  intros Hf Hinv Hrb Hd Hsb Hav. destruct Hinv as [(L & fl & Hi) Ha]. pose proof (m_rm _ _ _ _ _ _ Hi) as Hwf.
  pose proof (available_bytes_spec s Ha Hwf) as (Hv & Hv63 & Hvd). unfold Extend, mbind, M_bind, get. cbv zeta.
  set (av := u64 _ / _ * _) in *. assert (rb <= av) as Hge.
  { destruct (a_limit _ Ha). pose proof (total_nonneg s Ha Hwf). unfold av. rewrite kMin_256, u64_small by lia.
    set (d := memory_limit_ s - _) in *. pose proof (Z.div_mod d 256 ltac:(lia)).
    pose proof (Z.mod_pos_bound d 256 ltac:(lia)). lia. }
  destruct (Z.ltb_spec av rb); [lia|]. destruct (a_curr _ Ha) as [Hc Hcd].
  pose proof (GrowRegion_loop_spec fuel rb _ false Hc Hcd) as Hg.
  destruct (GrowRegion_loop _ _ _ _) as [[c inc]| |]; [|done|done]. destruct Hg as (Hrc & Hc' & Hcd').
  unfold modify at 1. rewrite SubAlloc_run, Hf. cbn. rewrite Hsb. cbn.
  rewrite Backpedal_loop_diverges; [done|done|lia|lia|].
  destruct (Z.min_spec c av) as [[_ ->]|[_ ->]]; done.
Qed.

End theorems.

(** ** Size classes *)

Lemma Log2FloorNonZeroSlow_loop_eq fuel n r :
  0 <= n < 2 ^ Z.of_nat fuel ->
  Log2FloorNonZeroSlow_loop fuel n r = if n =? 0 then r else r + Z.log2 n + 1.
Proof.
  revert n r. induction fuel as [|f IH]; intros n r Hn.
  { assert (n = 0) as -> by (cbn in Hn; lia). done. }
  cbn [Log2FloorNonZeroSlow_loop]. rewrite Nat2Z.inj_succ, Z.pow_succ_r in Hn by lia.
  destruct (Z.ltb_spec 0 n); [|by assert (n = 0) as -> by lia].
  rewrite Z.shiftr_div_pow2 by lia. change (2 ^ 1) with 2.
  pose proof (Z.div_mod n 2 ltac:(lia)). pose proof (Z.mod_pos_bound n 2 ltac:(lia)).
  rewrite IH by lia. destruct (Z.eqb_spec n 0); [lia|]. destruct (Z.eqb_spec (n / 2) 0).
  - assert (n = 1) as -> by lia. cbn. lia.
  - replace (Z.log2 n) with (Z.succ (Z.log2 (n / 2))); [lia|].
    destruct (Z.eq_dec (n mod 2) 0).
    + replace n with (2 * (n / 2)) at 2 by lia. rewrite Z.log2_double; lia.
    + replace n with (2 * (n / 2) + 1) at 2 by lia. rewrite Z.log2_succ_double; lia.
Qed.

(** The portable bit-by-bit logarithm equals the one computed with
    [__builtin_clzll], for every non-zero 64-bit size, and the bins are as the constructor
    checks: bin [b] holds exactly the sizes from 256 * 2^b to below 256 * 2^(b+1), the last
    bin everything above. *)
Theorem bfc_size_classes n :
  0 < n < 2 ^ 64 ->
  Log2FloorNonZeroSlow n = Log2FloorNonZero n
  /\ bins_check = true
  /\ (256 <= n -> let b := BinNumForSize n in (b < kNumBins)%nat
        /\ BinNumToSize b <= n /\ (n < 2 * BinNumToSize b \/ b = 20%nat)).
Proof.
  intros Hn. split_and!.
  - rewrite Log2FloorNonZero_log2 by done. unfold Log2FloorNonZeroSlow.
    rewrite Log2FloorNonZeroSlow_loop_eq by (change (Z.of_nat 64) with 64; lia). destruct (Z.eqb_spec n 0); lia.
  - reflexivity.
  - intros H256 b. split; [apply BinNumForSize_lt|]. unfold b. rewrite BinNumForSize_eq, Z.max_l by lia.
    pose proof (Z.div_mod n 256 ltac:(lia)). pose proof (Z.mod_pos_bound n 256 ltac:(lia)).
    pose proof (Z.log2_spec (n / 256) ltac:(lia)) as [Hlo Hhi]. set (k := Z.log2 (n / 256)) in *.
    assert (0 <= k) by (apply Z.log2_nonneg). unfold BinNumToSize.
    rewrite Z2Nat.id, Z.shiftl_mul_pow2 by lia. rewrite Z.pow_succ_r in Hhi by lia.
    destruct (Z.min_spec 20 k) as [[Hk ->]|[Hk ->]].
    + assert (2 ^ 20 <= 2 ^ k) by (apply Z.pow_le_mono_r; lia). split; [|by right].
      rewrite u64_small; lia.
    + assert (2 ^ k <= 2 ^ 20) by (apply Z.pow_le_mono_r; lia). rewrite u64_small by lia. split; [lia|left; lia].
Qed.

(** ** Runs of the model *)

Definition example_init (cap total : Z) (gc : bool) (counter : option Z) : BFCAllocator arena :=
  set_timing_counter counter (BFCAllocator_init (mkArena 4096 cap []) total false gc).

Definition state_of {A} (d : BFCAllocator arena) (o : outcome (A * BFCAllocator arena)) : BFCAllocator arena :=
  match o with Val (_, s) => s | _ => d end.

Definition alloc_of (nb fb : Z) (s : BFCAllocator arena) : BFCAllocator arena :=
  Eval cbv beta delta [state_of] in state_of s (AllocateRawInternal 1000 256 nb fb s).
Definition free_of (p : Z) (s : BFCAllocator arena) : BFCAllocator arena :=
  Eval cbv beta delta [state_of] in state_of s (DeallocateRawInternal p s).

Definition ex0 : BFCAllocator arena := example_init 8192 8192 false None.
Definition ex1 : BFCAllocator arena := Eval vm_compute in alloc_of 300 0 ex0.
Definition ex2 : BFCAllocator arena := Eval vm_compute in alloc_of 2600 0 ex1.
Definition ex3 : BFCAllocator arena := Eval vm_compute in free_of 4096 ex2.

Lemma ex0_initial : initial 8192 ex0.
Proof. exists (mkArena 4096 8192 []), false, false, None. by vm_compute. Qed.

Lemma ex2_reachable : reachable 8192 [EvAlloc 300 4096; EvAlloc 2600 4608] ex2.
Proof.
  apply (reach_step _ [EvAlloc 300 4096] _ ex1).
  - apply (reach_step _ [] _ ex0); [apply reach_init, ex0_initial|].
    apply (step_alloc 1000 256 300 0); [lia|by vm_compute].
  - apply (step_alloc 1000 256 2600 0); [lia|by vm_compute].
Qed.

Lemma ex3_reachable : reachable 8192 [EvAlloc 300 4096; EvAlloc 2600 4608; EvFree 4096] ex3.
Proof.
  apply (reach_step _ [EvAlloc 300 4096; EvAlloc 2600 4608] _ ex2); [apply ex2_reachable|].
  apply step_free; [|by vm_compute]. right. exists 512, 300, 1. by vm_compute; left.
Qed.

Lemma bfc_refines_heap_witness : heap_run [EvAlloc 300 4096; EvAlloc 2600 4608; EvFree 4096] (abs ex3).
Proof. apply (bfc_refines_heap 8192). apply ex3_reachable. Defined.

Lemma bfc_no_crash_witness :
  AllocateRawInternal 1000 256 5000 0 ex3 <> Crash /\ RequestedSize 4608 ex3 = Val (2600, ex3).
Proof.
  destruct (bfc_no_crash _ _ _ ex3_reachable) as [Ha Hb]. split; [apply Ha; lia|].
  apply (Hb 4608 2816 2600 2). by vm_compute; left.
Defined.

Lemma bfc_blocks_separate_witness : disjoint_blocks (4096, 512, 300, 1) (4608, 2816, 2600, 2).
Proof.
  apply (bfc_blocks_separate _ _ _ ex2_reachable); [by vm_compute; left|by vm_compute; right; left|done].
Defined.

Lemma bfc_accounting_witness : bytes_in_use (stats_ ex2) = 3328 /\ bytes_in_use (stats_ ex2) <= 8192.
Proof. destruct (bfc_accounting _ _ _ ex2_reachable) as [_ H]. split; [reflexivity|lia]. Defined.

Lemma bfc_requests_return_witness :
  (exists p s', AllocateRawInternal 1000 256 4000 0 ex3 = Val (p, s') /\ alloc_result ex3 s' 4096 4000 p)
  /\ (exists s', DeallocateRawInternal 4608 ex3 = Val (tt, s') /\ blocks ex3 ≡ₚ (4608, 2816, 2600, 2) :: blocks s'
    /\ bytes_in_use (stats_ s') = bytes_in_use (stats_ ex3) - 2816).
Proof.
  split.
  { apply ((proj1 bfc_requests_return) _ _ _ 1000%nat 256 4000 0 ex3_reachable); [lia|lia|by vm_compute|left; by vm_compute]. }
  { apply ((proj2 bfc_requests_return) _ _ _ 4608 2816 2600 2 ex3_reachable). by vm_compute; left. }
Defined.


Definition ex_gc0 : BFCAllocator arena := example_init 8192 8192 true None.
Definition ex_gc1 : BFCAllocator arena := Eval vm_compute in alloc_of 300 0 ex_gc0.
Definition ex_gc2 : BFCAllocator arena := Eval vm_compute in free_of 4096 ex_gc1.

Lemma ex_gc2_reachable : reachable 8192 [EvAlloc 300 4096; EvFree 4096] ex_gc2.
Proof.
  apply (reach_step _ [EvAlloc 300 4096] _ ex_gc1).
  - apply (reach_step _ [] _ ex_gc0).
    + apply reach_init. exists (mkArena 4096 8192 []), false, true, None. by vm_compute.
    + apply (step_alloc 1000 256 300 0); [lia|by vm_compute].
  - apply step_free; [|by vm_compute]. right. exists 512, 300, 1. by vm_compute; left.
Qed.

Lemma bfc_best_fit_and_collect_witness :
  (exists p s', FindChunkPtr (BinNumForSize 256) 256 200 0 ex3 = Val (p, s') /\ best_fit ex3 s' 256 200 0 p)
  /\ (exists ok s', DeallocateFreeRegions 4096 ex_gc2 = Val (ok, s') /\ inv s' /\ blocks s' = blocks ex_gc2
    /\ (ok = false -> s' = ex_gc2) /\ (ok = true -> forall r, r ∈ regions_ s' -> ~ region_free s' r)).
Proof.
  split.
  - apply (bfc_best_fit_and_collect _ _ _ 256 ex3_reachable); [lia|]. by exists 1.
  - apply (bfc_best_fit_and_collect _ _ _ 4096 ex_gc2_reachable).
Defined.

(** A sub-allocator without memory. *)
Inductive no_memory : Set := NoMemory.

#[export] Instance no_memory_SubAllocator : SubAllocator no_memory :=
  {| sa_Alloc _ _ _ := (0, NoMemory); sa_Free _ _ _ := NoMemory |}.

#[export] Instance no_memory_spec : SubAllocatorSpec no_memory.
Proof. by refine {| sa_blocks := fun _ => [] |}; cbn; intros; simplify_eq. Defined.

Lemma no_memory_inv : inv (BFCAllocator_init NoMemory 8192 false false).
Proof. apply (initial_inv 8192). exists NoMemory, false, false, None. by vm_compute. Qed.

Lemma bfc_backpedal_diverges_witness :
  Extend 1000 256 512 (BFCAllocator_init NoMemory 8192 false false) = NoFuel.
Proof.
  apply bfc_backpedal_diverges; [done|apply no_memory_inv|lia|by exists 2|reflexivity|cbn; lia].
Defined.

Lemma bfc_size_classes_witness : BinNumForSize 2816 = 3%nat /\ Log2FloorNonZeroSlow 2816 = 11.
Proof. split; [reflexivity|]. rewrite (proj1 (bfc_size_classes 2816 ltac:(lia))). reflexivity. Defined.

(** ** Ways out of the contract *)

(** A request of more than 2^64 - 256 bytes is rounded to 0 bytes.  The allocator then
    hands out a chunk of size 0, and the next request receives the same address. *)
Theorem bfc_request_overflow :
  (forall n, 2 ^ 64 - 256 < n < 2 ^ 64 -> RoundedBytes n = 0)
  /\ exists p s1 s2,
       AllocateRawInternal 1000 256 (2 ^ 64 - 1) 0 ex3 = Val (p, s1) /\ p <> 0
       /\ (p, 0, 2 ^ 64 - 1, 3) ∈ blocks s1
       /\ AllocateRawInternal 1000 256 256 0 s1 = Val (p, s2).
Proof.
  split.
  - intros n Hn. unfold RoundedBytes. rewrite kMin_256. unfold u64 at 2.
    replace (n + 256 - 1) with (n + 255 - 2 ^ 64 + 1 * 2 ^ 64) by lia.
    rewrite Z.mod_add, (Z.mod_small (n + 255 - 2 ^ 64)) by lia.
    rewrite (Z.div_small (n + 255 - 2 ^ 64)) by lia. reflexivity.
  - eexists 4096, _, _. split_and!; [vm_compute; reflexivity|done|vm_compute; left|vm_compute; reflexivity].
Qed.

(** The region size is doubled after each new region, without a check.  In a state where it is
    2^63 an allocation that needs a new region makes it 0; the next one never returns, though the
    limit is not reached. *)
Definition ex_big : BFCAllocator arena := set_curr_region_allocation_bytes (2 ^ 63) (example_init 8192 16384 false None).
Definition ex_wrapped : BFCAllocator arena := Eval vm_compute in alloc_of 3000 0 ex_big.

Lemma ex_big_inv : inv ex_big.
Proof.
  assert (inv (example_init 8192 16384 false None)) as [(L & fl & Hi) Ha].
  { apply (initial_inv 16384). exists (mkArena 4096 8192 []), false, false, None. by vm_compute. }
  split; [exists L, fl; by eapply mem_inv_ext; [..|exact Hi]|]. constructor; try apply Ha; cbn. split; [lia|by exists (2 ^ 55)].
Qed.

Theorem bfc_region_size_wraps :
  AllocateRawInternal 1000 256 3000 0 ex_big = Val (4096, ex_wrapped)
  /\ curr_region_allocation_bytes_ ex_big = 2 ^ 63 /\ curr_region_allocation_bytes_ ex_wrapped = 0
  /\ forall fuel, AllocateRawInternal fuel 256 8000 0 ex_wrapped = NoFuel.
Proof.
  assert (AllocateRawInternal 1000 256 3000 0 ex_big = Val (4096, ex_wrapped)) as E by (by vm_compute).
  split_and!; [done|done|done|]. intros fuel. apply bfc_zero_region_diverges; [|lia|done|done| |by vm_compute].
  - by pose proof (wp_run _ _ _ _ _ _ (AllocateRawInternal_spec false 1000 256 3000 0 ex_big ex_big_inv ltac:(done) ltac:(lia) ltac:(done)) E) as [[? _]|[_ [Hi _]]].
  - intros h c (Hh & Hc & Hs & _). vm_compute in Hh. apply list_elem_of_singleton in Hh as ->. vm_compute in Hc. injection Hc as <-. change (RoundedBytes 8000) with 8192 in Hs. cbn in Hs. lia.
Qed.

(** With garbage collection and time stamps both enabled, a region can be returned
    while one of its chunks still stands on the queue of time-stamped chunks; the next
    allocation looks up the address of that chunk, which no region holds any more. *)
Theorem bfc_gc_timestamps_crash :
  exists p1 s1 s2 p3 s3,
    AllocateRawInternal 1000 256 300 0 (example_init 16384 8192 true (Some 0)) = Val (p1, s1)
    /\ DeallocateRawInternal p1 s1 = Val (tt, s2)
    /\ AllocateRawInternal 1000 256 8192 1 s2 = Val (p3, s3) /\ p3 <> 0
    /\ AllocateRawInternal 1000 256 300 0 s3 = Crash.
Proof.
  eexists _, _, _, _, _.
  split_and!; [vm_compute; reflexivity|vm_compute; reflexivity|vm_compute; reflexivity|done|vm_compute; reflexivity].
Qed.
