(* ===== verification/Coding.v ===== *)
(** * Fixed-width and variable-length integers

    [core/lib/core/coding.cc] and [core/lib/core/raw_coding.h].  A byte is a [Z] below
    256, a buffer a list of bytes; a pointer into a buffer with its limit is the list of
    the bytes between them. *)

From S2P Require Import Prelude.

Module Coding.

(** ** Fixed width *)

(** The object representation of a [w]-byte integer on a little-endian host. *)
Fixpoint le_bytes (w : nat) (v : Z) : list Z :=
  match w with O => [] | S w => u8 v :: le_bytes w (Z.shiftr v 8) end.

Fixpoint le_value (l : list Z) : Z :=
  match l with [] => 0 | b :: l => b + 256 * le_value l end.

Definition EncodeFixed16 (kLittleEndian : bool) (value : Z) : list Z :=
  if kLittleEndian then le_bytes 2 value
  else [Z.land value 255; Z.land (Z.shiftr value 8) 255].

Definition EncodeFixed32 (kLittleEndian : bool) (value : Z) : list Z :=
  if kLittleEndian then le_bytes 4 value
  else [Z.land value 255; Z.land (Z.shiftr value 8) 255;
        Z.land (Z.shiftr value 16) 255; Z.land (Z.shiftr value 24) 255].

Definition EncodeFixed64 (kLittleEndian : bool) (value : Z) : list Z :=
  if kLittleEndian then le_bytes 8 value
  else [Z.land value 255; Z.land (Z.shiftr value 8) 255;
        Z.land (Z.shiftr value 16) 255; Z.land (Z.shiftr value 24) 255;
        Z.land (Z.shiftr value 32) 255; Z.land (Z.shiftr value 40) 255;
        Z.land (Z.shiftr value 48) 255; Z.land (Z.shiftr value 56) 255].

Definition PutFixed16 (le : bool) (dst : list Z) (value : Z) : list Z := dst ++ EncodeFixed16 le value.
Definition PutFixed32 (le : bool) (dst : list Z) (value : Z) : list Z := dst ++ EncodeFixed32 le value.
Definition PutFixed64 (le : bool) (dst : list Z) (value : Z) : list Z := dst ++ EncodeFixed64 le value.

(** The bytes from [ptr] on; reading past the end is undefined ([None]). *)
Definition DecodeFixed16 (kLittleEndian : bool) (ptr : list Z) : option Z :=
  match ptr with
  | b0 :: b1 :: _ =>
      Some (if kLittleEndian then le_value [b0; b1] else Z.lor b0 (Z.shiftl b1 8))
  | _ => None
  end.

Definition DecodeFixed32 (kLittleEndian : bool) (ptr : list Z) : option Z :=
  match ptr with
  | b0 :: b1 :: b2 :: b3 :: _ =>
      Some (if kLittleEndian then le_value [b0; b1; b2; b3]
            else Z.lor (Z.lor (Z.lor b0 (Z.shiftl b1 8)) (Z.shiftl b2 16)) (Z.shiftl b3 24))
  | _ => None
  end.

Definition DecodeFixed64 (kLittleEndian : bool) (ptr : list Z) : option Z :=
  if kLittleEndian then
    match ptr with
    | b0 :: b1 :: b2 :: b3 :: b4 :: b5 :: b6 :: b7 :: _ => Some (le_value [b0; b1; b2; b3; b4; b5; b6; b7])
    | _ => None
    end
  else
    lo ← DecodeFixed32 false ptr;
    hi ← DecodeFixed32 false (drop 4 ptr);
    Some (Z.lor (Z.shiftl hi 32) lo).

(** ** Variable length *)

Definition B : Z := 128.

Definition EncodeVarint32 (v : Z) : list Z :=
  if v <? Z.shiftl 1 7 then [u8 v]
  else if v <? Z.shiftl 1 14 then [u8 (Z.lor v B); u8 (Z.shiftr v 7)]
  else if v <? Z.shiftl 1 21 then [u8 (Z.lor v B); u8 (Z.lor (Z.shiftr v 7) B); u8 (Z.shiftr v 14)]
  else if v <? Z.shiftl 1 28 then
    [u8 (Z.lor v B); u8 (Z.lor (Z.shiftr v 7) B); u8 (Z.lor (Z.shiftr v 14) B); u8 (Z.shiftr v 21)]
  else
    [u8 (Z.lor v B); u8 (Z.lor (Z.shiftr v 7) B); u8 (Z.lor (Z.shiftr v 14) B);
     u8 (Z.lor (Z.shiftr v 21) B); u8 (Z.shiftr v 28)].

(** Ten iterations, the size of the buffer, are enough for 64 bits
    ([EncodeVarint64_eq]). *)
Fixpoint EncodeVarint64_loop (fuel : nat) (v : Z) : list Z :=
  match fuel with
  | O => []
  | S f => if B <=? v then Z.lor (Z.land v (B - 1)) B :: EncodeVarint64_loop f (Z.shiftr v 7)
           else [u8 v]
  end.
Definition EncodeVarint64 (v : Z) : list Z := EncodeVarint64_loop 10 v.

Definition PutVarint32 (dst : list Z) (v : Z) : list Z := dst ++ EncodeVarint32 v.
Definition PutVarint64 (dst : list Z) (v : Z) : list Z := dst ++ EncodeVarint64 v.

Fixpoint VarintLength_loop (fuel : nat) (v len : Z) : Z :=
  match fuel with
  | O => len
  | S f => if 128 <=? v then VarintLength_loop f (Z.shiftr v 7) (len + 1) else len
  end.
Definition VarintLength (v : Z) : Z := VarintLength_loop 10 v 1.

(** The loop of the decoders: [shift] runs to [max_shift] in steps of 7, the partial
    results have the width of [wrap]. *)
Fixpoint GetVarint_loop (fuel : nat) (wrap : Z -> Z) (max_shift shift result : Z) (p : list Z)
  : option (Z * list Z) :=
  match fuel, p with
  | S f, byte :: p =>
      if max_shift <? shift then None
      else if negb (Z.land byte 128 =? 0)
      then GetVarint_loop f wrap max_shift (shift + 7)
             (Z.lor result (wrap (Z.shiftl (Z.land byte 127) shift))) p
      else Some (Z.lor result (wrap (Z.shiftl byte shift)), p)
  | _, _ => None
  end.

Definition GetVarint32PtrFallback (p : list Z) : option (Z * list Z) := GetVarint_loop 5 u32 28 0 0 p.

Definition GetVarint32Ptr (p : list Z) : option (Z * list Z) :=
  match p with
  | result :: p' => if Z.land result 128 =? 0 then Some (result, p') else GetVarint32PtrFallback p
  | [] => GetVarint32PtrFallback p
  end.

Definition GetVarint64Ptr (p : list Z) : option (Z * list Z) := GetVarint_loop 10 u64 63 0 0 p.

(** [GetVarint32] and [GetVarint64] advance [input] on success and leave it on failure. *)
Definition GetVarint32 (input : list Z) : option Z * list Z :=
  match GetVarint32Ptr input with
  | Some (value, q) => (Some value, q)
  | None => (None, input)
  end.

Definition GetVarint64 (input : list Z) : option Z * list Z :=
  match GetVarint64Ptr input with
  | Some (value, q) => (Some value, q)
  | None => (None, input)
  end.

(** ** Variable length: round trip *)

Lemma EncodeVarint64_loop_eq fuel v :
  0 <= v < 2 ^ (7 * Z.of_nat fuel) -> (0 < fuel)%nat ->
  EncodeVarint64_loop fuel v =
    if v <? 128 then [v] else (v mod 128 + 128) :: EncodeVarint64_loop (pred fuel) (v / 128).
Proof.
  intros Hv Hf. destruct fuel as [|f]; [lia|]. cbn [EncodeVarint64_loop pred]. unfold B.
  rewrite Z.leb_antisym. destruct (Z.ltb_spec v 128) as [Hlt|Hge]; cbn [negb].
  - by rewrite u8_small by lia.
  - change (128 - 1) with (2 ^ 7 - 1). rewrite land_ones_mod, Z.shiftr_div_pow2 by lia. f_equal.
    apply (lor_shift_add _ 1 7); [lia|]. apply Z.mod_pos_bound. lia.
Qed.

Lemma div_128_bound v k : 0 <= v < 2 ^ (7 * Z.of_nat (S k)) -> 0 <= v / 128 < 2 ^ (7 * Z.of_nat k).
Proof.
  intros Hv. split; [apply Z.div_pos; lia|]. apply Z.div_lt_upper_bound; [lia|].
  replace (7 * Z.of_nat (S k)) with (7 + 7 * Z.of_nat k) in Hv by lia. rewrite Z.pow_add_r in Hv by lia. lia.
Qed.

(** One byte of input to the decoder. *)
Lemma GetVarint_byte fuel wrap ms shift result b p :
  0 <= b < 256 -> shift <= ms ->
  GetVarint_loop (S fuel) wrap ms shift result (b :: p)
  = if b <? 128 then Some (Z.lor result (wrap (Z.shiftl b shift)), p)
    else GetVarint_loop fuel wrap ms (shift + 7) (Z.lor result (wrap (Z.shiftl (b mod 128) shift))) p.
Proof.
  intros Hb Hs. cbn [GetVarint_loop]. destruct (Z.ltb_spec ms shift); [lia|]. rewrite byte_high by done.
  change 127 with (2 ^ 7 - 1). rewrite land_ones_mod by lia. by destruct (b <? 128).
Qed.

(** Decoding what was encoded, in the middle of the loop: [w] is the width. *)
Lemma GetVarint_loop_encode w wrap ms fuel shift result v rest :
  (forall z, 0 <= z < 2 ^ w -> wrap z = z) ->
  0 <= shift -> 0 <= result < 2 ^ shift -> 0 <= v -> v * 2 ^ shift < 2 ^ w ->
  (forall x, (7 | x) -> x < w -> x <= ms) -> (7 | shift) -> shift < w ->
  (0 < fuel)%nat -> v < 2 ^ (7 * Z.of_nat fuel) -> w <= shift + 7 * Z.of_nat fuel ->
  GetVarint_loop fuel wrap ms shift result (EncodeVarint64_loop fuel v ++ rest) = Some (result + v * 2 ^ shift, rest).
Proof.
  intros Hwrap. revert shift result v. induction fuel as [|f IH]; intros shift result v Hs Hr Hv Hvw Hms Hsd Hsm Hf Hvf Hwf; [lia|].
  pose proof (Hms _ Hsd Hsm) as Hsms.
  rewrite EncodeVarint64_loop_eq by lia. cbn [pred]. destruct (Z.ltb_spec v 128) as [Hlt|Hge].
  - cbn [app]. rewrite GetVarint_byte by lia. destruct (Z.ltb_spec v 128); [|lia].
    rewrite Hwrap by (rewrite Z.shiftl_mul_pow2 by lia; nia). by rewrite lor_shift_add.
  - cbn [app]. pose proof (Z.div_mod v 128 ltac:(lia)) as Hdm. pose proof (Z.mod_pos_bound v 128 ltac:(lia)) as Hm.
    rewrite GetVarint_byte by lia. destruct (Z.ltb_spec (v mod 128 + 128) 128); [lia|].
    replace ((v mod 128 + 128) mod 128) with (v mod 128)
      by (rewrite <- (Z.mul_1_l 128) at 3; rewrite Z.mod_add, Z.mod_mod by lia; done).
    assert (2 ^ (shift + 7) = 128 * 2 ^ shift) as E7 by (rewrite Z.pow_add_r by lia; lia).
    assert (0 < 2 ^ shift) as Hp by (apply Z.pow_pos_nonneg; lia).
    rewrite Hwrap by (rewrite Z.shiftl_mul_pow2 by lia; nia). rewrite lor_shift_add by done.
    assert (shift + 7 < w) as Hsw.
    { destruct (Z.lt_ge_cases (shift + 7) w); [done|].
      assert (2 ^ w <= 2 ^ (shift + 7)) by (apply Z.pow_le_mono_r; lia). nia. }
    rewrite IH; [f_equal; f_equal; nia|lia|nia|lia|nia|done| |done|lia|apply div_128_bound; lia|lia].
    apply Z.divide_add_r; [done|]. by exists 1.
Qed.

Lemma GetVarint64_encode v rest :
  0 <= v < 2 ^ 64 -> GetVarint64Ptr (EncodeVarint64 v ++ rest) = Some (v, rest).
Proof.
  intros Hv. unfold GetVarint64Ptr, EncodeVarint64. rewrite (GetVarint_loop_encode 64); try (cbn; lia).
  - do 2 f_equal. lia.
  - apply u64_small.
  - by exists 0.
Qed.

(** The unrolled encoder of 32-bit values produces the same bytes as the loop. *)
Lemma u8_lor_128 v : 0 <= v -> u8 (Z.lor v 128) = v mod 128 + 128.
Proof.
  intros Hv. pose proof (Z.mod_pos_bound v 128 ltac:(lia)) as Hm.
  replace (v mod 128 + 128) with (Z.lor (v mod 128) 128) by (apply (lor_shift_add (v mod 128) 1 7); lia). unfold u8.
  apply Z.bits_inj'. intros n Hn. rewrite !Z.lor_spec. change (v mod 128) with (v mod 2 ^ 7).
  destruct (Z.lt_ge_cases n 8).
  - rewrite Z.mod_pow2_bits_low, Z.lor_spec by lia. destruct (Z.lt_ge_cases n 7).
    + by rewrite Z.mod_pow2_bits_low by lia.
    + assert (n = 7) as -> by lia. by rewrite !orb_true_r.
  - rewrite !Z.mod_pow2_bits_high by lia. symmetry. apply (testbit_high 128 8); lia.
Qed.

Lemma EncodeVarint32_loop v : 0 <= v < 2 ^ 32 -> EncodeVarint32 v = EncodeVarint64 v.
Proof.
  intros Hv. unfold EncodeVarint32, EncodeVarint64, B. change (Z.shiftl 1 7) with 128.
  change (Z.shiftl 1 14) with 16384. change (Z.shiftl 1 21) with 2097152. change (Z.shiftl 1 28) with 268435456.
  rewrite !u8_lor_128 by (try apply Z.shiftr_nonneg; lia). rewrite !Z.shiftr_div_pow2 by lia.
  change (2 ^ 7) with 128. change (2 ^ 14) with (128 * 128). change (2 ^ 21) with (128 * (128 * 128)).
  change (2 ^ 28) with (128 * (128 * (128 * 128))). rewrite <- !Z.div_div by lia.
  pose proof (Z.div_mod v 128 ltac:(lia)). pose proof (Z.mod_pos_bound v 128 ltac:(lia)).
  remember (v / 128) as v1 eqn:E1.
  pose proof (Z.div_mod v1 128 ltac:(lia)). pose proof (Z.mod_pos_bound v1 128 ltac:(lia)).
  remember (v1 / 128) as v2 eqn:E2.
  pose proof (Z.div_mod v2 128 ltac:(lia)). pose proof (Z.mod_pos_bound v2 128 ltac:(lia)).
  remember (v2 / 128) as v3 eqn:E3.
  pose proof (Z.div_mod v3 128 ltac:(lia)). pose proof (Z.mod_pos_bound v3 128 ltac:(lia)).
  remember (v3 / 128) as v4 eqn:E4.
  repeat match goal with |- context [v <? ?k] => destruct (Z.ltb_spec v k) end;
  repeat (rewrite EncodeVarint64_loop_eq by (cbn; lia); cbn [pred]; rewrite <- ?E1, <- ?E2, <- ?E3, <- ?E4;
    match goal with |- context [?x <? 128] => destruct (Z.ltb_spec x 128); try lia end);
  rewrite ?u8_small by lia; done.
Qed.

Lemma EncodeVarint64_loop_fuel f f' v :
  0 <= v < 2 ^ (7 * Z.of_nat f) -> (0 < f <= f')%nat -> EncodeVarint64_loop f' v = EncodeVarint64_loop f v.
Proof.
  revert f' v. induction f as [|f IH]; intros f' v Hv Hf; [lia|]. destruct f' as [|f']; [lia|].
  assert (v < 2 ^ (7 * Z.of_nat (S f'))).
  { assert (2 ^ (7 * Z.of_nat (S f)) <= 2 ^ (7 * Z.of_nat (S f'))) by (apply Z.pow_le_mono_r; lia). lia. }
  rewrite (EncodeVarint64_loop_eq (S f')), (EncodeVarint64_loop_eq (S f)) by lia.
  destruct (Z.ltb_spec v 128); [done|]. cbn [pred]. f_equal.
  apply IH; [by apply div_128_bound|]. destruct f; [cbn in Hv; lia|]. lia.
Qed.

Lemma GetVarint32Ptr_fallback p :
  Forall (fun b => 0 <= b < 256) p -> GetVarint32Ptr p = GetVarint32PtrFallback p.
Proof.
  intros Hp. destruct p as [|b p]; [done|]. apply Forall_cons in Hp as [Hb _]. cbn [GetVarint32Ptr].
  unfold GetVarint32PtrFallback. rewrite GetVarint_byte, byte_high by lia. destruct (b <? 128); [|done].
  by rewrite Z.shiftl_0_r, Z.lor_0_l, u32_small by lia.
Qed.

Lemma EncodeVarint64_loop_bytes f v :
  0 <= v < 2 ^ (7 * Z.of_nat f) -> Forall (fun b => 0 <= b < 256) (EncodeVarint64_loop f v).
Proof.
  revert v. induction f as [|f IH]; intros v Hv; [constructor|].
  rewrite EncodeVarint64_loop_eq by lia. destruct (Z.ltb_spec v 128); [by constructor; [lia|]|].
  cbn [pred]. constructor; [pose proof (Z.mod_pos_bound v 128 ltac:(lia)); lia|]. by apply IH, div_128_bound.
Qed.

Lemma GetVarint32_encode v rest :
  0 <= v < 2 ^ 32 -> Forall (fun b => 0 <= b < 256) rest ->
  GetVarint32Ptr (EncodeVarint32 v ++ rest) = Some (v, rest).
Proof.
  intros Hv Hrest. rewrite EncodeVarint32_loop by done. unfold EncodeVarint64.
  rewrite (EncodeVarint64_loop_fuel 5) by (cbn; lia).
  rewrite GetVarint32Ptr_fallback by (apply Forall_app; split; [apply EncodeVarint64_loop_bytes; cbn; lia|done]).
  unfold GetVarint32PtrFallback. rewrite (GetVarint_loop_encode 32); try (cbn; lia).
  - do 2 f_equal. lia.
  - apply u32_small.
  - intros x [k ->]. lia.
  - by exists 0.
Qed.

Lemma VarintLength_loop_encode f v len :
  0 <= v < 2 ^ (7 * Z.of_nat f) -> (0 < f)%nat ->
  VarintLength_loop f v len = len - 1 + Z.of_nat (length (EncodeVarint64_loop f v)).
Proof.
  revert v len. induction f as [|f IH]; intros v len Hv Hf; [lia|].
  rewrite EncodeVarint64_loop_eq by lia. cbn [VarintLength_loop pred]. rewrite Z.leb_antisym.
  destruct (Z.ltb_spec v 128) as [Hlt|Hge]; cbn [negb length]; [lia|].
  rewrite Z.shiftr_div_pow2 by lia. change (2 ^ 7) with 128. rewrite IH; [lia|by apply div_128_bound|].
  destruct f; [cbn in Hv|]; lia.
Qed.

Lemma EncodeVarint64_length f v : (length (EncodeVarint64_loop f v) <= f)%nat.
Proof. revert v. induction f as [|f IH]; intros v; cbn; [lia|]. destruct (B <=? v); cbn; [specialize (IH (Z.shiftr v 7))|]; lia. Qed.

(** ** Variable length: malformed input *)

Lemma GetVarint_loop_None fuel wrap ms shift result p :
  Forall (fun b => 0 <= b < 256) p -> shift + 7 * Z.of_nat fuel <= ms + 7 -> 
  GetVarint_loop fuel wrap ms shift result p = None <-> Forall (fun b => 128 <= b) (take fuel p).
Proof.
  revert shift result p. induction fuel as [|f IH]; intros shift result p Hp Hs; [by split|].
  destruct p as [|b p]; [by split|]. apply Forall_cons in Hp as [Hb Hp]. rewrite GetVarint_byte by lia.
  cbn [take]. rewrite Forall_cons. destruct (Z.ltb_spec b 128).
  - split; [done|]. intros [? _]. lia.
  - rewrite IH by (done || lia). naive_solver.
Qed.

Lemma GetVarint_loop_suffix fuel wrap ms shift result p v q :
  GetVarint_loop fuel wrap ms shift result p = Some (v, q) ->
  exists pre, p = pre ++ q /\ (1 <= length pre <= fuel)%nat.
Proof.
  revert shift result p. induction fuel as [|f IH]; intros shift result p E; [done|].
  destruct p as [|b p]; [done|]. cbn [GetVarint_loop] in E. destruct (ms <? shift); [done|].
  destruct (negb _).
  - apply IH in E as (pre & -> & ?). exists (b :: pre). cbn. split; [done|lia].
  - injection E as _ <-. exists [b]. cbn. split; [done|lia].
Qed.

(** ** Fixed width: round trip *)

Lemma le_bytes_value w v : 0 <= v < 256 ^ Z.of_nat w -> le_value (le_bytes w v) = v.
Proof.
  revert v. induction w as [|w IH]; intros v Hv; [cbn in *; lia|].
  cbn [le_bytes le_value]. rewrite Z.shiftr_div_pow2 by lia. unfold u8. change (2 ^ 8) with 256.
  rewrite Nat2Z.inj_succ, Z.pow_succ_r in Hv by lia. pose proof (Z.div_mod v 256 ltac:(lia)).
  rewrite IH; [lia|]. split; [apply Z.div_pos; lia|]. apply Z.div_lt_upper_bound; lia.
Qed.

Lemma le_bytes_range w v : Forall (fun b => 0 <= b < 256) (le_bytes w v).
Proof. revert v. induction w as [|w IH]; intros v; constructor; [apply u8_range|apply IH]. Qed.

(** The explicit byte extraction is the little-endian representation. *)
Lemma land_255 v k : 0 <= k -> Z.land (Z.shiftr v k) 255 = u8 (Z.shiftr v k).
Proof. intros. apply (land_ones_mod _ 8). lia. Qed.

Lemma EncodeFixed_le le v :
  EncodeFixed16 le v = le_bytes 2 v /\ EncodeFixed32 le v = le_bytes 4 v /\ EncodeFixed64 le v = le_bytes 8 v.
Proof.
  destruct le; [done|]. unfold EncodeFixed16, EncodeFixed32, EncodeFixed64.
  assert (Z.land v 255 = u8 v) as -> by (apply (land_ones_mod v 8); lia). rewrite !land_255 by lia.
  cbn [le_bytes]. rewrite !Z.shiftr_shiftr by lia. done.
Qed.

(** Assembling the bytes with "or" and shifts is the little-endian value. *)
Lemma lor_bytes a b k n : n = 2 ^ k -> 0 <= k -> 0 <= a < n -> Z.lor a (Z.shiftl b k) = a + n * b.
Proof. intros -> Hk Ha. rewrite lor_shift_add by lia. lia. Qed.

Lemma DecodeFixed32_be b0 b1 b2 b3 rest :
  Forall (fun b => 0 <= b < 256) [b0; b1; b2; b3] ->
  DecodeFixed32 false (b0 :: b1 :: b2 :: b3 :: rest) = Some (le_value [b0; b1; b2; b3]).
Proof.
  rewrite !Forall_cons. intros (? & ? & ? & ? & _). cbn [DecodeFixed32].
  rewrite (lor_bytes b0 b1 8 256), (lor_bytes _ b2 16 65536), (lor_bytes _ b3 24 16777216) by (reflexivity || lia).
  f_equal. cbn. lia.
Qed.

Lemma DecodeFixed64_be b0 b1 b2 b3 b4 b5 b6 b7 rest :
  Forall (fun b => 0 <= b < 256) [b0; b1; b2; b3; b4; b5; b6; b7] ->
  DecodeFixed64 false (b0 :: b1 :: b2 :: b3 :: b4 :: b5 :: b6 :: b7 :: rest)
  = Some (le_value [b0; b1; b2; b3; b4; b5; b6; b7]).
Proof.
  rewrite !Forall_cons. intros (? & ? & ? & ? & ? & ? & ? & ? & _). unfold DecodeFixed64. cbn [drop].
  rewrite !DecodeFixed32_be by (repeat (apply Forall_cons; split; [done|]); constructor). cbn [mbind option_bind].
  rewrite Z.lor_comm, (lor_bytes _ _ 32 4294967296) by (reflexivity || (cbn; lia)). f_equal. cbn. lia.
Qed.

(** ** Theorems *)

(** Fixed-width integers of 16, 32 and 64 bits are read back exactly, whatever the byte
    order of the host that wrote them and of the host that reads them. *)
Lemma fixed_round_trip le le' v rest :
  (0 <= v < 2 ^ 16 -> DecodeFixed16 le' (PutFixed16 le [] v ++ rest) = Some v)
  /\ (0 <= v < 2 ^ 32 -> DecodeFixed32 le' (PutFixed32 le [] v ++ rest) = Some v)
  /\ (0 <= v < 2 ^ 64 -> DecodeFixed64 le' (PutFixed64 le [] v ++ rest) = Some v).
Proof.
  unfold PutFixed16, PutFixed32, PutFixed64. destruct (EncodeFixed_le le v) as (-> & -> & ->).
  cbn [app]. split_and!; intros Hv.
  - rewrite <- (le_bytes_value 2 v) at 2 by (cbn; lia). pose proof (le_bytes_range 2 v) as Hr. revert Hr.
    cbn [le_bytes app]. rewrite !Forall_cons. intros (? & ? & _). destruct le'; cbn [DecodeFixed16]; [done|].
    rewrite (lor_bytes _ _ 8 256) by (reflexivity || lia). f_equal. cbn. lia.
  - rewrite <- (le_bytes_value 4 v) at 2 by (cbn; lia). pose proof (le_bytes_range 4 v) as Hr. revert Hr.
    cbn [le_bytes app]. intros Hr. destruct le'; [done|]. by apply DecodeFixed32_be.
  - rewrite <- (le_bytes_value 8 v) at 2 by (cbn; lia). pose proof (le_bytes_range 8 v) as Hr. revert Hr.
    cbn [le_bytes app]. intros Hr. destruct le'; [done|]. by apply DecodeFixed64_be.
Qed.

(** A 64-bit value, and a 32-bit value, written by [PutVarint64] or [PutVarint32] in
    front of any bytes is read back exactly, the input advanced to those bytes; the
    unrolled 32-bit encoder agrees with the loop; the length is [VarintLength], at most 10. *)
Lemma varint_round_trip v rest :
  0 <= v < 2 ^ 64 -> Forall (fun b => 0 <= b < 256) rest ->
  GetVarint64 (PutVarint64 [] v ++ rest) = (Some v, rest)
  /\ Z.of_nat (length (PutVarint64 [] v)) = VarintLength v /\ (length (PutVarint64 [] v) <= 10)%nat
  /\ (v < 2 ^ 32 -> GetVarint32 (PutVarint32 [] v ++ rest) = (Some v, rest) /\ PutVarint32 [] v = PutVarint64 [] v).
Proof.
  intros Hv Hrest. unfold PutVarint64, PutVarint32, GetVarint64, GetVarint32. cbn [app]. split_and!.
  - by rewrite GetVarint64_encode.
  - unfold VarintLength. rewrite VarintLength_loop_encode by (cbn; lia). unfold EncodeVarint64. lia.
  - apply EncodeVarint64_length.
  - intros Hv32. split; [by rewrite GetVarint32_encode by (done || lia)|apply EncodeVarint32_loop; lia].
Qed.

(** On arbitrary bytes the decoders fail, leaving the input alone, exactly when no byte
    among the first 10 (or 5) ends the number; otherwise they consume between 1 and 10
    (or 5) bytes. *)
Lemma varint_malformed p :
  Forall (fun b => 0 <= b < 256) p ->
  (GetVarint64 p = (None, p) <-> Forall (fun b => 128 <= b) (take 10 p))
  /\ (GetVarint32 p = (None, p) <-> Forall (fun b => 128 <= b) (take 5 p))
  /\ (forall v q, GetVarint64 p = (Some v, q) -> exists pre, p = pre ++ q /\ (1 <= length pre <= 10)%nat)
  /\ (forall v q, GetVarint32 p = (Some v, q) -> exists pre, p = pre ++ q /\ (1 <= length pre <= 5)%nat).
Proof.
  intros Hp. unfold GetVarint64, GetVarint32. rewrite GetVarint32Ptr_fallback by done.
  unfold GetVarint64Ptr, GetVarint32PtrFallback. split_and!.
  - rewrite <- (GetVarint_loop_None 10 u64 63 0 0) by (exact Hp || lia). destruct (GetVarint_loop _ _ _ _ _ _) as [[]|]; by split; intros.
  - rewrite <- (GetVarint_loop_None 5 u32 28 0 0) by (exact Hp || lia). destruct (GetVarint_loop _ _ _ _ _ _) as [[]|]; by split; intros.
  - intros v q. destruct (GetVarint_loop _ _ _ _ _ _) as [[v' q']|] eqn:E; [|done]. intros [= -> ->].
    by eapply GetVarint_loop_suffix.
  - intros v q. destruct (GetVarint_loop _ _ _ _ _ _) as [[v' q']|] eqn:E; [|done]. intros [= -> ->].
    by eapply GetVarint_loop_suffix.
Qed.

(** C31: round trip. A 64-bit value, and a 32-bit value, written by [PutVarint64] or [PutVarint32] in
    front of any bytes is read back exactly, the input advanced to those bytes; the unrolled
    32-bit encoder agrees with the loop; the length is [VarintLength], at most 10.  Fixed-width
    integers of 16, 32 and 64 bits are read back exactly, whatever the byte orders of the host
    that wrote them and of the one that reads them.  On arbitrary bytes the varint decoders
    fail, leaving the input alone, exactly when no byte among the first 10 (or 5) ends the
    number; otherwise they consume between 1 and 10 (or 5) bytes. *)
Theorem coding_round_trip :
  (forall v rest,
  0 <= v < 2 ^ 64 -> Forall (fun b => 0 <= b < 256) rest ->
  GetVarint64 (PutVarint64 [] v ++ rest) = (Some v, rest)
  /\ Z.of_nat (length (PutVarint64 [] v)) = VarintLength v /\ (length (PutVarint64 [] v) <= 10)%nat
  /\ (v < 2 ^ 32 -> GetVarint32 (PutVarint32 [] v ++ rest) = (Some v, rest) /\ PutVarint32 [] v = PutVarint64 [] v))
  /\ (forall le le' v rest,
  (0 <= v < 2 ^ 16 -> DecodeFixed16 le' (PutFixed16 le [] v ++ rest) = Some v)
  /\ (0 <= v < 2 ^ 32 -> DecodeFixed32 le' (PutFixed32 le [] v ++ rest) = Some v)
  /\ (0 <= v < 2 ^ 64 -> DecodeFixed64 le' (PutFixed64 le [] v ++ rest) = Some v))
  /\ (forall p,
  Forall (fun b => 0 <= b < 256) p ->
  (GetVarint64 p = (None, p) <-> Forall (fun b => 128 <= b) (take 10 p))
  /\ (GetVarint32 p = (None, p) <-> Forall (fun b => 128 <= b) (take 5 p))
  /\ (forall v q, GetVarint64 p = (Some v, q) -> exists pre, p = pre ++ q /\ (1 <= length pre <= 10)%nat)
  /\ (forall v q, GetVarint32 p = (Some v, q) -> exists pre, p = pre ++ q /\ (1 <= length pre <= 5)%nat)).
Proof. split; [exact varint_round_trip|split; [exact fixed_round_trip|exact varint_malformed]]. Qed.

Lemma coding_round_trip_witness :
  (GetVarint64 (PutVarint64 [] 300 ++ [7]) = (Some 300, [7]) /\ PutVarint64 [] 300 = [172; 2])
  /\ (DecodeFixed32 false (PutFixed32 true [] 305419896 ++ [1]) = Some 305419896)
  /\ (GetVarint64 [200; 130] = (None, [200; 130])).
Proof.
  split; [|split].
  { split; [|reflexivity]. refine (proj1 ((proj1 coding_round_trip) 300 [7] _ _)); [lia|]. repeat constructor; lia. }
  { apply ((proj1 (proj2 coding_round_trip)) true false 305419896 [1]). lia. }
  { apply ((proj2 (proj2 coding_round_trip)) [200; 130]); repeat constructor; lia. }
Defined.

End Coding.
