(* ===== verification/OrderedCode.v ===== *)
(** * Order-preserving encodings

    [core/lib/strings/ordered_code.cc]: strings and numbers are mapped to byte strings
    whose lexicographic order is the order of the values.  Bytes are [Z]s below 256, a
    [StringPiece] is the list of its bytes. *)

From S2P Require Import Prelude.

Module OrderedCode.

(** ** Strings *)

Definition kEscape1 : Z := 0.
Definition kNullCharacter : Z := 255.
Definition kSeparator : Z := 1.
Definition kEscape2 : Z := 255.
Definition kFFCharacter : Z := 0.
Definition kEscape1_Separator : list Z := [kEscape1; kSeparator].

Definition IsSpecialByte (c : Z) : bool := u8 (c + 1) <? 2.

(** The number of bytes before the first special byte, or the length of the range. *)
Fixpoint SkipToNextSpecialByte (range : list Z) : nat :=
  match range with
  | [] => O
  | c :: range => if IsSpecialByte c then O else S (SkipToNextSpecialByte range)
  end.

(** The [while] loop; [s] is the part of the string from [copy_start] on, where [p]
    stands too at the head of the loop.  Every iteration consumes a byte. *)
Fixpoint EncodeStringFragment_loop (fuel : nat) (dest s : list Z) : list Z :=
  match fuel with
  | O => dest
  | S f =>
      let n := SkipToNextSpecialByte s in
      match drop n s with
      | [] => dest ++ s
      | c :: rest =>
          if c =? kEscape1
          then EncodeStringFragment_loop f (dest ++ take n s ++ [kEscape1; kNullCharacter]) rest
          else EncodeStringFragment_loop f (dest ++ take n s ++ [kEscape2; kFFCharacter]) rest
      end
  end.
Definition EncodeStringFragment (dest s : list Z) : list Z :=
  EncodeStringFragment_loop (S (length s)) dest s.

Definition WriteString (dest s : list Z) : list Z :=
  EncodeStringFragment dest s ++ kEscape1_Separator.

(** [src] is the part of the input from [copy_start] on; the last byte is never the first
    of a two-byte sequence.  [None] is the result [false]. *)
Fixpoint ReadStringInternal_loop (fuel : nat) (src result : list Z) : option (list Z * list Z) :=
  match fuel with
  | O => None
  | S f =>
      let n := SkipToNextSpecialByte (take (length src - 1) src) in
      if (length src - 1 <=? n)%nat then None
      else
        match drop n src with
        | c :: next :: rest =>
            let result := result ++ take n src in
            if c =? kEscape1 then
              if next =? kSeparator then Some (result, rest)
              else if next =? kNullCharacter then ReadStringInternal_loop f rest (result ++ [0])
              else None
            else
              if next =? kFFCharacter then ReadStringInternal_loop f rest (result ++ [255])
              else None
        | _ => None
        end
  end.
Definition ReadString (src : list Z) : option (list Z * list Z) :=
  ReadStringInternal_loop (length src) src [].

(** ** Unsigned numbers *)

(** The bytes of [val], most significant first, without leading zeros; eight rounds are
    enough for 64 bits. *)
Fixpoint NumBytes_loop (fuel : nat) (val : Z) (buf : list Z) : list Z :=
  match fuel with
  | O => buf
  | S f => if 0 <? val then NumBytes_loop f (Z.shiftr val 8) (Z.land val 255 :: buf) else buf
  end.

Definition WriteNumIncreasing (dest : list Z) (val : Z) : list Z :=
  let buf := NumBytes_loop 8 val [] in
  dest ++ Z.of_nat (length buf) :: buf.

(** [Crash] is the [DCHECK] on encodings that are not minimal, [None] the result [false]. *)
Definition ReadNumIncreasing (src : list Z) : outcome (option (Z * list Z)) :=
  match src with
  | [] => Val None
  | len :: payload =>
      if (len =? 0) || bool_decide (payload = []) || negb (bool_decide (head payload = Some 0)) then
        if (Z.of_nat (length src) <? len + 1) || (8 <? len) then Val None
        else
          let tmp := foldl (fun tmp b => Z.lor (u64 (Z.shiftl tmp 8)) b) 0 (take (Z.to_nat len) payload) in
          Val (Some (tmp, drop (Z.to_nat len) payload))
      else Crash
  end.

(** ** Signed numbers *)

Definition kMaxSigned64Length : nat := 10.

Definition kLengthToHeaderBits : list (Z * Z) :=
  [(0, 0); (128, 0); (192, 0); (224, 0); (240, 0); (248, 0); (252, 0); (254, 0);
   (255, 0); (255, 128); (255, 192)].

Definition kLengthToMask : list Z :=
  [0; 0x80; 0xc000; 0xe00000; 0xf0000000; 0xf800000000; 0xfc0000000000;
   0xfe000000000000; 0xff00000000000000; 0x8000000000000000; 0].

Definition kBitsToLength : list Z :=
  [1; 1; 1; 1; 1; 1; 1; 2; 2; 2; 2; 2; 2; 2; 3; 3; 3; 3; 3; 3; 3; 4;
   4; 4; 4; 4; 4; 4; 5; 5; 5; 5; 5; 5; 5; 6; 6; 6; 6; 6; 6; 6; 7; 7;
   7; 7; 7; 7; 7; 8; 8; 8; 8; 8; 8; 8; 9; 9; 9; 9; 9; 9; 9; 10].

(** [63 ^ __builtin_clzll(n)]. *)
Definition Log2Floor64 (n : Z) : Z := if n =? 0 then -1 else Z.lxor 63 (63 - Z.log2 n).

Fixpoint Log2Floor32_Portable_loop (i : nat) (value log : Z) : Z :=
  let shift := Z.shiftl 1 (Z.of_nat i) in
  let x := Z.shiftr value shift in
  let value' := if negb (x =? 0) then x else value in
  let log' := if negb (x =? 0) then log + shift else log in
  match i with
  | O => log'
  | S i => Log2Floor32_Portable_loop i value' log'
  end.
Definition Log2Floor32_Portable (n : Z) : Z :=
  if n =? 0 then -1 else Log2Floor32_Portable_loop 4 n 0.

Definition Log2Floor64_Portable (n : Z) : Z :=
  let topbits := u32 (Z.shiftr n 32) in
  if topbits =? 0 then Log2Floor32_Portable (u32 n) else 32 + Log2Floor32_Portable topbits.

Definition SignedEncodingLength (n : Z) : option Z :=
  kBitsToLength !! Z.to_nat (Log2Floor64 (if n <? 0 then Z.lnot n else n) + 1).

Definition StoreBigEndian64 (v : Z) : list Z :=
  map (fun i => Z.land (Z.shiftr v (56 - 8 * i)) 255) [0; 1; 2; 3; 4; 5; 6; 7].

Definition LoadBigEndian64 (src : list Z) : option Z :=
  if (length src <? 8)%nat then None
  else Some (foldl (fun result ic => Z.lor result (Z.shiftl ic.2 (56 - 8 * ic.1)))
               0 (zip [0; 1; 2; 3; 4; 5; 6; 7] src)).

(** [None] stands for an access outside a table. *)
Definition WriteSignedNumIncreasing (dest : list Z) (val : Z) : option (list Z) :=
  let x := if val <? 0 then Z.lnot val else val in
  if x <? 64 then
    '(h0, _) ← kLengthToHeaderBits !! 1%nat;
    Some (dest ++ [u8 (Z.lxor h0 val)])
  else
    let sign_byte := if val <? 0 then 255 else 0 in
    let buf := [sign_byte; sign_byte] ++ StoreBigEndian64 (u64 val) in
    len ← SignedEncodingLength x;
    '(h0, h1) ← kLengthToHeaderBits !! Z.to_nat len;
    match drop (10 - Z.to_nat len) buf with
    | b0 :: b1 :: t => Some (dest ++ Z.lxor b0 h0 :: Z.lxor b1 h1 :: t)
    | _ => None
    end.

(** [Crash] is the [DCHECK] on the length or an access outside the input. *)
Definition ReadSignedNumIncreasing (src : list Z) : outcome (option (Z * list Z)) :=
  match src with
  | [] => Val None
  | b0 :: _ =>
      let xor_mask := if Z.land b0 128 =? 0 then 2 ^ 64 - 1 else 0 in
      let flip c := Z.lxor c (Z.land xor_mask 255) in
      let first_byte := flip b0 in
      let finish (len : Z) (x : Z) : outcome (option (Z * list Z)) :=
        match kLengthToMask !! Z.to_nat len with
        | Some mask =>
            let x := Z.lxor x mask in
            if bool_decide (SignedEncodingLength (i64 x) = Some len)
            then Val (Some (i64 x, drop (Z.to_nat len) src)) else Crash
        | None => Crash
        end in
      let load (len : Z) : outcome (option (Z * list Z)) :=
        match LoadBigEndian64 (drop (Z.to_nat len - 8) src) with
        | Some x => finish len x
        | None => Crash
        end in
      if negb (first_byte =? 255) then
        let len := 7 - Log2Floor64 (Z.lxor first_byte 255) in
        if Z.of_nat (length src) <? len then Val None
        else finish len (foldl (fun x b => Z.lor (u64 (Z.shiftl x 8)) b) xor_mask (take (Z.to_nat len) src))
      else
        match src with
        | _ :: b1 :: b2 :: _ :: _ :: _ :: _ :: _ :: _ =>
            let second_byte := flip b1 in
            if 128 <=? second_byte then
              let len := if second_byte <? 192 then Some 9
                         else if (second_byte =? 192) && (flip b2 <? 128) then Some 10 else None in
              match len with
              | Some len => if Z.of_nat (length src) <? len then Val None else load len
              | None => Val None
              end
            else load 8
        | _ => Val None
        end
  end.

(** ** Lexicographic order of byte strings *)

Abbreviation byte := (fun b => 0 <= b < 256).

Fixpoint lex_lt (x y : list Z) : bool :=
  match x, y with
  | _, [] => false
  | [], _ :: _ => true
  | a :: x, b :: y => (a <? b) || ((a =? b) && lex_lt x y)
  end.

Lemma lex_lt_app z x y : lex_lt (z ++ x) (z ++ y) = lex_lt x y.
Proof. induction z as [|c z IH]; [done|]. cbn. rewrite Z.ltb_irrefl, Z.eqb_refl. apply IH. Qed.

Lemma lex_lt_cons a b x y : a < b -> lex_lt (a :: x) (b :: y) = true.
Proof. intros H. cbn. by apply Z.ltb_lt in H as ->. Qed.

(** ** Strings *)

(** The reference: each character is escaped by itself. *)
Definition escape_char (c : Z) : list Z :=
  if c =? 0 then [0; 255] else if c =? 255 then [255; 0] else [c].
Definition escape (s : list Z) : list Z := concat (map escape_char s).

Lemma IsSpecialByte_eq c : 0 <= c < 256 -> IsSpecialByte c = (c =? 0) || (c =? 255).
Proof. intros Hc. apply eqb_prop. revert c Hc. apply byte_forall. by vm_compute. Qed.

Lemma escape_plain l : Forall byte l -> Forall (fun c => IsSpecialByte c = false) l -> escape l = l.
Proof.
  induction l as [|c l IH]; [done|]. intros [Hc Hl]%Forall_cons [Hs Hn]%Forall_cons. unfold escape. cbn.
  rewrite IsSpecialByte_eq in Hs by done. apply orb_false_iff in Hs as [E1 E2]. unfold escape_char. rewrite E1, E2.
  cbn. f_equal. by apply IH.
Qed.

Lemma escape_app l1 l2 : escape (l1 ++ l2) = escape l1 ++ escape l2.
Proof. unfold escape. by rewrite map_app, concat_app. Qed.

(** A string is a plain prefix, followed by nothing or by a special byte. *)
Lemma Skip_split s :
  let n := SkipToNextSpecialByte s in
  Forall (fun c => IsSpecialByte c = false) (take n s)
  /\ match drop n s with [] => True | c :: _ => IsSpecialByte c = true end.
Proof.
  induction s as [|c s IH]; [done|]. cbn. destruct (IsSpecialByte c) eqn:E; cbn; [done|].
  destruct IH. split; [by constructor|done].
Qed.

Lemma Skip_app pre c l :
  Forall (fun c => IsSpecialByte c = false) pre -> IsSpecialByte c = true ->
  SkipToNextSpecialByte (pre ++ c :: l) = length pre.
Proof. intros Hp Hc. induction Hp as [|d pre Hd _ IH]; cbn; [by rewrite Hc|]. by rewrite Hd, IH. Qed.

Lemma EncodeStringFragment_loop_eq fuel dest s :
  Forall byte s -> (length s < fuel)%nat -> EncodeStringFragment_loop fuel dest s = dest ++ escape s.
Proof.
  revert dest s. induction fuel as [|f IH]; intros dest s Hs Hf; [lia|]. cbn [EncodeStringFragment_loop].
  pose proof (Skip_split s) as [Hpre Hpost]. set (n := SkipToNextSpecialByte s) in *.
  rewrite <- (take_drop n s) in Hs at 1. apply Forall_app in Hs as [Hb1 Hb2].
  assert (escape s = take n s ++ escape (drop n s)) as ->.
  { rewrite <- (escape_plain (take n s)) at 1 by done. by rewrite <- escape_app, take_drop. }
  assert (length (drop n s) <= length s)%nat as Hl by (rewrite length_drop; lia).
  destruct (drop n s) as [|c rest] eqn:E.
  { rewrite <- (take_drop n s) at 1. by rewrite E. }
  cbn in Hl. apply Forall_cons in Hb2 as [Hc Hb2]. rewrite IsSpecialByte_eq in Hpost by done.
  unfold escape at 1. cbn [map concat]. fold (escape rest). unfold escape_char, kEscape1, kNullCharacter, kEscape2, kFFCharacter.
  destruct (Z.eqb_spec c 0); [rewrite IH by (done || lia); by rewrite <- !app_assoc|].
  rewrite IH by (done || lia). cbn in Hpost. rewrite Hpost. by rewrite <- !app_assoc.
Qed.

Lemma WriteString_eq dest s : Forall byte s -> WriteString dest s = dest ++ escape s ++ [0; 1].
Proof.
  intros Hs. unfold WriteString, EncodeStringFragment. rewrite EncodeStringFragment_loop_eq by (done || lia).
  by rewrite <- app_assoc.
Qed.

Lemma ReadString_step f pre d e tl res :
  Forall (fun c => IsSpecialByte c = false) pre -> IsSpecialByte d = true ->
  ReadStringInternal_loop (S f) (pre ++ d :: e :: tl) res =
    if d =? 0 then
      if e =? 1 then Some (res ++ pre, tl)
      else if e =? 255 then ReadStringInternal_loop f tl ((res ++ pre) ++ [0]) else None
    else if e =? 0 then ReadStringInternal_loop f tl ((res ++ pre) ++ [255]) else None.
Proof.
  intros Hp Hd. cbn [ReadStringInternal_loop].
  assert (length (pre ++ d :: e :: tl) - 1 = length pre + S (length tl))%nat as El by (rewrite length_app; cbn; lia).
  rewrite El. rewrite take_app_add. cbn [take]. rewrite Skip_app by done.
  rewrite (proj2 (Nat.leb_gt _ _)) by lia. rewrite drop_app_length, take_app_length. done.
Qed.

Lemma ReadString_loop_eq fuel s rest res :
  Forall byte s -> (length s < fuel)%nat ->
  ReadStringInternal_loop fuel (escape s ++ 0 :: 1 :: rest) res = Some (res ++ s, rest).
Proof.
  revert s res. induction fuel as [|f IH]; intros s res Hs Hf; [lia|].
  pose proof (Skip_split s) as [Hpre Hpost]. set (n := SkipToNextSpecialByte s) in *.
  rewrite <- (take_drop n s) in Hs at 1. apply Forall_app in Hs as [Hb1 Hb2].
  assert (escape s = take n s ++ escape (drop n s)) as ->.
  { rewrite <- (escape_plain (take n s)) at 1 by done. by rewrite <- escape_app, take_drop. }
  assert (length (drop n s) <= length s)%nat as Hl by (rewrite length_drop; lia).
  assert (res ++ s = (res ++ take n s) ++ drop n s) as -> by (by rewrite <- app_assoc, take_drop).
  destruct (drop n s) as [|c rest'] eqn:E.
  { cbn [escape map concat app]. rewrite app_nil_r, app_nil_r, ReadString_step by done. done. }
  cbn in Hl. apply Forall_cons in Hb2 as [Hc Hb2]. rewrite IsSpecialByte_eq in Hpost by done.
  unfold escape at 1. cbn [map concat]. fold (escape rest'). unfold escape_char.
  destruct (Z.eqb_spec c 0) as [->|Hc0]; [|cbn in Hpost; rewrite Hpost; apply Z.eqb_eq in Hpost as ->];
    rewrite <- !app_assoc; cbn [app]; rewrite ReadString_step by done; cbn [Z.eqb];
    rewrite IH by (done || lia); by rewrite <- !app_assoc.
Qed.

Lemma ReadString_WriteString s rest :
  Forall byte s -> ReadString (WriteString [] s ++ rest) = Some (s, rest).
Proof.
  intros Hs. rewrite WriteString_eq by done. unfold ReadString. cbn [app]. rewrite <- app_assoc. cbn [app].
  rewrite ReadString_loop_eq; [done|done|]. rewrite length_app.
  assert (length s <= length (escape s))%nat; [|cbn; lia].
  clear Hs. induction s as [|c s IH]; [done|]. unfold escape. cbn. fold (escape s). rewrite length_app.
  assert (1 <= length (escape_char c))%nat; [|lia]. unfold escape_char. destruct (c =? 0), (c =? 255); cbn; lia.
Qed.

Lemma escape_lt x y r1 r2 :
  Forall byte x -> Forall byte y -> lex_lt x y = true ->
  lex_lt (escape x ++ 0 :: 1 :: r1) (escape y ++ 0 :: 1 :: r2) = true.
Proof.
  revert y. induction x as [|a x IH]; intros [|b y] Hx Hy Hlt; try done.
  - apply Forall_cons in Hy as [Hb _]. unfold escape. cbn [map concat app]. unfold escape_char.
    destruct (Z.eqb_spec b 0); [done|]. destruct (b =? 255); cbn [app]; apply lex_lt_cons; lia.
  - apply Forall_cons in Hx as [Ha Hx], Hy as [Hb Hy]. cbn in Hlt.
    change (escape (a :: x)) with (escape_char a ++ escape x). change (escape (b :: y)) with (escape_char b ++ escape y).
    rewrite <- !app_assoc. apply orb_true_iff in Hlt as [Hlt%Z.ltb_lt|[->%Z.eqb_eq Hlt]%andb_true_iff].
    + unfold escape_char. destruct (Z.eqb_spec a 0), (Z.eqb_spec b 0), (Z.eqb_spec a 255), (Z.eqb_spec b 255);
        try lia; cbn [app]; apply lex_lt_cons; lia.
    + rewrite lex_lt_app. by apply IH.
Qed.

(** ** Big-endian numbers *)

Fixpoint be (n : nat) (x : Z) : list Z :=
  match n with O => [] | S n => be n (x / 256) ++ [x mod 256] end.

Lemma length_be n x : length (be n x) = n.
Proof. revert x. induction n as [|n IH]; intros x; [done|]. cbn. rewrite length_app, IH. cbn. lia. Qed.

Lemma be_bytes n x : Forall byte (be n x).
Proof.
  revert x. induction n as [|n IH]; intros x; [constructor|]. cbn. apply Forall_app. split; [apply IH|].
  constructor; [|done]. apply Z.mod_pos_bound. lia.
Qed.

Lemma be_split n m x : be (n + m) x = be n (x / 256 ^ Z.of_nat m) ++ be m x.
Proof.
  revert x. induction m as [|m IH]; intros x.
  { rewrite Nat.add_0_r, Z.div_1_r. cbn. by rewrite app_nil_r. }
  rewrite Nat.add_succ_r. cbn [be]. rewrite IH, app_assoc, Z.div_div by (try apply Z.pow_pos_nonneg; lia).
  by rewrite Nat2Z.inj_succ, Z.pow_succ_r by lia.
Qed.

Lemma be_lt n a b r1 r2 :
  0 <= a < b -> b < 256 ^ Z.of_nat n -> lex_lt (be n a ++ r1) (be n b ++ r2) = true.
Proof.
  revert a b r1 r2. induction n as [|n IH]; intros a b r1 r2 Hab Hb; [cbn in Hb; lia|].
  cbn [be]. rewrite <- !app_assoc. rewrite Nat2Z.inj_succ, Z.pow_succ_r in Hb by lia.
  pose proof (Z.div_mod a 256 ltac:(lia)). pose proof (Z.div_mod b 256 ltac:(lia)).
  pose proof (Z.mod_pos_bound a 256 ltac:(lia)). pose proof (Z.mod_pos_bound b 256 ltac:(lia)).
  destruct (Z.eq_dec (a / 256) (b / 256)) as [E|Hne].
  - rewrite E, lex_lt_app. cbn [app]. apply lex_lt_cons. lia.
  - apply IH; [split; [apply Z.div_pos; lia|]|apply Z.div_lt_upper_bound; lia].
    pose proof (Z.div_le_mono a b 256 ltac:(lia) ltac:(lia)). lia.
Qed.

(** Numbers of different lengths, compared on their common leading bytes. *)
Lemma be_lt_short n m a b r1 r2 :
  (n <= m)%nat -> 0 <= a -> 0 <= b < 256 ^ Z.of_nat m -> (a + 1) * 256 ^ Z.of_nat (m - n) <= b ->
  lex_lt (be n a ++ r1) (be m b ++ r2) = true.
Proof.
  intros Hnm Ha Hb Hle. assert (exists k, m = (n + k)%nat) as [k ->] by (exists (m - n)%nat; lia).
  replace (n + k - n)%nat with k in * by lia.
  assert (0 < 256 ^ Z.of_nat k) by (apply Z.pow_pos_nonneg; lia).
  rewrite be_split, <- app_assoc. apply be_lt.
  - split; [done|]. assert (a + 1 <= b / 256 ^ Z.of_nat k); [|lia]. apply Z.div_le_lower_bound; lia.
  - apply Z.div_lt_upper_bound; [done|]. rewrite Nat2Z.inj_add, Z.pow_add_r in Hb by lia. lia.
Qed.

Lemma be_lt_long n m a b r1 r2 :
  (m <= n)%nat -> 0 <= a -> 0 <= b < 256 ^ Z.of_nat m -> a < b * 256 ^ Z.of_nat (n - m) ->
  lex_lt (be n a ++ r1) (be m b ++ r2) = true.
Proof.
  intros Hnm Ha Hb Hlt. assert (exists k, n = (m + k)%nat) as [k ->] by (exists (n - m)%nat; lia).
  replace (m + k - m)%nat with k in * by lia.
  assert (0 < 256 ^ Z.of_nat k) by (apply Z.pow_pos_nonneg; lia).
  rewrite be_split, <- app_assoc. apply be_lt; [|lia]. split; [by apply Z.div_pos; lia|].
  apply Z.div_lt_upper_bound; lia.
Qed.

(** ** Unsigned numbers *)

Lemma NumBytes_loop_eq f val buf :
  0 <= val < 256 ^ Z.of_nat f ->
  exists k, NumBytes_loop f val buf = be k val ++ buf /\ (k <= f)%nat /\ val < 256 ^ Z.of_nat k
    /\ (k = O \/ 256 ^ (Z.of_nat k - 1) <= val).
Proof.
  revert val buf. induction f as [|f IH]; intros val buf Hv.
  { exists O. cbn in *. split_and!; try done; [lia|by left]. }
  cbn [NumBytes_loop]. destruct (Z.ltb_spec 0 val) as [Hpos|Hz].
  2:{ exists O. cbn. split_and!; try done; [lia|lia|by left]. }
  rewrite Nat2Z.inj_succ, Z.pow_succ_r in Hv by lia.
  rewrite Z.shiftr_div_pow2 by lia. change (2 ^ 8) with 256. pose proof (Z.div_mod val 256 ltac:(lia)) as Hdm.
  pose proof (Z.mod_pos_bound val 256 ltac:(lia)).
  destruct (IH (val / 256) (Z.land val 255 :: buf)) as (k & E & Hk & Hlt & Hge).
  { split; [apply Z.div_pos; lia|apply Z.div_lt_upper_bound; lia]. }
  exists (S k). rewrite E. cbn [be]. rewrite <- app_assoc. cbn [app].
  rewrite (land_ones_mod val 8 ltac:(lia) : Z.land val 255 = val mod 256). rewrite Nat2Z.inj_succ.
  replace (Z.succ (Z.of_nat k) - 1) with (Z.of_nat k) by lia. rewrite Z.pow_succ_r by lia.
  split_and!; [done|lia|lia|right]. destruct Hge as [->|Hge]; [cbn; lia|].
  destruct k as [|k]; [cbn; lia|]. rewrite Nat2Z.inj_succ in *. replace (Z.succ (Z.of_nat k) - 1) with (Z.of_nat k) in Hge by lia.
  rewrite Z.pow_succ_r by lia. lia.
Qed.

Lemma shift_in t b : 0 <= t -> 0 <= b < 256 -> Z.lor (u64 (Z.shiftl t 8)) b = u64 (t * 256 + b).
Proof.
  intros Ht Hb. unfold u64. rewrite Z.shiftl_mul_pow2 by lia. change (2 ^ 8) with 256.
  change (2 ^ 64) with (2 ^ 56 * 256). rewrite Z.mul_mod_distr_r by lia.
  assert ((t * 256 + b) mod (2 ^ 56 * 256) = t mod 2 ^ 56 * 256 + b) as ->.
  { rewrite (Z.div_mod t (2 ^ 56)) at 1 by lia. pose proof (Z.mod_pos_bound t (2 ^ 56) ltac:(lia)).
    replace ((2 ^ 56 * (t / 2 ^ 56) + t mod 2 ^ 56) * 256 + b)
      with (t mod 2 ^ 56 * 256 + b + t / 2 ^ 56 * (2 ^ 56 * 256)) by lia.
    rewrite Z.mod_add by lia. apply Z.mod_small. lia. }
  pose proof (lor_shift_add b (t mod 2 ^ 56) 8 ltac:(lia) ltac:(lia)) as E.
  rewrite Z.shiftl_mul_pow2 in E by lia. change (2 ^ 8) with 256 in E. rewrite Z.lor_comm, E. lia.
Qed.

Lemma foldl_be k i x :
  0 <= i < 2 ^ 64 -> 0 <= x < 256 ^ Z.of_nat k ->
  foldl (fun x b => Z.lor (u64 (Z.shiftl x 8)) b) i (be k x) = u64 (i * 256 ^ Z.of_nat k + x).
Proof.
  intros Hi. revert x. induction k as [|k IH]; intros x Hx.
  { cbn in *. rewrite u64_small; lia. }
  cbn [be]. rewrite foldl_app. cbn [foldl]. rewrite Nat2Z.inj_succ, Z.pow_succ_r in * by lia.
  pose proof (Z.div_mod x 256 ltac:(lia)). pose proof (Z.mod_pos_bound x 256 ltac:(lia)) as Hm.
  rewrite IH by (split; [apply Z.div_pos; lia|apply Z.div_lt_upper_bound; lia]).
  rewrite shift_in by (apply u64_range || done). unfold u64.
  rewrite Z.add_mod, Z.mul_mod, Z.mod_mod, <- Z.mul_mod, <- Z.add_mod by lia. f_equal. lia.
Qed.

Lemma be_head k x : be (S k) x = (x / 256 ^ Z.of_nat k) mod 256 :: be k x.
Proof. rewrite <- (Nat.add_1_l k), be_split. done. Qed.

Lemma ReadNum_WriteNum v rest :
  0 <= v < 2 ^ 64 -> ReadNumIncreasing (WriteNumIncreasing [] v ++ rest) = Val (Some (v, rest)).
Proof.
  intros Hv. unfold WriteNumIncreasing. destruct (NumBytes_loop_eq 8 v []) as (k & E & Hk & Hlt & Hge); [cbn; lia|].
  rewrite E, app_nil_r. cbn [app]. rewrite length_be. cbn [ReadNumIncreasing].
  assert ((Z.of_nat k =? 0) || bool_decide (be k v ++ rest = []) || negb (bool_decide (head (be k v ++ rest) = Some 0)) = true) as ->.
  { destruct k as [|k]; [done|]. rewrite be_head. cbn [app head]. rewrite (bool_decide_false (_ = Some 0)); [by rewrite orb_true_r|].
    intros [= E0]. destruct Hge as [?|Hge]; [done|]. rewrite Nat2Z.inj_succ in *.
    replace (Z.succ (Z.of_nat k) - 1) with (Z.of_nat k) in Hge by lia. rewrite Z.pow_succ_r in Hlt by lia.
    assert (0 < 256 ^ Z.of_nat k) by (apply Z.pow_pos_nonneg; lia).
    assert (1 <= v / 256 ^ Z.of_nat k) by (apply Z.div_le_lower_bound; lia).
    assert (v / 256 ^ Z.of_nat k < 256) by (apply Z.div_lt_upper_bound; lia). rewrite Z.mod_small in E0; lia. }
  rewrite (proj2 (Z.ltb_ge _ _)) by (cbn [length]; rewrite length_app, length_be; lia).
  rewrite (proj2 (Z.ltb_ge _ _)) by lia. cbn [orb]. rewrite Nat2Z.id.
  rewrite take_app_le by (rewrite length_be; lia). rewrite take_ge by (rewrite length_be; lia).
  rewrite foldl_be by lia. rewrite Z.mul_0_l, Z.add_0_l, u64_small by done.
  rewrite drop_app_ge by (rewrite length_be; lia). by rewrite length_be, Nat.sub_diag.
Qed.

Lemma WriteNum_lt a b r1 r2 :
  0 <= a < b -> b < 2 ^ 64 -> lex_lt (WriteNumIncreasing [] a ++ r1) (WriteNumIncreasing [] b ++ r2) = true.
Proof.
  intros Hab Hb. unfold WriteNumIncreasing.
  destruct (NumBytes_loop_eq 8 a []) as (k & -> & Hk & Hlt & Hge); [cbn; lia|].
  destruct (NumBytes_loop_eq 8 b []) as (j & -> & Hj & Hlt' & Hge'); [cbn; lia|].
  rewrite !app_nil_r, !length_be. cbn [app].
  destruct (Nat.lt_trichotomy k j) as [Hkj|[->|Hkj]].
  - apply lex_lt_cons. lia.
  - change (lex_lt ([Z.of_nat j] ++ (be j a ++ r1)) ([Z.of_nat j] ++ (be j b ++ r2)) = true).
    rewrite lex_lt_app. by apply be_lt.
  - exfalso. destruct Hge as [?|Hge]; [lia|].
    assert (256 ^ Z.of_nat j <= 256 ^ (Z.of_nat k - 1)) by (apply Z.pow_le_mono_r; lia). lia.
Qed.

(** ** Signed numbers *)

(** The number of bytes for a value: [n] bytes hold [-2^(7n-1), 2^(7n-1)). *)
Definition magnitude (v : Z) : Z := if v <? 0 then Z.lnot v else v.
Definition fits (n : Z) (v : Z) : Prop :=
  - 2 ^ (7 * n - 1) <= v < 2 ^ (7 * n - 1) /\ (n = 1 \/ 2 ^ (7 * (n - 1) - 1) <= magnitude v).

(** The value of the encoding as a big-endian number: [n] size bits and the payload. *)
Definition code (n v : Z) : Z := if v <? 0 then v + 2 ^ (7 * n) else v + 2 ^ (8 * n) - 2 ^ (7 * n).

Lemma magnitude_range v n : 0 <= n -> - 2 ^ n <= v < 2 ^ n <-> 0 <= magnitude v < 2 ^ n.
Proof. intros Hn. unfold magnitude, Z.lnot. destruct (Z.ltb_spec v 0); lia. Qed.

Lemma Log2Floor64_eq n : 0 < n < 2 ^ 64 -> Log2Floor64 n = Z.log2 n.
Proof.
  intros Hn. unfold Log2Floor64. destruct (Z.eqb_spec n 0); [lia|].
  assert (0 <= Z.log2 n < 64) as Hl by (split; [apply Z.log2_nonneg|apply Z.log2_lt_pow2; lia]).
  assert (forallb (fun k => Z.lxor 63 (63 - k) =? k) (seqZ 0 64) = true) as Ht by (by vm_compute).
  rewrite forallb_forall in Ht. apply Z.eqb_eq, Ht, list_elem_of_In, elem_of_seqZ. lia.
Qed.

Lemma kBitsToLength_eq b : 0 <= b <= 63 -> kBitsToLength !! Z.to_nat b = Some (b / 7 + 1).
Proof.
  intros Hb. assert (forallb (fun b => bool_decide (kBitsToLength !! Z.to_nat b = Some (b / 7 + 1))) (seqZ 0 64) = true) as Ht
    by (by vm_compute).
  rewrite forallb_forall in Ht. specialize (Ht b ltac:(apply list_elem_of_In, elem_of_seqZ; lia)).
  by apply bool_decide_eq_true in Ht.
Qed.

Lemma SignedEncodingLength_eq v :
  - 2 ^ 63 <= v < 2 ^ 63 -> exists n, SignedEncodingLength v = Some n /\ 1 <= n <= 10 /\ fits n v.
Proof.
  intros Hv. unfold SignedEncodingLength. fold (magnitude v). apply (magnitude_range v 63) in Hv; [|lia].
  unfold fits. destruct (Z.eq_dec (magnitude v) 0) as [E|Hne].
  { rewrite E. exists 1. split_and!; try done; [| |by left]; apply (magnitude_range v 6); lia. }
  assert (0 <= Z.log2 (magnitude v) < 63) as Hl by (split; [apply Z.log2_nonneg|apply Z.log2_lt_pow2; lia]).
  rewrite Log2Floor64_eq, kBitsToLength_eq by lia. set (l := Z.log2 (magnitude v)) in *.
  pose proof (Z.div_mod (l + 1) 7 ltac:(lia)). pose proof (Z.mod_pos_bound (l + 1) 7 ltac:(lia)).
  pose proof (Z.log2_spec (magnitude v) ltac:(lia)) as [Hlo Hhi]. fold l in Hlo, Hhi.
  exists ((l + 1) / 7 + 1). split_and!; [done|lia|lia|..].
  - apply (magnitude_range v); [lia|]. split; [lia|]. eapply Z.lt_le_trans; [exact Hhi|]. apply Z.pow_le_mono_r; lia.
  - apply (magnitude_range v); [lia|]. split; [lia|]. eapply Z.lt_le_trans; [exact Hhi|]. apply Z.pow_le_mono_r; lia.
  - destruct (Z.eq_dec ((l + 1) / 7) 0) as [E|E]; [left; lia|right]. etrans; [|exact Hlo]. apply Z.pow_le_mono_r; lia.
Qed.

(** Leading bytes of the encoding: adding the size bits to the leading bytes of the value. *)
Definition add_size_bits (n k t : Z) : Z :=
  if t <? 0 then t + 2 ^ (8 * k - n) else t + 2 ^ (8 * k) - 2 ^ (8 * k - n).

Lemma pow_split a b : 0 <= a <= b -> 2 ^ b = 2 ^ (b - a) * 2 ^ a.
Proof. intros H. rewrite <- Z.pow_add_r by lia. f_equal. lia. Qed.

Lemma pow_256 n : 0 <= n -> 256 ^ n = 2 ^ (8 * n).
Proof. intros Hn. change 256 with (2 ^ 8). by rewrite <- Z.pow_mul_r by lia. Qed.

(** The top [k] of the [n] bytes of the code. *)
Lemma code_top n k v :
  0 <= k <= n -> n <= 8 * k -> code n v / 256 ^ (n - k) = add_size_bits n k (v / 256 ^ (n - k)).
Proof.
  intros Hk Hn. rewrite pow_256 by lia. assert (0 < 2 ^ (8 * (n - k))) as Hp by (apply Z.pow_pos_nonneg; lia).
  assert (2 ^ (7 * n) = 2 ^ (8 * k - n) * 2 ^ (8 * (n - k))) as E7 by (rewrite <- Z.pow_add_r by lia; f_equal; lia).
  assert (2 ^ (8 * n) = 2 ^ (8 * k) * 2 ^ (8 * (n - k))) as E8 by (rewrite <- Z.pow_add_r by lia; f_equal; lia).
  unfold code, add_size_bits. destruct (Z.ltb_spec v 0) as [Hneg|Hpos].
  - assert (v / 2 ^ (8 * (n - k)) < 0) as Hd by (apply Z.div_lt_upper_bound; lia).
    rewrite (proj2 (Z.ltb_lt _ _) Hd), E7. by rewrite Z.div_add by lia.
  - assert (0 <= v / 2 ^ (8 * (n - k))) as Hd by (apply Z.div_pos; lia).
    rewrite (proj2 (Z.ltb_ge _ _) Hd), E7, E8.
    replace (v + _ - _) with (v + (2 ^ (8 * k) - 2 ^ (8 * k - n)) * 2 ^ (8 * (n - k))) by lia.
    rewrite Z.div_add by lia. lia.
Qed.

Lemma code_range n v : 1 <= n -> fits n v -> 0 <= code n v < 256 ^ n.
Proof.
  intros Hn [Hv _]. rewrite pow_256 by lia. unfold code.
  assert (2 ^ (7 * n) = 2 * 2 ^ (7 * n - 1)) as E by (rewrite <- Z.pow_succ_r by lia; f_equal; lia).
  assert (2 ^ (7 * n) <= 2 ^ (8 * n)) by (apply Z.pow_le_mono_r; lia).
  assert (0 < 2 ^ (7 * n - 1)) by (apply Z.pow_pos_nonneg; lia).
  destruct (Z.ltb_spec v 0); lia.
Qed.

(** Two's complement: [be] only depends on the value modulo 256^n. *)
Lemma be_mod n x y : x mod 256 ^ Z.of_nat n = y mod 256 ^ Z.of_nat n -> be n x = be n y.
Proof.
  revert x y. induction n as [|n IH]; intros x y E; [done|]. cbn [be].
  rewrite Nat2Z.inj_succ, Z.pow_succ_r in E by lia. assert (0 < 256 ^ Z.of_nat n) by (apply Z.pow_pos_nonneg; lia).
  rewrite !Z.rem_mul_r in E by lia. pose proof (Z.mod_pos_bound x 256 ltac:(lia)). pose proof (Z.mod_pos_bound y 256 ltac:(lia)).
  f_equal; [apply IH; lia|f_equal; lia].
Qed.

Lemma code_low n k v : 8 * Z.of_nat k <= 7 * n -> be k (code n v) = be k v.
Proof.
  intros Hn. apply be_mod. rewrite pow_256 by lia.
  assert (2 ^ (7 * n) = 2 ^ (7 * n - 8 * Z.of_nat k) * 2 ^ (8 * Z.of_nat k)) as E7 by (apply pow_split; lia).
  assert (2 ^ (8 * n) = 2 ^ (8 * n - 8 * Z.of_nat k) * 2 ^ (8 * Z.of_nat k)) as E8 by (apply pow_split; lia).
  assert (0 < 2 ^ (8 * Z.of_nat k)) by (apply Z.pow_pos_nonneg; lia).
  unfold code. destruct (v <? 0); rewrite E7, ?E8; [by rewrite Z.mod_add by lia|].
  replace (v + _ - _) with (v + (2 ^ (8 * n - 8 * Z.of_nat k) - 2 ^ (7 * n - 8 * Z.of_nat k)) * 2 ^ (8 * Z.of_nat k)) by lia.
  by rewrite Z.mod_add by lia.
Qed.

(** The tables of header bits, against the leading byte for up to eight bytes, and
    against the leading two bytes for nine and ten. *)
Definition header_ok (n : Z) (t : Z) : Prop :=
  exists h0 h1, kLengthToHeaderBits !! Z.to_nat n = Some (h0, h1)
    /\ [Z.lxor ((t / 256) mod 256) h0; Z.lxor (t mod 256) h1] = be 2 (add_size_bits n 2 t).

Definition header_check1 (n u : Z) : bool :=
  match kLengthToHeaderBits !! Z.to_nat n with
  | Some (h0, h1) => (h1 =? 0) && (Z.lxor (u mod 256) h0 =? add_size_bits n 1 u mod 256)
  | None => false
  end.

Definition header_check2 (n t : Z) : bool :=
  match kLengthToHeaderBits !! Z.to_nat n with
  | Some (h0, h1) =>
      (Z.lxor ((t / 256) mod 256) h0 =? (add_size_bits n 2 t / 256) mod 256)
      && (Z.lxor (t mod 256) h1 =? add_size_bits n 2 t mod 256)
  | None => false
  end.

Lemma range_check (P : Z -> Z -> bool) (w : Z -> Z) lo num n t :
  forallb (fun n => forallb (P n) (seqZ (- w n) (2 * w n))) (seqZ lo num) = true ->
  lo <= n < lo + num -> - w n <= t < w n -> P n t = true.
Proof.
  intros H Hn Ht. rewrite forallb_forall in H. specialize (H n ltac:(apply list_elem_of_In, elem_of_seqZ; lia)).
  rewrite forallb_forall in H. apply H, list_elem_of_In, elem_of_seqZ. lia.
Qed.

Lemma add_size_bits_low n t :
  n <= 8 -> add_size_bits n 2 t / 256 = add_size_bits n 1 (t / 256) /\ add_size_bits n 2 t mod 256 = t mod 256.
Proof.
  intros Hn. assert (2 ^ (8 * 2 - n) = 2 ^ (8 * 1 - n) * 256) as E
    by (replace (8 * 2 - n) with (8 * 1 - n + 8) by lia; by rewrite Z.pow_add_r by lia).
  unfold add_size_bits. change (2 ^ (8 * 2)) with (256 * 256). change (2 ^ (8 * 1)) with 256. rewrite E.
  destruct (Z.ltb_spec t 0).
  - rewrite (proj2 (Z.ltb_lt (t / 256) 0)) by (apply Z.div_lt_upper_bound; lia).
    by rewrite Z.div_add, Z.mod_add by lia.
  - rewrite (proj2 (Z.ltb_ge (t / 256) 0)) by (apply Z.div_pos; lia).
    replace (t + 256 * 256 - 2 ^ (8 * 1 - n) * 256) with (t + (256 - 2 ^ (8 * 1 - n)) * 256) by lia.
    rewrite Z.div_add, Z.mod_add by lia. split; [lia|done].
Qed.

Lemma header_table n t : 2 <= n <= 10 -> - 2 ^ (15 - n) <= t < 2 ^ (15 - n) -> header_ok n t.
Proof.
  intros Hn Ht. unfold header_ok. cbn [be app]. destruct (Z.le_gt_cases n 8) as [Hs|Hb].
  - assert (header_check1 n (t / 256) = true) as Hc.
    { apply (range_check header_check1 (fun n => if n =? 8 then 1 else 2 ^ (7 - n)) 2 7); [by vm_compute|lia|]. cbn beta.
      destruct (Z.eqb_spec n 8) as [->|Hn8].
      - change (2 ^ (15 - 8)) with 128 in Ht. split; [apply Z.div_le_lower_bound; lia|apply Z.div_lt_upper_bound; lia].
      - assert (2 ^ (15 - n) = 2 ^ (7 - n) * 256) as E
          by (replace (15 - n) with (7 - n + 8) by lia; by rewrite Z.pow_add_r by lia).
        split; [apply Z.div_le_lower_bound; lia|apply Z.div_lt_upper_bound; lia]. }
    unfold header_check1 in Hc. destruct (_ !! _) as [[h0 h1]|]; [|done].
    apply andb_true_iff in Hc as [->%Z.eqb_eq Hc%Z.eqb_eq]. exists h0, 0. split; [done|].
    destruct (add_size_bits_low n t Hs) as [-> ->]. by rewrite Hc, Z.lxor_0_r.
  - assert (header_check2 n t = true) as Hc.
    { apply (range_check header_check2 (fun n => 2 ^ (15 - n)) 9 2); [by vm_compute|lia|exact Ht]. }
    unfold header_check2 in Hc. destruct (_ !! _) as [[h0 h1]|]; [|done].
    apply andb_true_iff in Hc as [E1%Z.eqb_eq E2%Z.eqb_eq]. exists h0, h1. by rewrite E1, E2.
Qed.

Lemma StoreBigEndian64_be v : StoreBigEndian64 v = be 8 v.
Proof.
  unfold StoreBigEndian64. cbn [map]. cbn [be app]. rewrite !Z.div_div by lia.
  assert (forall z, Z.land z 255 = z mod 256) as E by (intros z; apply (land_ones_mod z 8); lia).
  rewrite !E, !Z.shiftr_div_pow2 by lia. cbn. by rewrite Z.div_1_r.
Qed.

Lemma buf_be v :
  - 2 ^ 63 <= v < 2 ^ 63 ->
  (let sb := if v <? 0 then 255 else 0 in [sb; sb] ++ StoreBigEndian64 (u64 v)) = be 10 v.
Proof.
  intros Hv. cbv zeta. rewrite StoreBigEndian64_be. change 10%nat with (2 + 8)%nat. rewrite be_split.
  change (256 ^ Z.of_nat 8) with (2 ^ 64). f_equal.
  - destruct (Z.ltb_spec v 0).
    + replace (v / 2 ^ 64) with (-1); [done|]. apply (Z.div_unique v (2 ^ 64) (-1) (v + 2 ^ 64)); lia.
    + by rewrite Z.div_small by lia.
  - apply be_mod. change (256 ^ Z.of_nat 8) with (2 ^ 64). unfold u64. by rewrite Z.mod_mod.
Qed.

Lemma fast_path v : - 64 <= v < 64 -> u8 (Z.lxor 128 v) = code 1 v.
Proof.
  intros Hv. assert (code 1 v = v + 128) as -> by (unfold code; destruct (v <? 0); cbn; lia).
  assert (forallb (fun b => u8 (Z.lxor 128 (b - 64)) =? b + 64) (seqZ 0 128) = true) as H by (by vm_compute).
  rewrite forallb_forall in H. specialize (H (v + 64) ltac:(apply list_elem_of_In, elem_of_seqZ; lia)).
  apply Z.eqb_eq in H. replace (v + 64 - 64) with v in H by lia. lia.
Qed.

(** [WriteSignedNumIncreasing] writes the code in as many bytes as needed. *)
Lemma WriteSigned_eq dest v :
  - 2 ^ 63 <= v < 2 ^ 63 ->
  exists n : nat, WriteSignedNumIncreasing dest v = Some (dest ++ be n (code (Z.of_nat n) v))
    /\ SignedEncodingLength v = Some (Z.of_nat n) /\ (1 <= n <= 10)%nat /\ fits (Z.of_nat n) v.
Proof.
  intros Hv. destruct (SignedEncodingLength_eq v Hv) as (m & El & Hm & Hfit). exists (Z.to_nat m).
  rewrite Z2Nat.id by lia. split; [|split_and!; [done|lia|lia|apply Hfit..]].
  unfold WriteSignedNumIncreasing. fold (magnitude v). destruct (Z.ltb_spec (magnitude v) 64) as [Hs|Hb].
  - cbn [kLengthToHeaderBits lookup list_lookup mbind option_bind].
    assert (m = 1) as -> by (destruct Hfit as [_ [?|Hge]]; [done|];
      destruct (Z.eq_dec m 1); [done|]; exfalso;
      assert (2 ^ 6 <= 2 ^ (7 * (m - 1) - 1)) by (apply Z.pow_le_mono_r; lia); lia).
    assert (- 64 <= v < 64) as Hr by (unfold magnitude, Z.lnot in Hs; destruct (Z.ltb_spec v 0); lia).
    rewrite fast_path by done. pose proof (code_range 1 v ltac:(lia) Hfit) as Hcr.
    change (256 ^ 1) with 256 in Hcr. change (be (Z.to_nat 1) (code 1 v)) with [code 1 v mod 256].
    by rewrite Z.mod_small by lia.
  - assert (0 <= magnitude v) as Hm0 by (apply (magnitude_range v 63); lia).
    assert (SignedEncodingLength (magnitude v) = Some m) as ->.
    { rewrite <- El. unfold SignedEncodingLength. fold (magnitude v). by rewrite (proj2 (Z.ltb_ge _ _)). }
    assert (2 <= m) as Hm2.
    { destruct (Z.eq_dec m 1) as [->|]; [|lia]. destruct Hfit as [Hr _]. apply (magnitude_range v 6) in Hr; lia. }
    pose proof (buf_be v Hv) as Hbuf. cbv zeta in Hbuf |- *. rewrite Hbuf. cbn [mbind option_bind]. set (t := v / 256 ^ (m - 2)).
    assert (- 2 ^ (15 - m) <= t < 2 ^ (15 - m)) as Ht.
    { destruct Hfit as [Hr _]. unfold t. rewrite pow_256 by lia.
      assert (0 < 2 ^ (8 * (m - 2))) by (apply Z.pow_pos_nonneg; lia).
      assert (2 ^ (7 * m - 1) = 2 ^ (15 - m) * 2 ^ (8 * (m - 2))) as E by (rewrite <- Z.pow_add_r by lia; f_equal; lia).
      split; [apply Z.div_le_lower_bound; lia|apply Z.div_lt_upper_bound; lia]. }
    pose proof (header_table m t ltac:(lia) Ht) as (h0 & h1 & -> & Hh). cbn [mbind option_bind].
    assert (exists k, Z.to_nat m = (2 + k)%nat /\ Z.of_nat k = m - 2) as (k & Ek & Ekz) by (exists (Z.to_nat (m - 2)); lia).
    replace (be 10 v) with (be ((10 - Z.to_nat m) + Z.to_nat m) v) by (f_equal; lia).
    rewrite be_split, drop_app_ge by (rewrite length_be; lia). rewrite length_be, Nat.sub_diag, drop_0.
    rewrite Ek, !be_split, Ekz, code_low by lia. rewrite code_top by lia. fold t. rewrite <- Hh. done.
Qed.

Lemma code_lt n m a b r1 r2 :
  (1 <= n)%nat -> (1 <= m)%nat -> fits (Z.of_nat n) a -> fits (Z.of_nat m) b -> a < b ->
  lex_lt (be n (code (Z.of_nat n) a) ++ r1) (be m (code (Z.of_nat m) b) ++ r2) = true.
Proof.
  intros Hn Hm Ha Hb Hab. pose proof (code_range (Z.of_nat n) a ltac:(lia) Ha) as Hca. pose proof (code_range (Z.of_nat m) b ltac:(lia) Hb) as Hcb.
  destruct Ha as [Ha Hma], Hb as [Hb Hmb].
  assert (forall k : nat, (1 <= k)%nat -> 2 ^ (7 * Z.of_nat k) = 2 * 2 ^ (7 * Z.of_nat k - 1)
            /\ 2 * 2 ^ (7 * Z.of_nat k) <= 2 ^ (8 * Z.of_nat k)) as Hk.
  { intros k Hk1. rewrite <- !Z.pow_succ_r by lia. split; [f_equal; lia|apply Z.pow_le_mono_r; lia]. }
  destruct (Hk n Hn) as [En1 En2], (Hk m Hm) as [Em1 Em2].
  assert (0 < 2 ^ (7 * Z.of_nat n - 1)) by (apply Z.pow_pos_nonneg; lia).
  assert (0 < 2 ^ (7 * Z.of_nat m - 1)) by (apply Z.pow_pos_nonneg; lia).
  apply magnitude_range in Ha as Hga; [|lia]. apply magnitude_range in Hb as Hgb; [|lia].
  destruct (Nat.lt_trichotomy n m) as [Hnm|[->|Hnm]].
  - assert (0 <= b) as Hb0.
    { destruct (Z.le_gt_cases 0 b); [done|]. exfalso. destruct Hmb as [?|Hmb]; [lia|].
      assert (2 ^ (7 * Z.of_nat n - 1) <= 2 ^ (7 * (Z.of_nat m - 1) - 1)) by (apply Z.pow_le_mono_r; lia).
      unfold magnitude, Z.lnot in *. destruct (Z.ltb_spec a 0), (Z.ltb_spec b 0); lia. }
    apply be_lt_short; [lia|lia|lia|]. rewrite pow_256 by lia. set (P := 2 ^ (8 * Z.of_nat (m - n))).
    assert (0 < P) by (apply Z.pow_pos_nonneg; lia).
    assert (2 ^ (8 * Z.of_nat m) = 2 ^ (8 * Z.of_nat n) * P) as E1 by (unfold P; rewrite <- Z.pow_add_r by lia; f_equal; lia).
    assert (2 ^ (7 * Z.of_nat m) <= 2 ^ (7 * Z.of_nat n - 1) * P) as E2
      by (unfold P; rewrite <- Z.pow_add_r by lia; apply Z.pow_le_mono_r; lia).
    assert (code (Z.of_nat n) a + 1 <= 2 ^ (8 * Z.of_nat n) - 2 ^ (7 * Z.of_nat n - 1)) as E3
      by (unfold code; destruct (Z.ltb_spec a 0); lia).
    unfold code at 2. rewrite (proj2 (Z.ltb_ge _ _) Hb0). nia.
  - apply be_lt; [|lia]. split; [lia|]. unfold code. destruct (Z.ltb_spec a 0), (Z.ltb_spec b 0); lia.
  - assert (a < 0) as Ha0.
    { destruct (Z.lt_ge_cases a 0); [done|]. exfalso. destruct Hma as [?|Hma]; [lia|].
      assert (2 ^ (7 * Z.of_nat m - 1) <= 2 ^ (7 * (Z.of_nat n - 1) - 1)) by (apply Z.pow_le_mono_r; lia).
      unfold magnitude, Z.lnot in *. destruct (Z.ltb_spec a 0), (Z.ltb_spec b 0); lia. }
    apply be_lt_long; [lia|lia|lia|]. rewrite pow_256 by lia. set (P := 2 ^ (8 * Z.of_nat (n - m))).
    assert (0 < P) by (apply Z.pow_pos_nonneg; lia).
    assert (2 ^ (7 * Z.of_nat n) <= 2 ^ (7 * Z.of_nat m - 1) * P) as E2
      by (unfold P; rewrite <- Z.pow_add_r by lia; apply Z.pow_le_mono_r; lia).
    assert (2 ^ (7 * Z.of_nat m - 1) <= code (Z.of_nat m) b) as E3
      by (unfold code; destruct (Z.ltb_spec b 0); lia).
    unfold code at 1. rewrite (proj2 (Z.ltb_lt _ _) Ha0). nia.
Qed.

(** ** Reading signed numbers *)

(** A field of bits between [a] and [b] that is clear on one side. *)
Lemma land_field a b e k m :
  0 <= a <= b -> 0 <= e < 2 ^ a -> 0 <= m < 2 ^ (b - a) -> Z.land (e + k * 2 ^ b) (m * 2 ^ a) = 0.
Proof.
  intros Hab He Hm. assert (e < 2 ^ b) by (eapply Z.lt_le_trans; [apply He|apply Z.pow_le_mono_r; lia]).
  rewrite <- lor_shift_add, <- Z.shiftl_mul_pow2 by lia. apply Z.bits_inj'. intros n Hn.
  rewrite Z.land_spec, Z.lor_spec, Z.bits_0. destruct (Z.lt_ge_cases n a).
  { rewrite (Z.shiftl_spec_low m) by done. apply andb_false_r. }
  rewrite (testbit_high e a) by lia. destruct (Z.lt_ge_cases n b).
  - by rewrite Z.shiftl_spec_low.
  - rewrite (Z.shiftl_spec m) by lia. rewrite (testbit_high m (b - a)) by lia. apply andb_false_r.
Qed.

Lemma lxor_field a b e k m :
  0 <= a <= b -> 0 <= e < 2 ^ a -> 0 <= m < 2 ^ (b - a) ->
  Z.lxor (e + k * 2 ^ b) (m * 2 ^ a) = e + k * 2 ^ b + m * 2 ^ a
  /\ Z.lxor (e + k * 2 ^ b + m * 2 ^ a) (m * 2 ^ a) = e + k * 2 ^ b.
Proof.
  intros Hab He Hm. pose proof (land_field a b e k m Hab He Hm) as Hl.
  rewrite <- Z.add_nocarry_lxor by done. split; [done|].
  rewrite Z.add_nocarry_lxor by done. by rewrite Z.lxor_assoc, Z.lxor_nilpotent, Z.lxor_0_r.
Qed.

Lemma i64_u64 v : - 2 ^ 63 <= v < 2 ^ 63 -> i64 (u64 v) = v.
Proof. intros Hv. unfold i64, u64. rewrite Z.add_mod_idemp_l, Z.mod_small by lia. lia. Qed.

Lemma mask_table n : 1 <= n <= 8 -> kLengthToMask !! Z.to_nat n = Some ((2 ^ n - 1) * 2 ^ (7 * n)).
Proof.
  intros Hn. assert (forallb (fun n => bool_decide (kLengthToMask !! Z.to_nat n = Some ((2 ^ n - 1) * 2 ^ (7 * n)))) (seqZ 1 8) = true) as H
    by (by vm_compute).
  rewrite forallb_forall in H. specialize (H n ltac:(apply list_elem_of_In, elem_of_seqZ; lia)).
  by apply bool_decide_eq_true in H.
Qed.

(** Removing the size bits gives the value in two's complement. *)
Lemma unmask_short n v mask :
  1 <= n <= 7 -> - 2 ^ (7 * n - 1) <= v < 2 ^ (7 * n - 1) -> kLengthToMask !! Z.to_nat n = Some mask ->
  Z.lxor (u64 ((if v <? 0 then 2 ^ 64 - 1 else 0) * 256 ^ n + code n v)) mask = u64 v.
Proof.
  intros Hn Hv Hm. rewrite mask_table in Hm by lia. injection Hm as <-. rewrite pow_256 by lia. unfold code.
  assert (2 ^ (8 * n) = 2 ^ n * 2 ^ (7 * n)) as E8 by (rewrite <- Z.pow_add_r by lia; f_equal; lia).
  assert (2 ^ (7 * n) = 2 * 2 ^ (7 * n - 1)) as E7 by (rewrite <- Z.pow_succ_r by lia; f_equal; lia).
  assert (2 ^ (8 * n) <= 2 ^ 56) as Hle by (apply Z.pow_le_mono_r; lia).
  assert (2 ^ (7 * n) <= 2 ^ (8 * n)) as Hle' by (apply Z.pow_le_mono_r; lia).
  assert (0 < 2 ^ (7 * n - 1)) by (apply Z.pow_pos_nonneg; lia). assert (0 < 2 ^ n) by (apply Z.pow_pos_nonneg; lia).
  assert (2 ^ 64 = 2 ^ (64 - 8 * n) * 2 ^ (8 * n)) as E64 by (apply pow_split; lia).
  assert (0 <= 2 ^ n - 1 < 2 ^ (8 * n - 7 * n)) as Hf by (replace (8 * n - 7 * n) with n by lia; lia).
  destruct (Z.ltb_spec v 0) as [Hneg|Hpos].
  - destruct (lxor_field (7 * n) (8 * n) (v + 2 ^ (7 * n)) (2 ^ (64 - 8 * n) - 1) (2 ^ n - 1)) as [Hx _]; [lia|lia|done|].
    assert (u64 ((2 ^ 64 - 1) * 2 ^ (8 * n) + (v + 2 ^ (7 * n))) = v + 2 ^ (7 * n) + (2 ^ (64 - 8 * n) - 1) * 2 ^ (8 * n)) as ->.
    { unfold u64. symmetry. apply (Z.mod_unique _ _ (2 ^ (8 * n) - 1)); nia. }
    rewrite Hx. unfold u64. apply (Z.mod_unique v (2 ^ 64) (-1)); nia.
  - destruct (lxor_field (7 * n) (8 * n) v 0 (2 ^ n - 1)) as [_ Hx]; [lia|lia|done|].
    rewrite u64_small by lia. rewrite (u64_small v) by lia.
    replace (0 * 2 ^ (8 * n) + (v + 2 ^ (8 * n) - 2 ^ (7 * n))) with (v + 0 * 2 ^ (8 * n) + (2 ^ n - 1) * 2 ^ (7 * n)) by lia.
    rewrite Hx. lia.
Qed.

Lemma unmask_long n v mask :
  8 <= n <= 10 -> - 2 ^ (7 * n - 1) <= v < 2 ^ (7 * n - 1) -> - 2 ^ 63 <= v < 2 ^ 63 ->
  kLengthToMask !! Z.to_nat n = Some mask ->
  Z.lxor (u64 (code n v)) mask = u64 v.
Proof.
  intros Hn Hv Hv64 Hm. assert (n = 8 \/ n = 9 \/ n = 10) as [->|[->| ->]] by lia; injection Hm as <-; unfold code.
  - change (7 * 8) with 56 in *. change (8 * 8) with 64. destruct (Z.ltb_spec v 0).
    + rewrite u64_small by lia. destruct (lxor_field 56 64 (v + 2 ^ 56) 0 255) as [Hx _]; [lia..|].
      rewrite Z.mul_0_l, Z.add_0_r in Hx. change (255 * 2 ^ 56) with 0xff00000000000000 in Hx. rewrite Hx.
      unfold u64. apply (Z.mod_unique v (2 ^ 64) (-1)); lia.
    + rewrite u64_small by lia. destruct (lxor_field 56 64 v 0 255) as [_ Hx]; [lia..|].
      change (255 * 2 ^ 56) with 0xff00000000000000 in Hx.
      replace (v + 2 ^ 64 - 2 ^ 56) with (v + 0 * 2 ^ 64 + 0xff00000000000000) by lia. rewrite Hx, u64_small; lia.
  - change (7 * 9) with 63 in *. change (8 * 9) with 72. destruct (Z.ltb_spec v 0).
    + rewrite u64_small by lia. destruct (lxor_field 63 64 (v + 2 ^ 63) 0 1) as [Hx _]; [lia..|].
      rewrite Z.mul_0_l, Z.add_0_r in Hx. change (1 * 2 ^ 63) with 0x8000000000000000 in Hx. rewrite Hx.
      unfold u64. apply (Z.mod_unique v (2 ^ 64) (-1)); lia.
    + assert (u64 (v + 2 ^ 72 - 2 ^ 63) = v + 2 ^ 63) as ->.
      { unfold u64. symmetry. apply (Z.mod_unique _ _ 255); lia. }
      destruct (lxor_field 63 64 v 0 1) as [_ Hx]; [lia..|]. change (1 * 2 ^ 63) with 0x8000000000000000 in Hx.
      replace (v + 2 ^ 63) with (v + 0 * 2 ^ 64 + 0x8000000000000000) by lia. rewrite Hx, u64_small; lia.
  - rewrite Z.lxor_0_r. unfold u64. change (7 * 10) with 70. change (8 * 10) with 80. destruct (v <? 0).
    + replace (v + 2 ^ 70) with (v + 64 * 2 ^ 64) by lia. by rewrite Z.mod_add by lia.
    + replace (v + 2 ^ 80 - 2 ^ 70) with (v + (65536 - 64) * 2 ^ 64) by lia. by rewrite Z.mod_add by lia.
Qed.

(** Loading eight bytes. *)
Lemma lor_low r c s : 0 <= s -> 0 <= c < 256 -> Z.lor (r * 2 ^ (s + 8)) (Z.shiftl c s) = (r * 256 + c) * 2 ^ s.
Proof.
  intros Hs Hc. assert (0 < 2 ^ s) by (apply Z.pow_pos_nonneg; lia).
  assert (2 ^ (s + 8) = 2 ^ s * 256) as E by (rewrite Z.pow_add_r by lia; lia).
  rewrite Z.lor_comm, <- (Z.shiftl_mul_pow2 r) by lia. rewrite lor_shift_add; [|lia|].
  - rewrite Z.shiftl_mul_pow2 by lia. nia.
  - rewrite Z.shiftl_mul_pow2 by lia. nia.
Qed.

Lemma foldl_be_val k i x : foldl (fun a b => a * 256 + b) i (be k x) = i * 256 ^ Z.of_nat k + x mod 256 ^ Z.of_nat k.
Proof.
  revert x. induction k as [|k IH]; intros x; [cbn; rewrite Z.mod_1_r; lia|].
  cbn [be]. rewrite foldl_app, IH. cbn [foldl]. rewrite Nat2Z.inj_succ, Z.pow_succ_r by lia.
  assert (0 < 256 ^ Z.of_nat k) by (apply Z.pow_pos_nonneg; lia). rewrite Z.rem_mul_r by lia. lia.
Qed.

Lemma LoadBigEndian64_be y rest : LoadBigEndian64 (be 8 y ++ rest) = Some (u64 y).
Proof.
  unfold LoadBigEndian64. rewrite (proj2 (Nat.ltb_ge _ _)) by (rewrite length_app, length_be; lia). f_equal.
  pose proof (foldl_be_val 8 0 y) as E. rewrite Z.mul_0_l, Z.add_0_l in E.
  change (256 ^ Z.of_nat 8) with (2 ^ 64) in E. fold (u64 y) in E. rewrite <- E. clear E.
  pose proof (be_bytes 8 y) as Hb. pose proof (length_be 8 y) as Hl.
  destruct (be 8 y) as [|b0 [|b1 [|b2 [|b3 [|b4 [|b5 [|b6 [|b7 [|]]]]]]]]]; try done. clear Hl.
  rewrite !Forall_cons in Hb. destruct Hb as (? & ? & ? & ? & ? & ? & ? & ? & _).
  cbn [app zip zip_with foldl fst snd]. change 0 with (0 * 2 ^ (56 + 8)) at 1.
  change (56 - 8 * 0) with 56. rewrite lor_low by lia. change 56 with (48 + 8) at 1. change (56 - 8 * 1) with 48.
  rewrite lor_low by lia. change 48 with (40 + 8) at 1. change (56 - 8 * 2) with 40.
  rewrite lor_low by lia. change 40 with (32 + 8) at 1. change (56 - 8 * 3) with 32.
  rewrite lor_low by lia. change 32 with (24 + 8) at 1. change (56 - 8 * 4) with 24.
  rewrite lor_low by lia. change 24 with (16 + 8) at 1. change (56 - 8 * 5) with 16.
  rewrite lor_low by lia. change 16 with (8 + 8) at 1. change (56 - 8 * 6) with 8.
  rewrite lor_low by lia. change 8 with (0 + 8) at 1. change (56 - 8 * 7) with 0.
  rewrite lor_low by lia. lia.
Qed.

(** The leading bytes determine sign and length. *)
Definition read_check1 (n t : Z) : bool :=
  let b0 := add_size_bits n 1 t in
  let first := Z.lxor b0 (if t <? 0 then 255 else 0) in
  (0 <=? b0) && (b0 <? 256) && Bool.eqb (Z.land b0 128 =? 0) (t <? 0)
  && negb (first =? 255) && (7 - Log2Floor64 (Z.lxor first 255) =? n).

Definition read_check2 (n t : Z) : bool :=
  let z := add_size_bits n 2 t in
  let b0 := z / 256 in
  let flip := if t <? 0 then 255 else 0 in
  let second := Z.lxor (z mod 256) flip in
  (0 <=? z) && (z <? 65536) && Bool.eqb (Z.land b0 128 =? 0) (t <? 0) && (Z.lxor b0 flip =? 255)
  && (if n =? 8 then second <? 128 else if n =? 9 then (128 <=? second) && (second <? 192) else second =? 192).

Lemma div_range v k a : 0 <= k -> 0 <= a -> - 2 ^ (a + k) <= v < 2 ^ (a + k) -> - 2 ^ a <= v / 2 ^ k < 2 ^ a.
Proof.
  intros Hk Ha Hv. rewrite Z.pow_add_r in Hv by lia. assert (0 < 2 ^ k) by (apply Z.pow_pos_nonneg; lia).
  split; [apply Z.div_le_lower_bound; lia|apply Z.div_lt_upper_bound; lia].
Qed.

Lemma div_neg v k : 0 <= k -> (v / 2 ^ k <? 0) = (v <? 0).
Proof.
  intros Hk. assert (0 < 2 ^ k) by (apply Z.pow_pos_nonneg; lia). destruct (Z.ltb_spec v 0) as [Hn|Hp].
  - apply Z.ltb_lt, Z.div_lt_upper_bound; lia.
  - apply Z.ltb_ge, Z.div_pos; lia.
Qed.

Lemma read_short n v :
  1 <= n <= 7 -> - 2 ^ (7 * n - 1) <= v < 2 ^ (7 * n - 1) -> read_check1 n (v / 256 ^ (n - 1)) = true.
Proof.
  intros Hn Hv. apply (range_check read_check1 (fun n => 2 ^ (7 - n)) 1 7); [by vm_compute|lia|]. cbn beta.
  rewrite pow_256 by lia. apply div_range; [lia|lia|]. by replace (7 - n + 8 * (n - 1)) with (7 * n - 1) by lia.
Qed.

Lemma read_long n v :
  8 <= n <= 10 -> - 2 ^ (7 * n - 1) <= v < 2 ^ (7 * n - 1) -> - 2 ^ 63 <= v < 2 ^ 63 ->
  read_check2 n (v / 256 ^ (n - 2)) = true.
Proof.
  intros Hn Hv Hv64.
  apply (range_check read_check2 (fun n => if n =? 8 then 128 else if n =? 9 then 64 else 1) 8 3); [by vm_compute|lia|]. cbn beta.
  rewrite pow_256 by lia. assert (n = 8 \/ n = 9 \/ n = 10) as [->|[->| ->]] by lia; cbn [Z.eqb Pos.eqb].
  - by apply (div_range v 48 7).
  - by apply (div_range v 56 6).
  - change (8 * (10 - 2)) with 64. split; [apply Z.div_le_lower_bound; lia|apply Z.div_lt_upper_bound; lia].
Qed.

Lemma ReadSigned_short (n : nat) v rest :
  (1 <= n <= 7)%nat -> fits (Z.of_nat n) v -> - 2 ^ 63 <= v < 2 ^ 63 -> SignedEncodingLength v = Some (Z.of_nat n) ->
  ReadSignedNumIncreasing (be n (code (Z.of_nat n) v) ++ rest) = Val (Some (v, rest)).
Proof.
  intros Hn Hfit Hv El. pose proof (code_range (Z.of_nat n) v ltac:(lia) Hfit) as Hcr. destruct Hfit as [Hr _].
  destruct (lookup_lt_is_Some_2 kLengthToMask n) as [mask Hm]; [cbn; lia|].
  pose proof (read_short (Z.of_nat n) v ltac:(lia) Hr) as Hc. unfold read_check1 in Hc. cbv zeta in Hc.
  rewrite <- code_top in Hc by lia. rewrite pow_256, div_neg in Hc by lia. rewrite <- pow_256 in Hc by lia.
  apply andb_true_iff in Hc as [Hc Hlen%Z.eqb_eq]. apply andb_true_iff in Hc as [Hc Hff].
  apply andb_true_iff in Hc as [Hc Hsg%eqb_prop]. apply andb_true_iff in Hc as [H0%Z.leb_le H1%Z.ltb_lt].
  set (E := code (Z.of_nat n) v) in *.
  assert (exists t, be n E ++ rest = (E / 256 ^ (Z.of_nat n - 1)) :: t) as [t Et].
  { destruct n as [|k]; [lia|]. rewrite be_head. replace (Z.of_nat (S k) - 1) with (Z.of_nat k) in * by lia.
    rewrite Z.mod_small by lia. by eexists. }
  assert (forall c, Z.lxor c (Z.land (if v <? 0 then 2 ^ 64 - 1 else 0) 255) = Z.lxor c (if v <? 0 then 255 else 0)) as Hfl
    by (intros c; by destruct (v <? 0)).
  unfold ReadSignedNumIncreasing. rewrite Et. cbv zeta. rewrite Hsg, Hfl, Hff, Hlen, <- Et.
  rewrite (proj2 (Z.ltb_ge _ _)) by (rewrite length_app, length_be; lia).
  rewrite Nat2Z.id, take_app_le, take_ge by (rewrite length_be; lia).
  rewrite foldl_be by (destruct (v <? 0); lia). rewrite Hm. subst E.
  rewrite (unmask_short (Z.of_nat n) v mask) by (rewrite ?Nat2Z.id; done || lia).
  rewrite i64_u64, bool_decide_true by done.
  rewrite drop_app_ge by (rewrite length_be; lia). by rewrite length_be, Nat.sub_diag.
Qed.

Definition read_check3 (n t : Z) : bool :=
  Z.lxor (add_size_bits n 3 t mod 256) (if t <? 0 then 255 else 0) <? 128.

Lemma read_third v :
  - 2 ^ 63 <= v < 2 ^ 63 ->
  (Z.lxor ((code (Z.of_nat 10) v / 256 ^ (Z.of_nat 10 - 3)) mod 256) (if v <? 0 then 255 else 0) <? 128) = true.
Proof.
  intros Hv. change (Z.of_nat 10) with 10. rewrite (code_top 10 3) by lia. rewrite <- (div_neg v 56) by lia.
  apply (range_check read_check3 (fun _ => 128) 10 1); [by vm_compute|lia|]. by apply (div_range v 56 7).
Qed.

(** The first three bytes of a long encoding. *)
Lemma be_head3 (n : nat) E rest : (3 <= n)%nat ->
  let z := E / 256 ^ (Z.of_nat n - 2) in
  0 <= z < 65536 -> be n E ++ rest = z / 256 :: z mod 256 :: (E / 256 ^ (Z.of_nat n - 3)) mod 256 :: be (n - 3) E ++ rest.
Proof.
  intros Hn z Hz. replace (be n E) with (be (3 + (n - 3)) E) by (f_equal; lia). rewrite be_split, <- app_assoc. cbn [be app].
  replace (Z.of_nat (n - 3)) with (Z.of_nat n - 3) by lia.
  assert (E / 256 ^ (Z.of_nat n - 3) / 256 = z) as Ez.
  { unfold z. rewrite Z.div_div by (try apply Z.pow_pos_nonneg; lia). f_equal.
    replace (Z.of_nat n - 2) with (Z.succ (Z.of_nat n - 3)) by lia. rewrite Z.pow_succ_r by lia. lia. }
  rewrite Ez, (Z.mod_small (z / 256)); [done|]. split; [apply Z.div_pos; lia|apply Z.div_lt_upper_bound; lia].
Qed.

(** Its last eight bytes, unmasked, are the value. *)
Lemma load_long (n : nat) v rest m :
  (8 <= n <= 10)%nat -> fits (Z.of_nat n) v -> - 2 ^ 63 <= v < 2 ^ 63 -> SignedEncodingLength v = Some (Z.of_nat n) -> m = Z.of_nat n ->
  match LoadBigEndian64 (drop (Z.to_nat m - 8) (be n (code (Z.of_nat n) v) ++ rest)) with
  | Some x =>
    match kLengthToMask !! Z.to_nat m with
    | Some mask => if bool_decide (SignedEncodingLength (i64 (Z.lxor x mask)) = Some m)
                   then Val (Some (i64 (Z.lxor x mask), drop (Z.to_nat m) (be n (code (Z.of_nat n) v) ++ rest))) else Crash
    | None => Crash
    end
  | None => Crash
  end = Val (Some (v, rest)).
Proof.
  intros Hn [Hr _] Hv El ->. destruct (lookup_lt_is_Some_2 kLengthToMask n) as [mask Hm]; [cbn; lia|]. rewrite Nat2Z.id, Hm. set (E := code (Z.of_nat n) v).
  assert (drop (n - 8) (be n E ++ rest) = be 8 E ++ rest) as ->.
  { replace (be n E) with (be ((n - 8) + 8) E) by (f_equal; lia). rewrite be_split, <- app_assoc.
    rewrite drop_app_ge by (rewrite length_be; lia). by rewrite length_be, Nat.sub_diag. }
  rewrite LoadBigEndian64_be. subst E.
  rewrite (unmask_long (Z.of_nat n) v mask) by (rewrite ?Nat2Z.id; done || lia).
  rewrite i64_u64, bool_decide_true by done.
  rewrite drop_app_ge by (rewrite length_be; lia). by rewrite length_be, Nat.sub_diag.
Qed.

Lemma ReadSigned_long (n : nat) v rest :
  (8 <= n <= 10)%nat -> fits (Z.of_nat n) v -> - 2 ^ 63 <= v < 2 ^ 63 -> SignedEncodingLength v = Some (Z.of_nat n) ->
  ReadSignedNumIncreasing (be n (code (Z.of_nat n) v) ++ rest) = Val (Some (v, rest)).
Proof.
  intros Hn Hfit Hv El. pose proof (load_long n v rest) as Hload. pose proof (code_range (Z.of_nat n) v ltac:(lia) Hfit) as Hcr.
  specialize (fun m => Hload m Hn Hfit Hv El). destruct Hfit as [Hr _].
  pose proof (read_long (Z.of_nat n) v ltac:(lia) Hr Hv) as Hc. unfold read_check2 in Hc. cbv zeta in Hc.
  rewrite <- code_top in Hc by lia. rewrite (pow_256 (Z.of_nat n - 2)), div_neg in Hc by lia.
  rewrite <- pow_256 in Hc by lia.
  apply andb_true_iff in Hc as [Hc Hsec]. apply andb_true_iff in Hc as [Hc Hfirst].
  apply andb_true_iff in Hc as [Hc Hsg%eqb_prop]. apply andb_true_iff in Hc as [H0%Z.leb_le H1%Z.ltb_lt].
  set (E := code (Z.of_nat n) v) in *. set (z := E / 256 ^ (Z.of_nat n - 2)) in *.
  assert (exists b2 t, be n E ++ rest = z / 256 :: z mod 256 :: b2 :: t /\ (5 <= length t)%nat
            /\ b2 = (E / 256 ^ (Z.of_nat n - 3)) mod 256) as (b2 & t & Et & Ht & Hb2).
  { eexists _, (be (n - 3) E ++ rest). split_and!; [apply be_head3; [lia|done]|rewrite length_app, length_be; lia|reflexivity]. }
  assert (forall c, Z.lxor c (Z.land (if v <? 0 then 2 ^ 64 - 1 else 0) 255) = Z.lxor c (if v <? 0 then 255 else 0)) as Hfl
    by (intros c; by destruct (v <? 0)).
  unfold ReadSignedNumIncreasing. rewrite Et in Hload |- *. cbv zeta. rewrite Hsg, !Hfl, Hfirst. cbn [negb].
  destruct t as [|? [|? [|? [|? [|? t]]]]]; cbn in Ht; try lia.
  assert (n = 8 \/ n = 9 \/ n = 10)%nat as [->|[->| ->]] by lia.
  - change (Z.of_nat 8 =? 8) with true in Hsec. cbv iota in Hsec. rewrite Z.leb_antisym, Hsec. by apply (Hload 8).
  - change (Z.of_nat 9 =? 8) with false in Hsec. change (Z.of_nat 9 =? 9) with true in Hsec. cbv iota in Hsec.
    apply andb_true_iff in Hsec as [-> ->]. rewrite (proj2 (Z.ltb_ge _ _)) by (cbn [length]; apply (f_equal length) in Et;
      rewrite length_app, length_be in Et; cbn in Et; lia). by apply (Hload 9).
  - change (Z.of_nat 10 =? 8) with false in Hsec. change (Z.of_nat 10 =? 9) with false in Hsec. cbv iota in Hsec.
    apply Z.eqb_eq in Hsec as ->. assert (Z.lxor b2 (if v <? 0 then 255 else 0) <? 128 = true) as Hthird by (subst b2; by apply read_third).
    rewrite Hthird. cbn [Z.leb Z.ltb Z.compare Pos.compare Pos.compare_cont Z.eqb Pos.eqb andb].
    rewrite (proj2 (Z.ltb_ge _ _)) by (apply (f_equal length) in Et; rewrite length_app, length_be in Et; cbn in *; lia).
    by apply (Hload 10).
Qed.

(** ** The portable logarithm *)

Lemma log2_shift v k : 0 <= k -> 0 < v / 2 ^ k -> Z.log2 v = Z.log2 (v / 2 ^ k) + k.
Proof.
  intros Hk Hp. assert (0 < 2 ^ k) by (apply Z.pow_pos_nonneg; lia).
  pose proof (Z.mul_div_le v (2 ^ k) ltac:(lia)). assert (2 ^ k <= v) by nia.
  rewrite <- Z.shiftr_div_pow2, Z.log2_shiftr by lia.
  assert (k <= Z.log2 v) by (apply Z.log2_le_pow2; lia). lia.
Qed.

Lemma Log2Floor32_loop_eq i value log :
  0 < value < 2 ^ (2 ^ (Z.of_nat i + 1)) -> Log2Floor32_Portable_loop i value log = log + Z.log2 value.
Proof.
  revert value log. induction i as [|i IH]; intros value log Hv; cbn [Log2Floor32_Portable_loop].
  - change (Z.shiftl 1 (Z.of_nat 0)) with 1. change (2 ^ (2 ^ (Z.of_nat 0 + 1))) with 4 in Hv.
    assert (value = 1 \/ value = 2 \/ value = 3) as [->|[->| ->]] by lia.
    + change (log = log + 0). lia.
    + done.
    + done.
  - rewrite Z.shiftl_1_l. set (sh := 2 ^ Z.of_nat (S i)). assert (0 < sh) by (apply Z.pow_pos_nonneg; lia).
    rewrite Z.shiftr_div_pow2 by lia. assert (0 < 2 ^ sh) by (apply Z.pow_pos_nonneg; lia).
    assert (2 ^ (Z.of_nat i + 1) = sh) as Esh by (unfold sh; f_equal; lia).
    assert (2 ^ (2 ^ (Z.of_nat (S i) + 1)) = 2 ^ sh * 2 ^ sh) as E.
    { rewrite <- Z.pow_add_r by lia. f_equal. unfold sh. rewrite Z.pow_add_r by lia. lia. }
    rewrite E in Hv. pose proof (Z.div_pos value (2 ^ sh) ltac:(lia) ltac:(lia)).
    destruct (Z.eqb_spec (value / 2 ^ sh) 0) as [E0|Hne]; cbn [negb]; rewrite IH.
    + done.
    + rewrite Esh. split; [lia|]. apply Z.div_small_iff in E0 as [?|?]; lia.
    + rewrite (log2_shift value sh) by lia. lia.
    + rewrite Esh. split; [lia|]. apply Z.div_lt_upper_bound; lia.
Qed.

Lemma Log2Floor64_Portable_eq n : 0 <= n < 2 ^ 64 -> Log2Floor64_Portable n = Log2Floor64 n.
Proof.
  intros Hn. unfold Log2Floor64_Portable, Log2Floor32_Portable. rewrite Z.shiftr_div_pow2 by lia.
  pose proof (Z.div_pos n (2 ^ 32) ltac:(lia) ltac:(lia)).
  assert (n / 2 ^ 32 < 2 ^ 32) by (apply Z.div_lt_upper_bound; lia). rewrite (u32_small (n / 2 ^ 32)) by lia.
  destruct (Z.eqb_spec (n / 2 ^ 32) 0) as [E|Hne].
  - assert (n < 2 ^ 32) by (apply Z.div_small_iff in E; lia). rewrite u32_small by lia.
    destruct (Z.eqb_spec n 0) as [->|]; [done|]. rewrite Log2Floor64_eq, (Log2Floor32_loop_eq 4) by (cbn; lia). lia.
  - assert (0 < n) by (destruct (Z.eq_dec n 0) as [->|]; [done|lia]).
    rewrite Log2Floor64_eq, (Log2Floor32_loop_eq 4) by (change (2 ^ (2 ^ (Z.of_nat 4 + 1))) with (2 ^ 32); lia).
    rewrite (log2_shift n 32) by lia. lia.
Qed.

(** ** Theorems *)

(** Strings.  Any byte string is read back exactly from its encoding, whatever follows; the
    encodings of two strings compare as the strings do, whatever follows them. *)
Lemma ordered_string s s' rest rest' :
  Forall byte s -> Forall byte s' ->
  ReadString (WriteString [] s ++ rest) = Some (s, rest)
  /\ (lex_lt s s' = true -> lex_lt (WriteString [] s ++ rest) (WriteString [] s' ++ rest') = true).
Proof.
  intros Hs Hs'. split; [by apply ReadString_WriteString|]. intros Hlt.
  rewrite !WriteString_eq by done. cbn [app]. rewrite <- !app_assoc. by apply escape_lt.
Qed.

(** Unsigned numbers.  Every 64-bit value is read back, never rejected as not minimal,
    and the encodings compare as the numbers do. *)
Lemma ordered_unsigned a rest :
  0 <= a < 2 ^ 64 ->
  ReadNumIncreasing (WriteNumIncreasing [] a ++ rest) = Val (Some (a, rest))
  /\ forall b rest', a < b < 2 ^ 64 ->
       lex_lt (WriteNumIncreasing [] a ++ rest) (WriteNumIncreasing [] b ++ rest') = true.
Proof. intros Ha. split; [by apply ReadNum_WriteNum|]. intros b rest' Hb. apply WriteNum_lt; lia. Qed.

(** Signed numbers.  Every 64-bit value has an encoding of at most 10 bytes, is read
    back from it, and the encodings compare as the numbers do; the portable logarithm
    behind the length equals the builtin one. *)
Lemma ordered_signed v rest :
  - 2 ^ 63 <= v < 2 ^ 63 ->
  exists e, WriteSignedNumIncreasing [] v = Some e /\ (length e <= 10)%nat
    /\ ReadSignedNumIncreasing (e ++ rest) = Val (Some (v, rest))
    /\ Log2Floor64_Portable (magnitude v) = Log2Floor64 (magnitude v)
    /\ forall v' rest', v < v' < 2 ^ 63 ->
         exists e', WriteSignedNumIncreasing [] v' = Some e' /\ lex_lt (e ++ rest) (e' ++ rest') = true.
Proof.
  intros Hv. destruct (WriteSigned_eq [] v Hv) as (n & E & El & Hn & Hfit). eexists. split; [exact E|].
  cbn [app]. rewrite length_be. split_and!; [lia| |..].
  - destruct (Nat.le_gt_cases n 7); [apply ReadSigned_short|apply ReadSigned_long]; done || lia.
  - apply Log2Floor64_Portable_eq. apply (magnitude_range v 63) in Hv; lia.
  - intros v' rest' Hv'. destruct (WriteSigned_eq [] v' ltac:(lia)) as (m & E' & _ & Hm & Hfit').
    eexists. split; [exact E'|]. cbn [app]. apply code_lt; done || lia.
Qed.

(** C32: round trip and order.  Any byte string is read back exactly from its encoding,
    whatever follows, and the encodings of two strings compare as the strings do, whatever
    follows them, so that concatenated encodings order tuples.  Every unsigned 64-bit value is
    read back, never rejected as not minimal, and the encodings compare as the numbers do.
    Every signed 64-bit value has an encoding of at most 10 bytes, is read back from it, and
    the encodings compare as the numbers do; the portable logarithm behind the length equals
    the builtin one. *)
Theorem ordered_code_round_trip :
  (forall s s' rest rest', Forall byte s -> Forall byte s' ->
     ReadString (WriteString [] s ++ rest) = Some (s, rest)
     /\ (lex_lt s s' = true -> lex_lt (WriteString [] s ++ rest) (WriteString [] s' ++ rest') = true))
  /\ (forall a rest, 0 <= a < 2 ^ 64 ->
     ReadNumIncreasing (WriteNumIncreasing [] a ++ rest) = Val (Some (a, rest))
     /\ forall b rest', a < b < 2 ^ 64 ->
          lex_lt (WriteNumIncreasing [] a ++ rest) (WriteNumIncreasing [] b ++ rest') = true)
  /\ (forall v rest, - 2 ^ 63 <= v < 2 ^ 63 ->
     exists e, WriteSignedNumIncreasing [] v = Some e /\ (length e <= 10)%nat
       /\ ReadSignedNumIncreasing (e ++ rest) = Val (Some (v, rest))
       /\ Log2Floor64_Portable (magnitude v) = Log2Floor64 (magnitude v)
       /\ forall v' rest', v < v' < 2 ^ 63 ->
            exists e', WriteSignedNumIncreasing [] v' = Some e' /\ lex_lt (e ++ rest) (e' ++ rest') = true).
Proof. split_and!; [exact ordered_string|exact ordered_unsigned|exact ordered_signed]. Qed.

Lemma ordered_code_round_trip_witness :
  ReadString (WriteString [] [0; 5; 255] ++ [9]) = Some ([0; 5; 255], [9])
  /\ (ReadNumIncreasing (WriteNumIncreasing [] 74565 ++ [1]) = Val (Some (74565, [1])))
  /\ (exists e, WriteSignedNumIncreasing [] (-2048) = Some e
    /\ ReadSignedNumIncreasing (e ++ [7]) = Val (Some (-2048, [7])) /\ e = [56; 0]).
Proof.
  destruct ordered_code_round_trip as (Hs & Hu & Hn). split_and!.
  - apply (Hs [0; 5; 255] [1] [9] []); repeat constructor; lia.
  - apply (Hu 74565 [1]). lia.
  - destruct (Hn (-2048) [7] ltac:(lia)) as (e & E & _ & Hr & _). exists e. split_and!; [done|done|]. vm_compute in E. congruence.
Defined.

End OrderedCode.
