(* ===== verification/EdgeSet.v ===== *)
(** * Sets of edges

    [core/graph/edgeset.h] and [edgeset.cc]: the set of edges of a node, an array of eight
    pointers that becomes a hash set when it is full.  Edges are pointers, numbered by [nat].
    The order in which the hash set iterates is a parameter. *)

From S2P Require Import Prelude.

Module EdgeSet.

Abbreviation ptr := nat.

(** [64 / sizeof(const void* )]. *)
Definition kInline : nat := 8.

Inductive EdgeSet :=
| Inline (ptrs_ : list (option ptr))
| Flat (s : list ptr).

#[export] Instance EdgeSet_eq_dec : EqDecision EdgeSet.
Proof. solve_decision. Defined.

Section edge_set.
(** The order of a hash set after a change of its elements. *)
Context (rehash : list ptr -> list ptr).

Definition EdgeSet_new : EdgeSet := Inline (replicate kInline None).

Definition size (e : EdgeSet) : nat :=
  match e with
  | Flat s => length s
  | Inline ptrs_ => length (filter is_Some ptrs_)
  end.

Definition empty (e : EdgeSet) : bool := (size e =? 0)%nat.

Definition clear (e : EdgeSet) : EdgeSet := EdgeSet_new.

(** The pointers from [begin] to [end]; [None] if a null pointer is among them. *)
Definition elements (e : EdgeSet) : option (list ptr) :=
  match e with
  | Flat s => Some s
  | Inline ptrs_ => mapM id (take (size e) ptrs_)
  end.

Definition FlatSet_insert (x : ptr) (s : list ptr) : bool * list ptr :=
  if bool_decide (x ∈ s) then (false, s) else (true, rehash (x :: s)).

Definition FlatSet_erase (x : ptr) (s : list ptr) : nat * list ptr :=
  if bool_decide (x ∈ s) then (1%nat, rehash (filter (.≠ x) s)) else (0%nat, s).

(** Whether the pointer was added, and the set. *)
Definition insert (value : ptr) (e : EdgeSet) : bool * EdgeSet :=
  match e with
  | Flat s => let '(b, s) := FlatSet_insert value s in (b, Flat s)
  | Inline ptrs_ =>
      if bool_decide (Some value ∈ ptrs_) then (false, e)
      else
        match list_find (fun p => p = None) ptrs_ with
        | Some (i, _) => (true, Inline (<[i:=Some value]> ptrs_))
        | None =>
            let s := foldl (fun s p => snd (FlatSet_insert p s)) [] (omap id ptrs_) in
            let '(b, s) := FlatSet_insert value s in (b, Flat s)
        end
  end.

(** The number of pointers that were removed, and the set. *)
Definition erase (key : ptr) (e : EdgeSet) : nat * EdgeSet :=
  match e with
  | Flat s => let '(n, s) := FlatSet_erase key s in (n, Flat s)
  | Inline ptrs_ =>
      match list_find (fun p => p = Some key) ptrs_ with
      | Some (i, _) =>
          let n := size e in
          (1%nat, Inline (<[n - 1:=None]> (<[i:=default None (ptrs_ !! (n - 1))]> ptrs_))%nat)
      | None => (0%nat, e)
      end
  end.

(** ** The set it stands for *)

Context (Hrehash : forall l, rehash l ≡ₚ l).

(** The pointers of an array are in front of the null pointers. *)
Definition holds (e : EdgeSet) (l : list ptr) : Prop :=
  NoDup l
  /\ match e with
     | Flat s => s = l
     | Inline ptrs_ => (length l <= kInline)%nat /\ ptrs_ = (Some <$> l) ++ replicate (kInline - length l) None
     end.

Lemma holds_new : holds EdgeSet_new [].
Proof using Type. split; [constructor|]. by split; [apply Nat.le_0_l|]. Qed.

Lemma filter_Some (l : list ptr) n : filter is_Some ((Some <$> l) ++ replicate n None) = Some <$> l.
Proof using Type.
  rewrite filter_app, (filter_all _ (Some <$> l)) by (apply Forall_fmap, Forall_true; intros; cbn; eauto).
  rewrite filter_none; [by rewrite app_nil_r|]. apply Forall_replicate. by intros [? ?].
Qed.

Lemma size_spec e l : holds e l -> size e = length l.
Proof using Type. intros [_ He]. destruct e as [ptrs|s]; [|by subst]. destruct He as [_ ->]. unfold size. by rewrite filter_Some, length_fmap. Qed.

Lemma elements_spec e l : holds e l -> elements e = Some l.
Proof using Type.
  intros He. pose proof (size_spec e l He) as Hs. destruct He as [_ He]. destruct e as [ptrs|s]; [|by subst]. destruct He as [_ ->]. unfold elements. rewrite Hs, take_app_length' by (by rewrite length_fmap).
  clear Hs. induction l as [|x l IH]; [done|]. cbn. by rewrite IH.
Qed.

Lemma empty_spec e l : holds e l -> empty e = bool_decide (l = []).
Proof using Type. intros He. unfold empty. rewrite (size_spec e l He). by destruct l. Qed.

Lemma elem_of_inline (l : list ptr) n x : Some x ∈ (Some <$> l) ++ replicate n None <-> x ∈ l.
Proof using Type.
  rewrite elem_of_app, list_elem_of_fmap. split; [|by left; eauto]. intros [(y & [= ->] & Hy)|[? ?]%elem_of_replicate]; done.
Qed.

Lemma FlatSet_insert_spec x s : NoDup s -> exists s', FlatSet_insert x s = (bool_decide (x ∉ s), s') /\ NoDup s' /\ (if bool_decide (x ∈ s) then s' = s else s' ≡ₚ x :: s).
Proof using Hrehash.
  intros Hs. unfold FlatSet_insert. case_bool_decide as Hx.
  - exists s. by rewrite bool_decide_eq_false_2 by tauto.
  - exists (rehash (x :: s)). rewrite bool_decide_eq_true_2 by done. split_and!; [done| |apply Hrehash]. rewrite Hrehash. by constructor.
Qed.

Lemma FlatSet_range l : forall s, NoDup (l ++ s) -> foldl (fun s p => snd (FlatSet_insert p s)) s l ≡ₚ l ++ s.
Proof using Hrehash.
  induction l as [|x l IH]; intros s Hs; cbn [foldl]; [done|]. apply NoDup_cons in Hs as [Hx Hs]. rewrite not_elem_of_app in Hx.
  destruct (FlatSet_insert_spec x s) as (s' & E & Hs' & Hp); [by apply NoDup_app in Hs as (_ & _ & ?)|]. rewrite bool_decide_eq_false_2 in Hp by tauto. rewrite E. cbn [snd]. rewrite IH.
  - rewrite Hp. cbn. by rewrite Permutation_middle.
  - rewrite Hp, <- Permutation_middle. by constructor; [rewrite elem_of_app; tauto|].
Qed.

(** [insert] adds a pointer that is not in the set. *)
Lemma insert_spec e l x : holds e l -> exists e', insert x e = (bool_decide (x ∉ l), e')
  /\ if bool_decide (x ∈ l) then e' = e else exists l', holds e' l' /\ l' ≡ₚ x :: l.
Proof using Hrehash.
  intros [Hl He]. destruct e as [ptrs|s]; cbn [insert].
  - destruct He as [Hlen ->]. destruct (decide (x ∈ l)) as [Hx|Hx].
    + rewrite bool_decide_eq_true_2 by (by apply elem_of_inline). rewrite bool_decide_eq_false_2 by tauto. rewrite bool_decide_eq_true_2 by done. eauto.
    + rewrite bool_decide_eq_false_2 by (by rewrite elem_of_inline). rewrite bool_decide_eq_true_2 by done. rewrite bool_decide_eq_false_2 by done.
      destruct (decide (length l < kInline)%nat) as [Hlt|Hge].
      * destruct (kInline - length l)%nat as [|m] eqn:E; [lia|]. cbn [replicate].
        assert (list_find (fun p => p = None) ((Some <$> l) ++ None :: replicate m None) = Some (length l, None)) as ->.
        { clear. induction l as [|y l IH]; [done|]. cbn [fmap list_fmap app list_find]. rewrite decide_False by done. cbn in *. by rewrite IH. }
        eexists. split; [done|]. exists (l ++ [x]). split; [split; [rewrite Permutation_app_comm; by constructor|split; [rewrite length_app; cbn; lia|]]|by rewrite Permutation_app_comm].
        rewrite fmap_app, <- app_assoc, insert_app_r_alt by (rewrite length_fmap; lia). rewrite length_fmap, Nat.sub_diag. cbn [list_insert base.insert fmap list_fmap app]. do 3 f_equal. rewrite length_app. cbn [length]. lia.
      * assert (kInline - length l = 0)%nat as E by lia. rewrite E. cbn [replicate]. rewrite app_nil_r.
        assert (list_find (fun p => p = None) (Some <$> l) = None) as ->. { apply list_find_None, Forall_fmap, Forall_true. done. }
        assert (omap id (Some <$> l) = l) as ->. { clear. induction l as [|y l IH]; [done|]. cbn. f_equal. exact IH. }
        pose proof (FlatSet_range l [] ltac:(by rewrite app_nil_r)) as Hr. rewrite app_nil_r in Hr. set (s := foldl _ _ _) in *.
        destruct (FlatSet_insert_spec x s) as (s' & -> & Hs' & Hp); [by rewrite Hr|]. assert (x ∉ s) as Hxs by (by rewrite Hr). rewrite bool_decide_eq_true_2 by done. rewrite bool_decide_eq_false_2 in Hp by done.
        eexists. split; [done|]. exists s'. split; [done|]. by rewrite Hp, Hr.
  - subst s. destruct (FlatSet_insert_spec x l Hl) as (s' & -> & Hs' & Hp). eexists. split; [done|]. case_bool_decide; [by subst|]. exists s'. done.
Qed.

(** [erase] removes a pointer that is in the set. *)
Lemma erase_spec e l x : holds e l -> if bool_decide (x ∈ l) then exists e' l', erase x e = (1%nat, e') /\ holds e' l' /\ x :: l' ≡ₚ l else erase x e = (0%nat, e).
Proof using Hrehash.
  intros He. pose proof (size_spec e l He) as Hsz. destruct He as [Hl He]. destruct e as [ptrs|s]; cbn [erase].
  - destruct He as [Hlen ->]. case_bool_decide as Hx.
    + apply list_elem_of_split in Hx as (l1 & l2 & ->). rewrite fmap_app, <- app_assoc, fmap_cons in *. cbn [app] in *.
      assert (list_find (fun p => p = Some x) ((Some <$> l1) ++ Some x :: (Some <$> l2) ++ replicate (kInline - length (l1 ++ x :: l2)) None) = Some (length l1, Some x)) as ->.
      { apply list_find_Some. rewrite lookup_app_r, length_fmap, Nat.sub_diag by (by rewrite length_fmap). split_and!; [done|done|]. intros j y Hj Hlt ->.
        rewrite lookup_app_l in Hj by (by rewrite length_fmap). rewrite list_lookup_fmap in Hj. destruct (l1 !! j) eqn:E; [|done]. cbn in Hj. simplify_eq. apply NoDup_app in Hl as (_ & Hd & _). apply (Hd x); [by eapply list_elem_of_lookup_2|by left]. }
      rewrite Hsz. clear Hsz. rewrite length_app in *. cbn [length] in *. destruct l2 as [|y l2 _] using rev_ind.
      * eexists _, l1. split; [done|]. split; [|by rewrite Permutation_app_comm]. split; [by apply NoDup_app in Hl as [? _]|]. cbn [length] in *. split; [lia|]. cbn [fmap list_fmap app].
        replace (length l1 + 1 - 1)%nat with (length l1) by lia. rewrite list_insert_insert_eq. rewrite insert_app_r_alt, length_fmap, Nat.sub_diag by (by rewrite length_fmap). cbn [list_insert base.insert]. f_equal.
        change (None :: ?r) with (replicate 1 (@None ptr) ++ r). rewrite <- replicate_add. f_equal. lia.
      * eexists _, (l1 ++ y :: l2). split; [done|]. rewrite length_app in *. cbn [length] in *. assert (l1 ++ x :: l2 ++ [y] ≡ₚ x :: l1 ++ y :: l2) as Hp by (rewrite <- Permutation_middle, (Permutation_app_comm l2); done).
        split; [|by rewrite Hp]. rewrite Hp in Hl. split; [by apply NoDup_cons in Hl as [_ ?]|]. split; [rewrite length_app; cbn; lia|].
        replace (length l1 + S (length l2 + 1) - 1)%nat with (length ((Some <$> l1) ++ Some x :: (Some <$> l2))) by (rewrite length_app, length_fmap; cbn; rewrite length_fmap; lia).
        rewrite fmap_app. cbn [fmap list_fmap]. set (R := replicate _ None).
        assert (forall z : option ptr, (Some <$> l1) ++ z :: ((Some <$> l2) ++ [Some y]) ++ R = ((Some <$> l1) ++ z :: (Some <$> l2)) ++ Some y :: R) as E by (intros z; rewrite <- !app_assoc; cbn [app]; by rewrite <- ?app_assoc).
        rewrite E, lookup_app_r, Nat.sub_diag by lia. cbn [lookup list_lookup from_option id]. rewrite insert_app_l by (rewrite length_app, length_fmap; cbn; lia).
        assert (<[length l1:=Some y]> ((Some <$> l1) ++ Some x :: (Some <$> l2)) = (Some <$> l1) ++ Some y :: (Some <$> l2)) as ->.
        { rewrite insert_app_r_alt, length_fmap, Nat.sub_diag by (by rewrite length_fmap). done. }
        assert (length ((Some <$> l1) ++ Some x :: (Some <$> l2)) = length ((Some <$> l1) ++ Some y :: (Some <$> l2))) as -> by (rewrite !length_app; done).
        rewrite insert_app_r_alt, Nat.sub_diag by lia. cbn [list_insert base.insert].
        rewrite fmap_app. cbn [fmap list_fmap]. rewrite <- !app_assoc. cbn [app]. do 3 f_equal. change (None :: R) with (replicate 1 (@None ptr) ++ R). unfold R. rewrite <- replicate_add. f_equal. rewrite !length_app. cbn [length]. lia.
    + assert (list_find (fun p => p = Some x) ((Some <$> l) ++ replicate (kInline - length l) None) = None) as ->; [|done]. apply list_find_None. apply Forall_app. split.
      * apply Forall_fmap, Forall_forall. intros y Hy [= ->]. done.
      * by apply Forall_replicate.
  - subst s. unfold FlatSet_erase. case_bool_decide as Hx; [|done]. exists (Flat (rehash (filter (.≠ x) l))), (rehash (filter (.≠ x) l)). split; [done|]. split.
    + split; [rewrite Hrehash; by apply NoDup_filter|done].
    + rewrite Hrehash. apply list_elem_of_split in Hx as (l1 & l2 & ->). apply NoDup_app in Hl as (H1 & Hd & [Hx H2]%NoDup_cons). rewrite filter_app, filter_cons_False by tauto.
      rewrite !filter_all; [by rewrite Permutation_middle| |]; apply Forall_forall; intros y Hy ->; [done|]. apply (Hd x Hy). by left.
Qed.

End edge_set.
End EdgeSet.
