(* ===== verification/Graph.v ===== *)
(** * Graphs of operations: the model

    [core/graph/graph.h] and [graph.cc]: nodes with their properties, edges between numbered
    outputs and inputs, and the graph that owns them.  Nodes, edges and properties are objects
    behind pointers, numbered by [nat]; properties may be shared between nodes, also with nodes
    of other graphs, and are copied before they are changed. *)

From S2P Require Import Prelude EdgeSet.
From stdpp Require Import pretty.

Module Graph.

Abbreviation ptr := nat.
Abbreviation EdgeSet := EdgeSet.EdgeSet.

#[local] Open Scope string_scope.
#[local] Open Scope Z_scope.
#[local] Open Scope list_scope.

(** ** Nodes *)

Inductive NodeClass :=
| NC_UNINITIALIZED | NC_SWITCH | NC_MERGE | NC_ENTER | NC_EXIT | NC_NEXT_ITERATION | NC_LOOP_COND
| NC_CONTROL_TRIGGER | NC_SEND | NC_HOST_SEND | NC_RECV | NC_HOST_RECV | NC_CONSTANT | NC_VARIABLE
| NC_IDENTITY | NC_GET_SESSION_HANDLE | NC_GET_SESSION_TENSOR | NC_DELETE_SESSION_TENSOR | NC_METADATA
| NC_SCOPED_ALLOCATOR | NC_COLLECTIVE | NC_FAKE_PARAM | NC_PARTITIONED_CALL | NC_IF | NC_WHILE | NC_ARG
| NC_RETVAL | NC_OTHER.

#[export] Instance NodeClass_eq_dec : EqDecision NodeClass.
Proof. solve_decision. Defined.

Definition REF_CLASS (key : string) (value : NodeClass) : list (string * NodeClass) := [(key, value); ("Ref" +:+ key, value)].

Definition kNodeClassTable : list (string * NodeClass) :=
  REF_CLASS "Switch" NC_SWITCH ++ REF_CLASS "_SwitchN" NC_SWITCH ++ REF_CLASS "Merge" NC_MERGE ++ REF_CLASS "Enter" NC_ENTER
  ++ REF_CLASS "Exit" NC_EXIT ++ REF_CLASS "NextIteration" NC_NEXT_ITERATION
  ++ [("LoopCond", NC_LOOP_COND); ("ControlTrigger", NC_CONTROL_TRIGGER); ("_Send", NC_SEND); ("_HostSend", NC_HOST_SEND);
      ("_Recv", NC_RECV); ("_HostRecv", NC_HOST_RECV); ("Const", NC_CONSTANT); ("HostConst", NC_CONSTANT);
      ("Variable", NC_VARIABLE); ("VariableV2", NC_VARIABLE)]
  ++ REF_CLASS "Identity" NC_IDENTITY
  ++ [("GetSessionHandle", NC_GET_SESSION_HANDLE); ("GetSessionHandleV2", NC_GET_SESSION_HANDLE);
      ("GetSessionTensor", NC_GET_SESSION_TENSOR); ("DeleteSessionTensor", NC_DELETE_SESSION_TENSOR); ("Size", NC_METADATA);
      ("Shape", NC_METADATA); ("Rank", NC_METADATA); ("_ScopedAllocator", NC_SCOPED_ALLOCATOR);
      ("CollectiveReduce", NC_COLLECTIVE); ("CollectiveBcastSend", NC_COLLECTIVE); ("CollectiveBcastRecv", NC_COLLECTIVE);
      ("CollectiveGather", NC_COLLECTIVE); ("FakeParam", NC_FAKE_PARAM); ("PartitionedCall", NC_PARTITIONED_CALL);
      ("StatefulPartitionedCall", NC_PARTITIONED_CALL); ("If", NC_IF); ("StatelessIf", NC_IF); ("While", NC_WHILE);
      ("StatelessWhile", NC_WHILE); ("_Arg", NC_ARG); ("_DeviceArg", NC_ARG); ("_Retval", NC_RETVAL);
      ("_DeviceRetval", NC_RETVAL); ("_XlaMerge", NC_MERGE)].

Definition GetNodeClassForOp (ts : string) : NodeClass :=
  match list_find (fun kv => kv.1 = ts) kNodeClassTable with Some (_, kv) => kv.2 | None => NC_OTHER end.

(** The message [NodeDef]; the values of attributes are serialised. *)
Record NodeDef := mkNodeDef {
  name : string;
  op : string;
  input : list string;
  device : string;
  attr : gmap string (list Z);
  original_node_names : list string
}.

(** [op_def] is a pointer. *)
Record NodeProperties := mkProps {
  op_def : nat;
  node_def : NodeDef;
  input_types : list Z;
  output_types : list Z
}.

Record Node := mkNode {
  id_ : Z;
  cost_id_ : Z;
  class_ : NodeClass;
  in_edges_ : EdgeSet;
  out_edges_ : EdgeSet;
  props_ : option ptr;
  assigned_device_name_index_ : Z;
  while_ctx_ : option string
}.

Definition Node_new : Node := mkNode (-1) (-1) NC_UNINITIALIZED EdgeSet.EdgeSet_new EdgeSet.EdgeSet_new None 0 None.

Definition set_in_edges (s : EdgeSet) (n : Node) : Node := mkNode (id_ n) (cost_id_ n) (class_ n) s (out_edges_ n) (props_ n) (assigned_device_name_index_ n) (while_ctx_ n).
Definition set_out_edges (s : EdgeSet) (n : Node) : Node := mkNode (id_ n) (cost_id_ n) (class_ n) (in_edges_ n) s (props_ n) (assigned_device_name_index_ n) (while_ctx_ n).
Definition set_props (q : ptr) (n : Node) : Node := mkNode (id_ n) (cost_id_ n) (class_ n) (in_edges_ n) (out_edges_ n) (Some q) (assigned_device_name_index_ n) (while_ctx_ n).
Definition set_device_index (i : Z) (n : Node) : Node := mkNode (id_ n) (cost_id_ n) (class_ n) (in_edges_ n) (out_edges_ n) (props_ n) i (while_ctx_ n).

Definition Clear (n : Node) : Node := mkNode (-1) (-1) NC_UNINITIALIZED (EdgeSet.clear (in_edges_ n)) (EdgeSet.clear (out_edges_ n)) None 0 (while_ctx_ n).

Definition IsSource (n : Node) : bool := id_ n =? 0.
Definition IsSink (n : Node) : bool := id_ n =? 1.
Definition IsOp (n : Node) : bool := 1 <? id_ n.
Definition IsExit (n : Node) : bool := bool_decide (class_ n = NC_EXIT).
Definition IsWhileNode (n : Node) : bool := bool_decide (class_ n = NC_WHILE).

(** ** Edges *)

Definition kControlSlot : Z := -1.

Record Edge := mkEdge { src_ : ptr; dst_ : ptr; edge_id_ : Z; src_output_ : Z; dst_input_ : Z }.

Definition IsControlEdge (e : Edge) : bool := src_output_ e =? kControlSlot.

Record WhileContext := mkWhile {
  frame_name : string;
  enter_nodes : list ptr;
  exit_nodes : list ptr;
  cond_output : ptr * Z;
  body_inputs : list (ptr * Z);
  body_outputs : list (ptr * Z)
}.

(** ** The graph *)

(** The objects, and the fields of the class.  [foreign]: the properties that nodes of other
    graphs share.  The back of a free list is its head. *)
Record Graph := mkGraph {
  node_heap : gmap ptr Node;
  edge_heap : gmap ptr Edge;
  props_heap : gmap ptr NodeProperties;
  foreign : gset ptr;
  nodes_ : list (option ptr);
  num_nodes_ : Z;
  edges_ : list (option ptr);
  num_edges_ : Z;
  free_nodes_ : list ptr;
  free_edges_ : list ptr;
  name_counter_ : Z;
  device_names_ : list string;
  device_names_map_ : gmap string Z;
  while_ctxs_ : gmap string WhileContext
}.

Definition set_node_heap h g := mkGraph h (edge_heap g) (props_heap g) (foreign g) (nodes_ g) (num_nodes_ g) (edges_ g) (num_edges_ g) (free_nodes_ g) (free_edges_ g) (name_counter_ g) (device_names_ g) (device_names_map_ g) (while_ctxs_ g).
Definition set_edge_heap h g := mkGraph (node_heap g) h (props_heap g) (foreign g) (nodes_ g) (num_nodes_ g) (edges_ g) (num_edges_ g) (free_nodes_ g) (free_edges_ g) (name_counter_ g) (device_names_ g) (device_names_map_ g) (while_ctxs_ g).
Definition set_props_heap h g := mkGraph (node_heap g) (edge_heap g) h (foreign g) (nodes_ g) (num_nodes_ g) (edges_ g) (num_edges_ g) (free_nodes_ g) (free_edges_ g) (name_counter_ g) (device_names_ g) (device_names_map_ g) (while_ctxs_ g).
Definition set_nodes (l : list (option ptr)) (k : Z) (f : list ptr) g := mkGraph (node_heap g) (edge_heap g) (props_heap g) (foreign g) l k (edges_ g) (num_edges_ g) f (free_edges_ g) (name_counter_ g) (device_names_ g) (device_names_map_ g) (while_ctxs_ g).
Definition set_edges (l : list (option ptr)) (k : Z) (f : list ptr) g := mkGraph (node_heap g) (edge_heap g) (props_heap g) (foreign g) (nodes_ g) (num_nodes_ g) l k (free_nodes_ g) f (name_counter_ g) (device_names_ g) (device_names_map_ g) (while_ctxs_ g).
Definition set_name_counter k g := mkGraph (node_heap g) (edge_heap g) (props_heap g) (foreign g) (nodes_ g) (num_nodes_ g) (edges_ g) (num_edges_ g) (free_nodes_ g) (free_edges_ g) k (device_names_ g) (device_names_map_ g) (while_ctxs_ g).
Definition set_device_names l m g := mkGraph (node_heap g) (edge_heap g) (props_heap g) (foreign g) (nodes_ g) (num_nodes_ g) (edges_ g) (num_edges_ g) (free_nodes_ g) (free_edges_ g) (name_counter_ g) l m (while_ctxs_ g).
Definition set_while_ctxs m g := mkGraph (node_heap g) (edge_heap g) (props_heap g) (foreign g) (nodes_ g) (num_nodes_ g) (edges_ g) (num_edges_ g) (free_nodes_ g) (free_edges_ g) (name_counter_ g) (device_names_ g) (device_names_map_ g) m.

(** [v[i]] of a vector. *)
Definition at_ {A} (l : list A) (i : Z) : option A := if 0 <=? i then l !! Z.to_nat i else None.

Abbreviation MG := (M Graph).

(** Dereferencing. *)
Definition node (p : ptr) : MG Node := g ← get; of_option (node_heap g !! p).
Definition edge (e : ptr) : MG Edge := g ← get; of_option (edge_heap g !! e).
Definition props (p : ptr) : MG NodeProperties := n ← node p; q ← of_option (props_ n); g ← get; of_option (props_heap g !! q).
Definition def (p : ptr) : MG NodeDef := v ← props p; mret (node_def v).
Definition update_node (p : ptr) (f : Node -> Node) : MG unit := n ← node p; modify (fun g => set_node_heap (<[p:=f n]> (node_heap g)) g).
Definition in_edges (p : ptr) : MG (list ptr) := n ← node p; of_option (EdgeSet.elements (in_edges_ n)).
Definition out_edges (p : ptr) : MG (list ptr) := n ← node p; of_option (EdgeSet.elements (out_edges_ n)).

Definition FindNodeId (id : Z) : MG (option ptr) := g ← get; of_option (at_ (nodes_ g) id).
Definition FindEdgeId (id : Z) : MG (option ptr) := g ← get; of_option (at_ (edges_ g) id).
Definition source_node : MG (option ptr) := FindNodeId 0.
Definition sink_node : MG (option ptr) := FindNodeId 1.

Definition num_nodes : MG Z := g ← get; mret (i32 (num_nodes_ g)).
Definition num_edges : MG Z := g ← get; mret (num_edges_ g).

(** [nodes()]: from the id 0, then over the ids with a node. *)
Definition nodes : MG (list ptr) :=
  g ← get;
  of_option match nodes_ g with
            | [] => Some []
            | p :: rest => p ← p; Some (p :: omap id rest)
            end.

Definition op_nodes : MG (list ptr) := l ← nodes; mret (drop 2 l).

(** ** Properties of a node *)

(** [shared_ptr::unique]. *)
Definition unique (q : ptr) (g : Graph) : bool :=
  bool_decide (size (filter (fun '(_, n) => props_ n = Some q) (node_heap g)) = 1%nat) && bool_decide (q ∉ foreign g).

(** [make_shared]. *)
Definition new_props (v : NodeProperties) : MG ptr :=
  g ← get;
  let q := fresh (dom (props_heap g) ∪ foreign g) in
  put (set_props_heap (<[q:=v]> (props_heap g)) g);;
  mret q.

Definition MaybeCopyOnWrite (p : ptr) : MG unit :=
  n ← node p;
  q ← of_option (props_ n);
  g ← get;
  if unique q g then mret tt
  else
    v ← of_option (props_heap g !! q);
    q ← new_props v;
    update_node p (set_props q).

(** A change of the properties that [props_] points to. *)
Definition change_props (p : ptr) (f : NodeProperties -> NodeProperties) : MG unit :=
  n ← node p;
  q ← of_option (props_ n);
  g ← get;
  v ← of_option (props_heap g !! q);
  put (set_props_heap (<[q:=f v]> (props_heap g)) g).

Definition with_def (f : NodeDef -> NodeDef) (v : NodeProperties) : NodeProperties := mkProps (op_def v) (f (node_def v)) (input_types v) (output_types v).
Definition with_input (l : list string) (d : NodeDef) : NodeDef := mkNodeDef (name d) (op d) l (device d) (attr d) (original_node_names d).

Definition change_def (p : ptr) (f : NodeDef -> NodeDef) : MG unit := MaybeCopyOnWrite p;; change_props p (with_def f).

Definition set_name (p : ptr) (s : string) : MG unit :=
  change_def p (fun d => mkNodeDef s (op d) (input d) (device d) (attr d) (original_node_names d)).
Definition set_requested_device (p : ptr) (s : string) : MG unit :=
  change_def p (fun d => mkNodeDef (name d) (op d) (input d) s (attr d) (original_node_names d)).
Definition set_original_node_names (p : ptr) (l : list string) : MG unit :=
  change_def p (fun d => mkNodeDef (name d) (op d) (input d) (device d) (attr d) l).
Definition ClearAttr (p : ptr) (k : string) : MG unit :=
  change_def p (fun d => mkNodeDef (name d) (op d) (input d) (device d) (delete k (attr d)) (original_node_names d)).

Definition num_inputs (p : ptr) : MG Z := v ← props p; mret (Z.of_nat (length (input_types v))).
Definition num_outputs (p : ptr) : MG Z := v ← props p; mret (Z.of_nat (length (output_types v))).

Section graph.
Context (rehash : list ptr -> list ptr).
(** [ops_.LookUpOpDef] and [InOutTypesForNode]. *)
Context (LookUpOpDef : string -> result nat) (InOutTypesForNode : NodeDef -> nat -> result (list Z * list Z)).

Definition UpdateProperties (p : ptr) : MG unit :=
  v ← props p;
  match InOutTypesForNode (node_def v) (op_def v) with
  | Err _ => mret tt
  | Ok (inputs, outputs) => q ← new_props (mkProps (op_def v) (node_def v) inputs outputs); update_node p (set_props q)
  end.

Definition AddAttr (p : ptr) (k : string) (val : list Z) : MG unit :=
  change_def p (fun d => mkNodeDef (name d) (op d) (input d) (device d) (<[k:=val]> (attr d)) (original_node_names d));;
  UpdateProperties p.

(** ** Edges of a node *)

(** The first edge that satisfies a test. *)
Fixpoint find_edge (f : Edge -> bool) (es : list ptr) : MG (option ptr) :=
  match es with
  | [] => mret None
  | e :: es => ed ← edge e; if f ed then mret (Some e) else find_edge f es
  end.

Definition input_edge (p : ptr) (idx : Z) : MG (result ptr) :=
  n ← num_inputs p;
  if (idx <? 0) || (n <=? idx) then mret (Err INVALID_ARGUMENT)
  else
    es ← in_edges p;
    e ← find_edge (fun ed => dst_input_ ed =? idx) es;
    mret match e with Some e => Ok e | None => Err NOT_FOUND end.

Fixpoint input_edges_loop (n : Z) (acc : list (option ptr)) (es : list ptr) : MG (result (list (option ptr))) :=
  match es with
  | [] => mret (Ok acc)
  | e :: es =>
      ed ← edge e;
      if IsControlEdge ed then input_edges_loop n acc es
      else if (dst_input_ ed <? 0) || (n <=? dst_input_ ed) then mret (Err INTERNAL)
      else
        cell ← of_option (at_ acc (dst_input_ ed));
        match cell with
        | Some _ => mret (Err INTERNAL)
        | None => input_edges_loop n (<[Z.to_nat (dst_input_ ed):=Some e]> acc) es
        end
  end.

Definition input_edges (p : ptr) : MG (result (list ptr)) :=
  n ← num_inputs p;
  es ← in_edges p;
  r ← input_edges_loop n (replicate (Z.to_nat n) None) es;
  mret (l ← r; match mapM id l with Some l => Ok l | None => Err INVALID_ARGUMENT end).

Definition input_node (p : ptr) (idx : Z) : MG (result ptr) :=
  e ← input_edge p idx;
  match e with Ok e => ed ← edge e; mret (Ok (src_ ed)) | Err c => mret (Err c) end.

Definition input_tensor (p : ptr) (idx : Z) : MG (result (ptr * Z)) :=
  e ← input_edge p idx;
  match e with Ok e => ed ← edge e; mret (Ok (src_ ed, src_output_ ed)) | Err c => mret (Err c) end.

(** ** Validity *)

Definition IsValidNode (p : option ptr) : MG Status :=
  match p with
  | None => mret (Err INVALID_ARGUMENT)
  | Some p =>
      n ← node p;
      g ← get;
      if id_ n <? 0 then mret (Err INVALID_ARGUMENT)
      else if Z.of_nat (length (nodes_ g)) <=? id_ n then mret (Err INVALID_ARGUMENT)
      else
        q ← of_option (at_ (nodes_ g) (id_ n));
        mret (if bool_decide (q = Some p) then OK else Err INVALID_ARGUMENT)
  end.

Definition IsValidOutputTensor (p : option ptr) (idx : Z) : MG Status :=
  st ← IsValidNode p;
  match st, p with
  | Ok _, Some p => k ← num_outputs p; mret (if (k <=? idx) || (idx <? 0) then Err OUT_OF_RANGE else OK)
  | _, _ => mret st
  end.

Definition IsValidInputTensor (p : option ptr) (idx : Z) : MG Status :=
  st ← IsValidNode p;
  match st, p with
  | Ok _, Some p => k ← num_inputs p; mret (if (k <=? idx) || (idx <? 0) then Err OUT_OF_RANGE else OK)
  | _, _ => mret st
  end.

Definition check_valid (p : ptr) : MG unit := st ← IsValidNode (Some p); CHECK (ok st).

(** ** Nodes of the graph *)

Definition Initialize (p : ptr) (id cost_id : Z) (q : ptr) : MG unit :=
  n ← node p;
  CHECK (id_ n =? -1);;
  CHECK (EdgeSet.empty (in_edges_ n));;
  CHECK (EdgeSet.empty (out_edges_ n));;
  g ← get;
  v ← of_option (props_heap g !! q);
  update_node p (fun n => mkNode id cost_id (GetNodeClassForOp (op (node_def v))) (in_edges_ n) (out_edges_ n) (Some q) (assigned_device_name_index_ n) (while_ctx_ n)).

(** [cost_node] by its [cost_id]. *)
Definition AllocateNode (q : ptr) (cost_node : option Z) : MG ptr :=
  g ← get;
  p ← match free_nodes_ g with
      | [] => let p := fresh (dom (node_heap g)) in put (set_node_heap (<[p:=Node_new]> (node_heap g)) g);; mret p
      | p :: rest => put (set_nodes (nodes_ g) (num_nodes_ g) rest g);; mret p
      end;
  let id := i32 (Z.of_nat (length (nodes_ g))) in
  let cost_id := default id cost_node in
  Initialize p id cost_id q;;
  modify (fun g => set_nodes (nodes_ g ++ [Some p]) (i64 (num_nodes_ g + 1)) (free_nodes_ g) g);;
  mret p.

Definition ReleaseNode (p : ptr) : MG unit :=
  check_valid p;;
  n ← node p;
  modify (fun g => set_nodes (<[Z.to_nat (id_ n):=None]> (nodes_ g)) (i64 (num_nodes_ g - 1)) (p :: free_nodes_ g) g);;
  update_node p Clear.

(** [status->Update]: the first error stays. *)
Definition AddNode (d : NodeDef) (status : Status) : MG (Status * option ptr) :=
  let looked_up := LookUpOpDef (op d) in
  match status, looked_up with
  | Err c, _ => mret (Err c, None)
  | Ok _, Err c => mret (Err c, None)
  | Ok _, Ok od =>
      match InOutTypesForNode d od with
      | Err c => mret (Err c, None)
      | Ok (inputs, outputs) =>
          q ← new_props (mkProps od d inputs outputs);
          p ← AllocateNode q None;
          mret (OK, Some p)
      end
  end.

(** ** Edges of the graph *)

Definition out_insert (p e : ptr) : MG unit :=
  n ← node p;
  let '(b, s) := EdgeSet.insert rehash e (out_edges_ n) in
  CHECK b;;
  update_node p (set_out_edges s).

Definition in_insert (p e : ptr) : MG unit :=
  n ← node p;
  let '(b, s) := EdgeSet.insert rehash e (in_edges_ n) in
  CHECK b;;
  update_node p (set_in_edges s).

Definition out_erase (p e : ptr) : MG unit :=
  n ← node p;
  let '(k, s) := EdgeSet.erase rehash e (out_edges_ n) in
  CHECK (k =? 1)%nat;;
  update_node p (set_out_edges s).

Definition in_erase (p e : ptr) : MG unit :=
  n ← node p;
  let '(k, s) := EdgeSet.erase rehash e (in_edges_ n) in
  CHECK (k =? 1)%nat;;
  update_node p (set_in_edges s).

Definition AddEdge (source : ptr) (x : Z) (dest : ptr) (y : Z) : MG ptr :=
  check_valid source;;
  check_valid dest;;
  so ← source_node;
  si ← sink_node;
  (if bool_decide (so = Some source) || bool_decide (si = Some dest) || (x =? kControlSlot) || (y =? kControlSlot)
   then CHECK (x =? kControlSlot);; CHECK (y =? kControlSlot) else mret tt);;
  g ← get;
  e ← match free_edges_ g with
      | [] => mret (fresh (dom (edge_heap g)))
      | e :: rest => put (set_edges (edges_ g) (num_edges_ g) rest g);; mret e
      end;
  modify (fun g => set_edge_heap (<[e:=mkEdge source dest (i32 (Z.of_nat (length (edges_ g)))) x y]> (edge_heap g)) g);;
  out_insert source e;;
  in_insert dest e;;
  modify (fun g => set_edges (edges_ g ++ [Some e]) (i32 (num_edges_ g + 1)) (free_edges_ g) g);;
  mret e.

(** [edges_[e->id_] = nullptr; RecycleEdge(e); --num_edges_]. *)
Definition drop_edge (e : ptr) : MG unit :=
  ed ← edge e;
  g ← get;
  _ ← of_option (at_ (edges_ g) (edge_id_ ed));
  put (set_edges (<[Z.to_nat (edge_id_ ed):=None]> (edges_ g)) (i32 (num_edges_ g - 1)) (e :: free_edges_ g) g).

Definition RemoveEdge (e : ptr) : MG unit :=
  ed ← edge e;
  check_valid (src_ ed);;
  check_valid (dst_ ed);;
  out_erase (src_ ed) e;;
  in_erase (dst_ ed) e;;
  g ← get;
  e' ← of_option (at_ (edges_ g) (edge_id_ ed));
  CHECK (bool_decide (e' = Some e));;
  CHECK (0 <? num_edges_ g);;
  drop_edge e.

(** The two loops of [RemoveNode]. *)
Fixpoint remove_in_edges (es : list ptr) : MG unit :=
  match es with
  | [] => mret tt
  | e :: es => ed ← edge e; out_erase (src_ ed) e;; drop_edge e;; remove_in_edges es
  end.

Fixpoint remove_out_edges (es : list ptr) : MG unit :=
  match es with
  | [] => mret tt
  | e :: es => ed ← edge e; in_erase (dst_ ed) e;; drop_edge e;; remove_out_edges es
  end.

Definition RemoveNode (p : ptr) : MG unit :=
  check_valid p;;
  n ← node p;
  CHECK (negb (IsSource n));;
  CHECK (negb (IsSink n));;
  es ← in_edges p;
  remove_in_edges es;;
  update_node p (fun n => set_in_edges (EdgeSet.clear (in_edges_ n)) n);;
  es ← out_edges p;
  remove_out_edges es;;
  update_node p (fun n => set_out_edges (EdgeSet.clear (out_edges_ n)) n);;
  ReleaseNode p.

Definition AddControlEdge (source dest : ptr) (allow_duplicates : bool) : MG (option ptr) :=
  found ← (if allow_duplicates then mret None
           else es ← in_edges dest; find_edge (fun ed => IsControlEdge ed && bool_decide (src_ ed = source)) es);
  match found with
  | Some _ => mret None
  | None =>
      s ← node source;
      d ← node dest;
      (if negb (IsSource s) && negb (IsSink d) && negb allow_duplicates then
         sd ← def source;
         let new_input := "^" +:+ name sd in
         dd ← def dest;
         if bool_decide (new_input ∈ input dd) then mret tt
         else change_def dest (fun d => with_input (input d ++ [new_input]) d)
       else mret tt);;
      e ← AddEdge source kControlSlot dest kControlSlot;
      mret (Some e)
  end.

(** Removes the first element that equals a string. *)
Fixpoint erase_first (s : string) (l : list string) : list string :=
  match l with [] => [] | x :: l => if bool_decide (x = s) then l else x :: erase_first s l end.

Definition RemoveControlEdge (e : ptr) : MG unit :=
  ed ← edge e;
  s ← node (src_ ed);
  d ← node (dst_ ed);
  (if negb (IsSource s) && negb (IsSink d) then
     MaybeCopyOnWrite (dst_ ed);;
     sd ← def (src_ ed);
     let e_src_name := "^" +:+ name sd in
     change_props (dst_ ed) (with_def (fun d => with_input (erase_first e_src_name (input d)) d))
   else mret tt);;
  RemoveEdge e.

Definition FindEdge (dst : ptr) (index : Z) : MG (option ptr) := es ← in_edges dst; find_edge (fun ed => dst_input_ ed =? index) es.

(** [StrCat(name, ":", index)]. *)
Definition tensor_name (s : string) (index : Z) : string := s +:+ ":" +:+ pretty index.

Definition UpdateEdge (new_src : ptr) (new_src_index : Z) (dst : ptr) (dst_index : Z) : MG Status :=
  st ← IsValidOutputTensor (Some new_src) new_src_index;
  if negb (ok st) then mret st
  else
    st ← IsValidInputTensor (Some dst) dst_index;
    if negb (ok st) then mret st
    else
      e ← FindEdge dst dst_index;
      match e with
      | None => mret (Err INVALID_ARGUMENT)
      | Some e =>
          RemoveEdge e;;
          _ ← AddEdge new_src new_src_index dst dst_index;
          MaybeCopyOnWrite dst;;
          sd ← def new_src;
          dd ← def dst;
          _ ← of_option (at_ (input dd) dst_index);
          change_props dst (with_def (fun d => with_input (<[Z.to_nat dst_index:=tensor_name (name sd) new_src_index]> (input d)) d));;
          mret OK
      end.

(** The number of data edges. *)
Fixpoint count_data_edges (es : list ptr) : MG Z :=
  match es with
  | [] => mret 0
  | e :: es => ed ← edge e; k ← count_data_edges es; mret (if IsControlEdge ed then k else k + 1)
  end.

Definition AddWhileInputHack (new_src : ptr) (new_src_index : Z) (dst : ptr) : MG Status :=
  d ← node dst;
  if negb (IsWhileNode d) then mret (Err INTERNAL)
  else
    st ← IsValidOutputTensor (Some new_src) new_src_index;
    if negb (ok st) then mret st
    else
      es ← in_edges dst;
      dst_index ← count_data_edges es;
      st ← IsValidInputTensor (Some dst) dst_index;
      if negb (ok st) then mret st
      else
        _ ← AddEdge new_src new_src_index dst dst_index;
        MaybeCopyOnWrite dst;;
        sd ← def new_src;
        change_props dst (with_def (fun d => with_input (input d ++ [tensor_name (name sd) new_src_index]) d));;
        mret OK.

(** ** Device names *)

Definition InternDeviceName (device_name : string) : MG Z :=
  if bool_decide (device_name = "") then mret 0
  else
    g ← get;
    let index_cell := default 0 (device_names_map_ g !! device_name) in
    if 0 <? index_cell then mret index_cell
    else
      let m := <[device_name:=index_cell]> (device_names_map_ g) in
      let index := i32 (Z.of_nat (size m)) in
      put (set_device_names (device_names_ g ++ [device_name]) (<[device_name:=index]> m) g);;
      mret index.

Definition CheckDeviceNameIndex (index : Z) : MG unit :=
  g ← get; CHECK (0 <=? index);; CHECK (index <? Z.of_nat (length (device_names_ g))).

Definition assigned_device_name (p : ptr) : MG string :=
  n ← node p; g ← get; of_option (at_ (device_names_ g) (assigned_device_name_index_ n)).

Definition set_assigned_device_name_index (p : ptr) (index : Z) : MG unit :=
  CheckDeviceNameIndex index;; update_node p (set_device_index index).

Definition set_assigned_device_name (p : ptr) (device_name : string) : MG unit :=
  index ← InternDeviceName device_name; update_node p (set_device_index index).

(** The node to copy: its pointer to the properties, which this graph or another one owns, its
    id and cost id, and the name of its device. *)
Definition CopyNode (q : ptr) (id cost_id : Z) (device_name : string) : MG ptr :=
  CHECK (negb (id =? 0));;
  CHECK (negb (id =? 1));;
  copy ← AllocateNode q (Some cost_id);
  set_assigned_device_name copy device_name;;
  g ← get;
  v ← of_option (props_heap g !! q);
  match LookUpOpDef (op (node_def v)) with
  | Err _ => crash
  | Ok od =>
      (if negb (od =? op_def v)%nat then
         MaybeCopyOnWrite copy;;
         change_props copy (fun v => mkProps od (node_def v) (input_types v) (output_types v))
       else mret tt);;
      mret copy
  end.

(** ** The rest of the class *)

Definition NewName (prefix : string) : MG string :=
  g ← get;
  put (set_name_counter (i32 (name_counter_ g + 1)) g);;
  mret (prefix +:+ "/_" +:+ pretty (name_counter_ g)).

Definition AddWhileContext (w : WhileContext) : MG Status :=
  g ← get;
  match while_ctxs_ g !! frame_name w with
  | Some _ => mret (Err INVALID_ARGUMENT)
  | None => put (set_while_ctxs (<[frame_name w:=w]> (while_ctxs_ g)) g);; mret OK
  end.

Definition set_while_ctx (p : ptr) (frame : string) : MG unit :=
  n ← node p;
  CHECK (IsExit n);;
  CHECK (bool_decide (while_ctx_ n = None));;
  update_node p (fun n => mkNode (id_ n) (cost_id_ n) (class_ n) (in_edges_ n) (out_edges_ n) (props_ n) (assigned_device_name_index_ n) (Some frame)).

Fixpoint name_index_loop (ps : list ptr) (index : gmap string ptr) : MG (gmap string ptr) :=
  match ps with [] => mret index | p :: ps => d ← def p; name_index_loop ps (<[name d:=p]> index) end.

Definition BuildNodeNameIndex : MG (gmap string ptr) := ps ← nodes; name_index_loop ps ∅.

(** ** The constructor *)

Definition empty_graph : Graph := mkGraph ∅ ∅ ∅ ∅ [] 0 [] 0 [] [] 0 [""] ∅ ∅.

Definition Graph_init : MG unit :=
  '(st, source) ← AddNode (mkNodeDef "_SOURCE" "NoOp" [] "" ∅ []) OK;
  CHECK (ok st);;
  source ← of_option source;
  n ← node source;
  CHECK (id_ n =? 0);;
  '(st, sink) ← AddNode (mkNodeDef "_SINK" "NoOp" [] "" ∅ []) OK;
  CHECK (ok st);;
  sink ← of_option sink;
  n ← node sink;
  CHECK (id_ n =? 1);;
  _ ← AddControlEdge source sink false;
  mret tt.

(** ** Export *)

Definition AddInput (dst : NodeDef) (src_name : string) (src_slot : Z) : NodeDef :=
  with_input (input dst ++ [if src_slot =? kControlSlot then "^" +:+ src_name
                            else if src_slot =? 0 then src_name else tensor_name src_name src_slot]) dst.

(** The data inputs by slot, and the control inputs. *)
Fixpoint collect_inputs (inputs : list (option ptr)) (controls : list ptr) (es : list ptr) : MG (list (option ptr) * list ptr) :=
  match es with
  | [] => mret (inputs, controls)
  | e :: es =>
      ed ← edge e;
      if IsControlEdge ed then collect_inputs inputs (controls ++ [e]) es
      else
        cell ← of_option (at_ inputs (dst_input_ ed));
        CHECK (bool_decide (cell = None));;
        collect_inputs (<[Z.to_nat (dst_input_ ed):=Some e]> inputs) controls es
  end.

Fixpoint named (es : list ptr) : MG (list (string * ptr)) :=
  match es with
  | [] => mret []
  | e :: es => ed ← edge e; d ← def (src_ ed); rest ← named es; mret ((name d, e) :: rest)
  end.

Definition name_le (a b : string * ptr) : Prop := String.leb a.1 b.1 = true.
#[export] Instance name_le_dec a b : Decision (name_le a b).
Proof. unfold name_le. apply _. Defined.

Fixpoint add_inputs (requested : list string) (i : nat) (inputs : list (option ptr)) (dst : NodeDef) : MG NodeDef :=
  match inputs with
  | [] => mret dst
  | None :: inputs => add_inputs requested (S i) inputs (with_input (input dst ++ [default "" (requested !! i)]) dst)
  | Some e :: inputs =>
      ed ← edge e;
      s ← node (src_ ed);
      if negb (IsOp s) then add_inputs requested (S i) inputs dst
      else sd ← def (src_ ed); add_inputs requested (S i) inputs (AddInput dst (name sd) (src_output_ ed))
  end.

Definition export_node (p : ptr) : MG NodeDef :=
  d ← def p;
  assigned ← assigned_device_name p;
  let d' := if bool_decide (assigned = "") then d else mkNodeDef (name d) (op d) (input d) assigned (attr d) (original_node_names d) in
  k ← num_inputs p;
  es ← in_edges p;
  '(inputs, controls) ← collect_inputs (replicate (Z.to_nat k) None) [] es;
  controls ← named controls;
  let controls := merge_sort name_le controls in
  add_inputs (input d) 0 (inputs ++ map (fun c => Some c.2) controls) (with_input [] d').

Fixpoint export_nodes (ps : list (option ptr)) : MG (list NodeDef) :=
  match ps with
  | [] => mret []
  | None :: ps => export_nodes ps
  | Some p :: ps =>
      n ← node p;
      if negb (IsOp n) then export_nodes ps
      else d ← export_node p; ds ← export_nodes ps; mret (d :: ds)
  end.

(** The nodes of the message. *)
Definition ToGraphDefSubRange (from_node_id : Z) : MG (list NodeDef) := g ← get; export_nodes (drop (Z.to_nat from_node_id) (nodes_ g)).
Definition ToGraphDef : MG (list NodeDef) := ToGraphDefSubRange 0.

End graph.
End Graph.
