(* ===== verification/GraphInvariant.v ===== *)
(** * Graphs of operations: the invariant

    What holds of a graph between calls, with two holes for the states inside [RemoveNode], in
    which one node's sets of edges are out of date; and what the steps do to it. *)

From S2P Require Import Prelude EdgeSet Graph.
Import Graph.

#[local] Open Scope runtime_scope.

Definition in_list (n : Node) : list ptr := default [] (EdgeSet.elements (in_edges_ n)).
Definition out_list (n : Node) : list ptr := default [] (EdgeSet.elements (out_edges_ n)).

Definition live (g : Graph) (p : ptr) (n : Node) (i : nat) : Prop :=
  nodes_ g !! i = Some (Some p) /\ node_heap g !! p = Some n /\ id_ n = Z.of_nat i.

Definition cleared (w : option string) : Node := mkNode (-1) (-1) NC_UNINITIALIZED EdgeSet.EdgeSet_new EdgeSet.EdgeSet_new None 0 w.

(** What a node of the graph refers to. *)
Definition node_ok (g : Graph) (n : Node) : Prop :=
  (exists q v, props_ n = Some q /\ props_heap g !! q = Some v /\ class_ n = GetNodeClassForOp (op (node_def v)))
  /\ 0 <= assigned_device_name_index_ n < Z.of_nat (length (device_names_ g)).

Definition is_node (g : Graph) (p : ptr) : Prop := exists i, nodes_ g !! i = Some (Some p).

Record nodes_inv (g : Graph) : Prop := {
  n_live : forall i p, nodes_ g !! i = Some (Some p) -> exists n, node_heap g !! p = Some n /\ id_ n = Z.of_nat i /\ node_ok g n;
  n_free : NoDup (free_nodes_ g) /\ forall p, p ∈ free_nodes_ g -> exists w, node_heap g !! p = Some (cleared w);
  n_all : forall p n, node_heap g !! p = Some n -> is_node g p \/ p ∈ free_nodes_ g;
  n_ends : exists s t, nodes_ g !! 0%nat = Some (Some s) /\ nodes_ g !! 1%nat = Some (Some t);
  n_count : num_nodes_ g = Z.of_nat (length (omap id (nodes_ g)))
}.

(** Control edges are so at both ends; the source and the sink have no others. *)
Definition slots_ok (g : Graph) (ed : Edge) : Prop :=
  (src_output_ ed = kControlSlot <-> dst_input_ ed = kControlSlot)
  /\ (nodes_ g !! 0%nat = Some (Some (src_ ed)) \/ nodes_ g !! 1%nat = Some (Some (dst_ ed)) -> src_output_ ed = kControlSlot).

(** The edges of the node at a pointer, and that its sets are well-formed. *)
Definition ins (g : Graph) (p : ptr) : list ptr := match node_heap g !! p with Some n => in_list n | None => [] end.
Definition outs (g : Graph) (p : ptr) : list ptr := match node_heap g !! p with Some n => out_list n | None => [] end.
Definition ins_ok (g : Graph) (p : ptr) : Prop := exists n, node_heap g !! p = Some n /\ EdgeSet.holds (in_edges_ n) (in_list n).
Definition outs_ok (g : Graph) (p : ptr) : Prop := exists n, node_heap g !! p = Some n /\ EdgeSet.holds (out_edges_ n) (out_list n).

(** [hin], [hout]: nodes whose sets of edges are out of date. *)
Record edges_inv (hin hout : option ptr) (g : Graph) : Prop := {
  e_live : forall i e, edges_ g !! i = Some (Some e) -> exists ed,
    edge_heap g !! e = Some ed /\ edge_id_ ed = Z.of_nat i /\ is_node g (src_ ed) /\ is_node g (dst_ ed)
    /\ (hout <> Some (src_ ed) -> e ∈ outs g (src_ ed)) /\ (hin <> Some (dst_ ed) -> e ∈ ins g (dst_ ed)) /\ slots_ok g ed;
  e_in : forall p, is_node g p -> hin <> Some p -> ins_ok g p
    /\ forall e, e ∈ ins g p -> exists j ed, edges_ g !! j = Some (Some e) /\ edge_heap g !! e = Some ed /\ dst_ ed = p;
  e_out : forall p, is_node g p -> hout <> Some p -> outs_ok g p
    /\ forall e, e ∈ outs g p -> exists j ed, edges_ g !! j = Some (Some e) /\ edge_heap g !! e = Some ed /\ src_ ed = p;
  e_free : NoDup (free_edges_ g) /\ forall e, e ∈ free_edges_ g -> forall j, edges_ g !! j <> Some (Some e);
  e_count : num_edges_ g = Z.of_nat (length (omap id (edges_ g)))
}.

(** Device names are interned once. *)
Record devices_inv (g : Graph) : Prop := {
  d_zero : device_names_ g !! 0%nat = Some ""%string;
  d_map : forall s i, device_names_map_ g !! s = Some i <-> 0 < i /\ device_names_ g !! Z.to_nat i = Some s /\ s <> ""%string;
  d_size : S (size (device_names_map_ g)) = length (device_names_ g)
}.

Record graph_inv (hin hout : option ptr) (g : Graph) : Prop := {
  g_nodes : nodes_inv g;
  g_edges : edges_inv hin hout g;
  g_devices : devices_inv g
}.

Abbreviation graph_ok := (graph_inv None None).

(** ** Consequences *)

Lemma live_fun g p n i p' n' i' : live g p n i -> live g p' n' i' -> (p = p' \/ i = i') -> p = p' /\ n = n' /\ i = i'.
Proof. intros (H1 & H2 & H3) (H1' & H2' & H3') [->| ->]; simplify_eq; split_and!; try done; lia. Qed.

Lemma live_at g i p : nodes_inv g -> nodes_ g !! i = Some (Some p) -> exists n, live g p n i /\ node_ok g n.
Proof. intros Hn Hi. destruct (n_live g Hn i p Hi) as (n & Hp & Eid & Hok). exists n. by split_and!. Qed.

Lemma live_not_free g p n i : nodes_inv g -> live g p n i -> p ∉ free_nodes_ g.
Proof. intros Hn (_ & Hp & Hi) Hf. destruct (proj2 (n_free g Hn) p Hf) as [w Hw]. rewrite Hp in Hw. injection Hw as ->. cbn in Hi. lia. Qed.

Lemma live_ok g p n i : nodes_inv g -> live g p n i -> node_ok g n.
Proof. intros Hn (Hi & Hp & _). destruct (n_live g Hn i p Hi) as (n' & Hp' & _ & Hok). by simplify_eq. Qed.

(** A pointer stands at one id. *)
Lemma edge_once hin hout g i j e : edges_inv hin hout g -> edges_ g !! i = Some (Some e) -> edges_ g !! j = Some (Some e) -> i = j.
Proof.
  intros He Hi Hj. destruct (e_live _ _ _ He i e Hi) as (ed & H1 & E1 & _). destruct (e_live _ _ _ He j e Hj) as (ed' & H2 & E2 & _). simplify_eq. lia.
Qed.

(** Removing one entry of a table. *)
Lemma omap_delete {A} (l : list (option A)) i x : l !! i = Some (Some x) -> omap id (<[i:=None]> l) = omap id (take i l) ++ omap id (drop (S i) l) /\ length (omap id l) = S (length (omap id (<[i:=None]> l))).
Proof.
  intros Hi. pose proof (lookup_lt_Some _ _ _ Hi). assert (omap id (<[i:=None]> l) = omap id (take i l) ++ omap id (drop (S i) l)) as E by (rewrite insert_take_drop, omap_app by done; done). split; [done|].
  rewrite E. rewrite <- (take_drop_middle l i (Some x) Hi) at 1. rewrite omap_app. cbn. rewrite !length_app. cbn. lia.
Qed.

Lemma lookup_cleared_Some {A} (l : list (option A)) i j x : <[i:=None]> l !! j = Some (Some x) <-> i <> j /\ l !! j = Some (Some x).
Proof. split; [|by intros [Hne Hj]; rewrite list_lookup_insert_ne]. intros Hj. apply list_lookup_insert_Some in Hj as [(-> & ? & ?)|[? ?]]; done. Qed.

Lemma lookup_snoc_Some {A} (l : list (option A)) a j x : (l ++ [Some a]) !! j = Some (Some x) <-> l !! j = Some (Some x) \/ j = length l /\ x = a.
Proof.
  rewrite lookup_app_Some. split.
  - intros [?|[Hj Hx]]; [by left|]. right. destruct (j - length l)%nat eqn:E; [|done]. cbn in Hx. simplify_eq. split; [lia|done].
  - intros [?|[-> ->]]; [by left|]. right. by rewrite Nat.sub_diag.
Qed.

(** ** Running the accessors *)

Lemma wp_deref p n g (Q : Node -> Graph -> Prop) : node_heap g !! p = Some n -> Q n g -> node p @ g ⇓ Q.
Proof. intros Hp HQ. unfold node. wp_steps. by eapply wp_of_option. Qed.

Lemma wp_edge e ed g (Q : Edge -> Graph -> Prop) : edge_heap g !! e = Some ed -> Q ed g -> edge e @ g ⇓ Q.
Proof. intros Hp HQ. unfold edge. wp_steps. by eapply wp_of_option. Qed.

Lemma wp_update_node p n f g (Q : unit -> Graph -> Prop) : node_heap g !! p = Some n -> Q tt (set_node_heap (<[p:=f n]> (node_heap g)) g) -> update_node p f @ g ⇓ Q.
Proof. intros Hp HQ. unfold update_node. wp_step. eapply wp_deref; [done|]. by wp_steps. Qed.

Lemma wp_props p n q v g (Q : NodeProperties -> Graph -> Prop) : node_heap g !! p = Some n -> props_ n = Some q -> props_heap g !! q = Some v -> Q v g -> props p @ g ⇓ Q.
Proof. intros Hp Hq Hv HQ. unfold props. wp_step. eapply wp_deref; [done|]. wp_step. eapply wp_of_option; [done|]. wp_steps. by eapply wp_of_option. Qed.

Lemma wp_def p n q v g (Q : NodeDef -> Graph -> Prop) : node_heap g !! p = Some n -> props_ n = Some q -> props_heap g !! q = Some v -> Q (node_def v) g -> def p @ g ⇓ Q.
Proof. intros Hp Hq Hv HQ. unfold def. wp_step. eapply wp_props; [done..|]. by wp_steps. Qed.

Lemma at_nat {A} (l : list A) (i : nat) : at_ l (Z.of_nat i) = l !! i.
Proof. unfold at_. rewrite (proj2 (Z.leb_le _ _)) by lia. by rewrite Nat2Z.id. Qed.

Lemma wp_valid g p n i (Q : unit -> Graph -> Prop) : live g p n i -> Q tt g -> check_valid p @ g ⇓ Q.
Proof.
  intros (Hi & Hp & Eid) HQ. unfold check_valid, IsValidNode. wp_step. wp_step. eapply wp_deref; [done|]. wp_steps. pose proof (lookup_lt_Some _ _ _ Hi). rewrite Eid, (proj2 (Z.ltb_ge _ _)), (proj2 (Z.leb_gt _ _)) by lia.
  wp_step. eapply wp_of_option; [by rewrite at_nat|]. wp_steps. rewrite bool_decide_eq_true_2 by done. by apply wp_CHECK.
Qed.

Lemma valid_run g p n i : live g p n i -> IsValidNode (Some p) g = Val (OK, g).
Proof.
  intros (Hi & Hp & Eid). unfold IsValidNode, node, mbind, M_bind, get, of_option, mret, M_ret. rewrite Hp. pose proof (lookup_lt_Some _ _ _ Hi).
  rewrite Eid, (proj2 (Z.ltb_ge _ _)), (proj2 (Z.leb_gt _ _)) by lia. by rewrite at_nat, Hi, bool_decide_eq_true_2.
Qed.

Lemma in_edges_run hin hout g p (Q : list ptr -> Graph -> Prop) : edges_inv hin hout g -> is_node g p -> hin <> Some p -> Q (ins g p) g -> in_edges p @ g ⇓ Q.
Proof.
  intros He Hp Hh HQ. destruct (e_in _ _ _ He p Hp Hh) as [(n & Hn & Hs) _]. unfold in_edges, ins in *. rewrite Hn in HQ. wp_step. eapply wp_deref; [done|]. eapply wp_of_option; [by apply EdgeSet.elements_spec|done].
Qed.

Lemma out_edges_run hin hout g p (Q : list ptr -> Graph -> Prop) : edges_inv hin hout g -> is_node g p -> hout <> Some p -> Q (outs g p) g -> out_edges p @ g ⇓ Q.
Proof.
  intros He Hp Hh HQ. destruct (e_out _ _ _ He p Hp Hh) as [(n & Hn & Hs) _]. unfold out_edges, outs in *. rewrite Hn in HQ. wp_step. eapply wp_deref; [done|]. eapply wp_of_option; [by apply EdgeSet.elements_spec|done].
Qed.

Lemma is_node_live g p : nodes_inv g -> is_node g p -> exists n i, live g p n i /\ node_ok g n.
Proof. intros Hn [i Hi]. destruct (live_at g i p Hn Hi) as (n & ? & ?). eauto. Qed.

(** ** Steps that change the edges only *)

Definition same_core (n n' : Node) : Prop :=
  id_ n' = id_ n /\ cost_id_ n' = cost_id_ n /\ class_ n' = class_ n /\ props_ n' = props_ n
  /\ assigned_device_name_index_ n' = assigned_device_name_index_ n /\ while_ctx_ n' = while_ctx_ n.

Record edges_only (g g' : Graph) : Prop := {
  o_nodes : nodes_ g' = nodes_ g;
  o_count : num_nodes_ g' = num_nodes_ g;
  o_free : free_nodes_ g' = free_nodes_ g;
  o_props : props_heap g' = props_heap g;
  o_foreign : foreign g' = foreign g;
  o_names : device_names_ g' = device_names_ g;
  o_map : device_names_map_ g' = device_names_map_ g;
  o_counter : name_counter_ g' = name_counter_ g;
  o_while : while_ctxs_ g' = while_ctxs_ g;
  o_heap : forall p, match node_heap g !! p with
    | Some n => exists n', node_heap g' !! p = Some n' /\ same_core n n' /\ (p ∈ free_nodes_ g -> n' = n)
    | None => node_heap g' !! p = None
    end
}.

Lemma edges_only_refl g : edges_only g g.
Proof. constructor; try done. intros p. destruct (node_heap g !! p) as [n|]; [|done]. exists n. by split_and!. Qed.

Lemma edges_only_trans g1 g2 g3 : edges_only g1 g2 -> edges_only g2 g3 -> edges_only g1 g3.
Proof.
  intros H1 H2. constructor; try (etransitivity; [apply H2|apply H1]). intros p. pose proof (o_heap _ _ H1 p) as P1. pose proof (o_heap _ _ H2 p) as P2. destruct (node_heap g1 !! p) as [n1|].
  - destruct P1 as (n2 & E2 & C1 & F1). rewrite E2 in P2. destruct P2 as (n3 & E3 & C2 & F2). exists n3. split_and!; [done|unfold same_core in *; intuition congruence|]. intros Hf. rewrite F2 by (by rewrite (o_free _ _ H1)). by apply F1.
  - by rewrite P1 in P2.
Qed.

Lemma edges_only_nodes g g' : edges_only g g' -> nodes_inv g -> nodes_inv g'.
Proof.
  intros Ho Hn. constructor.
  - intros i p Hi. rewrite (o_nodes _ _ Ho) in Hi. destruct (n_live g Hn i p Hi) as (n & Hp & Eid & (q & v & Hq & Hv & Hc) & Hd). pose proof (o_heap _ _ Ho p) as Hh. rewrite Hp in Hh. destruct Hh as (n' & Hp' & (C1 & _ & C3 & C4 & C5 & _) & _).
    exists n'. unfold node_ok. rewrite C1, C3, C4, C5, (o_props _ _ Ho), (o_names _ _ Ho). split_and!; [done|done| |apply Hd|apply Hd]. by exists q, v.
  - rewrite (o_free _ _ Ho). split; [apply Hn|]. intros p Hp. destruct (proj2 (n_free g Hn) p Hp) as [w Hw]. pose proof (o_heap _ _ Ho p) as Hh. rewrite Hw in Hh. destruct Hh as (n' & Hp' & _ & F). rewrite (F Hp) in Hp'. by exists w.
  - intros p n' Hp'. unfold is_node. rewrite (o_nodes _ _ Ho), (o_free _ _ Ho). pose proof (o_heap _ _ Ho p) as Hh. destruct (node_heap g !! p) as [n|] eqn:Hp; [by apply (n_all g Hn p n)|congruence].
  - rewrite (o_nodes _ _ Ho). apply Hn.
  - rewrite (o_nodes _ _ Ho), (o_count _ _ Ho). apply Hn.
Qed.

Lemma edges_only_devices g g' : edges_only g g' -> devices_inv g -> devices_inv g'.
Proof. intros Ho [H1 H2 H3]. constructor; rewrite ?(o_names _ _ Ho), ?(o_map _ _ Ho); done. Qed.

Lemma edges_only_node g g' p : edges_only g g' -> is_node g' p <-> is_node g p.
Proof. intros Ho. unfold is_node. by rewrite (o_nodes _ _ Ho). Qed.

Lemma edges_only_slots g g' ed : edges_only g g' -> slots_ok g ed -> slots_ok g' ed.
Proof. intros Ho. unfold slots_ok. by rewrite (o_nodes _ _ Ho). Qed.

Lemma edges_only_live g g' p n i : edges_only g g' -> live g p n i -> exists n', live g' p n' i /\ same_core n n'.
Proof.
  intros Ho (Hi & Hp & Eid). pose proof (o_heap _ _ Ho p) as Hh. rewrite Hp in Hh. destruct Hh as (n' & Hp' & C & _). exists n'. split; [|done]. unfold live. rewrite (o_nodes _ _ Ho). destruct C as (-> & _). done.
Qed.
