(* ===== verification/GraphEdges.v ===== *)
(** * Graphs of operations: adding and removing edges and nodes

    Adding and removing edges keeps the invariant, and changes only that edge; removing a node
    removes it with its edges. *)

From S2P Require Import Prelude EdgeSet Graph GraphInvariant.
Import Graph.

#[local] Open Scope runtime_scope.

Lemma set_edges_same g f : free_edges_ g = f -> g = set_edges (edges_ g) (num_edges_ g) f g.
Proof. intros <-. by destruct g. Qed.

(** The sets of edges change as [Rin] and [Rout] say, the tables of edges stay. *)
Record sets_step (g g' : Graph) (Rin Rout : ptr -> ptr -> Prop) : Prop := {
  ss_only : edges_only g g';
  ss_edges : edges_ g' = edges_ g;
  ss_num : num_edges_ g' = num_edges_ g;
  ss_free : free_edges_ g' = free_edges_ g;
  ss_heap : edge_heap g' = edge_heap g;
  ss_in : forall p x, x ∈ ins g' p <-> Rin p x;
  ss_out : forall p x, x ∈ outs g' p <-> Rout p x;
  ss_in_ok : forall p, ins_ok g p -> ins_ok g' p;
  ss_out_ok : forall p, outs_ok g p -> outs_ok g' p
}.

Lemma sets_step_trans g1 g2 g3 R1 R2 S1 S2 : sets_step g1 g2 R1 R2 -> sets_step g2 g3 S1 S2 -> sets_step g1 g3 S1 S2.
Proof.
  intros [] []. constructor; try congruence; auto. by eapply edges_only_trans.
Qed.

Lemma sets_step_weaken g g' R1 R2 S1 S2 : sets_step g g' R1 R2 -> (forall p x, R1 p x <-> S1 p x) -> (forall p x, R2 p x <-> S2 p x) -> sets_step g g' S1 S2.
Proof. intros [] H1 H2. constructor; try done; intros; [by rewrite <- H1|by rewrite <- H2]. Qed.

(** Replacing the sets of one node. *)
Lemma sets_of_node g p n n' : node_heap g !! p = Some n -> p ∉ free_nodes_ g -> same_core n n' ->
  (EdgeSet.holds (in_edges_ n) (in_list n) -> EdgeSet.holds (in_edges_ n') (in_list n')) -> (EdgeSet.holds (out_edges_ n) (out_list n) -> EdgeSet.holds (out_edges_ n') (out_list n')) ->
  sets_step g (set_node_heap (<[p:=n']> (node_heap g)) g)
    (fun p' x => if decide (p' = p) then x ∈ in_list n' else x ∈ ins g p') (fun p' x => if decide (p' = p) then x ∈ out_list n' else x ∈ outs g p').
Proof.
  intros Hp Hf Hc Hin Hout. constructor; try done.
  - constructor; try done. intros p'. cbn [node_heap set_node_heap]. destruct (decide (p = p')) as [<-|Hne].
    + rewrite Hp, lookup_insert_eq. exists n'. by split_and!.
    + rewrite lookup_insert_ne by done. destruct (node_heap g !! p') as [m|]; [|done]. by exists m.
  - intros p' x. unfold ins. cbn [node_heap set_node_heap]. destruct (decide (p' = p)) as [->|Hne]; [by rewrite lookup_insert_eq|by rewrite lookup_insert_ne].
  - intros p' x. unfold outs. cbn [node_heap set_node_heap]. destruct (decide (p' = p)) as [->|Hne]; [by rewrite lookup_insert_eq|by rewrite lookup_insert_ne].
  - intros p' (m & Hm & Hok). unfold ins_ok. cbn [node_heap set_node_heap]. destruct (decide (p' = p)) as [->|Hne]; [rewrite lookup_insert_eq|rewrite lookup_insert_ne by done; eauto]. simplify_eq. eauto.
  - intros p' (m & Hm & Hok). unfold outs_ok. cbn [node_heap set_node_heap]. destruct (decide (p' = p)) as [->|Hne]; [rewrite lookup_insert_eq|rewrite lookup_insert_ne by done; eauto]. simplify_eq. eauto.
Qed.

Lemma ins_at g p n : node_heap g !! p = Some n -> ins g p = in_list n.
Proof. intros Hp. unfold ins. by rewrite Hp. Qed.
Lemma outs_at g p n : node_heap g !! p = Some n -> outs g p = out_list n.
Proof. intros Hp. unfold outs. by rewrite Hp. Qed.

Lemma holds_list s l : EdgeSet.holds s l -> default [] (EdgeSet.elements s) = l.
Proof. intros Hs. by rewrite (EdgeSet.elements_spec s l Hs). Qed.

Section edges.
Context (rehash : list ptr -> list ptr) (Hrehash : forall l, rehash l ≡ₚ l).

Lemma insert_run s e : EdgeSet.holds s (default [] (EdgeSet.elements s)) -> e ∉ default [] (EdgeSet.elements s) ->
  exists s', EdgeSet.insert rehash e s = (true, s') /\ EdgeSet.holds s' (default [] (EdgeSet.elements s')) /\ forall x, x ∈ default [] (EdgeSet.elements s') <-> x ∈ default [] (EdgeSet.elements s) \/ x = e.
Proof using Hrehash.
  intros Hs He. destruct (EdgeSet.insert_spec rehash Hrehash s _ e Hs) as (s' & E & Hl). rewrite (bool_decide_eq_true_2 (e ∉ _)) in E by done. rewrite bool_decide_eq_false_2 in Hl by done.
  destruct Hl as (l' & Hl' & Hp). exists s'. rewrite (holds_list s' l' Hl'). split_and!; [done|done|]. intros x. rewrite Hp, elem_of_cons. tauto.
Qed.

Lemma erase_run s e : EdgeSet.holds s (default [] (EdgeSet.elements s)) -> e ∈ default [] (EdgeSet.elements s) ->
  exists s', EdgeSet.erase rehash e s = (1%nat, s') /\ EdgeSet.holds s' (default [] (EdgeSet.elements s')) /\ forall x, x ∈ default [] (EdgeSet.elements s') <-> x ∈ default [] (EdgeSet.elements s) /\ x <> e.
Proof using Hrehash.
  intros Hs He. pose proof (EdgeSet.erase_spec rehash Hrehash s _ e Hs) as H. rewrite bool_decide_eq_true_2 in H by done. destruct H as (s' & l' & E & Hl' & Hp). exists s'. rewrite (holds_list s' l' Hl').
  destruct Hs as [Hnd _]. rewrite <- Hp in Hnd. apply NoDup_cons in Hnd as [Hn _]. split_and!; [done|done|]. intros x. rewrite <- Hp, elem_of_cons. split; [|intuition]. intros Hx. split; [by right|]. by intros ->.
Qed.

Lemma out_insert_run g p e (Q : unit -> Graph -> Prop) : outs_ok g p -> e ∉ outs g p -> p ∉ free_nodes_ g ->
  (forall g', sets_step g g' (fun p' x => x ∈ ins g p') (fun p' x => x ∈ outs g p' \/ p' = p /\ x = e) -> Q tt g') -> out_insert rehash p e @ g ⇓ Q.
Proof using Hrehash.
  intros (n & Hp & Hok) He Hf HQ. rewrite (outs_at g p n Hp) in He. destruct (insert_run (out_edges_ n) e Hok He) as (s & E & Hs & Hx). unfold out_insert. wp_step. eapply wp_deref; [done|]. rewrite E. wp_step. apply wp_CHECK; [done|].
  eapply wp_update_node; [done|]. apply HQ. eapply sets_step_weaken; [apply (sets_of_node g p n); done|..]; cbn beta; intros p' x; (destruct (decide (p' = p)) as [->|Hne]; [|tauto]).
  - by rewrite (ins_at g p n Hp).
  - rewrite (outs_at g p n Hp). unfold out_list. cbn [out_edges_ set_out_edges]. rewrite Hx. tauto.
Qed.

Lemma in_insert_run g p e (Q : unit -> Graph -> Prop) : ins_ok g p -> e ∉ ins g p -> p ∉ free_nodes_ g ->
  (forall g', sets_step g g' (fun p' x => x ∈ ins g p' \/ p' = p /\ x = e) (fun p' x => x ∈ outs g p') -> Q tt g') -> in_insert rehash p e @ g ⇓ Q.
Proof using Hrehash.
  intros (n & Hp & Hok) He Hf HQ. rewrite (ins_at g p n Hp) in He. destruct (insert_run (in_edges_ n) e Hok He) as (s & E & Hs & Hx). unfold in_insert. wp_step. eapply wp_deref; [done|]. rewrite E. wp_step. apply wp_CHECK; [done|].
  eapply wp_update_node; [done|]. apply HQ. eapply sets_step_weaken; [apply (sets_of_node g p n); done|..]; cbn beta; intros p' x; (destruct (decide (p' = p)) as [->|Hne]; [|tauto]).
  - rewrite (ins_at g p n Hp). unfold in_list. cbn [in_edges_ set_in_edges]. rewrite Hx. tauto.
  - by rewrite (outs_at g p n Hp).
Qed.

Lemma out_erase_run g p e (Q : unit -> Graph -> Prop) : outs_ok g p -> e ∈ outs g p -> p ∉ free_nodes_ g ->
  (forall g', sets_step g g' (fun p' x => x ∈ ins g p') (fun p' x => x ∈ outs g p' /\ ~ (p' = p /\ x = e)) -> Q tt g') -> out_erase rehash p e @ g ⇓ Q.
Proof using Hrehash.
  intros (n & Hp & Hok) He Hf HQ. rewrite (outs_at g p n Hp) in He. destruct (erase_run (out_edges_ n) e Hok He) as (s & E & Hs & Hx). unfold out_erase. wp_step. eapply wp_deref; [done|]. rewrite E. wp_step. apply wp_CHECK; [done|].
  eapply wp_update_node; [done|]. apply HQ. eapply sets_step_weaken; [apply (sets_of_node g p n); done|..]; cbn beta; intros p' x; (destruct (decide (p' = p)) as [->|Hne]; [|tauto]).
  - by rewrite (ins_at g p n Hp).
  - rewrite (outs_at g p n Hp). unfold out_list. cbn [out_edges_ set_out_edges]. rewrite Hx. tauto.
Qed.

Lemma in_erase_run g p e (Q : unit -> Graph -> Prop) : ins_ok g p -> e ∈ ins g p -> p ∉ free_nodes_ g ->
  (forall g', sets_step g g' (fun p' x => x ∈ ins g p' /\ ~ (p' = p /\ x = e)) (fun p' x => x ∈ outs g p') -> Q tt g') -> in_erase rehash p e @ g ⇓ Q.
Proof using Hrehash.
  intros (n & Hp & Hok) He Hf HQ. rewrite (ins_at g p n Hp) in He. destruct (erase_run (in_edges_ n) e Hok He) as (s & E & Hs & Hx). unfold in_erase. wp_step. eapply wp_deref; [done|]. rewrite E. wp_step. apply wp_CHECK; [done|].
  eapply wp_update_node; [done|]. apply HQ. eapply sets_step_weaken; [apply (sets_of_node g p n); done|..]; cbn beta; intros p' x; (destruct (decide (p' = p)) as [->|Hne]; [|tauto]).
  - rewrite (ins_at g p n Hp). unfold in_list. cbn [in_edges_ set_in_edges]. rewrite Hx. tauto.
  - by rewrite (outs_at g p n Hp).
Qed.

(** ** The invariant with one more edge *)

Lemma edges_inv_add g g' e ed : edges_inv None None g -> edges_only g g' -> edges_ g' = edges_ g ++ [Some e] -> num_edges_ g' = num_edges_ g + 1 ->
  edge_heap g' = <[e:=ed]> (edge_heap g) -> NoDup (free_edges_ g') -> (forall x, x ∈ free_edges_ g' -> x ∈ free_edges_ g /\ x <> e) -> (forall j, edges_ g !! j <> Some (Some e)) ->
  edge_id_ ed = Z.of_nat (length (edges_ g)) -> is_node g (src_ ed) -> is_node g (dst_ ed) -> slots_ok g ed ->
  (forall p x, x ∈ ins g' p <-> x ∈ ins g p \/ p = dst_ ed /\ x = e) -> (forall p x, x ∈ outs g' p <-> x ∈ outs g p \/ p = src_ ed /\ x = e) ->
  (forall p, ins_ok g p -> ins_ok g' p) -> (forall p, outs_ok g p -> outs_ok g' p) -> edges_inv None None g'.
Proof using Type.
  intros He Ho Et En Eh Fnd Ff Hnew Eid Hs Hd Hsl Hin Hout Hiok Hook. constructor.
  - intros i x Hx. rewrite Et in Hx. apply lookup_snoc_Some in Hx as [Hx|[-> ->]].
    + destruct (e_live _ _ _ He i x Hx) as (ed' & H1 & H2 & H3 & H4 & H5 & H6 & H7). exists ed'. assert (x <> e) by (intros ->; by eapply Hnew). rewrite Eh, lookup_insert_ne by done.
      rewrite !(edges_only_node g g') by done. split_and!; [done|done|done|done| | |by apply (edges_only_slots g)]; intros Hh; [apply Hout|apply Hin]; auto.
    + exists ed. rewrite Eh, lookup_insert_eq, !(edges_only_node g g') by done. split_and!; [done|done|done|done| | |by apply (edges_only_slots g)]; intros _; [apply Hout|apply Hin]; auto.
  - intros p Hp Hh. rewrite (edges_only_node g g') in Hp by done. destruct (e_in _ _ _ He p Hp Hh) as [Hok He']. split; [by apply Hiok|]. intros x Hx. rewrite Et, Eh. apply Hin in Hx as [Hx|[-> ->]].
    + destruct (He' x Hx) as (j & ed' & Hj & Hed & Hdst). exists j, ed'. rewrite lookup_app_l by (by eapply lookup_lt_Some). assert (x <> e) by (intros ->; by eapply Hnew). by rewrite lookup_insert_ne.
    + exists (length (edges_ g)), ed. by rewrite lookup_app_r, Nat.sub_diag, lookup_insert_eq.
  - intros p Hp Hh. rewrite (edges_only_node g g') in Hp by done. destruct (e_out _ _ _ He p Hp Hh) as [Hok He']. split; [by apply Hook|]. intros x Hx. rewrite Et, Eh. apply Hout in Hx as [Hx|[-> ->]].
    + destruct (He' x Hx) as (j & ed' & Hj & Hed & Hsrc). exists j, ed'. rewrite lookup_app_l by (by eapply lookup_lt_Some). assert (x <> e) by (intros ->; by eapply Hnew). by rewrite lookup_insert_ne.
    + exists (length (edges_ g)), ed. by rewrite lookup_app_r, Nat.sub_diag, lookup_insert_eq.
  - split; [done|]. intros x Hx j Hj. destruct (Ff x Hx) as [Hfx Hne]. rewrite Et in Hj. apply lookup_snoc_Some in Hj as [Hj|[_ Hj]]; [|done]. by eapply (proj2 (e_free _ _ _ He)).
  - rewrite Et, En, (e_count _ _ _ He), omap_app, length_app. cbn. lia.
Qed.

(** ** ... and with one less *)

Lemma edges_inv_drop hin hout g g' i e ed : edges_inv hin hout g -> edges_ g !! i = Some (Some e) -> edge_heap g !! e = Some ed -> edges_only g g' ->
  edges_ g' = <[i:=None]> (edges_ g) -> num_edges_ g' = num_edges_ g - 1 -> edge_heap g' = edge_heap g -> free_edges_ g' = e :: free_edges_ g ->
  (forall p x, hin <> Some p -> x ∈ ins g' p <-> x ∈ ins g p /\ ~ (p = dst_ ed /\ x = e)) -> (forall p x, hout <> Some p -> x ∈ outs g' p <-> x ∈ outs g p /\ ~ (p = src_ ed /\ x = e)) ->
  (forall p, ins_ok g p -> ins_ok g' p) -> (forall p, outs_ok g p -> outs_ok g' p) -> edges_inv hin hout g'.
Proof using Type.
  intros He Hi Hed Ho Et En Eh Ef Hin Hout Hiok Hook. constructor.
  - intros j x Hx. rewrite Et in Hx. apply lookup_cleared_Some in Hx as [Hne Hx]. assert (x <> e) as Hxe by (intros ->; apply Hne; by eapply edge_once).
    destruct (e_live _ _ _ He j x Hx) as (ed' & H1 & H2 & H3 & H4 & H5 & H6 & H7). exists ed'. rewrite Eh, !(edges_only_node g g') by done.
    split_and!; [done|done|done|done| | |by apply (edges_only_slots g)]; intros Hh; [apply Hout|apply Hin]; try done; (split; [auto|tauto]).
  - intros p Hp Hh. rewrite (edges_only_node g g') in Hp by done. destruct (e_in _ _ _ He p Hp Hh) as [Hok He']. split; [by apply Hiok|]. intros x [Hx Hne]%Hin; [|done]. destruct (He' x Hx) as (j & ed' & Hj & Hed' & Hdst).
    exists j, ed'. rewrite Et, Eh. split_and!; [|done|done]. apply lookup_cleared_Some. split; [|done]. intros ->. simplify_eq. tauto.
  - intros p Hp Hh. rewrite (edges_only_node g g') in Hp by done. destruct (e_out _ _ _ He p Hp Hh) as [Hok He']. split; [by apply Hook|]. intros x [Hx Hne]%Hout; [|done]. destruct (He' x Hx) as (j & ed' & Hj & Hed' & Hsrc).
    exists j, ed'. rewrite Et, Eh. split_and!; [|done|done]. apply lookup_cleared_Some. split; [|done]. intros ->. simplify_eq. tauto.
  - destruct (e_free _ _ _ He) as [Hnd Hf]. rewrite Ef, Et. split; [constructor; [|done]; intros Hx; by apply (Hf e Hx i)|]. intros x [->|Hx]%elem_of_cons j Hj; apply lookup_cleared_Some in Hj as [Hne Hj]; [apply Hne; by eapply edge_once|by eapply Hf].
  - rewrite En, Et, (e_count _ _ _ He). destruct (omap_delete (edges_ g) i e Hi) as [_ ->]. lia.
Qed.

Lemma omap_le {A} (l : list (option A)) : (length (omap id l) <= length l)%nat.
Proof using Type. induction l as [|[a|] l IH]; cbn; lia. Qed.

(** ** The operations *)

Definition drops (i : nat) (e : ptr) (g g' : Graph) : Prop :=
  edges_only g g' /\ edges_ g' = <[i:=None]> (edges_ g) /\ edge_heap g' = edge_heap g.

(** The end of the removal of an edge. *)
Lemma drop_edge_run g e ed i (Q : unit -> Graph -> Prop) : edge_heap g !! e = Some ed -> edge_id_ ed = Z.of_nat i -> edges_ g !! i = Some (Some e) ->
  num_edges_ g = Z.of_nat (length (omap id (edges_ g))) -> Z.of_nat (length (edges_ g)) < 2 ^ 31 ->
  Q tt (set_edges (<[i:=None]> (edges_ g)) (num_edges_ g - 1) (e :: free_edges_ g) g) -> drop_edge e @ g ⇓ Q.
Proof using Type.
  intros Hed Eid Hi Hn Hb HQ. unfold drop_edge. wp_step. eapply wp_edge; [done|]. wp_steps. eapply wp_of_option; [rewrite Eid, at_nat; done|]. wp_steps. rewrite Eid, Nat2Z.id, i32_small; [done|].
  pose proof (omap_le (edges_ g)). destruct (omap_delete (edges_ g) i e Hi) as [_ Hlen]. lia.
Qed.

Lemma RemoveEdge_run g i e (Q : unit -> Graph -> Prop) : graph_ok g -> edges_ g !! i = Some (Some e) -> Z.of_nat (length (edges_ g)) < 2 ^ 31 ->
  (forall g', graph_ok g' -> drops i e g g' -> Q tt g') -> RemoveEdge rehash e @ g ⇓ Q.
Proof using Hrehash.
  intros [Hn He Hd] Hi Hb HQ. destruct (e_live _ _ _ He i e Hi) as (ed & Hed & Eid & Hs & Ht & Hout & Hin & Hsl). destruct (is_node_live g _ Hn Hs) as (ns & is' & Ls & _). destruct (is_node_live g _ Hn Ht) as (nt & it & Lt & _).
  destruct (e_out _ _ _ He _ Hs ltac:(done)) as [Hook _]. destruct (e_in _ _ _ He _ Ht ltac:(done)) as [Hiok _].
  unfold RemoveEdge. wp_step. eapply wp_edge; [done|]. wp_step. eapply wp_valid; [done|]. wp_step. eapply wp_valid; [done|]. wp_step.
  apply out_erase_run; [exact Hook|by apply Hout|by eapply live_not_free|]. intros g1 S1. wp_step.
  apply in_erase_run; [by apply (ss_in_ok _ _ _ _ S1)|apply (ss_in _ _ _ _ S1); by apply Hin|rewrite (o_free _ _ (ss_only _ _ _ _ S1)); by eapply live_not_free|].
  intros g2 S2. pose proof (sets_step_trans _ _ _ _ _ _ _ S1 S2) as S. wp_steps. eapply wp_of_option; [rewrite (ss_edges _ _ _ _ S), Eid, at_nat; done|]. wp_steps. apply wp_CHECK; [by apply bool_decide_eq_true_2|]. wp_step.
  destruct (omap_delete (edges_ g) i e Hi) as [_ Hlen]. apply wp_CHECK; [rewrite (ss_num _ _ _ _ S), (e_count _ _ _ He), Hlen; apply Z.ltb_lt; lia|].
  eapply drop_edge_run; [by rewrite (ss_heap _ _ _ _ S)|done|by rewrite (ss_edges _ _ _ _ S)|by rewrite (ss_num _ _ _ _ S), (ss_edges _ _ _ _ S), (e_count _ _ _ He)|by rewrite (ss_edges _ _ _ _ S)|].
  set (g3 := set_edges _ _ _ _). assert (edges_only g g3) as Ho3. { eapply edges_only_trans; [apply S|]. constructor; try done. intros p. cbn. destruct (node_heap g2 !! p) as [n|]; [|done]. by exists n. }
  assert (edges_ g3 = <[i:=None]> (edges_ g)) as Et by (unfold g3; cbn; by rewrite (ss_edges _ _ _ _ S)). assert (edge_heap g3 = edge_heap g) as Eh by apply S. apply HQ; [|by split_and!]. constructor; [by apply (edges_only_nodes g)| |by apply (edges_only_devices g)].
  apply (edges_inv_drop None None g g3 i e ed); try done; unfold g3; cbn.
  - by rewrite (ss_num _ _ _ _ S).
  - by rewrite (ss_free _ _ _ _ S).
  - intros p x _. rewrite (ss_in _ _ _ _ S2 p x), (ss_in _ _ _ _ S1 p x). done.
  - intros p x _. rewrite (ss_out _ _ _ _ S2 p x), (ss_out _ _ _ _ S1 p x). done.
  - apply S.
  - apply S.
Qed.

Definition adds (e : ptr) (ed : Edge) (g g' : Graph) : Prop :=
  edges_only g g' /\ edges_ g' = edges_ g ++ [Some e] /\ edge_heap g' = <[e:=ed]> (edge_heap g) /\ (forall j, edges_ g !! j <> Some (Some e)).

Lemma AddEdge_run g s x t y (Q : ptr -> Graph -> Prop) : graph_ok g -> is_node g s -> is_node g t -> Z.of_nat (length (edges_ g)) < 2 ^ 31 - 1 ->
  let ed := mkEdge s t (Z.of_nat (length (edges_ g))) x y in slots_ok g ed ->
  (forall g' e, graph_ok g' -> adds e ed g g' -> Q e g') -> AddEdge rehash s x t y @ g ⇓ Q.
Proof using Hrehash.
  intros [Hn He Hd] Hs Ht Hb ed Hsl HQ. destruct (is_node_live g _ Hn Hs) as (ns & is' & Ls & _). destruct (is_node_live g _ Hn Ht) as (nt & it & Lt & _). destruct (n_ends g Hn) as (so & si & Hso & Hsi).
  unfold AddEdge. wp_step. eapply wp_valid; [done|]. wp_step. eapply wp_valid; [done|]. unfold source_node, sink_node, FindNodeId. wp_steps. eapply wp_of_option; [exact (eq_trans (at_nat _ 0) Hso)|]. wp_steps. eapply wp_of_option; [exact (eq_trans (at_nat _ 1) Hsi)|].
  wp_step. apply (wp_mono _ _ _ (fun _ g' => g' = g)).
  { destruct Hsl as [Hc Hse]. cbn in Hc, Hse. rewrite Hso, Hsi in Hse. case_match eqn:E; [|by wp_steps].
    assert (x = kControlSlot) as Hx by (rewrite !orb_true_iff, !bool_decide_eq_true, !Z.eqb_eq in E; destruct E as [[[E|E]|E]|E]; [apply Hse; left; congruence|apply Hse; right; congruence|done|by apply Hc]).
    wp_step. apply wp_CHECK; [by apply Z.eqb_eq|]. apply wp_CHECK; [by apply Z.eqb_eq, Hc|done]. }
  intros _ ? ->. wp_steps. destruct (e_free _ _ _ He) as [Fnd Ff].
  apply (wp_mono _ _ _ (fun e g1 => exists rest, g1 = set_edges (edges_ g) (num_edges_ g) rest g /\ NoDup rest /\ (forall x, x ∈ rest -> x ∈ free_edges_ g /\ x <> e) /\ forall j, edges_ g !! j <> Some (Some e))).
  { destruct (free_edges_ g) as [|e rest] eqn:Ef.
    - wp_steps. exists []. split_and!; [by apply set_edges_same|constructor|intros z Hz; by apply elem_of_nil in Hz|]. intros j Hj. destruct (e_live _ _ _ He j _ Hj) as (ed' & Hed' & _). apply (is_fresh (dom (edge_heap g))). by apply elem_of_dom_2 in Hed'.
    - wp_steps. apply NoDup_cons in Fnd as [Hne Hr]. exists rest. split_and!; [done|done| |apply Ff; by left]. intros z Hz. split; [by right|]. by intros ->. }
  cbn beta. intros e g1 (rest & -> & Hr1 & Hr2 & Hnew). wp_steps. cbn [edges_ set_edges edge_heap]. rewrite i32_small by lia. fold ed. set (g1 := set_edge_heap _ _).
  assert (edges_only g g1) as Ho1. { constructor; try done. intros p. cbn. destruct (node_heap g !! p) as [n|]; [|done]. by exists n. }
  destruct (e_out _ _ _ He _ Hs ltac:(done)) as [Hook Hol]. destruct (e_in _ _ _ He _ Ht ltac:(done)) as [Hiok Hil].
  apply out_insert_run; [exact Hook|intros Hx; destruct (Hol e Hx) as (j & ed' & Hj & _); by apply (Hnew j)|exact (live_not_free g _ _ _ Hn Ls)|]. intros g2 S1. wp_step.
  apply in_insert_run; [by apply (ss_in_ok _ _ _ _ S1)|intros Hx%(ss_in _ _ _ _ S1); destruct (Hil e Hx) as (j & ed' & Hj & _); by apply (Hnew j)|rewrite (o_free _ _ (ss_only _ _ _ _ S1)); exact (live_not_free g _ _ _ Hn Lt)|].
  intros g3 S2. pose proof (sets_step_trans _ _ _ _ _ _ _ S1 S2) as S. wp_steps. set (g4 := set_edges _ _ _ _).
  assert (edges_only g g4) as Ho4. { eapply edges_only_trans; [exact Ho1|]. eapply edges_only_trans; [apply S|]. constructor; try done. intros p. cbn. destruct (node_heap g3 !! p) as [n|]; [|done]. by exists n. }
  assert (edges_ g4 = edges_ g ++ [Some e]) as Et by (unfold g4; cbn; by rewrite (ss_edges _ _ _ _ S)). assert (edge_heap g4 = <[e:=ed]> (edge_heap g)) as Eh by (unfold g4; cbn; by rewrite (ss_heap _ _ _ _ S)).
  apply HQ; [|by split_and!]. constructor; [by apply (edges_only_nodes g)| |by apply (edges_only_devices g)].
  apply (edges_inv_add g g4 e ed); try done; unfold g4; cbn [num_edges_ free_edges_ set_edges].
  - rewrite (ss_num _ _ _ _ S). cbn. apply i32_small. rewrite (e_count _ _ _ He). pose proof (omap_le (edges_ g)). lia.
  - by rewrite (ss_free _ _ _ _ S).
  - rewrite (ss_free _ _ _ _ S). done.
  - intros p z. unfold ed. cbn [dst_]. change (ins (set_edges _ _ _ g3) p) with (ins g3 p). rewrite (ss_in _ _ _ _ S2 p z), (ss_in _ _ _ _ S1 p z). done.
  - intros p z. unfold ed. cbn [src_]. change (outs (set_edges _ _ _ g3) p) with (outs g3 p). rewrite (ss_out _ _ _ _ S2 p z), (ss_out _ _ _ _ S1 p z). done.
  - apply S.
  - apply S.
Qed.

End edges.

(** ** Adding and removing nodes *)

(** An edge of the graph. *)
Definition is_edge (g : Graph) (j : nat) (e : ptr) (ed : Edge) : Prop := edges_ g !! j = Some (Some e) /\ edge_heap g !! e = Some ed.

Lemma open_holes hin hout g : graph_ok g -> graph_inv hin hout g.
Proof.
  intros [Hn [E1 E2 E3 E4 E5] Hd]. constructor; [done| |done]. constructor; [|by intros p Hp _; apply E2|by intros p Hp _; apply E3|done|done].
  intros i e Hi. destruct (E1 i e Hi) as (ed & H1 & H2 & H3 & H4 & H5 & H6 & H7). exists ed. split_and!; auto.
Qed.

(** When no edge goes to a node, its set can be cleared. *)
Lemma close_in hout g p n : graph_inv (Some p) hout g -> node_heap g !! p = Some n -> p ∉ free_nodes_ g -> (forall j e ed, is_edge g j e ed -> dst_ ed <> p) ->
  let g' := set_node_heap (<[p:=set_in_edges (EdgeSet.clear (in_edges_ n)) n]> (node_heap g)) g in
  graph_inv None hout g' /\ edges_only g g' /\ ins g' p = [].
Proof.
  intros [Hn He Hd] Hp Hf Hnone g'. assert (sets_step g g' (fun p' x => if decide (p' = p) then x ∈ [] else x ∈ ins g p') (fun p' x => x ∈ outs g p')) as S.
  { eapply sets_step_weaken; [apply (sets_of_node g p n (set_in_edges (EdgeSet.clear (in_edges_ n)) n) Hp Hf); [done|intros _; apply EdgeSet.holds_new|done]|..]; cbn beta; intros p' x; (destruct (decide (p' = p)) as [->|Hne]; [|done]).
    - done.
    - by rewrite (outs_at g p n Hp). }
  assert (ins g' p = []) as Ei by (unfold ins, g'; cbn [node_heap set_node_heap]; by rewrite lookup_insert_eq). pose proof (ss_only _ _ _ _ S) as Ho. split_and!; [|done|done].
  constructor; [by apply (edges_only_nodes g)| |by apply (edges_only_devices g)]. constructor.
  - intros i e Hi. destruct (e_live _ _ _ He i e Hi) as (ed & H1 & H2 & H3 & H4 & H5 & H6 & H7). exists ed. rewrite !(edges_only_node g g') by done. assert (dst_ ed <> p) as Hne by (by apply (Hnone i e ed)).
    split_and!; [done|done|done|done|intros Hh; apply (ss_out _ _ _ _ S); auto|intros _; apply (ss_in _ _ _ _ S); rewrite decide_False by done; apply H6; congruence|by apply (edges_only_slots g)].
  - intros p' Hp' _. rewrite (edges_only_node g g') in Hp' by done. destruct (decide (p' = p)) as [->|Hne].
    + rewrite Ei. split; [|by intros e He'%elem_of_nil]. eexists. split; [unfold g'; cbn; by rewrite lookup_insert_eq|apply EdgeSet.holds_new].
    + destruct (e_in _ _ _ He p' Hp') as [Hok Hl]; [congruence|]. split; [by apply S|]. intros e Hx%(ss_in _ _ _ _ S). rewrite decide_False in Hx by done. by apply Hl.
  - intros p' Hp' Hh. rewrite (edges_only_node g g') in Hp' by done. destruct (e_out _ _ _ He p' Hp' Hh) as [Hok Hl]. split; [by apply S|]. intros e Hx%(ss_out _ _ _ _ S). by apply Hl.
  - apply He.
  - apply He.
Qed.

Lemma close_out hin g p n : graph_inv hin (Some p) g -> node_heap g !! p = Some n -> p ∉ free_nodes_ g -> (forall j e ed, is_edge g j e ed -> src_ ed <> p) ->
  let g' := set_node_heap (<[p:=set_out_edges (EdgeSet.clear (out_edges_ n)) n]> (node_heap g)) g in
  graph_inv hin None g' /\ edges_only g g' /\ outs g' p = [] /\ ins g' p = ins g p.
Proof.
  intros [Hn He Hd] Hp Hf Hnone g'. assert (sets_step g g' (fun p' x => x ∈ ins g p') (fun p' x => if decide (p' = p) then x ∈ [] else x ∈ outs g p')) as S.
  { eapply sets_step_weaken; [apply (sets_of_node g p n (set_out_edges (EdgeSet.clear (out_edges_ n)) n) Hp Hf); [done|done|intros _; apply EdgeSet.holds_new]|..]; cbn beta; intros p' x; (destruct (decide (p' = p)) as [->|Hne]; [|done]).
    - by rewrite (ins_at g p n Hp).
    - done. }
  assert (outs g' p = []) as Ei by (unfold outs, g'; cbn [node_heap set_node_heap]; by rewrite lookup_insert_eq). pose proof (ss_only _ _ _ _ S) as Ho.
  split_and!; [|done|done|rewrite (ins_at g p n Hp); unfold ins, g'; cbn [node_heap set_node_heap]; by rewrite lookup_insert_eq].
  constructor; [by apply (edges_only_nodes g)| |by apply (edges_only_devices g)]. constructor.
  - intros i e Hi. destruct (e_live _ _ _ He i e Hi) as (ed & H1 & H2 & H3 & H4 & H5 & H6 & H7). exists ed. rewrite !(edges_only_node g g') by done. assert (src_ ed <> p) as Hne by (by apply (Hnone i e ed)).
    split_and!; [done|done|done|done|intros _; apply (ss_out _ _ _ _ S); rewrite decide_False by done; apply H5; congruence|intros Hh; apply (ss_in _ _ _ _ S); auto|by apply (edges_only_slots g)].
  - intros p' Hp' Hh. rewrite (edges_only_node g g') in Hp' by done. destruct (e_in _ _ _ He p' Hp' Hh) as [Hok Hl]. split; [by apply S|]. intros e Hx%(ss_in _ _ _ _ S). by apply Hl.
  - intros p' Hp' _. rewrite (edges_only_node g g') in Hp' by done. destruct (decide (p' = p)) as [->|Hne].
    + rewrite Ei. split; [|by intros e He'%elem_of_nil]. eexists. split; [unfold g'; cbn; by rewrite lookup_insert_eq|apply EdgeSet.holds_new].
    + destruct (e_out _ _ _ He p' Hp') as [Hok Hl]; [congruence|]. split; [by apply S|]. intros e Hx%(ss_out _ _ _ _ S). rewrite decide_False in Hx by done. by apply Hl.
  - apply He.
  - apply He.
Qed.

Section nodes.
Context (rehash : list ptr -> list ptr) (Hrehash : forall l, rehash l ≡ₚ l).

(** The edges of a list are gone. *)
Definition without (es : list ptr) (g g' : Graph) : Prop :=
  edges_only g g' /\ edge_heap g' = edge_heap g /\ length (edges_ g') = length (edges_ g)
  /\ forall j e, edges_ g' !! j = Some (Some e) <-> edges_ g !! j = Some (Some e) /\ e ∉ es.

Lemma without_nil g : without [] g g.
Proof using Type. split_and!; [apply edges_only_refl|done|done|]. intros j e. split; [|by intros []]. intros Hj. split; [done|apply not_elem_of_nil]. Qed.

Lemma without_cons hin hout e es i g g1 g2 : edges_inv hin hout g -> edges_ g !! i = Some (Some e) -> drops i e g g1 -> without es g1 g2 -> without (e :: es) g g2.
Proof using Type.
  intros He Hi (Ho1 & Et & Eh) (Ho2 & Eh2 & El & Hw). split_and!; [by eapply edges_only_trans|congruence|by rewrite El, Et, length_insert|].
  intros j x. rewrite Hw, Et, lookup_cleared_Some, not_elem_of_cons. split; [|intros (Hx & Hne & Hn); split_and!; [|done|done]; intros ->; congruence].
  intros [[Hne Hx] Hn]. split_and!; [done| |done]. intros ->. apply Hne. by eapply edge_once.
Qed.

Lemma remove_in_edges_run p es : forall g (Q : unit -> Graph -> Prop), graph_inv (Some p) None g -> NoDup es -> Z.of_nat (length (edges_ g)) < 2 ^ 31 ->
  (forall e, e ∈ es -> exists j ed, is_edge g j e ed /\ dst_ ed = p) ->
  (forall g', graph_inv (Some p) None g' -> without es g g' -> Q tt g') -> remove_in_edges rehash es @ g ⇓ Q.
Proof using Hrehash.
  induction es as [|e es IH]; intros g Q Hg Hnd Hb Hes HQ; cbn [remove_in_edges]; [wp_steps; apply HQ; [done|apply without_nil]|]. apply NoDup_cons in Hnd as [Hne Hnd]. pose proof Hg as [Hn He Hd].
  destruct (Hes e ltac:(by left)) as (i & ed & [Hi Hed] & Hdst). destruct (e_live _ _ _ He i e Hi) as (ed' & Hed' & Eid & Hs & _ & Hout & _). rewrite Hed in Hed'. injection Hed' as <-.
  destruct (e_out _ _ _ He _ Hs ltac:(done)) as [Hook _]. destruct (is_node_live g _ Hn Hs) as (ns & is' & Ls & _). wp_step. eapply wp_edge; [done|]. wp_step.
  apply out_erase_run; [done|exact Hook|by apply Hout|exact (live_not_free g _ _ _ Hn Ls)|]. intros g1 S. wp_step.
  eapply drop_edge_run; [by rewrite (ss_heap _ _ _ _ S)|done|by rewrite (ss_edges _ _ _ _ S)|by rewrite (ss_num _ _ _ _ S), (ss_edges _ _ _ _ S), (e_count _ _ _ He)|by rewrite (ss_edges _ _ _ _ S)|].
  set (g2 := set_edges _ _ _ _). assert (edges_only g g2) as Ho2. { eapply edges_only_trans; [apply S|]. constructor; try done. intros q. cbn. destruct (node_heap g1 !! q) as [n|]; [|done]. by exists n. }
  assert (edges_ g2 = <[i:=None]> (edges_ g)) as Et by (unfold g2; cbn; by rewrite (ss_edges _ _ _ _ S)). assert (edge_heap g2 = edge_heap g) as Eh by apply S.
  apply IH; [|done|by rewrite Et, length_insert| |].
  - constructor; [by apply (edges_only_nodes g)| |by apply (edges_only_devices g)]. apply (edges_inv_drop (Some p) None g g2 i e ed); try done; unfold g2; cbn.
    + by rewrite (ss_num _ _ _ _ S).
    + by rewrite (ss_free _ _ _ _ S).
    + intros q x Hq. change (ins (set_edges _ _ _ g1) q) with (ins g1 q). rewrite (ss_in _ _ _ _ S q x). split; [|by intros []]. intros Hx. split; [done|]. intros [-> _]. congruence.
    + intros q x _. change (outs (set_edges _ _ _ g1) q) with (outs g1 q). by rewrite (ss_out _ _ _ _ S q x).
    + apply S.
    + apply S.
  - intros x Hx. destruct (Hes x ltac:(by right)) as (j & edx & [Hj Hedx] & Hdx). exists j, edx. unfold is_edge. rewrite Eh, Et. split_and!; [|done|done]. apply lookup_cleared_Some. split; [|done]. intros ->. congruence.
  - intros g' Hg' Hw. apply HQ; [done|]. by eapply without_cons.
Qed.

Lemma remove_out_edges_run p es : forall g (Q : unit -> Graph -> Prop), graph_inv None (Some p) g -> NoDup es -> Z.of_nat (length (edges_ g)) < 2 ^ 31 ->
  (forall e, e ∈ es -> exists j ed, is_edge g j e ed /\ src_ ed = p) ->
  (forall g', graph_inv None (Some p) g' -> without es g g' -> (forall x, x ∈ ins g' p -> x ∈ ins g p) -> Q tt g') -> remove_out_edges rehash es @ g ⇓ Q.
Proof using Hrehash.
  induction es as [|e es IH]; intros g Q Hg Hnd Hb Hes HQ; cbn [remove_out_edges]; [wp_steps; apply HQ; [done|apply without_nil|done]|]. apply NoDup_cons in Hnd as [Hne Hnd]. pose proof Hg as [Hn He Hd].
  destruct (Hes e ltac:(by left)) as (i & ed & [Hi Hed] & Hsrc). destruct (e_live _ _ _ He i e Hi) as (ed' & Hed' & Eid & _ & Ht & _ & Hin & _). rewrite Hed in Hed'. injection Hed' as <-.
  destruct (e_in _ _ _ He _ Ht ltac:(done)) as [Hiok _]. destruct (is_node_live g _ Hn Ht) as (nt & it & Lt & _). wp_step. eapply wp_edge; [done|]. wp_step.
  apply in_erase_run; [done|exact Hiok|by apply Hin|exact (live_not_free g _ _ _ Hn Lt)|]. intros g1 S. wp_step.
  eapply drop_edge_run; [by rewrite (ss_heap _ _ _ _ S)|done|by rewrite (ss_edges _ _ _ _ S)|by rewrite (ss_num _ _ _ _ S), (ss_edges _ _ _ _ S), (e_count _ _ _ He)|by rewrite (ss_edges _ _ _ _ S)|].
  set (g2 := set_edges _ _ _ _). assert (edges_only g g2) as Ho2. { eapply edges_only_trans; [apply S|]. constructor; try done. intros q. cbn. destruct (node_heap g1 !! q) as [n|]; [|done]. by exists n. }
  assert (edges_ g2 = <[i:=None]> (edges_ g)) as Et by (unfold g2; cbn; by rewrite (ss_edges _ _ _ _ S)). assert (edge_heap g2 = edge_heap g) as Eh by apply S.
  apply IH; [|done|by rewrite Et, length_insert| |].
  - constructor; [by apply (edges_only_nodes g)| |by apply (edges_only_devices g)]. apply (edges_inv_drop None (Some p) g g2 i e ed); try done; unfold g2; cbn.
    + by rewrite (ss_num _ _ _ _ S).
    + by rewrite (ss_free _ _ _ _ S).
    + intros q x _. change (ins (set_edges _ _ _ g1) q) with (ins g1 q). by rewrite (ss_in _ _ _ _ S q x).
    + intros q x Hq. change (outs (set_edges _ _ _ g1) q) with (outs g1 q). rewrite (ss_out _ _ _ _ S q x). split; [|by intros []]. intros Hx. split; [done|]. intros [-> _]. congruence.
    + apply S.
    + apply S.
  - intros x Hx. destruct (Hes x ltac:(by right)) as (j & edx & [Hj Hedx] & Hdx). exists j, edx. unfold is_edge. rewrite Eh, Et. split_and!; [|done|done]. apply lookup_cleared_Some. split; [|done]. intros ->. congruence.
  - intros g' Hg' Hw Hins. apply HQ; [done|by eapply without_cons|]. intros x Hx%Hins. change (ins g2 p) with (ins g1 p) in Hx. by apply (ss_in _ _ _ _ S p x) in Hx as [? _].
Qed.

(** ** Releasing a node *)

Definition released (i : nat) (p : ptr) (g g' : Graph) : Prop :=
  nodes_ g' = <[i:=None]> (nodes_ g) /\ props_heap g' = props_heap g /\ foreign g' = foreign g /\ device_names_ g' = device_names_ g /\ while_ctxs_ g' = while_ctxs_ g
  /\ (exists w, node_heap g' !! p = Some (cleared w))
  /\ (forall p', p' <> p -> match node_heap g !! p' with Some n => exists n', node_heap g' !! p' = Some n' /\ same_core n n' | None => node_heap g' !! p' = None end)
  /\ edge_heap g' = edge_heap g.

Lemma ReleaseNode_run g p n i (Q : unit -> Graph -> Prop) : graph_ok g -> live g p n i -> (2 <= i)%nat -> (forall j e ed, is_edge g j e ed -> src_ ed <> p /\ dst_ ed <> p) ->
  Z.of_nat (length (nodes_ g)) < 2 ^ 31 ->
  (forall g', graph_ok g' -> released i p g g' -> edges_ g' = edges_ g -> Q tt g') -> ReleaseNode p @ g ⇓ Q.
Proof using Type.
  intros [Hn He Hd] Hl Hi Hnone Hb HQ. pose proof Hl as (Hat & Hp & Eid). unfold ReleaseNode. wp_step. eapply wp_valid; [done|]. wp_step. eapply wp_deref; [done|]. wp_steps. eapply wp_update_node; [exact Hp|].
  rewrite Eid, Nat2Z.id. set (g' := set_node_heap _ _). destruct (omap_delete (nodes_ g) i p Hat) as [_ Hlen]. pose proof (omap_le (nodes_ g)) as Hle.
  assert (forall q, q <> p -> is_node g' q <-> is_node g q) as Hnode.
  { intros q Hq. unfold is_node, g'. cbn. split; intros [j Hj]; exists j; [by apply lookup_cleared_Some in Hj as []|]. apply lookup_cleared_Some. split; [|done]. intros ->. congruence. }
  assert (forall q, is_node g' q -> q <> p) as Hother. { intros q [j Hj] ->. unfold g' in Hj. cbn in Hj. apply lookup_cleared_Some in Hj as [Hne Hj]. apply Hne. destruct (n_live g Hn j p Hj) as (n' & Hp' & Eid' & _). simplify_eq. lia. }
  assert (forall q, q <> p -> node_heap g' !! q = node_heap g !! q) as Hheap by (intros q Hq; unfold g'; cbn; by rewrite lookup_insert_ne).
  apply HQ; [|split_and!; try done|done].
  - constructor; [| |by destruct Hd; constructor].
    + constructor; cbn [nodes_ node_heap free_nodes_ num_nodes_ g' set_node_heap set_nodes].
      * intros j q Hj. apply lookup_cleared_Some in Hj as [Hne Hj]. destruct (n_live g Hn j q Hj) as (m & Hq & Em & Hok). exists m. assert (q <> p) by (intros ->; simplify_eq; lia). rewrite lookup_insert_ne by done. done.
      * destruct (n_free g Hn) as [Hnd Hf]. split; [constructor; [by eapply live_not_free|done]|]. intros q [->|Hq]%elem_of_cons; [rewrite lookup_insert_eq; by exists (while_ctx_ n)|].
        rewrite lookup_insert_ne; [by apply Hf|]. intros ->. by eapply live_not_free.
      * intros q m Hm. destruct (decide (q = p)) as [->|Hne]; [right; by left|]. rewrite lookup_insert_ne in Hm by done. destruct (n_all g Hn q m Hm) as [Hq|Hq]; [left; by apply Hnode|right; by right].
      * destruct (n_ends g Hn) as (s & t & Hs & Ht). exists s, t. rewrite !list_lookup_insert_ne by lia. done.
      * rewrite (n_count g Hn), Hlen. rewrite i64_small by lia. lia.
    + constructor.
      * intros j e Hj. destruct (e_live _ _ _ He j e Hj) as (ed & H1 & H2 & H3 & H4 & H5 & H6 & [H7 H8]). destruct (Hnone j e ed ltac:(by split)) as [N1 N2]. exists ed. unfold outs, ins, slots_ok. rewrite !Hnode, !Hheap by done.
        split_and!; [done|done|done|done|by apply H5|by apply H6|exact H7|]. unfold g'. cbn [nodes_ set_node_heap set_nodes]. rewrite !list_lookup_insert_ne by lia. done.
      * intros q Hq _. pose proof (Hother q Hq) as Hne. rewrite Hnode in Hq by done. unfold ins_ok, ins. rewrite Hheap by done. by apply He.
      * intros q Hq _. pose proof (Hother q Hq) as Hne. rewrite Hnode in Hq by done. unfold outs_ok, outs. rewrite Hheap by done. by apply He.
      * apply He.
      * apply He.
  - exists (while_ctx_ n). unfold g'. cbn. by rewrite lookup_insert_eq.
  - intros q Hq. rewrite Hheap by done. destruct (node_heap g !! q) as [m|]; [|done]. by exists m.
Qed.

(** [RemoveNode] removes the node and the edges at it. *)
Lemma RemoveNode_run g p n i (Q : unit -> Graph -> Prop) : graph_ok g -> live g p n i -> (2 <= i)%nat -> Z.of_nat (length (edges_ g)) < 2 ^ 31 -> Z.of_nat (length (nodes_ g)) < 2 ^ 31 ->
  (forall g', graph_ok g' -> released i p g g' -> length (edges_ g') = length (edges_ g) ->
     (forall j e, edges_ g' !! j = Some (Some e) <-> exists ed, is_edge g j e ed /\ src_ ed <> p /\ dst_ ed <> p) -> Q tt g') -> RemoveNode rehash p @ g ⇓ Q.
Proof using Hrehash.
  intros Hg Hl Hi Hb Hb' HQ. pose proof Hg as [Hn He Hd]. pose proof Hl as (Hat & Hp & Eid). assert (is_node g p) as Hnode by (by exists i). destruct (e_in _ _ _ He p Hnode ltac:(done)) as [(m & Hm & Hok) Hil]. rewrite Hp in Hm. injection Hm as <-.
  pose proof (live_not_free g p n i Hn Hl) as Hf. unfold RemoveNode. wp_step. eapply wp_valid; [done|]. wp_step. eapply wp_deref; [done|]. wp_step. apply wp_CHECK; [unfold IsSource; rewrite (proj2 (Z.eqb_neq _ _)) by lia; done|].
  wp_step. apply wp_CHECK; [unfold IsSink; rewrite (proj2 (Z.eqb_neq _ _)) by lia; done|]. wp_step. eapply in_edges_run; [done|done|done|]. wp_step. apply (remove_in_edges_run p); [by apply open_holes|rewrite (ins_at g p n Hp); apply Hok|done| |].
  { intros e Hx. destruct (Hil e Hx) as (j & ed & Hj & Hed & Hdst). exists j, ed. by split_and!. }
  intros g1 Hg1 (Ho1 & Eh1 & El1 & Hw1). wp_step. destruct (edges_only_live _ _ _ _ _ Ho1 Hl) as (n1 & L1 & _). eapply wp_update_node; [apply L1|].
  assert (forall j e ed, is_edge g1 j e ed -> dst_ ed <> p) as Hno1.
  { intros j e ed [Hj Hed] Hdst. apply Hw1 in Hj as [Hj Hne]. rewrite Eh1 in Hed. apply Hne. destruct (e_live _ _ _ He j e Hj) as (ed' & H1 & _ & _ & _ & _ & H6 & _). simplify_eq. by apply H6. }
  destruct (close_in None g1 p n1 Hg1 (proj1 (proj2 L1)) ltac:(by rewrite (o_free _ _ Ho1)) Hno1) as (Hg2 & Ho2 & Ei2). set (g2 := set_node_heap _ g1) in *. destruct (edges_only_live _ _ _ _ _ Ho2 L1) as (n2 & L2 & _).
  pose proof (edges_only_trans _ _ _ Ho1 Ho2) as Ho12. destruct (e_out _ _ _ (g_edges _ _ _ Hg2) p ltac:(by eapply edges_only_node) ltac:(done)) as [(m & Hm & Hok2) Hol2]. rewrite (proj1 (proj2 L2)) in Hm. injection Hm as <-.
  wp_step. eapply out_edges_run; [apply Hg2|by eapply edges_only_node|done|]. wp_step. apply (remove_out_edges_run p); [by apply open_holes|rewrite (outs_at g2 p n2 (proj1 (proj2 L2))); apply Hok2|change (edges_ g2) with (edges_ g1); lia| |].
  { intros e Hx. destruct (Hol2 e Hx) as (j & ed & Hj & Hed & Hsrc). exists j, ed. by split_and!. }
  intros g3 Hg3 (Ho3 & Eh3 & El3 & Hw3) Hins3. wp_step. destruct (edges_only_live _ _ _ _ _ Ho3 L2) as (n3 & L3 & _). eapply wp_update_node; [apply L3|].
  assert (forall j e ed, is_edge g3 j e ed -> src_ ed <> p) as Hno3.
  { intros j e ed [Hj Hed] Hsrc. apply Hw3 in Hj as [Hj Hne]. rewrite Eh3 in Hed. apply Hne. destruct (e_live _ _ _ (g_edges _ _ _ Hg2) j e Hj) as (ed' & H1 & _ & _ & _ & H5 & _). simplify_eq. by apply H5. }
  pose proof (edges_only_trans _ _ _ Ho12 Ho3) as Ho13. destruct (close_out None g3 p n3 Hg3 (proj1 (proj2 L3)) ltac:(by rewrite (o_free _ _ Ho13)) Hno3) as (Hg4 & Ho4 & Eo4 & Ei4). set (g4 := set_node_heap _ g3) in *.
  pose proof (edges_only_trans _ _ _ Ho13 Ho4) as Ho. destruct (edges_only_live _ _ _ _ _ Ho Hl) as (n4 & L4 & _).
  assert (forall j e, edges_ g4 !! j = Some (Some e) <-> exists ed, is_edge g j e ed /\ src_ ed <> p /\ dst_ ed <> p) as Hedges.
  { intros j e. change (edges_ g4) with (edges_ g3). split.
    - intros Hj. destruct (e_live _ _ _ (g_edges _ _ _ Hg3) j e Hj) as (ed & Hed & _). exists ed. pose proof (Hno3 j e ed ltac:(by split)) as N1. apply Hw3 in Hj as [Hj _]. rewrite Eh3 in Hed. pose proof (Hno1 j e ed ltac:(by split)) as N2. apply Hw1 in Hj as [Hj _].
      change (edge_heap g2) with (edge_heap g1) in Hed. rewrite Eh1 in Hed. by split_and!.
    - intros (ed & [Hj Hed] & N1 & N2). apply Hw3. split.
      + apply Hw1. split; [done|]. intros Hx. destruct (Hil e Hx) as (j' & ed' & _ & Hed' & Hdst). simplify_eq.
      + intros Hx. destruct (Hol2 e Hx) as (j' & ed' & _ & Hed' & Hsrc). change (edge_heap g2) with (edge_heap g1) in Hed'. rewrite Eh1 in Hed'. simplify_eq. }
  eapply ReleaseNode_run; [exact Hg4|exact L4|done| |by rewrite (o_nodes _ _ Ho)|].
  { intros j e ed [Hj Hed]. apply Hedges in Hj as (ed' & [_ Hed'] & N1 & N2). change (edge_heap g4) with (edge_heap g3) in Hed. rewrite Eh3 in Hed. change (edge_heap g2) with (edge_heap g1) in Hed. rewrite Eh1 in Hed. simplify_eq. done. }
  intros g5 Hg5 (R1 & R2 & R3 & R4 & R5 & R6 & R7 & R8) Et5. apply HQ; [done| | |by rewrite Et5].
  - unfold released. rewrite R1, R2, R3, R4, R5, R8, (o_nodes _ _ Ho), (o_props _ _ Ho), (o_foreign _ _ Ho), (o_names _ _ Ho), (o_while _ _ Ho). split_and!; try done.
    + intros q Hq. specialize (R7 q Hq). pose proof (o_heap _ _ Ho q) as Hh. destruct (node_heap g !! q) as [m|]; [|by rewrite Hh in R7]. destruct Hh as (m' & Hm' & C & _). rewrite Hm' in R7. destruct R7 as (m'' & Hm'' & C'). exists m''. split; [done|]. unfold same_core in *. intuition congruence.
    + change (edge_heap g4) with (edge_heap g3). rewrite Eh3. exact Eh1.
  - rewrite Et5. change (edges_ g4) with (edges_ g3). rewrite El3. exact El1.
Qed.

End nodes.
