(* ===== verification/GraphProps.v ===== *)
(** * Graphs of operations: properties and devices

    Properties are shared and copied on write: a change is seen by one node only.  Allocating
    and copying nodes, and the names of devices. *)

From S2P Require Import Prelude EdgeSet Graph GraphInvariant GraphEdges.
Import Graph.

#[local] Open Scope runtime_scope.

Definition node_props (g : Graph) (p : ptr) : option NodeProperties := n ← node_heap g !! p; q ← props_ n; props_heap g !! q.

Definition with_props (o : option ptr) (n : Node) : Node := mkNode (id_ n) (cost_id_ n) (class_ n) (in_edges_ n) (out_edges_ n) o (assigned_device_name_index_ n) (while_ctx_ n).

(** Nothing but properties changed. *)
Record props_only (g g' : Graph) : Prop := {
  po_nodes : nodes_ g' = nodes_ g;
  po_count : num_nodes_ g' = num_nodes_ g;
  po_free : free_nodes_ g' = free_nodes_ g;
  po_edges : edges_ g' = edges_ g;
  po_ecount : num_edges_ g' = num_edges_ g;
  po_efree : free_edges_ g' = free_edges_ g;
  po_eheap : edge_heap g' = edge_heap g;
  po_foreign : foreign g' = foreign g;
  po_names : device_names_ g' = device_names_ g;
  po_map : device_names_map_ g' = device_names_map_ g;
  po_counter : name_counter_ g' = name_counter_ g;
  po_while : while_ctxs_ g' = while_ctxs_ g;
  po_heap : forall p, match node_heap g !! p with
    | Some n => exists o, node_heap g' !! p = Some (with_props o n) /\ (props_ n = None -> o = None)
    | None => node_heap g' !! p = None
    end
}.

Lemma props_only_refl g : props_only g g.
Proof. constructor; try done. intros p. destruct (node_heap g !! p) as [n|]; [|done]. exists (props_ n). split; [by destruct n|done]. Qed.

Lemma props_only_trans g1 g2 g3 : props_only g1 g2 -> props_only g2 g3 -> props_only g1 g3.
Proof.
  intros H1 H2. constructor; try (etransitivity; [apply H2|apply H1]). intros p. pose proof (po_heap _ _ H1 p) as P1. pose proof (po_heap _ _ H2 p) as P2. destruct (node_heap g1 !! p) as [n1|].
  - destruct P1 as (o1 & E1 & F1). rewrite E1 in P2. destruct P2 as (o2 & E2 & F2). exists o2. split; [done|]. intros Hn. apply F2. cbn. by apply F1.
  - by rewrite P1 in P2.
Qed.

Lemma props_only_inv hin hout g g' : props_only g g' -> graph_inv hin hout g ->
  (forall p v, is_node g p -> node_props g p = Some v -> exists v', node_props g' p = Some v' /\ op (node_def v') = op (node_def v)) -> graph_inv hin hout g'.
Proof.
  intros Ho [Hn He Hd] Hop. assert (forall p, ins g' p = ins g p /\ outs g' p = outs g p) as Hl.
  { intros p. unfold ins, outs. pose proof (po_heap _ _ Ho p) as Hh. destruct (node_heap g !! p) as [n|]; [destruct Hh as (o & -> & _); done|by rewrite Hh]. }
  assert (forall p, (ins_ok g p -> ins_ok g' p) /\ (outs_ok g p -> outs_ok g' p)) as Hok.
  { intros p. pose proof (po_heap _ _ Ho p) as Hh. split; intros (n & Hp & H); rewrite Hp in Hh; destruct Hh as (o & Hp' & _); exists (with_props o n); done. }
  assert (forall p, is_node g' p <-> is_node g p) as Hnode by (intros p; unfold is_node; by rewrite (po_nodes _ _ Ho)).
  constructor.
  - constructor.
    + intros i p Hi. rewrite (po_nodes _ _ Ho) in Hi. destruct (n_live g Hn i p Hi) as (n & Hp & Eid & (q & v & Hq & Hv & Hc) & Hdev). pose proof (po_heap _ _ Ho p) as Hh. rewrite Hp in Hh. destruct Hh as (o & Hp' & _).
      assert (node_props g p = Some v) as Hpv by (unfold node_props; rewrite Hp; cbn; rewrite Hq; done). destruct (Hop p v ltac:(by exists i) Hpv) as (v' & Hv' & Eop). exists (with_props o n). split_and!; [done|done|]. split.
      * unfold node_props in Hv'. rewrite Hp' in Hv'. cbn in Hv'. destruct o as [q'|]; [|done]. exists q', v'. split_and!; [done|done|]. cbn. by rewrite Eop.
      * cbn. rewrite (po_names _ _ Ho). apply Hdev.
    + rewrite (po_free _ _ Ho). split; [apply Hn|]. intros p Hp. destruct (proj2 (n_free g Hn) p Hp) as [w Hw]. pose proof (po_heap _ _ Ho p) as Hh. rewrite Hw in Hh. destruct Hh as (o & Hp' & Ho'). exists w. rewrite (Ho' eq_refl) in Hp'. exact Hp'.
    + intros p n' Hp'. rewrite Hnode, (po_free _ _ Ho). pose proof (po_heap _ _ Ho p) as Hh. destruct (node_heap g !! p) as [n|] eqn:Hp; [by apply (n_all g Hn p n)|congruence].
    + rewrite (po_nodes _ _ Ho). apply Hn.
    + rewrite (po_nodes _ _ Ho), (po_count _ _ Ho). apply Hn.
  - constructor; rewrite ?(po_edges _ _ Ho), ?(po_ecount _ _ Ho), ?(po_efree _ _ Ho), ?(po_eheap _ _ Ho); try apply He.
    + intros i e Hi. destruct (e_live _ _ _ He i e Hi) as (ed & H1 & H2 & H3 & H4 & H5 & H6 & H7). exists ed. rewrite !Hnode, (proj1 (Hl _)), (proj2 (Hl _)). unfold slots_ok in *. rewrite (po_nodes _ _ Ho). split_and!; try done; apply H7.
    + intros p Hp Hh. rewrite Hnode in Hp. destruct (e_in _ _ _ He p Hp Hh) as [Hi1 Hi2]. rewrite (proj1 (Hl p)). split; [by apply Hok|done].
    + intros p Hp Hh. rewrite Hnode in Hp. destruct (e_out _ _ _ He p Hp Hh) as [Hi1 Hi2]. rewrite (proj2 (Hl p)). split; [by apply Hok|done].
  - destruct Hd as [D1 D2 D3]. constructor; rewrite ?(po_names _ _ Ho), ?(po_map _ _ Ho); done.
Qed.

Lemma props_only_live g g' p n i : props_only g g' -> live g p n i -> exists o, live g' p (with_props o n) i.
Proof. intros Ho (Hi & Hp & Eid). pose proof (po_heap _ _ Ho p) as Hh. rewrite Hp in Hh. destruct Hh as (o & Hp' & _). exists o. unfold live. rewrite (po_nodes _ _ Ho). done. Qed.

(** The properties of one node change, nothing else. *)
Definition props_step (p : ptr) (f : NodeProperties -> NodeProperties) (g g' : Graph) : Prop :=
  props_only g g' /\ (forall p', node_props g' p' = if decide (p' = p) then f <$> node_props g p' else node_props g p')
  /\ forall q, q ∈ foreign g -> props_heap g' !! q = props_heap g !! q.

Lemma props_step_trans p f1 f2 g1 g2 g3 : props_step p f1 g1 g2 -> props_step p f2 g2 g3 -> props_step p (fun v => f2 (f1 v)) g1 g3.
Proof.
  intros (O1 & P1 & F1) (O2 & P2 & F2). split_and!; [by eapply props_only_trans| |].
  - intros p'. rewrite P2, P1. destruct (decide (p' = p)); [|done]. by destruct (node_props g1 p').
  - intros q Hq. rewrite F2 by (by rewrite (po_foreign _ _ O1)). by apply F1.
Qed.

Lemma props_step_ext p f f' g g' : (forall v, f v = f' v) -> props_step p f g g' -> props_step p f' g g'.
Proof. intros E (O & P & F). split_and!; [done| |done]. intros p'. rewrite P. destruct (decide (p' = p)); [|done]. destruct (node_props g p'); cbn; by rewrite ?E. Qed.

Lemma props_step_inv p f g g' : graph_ok g -> props_step p f g g' -> (forall v, node_props g p = Some v -> op (node_def (f v)) = op (node_def v)) -> graph_ok g'.
Proof.
  intros Hg (Ho & Hp & _) Hop. apply (props_only_inv None None g); [done|done|]. intros p' v Hn Hv. rewrite Hp, Hv. destruct (decide (p' = p)) as [->|]; [|by exists v]. exists (f v). split; [done|]. by apply Hop.
Qed.

Lemma live_props g p n i : graph_ok g -> live g p n i -> exists q v, props_ n = Some q /\ props_heap g !! q = Some v /\ node_props g p = Some v.
Proof. intros [Hn _ _] Hl. destruct (live_ok g p n i Hn Hl) as [(q & v & Hq & Hv & _) _]. exists q, v. split_and!; [done|done|]. unfold node_props. destruct Hl as (_ & -> & _). cbn. by rewrite Hq. Qed.

(** An owner that is the only one. *)
Lemma unique_owner g p n q p' n' : unique q g = true -> node_heap g !! p = Some n -> props_ n = Some q -> node_heap g !! p' = Some n' -> props_ n' = Some q -> p' = p.
Proof.
  unfold unique. rewrite andb_true_iff, !bool_decide_eq_true. intros [Hs _] Hp Hq Hp' Hq'. destruct (decide (p' = p)) as [|Hne]; [done|]. set (m := filter _ _) in Hs.
  assert (m !! p = Some n) as H1 by (apply map_lookup_filter_Some; done). assert (m !! p' = Some n') as H2 by (apply map_lookup_filter_Some; done).
  pose proof (map_size_delete_Some p m ltac:(by exists n)) as Hd. rewrite Hs in Hd. apply map_size_empty_inv in Hd. assert (delete p m !! p' = Some n') as H3 by (by rewrite lookup_delete_ne). by rewrite Hd, lookup_empty in H3.
Qed.

(** A change through a pointer that no other node has. *)
Lemma change_props_run g p n i q f (Q : unit -> Graph -> Prop) : graph_ok g -> live g p n i -> props_ n = Some q -> unique q g = true ->
  (forall g', props_step p f g g' -> Q tt g') -> change_props p f @ g ⇓ Q.
Proof.
  intros Hg Hl Hq Hu HQ. pose proof Hg as [Hn _ _]. destruct (live_props g p n i Hg Hl) as (q' & v & Hq' & Hv & Hpv). rewrite Hq in Hq'. injection Hq' as <-. pose proof Hl as (_ & Hp & _). unfold change_props. wp_step. eapply wp_deref; [done|]. wp_step. eapply wp_of_option; [done|]. wp_steps.
  eapply wp_of_option; [done|]. wp_steps. apply HQ. split_and!.
  - constructor; try done. intros p'. cbn [node_heap set_props_heap]. destruct (node_heap g !! p') as [m|]; [|done]. exists (props_ m). split; [by destruct m|done].
  - intros p'. unfold node_props. cbn [node_heap props_heap set_props_heap]. destruct (decide (p' = p)) as [->|Hne].
    + rewrite Hp. cbn. rewrite Hq. cbn. by rewrite lookup_insert_eq, Hv.
    + destruct (node_heap g !! p') as [m|] eqn:Hm; [|done]. cbn. destruct (props_ m) as [qm|] eqn:Hqm; [|done]. cbn. rewrite lookup_insert_ne; [done|]. intros ->. apply Hne. by eapply unique_owner.
  - intros q' Hq'. cbn [props_heap set_props_heap]. rewrite lookup_insert_ne; [done|]. intros ->. unfold unique in Hu. rewrite andb_true_iff, !bool_decide_eq_true in Hu. by destruct Hu.
Qed.

(** New properties for a node. *)
Lemma new_props_run g p n i v (Q : ptr -> Graph -> Prop) (v0 : NodeProperties) : graph_ok g -> live g p n i -> node_props g p = Some v0 ->
  (forall q g1, let g' := set_node_heap (<[p:=set_props q n]> (node_heap g1)) g1 in node_heap g1 = node_heap g -> props_step p (fun _ => v) g g' -> live g' p (set_props q n) i -> unique q g' = true -> Q q g1) -> new_props v @ g ⇓ Q.
Proof.
  intros Hg Hl Hv0 HQ. pose proof Hg as [Hn _ _]. pose proof Hl as (Hi & Hp & Eid). unfold new_props. wp_steps. set (q := fresh (dom (props_heap g) ∪ foreign g)).
  assert (q ∉ dom (props_heap g) ∪ foreign g) as Hf by apply is_fresh. apply not_elem_of_union in Hf as [Hfd Hff]. apply HQ; [done| | |].
  - split_and!.
    + constructor; try done. intros p'. cbn [node_heap set_node_heap set_props_heap]. destruct (decide (p = p')) as [<-|Hne].
      * rewrite Hp, lookup_insert_eq. exists (Some q). split; [done|]. intros Hnone. destruct (live_props g p n i Hg Hl) as (q' & v' & Hq' & _). congruence.
      * rewrite lookup_insert_ne by done. destruct (node_heap g !! p') as [m|]; [|done]. exists (props_ m). split; [by destruct m|done].
    + intros p'. unfold node_props. cbn [node_heap props_heap set_node_heap set_props_heap]. destruct (decide (p' = p)) as [->|Hne].
      * rewrite lookup_insert_eq. cbn. rewrite lookup_insert_eq. unfold node_props in Hv0. rewrite Hv0. done.
      * rewrite lookup_insert_ne by done. destruct (node_heap g !! p') as [m|] eqn:Hm; [|done]. cbn. destruct (props_ m) as [qm|] eqn:Hqm; [|done]. cbn. rewrite lookup_insert_ne; [done|]. intros <-.
        destruct (n_all g Hn p' m Hm) as [[j Hj]|Hfr].
        -- destruct (n_live g Hn j p' Hj) as (m' & Hm' & _ & (q' & v' & Hq' & Hv' & _) & _). simplify_eq. apply Hfd. by apply elem_of_dom_2 in Hv'.
        -- destruct (proj2 (n_free g Hn) p' Hfr) as [w Hw]. simplify_eq.
    + intros q' Hq'. cbn [props_heap set_node_heap set_props_heap]. rewrite lookup_insert_ne; [done|]. intros <-. done.
  - split_and!; [done|cbn; by rewrite lookup_insert_eq|done].
  - unfold unique. cbn [node_heap foreign set_node_heap set_props_heap]. rewrite andb_true_iff, !bool_decide_eq_true. split; [|done]. rewrite map_filter_insert_True by done. rewrite map_size_insert_None.
    + assert (filter (fun '(_, n0) => props_ n0 = Some q) (node_heap g) = ∅) as ->; [|by rewrite map_size_empty]. apply map_empty_filter. intros p' m Hm Hqm.
      destruct (n_all g Hn p' m Hm) as [[j Hj]|Hfr].
      * destruct (n_live g Hn j p' Hj) as (m' & Hm' & _ & (q' & v' & Hq' & Hv' & _) & _). simplify_eq. apply Hfd. by apply elem_of_dom_2 in Hv'.
      * destruct (proj2 (n_free g Hn) p' Hfr) as [w Hw]. simplify_eq.
    + apply map_lookup_filter_None. right. intros m Hm Hqm. simplify_eq. destruct (live_props g p n i Hg Hl) as (q' & v' & Hq' & Hv' & _). simplify_eq. apply Hfd. by apply elem_of_dom_2 in Hv'.
Qed.

(** [MaybeCopyOnWrite]: afterwards no other node has the properties of this one. *)
Lemma MaybeCopyOnWrite_run g p n i (Q : unit -> Graph -> Prop) : graph_ok g -> live g p n i ->
  (forall g' n' q, graph_ok g' -> props_step p id g g' -> live g' p n' i -> props_ n' = Some q -> unique q g' = true -> Q tt g') -> MaybeCopyOnWrite p @ g ⇓ Q.
Proof.
  intros Hg Hl HQ. destruct (live_props g p n i Hg Hl) as (q & v & Hq & Hv & Hpv). pose proof Hl as (_ & Hp & _). unfold MaybeCopyOnWrite. wp_step. eapply wp_deref; [done|]. wp_step. eapply wp_of_option; [done|]. wp_steps.
  destruct (unique q g) eqn:Hu.
  - wp_steps. apply (HQ g n q); try done. split_and!; [apply props_only_refl| |done]. intros p'. destruct (decide (p' = p)); [|done]. by destruct (node_props g p').
  - wp_step. eapply wp_of_option; [done|]. wp_step. eapply (new_props_run g p n i v); [done|done|done|]. intros q' g1 g' Eh Hs Hl' Hu'. eapply wp_update_node; [rewrite Eh; apply Hl|].
    assert (props_step p id g g') as Hs'. { destruct Hs as (O & P & F). split_and!; [done| |done]. intros p'. rewrite P. destruct (decide (p' = p)) as [->|]; [|done]. by rewrite Hpv. }
    apply (HQ g' (set_props q' n) q'); try done. by eapply props_step_inv.
Qed.

Lemma change_def_run g p n i f (Q : unit -> Graph -> Prop) : graph_ok g -> live g p n i -> (forall d, op (f d) = op d) ->
  (forall g', graph_ok g' -> props_step p (with_def f) g g' -> Q tt g') -> change_def p f @ g ⇓ Q.
Proof.
  intros Hg Hl Hop HQ. unfold change_def. wp_step. eapply MaybeCopyOnWrite_run; [done|done|]. intros g1 n1 q Hg1 S1 L1 Hq Hu. eapply change_props_run; [done|done|done|done|]. intros g2 S2.
  pose proof (props_step_trans _ _ _ _ _ _ S1 S2) as S. apply HQ; [eapply props_step_inv; [exact Hg1|exact S2|]; intros v _; apply Hop|]. by eapply props_step_ext; [|exact S].
Qed.

(** ** Allocating nodes *)

(** A node without edges at the next id, in a new object or in a recycled one. *)
Record allocated (q : ptr) (v : NodeProperties) (p : ptr) (g g' : Graph) : Prop := {
  a_nodes : nodes_ g' = nodes_ g ++ [Some p];
  a_new : ~ is_node g p;
  a_heap : exists cost w, node_heap g' = <[p:=mkNode (Z.of_nat (length (nodes_ g))) cost (GetNodeClassForOp (op (node_def v))) EdgeSet.EdgeSet_new EdgeSet.EdgeSet_new (Some q) 0 w]> (node_heap g);
  a_old : forall n, node_heap g !! p = Some n -> props_ n = None;
  a_edges : edges_ g' = edges_ g;
  a_eheap : edge_heap g' = edge_heap g;
  a_props : props_heap g' = props_heap g;
  a_foreign : foreign g' = foreign g;
  a_names : device_names_ g' = device_names_ g
}.

Lemma AllocateNode_run g q v cost (Q : ptr -> Graph -> Prop) : graph_ok g -> props_heap g !! q = Some v -> Z.of_nat (length (nodes_ g)) < 2 ^ 31 - 1 ->
  (forall p g', graph_ok g' -> allocated q v p g g' -> Q p g') -> AllocateNode q cost @ g ⇓ Q.
Proof.
  intros [Hn He Hd] Hq Hb HQ. unfold AllocateNode. wp_steps. destruct (n_free g Hn) as [Fnd Ff].
  apply (wp_mono _ _ _ (fun p g1 => exists w rest, node_heap g1 !! p = Some (cleared w) /\ g1 = set_nodes (nodes_ g) (num_nodes_ g) rest (set_node_heap (<[p:=cleared w]> (node_heap g)) g)
    /\ NoDup rest /\ (forall x, x ∈ rest -> x ∈ free_nodes_ g /\ x <> p) /\ (forall x, x ∈ free_nodes_ g -> x ∈ rest \/ x = p) /\ ~ is_node g p /\ forall n, node_heap g !! p = Some n -> props_ n = None)).
  { destruct (free_nodes_ g) as [|p rest] eqn:Ef.
    - wp_steps. set (p := fresh (dom (node_heap g))). assert (node_heap g !! p = None) as Hp by (apply not_elem_of_dom, is_fresh). exists None, [].
      split_and!; [cbn; by rewrite lookup_insert_eq|destruct g; cbn in *; by subst|constructor|intros x Hx; by apply elem_of_nil in Hx|intros x Hx; by apply elem_of_nil in Hx| |congruence].
      intros [i Hi]. destruct (n_live g Hn i p Hi) as (n & Hp' & _). congruence.
    - wp_steps. destruct (Ff p ltac:(by left)) as [w Hw]. apply NoDup_cons in Fnd as [Hnp Hr]. exists w, rest.
      split_and!; [done|rewrite insert_id by done; by destruct g|done| |intros x [->|Hx]%elem_of_cons; auto| |intros n Hn'; by simplify_eq].
      + intros x Hx. split; [by right|]. by intros ->.
      + intros [i Hi]. destruct (live_at g i p Hn Hi) as (n & Hl & _). apply (live_not_free g p n i Hn Hl). rewrite Ef. by left. }
  cbn beta. intros p g1 (w & rest & Hp & -> & Hr1 & Hr2 & Hr3 & Hnew & Hold). wp_step. unfold Initialize. wp_step. eapply wp_deref; [exact Hp|]. wp_step. apply wp_CHECK; [done|]. wp_step. apply wp_CHECK; [done|]. wp_step. apply wp_CHECK; [done|]. wp_steps.
  eapply wp_of_option; [exact Hq|]. eapply wp_update_node; [exact Hp|]. wp_steps. rewrite i32_small by lia. set (g' := set_nodes _ _ _ _). cbn [node_heap set_nodes set_node_heap] in *.
  set (n := mkNode (Z.of_nat (length (nodes_ g))) (default (Z.of_nat (length (nodes_ g))) cost) (GetNodeClassForOp (op (node_def v))) EdgeSet.EdgeSet_new EdgeSet.EdgeSet_new (Some q) 0 w).
  assert (node_heap g' = <[p:=n]> (node_heap g)) as Eh by (unfold g', n; cbn; by rewrite insert_insert_eq).
  assert (forall x, x <> p -> node_heap g' !! x = node_heap g !! x) as Hheap by (intros x Hx; rewrite Eh; by apply lookup_insert_ne). assert (node_heap g' !! p = Some n) as Hp' by (rewrite Eh; by rewrite lookup_insert_eq).
  assert (forall x, is_node g x -> x <> p) as Hother by (by intros x Hx ->).
  assert (forall x, is_node g' x <-> is_node g x \/ x = p) as Hnode.
  { intros x. unfold is_node, g'. cbn [nodes_ set_nodes set_node_heap]. split; [intros [i [Hi|[_ ->]]%lookup_snoc_Some]; eauto|]. intros [[i Hi]| ->]; [exists i; apply lookup_snoc_Some; by left|exists (length (nodes_ g)); apply lookup_snoc_Some; by right]. }
  apply HQ; [|by constructor; try done; exists (default (Z.of_nat (length (nodes_ g))) cost), w].
  constructor; [| |by destruct Hd; constructor].
  - constructor.
    + intros i x Hi. unfold g' in Hi. cbn in Hi. apply lookup_snoc_Some in Hi as [Hi|[-> ->]].
      * destruct (n_live g Hn i x Hi) as (m & Hm & Em & Hok). exists m. rewrite Hheap by (apply Hother; by exists i). by split_and!.
      * exists n. split_and!; [done|done|]. split; [exists q, v; by split_and!|]. cbn. pose proof (lookup_lt_Some _ _ _ (d_zero g Hd)). lia.
    + unfold g' at 1 2. cbn [free_nodes_ set_nodes set_node_heap]. split; [done|]. intros x Hx. destruct (Hr2 x Hx) as [Hx1 Hx2]. rewrite Hheap by done. by apply Ff.
    + intros x m Hm. rewrite Hnode. unfold g'. cbn [free_nodes_ set_nodes set_node_heap]. destruct (decide (x = p)) as [->|Hne]; [left; by right|]. rewrite Hheap in Hm by done. destruct (n_all g Hn x m Hm) as [Hx|Hx]; [by left; left|]. destruct (Hr3 x Hx); [by right|done].
    + destruct (n_ends g Hn) as (s & t & Hs & Ht). exists s, t. unfold g'. cbn. rewrite !lookup_app_l by (by eapply lookup_lt_Some). done.
    + unfold g'. cbn. rewrite omap_app, length_app. cbn. rewrite (n_count g Hn). pose proof (omap_le (nodes_ g)). rewrite i64_small by lia. lia.
  - constructor; [| | |apply He|apply He].
    + intros j e Hj. destruct (e_live _ _ _ He j e Hj) as (ed & H1 & H2 & H3 & H4 & H5 & H6 & H7 & H8). exists ed. unfold outs, ins in *. rewrite !Hheap by (by apply Hother). rewrite !Hnode. split_and!; [done|done|by left|by left|done|done|]. split; [done|].
      destruct (n_ends g Hn) as (s & t & Hs & Ht). unfold g'. cbn [nodes_ set_nodes set_node_heap]. rewrite !lookup_app_l by (by eapply lookup_lt_Some). done.
    + intros x Hx _. rewrite Hnode in Hx. unfold ins_ok, ins. destruct (decide (x = p)) as [->|Hne].
      * rewrite Hp'. split; [exists n; split; [done|apply EdgeSet.holds_new]|]. intros e He'. by apply elem_of_nil in He'.
      * rewrite Hheap by done. destruct Hx as [Hx|]; [|done]. by apply He.
    + intros x Hx _. rewrite Hnode in Hx. unfold outs_ok, outs. destruct (decide (x = p)) as [->|Hne].
      * rewrite Hp'. split; [exists n; split; [done|apply EdgeSet.holds_new]|]. intros e He'. by apply elem_of_nil in He'.
      * rewrite Hheap by done. destruct Hx as [Hx|]; [|done]. by apply He.
Qed.

(** ** Devices *)

(** The names are only extended, by one at most. *)
Definition interned (g g' : Graph) : Prop := exists l m, (length l <= 1)%nat /\ g' = set_device_names (device_names_ g ++ l) m g.

Lemma InternDeviceName_run g s (Q : Z -> Graph -> Prop) : graph_ok g -> Z.of_nat (length (device_names_ g)) < 2 ^ 31 ->
  (forall i g', graph_ok g' -> interned g g' -> at_ (device_names_ g') i = Some s -> Q i g') -> InternDeviceName s @ g ⇓ Q.
Proof.
  intros Hg Hb HQ. pose proof Hg as [Hn He [D1 D2 D3]]. unfold InternDeviceName. assert (interned g g) as Hi0 by (exists [], (device_names_map_ g); rewrite app_nil_r; split; [cbn; lia|by destruct g]). case_bool_decide as Hs.
  - wp_steps. subst s. apply HQ; [done|done|]. exact (eq_trans (at_nat _ 0) D1).
  - wp_steps. destruct (device_names_map_ g !! s) as [i|] eqn:Hm; cbn [from_option id].
    + pose proof (proj1 (D2 s i) Hm) as (Hi & Hat & _). rewrite (proj2 (Z.ltb_lt _ _)) by done. wp_steps. apply HQ; [done|done|]. unfold at_. by rewrite (proj2 (Z.leb_le _ _)) by lia.
    + change (default 0 None) with 0. rewrite Z.ltb_irrefl. wp_steps. rewrite insert_insert_eq, map_size_insert_None by done. rewrite i32_small by lia. assert (Z.of_nat (S (size (device_names_map_ g))) = Z.of_nat (length (device_names_ g))) as -> by lia. set (g' := set_device_names _ _ _).
      apply HQ; [|by exists [s], (<[s:=Z.of_nat (length (device_names_ g))]> (device_names_map_ g))|].
      * constructor; [|by destruct He; constructor|].
        -- destruct Hn as [N1 N2 N3 N4 N5]. constructor; try done. intros i p Hi. destruct (N1 i p Hi) as (n & Hp & Eid & Hpr & Hdev). exists n. split_and!; [done|done|]. split; [done|]. cbn [device_names_ set_device_names g']. rewrite length_app. lia.
        -- constructor; cbn [device_names_ device_names_map_ set_device_names g'].
           ++ rewrite lookup_app_l; [done|]. by eapply lookup_lt_Some.
           ++ intros t i. destruct (decide (t = s)) as [->|Hne].
              ** rewrite lookup_insert_eq. split; [intros [= <-]; rewrite Nat2Z.id, lookup_app_r, Nat.sub_diag by lia; split_and!; [|done|done]; lia|]. intros (Hi & Hat & _). f_equal. rewrite lookup_app_Some in Hat. destruct Hat as [Hat|[Hle Hat]].
                 --- rewrite (proj2 (D2 s i)) in Hm; [done|]. by split_and!.
                 --- apply lookup_lt_Some in Hat. cbn in Hat. lia.
              ** rewrite lookup_insert_ne by done. rewrite D2, lookup_app_Some. split; [tauto|]. intros (Hi & [Hat|[Hle Hat]] & Hs'); [by split_and!|]. destruct (Z.to_nat i - length (device_names_ g))%nat; cbn in Hat; simplify_eq.
           ++ rewrite map_size_insert_None by done. rewrite length_app. cbn. lia.
      * unfold at_. rewrite (proj2 (Z.leb_le _ _)) by lia. rewrite Nat2Z.id. unfold g'. cbn. by rewrite lookup_app_r, Nat.sub_diag.
Qed.

(** The device of one node changes. *)
Definition device_step (p : ptr) (s : string) (g g' : Graph) : Prop :=
  exists n i g1, interned g g1 /\ node_heap g !! p = Some n /\ at_ (device_names_ g') i = Some s /\ g' = set_node_heap (<[p:=set_device_index i n]> (node_heap g)) g1.

Lemma set_assigned_device_name_run g p n i s (Q : unit -> Graph -> Prop) : graph_ok g -> live g p n i -> Z.of_nat (length (device_names_ g)) < 2 ^ 31 ->
  (forall g', graph_ok g' -> device_step p s g g' -> Q tt g') -> set_assigned_device_name p s @ g ⇓ Q.
Proof.
  intros Hg Hl Hb HQ. unfold set_assigned_device_name. wp_step. apply InternDeviceName_run; [done|done|]. intros k g1 [Hn1 He1 Hd1] Hi1 Hk. assert (node_heap g1 = node_heap g /\ nodes_ g1 = nodes_ g) as [Eh En] by (destruct Hi1 as (l & m & _ & ->); done).
  assert (live g1 p n i) as Hl1 by (destruct Hl as (H1 & H2 & H3); split_and!; congruence). eapply wp_update_node; [apply Hl1|]. apply HQ; [|exists n, k, g1; rewrite <- Eh; split_and!; [done|apply Hl1|done|done]].
  assert (0 <= k < Z.of_nat (length (device_names_ g1))) as Hkr. { unfold at_ in Hk. destruct (Z.leb_spec 0 k) as [H0|]; [|done]. apply lookup_lt_Some in Hk. lia. }
  set (g' := set_node_heap _ _). assert (forall x, ins g' x = ins g1 x /\ outs g' x = outs g1 x /\ (ins_ok g1 x -> ins_ok g' x) /\ (outs_ok g1 x -> outs_ok g' x)) as Hx.
  { intros x. unfold ins, outs, ins_ok, outs_ok, g'. cbn [node_heap set_node_heap]. destruct (decide (p = x)) as [<-|Hne]; [|by rewrite lookup_insert_ne]. rewrite lookup_insert_eq, (proj1 (proj2 Hl1)).
    split_and!; [done|done|intros (m & Hm & Hok)|intros (m & Hm & Hok)]; simplify_eq; by eexists. }
  constructor; [| |by destruct Hd1; constructor].
  - pose proof (live_not_free g1 p n i Hn1 Hl1) as Hnf. destruct Hn1 as [N1 N2 N3 N4 N5]. constructor; try done.
    + intros j x Hj. destruct (N1 j x Hj) as (m & Hm & Em & Hpr & Hdev). destruct (decide (p = x)) as [<-|Hne].
      * rewrite (proj1 (proj2 Hl1)) in Hm. injection Hm as <-. exists (set_device_index k n). unfold g'. cbn [node_heap set_node_heap]. rewrite lookup_insert_eq. split_and!; [done|done|]. by split.
      * exists m. unfold g'. cbn [node_heap set_node_heap]. rewrite lookup_insert_ne by done. by split_and!.
    + split; [apply N2|]. intros x Hf. destruct (proj2 N2 x Hf) as [w Hw]. exists w. unfold g'. cbn [node_heap set_node_heap]. rewrite lookup_insert_ne; [done|]. intros <-. done.
    + intros x m Hm. destruct (decide (p = x)) as [<-|Hne]; [left; exists i; apply Hl1|]. unfold g' in Hm. cbn [node_heap set_node_heap] in Hm. rewrite lookup_insert_ne in Hm by done. by apply (N3 x m).
  - destruct He1 as [E1 E2 E3 E4 E5]. constructor; [| | |done|done].
    + intros j e Hj. destruct (E1 j e Hj) as (ed & H1 & H2 & H3 & H4 & H5 & H6 & H7). exists ed. destruct (Hx (src_ ed)) as (_ & -> & _). destruct (Hx (dst_ ed)) as (-> & _). by split_and!.
    + intros x Hn Hh. destruct (E2 x Hn Hh) as [Hok He']. destruct (Hx x) as (-> & _ & Hi & _). split; [by apply Hi|done].
    + intros x Hn Hh. destruct (E3 x Hn Hh) as [Hok He']. destruct (Hx x) as (_ & -> & _ & Hi). split; [by apply Hi|done].
Qed.
