(* ===== verification/GraphContract.v ===== *)
(** * Graphs of operations: the contract

    A graph as a client sees it: numbered nodes with properties and a device, and numbered
    edges between outputs and inputs.  What each call does to it. *)

From S2P Require Import Prelude EdgeSet Graph GraphInvariant GraphEdges GraphProps.
Import Graph.

#[local] Open Scope runtime_scope.

Abbreviation nview := (NodeProperties * string)%type.
Abbreviation eview := (nat * Z * nat * Z)%type.

Record MultiGraph := mkMulti { mnodes : gmap nat nview; medges : gmap nat eview; next_node : nat; next_edge : nat }.

(** ** The abstract operations *)

Definition set_mnodes (h : gmap nat nview) (m : MultiGraph) : MultiGraph := mkMulti h (medges m) (next_node m) (next_edge m).
Definition add_node (w : nview) (m : MultiGraph) : MultiGraph := mkMulti (<[next_node m:=w]> (mnodes m)) (medges m) (S (next_node m)) (next_edge m).
Definition add_edge (w : eview) (m : MultiGraph) : MultiGraph := mkMulti (mnodes m) (<[next_edge m:=w]> (medges m)) (next_node m) (S (next_edge m)).
Definition remove_edge (k : nat) (m : MultiGraph) : MultiGraph := mkMulti (mnodes m) (delete k (medges m)) (next_node m) (next_edge m).
Definition touches (i : nat) (w : eview) : Prop := w.1.1.1 = i \/ w.1.2 = i.
Definition remove_node (i : nat) (m : MultiGraph) : MultiGraph :=
  mkMulti (delete i (mnodes m)) (filter (fun kw => ~ touches i kw.2) (medges m)) (next_node m) (next_edge m).
Definition alter_props (i : nat) (f : NodeProperties -> NodeProperties) (m : MultiGraph) : MultiGraph := set_mnodes (alter (fun w => (f w.1, w.2)) i (mnodes m)) m.
Definition alter_device (i : nat) (s : string) (m : MultiGraph) : MultiGraph := set_mnodes (alter (fun w => (w.1, s)) i (mnodes m)) m.

(** Control edges are so at both ends; nothing but control goes from the source or to the sink. *)
Definition slots_allowed (w : eview) : Prop :=
  (w.1.1.2 = kControlSlot <-> w.2 = kControlSlot) /\ (w.1.1.1 = 0%nat \/ w.1.2 = 1%nat -> w.1.1.2 = kControlSlot).

(** ** The graph as a client sees it *)

Definition node_view (g : Graph) (i : nat) : option nview :=
  match nodes_ g !! i with
  | Some (Some p) => v ← node_props g p; n ← node_heap g !! p; s ← at_ (device_names_ g) (assigned_device_name_index_ n); Some (v, s)
  | _ => None
  end.

Definition edge_view (g : Graph) (j : nat) : option eview :=
  match edges_ g !! j with
  | Some (Some e) => ed ← edge_heap g !! e; ns ← node_heap g !! src_ ed; nt ← node_heap g !! dst_ ed; Some (Z.to_nat (id_ ns), src_output_ ed, Z.to_nat (id_ nt), dst_input_ ed)
  | _ => None
  end.

Record represents (N : Z) (g : Graph) (m : MultiGraph) : Prop := {
  r_ok : graph_ok g;
  r_nodes : forall i, mnodes m !! i = node_view g i;
  r_edges : forall j, medges m !! j = edge_view g j;
  r_next_node : next_node m = length (nodes_ g);
  r_next_edge : next_edge m = length (edges_ g);
  r_bound : Z.of_nat (length (nodes_ g)) <= N /\ Z.of_nat (length (edges_ g)) <= N /\ Z.of_nat (length (device_names_ g)) <= N
}.

Lemma node_view_at g p n i : graph_ok g -> live g p n i -> exists v s, node_view g i = Some (v, s) /\ node_props g p = Some v /\ at_ (device_names_ g) (assigned_device_name_index_ n) = Some s.
Proof.
  intros Hg Hl. destruct (live_props g p n i Hg Hl) as (q & v & _ & _ & Hv). destruct (live_ok g p n i (g_nodes _ _ _ Hg) Hl) as [_ Hd]. destruct Hl as (Hi & Hp & _).
  destruct (lookup_lt_is_Some_2 (device_names_ g) (Z.to_nat (assigned_device_name_index_ n))) as [s Hs]; [lia|]. assert (at_ (device_names_ g) (assigned_device_name_index_ n) = Some s) as Ha by (unfold at_; by rewrite (proj2 (Z.leb_le _ _)) by lia).
  exists v, s. split_and!; [|done|done]. unfold node_view. rewrite Hi, Hv. cbn. rewrite Hp. cbn. by rewrite Ha.
Qed.

Lemma node_view_live g i w : graph_ok g -> node_view g i = Some w -> exists p n, live g p n i /\ node_props g p = Some w.1 /\ at_ (device_names_ g) (assigned_device_name_index_ n) = Some w.2.
Proof.
  intros Hg Hw. unfold node_view in Hw. destruct (nodes_ g !! i) as [[p|]|] eqn:Hi; [|done..]. destruct (live_at g i p (g_nodes _ _ _ Hg) Hi) as (n & Hl & _). exists p, n. pose proof (proj1 (proj2 Hl)) as Hp.
  destruct (node_props g p) as [v|]; [|done]. cbn in Hw. rewrite Hp in Hw. cbn in Hw. destruct (at_ (device_names_ g) _) as [s|] eqn:Hs; [|done]. cbn in Hw. injection Hw as <-. done.
Qed.

Lemma edge_view_at g j e : graph_ok g -> edges_ g !! j = Some (Some e) -> exists ed ns i1 nt i2, edge_heap g !! e = Some ed /\ edge_id_ ed = Z.of_nat j /\ live g (src_ ed) ns i1 /\ live g (dst_ ed) nt i2
  /\ edge_view g j = Some (i1, src_output_ ed, i2, dst_input_ ed).
Proof.
  intros Hg Hj. destruct (e_live _ _ _ (g_edges _ _ _ Hg) j e Hj) as (ed & Hed & Eid & [i1 H1] & [i2 H2] & _). destruct (live_at g i1 _ (g_nodes _ _ _ Hg) H1) as (ns & L1 & _). destruct (live_at g i2 _ (g_nodes _ _ _ Hg) H2) as (nt & L2 & _).
  exists ed, ns, i1, nt, i2. split_and!; [done|done|done|done|]. unfold edge_view. rewrite Hj, Hed. cbn. destruct L1 as (_ & -> & E1), L2 as (_ & -> & E2). cbn. by rewrite E1, E2, !Nat2Z.id.
Qed.

Lemma edge_view_live g j w : graph_ok g -> edge_view g j = Some w -> exists e ed ns i1 nt i2, edges_ g !! j = Some (Some e) /\ edge_heap g !! e = Some ed /\ live g (src_ ed) ns i1 /\ live g (dst_ ed) nt i2
  /\ w = (i1, src_output_ ed, i2, dst_input_ ed).
Proof.
  intros Hg Hw. unfold edge_view in Hw. destruct (edges_ g !! j) as [[e|]|] eqn:Hj; [|done..]. destruct (edge_view_at g j e Hg Hj) as (ed & ns & i1 & nt & i2 & Hed & _ & L1 & L2 & Ev). exists e, ed, ns, i1, nt, i2. split_and!; [done|done|done|done|].
  unfold edge_view in Ev. rewrite Hj in Ev. congruence.
Qed.

(** ** What the steps change of the view *)

Lemma view_edges_only g g' i : edges_only g g' -> node_view g' i = node_view g i.
Proof.
  intros Ho. unfold node_view. rewrite (o_nodes _ _ Ho). destruct (nodes_ g !! i) as [[p|]|]; [|done..]. unfold node_props. pose proof (o_heap _ _ Ho p) as Hh. destruct (node_heap g !! p) as [n|]; [|by rewrite Hh].
  destruct Hh as (n' & -> & (_ & _ & _ & C4 & C5 & _) & _). cbn. by rewrite C4, C5, (o_props _ _ Ho), (o_names _ _ Ho).
Qed.

(** An edge whose ends keep their ids. *)
Lemma view_edge_same g g' j : graph_ok g -> edges_ g' !! j = edges_ g !! j -> (forall e, edges_ g !! j = Some (Some e) -> edge_heap g' !! e = edge_heap g !! e) ->
  (forall e ed, edges_ g !! j = Some (Some e) -> edge_heap g !! e = Some ed -> forall p n, p = src_ ed \/ p = dst_ ed -> node_heap g !! p = Some n -> exists n', node_heap g' !! p = Some n' /\ id_ n' = id_ n) -> edge_view g' j = edge_view g j.
Proof.
  intros Hg Hj Hh Hids. destruct (edges_ g !! j) as [[e|]|] eqn:Ej; [|unfold edge_view; by rewrite Hj, Ej..]. destruct (edge_view_at g j e Hg Ej) as (ed & ns & i1 & nt & i2 & Hed & _ & (_ & H1 & E1) & (_ & H2 & E2) & ->).
  unfold edge_view. rewrite Hj, (Hh e eq_refl), Hed. cbn. destruct (Hids e ed eq_refl Hed (src_ ed) ns ltac:(by left) H1) as (ns' & -> & Ens). cbn. destruct (Hids e ed eq_refl Hed (dst_ ed) nt ltac:(by right) H2) as (nt' & -> & Ent). cbn.
  by rewrite Ens, Ent, E1, E2, !Nat2Z.id.
Qed.

Lemma edges_only_ids g g' p n : edges_only g g' -> node_heap g !! p = Some n -> exists n', node_heap g' !! p = Some n' /\ id_ n' = id_ n.
Proof. intros Ho Hp. pose proof (o_heap _ _ Ho p) as Hh. rewrite Hp in Hh. destruct Hh as (n' & ? & (? & _) & _). eauto. Qed.

Lemma props_only_ids g g' p n : props_only g g' -> node_heap g !! p = Some n -> exists n', node_heap g' !! p = Some n' /\ id_ n' = id_ n.
Proof. intros Ho Hp. pose proof (po_heap _ _ Ho p) as Hh. rewrite Hp in Hh. destruct Hh as (o & ? & _). by eexists. Qed.

Lemma adds_represents N g g' m e s t x y ns i nt j : represents N g m -> live g s ns i -> live g t nt j -> adds e (mkEdge s t (Z.of_nat (length (edges_ g))) x y) g g' -> graph_ok g' -> represents (N + 1) g' (add_edge (i, x, j, y) m).
Proof.
  intros [Rg Rn Re Rnn Rne (B1 & B2 & B3)] Ls Lt (Ho & Et & Eh & Hnew) Hg'. constructor; [done| | | | |]; cbn [mnodes medges next_node next_edge add_edge].
  - intros k. rewrite Rn. symmetry. by apply view_edges_only.
  - intros k. destruct (decide (k = next_edge m)) as [->|Hne].
    + rewrite lookup_insert_eq, Rne. assert (edges_ g' !! length (edges_ g) = Some (Some e)) as Hk by (rewrite Et, lookup_app_r, Nat.sub_diag by lia; done).
      destruct (edge_view_at g' _ e Hg' Hk) as (ed & ns' & i1 & nt' & i2 & Hed & _ & L1 & L2 & ->). rewrite Eh, lookup_insert_eq in Hed. injection Hed as <-. cbn [src_ dst_ src_output_ dst_input_] in *.
      destruct (edges_only_live _ _ _ _ _ Ho Ls) as (ns2 & Ls2 & _). destruct (edges_only_live _ _ _ _ _ Ho Lt) as (nt2 & Lt2 & _). destruct (live_fun _ _ _ _ _ _ _ L1 Ls2) as (_ & _ & ->); [by left|]. destruct (live_fun _ _ _ _ _ _ _ L2 Lt2) as (_ & _ & ->); [by left|]. done.
    + rewrite lookup_insert_ne by done. rewrite Re. symmetry. apply view_edge_same; [done| | |by intros; eapply edges_only_ids].
      * rewrite Et. destruct (decide (k < length (edges_ g))%nat); [by rewrite lookup_app_l|]. rewrite lookup_app_r, (lookup_ge_None_2 (edges_ g)) by lia. rewrite Rne in Hne. destruct (k - length (edges_ g))%nat eqn:E; [lia|done].
      * intros e' He'. rewrite Eh. apply lookup_insert_ne. intros ->. by eapply Hnew.
  - by rewrite (o_nodes _ _ Ho).
  - rewrite Et, length_app. cbn. lia.
  - rewrite (o_nodes _ _ Ho), (o_names _ _ Ho), Et, length_app. cbn. lia.
Qed.

Lemma drops_represents N g g' m k e : represents N g m -> edges_ g !! k = Some (Some e) -> drops k e g g' -> graph_ok g' -> represents N g' (remove_edge k m).
Proof.
  intros [Rg Rn Re Rnn Rne (B1 & B2 & B3)] Hk (Ho & Et & Eh) Hg'. constructor; [done| | | | |]; cbn [mnodes medges next_node next_edge remove_edge].
  - intros i. rewrite Rn. symmetry. by apply view_edges_only.
  - intros j. destruct (decide (j = k)) as [->|Hne].
    + rewrite lookup_delete_eq. unfold edge_view. rewrite Et, list_lookup_insert_eq; [done|]. by eapply lookup_lt_Some.
    + rewrite lookup_delete_ne by done. rewrite Re. symmetry. apply view_edge_same; [done|by rewrite Et, list_lookup_insert_ne|by intros; rewrite Eh|by intros; eapply edges_only_ids].
  - by rewrite (o_nodes _ _ Ho).
  - by rewrite Et, length_insert.
  - rewrite (o_nodes _ _ Ho), (o_names _ _ Ho), Et, length_insert. lia.
Qed.

Lemma props_represents N g g' m p n i f : represents N g m -> live g p n i -> props_step p f g g' -> graph_ok g' -> represents N g' (alter_props i f m).
Proof.
  intros [Rg Rn Re Rnn Rne HB] Hl (Ho & Hp & _) Hg'. constructor; [done| | | | |]; cbn [mnodes medges next_node next_edge alter_props set_mnodes].
  - intros k. unfold node_view. rewrite (po_nodes _ _ Ho). destruct (decide (k = i)) as [->|Hne].
    + rewrite lookup_alter_eq, Rn. unfold node_view. rewrite (proj1 Hl), Hp, decide_True by done. destruct (node_props g p) as [v|]; [|done]. cbn. pose proof (po_heap _ _ Ho p) as Hh. rewrite (proj1 (proj2 Hl)) in *. destruct Hh as (o & -> & _). cbn.
      rewrite (po_names _ _ Ho). by destruct (at_ _ _).
    + rewrite lookup_alter_ne by done. rewrite Rn. unfold node_view. destruct (nodes_ g !! k) as [[p'|]|] eqn:Hk; [|done..]. rewrite Hp, decide_False.
      * destruct (node_props g p') as [v|]; [|done]. cbn. pose proof (po_heap _ _ Ho p') as Hh. destruct (node_heap g !! p') as [n'|]; [|by rewrite Hh]. destruct Hh as (o & -> & _). cbn. by rewrite (po_names _ _ Ho).
      * intros ->. destruct (live_at g k p (g_nodes _ _ _ Rg) Hk) as (n' & Hl' & _). destruct (live_fun _ _ _ _ _ _ _ Hl Hl') as (_ & _ & ?); [by left|done].
  - intros j. rewrite Re. symmetry. apply view_edge_same; [done|by rewrite (po_edges _ _ Ho)|by intros; rewrite (po_eheap _ _ Ho)|by intros; eapply props_only_ids].
  - by rewrite (po_nodes _ _ Ho).
  - by rewrite (po_edges _ _ Ho).
  - by rewrite (po_nodes _ _ Ho), (po_edges _ _ Ho), (po_names _ _ Ho).
Qed.

Lemma device_represents N g g' m p n i s : represents N g m -> live g p n i -> device_step p s g g' -> graph_ok g' -> represents (N + 1) g' (alter_device i s m).
Proof.
  intros [Rg Rn Re Rnn Rne (B1 & B2 & B3)] Hl (n0 & k & g1 & (l & mp & Hlen & ->) & Hp & Hs & Eg) Hg'. rewrite (proj1 (proj2 Hl)) in Hp. injection Hp as <-. constructor; [done| | | | |]; cbn [mnodes medges next_node next_edge alter_device set_mnodes].
  - intros j. unfold node_view. rewrite Eg in Hs |- *. cbn [nodes_ device_names_ set_node_heap set_device_names node_heap] in *. destruct (decide (j = i)) as [->|Hne].
    + rewrite lookup_alter_eq, Rn. unfold node_view. rewrite (proj1 Hl). unfold node_props. cbn [node_heap props_heap set_node_heap set_device_names]. rewrite lookup_insert_eq, (proj1 (proj2 Hl)). cbn. destruct (props_ n) as [q|]; [|done]. cbn. destruct (props_heap g !! q) as [v|]; [|done]. cbn. rewrite Hs.
      destruct (live_ok g p n i (g_nodes _ _ _ Rg) Hl) as [_ Hd]. unfold at_. rewrite (proj2 (Z.leb_le _ _)) by lia. destruct (lookup_lt_is_Some_2 (device_names_ g) (Z.to_nat (assigned_device_name_index_ n))) as [s' ->]; [lia|]. done.
    + rewrite lookup_alter_ne by done. rewrite Rn. unfold node_view. destruct (nodes_ g !! j) as [[p'|]|] eqn:Hj; [|done..]. destruct (live_at g j p' (g_nodes _ _ _ Rg) Hj) as (n' & Hl' & _). assert (p' <> p) as Hpp by (intros ->; destruct (live_fun _ _ _ _ _ _ _ Hl Hl') as (_ & _ & ?); [by left|done]).
      unfold node_props. cbn [node_heap props_heap set_node_heap set_device_names]. rewrite lookup_insert_ne, (proj1 (proj2 Hl')) by done. cbn. destruct (props_ n') as [q|]; [|done]. cbn. destruct (props_heap g !! q) as [v|]; [|done]. cbn.
      destruct (live_ok g p' n' j (g_nodes _ _ _ Rg) Hl') as [_ Hd]. unfold at_. rewrite (proj2 (Z.leb_le _ _)) by lia. rewrite lookup_app_l by lia. done.
  - intros j. rewrite Re. symmetry. apply view_edge_same; [done|by rewrite Eg|by intros; rewrite Eg|]. intros e ed _ _ p' n' _ Hn'. rewrite Eg. cbn [node_heap set_node_heap]. destruct (decide (p' = p)) as [->|Hne]; [rewrite lookup_insert_eq|rewrite lookup_insert_ne by done; by exists n'].
    rewrite (proj1 (proj2 Hl)) in Hn'. injection Hn' as <-. by eexists.
  - by rewrite Eg.
  - by rewrite Eg.
  - rewrite Eg in *. cbn [nodes_ edges_ device_names_ set_node_heap set_device_names] in *. rewrite length_app. lia.
Qed.

Lemma allocated_represents N g g' m q v p : represents N g m -> props_heap g !! q = Some v -> allocated q v p g g' -> graph_ok g' -> represents (N + 1) g' (add_node (v, ""%string) m).
Proof.
  intros [Rg Rn Re Rnn Rne (B1 & B2 & B3)] Hq [A1 A2 (cost & w & A3) A4 A5 A6 A7 A8 A9] Hg'. assert (forall x, is_node g x -> x <> p) as Hother by (by intros x Hx ->). constructor; [done| | | | |]; cbn [mnodes medges next_node next_edge add_node].
  - intros j. unfold node_view, node_props. rewrite A1, A3, A7, A9. destruct (decide (j = next_node m)) as [->|Hne].
    + rewrite lookup_insert_eq, Rnn, lookup_app_r, Nat.sub_diag by lia. cbn. rewrite lookup_insert_eq. cbn. rewrite Hq. cbn. change (Z.to_nat 0) with 0%nat. rewrite (d_zero g (g_devices _ _ _ Rg)). done.
    + rewrite lookup_insert_ne by done. rewrite Rn. unfold node_view, node_props. destruct (decide (j < length (nodes_ g))%nat) as [Hlt|Hge].
      * rewrite lookup_app_l by done. destruct (nodes_ g !! j) as [[x|]|] eqn:Hj; [|done..]. rewrite lookup_insert_ne; [done|]. intros ->. apply A2. by exists j.
      * rewrite lookup_app_r, (lookup_ge_None_2 (nodes_ g)) by lia. rewrite Rnn in Hne. destruct (j - length (nodes_ g))%nat eqn:E; [lia|done].
  - intros j. rewrite Re. symmetry. apply view_edge_same; [done|by rewrite A5|by intros; rewrite A6|]. intros e ed Hj Hed x n' Hx Hn'. rewrite A3. destruct (e_live _ _ _ (g_edges _ _ _ Rg) j e Hj) as (ed' & Hed' & _ & Hs & Ht & _). simplify_eq.
    rewrite lookup_insert_ne; [by exists n'|]. intros <-. destruct Hx as [->| ->]; by apply A2.
  - rewrite A1, length_app. cbn. lia.
  - by rewrite A5.
  - rewrite A1, A5, A9, length_app. cbn. lia.
Qed.

Lemma released_represents N g g' m p n i : represents N g m -> live g p n i -> released i p g g' -> length (edges_ g') = length (edges_ g) ->
  (forall j e, edges_ g' !! j = Some (Some e) <-> exists ed, is_edge g j e ed /\ src_ ed <> p /\ dst_ ed <> p) -> graph_ok g' -> represents N g' (remove_node i m).
Proof.
  intros [Rg Rn Re Rnn Rne (B1 & B2 & B3)] Hl (R1 & R2 & R3 & R4 & R5 & R6 & R7 & R8) El Hedges Hg'. constructor; [done| | | | |]; cbn [mnodes medges next_node next_edge remove_node].
  - intros j. destruct (decide (j = i)) as [->|Hne].
    + rewrite lookup_delete_eq. unfold node_view. rewrite R1, list_lookup_insert_eq; [done|]. eapply lookup_lt_Some, Hl.
    + rewrite lookup_delete_ne by done. rewrite Rn. unfold node_view. rewrite R1, list_lookup_insert_ne by done. destruct (nodes_ g !! j) as [[x|]|] eqn:Hj; [|done..]. assert (x <> p) as Hx.
      { intros ->. destruct (live_at g j p (g_nodes _ _ _ Rg) Hj) as (n' & Hl' & _). destruct (live_fun _ _ _ _ _ _ _ Hl Hl') as (_ & _ & ?); [by left|done]. }
      unfold node_props. specialize (R7 x Hx). destruct (node_heap g !! x) as [n'|]; [|by rewrite R7]. destruct R7 as (n'' & -> & (_ & _ & _ & C4 & C5 & _)). cbn. by rewrite C4, C5, R2, R4.
  - intros j. destruct (edges_ g !! j) as [[e|]|] eqn:Ej.
    + destruct (edge_view_at g j e Rg Ej) as (ed & ns & i1 & nt & i2 & Hed & _ & L1 & L2 & Ev). specialize (Re j). rewrite Ev in Re.
      assert (forall x nx k, live g x nx k -> (k = i <-> x = p)) as Hip. { intros x nx k Hx. split; intros ->; [by destruct (live_fun _ _ _ _ _ _ _ Hx Hl) as (? & _); [by right|]|by destruct (live_fun _ _ _ _ _ _ _ Hx Hl) as (_ & _ & ?); [by left|]]. }
      destruct (decide (src_ ed = p \/ dst_ ed = p)) as [Ht|Ht].
      * rewrite (proj2 (map_lookup_filter_None _ _ _)) by (right; intros w Hw; simplify_eq; unfold touches; cbn; rewrite (Hip _ _ _ L1), (Hip _ _ _ L2); tauto). unfold edge_view. destruct (edges_ g' !! j) as [[e'|]|] eqn:Ej'; [|done..]. apply Hedges in Ej' as (ed' & [Hj' Hed'] & N1 & N2). simplify_eq. tauto.
      * assert (edges_ g' !! j = Some (Some e)) as Ej' by (apply Hedges; exists ed; split; [by split|tauto]). rewrite (proj2 (map_lookup_filter_Some _ _ _ (i1, src_output_ ed, i2, dst_input_ ed))) by (split; [done|]; unfold touches; cbn; rewrite (Hip _ _ _ L1), (Hip _ _ _ L2); tauto). rewrite <- Ev. symmetry.
        apply view_edge_same; [done|congruence|by intros; rewrite R8|]. intros e1 ed1 He1 Hed1 x nx Hx Hnx. simplify_eq. assert (x <> p) as Hxp by (destruct Hx as [->| ->]; tauto). specialize (R7 x Hxp). rewrite Hnx in R7. destruct R7 as (n' & ? & (? & _)). eauto.
    + rewrite map_lookup_filter, Re. unfold edge_view. rewrite Ej. cbn. destruct (edges_ g' !! j) as [[e|]|] eqn:Ej'; [|done..]. apply Hedges in Ej' as (ed & [Hj _] & _). congruence.
    + rewrite map_lookup_filter, Re. unfold edge_view. rewrite Ej. cbn. destruct (edges_ g' !! j) as [[e|]|] eqn:Ej'; [|done..]. apply Hedges in Ej' as (ed & [Hj _] & _). congruence.
  - by rewrite R1, length_insert.
  - congruence.
  - rewrite R1, R4, length_insert, El. done.
Qed.

(** ** The calls and what they promise

    The calls of a client, by the ids of nodes and edges, what each promises of the abstract
    graph, and that the code keeps the promise. *)

(** ** Between the two levels *)

(** Properties that other graphs share are not changed. *)
Definition keeps (g g' : Graph) : Prop := forall q, q ∈ foreign g -> q ∈ foreign g' /\ props_heap g' !! q = props_heap g !! q.
(** The nodes keep their ids. *)
Definition stays (g g' : Graph) : Prop := forall p n i, live g p n i -> exists n', live g' p n' i.

(** The edges are the same objects. *)
Definition same_edges (g g' : Graph) : Prop := edges_ g' = edges_ g /\ edge_heap g' = edge_heap g.

Lemma keeps_refl g : keeps g g.
Proof. by intros q Hq. Qed.
Lemma keeps_trans g1 g2 g3 : keeps g1 g2 -> keeps g2 g3 -> keeps g1 g3.
Proof. intros H1 H2 q Hq. destruct (H1 q Hq) as [H3 E3]. destruct (H2 q H3) as [H4 E4]. by rewrite E4. Qed.
Lemma stays_refl g : stays g g.
Proof. intros p n i Hl. by exists n. Qed.
Lemma stays_trans g1 g2 g3 : stays g1 g2 -> stays g2 g3 -> stays g1 g3.
Proof. intros H1 H2 p n i Hl. destruct (H1 p n i Hl) as [n' Hl']. by apply (H2 p n'). Qed.

Create HintDb graph.
#[export] Hint Resolve keeps_refl stays_refl : graph.
#[export] Hint Resolve keeps_trans stays_trans : graph.

Lemma edges_only_keeps g g' : edges_only g g' -> keeps g g' /\ stays g g'.
Proof.
  intros Ho. split; [intros q Hq; by rewrite (o_foreign _ _ Ho), (o_props _ _ Ho)|]. intros p n i Hl. destruct (edges_only_live _ _ _ _ _ Ho Hl) as (n' & Hl' & _). by exists n'.
Qed.

Lemma props_step_keeps p f g g' : props_step p f g g' -> keeps g g' /\ stays g g' /\ same_edges g g'.
Proof.
  intros (Ho & _ & Hf). split_and!; [intros q Hq; by rewrite (po_foreign _ _ Ho), Hf| |split; apply Ho]. intros p' n i Hl. destruct (props_only_live _ _ _ _ _ Ho Hl) as [o Hl']. by eexists.
Qed.

Section represented.
Context {N : Z} {g : Graph} {m : MultiGraph} (R : represents N g m).

Lemma rep_node i w : mnodes m !! i = Some w -> exists p n, live g p n i /\ node_props g p = Some w.1 /\ at_ (device_names_ g) (assigned_device_name_index_ n) = Some w.2.
Proof using R. intros Hi. rewrite (r_nodes _ _ _ R) in Hi. by apply node_view_live; [apply R|]. Qed.

Lemma rep_live p n i : live g p n i -> exists w, mnodes m !! i = Some w /\ node_props g p = Some w.1 /\ at_ (device_names_ g) (assigned_device_name_index_ n) = Some w.2.
Proof using R. intros Hl. destruct (node_view_at g p n i (r_ok _ _ _ R) Hl) as (v & s & Hv & ? & ?). exists (v, s). by rewrite (r_nodes _ _ _ R). Qed.

Lemma rep_edge k w : medges m !! k = Some w -> exists e ed ns nt, is_edge g k e ed /\ live g (src_ ed) ns w.1.1.1 /\ live g (dst_ ed) nt w.1.2 /\ src_output_ ed = w.1.1.2 /\ dst_input_ ed = w.2.
Proof using R.
  intros Hk. rewrite (r_edges _ _ _ R) in Hk. destruct (edge_view_live g k w (r_ok _ _ _ R) Hk) as (e & ed & ns & i1 & nt & i2 & H1 & H2 & L1 & L2 & ->). by exists e, ed, ns, nt.
Qed.

Lemma rep_is_edge k e ed ns i nt j : is_edge g k e ed -> live g (src_ ed) ns i -> live g (dst_ ed) nt j -> medges m !! k = Some (i, src_output_ ed, j, dst_input_ ed).
Proof using R.
  intros [Hk Hed] Ls Lt. rewrite (r_edges _ _ _ R). destruct (edge_view_at g k e (r_ok _ _ _ R) Hk) as (ed' & ns' & i' & nt' & j' & Hed' & _ & Ls' & Lt' & ->). simplify_eq.
  destruct (live_fun _ _ _ _ _ _ _ Ls Ls') as (_ & _ & ->); [by left|]. by destruct (live_fun _ _ _ _ _ _ _ Lt Lt') as (_ & _ & ->); [by left|].
Qed.

Lemma rep_id p n i k : live g p n i -> nodes_ g !! k = Some (Some p) <-> i = k.
Proof using R.
  intros Hl. split; [|intros <-; apply Hl]. intros Hk. destruct (live_at g k p (g_nodes _ _ _ (r_ok _ _ _ R)) Hk) as (n' & Hl' & _). by destruct (live_fun _ _ _ _ _ _ _ Hl Hl') as (_ & _ & ->); [by left|].
Qed.

Lemma rep_slots s ns i x t nt j y k : live g s ns i -> live g t nt j -> slots_allowed (i, x, j, y) <-> slots_ok g (mkEdge s t k x y).
Proof using R. intros Ls Lt. unfold slots_allowed, slots_ok. cbn. by rewrite (rep_id s ns i 0 Ls), (rep_id t nt j 1 Lt). Qed.

Lemma rep_node_bound i w : mnodes m !! i = Some w -> (i < next_node m)%nat.
Proof using R. intros Hi. destruct (rep_node i w Hi) as (p & n & Hl & _). rewrite (r_next_node _ _ _ R). eapply lookup_lt_Some, Hl. Qed.

Lemma rep_weaken N' : N <= N' -> represents N' g m.
Proof using R. intros HN. destruct R as [? ? ? ? ? (? & ? & ?)]. constructor; try done. lia. Qed.
End represented.

(** ** The calls *)

Inductive call :=
| CAddNode (d : NodeDef)
| CCopyNode (i : nat)
| CCopyFrom (v : NodeProperties) (id cost_id : Z) (device_name : string)
| CShare (i : nat)
| CRemoveNode (i : nat)
| CAddEdge (i : nat) (x : Z) (j : nat) (y : Z)
| CAddControlEdge (i j : nat) (allow_duplicates : bool)
| CRemoveEdge (k : nat)
| CRemoveControlEdge (k : nat)
| CUpdateEdge (i : nat) (x : Z) (j : nat) (y : Z)
| CSetName (i : nat) (s : string)
| CSetRequestedDevice (i : nat) (s : string)
| CSetOriginalNodeNames (i : nat) (l : list string)
| CClearAttr (i : nat) (k : string)
| CAddAttr (i : nat) (k : string) (val : list Z)
| CAssignDevice (i : nat) (s : string)
| CInEdges (i : nat)
| COutEdges (i : nat)
| CInputEdge (i : nat) (x : Z)
| CInputEdges (i : nat)
| CAddWhileInputHack (i : nat) (x : Z) (j : nat)
| CToGraphDef
| CNumNodes
| CNumEdges.

Inductive reply :=
| RUnit
| RNode (st : Status) (i : option nat)
| REdge (r : result (option nat))
| RStatus (st : Status)
| REdges (l : list nat)
| RInputs (r : result (list nat))
| RDefs (l : list NodeDef)
| RCount (k : Z).

(** What a call needs: it names nodes and edges of the graph, and it satisfies what the code checks. *)
Definition has_node (m : MultiGraph) (i : nat) : Prop := is_Some (mnodes m !! i).
Definition enters (m : MultiGraph) (j : nat) (y : Z) (k : nat) : Prop := exists i x, medges m !! k = Some (i, x, j, y).
Definition control (m : MultiGraph) (i j k : nat) : Prop := medges m !! k = Some (i, kControlSlot, j, kControlSlot).

(** Edges that carry data into a node, and how many. *)
Definition data_into (j : nat) (w : eview) : Prop := w.1.2 = j /\ w.1.1.2 <> kControlSlot.
#[export] Instance data_into_dec j w : Decision (data_into j w).
Proof. unfold data_into. apply _. Defined.
Definition data_count (m : MultiGraph) (j : nat) : nat := size (filter (fun kw => data_into j kw.2) (medges m)).

(** Each edge of data enters an input of the node, and no two the same one. *)
Definition inputs_fit (m : MultiGraph) (i : nat) : Prop :=
  forall w k e, mnodes m !! i = Some w -> medges m !! k = Some e -> data_into i e ->
    0 <= e.2 < Z.of_nat (length (input_types w.1)) /\ forall k' e', medges m !! k' = Some e' -> data_into i e' -> e'.2 = e.2 -> k' = k.

(** ** The exported nodes *)

Definition is_op (m : MultiGraph) (i : nat) : Prop := (2 <= i)%nat /\ has_node m i.

Definition input_text (s : string) (x : Z) : string := if x =? kControlSlot then "^" +:+ s else if x =? 0 then s else tensor_name s x.

(** The text of an input from an output of a node; the source and the sink have none. *)
Definition source_text (m : MultiGraph) (j : nat) (x : Z) : list string :=
  if (j <? 2)%nat then [] else match mnodes m !! j with Some w => [input_text (name (node_def w.1)) x] | None => [] end.

(** The name of the node at the start of an edge. *)
Definition start_name (m : MultiGraph) (k : nat) : option string := e ← medges m !! k; w ← mnodes m !! e.1.1.1; Some (name (node_def w.1)).
Definition start_le (m : MultiGraph) (k k' : nat) : Prop := forall s s', start_name m k = Some s -> start_name m k' = Some s' -> String.leb s s' = true.
Definition start_text (m : MultiGraph) (k : nat) : list string := match medges m !! k with Some e => source_text m e.1.1.1 e.1.1.2 | None => [] end.

(** The inputs of a node are the data inputs by slot, with what was requested in the slots without
    an edge, and then the control inputs by name; the device is the assigned one, if any. *)
Definition exported (m : MultiGraph) (i : nat) (d : NodeDef) : Prop :=
  exists w datas controls, mnodes m !! i = Some w
  /\ d = mkNodeDef (name (node_def w.1)) (op (node_def w.1)) (concat datas ++ concat (map (start_text m) controls))
           (if decide (w.2 = ""%string) then device (node_def w.1) else w.2) (attr (node_def w.1)) (original_node_names (node_def w.1))
  /\ length datas = length (input_types w.1)
  /\ (forall s t, datas !! s = Some t ->
        (exists k j x, medges m !! k = Some (j, x, i, Z.of_nat s) /\ t = source_text m j x)
        \/ (forall k, ~ enters m i (Z.of_nat s) k) /\ t = [default ""%string (input (node_def w.1) !! s)])
  /\ NoDup controls /\ (forall k, k ∈ controls <-> exists j, control m j i k) /\ Sorted (start_le m) controls.

Section spec.
Context (LookUpOpDef : string -> result nat) (InOutTypesForNode : NodeDef -> nat -> result (list Z * list Z)).

Definition known (v : NodeProperties) : Prop := exists od, LookUpOpDef (op (node_def v)) = Ok od.

Definition permitted (c : call) (m : MultiGraph) : Prop :=
  match c with
  | CAddNode _ | CNumNodes | CNumEdges => True
  | CCopyNode i => (2 <= i)%nat /\ exists w, mnodes m !! i = Some w /\ known w.1
  | CCopyFrom v id _ _ => id <> 0 /\ id <> 1 /\ known v
  | CRemoveNode i => (2 <= i)%nat /\ has_node m i
  | CAddEdge i x j y => has_node m i /\ has_node m j /\ slots_allowed (i, x, j, y)
  | CAddControlEdge i j _ => has_node m i /\ has_node m j
  | CRemoveEdge k | CRemoveControlEdge k => is_Some (medges m !! k)
  | CUpdateEdge i x j y =>
      exists wi wj, mnodes m !! i = Some wi /\ mnodes m !! j = Some wj
      /\ (0 <= x < Z.of_nat (length (output_types wi.1)) -> 0 <= y < Z.of_nat (length (input_types wj.1)) ->
          slots_allowed (i, x, j, y) /\ y < Z.of_nat (length (input (node_def wj.1))))
  | CToGraphDef => forall i, is_op m i -> inputs_fit m i
  | CAddWhileInputHack i _ j => has_node m i /\ has_node m j /\ i <> 0%nat /\ j <> 1%nat
  | CShare i | CInputEdges i | CSetName i _ | CSetRequestedDevice i _ | CSetOriginalNodeNames i _ | CClearAttr i _ | CAddAttr i _ _ | CAssignDevice i _
  | CInEdges i | COutEdges i | CInputEdge i _ => has_node m i
  end.

(** ** What a call promises *)

Definition with_name (s : string) (d : NodeDef) : NodeDef := mkNodeDef s (op d) (input d) (device d) (attr d) (original_node_names d).
Definition with_device (s : string) (d : NodeDef) : NodeDef := mkNodeDef (name d) (op d) (input d) s (attr d) (original_node_names d).
Definition with_originals (l : list string) (d : NodeDef) : NodeDef := mkNodeDef (name d) (op d) (input d) (device d) (attr d) l.
Definition with_attr (h : gmap string (list Z)) (d : NodeDef) : NodeDef := mkNodeDef (name d) (op d) (input d) (device d) h (original_node_names d).
Definition with_op_def (od : nat) (v : NodeProperties) : NodeProperties := mkProps od (node_def v) (input_types v) (output_types v).
(** The types that the attributes give. *)
Definition retype (v : NodeProperties) : NodeProperties :=
  match InOutTypesForNode (node_def v) (op_def v) with Ok (inputs, outputs) => mkProps (op_def v) (node_def v) inputs outputs | Err _ => v end.

Definition adds_node (v : NodeProperties) (s : string) (m : MultiGraph) (r : reply) (m' : MultiGraph) : Prop :=
  r = RNode OK (Some (next_node m)) /\ m' = add_node (v, s) m.

Definition effect (c : call) (m : MultiGraph) (r : reply) (m' : MultiGraph) : Prop :=
  match c with
  | CAddNode d =>
      match od ← LookUpOpDef (op d); types ← InOutTypesForNode d od; Ok (od, types) with
      | Err e => r = RNode (Err e) None /\ m' = m
      | Ok (od, (inputs, outputs)) => adds_node (mkProps od d inputs outputs) "" m r m'
      end
  | CCopyNode i => exists w od, mnodes m !! i = Some w /\ LookUpOpDef (op (node_def w.1)) = Ok od /\ adds_node (with_op_def od w.1) w.2 m r m'
  | CCopyFrom v _ _ s => exists od, LookUpOpDef (op (node_def v)) = Ok od /\ adds_node (with_op_def od v) s m r m'
  | CShare _ => r = RUnit /\ m' = m
  | CRemoveNode i => r = RUnit /\ m' = remove_node i m
  | CAddEdge i x j y => r = REdge (Ok (Some (next_edge m))) /\ m' = add_edge (i, x, j, y) m
  | CAddControlEdge i j dup =>
      (dup = false /\ (exists k, control m i j k) /\ r = REdge (Ok None) /\ m' = m)
      \/ ((dup = true \/ forall k, ~ control m i j k)
          /\ r = REdge (Ok (Some (next_edge m)))
          /\ exists wi wj, mnodes m !! i = Some wi /\ mnodes m !! j = Some wj
             /\ let new_input := "^" +:+ name (node_def wi.1) in
                m' = add_edge (i, kControlSlot, j, kControlSlot)
                       (if decide (i <> 0%nat /\ j <> 1%nat /\ dup = false /\ new_input ∉ input (node_def wj.1))
                        then alter_props j (with_def (fun d => with_input (input d ++ [new_input]) d)) m else m))
  | CRemoveEdge k => r = RUnit /\ m' = remove_edge k m
  | CRemoveControlEdge k =>
      exists i x j y wi, medges m !! k = Some (i, x, j, y) /\ mnodes m !! i = Some wi /\ r = RUnit
      /\ m' = remove_edge k (if decide (i <> 0%nat /\ j <> 1%nat)
                             then alter_props j (with_def (fun d => with_input (erase_first ("^" +:+ name (node_def wi.1)) (input d)) d)) m else m)
  | CUpdateEdge i x j y =>
      exists wi wj, mnodes m !! i = Some wi /\ mnodes m !! j = Some wj
      /\ if decide (0 <= x < Z.of_nat (length (output_types wi.1)) /\ 0 <= y < Z.of_nat (length (input_types wj.1))) then
           ((forall k, ~ enters m j y k) /\ r = RStatus (Err INVALID_ARGUMENT) /\ m' = m)
           \/ exists k, enters m j y k /\ r = RStatus OK
               /\ m' = alter_props j (with_def (fun d => with_input (<[Z.to_nat y:=tensor_name (name (node_def wi.1)) x]> (input d)) d)) (add_edge (i, x, j, y) (remove_edge k m))
         else r = RStatus (Err OUT_OF_RANGE) /\ m' = m
  | CSetName i s => r = RUnit /\ m' = alter_props i (with_def (with_name s)) m
  | CSetRequestedDevice i s => r = RUnit /\ m' = alter_props i (with_def (with_device s)) m
  | CSetOriginalNodeNames i l => r = RUnit /\ m' = alter_props i (with_def (with_originals l)) m
  | CClearAttr i k => r = RUnit /\ m' = alter_props i (with_def (fun d => with_attr (delete k (attr d)) d)) m
  | CAddAttr i k val => r = RUnit /\ m' = alter_props i (fun v => retype (with_def (fun d => with_attr (<[k:=val]> (attr d)) d) v)) m
  | CAssignDevice i s => r = RUnit /\ m' = alter_device i s m
  | CInEdges i => m' = m /\ exists l, r = REdges l /\ NoDup l /\ forall k, k ∈ l <-> exists y, enters m i y k
  | COutEdges i => m' = m /\ exists l, r = REdges l /\ NoDup l /\ forall k, k ∈ l <-> exists x j y, medges m !! k = Some (i, x, j, y)
  | CInputEdge i x =>
      m' = m /\ exists w, mnodes m !! i = Some w
      /\ if decide (0 <= x < Z.of_nat (length (input_types w.1))) then
           ((forall k, ~ enters m i x k) /\ r = REdge (Err NOT_FOUND)) \/ exists k, enters m i x k /\ r = REdge (Ok (Some k))
         else r = REdge (Err INVALID_ARGUMENT)
  | CInputEdges i =>
      m' = m /\ exists w, mnodes m !! i = Some w
      /\ exists res, r = RInputs res /\ match res with
         | Ok l => inputs_fit m i /\ length l = length (input_types w.1) /\ forall s k, l !! s = Some k -> enters m i (Z.of_nat s) k
         | Err c => (c = INTERNAL /\ ~ inputs_fit m i) \/ (c = INVALID_ARGUMENT /\ exists s, (s < length (input_types w.1))%nat /\ forall k, ~ enters m i (Z.of_nat s) k)
         end
  | CAddWhileInputHack i x j =>
      exists wi wj, mnodes m !! i = Some wi /\ mnodes m !! j = Some wj
      /\ let y := Z.of_nat (data_count m j) in
         if decide (GetNodeClassForOp (op (node_def wj.1)) = NC_WHILE) then
           if decide (0 <= x < Z.of_nat (length (output_types wi.1)) /\ y < Z.of_nat (length (input_types wj.1))) then
             r = RStatus OK /\ m' = alter_props j (with_def (fun d => with_input (input d ++ [tensor_name (name (node_def wi.1)) x]) d)) (add_edge (i, x, j, y) m)
           else r = RStatus (Err OUT_OF_RANGE) /\ m' = m
         else r = RStatus (Err INTERNAL) /\ m' = m
  | CToGraphDef => m' = m /\ exists ds, r = RDefs ds /\ exists ids, Forall2 (exported m) ids ds /\ StronglySorted lt ids /\ forall i, i ∈ ids <-> is_op m i
  | CNumNodes => r = RCount (Z.of_nat (size (mnodes m))) /\ m' = m
  | CNumEdges => r = RCount (Z.of_nat (size (medges m))) /\ m' = m
  end.

End spec.
