(* ===== verification/GraphSteps.v ===== *)
(** * Graphs of operations: each operation keeps its promise

    The operations of the graph, from a graph that represents an abstract one. *)

From S2P Require Import Prelude EdgeSet Graph GraphInvariant GraphEdges GraphProps GraphContract.
Import Graph.

#[local] Open Scope runtime_scope.

(** ** More properties on the heap *)

Definition set_foreign (f : gset ptr) (g : Graph) : Graph :=
  mkGraph (node_heap g) (edge_heap g) (props_heap g) f (nodes_ g) (num_nodes_ g) (edges_ g) (num_edges_ g) (free_nodes_ g) (free_edges_ g) (name_counter_ g) (device_names_ g) (device_names_map_ g) (while_ctxs_ g).

Lemma extends_represents N g m h f : represents N g m -> props_heap g ⊆ h -> represents N (set_foreign f (set_props_heap h g)) m.
Proof.
  intros [[[N1 N2 N3 N4 N5] [E1 E2 E3 E4 E5] [D1 D2 D3]] Rn Re Rnn Rne HB] Hsub. set (g' := set_foreign f _). constructor; try done.
  - constructor; [|by constructor|by constructor]. constructor; try done. intros i p Hi. destruct (N1 i p Hi) as (n & Hp & Eid & (q & v & Hq & Hv & Hc) & Hd). exists n. split_and!; [done|done|]. split; [|done]. exists q, v. split_and!; [done| |done]. by eapply lookup_weaken.
  - intros i. rewrite Rn. unfold node_view. cbn [nodes_ g' set_foreign set_props_heap device_names_ node_heap]. destruct (nodes_ g !! i) as [[p|]|] eqn:Hi; [|done..].
    destruct (N1 i p Hi) as (n & Hp & _ & (q & v & Hq & Hv & _) & _). unfold node_props. cbn [node_heap props_heap g' set_foreign set_props_heap]. rewrite Hp. cbn. rewrite Hq. cbn. by rewrite Hv, (lookup_weaken _ _ _ _ Hv Hsub).
Qed.

(** [new_props] before a node is made for them. *)
Lemma new_props_rep N g m v (Q : ptr -> Graph -> Prop) : represents N g m ->
  (forall q g', represents N g' m -> keeps g g' -> stays g g' -> props_heap g' !! q = Some v -> q ∉ foreign g' -> Q q g') -> new_props v @ g ⇓ Q.
Proof.
  intros R HQ. unfold new_props. wp_steps. set (q := fresh (dom (props_heap g) ∪ foreign g)). assert (q ∉ dom (props_heap g) ∪ foreign g) as Hf by apply is_fresh. apply not_elem_of_union in Hf as [Hfd Hff]. apply not_elem_of_dom in Hfd.
  apply HQ; [|intros x Hx; split; [done|]; cbn; apply lookup_insert_ne; by intros <-|intros p n i Hl; by exists n|cbn; by rewrite lookup_insert_eq|done].
  replace (set_props_heap (<[q:=v]> (props_heap g)) g) with (set_foreign (foreign g) (set_props_heap (<[q:=v]> (props_heap g)) g)) by by destruct g. apply extends_represents; [done|]. by apply insert_subseteq.
Qed.

(** A node of another graph: its properties, which that graph keeps. *)
Definition import (v : NodeProperties) : M Graph ptr := q ← new_props v; modify (fun g => set_foreign ({[q]} ∪ foreign g) g);; mret q.

Lemma import_rep N g m v (Q : ptr -> Graph -> Prop) : represents N g m ->
  (forall q g', represents N g' m -> keeps g g' -> props_heap g' !! q = Some v -> Q q g') -> import v @ g ⇓ Q.
Proof.
  intros R HQ. unfold import. wp_step. eapply new_props_rep; [done|]. intros q g' R' K _ Hq _. wp_steps. apply HQ; [| |done].
  - replace (set_foreign ({[q]} ∪ foreign g') g') with (set_foreign ({[q]} ∪ foreign g') (set_props_heap (props_heap g') g')) by by destruct g'. by apply extends_represents.
  - intros x Hx. destruct (K x Hx) as [Hx' Ex]. cbn. split; [set_solver|done].
Qed.

(** ** Single changes *)

Section operations.
Context (rehash : list ptr -> list ptr) (Hrehash : forall l, rehash l ≡ₚ l).
Context (LookUpOpDef : string -> result nat) (InOutTypesForNode : NodeDef -> nat -> result (list Z * list Z)).

Lemma AddEdge_rep N g m s ns i x t nt j y (Q : ptr -> Graph -> Prop) : represents N g m -> N < 2 ^ 31 - 1 -> live g s ns i -> live g t nt j -> slots_allowed (i, x, j, y) ->
  (forall e ed g', represents (N + 1) g' (add_edge (i, x, j, y) m) -> keeps g g' -> stays g g' -> edge_heap g' !! e = Some ed -> edge_id_ ed = Z.of_nat (next_edge m) -> Q e g') -> AddEdge rehash s x t y @ g ⇓ Q.
Proof using Hrehash.
  intros R HN Ls Lt Hsl HQ. pose proof (r_bound _ _ _ R). eapply AddEdge_run; [done|apply R|exists i; apply Ls|exists j; apply Lt|lia|by eapply rep_slots|]. intros g' e Hg' Ha. pose proof Ha as (Ho & _ & Eh & _).
  destruct (edges_only_keeps _ _ Ho). eapply (HQ e (mkEdge s t (Z.of_nat (length (edges_ g))) x y)); [by eapply adds_represents|done|done|by rewrite Eh, lookup_insert_eq|cbn; by rewrite (r_next_edge _ _ _ R)].
Qed.

Lemma RemoveEdge_rep N g m k e ed (Q : unit -> Graph -> Prop) : represents N g m -> N < 2 ^ 31 - 1 -> is_edge g k e ed ->
  (forall g', represents N g' (remove_edge k m) -> keeps g g' -> stays g g' -> Q tt g') -> RemoveEdge rehash e @ g ⇓ Q.
Proof using Hrehash.
  intros R HN [Hk _] HQ. pose proof (r_bound _ _ _ R). eapply RemoveEdge_run; [done|apply R|done|lia|]. intros g' Hg' Hd. destruct (edges_only_keeps _ _ (proj1 Hd)). apply HQ; [by eapply drops_represents|done|done].
Qed.

Lemma RemoveNode_rep N g m p n i (Q : unit -> Graph -> Prop) : represents N g m -> N < 2 ^ 31 - 1 -> live g p n i -> (2 <= i)%nat ->
  (forall g', represents N g' (remove_node i m) -> keeps g g' -> Q tt g') -> RemoveNode rehash p @ g ⇓ Q.
Proof using Hrehash.
  intros R HN Hl Hi HQ. pose proof (r_bound _ _ _ R). eapply RemoveNode_run; [done|apply R|done|done|lia|lia|]. intros g' Hg' Hr El He. apply HQ; [by eapply released_represents|]. destruct Hr as (_ & Ep & Ef & _). intros q Hq. by rewrite Ef, Ep.
Qed.

Lemma change_def_rep N g m p n i f (Q : unit -> Graph -> Prop) : represents N g m -> live g p n i -> (forall d, op (f d) = op d) ->
  (forall g', represents N g' (alter_props i (with_def f) m) -> keeps g g' -> stays g g' -> Q tt g') -> change_def p f @ g ⇓ Q.
Proof using.
  intros R Hl Hop HQ. eapply change_def_run; [apply R|done|done|]. intros g' Hg' Hs. destruct (props_step_keeps _ _ _ _ Hs) as (K & T & S). apply HQ; [by eapply props_represents|done|done].
Qed.

Lemma alter_props_id i m : alter_props i id m = m.
Proof. destruct m as [h es a b]. unfold alter_props, set_mnodes. cbn. f_equal. apply alter_id. by intros [v s]. Qed.

Lemma MaybeCopyOnWrite_rep N g m p n i (Q : unit -> Graph -> Prop) : represents N g m -> live g p n i ->
  (forall g' n' q, represents N g' m -> keeps g g' -> stays g g' -> same_edges g g' -> live g' p n' i -> props_ n' = Some q -> unique q g' = true -> Q tt g') -> MaybeCopyOnWrite p @ g ⇓ Q.
Proof using.
  intros R Hl HQ. eapply MaybeCopyOnWrite_run; [apply R|done|]. intros g' n' q Hg' Hs Hl' Hq Hu. destruct (props_step_keeps _ _ _ _ Hs) as (K & T & S). eapply HQ; [|done..]. rewrite <- (alter_props_id i m). by eapply props_represents.
Qed.

Lemma change_props_rep N g m p n i q f (Q : unit -> Graph -> Prop) : represents N g m -> live g p n i -> props_ n = Some q -> unique q g = true -> (forall v, op (node_def (f v)) = op (node_def v)) ->
  (forall g', represents N g' (alter_props i f m) -> keeps g g' -> stays g g' -> same_edges g g' -> Q tt g') -> change_props p f @ g ⇓ Q.
Proof using.
  intros R Hl Hq Hu Hop HQ. eapply change_props_run; [apply R|done|done|done|]. intros g' Hs. destruct (props_step_keeps _ _ _ _ Hs) as (K & T & S). apply HQ; [|done..]. eapply props_represents; [done|done|done|]. eapply props_step_inv; [apply R|done|auto].
Qed.

Lemma AllocateNode_rep N g m q v cost (Q : ptr -> Graph -> Prop) : represents N g m -> N < 2 ^ 31 - 1 -> props_heap g !! q = Some v ->
  (forall p n g', represents (N + 1) g' (add_node (v, ""%string) m) -> keeps g g' -> live g' p n (next_node m) -> props_heap g' = props_heap g -> length (device_names_ g') = length (device_names_ g) -> Q p g') -> AllocateNode q cost @ g ⇓ Q.
Proof using.
  intros R HN Hq HQ. pose proof (r_bound _ _ _ R). eapply AllocateNode_run; [apply R|done|lia|]. intros p g' Hg' Ha. pose proof Ha as [A1 A2 (c & w & A3) A4 A5 A6 A7 A8 A9].
  eapply HQ; [by eapply allocated_represents|intros x Hx; by rewrite A8, A7| |done|by rewrite A9]. rewrite (r_next_node _ _ _ R). split_and!; [|by rewrite A3, lookup_insert_eq|done]. rewrite A1. apply lookup_snoc_Some. by right.
Qed.

Lemma set_assigned_device_name_rep N g m p n i s (Q : unit -> Graph -> Prop) : represents N g m -> N < 2 ^ 31 - 1 -> live g p n i ->
  (forall g', represents (N + 1) g' (alter_device i s m) -> keeps g g' -> stays g g' -> props_heap g' = props_heap g -> length (nodes_ g') = length (nodes_ g) -> length (edges_ g') = length (edges_ g) ->
     (length (device_names_ g') <= S (length (device_names_ g)))%nat -> Q tt g') -> set_assigned_device_name p s @ g ⇓ Q.
Proof using.
  intros R HN Hl HQ. pose proof (r_bound _ _ _ R). eapply set_assigned_device_name_run; [apply R|done|lia|]. intros g' Hg' Hd. pose proof Hd as (n0 & k & g1 & (l & mp & Hlen & ->) & Hp & Hs & ->).
  apply HQ; [by eapply device_represents|by intros q Hq| |done|done|done|cbn; rewrite length_app; lia].
  intros p' n' j Hl'. destruct (decide (p' = p)) as [->|Hne].
  - destruct (live_fun _ _ _ _ _ _ _ Hl Hl') as (_ & <- & <-); [by left|]. rewrite (proj1 (proj2 Hl)) in Hp. injection Hp as <-. exists (set_device_index k n). split_and!; [apply Hl|cbn; by rewrite lookup_insert_eq|apply Hl].
  - exists n'. split_and!; [apply Hl'|cbn; rewrite lookup_insert_ne by done; apply Hl'|apply Hl'].
Qed.

(** ** Composite operations *)

Lemma alter_device_new v s s' m : alter_device (next_node m) s' (add_node (v, s) m) = add_node (v, s') m.
Proof. unfold alter_device, add_node, set_mnodes. cbn. f_equal. by rewrite alter_insert_eq. Qed.

Lemma alter_props_new v s f m : alter_props (next_node m) f (add_node (v, s) m) = add_node (f v, s) m.
Proof. unfold alter_props, add_node, set_mnodes. cbn. f_equal. by rewrite alter_insert_eq. Qed.

Lemma rep_tight N N' g m : represents N g m -> Z.of_nat (length (nodes_ g)) <= N' -> Z.of_nat (length (edges_ g)) <= N' -> Z.of_nat (length (device_names_ g)) <= N' -> represents N' g m.
Proof. intros [? ? ? ? ? _] ? ? ?. by constructor. Qed.

Lemma CopyNode_rep N g m q v id cost s od (Q : ptr -> Graph -> Prop) : represents N g m -> N < 2 ^ 31 - 2 -> props_heap g !! q = Some v -> id <> 0 -> id <> 1 -> LookUpOpDef (op (node_def v)) = Ok od ->
  (forall p n g', represents (N + 1) g' (add_node (with_op_def od v, s) m) -> keeps g g' -> live g' p n (next_node m) -> Q p g') -> CopyNode LookUpOpDef q id cost s @ g ⇓ Q.
Proof using.
  intros R HN Hq H0 H1 Hod HQ. unfold CopyNode. wp_step. apply wp_CHECK; [by apply negb_true_iff, Z.eqb_neq|]. wp_step. apply wp_CHECK; [by apply negb_true_iff, Z.eqb_neq|]. wp_step. eapply AllocateNode_rep; [done|lia|done|]. intros p n g1 R1 K1 L1 P1 D1.
  wp_step. eapply set_assigned_device_name_rep; [done|lia|done|]. intros g2 R2 K2 T2 P2 En Ee Ed. rewrite alter_device_new in R2. wp_steps. eapply wp_of_option; [by rewrite P2, P1|]. rewrite Hod. destruct (T2 _ _ _ L1) as [n2 L2].
  assert (represents (N + 1) g2 (add_node (v, s) m)) as R2'. { pose proof (r_bound _ _ _ R) as (? & ? & ?). pose proof (r_bound _ _ _ R1) as (? & ? & ?). eapply rep_tight; [done|lia..]. }
  clear R2. destruct (Nat.eqb_spec od (op_def v)) as [->|Hne]; cbn [negb].
  - wp_steps. eapply HQ; [|by eapply keeps_trans|done]. replace (with_op_def (op_def v) v) with v by by destruct v. done.
  - wp_step. wp_step. eapply MaybeCopyOnWrite_rep; [done|done|]. intros g3 n3 q3 R3 K3 T3 _ L3 Hq3 Hu3. eapply change_props_rep; [done|done|done|done|done|]. intros g4 R4 K4 T4 _. wp_steps. destruct (T4 _ _ _ L3) as [n4 L4]. eapply HQ; [|by eauto 6 with graph|done].
    by rewrite alter_props_new in R4.
Qed.

(** The first edge of a list that satisfies a test. *)
Lemma find_edge_run g f es (Q : option ptr -> Graph -> Prop) : (forall e, e ∈ es -> is_Some (edge_heap g !! e)) ->
  (forall e ed, e ∈ es -> edge_heap g !! e = Some ed -> f ed = true -> Q (Some e) g) -> ((forall e ed, e ∈ es -> edge_heap g !! e = Some ed -> f ed = false) -> Q None g) -> find_edge f es @ g ⇓ Q.
Proof using.
  induction es as [|e es IH]; intros He Hs Hn; cbn [find_edge]; [wp_steps; apply Hn; by intros ? ? ?%elem_of_nil|]. destruct (He e ltac:(by left)) as [ed Hed]. wp_step. eapply wp_edge; [done|]. destruct (f ed) eqn:Hf; [wp_steps; apply (Hs e ed); [by left|done|done]|].
  apply IH; [intros x Hx; apply He; by right|intros x xd Hx; apply Hs; by right|]. intros Hall. apply Hn. intros x xd [->|Hx]%elem_of_cons Hxd; [congruence|by eapply Hall].
Qed.

(** The first edge into a node that satisfies a test. *)
Lemma find_in_rep N g m p n i f (Q : option ptr -> Graph -> Prop) : represents N g m -> live g p n i ->
  (forall e ed k, is_edge g k e ed -> dst_ ed = p -> f ed = true -> Q (Some e) g) -> ((forall e ed k, is_edge g k e ed -> dst_ ed = p -> f ed = false) -> Q None g) -> (es ← in_edges p; find_edge f es) @ g ⇓ Q.
Proof using.
  intros R Hl Hs Hn. pose proof (g_edges _ _ _ (r_ok _ _ _ R)) as He. assert (is_node g p) as Hp by (exists i; apply Hl). destruct (e_in _ _ _ He p Hp ltac:(done)) as [_ Hin]. wp_step. eapply in_edges_run; [done|done|done|].
  apply find_edge_run.
  - intros e Hei. destruct (Hin e Hei) as (k & ed & _ & Hed & _). by exists ed.
  - intros e ed Hei Hed Hf. destruct (Hin e Hei) as (k & ed' & Hk & Hed' & Hd). simplify_eq. by eapply Hs.
  - intros Hall. apply Hn. intros e ed k [Hk Hed] Hd. destruct (e_live _ _ _ He k e Hk) as (ed' & Hed' & _ & _ & _ & _ & Hin' & _). simplify_eq. eapply Hall; [by apply Hin'|done].
Qed.

(** An edge into the node with an id. *)
Lemma rep_enters N g m p n i k e ed : represents N g m -> live g p n i -> is_edge g k e ed -> dst_ ed = p -> exists i1 n1, live g (src_ ed) n1 i1 /\ medges m !! k = Some (i1, src_output_ ed, i, dst_input_ ed).
Proof using.
  intros R Hl Hk Hd. destruct (e_live _ _ _ (g_edges _ _ _ (r_ok _ _ _ R)) k e (proj1 Hk)) as (ed' & Hed' & _ & Hs & _). destruct Hk as [Hk Hed]. simplify_eq. destruct (is_node_live g _ (g_nodes _ _ _ (r_ok _ _ _ R)) Hs) as (n1 & i1 & L1 & _).
  exists i1, n1. split; [done|]. by eapply rep_is_edge.
Qed.

Lemma rep_entered N g m p n i k i1 x y : represents N g m -> live g p n i -> medges m !! k = Some (i1, x, i, y) -> exists e ed n1, is_edge g k e ed /\ dst_ ed = p /\ live g (src_ ed) n1 i1 /\ src_output_ ed = x /\ dst_input_ ed = y.
Proof using.
  intros R Hl Hk. destruct (rep_edge R k _ Hk) as (e & ed & ns & nt & He & Ls & Lt & E1 & E2). cbn in *. destruct (live_fun _ _ _ _ _ _ _ Hl Lt) as (-> & _); [by right|]. by exists e, ed, ns.
Qed.

Lemma props_rep N g m p n i (Q : NodeProperties -> Graph -> Prop) : represents N g m -> live g p n i -> (forall w, mnodes m !! i = Some w -> Q w.1 g) -> props p @ g ⇓ Q.
Proof using.
  intros R Hl HQ. destruct (rep_live R p n i Hl) as (w & Hw & Hv & _). destruct (live_props g p n i (r_ok _ _ _ R) Hl) as (q & v & Hq & Hqv & Hv'). rewrite Hv in Hv'. injection Hv' as <-. eapply wp_props; [apply Hl|done|done|]. by apply HQ.
Qed.

Lemma def_rep N g m p n i (Q : NodeDef -> Graph -> Prop) : represents N g m -> live g p n i -> (forall w, mnodes m !! i = Some w -> Q (node_def w.1) g) -> def p @ g ⇓ Q.
Proof using. intros R Hl HQ. unfold def. wp_step. eapply props_rep; [done|done|]. intros w Hw. wp_steps. by apply HQ. Qed.

Lemma live_source g p n i : live g p n i -> IsSource n = bool_decide (i = 0%nat).
Proof. intros (_ & _ & E). unfold IsSource. rewrite E. case_bool_decide; [apply Z.eqb_eq|apply Z.eqb_neq]; lia. Qed.
Lemma live_sink g p n i : live g p n i -> IsSink n = bool_decide (i = 1%nat).
Proof. intros (_ & _ & E). unfold IsSink. rewrite E. case_bool_decide; [apply Z.eqb_eq|apply Z.eqb_neq]; lia. Qed.

Abbreviation effect := (effect LookUpOpDef InOutTypesForNode).

Lemma AddControlEdge_rep N g m s ns i t nt j dup : represents N g m -> N < 2 ^ 31 - 2 -> live g s ns i -> live g t nt j ->
  AddControlEdge rehash s t dup @ g ⇓ fun o g' => exists m', effect (CAddControlEdge i j dup) m (REdge (Ok (match o with Some _ => Some (next_edge m) | None => None end))) m'
    /\ represents (N + 1) g' m' /\ keeps g g' /\ forall e, o = Some e -> exists ed, edge_heap g' !! e = Some ed /\ edge_id_ ed = Z.of_nat (next_edge m).
Proof using Hrehash.
  intros R HN Ls Lt. unfold AddControlEdge. wp_step.
  apply (wp_mono _ _ _ (fun o g' => g' = g /\ match o with Some _ => dup = false /\ exists k, control m i j k | None => dup = true \/ forall k, ~ control m i j k end)).
  { destruct dup; [wp_steps; auto|]. eapply find_in_rep; [done|exact Lt|..].
    - intros e ed k Hk Hd [Hc Hs]%andb_true_iff. apply Z.eqb_eq in Hc. apply bool_decide_eq_true in Hs. split_and!; [done|done|]. exists k. destruct (rep_enters _ _ _ _ _ _ _ _ _ R Lt Hk Hd) as (i1 & n1 & L1 & Hm). subst s. destruct (live_fun _ _ _ _ _ _ _ Ls L1) as (_ & _ & ->); [by left|].
      destruct (e_live _ _ _ (g_edges _ _ _ (r_ok _ _ _ R)) k e (proj1 Hk)) as (ed' & Hed' & _ & _ & _ & _ & _ & [Hsl _] & _). destruct Hk as [_ Hed]. simplify_eq. unfold control. by rewrite Hm, Hc, (Hsl Hc).
    - intros Hall. split; [done|]. right. intros k Hk. destruct (rep_entered _ _ _ _ _ _ _ _ _ _ R Lt Hk) as (e & ed & n1 & He & Hd & L1 & E1 & E2). specialize (Hall e ed k He Hd). destruct (live_fun _ _ _ _ _ _ _ Ls L1) as (-> & _); [by right|].
      unfold IsControlEdge in Hall. rewrite E1, Z.eqb_refl, bool_decide_eq_true_2 in Hall by done. done. }
  intros o g0 [-> Ho]. destruct o as [e|].
  { wp_steps. exists m. split_and!; [|by apply (rep_weaken R); lia|apply keeps_refl|done]. left. by destruct Ho. }
  wp_step. eapply wp_deref; [apply Ls|]. wp_step. eapply wp_deref; [apply Lt|]. rewrite (live_source _ _ _ _ Ls), (live_sink _ _ _ _ Lt). destruct (rep_live R _ _ _ Ls) as (wi & Hwi & _). destruct (rep_live R _ _ _ Lt) as (wj & Hwj & _).
  set (new_input := ("^" +:+ name (node_def wi.1))). set (m1 := if decide (i <> 0%nat /\ j <> 1%nat /\ dup = false /\ new_input ∉ input (node_def wj.1)) then alter_props j (with_def (fun d => with_input (input d ++ [new_input]) d)) m else m).
  wp_step. apply (wp_mono _ _ _ (fun _ g' => represents N g' m1 /\ keeps g g' /\ stays g g')).
  { assert (m1 = m -> represents N g m1 /\ keeps g g /\ stays g g) as Hsame by (intros ->; auto with graph). destruct (decide (i = 0%nat)) as [Hi|Hi]; [rewrite bool_decide_eq_true_2 by done; cbn; wp_steps; apply Hsame, decide_False; tauto|].
    destruct (decide (j = 1%nat)) as [Hj|Hj]; [rewrite bool_decide_eq_false_2, bool_decide_eq_true_2 by done; cbn; wp_steps; apply Hsame, decide_False; tauto|]. rewrite !bool_decide_eq_false_2 by done. cbn [negb andb].
    destruct dup; cbn [negb]; [wp_steps; apply Hsame, decide_False; by intros (_ & _ & ? & _)|].
    wp_step. eapply def_rep; [done|done|]. intros wi' Hwi'. rewrite Hwi in Hwi'. injection Hwi' as <-. wp_step. eapply def_rep; [done|done|]. intros wj' Hwj'. rewrite Hwj in Hwj'. injection Hwj' as <-. fold new_input.
    case_bool_decide as Hin; [wp_steps; apply Hsame, decide_False; tauto|]. unfold m1. rewrite decide_True by tauto. eapply change_def_rep; [done|done|done|]. intros g' R' K T. done. }
  cbn beta. intros _ g1 (R1 & K1 & T1). destruct (T1 _ _ _ Ls) as [ns1 Ls1]. destruct (T1 _ _ _ Lt) as [nt1 Lt1]. wp_step. eapply AddEdge_rep; [done|lia|done|done|by split; [|intros _]|]. intros e ed g2 R2 K2 _ He Eid. wp_steps. exists (add_edge (i, kControlSlot, j, kControlSlot) m1).
  assert (next_edge m1 = next_edge m) as Enx by (unfold m1; by case_decide). split_and!; [|done|by eapply keeps_trans|intros ? [= <-]; exists ed; by rewrite <- Enx]. right. split_and!; [done|done|]. by exists wi, wj.
Qed.

(** A change of the definition of a node in two steps. *)
Lemma copy_and_change N g m p n i (k : M Graph unit) f (Q : unit -> Graph -> Prop) : represents N g m -> live g p n i -> (forall d, op (f d) = op d) ->
  (forall g1 (Q1 : unit -> Graph -> Prop), represents N g1 m -> stays g g1 -> (change_props p (with_def f) @ g1 ⇓ Q1) -> k @ g1 ⇓ Q1) ->
  (forall g', represents N g' (alter_props i (with_def f) m) -> keeps g g' -> stays g g' -> same_edges g g' -> Q tt g') -> (MaybeCopyOnWrite p;; k) @ g ⇓ Q.
Proof using.
  intros R Hl Hop Hk HQ. wp_step. eapply MaybeCopyOnWrite_rep; [done|done|]. intros g1 n1 q R1 K1 T1 [S1 S1'] L1 Hq Hu. apply Hk; [done|done|]. eapply change_props_rep; [done|done|done|done|by intros v; apply Hop|]. intros g2 R2 K2 T2 [S2 S2'].
  apply HQ; [done|by eapply keeps_trans|by eapply stays_trans|split; congruence].
Qed.

Lemma RemoveControlEdge_rep N g m k e ed ns i nt j : represents N g m -> N < 2 ^ 31 - 2 -> is_edge g k e ed -> live g (src_ ed) ns i -> live g (dst_ ed) nt j ->
  RemoveControlEdge rehash e @ g ⇓ fun _ g' => exists m', effect (CRemoveControlEdge k) m RUnit m' /\ represents N g' m' /\ keeps g g'.
Proof using Hrehash.
  intros R HN Hk Ls Lt. unfold RemoveControlEdge. wp_step. eapply wp_edge; [apply Hk|]. wp_step. eapply wp_deref; [apply Ls|]. wp_step. eapply wp_deref; [apply Lt|]. rewrite (live_source _ _ _ _ Ls), (live_sink _ _ _ _ Lt). destruct (rep_live R _ _ _ Ls) as (wi & Hwi & _).
  set (m1 := if decide (i <> 0%nat /\ j <> 1%nat) then alter_props j (with_def (fun d => with_input (erase_first ("^" +:+ name (node_def wi.1)) (input d)) d)) m else m).
  wp_step. apply (wp_mono _ _ _ (fun _ g' => represents N g' m1 /\ keeps g g' /\ same_edges g g')).
  { assert (m1 = m -> represents N g m1 /\ keeps g g /\ same_edges g g) as Hsame by (intros ->; split_and!; [done|auto with graph|by split]). destruct (decide (i = 0%nat)) as [Hi|Hi]; [rewrite bool_decide_eq_true_2 by done; cbn; wp_steps; apply Hsame, decide_False; tauto|].
    destruct (decide (j = 1%nat)) as [Hj|Hj]; [rewrite bool_decide_eq_false_2, bool_decide_eq_true_2 by done; cbn; wp_steps; apply Hsame, decide_False; tauto|]. rewrite !bool_decide_eq_false_2 by done. cbn [negb andb]. unfold m1. rewrite decide_True by tauto.
    eapply copy_and_change with (f := fun d => with_input (erase_first ("^" +:+ name (node_def wi.1)) (input d)) d); [done|exact Lt|done|intros g1 Q1 R1 T1 HQ1|by intros g' R' K _ S]. destruct (T1 _ _ _ Ls) as [ns1 Ls1]. wp_step. eapply def_rep; [done|done|]. intros wi' Hwi'. rewrite Hwi in Hwi'. by injection Hwi' as <-. }
  cbn beta. intros _ g1 (R1 & K1 & [S1 S1']). eapply RemoveEdge_rep; [done|lia|split; [rewrite S1; apply Hk|rewrite S1'; apply Hk]|]. intros g2 R2 K2 _. exists (remove_edge k m1). split_and!; [|done|by eapply keeps_trans]. exists i, (src_output_ ed), j, (dst_input_ ed), wi. split_and!; [by eapply rep_is_edge|done|done|done].
Qed.

(** ** Validity of tensors *)

Lemma wp_IsValidNode g p n i (Q : Status -> Graph -> Prop) : live g p n i -> Q OK g -> IsValidNode (Some p) @ g ⇓ Q.
Proof using. intros Hl HQ. unfold wp. by rewrite (valid_run g p n i Hl). Qed.

Lemma out_of_range_spec (x : Z) (l : list Z) : ((Z.of_nat (length l) <=? x) || (x <? 0)) = negb (bool_decide (0 <= x < Z.of_nat (length l))).
Proof. destruct (Z.leb_spec (Z.of_nat (length l)) x), (Z.ltb_spec x 0); cbn; case_bool_decide; done || lia. Qed.

Lemma IsValidOutputTensor_rep N g m p n i w x (Q : Status -> Graph -> Prop) : represents N g m -> live g p n i -> mnodes m !! i = Some w ->
  Q (if bool_decide (0 <= x < Z.of_nat (length (output_types w.1))) then OK else Err OUT_OF_RANGE) g -> IsValidOutputTensor (Some p) x @ g ⇓ Q.
Proof using.
  intros R Hl Hw HQ. unfold IsValidOutputTensor, num_outputs. wp_step. eapply wp_IsValidNode; [done|]. cbn [OK]. wp_step. wp_step. eapply props_rep; [done|done|]. intros w' Hw'. rewrite Hw in Hw'. injection Hw' as <-. wp_steps. rewrite out_of_range_spec. by case_bool_decide.
Qed.

Lemma IsValidInputTensor_rep N g m p n i w x (Q : Status -> Graph -> Prop) : represents N g m -> live g p n i -> mnodes m !! i = Some w ->
  Q (if bool_decide (0 <= x < Z.of_nat (length (input_types w.1))) then OK else Err OUT_OF_RANGE) g -> IsValidInputTensor (Some p) x @ g ⇓ Q.
Proof using.
  intros R Hl Hw HQ. unfold IsValidInputTensor, num_inputs. wp_step. eapply wp_IsValidNode; [done|]. cbn [OK]. wp_step. wp_step. eapply props_rep; [done|done|]. intros w' Hw'. rewrite Hw in Hw'. injection Hw' as <-. wp_steps. rewrite out_of_range_spec. by case_bool_decide.
Qed.

(** The first edge into an input. *)
Lemma find_input_rep N g m p n i y (Q : option ptr -> Graph -> Prop) : represents N g m -> live g p n i ->
  (forall e ed k, is_edge g k e ed -> enters m i y k -> Q (Some e) g) -> ((forall k, ~ enters m i y k) -> Q None g) -> (es ← in_edges p; find_edge (fun ed => dst_input_ ed =? y) es) @ g ⇓ Q.
Proof using.
  intros R Hl Hs Hn. eapply find_in_rep; [done|exact Hl|..].
  - intros e ed k Hk Hd Hy%Z.eqb_eq. eapply Hs; [done|]. destruct (rep_enters _ _ _ _ _ _ _ _ _ R Hl Hk Hd) as (i1 & n1 & _ & Hm). rewrite Hy in Hm. by exists i1, (src_output_ ed).
  - intros Hall. apply Hn. intros k (i1 & x & Hk). destruct (rep_entered _ _ _ _ _ _ _ _ _ _ R Hl Hk) as (e & ed & n1 & He & Hd & _ & _ & Ey). specialize (Hall e ed k He Hd). apply Z.eqb_neq in Hall. done.
Qed.

Lemma UpdateEdge_rep N g m s ns i x t nt j y : represents N g m -> N < 2 ^ 31 - 2 -> live g s ns i -> live g t nt j -> permitted LookUpOpDef (CUpdateEdge i x j y) m ->
  UpdateEdge rehash s x t y @ g ⇓ fun st g' => exists m', effect (CUpdateEdge i x j y) m (RStatus st) m' /\ represents (N + 1) g' m' /\ keeps g g'.
Proof using Hrehash.
  intros R HN Ls Lt (wi & wj & Hwi & Hwj & Hper). assert (represents (N + 1) g m) as R' by (apply (rep_weaken R); lia). unfold UpdateEdge. wp_step. eapply IsValidOutputTensor_rep; [done|done|done|].
  case_bool_decide as Hx; cbn [negb ok OK].
  2:{ wp_steps. exists m. split_and!; [|done|apply keeps_refl]. exists wi, wj. split_and!; [done|done|]. rewrite decide_False by tauto. done. }
  wp_step. eapply IsValidInputTensor_rep; [done|done|done|]. case_bool_decide as Hy; cbn [negb ok OK].
  2:{ wp_steps. exists m. split_and!; [|done|apply keeps_refl]. exists wi, wj. split_and!; [done|done|]. rewrite decide_False by tauto. done. }
  destruct (Hper Hx Hy) as [Hsl Hlen]. wp_step. eapply find_input_rep; [done|done| |].
  2:{ intros Hno. wp_steps. exists m. split_and!; [|done|apply keeps_refl]. exists wi, wj. split_and!; [done|done|]. rewrite decide_True by tauto. by left. }
  clear R'. intros e ed k Hk Hent. wp_step. eapply RemoveEdge_rep; [done|lia|done|]. intros g1 R1 K1 T1. destruct (T1 _ _ _ Ls) as [ns1 Ls1]. destruct (T1 _ _ _ Lt) as [nt1 Lt1]. wp_step. eapply AddEdge_rep; [done|lia|done|done|done|]. intros e' ed' g2 R2 K2 T2 _ _.
  destruct (T2 _ _ _ Ls1) as [ns2 Ls2]. destruct (T2 _ _ _ Lt1) as [nt2 Lt2]. wp_step. eapply MaybeCopyOnWrite_rep; [done|done|]. intros g3 n3 q R3 K3 T3 _ L3 Hq Hu. destruct (T3 _ _ _ Ls2) as [ns3 Ls3].
  wp_step. eapply def_rep; [done|done|]. cbn [mnodes add_edge remove_edge]. intros wi' Hwi'. rewrite Hwi in Hwi'. injection Hwi' as <-. wp_step. eapply def_rep; [done|done|]. cbn [mnodes add_edge remove_edge]. intros wj' Hwj'. rewrite Hwj in Hwj'. injection Hwj' as <-.
  destruct (lookup_lt_is_Some_2 (input (node_def wj.1)) (Z.to_nat y)) as [old Hold]; [lia|]. wp_step. eapply (wp_of_option _ _ old); [unfold at_; by rewrite (proj2 (Z.leb_le _ _)) by lia|]. wp_step. eapply change_props_rep; [done|done|done|done|done|]. intros g4 R4 K4 T4 _. wp_steps.
  eexists. split_and!; [|exact R4|by eauto 8 with graph]. exists wi, wj. split_and!; [done|done|]. rewrite decide_True by tauto. right. exists k. done.
Qed.

Lemma UpdateProperties_rep N g m p n i (Q : unit -> Graph -> Prop) : represents N g m -> live g p n i ->
  (forall g', represents N g' (alter_props i (retype InOutTypesForNode) m) -> keeps g g' -> Q tt g') -> UpdateProperties InOutTypesForNode p @ g ⇓ Q.
Proof using.
  intros R Hl HQ. unfold UpdateProperties. wp_step. eapply props_rep; [done|done|]. intros w Hw. destruct (rep_live R _ _ _ Hl) as (w' & Hw' & Hv & _). rewrite Hw in Hw'. injection Hw' as <-.
  assert (forall f, f w.1 = retype InOutTypesForNode w.1 -> alter_props i f m = alter_props i (retype InOutTypesForNode) m) as Hext.
  { intros f Hf. unfold alter_props, set_mnodes. f_equal. apply map_eq. intros k. destruct (decide (k = i)) as [->|Hne]; [rewrite !lookup_alter_eq, Hw; cbn; by rewrite Hf|by rewrite !lookup_alter_ne]. }
  destruct (InOutTypesForNode _ _) as [[inputs outputs]|c] eqn:Et.
  - wp_step. eapply new_props_run; [apply R|done|done|]. intros q g1 g' Eh Hs Hl' Hu. eapply wp_update_node; [rewrite Eh; apply Hl|]. destruct (props_step_keeps _ _ _ _ Hs) as (K & T & S). apply HQ; [|done]. rewrite <- (Hext (fun _ => mkProps (op_def w.1) (node_def w.1) inputs outputs)) by (unfold retype; by rewrite Et).
    eapply props_represents; [done|done|done|]. eapply props_step_inv; [apply R|done|]. intros v Hv'. by simplify_eq.
  - wp_steps. apply HQ; [|apply keeps_refl]. rewrite <- (Hext id) by (unfold retype; by rewrite Et). by rewrite alter_props_id.
Qed.

End operations.
