(* ===== verification/GraphExport.v ===== *)
(** * Graphs of operations: inputs and export

    The edges into a node by input, the number of its data inputs, and the nodes as messages. *)

From S2P Require Import Prelude EdgeSet Graph GraphInvariant GraphEdges GraphProps GraphContract GraphSteps.
From stdpp Require Import sorting.
Import Graph.

#[local] Open Scope runtime_scope.
#[local] Open Scope Z_scope.

(** ** Tables of inputs *)

Definition is_control (g : Graph) (e : ptr) : bool := match edge_heap g !! e with Some ed => IsControlEdge ed | None => false end.
Definition slot (g : Graph) (e : ptr) : Z := match edge_heap g !! e with Some ed => dst_input_ ed | None => 0 end.

(** The edges of data among some edges, each at its input, no two at the same one. *)
Definition table_fits (g : Graph) (k : nat) (es : list ptr) : Prop :=
  forall e, e ∈ es -> is_control g e = false -> 0 <= slot g e < Z.of_nat k /\ forall e', e' ∈ es -> is_control g e' = false -> slot g e' = slot g e -> e' = e.
Definition table_of (g : Graph) (k : nat) (es : list ptr) (t : list (option ptr)) : Prop :=
  length t = k /\ forall s e, t !! s = Some (Some e) <-> e ∈ es /\ is_control g e = false /\ slot g e = Z.of_nat s.

Lemma table_empty g k : table_of g k [] (replicate k None).
Proof. split; [apply length_replicate|]. intros s e. rewrite lookup_replicate. split; [by intros [? _]|by intros [?%elem_of_nil _]]. Qed.

Lemma table_control g k es t e : table_of g k es t -> is_control g e = true -> table_of g k (es ++ [e]) t.
Proof.
  intros [Hl Ht] Hc. split; [done|]. intros s x. rewrite Ht, elem_of_app. split; [tauto|]. intros [[?|[->|?%elem_of_nil]%elem_of_cons] [Hx ?]]; [done|congruence|done].
Qed.

Lemma table_data g k es t e s : table_of g k es t -> is_control g e = false -> slot g e = Z.of_nat s -> t !! s = Some None -> table_of g k (es ++ [e]) (<[s:=Some e]> t).
Proof.
  intros [Hl Ht] Hc Hs Hn. split; [by rewrite length_insert|]. intros s' x. pose proof (lookup_lt_Some _ _ _ Hn). destruct (decide (s' = s)) as [->|Hne].
  - rewrite list_lookup_insert_eq by done. split.
    + intros [= <-]. split_and!; [apply elem_of_app; right; by left|done|done].
    + intros ([Hx|[->|?%elem_of_nil]%elem_of_cons]%elem_of_app & Hcx & Hsx); [|done|done]. assert (t !! s = Some (Some x)) by (by apply Ht). congruence.
  - rewrite list_lookup_insert_ne, Ht by done. split; [intros (? & ? & ?); split_and!; [apply elem_of_app; by left|done|done]|].
    intros ([Hx|[->|?%elem_of_nil]%elem_of_cons]%elem_of_app & Hcx & Hsx); [done|lia|done].
Qed.

(** An input that is taken or free. *)
Lemma table_cell g k es t e : table_of g k es t -> 0 <= slot g e < Z.of_nat k -> exists c, at_ t (slot g e) = Some c /\ t !! Z.to_nat (slot g e) = Some c.
Proof. intros [Hl _] Hs. destruct (lookup_lt_is_Some_2 t (Z.to_nat (slot g e))) as [c Hc]; [lia|]. exists c. split; [|done]. unfold at_. by rewrite (proj2 (Z.leb_le _ _)) by lia. Qed.

Lemma collect_inputs_run g k : forall es seen t controls, (forall e, e ∈ es -> is_Some (edge_heap g !! e)) -> NoDup (seen ++ es) -> table_fits g k (seen ++ es) -> table_of g k seen t ->
  collect_inputs t controls es @ g ⇓ fun '(t', controls') g' => g' = g /\ table_of g k (seen ++ es) t' /\ controls' = controls ++ filter (fun e => is_control g e = true) es.
Proof.
  induction es as [|e es IH]; intros seen t controls Hes Hnd Hfit Ht; cbn [collect_inputs]; [wp_steps; rewrite !app_nil_r; done|]. destruct (Hes e ltac:(by left)) as [ed Hed]. wp_step. eapply wp_edge; [done|].
  assert (is_control g e = IsControlEdge ed /\ slot g e = dst_input_ ed) as [Ec Es] by (unfold is_control, slot; by rewrite Hed). assert (forall x, x ∈ es -> is_Some (edge_heap g !! x)) as Hes' by (intros x Hx; apply Hes; by right).
  assert (seen ++ e :: es = (seen ++ [e]) ++ es) as Eq by (by rewrite <- app_assoc). rewrite Eq in Hnd, Hfit |- *. rewrite filter_cons. destruct (IsControlEdge ed) eqn:Hc.
  - rewrite decide_True by done. eapply wp_mono; [apply (IH (seen ++ [e])); [done|done|done|by apply table_control]|]. cbn beta. intros [t' c'] g' (-> & ? & ->). split_and!; [done|done|]. by rewrite <- app_assoc.
  - rewrite decide_False by congruence. assert (e ∈ (seen ++ [e]) ++ es) as Hin by (apply elem_of_app; left; apply elem_of_app; right; by left). destruct (Hfit e Hin Ec) as [Hs Huniq]. destruct (table_cell g k seen t e Ht Hs) as (c & Hc1 & Hc2). rewrite Es in Hc1, Hc2.
    wp_step. eapply wp_of_option; [done|]. assert (c = None) as ->.
    { destruct c as [x|]; [|done]. apply Ht in Hc2 as (Hx & Hcx & Hsx). assert (x = e) as -> by (apply Huniq; [apply elem_of_app; left; apply elem_of_app; by left|done|lia]). apply NoDup_app in Hnd as (Hnd & _ & _). apply NoDup_app in Hnd as (_ & Hd & _). exfalso. apply (Hd e Hx). by left. }
    wp_step. apply wp_CHECK; [done|]. eapply IH; [done|done|done|]. eapply table_data; [done|done| |done]. lia.
Qed.

Lemma fits_control g k es e : table_fits g k es -> is_control g e = true -> table_fits g k (es ++ [e]).
Proof.
  intros Hf Hc x [Hx|[->|?%elem_of_nil]%elem_of_cons]%elem_of_app Hcx; [|congruence|done]. destruct (Hf x Hx Hcx) as [? Hu]. split; [done|]. intros y [Hy|[->|?%elem_of_nil]%elem_of_cons]%elem_of_app Hcy; [by apply Hu|congruence|done].
Qed.

Lemma fits_data g k es t e : table_fits g k es -> table_of g k es t -> 0 <= slot g e < Z.of_nat k -> t !! Z.to_nat (slot g e) = Some None -> table_fits g k (es ++ [e]).
Proof.
  intros Hf [Hl Ht] Hs Hn. assert (forall y, y ∈ es -> is_control g y = false -> slot g y <> slot g e) as Hnew by (intros y Hy Hcy E; assert (t !! Z.to_nat (slot g e) = Some (Some y)) by (apply Ht; split_and!; [done|done|lia]); congruence).
  intros x [Hx|[->|?%elem_of_nil]%elem_of_cons]%elem_of_app Hcx; [| |done].
  - destruct (Hf x Hx Hcx) as [? Hu]. split; [done|]. intros y [Hy|[->|?%elem_of_nil]%elem_of_cons]%elem_of_app Hcy Hsy; [by apply Hu|exfalso; by eapply (Hnew x)|done].
  - split; [done|]. intros y [Hy|[->|?%elem_of_nil]%elem_of_cons]%elem_of_app Hcy Hsy; [exfalso; by eapply (Hnew y)|done|done].
Qed.

Lemma fits_sub g k es es' : (forall e, e ∈ es -> e ∈ es') -> table_fits g k es' -> table_fits g k es.
Proof. intros Hs Hf x Hx Hcx. destruct (Hf x (Hs x Hx) Hcx) as [? Hu]. split; [done|]. intros y Hy. by apply Hu, Hs. Qed.

Lemma input_edges_loop_run g k : forall es seen t, (forall e, e ∈ es -> is_Some (edge_heap g !! e)) -> NoDup (seen ++ es) -> table_fits g k seen -> table_of g k seen t ->
  input_edges_loop (Z.of_nat k) t es @ g ⇓ fun r g' => g' = g /\ match r with Ok t' => table_fits g k (seen ++ es) /\ table_of g k (seen ++ es) t' | Err c => c = INTERNAL /\ ~ table_fits g k (seen ++ es) end.
Proof.
  induction es as [|e es IH]; intros seen t Hes Hnd Hfit Ht; cbn [input_edges_loop]; [wp_steps; by rewrite !app_nil_r|]. destruct (Hes e ltac:(by left)) as [ed Hed]. wp_step. eapply wp_edge; [done|].
  assert (is_control g e = IsControlEdge ed /\ slot g e = dst_input_ ed) as [Ec Es] by (unfold is_control, slot; by rewrite Hed). assert (forall x, x ∈ es -> is_Some (edge_heap g !! x)) as Hes' by (intros x Hx; apply Hes; by right).
  assert (e ∈ seen ++ e :: es) as Hin by (apply elem_of_app; right; by left). assert (seen ++ e :: es = (seen ++ [e]) ++ es) as Eq by (by rewrite <- app_assoc). destruct (IsControlEdge ed) eqn:Hc.
  - rewrite Eq in Hnd |- *. apply IH; [done|done|by apply fits_control|by apply table_control].
  - destruct ((dst_input_ ed <? 0) || (Z.of_nat k <=? dst_input_ ed)) eqn:Hr.
    { wp_steps. split_and!; [done|done|]. intros Hf. destruct (Hf e Hin Ec) as [Hs _]. apply orb_true_iff in Hr as [?%Z.ltb_lt|?%Z.leb_le]; lia. }
    apply orb_false_iff in Hr as [H0%Z.ltb_ge Hk%Z.leb_gt]. destruct (table_cell g k seen t e Ht ltac:(lia)) as (c & Hc1 & Hc2). rewrite Es in Hc1. wp_step. eapply wp_of_option; [done|]. destruct c as [x|].
    + wp_steps. split_and!; [done|done|]. intros Hf. apply Ht in Hc2 as (Hx & Hcx & Hsx). destruct (Hf e Hin Ec) as [_ Hu]. assert (x = e) as -> by (apply Hu; [apply elem_of_app; by left|done|lia]). apply NoDup_app in Hnd as (_ & Hd & _). apply (Hd e Hx). by left.
    + rewrite Eq in Hnd |- *. rewrite Es in Hc2. apply IH; [done|done|eapply fits_data; [done|done|lia|by rewrite Es]|eapply table_data; [done|done|lia|done]].
Qed.

Lemma count_data_edges_run g es : (forall e, e ∈ es -> is_Some (edge_heap g !! e)) -> count_data_edges es @ g ⇓ fun k g' => g' = g /\ k = Z.of_nat (length (filter (fun e => is_control g e = false) es)).
Proof.
  induction es as [|e es IH]; intros Hes; cbn [count_data_edges]; [by wp_steps|]. destruct (Hes e ltac:(by left)) as [ed Hed]. wp_step. eapply wp_edge; [done|]. wp_step. eapply wp_mono; [apply IH; intros x Hx; apply Hes; by right|]. cbn beta. intros k g' [-> ->]. wp_steps. split; [done|].
  assert (is_control g e = IsControlEdge ed) as Ec by (unfold is_control; by rewrite Hed). rewrite filter_cons, Ec. destruct (IsControlEdge ed); [by rewrite decide_False|]. rewrite decide_True by done. cbn [length]. lia.
Qed.

(** ** The abstract edges *)

Section represented.
Context {N : Z} {g : Graph} {m : MultiGraph} (R : represents N g m) {p : ptr} {n : Node} {i : nat} (Hl : live g p n i) {w : nview} (Hw : mnodes m !! i = Some w).

Definition edge_index (e : ptr) : nat := match edge_heap g !! e with Some ed => Z.to_nat (edge_id_ ed) | None => 0 end.

Lemma ins_edges e : e ∈ ins g p <-> exists k ed, is_edge g k e ed /\ dst_ ed = p.
Proof using R Hl.
  pose proof (g_edges _ _ _ (r_ok _ _ _ R)) as He. assert (is_node g p) as Hp by (exists i; apply Hl). destruct (e_in _ _ _ He p Hp ltac:(done)) as [_ Hin]. split.
  - intros Hei. destruct (Hin e Hei) as (k & ed & ? & ? & ?). by exists k, ed.
  - intros (k & ed & [Hk Hed] & Hd). destruct (e_live _ _ _ He k e Hk) as (ed' & Hed' & _ & _ & _ & _ & Hi & _). assert (ed' = ed) as -> by congruence. rewrite <- Hd. by apply Hi.
Qed.

Lemma ins_nodup : NoDup (ins g p) /\ forall e, e ∈ ins g p -> is_Some (edge_heap g !! e).
Proof using R Hl.
  assert (is_node g p) as Hp by (exists i; apply Hl). destruct (e_in _ _ _ (g_edges _ _ _ (r_ok _ _ _ R)) p Hp ltac:(done)) as [(n' & Hn' & Hs) _]. split; [rewrite (ins_at g p n' Hn'); apply Hs|]. intros e (k & ed & [_ Hed] & _)%ins_edges. by exists ed.
Qed.

(** An edge into the node, as an object and in the abstract graph. *)
Lemma ins_index e : e ∈ ins g p -> exists ed j nj, is_edge g (edge_index e) e ed /\ live g (src_ ed) nj j /\ medges m !! edge_index e = Some (j, src_output_ ed, i, dst_input_ ed)
  /\ is_control g e = (src_output_ ed =? kControlSlot) /\ slot g e = dst_input_ ed.
Proof using R Hl.
  intros (k & ed & Hk & Hd)%ins_edges. destruct (e_live _ _ _ (g_edges _ _ _ (r_ok _ _ _ R)) k e (proj1 Hk)) as (ed' & Hed' & Eid & _). pose proof Hk as [_ Hed]. assert (ed' = ed) as -> by congruence.
  assert (edge_index e = k) as -> by (unfold edge_index; rewrite Hed, Eid; apply Nat2Z.id). destruct (rep_enters _ _ _ _ _ _ _ _ _ R Hl Hk Hd) as (j & nj & Lj & Hm). exists ed, j, nj. unfold is_control, slot. rewrite Hed. by split_and!.
Qed.

Lemma index_ins k j x y : medges m !! k = Some (j, x, i, y) -> exists e, e ∈ ins g p /\ edge_index e = k /\ is_control g e = (x =? kControlSlot) /\ slot g e = y.
Proof using R Hl.
  intros Hk. destruct (rep_entered _ _ _ _ _ _ _ _ _ _ R Hl Hk) as (e & ed & nj & He & Hd & _ & Ex & Ey). exists e. assert (e ∈ ins g p) as Hin by (apply ins_edges; by exists k, ed). split; [done|]. destruct (ins_index e Hin) as (ed' & j' & nj' & He' & _ & _ & Ec & Es).
  assert (ed' = ed) as -> by (destruct He as [_ ?], He' as [_ ?]; congruence). split_and!; [|congruence|congruence]. eapply edge_once; [apply (r_ok _ _ _ R)|apply He'|apply He].
Qed.

Lemma index_inj e e' : e ∈ ins g p -> e' ∈ ins g p -> edge_index e = edge_index e' -> e = e'.
Proof using R Hl. intros (ed & _ & _ & [H1 _] & _)%ins_index (ed' & _ & _ & [H2 _] & _)%ins_index E. rewrite E in H1. congruence. Qed.

Lemma fits_rep : table_fits g (length (input_types w.1)) (ins g p) <-> inputs_fit m i.
Proof using R Hl Hw.
  split.
  - intros Hf w' k [[[j x] j'] y] Hw' Hk [Ej Hx]. cbn in Ej, Hx. subst j'. rewrite Hw in Hw'. injection Hw' as <-. cbn. destruct (index_ins k j x y Hk) as (e & He & Ek & Ec & Es). destruct (Hf e He) as [Hs Hu]; [rewrite Ec; by apply Z.eqb_neq|]. split; [lia|].
    intros k' [[[j2 x2] j2'] y2] Hk' [Ej2 Hx2] Ey. cbn in *. subst j2' y2. destruct (index_ins k' j2 x2 y Hk') as (e' & He' & Ek' & Ec' & Es'). rewrite <- Ek, <- Ek'. f_equal. apply Hu; [done|rewrite Ec'; by apply Z.eqb_neq|congruence].
  - intros Hf e He Hc. destruct (ins_index e He) as (ed & j & nj & _ & _ & Hk & Ec & Es). rewrite Hc in Ec. symmetry in Ec. apply Z.eqb_neq in Ec. destruct (Hf w _ _ Hw Hk ltac:(by split)) as [Hs Hu]. cbn in Hs, Hu. rewrite Es. split; [done|]. intros e' He' Hc' Es'.
    destruct (ins_index e' He') as (ed' & j' & nj' & _ & _ & Hk' & Ec' & Es2). rewrite Hc' in Ec'. symmetry in Ec'. apply Z.eqb_neq in Ec'. apply index_inj; [done|done|]. eapply Hu; [exact Hk'|by split|cbn; congruence].
Qed.

Lemma map_size_list {A} (h : gmap nat A) l : NoDup l -> (forall k, k ∈ l <-> is_Some (h !! k)) -> size h = length l.
Proof using.
  intros Hnd Hin. rewrite <- size_dom. assert (dom h = list_to_set l) as -> by (apply set_eq; intros k; by rewrite elem_of_dom, elem_of_list_to_set, Hin). by apply size_list_to_set.
Qed.

Lemma data_count_rep : data_count m i = length (filter (fun e => is_control g e = false) (ins g p)).
Proof using R Hl.
  unfold data_count. rewrite (map_size_list _ (edge_index <$> filter (fun e => is_control g e = false) (ins g p))); [by rewrite length_fmap| |].
  - apply NoDup_fmap_2_strong; [|apply NoDup_filter, ins_nodup]. intros e e' [_ He]%list_elem_of_filter [_ He']%list_elem_of_filter. by apply index_inj.
  - intros k. rewrite list_elem_of_fmap. split.
    + intros (e & -> & [Hc He]%list_elem_of_filter). destruct (ins_index e He) as (ed & j & nj & _ & _ & Hk & Ec & _). rewrite Hc in Ec. symmetry in Ec. apply Z.eqb_neq in Ec. eexists. apply map_lookup_filter_Some. split; [exact Hk|]. by split.
    + intros [[[[j x] j'] y] [Hk [Ej Hx]]%map_lookup_filter_Some]. cbn in Ej, Hx. subst j'. destruct (index_ins k j x y Hk) as (e & He & <- & Ec & _). exists e. split; [done|]. apply list_elem_of_filter. split; [|done]. rewrite Ec. by apply Z.eqb_neq.
Qed.
End represented.

(** ** The operations *)

Lemma rep_allowed N g m k e : represents N g m -> medges m !! k = Some e -> slots_allowed e.
Proof.
  intros R Hk. destruct (rep_edge R k e Hk) as (x & ed & ns & nt & [Hx Hed] & Ls & Lt & E1 & E2). destruct e as [[[i a] j] b]. cbn in *. subst. apply (rep_slots R _ _ _ _ _ _ _ _ (edge_id_ ed) Ls Lt).
  destruct (e_live _ _ _ (g_edges _ _ _ (r_ok _ _ _ R)) k x Hx) as (ed' & Hed' & _ & _ & _ & _ & _ & Hs). assert (ed' = ed) as -> by congruence. by destruct ed.
Qed.

Lemma sorted_map {A B} (P : A -> A -> Prop) (P' : B -> B -> Prop) (f : A -> B) l : Sorted P l -> (forall a b, a ∈ l -> b ∈ l -> P a b -> P' (f a) (f b)) -> Sorted P' (f <$> l).
Proof.
  induction 1 as [|a l Hs IH Hd]; intros Hf; cbn; [constructor|]. constructor; [apply IH; intros x y Hx Hy; apply Hf; by right|]. destruct Hd; constructor. apply Hf; [by left|right; by left|done].
Qed.

Section operations.
Context {N : Z} {g : Graph} {m : MultiGraph} (R : represents N g m).

Abbreviation index := (edge_index (g := g)).

Lemma num_inputs_rep p n i w (Q : Z -> Graph -> Prop) : live g p n i -> mnodes m !! i = Some w -> Q (Z.of_nat (length (input_types w.1))) g -> num_inputs p @ g ⇓ Q.
Proof using R. intros Hl Hw HQ. unfold num_inputs. wp_step. eapply props_rep; [done|done|]. intros w' Hw'. rewrite Hw in Hw'. injection Hw' as <-. by wp_steps. Qed.

Lemma in_edges_rep p n i (Q : list ptr -> Graph -> Prop) : live g p n i -> Q (ins g p) g -> in_edges p @ g ⇓ Q.
Proof using R. intros Hl HQ. eapply in_edges_run; [apply R|exists i; apply Hl|done|done]. Qed.

(** The table of the edges into a node has an edge at each input that one enters. *)
Lemma table_enters p n i k t s o : live g p n i -> table_of g k (ins g p) t -> t !! s = Some o ->
  match o with Some e => e ∈ ins g p /\ enters m i (Z.of_nat s) (index e) | None => forall k, ~ enters m i (Z.of_nat s) k end.
Proof using R.
  intros Hl [_ Ht] Hs. destruct o as [e|].
  - apply Ht in Hs as (He & _ & Es). split; [done|]. destruct (ins_index R Hl e He) as (ed & j & nj & _ & _ & Hk & _ & Es'). exists j, (src_output_ ed). by rewrite Hk, <- Es', Es.
  - intros k' (j & x & Hk). destruct (index_ins R Hl k' j x _ Hk) as (e & He & _ & Ec & Es). destruct (rep_allowed _ _ _ _ _ R Hk) as [[Hsl _] _]. cbn in Hsl.
    assert (t !! s = Some (Some e)); [|congruence]. apply Ht. split_and!; [done| |done]. rewrite Ec. apply Z.eqb_neq. intros Hx. apply Hsl in Hx. unfold kControlSlot in Hx. lia.
Qed.

Lemma input_edges_rep p n i w : live g p n i -> mnodes m !! i = Some w ->
  input_edges p @ g ⇓ fun r g' => g' = g /\ match r with
    | Ok l => inputs_fit m i /\ length l = length (input_types w.1) /\ forall s e, l !! s = Some e -> is_Some (edge_heap g !! e) /\ enters m i (Z.of_nat s) (index e)
    | Err c => (c = INTERNAL /\ ~ inputs_fit m i) \/ (c = INVALID_ARGUMENT /\ exists s, (s < length (input_types w.1))%nat /\ forall k, ~ enters m i (Z.of_nat s) k)
    end.
Proof using R.
  intros Hl Hw. unfold input_edges. wp_step. eapply num_inputs_rep; [done|done|]. wp_step. eapply in_edges_rep; [done|]. destruct (ins_nodup R Hl) as [Hnd Hheap]. wp_step. rewrite Nat2Z.id. eapply wp_mono; [apply (input_edges_loop_run g _ (ins g p) []); [done|done|by intros e ?%elem_of_nil|apply table_empty]|].
  cbn beta. intros r g' [-> Hr]. wp_steps. split; [done|]. cbn [app] in Hr. destruct r as [t|c]; cbn [mbind result_bind]; [|left; by rewrite <- (fits_rep R Hl Hw)]. destruct Hr as [Hf Ht]. destruct (mapM id t) as [l|] eqn:El.
  - split; [by apply (fits_rep R Hl Hw)|]. apply mapM_Some in El. split; [rewrite <- (Forall2_length _ _ _ El); apply Ht|]. intros s e Hs. destruct (Forall2_lookup_r _ _ _ _ _ El Hs) as (o & Ho & Eo). cbn in Eo. subst o. destruct (table_enters p n i _ t s (Some e) Hl Ht Ho) as [He Hent]. split; [by apply Hheap|done].
  - right. split; [done|]. apply mapM_None, Exists_exists in El as (o & Ho & Eo). cbn in Eo. subst o. apply list_elem_of_lookup_1 in Ho as [s Hs]. exists s. split; [rewrite <- (proj1 Ht); by eapply lookup_lt_Some|]. by apply (table_enters p n i _ t s None Hl Ht).
Qed.

Lemma AddWhileInputHack_rep rehash (Hrehash : forall l, rehash l ≡ₚ l) LookUpOpDef InOutTypesForNode s ns i x t nt j : N < 2 ^ 31 - 2 -> live g s ns i -> live g t nt j -> i <> 0%nat -> j <> 1%nat ->
  AddWhileInputHack rehash s x t @ g ⇓ fun st g' => exists m', effect LookUpOpDef InOutTypesForNode (CAddWhileInputHack i x j) m (RStatus st) m' /\ represents (N + 1) g' m' /\ keeps g g'.
Proof using R.
  intros HN Ls Lt Hi Hj. destruct (rep_live R _ _ _ Ls) as (wi & Hwi & _). destruct (rep_live R _ _ _ Lt) as (wj & Hwj & Hvj & _). assert (represents (N + 1) g m) as R' by (apply (rep_weaken R); lia).
  assert (class_ nt = GetNodeClassForOp (op (node_def wj.1))) as Ec. { destruct (live_ok g t nt j (g_nodes _ _ _ (r_ok _ _ _ R)) Lt) as [(q & v & Hq & Hv & Hc) _]. unfold node_props in Hvj. rewrite (proj1 (proj2 Lt)) in Hvj. cbn in Hvj. rewrite Hq in Hvj. cbn in Hvj. congruence. }
  unfold AddWhileInputHack. wp_step. eapply wp_deref; [apply Lt|]. unfold IsWhileNode. rewrite Ec. case_bool_decide as Hwh; cbn [negb].
  2:{ wp_steps. exists m. split_and!; [|done|apply keeps_refl]. exists wi, wj. split_and!; [done|done|]. cbn zeta. by rewrite decide_False. }
  wp_step. eapply IsValidOutputTensor_rep; [done|done|done|]. case_bool_decide as Hx; cbn [negb ok OK].
  2:{ wp_steps. exists m. split_and!; [|done|apply keeps_refl]. exists wi, wj. split_and!; [done|done|]. cbn zeta. rewrite decide_True by done. by rewrite decide_False by tauto. }
  wp_step. eapply in_edges_rep; [done|]. wp_step. eapply wp_mono; [apply count_data_edges_run, (ins_nodup R Lt)|]. cbn beta. intros y g' [-> ->]. rewrite <- (data_count_rep R Lt). set (y := Z.of_nat (data_count m j)).
  wp_step. eapply IsValidInputTensor_rep; [done|done|done|]. case_bool_decide as Hy; cbn [negb ok OK].
  2:{ wp_steps. exists m. split_and!; [|done|apply keeps_refl]. exists wi, wj. split_and!; [done|done|]. cbn zeta. rewrite decide_True by done. rewrite decide_False by (unfold y in *; lia). done. }
  clear R'. wp_step. eapply (AddEdge_rep rehash Hrehash); [done|lia|done|done| |]. { split; cbn; [unfold kControlSlot; lia|]. intros [?|?]; done. } intros e ed g1 R1 K1 T1 _ _. destruct (T1 _ _ _ Ls) as [ns1 Ls1]. destruct (T1 _ _ _ Lt) as [nt1 Lt1].
  wp_step. eapply MaybeCopyOnWrite_rep; [done|done|]. intros g2 n2 q R2 K2 T2 _ L2 Hq Hu. destruct (T2 _ _ _ Ls1) as [ns2 Ls2]. wp_step. eapply def_rep; [done|done|]. cbn [mnodes add_edge]. intros wi' Hwi'. rewrite Hwi in Hwi'. injection Hwi' as <-.
  wp_step. eapply change_props_rep; [done|done|done|done|done|]. intros g3 R3 K3 T3 _. wp_steps. eexists. split_and!; [|exact R3|by eauto 8 with graph]. exists wi, wj. split_and!; [done|done|]. cbn zeta. rewrite decide_True by done. rewrite decide_True by (fold y; lia). done.
Qed.

(** ** Export *)

Lemma named_run p n i es : live g p n i -> (forall e, e ∈ es -> e ∈ ins g p) -> named es @ g ⇓ fun l g' => g' = g /\ l.*2 = es /\ forall a, a ∈ l -> start_name m (index a.2) = Some a.1.
Proof using R.
  intros Hl. induction es as [|e es IH]; intros Hes; cbn [named]; [wp_steps; split_and!; [done|done|by intros a ?%elem_of_nil]|]. destruct (ins_index R Hl e ltac:(apply Hes; by left)) as (ed & j & nj & [_ Hed] & Lj & Hk & _). wp_step. eapply wp_edge; [done|].
  wp_step. eapply def_rep; [done|done|]. intros wj Hwj. wp_step. eapply wp_mono; [apply IH; intros x Hx; apply Hes; by right|]. cbn beta. intros l g' (-> & E & Hn). wp_steps. split_and!; [done|cbn; by rewrite E|].
  intros a [->|Ha]%elem_of_cons; [|by apply Hn]. unfold start_name. cbn. rewrite Hk. cbn. by rewrite Hwj.
Qed.

(** What an input of a node becomes. *)
Definition cell_text (requested : list string) (s : nat) (o : option ptr) : list string := match o with Some e => start_text m (index e) | None => [default ""%string (requested !! s)] end.

Lemma start_text_op ed j nj wj k a b : live g (src_ ed) nj j -> mnodes m !! j = Some wj -> medges m !! k = Some (j, src_output_ ed, a, b) ->
  start_text m k = if IsOp nj then [input_text (name (node_def wj.1)) (src_output_ ed)] else [].
Proof using. intros (_ & _ & E) Hw Hk. unfold start_text, source_text, IsOp. rewrite Hk, E. cbn [fst snd]. rewrite Hw. destruct (Nat.ltb_spec j 2), (Z.ltb_spec 1 (Z.of_nat j)); (done || lia). Qed.

Lemma add_inputs_run p n i requested : live g p n i -> forall inputs s dst, (forall e, Some e ∈ inputs -> e ∈ ins g p) ->
  add_inputs requested s inputs dst @ g ⇓ fun d g' => g' = g /\ d = with_input (input dst ++ concat (imap (fun r => cell_text requested (s + r)) inputs)) dst.
Proof using R.
  intros Hl. induction inputs as [|o inputs IH]; intros s dst Hin; cbn [add_inputs]; [wp_steps; split; [done|]; cbn; rewrite app_nil_r; by destruct dst|]. assert (forall e, Some e ∈ inputs -> e ∈ ins g p) as Hin' by (intros x Hx; apply Hin; by right).
  assert (forall x, imap (fun r => cell_text requested (s + r)) (x :: inputs) = cell_text requested s x :: imap (fun r => cell_text requested (S s + r)) inputs) as Ei.
  { intros x. rewrite imap_cons, Nat.add_0_r. f_equal. apply imap_ext. intros r y _. unfold compose. by rewrite Nat.add_succ_r. }
  rewrite Ei. destruct o as [e|].
  2:{ eapply wp_mono; [by apply IH|]. cbn beta. intros d g' [-> ->]. split; [done|]. cbn [concat cell_text]. by rewrite app_assoc. }
  destruct (ins_index R Hl e ltac:(apply Hin; by left)) as (ed & j & nj & [_ Hed] & Lj & Hk & _). destruct (rep_live R _ _ _ Lj) as (wj & Hwj & _). wp_step. eapply wp_edge; [done|]. wp_step. eapply wp_deref; [apply Lj|].
  cbn [concat cell_text]. rewrite (start_text_op ed j nj wj _ _ _ Lj Hwj Hk). destruct (IsOp nj); cbn [negb]; [|eapply wp_mono; [by apply IH|]; cbn beta; intros d g' [-> ->]; done].
  wp_step. eapply def_rep; [done|done|]. intros wj' Hwj'. rewrite Hwj in Hwj'. injection Hwj' as <-. eapply wp_mono; [by apply IH|]. cbn beta. intros d g' [-> ->]. split; [done|]. unfold AddInput. cbn. unfold input_text. by rewrite <- app_assoc.
Qed.

Lemma controls_rep p n i k : live g p n i -> k ∈ index <$> filter (fun e => is_control g e = true) (ins g p) <-> exists j, control m j i k.
Proof using R.
  intros Hl. rewrite list_elem_of_fmap. split.
  - intros (e & -> & [Hc He]%list_elem_of_filter). destruct (ins_index R Hl e He) as (ed & j & nj & _ & _ & Hk & Ec & _). rewrite Hc in Ec. symmetry in Ec. apply Z.eqb_eq in Ec. exists j. unfold control. destruct (rep_allowed _ _ _ _ _ R Hk) as [[Hsl _] _]. cbn in Hsl. rewrite Hk, Ec, (Hsl Ec). done.
  - intros [j Hk]. destruct (index_ins R Hl k _ _ _ Hk) as (e & He & Ek & Ec & _). exists e. split; [done|]. by apply list_elem_of_filter.
Qed.

Lemma export_node_rep p n i : live g p n i -> inputs_fit m i -> export_node p @ g ⇓ fun d g' => g' = g /\ exported m i d.
Proof using R.
  intros Hl Hfit. destruct (rep_live R _ _ _ Hl) as (w & Hw & Hv & Hs). unfold export_node. wp_step. eapply def_rep; [done|done|]. intros w' Hw'. rewrite Hw in Hw'. injection Hw' as <-.
  unfold assigned_device_name. wp_step. wp_step. eapply wp_deref; [apply Hl|]. wp_step. wp_step. eapply wp_of_option; [done|]. wp_step. eapply num_inputs_rep; [done|done|]. wp_step. eapply in_edges_rep; [done|]. rewrite Nat2Z.id. destruct (ins_nodup R Hl) as [Hnd Hheap].
  wp_step. eapply wp_mono; [apply (collect_inputs_run g (length (input_types w.1)) (ins g p) []); [done|done|by apply (fits_rep R Hl Hw)|apply table_empty]|]. cbn beta. intros [t controls] g' (-> & Ht & ->). cbn [app] in Ht. cbn [app].
  wp_step. eapply wp_mono; [apply (named_run p n i); [done|]; by intros e [_ ?]%list_elem_of_filter|]. cbn beta. intros l g' (-> & El & Hn). set (sorted := merge_sort name_le l). assert (sorted ≡ₚ l) as Hperm by apply merge_sort_Permutation.
  assert (sorted.*2 ≡ₚ filter (fun e => is_control g e = true) (ins g p)) as Hps by (rewrite <- El; by apply fmap_Permutation).
  eapply wp_mono; [apply (add_inputs_run p n i); [done|]; intros e [He|He]%elem_of_app|].
  - apply list_elem_of_lookup_1 in He as [s Hs']. by apply Ht in Hs' as (? & _).
  - apply list_elem_of_fmap in He as (a & [= ->] & Ha). assert (a.2 ∈ sorted.*2) as Ha2 by (apply list_elem_of_fmap; by exists a). rewrite Hps in Ha2. by apply list_elem_of_filter in Ha2 as [_ ?].
  - cbn beta. intros d g' [-> ->]. split; [done|]. exists w, (imap (cell_text (input (node_def w.1))) t), (index <$> sorted.*2). split_and!; [done| | | | | |].
    + assert (forall s, imap (fun r => cell_text (input (node_def w.1)) (s + r)) (map (fun c : string * ptr => Some c.2) sorted) = map (start_text m) (index <$> sorted.*2)) as Ec.
      { intros s. clear. revert s. induction sorted as [|a l' IH]; intros s; [done|]. cbn [map fmap list_fmap]. rewrite imap_cons. f_equal. erewrite imap_ext; [apply (IH (S s))|]. intros r y _. unfold compose. by rewrite Nat.add_succ_r. }
      assert (forall c, c = concat (imap (fun r => cell_text (input (node_def w.1)) (0 + r)) (t ++ map (fun c : string * ptr => Some c.2) sorted)) -> c = concat (imap (cell_text (input (node_def w.1))) t) ++ concat (map (start_text m) (index <$> sorted.*2))) as Ea.
      { intros c ->. rewrite imap_app, concat_app. f_equal. f_equal. apply (Ec (length t)). }
      rewrite (Ea _ eq_refl). case_bool_decide as Hd; [rewrite decide_True by done|rewrite decide_False by done]; by destruct (node_def w.1).
    + rewrite length_imap. apply Ht.
    + intros s x. rewrite list_lookup_imap. destruct (t !! s) as [o|] eqn:Ho; [|done]. cbn. intros [= <-]. pose proof (table_enters p n i _ t s o Hl Ht Ho) as Hent. destruct o as [e|]; [left|by right].
      destruct Hent as [_ (j & y & Hk)]. exists (index e), j, y. split; [done|]. cbn. unfold start_text. by rewrite Hk.
    + rewrite Hps. apply NoDup_fmap_2_strong; [|by apply NoDup_filter]. intros e e' [_ He]%list_elem_of_filter [_ He']%list_elem_of_filter. by apply (index_inj R Hl).
    + intros k. rewrite Hps. by apply (controls_rep p n i).
    + rewrite <- list_fmap_compose. eapply (sorted_map name_le); [apply Sorted_merge_sort; intros a b; apply String.leb_total|]. intros a b Ha Hb Hab x y Hx Hy. rewrite Hperm in Ha, Hb. apply Hn in Ha, Hb. unfold name_le in Hab. cbn in Hx, Hy. congruence.
Qed.

(** The nodes from one id on. *)
Lemma export_nodes_rep (Hfit : forall i, is_op m i -> inputs_fit m i) : forall ps a, ps = drop a (nodes_ g) ->
  export_nodes ps @ g ⇓ fun ds g' => g' = g /\ exists ids, Forall2 (exported m) ids ds /\ StronglySorted lt ids /\ forall i, i ∈ ids <-> (a <= i)%nat /\ is_op m i.
Proof using R.
  assert (forall i, is_op m i -> exists p, nodes_ g !! i = Some (Some p)) as Hop. { intros i [_ [w Hw]]. destruct (rep_node R i w Hw) as (p & n & Hl & _). exists p. apply Hl. }
  induction ps as [|o ps IH]; intros a Eps; cbn [export_nodes].
  - wp_steps. split; [done|]. exists []. split_and!; [constructor|constructor|]. intros i. split; [by intros ?%elem_of_nil|]. intros [Hi Hj]. destruct (Hop i Hj) as [p Hp]. apply lookup_lt_Some in Hp. pose proof (f_equal length Eps) as El. rewrite length_drop in El. cbn in El. lia.
  - assert (nodes_ g !! a = Some o) as Ha by (rewrite <- (Nat.add_0_r a), <- lookup_drop, <- Eps; done). assert (ps = drop (S a) (nodes_ g)) as Eps' by (rewrite <- Nat.add_1_r, <- drop_drop, <- Eps; done).
    assert (forall i, (a <= i)%nat /\ is_op m i <-> (i = a /\ is_op m a) \/ ((S a <= i)%nat /\ is_op m i)) as Hsplit by (intros i; split; [intros [? ?]; destruct (decide (i = a)) as [->|]; [by left|right; split; [lia|done]]|intros [[-> ?]|[? ?]]; split; (done || lia)]).
    assert (~ is_op m a -> export_nodes ps @ g ⇓ fun ds g' => g' = g /\ exists ids, Forall2 (exported m) ids ds /\ StronglySorted lt ids /\ forall i, i ∈ ids <-> (a <= i)%nat /\ is_op m i) as Hskip.
    { intros Hno. eapply wp_mono; [by apply (IH (S a))|]. cbn beta. intros ds g' (-> & ids & H1 & H2 & H3). split; [done|]. exists ids. split_and!; [done|done|]. intros i. rewrite Hsplit, H3. tauto. }
    destruct o as [p|]; [|apply Hskip; intros Hj; destruct (Hop a Hj); congruence]. destruct (live_at g a p (g_nodes _ _ _ (r_ok _ _ _ R)) Ha) as (n & Hl & _). destruct (rep_live R _ _ _ Hl) as (w & Hw & _). wp_step. eapply wp_deref; [apply Hl|].
    assert (IsOp n = true <-> is_op m a) as Eop. { unfold IsOp. rewrite (proj2 (proj2 Hl)), Z.ltb_lt. unfold is_op. split; [intros ?; split; [lia|by exists w]|intros [? _]; lia]. }
    destruct (IsOp n); cbn [negb]; [|apply Hskip; rewrite <- Eop; done]. assert (is_op m a) as Hj by (by apply Eop).
    wp_step. eapply wp_mono; [by apply (export_node_rep p n a), Hfit|]. cbn beta. intros d g' [-> Hd]. wp_step. eapply wp_mono; [by apply (IH (S a))|]. cbn beta. intros ds g' (-> & ids & H1 & H2 & H3). wp_steps. split; [done|]. exists (a :: ids). split_and!; [by constructor| |].
    + constructor; [done|]. apply List.Forall_forall. intros i Hi%list_elem_of_In. apply H3 in Hi as [? _]. lia.
    + intros i. rewrite elem_of_cons, H3, Hsplit. split; [intros [->|?]; [by left|by right]|intros [[-> _]|?]; [by left|by right]].
Qed.

Lemma ToGraphDef_rep LookUpOpDef InOutTypesForNode : (forall i, is_op m i -> inputs_fit m i) -> ToGraphDef @ g ⇓ fun ds g' => g' = g /\ effect LookUpOpDef InOutTypesForNode CToGraphDef m (RDefs ds) m.
Proof using R.
  intros Hfit. unfold ToGraphDef, ToGraphDefSubRange. wp_steps. eapply wp_mono; [by apply (export_nodes_rep Hfit _ 0)|]. cbn beta. intros ds g' (-> & ids & H1 & H2 & H3). split; [done|]. split; [done|]. exists ds. split; [done|]. exists ids. split_and!; [done|done|].
  intros i. rewrite H3. split; [by intros [_ ?]|]. intros ?. split; [lia|done].
Qed.
End operations.
