(* ===== verification/GraphCalls.v ===== *)
(** * Graphs of operations: the calls

    A client calls the operations of one graph, by the ids of its nodes and edges; other graphs
    may share the properties of nodes.  No call that names existing objects crashes, the replies
    and the graph are what the abstract graph says, and properties that other graphs share are
    never changed.  Then the constructor and histories of calls. *)

From S2P Require Import Prelude EdgeSet Graph GraphInvariant GraphEdges GraphProps GraphContract GraphSteps GraphExport.
Import Graph.

#[local] Open Scope runtime_scope.

(** ** The calls of a client *)

Definition node_at (i : nat) : MG ptr := p ← FindNodeId (Z.of_nat i); of_option p.
Definition edge_at (k : nat) : MG ptr := e ← FindEdgeId (Z.of_nat k); of_option e.
Definition id_of (p : ptr) : MG nat := n ← node p; mret (Z.to_nat (id_ n)).
Definition edge_id_of (e : ptr) : MG nat := ed ← edge e; mret (Z.to_nat (edge_id_ ed)).

Fixpoint edge_ids (es : list ptr) : MG (list nat) :=
  match es with [] => mret [] | e :: es => k ← edge_id_of e; rest ← edge_ids es; mret (k :: rest) end.

Section client.
Context (rehash : list ptr -> list ptr).
Context (LookUpOpDef : string -> result nat) (InOutTypesForNode : NodeDef -> nat -> result (list Z * list Z)).

Definition perform (c : call) : MG reply :=
  match c with
  | CAddNode d =>
      '(st, p) ← AddNode LookUpOpDef InOutTypesForNode d OK;
      match p with Some p => i ← id_of p; mret (RNode st (Some i)) | None => mret (RNode st None) end
  | CCopyNode i =>
      p ← node_at i; n ← node p; q ← of_option (props_ n); s ← assigned_device_name p;
      p ← CopyNode LookUpOpDef q (id_ n) (cost_id_ n) s; i ← id_of p; mret (RNode OK (Some i))
  | CCopyFrom v id cost_id s => q ← import v; p ← CopyNode LookUpOpDef q id cost_id s; i ← id_of p; mret (RNode OK (Some i))
  | CShare i => p ← node_at i; n ← node p; q ← of_option (props_ n); modify (fun g => set_foreign ({[q]} ∪ foreign g) g);; mret RUnit
  | CRemoveNode i => p ← node_at i; RemoveNode rehash p;; mret RUnit
  | CAddEdge i x j y => s ← node_at i; t ← node_at j; e ← AddEdge rehash s x t y; k ← edge_id_of e; mret (REdge (Ok (Some k)))
  | CAddControlEdge i j dup =>
      s ← node_at i; t ← node_at j; e ← AddControlEdge rehash s t dup;
      match e with Some e => k ← edge_id_of e; mret (REdge (Ok (Some k))) | None => mret (REdge (Ok None)) end
  | CRemoveEdge k => e ← edge_at k; RemoveEdge rehash e;; mret RUnit
  | CRemoveControlEdge k => e ← edge_at k; RemoveControlEdge rehash e;; mret RUnit
  | CUpdateEdge i x j y => s ← node_at i; t ← node_at j; st ← UpdateEdge rehash s x t y; mret (RStatus st)
  | CSetName i s => p ← node_at i; set_name p s;; mret RUnit
  | CSetRequestedDevice i s => p ← node_at i; set_requested_device p s;; mret RUnit
  | CSetOriginalNodeNames i l => p ← node_at i; set_original_node_names p l;; mret RUnit
  | CClearAttr i k => p ← node_at i; ClearAttr p k;; mret RUnit
  | CAddAttr i k val => p ← node_at i; AddAttr InOutTypesForNode p k val;; mret RUnit
  | CAssignDevice i s => p ← node_at i; set_assigned_device_name p s;; mret RUnit
  | CInEdges i => p ← node_at i; es ← in_edges p; l ← edge_ids es; mret (REdges l)
  | COutEdges i => p ← node_at i; es ← out_edges p; l ← edge_ids es; mret (REdges l)
  | CInputEdge i x =>
      p ← node_at i; e ← input_edge p x;
      match e with Ok e => k ← edge_id_of e; mret (REdge (Ok (Some k))) | Err c => mret (REdge (Err c)) end
  | CInputEdges i =>
      p ← node_at i; es ← input_edges p;
      match es with Ok es => l ← edge_ids es; mret (RInputs (Ok l)) | Err c => mret (RInputs (Err c)) end
  | CAddWhileInputHack i x j => s ← node_at i; t ← node_at j; st ← AddWhileInputHack rehash s x t; mret (RStatus st)
  | CToGraphDef => ds ← ToGraphDef; mret (RDefs ds)
  | CNumNodes => k ← num_nodes; mret (RCount k)
  | CNumEdges => k ← num_edges; mret (RCount k)
  end.

Fixpoint perform_all (cs : list call) : MG (list reply) :=
  match cs with [] => mret [] | c :: cs => r ← perform c; rs ← perform_all cs; mret (r :: rs) end.

End client.

(** ** Small steps *)

Lemma wp_node_at N g m i (Q : ptr -> Graph -> Prop) : represents N g m -> has_node m i -> (forall p n w, live g p n i -> mnodes m !! i = Some w -> Q p g) -> node_at i @ g ⇓ Q.
Proof.
  intros R [w Hw] HQ. destruct (rep_node R i w Hw) as (p & n & Hl & _). unfold node_at, FindNodeId. wp_step. wp_step. wp_step. eapply wp_of_option; [by rewrite at_nat; apply Hl|]. eapply wp_of_option; [done|]. by eapply HQ.
Qed.

Lemma wp_edge_at N g m k (Q : ptr -> Graph -> Prop) : represents N g m -> is_Some (medges m !! k) ->
  (forall e ed ns i nt j, is_edge g k e ed -> live g (src_ ed) ns i -> live g (dst_ ed) nt j -> Q e g) -> edge_at k @ g ⇓ Q.
Proof.
  intros R [w Hw] HQ. destruct (rep_edge R k w Hw) as (e & ed & ns & nt & He & Ls & Lt & _). unfold edge_at, FindEdgeId. wp_step. wp_step. wp_step. eapply wp_of_option; [by rewrite at_nat; apply He|]. eapply wp_of_option; [done|]. by eapply HQ.
Qed.

Lemma wp_id_of g p n i (Q : nat -> Graph -> Prop) : live g p n i -> Q i g -> id_of p @ g ⇓ Q.
Proof. intros (_ & Hp & E) HQ. unfold id_of. wp_step. eapply wp_deref; [done|]. wp_steps. by rewrite E, Nat2Z.id. Qed.

Lemma wp_edge_id_of g e ed k (Q : nat -> Graph -> Prop) : edge_heap g !! e = Some ed -> edge_id_ ed = Z.of_nat k -> Q k g -> edge_id_of e @ g ⇓ Q.
Proof. intros He E HQ. unfold edge_id_of. wp_step. eapply wp_edge; [done|]. wp_steps. by rewrite E, Nat2Z.id. Qed.

(** The ids of a set of edges. *)
Lemma edge_ids_run N g m es : represents N g m -> (forall e, e ∈ es -> exists k ed, is_edge g k e ed) ->
  edge_ids es @ g ⇓ fun l g' => g' = g /\ (NoDup es -> NoDup l) /\ forall k, k ∈ l <-> exists e ed, e ∈ es /\ is_edge g k e ed.
Proof.
  intros R. pose proof (g_edges _ _ _ (r_ok _ _ _ R)) as He. induction es as [|e es IH]; intros Hes; cbn [edge_ids].
  - wp_steps. split_and!; [done|constructor|]. intros k. split; [by intros ?%elem_of_nil|by intros (e & ed & ?%elem_of_nil & _)].
  - destruct (Hes e ltac:(by left)) as (k & ed & Hk). destruct (e_live _ _ _ He k e (proj1 Hk)) as (ed' & Hed' & Eid & _). destruct Hk as [Hk Hed]. simplify_eq. wp_step. eapply wp_edge_id_of; [done|done|]. wp_step. eapply wp_mono; [apply IH; intros x Hx; apply Hes; by right|].
    cbn beta. intros l g' (-> & Hnd & Hl). wp_steps. split_and!; [done| |].
    + intros [Hne Hn]%NoDup_cons. apply NoDup_cons. split; [|by apply Hnd]. rewrite Hl. intros (x & xd & Hx & Hxk & _). by simplify_eq.
    + intros j. rewrite elem_of_cons, Hl. split.
      * intros [->|(x & xd & Hx & Hj)]; [exists e, ed; split; [by left|by split]|exists x, xd; split; [by right|done]].
      * intros (x & xd & [->|Hx]%elem_of_cons & Hj); [left; destruct Hj as [Hj _]; by eapply edge_once|right; by exists x, xd].
Qed.

Lemma edge_ids_map g es : (forall e, e ∈ es -> is_Some (edge_heap g !! e)) -> edge_ids es @ g ⇓ fun l g' => g' = g /\ l = edge_index (g := g) <$> es.
Proof.
  induction es as [|e es IH]; intros Hes; cbn [edge_ids]; [by wp_steps|]. destruct (Hes e ltac:(by left)) as [ed Hed]. unfold edge_id_of. wp_step. wp_step. eapply wp_edge; [done|]. wp_steps. eapply wp_mono; [apply IH; intros x Hx; apply Hes; by right|].
  cbn beta. intros l g' [-> ->]. wp_steps. split; [done|]. cbn. f_equal. unfold edge_index. by rewrite Hed.
Qed.

(** Counting the entries of a table. *)
Lemma table_size {A B} (l : list (option A)) : forall h : gmap nat B, (forall i, is_Some (h !! i) <-> exists p, l !! i = Some (Some p)) -> size h = length (omap id l).
Proof.
  induction l as [|x l IH] using rev_ind; intros h Hh.
  - cbn. apply map_size_empty_iff, map_eq. intros i. rewrite lookup_empty. apply eq_None_not_Some. rewrite Hh. by intros [p ?].
  - rewrite omap_app, length_app. destruct x as [p|]; cbn.
    + assert (h !! length l <> None) as Hin by (apply not_eq_None_Some, Hh; exists p; apply lookup_snoc_Some; by right). apply not_eq_None_Some in Hin. rewrite <- (IH (delete (length l) h)).
      * rewrite (map_size_delete_Some _ _ Hin). assert (size h <> 0%nat); [|lia]. intros E%map_size_empty_inv. subst h. destruct Hin as [? Hin]. by rewrite lookup_empty in Hin.
      * intros i. destruct (decide (i = length l)) as [->|Hne]; [rewrite lookup_delete_eq, lookup_ge_None_2 by lia; split; [by intros []|by intros [? ?]]|]. rewrite lookup_delete_ne, Hh by done. split; intros [q Hq]; exists q; [by apply lookup_snoc_Some in Hq as [?|[? _]]|apply lookup_snoc_Some; by left].
    + rewrite Nat.add_0_r. apply IH. intros i. rewrite Hh. split; intros [q Hq]; exists q; [|by apply lookup_app_l_Some]. apply lookup_app_Some in Hq as [?|[_ Hq]]; [done|]. by destruct (i - length l)%nat.
Qed.

Lemma node_count N g m : represents N g m -> num_nodes_ g = Z.of_nat (size (mnodes m)).
Proof.
  intros R. rewrite (n_count g (g_nodes _ _ _ (r_ok _ _ _ R))). f_equal. symmetry. apply table_size. intros i. split.
  - intros [w Hw]. destruct (rep_node R i w Hw) as (p & n & Hl & _). exists p. apply Hl.
  - intros [p Hp]. destruct (live_at g i p (g_nodes _ _ _ (r_ok _ _ _ R)) Hp) as (n & Hl & _). destruct (rep_live R p n i Hl) as (w & Hw & _). by exists w.
Qed.

Lemma edge_count N g m : represents N g m -> num_edges_ g = Z.of_nat (size (medges m)).
Proof.
  intros R. rewrite (e_count _ _ _ (g_edges _ _ _ (r_ok _ _ _ R))). f_equal. symmetry. apply table_size. intros k. split.
  - intros [w Hw]. destruct (rep_edge R k w Hw) as (e & ed & _ & _ & He & _). exists e. apply He.
  - intros [e He]. destruct (edge_view_at g k e (r_ok _ _ _ R) He) as (ed & ns & i1 & nt & i2 & _ & _ & _ & _ & Hv). rewrite (r_edges _ _ _ R), Hv. by eexists.
Qed.

Section refinement.
Context (rehash : list ptr -> list ptr) (Hrehash : forall l, rehash l ≡ₚ l).
Context (LookUpOpDef : string -> result nat) (InOutTypesForNode : NodeDef -> nat -> result (list Z * list Z)).

Abbreviation effect := (effect LookUpOpDef InOutTypesForNode).
Abbreviation permitted := (permitted LookUpOpDef).
Abbreviation perform := (perform rehash LookUpOpDef InOutTypesForNode).

(** What a call leaves. *)
Definition kept (N : Z) (c : call) (g : Graph) (m : MultiGraph) (r : reply) (g' : Graph) : Prop :=
  exists m', effect c m r m' /\ represents (N + 1) g' m' /\ keeps g g'.

Lemma kept_same N c g m r : represents N g m -> effect c m r m -> kept N c g m r g.
Proof using. intros R He. exists m. split_and!; [done|by apply (rep_weaken R); lia|apply keeps_refl]. Qed.

Lemma step_AddNode N g m d : represents N g m -> N < 2 ^ 31 - 2 -> perform (CAddNode d) @ g ⇓ kept N (CAddNode d) g m.
Proof using.
  intros R HN. cbn [GraphCalls.perform]. unfold AddNode. cbn [OK]. destruct (LookUpOpDef (op d)) as [od|c] eqn:Ho.
  2:{ wp_steps. apply kept_same; [done|]. cbn. by rewrite Ho. }
  destruct (InOutTypesForNode d od) as [[inputs outputs]|c] eqn:Et.
  2:{ wp_steps. apply kept_same; [done|]. cbn. rewrite Ho. cbn. by rewrite Et. }
  wp_step. wp_step. eapply new_props_rep; [done|]. intros q g1 R1 K1 _ Hq _. wp_step. eapply AllocateNode_rep; [done|lia|done|]. intros p n g2 R2 K2 L2 _ _. wp_steps. eapply wp_id_of; [done|]. wp_steps.
  exists (add_node (mkProps od d inputs outputs, ""%string) m). split_and!; [|done|by eapply keeps_trans]. cbn. rewrite Ho. cbn. rewrite Et. done.
Qed.

Lemma step_CopyNode N g m i : represents N g m -> N < 2 ^ 31 - 2 -> permitted (CCopyNode i) m -> perform (CCopyNode i) @ g ⇓ kept N (CCopyNode i) g m.
Proof using.
  intros R HN (Hi & w & Hw & od & Hod). cbn [GraphCalls.perform]. wp_step. eapply wp_node_at; [done|by exists w|]. intros p n w' Hl Hw'. rewrite Hw in Hw'. injection Hw' as <-. destruct (rep_live R p n i Hl) as (w' & Hw' & Hv & Hs). rewrite Hw in Hw'. injection Hw' as <-.
  destruct (live_props g p n i (r_ok _ _ _ R) Hl) as (q & v & Hq & Hqv & Hv'). rewrite Hv in Hv'. injection Hv' as <-. wp_step. eapply wp_deref; [apply Hl|]. wp_step. eapply wp_of_option; [done|]. unfold assigned_device_name. wp_step. wp_step. eapply wp_deref; [apply Hl|]. wp_step. wp_step. eapply wp_of_option; [done|].
  pose proof (proj2 (proj2 Hl)). wp_step. eapply CopyNode_rep; [done|lia|done|lia|lia|done|]. intros p' n' g' R' K' L'. wp_step. eapply wp_id_of; [done|]. wp_steps. exists (add_node (with_op_def od w.1, w.2) m). split_and!; [|done|done]. by exists w, od.
Qed.

Lemma step_CopyFrom N g m v id cost s : represents N g m -> N < 2 ^ 31 - 2 -> permitted (CCopyFrom v id cost s) m -> perform (CCopyFrom v id cost s) @ g ⇓ kept N (CCopyFrom v id cost s) g m.
Proof using.
  intros R HN (H0 & H1 & od & Hod). cbn [GraphCalls.perform]. wp_step. eapply import_rep; [done|]. intros q g1 R1 K1 Hq. wp_step. eapply CopyNode_rep; [done|lia|done|done|done|done|]. intros p n g2 R2 K2 L2. wp_step. eapply wp_id_of; [done|]. wp_steps.
  exists (add_node (with_op_def od v, s) m). split_and!; [by exists od|done|by eapply keeps_trans].
Qed.

Lemma step_Share N g m i : represents N g m -> has_node m i -> perform (CShare i) @ g ⇓ kept N (CShare i) g m.
Proof using.
  intros R Hi. cbn [GraphCalls.perform]. wp_step. eapply wp_node_at; [done|done|]. intros p n w Hl _. destruct (live_props g p n i (r_ok _ _ _ R) Hl) as (q & v & Hq & _). wp_step. eapply wp_deref; [apply Hl|]. wp_step. eapply wp_of_option; [done|]. wp_steps. exists m. split_and!; [done| |].
  - replace (set_foreign ({[q]} ∪ foreign g) g) with (set_foreign ({[q]} ∪ foreign g) (set_props_heap (props_heap g) g)) by by destruct g. apply extends_represents; [|done]. apply (rep_weaken R). lia.
  - intros x Hx. cbn. split; [apply elem_of_union; by right|done].
Qed.

Lemma step_edges N g m c : represents N g m -> N < 2 ^ 31 - 2 -> permitted c m ->
  match c with CRemoveNode _ | CAddEdge _ _ _ _ | CAddControlEdge _ _ _ | CRemoveEdge _ | CRemoveControlEdge _ | CUpdateEdge _ _ _ _ => True | _ => False end -> perform c @ g ⇓ kept N c g m.
Proof using Hrehash.
  intros R HN Hp Hc. assert (forall g' m', represents N g' m' -> represents (N + 1) g' m') as Hw by (intros g' m' R'; apply (rep_weaken R'); lia). destruct c; try done; cbn [GraphCalls.perform GraphContract.permitted] in *.
  - destruct Hp as [Hi Hn]. wp_step. eapply wp_node_at; [done|done|]. intros p n w Hl _. wp_step. eapply RemoveNode_rep; [done|done|lia|done|done|]. intros g' R' K'. wp_steps. exists (remove_node i m). split_and!; [done|by apply Hw|done].
  - destruct Hp as (Hi & Hj & Hs). wp_step. eapply wp_node_at; [done|exact Hi|]. intros s ns ws Ls _. wp_step. eapply wp_node_at; [done|exact Hj|]. intros t nt wt Lt _. wp_step. eapply AddEdge_rep; [done|done|lia|done|done|done|]. intros e ed g' R' K' _ He Eid.
    wp_step. eapply wp_edge_id_of; [done|done|]. wp_steps. exists (add_edge (i, x, j, y) m). done.
  - destruct Hp as (Hi & Hj). wp_step. eapply wp_node_at; [done|exact Hi|]. intros s ns ws Ls _. wp_step. eapply wp_node_at; [done|exact Hj|]. intros t nt wt Lt _. wp_step. eapply wp_mono; [by eapply (AddControlEdge_rep _ Hrehash LookUpOpDef InOutTypesForNode)|].
    cbn beta. intros o g' (m' & He & R' & K' & Hid). destruct o as [e|]; [|wp_steps; by exists m']. destruct (Hid e eq_refl) as (ed & Hed & Eid). wp_step. eapply wp_edge_id_of; [done|done|]. wp_steps. by exists m'.
  - wp_step. eapply wp_edge_at; [done|done|]. intros e ed ns i nt j He _ _. wp_step. eapply RemoveEdge_rep; [done|done|lia|done|]. intros g' R' K' _. wp_steps. exists (remove_edge k m). split_and!; [done|by apply Hw|done].
  - wp_step. eapply wp_edge_at; [done|done|]. intros e ed ns i nt j He Ls Lt. wp_step. eapply wp_mono; [by eapply (RemoveControlEdge_rep _ Hrehash LookUpOpDef InOutTypesForNode)|]. cbn beta. intros _ g' (m' & Hm' & R' & K'). wp_steps. exists m'. split_and!; [done|by apply Hw|done].
  - pose proof Hp as (wi & wj & Hi & Hj & _). wp_step. eapply wp_node_at; [done|by exists wi|]. intros s ns ws Ls _. wp_step. eapply wp_node_at; [done|by exists wj|]. intros t nt wt Lt _. wp_step. eapply wp_mono; [by eapply (UpdateEdge_rep _ Hrehash LookUpOpDef InOutTypesForNode)|]. cbn beta. intros st g' Hk. wp_steps. done.
Qed.

Lemma step_props N g m c : represents N g m -> N < 2 ^ 31 - 2 -> permitted c m ->
  match c with CSetName _ _ | CSetRequestedDevice _ _ | CSetOriginalNodeNames _ _ | CClearAttr _ _ | CAddAttr _ _ _ | CAssignDevice _ _ => True | _ => False end -> perform c @ g ⇓ kept N c g m.
Proof using.
  intros R HN Hp Hc. assert (forall g' m', represents N g' m' -> represents (N + 1) g' m') as Hw by (intros g' m' R'; apply (rep_weaken R'); lia). destruct c; try done; cbn [GraphCalls.perform GraphContract.permitted] in *; wp_step; (eapply wp_node_at; [done|exact Hp|]); intros p n w Hl _; wp_step.
  1-4: eapply change_def_rep; [done|done|done|]; intros g' R' K' _; wp_steps; eexists; split_and!; [by cbn|by apply Hw|done].
  - unfold AddAttr. wp_step. eapply change_def_rep; [done|done|done|]. intros g1 R1 K1 T1. destruct (T1 _ _ _ Hl) as [n1 L1]. eapply UpdateProperties_rep; [done|done|]. intros g2 R2 K2. wp_steps. eexists. split_and!; [by cbn| |by eapply keeps_trans].
    apply Hw. replace (alter_props i (fun v => _) m) with (alter_props i (retype InOutTypesForNode) (alter_props i (with_def (fun d => with_attr (<[k:=val]> (attr d)) d)) m)); [exact R2|]. unfold alter_props, set_mnodes. cbn. f_equal. apply map_eq. intros a. destruct (decide (a = i)) as [->|Hne]; [rewrite !lookup_alter_eq; by destruct (mnodes m !! i)|by rewrite !lookup_alter_ne].
  - eapply set_assigned_device_name_rep; [done|lia|done|]. intros g' R' K' _ _ _ _ _. wp_steps. eexists. by split_and!; [by cbn|..].
Qed.

Lemma step_queries N g m c : represents N g m -> N < 2 ^ 31 - 2 -> permitted c m ->
  match c with CInEdges _ | COutEdges _ | CInputEdge _ _ | CNumNodes | CNumEdges => True | _ => False end -> perform c @ g ⇓ kept N c g m.
Proof using.
  intros R HN Hp Hc. pose proof (g_edges _ _ _ (r_ok _ _ _ R)) as He. destruct c; try done; cbn [GraphCalls.perform GraphContract.permitted] in *.
  - wp_step. eapply wp_node_at; [done|done|]. intros p n w Hl _. assert (is_node g p) as Hn by (exists i; apply Hl). destruct (e_in _ _ _ He p Hn ltac:(done)) as [Hok Hin]. wp_step. eapply in_edges_run; [done|done|done|]. wp_step.
    eapply wp_mono; [eapply edge_ids_run; [done|]; intros e Hei; destruct (Hin e Hei) as (k & ed & ? & ? & _); by exists k, ed|]. cbn beta. intros l g' (-> & Hnd & Hl'). wp_steps. apply kept_same; [done|]. split; [done|]. exists l. split_and!; [done| |].
    + apply Hnd. destruct Hok as (n' & Hn' & Hs). rewrite (ins_at g p n' Hn'). apply Hs.
    + intros k. rewrite Hl'. split.
      * intros (e & ed & Hei & Hk). destruct (Hin e Hei) as (k' & ed' & _ & Hed' & Hd). pose proof Hk as [_ Hed]. assert (ed' = ed) as -> by congruence. destruct (rep_enters _ _ _ _ _ _ _ _ _ R Hl Hk Hd) as (i1 & n1 & _ & Hm). by exists (dst_input_ ed), i1, (src_output_ ed).
      * intros (y & i1 & x & Hk). destruct (rep_entered _ _ _ _ _ _ _ _ _ _ R Hl Hk) as (e & ed & n1 & Hke & Hd & _). exists e, ed. split; [|done]. destruct (e_live _ _ _ He k e (proj1 Hke)) as (ed' & Hed' & _ & _ & _ & _ & Hi' & _). destruct Hke as [_ Hed]. assert (ed' = ed) as -> by congruence. rewrite <- Hd. by apply Hi'.
  - wp_step. eapply wp_node_at; [done|done|]. intros p n w Hl _. assert (is_node g p) as Hn by (exists i; apply Hl). destruct (e_out _ _ _ He p Hn ltac:(done)) as [Hok Hout]. wp_step. eapply out_edges_run; [done|done|done|]. wp_step.
    eapply wp_mono; [eapply edge_ids_run; [done|]; intros e Hei; destruct (Hout e Hei) as (k & ed & ? & ? & _); by exists k, ed|]. cbn beta. intros l g' (-> & Hnd & Hl'). wp_steps. apply kept_same; [done|]. split; [done|]. exists l. split_and!; [done| |].
    + apply Hnd. destruct Hok as (n' & Hn' & Hs). rewrite (outs_at g p n' Hn'). apply Hs.
    + intros k. rewrite Hl'. split.
      * intros (e & ed & Hei & Hk). destruct (Hout e Hei) as (k' & ed' & _ & Hed' & Hd). pose proof Hk as [Hk1 Hed]. assert (ed' = ed) as -> by congruence. destruct (edge_view_at g k e (r_ok _ _ _ R) Hk1) as (ed' & ns & i1 & nt & i2 & Hed1 & _ & L1 & L2 & _). assert (ed' = ed) as -> by congruence. destruct (live_fun _ _ _ _ _ _ _ Hl L1) as (_ & _ & ->); [by left|].
        exists (src_output_ ed), i2, (dst_input_ ed). by eapply rep_is_edge.
      * intros (x & j & y & Hk). destruct (rep_edge R k _ Hk) as (e & ed & ns & nt & Hke & Ls & Lt & _). cbn in *. destruct (live_fun _ _ _ _ _ _ _ Hl Ls) as (-> & _); [by right|]. exists e, ed. split; [|done].
        destruct (e_live _ _ _ He k e (proj1 Hke)) as (ed' & Hed' & _ & _ & _ & Ho' & _). destruct Hke as [_ Hed]. assert (ed' = ed) as -> by congruence. by apply Ho'.
  - wp_step. eapply wp_node_at; [done|done|]. intros p n w Hl Hw. unfold input_edge, num_inputs. wp_step. wp_step. wp_step. eapply props_rep; [done|done|]. intros w' Hw'. rewrite Hw in Hw'. injection Hw' as <-. wp_steps.
    replace ((x <? 0) || (Z.of_nat (length (input_types w.1)) <=? x)) with (negb (bool_decide (0 <= x < Z.of_nat (length (input_types w.1))))) by (by rewrite <- out_of_range_spec, orb_comm). case_bool_decide as Hx; cbn [negb].
    2:{ wp_steps. apply kept_same; [done|]. split; [done|]. exists w. by rewrite decide_False. }
    apply (wp_mono _ _ _ (fun (r : result ptr) g' => g' = g /\ match r with Ok e => exists k ed, is_edge g k e ed /\ enters m i x k | Err c => c = NOT_FOUND /\ forall k, ~ enters m i x k end)).
    { apply wp_assoc. eapply find_input_rep; [done|exact Hl| |]; [intros e ed k Hk Hent|intros Hno]; wp_steps; [split; [done|]; by exists k, ed|done]. }
    cbn beta. intros r g' [-> Hr]. destruct r as [e|c].
    + destruct Hr as (k & ed & Hk & Hent). destruct (e_live _ _ _ He k e (proj1 Hk)) as (ed' & Hed' & Eid & _). wp_step. eapply wp_edge_id_of; [done|done|]. wp_steps. apply kept_same; [done|]. split; [done|]. exists w. split; [done|]. rewrite decide_True by done. right. by exists k.
    + destruct Hr as [-> Hno]. wp_steps. apply kept_same; [done|]. split; [done|]. exists w. split; [done|]. rewrite decide_True by done. by left.
  - unfold num_nodes. wp_steps. pose proof (r_bound _ _ _ R). pose proof (omap_le (nodes_ g)) as Hle. rewrite i32_small by (rewrite (n_count g (g_nodes _ _ _ (r_ok _ _ _ R))); lia). rewrite (node_count _ _ _ R). by apply kept_same.
  - unfold num_edges. wp_steps. rewrite (edge_count _ _ _ R). by apply kept_same.
Qed.

Lemma step_export N g m c : represents N g m -> N < 2 ^ 31 - 2 -> permitted c m -> match c with CInputEdges _ | CAddWhileInputHack _ _ _ | CToGraphDef => True | _ => False end -> perform c @ g ⇓ kept N c g m.
Proof using Hrehash.
  intros R HN Hp Hc. destruct c; try done; cbn [GraphCalls.perform GraphContract.permitted] in *.
  - wp_step. eapply wp_node_at; [done|done|]. intros p n w Hl Hw. wp_step. eapply wp_mono; [by apply (input_edges_rep R p n i w)|]. cbn beta. intros [es|c] g' [-> Hr].
    + destruct Hr as (Hf & El & He). wp_step. eapply wp_mono; [apply edge_ids_map; intros e [s Hs]%list_elem_of_lookup_1; by apply (He s)|]. cbn beta. intros l g' [-> ->]. wp_steps. apply kept_same; [done|]. split; [done|]. exists w. split; [done|]. eexists. split; [done|].
      split_and!; [done|by rewrite length_fmap|]. intros s k. rewrite list_lookup_fmap. destruct (es !! s) as [e|] eqn:Hs; [|done]. cbn. intros [= <-]. by apply He.
    + wp_steps. apply kept_same; [done|]. split; [done|]. exists w. split; [done|]. by eexists.
  - destruct Hp as (Hi & Hj & Hi0 & Hj1). wp_step. eapply wp_node_at; [done|exact Hi|]. intros s ns ws Ls _. wp_step. eapply wp_node_at; [done|exact Hj|]. intros t nt wt Lt _. wp_step.
    eapply wp_mono; [by eapply (AddWhileInputHack_rep R rehash Hrehash LookUpOpDef InOutTypesForNode)|]. cbn beta. intros st g' Hk. by wp_steps.
  - wp_step. eapply wp_mono; [by apply (ToGraphDef_rep R LookUpOpDef InOutTypesForNode)|]. cbn beta. intros ds g' [-> He]. wp_steps. by apply kept_same.
Qed.

End refinement.

(** ** Theorems

    The constructor, histories of calls, and what holds of every graph that they reach. *)

(** ** The constructor *)

Definition source_def : NodeDef := mkNodeDef "_SOURCE" "NoOp" [] "" ∅ [].
Definition sink_def : NodeDef := mkNodeDef "_SINK" "NoOp" [] "" ∅ [].

(** The graph that the constructor leaves, and what a client sees of it. *)
Definition initial_graph (vs vt : NodeProperties) : Graph :=
  let one := EdgeSet.Inline (Some 0%nat :: replicate 7 None) in
  mkGraph (<[1%nat:=mkNode 1 1 NC_OTHER one EdgeSet.EdgeSet_new (Some 1%nat) 0 None]> {[0%nat:=mkNode 0 0 NC_OTHER EdgeSet.EdgeSet_new one (Some 0%nat) 0 None]})
    {[0%nat:=mkEdge 0 1 0 kControlSlot kControlSlot]} (<[1%nat:=vt]> {[0%nat:=vs]}) ∅ [Some 0%nat; Some 1%nat] 2 [Some 0%nat] 1 [] [] 0 [""%string] ∅ ∅.

Definition initial (vs vt : NodeProperties) : MultiGraph :=
  mkMulti (<[1%nat:=(vt, ""%string)]> {[0%nat:=(vs, ""%string)]}) {[0%nat:=(0%nat, kControlSlot, 1%nat, kControlSlot)]} 2 1.

Lemma initial_represents vs vt : op (node_def vs) = "NoOp"%string -> op (node_def vt) = "NoOp"%string -> represents 2 (initial_graph vs vt) (initial vs vt).
Proof.
  intros Os Ot. set (g := initial_graph vs vt). assert (forall i p, nodes_ g !! i = Some (Some p) -> i = p /\ (p = 0 \/ p = 1)%nat) as Hn by (intros [|[|i]] p [= <-]; auto).
  assert (forall j e, edges_ g !! j = Some (Some e) -> j = 0%nat /\ e = 0%nat) as He by (by intros [|j] e [= <-]). assert (EdgeSet.holds (EdgeSet.Inline (Some 0%nat :: replicate 7 None)) [0%nat]) as Hone by (split; [repeat constructor; by intros ?%elem_of_nil|split; [unfold EdgeSet.kInline; cbn; lia|done]]).
  pose proof EdgeSet.holds_new as Hnew. assert (is_node g 0 /\ is_node g 1) as [H0 H1] by (split; [by exists 0%nat|by exists 1%nat]).
  constructor; [constructor; constructor| | |done|done|cbn; lia].
  - intros i p Hi. destruct (Hn i p Hi) as [-> [->| ->]]; eexists; (split_and!; [done|done|]); (split; [|cbn; lia]); eexists; eexists; (split_and!; [done|done|]); rewrite ?Os, ?Ot; done.
  - split; [constructor|]. by intros p ?%elem_of_nil.
  - intros p n Hp. left. cbn [node_heap g initial_graph] in Hp. apply lookup_insert_Some in Hp as [[<- _]|[_ [<- _]%lookup_singleton_Some]]; done.
  - by exists 0%nat, 1%nat.
  - done.
  - intros j e Hj. destruct (He j e Hj) as [-> ->]. eexists. split_and!; [done|done|done|done|by left|by left|]. by split.
  - intros p [i Hi] _. destruct (Hn i p Hi) as [-> [->| ->]].
    + split; [eexists; by split|]. by intros e ?%elem_of_nil.
    + split; [eexists; by split|]. intros e [->|?%elem_of_nil]%elem_of_cons; [|done]. by eexists 0%nat, _.
  - intros p [i Hi] _. destruct (Hn i p Hi) as [-> [->| ->]].
    + split; [eexists; by split|]. intros e [->|?%elem_of_nil]%elem_of_cons; [|done]. by eexists 0%nat, _.
    + split; [eexists; by split|]. by intros e ?%elem_of_nil.
  - split; [constructor|]. by intros e ?%elem_of_nil.
  - done.
  - done.
  - intros s i. cbn [device_names_map_ device_names_ g initial_graph]. rewrite lookup_empty. split; [done|]. intros (Hi & Hs & _). apply lookup_lt_Some in Hs. cbn in Hs. lia.
  - done.
  - intros [|[|i]]; [done|done|]. cbn [mnodes initial]. by rewrite lookup_insert_ne, lookup_singleton_ne.
  - intros [|j]; [done|]. cbn [medges initial]. by rewrite lookup_singleton_ne.
Qed.

Lemma init_run rehash LookUpOpDef InOutTypesForNode od ins_s outs_s ins_t outs_t : LookUpOpDef "NoOp"%string = Ok od -> InOutTypesForNode source_def od = Ok (ins_s, outs_s) -> InOutTypesForNode sink_def od = Ok (ins_t, outs_t) ->
  Graph_init rehash LookUpOpDef InOutTypesForNode empty_graph = Val (tt, initial_graph (mkProps od source_def ins_s outs_s) (mkProps od sink_def ins_t outs_t)).
Proof. intros Ho Hs Ht. unfold Graph_init, AddNode. cbn [op]. rewrite Ho. fold source_def sink_def. rewrite Hs, Ht. by vm_compute. Qed.

(** ** Histories *)

Section histories.
Context (rehash : list ptr -> list ptr) (Hrehash : forall l, rehash l ≡ₚ l).
Context (LookUpOpDef : string -> result nat) (InOutTypesForNode : NodeDef -> nat -> result (list Z * list Z)).

Abbreviation effect := (effect LookUpOpDef InOutTypesForNode).
Abbreviation permitted := (permitted LookUpOpDef).
Abbreviation perform := (perform rehash LookUpOpDef InOutTypesForNode).
Abbreviation perform_all := (perform_all rehash LookUpOpDef InOutTypesForNode).

Lemma perform_step N g m c : represents N g m -> N < 2 ^ 31 - 2 -> permitted c m -> perform c @ g ⇓ kept LookUpOpDef InOutTypesForNode N c g m.
Proof using Hrehash.
  intros R HN Hp. destruct c; try (by apply step_edges); try (by apply step_props); try (by apply step_queries); try (by apply step_export).
  - by apply step_AddNode.
  - by apply step_CopyNode.
  - by apply step_CopyFrom.
  - by apply step_Share.
Qed.

(** Every call of a history is permitted when it comes. *)
Fixpoint all_permitted (cs : list call) (m : MultiGraph) : Prop :=
  match cs with [] => True | c :: cs => permitted c m /\ forall r m', effect c m r m' -> all_permitted cs m' end.

Fixpoint effects (cs : list call) (m : MultiGraph) (rs : list reply) (m' : MultiGraph) : Prop :=
  match cs, rs with
  | [], [] => m' = m
  | c :: cs, r :: rs => exists m1, effect c m r m1 /\ effects cs m1 rs m'
  | _, _ => False
  end.

Lemma perform_all_run cs : forall N g m, represents N g m -> N + Z.of_nat (length cs) < 2 ^ 31 - 1 -> all_permitted cs m ->
  perform_all cs @ g ⇓ fun rs g' => exists m', effects cs m rs m' /\ represents (N + Z.of_nat (length cs)) g' m' /\ keeps g g'.
Proof using Hrehash.
  induction cs as [|c cs IH]; intros N g m R HN Hp; cbn [GraphCalls.perform_all].
  - wp_steps. exists m. split_and!; [done|by rewrite Z.add_0_r|apply keeps_refl].
  - destruct Hp as [Hc Hp]. cbn [length] in HN. wp_step. eapply wp_mono; [apply (perform_step N g m c); [done|lia|done]|]. cbn beta. intros r g1 (m1 & He & R1 & K1). wp_step. eapply wp_mono; [eapply IH; [exact R1|lia|by eapply Hp]|].
    cbn beta. intros rs g2 (m2 & Hes & R2 & K2). wp_steps. exists m2. split_and!; [by exists m1|eapply rep_weaken; [exact R2|cbn [length]; lia]|by eapply keeps_trans].
Qed.

End histories.

(** ** From the constructor on *)

Section claims.
Context (rehash : list ptr -> list ptr) (LookUpOpDef : string -> result nat) (InOutTypesForNode : NodeDef -> nat -> result (list Z * list Z)).
Context (od : nat) (vs vt : NodeProperties).

(** The registry knows the operation of the source and of the sink. *)
Definition registry_ok : Prop :=
  LookUpOpDef "NoOp"%string = Ok od /\ InOutTypesForNode source_def od = Ok (input_types vs, output_types vs) /\ InOutTypesForNode sink_def od = Ok (input_types vt, output_types vt)
  /\ op_def vs = od /\ op_def vt = od /\ node_def vs = source_def /\ node_def vt = sink_def.

(** A new graph and a history of calls. *)
Definition history (cs : list call) : MG (list reply) := Graph_init rehash LookUpOpDef InOutTypesForNode;; perform_all rehash LookUpOpDef InOutTypesForNode cs.

Lemma history_run cs : (forall l, rehash l ≡ₚ l) -> registry_ok -> all_permitted LookUpOpDef InOutTypesForNode cs (initial vs vt) -> Z.of_nat (length cs) < 2 ^ 31 - 3 ->
  history cs @ empty_graph ⇓ fun rs g => exists m, effects LookUpOpDef InOutTypesForNode cs (initial vs vt) rs m /\ represents (2 + Z.of_nat (length cs)) g m.
Proof using.
  intros Hr (Ho & Hs & Ht & Es & Et & Ds & Dt) Hp Hl. unfold history. wp_step. unfold wp at 1. rewrite (init_run _ _ _ _ _ _ _ _ Ho Hs Ht). rewrite <- Ds, <- Dt. rewrite <- Es at 1. rewrite <- Et. destruct vs as [ods ds is1 os1], vt as [odt dt it1 ot1]. cbn in *. subst.
  eapply wp_mono; [apply (perform_all_run rehash Hr); [by apply initial_represents|lia|done]|]. cbn beta. intros rs g (m & He & R & _). by exists m.
Qed.
End claims.
