(* ===== verification/GraphAlgorithm.v ===== *)
(** * Graph algorithms: the model

    [core/graph/algorithm.cc]: depth-first search from a set of nodes along the edges or against
    them, post-orders, pruning of the nodes from which no chosen node is reached, and the edges
    that connect every node with the source and the sink. *)

From S2P Require Import Prelude EdgeSet Graph.
From stdpp Require Import sorting.
Import Graph.

(** A comparator of nodes and a filter of edges, if set. *)
Abbreviation NodeComparator := (option (Graph -> ptr -> ptr -> bool)).
Abbreviation EdgeFilter := (option (Edge -> bool)).

Definition NodeComparatorID (g : Graph) (a b : ptr) : bool :=
  match node_heap g !! a, node_heap g !! b with Some na, Some nb => (id_ na <? id_ nb)%Z | _, _ => false end.

Definition node_name (g : Graph) (p : ptr) : option string := n ← node_heap g !! p; q ← props_ n; v ← props_heap g !! q; Some (name (node_def v)).
Definition NodeComparatorName (g : Graph) (a b : ptr) : bool :=
  match node_name g a, node_name g b with Some na, Some nb => String.ltb na nb | _, _ => false end.

Definition not_after (lt : Graph -> ptr -> ptr -> bool) (g : Graph) (a b : ptr) : Prop := lt g b a = false.
#[export] Instance not_after_dec lt g : RelDecision (not_after lt g).
Proof. unfold not_after. intros a b. apply _. Defined.

(** [std::sort]. *)
Definition sort_nodes (stable_comparator : NodeComparator) (l : list ptr) : MG (list ptr) :=
  match stable_comparator with
  | None => mret l
  | Some lt => g ← get; mret (merge_sort (not_after lt g) l)
  end.

(** The calls of [enter] and [leave], in order. *)
Inductive Event := Enter (n : ptr) | Leave (n : ptr).

(** The nodes at the ends of the edges that a filter admits. *)
Fixpoint ends (f : EdgeFilter) (end_ : Edge -> ptr) (es : list ptr) : MG (list ptr) :=
  match es with
  | [] => mret []
  | e :: es =>
      ed ← edge e;
      rest ← ends f end_ es;
      mret (if match f with Some f => f ed | None => true end then end_ ed :: rest else rest)
  end.

(** [n->out_edges()] and [n->in_edges()], in the order of the visit. *)
Definition forward (stable_comparator : NodeComparator) (edge_filter : EdgeFilter) (n : ptr) : MG (list ptr) :=
  es ← out_edges n; ns ← ends edge_filter dst_ es; sort_nodes stable_comparator ns.
Definition backward (stable_comparator : NodeComparator) (n : ptr) : MG (list ptr) :=
  es ← in_edges n; ns ← ends None src_ es; sort_nodes stable_comparator ns.

(** A node and whether it is left; the back of the stack is its head. *)
Abbreviation Work := (ptr * bool)%type.

Definition is_visited (visited : list bool) (n : ptr) : MG bool := nd ← node n; of_option (at_ visited (id_ nd)).
Definition mark (visited : list bool) (n : ptr) : MG (list bool) :=
  nd ← node n; _ ← of_option (at_ visited (id_ nd)); mret (<[Z.to_nat (id_ nd):=true]> visited).

Fixpoint add_work (visited : list bool) (stack : list Work) (ns : list ptr) : MG (list Work) :=
  match ns with
  | [] => mret stack
  | n :: ns => v ← is_visited visited n; add_work visited (if (v : bool) then stack else (n, false) :: stack) ns
  end.

Section dfs.
Context (next : ptr -> MG (list ptr)) (enter leave : bool).

Fixpoint dfs_loop (fuel : nat) (stack : list Work) (visited : list bool) (trace : list Event) : MG (list Event) :=
  match fuel with
  | O => nofuel
  | S fuel =>
      match stack with
      | [] => mret trace
      | (n, true) :: stack => dfs_loop fuel stack visited (trace ++ [Leave n])
      | (n, false) :: stack =>
          v ← is_visited visited n;
          if (v : bool) then dfs_loop fuel stack visited trace
          else
            visited ← mark visited n;
            let trace := if enter then trace ++ [Enter n] else trace in
            let stack := if leave then (n, true) :: stack else stack in
            ns ← next n;
            stack ← add_work visited stack ns;
            dfs_loop fuel stack visited trace
      end
  end.
End dfs.

(** Enough steps: one for each start, and for each node its visit, its end and its edges. *)
Definition degree (g : Graph) (p : ptr) : nat :=
  match node_heap g !! p with Some n => (EdgeSet.size (in_edges_ n) + EdgeSet.size (out_edges_ n))%nat | None => 0%nat end.
Definition dfs_fuel (start : list ptr) (g : Graph) : nat := S (length start + sum_list_with (fun p => S (S (degree g p))) (omap id (nodes_ g)))%nat.

Definition dfs (next : ptr -> MG (list ptr)) (start : list ptr) (enter leave : bool) : MG (list Event) :=
  g ← get; dfs_loop next enter leave (dfs_fuel start g) (map (fun n => (n, false)) (reverse start)) (replicate (length (nodes_ g)) false) [].

Definition DFSFrom (start : list ptr) (enter leave : bool) (stable_comparator : NodeComparator) (edge_filter : EdgeFilter) : MG (list Event) :=
  dfs (forward stable_comparator edge_filter) start enter leave.
Definition ReverseDFSFrom (start : list ptr) (enter leave : bool) (stable_comparator : NodeComparator) : MG (list Event) :=
  dfs (backward stable_comparator) start enter leave.

Definition DFS (enter leave : bool) (stable_comparator : NodeComparator) (edge_filter : EdgeFilter) : MG (list Event) :=
  s ← source_node; s ← of_option s; DFSFrom [s] enter leave stable_comparator edge_filter.
Definition ReverseDFS (enter leave : bool) (stable_comparator : NodeComparator) : MG (list Event) :=
  t ← sink_node; t ← of_option t; ReverseDFSFrom [t] enter leave stable_comparator.

Definition left_nodes (tr : list Event) : list ptr := omap (fun ev => match ev with Leave n => Some n | Enter _ => None end) tr.
Definition entered_nodes (tr : list Event) : list ptr := omap (fun ev => match ev with Enter n => Some n | Leave _ => None end) tr.

Definition GetPostOrder (stable_comparator : NodeComparator) (edge_filter : EdgeFilter) : MG (list ptr) :=
  tr ← DFS false true stable_comparator edge_filter; mret (left_nodes tr).
Definition GetReversePostOrder (stable_comparator : NodeComparator) (edge_filter : EdgeFilter) : MG (list ptr) :=
  order ← GetPostOrder stable_comparator edge_filter; mret (reverse order).

(** ** Pruning *)

Fixpoint mark_all (visited : list bool) (ns : list ptr) : MG (list bool) :=
  match ns with [] => mret visited | n :: ns => visited ← mark visited n; mark_all visited ns end.

(** The nodes not seen before are marked and queued. *)
Fixpoint enqueue (visited : list bool) (queue : list ptr) (ns : list ptr) : MG (list bool * list ptr) :=
  match ns with
  | [] => mret (visited, queue)
  | n :: ns =>
      v ← is_visited visited n;
      if (v : bool) then enqueue visited queue ns
      else visited ← mark visited n; enqueue visited (queue ++ [n]) ns
  end.

Fixpoint bfs_loop (fuel : nat) (visited : list bool) (queue : list ptr) : MG (list bool) :=
  match fuel with
  | O => nofuel
  | S fuel =>
      match queue with
      | [] => mret visited
      | n :: queue => ns ← backward None n; '(visited, queue) ← enqueue visited queue ns; bfs_loop fuel visited queue
      end
  end.

Section edit.
Context (rehash : list ptr -> list ptr).

Fixpoint prune_loop (i : nat) (visited : list bool) (any_removed : bool) : MG bool :=
  match visited with
  | [] => mret any_removed
  | true :: visited => prune_loop (S i) visited any_removed
  | false :: visited =>
      n ← FindNodeId (Z.of_nat i);
      match n with
      | None => prune_loop (S i) visited any_removed
      | Some p =>
          n ← node p;
          if negb (IsSource n) && negb (IsSink n) then RemoveNode rehash p;; prune_loop (S i) visited true
          else prune_loop (S i) visited any_removed
      end
  end.

(** [start] in the order of the hash set. *)
Definition PruneForReverseReachability (start : list ptr) : MG bool :=
  g ← get;
  visited ← mark_all (replicate (length (nodes_ g)) false) start;
  visited ← bfs_loop (S (length start + length (nodes_ g))%nat) visited start;
  prune_loop 0 visited false.

(** ** Source and sink *)

Definition fix_source (p : ptr) (changed : bool) : MG bool :=
  n ← node p;
  if negb (IsSource n) && EdgeSet.empty (in_edges_ n) then
    s ← source_node; s ← of_option s; _ ← AddControlEdge rehash s p true; mret true
  else mret changed.
Definition fix_sink (p : ptr) (changed : bool) : MG bool :=
  n ← node p;
  if negb (IsSink n) && EdgeSet.empty (out_edges_ n) then
    t ← sink_node; t ← of_option t; _ ← AddControlEdge rehash p t true; mret true
  else mret changed.

Fixpoint fixup_loop (ps : list ptr) (changed : bool) : MG bool :=
  match ps with
  | [] => mret changed
  | p :: ps => changed ← fix_source p changed; changed ← fix_sink p changed; fixup_loop ps changed
  end.

Definition FixupSourceAndSinkEdges : MG bool := ps ← nodes; fixup_loop ps false.
End edit.
