(* ===== verification/GraphDFS.v ===== *)
(** * Graph algorithms: depth-first search

    The loop with an explicit stack visits what can be reached from its start, each node once,
    and leaves a node after its successors, unless they lead back to it. *)

From S2P Require Import Prelude EdgeSet Graph GraphInvariant GraphEdges GraphAlgorithm.
From stdpp Require Import sorting.
Import Graph.

#[local] Open Scope runtime_scope.
#[local] Open Scope nat_scope.

(** The work of leaving on a stack. *)
Definition opens (stack : list Work) : list ptr := omap (fun w : Work => if w.2 then Some w.1 else None) stack.

Lemma opens_waiting l stack : opens (map (fun n => (n, false)) l ++ stack) = opens stack.
Proof. by induction l. Qed.

Lemma opens_in stack n : n ∈ opens stack <-> (n, true) ∈ stack.
Proof.
  unfold opens. rewrite list_elem_of_omap. split; [by intros ([m []] & Hm & [= ->])|]. intros Hn. by exists (n, true).
Qed.

(** ** Marks *)

Section marks.
Context (g : Graph) (Hg : nodes_inv g).

(** The vector marks the nodes of a set. *)
Definition marks (visited : list bool) (V : gset ptr) : Prop := forall p n i, live g p n i -> visited !! i = Some (bool_decide (p ∈ V)).

Lemma marks_none : marks (replicate (length (nodes_ g)) false) ∅.
Proof. intros p n i (Hi & _). rewrite bool_decide_eq_false_2 by apply not_elem_of_empty. apply lookup_replicate_2. by eapply lookup_lt_Some. Qed.

Lemma is_visited_run visited V p (Q : bool -> Graph -> Prop) : marks visited V -> is_node g p -> Q (bool_decide (p ∈ V)) g -> is_visited visited p @ g ⇓ Q.
Proof.
  intros Hm Hp HQ. destruct (is_node_live g p Hg Hp) as (n & i & Hl & _). unfold is_visited. wp_step. eapply wp_deref; [apply Hl|]. eapply wp_of_option; [|exact HQ]. destruct Hl as (H1 & H2 & E). rewrite E, at_nat. by eapply Hm.
Qed.

Lemma mark_run visited V p (Q : list bool -> Graph -> Prop) : marks visited V -> is_node g p -> (forall visited', length visited' = length visited -> marks visited' ({[p]} ∪ V) -> Q visited' g) -> mark visited p @ g ⇓ Q.
Proof.
  intros Hm Hp HQ. destruct (is_node_live g p Hg Hp) as (n & i & Hl & _). unfold mark. wp_step. eapply wp_deref; [apply Hl|]. pose proof (Hm p n i Hl) as Hi. wp_step. eapply wp_of_option; [destruct Hl as (_ & _ & ->); by rewrite at_nat|]. wp_steps. rewrite (proj2 (proj2 Hl)), Nat2Z.id.
  apply HQ; [by rewrite length_insert|]. intros p' n' i' Hl'. destruct (decide (i' = i)) as [->|Hne].
  - destruct (live_fun _ _ _ _ _ _ _ Hl Hl') as (<- & _ & _); [by right|]. rewrite list_lookup_insert_eq by (by eapply lookup_lt_Some). rewrite bool_decide_eq_true_2 by set_solver. done.
  - rewrite list_lookup_insert_ne, (Hm p' n' i' Hl') by done. f_equal. assert (p' <> p) as Hpp by (intros ->; destruct (live_fun _ _ _ _ _ _ _ Hl Hl') as (_ & _ & ?); [by left|congruence]). apply bool_decide_ext. set_solver.
Qed.

End marks.

(** ** The search *)

Section dfs.
Context (g : Graph) (Hg : nodes_inv g) (nx : ptr -> list ptr) (Hnx : forall p q, is_node g p -> q ∈ nx p -> is_node g q).
Context (next : ptr -> MG (list ptr)) (Hnext : forall p (Q : list ptr -> Graph -> Prop), is_node g p -> Q (nx p) g -> next p @ g ⇓ Q).
Context (enter leave : bool) (start : list ptr).

Definition reach : ptr -> ptr -> Prop := rtc (fun p q => q ∈ nx p).

Abbreviation marks := (marks g).

Lemma add_work_run visited V : forall ns stack (Q : list Work -> Graph -> Prop), marks visited V -> (forall q, q ∈ ns -> is_node g q) ->
  Q (map (fun n => (n, false)) (reverse (filter (fun q => q ∉ V) ns)) ++ stack) g -> add_work visited stack ns @ g ⇓ Q.
Proof.
  induction ns as [|n ns IH]; intros stack Q Hm Hns HQ; cbn [add_work]; [by wp_steps|]. wp_step. eapply (is_visited_run g Hg); [done|apply Hns; by left|]. apply IH; [done|intros q Hq; apply Hns; by right|]. rewrite filter_cons in HQ. case_bool_decide as Hv.
  - by rewrite decide_False in HQ by tauto.
  - rewrite decide_True, reverse_cons, map_app, <- app_assoc in HQ by done. done.
Qed.

(** ** The measure *)

Definition cost (p : ptr) : nat := S (S (length (nx p))).
Definition unvisited (V : gset ptr) : nat := sum_list_with cost (filter (fun p => p ∉ V) (omap id (nodes_ g))).

Lemma node_elem p : is_node g p <-> p ∈ omap id (nodes_ g).
Proof. unfold is_node. rewrite list_elem_of_omap. split; [intros [i Hi]; exists (Some p); split; [by eapply list_elem_of_lookup_2|done]|]. intros ([q|] & Hq & [= ->]). by apply list_elem_of_lookup_1. Qed.

Lemma unvisited_step V p : is_node g p -> p ∉ V -> unvisited ({[p]} ∪ V) + cost p <= unvisited V.
Proof.
  intros Hp HV. apply node_elem in Hp. unfold unvisited. apply list_elem_of_split in Hp as (l1 & l2 & ->). rewrite !filter_app, !filter_cons. rewrite decide_False by set_solver. rewrite decide_True by done. rewrite !sum_list_with_app. cbn [sum_list_with].
  assert (forall l, sum_list_with cost (filter (fun q => q ∉ {[p]} ∪ V) l) <= sum_list_with cost (filter (fun q => q ∉ V) l)) as Hle; [|pose proof (Hle l1); pose proof (Hle l2); lia].
  induction l as [|x l IH]; [done|]. rewrite !filter_cons. repeat case_decide; cbn; [lia|set_solver|lia|lia].
Qed.

(** ** What holds between steps *)

Record visits (stack : list Work) (V : gset ptr) (tr : list Event) : Prop := {
  v_nodes : (forall w, w ∈ stack -> is_node g w.1) /\ forall p, p ∈ V -> is_node g p;
  v_start : forall s, s ∈ start -> s ∈ V \/ (s, false) ∈ stack;
  v_reach : forall p, p ∈ V \/ (exists b, (p, b) ∈ stack) -> exists s, s ∈ start /\ reach s p;
  v_closed : forall p q, p ∈ V -> q ∈ nx p -> q ∈ V \/ (q, false) ∈ stack;
  v_enter : enter = true -> NoDup (entered_nodes tr) /\ forall p, p ∈ entered_nodes tr <-> p ∈ V
}.

(** A node to be left is followed by nothing that it does not reach. *)
Fixpoint nested (stack : list Work) : Prop :=
  match stack with [] => True | w :: stack => (forall n, (n, true) ∈ stack -> reach n w.1) /\ nested stack end.

(** Its successors are visited or wait above it. *)
Fixpoint awaited (V : gset ptr) (above : list ptr) (stack : list Work) : Prop :=
  match stack with
  | [] => True
  | (n, true) :: stack => (forall q, q ∈ nx n -> q ∈ V \/ q ∈ above) /\ awaited V above stack
  | (n, false) :: stack => awaited V (n :: above) stack
  end.

(** Each node comes after its successors that do not lead back to it. *)
Definition post_ordered (l : list ptr) : Prop := forall l1 u l2, l = l1 ++ u :: l2 -> forall q, q ∈ nx u -> q ∈ l1 \/ reach q u.

Record leaves (stack : list Work) (V : gset ptr) (tr : list Event) : Prop := {
  l_once : NoDup (left_nodes tr ++ opens stack);
  l_visited : forall p, p ∈ V <-> p ∈ left_nodes tr \/ (p, true) ∈ stack;
  l_nested : nested stack;
  l_awaited : awaited V [] stack;
  l_order : post_ordered (left_nodes tr)
}.

Lemma awaited_mono stack : forall V V' a a', V ⊆ V' -> (forall q, q ∈ a -> q ∈ a' \/ q ∈ V') -> awaited V a stack -> awaited V' a' stack.
Proof.
  induction stack as [|[n []] stack IH]; intros V V' a a' HV Ha H; cbn in *; [done| |].
  - destruct H as [H1 H2]. split; [|by eapply IH]. intros q Hq. destruct (H1 q Hq) as [?|?]; [left; set_solver|]. destruct (Ha q ltac:(done)); auto.
  - eapply IH; [done| |done]. intros q [->|Hq]%elem_of_cons; [left; by left|]. destruct (Ha q Hq); [left; by right|by right].
Qed.

Lemma awaited_push V l : forall a stack, (forall a', (forall q, q ∈ l \/ q ∈ a -> q ∈ a') -> awaited V a' stack) -> awaited V a (map (fun n => (n, false)) l ++ stack).
Proof.
  induction l as [|n l IH]; intros a stack H; cbn; [apply H; by intros q [?%elem_of_nil|?]|]. apply IH. intros a' Ha'. apply H. intros q [[->|Hq]%elem_of_cons|Hq]; apply Ha'; [right; by left|by left|right; by right].
Qed.

Lemma nested_push l n stack : (forall q, q ∈ l -> reach n q) -> (forall m, (m, true) ∈ stack -> forall q, q ∈ l -> reach m q) -> nested ((n, true) :: stack) -> nested (map (fun n => (n, false)) l ++ (n, true) :: stack).
Proof.
  induction l as [|q l IH]; intros Hn Hm H; [done|]. cbn [map app nested]. split.
  - intros m [Hin|[[= ->]|Hin]%elem_of_cons]%elem_of_app; [apply list_elem_of_fmap in Hin as (? & ? & _); done|apply Hn; by left|apply Hm; [done|by left]].
  - apply IH; [intros; apply Hn; by right|intros; apply Hm; [done|by right]|done].
Qed.

Lemma all_waiting l : opens (map (fun n => (n, false)) l) = [] /\ nested (map (fun n => (n, false)) l) /\ forall V a, awaited V a (map (fun n => (n, false)) l).
Proof.
  induction l as [|n l (IH1 & IH2 & IH3)]; [done|]. cbn. split_and!; [done| |done|by intros]. intros m Hm. apply opens_in in Hm. rewrite IH1 in Hm. by apply elem_of_nil in Hm.
Qed.

(** ** Steps *)

Lemma visits_leave n stack V tr : visits ((n, true) :: stack) V tr -> visits stack V (tr ++ [Leave n]).
Proof.
  intros [[H1 H1'] H2 H3 H4 H5]. constructor.
  - split; [|done]. intros w Hw. apply H1. by right.
  - intros s Hs. destruct (H2 s Hs) as [?|[?|?]%elem_of_cons]; [by left|done|by right].
  - intros p [?|[b Hb]]; apply H3; [by left|right; exists b; by right].
  - intros p q Hp Hq. destruct (H4 p q Hp Hq) as [?|[?|?]%elem_of_cons]; [by left|done|by right].
  - unfold entered_nodes. rewrite omap_app. cbn. by rewrite app_nil_r.
Qed.

Lemma visits_skip n stack V tr : visits ((n, false) :: stack) V tr -> n ∈ V -> visits stack V tr.
Proof.
  intros [[H1 H1'] H2 H3 H4 H5] Hn. constructor; [| | | |done].
  - split; [|done]. intros w Hw. apply H1. by right.
  - intros s Hs. destruct (H2 s Hs) as [?|[[= ->]|?]%elem_of_cons]; [by left|by left|by right].
  - intros p [?|[b Hb]]; apply H3; [by left|right; exists b; by right].
  - intros p q Hp Hq. destruct (H4 p q Hp Hq) as [?|[[= ->]|?]%elem_of_cons]; [by left|by left|by right].
Qed.

(** The work that a visit pushes. *)
Definition pushed (n : ptr) (stack : list Work) (V : gset ptr) : list Work :=
  map (fun n => (n, false)) (reverse (filter (fun q => q ∉ {[n]} ∪ V) (nx n))) ++ (if leave then (n, true) :: stack else stack).

Lemma pushed_in n stack V w : w ∈ pushed n stack V <-> (w.2 = false /\ w.1 ∈ nx n /\ w.1 ∉ {[n]} ∪ V) \/ (leave = true /\ w = (n, true)) \/ w ∈ stack.
Proof.
  unfold pushed. rewrite elem_of_app, list_elem_of_fmap. setoid_rewrite elem_of_reverse. setoid_rewrite list_elem_of_filter. destruct w as [p b]. cbn. split.
  - intros [(q & [= -> ->] & ? & ?)|H]; [by left|right]. destruct leave; [|by right]. apply elem_of_cons in H as [?|?]; [by left|by right].
  - intros [(-> & ? & ?)|[[-> [= -> ->]]|?]]; [left; by exists p|right; by left|right; destruct leave; [by right|done]].
Qed.

Lemma visits_visit n stack V tr : visits ((n, false) :: stack) V tr -> n ∉ V -> visits (pushed n stack V) ({[n]} ∪ V) (if enter then tr ++ [Enter n] else tr).
Proof.
  intros [[H1 H1'] H2 H3 H4 H5] Hn. assert (is_node g n) as Hnode by (apply (H1 (n, false)); by left). destruct (H3 n) as (s0 & Hs0 & Hr0); [right; exists false; by left|]. constructor.
  - split; [|intros p [->%elem_of_singleton|Hp]%elem_of_union; [done|by apply H1']]. intros w [(_ & Hw & _)|[[_ ->]|Hw]]%pushed_in; [by eapply Hnx|done|apply H1; by right].
  - intros s Hs. rewrite pushed_in. destruct (H2 s Hs) as [?|[[= ->]|?]%elem_of_cons]; [left; set_solver|left; set_solver|auto].
  - intros p Hp. destruct (decide (p = n)) as [->|Hne]; [by exists s0|]. destruct Hp as [Hp|[b Hb]]; [apply H3; left; set_solver|]. apply pushed_in in Hb as [(_ & Hq & _)|[[_ [= -> _]]|Hb]]; [|done|apply H3; right; exists b; by right]. exists s0. split; [done|]. by eapply rtc_r.
  - intros p q Hp Hq. rewrite pushed_in. cbn. destruct (decide (q ∈ {[n]} ∪ V)) as [?|Hnot]; [by left|right]. apply elem_of_union in Hp as [->%elem_of_singleton|Hp]; [by left|]. destruct (H4 p q Hp Hq) as [?|[[= ->]|?]%elem_of_cons]; [set_solver|set_solver|auto].
  - intros He. rewrite He. destruct (H5 He) as [Hnd Hin]. unfold entered_nodes in *. rewrite omap_app. cbn. split.
    + apply NoDup_app. split_and!; [done| |repeat constructor; by intros ?%elem_of_nil]. intros p Hp [->|?%elem_of_nil]%elem_of_cons; [|done]. by apply Hin in Hp.
    + intros p. rewrite elem_of_app, Hin, elem_of_cons, elem_of_union, elem_of_singleton. split; [intros [?|[?|?%elem_of_nil]]; auto; done|]. intros [?|?]; auto.
Qed.

Lemma leaves_leave n stack V tr : leave = true -> leaves ((n, true) :: stack) V tr -> leaves stack V (tr ++ [Leave n]).
Proof.
  intros Hl [H1 H2 H3 H4 H5]. unfold left_nodes in *. assert (omap (fun ev => match ev with Leave n => Some n | Enter _ => None end) (tr ++ [Leave n]) = left_nodes tr ++ [n]) as E by (by rewrite omap_app). destruct H3 as [H3 H3'], H4 as [H4 H4']. constructor; unfold left_nodes; rewrite ?E.
  - by rewrite <- app_assoc.
  - intros p. rewrite H2, elem_of_app, !elem_of_cons. split; [intros [?|[[= ->]|?]]; auto|]. intros [[?|[->|?%elem_of_nil]]|?]; auto; done.
  - done.
  - done.
  - intros l1 u l2 El q Hq. destruct l2 as [|x l2 _] using rev_ind.
    + apply app_inj_tail in El as [<- <-]. destruct (H4 q Hq) as [HV|?%elem_of_nil]; [|done]. apply H2 in HV as [?|[[= ->]|Hin]%elem_of_cons]; [by left|right; constructor|right]. by apply H3.
    + rewrite app_comm_cons, app_assoc in El. apply app_inj_tail in El as [El _]. by eapply H5.
Qed.

Lemma leaves_skip n stack V tr : leaves ((n, false) :: stack) V tr -> n ∈ V -> leaves stack V tr.
Proof.
  intros [H1 H2 H3 H4 H5] Hn. destruct H3 as [_ H3]. constructor; [done| |done| |done].
  - intros p. rewrite H2, elem_of_cons. split; [intros [?|[?|?]]; auto; done|intros [?|?]; auto].
  - cbn in H4. eapply awaited_mono; [done| |exact H4]. intros q [->|?%elem_of_nil]%elem_of_cons; [by right|done].
Qed.

Lemma leaves_visit n stack V tr : leave = true -> leaves ((n, false) :: stack) V tr -> n ∉ V -> leaves (pushed n stack V) ({[n]} ∪ V) (if enter then tr ++ [Enter n] else tr).
Proof.
  intros Hl [H1 H2 H3 H4 H5] Hn. assert (left_nodes (if enter then tr ++ [Enter n] else tr) = left_nodes tr) as E by (destruct enter; [|done]; unfold left_nodes; rewrite omap_app; cbn; by rewrite app_nil_r). destruct H3 as [H3 H3'].
  constructor; rewrite ?E; unfold pushed; rewrite ?Hl.
  - rewrite opens_waiting. cbn. apply NoDup_app in H1 as (N1 & N2 & N3). apply NoDup_app. split_and!; [done| |].
    + intros p Hp [->|Ho]%elem_of_cons; [apply Hn, H2; by left|by eapply N2].
    + apply NoDup_cons. split; [|done]. intros Ho. apply Hn, H2. right. right. by apply opens_in.
  - intros p. rewrite elem_of_union, elem_of_singleton, H2. assert ((p, true) ∈ pushed n stack V <-> p = n \/ (p, true) ∈ stack) as Hp.
    { rewrite pushed_in. cbn. split; [intros [(? & _)|[[_ [= ->]]|?]]; auto; done|]. intros [->|?]; auto. }
    unfold pushed in Hp. rewrite Hl in Hp. rewrite Hp, elem_of_cons. split; [intros [?|[?|[?|?]]]; auto; done|]. intros [?|[?|?]]; auto.
  - assert (forall q, q ∈ reverse (filter (fun q => q ∉ {[n]} ∪ V) (nx n)) -> q ∈ nx n) as Hin by (intros q Hq; rewrite elem_of_reverse, list_elem_of_filter in Hq; tauto). apply nested_push; [intros q Hq; by apply rtc_once, Hin|intros m Hm q Hq; eapply rtc_r; [by apply H3|by apply Hin]|]. by split.
  - apply awaited_push. intros a' Ha'. cbn. split.
    + intros q Hq. destruct (decide (q ∈ {[n]} ∪ V)) as [?|Hnot]; [by left|]. right. apply Ha'. left. by rewrite elem_of_reverse, list_elem_of_filter.
    + cbn in H4. eapply awaited_mono; [|  |exact H4]; [set_solver|]. intros q [->|?%elem_of_nil]%elem_of_cons; [right; set_solver|done].
  - done.
Qed.

Lemma dfs_loop_run fuel : forall stack visited V tr, length stack + unvisited V < fuel -> marks visited V -> visits stack V tr -> (leave = true -> leaves stack V tr) ->
  dfs_loop next enter leave fuel stack visited tr @ g ⇓ fun tr' g' => g' = g /\ exists V', visits [] V' tr' /\ (leave = true -> leaves [] V' tr').
Proof.
  induction fuel as [|fuel IH]; intros stack visited V tr Hf Hm Hv Hl; [lia|]. cbn [dfs_loop]. destruct stack as [|[n []] stack].
  - wp_steps. split; [done|]. by exists V.
  - cbn in Hf. eapply IH; [|exact Hm|by apply visits_leave|]; [lia|]. intros Hlv. by apply leaves_leave; [|apply Hl].
  - assert (is_node g n) as Hn by (apply (proj1 (v_nodes _ _ _ Hv) (n, false)); by left). cbn in Hf. wp_step. eapply (is_visited_run g Hg); [done|done|]. case_bool_decide as HV.
    + eapply IH; [|exact Hm|by eapply visits_skip|]; [lia|]. intros Hlv. by eapply leaves_skip; [apply Hl|].
    + wp_step. eapply (mark_run g Hg); [done|done|]. intros visited' _ Hm'. wp_step. apply Hnext; [done|]. wp_step. eapply add_work_run; [done|intros q Hq; by eapply Hnx|]. fold (pushed n stack V).
      eapply IH; [|exact Hm'|by apply visits_visit|]; [|intros Hlv; by apply leaves_visit; [|apply Hl|]]. pose proof (unvisited_step V n Hn HV). unfold cost in *. unfold pushed. rewrite length_app, length_map, length_reverse.
      assert (length (filter (fun q => q ∉ {[n]} ∪ V) (nx n)) <= length (nx n)) by apply length_filter. destruct leave; cbn [length]; lia.
Qed.
End dfs.

#[local] Close Scope nat_scope.

(** ** Searches of a graph

    Depth-first search along the edges of a graph and against them, and post-orders. *)

Definition admits (f : EdgeFilter) (ed : Edge) : bool := match f with Some f => f ed | None => true end.

(** An edge of the graph from one node to another that a filter admits. *)
Definition linked (g : Graph) (f : EdgeFilter) (p q : ptr) : Prop := exists k e ed, is_edge g k e ed /\ src_ ed = p /\ dst_ ed = q /\ admits f ed = true.

(** The neighbours in the order of the visit. *)
Definition ends_of (g : Graph) (f : EdgeFilter) (end_ : Edge -> ptr) (es : list ptr) : list ptr := omap (fun e => ed ← edge_heap g !! e; if admits f ed then Some (end_ ed) else None) es.
Definition sorted_of (g : Graph) (cmp : NodeComparator) (l : list ptr) : list ptr := match cmp with None => l | Some lt => merge_sort (not_after lt g) l end.
Definition succs (g : Graph) (cmp : NodeComparator) (f : EdgeFilter) (p : ptr) : list ptr := sorted_of g cmp (ends_of g f dst_ (outs g p)).
Definition preds (g : Graph) (cmp : NodeComparator) (p : ptr) : list ptr := sorted_of g cmp (ends_of g None src_ (ins g p)).

Lemma sorted_perm g cmp l : sorted_of g cmp l ≡ₚ l.
Proof. destruct cmp as [lt|]; [|done]. apply merge_sort_Permutation. Qed.

Lemma sort_nodes_run g cmp l (Q : list ptr -> Graph -> Prop) : Q (sorted_of g cmp l) g -> sort_nodes cmp l @ g ⇓ Q.
Proof. intros HQ. unfold sort_nodes. destruct cmp as [lt|]; by wp_steps. Qed.

Lemma ends_run g f end_ es (Q : list ptr -> Graph -> Prop) : (forall e, e ∈ es -> is_Some (edge_heap g !! e)) -> Q (ends_of g f end_ es) g -> ends f end_ es @ g ⇓ Q.
Proof.
  revert Q. induction es as [|e es IH]; intros Q He HQ; cbn [ends]; [by wp_steps|]. destruct (He e ltac:(by left)) as [ed Hed]. wp_step. eapply wp_edge; [done|]. wp_step. apply IH; [intros x Hx; apply He; by right|]. wp_steps.
  unfold ends_of in HQ. cbn in HQ. rewrite Hed in HQ. cbn in HQ. fold (admits f ed). by destruct (admits f ed).
Qed.

Section graph.
Context (g : Graph) (Hg : graph_ok g).

Lemma in_ends f end_ es q : q ∈ ends_of g f end_ es <-> exists e ed, e ∈ es /\ edge_heap g !! e = Some ed /\ admits f ed = true /\ end_ ed = q.
Proof.
  unfold ends_of. rewrite list_elem_of_omap. split.
  - intros (e & He & Hb). destruct (edge_heap g !! e) as [ed|] eqn:Hed; [|done]. cbn in Hb. destruct (admits f ed) eqn:Ha; [|done]. injection Hb as <-. by exists e, ed.
  - intros (e & ed & He & Hed & Ha & <-). exists e. split; [done|]. rewrite Hed. cbn. by rewrite Ha.
Qed.

Lemma succs_in cmp f p q : is_node g p -> q ∈ succs g cmp f p <-> linked g f p q.
Proof.
  intros Hp. unfold succs. rewrite (sorted_perm g cmp), in_ends. destruct (e_out _ _ _ (g_edges _ _ _ Hg) p Hp ltac:(done)) as [_ Hout]. split.
  - intros (e & ed & He & Hed & Ha & Hq). destruct (Hout e He) as (k & ed' & Hk & Hed' & Hs). assert (ed' = ed) as -> by congruence. exists k, e, ed. by split_and!; [by split|..].
  - intros (k & e & ed & [Hk Hed] & Hs & Hq & Ha). exists e, ed. split_and!; [|done|done|done]. destruct (e_live _ _ _ (g_edges _ _ _ Hg) k e Hk) as (ed' & Hed' & _ & _ & _ & Ho & _). assert (ed' = ed) as -> by congruence. rewrite <- Hs. by apply Ho.
Qed.

Lemma preds_in cmp p q : is_node g p -> q ∈ preds g cmp p <-> linked g None q p.
Proof.
  intros Hp. unfold preds. rewrite (sorted_perm g cmp), in_ends. destruct (e_in _ _ _ (g_edges _ _ _ Hg) p Hp ltac:(done)) as [_ Hin]. split.
  - intros (e & ed & He & Hed & Ha & Hq). destruct (Hin e He) as (k & ed' & Hk & Hed' & Hs). assert (ed' = ed) as -> by congruence. exists k, e, ed. by split_and!; [by split|..].
  - intros (k & e & ed & [Hk Hed] & Hs & Hq & Ha). exists e, ed. split_and!; [|done|done|done]. destruct (e_live _ _ _ (g_edges _ _ _ Hg) k e Hk) as (ed' & Hed' & _ & _ & _ & _ & Hi & _). assert (ed' = ed) as -> by congruence. rewrite <- Hq. by apply Hi.
Qed.

Lemma linked_nodes f p q : linked g f p q -> is_node g p /\ is_node g q.
Proof. intros (k & e & ed & [Hk Hed] & <- & <- & _). destruct (e_live _ _ _ (g_edges _ _ _ Hg) k e Hk) as (ed' & Hed' & _ & ? & ? & _). assert (ed' = ed) as -> by congruence. done. Qed.

Lemma forward_run cmp f p (Q : list ptr -> Graph -> Prop) : is_node g p -> Q (succs g cmp f p) g -> forward cmp f p @ g ⇓ Q.
Proof.
  intros Hp HQ. unfold forward. wp_step. eapply out_edges_run; [apply Hg|done|done|]. wp_step. apply ends_run; [|by apply sort_nodes_run]. intros e He. destruct (e_out _ _ _ (g_edges _ _ _ Hg) p Hp ltac:(done)) as [_ Hout]. destruct (Hout e He) as (k & ed & _ & Hed & _). by exists ed.
Qed.

Lemma backward_run cmp p (Q : list ptr -> Graph -> Prop) : is_node g p -> Q (preds g cmp p) g -> backward cmp p @ g ⇓ Q.
Proof.
  intros Hp HQ. unfold backward. wp_step. eapply in_edges_run; [apply Hg|done|done|]. wp_step. apply ends_run; [|by apply sort_nodes_run]. intros e He. destruct (e_in _ _ _ (g_edges _ _ _ Hg) p Hp ltac:(done)) as [_ Hin]. destruct (Hin e He) as (k & ed & _ & Hed & _). by exists ed.
Qed.

(** ** Enough steps *)

Lemma neighbours_degree cmp f p : is_node g p -> (length (succs g cmp f p) <= degree g p /\ length (preds g cmp p) <= degree g p)%nat.
Proof.
  intros Hp. assert (forall f end_ es, (length (ends_of g f end_ es) <= length es)%nat) as Hle. { intros f' end_ es. unfold ends_of. induction es as [|e es IH]; [done|]. cbn [omap list_omap]. destruct (_ ≫= _); cbn [length]; lia. }
  destruct (e_out _ _ _ (g_edges _ _ _ Hg) p Hp ltac:(done)) as [(n & Hn & Ho) _]. destruct (e_in _ _ _ (g_edges _ _ _ Hg) p Hp ltac:(done)) as [(n' & Hn' & Hi) _]. assert (n' = n) as -> by congruence.
  unfold degree, succs, preds. rewrite Hn, (EdgeSet.size_spec _ _ Ho), (EdgeSet.size_spec _ _ Hi), !(sorted_perm g cmp), (ins_at g p n Hn), (outs_at g p n Hn). pose proof (Hle f dst_ (out_list n)). pose proof (Hle None src_ (in_list n)). lia.
Qed.

Lemma sum_list_with_le {A} (f h : A -> nat) l : (forall x, x ∈ l -> f x <= h x)%nat -> (sum_list_with f l <= sum_list_with h l)%nat.
Proof. induction l as [|x l IH]; intros H; [done|]. cbn. pose proof (H x ltac:(by left)). pose proof (IH ltac:(intros y Hy; apply H; by right)). lia. Qed.

(** ** A search *)

(** What a search along a relation reports: every node that can be reached from the start is
    entered once and left once, and left after its successors unless they lead back to it. *)
Definition from (R : ptr -> ptr -> Prop) (start : list ptr) (p : ptr) : Prop := exists s, s ∈ start /\ rtc R s p.
Record searched (R : ptr -> ptr -> Prop) (start : list ptr) (enter leave : bool) (tr : list Event) : Prop := {
  s_entered : enter = true -> NoDup (entered_nodes tr) /\ forall p, p ∈ entered_nodes tr <-> from R start p;
  s_left : leave = true -> NoDup (left_nodes tr) /\ forall p, p ∈ left_nodes tr <-> from R start p;
  s_order : leave = true -> forall l1 u l2, left_nodes tr = l1 ++ u :: l2 -> forall q, R u q -> q ∈ l1 \/ rtc R q u
}.

Section search.
Context (nx : ptr -> list ptr) (next : ptr -> MG (list ptr)) (enter leave : bool) (start : list ptr).
Context (Hnx : forall p q, is_node g p -> q ∈ nx p -> is_node g q).
Context (Hnext : forall p (Q : list ptr -> Graph -> Prop), is_node g p -> Q (nx p) g -> next p @ g ⇓ Q).
Context (Hdeg : forall p, is_node g p -> (length (nx p) <= degree g p)%nat).

Lemma dfs_run : (forall s, s ∈ start -> is_node g s) ->
  dfs next start enter leave @ g ⇓ fun tr g' => g' = g /\ exists V, visits g nx enter start [] V tr /\ (leave = true -> leaves nx [] V tr).
Proof.
  intros Hs. unfold dfs. wp_steps. assert (forall w, w ∈ map (fun n => (n, false)) (reverse start) <-> w.2 = false /\ w.1 ∈ start) as Hst. { intros [p b]. rewrite list_elem_of_fmap. setoid_rewrite elem_of_reverse. cbn. split; [by intros (q & [= -> ->] & ?)|]. intros [-> ?]. by exists p. }
  destruct (all_waiting nx (reverse start)) as (W1 & W2 & W3).
  apply (dfs_loop_run g (g_nodes _ _ _ Hg) nx Hnx next Hnext enter leave start _ _ _ ∅).
  - unfold dfs_fuel. rewrite length_map, length_reverse. assert (unvisited g nx ∅ <= sum_list_with (fun p => S (S (degree g p))) (omap id (nodes_ g)))%nat; [|lia]. unfold unvisited. rewrite filter_all by (apply Forall_forall; set_solver).
    apply sum_list_with_le. intros p Hp. unfold cost. apply (node_elem g p), Hdeg in Hp. lia.
  - apply marks_none.
  - constructor.
    + split; [|set_solver]. intros w [_ Hw]%Hst. by apply Hs.
    + intros s Hin. right. by apply Hst.
    + intros p [?|[b [_ Hp]%Hst]]; [set_solver|]. exists p. split; [done|constructor].
    + set_solver.
    + intros _. split; [constructor|]. intros p. cbn. set_solver.
  - intros _. constructor.
    + rewrite W1. constructor.
    + intros p. rewrite Hst. cbn. set_solver.
    + done.
    + done.
    + intros l1 u l2 E. by destruct l1.
Qed.

Context (R : ptr -> ptr -> Prop) (HR : forall p q, is_node g p -> q ∈ nx p <-> R p q).

Lemma reach_rtc p q : is_node g p -> reach nx p q <-> rtc R p q.
Proof.
  intros Hp. split; intros H.
  - induction H as [|p p' q Hs _ IH]; [constructor|]. eapply rtc_l; [by apply HR|]. apply IH. by eapply Hnx.
  - induction H as [|p p' q Hs _ IH]; [constructor|]. apply HR in Hs; [|done]. eapply rtc_l; [exact Hs|]. apply IH. by eapply Hnx.
Qed.

Lemma visits_from V tr : visits g nx enter start [] V tr -> forall p, p ∈ V <-> from R start p.
Proof.
  intros [[_ Hn] Hs Hr Hc _] p. split.
  - intros Hp. destruct (Hr p ltac:(by left)) as (s & Hin & Hreach). exists s. split; [done|]. apply reach_rtc; [|done]. destruct (Hs s Hin) as [?|?%elem_of_nil]; [by apply Hn|done].
  - intros (s & Hin & Hreach). destruct (Hs s Hin) as [HV|?%elem_of_nil]; [|done]. clear Hin. induction Hreach as [|s s' p Hss _ IH]; [done|]. apply IH. apply HR in Hss; [|by apply Hn]. by destruct (Hc s s' HV Hss) as [?|?%elem_of_nil].
Qed.

Lemma dfs_searched : (forall s, s ∈ start -> is_node g s) -> dfs next start enter leave @ g ⇓ fun tr g' => g' = g /\ searched R start enter leave tr.
Proof.
  intros Hs. eapply wp_mono; [by apply dfs_run|]. cbn beta. intros tr g' (-> & V & Hv & Hl). split; [done|]. pose proof (visits_from V tr Hv) as HV. constructor.
  - intros He. destruct (v_enter _ _ _ _ _ _ _ Hv He) as [? Hin]. split; [done|]. intros p. by rewrite Hin, HV.
  - intros He. destruct (Hl He) as [Ho Hin _ _ _]. rewrite app_nil_r in Ho. split; [done|]. intros p. rewrite <- HV, Hin. split; [by left|]. by intros [?|?%elem_of_nil].
  - intros He l1 u l2 E q Hq. destruct (Hl He) as [_ Hin _ _ Ho]. assert (is_node g u) as Hu. { apply (proj2 (v_nodes _ _ _ _ _ _ _ Hv)), Hin. left. rewrite E. apply elem_of_app. right. by left. }
    apply HR in Hq; [|done]. destruct (Ho l1 u l2 E q Hq) as [?|?]; [by left|right]. apply reach_rtc; [by eapply Hnx|done].
Qed.
End search.

Lemma DFSFrom_searched start enter leave cmp f : (forall s, s ∈ start -> is_node g s) -> DFSFrom start enter leave cmp f @ g ⇓ fun tr g' => g' = g /\ searched (linked g f) start enter leave tr.
Proof.
  intros Hs. apply (dfs_searched (succs g cmp f)); [|by intros; apply forward_run|by intros; apply neighbours_degree|by intros; apply succs_in|done]. intros p q Hp Hq. apply succs_in in Hq; [|done]. by apply linked_nodes in Hq as [_ ?].
Qed.

Lemma ReverseDFSFrom_searched start enter leave cmp : (forall s, s ∈ start -> is_node g s) -> ReverseDFSFrom start enter leave cmp @ g ⇓ fun tr g' => g' = g /\ searched (flip (linked g None)) start enter leave tr.
Proof.
  intros Hs. apply (dfs_searched (preds g cmp)); [|by intros; apply backward_run|intros; by apply (neighbours_degree cmp None)|by intros; apply preds_in|done]. intros p q Hp Hq. apply preds_in in Hq; [|done]. by apply linked_nodes in Hq as [? _].
Qed.

Lemma source_run (Q : option ptr -> Graph -> Prop) : (forall s, nodes_ g !! 0%nat = Some (Some s) -> Q (Some s) g) -> source_node @ g ⇓ Q.
Proof. intros HQ. destruct (n_ends g (g_nodes _ _ _ Hg)) as (s & t & Hs & Ht). unfold source_node, FindNodeId. wp_step. wp_step. eapply wp_of_option; [exact (eq_trans (at_nat _ 0) Hs)|]. by apply HQ. Qed.

Lemma sink_run (Q : option ptr -> Graph -> Prop) : (forall t, nodes_ g !! 1%nat = Some (Some t) -> Q (Some t) g) -> sink_node @ g ⇓ Q.
Proof. intros HQ. destruct (n_ends g (g_nodes _ _ _ Hg)) as (s & t & Hs & Ht). unfold sink_node, FindNodeId. wp_step. wp_step. eapply wp_of_option; [exact (eq_trans (at_nat _ 1) Ht)|]. by apply HQ. Qed.

(** A post-order of the nodes that can be reached from the source. *)
Record post_order (f : EdgeFilter) (order : list ptr) : Prop := {
  p_nodes : exists s, nodes_ g !! 0%nat = Some (Some s) /\ NoDup order /\ forall p, p ∈ order <-> rtc (linked g f) s p;
  p_order : forall l1 u l2, order = l1 ++ u :: l2 -> forall q, linked g f u q -> q ∈ l1 \/ rtc (linked g f) q u
}.

Lemma GetPostOrder_run cmp f : GetPostOrder cmp f @ g ⇓ fun order g' => g' = g /\ post_order f order.
Proof.
  unfold GetPostOrder, DFS. wp_step. wp_step. apply source_run. intros s Hs. wp_step. eapply wp_of_option; [done|]. eapply wp_mono; [apply DFSFrom_searched; intros x [->|?%elem_of_nil]%elem_of_cons; [by exists 0%nat|done]|].
  cbn beta. intros tr g' [-> [_ Hl Ho]]. wp_steps. split; [done|]. destruct (Hl eq_refl) as [Hnd Hin]. constructor; [|by apply Ho]. exists s. split_and!; [done|done|]. intros p. rewrite Hin. split; [|intros Hr; exists s; split; [by left|done]].
  by intros (x & [->|?%elem_of_nil]%elem_of_cons & Hr).
Qed.

(** Without cycles it is a topological order from the end. *)
Lemma post_order_topological f order p q : post_order f order -> (forall x, ~ tc (linked g f) x x) -> p ∈ order -> linked g f p q -> exists l1 l2 l3, order = l1 ++ q :: l2 ++ p :: l3.
Proof.
  intros [_ Ho] Hac Hp Hpq. apply list_elem_of_split in Hp as (l & l3 & ->). destruct (Ho l p l3 eq_refl q Hpq) as [Hq|Hr].
  - apply list_elem_of_split in Hq as (l1 & l2 & ->). exists l1, l2, l3. by rewrite <- app_assoc.
  - exfalso. apply (Hac p). eapply tc_rtc_r; [by apply tc_once|done].
Qed.
End graph.
