(* ===== verification/GraphPrune.v ===== *)
(** * Graph algorithms: pruning, and the edges of the source and the sink *)

From S2P Require Import Prelude EdgeSet Graph GraphInvariant GraphEdges GraphProps GraphContract GraphSteps GraphAlgorithm GraphDFS.
Import Graph.

#[local] Open Scope runtime_scope.

(** ** Breadth-first search against the edges *)

Lemma list_to_set_size (l : list ptr) : (size (list_to_set l : gset ptr) <= length l)%nat.
Proof.
  induction l as [|p l IH]; [by rewrite list_to_set_nil, size_empty|]. rewrite list_to_set_cons. cbn [length]. destruct (decide (p ∈ (list_to_set l : gset ptr))) as [Hin|Hin].
  - replace ({[p]} ∪ list_to_set l) with (list_to_set l : gset ptr) by set_solver. lia.
  - rewrite size_union by set_solver. rewrite size_singleton. lia.
Qed.

Section bfs.
Context (g : Graph) (Hg : graph_ok g) (start : list ptr).

Definition all_nodes : gset ptr := list_to_set (omap id (nodes_ g)).

Lemma all_nodes_in p : p ∈ all_nodes <-> is_node g p.
Proof using. unfold all_nodes. by rewrite elem_of_list_to_set, <- node_elem. Qed.

Lemma mark_all_run : forall ns visited V (Q : list bool -> Graph -> Prop), marks g visited V -> (forall p, p ∈ ns -> is_node g p) ->
  (forall visited', length visited' = length visited -> marks g visited' (list_to_set ns ∪ V) -> Q visited' g) -> mark_all visited ns @ g ⇓ Q.
Proof using Hg.
  induction ns as [|p ns IH]; intros visited V Q Hm Hns HQ; cbn [mark_all].
  - wp_steps. apply HQ; [done|]. by replace (list_to_set [] ∪ V) with V by set_solver.
  - wp_step. eapply mark_run; [apply Hg|done|apply Hns; by left|]. intros v1 L1 M1. eapply IH; [done|intros q Hq; apply Hns; by right|]. intros v2 L2 M2. apply HQ; [congruence|]. by replace (list_to_set (p :: ns) ∪ V) with (list_to_set ns ∪ ({[p]} ∪ V)) by set_solver.
Qed.

Lemma enqueue_run : forall ns visited V queue, marks g visited V -> (forall p, p ∈ ns -> is_node g p) ->
  enqueue visited queue ns @ g ⇓ fun '(visited', queue') g' => g' = g /\ length visited' = length visited
    /\ exists news, queue' = queue ++ news /\ NoDup news /\ (forall q, q ∈ news <-> q ∈ ns /\ q ∉ V) /\ marks g visited' (list_to_set news ∪ V).
Proof using Hg.
  induction ns as [|p ns IH]; intros visited V queue Hm Hns; cbn [enqueue].
  - wp_steps. split_and!; [done|done|]. exists []. rewrite app_nil_r. split_and!; [done|constructor| |]. { intros q. split; [by intros ?%elem_of_nil|by intros [?%elem_of_nil _]]. } by replace (list_to_set [] ∪ V) with V by set_solver.
  - assert (is_node g p) as Hp by (apply Hns; by left). assert (forall q, q ∈ ns -> is_node g q) as Hns' by (intros q Hq; apply Hns; by right). wp_step. eapply is_visited_run; [apply Hg|done|done|]. case_bool_decide as HV.
    + eapply wp_mono; [by apply IH|]. cbn beta. intros [v' q'] g' (-> & L & news & -> & Hnd & Hin & M). split_and!; [done|done|]. exists news. split_and!; [done|done| |done]. intros q. rewrite Hin, elem_of_cons. split; [tauto|]. intros [[->|?] ?]; done.
    + wp_step. eapply mark_run; [apply Hg|done|done|]. intros v1 L1 M1. eapply wp_mono; [by apply IH|]. cbn beta. intros [v' q'] g' (-> & L & news & -> & Hnd & Hin & M). split_and!; [done|congruence|]. exists (p :: news). split_and!.
      * by rewrite <- app_assoc.
      * apply NoDup_cons. split; [|done]. rewrite Hin. set_solver.
      * intros q. rewrite !elem_of_cons, Hin, not_elem_of_union, not_elem_of_singleton. destruct (decide (q = p)) as [->|Hne]; naive_solver.
      * by replace (list_to_set (p :: news) ∪ V) with (list_to_set news ∪ ({[p]} ∪ V)) by set_solver.
Qed.

Abbreviation R := (flip (linked g None)).

Record bfs_inv (V : gset ptr) (queue : list ptr) : Prop := {
  b_nodes : V ⊆ all_nodes;
  b_start : forall s, s ∈ start -> s ∈ V;
  b_queue : forall p, p ∈ queue -> p ∈ V;
  b_closed : forall p q, p ∈ V -> linked g None q p -> p ∈ queue \/ q ∈ V;
  b_from : forall p, p ∈ V -> from R start p
}.

Lemma bfs_inv_final V p : bfs_inv V [] -> p ∈ V <-> from R start p.
Proof using.
  intros [_ Hs _ Hc Hf]. split; [apply Hf|]. intros (s & Hin & Hr). apply Hs in Hin. induction Hr as [|s s' p Hss _ IH]; [done|]. apply IH. by destruct (Hc s s' Hin Hss) as [?%elem_of_nil|?].
Qed.

Lemma bfs_loop_run fuel : forall visited V queue, (length queue + size (all_nodes ∖ V) < fuel)%nat -> marks g visited V -> bfs_inv V queue ->
  bfs_loop fuel visited queue @ g ⇓ fun visited' g' => g' = g /\ length visited' = length visited /\ exists V', marks g visited' V' /\ bfs_inv V' [].
Proof using Hg.
  induction fuel as [|fuel IH]; intros visited V queue Hf Hm HI; [lia|]. cbn [bfs_loop]. destruct queue as [|p queue]; [wp_steps; split_and!; [done|done|]; by exists V|]. pose proof HI as [Hn Hs Hq Hc Hfr].
  assert (is_node g p) as Hp by (apply all_nodes_in, Hn, Hq; by left). wp_step. apply (backward_run g Hg); [done|]. pose proof (fun q => preds_in g Hg None p q Hp) as Hpr. wp_step. eapply wp_mono; [eapply enqueue_run; [done|intros q Hin; apply Hpr, (linked_nodes g Hg) in Hin; tauto]|].
  cbn beta. intros [v' q'] g' (-> & L & news & -> & Hnd & Hnew & M). eapply wp_mono; [eapply IH; [|exact M|]|].
  - assert ((list_to_set news : gset ptr) ⊆ all_nodes ∖ V) as Hsub. { intros q Hin. apply elem_of_list_to_set, Hnew in Hin as [Hin HV]. apply elem_of_difference. split; [|done]. apply all_nodes_in. apply Hpr, (linked_nodes g Hg) in Hin. tauto. }
    replace (all_nodes ∖ (list_to_set news ∪ V)) with ((all_nodes ∖ V) ∖ list_to_set news) by set_solver. rewrite size_difference by done. apply subseteq_size in Hsub. rewrite size_list_to_set in Hsub |- * by done. rewrite length_app. cbn [length] in Hf. lia.
  - constructor.
    + intros q [Hin|?]%elem_of_union; [|by apply Hn]. apply elem_of_list_to_set, Hnew in Hin as [Hin _]. apply all_nodes_in. apply Hpr, (linked_nodes g Hg) in Hin. tauto.
    + intros s Hin. apply elem_of_union. right. by apply Hs.
    + intros q [Hin|Hin]%elem_of_app; apply elem_of_union; [right; apply Hq; by right|left; by apply elem_of_list_to_set].
    + intros x q [Hx|Hx]%elem_of_union Hl; [left; apply elem_of_app; right; by apply elem_of_list_to_set in Hx|]. destruct (Hc x q Hx Hl) as [[->|Hin]%elem_of_cons|HV]; [|left; apply elem_of_app; by left|right; apply elem_of_union; by right].
      right. apply elem_of_union. destruct (decide (q ∈ V)); [by right|left]. apply elem_of_list_to_set, Hnew. split; [by apply Hpr|done].
    + intros x [Hx|Hx]%elem_of_union; [|by apply Hfr]. apply elem_of_list_to_set, Hnew in Hx as [Hx _]. destruct (Hfr p) as (s & Hin & Hr); [apply Hq; by left|]. exists s. split; [done|]. eapply rtc_r; [done|]. by apply Hpr.
  - cbn beta. intros v2 g2 (-> & L2 & HV). split_and!; [done|congruence|done].
Qed.
End bfs.

(** ** Removing the nodes that are not marked *)

(** What stays of a graph without some nodes. *)
Definition without_nodes (D : nat -> Prop) (m m' : MultiGraph) : Prop :=
  (forall j w, mnodes m' !! j = Some w <-> mnodes m !! j = Some w /\ ~ D j)
  /\ (forall k e, medges m' !! k = Some e <-> medges m !! k = Some e /\ ~ D e.1.1.1 /\ ~ D e.1.2)
  /\ next_node m' = next_node m /\ next_edge m' = next_edge m.

Lemma without_ext D D' m m' : (forall j, D j <-> D' j) -> without_nodes D m m' -> without_nodes D' m m'.
Proof. intros HD (H1 & H2 & H3). split_and!; [| |apply H3|apply H3]; intros; [rewrite H1|rewrite H2]; by rewrite !HD. Qed.

Lemma without_none D m : (forall j, has_node m j -> ~ D j) -> (forall k e, medges m !! k = Some e -> has_node m e.1.1.1 /\ has_node m e.1.2) -> without_nodes D m m.
Proof.
  intros HD He. split_and!; [| |done|done].
  - intros j w. split; [|tauto]. intros Hj. split; [done|]. apply HD. by exists w.
  - intros k e. split; [|tauto]. intros Hk. destruct (He k e Hk). split_and!; [done|by apply HD|by apply HD].
Qed.

Lemma without_step i D m m' : without_nodes D (remove_node i m) m' -> without_nodes (fun j => j = i \/ D j) m m'.
Proof.
  intros (H1 & H2 & H3 & H4). split_and!; [| |done|done]; intros.
  - rewrite H1. cbn [mnodes remove_node]. rewrite lookup_delete_Some. naive_solver.
  - rewrite H2. cbn [medges remove_node]. rewrite map_lookup_filter_Some. unfold touches. cbn. naive_solver.
Qed.

Lemma rep_ends N g m k e : represents N g m -> medges m !! k = Some e -> has_node m e.1.1.1 /\ has_node m e.1.2.
Proof.
  intros R Hk. destruct (rep_edge R k e Hk) as (x & ed & ns & nt & _ & Ls & Lt & _). destruct (rep_live R _ _ _ Ls) as (w & Hw & _). destruct (rep_live R _ _ _ Lt) as (w' & Hw' & _). by split; [exists w|exists w'].
Qed.

(** The nodes to remove: from an index on, those not marked, but neither the source nor the sink. *)
Definition doomed (i : nat) (visited : list bool) (j : nat) : Prop := (2 <= j)%nat /\ (i <= j)%nat /\ visited !! (j - i)%nat = Some false.

Lemma doomed_cons i b visited j : doomed i (b :: visited) j <-> (j = i /\ b = false /\ 2 <= i)%nat \/ doomed (S i) visited j.
Proof.
  unfold doomed. destruct (decide (j = i)) as [->|Hne].
  - rewrite Nat.sub_diag. cbn. split; [intros (? & _ & [= ->]); by left|]. intros [(_ & -> & ?)|(_ & ? & _)]; [done|lia].
  - destruct (decide (i < j)%nat) as [Hlt|Hge]; [|split; [intros (_ & ? & _); lia|intros [(? & _)|(_ & ? & _)]; lia]]. assert (j - i = S (j - S i))%nat as -> by lia. cbn. split; [intros (? & _ & ?); right; split_and!; [done|lia|done]|]. intros [(? & _)|(? & _ & ?)]; [done|]. split_and!; [done|lia|done].
Qed.

Section prune.
Context (rehash : list ptr -> list ptr) (Hrehash : forall l, rehash l ≡ₚ l).

Lemma prune_loop_run visited : forall N i any g m, represents N g m -> N < 2 ^ 31 - 1 -> (i + length visited = next_node m)%nat ->
  prune_loop rehash i visited any @ g ⇓ fun b g' => exists m', represents N g' m' /\ keeps g g' /\ without_nodes (doomed i visited) m m' /\ (b = true <-> any = true \/ exists j, has_node m j /\ doomed i visited j).
Proof using Hrehash.
  induction visited as [|b visited IH]; intros N i any g m R HN Hlen; cbn [prune_loop].
  - wp_steps. assert (forall j, ~ doomed i [] j) as Hno by (by intros j (_ & _ & ?)). exists m. split_and!; [done|apply keeps_refl|apply without_none; [by intros|by intros; eapply rep_ends]|]. split; [by left|]. intros [?|(j & _ & Hj)]; [done|]. by apply Hno in Hj.
  - cbn [length] in Hlen. assert (~ (b = false /\ 2 <= i /\ has_node m i)%nat -> prune_loop rehash (S i) visited any @ g ⇓ fun b' g' => exists m', represents N g' m' /\ keeps g g' /\ without_nodes (doomed i (b :: visited)) m m' /\ (b' = true <-> any = true \/ exists j, has_node m j /\ doomed i (b :: visited) j)) as Hskip.
    { intros Hno. eapply wp_mono; [apply (IH N (S i) any g m R HN); lia|]. cbn beta. intros b' g' (m' & R' & K' & (W1 & W2 & W3) & Hb). exists m'. split_and!; [done|done| |].
      - split_and!; [| |apply W3|apply W3].
        + intros j w. rewrite W1, doomed_cons. split; [|tauto]. intros [Hj Hd]. split; [done|]. intros [(-> & -> & ?)|?]; [|done]. apply Hno. split_and!; [done|done|by exists w].
        + intros k e. rewrite W2, !doomed_cons. split; [|tauto]. intros (Hk & Hs & Ht). destruct (rep_ends N g m k e R Hk). split_and!; [done| |]; (intros [(E & -> & ?)|?]; [|done]); apply Hno; rewrite <- E in *; done.
      - rewrite Hb. setoid_rewrite doomed_cons. split; [intros [?|(j & ? & ?)]; [by left|right; exists j; auto]|]. intros [?|(j & Hj & [(-> & -> & ?)|?])]; [by left|exfalso; by apply Hno|right; by exists j]. }
    destruct b; [apply Hskip; by intros [? _]|]. wp_step. unfold FindNodeId. wp_step. wp_step. destruct (lookup_lt_is_Some_2 (nodes_ g) i) as [o Ho]; [rewrite <- (r_next_node _ _ _ R); lia|]. eapply (wp_of_option _ _ o); [by rewrite at_nat|]. destruct o as [p|].
    2:{ apply Hskip. intros (_ & _ & [w Hw]). destruct (rep_node R i w Hw) as (p & n & Hl & _). destruct Hl as (Hl & _). congruence. }
    destruct (live_at g i p (g_nodes _ _ _ (r_ok _ _ _ R)) Ho) as (n & Hl & _). wp_step. eapply wp_deref; [apply Hl|]. rewrite (live_source _ _ _ _ Hl), (live_sink _ _ _ _ Hl). destruct (decide (2 <= i)%nat) as [H2|H2].
    2:{ assert (negb (bool_decide (i = 0%nat)) && negb (bool_decide (i = 1%nat)) = false) as -> by (destruct i as [|[|]]; [done|done|lia]). apply Hskip. by intros (_ & ? & _). }
    rewrite !bool_decide_eq_false_2 by lia. cbn [negb andb]. wp_step. eapply RemoveNode_rep; [done|done|done|done|done|]. intros g1 R1 K1. eapply wp_mono; [apply (IH N (S i) true g1 _ R1 HN); cbn [next_node remove_node]; lia|]. cbn beta. intros b' g' (m' & R' & K' & W & Hb). exists m'. split_and!; [done|by eapply keeps_trans| |].
    + eapply without_ext; [|by apply without_step]. intros j. rewrite doomed_cons. cbn. naive_solver.
    + rewrite Hb. destruct (rep_live R _ _ _ Hl) as (w & Hw & _). split; [|by left]. intros _. right. exists i. split; [by exists w|]. apply doomed_cons. by left.
Qed.

(** The node with an id leads to one of the given ones. *)
Definition arrow (m : MultiGraph) (i j : nat) : Prop := exists k x y, medges m !! k = Some (i, x, j, y).
Definition leads (m : MultiGraph) (goals : list nat) (i : nat) : Prop := exists j, j ∈ goals /\ rtc (arrow m) i j.

(** It stands on a path from the source, whose id is 0, to one of them. *)
Definition from_source (m : MultiGraph) (i : nat) : Prop := rtc (arrow m) 0%nat i.
Definition on_path (m : MultiGraph) (goals : list nat) (i : nat) : Prop := from_source m i /\ leads m goals i.

Lemma without_on_path m m' goals : (forall i, (2 <= i)%nat -> leads m goals i -> from_source m i) ->
  without_nodes (fun i => (2 <= i)%nat /\ ~ leads m goals i) m m' -> without_nodes (fun i => (2 <= i)%nat /\ ~ on_path m goals i) m m'.
Proof using. intros Hs. apply without_ext. intros j. unfold on_path. specialize (Hs j). tauto. Qed.

Lemma linked_arrow N g m p n i q n' j : represents N g m -> live g p n i -> live g q n' j -> linked g None p q <-> arrow m i j.
Proof using.
  intros R Lp Lq. split.
  - intros (k & e & ed & He & <- & <- & _). exists k, (src_output_ ed), (dst_input_ ed). by eapply rep_is_edge.
  - intros (k & x & y & Hk). destruct (rep_edge R k _ Hk) as (e & ed & ns & nt & He & Ls & Lt & _). cbn in *. exists k, e, ed. split_and!; [done| | |done]; [by destruct (live_fun _ _ _ _ _ _ _ Lp Ls) as (-> & _); [by right|]|by destruct (live_fun _ _ _ _ _ _ _ Lq Lt) as (-> & _); [by right|]].
Qed.

Lemma leads_rtc N g m p n i q n' j : represents N g m -> live g p n i -> live g q n' j -> rtc (flip (linked g None)) q p <-> rtc (arrow m) i j.
Proof using.
  intros R Lp Lq. split.
  - intros H. revert n' j Lq. induction H as [q|q q' p Hs _ IH]; intros n' j Lq.
    + by destruct (live_fun _ _ _ _ _ _ _ Lp Lq) as (_ & _ & ->); [by left|].
    + destruct (linked_nodes g (r_ok _ _ _ R) _ _ _ Hs) as [Hq' _]. destruct (is_node_live g q' (g_nodes _ _ _ (r_ok _ _ _ R)) Hq') as (n1 & j1 & L1 & _). eapply rtc_r; [by eapply IH|]. by eapply linked_arrow.
  - intros H. revert p n Lp. induction H as [i|i i' j Hs _ IH]; intros p n Lp.
    + by destruct (live_fun _ _ _ _ _ _ _ Lp Lq) as (-> & _); [by right|constructor].
    + pose proof Hs as (k & x & y & Hk). destruct (rep_edge R k _ Hk) as (e & ed & ns & nt & _ & _ & Lt & _). cbn in Lt. eapply rtc_r; [by eapply IH|]. by eapply linked_arrow.
Qed.

Lemma PruneForReverseReachability_run N g m start goals : represents N g m -> N < 2 ^ 31 - 1 -> Forall2 (fun p i => exists n, live g p n i) start goals ->
  PruneForReverseReachability rehash start @ g ⇓ fun b g' => exists m', represents N g' m' /\ keeps g g' /\ without_nodes (fun i => (2 <= i)%nat /\ ~ leads m goals i) m m' /\ (b = true <-> exists i, has_node m i /\ (2 <= i)%nat /\ ~ leads m goals i).
Proof using Hrehash.
  intros R HN Hst. pose proof (r_ok _ _ _ R) as Hg. assert (forall p, p ∈ start -> is_node g p) as Hs. { intros p Hp. apply list_elem_of_lookup_1 in Hp as [k Hk]. destruct (Forall2_lookup_l _ _ _ _ _ Hst Hk) as (i & _ & n & Hl). exists i. apply Hl. }
  unfold PruneForReverseReachability. wp_step. wp_step. wp_step. eapply mark_all_run; [done|apply marks_none|done|]. intros v1 L1 M1. rewrite union_empty_r_L in M1. wp_step. eapply wp_mono; [eapply (bfs_loop_run g Hg start); [|exact M1|]|].
  - assert (size (all_nodes g ∖ list_to_set start) <= size (all_nodes g))%nat by (apply subseteq_size; set_solver). assert (size (all_nodes g) <= length (nodes_ g))%nat; [|lia]. unfold all_nodes. etransitivity; [apply list_to_set_size|apply omap_le].
  - constructor.
    + intros p Hp. apply all_nodes_in, Hs. by apply elem_of_list_to_set in Hp.
    + intros s Hin. by apply elem_of_list_to_set.
    + intros p Hp. by apply elem_of_list_to_set.
    + intros p q Hp _. left. by apply elem_of_list_to_set in Hp.
    + intros p Hp. exists p. split; [by apply elem_of_list_to_set in Hp|constructor].
  - cbn beta. intros v2 g' (-> & L2 & V & M2 & HV). assert (length v2 = length (nodes_ g)) as Lv by (rewrite L2, L1; apply length_replicate). eapply wp_mono; [apply (prune_loop_run v2 N 0 false g m R HN); rewrite Lv; symmetry; apply R|].
    cbn beta. intros b g' (m' & R' & K' & W & Hb). exists m'. assert (forall j, has_node m j -> doomed 0 v2 j <-> (2 <= j)%nat /\ ~ leads m goals j) as Hd.
    { intros j [w Hw]. destruct (rep_node R j w Hw) as (p & n & Hl & _). unfold doomed. rewrite Nat.sub_0_r, (M2 p n j Hl). assert (p ∈ V <-> leads m goals j) as HVj.
      { rewrite (bfs_inv_final g start V p HV). split.
        - intros (s & Hin & Hr). apply list_elem_of_lookup_1 in Hin as [k Hk]. destruct (Forall2_lookup_l _ _ _ _ _ Hst Hk) as (i & Hi & ni & Li). exists i. split; [by eapply list_elem_of_lookup_2|]. by eapply leads_rtc.
        - intros (i & Hin & Hr). apply list_elem_of_lookup_1 in Hin as [k Hk]. destruct (Forall2_lookup_r _ _ _ _ _ Hst Hk) as (s & Hs' & ni & Li). exists s. split; [by eapply list_elem_of_lookup_2|]. by eapply leads_rtc. }
      rewrite <- HVj. split; [intros (? & _ & [= Hf%bool_decide_eq_false]); done|]. intros [? ?]. split_and!; [done|lia|]. f_equal. by apply bool_decide_eq_false_2. }
    destruct W as (W1 & W2 & W3). split_and!; [done|done| |].
    + split_and!; [| |apply W3|apply W3].
      * intros j w. rewrite W1. split; intros [Hj Hn]; (split; [done|]); [rewrite <- Hd|rewrite Hd]; try done; by exists w.
      * intros k e. rewrite W2. split; intros (Hk & H1 & H2); destruct (rep_ends N g m k e R Hk) as [E1 E2]; (split_and!; [done|..]); [rewrite <- Hd by done|rewrite <- Hd by done|rewrite Hd by done|rewrite Hd by done]; done.
    + rewrite Hb. split; [intros [?|(j & Hj & Hdj)]; [done|]; exists j; split; [done|by apply Hd]|]. intros (j & Hj & Hdj). right. exists j. split; [done|by apply Hd].
Qed.
End prune.

(** ** The edges of the source and the sink

    After [FixupSourceAndSinkEdges] every node but the source has an edge into it, and every
    node but the sink one out of it. *)

Definition has_in (m : MultiGraph) (i : nat) : Prop := exists k e, medges m !! k = Some e /\ e.1.2 = i.
Definition has_out (m : MultiGraph) (i : nat) : Prop := exists k e, medges m !! k = Some e /\ e.1.1.1 = i.

(** The edges that a fix adds to [m0]. *)
Definition missing (m0 : MultiGraph) (e : eview) : Prop :=
  (exists j, e = (0%nat, kControlSlot, j, kControlSlot) /\ j <> 0%nat /\ ~ has_in m0 j) \/ (exists i, e = (i, kControlSlot, 1%nat, kControlSlot) /\ i <> 1%nat /\ ~ has_out m0 i).

(** [m] is [m0] with missing edges; [changed] says whether there are any. *)
Record fixed (m0 m : MultiGraph) (changed : bool) : Prop := {
  f_nodes : mnodes m = mnodes m0 /\ next_node m = next_node m0;
  f_old : medges m0 ⊆ medges m;
  f_new : forall k e, medges m !! k = Some e -> medges m0 !! k = Some e \/ missing m0 e;
  f_changed : if changed then (next_edge m0 < next_edge m)%nat else m = m0
}.

Lemma fixed_add m0 m b e : fixed m0 m b -> (forall k w, medges m !! k = Some w -> (k < next_edge m)%nat) -> missing m0 e -> fixed m0 (add_edge e m) true.
Proof.
  intros [H1 H2 H3 H4] Hlt He. assert (medges m !! next_edge m = None) as Hn by (destruct (medges m !! next_edge m) as [w|] eqn:E; [apply Hlt in E; lia|done]). constructor; cbn [mnodes medges next_node next_edge add_edge].
  - done.
  - etransitivity; [done|]. by apply insert_subseteq.
  - intros k w [[<- <-]|[_ Hk]]%lookup_insert_Some; [by right|by apply H3].
  - destruct b; [lia|]. subst m. lia.
Qed.

Section fixup.
Context (rehash : list ptr -> list ptr) (Hrehash : forall l, rehash l ≡ₚ l).

Lemma empty_in N g m p n i : represents N g m -> live g p n i -> if EdgeSet.empty (in_edges_ n) then ~ has_in m i else has_in m i.
Proof using.
  intros R Hl. assert (is_node g p) as Hp by (exists i; apply Hl). pose proof (g_edges _ _ _ (r_ok _ _ _ R)) as He. destruct (e_in _ _ _ He p Hp ltac:(done)) as [(n' & Hn' & Hs) Hin]. assert (n' = n) as -> by (pose proof (proj1 (proj2 Hl)); congruence).
  unfold EdgeSet.empty. rewrite (EdgeSet.size_spec _ _ Hs). rewrite (ins_at g p n Hn') in Hin. destruct (Nat.eqb_spec (length (in_list n)) 0) as [E|E].
  - intros (k & e & Hk & Hd). destruct (rep_edge R k e Hk) as (x & ed & ns & nt & [Hk' Hed] & _ & Lt & _). rewrite Hd in Lt. destruct (live_fun _ _ _ _ _ _ _ Hl Lt) as (Ep & _); [by right|]. destruct (e_live _ _ _ He k x Hk') as (ed' & Hed' & _ & _ & _ & _ & Hi & _). assert (ed' = ed) as -> by congruence.
    specialize (Hi ltac:(done)). rewrite <- Ep, (ins_at g p n Hn') in Hi. apply length_zero_iff_nil in E. rewrite E in Hi. by apply elem_of_nil in Hi.
  - destruct (in_list n) as [|x l]; [done|]. destruct (Hin x ltac:(by left)) as (k & ed & Hk & Hed & Hd). destruct (edge_view_at g k x (r_ok _ _ _ R) Hk) as (ed' & ns & i1 & nt & i2 & Hed' & _ & L1 & L2 & Hv). assert (ed' = ed) as -> by congruence. rewrite Hd in L2.
    destruct (live_fun _ _ _ _ _ _ _ Hl L2) as (_ & _ & <-); [by left|]. exists k. eexists. rewrite (r_edges _ _ _ R). by split; [exact Hv|].
Qed.

Lemma empty_out N g m p n i : represents N g m -> live g p n i -> if EdgeSet.empty (out_edges_ n) then ~ has_out m i else has_out m i.
Proof using.
  intros R Hl. assert (is_node g p) as Hp by (exists i; apply Hl). pose proof (g_edges _ _ _ (r_ok _ _ _ R)) as He. destruct (e_out _ _ _ He p Hp ltac:(done)) as [(n' & Hn' & Hs) Hout]. assert (n' = n) as -> by (pose proof (proj1 (proj2 Hl)); congruence).
  unfold EdgeSet.empty. rewrite (EdgeSet.size_spec _ _ Hs). rewrite (outs_at g p n Hn') in Hout. destruct (Nat.eqb_spec (length (out_list n)) 0) as [E|E].
  - intros (k & e & Hk & Hd). destruct (rep_edge R k e Hk) as (x & ed & ns & nt & [Hk' Hed] & Ls & _ & _). rewrite Hd in Ls. destruct (live_fun _ _ _ _ _ _ _ Hl Ls) as (Ep & _); [by right|]. destruct (e_live _ _ _ He k x Hk') as (ed' & Hed' & _ & _ & _ & Ho & _). assert (ed' = ed) as -> by congruence.
    specialize (Ho ltac:(done)). rewrite <- Ep, (outs_at g p n Hn') in Ho. apply length_zero_iff_nil in E. rewrite E in Ho. by apply elem_of_nil in Ho.
  - destruct (out_list n) as [|x l]; [done|]. destruct (Hout x ltac:(by left)) as (k & ed & Hk & Hed & Hd). destruct (edge_view_at g k x (r_ok _ _ _ R) Hk) as (ed' & ns & i1 & nt & i2 & Hed' & _ & L1 & L2 & Hv). assert (ed' = ed) as -> by congruence. rewrite Hd in L1.
    destruct (live_fun _ _ _ _ _ _ _ Hl L1) as (_ & _ & <-); [by left|]. exists k. eexists. rewrite (r_edges _ _ _ R). by split; [exact Hv|].
Qed.

(** A control edge added without looking for another one. *)
Lemma AddControlEdge_dup N g m s ns i t nt j (Q : option ptr -> Graph -> Prop) : represents N g m -> N < 2 ^ 31 - 1 -> live g s ns i -> live g t nt j ->
  (forall e g', represents (N + 1) g' (add_edge (i, kControlSlot, j, kControlSlot) m) -> keeps g g' -> stays g g' -> Q (Some e) g') -> AddControlEdge rehash s t true @ g ⇓ Q.
Proof using Hrehash.
  intros R HN Ls Lt HQ. unfold AddControlEdge. wp_steps. eapply wp_deref; [apply Ls|]. wp_step. eapply wp_deref; [apply Lt|]. rewrite !andb_false_r. wp_steps. eapply AddEdge_rep; [done|done|done|done|done|by split|]. intros e ed g' R' K' T' _ _. wp_steps. by apply HQ.
Qed.

Lemma edge_bound N g m k w : represents N g m -> medges m !! k = Some w -> (k < next_edge m)%nat.
Proof using. intros R Hk. destruct (rep_edge R k w Hk) as (e & ed & _ & _ & [He _] & _). rewrite (r_next_edge _ _ _ R). by eapply lookup_lt_Some. Qed.

(** What a step leaves. *)
Definition fixing (N : Z) (m0 : MultiGraph) (g : Graph) (m : MultiGraph) (goal : MultiGraph -> Prop) (b : bool) (g' : Graph) : Prop :=
  exists m', represents (N + 1) g' m' /\ keeps g g' /\ stays g g' /\ medges m ⊆ medges m' /\ fixed m0 m' b /\ goal m'.

Lemma fix_source_run N g m0 m p n i b : represents N g m -> N < 2 ^ 31 - 1 -> live g p n i -> fixed m0 m b -> fix_source rehash p b @ g ⇓ fixing N m0 g m (fun m' => i <> 0%nat -> has_in m' i).
Proof using Hrehash.
  intros R HN Hl Hf. unfold fix_source. wp_step. eapply wp_deref; [apply Hl|]. rewrite (live_source _ _ _ _ Hl). pose proof (empty_in N g m p n i R Hl) as He. destruct (negb _ && _) eqn:Hc.
  - apply andb_true_iff in Hc as [Hi Hem]. rewrite negb_true_iff, bool_decide_eq_false in Hi. rewrite Hem in He. wp_step. apply (source_run g (r_ok _ _ _ R)). intros s Hs. destruct (live_at g 0 s (g_nodes _ _ _ (r_ok _ _ _ R)) Hs) as (ns & Ls & _). wp_step. eapply wp_of_option; [done|]. wp_step.
    eapply AddControlEdge_dup; [done|done|exact Ls|exact Hl|]. intros e g' R' K' T'. wp_steps. eexists. split_and!; [exact R'|done|done| | |].
    + apply insert_subseteq. cbn. destruct (medges m !! next_edge m) as [w|] eqn:E; [apply (edge_bound _ _ _ _ _ R) in E; lia|done].
    + eapply fixed_add; [done|by intros; eapply edge_bound|]. left. exists i. split_and!; [done|done|]. intros (k & e' & Hk & Hd). apply He. exists k, e'. split; [|done]. eapply lookup_weaken; [done|apply Hf].
    + intros _. exists (next_edge m). eexists. cbn. by rewrite lookup_insert_eq.
  - wp_steps. exists m. split_and!; [by apply (rep_weaken R); lia|apply keeps_refl|apply stays_refl|done|done|]. intros Hi. rewrite bool_decide_eq_false_2 in Hc by done. cbn in Hc. by rewrite Hc in He.
Qed.

Lemma fix_sink_run N g m0 m p n i b : represents N g m -> N < 2 ^ 31 - 1 -> live g p n i -> fixed m0 m b -> fix_sink rehash p b @ g ⇓ fixing N m0 g m (fun m' => i <> 1%nat -> has_out m' i).
Proof using Hrehash.
  intros R HN Hl Hf. unfold fix_sink. wp_step. eapply wp_deref; [apply Hl|]. rewrite (live_sink _ _ _ _ Hl). pose proof (empty_out N g m p n i R Hl) as He. destruct (negb _ && _) eqn:Hc.
  - apply andb_true_iff in Hc as [Hi Hem]. rewrite negb_true_iff, bool_decide_eq_false in Hi. rewrite Hem in He. wp_step. apply (sink_run g (r_ok _ _ _ R)). intros t Ht. destruct (live_at g 1 t (g_nodes _ _ _ (r_ok _ _ _ R)) Ht) as (nt & Lt & _). wp_step. eapply wp_of_option; [done|]. wp_step.
    eapply AddControlEdge_dup; [done|done|exact Hl|exact Lt|]. intros e g' R' K' T'. wp_steps. eexists. split_and!; [exact R'|done|done| | |].
    + apply insert_subseteq. cbn. destruct (medges m !! next_edge m) as [w|] eqn:E; [apply (edge_bound _ _ _ _ _ R) in E; lia|done].
    + eapply fixed_add; [done|by intros; eapply edge_bound|]. right. exists i. split_and!; [done|done|]. intros (k & e' & Hk & Hd). apply He. exists k, e'. split; [|done]. eapply lookup_weaken; [done|apply Hf].
    + intros _. exists (next_edge m). eexists. cbn. by rewrite lookup_insert_eq.
  - wp_steps. exists m. split_and!; [by apply (rep_weaken R); lia|apply keeps_refl|apply stays_refl|done|done|]. intros Hi. rewrite bool_decide_eq_false_2 in Hc by done. cbn in Hc. by rewrite Hc in He.
Qed.

Definition connected (m : MultiGraph) (i : nat) : Prop := (i <> 0%nat -> has_in m i) /\ (i <> 1%nat -> has_out m i).

Lemma connected_mono m m' i : medges m ⊆ medges m' -> connected m i -> connected m' i.
Proof using. intros Hs [H1 H2]. split; intros Hi; [destruct (H1 Hi) as (k & e & Hk & ?)|destruct (H2 Hi) as (k & e & Hk & ?)]; exists k, e; (split; [by eapply lookup_weaken|done]). Qed.

Lemma fixup_loop_run ps : forall N g m0 m b, represents N g m -> N + 2 * Z.of_nat (length ps) < 2 ^ 31 - 1 -> (forall p, p ∈ ps -> exists n i, live g p n i) -> fixed m0 m b ->
  fixup_loop rehash ps b @ g ⇓ fun b' g' => exists m', represents (N + 2 * Z.of_nat (length ps)) g' m' /\ keeps g g' /\ medges m ⊆ medges m' /\ fixed m0 m' b' /\ forall p n i, p ∈ ps -> live g p n i -> connected m' i.
Proof using Hrehash.
  induction ps as [|p ps IH]; intros N g m0 m b R HN Hps Hf; cbn [fixup_loop].
  - wp_steps. exists m. split_and!; [by rewrite Z.add_0_r|apply keeps_refl|done|done|]. by intros p n i ?%elem_of_nil.
  - cbn [length] in *. destruct (Hps p ltac:(by left)) as (n & i & Hl). wp_step. eapply wp_mono; [apply (fix_source_run N g m0 m p n i b); [done|lia|done|done]|]. cbn beta. intros b1 g1 (m1 & R1 & K1 & T1 & S1 & F1 & I1). destruct (T1 _ _ _ Hl) as [n1 L1].
    wp_step. eapply wp_mono; [apply (fix_sink_run (N + 1) g1 m0 m1 p n1 i b1); [done|lia|done|done]|]. cbn beta. intros b2 g2 (m2 & R2 & K2 & T2 & S2 & F2 & O2). eapply wp_mono; [apply (IH (N + 1 + 1) g2 m0 m2 b2 R2); [lia| |done]|].
    { intros q Hq. destruct (Hps q ltac:(by right)) as (nq & iq & Lq). destruct (T1 _ _ _ Lq) as [nq1 Lq1]. destruct (T2 _ _ _ Lq1) as [nq2 Lq2]. by exists nq2, iq. }
    cbn beta. intros b3 g3 (m3 & R3 & K3 & S3 & F3 & C3). exists m3. split_and!; [by apply (rep_weaken R3); lia|by eauto with graph|by etransitivity; [|etransitivity]|done|].
    intros q nq iq [->|Hq]%elem_of_cons Lq.
    + destruct (live_fun _ _ _ _ _ _ _ Hl Lq) as (_ & _ & <-); [by left|]. eapply connected_mono; [exact S3|]. split; [|done]. intros Hi. destruct (I1 Hi) as (k & e & Hk & Hd). exists k, e. split; [|done]. by eapply lookup_weaken.
    + destruct (T1 _ _ _ Lq) as [nq1 Lq1]. destruct (T2 _ _ _ Lq1) as [nq2 Lq2]. by eapply C3.
Qed.

Lemma nodes_run g (Q : list ptr -> Graph -> Prop) : graph_ok g -> Q (omap id (nodes_ g)) g -> nodes @ g ⇓ Q.
Proof using.
  intros Hg HQ. destruct (n_ends g (g_nodes _ _ _ Hg)) as (s & t & Hs & _). unfold nodes. wp_step. wp_step. destruct (nodes_ g) as [|o rest]; [done|]. injection Hs as ->. eapply wp_of_option; [done|]. done.
Qed.

Lemma FixupSourceAndSinkEdges_run N g m : represents N g m -> 3 * N < 2 ^ 31 - 1 ->
  FixupSourceAndSinkEdges rehash @ g ⇓ fun b g' => exists m', represents (3 * N) g' m' /\ keeps g g' /\ fixed m m' b /\ forall i, has_node m i -> connected m' i.
Proof using Hrehash.
  intros R HN. pose proof (r_bound _ _ _ R) as (B & _). pose proof (omap_le (nodes_ g)). unfold FixupSourceAndSinkEdges. wp_step. apply nodes_run; [apply R|]. eapply wp_mono; [apply (fixup_loop_run _ N g m m false R); [lia| |constructor; [done|done|by left|done]]|].
  { intros p Hp. apply node_elem, (is_node_live g p (g_nodes _ _ _ (r_ok _ _ _ R))) in Hp as (n & i & Hl & _). by exists n, i. }
  cbn beta. intros b g' (m' & R' & K' & _ & F' & C'). exists m'. split_and!; [by apply (rep_weaken R'); lia|done|done|]. intros i [w Hw]. destruct (rep_node R i w Hw) as (p & n & Hl & _). eapply C'; [|done]. apply node_elem. exists i. apply Hl.
Qed.
End fixup.
