(* ===== verification/GraphClaims.v ===== *)
(** * Graphs of operations: what a client can rely on

    The theorems about graphs: for every history of permitted calls from the constructor on. *)

From S2P Require Import Prelude EdgeSet Graph GraphInvariant GraphEdges GraphProps GraphContract GraphSteps GraphCalls.
From S2P Require Import GraphAlgorithm GraphDFS GraphPrune.
Import Graph.

#[local] Open Scope runtime_scope.

(** ** Well-typed graphs *)

Record well_typed (g : Graph) : Prop := {
  t_ends : exists s t, nodes_ g !! 0%nat = Some (Some s) /\ nodes_ g !! 1%nat = Some (Some t);
  t_nodes : forall i p, nodes_ g !! i = Some (Some p) -> exists n v s, node_heap g !! p = Some n /\ id_ n = Z.of_nat i /\ node_props g p = Some v
    /\ class_ n = GetNodeClassForOp (op (node_def v)) /\ at_ (device_names_ g) (assigned_device_name_index_ n) = Some s;
  t_edges : forall k e, edges_ g !! k = Some (Some e) -> exists ed, edge_heap g !! e = Some ed /\ edge_id_ ed = Z.of_nat k /\ is_node g (src_ ed) /\ is_node g (dst_ ed) /\ slots_ok g ed;
  t_ins : forall p, is_node g p -> NoDup (ins g p) /\ forall e, e ∈ ins g p <-> exists k ed, is_edge g k e ed /\ dst_ ed = p;
  t_outs : forall p, is_node g p -> NoDup (outs g p) /\ forall e, e ∈ outs g p <-> exists k ed, is_edge g k e ed /\ src_ ed = p;
  t_free : (forall p, p ∈ free_nodes_ g -> ~ is_node g p) /\ forall e, e ∈ free_edges_ g -> forall k, edges_ g !! k <> Some (Some e);
  t_counts : num_nodes_ g = Z.of_nat (length (omap id (nodes_ g))) /\ num_edges_ g = Z.of_nat (length (omap id (edges_ g)))
}.

Lemma represents_typed N g m : represents N g m -> well_typed g.
Proof.
  intros R. pose proof (r_ok _ _ _ R) as [Hn He Hd]. constructor.
  - apply Hn.
  - intros i p Hi. destruct (live_at g i p Hn Hi) as (n & Hl & (q & v & Hq & Hv & Hc) & _). destruct (rep_live R p n i Hl) as (w & _ & Hw & Hs). exists n, w.1, w.2. split_and!; [apply Hl|apply Hl|done| |done].
    unfold node_props in Hw. rewrite (proj1 (proj2 Hl)) in Hw. cbn in Hw. rewrite Hq in Hw. cbn in Hw. congruence.
  - intros k e Hk. destruct (e_live _ _ _ He k e Hk) as (ed & ? & ? & ? & ? & _ & _ & ?). by exists ed.
  - intros p Hp. destruct (e_in _ _ _ He p Hp ltac:(done)) as [(n & Hpn & Hs) Hin]. split; [rewrite (ins_at g p n Hpn); apply Hs|]. intros e. split.
    + intros Hei. destruct (Hin e Hei) as (k & ed & ? & ? & ?). by exists k, ed.
    + intros (k & ed & [Hk Hed] & Hd'). destruct (e_live _ _ _ He k e Hk) as (ed' & Hed' & _ & _ & _ & _ & Hi & _). assert (ed' = ed) as -> by congruence. rewrite <- Hd'. by apply Hi.
  - intros p Hp. destruct (e_out _ _ _ He p Hp ltac:(done)) as [(n & Hpn & Hs) Hin]. split; [rewrite (outs_at g p n Hpn); apply Hs|]. intros e. split.
    + intros Hei. destruct (Hin e Hei) as (k & ed & ? & ? & ?). by exists k, ed.
    + intros (k & ed & [Hk Hed] & Hd'). destruct (e_live _ _ _ He k e Hk) as (ed' & Hed' & _ & _ & _ & Ho & _). assert (ed' = ed) as -> by congruence. rewrite <- Hd'. by apply Ho.
  - split; [|apply He]. intros p Hf [i Hi]. destruct (live_at g i p Hn Hi) as (n & Hl & _). by apply (live_not_free g p n i Hn Hl).
  - split; [apply Hn|apply He].
Qed.

Fixpoint nodes_at (l : list nat) : MG (list ptr) := match l with [] => mret [] | i :: l => p ← node_at i; ps ← nodes_at l; mret (p :: ps) end.

Lemma nodes_at_run N g m l : represents N g m -> (forall i, i ∈ l -> has_node m i) -> nodes_at l @ g ⇓ fun ps g' => g' = g /\ Forall2 (fun p i => exists n, live g p n i) ps l.
Proof.
  intros R. induction l as [|i l IH]; intros Hl; cbn [nodes_at]; [by wp_steps|]. wp_step. eapply wp_node_at; [done|apply Hl; by left|]. intros p n w Hp _. wp_step. eapply wp_mono; [apply IH; intros j Hj; apply Hl; by right|]. cbn beta. intros ps g' [-> HF]. wp_steps. split; [done|]. constructor; [by exists n|done].
Qed.

Section claims.
Context (rehash : list ptr -> list ptr) (LookUpOpDef : string -> result nat) (InOutTypesForNode : NodeDef -> nat -> result (list Z * list Z)).
Context (od : nat) (vs vt : NodeProperties).

Abbreviation effects := (effects LookUpOpDef InOutTypesForNode).
Abbreviation all_permitted := (all_permitted LookUpOpDef InOutTypesForNode).
Abbreviation perform_all := (perform_all rehash LookUpOpDef InOutTypesForNode).
Abbreviation history := (history rehash LookUpOpDef InOutTypesForNode).

(** The hash sets of edges enumerate their elements, and the registry knows the two nodes that
    every graph has. *)
Definition environment_ok : Prop := (forall l, rehash l ≡ₚ l) /\ registry_ok LookUpOpDef InOutTypesForNode od vs vt.

Lemma all_permitted_app cs1 cs2 : forall m, all_permitted (cs1 ++ cs2) m -> all_permitted cs1 m /\ forall rs m1, effects cs1 m rs m1 -> all_permitted cs2 m1.
Proof using.
  induction cs1 as [|c cs1 IH]; intros m H; cbn in *.
  - split; [done|]. intros [|r rs] m1 Hm1; [by subst|done].
  - destruct H as [Hc H]. split; [split; [done|]; intros r m1 He; by apply (IH m1), (H r)|]. intros [|r rs] m2 Hm2; [done|]. destruct Hm2 as (m1 & He & Hes). by eapply (IH m1); [eapply H|].
Qed.

(** C13: refinement.  Every history of permitted calls runs without a failed check, and its
    replies and its graph are those of the abstract graph: numbered nodes with properties and a
    device, and numbered edges. *)
Theorem graph_refines cs : environment_ok -> all_permitted cs (initial vs vt) -> Z.of_nat (length cs) < 2 ^ 31 - 3 ->
  history cs @ empty_graph ⇓ fun rs g => exists m, effects cs (initial vs vt) rs m /\ represents (2 + Z.of_nat (length cs)) g m.
Proof using. intros [Hr Ho] Hp Hl. by eapply history_run. Qed.

(** C14: types.  In every graph that permitted calls reach, each id names the node that bears it,
    whose class is that of its operation and whose device has a name; each edge has a source and
    a target in the graph, which list it, and control slots on both ends or on none; the lists of
    edges hold no others; objects that wait for reuse are not in the graph; the counters count. *)
Theorem graph_well_typed cs : environment_ok -> all_permitted cs (initial vs vt) -> Z.of_nat (length cs) < 2 ^ 31 - 3 ->
  history cs @ empty_graph ⇓ fun _ g => well_typed g.
Proof using. intros [Hr Ho] Hp Hl. eapply wp_mono; [by eapply history_run|]. cbn beta. intros rs g (m & _ & R). by eapply represents_typed. Qed.

(** C15: copy on write.  Properties of a node that a node of another graph shares are never
    changed by later calls on this graph, whatever nodes they name. *)
Theorem graph_shared_properties cs1 cs2 : environment_ok -> all_permitted (cs1 ++ cs2) (initial vs vt) -> Z.of_nat (length (cs1 ++ cs2)) < 2 ^ 31 - 3 ->
  (_ ← history cs1; g1 ← get; _ ← perform_all cs2; mret g1) @ empty_graph ⇓ fun g1 g2 =>
    forall q, q ∈ foreign g1 -> q ∈ foreign g2 /\ props_heap g2 !! q = props_heap g1 !! q.
Proof using.
  intros [Hr Ho] Hp Hl. rewrite length_app in Hl. apply all_permitted_app in Hp as [Hp1 Hp2]. wp_step. eapply wp_mono; [eapply history_run; [done|exact Ho|done|lia]|]. cbn beta. intros rs g1 (m1 & He & R). wp_step. wp_step. wp_step.
  eapply wp_mono; [eapply (perform_all_run rehash Hr); [done|lia|by eapply Hp2]|]. cbn beta. intros rs2 g2 (m2 & _ & _ & K). wp_steps. exact K.
Qed.

(** C16: searches.  A depth-first search from any nodes, along the edges that a filter admits or
    against the edges, ends; it enters every node that it can reach once, leaves every such node
    once, and leaves it after its successors, unless they lead back to it.  The post-order from
    the source lists the nodes that can be reached from there once each; without cycles it lists
    the target of an edge before its source, and the reverse post-order after it. *)
Theorem graph_searches cs l enter leave cmp f : environment_ok -> all_permitted cs (initial vs vt) -> Z.of_nat (length cs) < 2 ^ 31 - 3 ->
  (forall rs m, effects cs (initial vs vt) rs m -> forall i, i ∈ l -> has_node m i) ->
  (_ ← history cs; start ← nodes_at l;
   tr ← DFSFrom start enter leave cmp f; rtr ← ReverseDFSFrom start enter leave cmp;
   order ← GetPostOrder cmp f; rev ← GetReversePostOrder cmp f; mret (start, tr, rtr, order, rev)) @ empty_graph ⇓ fun '(start, tr, rtr, order, rev) g =>
    Forall2 (fun p i => exists n, live g p n i) start l
    /\ searched (linked g f) start enter leave tr /\ searched (flip (linked g None)) start enter leave rtr
    /\ post_order g f order /\ rev = reverse order
    /\ ((forall x, ~ tc (linked g f) x x) -> forall p q, p ∈ order -> linked g f p q ->
         (exists l1 l2 l3, order = l1 ++ q :: l2 ++ p :: l3) /\ exists l1 l2 l3, rev = l1 ++ p :: l2 ++ q :: l3).
Proof using.
  intros [Hr Ho] Hp Hl Hi. wp_step. eapply wp_mono; [by eapply history_run|]. cbn beta. intros rs g (m & He & R). wp_step. eapply wp_mono; [eapply nodes_at_run; [done|by eapply Hi]|]. cbn beta. intros start g' [-> HF]. pose proof (r_ok _ _ _ R) as Hg.
  assert (forall s, s ∈ start -> is_node g s) as Hs. { intros p Hin. apply list_elem_of_lookup_1 in Hin as [k Hk]. destruct (Forall2_lookup_l _ _ _ _ _ HF Hk) as (i & _ & n & Hln). exists i. apply Hln. }
  wp_step. eapply wp_mono; [by apply (DFSFrom_searched g Hg)|]. cbn beta. intros tr g' [-> Htr]. wp_step. eapply wp_mono; [by apply (ReverseDFSFrom_searched g Hg)|]. cbn beta. intros rtr g' [-> Hrtr].
  destruct (wp_total _ _ _ (GetPostOrder_run g Hg cmp f)) as (order & g' & Eo & -> & Hpo). assert (forall Q : list ptr -> Graph -> Prop, Q order g -> GetPostOrder cmp f @ g ⇓ Q) as Hrun by (intros Q HQ; unfold wp; by rewrite Eo).
  wp_step. apply Hrun. unfold GetReversePostOrder. wp_step. wp_step. apply Hrun. wp_steps. split_and!; [done|done|done|done|done|]. intros Hac p q Hp' Hpq. destruct (post_order_topological g f order p q Hpo Hac Hp' Hpq) as (l1 & l2 & l3 & ->). split; [by exists l1, l2, l3|].
  exists (reverse l3), (reverse l2), (reverse l1). rewrite reverse_app, reverse_cons, reverse_app, reverse_cons. by rewrite <- !app_assoc.
Qed.

(** C17: pruning removes exactly the nodes, other than the source and the sink, from which none of
    the given nodes can be reached, with their edges; it says whether there were any.  The comment
    at algorithm.h:123 promises more: to remove every node that is not on a path from the source
    to a given node.  The code never looks at the source, so it keeps a node that the source does
    not reach but that reaches a given one; the code meets the comment when there is no such node,
    which is the last part of the statement. *)
Theorem graph_prune cs l : environment_ok -> all_permitted cs (initial vs vt) -> Z.of_nat (length cs) < 2 ^ 31 - 3 ->
  (forall rs m, effects cs (initial vs vt) rs m -> forall i, i ∈ l -> has_node m i) ->
  (_ ← history cs; start ← nodes_at l; PruneForReverseReachability rehash start) @ empty_graph ⇓ fun b g => exists rs m m',
    effects cs (initial vs vt) rs m /\ represents (2 + Z.of_nat (length cs)) g m'
    /\ without_nodes (fun i => (2 <= i)%nat /\ ~ leads m l i) m m' /\ (b = true <-> exists i, has_node m i /\ (2 <= i)%nat /\ ~ leads m l i)
    /\ ((forall i, (2 <= i)%nat -> leads m l i -> from_source m i) -> without_nodes (fun i => (2 <= i)%nat /\ ~ on_path m l i) m m').
Proof using.
  intros [Hr Ho] Hp Hl Hi. wp_step. eapply wp_mono; [by eapply history_run|]. cbn beta. intros rs g (m & He & R). wp_step. eapply wp_mono; [eapply nodes_at_run; [done|by eapply Hi]|]. cbn beta. intros start g' [-> HF].
  eapply wp_mono; [eapply (PruneForReverseReachability_run rehash Hr); [exact R|lia|exact HF]|]. cbn beta. intros b g' (m' & R' & _ & W & Hb). exists rs, m, m'. split; [done|]. split; [done|]. split; [done|]. split; [done|]. intros Hs. by apply without_on_path.
Qed.

(** C18: after the fix every node but the source has an edge into it and every node but the sink an
    edge out of it; all edges from before are there, the new ones are control edges from the
    source to a node without edges into it, or to the sink from a node without edges out of it;
    and the result says whether the graph was changed. *)
Theorem graph_fixup cs : environment_ok -> all_permitted cs (initial vs vt) -> 3 * (2 + Z.of_nat (length cs)) < 2 ^ 31 - 1 ->
  (_ ← history cs; FixupSourceAndSinkEdges rehash) @ empty_graph ⇓ fun b g => exists rs m m',
    effects cs (initial vs vt) rs m /\ represents (3 * (2 + Z.of_nat (length cs))) g m'
    /\ fixed m m' b /\ (b = false <-> m' = m) /\ forall i, has_node m i -> connected m' i.
Proof using.
  intros [Hr Ho] Hp Hl. wp_step. eapply wp_mono; [eapply history_run; [done|done|done|lia]|]. cbn beta. intros rs g (m & He & R). eapply wp_mono; [by apply (FixupSourceAndSinkEdges_run rehash Hr _ _ _ R)|]. cbn beta. intros b g' (m' & R' & _ & F & C). exists rs, m, m'. split_and!; [done|done|done| |done].
  pose proof (f_changed _ _ _ F) as Hc. destruct b; [|done]. split; [done|]. intros ->. lia.
Qed.
End claims.

(** ** Concrete runs *)

Definition demo_lookup (_ : string) : result nat := Ok 0%nat.
Definition demo_types (_ : NodeDef) (_ : nat) : result (list Z * list Z) := Ok ([1], [1]).
Definition demo_props (d : NodeDef) : NodeProperties := mkProps 0 d [1] [1].
Definition demo_def (s : string) : NodeDef := mkNodeDef s "Identity" [] "" ∅ [].
Definition demo_initial : MultiGraph := initial (demo_props source_def) (demo_props sink_def).

Lemma demo_environment : environment_ok (fun l => l) demo_lookup demo_types 0 (demo_props source_def) (demo_props sink_def).
Proof. split; [done|]. by split_and!. Qed.

(** Two nodes, an edge between them, a node without edges; another graph shares the first. *)
Definition demo_calls : list call := [CAddNode (demo_def "a"); CAddNode (demo_def "b"); CAddEdge 2 0 3 0; CAddNode (demo_def "c"); CShare 2].

Lemma demo_permitted : all_permitted demo_lookup demo_types demo_calls demo_initial.
Proof.
  split; [done|]. intros _ _ [_ ->]. split; [done|]. intros _ _ [_ ->]. split; [split_and!; [by eexists..|by split; [|intros [?|?]]]|]. intros _ _ [_ ->]. split; [done|]. intros _ _ [_ ->]. split; [by eexists|]. intros _ _ [_ ->]. done.
Qed.

Lemma demo_effects rs m : effects demo_lookup demo_types demo_calls demo_initial rs m -> forall i, i ∈ [3%nat] -> has_node m i.
Proof.
  intros He i [->|?%elem_of_nil]%elem_of_cons; [|done]. destruct rs as [|? [|? [|? [|? [|? [|]]]]]]; cbn in He; destruct_and?; try naive_solver.
  destruct He as (? & [_ ->] & ? & [_ ->] & ? & [_ ->] & ? & [_ ->] & ? & [_ ->] & ->). by eexists.
Qed.

Lemma demo_shared_permitted : all_permitted demo_lookup demo_types (demo_calls ++ [CSetName 2 "z"]) demo_initial.
Proof.
  split; [done|]. intros _ _ [_ ->]. split; [done|]. intros _ _ [_ ->]. split; [split_and!; [by eexists..|by split; [|intros [?|?]]]|]. intros _ _ [_ ->]. split; [done|]. intros _ _ [_ ->]. split; [by eexists|]. intros _ _ [_ ->]. split; [by eexists|]. done.
Qed.

Lemma graph_refines_witness : history (fun l => l) demo_lookup demo_types demo_calls @ empty_graph ⇓ fun rs g => exists m, effects demo_lookup demo_types demo_calls demo_initial rs m /\ represents (2 + Z.of_nat (length demo_calls)) g m.
Proof. apply (graph_refines _ _ _ 0 _ _ demo_calls); [apply demo_environment|apply demo_permitted|cbn; lia]. Defined.

Lemma graph_well_typed_witness : history (fun l => l) demo_lookup demo_types demo_calls @ empty_graph ⇓ fun _ g => well_typed g.
Proof. apply (graph_well_typed _ _ _ 0 (demo_props source_def) (demo_props sink_def) demo_calls); [apply demo_environment|apply demo_permitted|cbn; lia]. Defined.

(** The name of a node that another graph shares is changed: its node has other properties, the
    shared ones are those from before. *)
Lemma graph_shared_properties_witness :
  (_ ← history (fun l => l) demo_lookup demo_types demo_calls; g1 ← get; _ ← perform_all (fun l => l) demo_lookup demo_types [CSetName 2 "z"]; mret g1) @ empty_graph ⇓ fun g1 g2 =>
    forall q, q ∈ foreign g1 -> q ∈ foreign g2 /\ props_heap g2 !! q = props_heap g1 !! q.
Proof. apply (graph_shared_properties _ _ _ 0 (demo_props source_def) (demo_props sink_def) demo_calls [CSetName 2 "z"]); [apply demo_environment|apply demo_shared_permitted|cbn; lia]. Defined.

Lemma graph_searches_witness :
  (_ ← history (fun l => l) demo_lookup demo_types demo_calls; start ← nodes_at [3%nat];
   tr ← DFSFrom start true true (Some NodeComparatorName) None; rtr ← ReverseDFSFrom start true true (Some NodeComparatorName);
   order ← GetPostOrder (Some NodeComparatorName) None; rev ← GetReversePostOrder (Some NodeComparatorName) None; mret (start, tr, rtr, order, rev)) @ empty_graph ⇓ fun '(start, tr, rtr, order, rev) g =>
    Forall2 (fun p i => exists n, live g p n i) start [3%nat]
    /\ searched (linked g None) start true true tr /\ searched (flip (linked g None)) start true true rtr
    /\ post_order g None order /\ rev = reverse order
    /\ ((forall x, ~ tc (linked g None) x x) -> forall p q, p ∈ order -> linked g None p q ->
         (exists l1 l2 l3, order = l1 ++ q :: l2 ++ p :: l3) /\ exists l1 l2 l3, rev = l1 ++ p :: l2 ++ q :: l3).
Proof. apply (graph_searches _ _ _ 0 (demo_props source_def) (demo_props sink_def) demo_calls [3%nat]); [apply demo_environment|apply demo_permitted|cbn; lia|apply demo_effects]. Defined.

Lemma graph_prune_witness :
  (_ ← history (fun l => l) demo_lookup demo_types demo_calls; start ← nodes_at [3%nat]; PruneForReverseReachability (fun l => l) start) @ empty_graph ⇓ fun b g => exists rs m m',
    effects demo_lookup demo_types demo_calls demo_initial rs m /\ represents (2 + Z.of_nat (length demo_calls)) g m'
    /\ without_nodes (fun i => (2 <= i)%nat /\ ~ leads m [3%nat] i) m m' /\ (b = true <-> exists i, has_node m i /\ (2 <= i)%nat /\ ~ leads m [3%nat] i)
    /\ ((forall i, (2 <= i)%nat -> leads m [3%nat] i -> from_source m i) -> without_nodes (fun i => (2 <= i)%nat /\ ~ on_path m [3%nat] i) m m').
Proof. apply (graph_prune _ _ _ 0 _ _ demo_calls [3%nat]); [apply demo_environment|apply demo_permitted|cbn; lia|apply demo_effects]. Defined.

Lemma graph_fixup_witness :
  (_ ← history (fun l => l) demo_lookup demo_types demo_calls; FixupSourceAndSinkEdges (fun l => l)) @ empty_graph ⇓ fun b g => exists rs m m',
    effects demo_lookup demo_types demo_calls demo_initial rs m /\ represents (3 * (2 + Z.of_nat (length demo_calls))) g m'
    /\ fixed m m' b /\ (b = false <-> m' = m) /\ forall i, has_node m i -> connected m' i.
Proof. apply (graph_fixup _ _ _ 0 _ _ demo_calls); [apply demo_environment|apply demo_permitted|cbn; lia]. Defined.

(** What the runs return: the pruned graph has lost the node [c], the fixed one has new edges. *)
Example demo_prune_run :
  match (_ ← history (fun l => l) demo_lookup demo_types demo_calls; start ← nodes_at [3%nat]; b ← PruneForReverseReachability (fun l => l) start; g ← get; mret (b, nodes_ g)) empty_graph with
  | Val ((b, l), _) => b = true /\ l = [Some 0%nat; Some 1%nat; Some 2%nat; Some 3%nat; None]
  | _ => False
  end.
Proof. by vm_compute. Qed.

Example demo_order_run :
  match (_ ← history (fun l => l) demo_lookup demo_types demo_calls; _ ← FixupSourceAndSinkEdges (fun l => l); order ← GetPostOrder (Some NodeComparatorName) None; mret order) empty_graph with
  | Val (l, _) => l = [1%nat; 4%nat; 3%nat; 2%nat; 0%nat]
  | _ => False
  end.
Proof. by vm_compute. Qed.

(** The messages: [b] has its edge from [a] as an input and a control input; what was asked for
    stands where no edge is. *)
Example demo_export_run :
  match (_ ← history (fun l => l) demo_lookup demo_types (demo_calls ++ [CAddControlEdge 4 3 true; CAssignDevice 3 "d"]); ds ← ToGraphDef; mret ds) empty_graph with
  | Val (ds, _) => map (fun d => (name d, input d, device d)) ds = [("a", [""], ""); ("b", ["a"; "^c"], "d"); ("c", [""], "")]%string
  | _ => False
  end.
Proof. by vm_compute. Qed.

(** ** Recycled nodes

    [Node::Clear] leaves [while_ctx_] as it is: a node that is made from a removed exit node has
    the while context of that node, and cannot get one of its own. *)

Definition exit_def : NodeDef := mkNodeDef "exit" "Exit" [] "" ∅ [].

Definition recycle_exit : MG ptr :=
  Graph_init (fun l => l) demo_lookup demo_types;;
  '(_, p) ← AddNode demo_lookup demo_types exit_def OK; p ← of_option p;
  set_while_ctx p "old frame";;
  RemoveNode (fun l => l) p;;
  '(_, p) ← AddNode demo_lookup demo_types exit_def OK; of_option p.

Theorem recycled_node_keeps_while_context :
  (exists p n g, recycle_exit empty_graph = Val (p, g) /\ node_heap g !! p = Some n /\ while_ctx_ n = Some "old frame"%string)
  /\ (p ← recycle_exit; set_while_ctx p "new frame") empty_graph = Crash.
Proof. split; [|by vm_compute]. eexists _, _, _. by split_and!; [by vm_compute|..]. Qed.
