(* ===== verification/GraphCycles.v ===== *)
(** * Incremental cycle detection: the model

    [compiler/jit/graphcycles/ordered_set.h] and [graphcycles.cc]: a dynamic directed
    graph with the topological ranks of Pearce and Kelly.  A node id is an index of the
    vector of nodes, a rank a [nat]; the vectors that only live during a call (the two
    deltas, the list, the stack) are values of the functions. *)

From S2P Require Import Prelude.

(** ** Sets with a deterministic iteration order *)

Module OrderedSet.

Record t := mk {
  value_sequence_ : list nat;
  value_to_index_ : gmap nat nat
}.

Definition empty : t := mk [] ∅.

Definition Insert (value : nat) (s : t) : bool * t :=
  match value_to_index_ s !! value with
  | Some _ => (false, s)
  | None => (true, mk (value_sequence_ s ++ [value])
                      (<[value := length (value_sequence_ s)]> (value_to_index_ s)))
  end.

(** [None]: the value is not in the set ([DCHECK]). *)
Definition Erase (value : nat) (s : t) : option t :=
  index ← value_to_index_ s !! value;
  back ← last (value_sequence_ s);
  let value_to_index := <[back := index]> (value_to_index_ s) in
  let n := length (value_sequence_ s) in
  let value_sequence := <[index := back]> (<[(n - 1)%nat := value]> (value_sequence_ s)) in
  Some (mk (take (n - 1) value_sequence) (delete value value_to_index)).

Definition Clear (_ : t) : t := empty.
Definition Contains (value : nat) (s : t) : bool := bool_decide (is_Some (value_to_index_ s !! value)).
Definition Size (s : t) : nat := length (value_sequence_ s).
Definition GetSequence (s : t) : list nat := value_sequence_ s.

(** ** Correctness *)

(** The map is the inverse of the sequence. *)
Definition wf (s : t) : Prop :=
  forall v i, value_to_index_ s !! v = Some i <-> value_sequence_ s !! i = Some v.

Lemma wf_empty : wf empty.
Proof. intros v i. cbn. by rewrite lookup_empty. Qed.

Lemma wf_NoDup s : wf s -> NoDup (GetSequence s).
Proof. intros Hw. apply NoDup_alt. intros i j v Hi Hj. apply Hw in Hi, Hj. congruence. Qed.

Lemma Contains_spec v s : wf s -> Contains v s = true <-> v ∈ GetSequence s.
Proof.
  intros Hw. unfold Contains. rewrite bool_decide_eq_true, list_elem_of_lookup. split.
  - intros [i Hi]. exists i. by apply Hw.
  - intros [i Hi]. exists i. by apply Hw.
Qed.

Lemma Insert_spec v s b s' :
  wf s -> Insert v s = (b, s') ->
  wf s' /\ (b = true <-> v ∉ GetSequence s)
  /\ GetSequence s' = if b then GetSequence s ++ [v] else GetSequence s.
Proof.
  intros Hw. unfold Insert, GetSequence. destruct (value_to_index_ s !! v) as [i|] eqn:E; intros [= <- <-].
  - split_and!; [done| |done]. split; [done|]. intros Hv. apply Hw in E. by apply list_elem_of_lookup_2 in E.
  - assert (v ∉ value_sequence_ s) as Hv.
    { intros [i Hi]%list_elem_of_lookup_1. apply Hw in Hi. congruence. }
    split_and!; [|done|done]. intros w i. cbn. destruct (decide (w = v)) as [->|Hne].
    + rewrite lookup_insert_eq. split.
      * intros [= <-]. by rewrite lookup_app_r, Nat.sub_diag.
      * intros Hi. apply lookup_app_Some in Hi as [Hi|[Hle Hi]]; [by apply list_elem_of_lookup_2 in Hi|].
        apply list_lookup_singleton_Some in Hi as [? _]. f_equal. lia.
    + rewrite lookup_insert_ne by done. rewrite (Hw w i). split.
      * intros Hi. by apply lookup_app_l_Some.
      * intros Hi. apply lookup_app_Some in Hi as [Hi|[Hle Hi]]; [done|].
        apply list_lookup_singleton_Some in Hi as [_ ?]. congruence.
Qed.

(** After the swap with the last element. *)
Lemma Erase_sequence (l : list nat) b v i :
  (l ++ [b]) !! i = Some v ->
  take (length l) (<[i := b]> (<[length l := v]> (l ++ [b]))) = <[i := b]> l.
Proof.
  intros Hi. apply list_eq. intros j. destruct (decide (j < length l)%nat) as [Hj|Hj].
  - rewrite lookup_take_lt by done. destruct (decide (j = i)) as [->|Hne].
    + rewrite !list_lookup_insert_eq; [done|done|]. rewrite length_insert, length_app. cbn. lia.
    + rewrite !list_lookup_insert_ne by lia. by rewrite lookup_app_l.
  - rewrite lookup_take_ge by lia. symmetry. apply lookup_ge_None_2. rewrite length_insert. lia.
Qed.

Lemma Erase_spec v s :
  wf s -> v ∈ GetSequence s ->
  exists s', Erase v s = Some s' /\ wf s' /\ (forall w, w ∈ GetSequence s' <-> w ∈ GetSequence s /\ w <> v)
    /\ (forall l, GetSequence s = l ++ [v] -> GetSequence s' = l).
Proof.
  intros Hw Hv. unfold GetSequence in *. apply list_elem_of_lookup_1 in Hv as [i Hi]. apply Hw in Hi as Hm.
  destruct (exists_last (l := value_sequence_ s)) as (l & b & El); [by destruct (value_sequence_ s)|].
  assert (forall w j, value_to_index_ s !! w = Some j <-> (l ++ [b]) !! j = Some w) as Hw'
    by (intros; rewrite <- El; apply Hw).
  unfold Erase. rewrite Hm, El. cbn [mbind option_bind]. rewrite last_snoc. cbn [mbind option_bind].
  eexists. split; [reflexivity|]. rewrite length_app. cbn [length value_sequence_].
  replace (length l + 1 - 1)%nat with (length l) by lia. rewrite El in Hi. rewrite (Erase_sequence l b v i Hi).
  assert (forall w j, l !! j = Some w -> (l ++ [b]) !! j = Some w) as Hl by (intros; by apply lookup_app_l_Some).
  assert ((l ++ [b]) !! length l = Some b) as Hb by (by rewrite lookup_app_r, Nat.sub_diag).
  assert (forall w, w ∈ <[i := b]> l <-> w ∈ l ++ [b] /\ w <> v) as Helem.
  { intros w. rewrite !list_elem_of_lookup. split.
    - intros [j Hj]. pose proof (lookup_lt_Some _ _ _ Hj) as Hlt. rewrite length_insert in Hlt.
      destruct (decide (j = i)) as [->|Hne].
      + rewrite list_lookup_insert_eq in Hj by done. injection Hj as <-. split; [by exists (length l)|]. intros ->.
        apply Hw' in Hi, Hb. assert (i = length l) by congruence. lia.
      + rewrite list_lookup_insert_ne in Hj by done. split; [exists j; auto|]. intros ->.
        apply Hl, Hw' in Hj. congruence.
    - intros [[j Hj] Hne]. apply lookup_app_Some in Hj as [Hj|[Hle Hj]].
      + exists j. rewrite list_lookup_insert_ne; [done|]. intros ->. apply Hl in Hj. congruence.
      + apply list_lookup_singleton_Some in Hj as [Hj <-]. exists i. apply list_lookup_insert_eq.
        apply lookup_lt_Some in Hi as Hlt. rewrite length_app in Hlt. cbn in Hlt.
        destruct (decide (i = length l)) as [->|]; [|lia]. congruence. }
  split_and!; [|done|].
  - intros w j. cbn. destruct (decide (w = v)) as [->|Hwv].
    { rewrite lookup_delete_eq. split; [done|]. intros Hj. apply list_elem_of_lookup_2, Helem in Hj as [_ ?]. done. }
    rewrite lookup_delete_ne by done. destruct (decide (w = b)) as [->|Hwb].
    + rewrite lookup_insert_eq. split.
      * intros [= <-]. apply list_lookup_insert_eq. apply lookup_lt_Some in Hi as Hlt. rewrite length_app in Hlt. cbn in Hlt.
        destruct (decide (i = length l)) as [->|]; [|lia]. congruence.
      * intros Hj. destruct (decide (j = i)) as [->|Hne]; [done|]. rewrite list_lookup_insert_ne in Hj by done.
        apply lookup_lt_Some in Hj as Hlt. apply Hl, Hw' in Hj. apply Hw' in Hb. assert (j = length l) by congruence. lia.
    + rewrite lookup_insert_ne, Hw' by done. split.
      * intros Hj. apply lookup_app_Some in Hj as [Hj|[_ Hj]].
        -- rewrite list_lookup_insert_ne; [done|]. intros ->. apply Hl in Hj. congruence.
        -- apply list_lookup_singleton_Some in Hj as [_ ?]. congruence.
      * intros Hj. destruct (decide (j = i)) as [->|Hne].
        -- apply lookup_lt_Some in Hj as Hlt. rewrite length_insert in Hlt. rewrite list_lookup_insert_eq in Hj by done. congruence.
        -- rewrite list_lookup_insert_ne in Hj by done. auto.
  - intros l' E. apply app_inj_tail in E as [-> ->]. apply list_insert_ge.
    apply Hw' in Hi, Hb. assert (i = length l') by congruence. lia.
Qed.

End OrderedSet.

(** ** The graph *)

Module GraphCycles.

Record Node := mkNode {
  rank : nat;
  visited : bool;
  data : Z;
  in_ : OrderedSet.t;
  out : OrderedSet.t
}.

Record Rep := mkRep {
  nodes_ : list Node;
  free_nodes_ : list nat
}.

Definition set_rank v (n : Node) := mkNode v (visited n) (data n) (in_ n) (out n).
Definition set_visited v (n : Node) := mkNode (rank n) v (data n) (in_ n) (out n).
Definition set_data v (n : Node) := mkNode (rank n) (visited n) v (in_ n) (out n).
Definition set_in v (n : Node) := mkNode (rank n) (visited n) (data n) v (out n).
Definition set_out v (n : Node) := mkNode (rank n) (visited n) (data n) (in_ n) v.

Abbreviation MG := (M Rep).

Definition GraphCycles_init : Rep := mkRep [] [].

(** [r->nodes_[n]], and a write through that pointer. *)
Definition node (n : nat) : MG Node := r ← get; of_option (nodes_ r !! n).
Definition update (n : nat) (f : Node -> Node) : MG unit :=
  nn ← node n;
  modify (fun r => mkRep (<[n := f nn]> (nodes_ r)) (free_nodes_ r)).

Definition in_Erase (n v : nat) : MG unit :=
  nn ← node n; s ← of_option (OrderedSet.Erase v (in_ nn)); update n (set_in s).
Definition out_Erase (n v : nat) : MG unit :=
  nn ← node n; s ← of_option (OrderedSet.Erase v (out nn)); update n (set_out s).

Fixpoint for_each (l : list nat) (body : nat -> MG unit) : MG unit :=
  match l with [] => mret tt | x :: l => body x;; for_each l body end.

Definition NewNode : MG nat :=
  r ← get;
  match last (free_nodes_ r) with
  | None =>
      let n := mkNode (length (nodes_ r)) false 0 OrderedSet.empty OrderedSet.empty in
      put (mkRep (nodes_ r ++ [n]) (free_nodes_ r));;
      mret (rank n)
  | Some f =>
      update f (set_data 0);;
      modify (fun r => mkRep (nodes_ r) (take (length (free_nodes_ r) - 1) (free_nodes_ r)));;
      mret f
  end.

Definition push_free (n : nat) : MG unit := modify (fun r => mkRep (nodes_ r) (free_nodes_ r ++ [n])).

Definition RemoveNode (n : nat) : MG unit :=
  x ← node n;
  for_each (OrderedSet.GetSequence (out x)) (fun y => in_Erase y n);;
  x ← node n;
  for_each (OrderedSet.GetSequence (in_ x)) (fun y => out_Erase y n);;
  update n (fun x => set_in (OrderedSet.Clear (in_ x)) x);;
  update n (fun x => set_out (OrderedSet.Clear (out x)) x);;
  push_free n.

Definition GetNodeData (n : nat) : MG Z := x ← node n; mret (data x).
Definition SetNodeData (n : nat) (d : Z) : MG unit := update n (set_data d).

Definition HasEdge (x y : nat) : MG bool := nx ← node x; mret (OrderedSet.Contains y (out nx)).

Definition RemoveEdge (x y : nat) : MG unit := out_Erase x y;; in_Erase y x.

(** ** Depth-first search

    [ForwardDFS] and [BackwardDFS] follow the [out] or [in] sets; they look at the rank of
    each neighbour: [stop] ends the search with [false], [keep] puts it on the stack. *)
Section dfs.
Context (succ : Node -> OrderedSet.t) (stop keep : nat -> bool).

(** The [for] loop over the neighbours; [None] is [return false]. *)
Fixpoint DFS_scan (ws stack : list nat) : MG (option (list nat)) :=
  match ws with
  | [] => mret (Some stack)
  | w :: ws =>
      nw ← node w;
      if stop (rank nw) then mret None
      else if negb (visited nw) && keep (rank nw) then DFS_scan ws (stack ++ [w])
      else DFS_scan ws stack
  end.

(** The [while] loop: the result of the search and the nodes it visited, in order. *)
Fixpoint DFS_loop (fuel : nat) (stack delta : list nat) : MG (bool * list nat) :=
  match last stack with
  | None => mret (true, delta)
  | Some n =>
      match fuel with
      | O => nofuel
      | S f =>
          let stack := take (length stack - 1) stack in
          nn ← node n;
          if visited nn then DFS_loop f stack delta
          else
            update n (set_visited true);;
            nn ← node n;
            scan ← DFS_scan (OrderedSet.GetSequence (succ nn)) stack;
            match scan with
            | None => mret (false, delta ++ [n])
            | Some stack => DFS_loop f stack (delta ++ [n])
            end
      end
  end.

(** Enough iterations: one per edge and one for the start. *)
Definition edge_count (r : Rep) : nat := sum_list_with (fun n => OrderedSet.Size (succ n)) (nodes_ r).

Definition DFS (n : nat) : MG (bool * list nat) := r ← get; DFS_loop (S (edge_count r)) [n] [].

End dfs.

Definition ForwardDFS (n upper_bound : nat) : MG (bool * list nat) :=
  DFS out (fun r => r =? upper_bound)%nat (fun r => r <? upper_bound)%nat n.

Definition BackwardDFS (n lower_bound : nat) : MG (list nat) :=
  '(_, deltab) ← DFS in_ (fun _ => false) (fun r => lower_bound <? r)%nat n;
  mret deltab.

Definition ClearVisitedBits (l : list nat) : MG unit := for_each l (fun n => update n (set_visited false)).

(** ** Reordering *)

Definition rank_of (r : Rep) (n : nat) : nat := match nodes_ r !! n with Some nn => rank nn | None => O end.

(** [std::sort] by rank; the ranks are distinct. *)
Definition rank_le (r : Rep) (a b : nat) : Prop := (rank_of r a <= rank_of r b)%nat.
#[export] Instance rank_le_dec r a b : Decision (rank_le r a b).
Proof. unfold rank_le. apply _. Defined.

Definition Sort (delta : list nat) : MG (list nat) :=
  r ← get; mret (merge_sort (rank_le r) delta).

(** The ranks of the nodes of [src], whose markers are cleared. *)
Fixpoint MoveToList (src : list nat) : MG (list nat) :=
  match src with
  | [] => mret []
  | w :: src =>
      nw ← node w;
      update w (set_visited false);;
      ranks ← MoveToList src;
      mret (rank nw :: ranks)
  end.

Fixpoint assign_ranks (l : list nat) (ranks : list nat) : MG unit :=
  match l, ranks with
  | n :: l, k :: ranks => update n (set_rank k);; assign_ranks l ranks
  | _, _ => mret tt
  end.

Definition Reorder (deltab deltaf : list nat) : MG unit :=
  deltab ← Sort deltab;
  deltaf ← Sort deltaf;
  ranksb ← MoveToList deltab;
  ranksf ← MoveToList deltaf;
  let merged := list_merge Nat.le ranksb ranksf in
  assign_ranks (deltab ++ deltaf) merged.

Definition InsertEdge (x y : nat) : MG bool :=
  if (x =? y)%nat then mret false
  else
    nx ← node x;
    let '(inserted, s) := OrderedSet.Insert y (out nx) in
    if negb inserted then mret true
    else
      update x (set_out s);;
      ny ← node y;
      update y (set_in (OrderedSet.Insert x (in_ ny)).2);;
      nx ← node x;
      ny ← node y;
      if (rank nx <=? rank ny)%nat then mret true
      else
        '(ok, deltaf) ← ForwardDFS y (rank nx);
        if negb ok then
          out_Erase x y;;
          in_Erase y x;;
          ClearVisitedBits deltaf;;
          mret false
        else
          deltab ← BackwardDFS x (rank ny);
          Reorder deltab deltaf;;
          mret true.

(** ** Queries and contraction *)

(** The stack of [FindPath]: [None] is the marker -1. *)
Fixpoint FindPath_push (ws : list nat) (seen : gset nat) (stack : list (option nat)) : gset nat * list (option nat) :=
  match ws with
  | [] => (seen, stack)
  | w :: ws => if bool_decide (w ∈ seen) then FindPath_push ws seen stack
               else FindPath_push ws ({[w]} ∪ seen) (stack ++ [Some w])
  end.

(** [path[path_len] = n]: a write outside of the caller's array is a crash. *)
Definition store_path (path_len n : nat) (path : list nat) : option (list nat) :=
  if (path_len <? length path)%nat then Some (<[path_len := n]> path) else None.

Fixpoint FindPath_loop (fuel : nat) (y max_path_len path_len : nat) (path : list nat) (seen : gset nat) (stack : list (option nat))
  : MG (nat * list nat) :=
  match last stack with
  | None => mret (0%nat, path)
  | Some n =>
      match fuel with
      | O => nofuel
      | S f =>
          let stack := take (length stack - 1) stack in
          match n with
          | None => FindPath_loop f y max_path_len (path_len - 1) path seen stack
          | Some n =>
              path ← (if (path_len <? max_path_len)%nat then of_option (store_path path_len n path) else mret path);
              let path_len := S path_len in
              let stack := stack ++ [None] in
              if (n =? y)%nat then mret (path_len, path)
              else
                nn ← node n;
                let '(seen, stack) := FindPath_push (OrderedSet.GetSequence (out nn)) seen stack in
                FindPath_loop f y max_path_len path_len path seen stack
          end
      end
  end.

(** The length of the path and the caller's array; a negative [max_path_len] acts like 0.  Every node is pushed at most once as a
    neighbour, and pushes one marker. *)
Definition FindPath (x y max_path_len : nat) (path : list nat) : MG (nat * list nat) :=
  r ← get; FindPath_loop (2 * length (nodes_ r) + 2) y max_path_len 0 path ∅ [Some x].

Definition IsReachable (x y : nat) : MG bool :=
  '(path_len, _) ← FindPath x y 0 []; mret (0 <? path_len)%nat.

Definition IsReachableNonConst (x y : nat) : MG bool :=
  if (x =? y)%nat then mret true
  else
    nx ← node x;
    ny ← node y;
    if (rank ny <=? rank nx)%nat then mret false
    else
      '(ok, deltaf) ← ForwardDFS x (rank ny);
      ClearVisitedBits deltaf;;
      mret (negb ok).

Definition CanContractEdge (a b : nat) : MG bool :=
  has ← HasEdge a b;
  CHECK has;;
  RemoveEdge a b;;
  reachable ← IsReachableNonConst a b;
  InsertEdge a b;;
  mret (negb reachable).

Definition ContractEdge (a b : nat) : MG bool :=
  has ← HasEdge a b;
  CHECK has;;
  RemoveEdge a b;;
  reachable ← IsReachableNonConst a b;
  if (reachable : bool) then
    InsertEdge a b;;
    mret false
  else
    nb ← node b;
    let outs := OrderedSet.GetSequence (out nb) in
    let ins := OrderedSet.GetSequence (in_ nb) in
    update b (fun nb => set_in OrderedSet.empty (set_out OrderedSet.empty nb));;
    for_each outs (fun y => in_Erase y b);;
    for_each ins (fun y => out_Erase y b);;
    push_free b;;
    for_each outs (fun y => InsertEdge a y;; mret tt);;
    for_each ins (fun y => InsertEdge y a;; mret tt);;
    mret true.

Definition Successors (n : nat) : MG (list nat) := nn ← node n; mret (OrderedSet.GetSequence (out nn)).
Definition Predecessors (n : nat) : MG (list nat) := nn ← node n; mret (OrderedSet.GetSequence (in_ nn)).

(** [SortInPostOrder]: by decreasing rank. *)
Definition rank_ge (r : Rep) (a b : nat) : Prop := (rank_of r b <= rank_of r a)%nat.
#[export] Instance rank_ge_dec r a b : Decision (rank_ge r a b).
Proof. unfold rank_ge. apply _. Defined.

Definition AllNodesInPostOrder (r : Rep) : list nat :=
  merge_sort (rank_ge r)
    (filter (fun i => i ∉ (list_to_set (free_nodes_ r) : gset nat)) (seq 0 (length (nodes_ r)))).

(** [CheckInvariants]: [false] is one of the [LOG(FATAL)]s. *)
Definition CheckInvariants (r : Rep) : bool :=
  forallb (fun nx =>
    negb (visited nx)
    && forallb (fun y => match nodes_ r !! y with Some ny => rank nx <? rank ny | None => false end)%nat
         (OrderedSet.GetSequence (out nx))) (nodes_ r)
  && bool_decide (NoDup (map rank (nodes_ r))).

End GraphCycles.
