(* ===== verification/GraphCyclesDFS.v ===== *)
(** * Incremental cycle detection: depth-first search

    The representation invariant of the graph, and the correctness of the bounded
    depth-first search: it finishes, visits exactly the nodes it can reach within the
    bounds, and fails exactly when it meets the bound. *)

From S2P Require Import Prelude GraphCycles.
Import GraphCycles.

(** ** Views of the graph *)

Definition outs (s : Rep) (x : nat) : list nat :=
  match nodes_ s !! x with Some n => OrderedSet.GetSequence (out n) | None => [] end.
Definition ins (s : Rep) (x : nat) : list nat :=
  match nodes_ s !! x with Some n => OrderedSet.GetSequence (in_ n) | None => [] end.

(** The part of a node that a search does not change. *)
Definition core (n : Node) := (rank n, data n, in_ n, out n).

Definition same_graph (s s' : Rep) : Prop :=
  map core (nodes_ s') = map core (nodes_ s) /\ free_nodes_ s' = free_nodes_ s.

#[export] Instance same_graph_equiv : Equivalence same_graph.
Proof.
  split; [by intros s|by intros s s' [? ?]; split|]. intros s1 s2 s3 [? ?] [? ?]. split; congruence.
Qed.

Lemma same_graph_lookup s s' n nn :
  same_graph s s' -> nodes_ s !! n = Some nn -> exists nn', nodes_ s' !! n = Some nn' /\ core nn' = core nn.
Proof.
  intros [E _] Hn. apply (f_equal (fun l => l !! n)) in E. change (map ?f ?l) with (f <$> l) in E.
  rewrite !list_lookup_fmap, Hn in E. destruct (nodes_ s' !! n) as [nn'|]; [|done]. injection E as E1 E2 E3 E4.
  exists nn'. unfold core. split; [done|congruence].
Qed.

Lemma same_graph_length s s' : same_graph s s' -> length (nodes_ s') = length (nodes_ s).
Proof. intros [E _]. apply (f_equal length) in E. by rewrite !length_map in E. Qed.

Lemma same_graph_views s s' n :
  same_graph s s' -> outs s' n = outs s n /\ ins s' n = ins s n /\ rank_of s' n = rank_of s n.
Proof.
  intros Hs. unfold outs, ins, rank_of. destruct (nodes_ s !! n) as [nn|] eqn:E.
  - destruct (same_graph_lookup _ _ _ _ Hs E) as (nn' & -> & Ec). unfold core in Ec. injection Ec as -> _ -> ->. done.
  - assert (nodes_ s' !! n = None) as ->; [|done]. apply lookup_ge_None. rewrite (same_graph_length _ _ Hs).
    by apply lookup_ge_None.
Qed.

Definition visited_in (s : Rep) (V : list nat) : Prop :=
  forall n nn, nodes_ s !! n = Some nn -> visited nn = true <-> n ∈ V.

(** ** Symbolic execution *)

Lemma wp_node t n nn s Q : nodes_ s !! n = Some nn -> Q nn s -> wp t (node n) s Q.
Proof. intros Hn HQ. unfold node. wp_steps. by eapply wp_of_option. Qed.

Lemma wp_update t n f nn s (Q : unit -> Rep -> Prop) :
  nodes_ s !! n = Some nn -> Q tt (mkRep (<[n := f nn]> (nodes_ s)) (free_nodes_ s)) -> wp t (update n f) s Q.
Proof. intros Hn HQ. unfold update. wp_step. eapply wp_node; [done|]. by wp_steps. Qed.

Lemma wp_for_each t l body s (I : list nat -> Rep -> Prop) :
  I l s -> (forall x l s, I (x :: l) s -> wp t (body x) s (fun _ s' => I l s')) ->
  wp t (for_each l body) s (fun _ s' => I [] s').
Proof.
  intros HI Hb. revert s HI. induction l as [|x l IH]; intros s HI; cbn [for_each]; [by wp_steps|].
  wp_step. eapply wp_mono; [by apply Hb|]. cbn beta. intros _ s' HI'. by apply IH.
Qed.

Lemma update_same_graph s n nn nn' :
  nodes_ s !! n = Some nn -> core nn' = core nn ->
  same_graph s (mkRep (<[n := nn']> (nodes_ s)) (free_nodes_ s)).
Proof.
  intros Hn Ec. split; [|done]. cbn. change (map ?f ?l) with (f <$> l).
  rewrite list_fmap_insert, Ec. apply list_insert_id. by rewrite list_lookup_fmap, Hn.
Qed.

Lemma ClearVisitedBits_spec t l s V :
  visited_in s (V ++ l) -> (forall n, n ∈ V -> n ∉ l) -> (forall n, n ∈ l -> (n < length (nodes_ s))%nat) ->
  wp t (ClearVisitedBits l) s (fun _ s' => same_graph s s' /\ visited_in s' V).
Proof.
  intros Hv Hd Hl. unfold ClearVisitedBits. eapply wp_mono.
  - apply (wp_for_each t l _ s (fun rest s' => same_graph s s' /\ (forall n, n ∈ rest -> (n < length (nodes_ s))%nat)
      /\ (forall n nn, nodes_ s' !! n = Some nn -> n ∉ V -> visited nn = true -> n ∈ rest)
      /\ (forall n nn, nodes_ s' !! n = Some nn -> n ∈ V -> visited nn = true) /\ (forall n, n ∈ V -> n ∉ rest))).
    + split_and!; [done|done| | |done].
      * intros n nn Hn HnV Hvis. apply (Hv n nn Hn) in Hvis. apply elem_of_app in Hvis as [?|?]; done.
      * intros n nn Hn HnV. apply (Hv n nn Hn). apply elem_of_app. by left.
    + intros x rest s' (Hs & Hlt & H1 & H2 & H3).
      destruct (lookup_lt_is_Some_2 (nodes_ s') x) as [nx Hx].
      { rewrite (same_graph_length _ _ Hs). apply Hlt. left. }
      eapply wp_update; [done|]. split_and!.
      * etrans; [done|]. by eapply update_same_graph.
      * intros n Hn. apply Hlt. by right.
      * cbn. intros n nn Hn HnV Hvis. destruct (decide (n = x)) as [->|Hne].
        -- rewrite list_lookup_insert_eq in Hn by (by eapply lookup_lt_Some). injection Hn as <-. done.
        -- rewrite list_lookup_insert_ne in Hn by done. pose proof (H1 n nn Hn HnV Hvis) as Hr.
           by apply elem_of_cons in Hr as [?|?].
      * cbn. intros n nn Hn HnV. rewrite list_lookup_insert_ne in Hn; [by apply (H2 n)|].
        intros ->. apply (H3 n HnV). left.
      * intros n Hn Hr. apply (H3 n Hn). by right.
  - cbn beta. intros _ s' (Hs & _ & H1 & H2 & _). split; [done|]. intros n nn Hn. split.
    + intros Hvis. destruct (decide (n ∈ V)) as [?|HnV]; [done|]. pose proof (H1 n nn Hn HnV Hvis) as Hr. by apply not_elem_of_nil in Hr.
    + intros HnV. by apply (H2 n).
Qed.

(** ** The search *)

Section dfs_spec.
Context (succ : Node -> OrderedSet.t) (stop keep : nat -> bool).
Context (succ_core : forall n n', core n = core n' -> succ n = succ n').

Definition succs (s : Rep) (x : nat) : list nat :=
  match nodes_ s !! x with Some n => OrderedSet.GetSequence (succ n) | None => [] end.

Lemma same_graph_succs s s' n : same_graph s s' -> succs s' n = succs s n.
Proof using succ_core.
  intros Hs. unfold succs. destruct (nodes_ s !! n) as [nn|] eqn:E.
  - destruct (same_graph_lookup _ _ _ _ Hs E) as (nn' & -> & Ec). by rewrite (succ_core _ _ Ec).
  - assert (nodes_ s' !! n = None) as ->; [|done]. apply lookup_ge_None. rewrite (same_graph_length _ _ Hs).
    by apply lookup_ge_None.
Qed.

Lemma DFS_scan_spec t ws stack s V :
  visited_in s V -> (forall w, w ∈ ws -> (w < length (nodes_ s))%nat) ->
  wp t (DFS_scan stop keep ws stack) s (fun r s' => s' = s /\
    match r with
    | None => exists w, w ∈ ws /\ stop (rank_of s w) = true
    | Some stack' =>
        (forall w, w ∈ ws -> stop (rank_of s w) = false /\ (keep (rank_of s w) = true -> w ∈ V \/ w ∈ stack'))
        /\ (forall w, w ∈ stack' -> w ∈ stack \/ (w ∈ ws /\ keep (rank_of s w) = true))
        /\ (forall w, w ∈ stack -> w ∈ stack')
        /\ (length stack' <= length stack + length ws)%nat
    end).
Proof using Type.
  intros Hv. revert stack. induction ws as [|w ws IH]; intros stack Hw; cbn [DFS_scan].
  { wp_steps. split; [done|]. split_and!; try done; [by intros w ?%not_elem_of_nil|by left|cbn; lia]. }
  destruct (lookup_lt_is_Some_2 (nodes_ s) w) as [nw Hnw]; [apply Hw; left|].
  assert (rank_of s w = rank nw) as Er by (unfold rank_of; by rewrite Hnw).
  wp_step. eapply wp_node; [done|]. destruct (stop (rank nw)) eqn:Es.
  { wp_steps. split; [done|]. exists w. split; [left|congruence]. }
  assert (forall w0, w0 ∈ ws -> (w0 < length (nodes_ s))%nat) as Hws by (intros; apply Hw; by right).
  destruct (negb (visited nw) && keep (rank nw)) eqn:Ek; (eapply wp_mono; [by apply IH|]); cbn beta;
    intros r s' [-> Hr]; (split; [done|]); (destruct r as [stack'|]; [|destruct Hr as (w0 & ? & ?); exists w0; split; [by right|done]]);
    destruct Hr as (H1 & H2 & H3 & H4); split_and!.
  - intros w0 [->|Hw0]%elem_of_cons; [|by apply H1]. rewrite Er. split; [done|]. intros _. right. apply H3. elem.
  - intros w0 Hw0. apply H2 in Hw0 as [Hw0|[? ?]]; [|right; split; [by right|done]].
    apply elem_of_app in Hw0 as [?|Hw0]; [by left|]. apply list_elem_of_singleton in Hw0 as ->. right.
    apply andb_true_iff in Ek as [_ Ek]. split; [left|congruence].
  - intros w0 Hw0. apply H3. elem.
  - rewrite length_app in H4. cbn in *. lia.
  - intros w0 [->|Hw0]%elem_of_cons; [|by apply H1]. rewrite Er. split; [done|]. intros Hk. left.
    rewrite Hk, andb_true_r in Ek. apply negb_false_iff in Ek. by apply (Hv w nw).
  - intros w0 Hw0. apply H2 in Hw0 as [?|[? ?]]; [by left|right; split; [by right|done]].
  - done.
  - cbn. lia.
Qed.

(** The edges that remain to be followed. *)
Definition pending (s : Rep) : nat :=
  sum_list_with (fun n => if visited n then O else OrderedSet.Size (succ n)) (nodes_ s).

Context (P : nat -> Prop) (V0 : list nat).

(** The state of the loop: [delta] has been visited, [stack] is to be visited. *)
Record dfs_inv (s : Rep) (stack delta : list nat) : Prop := {
  d_visited : visited_in s (V0 ++ delta);
  d_NoDup : NoDup delta;
  d_fresh : forall n, n ∈ delta -> n ∉ V0;
  d_range : forall n, n ∈ stack ++ delta -> (n < length (nodes_ s))%nat;
  d_P : forall n, n ∈ stack ++ delta -> P n;
  d_closed : forall n w, n ∈ delta -> w ∈ succs s n ->
    stop (rank_of s w) = false /\ (keep (rank_of s w) = true -> w ∈ V0 ++ delta \/ w ∈ stack)
}.

Lemma dfs_done s delta :
  dfs_inv s [] delta ->
  same_graph s s /\ (forall n, n ∈ delta -> n ∈ delta)
  /\ visited_in s (V0 ++ delta) /\ NoDup delta /\ (forall n, n ∈ delta -> n ∉ V0 /\ (n < length (nodes_ s))%nat /\ P n)
  /\ (dfs_inv s [] delta /\ (forall n, n ∈ [] -> n ∈ V0 ++ delta)).
Proof using Type.
  intros Hi. pose proof Hi as [? ? ? Hr Hp _]. split_and!; try done.
  - intros n Hn. split_and!; [auto|apply Hr; elem|apply Hp; elem].
  - by intros n ?%not_elem_of_nil.
Qed.

Lemma dfs_step s s1 stk delta n stack' :
  same_graph s s1 -> (forall x w, w ∈ succs s x -> (w < length (nodes_ s))%nat) ->
  (forall x w, P x -> w ∈ succs s x -> keep (rank_of s w) = true -> P w) ->
  dfs_inv s (stk ++ [n]) delta -> n ∉ V0 ++ delta -> visited_in s1 ((V0 ++ delta) ++ [n]) ->
  (forall w, w ∈ succs s n -> stop (rank_of s1 w) = false
     /\ (keep (rank_of s1 w) = true -> w ∈ (V0 ++ delta) ++ [n] \/ w ∈ stack')) ->
  (forall w, w ∈ stack' -> w ∈ stk \/ (w ∈ succs s n /\ keep (rank_of s1 w) = true)) ->
  (forall w, w ∈ stk -> w ∈ stack') ->
  dfs_inv s1 stack' (delta ++ [n]).
Proof using succ_core.
  intros Hs1 Hcl HP Hi HnV Hv1 H1 H2 H3. destruct Hi as [_ Hnd Hfr Hr Hp Hc].
  assert (forall w, rank_of s1 w = rank_of s w) as Er by (intros w; by apply same_graph_views).
  assert (forall x, x ∈ stack' ++ delta ++ [n] ->
    x ∈ (stk ++ [n]) ++ delta \/ (x ∈ succs s n /\ keep (rank_of s x) = true)) as Hel.
  { intros x Hx. rewrite !elem_of_app in Hx. destruct Hx as [Hx|[Hx|Hx]]; [|left; elem|left; elem].
    destruct (H2 x Hx) as [?|[? Hk]]; [left; elem|right]. by rewrite Er in Hk. }
  assert (P n) as HPn by (apply Hp; elem).
  constructor.
  - by rewrite app_assoc.
  - apply NoDup_app. split_and!; [done| |apply NoDup_singleton]. intros x Hx ->%list_elem_of_singleton. apply HnV. elem.
  - intros x [Hx|Hx]%elem_of_app; [by apply Hfr|]. apply list_elem_of_singleton in Hx as ->. intros Hx. apply HnV. elem.
  - intros x Hx. rewrite (same_graph_length _ _ Hs1). destruct (Hel x Hx) as [?|[? _]]; [by apply Hr|by eapply Hcl].
  - intros x Hx. destruct (Hel x Hx) as [?|[? ?]]; [by apply Hp|by eapply HP].
  - intros x w Hx Hw. rewrite (same_graph_succs s s1) in Hw by done. rewrite app_assoc.
    apply elem_of_app in Hx as [Hx|Hx].
    + rewrite Er. destruct (Hc x w Hx Hw) as [? Hk]. split; [done|]. intros Hkp.
      destruct (Hk Hkp) as [?|Hk']; [left; elem|]. apply elem_of_app in Hk' as [?|?]; [right; auto|left; elem].
    + apply list_elem_of_singleton in Hx as ->. by apply H1.
Qed.

(** A node that was already visited is popped. *)
Lemma dfs_skip s stk delta n : dfs_inv s (stk ++ [n]) delta -> n ∈ V0 ++ delta -> dfs_inv s stk delta.
Proof using Type.
  intros [? ? ? Hr Hp Hc] HnV. constructor; try done; [intros x Hx; apply Hr; elem|intros x Hx; apply Hp; elem|].
  intros x w Hx Hw. destruct (Hc x w Hx Hw) as [? Hk]. split; [done|]. intros Hkp.
  destruct (Hk Hkp) as [?|Hs]; [by left|]. apply elem_of_app in Hs as [?|Hs]; [by right|].
  apply list_elem_of_singleton in Hs as ->. by left.
Qed.

(** Marking a node adds it to the visited ones and removes its edges from the pending ones. *)
Lemma mark_visited s n nn V free :
  visited_in s V -> nodes_ s !! n = Some nn -> visited_in (mkRep (<[n := set_visited true nn]> (nodes_ s)) free) (V ++ [n]).
Proof using Type.
  intros Hv Hn. clear -Hv Hn. intros x nx Hx. cbn in Hx. destruct (decide (x = n)) as [->|Hne].
  - rewrite list_lookup_insert_eq in Hx by (by eapply lookup_lt_Some). injection Hx as <-. split; [intros _; elem|done].
  - rewrite list_lookup_insert_ne in Hx by done. rewrite (Hv x nx Hx), elem_of_app, list_elem_of_singleton. tauto.
Qed.

Lemma mark_pending s n nn free :
  nodes_ s !! n = Some nn -> visited nn = false ->
  (pending (mkRep (<[n := set_visited true nn]> (nodes_ s)) free) + OrderedSet.Size (succ nn) = pending s)%nat.
Proof using Type.
  intros Hn Hvis. unfold pending. cbn [nodes_].
  pose proof (sum_insert (fun n => if visited n then O else OrderedSet.Size (succ n)) (nodes_ s) n nn (set_visited true nn) Hn) as E.
  cbn beta in E. rewrite Hvis in E. cbn [visited set_visited] in E. lia.
Qed.

Lemma DFS_loop_spec t fuel stack delta s :
  (forall n w, w ∈ succs s n -> (w < length (nodes_ s))%nat) ->
  (forall n w, P n -> w ∈ succs s n -> keep (rank_of s w) = true -> P w) ->
  dfs_inv s stack delta -> (length stack + pending s <= fuel)%nat ->
  wp t (DFS_loop succ stop keep fuel stack delta) s (fun r s' => same_graph s s'
    /\ (forall n, n ∈ delta -> n ∈ r.2)
    /\ visited_in s' (V0 ++ r.2) /\ NoDup r.2 /\ (forall n, n ∈ r.2 -> n ∉ V0 /\ (n < length (nodes_ s))%nat /\ P n)
    /\ (if r.1 then dfs_inv s' [] r.2 /\ (forall n, n ∈ stack -> n ∈ V0 ++ r.2)
        else exists n w, n ∈ r.2 /\ w ∈ succs s n /\ stop (rank_of s w) = true)).
Proof using succ_core.
  revert stack delta s. induction fuel as [|f IH]; intros stack delta s Hcl HP Hi Hf;
    cbn [DFS_loop]; (destruct (last stack) as [n|] eqn:El; [apply last_Some in El as [stk ->]|apply last_None in El as ->;
      wp_steps; by apply dfs_done]).
  { rewrite length_app in Hf. cbn in Hf. lia. }
  rewrite length_app in Hf |- *. cbn [length] in Hf |- *. replace (length stk + 1 - 1)%nat with (length stk) by lia.
  rewrite take_app_length.
  destruct (lookup_lt_is_Some_2 (nodes_ s) n) as [nn Hn]; [apply Hi; elem|].
  assert (P n) as HPn by (apply Hi; elem).
  wp_step. eapply wp_node; [done|]. destruct (visited nn) eqn:Hvis.
  - assert (n ∈ V0 ++ delta) as HnV by (by apply (d_visited _ _ _ Hi n nn)).
    eapply wp_mono; [apply (IH stk delta s); [done|done|by eapply dfs_skip|lia]|].
    cbn beta. intros [ok dl] s' (? & Hsub & ? & ? & ? & Hok). split_and!; try done. destruct ok; [|done].
    destruct Hok as [? Hst]. split; [done|]. intros x [Hx|Hx]%elem_of_app; [by apply Hst|].
    apply list_elem_of_singleton in Hx as ->. apply elem_of_app in HnV as [Hx|Hx]; apply elem_of_app; [by left|right].
    by apply Hsub.
  - assert (n ∉ V0 ++ delta) as HnV by (intros Hx; apply (d_visited _ _ _ Hi n nn Hn) in Hx; congruence).
    wp_step. eapply wp_update; [done|]. set (s1 := mkRep _ _).
    assert (same_graph s s1) as Hs1 by (by eapply update_same_graph).
    assert (nodes_ s1 !! n = Some (set_visited true nn)) as Hn1
      by (apply list_lookup_insert_eq; by eapply lookup_lt_Some).
    assert (OrderedSet.GetSequence (succ (set_visited true nn)) = succs s n) as Esucc.
    { unfold succs. rewrite Hn. by rewrite (succ_core (set_visited true nn) nn). }
    assert (visited_in s1 ((V0 ++ delta) ++ [n])) as Hv1 by (apply mark_visited; [apply Hi|done]).
    wp_step. eapply wp_node; [done|]. rewrite Esucc. wp_step.
    eapply wp_mono; [apply (DFS_scan_spec t (succs s n) stk s1 _ Hv1)|].
    { intros w Hw. rewrite (same_graph_length _ _ Hs1). by eapply Hcl. }
    assert (forall w, rank_of s1 w = rank_of s w) as Er by (intros w; by apply same_graph_views).
    cbn beta. intros r s' [-> Hr]. destruct r as [stack'|].
    + destruct Hr as (H1 & H2 & H3 & H4).
      assert (pending s1 + OrderedSet.Size (succ nn) = pending s)%nat as Hpend by (by apply mark_pending).
      assert (length (succs s n) = OrderedSet.Size (succ nn)) as Elen by (unfold succs; by rewrite Hn).
      eapply wp_mono; [apply (IH stack' (delta ++ [n]) s1)|].
      * intros x w Hw. rewrite (same_graph_succs s s1) in Hw by done. rewrite (same_graph_length _ _ Hs1). exact (Hcl _ _ Hw).
      * intros x w Hx Hw. rewrite (same_graph_succs s s1) in Hw by done. rewrite Er. exact (HP _ _ Hx Hw).
      * by eapply (dfs_step s s1 stk delta n stack').
      * lia.
      * cbn beta. intros [ok dl] s' (Hg & Hsub & Hvi & Hnd & Hfr & Hok). cbn [fst snd] in *.
        assert (n ∈ dl) as Hndl by (apply Hsub; elem).
        split_and!; [by etrans|intros x Hx; apply Hsub; elem|done|done| |].
        -- intros x Hx. destruct (Hfr x Hx) as (? & Hlt & ?). rewrite (same_graph_length _ _ Hs1) in Hlt. done.
        -- destruct ok.
           ++ destruct Hok as [? Hst]. split; [done|]. intros x [Hx|Hx]%elem_of_app; [by apply Hst, H3|].
              apply list_elem_of_singleton in Hx as ->. apply elem_of_app. by right.
           ++ destruct Hok as (x & w & ? & Hw & Hst). rewrite (same_graph_succs s s1) in Hw by done. rewrite Er in Hst. eauto.
    + destruct Hr as (w & Hw & Hst). rewrite Er in Hst. wp_steps. cbn [fst snd]. split_and!.
      * done.
      * intros x Hx. elem.
      * by rewrite app_assoc.
      * apply NoDup_app. split_and!; [apply Hi| |apply NoDup_singleton].
        intros x Hx ->%list_elem_of_singleton. apply HnV. elem.
      * intros x [Hx|Hx]%elem_of_app; [split_and!; [by apply Hi|apply Hi; elem|apply Hi; elem]|].
        apply list_elem_of_singleton in Hx as ->. split_and!; [intros Hx; apply HnV; elem|by eapply lookup_lt_Some|done].
      * exists n, w. split_and!; [elem|done|done].
Qed.

End dfs_spec.

Lemma pending_le succ s : (pending succ s <= edge_count succ s)%nat.
Proof.
  unfold pending, edge_count. induction (nodes_ s) as [|n l IH]; cbn; [lia|]. destruct (visited n); lia.
Qed.

Lemma DFS_spec t succ stop keep (P : nat -> Prop) V0 n s :
  (forall n n', core n = core n' -> succ n = succ n') ->
  (forall n w, w ∈ succs succ s n -> (w < length (nodes_ s))%nat) ->
  (forall n w, P n -> w ∈ succs succ s n -> keep (rank_of s w) = true -> P w) ->
  visited_in s V0 -> (n < length (nodes_ s))%nat -> P n ->
  wp t (DFS succ stop keep n) s (fun r s' => same_graph s s'
    /\ visited_in s' (V0 ++ r.2) /\ NoDup r.2 /\ (forall x, x ∈ r.2 -> x ∉ V0 /\ (x < length (nodes_ s))%nat /\ P x)
    /\ (if r.1 then n ∈ V0 ++ r.2
          /\ forall x w, x ∈ r.2 -> w ∈ succs succ s x ->
               stop (rank_of s w) = false /\ (keep (rank_of s w) = true -> w ∈ V0 ++ r.2)
        else exists x w, x ∈ r.2 /\ w ∈ succs succ s x /\ stop (rank_of s w) = true)).
Proof.
  intros Hsc Hcl HP Hv Hn HPn. unfold DFS. wp_steps.
  eapply wp_mono; [eapply (DFS_loop_spec succ stop keep Hsc P V0 t); [done|done| |]|].
  - constructor; rewrite ?app_nil_r; try done; [constructor|..]; try (by intros ? ?%not_elem_of_nil).
    + intros x Hx. by apply list_elem_of_singleton in Hx as ->.
    + intros x Hx. by apply list_elem_of_singleton in Hx as ->.
    + intros x w Hx. by apply not_elem_of_nil in Hx.
  - pose proof (pending_le succ s). cbn. lia.
  - cbn beta. intros [ok d] s' (Hg & _ & Hvi & Hnd & Hfr & Hok). split_and!; try done. cbn [fst snd] in *.
    destruct ok; [|done]. destruct Hok as [Hi Hst]. split; [apply Hst; left|]. intros x w Hx Hw.
    assert (forall w, rank_of s' w = rank_of s w) as Er by (intros y; by apply same_graph_views).
    rewrite <- (same_graph_succs succ Hsc s s') in Hw by done.
    destruct (d_closed _ _ _ _ _ _ _ _ Hi x w Hx Hw) as [Hs Hk]. rewrite Er in Hs, Hk. split; [done|].
    intros Hkp. destruct (Hk Hkp) as [?|Hk']; [done|]. by apply not_elem_of_nil in Hk'.
Qed.

(** ** Merging ranks *)

(** The i-th smallest of two sorted lists is at most the i-th of the first, and the
    last ones are at least those of the second. *)
Section merged.
Context (X Y Ms : list nat).
Context (HX : StronglySorted lt X) (HY : StronglySorted lt Y) (HM : StronglySorted lt Ms) (Hp : Ms ≡ₚ X ++ Y).

Lemma StronglySorted_lt_NoDup (l : list nat) : StronglySorted lt l -> NoDup l.
Proof using Type.
  induction 1 as [|x l _ IH Hx]; constructor; [|done]. intros Hin. rewrite Forall_forall in Hx.
  specialize (Hx x Hin). lia.
Qed.

Lemma sorted_index (l : list nat) i j x y :
  StronglySorted lt l -> l !! i = Some x -> l !! j = Some y -> (x < y)%nat <-> (i < j)%nat.
Proof using Type.
  intros Hs Hi Hj. split; intros H.
  - destruct (Nat.lt_trichotomy i j) as [?|[->|Hl]]; [done| |].
    + assert (x = y) by congruence. lia.
    + pose proof (StronglySorted_lookup_lt _ _ _ _ _ _ Hs Hj Hi Hl). lia.
  - exact (StronglySorted_lookup_lt _ _ _ _ _ _ Hs Hi Hj H).
Qed.

Lemma merged_low i m x : Ms !! i = Some m -> X !! i = Some x -> (m <= x)%nat.
Proof using HX HM Hp.
  intros Hm Hx. destruct (Nat.le_gt_cases m x) as [?|Hlt]; [done|]. exfalso.
  assert (length (take (S i) X) <= length (take i Ms))%nat as Hlen.
  { apply NoDup_incl_length.
    - apply NoDup_ListNoDup. apply (sublist_NoDup _ X); [by apply StronglySorted_lt_NoDup|apply sublist_take].
    - intros a Ha%list_elem_of_In. apply list_elem_of_In. apply list_elem_of_lookup_1 in Ha as [k Hk].
      apply lookup_take_Some in Hk as [Hk Hki].
      assert (a <= x)%nat as Hax.
      { destruct (decide (k = i)) as [->|]; [assert (a = x) by congruence; lia|].
        assert (a < x)%nat; [|lia]. apply (sorted_index X k i); [done..|lia]. }
      assert (a ∈ Ms) as Ha by (rewrite Hp; apply elem_of_app; left; by eapply list_elem_of_lookup_2).
      apply list_elem_of_lookup_1 in Ha as [j Hj]. assert (j < i)%nat by (apply (sorted_index Ms j i a m); [done..|lia]).
      apply (list_elem_of_lookup_2 _ j). by apply lookup_take_Some. }
  apply lookup_lt_Some in Hm as Hm', Hx as Hx'. rewrite !length_take in Hlen. lia.
Qed.

Lemma merged_high j m y : Ms !! (length X + j)%nat = Some m -> Y !! j = Some y -> (y <= m)%nat.
Proof using HY HM Hp.
  intros Hm Hy. destruct (Nat.le_gt_cases y m) as [?|Hlt]; [done|]. exfalso.
  assert (length (drop j Y) <= length (drop (S (length X + j)) Ms))%nat as Hlen.
  { apply NoDup_incl_length.
    - apply NoDup_ListNoDup. apply (sublist_NoDup _ Y); [by apply StronglySorted_lt_NoDup|apply sublist_drop].
    - intros a Ha%list_elem_of_In. apply list_elem_of_In. apply list_elem_of_lookup_1 in Ha as [k Hk].
      rewrite lookup_drop in Hk.
      assert (y <= a)%nat as Hya.
      { destruct (decide (k = O)) as [->|]; [rewrite Nat.add_0_r in Hk; assert (a = y) by congruence; lia|].
        assert (y < a)%nat; [|lia]. apply (sorted_index Y j (j + k)); [done..|lia]. }
      assert (a ∈ Ms) as Ha by (rewrite Hp; apply elem_of_app; right; by eapply list_elem_of_lookup_2).
      apply list_elem_of_lookup_1 in Ha as [i Hi].
      assert (length X + j < i)%nat by (apply (sorted_index Ms (length X + j) i m a); [done..|lia]).
      apply (list_elem_of_lookup_2 _ (i - S (length X + j))). rewrite lookup_drop.
      by replace (S (length X + j) + (i - S (length X + j)))%nat with i by lia. }
  apply Permutation_length in Hp. rewrite length_app in Hp.
  apply lookup_lt_Some in Hm as Hm', Hy as Hy'. rewrite !length_drop in Hlen. lia.
Qed.

End merged.
