(* ===== verification/GraphCyclesInsert.v ===== *)
(** * Incremental cycle detection: inserting an edge

    The representation invariant, the reassignment of ranks ([Reorder]) and the
    correctness of [InsertEdge]: it refuses exactly the edges that close a cycle, and the
    ranks stay a topological order. *)

From S2P Require Import Prelude GraphCycles GraphCyclesDFS.
Import GraphCycles.

(** ** The invariant *)

Definition edge (s : Rep) (x y : nat) : Prop := y ∈ outs s x.

Record graph_inv (s : Rep) : Prop := {
  g_wf : forall n nn, nodes_ s !! n = Some nn -> OrderedSet.wf (in_ nn) /\ OrderedSet.wf (out nn);
  g_dual : forall x y, y ∈ outs s x <-> x ∈ ins s y;
  g_rank : forall n, (n < length (nodes_ s))%nat -> (rank_of s n < length (nodes_ s))%nat;
  g_inj : forall x y, (x < length (nodes_ s))%nat -> (y < length (nodes_ s))%nat ->
    rank_of s x = rank_of s y -> x = y;
  g_free : NoDup (free_nodes_ s)
    /\ forall n, n ∈ free_nodes_ s -> (n < length (nodes_ s))%nat /\ outs s n = [] /\ ins s n = []
}.

Definition topological (s : Rep) : Prop := forall x y, edge s x y -> (rank_of s x < rank_of s y)%nat.

Definition inv (s : Rep) : Prop := graph_inv s /\ visited_in s [] /\ topological s.

Lemma outs_range s x y : y ∈ outs s x -> (x < length (nodes_ s))%nat.
Proof.
  unfold outs. destruct (nodes_ s !! x) eqn:E; [|by intros ?%not_elem_of_nil]. intros _. by eapply lookup_lt_Some.
Qed.

Lemma ins_range s x y : y ∈ ins s x -> (x < length (nodes_ s))%nat.
Proof.
  unfold ins. destruct (nodes_ s !! x) eqn:E; [|by intros ?%not_elem_of_nil]. intros _. by eapply lookup_lt_Some.
Qed.

Lemma edge_range s x y : graph_inv s -> edge s x y -> (x < length (nodes_ s))%nat /\ (y < length (nodes_ s))%nat.
Proof.
  intros Hg He. split; [by eapply outs_range|]. apply (g_dual _ Hg) in He. by eapply ins_range.
Qed.

Lemma graph_inv_same s s' : same_graph s s' -> graph_inv s -> graph_inv s'.
Proof.
  intros Hs Hg. pose proof (same_graph_length _ _ Hs) as El.
  assert (forall n, outs s' n = outs s n /\ ins s' n = ins s n /\ rank_of s' n = rank_of s n) as Hv
    by (intros n; by apply same_graph_views).
  constructor.
  - intros n nn Hn. symmetry in Hs. destruct (same_graph_lookup _ _ _ _ Hs Hn) as (nn' & Hn' & Ec).
    unfold core in Ec. injection Ec as _ _ <- <-. by apply (g_wf _ Hg n).
  - intros x y. destruct (Hv x) as (-> & _), (Hv y) as (_ & -> & _). apply Hg.
  - intros n. rewrite El. destruct (Hv n) as (_ & _ & ->). apply Hg.
  - intros x y. rewrite El. destruct (Hv x) as (_ & _ & ->), (Hv y) as (_ & _ & ->). apply Hg.
  - destruct Hs as [_ ->]. destruct (g_free _ Hg) as [? Hf]. split; [done|]. intros n Hn. rewrite El.
    destruct (Hv n) as (-> & -> & _). by apply Hf.
Qed.

Lemma topological_same s s' : same_graph s s' -> topological s -> topological s'.
Proof.
  intros Hs Ht x y He. unfold edge in He. destruct (same_graph_views s s' x Hs) as (E & _ & ->), (same_graph_views s s' y Hs) as (_ & _ & ->).
  rewrite E in He. by apply Ht.
Qed.

(** Reachability along edges; ranks increase along paths. *)
Definition path (s : Rep) : nat -> nat -> Prop := rtc (edge s).

Lemma path_rank s x y : topological s -> path s x y -> x = y \/ (rank_of s x < rank_of s y)%nat.
Proof.
  intros Ht. induction 1 as [|x z y Hxz _ [->|IH]]; [by left|right; by apply Ht|].
  right. specialize (Ht x z Hxz). lia.
Qed.

(** ** Clearing markers and collecting ranks *)

Lemma MoveToList_spec t l s V :
  visited_in s (V ++ l) -> NoDup (V ++ l) -> (forall n, n ∈ l -> (n < length (nodes_ s))%nat) ->
  wp t (MoveToList l) s (fun ranks s' => same_graph s s' /\ visited_in s' V /\ ranks = map (rank_of s) l).
Proof.
  revert s. induction l as [|w l IH]; intros s Hv Hnd Hl; cbn [MoveToList].
  { wp_steps. rewrite app_nil_r in Hv. by split_and!. }
  destruct (lookup_lt_is_Some_2 (nodes_ s) w) as [nw Hw]; [apply Hl; left|].
  wp_step. eapply wp_node; [done|]. wp_step. eapply wp_update; [done|]. set (s1 := mkRep _ _).
  assert (same_graph s s1) as Hs1 by (by eapply update_same_graph).
  assert (w ∉ V ++ l) as HwVl.
  { intros Hx. rewrite Permutation_app_comm in Hnd. cbn in Hnd. apply NoDup_cons in Hnd as [Hnd _]. apply Hnd. elem. }
  wp_step. eapply wp_mono; [apply (IH s1)|].
  - intros n nn Hn. cbn in Hn. destruct (decide (n = w)) as [->|Hne].
    + rewrite list_lookup_insert_eq in Hn by (by eapply lookup_lt_Some). injection Hn as <-. cbn. split; [done|]. intros Hx. by destruct HwVl.
    + rewrite list_lookup_insert_ne in Hn by done. rewrite (Hv n nn Hn), !elem_of_app, elem_of_cons. tauto.
  - rewrite Permutation_app_comm in Hnd |- *. cbn in Hnd. apply NoDup_cons in Hnd as [_ Hnd]. done.
  - intros n Hn. rewrite (same_graph_length _ _ Hs1). apply Hl. by right.
  - cbn beta. intros ranks s' (Hs & Hvis & ->). wp_steps. split_and!; [by etrans|done|].
    cbn [map]. f_equal; [unfold rank_of; by rewrite Hw|]. apply map_ext. intros n.
    by destruct (same_graph_views s s1 n Hs1) as (_ & _ & ->).
Qed.

(** Only ranks change. *)
Definition same_edges (s s' : Rep) : Prop :=
  map (fun n => (visited n, data n, in_ n, out n)) (nodes_ s') = map (fun n => (visited n, data n, in_ n, out n)) (nodes_ s)
  /\ free_nodes_ s' = free_nodes_ s.

Lemma same_edges_lookup s s' n nn :
  same_edges s s' -> nodes_ s' !! n = Some nn ->
  exists nn', nodes_ s !! n = Some nn' /\ visited nn = visited nn' /\ in_ nn = in_ nn' /\ out nn = out nn'.
Proof.
  intros [E _] Hn. apply (f_equal (fun l => l !! n)) in E. change (map ?f ?l) with (f <$> l) in E.
  rewrite !list_lookup_fmap, Hn in E. destruct (nodes_ s !! n) as [nn'|]; [|done]. injection E as E1 E2 E3 E4. eauto.
Qed.

Lemma same_edges_views s s' n :
  same_edges s s' -> outs s' n = outs s n /\ ins s' n = ins s n.
Proof.
  intros Hs. unfold outs, ins. destruct (nodes_ s' !! n) as [nn|] eqn:E.
  - destruct (same_edges_lookup _ _ _ _ Hs E) as (nn' & -> & _ & -> & ->). done.
  - assert (nodes_ s !! n = None) as ->; [|done]. destruct Hs as [Hl _]. apply (f_equal length) in Hl.
    rewrite !length_map in Hl. apply lookup_ge_None. rewrite <- Hl. by apply lookup_ge_None.
Qed.

Lemma assign_ranks_spec t l ks s :
  NoDup l -> length ks = length l -> (forall n, n ∈ l -> (n < length (nodes_ s))%nat) ->
  wp t (assign_ranks l ks) s (fun _ s' => same_edges s s'
    /\ (forall i n k, l !! i = Some n -> ks !! i = Some k -> rank_of s' n = k)
    /\ (forall n, n ∉ l -> rank_of s' n = rank_of s n)).
Proof.
  revert ks s. induction l as [|n l IH]; intros [|k ks] s Hnd Hlen Hl; cbn [assign_ranks]; [wp_steps; by split_and!|done|done|].
  apply NoDup_cons in Hnd as [Hn Hnd]. destruct (lookup_lt_is_Some_2 (nodes_ s) n) as [nn Hnn]; [apply Hl; left|].
  wp_step. eapply wp_update; [done|]. set (s1 := mkRep _ _).
  assert (rank_of s1 n = k) as Hk by (unfold rank_of, s1; cbn; by rewrite list_lookup_insert_eq by (by eapply lookup_lt_Some)).
  assert (forall m, m <> n -> rank_of s1 m = rank_of s m) as Hm by (intros m Hm; unfold rank_of, s1; cbn; by rewrite list_lookup_insert_ne).
  assert (same_edges s s1) as Hs1.
  { split; [|done]. cbn. change (map ?f ?l) with (f <$> l). rewrite list_fmap_insert. apply list_insert_id.
    by rewrite list_lookup_fmap, Hnn. }
  eapply wp_mono; [apply (IH ks s1); [done|by injection Hlen|]|].
  - intros m Hmm. cbn. rewrite length_insert. apply Hl. by right.
  - cbn beta. intros _ s' (Hs & H1 & H2). split_and!.
    + destruct Hs as [E1 E2], Hs1 as [E3 E4]. split; congruence.
    + intros [|i] m kk; cbn; [|by apply H1]. intros [= <-] [= <-]. by rewrite H2.
    + intros m Hmm. rewrite not_elem_of_cons in Hmm. destruct Hmm as [Hmn Hml]. rewrite H2 by done. by apply Hm.
Qed.

(** ** Reordering *)

Lemma sorted_ranks s l :
  graph_inv s -> NoDup l -> (forall n, n ∈ l -> (n < length (nodes_ s))%nat) ->
  StronglySorted lt (map (rank_of s) (merge_sort (rank_le s) l)).
Proof.
  intros Hg Hnd Hl. assert (Transitive (rank_le s)) by (intros a b c; unfold rank_le; lia).
  assert (Total (rank_le s)) by (intros a b; unfold rank_le; lia).
  pose proof (StronglySorted_merge_sort (rank_le s) l) as Hs. pose proof (merge_sort_Permutation (rank_le s) l) as Hp.
  assert (NoDup (merge_sort (rank_le s) l)) as Hnd' by (by rewrite Hp).
  assert (forall n, n ∈ merge_sort (rank_le s) l -> (n < length (nodes_ s))%nat) as Hl' by (intros n Hn; rewrite Hp in Hn; auto).
  clear Hp. induction Hs as [|n k Hs IH Hn]; cbn; [constructor|]. apply NoDup_cons in Hnd' as [Hni Hnd'].
  constructor; [apply IH; [done|intros; apply Hl'; by right]|].
  apply Forall_forall. intros r Hr. apply list_elem_of_fmap in Hr as (m & -> & Hm). rewrite Forall_forall in Hn.
  specialize (Hn m Hm). unfold rank_le in Hn. assert (rank_of s n <> rank_of s m); [|lia]. intros E.
  apply (g_inj _ Hg) in E as ->; [done|apply Hl'; left|apply Hl'; by right].
Qed.

Lemma sorted_lt_of_le (l : list nat) : Sorted Nat.le l -> NoDup l -> StronglySorted lt l.
Proof.
  intros Hs. apply Sorted_StronglySorted in Hs; [|intros a b c; lia].
  induction Hs as [|x l Hs IH Hx]; intros Hnd; constructor; apply NoDup_cons in Hnd as [Hn Hnd]; [by apply IH|].
  rewrite Forall_forall in *. intros y Hy. specialize (Hx y Hy). assert (x <> y) by congruence. lia.
Qed.

Lemma sorted_le_of_lt (l : list nat) : StronglySorted lt l -> Sorted Nat.le l.
Proof.
  intros Hs. apply StronglySorted_Sorted. induction Hs as [|x l Hs IH Hx]; constructor; [done|].
  eapply Forall_impl; [done|]. intros y Hy. cbn in Hy. lia.
Qed.

(** What the reassignment of ranks guarantees. *)
Record reordered (s s' : Rep) (Bk F : list nat) : Prop := {
  o_other : forall n, n ∉ Bk ++ F -> rank_of s' n = rank_of s n;
  o_back : forall x y, x ∈ Bk -> y ∈ Bk -> (rank_of s x < rank_of s y)%nat -> (rank_of s' x < rank_of s' y)%nat;
  o_forw : forall x y, x ∈ F -> y ∈ F -> (rank_of s x < rank_of s y)%nat -> (rank_of s' x < rank_of s' y)%nat;
  o_cross : forall x y, x ∈ Bk -> y ∈ F -> (rank_of s' x < rank_of s' y)%nat;
  o_down : forall x, x ∈ Bk -> (rank_of s' x <= rank_of s x)%nat;
  o_up : forall x, x ∈ F -> (rank_of s x <= rank_of s' x)%nat;
  o_perm : forall x, x ∈ Bk ++ F -> exists z, z ∈ Bk ++ F /\ rank_of s' x = rank_of s z;
  o_inj : forall x y, x ∈ Bk ++ F -> y ∈ Bk ++ F -> rank_of s' x = rank_of s' y -> x = y
}.

Lemma reordered_intro s s' Bk F sB sF ms :
  sB ≡ₚ Bk -> sF ≡ₚ F -> StronglySorted lt (map (rank_of s) sB) -> StronglySorted lt (map (rank_of s) sF) ->
  StronglySorted lt ms -> ms ≡ₚ map (rank_of s) sB ++ map (rank_of s) sF ->
  (forall i n k, (sB ++ sF) !! i = Some n -> ms !! i = Some k -> rank_of s' n = k) ->
  (forall n, n ∉ sB ++ sF -> rank_of s' n = rank_of s n) ->
  reordered s s' Bk F.
Proof.
  intros HB HF HsB HsF Hms Hp Hassign Hother.
  assert (length ms = length (sB ++ sF)) as Hlen by (rewrite Hp, !length_app, !length_map; done).
  assert (forall x, x ∈ Bk ++ F <-> x ∈ sB ++ sF) as Hel by (intros x; by rewrite !elem_of_app, HB, HF).
  (* the position of a node and its new rank *)
  assert (forall i n, (sB ++ sF) !! i = Some n -> ms !! i = Some (rank_of s' n)) as Hpos.
  { intros i n Hi. destruct (lookup_lt_is_Some_2 ms i) as [k Hk]; [rewrite Hlen; by eapply lookup_lt_Some|].
    by rewrite (Hassign i n k Hi Hk). }
  assert (forall i n, sB !! i = Some n -> ms !! i = Some (rank_of s' n)) as HposB
    by (intros i n Hi; apply Hpos; by apply lookup_app_l_Some).
  assert (forall j n, sF !! j = Some n -> ms !! (length sB + j)%nat = Some (rank_of s' n)) as HposF.
  { intros j n Hj. apply Hpos. rewrite lookup_app_r by lia. by replace (length sB + j - length sB)%nat with j by lia. }
  assert (forall x, x ∈ Bk -> exists i, sB !! i = Some x) as HinB by (intros x Hx; rewrite <- HB in Hx; by apply list_elem_of_lookup_1).
  assert (forall x, x ∈ F -> exists i, sF !! i = Some x) as HinF by (intros x Hx; rewrite <- HF in Hx; by apply list_elem_of_lookup_1).
  assert (forall (l : list nat) i n, l !! i = Some n -> map (rank_of s) l !! i = Some (rank_of s n)) as Hmap
    by (intros l i n Hi; change (map ?f ?l) with (f <$> l); by rewrite list_lookup_fmap, Hi).
  constructor.
  - intros n Hn. apply Hother. by rewrite <- Hel.
  - intros x y [i Hx]%HinB [j Hy]%HinB Hlt. apply (sorted_index ms i j); [done|by apply HposB..|].
    apply (sorted_index (map (rank_of s) sB) i j (rank_of s x) (rank_of s y)); auto.
  - intros x y [i Hx]%HinF [j Hy]%HinF Hlt. apply (sorted_index ms (length sB + i) (length sB + j)); [done|by apply HposF..|].
    assert (i < j)%nat; [|lia]. apply (sorted_index (map (rank_of s) sF) i j (rank_of s x) (rank_of s y)); auto.
  - intros x y [i Hx]%HinB [j Hy]%HinF. apply (sorted_index ms i (length sB + j)); [done|by apply HposB|by apply HposF|].
    apply lookup_lt_Some in Hx. lia.
  - intros x [i Hx]%HinB. eapply (merged_low _ _ ms HsB Hms Hp i); [by apply HposB|by apply Hmap].
  - intros x [j Hx]%HinF. eapply (merged_high _ _ ms HsF Hms Hp j); [rewrite length_map; by apply HposF|by apply Hmap].
  - intros x Hx. apply Hel, list_elem_of_lookup_1 in Hx as [i Hi]. apply Hpos, list_elem_of_lookup_2 in Hi.
    rewrite Hp, <- map_app in Hi. apply list_elem_of_fmap in Hi as (z & E & Hz). exists z. split; [by apply Hel|done].
  - intros x y Hx Hy E. apply Hel, list_elem_of_lookup_1 in Hx as [i Hi]. apply Hel, list_elem_of_lookup_1 in Hy as [j Hj].
    apply Hpos in Hi as Hi', Hj as Hj'. rewrite E in Hi'.
    assert (i = j) as ->; [|congruence].
    pose proof (StronglySorted_lt_NoDup ms Hms) as Hnd. by eapply NoDup_lookup.
Qed.

Lemma Reorder_spec t Bk F s :
  graph_inv s -> visited_in s (F ++ Bk) -> NoDup (F ++ Bk) -> (forall n, n ∈ F ++ Bk -> (n < length (nodes_ s))%nat) ->
  wp t (Reorder Bk F) s (fun _ s' => exists s2,
    same_graph s s2 /\ visited_in s2 [] /\ same_edges s2 s' /\ reordered s s' Bk F).
Proof.
  intros Hg Hv Hnd Hr. pose proof Hnd as (HndF & HFB & HndB)%NoDup_app. unfold Reorder, Sort. wp_steps.
  set (sB := merge_sort (rank_le s) Bk). set (sF := merge_sort (rank_le s) F).
  assert (sB ≡ₚ Bk) as HpB by apply merge_sort_Permutation. assert (sF ≡ₚ F) as HpF by apply merge_sort_Permutation.
  assert (StronglySorted lt (map (rank_of s) sB)) as HsB by (apply sorted_ranks; [done..|intros; apply Hr; elem]).
  assert (StronglySorted lt (map (rank_of s) sF)) as HsF by (apply sorted_ranks; [done..|intros; apply Hr; elem]).
  eapply wp_mono; [apply (MoveToList_spec t sB s F)|].
  { intros n nn Hn. by rewrite HpB, (Hv n nn Hn). }
  { by rewrite HpB. }
  { intros n Hn. apply Hr. rewrite <- HpB. elem. }
  cbn beta. intros rb s1 (Hs1 & Hv1 & ->). wp_step. eapply wp_mono; [apply (MoveToList_spec t sF s1 [])|].
  { intros n nn Hn. cbn. by rewrite HpF, (Hv1 n nn Hn). }
  { cbn. by rewrite HpF. }
  { intros n Hn. rewrite (same_graph_length _ _ Hs1). apply Hr. rewrite <- HpF. elem. }
  cbn beta. intros rf s2 (Hs2 & Hv2 & ->).
  assert (map (rank_of s1) sF = map (rank_of s) sF) as ->.
  { apply map_ext. intros n. by destruct (same_graph_views s s1 n Hs1) as (_ & _ & ->). }
  assert (same_graph s s2) as Hs by (by etrans). set (ms := list_merge Nat.le _ _).
  assert (ms ≡ₚ map (rank_of s) sB ++ map (rank_of s) sF) as Hpm by apply merge_Permutation.
  assert (NoDup (sB ++ sF)) as HndL by (by rewrite HpB, HpF, Permutation_app_comm).
  assert (forall n, n ∈ sB ++ sF -> (n < length (nodes_ s))%nat) as HrL.
  { intros n Hn. apply Hr. rewrite elem_of_app, HpB, HpF in Hn. elem. }
  assert (StronglySorted lt ms) as Hms.
  { apply sorted_lt_of_le.
    - apply Sorted_list_merge; [intros a b; lia|..]; by apply sorted_le_of_lt.
    - rewrite Hpm, <- map_app. apply NoDup_fmap_2_strong; [|done]. intros x y Hx Hy E. apply (g_inj _ Hg); auto. }
  eapply wp_mono; [apply (assign_ranks_spec t (sB ++ sF) ms s2 HndL)|].
  - rewrite Hpm, !length_app, !length_map. done.
  - intros n Hn. rewrite (same_graph_length _ _ Hs). by apply HrL.
  - cbn beta. intros _ s' (He & H1 & H2). exists s2. split_and!; [done..|].
    apply (reordered_intro s s' Bk F sB sF ms); try done. intros n Hn. rewrite (H2 n Hn).
    by destruct (same_graph_views s s2 n Hs) as (_ & _ & ->).
Qed.

(** ** The affected region *)

Section region.
Context (s s' : Rep) (x y : nat) (F Bk : list nat).
Context (Hg : graph_inv s) (Ht : topological s).
Context (HF : forall n, n ∈ F -> path s y n /\ (rank_of s n < rank_of s x)%nat /\ (n < length (nodes_ s))%nat) (HyF : y ∈ F).
Context (HFc : forall n w, n ∈ F -> edge s n w ->
  rank_of s w <> rank_of s x /\ ((rank_of s w < rank_of s x)%nat -> w ∈ F)).

(** The search from [y] below the rank of [x] decides whether [y] reaches [x]. *)
Lemma forward_no_path n : n ∈ F -> ~ path s n x.
Proof using HF HFc Ht.
  intros Hn Hp. revert Hn. induction Hp as [n|n w z Hnw Hwz IH]; intros Hn.
  - destruct (HF n Hn) as (_ & ? & _). lia.
  - destruct (HFc n w Hn Hnw) as [Hne Hin]. apply (IH HF HFc). apply Hin.
    destruct (path_rank s w z Ht Hwz) as [->|?]; [done|lia].
Qed.

Context (HB : forall n, n ∈ Bk -> path s n x /\ (rank_of s y < rank_of s n)%nat /\ (n < length (nodes_ s))%nat) (HxB : x ∈ Bk).
Context (HBc : forall n w, n ∈ Bk -> edge s w n -> (rank_of s y < rank_of s w)%nat -> w ∈ F ++ Bk).
Context (Hyr : (y < length (nodes_ s))%nat) (Hyx : (rank_of s y < rank_of s x)%nat).
Context (Ho : reordered s s' Bk F).

Lemma forward_not_backward u v : u ∈ F -> u = v \/ edge s u v -> v ∈ Bk -> False.
Proof using HB HF HFc Ht.
  intros Hu Huv Hv. apply (forward_no_path u Hu). destruct (HB v Hv) as (Hp & _). destruct Huv as [->|He]; [done|].
  by eapply rtc_l.
Qed.

(** The new ranks lie between those of [y] and [x]. *)
Lemma reordered_range u : u ∈ Bk ++ F -> (rank_of s y <= rank_of s' u <= rank_of s x)%nat.
Proof using All.
  intros Hu. destruct (o_perm _ _ _ _ Ho u Hu) as (z & Hz & ->).
  apply elem_of_app in Hz as [Hz|Hz].
  - destruct (HB z Hz) as (Hp & ? & _). destruct (path_rank s z x Ht Hp) as [->|?]; lia.
  - destruct (HF z Hz) as (Hp & ? & _). destruct (path_rank s y z Ht Hp) as [<-|?]; lia.
Qed.

Lemma reordered_topological u v :
  edge s u v \/ (u = x /\ v = y) -> (rank_of s' u < rank_of s' v)%nat.
Proof using All.
  intros Huv. assert (u = x /\ v = y \/ edge s u v /\ (rank_of s u < rank_of s v)%nat) as [[-> ->]|[He Hlt]].
  { destruct Huv as [He|?]; [right; split; [done|by apply Ht]|by left]. }
  { by apply (o_cross _ _ _ _ Ho). }
  destruct (decide (u ∈ Bk)) as [HuB|HuB], (decide (v ∈ Bk)) as [HvB|HvB].
  - by apply (o_back _ _ _ _ Ho).
  - destruct (decide (v ∈ F)) as [HvF|HvF]; [by apply (o_cross _ _ _ _ Ho)|].
    rewrite (o_other _ _ _ _ Ho v) by elem. pose proof (o_down _ _ _ _ Ho u HuB). lia.
  - destruct (decide (u ∈ F)) as [HuF|HuF]; [exfalso; by eapply (forward_not_backward u v); [|right|]|].
    rewrite (o_other _ _ _ _ Ho u) by elem. pose proof (reordered_range v ltac:(elem)).
    destruct (Nat.lt_trichotomy (rank_of s y) (rank_of s u)) as [Hl|[E|Hl]]; [|exfalso|lia].
    + exfalso. destruct (elem_of_app F Bk u) as [Hel _]. destruct (Hel (HBc v u HvB He Hl)); done.
    + apply (g_inj _ Hg) in E as <-; [done|done|]. by destruct (edge_range s u v Hg He).
  - destruct (decide (u ∈ F)) as [HuF|HuF], (decide (v ∈ F)) as [HvF|HvF].
    + by apply (o_forw _ _ _ _ Ho).
    + destruct (HFc u v HuF He) as [Hne Hin]. rewrite (o_other _ _ _ _ Ho v) by elem.
      pose proof (reordered_range u ltac:(elem)). destruct (Nat.lt_trichotomy (rank_of s v) (rank_of s x)) as [Hl|[?|Hl]]; [|done|lia].
      by destruct (HvF (Hin Hl)).
    + rewrite (o_other _ _ _ _ Ho u) by elem. pose proof (o_up _ _ _ _ Ho v HvF). lia.
    + rewrite (o_other _ _ _ _ Ho u), (o_other _ _ _ _ Ho v) by elem. done.
Qed.

Lemma reordered_rank_lt n : (n < length (nodes_ s))%nat -> (rank_of s' n < length (nodes_ s))%nat.
Proof using All.
  intros Hn. destruct (decide (n ∈ Bk ++ F)) as [Hin|Hin]; [|rewrite (o_other _ _ _ _ Ho n Hin); by apply Hg].
  destruct (o_perm _ _ _ _ Ho n Hin) as (z & Hz & ->). apply Hg.
  apply elem_of_app in Hz as [Hz|Hz]; [by apply HB in Hz as (_ & _ & ?)|by apply HF in Hz as (_ & _ & ?)].
Qed.

Lemma reordered_inj a b :
  (a < length (nodes_ s))%nat -> (b < length (nodes_ s))%nat -> rank_of s' a = rank_of s' b -> a = b.
Proof using All.
  intros Ha Hb E.
  assert (forall n, n ∈ Bk ++ F -> (n < length (nodes_ s))%nat) as Hr.
  { intros n [Hz|Hz]%elem_of_app; [by apply HB in Hz as (_ & _ & ?)|by apply HF in Hz as (_ & _ & ?)]. }
  destruct (decide (a ∈ Bk ++ F)) as [Hina|Hina], (decide (b ∈ Bk ++ F)) as [Hinb|Hinb].
  - by apply (o_inj _ _ _ _ Ho).
  - exfalso. destruct (o_perm _ _ _ _ Ho a Hina) as (z & Hz & Ez). rewrite (o_other _ _ _ _ Ho b Hinb), Ez in E.
    apply (g_inj _ Hg) in E as ->; [done|by apply Hr|done].
  - exfalso. destruct (o_perm _ _ _ _ Ho b Hinb) as (z & Hz & Ez). rewrite (o_other _ _ _ _ Ho a Hina), Ez in E.
    apply (g_inj _ Hg) in E as ->; [done|done|by apply Hr].
  - rewrite (o_other _ _ _ _ Ho a Hina), (o_other _ _ _ _ Ho b Hinb) in E. by apply (g_inj _ Hg).
Qed.

End region.
