(* ===== verification/GraphCyclesOps.v ===== *)
(** * Incremental cycle detection: the operations

    What [InsertEdge], [RemoveEdge], [RemoveNode], [NewNode] and the reachability query do to
    the edges, and that they keep the representation invariant. *)

From S2P Require Import Prelude GraphCycles GraphCyclesDFS GraphCyclesInsert.
Import GraphCycles.

(** ** Changing the edges of a graph *)

Definition wf_all (s : Rep) : Prop :=
  forall n nn, nodes_ s !! n = Some nn -> OrderedSet.wf (in_ nn) /\ OrderedSet.wf (out nn).

(** Everything but the edges is kept; the edges become [O] and [I]. *)
Record rewired (s s' : Rep) (O I : nat -> list nat) : Prop := {
  r_frame : map (fun n => (rank n, visited n, data n)) (nodes_ s') = map (fun n => (rank n, visited n, data n)) (nodes_ s);
  r_free : free_nodes_ s' = free_nodes_ s;
  r_outs : forall n, outs s' n = O n;
  r_ins : forall n, ins s' n = I n;
  r_wf : wf_all s'
}.

(** A function changed at one point. *)
Definition upd (f : nat -> list nat) (x : nat) (l : list nat) : nat -> list nat :=
  fun n => if decide (n = x) then l else f n.

Lemma upd_same f x l : upd f x l x = l.
Proof. unfold upd. by rewrite decide_True. Qed.

Lemma upd_other f x l n : n <> x -> upd f x l n = f n.
Proof. intros. unfold upd. by rewrite decide_False. Qed.

Lemma upd_elem f x l y n : y ∈ upd f x l n <-> (n = x /\ y ∈ l) \/ (n <> x /\ y ∈ f n).
Proof. unfold upd. destruct (decide (n = x)); tauto. Qed.

Section rewired.
Context (s s' : Rep) (O I : nat -> list nat) (Hr : rewired s s' O I).

Lemma rewired_length : length (nodes_ s') = length (nodes_ s).
Proof using Hr. pose proof (f_equal length (r_frame _ _ _ _ Hr)) as E. by rewrite !length_map in E. Qed.

Lemma rewired_lookup n nn' :
  nodes_ s' !! n = Some nn' ->
  exists nn, nodes_ s !! n = Some nn /\ rank nn' = rank nn /\ visited nn' = visited nn /\ data nn' = data nn.
Proof using Hr.
  intros Hn. pose proof (f_equal (fun l => l !! n) (r_frame _ _ _ _ Hr)) as E. cbn beta in E.
  change (map ?f ?l) with (f <$> l) in E. rewrite !list_lookup_fmap, Hn in E.
  destruct (nodes_ s !! n) as [nn|]; [|done]. injection E as E1 E2 E3. eauto.
Qed.

Lemma rewired_rank n : rank_of s' n = rank_of s n.
Proof using Hr.
  unfold rank_of. destruct (nodes_ s' !! n) as [nn'|] eqn:E.
  - destruct (rewired_lookup n nn' E) as (nn & -> & -> & _). done.
  - assert (nodes_ s !! n = None) as ->; [|done]. apply lookup_ge_None. rewrite <- rewired_length. by apply lookup_ge_None.
Qed.

Lemma rewired_visited V : visited_in s V -> visited_in s' V.
Proof using Hr. intros Hv n nn Hn. destruct (rewired_lookup n nn Hn) as (nn0 & H0 & _ & -> & _). by apply Hv. Qed.

Lemma rewired_data : map data (nodes_ s') = map data (nodes_ s).
Proof using Hr.
  pose proof (f_equal (map snd) (r_frame _ _ _ _ Hr)) as E. rewrite !map_map in E. exact E.
Qed.

Lemma rewired_inv :
  graph_inv s -> (forall x y, y ∈ O x <-> x ∈ I y) -> (forall n, n ∈ free_nodes_ s -> O n = [] /\ I n = []) ->
  graph_inv s'.
Proof using Hr.
  intros Hg Hd Hf. constructor.
  - apply (r_wf _ _ _ _ Hr).
  - intros x y. rewrite (r_outs _ _ _ _ Hr), (r_ins _ _ _ _ Hr). apply Hd.
  - intros n. rewrite rewired_rank, rewired_length. apply Hg.
  - intros x y. rewrite !rewired_rank, rewired_length. apply Hg.
  - rewrite (r_free _ _ _ _ Hr), rewired_length. destruct (g_free _ Hg) as [Hnd Hfr]. split; [done|].
    intros n Hn. rewrite (r_outs _ _ _ _ Hr), (r_ins _ _ _ _ Hr). split; [by apply Hfr|by apply Hf].
Qed.

End rewired.

Lemma rewired_trans s s1 s2 O1 I1 O2 I2 :
  rewired s s1 O1 I1 -> rewired s1 s2 O2 I2 -> rewired s s2 O2 I2.
Proof. intros [F1 E1 _ _ _] [F2 E2 HO HI Hw]. constructor; [congruence|congruence|done..]. Qed.

Lemma rewired_ext s s' O I O' I' :
  rewired s s' O I -> (forall n, O n = O' n) -> (forall n, I n = I' n) -> rewired s s' O' I'.
Proof. intros [? ? HO HI ?] EO EI. constructor; try done; intros n; [by rewrite HO|by rewrite HI]. Qed.

Lemma rewired_set s x nx nx' :
  wf_all s -> nodes_ s !! x = Some nx -> rank nx' = rank nx -> visited nx' = visited nx -> data nx' = data nx ->
  OrderedSet.wf (in_ nx') -> OrderedSet.wf (out nx') ->
  rewired s (mkRep (<[x := nx']> (nodes_ s)) (free_nodes_ s))
    (upd (outs s) x (OrderedSet.GetSequence (out nx'))) (upd (ins s) x (OrderedSet.GetSequence (in_ nx'))).
Proof.
  intros Hw Hx E1 E2 E3 Hi Ho. apply lookup_lt_Some in Hx as Hlt. constructor.
  - cbn. change (map ?f ?l) with (f <$> l). rewrite list_fmap_insert. apply list_insert_id.
    rewrite list_lookup_fmap, Hx. cbn. congruence.
  - done.
  - intros n. unfold outs, upd. cbn. destruct (decide (n = x)) as [->|Hne]; [by rewrite list_lookup_insert_eq|].
    by rewrite list_lookup_insert_ne.
  - intros n. unfold ins, upd. cbn. destruct (decide (n = x)) as [->|Hne]; [by rewrite list_lookup_insert_eq|].
    by rewrite list_lookup_insert_ne.
  - intros n nn. cbn. destruct (decide (n = x)) as [->|Hne].
    + rewrite list_lookup_insert_eq by done. by intros [= <-].
    + rewrite list_lookup_insert_ne by done. apply Hw.
Qed.

Lemma upd_id f x n : upd f x (f x) n = f n.
Proof. unfold upd. by destruct (decide (n = x)) as [->|]. Qed.

Lemma rewired_set_out s x nx set :
  wf_all s -> nodes_ s !! x = Some nx -> OrderedSet.wf set ->
  rewired s (mkRep (<[x := set_out set nx]> (nodes_ s)) (free_nodes_ s))
    (upd (outs s) x (OrderedSet.GetSequence set)) (ins s).
Proof.
  intros Hw Hx Hs. eapply rewired_ext; [apply (rewired_set s x nx); try done; by destruct (Hw x nx Hx)|done|].
  intros n. cbn. replace (OrderedSet.GetSequence (in_ nx)) with (ins s x) by (unfold ins; by rewrite Hx). apply upd_id.
Qed.

Lemma rewired_set_in s x nx set :
  wf_all s -> nodes_ s !! x = Some nx -> OrderedSet.wf set ->
  rewired s (mkRep (<[x := set_in set nx]> (nodes_ s)) (free_nodes_ s))
    (outs s) (upd (ins s) x (OrderedSet.GetSequence set)).
Proof.
  intros Hw Hx Hs. eapply rewired_ext; [apply (rewired_set s x nx); try done; by destruct (Hw x nx Hx)| |done].
  intros n. cbn. replace (OrderedSet.GetSequence (out nx)) with (outs s x) by (unfold outs; by rewrite Hx). apply upd_id.
Qed.

(** Erasing a member of a set. *)
Definition erased (l l' : list nat) (y : nat) : Prop :=
  (forall w, w ∈ l' <-> w ∈ l /\ w <> y) /\ (forall k, l = k ++ [y] -> l' = k).

Lemma out_Erase_spec t x y s :
  wf_all s -> y ∈ outs s x ->
  wp t (out_Erase x y) s (fun _ s' => exists l, erased (outs s x) l y /\ rewired s s' (upd (outs s) x l) (ins s)).
Proof.
  intros Hw Hy. pose proof (outs_range s x y Hy) as Hx. apply lookup_lt_is_Some_2 in Hx as [nx Hx].
  unfold out_Erase. wp_step. eapply wp_node; [done|]. unfold outs at 1 in Hy. rewrite Hx in Hy.
  destruct (OrderedSet.Erase_spec y (out nx)) as (set & E & Hws & Hel & Hlast); [by apply (Hw x)|done|].
  wp_step. eapply wp_of_option; [done|]. eapply wp_update; [done|].
  exists (OrderedSet.GetSequence set). split; [|by apply rewired_set_out].
  unfold erased, outs. by rewrite Hx.
Qed.

Lemma in_Erase_spec t x y s :
  wf_all s -> y ∈ ins s x ->
  wp t (in_Erase x y) s (fun _ s' => exists l, erased (ins s x) l y /\ rewired s s' (outs s) (upd (ins s) x l)).
Proof.
  intros Hw Hy. pose proof (ins_range s x y Hy) as Hx. apply lookup_lt_is_Some_2 in Hx as [nx Hx].
  unfold in_Erase. wp_step. eapply wp_node; [done|]. unfold ins at 1 in Hy. rewrite Hx in Hy.
  destruct (OrderedSet.Erase_spec y (in_ nx)) as (set & E & Hws & Hel & Hlast); [by apply (Hw x)|done|].
  wp_step. eapply wp_of_option; [done|]. eapply wp_update; [done|].
  exists (OrderedSet.GetSequence set). split; [|by apply rewired_set_in].
  unfold erased, ins. by rewrite Hx.
Qed.

(** ** The two searches

    They run on [s2], which has the ranks of [s] and its edges but for a possible edge from
    [x] to [y]; they describe paths of [s]. *)
Section searches.
Context (t : bool) (s s2 : Rep) (x y : nat).
Context (Hg : graph_inv s) (Hg2 : graph_inv s2) (Hlen : length (nodes_ s2) = length (nodes_ s)).
Context (Hrank : forall n, rank_of s2 n = rank_of s n).
Context (Houts : forall n, n <> x -> outs s2 n = outs s n) (Hins : forall n, n <> y -> ins s2 n = ins s n).
Context (Hx : (x < length (nodes_ s))%nat) (Hy : (y < length (nodes_ s))%nat) (Hyx : (rank_of s y < rank_of s x)%nat).

Lemma outs_closed n w : w ∈ outs s2 n -> (w < length (nodes_ s2))%nat.
Proof using Hg2. intros Hw. apply (g_dual _ Hg2) in Hw. by eapply ins_range. Qed.

Lemma ins_closed n w : w ∈ ins s2 n -> (w < length (nodes_ s2))%nat.
Proof using Hg2. intros Hw. apply (g_dual _ Hg2) in Hw. by eapply outs_range. Qed.

Lemma ForwardDFS_spec :
  visited_in s2 [] ->
  wp t (ForwardDFS y (rank_of s x)) s2 (fun r s3 => same_graph s2 s3 /\ visited_in s3 r.2 /\ NoDup r.2
    /\ (forall n, n ∈ r.2 -> path s y n /\ (rank_of s n < rank_of s x)%nat /\ (n < length (nodes_ s))%nat)
    /\ (if r.1 then y ∈ r.2 /\ forall n w, n ∈ r.2 -> edge s n w ->
             rank_of s w <> rank_of s x /\ ((rank_of s w < rank_of s x)%nat -> w ∈ r.2)
        else path s y x)).
Proof using Hg Hg2 Hlen Hrank Houts Hx Hy Hyx.
  intros Hv. unfold ForwardDFS.
  assert (forall n w, (rank_of s n < rank_of s x)%nat -> w ∈ succs out s2 n <-> edge s n w) as Hs.
  { intros n w Hn. change (succs out s2 n) with (outs s2 n). rewrite Houts; [done|]. intros ->. lia. }
  eapply wp_mono; [apply (DFS_spec t out _ _ (fun n => path s y n /\ (rank_of s n < rank_of s x)%nat) [])|].
  - unfold core. intros a b [=]. congruence.
  - apply outs_closed.
  - intros n w [Hp Hn] Hw%(Hs n w Hn) Hk. rewrite Hrank in Hk. apply Nat.ltb_lt in Hk. split; [by eapply rtc_r|done].
  - done.
  - by rewrite Hlen.
  - split; [apply rtc_refl|done].
  - cbn beta. intros [ok F] s3 (Hsame & Hvis & Hnd & HF & Hr). cbn [fst snd app] in *. split_and!; [done..| |].
    + intros n Hn. destruct (HF n Hn) as (_ & Hl & Hp & Hlt). by rewrite <- Hlen.
    + destruct ok.
      * destruct Hr as [HyF Hc]. split; [done|]. intros n w Hn He. destruct (HF n Hn) as (_ & _ & _ & Hlt).
        destruct (Hc n w Hn) as [Hne Hin]; [by apply Hs|]. rewrite Hrank in Hne, Hin. apply Nat.eqb_neq in Hne.
        split; [done|]. intros Hl. apply Hin. by apply Nat.ltb_lt.
      * destruct Hr as (n & w & Hn & Hw & Hst). destruct (HF n Hn) as (_ & _ & Hp & Hlt). apply (Hs n w Hlt) in Hw.
        rewrite Hrank in Hst. apply Nat.eqb_eq in Hst. apply (g_inj _ Hg) in Hst as ->; [by eapply rtc_r| |done].
        by destruct (edge_range s n w Hg Hw).
Qed.

Lemma BackwardDFS_spec F :
  visited_in s2 F -> x ∉ F ->
  wp t (BackwardDFS x (rank_of s y)) s2 (fun Bk s3 => same_graph s2 s3 /\ visited_in s3 (F ++ Bk) /\ NoDup Bk
    /\ (forall n, n ∈ Bk -> n ∉ F /\ path s n x /\ (rank_of s y < rank_of s n)%nat /\ (n < length (nodes_ s))%nat)
    /\ x ∈ Bk
    /\ forall n w, n ∈ Bk -> edge s w n -> (rank_of s y < rank_of s w)%nat -> w ∈ F ++ Bk).
Proof using Hg Hg2 Hlen Hrank Hins Hx Hy Hyx.
  intros Hv HxF. unfold BackwardDFS. wp_step.
  assert (forall n w, (rank_of s y < rank_of s n)%nat -> w ∈ succs in_ s2 n <-> edge s w n) as Hs.
  { intros n w Hn. change (succs in_ s2 n) with (ins s2 n). rewrite Hins; [by rewrite <- (g_dual _ Hg)|]. intros ->. lia. }
  eapply wp_mono; [apply (DFS_spec t in_ _ _ (fun n => path s n x /\ (rank_of s y < rank_of s n)%nat) F)|].
  - unfold core. intros a b [=]. congruence.
  - apply ins_closed.
  - intros n w [Hp Hn] Hw%(Hs n w Hn) Hk. rewrite Hrank in Hk. apply Nat.ltb_lt in Hk. split; [by eapply rtc_l|done].
  - done.
  - by rewrite Hlen.
  - split; [apply rtc_refl|done].
  - cbn beta. intros [ok Bk] s3 (Hsame & Hvis & Hnd & HB & Hr). cbn [fst snd] in *. wp_steps.
    destruct ok; [|destruct Hr as (? & ? & _ & _ & ?); done].
    destruct Hr as [HxB Hc]. split_and!; [done..| |apply elem_of_app in HxB as [?|?]; done|].
    + intros n Hn. destruct (HB n Hn) as (? & Hl & Hp & Hlt). by rewrite <- Hlen.
    + intros n w Hn He Hl. destruct (HB n Hn) as (_ & _ & _ & Hlt).
      destruct (Hc n w Hn) as [_ Hin]; [by apply Hs|]. apply Hin. rewrite Hrank. by apply Nat.ltb_lt.
Qed.

End searches.

(** ** Inserting an edge *)

Definition allocated (s : Rep) (n : nat) : Prop := (n < length (nodes_ s))%nat /\ n ∉ free_nodes_ s.

Definition same_frame (s s' : Rep) : Prop :=
  map data (nodes_ s') = map data (nodes_ s) /\ free_nodes_ s' = free_nodes_ s.

Lemma same_frame_length s s' : same_frame s s' -> length (nodes_ s') = length (nodes_ s).
Proof. intros [E _]. apply (f_equal length) in E. by rewrite !length_map in E. Qed.

Lemma same_frame_allocated s s' n : same_frame s s' -> allocated s' n <-> allocated s n.
Proof. intros Hf. unfold allocated. rewrite (same_frame_length _ _ Hf). by destruct Hf as [_ ->]. Qed.

Lemma same_graph_frame s s' : same_graph s s' -> same_frame s s'.
Proof.
  intros [E1 E2]. split; [|done]. apply (f_equal (map (fun c => snd (fst (fst c))))) in E1. rewrite !map_map in E1. exact E1.
Qed.

Lemma same_edges_frame s s' : same_edges s s' -> same_frame s s'.
Proof.
  intros [E1 E2]. split; [|done]. apply (f_equal (map (fun c => snd (fst (fst c))))) in E1. rewrite !map_map in E1. exact E1.
Qed.

Lemma rewired_frame s s' O I : rewired s s' O I -> same_frame s s'.
Proof. intros Hr. split; [by eapply rewired_data|apply (r_free _ _ _ _ Hr)]. Qed.

#[export] Instance same_frame_equiv : Equivalence same_frame.
Proof.
  split; [by intros s|by intros s s' [? ?]; split|]. intros s1 s2 s3 [? ?] [? ?]. split; congruence.
Qed.

Definition same_views (s s' : Rep) : Prop :=
  forall n, outs s' n = outs s n /\ ins s' n = ins s n /\ rank_of s' n = rank_of s n.

(** The edges of [s'] are those of [s] and [x -> y]. *)
Definition added (s s' : Rep) (x y : nat) : Prop := forall u v, edge s' u v <-> edge s u v \/ (u = x /\ v = y).

Lemma reordered_ranks s1 s2 s' Bk F :
  (forall n, rank_of s1 n = rank_of s2 n) -> reordered s1 s' Bk F -> reordered s2 s' Bk F.
Proof.
  intros E Ho. constructor.
  - intros n Hn. rewrite <- E. by apply (o_other _ _ _ _ Ho).
  - intros x y Hx Hy. rewrite <- !E. by apply (o_back _ _ _ _ Ho).
  - intros x y Hx Hy. rewrite <- !E. by apply (o_forw _ _ _ _ Ho).
  - apply (o_cross _ _ _ _ Ho).
  - intros x Hx. rewrite <- E. by apply (o_down _ _ _ _ Ho).
  - intros x Hx. rewrite <- E. by apply (o_up _ _ _ _ Ho).
  - intros x Hx. destruct (o_perm _ _ _ _ Ho x Hx) as (z & Hz & ->). exists z. by rewrite E.
  - apply (o_inj _ _ _ _ Ho).
Qed.

Section insert_edge.
Context (t : bool) (s s2 : Rep) (x y : nat).
Context (Hi : inv s) (Hx : allocated s x) (Hy : allocated s y) (Hxy : x <> y) (Hnew : y ∉ outs s x).
Context (Hr : rewired s s2 (upd (outs s) x (outs s x ++ [y])) (upd (ins s) y (ins s y ++ [x]))).

Lemma inserted_added : added s s2 x y.
Proof using Hi Hx Hy Hxy Hnew Hr.
  intros u v. unfold edge. rewrite (r_outs _ _ _ _ Hr), upd_elem, elem_of_app, list_elem_of_singleton.
  destruct (decide (u = x)) as [->|]; tauto.
Qed.

Lemma inserted_inv : graph_inv s2.
Proof using Hi Hx Hy Hxy Hnew Hr.
  destruct Hi as (Hg & _ & _). apply (rewired_inv _ _ _ _ Hr Hg).
  - intros u v. rewrite !upd_elem, !elem_of_app, !list_elem_of_singleton. pose proof (g_dual _ Hg u v).
    destruct (decide (u = x)) as [->|], (decide (v = y)) as [->|]; tauto.
  - intros n Hn. rewrite !upd_other; [by apply (g_free _ Hg)| |].
    + intros ->. by apply (proj2 Hy).
    + intros ->. by apply (proj2 Hx).
Qed.

(** The ranks are already in order. *)
Lemma inserted_ordered : (rank_of s x <= rank_of s y)%nat -> inv s2.
Proof using Hi Hx Hy Hxy Hnew Hr.
  intros Hle. destruct Hi as (Hg & Hv & Ht). split_and!; [apply inserted_inv|by apply (rewired_visited _ _ _ _ Hr)|].
  intros u v [He|[-> ->]]%inserted_added; rewrite !(rewired_rank _ _ _ _ Hr); [by apply Ht|].
  assert (rank_of s x <> rank_of s y); [|lia]. intros E. apply (g_inj _ Hg) in E; [done|apply Hx|apply Hy].
Qed.

(** The search met [x]: the edge is taken out again. *)
Lemma undo_spec F s3 :
  same_graph s2 s3 -> visited_in s3 F -> (forall n, n ∈ F -> (n < length (nodes_ s))%nat) ->
  wp t (out_Erase x y;; in_Erase y x;; ClearVisitedBits F) s3 (fun _ s' =>
    inv s' /\ same_frame s s' /\ same_views s s').
Proof using All.
  intros Hs Hv HF. destruct Hi as (Hg & Hv0 & Ht).
  pose proof (graph_inv_same _ _ Hs inserted_inv) as Hg3.
  assert (forall n, outs s3 n = upd (outs s) x (outs s x ++ [y]) n) as Ho3.
  { intros n. rewrite (proj1 (same_graph_views s2 s3 n Hs)). apply Hr. }
  assert (forall n, ins s3 n = upd (ins s) y (ins s y ++ [x]) n) as Hi3.
  { intros n. rewrite (proj1 (proj2 (same_graph_views s2 s3 n Hs))). apply Hr. }
  wp_step. eapply wp_mono; [apply out_Erase_spec; [exact (g_wf _ Hg3)|rewrite Ho3, upd_same; elem]|].
  cbn beta. intros _ s4 (l & [_ Hl] & Hr4). specialize (Hl (outs s x)). rewrite Ho3, upd_same in Hl. specialize (Hl eq_refl). subst l.
  wp_step. eapply wp_mono; [apply in_Erase_spec; [exact (r_wf _ _ _ _ Hr4)|rewrite (r_ins _ _ _ _ Hr4), Hi3, upd_same; elem]|].
  cbn beta. intros _ s5 (l & [_ Hl] & Hr5). specialize (Hl (ins s y)).
  rewrite (r_ins _ _ _ _ Hr4), Hi3, upd_same in Hl. specialize (Hl eq_refl). subst l.
  assert (rewired s3 s5 (outs s) (ins s)) as Hr35.
  { eapply rewired_ext; [eapply rewired_trans; [exact Hr4|exact Hr5]|..]; intros n.
    - rewrite (r_outs _ _ _ _ Hr4). unfold upd at 1. destruct (decide (n = x)) as [->|]; [done|]. by rewrite Ho3, upd_other.
    - unfold upd at 1. destruct (decide (n = y)) as [->|]; [done|]. by rewrite (r_ins _ _ _ _ Hr4), Hi3, upd_other. }
  assert (same_frame s s5) as Hf5.
  { etrans; [by eapply rewired_frame|]. etrans; [by eapply same_graph_frame|]. by eapply rewired_frame. }
  assert (graph_inv s5) as Hg5.
  { apply (rewired_inv _ _ _ _ Hr35 Hg3); [apply (g_dual _ Hg)|].
    intros n Hn. destruct Hs as [_ E]. rewrite E, (r_free _ _ _ _ Hr) in Hn. by apply (g_free _ Hg). }
  assert (same_views s s5) as Hv5.
  { intros n. split_and!; [apply Hr35|apply Hr35|]. rewrite (rewired_rank _ _ _ _ Hr35).
    destruct (same_graph_views s2 s3 n Hs) as (_ & _ & ->). apply (rewired_rank _ _ _ _ Hr). }
  eapply wp_mono; [apply (ClearVisitedBits_spec t F s5 [])|].
  - by apply (rewired_visited _ _ _ _ Hr35).
  - by intros n ?%not_elem_of_nil.
  - intros n Hn. rewrite (same_frame_length _ _ Hf5). by apply HF.
  - cbn beta. intros _ s' [Hs' Hv'].
    assert (same_views s s') as Hviews.
    { intros n. destruct (same_graph_views s5 s' n Hs') as (-> & -> & ->). apply Hv5. }
    split_and!; [|etrans; [done|by apply same_graph_frame]|done].
    split_and!; [by eapply graph_inv_same|done|]. intros u v He. destruct (Hviews u) as (E & _ & ->), (Hviews v) as (_ & _ & ->).
    unfold edge in He. rewrite E in He. by apply Ht.
Qed.

(** The search did not meet [x]: the ranks are reassigned. *)
Lemma reorder_spec F s3 :
  same_graph s2 s3 -> visited_in s3 F -> NoDup F -> (rank_of s y < rank_of s x)%nat ->
  (forall n, n ∈ F -> path s y n /\ (rank_of s n < rank_of s x)%nat /\ (n < length (nodes_ s))%nat) -> y ∈ F ->
  (forall n w, n ∈ F -> edge s n w -> rank_of s w <> rank_of s x /\ ((rank_of s w < rank_of s x)%nat -> w ∈ F)) ->
  wp t (deltab ← BackwardDFS x (rank_of s y); Reorder deltab F) s3 (fun _ s' =>
    inv s' /\ same_frame s s' /\ added s s' x y).
Proof using All.
  intros Hs Hv HndF Hlt HF HyF HFc. destruct Hi as (Hg & Hv0 & Ht).
  assert (forall n, rank_of s3 n = rank_of s n) as Hrk.
  { intros n. destruct (same_graph_views s2 s3 n Hs) as (_ & _ & ->). apply (rewired_rank _ _ _ _ Hr). }
  assert (length (nodes_ s3) = length (nodes_ s)) as Hlen by (rewrite (same_graph_length _ _ Hs); apply (rewired_length _ _ _ _ Hr)).
  pose proof (graph_inv_same _ _ Hs inserted_inv) as Hg3.
  wp_step. eapply wp_mono; [apply (BackwardDFS_spec t s s3 x y Hg Hg3 Hlen Hrk)|]; [|apply (proj1 Hx)|apply (proj1 Hy)|done|done| |].
  { intros n Hn. rewrite (proj1 (proj2 (same_graph_views s2 s3 n Hs))), (r_ins _ _ _ _ Hr). by apply upd_other. }
  { intros Hin. destruct (HF x Hin) as (_ & ? & _). lia. }
  cbn beta. intros Bk s4 (Hs4 & Hv4 & HndB & HB & HxB & HBc).
  assert (forall n, rank_of s4 n = rank_of s n) as Hrk4 by (intros n; destruct (same_graph_views s3 s4 n Hs4) as (_ & _ & ->); apply Hrk).
  assert (same_graph s2 s4) as Hs24 by (by etrans).
  eapply wp_mono; [apply (Reorder_spec t Bk F s4)|].
  - exact (graph_inv_same _ _ Hs4 Hg3).
  - done.
  - apply NoDup_app. split_and!; [done| |done]. intros n Hn Hb. by destruct (HB n Hb).
  - intros n Hn. rewrite (same_graph_length _ _ Hs4), Hlen. apply elem_of_app in Hn as [Hn|Hn]; [by apply HF|by apply HB].
  - cbn beta. intros _ s' (s5 & Hs5 & Hv5 & He5 & Ho). apply (reordered_ranks s4 s) in Ho; [|done].
    assert (same_graph s2 s5) as Hs25 by (by etrans).
    assert (same_frame s s') as Hf.
    { etrans; [by eapply rewired_frame|]. etrans; [by eapply same_graph_frame|]. by eapply same_edges_frame. }
    assert (forall n, outs s' n = outs s2 n /\ ins s' n = ins s2 n) as Hviews.
    { intros n. destruct (same_edges_views s5 s' n He5) as (-> & ->). destruct (same_graph_views s2 s5 n Hs25) as (? & ? & _). done. }
    assert (added s s' x y) as Hadd.
    { intros u v. unfold edge. rewrite (proj1 (Hviews u)). apply inserted_added. }
    assert (forall n, n ∈ Bk -> path s n x /\ (rank_of s y < rank_of s n)%nat /\ (n < length (nodes_ s))%nat) as HB'
      by (intros n Hn; by apply HB).
    split_and!; [|done|done]. split_and!.
    + pose proof inserted_inv as Hg2. constructor.
      * intros n nn Hn. destruct (same_edges_lookup _ _ _ _ He5 Hn) as (nn' & Hn' & _ & -> & ->).
        by apply (g_wf _ (graph_inv_same _ _ Hs25 Hg2) n).
      * intros u v. rewrite (proj1 (Hviews u)), (proj2 (Hviews v)). apply Hg2.
      * intros n. rewrite (same_frame_length _ _ Hf). apply (reordered_rank_lt s s' x y F Bk Hg Ht HF HyF HFc HB' HxB HBc (proj1 Hy) Hlt Ho).
      * intros u v. rewrite (same_frame_length _ _ Hf). apply (reordered_inj s s' x y F Bk Hg Ht HF HyF HFc HB' HxB HBc (proj1 Hy) Hlt Ho).
      * rewrite (same_frame_length _ _ Hf), (proj2 Hf). split; [apply (g_free _ Hg)|]. intros n Hn.
        split; [by apply (g_free _ Hg)|]. rewrite (proj1 (Hviews n)), (proj2 (Hviews n)). apply (g_free _ Hg2).
        by rewrite (r_free _ _ _ _ Hr).
    + intros n nn Hn. destruct (same_edges_lookup _ _ _ _ He5 Hn) as (nn' & Hn' & -> & _). by apply Hv5.
    + intros u v He%Hadd. by apply (reordered_topological s s' x y F Bk Hg Ht HF HyF HFc HB' HxB HBc (proj1 Hy) Hlt Ho).
Qed.

End insert_edge.

Lemma outs_lookup s x nx : nodes_ s !! x = Some nx -> outs s x = OrderedSet.GetSequence (out nx).
Proof. unfold outs. by intros ->. Qed.

Lemma ins_lookup s x nx : nodes_ s !! x = Some nx -> ins s x = OrderedSet.GetSequence (in_ nx).
Proof. unfold ins. by intros ->. Qed.

Lemma rank_lookup s x nx : nodes_ s !! x = Some nx -> rank_of s x = rank nx.
Proof. unfold rank_of. by intros ->. Qed.

(** No path leads back along an edge, or to a node of smaller rank. *)
Lemma no_path_back s x y : topological s -> edge s x y -> ~ path s y x.
Proof.
  intros Ht He Hp. specialize (Ht x y He) as Hlt. destruct (path_rank s y x Ht Hp) as [->|?]; lia.
Qed.

Lemma no_path_down s x y : topological s -> x <> y -> (rank_of s x <= rank_of s y)%nat -> ~ path s y x.
Proof. intros Ht Hne Hle Hp. destruct (path_rank s y x Ht Hp) as [->|?]; [done|lia]. Qed.

(** Both ends of the new edge are recorded. *)
Lemma wp_insert_sets t {A} s x y nx set (k : MG A) (Q : A -> Rep -> Prop) :
  graph_inv s -> x <> y -> nodes_ s !! x = Some nx -> (y < length (nodes_ s))%nat ->
  OrderedSet.Insert y (out nx) = (true, set) ->
  (forall s2, y ∉ outs s x -> rewired s s2 (upd (outs s) x (outs s x ++ [y])) (upd (ins s) y (ins s y ++ [x])) ->
    wp t k s2 Q) ->
  wp t (update x (set_out set);; ny ← node y; update y (set_in (OrderedSet.Insert x (in_ ny)).2);; k) s Q.
Proof.
  intros Hg Hne Hx Hy E Hk. destruct (g_wf _ Hg x nx Hx) as [Hwi Hwo].
  destruct (OrderedSet.Insert_spec y (out nx) true set Hwo E) as (Hws & Hb & Hseq).
  assert (y ∉ outs s x) as Hn by (rewrite (outs_lookup _ _ _ Hx); by apply Hb).
  wp_step. eapply wp_update; [done|]. pose proof (rewired_set_out s x nx set (g_wf _ Hg) Hx Hws) as Hr1.
  set (s1 := mkRep _ _) in *. destruct (lookup_lt_is_Some_2 (nodes_ s1) y) as [ny Hny].
  { by rewrite (rewired_length _ _ _ _ Hr1). }
  wp_step. eapply wp_node; [done|]. wp_step. eapply wp_update; [done|]. apply Hk; [done|].
  destruct (OrderedSet.Insert x (in_ ny)) as [b2 set2] eqn:E2.
  destruct (r_wf _ _ _ _ Hr1 y ny Hny) as [Hwi2 _].
  destruct (OrderedSet.Insert_spec x (in_ ny) b2 set2 Hwi2 E2) as (Hws2 & Hb2 & Hseq2).
  assert (OrderedSet.GetSequence (in_ ny) = ins s y) as Ei.
  { rewrite <- (ins_lookup s1 y ny Hny). apply (r_ins _ _ _ _ Hr1). }
  assert (b2 = true) as ->. { apply Hb2. rewrite Ei. intros Hin. apply (g_dual _ Hg) in Hin. done. }
  eapply rewired_ext; [eapply rewired_trans; [exact Hr1|by apply rewired_set_in; [apply (r_wf _ _ _ _ Hr1)| |]]|..].
  - intros n. rewrite (r_outs _ _ _ _ Hr1), Hseq. by rewrite (outs_lookup _ _ _ Hx).
  - intros n. cbn [snd]. rewrite Hseq2, Ei. unfold upd. destruct (decide (n = y)); [done|]. apply (r_ins _ _ _ _ Hr1).
Qed.

(** The answer of [InsertEdge] and what it did. *)
Definition insert_result (s s' : Rep) (x y : nat) (r : bool) : Prop :=
  inv s' /\ same_frame s s'
  /\ (r = true <-> x <> y /\ ~ path s y x)
  /\ (if r then added s s' x y else same_views s s').

Lemma InsertEdge_spec t x y s :
  inv s -> allocated s x -> allocated s y ->
  wp t (InsertEdge x y) s (fun r s' => insert_result s s' x y r).
Proof.
  intros Hi Hx Hy. pose proof Hi as (Hg & Hv & Ht). unfold InsertEdge.
  destruct (Nat.eqb_spec x y) as [->|Hne].
  { wp_steps. split_and!; [done..| |by intros n]. split; [done|]. by intros [? _]. }
  destruct (lookup_lt_is_Some_2 (nodes_ s) x (proj1 Hx)) as [nx Hnx].
  wp_step. eapply wp_node; [done|]. destruct (OrderedSet.Insert y (out nx)) as [b set] eqn:E.
  destruct (g_wf _ Hg x nx Hnx) as [Hwi Hwo]. destruct (OrderedSet.Insert_spec y (out nx) b set Hwo E) as (_ & Hb & _).
  rewrite <- (outs_lookup _ _ _ Hnx) in Hb.
  destruct b; cbn [negb].
  2: { assert (edge s x y) as He by (destruct (decide (y ∈ outs s x)) as [?|Hn]; [done|by apply Hb in Hn]).
       wp_steps. split_and!; [done..| |].
       - split; [|done]. intros _. split; [done|]. by apply no_path_back.
       - intros u v. split; [by left|]. intros [?|[-> ->]]; done. }
  eapply wp_insert_sets; [done|done|done|apply (proj1 Hy)|done|]. intros s2 Hn Hr.
  destruct (lookup_lt_is_Some_2 (nodes_ s2) x) as [nx2 Hnx2]; [rewrite (rewired_length _ _ _ _ Hr); apply Hx|].
  destruct (lookup_lt_is_Some_2 (nodes_ s2) y) as [ny2 Hny2]; [rewrite (rewired_length _ _ _ _ Hr); apply Hy|].
  wp_step. eapply wp_node; [done|]. wp_step. eapply wp_node; [done|].
  rewrite <- (rank_lookup s2 x nx2), <- (rank_lookup s2 y ny2), !(rewired_rank _ _ _ _ Hr) by done.
  destruct (Nat.leb_spec (rank_of s x) (rank_of s y)) as [Hle|Hlt].
  { wp_steps. split_and!; [by apply (inserted_ordered s s2 x y)|by eapply rewired_frame| |by apply (inserted_added s s2 x y)].
    split; [|done]. intros _. split; [done|]. by apply no_path_down. }
  wp_step. eapply wp_mono.
  { apply (ForwardDFS_spec t s s2 x y Hg); [by apply (inserted_inv s s2 x y)|apply (rewired_length _ _ _ _ Hr)
      |apply (rewired_rank _ _ _ _ Hr)| |apply Hx|apply Hy|done|by apply (rewired_visited _ _ _ _ Hr)].
    intros n Hnx'. rewrite (r_outs _ _ _ _ Hr). by apply upd_other. }
  cbn beta. intros [ok F] s3 (Hs & Hv3 & Hnd & HF & Hres). cbn [fst snd] in *. destruct ok; cbn [negb].
  - destruct Hres as [HyF HFc]. apply wp_assoc. eapply wp_mono; [by apply (reorder_spec t s s2 x y Hi Hx Hy Hne Hn Hr F s3)|].
    cbn beta. intros _ s' (Hi' & Hf & Ha). wp_steps. split_and!; [done..| |done]. split; [|done]. intros _. split; [done|].
    by apply (forward_no_path s x y F Ht HF HFc).
  - pose proof (undo_spec t s s2 x y Hi Hx Hy Hne Hn Hr F s3 Hs Hv3 (fun n Hn => proj2 (proj2 (HF n Hn)))) as Hu.
    unfold wp in Hu |- *. unfold mbind, M_bind in Hu |- *.
    destruct (out_Erase x y s3) as [[[] s4]| |]; [|done..]. destruct (in_Erase y x s4) as [[[] s5]| |]; [|done..].
    destruct (ClearVisitedBits F s5) as [[[] s6]| |]; [|done..]. destruct Hu as (Hi' & Hf & Hvw). cbn.
    split_and!; [done..| |done]. split; [done|]. by intros [_ ?].
Qed.
