(* ===== verification/GraphCyclesEdit.v ===== *)
(** * Incremental cycle detection: removal, allocation and contraction

    [RemoveEdge], [RemoveNode], [NewNode], [IsReachableNonConst], [CanContractEdge] and
    [ContractEdge] on top of the insertion of edges. *)

From S2P Require Import Prelude GraphCycles GraphCyclesDFS GraphCyclesInsert GraphCyclesOps.
Import GraphCycles.

(** ** Removing an edge *)

(** The edges of [s'] are those of [s] that satisfy [K]; the ranks are kept. *)
Definition kept (s s' : Rep) (K : nat -> nat -> Prop) : Prop :=
  (forall u v, edge s' u v <-> edge s u v /\ K u v) /\ (forall n, rank_of s' n = rank_of s n).

Lemma topological_kept s s' K : topological s -> kept s s' K -> topological s'.
Proof. intros Ht [He Hr] u v [Huv _]%He. rewrite !Hr. by apply Ht. Qed.

Lemma edge_allocated s x y : graph_inv s -> edge s x y -> allocated s x /\ allocated s y.
Proof.
  intros Hg He. destruct (edge_range s x y Hg He) as [Hx Hy]. unfold allocated. split_and!; [done| |done|].
  - intros Hf. destruct (g_free _ Hg) as [_ Hfr]. destruct (Hfr x Hf) as (_ & E & _). unfold edge in He. rewrite E in He.
    by apply not_elem_of_nil in He.
  - intros Hf. destruct (g_free _ Hg) as [_ Hfr]. destruct (Hfr y Hf) as (_ & _ & E). apply (g_dual _ Hg) in He. rewrite E in He.
    by apply not_elem_of_nil in He.
Qed.

Lemma edge_irrefl s x : topological s -> ~ edge s x x.
Proof. intros Ht He. specialize (Ht x x He). lia. Qed.

Lemma RemoveEdge_spec t x y s :
  inv s -> edge s x y ->
  wp t (RemoveEdge x y) s (fun _ s' => inv s' /\ same_frame s s' /\ kept s s' (fun u v => ~ (u = x /\ v = y))).
Proof.
  intros (Hg & Hv & Ht) He. unfold RemoveEdge. wp_step.
  eapply wp_mono; [apply out_Erase_spec; [exact (g_wf _ Hg)|exact He]|]. cbn beta. intros _ s1 (l & [Hl _] & Hr1).
  eapply wp_mono; [apply in_Erase_spec; [exact (r_wf _ _ _ _ Hr1)|]|].
  { rewrite (r_ins _ _ _ _ Hr1). by apply (g_dual _ Hg). }
  cbn beta. intros _ s2 (l2 & [Hl2 _] & Hr2). rewrite (r_ins _ _ _ _ Hr1) in Hl2.
  assert (rewired s s2 (upd (outs s) x l) (upd (ins s) y l2)) as Hr.
  { eapply rewired_ext; [by eapply rewired_trans|apply Hr1|].
    intros n. unfold upd. destruct (decide (n = y)); [done|]. apply (r_ins _ _ _ _ Hr1). }
  assert (kept s s2 (fun u v => ~ (u = x /\ v = y))) as Hk.
  { split; [|apply (rewired_rank _ _ _ _ Hr)]. intros u v. unfold edge. rewrite (r_outs _ _ _ _ Hr), upd_elem, Hl.
    destruct (decide (u = x)) as [->|]; tauto. }
  split_and!; [|by eapply rewired_frame|done]. split_and!.
  - apply (rewired_inv _ _ _ _ Hr Hg).
    + intros u v. rewrite !upd_elem, Hl, Hl2. pose proof (g_dual _ Hg u v).
      destruct (decide (u = x)) as [->|], (decide (v = y)) as [->|]; tauto.
    + destruct (edge_allocated s x y Hg He) as [[_ Hfx] [_ Hfy]]. intros n Hn.
      rewrite !upd_other; [by apply (g_free _ Hg)|congruence..].
  - by apply (rewired_visited _ _ _ _ Hr).
  - by eapply topological_kept.
Qed.

(** ** Removing the edges of a node *)

Lemma in_Erase_all_spec t n l s :
  wf_all s -> NoDup l -> (forall y, y ∈ l -> n ∈ ins s y) ->
  wp t (for_each l (fun y => in_Erase y n)) s (fun _ s' => exists I,
    rewired s s' (outs s) I /\ (forall y w, w ∈ I y <-> w ∈ ins s y /\ ~ (w = n /\ y ∈ l))).
Proof.
  revert s. induction l as [|y l IH]; intros s Hw Hnd Hin; cbn [for_each].
  { wp_steps. exists (ins s). split; [by constructor|]. intros y w. rewrite elem_of_nil. tauto. }
  apply NoDup_cons in Hnd as [Hy Hnd]. wp_step. eapply wp_mono; [apply in_Erase_spec; [done|apply Hin; left]|].
  cbn beta. intros _ s1 (l1 & [Hl1 _] & Hr1). eapply wp_mono; [apply (IH s1); [apply Hr1|done|]|].
  - intros z Hz. rewrite (r_ins _ _ _ _ Hr1), upd_other by congruence. apply Hin. by right.
  - cbn beta. intros _ s' (I & Hr & HI). exists I. split.
    + eapply rewired_ext; [by eapply rewired_trans|apply (r_outs _ _ _ _ Hr1)|done].
    + intros z w. rewrite HI, (r_ins _ _ _ _ Hr1), upd_elem, Hl1, elem_of_cons.
      destruct (decide (z = y)) as [->|], (decide (w = n)) as [->|]; tauto.
Qed.

Lemma out_Erase_all_spec t n l s :
  wf_all s -> NoDup l -> (forall y, y ∈ l -> n ∈ outs s y) ->
  wp t (for_each l (fun y => out_Erase y n)) s (fun _ s' => exists O,
    rewired s s' O (ins s) /\ (forall y w, w ∈ O y <-> w ∈ outs s y /\ ~ (w = n /\ y ∈ l))).
Proof.
  revert s. induction l as [|y l IH]; intros s Hw Hnd Hin; cbn [for_each].
  { wp_steps. exists (outs s). split; [by constructor|]. intros y w. rewrite elem_of_nil. tauto. }
  apply NoDup_cons in Hnd as [Hy Hnd]. wp_step. eapply wp_mono; [apply out_Erase_spec; [done|apply Hin; left]|].
  cbn beta. intros _ s1 (l1 & [Hl1 _] & Hr1). eapply wp_mono; [apply (IH s1); [apply Hr1|done|]|].
  - intros z Hz. rewrite (r_outs _ _ _ _ Hr1), upd_other by congruence. apply Hin. by right.
  - cbn beta. intros _ s' (O & Hr & HO). exists O. split.
    + eapply rewired_ext; [by eapply rewired_trans|done|apply (r_ins _ _ _ _ Hr1)].
    + intros z w. rewrite HO, (r_outs _ _ _ _ Hr1), upd_elem, Hl1, elem_of_cons.
      destruct (decide (z = y)) as [->|], (decide (w = n)) as [->|]; tauto.
Qed.

Lemma outs_NoDup s n : wf_all s -> NoDup (outs s n).
Proof. intros Hw. unfold outs. destruct (nodes_ s !! n) as [nn|] eqn:E; [|constructor]. apply OrderedSet.wf_NoDup. by apply (Hw n). Qed.

Lemma ins_NoDup s n : wf_all s -> NoDup (ins s n).
Proof. intros Hw. unfold ins. destruct (nodes_ s !! n) as [nn|] eqn:E; [|constructor]. apply OrderedSet.wf_NoDup. by apply (Hw n). Qed.

Lemma nil_of_not_elem (l : list nat) : (forall w, w ∉ l) -> l = [].
Proof. destruct l as [|x l]; [done|]. intros H. destruct (H x). left. Qed.

(** A node without edges is put on the free list. *)
Definition freed (s : Rep) (n : nat) : Rep := mkRep (nodes_ s) (free_nodes_ s ++ [n]).

Lemma freed_inv s n :
  graph_inv s -> allocated s n -> outs s n = [] -> ins s n = [] -> graph_inv (freed s n).
Proof.
  intros [Hw Hd Hr Hi [Hnd Hf]] [Hlt Hn] Eo Ei. constructor; [done..|]. cbn. split.
  - apply NoDup_app. split_and!; [done| |apply NoDup_singleton]. intros x Hx ->%list_elem_of_singleton. done.
  - intros x [Hx|Hx]%elem_of_app; [by apply Hf|]. apply list_elem_of_singleton in Hx as ->. done.
Qed.

(** All edges of [n] are gone. *)
Definition isolated (s s' : Rep) (n : nat) : Prop := kept s s' (fun u v => u <> n /\ v <> n).

Lemma RemoveNode_spec t n s :
  inv s -> allocated s n ->
  wp t (RemoveNode n) s (fun _ s' => inv s' /\ map data (nodes_ s') = map data (nodes_ s)
    /\ free_nodes_ s' = free_nodes_ s ++ [n] /\ isolated s s' n).
Proof.
  intros (Hg & Hv & Ht) Hn. pose proof (edge_irrefl s n Ht) as Hself. unfold RemoveNode.
  destruct (lookup_lt_is_Some_2 (nodes_ s) n (proj1 Hn)) as [nn Hnn]. wp_step. eapply wp_node; [done|].
  rewrite <- (outs_lookup s n nn Hnn). wp_step.
  eapply wp_mono; [apply in_Erase_all_spec; [exact (g_wf _ Hg)|apply outs_NoDup; exact (g_wf _ Hg)|]|].
  { intros y Hy. by apply (g_dual _ Hg). }
  cbn beta. intros _ s1 (I1 & Hr1 & HI1).
  destruct (lookup_lt_is_Some_2 (nodes_ s1) n) as [nn1 Hnn1]; [rewrite (rewired_length _ _ _ _ Hr1); apply Hn|].
  wp_step. eapply wp_node; [done|]. rewrite <- (ins_lookup s1 n nn1 Hnn1). wp_step.
  eapply wp_mono; [apply out_Erase_all_spec; [exact (r_wf _ _ _ _ Hr1)|apply ins_NoDup; exact (r_wf _ _ _ _ Hr1)|]|].
  { intros y Hy. rewrite (r_ins _ _ _ _ Hr1) in Hy. apply HI1 in Hy as [Hy _]. rewrite (r_outs _ _ _ _ Hr1). by apply (g_dual _ Hg). }
  cbn beta. intros _ s2 (O2 & Hr2 & HO2).
  destruct (lookup_lt_is_Some_2 (nodes_ s2) n) as [nn2 Hnn2].
  { rewrite (rewired_length _ _ _ _ Hr2), (rewired_length _ _ _ _ Hr1). apply Hn. }
  wp_step. eapply wp_update; [done|]. change (OrderedSet.Clear _) with OrderedSet.empty.
  pose proof (rewired_set_in s2 n nn2 OrderedSet.empty (r_wf _ _ _ _ Hr2) Hnn2 OrderedSet.wf_empty) as Hr3.
  set (s3 := mkRep _ _) in *. destruct (lookup_lt_is_Some_2 (nodes_ s3) n) as [nn3 Hnn3].
  { rewrite (rewired_length _ _ _ _ Hr3). by eapply lookup_lt_Some. }
  wp_step. eapply wp_update; [done|]. change (OrderedSet.Clear _) with OrderedSet.empty.
  pose proof (rewired_set_out s3 n nn3 OrderedSet.empty (r_wf _ _ _ _ Hr3) Hnn3 OrderedSet.wf_empty) as Hr4.
  set (s4 := mkRep (<[n := set_out OrderedSet.empty nn3]> (nodes_ s3)) (free_nodes_ s3)) in *. unfold push_free. wp_steps.
  assert (rewired s s4 (upd O2 n []) (upd I1 n [])) as Hr.
  { eapply rewired_ext; [do 3 (eapply rewired_trans; [done|]); exact Hr4|..]; intros z.
    - unfold upd. destruct (decide (z = n)); [done|]. by rewrite (r_outs _ _ _ _ Hr3), (r_outs _ _ _ _ Hr2).
    - rewrite (r_ins _ _ _ _ Hr3). unfold upd. destruct (decide (z = n)); [done|].
      by rewrite (r_ins _ _ _ _ Hr2), (r_ins _ _ _ _ Hr1). }
  assert (forall u v, v ∈ upd O2 n [] u <-> edge s u v /\ u <> n /\ v <> n) as HO.
  { intros u v. rewrite upd_elem, HO2, (r_outs _ _ _ _ Hr1), (r_ins _ _ _ _ Hr1), HI1, <- (g_dual _ Hg), elem_of_nil. unfold edge.
    destruct (decide (v = n)) as [->|], (decide (u = n)) as [->|]; tauto. }
  assert (forall u v, u ∈ upd I1 n [] v <-> edge s u v /\ u <> n /\ v <> n) as HI.
  { intros u v. rewrite upd_elem, HI1, <- (g_dual _ Hg), elem_of_nil. unfold edge.
    destruct (decide (u = n)) as [->|]; tauto. }
  assert (kept s s4 (fun u v => u <> n /\ v <> n)) as Hk.
  { split; [|apply (rewired_rank _ _ _ _ Hr)]. intros u v. unfold edge at 1. by rewrite (r_outs _ _ _ _ Hr), HO. }
  assert (graph_inv s4) as Hg4.
  { apply (rewired_inv _ _ _ _ Hr Hg).
    - intros u v. by rewrite HO, HI.
    - intros z Hz. destruct (g_free _ Hg) as [_ Hf]. destruct (Hf z Hz) as (_ & Eo & Ei). split; apply nil_of_not_elem; intros w Hw.
      + apply HO in Hw as [Hw _]. unfold edge in Hw. rewrite Eo in Hw. by apply not_elem_of_nil in Hw.
      + apply HI in Hw as [Hw _]. apply (g_dual _ Hg) in Hw. rewrite Ei in Hw. by apply not_elem_of_nil in Hw. }
  pose proof (rewired_frame _ _ _ _ Hr) as Hf. split_and!; [|apply Hf|change (free_nodes_ s4 ++ [n] = free_nodes_ s ++ [n]); by rewrite (r_free _ _ _ _ Hr)|exact Hk].
  split_and!; [|by apply (rewired_visited _ _ _ _ Hr)|exact (topological_kept _ _ _ Ht Hk)].
  apply (freed_inv s4 n Hg4).
  - by apply (same_frame_allocated s s4 n Hf).
  - rewrite (r_outs _ _ _ _ Hr). apply upd_same.
  - rewrite (r_ins _ _ _ _ Hr). apply upd_same.
Qed.

(** ** Allocating a node *)

Definition same_edge_set (s s' : Rep) : Prop := forall u v, edge s' u v <-> edge s u v.

(** [n] is a new node without edges. *)
Definition new_node (s s' : Rep) (n : nat) : Prop :=
  ~ allocated s n /\ (forall m, allocated s' m <-> allocated s m \/ m = n)
  /\ same_edge_set s s' /\ (exists nn, nodes_ s' !! n = Some nn /\ data nn = 0)
  /\ (forall m nm, m <> n -> nodes_ s !! m = Some nm -> exists nm', nodes_ s' !! m = Some nm' /\ data nm' = data nm).

Lemma push_back_views s nn m :
  in_ nn = OrderedSet.empty -> out nn = OrderedSet.empty ->
  let s' := mkRep (nodes_ s ++ [nn]) (free_nodes_ s) in
  outs s' m = outs s m /\ ins s' m = ins s m
  /\ rank_of s' m = if decide (m = length (nodes_ s)) then rank nn else rank_of s m.
Proof.
  intros Ei Eo. unfold outs, ins, rank_of. cbn. destruct (Nat.lt_trichotomy m (length (nodes_ s))) as [Hlt|[->|Hgt]].
  - rewrite lookup_app_l, decide_False by lia. done.
  - rewrite lookup_app_r, Nat.sub_diag, (lookup_ge_None_2 (nodes_ s)), decide_True by done. cbn. by rewrite Ei, Eo.
  - rewrite (lookup_ge_None_2 (nodes_ s)), (lookup_ge_None_2 (nodes_ s ++ [nn])), decide_False by (rewrite ?length_app; cbn; lia). done.
Qed.

Lemma NewNode_grow s :
  inv s -> free_nodes_ s = [] ->
  let nn := mkNode (length (nodes_ s)) false 0 OrderedSet.empty OrderedSet.empty in
  let s' := mkRep (nodes_ s ++ [nn]) (free_nodes_ s) in
  inv s' /\ new_node s s' (length (nodes_ s)).
Proof.
  intros (Hg & Hv & Ht) Ef nn s'. assert (forall m, outs s' m = outs s m /\ ins s' m = ins s m
    /\ rank_of s' m = if decide (m = length (nodes_ s)) then length (nodes_ s) else rank_of s m) as Hviews
    by (intros m; by apply push_back_views).
  assert (length (nodes_ s') = S (length (nodes_ s))) as El by (cbn; rewrite length_app; cbn; lia).
  assert (forall m, (m < length (nodes_ s))%nat -> rank_of s' m = rank_of s m) as Hrk.
  { intros m Hm. destruct (Hviews m) as (_ & _ & ->). rewrite decide_False by lia. done. }
  split; [split_and!|].
  - constructor.
    + intros n nn' Hn. cbn in Hn. apply lookup_app_Some in Hn as [Hn|[_ Hn]]; [by apply (g_wf _ Hg n)|].
      apply list_lookup_singleton_Some in Hn as [_ <-]. split; apply OrderedSet.wf_empty.
    + intros x y. destruct (Hviews x) as (-> & _), (Hviews y) as (_ & -> & _). apply Hg.
    + intros n Hn. rewrite El in *. destruct (Hviews n) as (_ & _ & ->). destruct (decide (n = length (nodes_ s))) as [->|]; [lia|].
      assert (rank_of s n < length (nodes_ s))%nat; [apply Hg; lia|lia].
    + intros x y Hx Hy. rewrite El in *. destruct (Hviews x) as (_ & _ & ->), (Hviews y) as (_ & _ & ->).
      pose proof (g_rank _ Hg x). pose proof (g_rank _ Hg y).
      repeat destruct (decide _); subst; [done|lia..|apply (g_inj _ Hg); lia].
    + cbn. rewrite Ef. split; [constructor|]. by intros n ?%not_elem_of_nil.
  - intros n nn' Hn. cbn in Hn. apply lookup_app_Some in Hn as [Hn|[_ Hn]]; [by apply (Hv n)|].
    apply list_lookup_singleton_Some in Hn as [_ <-]. cbn. split; [done|by intros ?%not_elem_of_nil].
  - intros x y He. unfold edge in He. rewrite (proj1 (Hviews x)) in He. destruct (edge_range s x y Hg He). rewrite !Hrk by done. by apply Ht.
  - unfold new_node, allocated. rewrite El. cbn [s' free_nodes_]. rewrite Ef. split_and!.
    + lia.
    + intros m. rewrite !elem_of_nil. split.
      * intros [? _]. destruct (decide (m = length (nodes_ s))); [by right|]. left. split; [lia|tauto].
      * intros [[? _]| ->]; (split; [lia|tauto]).
    + intros u v. unfold edge. by rewrite (proj1 (Hviews u)).
    + exists nn. cbn. by rewrite lookup_app_r, Nat.sub_diag.
    + intros m nm _ Hm. exists nm. cbn. split; [|done]. by apply lookup_app_l_Some.
Qed.

Lemma NewNode_reuse s f l nf :
  inv s -> free_nodes_ s = l ++ [f] -> nodes_ s !! f = Some nf ->
  let s' := mkRep (<[f := set_data 0 nf]> (nodes_ s)) l in
  inv s' /\ new_node s s' f.
Proof.
  intros (Hg & Hv & Ht) Ef Hf s'. apply lookup_lt_Some in Hf as Hlt.
  assert (forall m, outs s' m = outs s m /\ ins s' m = ins s m /\ rank_of s' m = rank_of s m) as Hviews.
  { intros m. unfold outs, ins, rank_of. cbn. destruct (decide (m = f)) as [->|]; [|by rewrite list_lookup_insert_ne].
    by rewrite list_lookup_insert_eq, Hf. }
  assert (length (nodes_ s') = length (nodes_ s)) as El by apply length_insert.
  destruct (g_free _ Hg) as [Hnd Hfr]. rewrite Ef in Hnd, Hfr. apply NoDup_app in Hnd as (Hnd & Hdis & _).
  assert (f ∉ l) as Hfl by (intros Hx; apply (Hdis f Hx); left).
  assert (forall n nn, nodes_ s' !! n = Some nn -> exists nn', nodes_ s !! n = Some nn' /\ in_ nn = in_ nn' /\ out nn = out nn' /\ visited nn = visited nn') as Hl.
  { intros n nn Hn. cbn in Hn. destruct (decide (n = f)) as [->|].
    - rewrite list_lookup_insert_eq in Hn by done. injection Hn as <-. by exists nf.
    - rewrite list_lookup_insert_ne in Hn by done. by exists nn. }
  split; [split_and!|].
  - constructor.
    + intros n nn (nn' & Hn & -> & -> & _)%Hl. by apply (g_wf _ Hg n).
    + intros x y. destruct (Hviews x) as (-> & _), (Hviews y) as (_ & -> & _). apply Hg.
    + intros n. rewrite El. destruct (Hviews n) as (_ & _ & ->). apply Hg.
    + intros x y. rewrite El. destruct (Hviews x) as (_ & _ & ->), (Hviews y) as (_ & _ & ->). apply Hg.
    + rewrite El. split; [done|]. intros n Hn. destruct (Hviews n) as (-> & -> & _). apply Hfr. elem.
  - intros n nn (nn' & Hn & _ & _ & ->)%Hl. by apply (Hv n).
  - intros x y He. unfold edge in He. destruct (Hviews x) as (E & _ & ->), (Hviews y) as (_ & _ & ->). rewrite E in He. by apply Ht.
  - unfold new_node, allocated. rewrite El. cbn [s' free_nodes_]. rewrite Ef. split_and!.
    + intros [_ Hn]. apply Hn. elem.
    + intros m. rewrite elem_of_app, list_elem_of_singleton. destruct (decide (m = f)) as [->|]; tauto.
    + intros u v. unfold edge. by rewrite (proj1 (Hviews u)).
    + exists (set_data 0 nf). cbn. by rewrite list_lookup_insert_eq.
    + intros m nm Hne Hm. exists nm. cbn. by rewrite list_lookup_insert_ne.
Qed.

Lemma NewNode_spec t s : inv s -> wp t NewNode s (fun n s' => inv s' /\ new_node s s' n).
Proof.
  intros Hi. unfold NewNode. wp_steps. destruct (last (free_nodes_ s)) as [f|] eqn:E.
  - apply last_Some in E as [l E]. destruct Hi as (Hg & ? & ?). destruct (g_free _ Hg) as [_ Hfr].
    destruct (Hfr f) as [Hlt _]; [rewrite E; elem|]. destruct (lookup_lt_is_Some_2 (nodes_ s) f Hlt) as [nf Hf].
    wp_step. eapply wp_update; [done|]. wp_steps. cbn [nodes_ free_nodes_]. rewrite E, length_app. cbn [length].
    replace (length l + 1 - 1)%nat with (length l) by lia. rewrite take_app_length. by apply NewNode_reuse.
  - apply last_None in E. wp_steps. by apply NewNode_grow.
Qed.

(** ** Reachability *)

Lemma IsReachableNonConst_spec t x y s :
  inv s -> (x < length (nodes_ s))%nat -> (y < length (nodes_ s))%nat ->
  wp t (IsReachableNonConst x y) s (fun r s' => inv s' /\ same_graph s s' /\ (r = true <-> path s x y)).
Proof.
  intros Hi Hx Hy. pose proof Hi as (Hg & Hv & Ht). unfold IsReachableNonConst. destruct (Nat.eqb_spec x y) as [->|Hne].
  { wp_steps. split_and!; [done..|]. split; [|done]. intros _. apply rtc_refl. }
  destruct (lookup_lt_is_Some_2 (nodes_ s) x Hx) as [nx Hnx], (lookup_lt_is_Some_2 (nodes_ s) y Hy) as [ny Hny].
  wp_step. eapply wp_node; [done|]. wp_step. eapply wp_node; [done|].
  rewrite <- (rank_lookup s x nx Hnx), <- (rank_lookup s y ny Hny).
  destruct (Nat.leb_spec (rank_of s y) (rank_of s x)) as [Hle|Hlt].
  { wp_steps. split_and!; [done..|]. split; [done|]. intros Hp. by destruct (no_path_down s y x Ht (not_eq_sym Hne) Hle). }
  wp_step. eapply wp_mono; [by apply (ForwardDFS_spec t s s y x Hg Hg)|].
  cbn beta. intros [ok F] s3 (Hs & Hv3 & Hnd & HF & Hres). cbn [fst snd] in *.
  wp_step. eapply wp_mono; [apply (ClearVisitedBits_spec t F s3 [] Hv3)|].
  - by intros n ?%not_elem_of_nil.
  - intros n Hn. rewrite (same_graph_length _ _ Hs). by apply HF.
  - cbn beta. intros _ s' [Hs' Hv']. wp_steps. assert (same_graph s s') as Hss by (by etrans).
    split_and!; [split_and!; [exact (graph_inv_same _ _ Hss Hg)|done|exact (topological_same _ _ Hss Ht)]|done|].
    destruct ok; cbn; [|done]. destruct Hres as [HyF HFc]. split; [done|]. intros Hp.
    by destruct (forward_no_path s y x F Ht HF HFc x HyF).
Qed.

(** ** Contracting an edge *)

Lemma path_closed s (D : nat -> Prop) x y :
  (forall u v, edge s u v -> D u -> D v) -> D x -> path s x y -> D y.
Proof. intros Hc Hx Hp. revert Hx. induction Hp as [|x z y Hxz _ IH]; [done|]. intros Hx. apply IH. by eapply Hc. Qed.

Lemma path_closed_back s (U : nat -> Prop) x y :
  (forall u v, edge s u v -> U v -> U u) -> U y -> path s x y -> U x.
Proof. intros Hc Hy Hp. induction Hp as [|x z y Hxz _ IH]; [done|]. eapply Hc; [done|auto]. Qed.

(** Edges from [a] to nodes of a set that leads away from [a] are never refused. *)
Lemma insert_from_spec t a l s (D : nat -> Prop) :
  inv s -> allocated s a -> ~ D a -> (forall y, y ∈ l -> D y /\ allocated s y) ->
  (forall u v, edge s u v -> D u -> D v) ->
  wp t (for_each l (fun y => InsertEdge a y;; mret tt)) s (fun _ s' =>
    inv s' /\ same_frame s s' /\ forall u v, edge s' u v <-> edge s u v \/ (u = a /\ v ∈ l)).
Proof.
  revert s. induction l as [|y l IH]; intros s Hi Ha HaD Hl Hc; cbn [for_each].
  { wp_steps. split_and!; [done..|]. intros u v. rewrite elem_of_nil. tauto. }
  destruct (Hl y) as [HyD Hy]; [left|]. wp_step. wp_step.
  eapply wp_mono; [by apply InsertEdge_spec|]. cbn beta. intros r s1 (Hi1 & Hf1 & Hr & Hres).
  assert (r = true) as ->.
  { apply Hr. split; [by intros ->|]. intros Hp. apply HaD. by apply (path_closed s D y a). }
  wp_step. eapply wp_mono; [apply (IH s1 Hi1)|].
  - by apply (same_frame_allocated s s1 a Hf1).
  - done.
  - intros z Hz. destruct (Hl z) as [? ?]; [by right|]. split; [done|]. by apply (same_frame_allocated s s1 z Hf1).
  - intros u v [He|[-> ->]]%Hres; [by apply Hc|]. by intros ?.
  - cbn beta. intros _ s' (Hi' & Hf' & He'). split_and!; [done|by etrans|].
    intros u v. rewrite (He' u v), (Hres u v), elem_of_cons. tauto.
Qed.

(** Edges into [a] from nodes of a set that is not entered from [a] are never refused. *)
Lemma insert_to_spec t a l s (U : nat -> Prop) :
  inv s -> allocated s a -> ~ U a -> (forall x, x ∈ l -> U x /\ allocated s x) ->
  (forall u v, edge s u v -> U v -> U u) ->
  wp t (for_each l (fun y => InsertEdge y a;; mret tt)) s (fun _ s' =>
    inv s' /\ same_frame s s' /\ forall u v, edge s' u v <-> edge s u v \/ (u ∈ l /\ v = a)).
Proof.
  revert s. induction l as [|x l IH]; intros s Hi Ha HaU Hl Hc; cbn [for_each].
  { wp_steps. split_and!; [done..|]. intros u v. rewrite elem_of_nil. tauto. }
  destruct (Hl x) as [HxU Hx]; [left|]. wp_step. wp_step.
  eapply wp_mono; [by apply InsertEdge_spec|]. cbn beta. intros r s1 (Hi1 & Hf1 & Hr & Hres).
  assert (r = true) as ->.
  { apply Hr. split; [by intros ->|]. intros Hp. apply HaU. by apply (path_closed_back s U a x). }
  wp_step. eapply wp_mono; [apply (IH s1 Hi1)|].
  - by apply (same_frame_allocated s s1 a Hf1).
  - done.
  - intros z Hz. destruct (Hl z) as [? ?]; [by right|]. split; [done|]. by apply (same_frame_allocated s s1 z Hf1).
  - intros u v [He|[-> ->]]%Hres; [by apply Hc|]. by intros ?.
  - cbn beta. intros _ s' (Hi' & Hf' & He'). split_and!; [done|by etrans|].
    intros u v. rewrite (He' u v), (Hres u v), elem_of_cons. tauto.
Qed.

(** A prefix of four statements. *)
Lemma wp_seq4 t {A} (m1 m2 m3 m4 : MG unit) (k : MG A) s (Q : A -> Rep -> Prop) :
  wp t (m1;; m2;; m3;; m4) s (fun _ s' => wp t k s' Q) -> wp t (m1;; m2;; m3;; m4;; k) s Q.
Proof.
  unfold wp, mbind, M_bind. destruct (m1 s) as [[[] s1]| |]; [|done..]. destruct (m2 s1) as [[[] s2]| |]; [|done..].
  destruct (m3 s2) as [[[] s3]| |]; [|done..]. by destruct (m4 s3) as [[[] s4]| |].
Qed.

(** The edges of [b] are taken off and [b] is freed. *)
Lemma detach_spec t b nb s :
  inv s -> allocated s b -> nodes_ s !! b = Some nb ->
  wp t (update b (fun nb => set_in OrderedSet.empty (set_out OrderedSet.empty nb));;
        for_each (outs s b) (fun y => in_Erase y b);;
        for_each (ins s b) (fun y => out_Erase y b);;
        push_free b) s (fun _ s' => inv s' /\ map data (nodes_ s') = map data (nodes_ s)
    /\ free_nodes_ s' = free_nodes_ s ++ [b] /\ isolated s s' b).
Proof.
  intros (Hg & Hv & Ht) Hb Hnb. pose proof (edge_irrefl s b Ht) as Hself. wp_step. eapply wp_update; [done|].
  assert (rewired s (mkRep (<[b := set_in OrderedSet.empty (set_out OrderedSet.empty nb)]> (nodes_ s)) (free_nodes_ s))
    (upd (outs s) b []) (upd (ins s) b [])) as Hr1.
  { apply (rewired_set s b nb (set_in OrderedSet.empty (set_out OrderedSet.empty nb)) (g_wf _ Hg) Hnb); try done; apply OrderedSet.wf_empty. }
  set (s1 := mkRep _ _) in *. wp_step.
  eapply wp_mono; [apply in_Erase_all_spec; [exact (r_wf _ _ _ _ Hr1)|apply outs_NoDup; exact (g_wf _ Hg)|]|].
  { intros y Hy. rewrite (r_ins _ _ _ _ Hr1), upd_other; [by apply (g_dual _ Hg)|]. intros ->. done. }
  cbn beta. intros _ s2 (I2 & Hr2 & HI2). wp_step.
  eapply wp_mono; [apply out_Erase_all_spec; [exact (r_wf _ _ _ _ Hr2)|apply ins_NoDup; exact (g_wf _ Hg)|]|].
  { intros y Hy. apply (g_dual _ Hg) in Hy. rewrite (r_outs _ _ _ _ Hr2), (r_outs _ _ _ _ Hr1), upd_other; [done|].
    intros ->. done. }
  cbn beta. intros _ s3 (O3 & Hr3 & HO3). unfold push_free. wp_steps.
  assert (rewired s s3 O3 I2) as Hr.
  { eapply rewired_ext; [eapply rewired_trans; [exact Hr1|eapply rewired_trans; [exact Hr2|exact Hr3]]|done|].
    apply (r_ins _ _ _ _ Hr2). }
  assert (forall u v, v ∈ O3 u <-> edge s u v /\ u <> b /\ v <> b) as HO.
  { intros u v. rewrite HO3, (r_outs _ _ _ _ Hr2), (r_outs _ _ _ _ Hr1), upd_elem, elem_of_nil, <- (g_dual _ Hg). unfold edge.
    destruct (decide (v = b)) as [->|], (decide (u = b)) as [->|]; tauto. }
  assert (forall u v, u ∈ I2 v <-> edge s u v /\ u <> b /\ v <> b) as HI.
  { intros u v. rewrite HI2, (r_ins _ _ _ _ Hr1), upd_elem, elem_of_nil, <- (g_dual _ Hg). unfold edge.
    destruct (decide (v = b)) as [->|], (decide (u = b)) as [->|]; tauto. }
  assert (kept s s3 (fun u v => u <> b /\ v <> b)) as Hk.
  { split; [|apply (rewired_rank _ _ _ _ Hr)]. intros u v. unfold edge at 1. by rewrite (r_outs _ _ _ _ Hr), HO. }
  assert (forall n, (forall w, ~ (edge s n w /\ n <> b /\ w <> b)) -> (forall w, ~ (edge s w n /\ w <> b /\ n <> b)) ->
    O3 n = [] /\ I2 n = []) as Hnil.
  { intros n H1 H2. split; apply nil_of_not_elem; intros w; [rewrite HO; apply H1|rewrite HI; apply H2]. }
  assert (graph_inv s3) as Hg3.
  { apply (rewired_inv _ _ _ _ Hr Hg).
    - intros u v. by rewrite HO, HI.
    - intros z Hz. apply Hnil; intros w [He _]; destruct (edge_allocated _ _ _ Hg He) as [[_ ?] [_ ?]]; done. }
  pose proof (rewired_frame _ _ _ _ Hr) as Hf. split_and!; [|apply Hf|cbn; by rewrite (r_free _ _ _ _ Hr)|exact Hk].
  split_and!; [|by apply (rewired_visited _ _ _ _ Hr)|exact (topological_kept _ _ _ Ht Hk)].
  destruct (Hnil b) as [Eo Ei]; [tauto..|].
  apply (freed_inv s3 b Hg3); [by apply (same_frame_allocated s s3 b Hf)|by rewrite (r_outs _ _ _ _ Hr)|by rewrite (r_ins _ _ _ _ Hr)].
Qed.

(** The other edges out of and into [b] become edges of [a]. *)
Definition contracted (s s' : Rep) (a b : nat) : Prop :=
  forall u v, edge s' u v <->
    (edge s u v /\ u <> b /\ v <> b) \/ (u = a /\ edge s b v) \/ (v = a /\ edge s u b /\ u <> a).

Lemma tc_no_cycle s : topological s -> forall x, ~ tc (edge s) x x.
Proof.
  intros Ht x Hp. assert (forall u v, tc (edge s) u v -> (rank_of s u < rank_of s v)%nat) as H; [|specialize (H x x Hp); lia].
  intros u v H. induction H as [u v He|u v w He _ IH]; specialize (Ht _ _ He); lia.
Qed.

(** [b] can be reached from [a] without the edge from [a] to [b]. *)
Definition other_path (s : Rep) (a b : nat) : Prop :=
  rtc (fun u v => edge s u v /\ ~ (u = a /\ v = b)) a b.

Lemma HasEdge_spec t x y s :
  graph_inv s -> (x < length (nodes_ s))%nat ->
  wp t (HasEdge x y) s (fun r s' => s' = s /\ (r = true <-> edge s x y)).
Proof.
  intros Hg Hx. destruct (lookup_lt_is_Some_2 (nodes_ s) x Hx) as [nx Hnx]. unfold HasEdge. wp_step. eapply wp_node; [done|].
  wp_steps. split; [done|]. rewrite OrderedSet.Contains_spec by (by apply (g_wf _ Hg x)).
  unfold edge. by rewrite (outs_lookup _ _ _ Hnx).
Qed.

(** The edge is removed and the rest of the graph searched. *)
Lemma wp_other_path t {A} a b s (k : bool -> MG A) (Q : A -> Rep -> Prop) :
  inv s -> edge s a b ->
  (forall r s2, inv s2 -> same_frame s s2 -> (r = true <-> other_path s a b) ->
    (forall u v, edge s2 u v <-> edge s u v /\ ~ (u = a /\ v = b)) -> wp t (k r) s2 Q) ->
  wp t (has ← HasEdge a b; CHECK has;; RemoveEdge a b;; reachable ← IsReachableNonConst a b; k reachable) s Q.
Proof.
  intros Hi He Hk. pose proof Hi as (Hg & _). destruct (edge_range s a b Hg He) as [Ha Hb].
  wp_step. eapply wp_mono; [by apply HasEdge_spec|]. cbn beta. intros r s0 [-> Hr]. assert (r = true) as -> by (by apply Hr).
  wp_step. apply wp_CHECK; [done|]. wp_step. eapply wp_mono; [by apply RemoveEdge_spec|].
  cbn beta. intros _ s1 (Hi1 & Hf1 & He1 & _). pose proof (same_frame_length _ _ Hf1) as El.
  wp_step. eapply wp_mono; [apply IsReachableNonConst_spec; [done|lia..]|].
  cbn beta. intros r s2 (Hi2 & Hs2 & Hr2). apply Hk; [done|etrans; [done|by apply same_graph_frame]| |].
  - rewrite Hr2. unfold path, other_path. split; apply rtc_subrel; intros u v; apply He1.
  - intros u v. unfold edge at 1. destruct (same_graph_views s1 s2 u Hs2) as (-> & _). apply He1.
Qed.

(** Putting the edge back. *)
Lemma reinsert_spec t a b s s2 :
  inv s -> edge s a b -> inv s2 -> same_frame s s2 ->
  (forall u v, edge s2 u v <-> edge s u v /\ ~ (u = a /\ v = b)) ->
  wp t (InsertEdge a b) s2 (fun _ s' => inv s' /\ same_frame s s' /\ same_edge_set s s').
Proof.
  intros (Hg & _ & Ht) He Hi2 Hf2 He2. destruct (edge_allocated s a b Hg He) as [Ha Hb].
  eapply wp_mono; [apply InsertEdge_spec; [done|by apply (same_frame_allocated s)..]|].
  cbn beta. intros r s3 (Hi3 & Hf3 & Hr3 & Hres). assert (r = true) as ->.
  { apply Hr3. split; [intros ->; by apply (edge_irrefl s b)|]. intros Hp. apply (no_path_back s a b Ht He).
    revert Hp. apply rtc_subrel. intros u v Huv. by apply He2. }
  split_and!; [done|by etrans|]. intros u v. rewrite (Hres u v), He2.
  destruct (decide (u = a)) as [->|]; [|tauto]. destruct (decide (v = b)) as [->|]; tauto.
Qed.

Lemma CanContractEdge_spec t a b s :
  inv s -> edge s a b ->
  wp t (CanContractEdge a b) s (fun r s' => inv s' /\ same_frame s s' /\ same_edge_set s s'
    /\ (r = true <-> ~ other_path s a b)).
Proof.
  intros Hi He. unfold CanContractEdge. apply wp_other_path; [done..|].
  intros r s2 Hi2 Hf2 Hr He2. wp_step. eapply wp_mono; [by apply (reinsert_spec t a b s s2)|].
  cbn beta. intros _ s3 (Hi3 & Hf3 & Hs3). wp_steps. split_and!; [done..|]. rewrite <- Hr. by destruct r.
Qed.

Lemma ContractEdge_spec t a b s :
  inv s -> edge s a b ->
  wp t (ContractEdge a b) s (fun r s' => inv s' /\ map data (nodes_ s') = map data (nodes_ s)
    /\ (r = false <-> other_path s a b)
    /\ (if r then free_nodes_ s' = free_nodes_ s ++ [b] /\ contracted s s' a b
        else free_nodes_ s' = free_nodes_ s /\ same_edge_set s s')).
Proof.
  intros Hi He. pose proof Hi as (Hg & _ & Ht). destruct (edge_allocated s a b Hg He) as [Ha Hb].
  assert (a <> b) as Hab by (intros ->; by apply (edge_irrefl s b)).
  unfold ContractEdge. apply wp_other_path; [done..|]. intros r s2 Hi2 Hf2 Hr He2. destruct r.
  { wp_step. eapply wp_mono; [by apply (reinsert_spec t a b s s2)|].
    cbn beta. intros _ s3 (Hi3 & [Hd3 Hf3] & Hs3). wp_steps. split_and!; [done..| |done|done]. split; [|done]. intros _. by apply Hr. }
  assert (~ other_path s a b) as Hno by (by rewrite <- Hr).
  pose proof (proj2 (same_frame_allocated s s2 b Hf2) Hb) as Hb2.
  destruct (lookup_lt_is_Some_2 (nodes_ s2) b (proj1 Hb2)) as [nb Hnb]. wp_step. eapply wp_node; [done|].
  rewrite <- (outs_lookup s2 b nb Hnb), <- (ins_lookup s2 b nb Hnb). set (outs2 := outs s2 b). set (ins2 := ins s2 b).
  apply wp_seq4. eapply wp_mono; [by apply (detach_spec t b nb s2)|]. cbn beta. intros _ s3 (Hi3 & Hd3 & Hf3 & He3 & _).
  assert (forall u v, edge s3 u v <-> edge s u v /\ u <> b /\ v <> b) as He3'.
  { intros u v. rewrite He3, He2. tauto. }
  destruct Hf2 as [Hd2 Hfree2]. pose proof Hi2 as (Hg2 & _).
  assert (length (nodes_ s3) = length (nodes_ s)) as El3.
  { pose proof (f_equal length (eq_trans Hd3 Hd2)) as E. by rewrite !length_map in E. }
  assert (forall n, allocated s n -> n <> b -> allocated s3 n) as Hal3.
  { intros n [? ?] ?. unfold allocated. rewrite El3, Hf3, Hfree2, elem_of_app, list_elem_of_singleton. tauto. }
  assert (forall y, y ∈ outs2 <-> edge s b y) as Hout.
  { intros y. change (edge s2 b y <-> edge s b y). rewrite He2. intuition congruence. }
  assert (forall x, x ∈ ins2 <-> edge s x b /\ x <> a) as Hin.
  { intros x. unfold ins2. rewrite <- (g_dual _ Hg2). change (edge s2 x b <-> edge s x b /\ x <> a). rewrite He2. tauto. }
  assert (~ tc (edge s) b b) as Hacyc.
  { intros Hp. apply (tc_no_cycle s Ht b Hp). }
  wp_step. eapply wp_mono; [apply (insert_from_spec t a outs2 s3 (tc (edge s) b) Hi3)|].
  - by apply Hal3.
  - intros Hp. apply Hacyc. by eapply tc_r.
  - intros y Hy%Hout. split; [by apply tc_once|]. apply Hal3; [by destruct (edge_allocated s b y Hg Hy)|]. intros ->. by apply (edge_irrefl s b).
  - intros u v (Huv & _)%He3' Hp. by eapply tc_r.
  - cbn beta. intros _ s4 (Hi4 & Hf4 & He4). wp_step.
    eapply wp_mono; [apply (insert_to_spec t a ins2 s4 (fun n => tc (edge s2) n b) Hi4)|].
    + apply (same_frame_allocated s3 s4 a Hf4). by apply Hal3.
    + intros Hp. apply Hno. apply tc_rtc in Hp. revert Hp. unfold other_path. apply rtc_subrel. intros u v; apply He2.
    + intros x Hx. pose proof Hx as [Hx1 Hx2]%Hin. split.
      * apply tc_once. by apply (g_dual _ Hg2).
      * apply (same_frame_allocated s3 s4 x Hf4). apply Hal3; [by destruct (edge_allocated s x b Hg Hx1)|].
        intros ->. by apply (edge_irrefl s b).
    + intros u v [(Huv & Hu & Hv)%He3'|[-> Hv%Hout]]%He4 Hp.
      * eapply tc_l; [|done]. apply He2. tauto.
      * exfalso. apply Hacyc. eapply tc_l; [done|]. revert Hp. apply tc_congruence with (f := id). intros w z; apply He2.
    + cbn beta. intros _ s5 (Hi5 & Hf5 & He5). wp_steps. split_and!.
      * done.
      * rewrite (proj1 Hf5), (proj1 Hf4). congruence.
      * done.
      * rewrite (proj2 Hf5), (proj2 Hf4). congruence.
      * intros u v. rewrite He5, He4, He3', Hout, Hin. tauto.
Qed.
