(* ===== verification/GraphCyclesPath.v ===== *)
(** * Incremental cycle detection: finding a path

    [FindPath] searches with an explicit stack in which a marker closes the subtree of a
    node.  It finishes, a non-empty result is a walk from the source to the target, and an
    empty result means that there is none. *)

From S2P Require Import Prelude GraphCycles GraphCyclesDFS GraphCyclesInsert.
Import GraphCycles.

Section find_path.
Context (s : Rep) (Hg : graph_inv s) (x y : nat) (Hx : (x < length (nodes_ s))%nat).

(** [n] may come after the walk [p] from [x]. *)
Definition follows (p : list nat) (n : nat) : Prop :=
  match last p with None => n = x | Some m => edge s m n end.

Inductive walk : list nat -> Prop :=
| walk_nil : walk []
| walk_snoc p n : walk p -> follows p n -> walk (p ++ [n]).

(** The stack: for each node of the walk a marker and the neighbours left to visit. *)
Inductive frames : list nat -> list (option nat) -> Prop :=
| frames_start ws : (forall n, n ∈ ws -> n = x) -> frames [] (map Some ws)
| frames_level p st n ws :
    frames p st -> follows p n -> (forall w, w ∈ ws -> edge s n w) -> frames (p ++ [n]) (st ++ None :: map Some ws).

Lemma map_Some_snoc (ws : list nat) stk e :
  map Some ws = stk ++ [e] -> exists ws0 n, ws = ws0 ++ [n] /\ e = Some n /\ stk = map Some ws0.
Proof using Type.
  destruct ws as [|n ws0 _] using rev_ind; [by destruct stk|]. rewrite map_app. cbn.
  intros [<- <-]%app_inj_tail. eauto.
Qed.

Lemma frames_pop p stk e :
  frames p (stk ++ [e]) ->
  match e with
  | Some n => follows p n /\ frames p stk
  | None => exists p0 n, p = p0 ++ [n] /\ frames p0 stk
  end.
Proof using Type.
  intros H. inversion H as [ws Hws Ep Es|p0 st n ws Hf Hfo Hws Ep Es].
  - apply map_Some_snoc in Es as (ws0 & n & -> & -> & ->). split; [apply Hws; elem|].
    constructor. intros; apply Hws; elem.
  - destruct ws as [|w ws0 _] using rev_ind.
    + apply app_inj_tail in Es as [-> <-]. eauto.
    + rewrite map_app in Es. cbn in Es. rewrite app_comm_cons, app_assoc in Es. apply app_inj_tail in Es as [<- <-]. split.
      * unfold follows. rewrite last_snoc. apply Hws. elem.
      * constructor; [done..|]. intros; apply Hws; elem.
Qed.

Lemma frames_walk p st : frames p st -> walk p.
Proof using Type. induction 1; by constructor. Qed.

(** ** Progress of the search *)

Definition universe : gset nat := set_seq 0 (length (nodes_ s)).
Definition unseen (seen : gset nat) : nat := size (universe ∖ seen).
Definition weight (e : option nat) : nat := match e with Some _ => 2%nat | None => 1%nat end.
Definition work (seen : gset nat) (stack : list (option nat)) : nat := (sum_list_with weight stack + 2 * unseen seen)%nat.

Lemma unseen_add w seen : (w < length (nodes_ s))%nat -> w ∉ seen -> unseen seen = S (unseen ({[w]} ∪ seen)).
Proof using Type.
  clear Hg Hx x y. intros Hw Hn. unfold unseen. replace (universe ∖ seen) with ({[w]} ∪ (universe ∖ ({[w]} ∪ seen))).
  - rewrite size_union, size_singleton; [lia|]. set_solver.
  - assert (w ∈ universe) by (unfold universe; apply elem_of_set_seq; lia). apply set_eq. intros z.
    destruct (decide (z = w)) as [->|]; set_solver.
Qed.

Lemma FindPath_push_spec ws seen stack seen' stack' :
  FindPath_push ws seen stack = (seen', stack') -> (forall w, w ∈ ws -> (w < length (nodes_ s))%nat) ->
  exists new, stack' = stack ++ map Some new /\ (forall w, w ∈ new -> w ∈ ws)
    /\ (forall w, w ∈ seen' <-> w ∈ seen \/ w ∈ new) /\ (forall w, w ∈ ws -> w ∈ seen')
    /\ (unseen seen = unseen seen' + length new)%nat.
Proof using Type.
  clear Hg Hx x y. revert seen stack. induction ws as [|w ws IH]; intros seen stack; cbn [FindPath_push].
  { intros [= <- <-] _. exists []. rewrite app_nil_r. split_and!; [done|by intros ? ?%not_elem_of_nil| |by intros ? ?%not_elem_of_nil|cbn; lia].
    intros w. rewrite elem_of_nil. tauto. }
  intros E Hws. case_bool_decide as Hw.
  - destruct (IH _ _ E) as (new & -> & Hn & Hs & Hc & Hu); [intros; apply Hws; by right|].
    exists new. split_and!; [done|intros; right; auto|done| |done].
    intros z [->|Hz]%elem_of_cons; [apply Hs; by left|by apply Hc].
  - destruct (IH _ _ E) as (new & -> & Hn & Hs & Hc & Hu); [intros; apply Hws; by right|].
    exists (w :: new). rewrite <- app_assoc. split_and!; [done| | | |].
    + intros z [->|Hz]%elem_of_cons; [left|right; auto].
    + intros z. rewrite Hs, elem_of_cons, elem_of_union, elem_of_singleton. tauto.
    + intros z [->|Hz]%elem_of_cons; [apply Hs; left; set_solver|by apply Hc].
    + rewrite (unseen_add w seen), Hu; [cbn; lia|apply Hws; left|done].
Qed.

Lemma work_push seen seen' stk new n :
  unseen seen = (unseen seen' + length new)%nat ->
  (S (work seen' ((stk ++ [None]) ++ map Some new)) = work seen (stk ++ [Some n]))%nat.
Proof using Type.
  clear Hg Hx x y. intros Hu. unfold work. rewrite !sum_list_with_app. cbn. assert (sum_list_with weight (map Some new) = 2 * length new)%nat as ->.
  { clear. induction new as [|a l IH]; cbn in *; lia. }
  rewrite Hu. lia.
Qed.

Lemma work_pop seen stk : (S (work seen stk) = work seen (stk ++ [None]))%nat.
Proof using Type. clear Hg Hx. unfold work. rewrite sum_list_with_app. cbn. lia. Qed.

(** ** The search *)

Record find_inv (p : list nat) (seen : gset nat) (stack : list (option nat)) (visited : list nat) : Prop := {
  f_frames : frames p stack;
  f_range : forall n, Some n ∈ stack -> (n < length (nodes_ s))%nat;
  f_closed : forall n w, n ∈ visited -> edge s n w -> w ∈ seen;
  f_seen : forall n, n ∈ seen -> n ∈ visited \/ Some n ∈ stack;
  f_start : x ∈ visited \/ Some x ∈ stack;
  f_target : y ∉ visited
}.

Lemma find_inv_pop p n seen stk visited :
  find_inv (p ++ [n]) seen (stk ++ [None]) visited -> find_inv p seen stk visited.
Proof using Type.
  intros [Hf Hr Hc Hs Hst Ht]. assert (forall m, Some m ∈ stk ++ [None] -> Some m ∈ stk) as Hel.
  { intros m [?|Hm]%elem_of_app; [done|]. by apply list_elem_of_singleton in Hm. }
  constructor; [|intros; apply Hr; elem|done| | |done].
  - destruct (frames_pop _ _ _ Hf) as (p0 & n0 & [-> ->]%app_inj_tail & ?). done.
  - intros m Hm. destruct (Hs m Hm); [by left|right; auto].
  - destruct Hst; [by left|right; auto].
Qed.

Lemma find_inv_push p n seen stk visited seen' new :
  find_inv p seen (stk ++ [Some n]) visited -> n <> y -> (forall w, w ∈ new -> w ∈ outs s n) ->
  (forall w, w ∈ seen' <-> w ∈ seen \/ w ∈ new) -> (forall w, w ∈ outs s n -> w ∈ seen') ->
  find_inv (p ++ [n]) seen' ((stk ++ [None]) ++ map Some new) (n :: visited).
Proof using Hg Hx.
  intros [Hf Hr Hc Hs Hst Ht] Hne Hnew Hsn Hall. destruct (frames_pop _ _ _ Hf) as [Hfo Hf'].
  assert (forall m, Some m ∈ stk ++ [Some n] -> m = n \/ Some m ∈ (stk ++ [None]) ++ map Some new) as Hel.
  { intros m [Hm|Hm]%elem_of_app; [right; elem|]. apply list_elem_of_singleton in Hm as [= <-]. by left. }
  constructor.
  - rewrite <- app_assoc. cbn. by constructor.
  - intros m Hm. rewrite !elem_of_app in Hm. destruct Hm as [[Hm|Hm]|Hm]; [apply Hr; elem|by apply list_elem_of_singleton in Hm|].
    apply list_elem_of_fmap in Hm as (z & [= ->] & Hz). by destruct (edge_range s n z Hg (Hnew z Hz)).
  - intros m w Hm Hw. apply elem_of_cons in Hm as [->|Hm]; [by apply Hall|]. apply Hsn. left. by eapply Hc.
  - intros m [Hm|Hm]%Hsn.
    + destruct (Hs m Hm) as [?|[->|?]%Hel]; [left; by right|left; left|by right].
    + right. rewrite elem_of_app. right. by apply list_elem_of_fmap_2.
  - destruct Hst as [?|[->|?]%Hel]; [left; by right|left; left|by right].
  - rewrite not_elem_of_cons. split; congruence.
Qed.

(** The search ran dry: everything reachable was visited. *)
Lemma find_inv_done p seen visited : find_inv p seen [] visited -> ~ path s x y.
Proof using Type.
  intros [_ _ Hc Hs Hst Ht] Hp. apply Ht. destruct Hst as [Hst|?%not_elem_of_nil]; [|done].
  revert Hst. clear -Hc Hs Hp. induction Hp as [n|n w z He _ IH]; [done|]. intros Hn.
  apply IH. destruct (Hs w) as [?|?%not_elem_of_nil]; [|done|done]. by eapply Hc.
Qed.

Definition found (p : list nat) : Prop :=
  (p = [] /\ ~ path s x y) \/ (walk p /\ last p = Some y).

(** ** The array of the caller *)

Context (M : nat).

(** The array holds the first [M] nodes of the path. *)
Definition stored (arr p : list nat) : Prop := (M <= length arr)%nat /\ take (min (length p) M) arr = take M p.

Lemma store_path_run arr p n (k : list nat -> MG (nat * list nat)) t (Q : nat * list nat -> Rep -> Prop) :
  stored arr p -> (forall arr', length arr' = length arr -> stored arr' (p ++ [n]) -> wp t (k arr') s Q) ->
  wp t (arr ← (if (length p <? M)%nat then of_option (store_path (length p) n arr) else mret arr); k arr) s Q.
Proof using Type.
  clear Hg Hx x y. intros [Hl Hs] Hk. wp_step. destruct (Nat.ltb_spec (length p) M) as [Hp|Hp].
  - eapply wp_of_option; [unfold store_path; by rewrite (proj2 (Nat.ltb_lt _ _)) by lia|]. apply Hk; [apply length_insert|]. split; [by rewrite length_insert|].
    rewrite length_app, (Nat.min_l (length p + _)) by (cbn; lia). cbn [length]. rewrite Nat.add_1_r, (take_ge (p ++ [n])) by (rewrite length_app; cbn; lia).
    rewrite (take_S_r _ _ n) by (apply list_lookup_insert_eq; lia). rewrite take_insert_ge by done. f_equal. by rewrite (Nat.min_l (length p)), (take_ge p) in Hs by lia.
  - wp_steps. apply Hk; [done|]. split; [done|]. rewrite length_app, (Nat.min_r (length p + _)) by (cbn; lia). rewrite (Nat.min_r (length p)) in Hs by lia. by rewrite take_app_le.
Qed.

Lemma stored_pop arr p n : stored arr (p ++ [n]) -> stored arr p.
Proof using Type.
  clear Hg Hx x y. intros [Hl Hs]. split; [done|]. apply (f_equal (take (length p))) in Hs. rewrite !take_take, length_app in Hs. cbn [length] in Hs.
  replace (min (length p) (min (length p + 1) M)) with (min (length p) M) in Hs by lia. rewrite Hs. rewrite take_app_le by lia. rewrite Nat.min_comm, <- take_take. by rewrite (take_ge p (length p)).
Qed.

(** The result: the length of a path and the array with its first nodes. *)
Definition reported (arr : list nat) (r : nat * list nat) : Prop :=
  length r.2 = length arr /\ exists p, found p /\ r.1 = length p /\ stored r.2 p.

Lemma FindPath_loop_spec t fuel arr p seen stack visited :
  stored arr p -> find_inv p seen stack visited -> (work seen stack <= fuel)%nat ->
  wp t (FindPath_loop fuel y M (length p) arr seen stack) s (fun r s' => s' = s /\ reported arr r).
Proof using Hg Hx.
  revert arr p seen stack visited. induction fuel as [|f IH]; intros arr p seen stack visited Ha Hi Hw; cbn [FindPath_loop];
    (destruct stack as [|e stk _] using rev_ind;
       [cbn [last]; wp_steps; split; [done|]; split; [done|]; exists []; split; [left; split; [done|]; by eapply find_inv_done|]; split; [done|]; split; [apply Ha|cbn; by rewrite take_nil]|]); rewrite last_snoc.
  { unfold work in Hw. rewrite sum_list_with_app in Hw. destruct e; cbn in Hw; lia. }
  rewrite length_app. cbn [length]. replace (length stk + 1 - 1)%nat with (length stk) by lia. rewrite take_app_length.
  destruct e as [n|].
  - destruct (frames_pop _ _ _ (f_frames _ _ _ _ Hi)) as [Hfo Hf]. apply (store_path_run arr p n _ t _ Ha). intros arr' El Ha'. cbn zeta.
    replace (S (length p)) with (length (p ++ [n])) by (rewrite length_app; cbn; lia). destruct (Nat.eqb_spec n y) as [->|Hne].
    + wp_steps. split; [done|]. split; [done|]. exists (p ++ [y]). split; [|done]. right. split; [|by rewrite last_snoc]. constructor; [by eapply frames_walk|done].
    + destruct (lookup_lt_is_Some_2 (nodes_ s) n) as [nn Hnn]; [apply (f_range _ _ _ _ Hi); elem|].
      wp_step. eapply wp_node; [done|].
      assert (OrderedSet.GetSequence (out nn) = outs s n) as -> by (unfold outs; by rewrite Hnn).
      destruct (FindPath_push (outs s n) seen (stk ++ [None])) as [seen' stack'] eqn:E.
      destruct (FindPath_push_spec _ _ _ _ _ E) as (new & -> & Hn & Hs & Hc & Hu).
      { intros w He. by destruct (edge_range s n w Hg He). }
      eapply wp_mono; [apply (IH arr' _ _ _ (n :: visited)); [done|by apply (find_inv_push p n seen stk visited seen' new)|]|].
      * rewrite <- (work_push seen seen' stk new n Hu) in Hw. lia.
      * cbn beta. unfold reported. by rewrite El.
  - destruct (frames_pop _ _ _ (f_frames _ _ _ _ Hi)) as (p0 & n & -> & Hf).
    rewrite length_app. cbn [length]. replace (length p0 + 1 - 1)%nat with (length p0) by lia.
    apply (IH arr _ _ _ visited); [by eapply stored_pop|by eapply find_inv_pop|]. rewrite <- work_pop in Hw. lia.
Qed.

Lemma FindPath_spec t arr : (M <= length arr)%nat -> wp t (FindPath x y M arr) s (fun r s' => s' = s /\ reported arr r).
Proof using Hg Hx.
  intros Ha. unfold FindPath. wp_steps. apply (FindPath_loop_spec t _ arr [] ∅ [Some x] []).
  - split; [done|cbn; by rewrite take_nil].
  - constructor.
    + apply (frames_start [x]). intros n. by intros ->%list_elem_of_singleton.
    + intros n Hn. apply list_elem_of_singleton in Hn as [= ->]. done.
    + by intros n w ?%not_elem_of_nil.
    + intros n Hn. by apply elem_of_empty in Hn.
    + right. left.
    + apply not_elem_of_nil.
  - unfold work, unseen, universe. cbn. rewrite difference_empty_L, <- list_to_set_seq, size_list_to_set by apply NoDup_seq.
    rewrite length_seq. lia.
Qed.

(** A walk is a path. *)
Lemma walk_path p n : walk (p ++ [n]) -> path s x n.
Proof using Type.
  remember (p ++ [n]) as q eqn:E. intros Hw. revert p n E. induction Hw as [|q m Hw IH Hf]; intros p n E; [by destruct p|].
  apply app_inj_tail in E as [-> ->]. unfold follows in Hf. destruct (last p) as [k|] eqn:El; [|rewrite Hf; apply rtc_refl].
  apply last_Some in El as [p0 ->]. eapply rtc_r; [by apply (IH p0)|done].
Qed.

(** The steps of a walk. *)
Lemma walk_steps p :
  walk p -> (p <> [] -> head p = Some x) /\ (forall i u v, p !! i = Some u -> p !! S i = Some v -> edge s u v).
Proof using Type.
  clear Hg Hx. induction 1 as [|p n Hw [IHh IHs] Hf]; [done|]. split.
  - intros _. destruct p as [|a p]; [|by apply IHh]. cbn in *. unfold follows in Hf. cbn in Hf. by rewrite Hf.
  - intros i u v Hi Hj. apply lookup_lt_Some in Hj as Hlt. rewrite length_app in Hlt. cbn in Hlt.
    rewrite lookup_app_l in Hi by lia. apply lookup_app_Some in Hj as [Hj|[Hle Hj]]; [by eapply IHs|].
    apply list_lookup_singleton_Some in Hj as [Ei <-]. unfold follows in Hf.
    assert (last p = Some u) as El; [|by rewrite El in Hf]. rewrite last_lookup. rewrite <- Hi. f_equal. lia.
Qed.

End find_path.
