(* ===== verification/GraphCyclesTheorems.v ===== *)
(** * Incremental cycle detection: the theorems

    The operations a client may call, the abstract graph they implement, and the statements
    about every state that a sequence of calls can reach. *)

From S2P Require Import Prelude GraphCycles GraphCyclesDFS GraphCyclesInsert GraphCyclesOps GraphCyclesEdit GraphCyclesPath.
Import GraphCycles.

(** ** The client's view *)

Inductive op :=
| OpNewNode
| OpRemoveNode (n : nat)
| OpSetNodeData (n : nat) (d : Z)
| OpGetNodeData (n : nat)
| OpInsertEdge (x y : nat)
| OpRemoveEdge (x y : nat)
| OpHasEdge (x y : nat)
| OpIsReachable (x y : nat)
| OpIsReachableNonConst (x y : nat)
| OpCanContractEdge (a b : nat)
| OpContractEdge (a b : nat).

Inductive result := RUnit | RNode (n : nat) | RData (d : Z) | RBool (b : bool).

Definition run (o : op) : MG result :=
  match o with
  | OpNewNode => n ← NewNode; mret (RNode n)
  | OpRemoveNode n => RemoveNode n;; mret RUnit
  | OpSetNodeData n d => SetNodeData n d;; mret RUnit
  | OpGetNodeData n => d ← GetNodeData n; mret (RData d)
  | OpInsertEdge x y => b ← InsertEdge x y; mret (RBool b)
  | OpRemoveEdge x y => RemoveEdge x y;; mret RUnit
  | OpHasEdge x y => b ← HasEdge x y; mret (RBool b)
  | OpIsReachable x y => b ← IsReachable x y; mret (RBool b)
  | OpIsReachableNonConst x y => b ← IsReachableNonConst x y; mret (RBool b)
  | OpCanContractEdge a b => r ← CanContractEdge a b; mret (RBool r)
  | OpContractEdge a b => r ← ContractEdge a b; mret (RBool r)
  end.

(** The abstract graph. *)
Record agraph := mkGraph {
  a_node : nat -> Prop;
  a_edge : nat -> nat -> Prop;
  a_data : nat -> Z
}.

Definition data_of (s : Rep) (n : nat) : Z := match nodes_ s !! n with Some nn => data nn | None => 0 end.

Definition abs (s : Rep) : agraph := mkGraph (allocated s) (edge s) (data_of s).

(** What a call may assume of its arguments. *)
Definition allowed (g : agraph) (o : op) : Prop :=
  match o with
  | OpNewNode => True
  | OpRemoveNode n | OpSetNodeData n _ | OpGetNodeData n => a_node g n
  | OpInsertEdge x y | OpHasEdge x y | OpIsReachable x y | OpIsReachableNonConst x y => a_node g x /\ a_node g y
  | OpRemoveEdge x y | OpCanContractEdge x y | OpContractEdge x y => a_edge g x y
  end.

Definition same_nodes (g g' : agraph) : Prop := forall n, a_node g' n <-> a_node g n.
Definition same_adges (g g' : agraph) : Prop := forall u v, a_edge g' u v <-> a_edge g u v.
Definition same_data (g g' : agraph) : Prop := forall n, a_node g' n -> a_data g' n = a_data g n.
Definition unchanged (g g' : agraph) : Prop := same_nodes g g' /\ same_adges g g' /\ same_data g g'.

Definition without_edge (g : agraph) (a b u v : nat) : Prop := a_edge g u v /\ ~ (u = a /\ v = b).

(** The specification of the operations. *)
Inductive spec (g g' : agraph) : op -> result -> Prop :=
| spec_new n :
    ~ a_node g n -> (forall m, a_node g' m <-> a_node g m \/ m = n) -> same_adges g g' ->
    a_data g' n = 0 -> (forall m, a_node g m -> a_data g' m = a_data g m) ->
    spec g g' OpNewNode (RNode n)
| spec_remove n :
    (forall m, a_node g' m <-> a_node g m /\ m <> n) ->
    (forall u v, a_edge g' u v <-> a_edge g u v /\ u <> n /\ v <> n) -> same_data g g' ->
    spec g g' (OpRemoveNode n) RUnit
| spec_set_data n d :
    same_nodes g g' -> same_adges g g' -> (forall m, a_data g' m = if decide (m = n) then d else a_data g m) ->
    spec g g' (OpSetNodeData n d) RUnit
| spec_get_data n : unchanged g g' -> spec g g' (OpGetNodeData n) (RData (a_data g n))
| spec_insert x y b :
    same_nodes g g' -> same_data g g' -> (b = true <-> x <> y /\ ~ rtc (a_edge g) y x) ->
    (forall u v, a_edge g' u v <-> a_edge g u v \/ (b = true /\ u = x /\ v = y)) ->
    spec g g' (OpInsertEdge x y) (RBool b)
| spec_remove_edge x y :
    same_nodes g g' -> same_data g g' -> (forall u v, a_edge g' u v <-> without_edge g x y u v) ->
    spec g g' (OpRemoveEdge x y) RUnit
| spec_has_edge x y b :
    unchanged g g' -> (b = true <-> a_edge g x y) -> spec g g' (OpHasEdge x y) (RBool b)
| spec_reachable x y b :
    unchanged g g' -> (b = true <-> rtc (a_edge g) x y) -> spec g g' (OpIsReachable x y) (RBool b)
| spec_reachable_nc x y b :
    unchanged g g' -> (b = true <-> rtc (a_edge g) x y) -> spec g g' (OpIsReachableNonConst x y) (RBool b)
| spec_can_contract x y b :
    unchanged g g' -> (b = true <-> ~ rtc (without_edge g x y) x y) -> spec g g' (OpCanContractEdge x y) (RBool b)
| spec_contract_refused x y :
    unchanged g g' -> rtc (without_edge g x y) x y -> spec g g' (OpContractEdge x y) (RBool false)
| spec_contract x y :
    ~ rtc (without_edge g x y) x y ->
    (forall m, a_node g' m <-> a_node g m /\ m <> y) -> same_data g g' ->
    (forall u v, a_edge g' u v <->
      (a_edge g u v /\ u <> y /\ v <> y) \/ (u = x /\ a_edge g y v) \/ (v = x /\ a_edge g u y /\ u <> x)) ->
    spec g g' (OpContractEdge x y) (RBool true).

(** The states of a graph in use. *)
Inductive reachable : Rep -> Prop :=
| reachable_init : reachable GraphCycles_init
| reachable_step s o r s' : reachable s -> allowed (abs s) o -> run o s = Val (r, s') -> reachable s'.

(** ** Refinement *)

Lemma data_of_map s s' n : map data (nodes_ s') = map data (nodes_ s) -> data_of s' n = data_of s n.
Proof.
  intros E. apply (f_equal (fun l => l !! n)) in E. change (map ?f ?l) with (f <$> l) in E. rewrite !list_lookup_fmap in E.
  unfold data_of. destruct (nodes_ s' !! n), (nodes_ s !! n); cbn in E; congruence.
Qed.

Lemma same_frame_abs s s' : same_frame s s' -> same_nodes (abs s) (abs s') /\ same_data (abs s) (abs s').
Proof.
  intros Hf. split; intros n; [by apply same_frame_allocated|]. intros _. apply data_of_map. apply Hf.
Qed.

Lemma unchanged_abs s s' : same_frame s s' -> same_edge_set s s' -> unchanged (abs s) (abs s').
Proof. intros Hf He. destruct (same_frame_abs s s' Hf). done. Qed.

Lemma unchanged_refl s : unchanged (abs s) (abs s).
Proof. split_and!; by intros ?. Qed.

Lemma freed_abs s s' n :
  map data (nodes_ s') = map data (nodes_ s) -> free_nodes_ s' = free_nodes_ s ++ [n] ->
  (forall m, allocated s' m <-> allocated s m /\ m <> n) /\ same_data (abs s) (abs s').
Proof.
  intros Hd Hf. split; [|intros m _; by apply data_of_map]. intros m.
  pose proof (f_equal length Hd) as El. rewrite !length_map in El.
  unfold allocated. rewrite El, Hf, elem_of_app, list_elem_of_singleton. tauto.
Qed.

Lemma GetNodeData_spec t n s :
  (n < length (nodes_ s))%nat -> wp t (GetNodeData n) s (fun d s' => s' = s /\ d = data_of s n).
Proof.
  intros Hn. destruct (lookup_lt_is_Some_2 _ _ Hn) as [nn E]. unfold GetNodeData. wp_step. eapply wp_node; [done|].
  wp_steps. unfold data_of. by rewrite E.
Qed.

Lemma SetNodeData_spec t n d s :
  inv s -> (n < length (nodes_ s))%nat ->
  wp t (SetNodeData n d) s (fun _ s' => inv s' /\ free_nodes_ s' = free_nodes_ s
    /\ length (nodes_ s') = length (nodes_ s) /\ same_edge_set s s'
    /\ forall m, data_of s' m = if decide (m = n) then d else data_of s m).
Proof.
  intros (Hg & Hv & Ht) Hn. destruct (lookup_lt_is_Some_2 _ _ Hn) as [nn E]. unfold SetNodeData. eapply wp_update; [done|].
  set (s' := mkRep _ _).
  assert (forall m, outs s' m = outs s m /\ ins s' m = ins s m /\ rank_of s' m = rank_of s m) as Hviews.
  { intros m. unfold outs, ins, rank_of. cbn. destruct (decide (m = n)) as [->|]; [|by rewrite list_lookup_insert_ne].
    by rewrite list_lookup_insert_eq, E. }
  assert (length (nodes_ s') = length (nodes_ s)) as El by apply length_insert.
  assert (forall k nk, nodes_ s' !! k = Some nk -> exists nk', nodes_ s !! k = Some nk' /\ in_ nk = in_ nk' /\ out nk = out nk' /\ visited nk = visited nk') as Hl.
  { intros k nk Hk. cbn in Hk. destruct (decide (k = n)) as [->|].
    - rewrite list_lookup_insert_eq in Hk by done. injection Hk as <-. by exists nn.
    - rewrite list_lookup_insert_ne in Hk by done. by exists nk. }
  split_and!; [split_and!|done|done| |].
  - constructor.
    + intros k nk (nk' & Hk & -> & -> & _)%Hl. by apply (g_wf _ Hg k).
    + intros x y. destruct (Hviews x) as (-> & _), (Hviews y) as (_ & -> & _). apply Hg.
    + intros m. rewrite El. destruct (Hviews m) as (_ & _ & ->). apply Hg.
    + intros x y. rewrite El. destruct (Hviews x) as (_ & _ & ->), (Hviews y) as (_ & _ & ->). apply Hg.
    + rewrite El. split; [apply (g_free _ Hg)|]. intros m Hm. destruct (Hviews m) as (-> & -> & _). by apply (g_free _ Hg).
  - intros k nk (nk' & Hk & _ & _ & ->)%Hl. by apply (Hv k).
  - intros x y He. unfold edge in He. destruct (Hviews x) as (E' & _ & ->), (Hviews y) as (_ & _ & ->). rewrite E' in He. by apply Ht.
  - intros u v. unfold edge. by rewrite (proj1 (Hviews u)).
  - intros m. unfold data_of. cbn. destruct (decide (m = n)) as [->|]; [by rewrite list_lookup_insert_eq|by rewrite list_lookup_insert_ne].
Qed.

Lemma IsReachable_spec t x y s :
  inv s -> (x < length (nodes_ s))%nat ->
  wp t (IsReachable x y) s (fun r s' => s' = s /\ (r = true <-> path s x y)).
Proof.
  intros (Hg & _) Hx. unfold IsReachable. wp_step. eapply wp_mono; [by apply (FindPath_spec s Hg x y Hx 0)|].
  cbn beta. intros [len arr] s' (-> & _ & p & Hp & Elen & _). cbn in Elen. subst len. wp_steps. split; [done|]. destruct Hp as [[-> Hn]|[Hw Hl]].
  - cbn. split; [done|tauto].
  - apply last_Some in Hl as [p0 ->]. apply walk_path in Hw. rewrite length_app. cbn.
    split; [done|]. intros _. destruct (length p0); done.
Qed.

(** One call. *)
Lemma run_spec t o s :
  inv s -> allowed (abs s) o -> wp t (run o) s (fun r s' => inv s' /\ spec (abs s) (abs s') o r).
Proof.
  intros Hi Ha. pose proof Hi as (Hg & _). destruct o; cbn [allowed abs a_node a_edge] in Ha; cbn [run]; wp_step.
  - eapply wp_mono; [by apply NewNode_spec|]. cbn beta. intros n s' (Hi' & Hn & Hal & He & (nn & Hnn & Hd) & Hdata).
    wp_steps. split; [done|]. constructor; [done..| |]; cbn; unfold data_of; [by rewrite Hnn|].
    intros m Hm. destruct (lookup_lt_is_Some_2 _ _ (proj1 Hm)) as [nm Em]. rewrite Em.
    destruct (Hdata m nm) as (nm' & -> & ->); [by intros ->|done..].
  - eapply wp_mono; [by apply RemoveNode_spec|]. cbn beta. intros _ s' (Hi' & Hd & Hf & He & _).
    destruct (freed_abs s s' n Hd Hf). wp_steps. split; [done|]. by constructor.
  - eapply wp_mono; [apply SetNodeData_spec; [done|apply Ha]|]. cbn beta. intros _ s' (Hi' & Hf & El & He & Hd).
    wp_steps. split; [done|]. constructor; [|done|done]. intros m. cbn. unfold allocated. by rewrite El, Hf.
  - eapply wp_mono; [apply GetNodeData_spec, Ha|]. cbn beta. intros d s' [-> ->]. wp_steps. split; [done|].
    apply (spec_get_data (abs s) (abs s)). apply unchanged_refl.
  - eapply wp_mono; [apply InsertEdge_spec; [done|apply Ha..]|]. cbn beta. intros r s' (Hi' & Hf & Hr & Hres).
    destruct (same_frame_abs s s' Hf). wp_steps. split; [done|]. constructor; [done..|]. intros u v. cbn. destruct r.
    + rewrite (Hres u v). tauto.
    + unfold edge. destruct (Hres u) as (-> & _). split; [by left|]. intros [?|[? _]]; done.
  - eapply wp_mono; [by apply RemoveEdge_spec|]. cbn beta. intros _ s' (Hi' & Hf & He & _).
    destruct (same_frame_abs s s' Hf). wp_steps. split; [done|]. by constructor.
  - eapply wp_mono; [apply HasEdge_spec; [done|apply Ha]|]. cbn beta. intros r s' [-> Hr]. wp_steps. split; [done|].
    constructor; [apply unchanged_refl|done].
  - eapply wp_mono; [apply IsReachable_spec; [done|apply Ha]|]. cbn beta. intros r s' [-> Hr]. wp_steps. split; [done|].
    constructor; [apply unchanged_refl|done].
  - eapply wp_mono; [apply IsReachableNonConst_spec; [done|apply Ha..]|]. cbn beta. intros r s' (Hi' & Hs & Hr). wp_steps. split; [done|].
    constructor; [|done]. apply unchanged_abs; [by apply same_graph_frame|]. intros u v. unfold edge. by destruct (same_graph_views s s' u Hs) as (-> & _).
  - eapply wp_mono; [by apply CanContractEdge_spec|]. cbn beta. intros r s' (Hi' & Hf & He & Hr). wp_steps. split; [done|].
    constructor; [by apply unchanged_abs|done].
  - eapply wp_mono; [by apply ContractEdge_spec|]. cbn beta. intros r s' (Hi' & Hd & Hr & Hres). wp_steps. split; [done|].
    destruct r, Hres as [Hf He].
    + destruct (freed_abs s s' b Hd Hf). constructor; [intros Ho; by apply Hr in Ho|done..].
    + constructor; [by apply unchanged_abs|]. by apply Hr.
Qed.

Lemma inv_init : inv GraphCycles_init.
Proof.
  split_and!.
  - constructor; cbn; [done| |lia|lia|].
    + intros x y. unfold outs, ins. cbn. by rewrite !elem_of_nil.
    + split; [constructor|]. by intros n ?%not_elem_of_nil.
  - by intros n nn.
  - intros x y He. by apply not_elem_of_nil in He.
Qed.

Lemma graph_reachable_inv s : reachable s -> inv s.
Proof.
  induction 1 as [|s o r s' _ IH Ha Hr]; [apply inv_init|].
  by apply (wp_run true _ _ _ _ _ (run_spec true o s IH Ha)) in Hr as [? _].
Qed.

(** C21: from every state that calls can reach, a call whose arguments name nodes (or, for the
    removal and the contraction of an edge, an edge) of the graph returns, and does to the
    nodes, the edges and the data what the specification of a directed graph without cycles
    says: [InsertEdge] refuses exactly the edges that would close a cycle and otherwise adds
    the edge; [ContractEdge] refuses exactly when another path joins the two nodes and
    otherwise gives the edges of the second node to the first. *)
Theorem graph_cycles_refines o s :
  reachable s -> allowed (abs s) o ->
  exists r s', run o s = Val (r, s') /\ reachable s' /\ spec (abs s) (abs s') o r.
Proof.
  intros Hs Ha. destruct (wp_total _ _ _ (run_spec true o s (graph_reachable_inv s Hs) Ha)) as (r & s' & E & _ & Hspec).
  exists r, s'. split_and!; [done|by eapply reachable_step|done].
Qed.

Lemma rank_map s : NoDup (map rank (nodes_ s)) <->
  forall x y, (x < length (nodes_ s))%nat -> (y < length (nodes_ s))%nat -> rank_of s x = rank_of s y -> x = y.
Proof.
  assert (forall i, map rank (nodes_ s) !! i = (rank <$> nodes_ s !! i)) as Hm
    by (intros i; change (map ?f ?l) with (f <$> l); apply list_lookup_fmap).
  assert (forall i n, nodes_ s !! i = Some n -> rank_of s i = rank n) as Hr by (intros i n E; unfold rank_of; by rewrite E).
  rewrite NoDup_alt. split.
  - intros H x y Hx Hy E. apply lookup_lt_is_Some_2 in Hx as [nx Hx], Hy as [ny Hy]. apply (H x y (rank nx)); rewrite Hm, ?Hx, ?Hy; [done|].
    cbn. rewrite <- (Hr _ _ Hx), <- (Hr _ _ Hy). by rewrite E.
  - intros H i j r Hi Hj. rewrite Hm in Hi, Hj. apply fmap_Some in Hi as (ni & Hi & ->), Hj as (nj & Hj & E).
    apply H; [by eapply lookup_lt_Some..|]. by rewrite (Hr _ _ Hi), (Hr _ _ Hj).
Qed.

(** No sequence of calls leaves a cycle in the graph, and the consistency check
    [CheckInvariants] (no marker left, distinct ranks, ranks increase along every edge) never
    fails. *)
Lemma graph_cycles_acyclic s :
  reachable s -> (forall x, ~ tc (edge s) x x) /\ CheckInvariants s = true.
Proof.
  intros (Hg & Hv & Ht)%graph_reachable_inv. split; [by apply tc_no_cycle|]. unfold CheckInvariants.
  apply andb_true_iff. split; [|by apply bool_decide_eq_true, rank_map, Hg].
  apply forallb_forall. intros nx Hx%list_elem_of_In. apply list_elem_of_lookup_1 in Hx as [x Hx]. apply andb_true_iff. split.
  - destruct (visited nx) eqn:E; [|done]. by apply (Hv x nx Hx), not_elem_of_nil in E.
  - apply forallb_forall. intros y Hy%list_elem_of_In. assert (edge s x y) as He by (unfold edge; by rewrite (outs_lookup _ _ _ Hx)).
    destruct (edge_range s x y Hg He) as [_ Hl]. destruct (lookup_lt_is_Some_2 _ _ Hl) as [ny Hny]. rewrite Hny.
    apply Nat.ltb_lt. rewrite <- (rank_lookup _ _ _ Hx), <- (rank_lookup _ _ _ Hny). by apply Ht.
Qed.

(** [AllNodesInPostOrder] lists every node of the graph once, the targets of its edges
    before the node. *)
Lemma graph_cycles_post_order s :
  reachable s ->
  NoDup (AllNodesInPostOrder s) /\ (forall n, n ∈ AllNodesInPostOrder s <-> allocated s n)
  /\ (forall i j x y, AllNodesInPostOrder s !! i = Some x -> AllNodesInPostOrder s !! j = Some y -> edge s x y -> (j < i)%nat).
Proof.
  intros (Hg & _ & Ht)%graph_reachable_inv. unfold AllNodesInPostOrder. set (l := filter _ _).
  assert (Transitive (rank_ge s)) by (intros a b c; unfold rank_ge; lia).
  assert (Total (rank_ge s)) by (intros a b; unfold rank_ge; lia).
  pose proof (StronglySorted_merge_sort (rank_ge s) l) as Hs. pose proof (merge_sort_Permutation (rank_ge s) l) as Hp.
  split_and!.
  - rewrite Hp. apply NoDup_filter, NoDup_seq.
  - intros n. rewrite Hp. unfold l. rewrite list_elem_of_filter, elem_of_list_to_set, elem_of_seq. unfold allocated. intuition lia.
  - intros i j x y Hi Hj He. specialize (Ht x y He). destruct (Nat.lt_trichotomy i j) as [Hl|[->|?]]; [| |done].
    + pose proof (StronglySorted_lookup_lt _ _ _ _ _ _ Hs Hi Hj Hl) as Hge. unfold rank_ge in Hge. lia.
    + assert (x = y) as -> by congruence. lia.
Qed.

(** [FindPath] returns the length of a path and stores its first [max] nodes in the array; the
    path, when it is not empty, starts at the first node, follows edges and ends at the second,
    and it is empty only if there is no path. *)
Lemma find_path_correct x y max arr s :
  reachable s -> allocated s x -> (max <= length arr)%nat ->
  exists p arr', FindPath x y max arr s = Val ((length p, arr'), s)
    /\ length arr' = length arr /\ take (min (length p) max) arr' = take max p
    /\ (p = [] -> ~ rtc (edge s) x y)
    /\ (p <> [] -> head p = Some x /\ last p = Some y
          /\ forall i u v, p !! i = Some u -> p !! S i = Some v -> edge s u v).
Proof.
  intros (Hg & _)%graph_reachable_inv [Hx _] Hm. destruct (wp_total _ _ _ (FindPath_spec s Hg x y Hx max true arr Hm)) as ([len arr'] & s' & E & -> & Hl' & p & Hp & Elen & _ & Hst).
  cbn [fst snd] in *. subst len. exists p, arr'. split; [done|]. split; [done|]. split; [done|]. destruct Hp as [[-> Hn]|[Hw Hl]]; [done|]. split; [intros ->; done|]. intros _.
  pose proof (walk_steps s x p Hw) as [Hh Hs]. split_and!; [apply Hh; by intros ->|done|done].
Qed.

(** C22: no sequence of calls leaves a cycle in the graph, and the consistency check
    [CheckInvariants] (no marker left, distinct ranks, ranks increase along every edge) never
    fails.  [AllNodesInPostOrder] lists every node of the graph once, the targets of its edges before
    the node.  [FindPath], with an array of at least [max] entries, returns the length of a path
    and puts its first [max] nodes into the array; the path, when it is not empty, starts at the
    first node, follows edges and ends at the second, and it is empty only if there is no path. *)
Theorem graph_cycles_acyclic_orders_and_paths :
  (forall s,
  reachable s ->
  (forall x, ~ tc (edge s) x x) /\ CheckInvariants s = true
  /\ NoDup (AllNodesInPostOrder s) /\ (forall n, n ∈ AllNodesInPostOrder s <-> allocated s n)
  /\ (forall i j x y, AllNodesInPostOrder s !! i = Some x -> AllNodesInPostOrder s !! j = Some y -> edge s x y -> (j < i)%nat))
  /\ (forall x y max arr s,
  reachable s -> allocated s x -> (max <= length arr)%nat ->
  exists p arr', FindPath x y max arr s = Val ((length p, arr'), s)
    /\ length arr' = length arr /\ take (min (length p) max) arr' = take max p
    /\ (p = [] -> ~ rtc (edge s) x y)
    /\ (p <> [] -> head p = Some x /\ last p = Some y
          /\ forall i u v, p !! i = Some u -> p !! S i = Some v -> edge s u v)).
Proof. split; [|exact find_path_correct]. intros s Hs. destruct (graph_cycles_acyclic s Hs). destruct (graph_cycles_post_order s Hs) as (? & ? & ?). by split_and!. Qed.

(** ** A concrete graph: 2 -> 0 -> 1, built so that the second edge reorders the ranks *)

Fixpoint run_all (os : list op) : MG unit :=
  match os with [] => mret tt | o :: os => run o;; run_all os end.

#[export] Instance allowed_dec s o : Decision (allowed (abs s) o).
Proof. destruct o; cbn; unfold allocated, edge; apply _. Defined.

Fixpoint all_allowed (os : list op) (s : Rep) : bool :=
  match os with
  | [] => true
  | o :: os => bool_decide (allowed (abs s) o) && match run o s with Val (_, s') => all_allowed os s' | _ => false end
  end.

Lemma run_all_reachable os s s' : reachable s -> all_allowed os s = true -> run_all os s = Val (tt, s') -> reachable s'.
Proof.
  revert s. induction os as [|o os IH]; intros s Hs; cbn [all_allowed run_all].
  { intros _ [= <-]. done. }
  intros [Ha%bool_decide_eq_true Ho]%andb_true_iff E. unfold mbind, M_bind in E. destruct (run o s) as [[r s1]| |] eqn:Er; [|done..].
  apply (IH s1); [by eapply reachable_step|done|done].
Qed.

Definition demo_ops : list op := [OpNewNode; OpNewNode; OpNewNode; OpInsertEdge 0 1; OpInsertEdge 2 0].
Definition demo : Rep := match run_all demo_ops GraphCycles_init with Val (_, s) => s | _ => GraphCycles_init end.

Lemma demo_reachable : reachable demo.
Proof. apply (run_all_reachable demo_ops GraphCycles_init); [constructor|vm_compute; reflexivity|vm_compute; reflexivity]. Qed.

Lemma graph_cycles_refines_witness :
  exists r s', run (OpInsertEdge 1 2) demo = Val (r, s') /\ reachable s' /\ spec (abs demo) (abs s') (OpInsertEdge 1 2) r.
Proof.
  apply (graph_cycles_refines (OpInsertEdge 1 2) demo); [apply demo_reachable|].
  apply (bool_decide_eq_true _). vm_compute. reflexivity.
Defined.


Lemma graph_cycles_acyclic_orders_and_paths_witness :
  (AllNodesInPostOrder demo = [1; 0; 2]%nat /\ NoDup (AllNodesInPostOrder demo))
  /\ (FindPath 2 1 2 [7; 7; 7]%nat demo = Val ((3, [2; 0; 7])%nat, demo) /\ exists (p : list nat) arr', FindPath 2 1 2 [7; 7; 7]%nat demo = Val ((length p, arr'), demo)
    /\ (p = [] -> ~ rtc (edge demo) 2%nat 1%nat)).
Proof.
  split.
  { split; [vm_compute; reflexivity|]. apply ((proj1 graph_cycles_acyclic_orders_and_paths) demo). apply demo_reachable. }
  { split; [vm_compute; reflexivity|]. destruct ((proj2 graph_cycles_acyclic_orders_and_paths) 2%nat 1%nat 2%nat [7; 7; 7]%nat demo) as (p & arr' & E & _ & _ & H & _).
  - apply demo_reachable.
  - vm_compute. split; [lia|]. intros H. inversion H.
  - cbn. lia.
  - exists p, arr'. split; [exact E|exact H]. }
Defined.
