(* ===== verification/BCast.v ===== *)
(** * Broadcasting of binary operations

    [core/util/bcast.cc]: from the shapes of two operands, the reshapes and broadcasts that
    implement numpy's rule with as few dimensions as possible.  A dimension is an [int64],
    held as a [Z] and multiplied modulo 2^64; [None] is an access to the last element of
    an empty vector. *)

From S2P Require Import Prelude.

Module BCast.

(** ** The constructor *)

Inductive State := UNKNOWN | SAME | X_ONE | Y_ONE.
#[export] Instance State_eq_dec : EqDecision State.
Proof. solve_decision. Defined.

Record BCast := mkBCast {
  valid_ : bool;
  x_reshape_ : list Z;
  x_bcast_ : list Z;
  y_reshape_ : list Z;
  y_bcast_ : list Z;
  result_ : list Z;
  output_ : list Z;
  grad_x_reduce_idx_ : list Z;
  grad_y_reduce_idx_ : list Z
}.

Definition init : BCast := mkBCast true [] [] [] [] [] [] [] [].

Definition mul64 (a b : Z) : Z := i64 (a * b).

(** [v.back() *= d] *)
Definition mul_back (v : list Z) (d : Z) : option (list Z) :=
  b ← last v; Some (take (length v - 1) v ++ [mul64 b d]).

(** [v.resize(n, 1)] for [n] at least the size of [v]. *)
Definition resize1 (v : list Z) (n : nat) : list Z := v ++ replicate (n - length v) 1.

(** The [i]-th dimensions compared: the state, the output and the two broadcasts. *)
Definition compare (x_i y_i : Z) : option (State * Z * Z * Z) :=
  if x_i =? y_i then Some (SAME, x_i, 1, 1)
  else if x_i =? 1 then Some (X_ONE, y_i, y_i, 1)
  else if y_i =? 1 then Some (Y_ONE, x_i, 1, x_i)
  else None.

Definition set_invalid (b : BCast) : BCast :=
  mkBCast false (x_reshape_ b) (x_bcast_ b) (y_reshape_ b) (y_bcast_ b) (result_ b) (output_ b)
    (grad_x_reduce_idx_ b) (grad_y_reduce_idx_ b).

Definition push_output (o_i : Z) (gx gy : list Z) (b : BCast) : BCast :=
  mkBCast (valid_ b) (x_reshape_ b) (x_bcast_ b) (y_reshape_ b) (y_bcast_ b) (result_ b) (output_ b ++ [o_i])
    (grad_x_reduce_idx_ b ++ gx) (grad_y_reduce_idx_ b ++ gy).

Definition push_dims (o_i x_i bx_i y_i by_i : Z) (b : BCast) : BCast :=
  mkBCast (valid_ b) (x_reshape_ b ++ [x_i]) (x_bcast_ b ++ [bx_i]) (y_reshape_ b ++ [y_i]) (y_bcast_ b ++ [by_i])
    (result_ b ++ [o_i]) (output_ b) (grad_x_reduce_idx_ b) (grad_y_reduce_idx_ b).

Definition merge_dims (o_i x_i bx_i y_i by_i : Z) (b : BCast) : option BCast :=
  result ← mul_back (result_ b) o_i;
  x_reshape ← mul_back (x_reshape_ b) x_i;
  x_bcast ← mul_back (x_bcast_ b) bx_i;
  y_reshape ← mul_back (y_reshape_ b) y_i;
  y_bcast ← mul_back (y_bcast_ b) by_i;
  Some (mkBCast (valid_ b) x_reshape x_bcast y_reshape y_bcast result (output_ b)
          (grad_x_reduce_idx_ b) (grad_y_reduce_idx_ b)).

(** The loop over the aligned dimensions, inner-most first; [i] counts from 0. *)
Fixpoint BCast_loop (fewer_dims_optimization : bool) (n i : Z) (prev : State) (x y : list Z) (b : BCast) : option BCast :=
  match x, y with
  | x_i :: x, y_i :: y =>
      match compare x_i y_i with
      | None => Some (set_invalid b)
      | Some (curr, o_i, bx_i, by_i) =>
          let one := bool_decide (curr = SAME) && (x_i =? 1) in
          let gx := if bool_decide (curr = X_ONE) || one then [n - 1 - i] else [] in
          let gy := if bool_decide (curr = Y_ONE) || one then [n - 1 - i] else [] in
          let b := push_output o_i gx gy b in
          if one then
            BCast_loop fewer_dims_optimization n (i + 1) prev x y
              (if fewer_dims_optimization then b else push_dims o_i x_i bx_i y_i by_i b)
          else if fewer_dims_optimization && bool_decide (prev = curr) then
            b ← merge_dims o_i x_i bx_i y_i by_i b;
            BCast_loop fewer_dims_optimization n (i + 1) curr x y b
          else
            BCast_loop fewer_dims_optimization n (i + 1) curr x y (push_dims o_i x_i bx_i y_i by_i b)
      end
  | _, _ => Some b
  end.

Definition Reverse (b : BCast) : BCast :=
  mkBCast (valid_ b) (reverse (x_reshape_ b)) (reverse (x_bcast_ b)) (reverse (y_reshape_ b)) (reverse (y_bcast_ b))
    (reverse (result_ b)) (reverse (output_ b)) (reverse (grad_x_reduce_idx_ b)) (reverse (grad_y_reduce_idx_ b)).

Definition new (sx sy : list Z) (fewer_dims_optimization : bool) : option BCast :=
  if bool_decide (sx = sy) && fewer_dims_optimization then
    let elements := foldl mul64 1 sx in
    Some (mkBCast true [elements] [1] [elements] [1] [elements] sx [] [])
  else
    let x := reverse sx in
    let y := reverse sy in
    let '(x, y) := if (length y <? length x)%nat then (x, resize1 y (length x)) else (resize1 x (length y), y) in
    b ← BCast_loop fewer_dims_optimization (Z.of_nat (length x)) 0 UNKNOWN x y init;
    if valid_ b then
      Some (Reverse (if (length (result_ b) =? 0)%nat then push_dims 1 1 1 1 1 b else b))
    else Some b.

(** ** The rule

    The shapes aligned at their inner-most dimension and extended with ones. *)
Definition aligned (s t : list Z) : list Z := resize1 (reverse s) (length t).

Definition compatible (x y : Z) : Prop := x = y \/ x = 1 \/ y = 1.
Definition bdim (x y : Z) : Z := if x =? 1 then y else x.

(** Row-major position, in an operand of dimensions [xs], of the element that the rule puts at
    position [k] of an output of dimensions [os] (inner-most first): a coordinate along a
    dimension of size 1 is 0. *)
Fixpoint numpy_index (xs os : list Z) (k : Z) : Z :=
  match xs, os with
  | x :: xs, o :: os => (if x =? 1 then 0 else k mod o) + x * numpy_index xs os (k / o)
  | _, _ => 0
  end.

(** Position in a tensor reshaped to [rs] of the element at position [k] of that tensor
    broadcast [bs] times along its dimensions (outer-most first). *)
Fixpoint src (rs bs : list Z) (k : Z) : Z :=
  match rs, bs with
  | r :: rs, b :: bs => (k mod (r * b)) mod r + r * src rs bs (k / (r * b))
  | _, _ => 0
  end.
Definition broadcast_index (reshape bcast : list Z) (k : Z) : Z := src (reverse reshape) (reverse bcast) k.

Definition prod (l : list Z) : Z := foldr Z.mul 1 l.

(** ** One operand

    [side rs bs res xs cs]: the dimensions [rs], broadcast [bs] times to [res], address the
    operand of dimensions [xs] broadcast [cs] times. *)

Definition positive (l : list Z) : Prop := Forall (fun d => 0 < d) l.

Record side (rs bs res xs cs : list Z) : Prop := {
  s_len : length rs = length bs;
  s_len' : length xs = length cs;
  s_res : res = zip_with Z.mul rs bs;
  s_prod : prod rs = prod xs /\ prod res = prod (zip_with Z.mul xs cs);
  s_pos : positive xs -> positive cs -> positive rs /\ positive bs;
  s_src : positive xs -> positive cs -> forall k, 0 <= k -> src rs bs k = src xs cs k
}.

Lemma prod_app l1 l2 : prod (l1 ++ l2) = prod l1 * prod l2.
Proof. unfold prod. induction l1 as [|x l IH]; cbn; [lia|]. rewrite IH. lia. Qed.

Lemma prod_snoc l x : prod (l ++ [x]) = prod l * x.
Proof. rewrite prod_app. unfold prod. cbn. lia. Qed.

Lemma prod_positive l : positive l -> 0 < prod l.
Proof. unfold prod. induction 1 as [|x l Hx _ IH]; cbn; [lia|]. nia. Qed.

Lemma zip_snoc (rs bs : list Z) r b :
  length rs = length bs -> zip_with Z.mul (rs ++ [r]) (bs ++ [b]) = zip_with Z.mul rs bs ++ [r * b].
Proof. intros E. by rewrite zip_with_app. Qed.

Lemma positive_snoc l x : positive (l ++ [x]) <-> positive l /\ 0 < x.
Proof. unfold positive. rewrite Forall_app, Forall_singleton. done. Qed.

Lemma positive_zip rs bs : positive rs -> positive bs -> positive (zip_with Z.mul rs bs).
Proof.
  intros Hr. revert bs. induction Hr as [|r rs Hr _ IH]; intros bs Hb; [constructor|].
  destruct Hb as [|b bs Hb Hbs]; [constructor|]. constructor; [nia|by apply IH].
Qed.

(** The outer-most dimension. *)
Lemma src_snoc rs bs r b k :
  length rs = length bs -> positive rs -> positive bs -> 0 < r -> 0 < b -> 0 <= k ->
  src (rs ++ [r]) (bs ++ [b]) k
  = src rs bs k + prod rs * (((k / prod (zip_with Z.mul rs bs)) mod (r * b)) mod r).
Proof.
  intros Hlen Hr. revert bs k Hlen. induction Hr as [|r0 rs Hr0 Hr IH]; intros [|b0 bs] k Hlen Hb Hrp Hbp Hk; try done.
  - cbn [src app zip_with]. unfold prod. cbn [foldr]. rewrite Z.div_1_r. lia.
  - apply Forall_cons in Hb as [Hb0 Hb]. injection Hlen as Hlen. cbn [src app zip_with].
    rewrite IH by (try done; apply Z.div_pos; nia). change (prod (?a :: ?l)) with (a * prod l).
    rewrite Z.div_div; [lia|nia|]. apply prod_positive. by apply positive_zip.
Qed.

Lemma side_nil : side [] [] [] [] [].
Proof. by constructor. Qed.

Lemma side_push rs bs res xs cs r b :
  side rs bs res xs cs -> side (rs ++ [r]) (bs ++ [b]) (res ++ [r * b]) (xs ++ [r]) (cs ++ [b]).
Proof.
  intros [Hl Hl' -> [Hp Hp'] Hpos Hs]. constructor.
  - rewrite !length_app. cbn. lia.
  - rewrite !length_app. cbn. lia.
  - by rewrite zip_snoc.
  - rewrite !zip_snoc, !prod_snoc by done. split; congruence.
  - rewrite !positive_snoc. intros [? ?] [? ?]. destruct Hpos; done.
  - rewrite !positive_snoc. intros [Hx Hr] [Hc Hb] k Hk. destruct (Hpos Hx Hc) as [? ?].
    rewrite !src_snoc by done. by rewrite Hs, Hp, Hp'.
Qed.

(** A dimension of size 1 on both sides is dropped. *)
Lemma side_skip rs bs res xs cs : side rs bs res xs cs -> side rs bs res (xs ++ [1]) (cs ++ [1]).
Proof.
  intros [Hl Hl' -> [Hp Hp'] Hpos Hs]. constructor; [done| |done| | |].
  - rewrite !length_app. cbn. lia.
  - rewrite zip_snoc, !prod_snoc by done. lia.
  - rewrite !positive_snoc. intros [? _] [? _]. by apply Hpos.
  - rewrite !positive_snoc. intros [? _] [? _] k Hk. rewrite src_snoc by (try done; lia). rewrite Hs by done.
    rewrite Z.mod_1_r. lia.
Qed.

(** Two adjacent dimensions of the same kind are one dimension. *)
Definition mergeable (r1 b1 r b : Z) : Prop := (b1 = 1 /\ b = 1) \/ (r1 = 1 /\ r = 1).

Lemma merge_index r1 b1 r b q :
  0 < r1 -> 0 < b1 -> 0 < r -> 0 < b -> mergeable r1 b1 r b ->
  (q mod (r1 * r * (b1 * b))) mod (r1 * r)
  = (q mod (r1 * b1)) mod r1 + r1 * (((q / (r1 * b1)) mod (r * b)) mod r).
Proof.
  intros Hr1 Hb1 Hr Hb [[-> ->]|[-> ->]].
  - rewrite !Z.mul_1_r, !Z.mod_mod by lia. apply Z.rem_mul_r; lia.
  - rewrite !Z.mul_1_l, !Z.mod_1_r. lia.
Qed.

Lemma side_merge lr lb lres r1 b1 res1 xs cs r b :
  side (lr ++ [r1]) (lb ++ [b1]) (lres ++ [res1]) xs cs -> mergeable r1 b1 r b ->
  res1 = r1 * b1 /\ side (lr ++ [r1 * r]) (lb ++ [b1 * b]) (lres ++ [res1 * (r * b)]) (xs ++ [r]) (cs ++ [b]).
Proof.
  intros [Hl Hl' Hres [Hp Hp'] Hpos Hs] Hm. rewrite !length_app in Hl. cbn in Hl.
  assert (length lr = length lb) as Hll by lia. rewrite zip_snoc in Hres by done. apply app_inj_tail in Hres as [-> ->].
  split; [done|]. rewrite !prod_snoc in Hp, Hp'. constructor.
  - rewrite !length_app. cbn. lia.
  - rewrite !length_app. cbn. lia.
  - rewrite zip_snoc by done. f_equal. f_equal. lia.
  - rewrite zip_snoc, !prod_snoc by done. split; [rewrite <- Hp|rewrite <- Hp']; lia.
  - rewrite !positive_snoc. intros [? ?] [? ?]. destruct Hpos as [HA HB]; [done..|]. rewrite positive_snoc in HA, HB.
    destruct HA, HB. split_and!; [done|nia|done|nia].
  - rewrite !positive_snoc. intros [Hx Hr] [Hc Hb] k Hk. destruct (Hpos Hx Hc) as [HA HB].
    rewrite positive_snoc in HA, HB. destruct HA as [HA Hr1], HB as [HB Hb1]. pose proof (Hs Hx Hc k Hk) as Hk'.
    rewrite (src_snoc xs cs), <- Hk', !src_snoc by (try done; nia).
    rewrite <- Hp, <- Hp'. set (D := prod (zip_with Z.mul lr lb)).
    assert (0 < D) by (apply prod_positive; by apply positive_zip).
    rewrite (merge_index r1 b1 r b) by done.
    assert (k / (D * (r1 * b1)) = k / D / (r1 * b1)) as -> by (rewrite Z.div_div; [done|lia|nia]). lia.
Qed.

(** ** The loop *)

(** How often [x] is repeated to meet [y]. *)
Definition times (x y : Z) : Z := if x =? y then 1 else if x =? 1 then y else 1.

(** What the state says of the last dimensions. *)
Definition last_ok (st : State) (rx bx ry by_ : Z) : Prop :=
  match st with
  | UNKNOWN => True
  | SAME => bx = 1 /\ by_ = 1
  | X_ONE => rx = 1 /\ by_ = 1
  | Y_ONE => bx = 1 /\ ry = 1
  end.

Lemma compare_spec x y :
  match compare x y with
  | None => ~ compatible x y
  | Some (curr, o, bx, by_) =>
      compatible x y /\ curr <> UNKNOWN /\ o = bdim x y /\ bx = times x y /\ by_ = times y x
      /\ o = x * bx /\ o = y * by_ /\ last_ok curr x bx y by_
      /\ (bool_decide (curr = X_ONE) || (bool_decide (curr = SAME) && (x =? 1)) = (x =? 1))
      /\ (bool_decide (curr = Y_ONE) || (bool_decide (curr = SAME) && (x =? 1)) = (y =? 1))
  end.
Proof.
  unfold compare, compatible, bdim, times. destruct (Z.eqb_spec x y) as [->|Hne].
  { cbn. rewrite Z.eqb_refl. split_and!; try done; try lia. by destruct (y =? 1). }
  destruct (Z.eqb_spec y x) as [|_]; [congruence|].
  destruct (Z.eqb_spec x 1) as [->|H1]; cbn;
    destruct (Z.eqb_spec y 1) as [->|H2]; cbn; [done| | |lia]; split_and!; try done; try lia; auto.
Qed.

(** The axes where the dimension is 1, from the last to the first. *)
Fixpoint ones (n i : Z) (l : list Z) : list Z :=
  match l with [] => [] | x :: l => (if x =? 1 then [n - 1 - i] else []) ++ ones n (i + 1) l end.

Lemma ones_snoc n i l x :
  ones n i (l ++ [x]) = ones n i l ++ (if x =? 1 then [n - 1 - (i + Z.of_nat (length l))] else []).
Proof.
  revert i. induction l as [|y l IH]; intros i; cbn [ones app length].
  - rewrite app_nil_r, Z.add_0_r. done.
  - rewrite IH, <- app_assoc. by replace (i + 1 + Z.of_nat (length l)) with (i + Z.of_nat (S (length l))) by lia.
Qed.

(** Bound on products of dimensions. *)
Definition pmax (l : list Z) : Z := prod (map (Z.max 1) l).

Lemma pmax_snoc l x : pmax (l ++ [x]) = pmax l * Z.max 1 x.
Proof. unfold pmax. rewrite map_app. cbn. apply prod_snoc. Qed.

Lemma pmax_pos l : 1 <= pmax l.
Proof.
  unfold pmax. induction l as [|x l IH]; [cbn; lia|]. cbn [map]. change (prod (?a :: ?l)) with (a * prod l).
  pose proof (Z.le_max_l 1 x) as H. revert H. generalize (Z.max 1 x). intros m Hm. nia.
Qed.

Lemma pmax_app l1 l2 : pmax l1 <= pmax (l1 ++ l2).
Proof. unfold pmax. rewrite map_app, prod_app. pose proof (pmax_pos l1). pose proof (pmax_pos l2). unfold pmax in *. nia. Qed.

Record loop_inv (fewer : bool) (n : Z) (xs ys : list Z) (prev : State) (b : BCast) : Prop := {
  i_valid : valid_ b = true;
  i_output : output_ b = zip_with bdim xs ys;
  i_x : side (x_reshape_ b) (x_bcast_ b) (result_ b) xs (zip_with times xs ys);
  i_y : side (y_reshape_ b) (y_bcast_ b) (result_ b) ys (zip_with times ys xs);
  i_gx : grad_x_reduce_idx_ b = ones n 0 xs;
  i_gy : grad_y_reduce_idx_ b = ones n 0 ys;
  i_last : fewer = true -> prev <> UNKNOWN -> exists lrx lbx lry lby lres rx bx ry by_ res,
    x_reshape_ b = lrx ++ [rx] /\ x_bcast_ b = lbx ++ [bx] /\ y_reshape_ b = lry ++ [ry] /\ y_bcast_ b = lby ++ [by_]
    /\ result_ b = lres ++ [res] /\ last_ok prev rx bx ry by_
    /\ 0 <= rx <= pmax xs /\ 0 <= bx <= pmax ys /\ 0 <= ry <= pmax ys /\ 0 <= by_ <= pmax xs
}.

Lemma mul_back_snoc l b d : mul_back (l ++ [b]) d = Some (l ++ [mul64 b d]).
Proof.
  unfold mul_back. rewrite last_snoc. cbn. rewrite length_app. cbn. replace (length l + 1 - 1)%nat with (length l) by lia.
  by rewrite take_app_length.
Qed.

Lemma mul64_small a b : 0 <= a * b < 2 ^ 63 -> mul64 a b = a * b.
Proof. intros. unfold mul64. apply i64_small. lia. Qed.

(** The dimensions are within the bounds. *)
Lemma times_bounds x y : 0 <= x -> 0 <= y -> 0 <= times x y <= Z.max 1 y.
Proof. intros. unfold times. destruct (x =? y), (x =? 1); lia. Qed.

(** The zip of the pairs seen so far. *)
Lemma times_snoc xs ys x y :
  length xs = length ys -> zip_with times (xs ++ [x]) (ys ++ [y]) = zip_with times xs ys ++ [times x y].
Proof. intros. by rewrite zip_with_app. Qed.

(** The shapes after [push_output]. *)
Lemma push_output_inv fewer n xs ys prev b x y curr o bx by_ :
  length xs = length ys -> loop_inv fewer n xs ys prev b -> compare x y = Some (curr, o, bx, by_) ->
  let one := bool_decide (curr = SAME) && (x =? 1) in
  let b' := push_output o (if bool_decide (curr = X_ONE) || one then [n - 1 - Z.of_nat (length xs)] else [])
                          (if bool_decide (curr = Y_ONE) || one then [n - 1 - Z.of_nat (length xs)] else []) b in
  valid_ b' = true /\ output_ b' = zip_with bdim (xs ++ [x]) (ys ++ [y])
  /\ grad_x_reduce_idx_ b' = ones n 0 (xs ++ [x]) /\ grad_y_reduce_idx_ b' = ones n 0 (ys ++ [y]).
Proof.
  intros Hlen Hi E one b'. pose proof (compare_spec x y) as Hc. rewrite E in Hc.
  destruct Hc as (_ & _ & -> & _ & _ & _ & _ & _ & Hgx & Hgy). subst one b'. cbn [push_output valid_ output_ grad_x_reduce_idx_ grad_y_reduce_idx_].
  rewrite Hgx, Hgy, !ones_snoc, <- Hlen, Z.add_0_l. rewrite zip_with_app by done. split_and!.
  - apply (i_valid _ _ _ _ _ _ Hi).
  - by rewrite (i_output _ _ _ _ _ _ Hi).
  - by rewrite (i_gx _ _ _ _ _ _ Hi).
  - by rewrite (i_gy _ _ _ _ _ _ Hi).
Qed.

Section step.
Context (fewer : bool) (n : Z) (xs ys : list Z) (prev : State) (b b' : BCast) (x y : Z) (curr : State) (o bx by_ : Z).
Context (Hlen : length xs = length ys) (Hi : loop_inv fewer n xs ys prev b) (Hx : 0 <= x) (Hy : 0 <= y).
Context (E : compare x y = Some (curr, o, bx, by_)).
Context (gx gy : list Z) (Hb' : b' = push_output o gx gy b).
Context (Hout : valid_ b' = true /\ output_ b' = zip_with bdim (xs ++ [x]) (ys ++ [y])
  /\ grad_x_reduce_idx_ b' = ones n 0 (xs ++ [x]) /\ grad_y_reduce_idx_ b' = ones n 0 (ys ++ [y])).

Lemma compared : o = x * bx /\ o = y * by_ /\ bx = times x y /\ by_ = times y x /\ last_ok curr x bx y by_ /\ curr <> UNKNOWN.
Proof using E. clear -E. pose proof (compare_spec x y) as H. rewrite E in H. tauto. Qed.

Lemma bx_bounds : 0 <= bx <= Z.max 1 y /\ 0 <= by_ <= Z.max 1 x.
Proof using E Hx Hy. destruct compared as (_ & _ & -> & -> & _). split; by apply times_bounds. Qed.

Lemma pmax_ge l d : 0 <= d -> d <= pmax (l ++ [d]).
Proof using Type. clear. intros. rewrite pmax_snoc. pose proof (pmax_pos l). pose proof (Z.le_max_r 1 d). nia. Qed.

Lemma pmax_ge_max l d k : 0 <= d -> d <= Z.max 1 k -> d <= pmax (l ++ [k]).
Proof using Type. clear. intros. rewrite pmax_snoc. pose proof (pmax_pos l). pose proof (Z.le_max_l 1 k). nia. Qed.

Lemma step_push st : st = curr \/ fewer = false -> loop_inv fewer n (xs ++ [x]) (ys ++ [y]) st (push_dims o x bx y by_ b').
Proof using All.
  intros Hst. destruct compared as (Ex & Ey & Etx & Ety & Hlast & Hunk), bx_bounds as [Hbx Hby], Hout as (Hv & Ho & Hgx & Hgy).
  pose proof (i_x _ _ _ _ _ _ Hi) as Hsx. pose proof (i_y _ _ _ _ _ _ Hi) as Hsy.
  constructor; subst b'; cbn [push_dims push_output valid_ output_ x_reshape_ x_bcast_ y_reshape_ y_bcast_ result_ grad_x_reduce_idx_ grad_y_reduce_idx_] in *.
  - done.
  - done.
  - rewrite times_snoc, Ex, Etx by done. by apply side_push.
  - rewrite times_snoc, Ey, Ety by done. by apply side_push.
  - done.
  - done.
  - intros Hf _. destruct Hst as [->|]; [|congruence].
    exists (x_reshape_ b), (x_bcast_ b), (y_reshape_ b), (y_bcast_ b), (result_ b), x, bx, y, by_, o.
    pose proof (pmax_ge xs x Hx). pose proof (pmax_ge ys y Hy).
    pose proof (pmax_ge_max ys bx y). pose proof (pmax_ge_max xs by_ x). split_and!; try done; lia.
Qed.

Lemma step_skip : x = 1 -> y = 1 -> loop_inv fewer n (xs ++ [x]) (ys ++ [y]) prev b'.
Proof using All.
  intros Ex1 Ey1. destruct Hout as (Hv & Ho & Hgx & Hgy).
  pose proof (i_x _ _ _ _ _ _ Hi) as Hsx. pose proof (i_y _ _ _ _ _ _ Hi) as Hsy.
  constructor; subst b'; cbn [push_output valid_ output_ x_reshape_ x_bcast_ y_reshape_ y_bcast_ result_ grad_x_reduce_idx_ grad_y_reduce_idx_] in *.
  - done.
  - done.
  - rewrite times_snoc, Ex1, Ey1 by done. by apply side_skip.
  - rewrite times_snoc, Ex1, Ey1 by done. by apply side_skip.
  - done.
  - done.
  - intros Hf Hp. destruct (i_last _ _ _ _ _ _ Hi Hf Hp) as (lrx & lbx & lry & lby & lres & rx & bx1 & ry & by1 & res & H).
    exists lrx, lbx, lry, lby, lres, rx, bx1, ry, by1, res.
    pose proof (pmax_app xs [x]). pose proof (pmax_app ys [y]). destruct H as (? & ? & ? & ? & ? & ? & ? & ? & ? & ?).
    split_and!; try done; lia.
Qed.

Lemma pmax_mul l d r k : 0 <= r <= pmax l -> 0 <= d <= Z.max 1 k -> 0 <= r * d <= pmax (l ++ [k]).
Proof using Type. clear. intros Hr Hd. rewrite pmax_snoc. pose proof (pmax_pos l). pose proof (Z.le_max_l 1 k). nia. Qed.

Lemma step_merge :
  fewer = true -> prev = curr -> pmax (xs ++ [x]) < 2 ^ 63 -> pmax (ys ++ [y]) < 2 ^ 63 ->
  exists b2, merge_dims o x bx y by_ b' = Some b2 /\ loop_inv fewer n (xs ++ [x]) (ys ++ [y]) curr b2.
Proof using All.
  intros Hf Hprev Hmx Hmy. destruct compared as (Ex & Ey & Etx & Ety & Hlast & Hunk), bx_bounds as [Hbx Hby], Hout as (Hv & Ho & Hgx & Hgy).
  destruct (i_last _ _ _ _ _ _ Hi Hf) as (lrx & lbx & lry & lby & lres & rx & bx1 & ry & by1 & res & E1 & E2 & E3 & E4 & E5 & Hok & Brx & Bbx & Bry & Bby); [by rewrite Hprev|].
  pose proof (i_x _ _ _ _ _ _ Hi) as Hsx. pose proof (i_y _ _ _ _ _ _ Hi) as Hsy. rewrite Hprev in Hok.
  rewrite E1, E2, E5 in Hsx. rewrite E3, E4, E5 in Hsy.
  assert (mergeable rx bx1 x bx /\ mergeable ry by1 y by_) as [Hmgx Hmgy].
  { unfold mergeable. destruct curr; cbn in Hok, Hlast; [done|tauto..]. }
  destruct (side_merge _ _ _ _ _ _ _ _ x bx Hsx Hmgx) as [Er1 Hsx'], (side_merge _ _ _ _ _ _ _ _ y by_ Hsy Hmgy) as [Er2 Hsy'].
  pose proof (pmax_mul xs x rx x Brx ltac:(lia)) as P1. pose proof (pmax_mul ys bx bx1 y Bbx Hbx) as P2.
  pose proof (pmax_mul ys y ry y Bry ltac:(lia)) as P3. pose proof (pmax_mul xs by_ by1 x Bby Hby) as P4.
  assert (0 <= res * o < 2 ^ 63) as P5.
  { rewrite Er1, Ex. destruct Hmgx as [[-> ->]|[-> ->]]; lia. }
  subst b'. unfold merge_dims. cbn [push_output result_ x_reshape_ x_bcast_ y_reshape_ y_bcast_ valid_ output_ grad_x_reduce_idx_ grad_y_reduce_idx_] in *.
  rewrite E1, E2, E3, E4, E5, !mul_back_snoc. cbn [mbind option_bind].
  rewrite !mul64_small by lia. eexists. split; [done|].
  constructor; cbn [valid_ output_ x_reshape_ x_bcast_ y_reshape_ y_bcast_ result_ grad_x_reduce_idx_ grad_y_reduce_idx_].
  - done.
  - done.
  - rewrite times_snoc, <- Etx by done. by rewrite Ex.
  - rewrite times_snoc, <- Ety by done. by rewrite Ey.
  - done.
  - done.
  - intros _ _. exists lrx, lbx, lry, lby, lres, (rx * x), (bx1 * bx), (ry * y), (by1 * by_), (res * o).
    split_and!; try done; try lia. destruct curr; cbn in *; lia.
Qed.

End step.

(** The loop from any point on. *)
Lemma BCast_loop_spec fewer n xs ys prev x y b :
  length xs = length ys -> length x = length y -> loop_inv fewer n xs ys prev b ->
  Forall (fun d => 0 <= d) x -> Forall (fun d => 0 <= d) y ->
  pmax (xs ++ x) < 2 ^ 63 -> pmax (ys ++ y) < 2 ^ 63 ->
  exists b', BCast_loop fewer n (Z.of_nat (length xs)) prev x y b = Some b' /\
    ((Forall2 compatible x y /\ exists prev', loop_inv fewer n (xs ++ x) (ys ++ y) prev' b')
     \/ (~ Forall2 compatible x y /\ valid_ b' = false)).
Proof.
  revert xs ys prev y b. induction x as [|x_i x IH]; intros xs ys prev [|y_i y] b Hl Hl' Hi Hx Hy Hbx Hby; try done; cbn [BCast_loop].
  { exists b. split; [done|]. left. rewrite !app_nil_r. eauto. }
  apply Forall_cons in Hx as [Hxi Hx], Hy as [Hyi Hy]. injection Hl' as Hl'.
  destruct (compare x_i y_i) as [[[[curr o] bx] by_]|] eqn:E.
  2: { exists (set_invalid b). split; [done|]. right. split; [|done]. intros HF. apply Forall2_cons in HF as [Hc _].
       pose proof (compare_spec x_i y_i) as Hn. by rewrite E in Hn. }
  assert (compatible x_i y_i) as Hc by (pose proof (compare_spec x_i y_i) as Hn; rewrite E in Hn; apply Hn).
  pose proof (push_output_inv fewer n xs ys prev b x_i y_i curr o bx by_ Hl Hi E) as Hout. cbn zeta in Hout |- *.
  set (b1 := push_output _ _ _ b) in *.
  assert (forall st b2, loop_inv fewer n (xs ++ [x_i]) (ys ++ [y_i]) st b2 ->
    exists b', BCast_loop fewer n (Z.of_nat (length xs) + 1) st x y b2 = Some b' /\
    ((Forall2 compatible (x_i :: x) (y_i :: y) /\ exists prev', loop_inv fewer n (xs ++ x_i :: x) (ys ++ y_i :: y) prev' b')
     \/ (~ Forall2 compatible (x_i :: x) (y_i :: y) /\ valid_ b' = false))) as Hgo.
  { intros st b2 Hi2. destruct (IH (xs ++ [x_i]) (ys ++ [y_i]) st y b2) as (b' & E' & H'); rewrite ?length_app, <- ?app_assoc; try done.
    { cbn. lia. }
    exists b'. rewrite length_app in E'. cbn [length] in E'. rewrite <- !app_assoc in H'. split; [by rewrite <- E'; f_equal; lia|].
    destruct H' as [[HF Hex]|[HF Hv]]; [left|right]; split; try done; [by constructor|]. by intros [_ ?]%Forall2_cons. }
  assert (pmax (xs ++ [x_i]) < 2 ^ 63) as Hb1.
  { eapply Z.le_lt_trans; [|exact Hbx]. change (x_i :: x) with ([x_i] ++ x). rewrite app_assoc. apply pmax_app. }
  assert (pmax (ys ++ [y_i]) < 2 ^ 63) as Hb2.
  { eapply Z.le_lt_trans; [|exact Hby]. change (y_i :: y) with ([y_i] ++ y). rewrite app_assoc. apply pmax_app. }
  destruct (bool_decide (curr = SAME) && (x_i =? 1)) eqn:E1.
  - apply andb_true_iff in E1 as [Es%bool_decide_eq_true ->%Z.eqb_eq]. destruct fewer.
    + apply Hgo. eapply (step_skip true n xs ys prev b b1); try done. subst curr. unfold compare in E.
      destruct (Z.eqb_spec 1 y_i); [done|]. cbn in E. done.
    + apply Hgo. eapply (step_push false n xs ys prev b b1); try done. by right.
  - destruct (fewer && bool_decide (prev = curr)) eqn:E2.
    + apply andb_true_iff in E2 as [Ef Ep%bool_decide_eq_true].
      destruct (step_merge fewer n xs ys prev b b1 x_i y_i curr o bx by_ Hl Hi Hxi Hyi E _ _ eq_refl Hout Ef Ep Hb1 Hb2) as (b2 & -> & Hi2).
      by apply Hgo.
    + apply Hgo. eapply (step_push fewer n xs ys prev b b1); try done. by left.
Qed.

(** ** The finished object *)

Lemma length_resize1 v n : length (resize1 v n) = Nat.max (length v) n.
Proof. unfold resize1. rewrite length_app, length_replicate. lia. Qed.

Lemma resize1_id v n : (n <= length v)%nat -> resize1 v n = v.
Proof. intros. unfold resize1. replace (n - length v)%nat with 0%nat by lia. apply app_nil_r. Qed.

Lemma aligned_length sx sy : length (aligned sx sy) = length (aligned sy sx).
Proof. unfold aligned. rewrite !length_resize1, !length_reverse. lia. Qed.

Lemma pmax_reverse l : pmax (reverse l) = pmax l.
Proof.
  induction l as [|x l IH]; [done|]. rewrite reverse_cons, pmax_snoc, IH. unfold pmax. cbn [map].
  change (prod (?a :: ?l)) with (a * prod l). lia.
Qed.

Lemma pmax_resize1 l n : pmax (resize1 l n) = pmax l.
Proof.
  unfold resize1. generalize (n - length l)%nat. intros k. induction k as [|k IH]; cbn [replicate]; [by rewrite app_nil_r|].
  change (1 :: replicate k 1) with (replicate (S k) 1). rewrite replicate_S_end, app_assoc, pmax_snoc, IH. cbn. lia.
Qed.

Lemma pmax_aligned sx sy : pmax (aligned sx sy) = pmax sx.
Proof. unfold aligned. by rewrite pmax_resize1, pmax_reverse. Qed.

Lemma aligned_dims (P : Z -> Prop) sx sy : P 1 -> Forall P sx -> Forall P (aligned sx sy).
Proof. intros H1 Hs. unfold aligned, resize1. apply Forall_app. split; [by apply Forall_reverse|by apply Forall_replicate]. Qed.

Lemma init_inv fewer n : loop_inv fewer n [] [] UNKNOWN init.
Proof. constructor; try done; apply side_nil. Qed.

Definition dims_ok (s : list Z) : Prop := Forall (fun d => 0 <= d) s /\ pmax s < 2 ^ 63.

(** The shape of the slow path before the vectors are reversed. *)
Lemma new_slow sx sy fewer :
  dims_ok sx -> dims_ok sy -> bool_decide (sx = sy) && fewer = false ->
  exists b, (Forall2 compatible (aligned sx sy) (aligned sy sx)
             /\ new sx sy fewer = Some (Reverse (if (length (result_ b) =? 0)%nat then push_dims 1 1 1 1 1 b else b))
             /\ exists prev, loop_inv fewer (Z.of_nat (length (aligned sx sy))) (aligned sx sy) (aligned sy sx) prev b)
            \/ (~ Forall2 compatible (aligned sx sy) (aligned sy sx) /\ new sx sy fewer = Some b /\ valid_ b = false).
Proof.
  intros [Hx Hpx] [Hy Hpy] Ef. unfold new. rewrite Ef.
  assert ((if (length (reverse sy) <? length (reverse sx))%nat
           then (reverse sx, resize1 (reverse sy) (length (reverse sx)))
           else (resize1 (reverse sx) (length (reverse sy)), reverse sy)) = (aligned sx sy, aligned sy sx)) as ->.
  { unfold aligned. rewrite !length_reverse. destruct (Nat.ltb_spec (length sy) (length sx)).
    - rewrite (resize1_id (reverse sx)) by (rewrite length_reverse; lia). done.
    - rewrite (resize1_id (reverse sy)) by (rewrite length_reverse; lia). done. }
  destruct (BCast_loop_spec fewer (Z.of_nat (length (aligned sx sy))) [] [] UNKNOWN (aligned sx sy) (aligned sy sx) init)
    as (b & E & H); try done.
  - apply aligned_length.
  - by apply aligned_dims; [lia|].
  - by apply aligned_dims; [lia|].
  - by rewrite app_nil_l, pmax_aligned.
  - by rewrite app_nil_l, pmax_aligned.
  - cbn [length app] in E, H. change (Z.of_nat 0) with 0 in E. rewrite E. cbn [mbind option_bind]. exists b.
    destruct H as [[HF [prev Hi]]|[HF Hv]]; [left|right].
    + rewrite (i_valid _ _ _ _ _ _ Hi). eauto.
    + by rewrite Hv.
Qed.

Lemma bdim_same l : zip_with bdim l l = l.
Proof. induction l as [|x l IH]; [done|]. cbn. rewrite IH. f_equal. unfold bdim. by destruct (x =? 1). Qed.

Lemma aligned_same s : aligned s s = reverse s.
Proof. apply resize1_id. by rewrite length_reverse. Qed.

Lemma compatible_refl l : Forall2 compatible l l.
Proof. induction l; constructor; [by left|done]. Qed.

Lemma foldl_elements l a : 0 <= a -> Forall (fun d => 0 <= d) l -> a * pmax l < 2 ^ 63 -> foldl mul64 a l = a * prod l.
Proof.
  revert a. induction l as [|x l IH]; intros a Ha Hl Hp; cbn [foldl]; [unfold prod; cbn; lia|].
  apply Forall_cons in Hl as [Hx Hl]. unfold pmax in Hp. cbn [map] in Hp. change (prod (?b :: ?l)) with (b * prod l) in *.
  fold (pmax l) in Hp. pose proof (pmax_pos l). pose proof (Z.le_max_l 1 x). pose proof (Z.le_max_r 1 x). revert Hp.
  generalize dependent (Z.max 1 x). intros m Hm1 Hm2 Hp.
  assert (0 <= a * x <= a * m) by nia. assert (a * m <= a * m * pmax l) by nia.
  rewrite mul64_small by lia. rewrite IH; [lia|lia|done|]. nia.
Qed.

(** ** Indices *)

Lemma src_numpy xs ys k :
  Forall2 compatible xs ys -> positive xs -> positive ys -> src xs (zip_with times xs ys) k = numpy_index xs (zip_with bdim xs ys) k.
Proof.
  intros HF. revert k. induction HF as [|x y xs ys Hc HF IH]; intros k Hx Hy; [done|]. cbn.
  apply Forall_cons in Hx as [Hx Hxs], Hy as [Hy Hys]. assert (x * times x y = bdim x y) as E.
  { unfold times, bdim. destruct (Z.eqb_spec x y), (Z.eqb_spec x 1); destruct Hc as [?|[?|?]]; lia. }
  rewrite E, IH by done. f_equal. unfold bdim. destruct (Z.eqb_spec x 1) as [->|]; [apply Z.mod_1_r|]. apply Z.mod_mod. lia.
Qed.

Lemma numpy_same xs k : positive xs -> numpy_index xs xs k = k mod prod xs.
Proof.
  intros Hx. revert k. induction Hx as [|x xs Hx Hxs IH]; intros k; cbn [numpy_index].
  { unfold prod. cbn. by rewrite Z.mod_1_r. }
  change (prod (x :: xs)) with (x * prod xs). rewrite IH, Z.rem_mul_r; [|lia|by apply prod_positive].
  destruct (Z.eqb_spec x 1) as [->|]; [|done]. by rewrite Z.mod_1_r.
Qed.

Lemma times_positive xs ys : positive xs -> positive ys -> positive (zip_with times xs ys).
Proof.
  intros Hx. revert ys. induction Hx as [|x xs Hx _ IH]; intros ys Hy; [constructor|].
  destruct Hy as [|y ys Hy Hys]; [constructor|]. constructor; [|by apply IH]. unfold times. destruct (x =? y), (x =? 1); lia.
Qed.

Lemma prod_reverse l : prod (reverse l) = prod l.
Proof. induction l as [|x l IH]; [done|]. rewrite reverse_cons, prod_snoc, IH. change (prod (x :: l)) with (x * prod l). lia. Qed.

Lemma zip_reverse (f : Z -> Z -> Z) l1 l2 : length l1 = length l2 -> zip_with f (reverse l1) (reverse l2) = reverse (zip_with f l1 l2).
Proof.
  revert l2. induction l1 as [|x l1 IH]; intros [|y l2] H; try done. injection H as H. cbn [zip_with].
  rewrite !reverse_cons, zip_with_app by (by rewrite !length_reverse). by rewrite IH.
Qed.

Lemma prod_resize1 l n : prod (resize1 l n) = prod l.
Proof.
  unfold resize1. generalize (n - length l)%nat. intros k. induction k as [|k IH]; cbn [replicate]; [by rewrite app_nil_r|].
  change (1 :: replicate k 1) with (replicate (S k) 1). rewrite replicate_S_end, app_assoc, prod_snoc, IH. lia.
Qed.

(** An output that is not empty has no empty dimension. *)
Lemma output_positive xs ys :
  Forall2 compatible xs ys -> Forall (fun d => 0 <= d) xs -> Forall (fun d => 0 <= d) ys -> 0 < prod (zip_with bdim xs ys) ->
  positive xs /\ positive ys.
Proof.
  induction 1 as [|x y xs ys Hc _ IH]; intros Hx Hy Hp; [split; constructor|]. apply Forall_cons in Hx as [Hx Hxs], Hy as [Hy Hys].
  cbn [zip_with] in Hp. change (prod (?b :: ?l)) with (b * prod l) in Hp.
  assert (0 <= prod (zip_with bdim xs ys)) as H0.
  { clear -Hxs Hys. revert ys Hys. induction Hxs as [|x xs Hx Hxs IH]; intros ys Hys; [by unfold prod; cbn|].
    destruct Hys as [|y ys Hy Hys]; [by unfold prod; cbn|]. cbn [zip_with]. change (prod (?b :: ?l)) with (b * prod l).
    specialize (IH ys Hys). apply Z.mul_nonneg_nonneg; [|done]. unfold bdim. destruct (x =? 1); lia. }
  assert (0 < bdim x y) as Hb by (assert (0 <= bdim x y) by (unfold bdim; destruct (x =? 1); lia); nia).
  destruct IH as [IHx IHy]; [done|done|nia|]. unfold bdim in Hb. split; constructor; try done.
  - destruct (Z.eqb_spec x 1); lia.
  - destruct (Z.eqb_spec x 1); [lia|]. destruct Hc as [?|[?|?]]; lia.
Qed.

(** What one operand may rely on: the reshape is one of its shape, the two vectors give the
    intermediate result, which has the elements of the output, and the element found at a
    position is the one the rule puts there. *)
Definition addresses (reshape bcast result shape aligned_shape output : list Z) : Prop :=
  prod reshape = prod shape /\ result = zip_with Z.mul reshape bcast /\ prod result = prod output
  /\ forall k, 0 <= k < prod output -> broadcast_index reshape bcast k = numpy_index aligned_shape (reverse output) k.

Lemma side_addresses rs bs res shape xs ys :
  side rs bs res xs (zip_with times xs ys) -> Forall2 compatible xs ys -> prod xs = prod shape ->
  Forall (fun d => 0 <= d) xs -> Forall (fun d => 0 <= d) ys ->
  addresses (reverse rs) (reverse bs) (reverse res) shape xs (reverse (zip_with bdim xs ys)).
Proof.
  intros [Hl Hl' Hres [Hp Hp'] _ Hs] HF Eshape Hx Hy. unfold addresses. split_and!.
  - by rewrite prod_reverse, Hp.
  - by rewrite zip_reverse, Hres.
  - rewrite !prod_reverse, Hp'. f_equal. clear -HF. induction HF as [|x y xs ys Hc _ IH]; [done|]. cbn. rewrite IH. f_equal.
    unfold times, bdim. destruct (Z.eqb_spec x y), (Z.eqb_spec x 1); destruct Hc as [?|[?|?]]; lia.
  - intros k Hk. rewrite prod_reverse in Hk. destruct (output_positive xs ys HF Hx Hy) as [Hxp Hyp]; [lia|].
    unfold broadcast_index. rewrite !reverse_involutive.
    rewrite Hs; [|done|by apply times_positive|lia]. by apply src_numpy.
Qed.

(** No dimension is left: the intermediate vectors hold a single 1. *)
Lemma side_scalar rs bs xs cs : side rs bs [] xs cs -> rs = [] /\ bs = [] /\ side [1] [1] [1] xs cs.
Proof.
  intros [Hl Hl' Hres [Hp Hp'] Hpos Hs]. assert (rs = [] /\ bs = []) as [-> ->] by (destruct rs, bs; done).
  split_and!; [done..|]. constructor; try done.
  - intros _ _. split; by repeat constructor.
  - intros Hx Hc k Hk. rewrite <- Hs by done. cbn [src]. rewrite Z.mod_1_r. lia.
Qed.

(** Both operands share [result]; the flip of the arguments. *)
Lemma compatible_sym xs ys : Forall2 compatible xs ys -> Forall2 compatible ys xs.
Proof. induction 1 as [|x y xs ys Hc _ IH]; constructor; [|done]. destruct Hc as [->|[?|?]]; unfold compatible; auto. Qed.

Lemma bdim_sym xs ys : Forall2 compatible xs ys -> zip_with bdim xs ys = zip_with bdim ys xs.
Proof.
  induction 1 as [|x y xs ys Hc _ IH]; [done|]. cbn. rewrite IH. f_equal. unfold bdim.
  destruct (Z.eqb_spec x 1), (Z.eqb_spec y 1); destruct Hc as [?|[?|?]]; lia.
Qed.

Lemma aligned_prod sx sy : prod (aligned sx sy) = prod sx.
Proof. unfold aligned. by rewrite prod_resize1, prod_reverse. Qed.

(** ** Gradients *)

(** The axes of size 1 of a shape, outer-most first. *)
Fixpoint axes (i : Z) (l : list Z) : list Z :=
  match l with [] => [] | x :: l => (if x =? 1 then [i] else []) ++ axes (i + 1) l end.

(** The shape left when the axes of [idx] are summed over. *)
Fixpoint reduce (i : Z) (idx l : list Z) : list Z :=
  match l with [] => [] | x :: l => (if bool_decide (i ∈ idx) then [] else [x]) ++ reduce (i + 1) idx l end.

Lemma axes_snoc i l x : axes i (l ++ [x]) = axes i l ++ (if x =? 1 then [i + Z.of_nat (length l)] else []).
Proof.
  revert i. induction l as [|y l IH]; intros i; cbn [axes app length].
  - rewrite app_nil_r, Z.add_0_r. done.
  - rewrite IH, <- app_assoc. by replace (i + 1 + Z.of_nat (length l)) with (i + Z.of_nat (S (length l))) by lia.
Qed.

Lemma ones_axes n i l : reverse (ones n i l) = axes (n - i - Z.of_nat (length l)) (reverse l).
Proof.
  revert i. induction l as [|x l IH]; intros i; [done|]. cbn [ones length]. rewrite reverse_app, reverse_cons, axes_snoc, IH, length_reverse.
  replace (n - (i + 1) - Z.of_nat (length l)) with (n - i - Z.of_nat (S (length l))) by lia. f_equal.
  destruct (x =? 1); [|done]. cbn. f_equal. lia.
Qed.

Lemma axes_elem d i l : d ∈ axes i l <-> exists j, l !! j = Some 1 /\ d = i + Z.of_nat j.
Proof.
  revert i. induction l as [|x l IH]; intros i; cbn [axes].
  { rewrite elem_of_nil. split; [done|]. by intros (j & ? & _). }
  rewrite elem_of_app, IH. split.
  - intros [H|(j & Hj & ->)]; [|exists (S j); split; [done|lia]]. destruct (Z.eqb_spec x 1) as [->|]; [|by apply elem_of_nil in H].
    apply list_elem_of_singleton in H as ->. exists 0%nat. split; [done|lia].
  - intros ([|j] & Hj & ->).
    + injection Hj as ->. left. cbn. rewrite Z.add_0_r. left.
    + right. exists j. split; [done|lia].
Qed.

Lemma reduce_prod i idx zs ws :
  Forall2 compatible zs ws -> (forall j z, zs !! j = Some z -> (i + Z.of_nat j ∈ idx <-> z = 1)) ->
  prod (reduce i idx (zip_with bdim zs ws)) = prod zs.
Proof.
  intros HF. revert i. induction HF as [|z w zs ws Hc _ IH]; intros i Hidx; [done|]. cbn [zip_with reduce].
  rewrite prod_app, IH; [|intros j z' Hj; rewrite <- (Hidx (S j) z' Hj); by replace (i + 1 + Z.of_nat j) with (i + Z.of_nat (S j)) by lia].
  change (prod (z :: zs)) with (z * prod zs). f_equal. specialize (Hidx 0%nat z eq_refl). rewrite Z.add_0_r in Hidx.
  case_bool_decide as H; [rewrite (proj1 Hidx H); done|]. unfold prod, bdim. cbn. destruct (Z.eqb_spec z 1) as [->|]; [|lia].
  destruct H. by apply Hidx.
Qed.

(** Summing the output over the axes where the operand has size 1. *)
Lemma reduced xs ys n :
  n = Z.of_nat (length xs) -> Forall2 compatible xs ys ->
  prod (reduce 0 (reverse (ones n 0 xs)) (reverse (zip_with bdim xs ys))) = prod xs
  /\ forall d, d ∈ reverse (ones n 0 xs) -> exists j, d = Z.of_nat j /\ reverse xs !! j = Some 1.
Proof.
  intros -> HF. pose proof (Forall2_length _ _ _ HF) as Hl.
  rewrite ones_axes. replace (Z.of_nat (length xs) - 0 - Z.of_nat (length xs)) with 0 by lia.
  split; [|intros d (j & ? & ->)%axes_elem; exists j; split; [lia|done]].
  rewrite <- zip_reverse, <- (prod_reverse xs) by done. apply reduce_prod; [by apply Forall2_reverse|].
  intros j z Hj. rewrite axes_elem. split; [|intros ->; eauto].
  intros (j' & Hj' & E). assert (j' = j) as -> by lia. congruence.
Qed.

(** ** Theorems *)

(** For shapes of at most 2^63 - 1 elements the constructor returns; the operands are
    accepted exactly when, aligned at their last dimension, the dimensions are pairwise equal or
    one of them is 1, and the output then has the larger of the two. *)
Lemma bcast_output sx sy fewer :
  dims_ok sx -> dims_ok sy ->
  exists b, new sx sy fewer = Some b
    /\ (valid_ b = true <-> Forall2 compatible (aligned sx sy) (aligned sy sx))
    /\ (valid_ b = true -> output_ b = reverse (zip_with bdim (aligned sx sy) (aligned sy sx))).
Proof.
  intros Hx Hy. destruct (bool_decide (sx = sy) && fewer) eqn:Ef.
  - unfold new. rewrite Ef. apply andb_true_iff in Ef as [<-%bool_decide_eq_true ->].
    eexists. split; [done|]. cbn. rewrite aligned_same, bdim_same, reverse_involutive. split; [|done].
    split; [|done]. intros _. apply compatible_refl.
  - destruct (new_slow sx sy fewer Hx Hy Ef) as (b & [(HF & E & prev & Hi)|(HF & E & Hv)]); rewrite E; (eexists; split; [done|]).
    + destruct (length (result_ b) =? 0)%nat; cbn; rewrite (i_valid _ _ _ _ _ _ Hi), (i_output _ _ _ _ _ _ Hi); done.
    + rewrite Hv. split; [|done]. split; done.
Qed.

(** The reshapes and broadcasts implement the rule: with or without the merging of
    dimensions, the position [k] of [x.reshape(x_reshape).broadcast(x_bcast)] holds the element
    of [x] that numpy's rule puts at position [k] of the output, and likewise for [y]; both
    intermediate shapes are [result_shape], which has as many elements as the output. *)
Lemma bcast_addresses sx sy fewer b :
  dims_ok sx -> dims_ok sy -> new sx sy fewer = Some b -> valid_ b = true ->
  addresses (x_reshape_ b) (x_bcast_ b) (result_ b) sx (aligned sx sy) (output_ b)
  /\ addresses (y_reshape_ b) (y_bcast_ b) (result_ b) sy (aligned sy sx) (output_ b).
Proof.
  intros Hx Hy E Hv. destruct (bool_decide (sx = sy) && fewer) eqn:Ef.
  - unfold new in E. rewrite Ef in E. injection E as <-. apply andb_true_iff in Ef as [<-%bool_decide_eq_true ->].
    destruct Hx as [Hx Hp]. rewrite foldl_elements by (try done; lia). rewrite Z.mul_1_l.
    cbn [x_reshape_ x_bcast_ y_reshape_ y_bcast_ result_ output_].
    assert (addresses [prod sx] [1] [prod sx] sx (aligned sx sx) sx) as H; [|done].
    unfold addresses. split_and!.
    + unfold prod at 1. cbn. lia.
    + cbn. f_equal. lia.
    + unfold prod at 1. cbn. lia.
    + intros k Hk. rewrite aligned_same. assert (positive (reverse sx)) as Hpos.
      { destruct (output_positive (reverse sx) (reverse sx)) as [? _]; [apply compatible_refl|by apply Forall_reverse..| |done].
        rewrite bdim_same, prod_reverse. lia. }
      rewrite numpy_same by done. rewrite prod_reverse. cbn. rewrite Z.mul_1_r, Z.mod_mod by lia. lia.
  - destruct (new_slow sx sy fewer Hx Hy Ef) as (b0 & [(HF & E' & prev & Hi)|(_ & E' & Hv')]); [|congruence].
    rewrite E' in E. injection E as <-. destruct Hx as [Hx _], Hy as [Hy _].
    assert (Forall (fun d => 0 <= d) (aligned sx sy)) as Hax by (by apply aligned_dims; [lia|]).
    assert (Forall (fun d => 0 <= d) (aligned sy sx)) as Hay by (by apply aligned_dims; [lia|]).
    set (b1 := if (length (result_ b0) =? 0)%nat then push_dims 1 1 1 1 1 b0 else b0).
    assert (side (x_reshape_ b1) (x_bcast_ b1) (result_ b1) (aligned sx sy) (zip_with times (aligned sx sy) (aligned sy sx))
      /\ side (y_reshape_ b1) (y_bcast_ b1) (result_ b1) (aligned sy sx) (zip_with times (aligned sy sx) (aligned sx sy))
      /\ output_ b1 = zip_with bdim (aligned sx sy) (aligned sy sx)) as (Hsx & Hsy & Ho).
    { pose proof (i_x _ _ _ _ _ _ Hi) as Hsx. pose proof (i_y _ _ _ _ _ _ Hi) as Hsy. pose proof (i_output _ _ _ _ _ _ Hi) as Ho.
      unfold b1. destruct (Nat.eqb_spec (length (result_ b0)) 0) as [El|]; [|done]. apply nil_length_inv in El. rewrite El in Hsx, Hsy.
      apply side_scalar in Hsx as (E1 & E2 & Hsx), Hsy as (E3 & E4 & Hsy). cbn. by rewrite E1, E2, E3, E4, El. }
    cbn [Reverse x_reshape_ x_bcast_ y_reshape_ y_bcast_ result_ output_]. rewrite Ho. split.
    + apply side_addresses; try done. apply aligned_prod.
    + rewrite bdim_sym by done. apply side_addresses; try done; [by apply compatible_sym|apply aligned_prod].
Qed.

(** The axes listed for the gradient of an operand are axes along which that operand has
    size 1, and summing an output-shaped tensor over them leaves as many elements as the operand
    has, so that the sum can be reshaped to the operand's shape. *)
Lemma bcast_grad sx sy fewer b :
  dims_ok sx -> dims_ok sy -> new sx sy fewer = Some b -> valid_ b = true ->
  prod (reduce 0 (grad_x_reduce_idx_ b) (output_ b)) = prod sx
  /\ prod (reduce 0 (grad_y_reduce_idx_ b) (output_ b)) = prod sy
  /\ (forall d, d ∈ grad_x_reduce_idx_ b -> exists j, d = Z.of_nat j /\ reverse (aligned sx sy) !! j = Some 1)
  /\ (forall d, d ∈ grad_y_reduce_idx_ b -> exists j, d = Z.of_nat j /\ reverse (aligned sy sx) !! j = Some 1).
Proof.
  intros Hx Hy E Hv. destruct (bool_decide (sx = sy) && fewer) eqn:Ef.
  - unfold new in E. rewrite Ef in E. injection E as <-. apply andb_true_iff in Ef as [<-%bool_decide_eq_true ->].
    cbn [grad_x_reduce_idx_ grad_y_reduce_idx_ output_].
    assert (forall i l, reduce i [] l = l) as Hr by (intros i l; revert i; induction l as [|x l IH]; intros i; cbn; by rewrite ?IH).
    rewrite Hr. split_and!; try done; by intros d ?%not_elem_of_nil.
  - destruct (new_slow sx sy fewer Hx Hy Ef) as (b0 & [(HF & E' & prev & Hi)|(_ & E' & Hv')]); [|congruence].
    rewrite E' in E. injection E as <-.
    destruct (reduced (aligned sx sy) (aligned sy sx) _ eq_refl HF) as [Px Dx].
    destruct (reduced (aligned sy sx) (aligned sx sy) (Z.of_nat (length (aligned sx sy)))) as [Py Dy];
      [by rewrite aligned_length|by apply compatible_sym|].
    rewrite <- bdim_sym in Py by done. rewrite aligned_prod in Px, Py.
    destruct (length (result_ b0) =? 0)%nat; cbn [Reverse push_dims grad_x_reduce_idx_ grad_y_reduce_idx_ output_];
      rewrite (i_gx _ _ _ _ _ _ Hi), (i_gy _ _ _ _ _ _ Hi), (i_output _ _ _ _ _ _ Hi); done.
Qed.

(** C33: for shapes whose dimensions are not negative, the product of those that are not 0 being
    below 2^63, the constructor returns; the operands are accepted exactly when, aligned at their
    last dimension, the dimensions are pairwise equal or one of them is 1, and the output then has
    the common dimension, or the other one where one is 1 (0 against 1 gives 0).  With or without
    the merging
    of dimensions, the position [k] of [x.reshape(x_reshape).broadcast(x_bcast)] then holds the
    element of [x] that numpy's rule puts at position [k] of the output, and likewise for [y];
    both intermediate shapes are [result_shape], which has as many elements as the output.  The
    axes listed for the gradient of an operand are axes along which that operand has size 1, and
    summing an output-shaped tensor over them leaves as many elements as the operand has, so that
    the sum can be reshaped to the operand's shape. *)
Theorem bcast_implements_rule sx sy fewer :
  dims_ok sx -> dims_ok sy ->
  exists b, new sx sy fewer = Some b
    /\ (valid_ b = true <-> Forall2 compatible (aligned sx sy) (aligned sy sx))
    /\ (valid_ b = true -> output_ b = reverse (zip_with bdim (aligned sx sy) (aligned sy sx))
          /\ addresses (x_reshape_ b) (x_bcast_ b) (result_ b) sx (aligned sx sy) (output_ b)
          /\ addresses (y_reshape_ b) (y_bcast_ b) (result_ b) sy (aligned sy sx) (output_ b)
          /\ prod (reduce 0 (grad_x_reduce_idx_ b) (output_ b)) = prod sx
          /\ prod (reduce 0 (grad_y_reduce_idx_ b) (output_ b)) = prod sy
          /\ (forall d, d ∈ grad_x_reduce_idx_ b -> exists j, d = Z.of_nat j /\ reverse (aligned sx sy) !! j = Some 1)
          /\ (forall d, d ∈ grad_y_reduce_idx_ b -> exists j, d = Z.of_nat j /\ reverse (aligned sy sx) !! j = Some 1)).
Proof.
  intros Hx Hy. destruct (bcast_output sx sy fewer Hx Hy) as (b & E & Hv & Ho). exists b. split; [done|]. split; [done|]. intros Hb. split; [by apply Ho|].
  destruct (bcast_addresses sx sy fewer b Hx Hy E Hb) as [Ax Ay]. split; [done|]. split; [done|]. by apply (bcast_grad sx sy fewer).
Qed.

(** A witness: a 2x3x1x5 operand against a 4x1 one. *)
Lemma demo_dims : dims_ok [2; 3; 1; 5] /\ dims_ok [4; 1].
Proof. split; split; repeat constructor; done. Qed.

Lemma bcast_implements_rule_witness :
  broadcast_index [6; 1; 5] [1; 4; 1] 77 = numpy_index [5; 1; 3; 2] [5; 4; 3; 2] 77 /\ prod (reduce 0 [0; 1; 3] [2; 3; 4; 5]) = prod [4; 1].
Proof.
  destruct (bcast_implements_rule [2; 3; 1; 5] [4; 1] true) as (b & E & _ & H); [apply demo_dims|apply demo_dims|].
  vm_compute in E. injection E as <-. destruct (H eq_refl) as (_ & (_ & _ & _ & Hx) & _ & _ & Hy & _).
  split; [apply (Hx 77); vm_compute; split; [discriminate|reflexivity]|exact Hy].
Defined.

End BCast.
