(* ===== verification/TensorShape.v ===== *)
(** * Tensor shapes: the model

    [core/framework/tensor_shape.{h,cc}] and [core/util/overflow.h].  A shape keeps its
    dimensions in one of three packed representations and caches its number of elements.
    [TensorShape] and [PartialTensorShape] share the code, which is a template over the
    constant [kIsPartial]; here that constant is an argument. *)

From S2P Require Import Prelude.

Module TensorShape.

(** ** Multiplication that detects overflow

    [None] is the failed [CHECK]. *)
Definition MultiplyWithoutOverflow (x y : Z) : option Z :=
  let ux := u64 x in
  let uy := u64 y in
  let uxy := u64 (ux * uy) in
  if negb (Z.shiftr (Z.lor ux uy) 32 =? 0) then
    if (0 <=? x) && (0 <=? y) then
      if negb (ux =? 0) && negb (uxy / ux =? uy) then Some (-1) else Some (i64 uxy)
    else None
  else Some (i64 uxy).

(** ** The representation *)

Inductive RepTag := REP16 | REP32 | REP_OUT_OF_LINE.
#[export] Instance RepTag_eq_dec : EqDecision RepTag.
Proof. solve_decision. Defined.

Definition MaxDimensions : Z := 254.
Definition kMaxRep16 : Z := 2 ^ 16 - 2.
Definition kMaxRep32 : Z := 2 ^ 32 - 2.
Definition kUnknownRep16 : Z := 2 ^ 16 - 1.
Definition kUnknownRep32 : Z := 2 ^ 32 - 1.
Definition kUnknownRank : Z := 255.
Definition DT_INVALID : Z := 0.

(** [dims_]: the entries of the array or vector that [tag] selects. *)
Record Rep := mkRep {
  tag : RepTag;
  dims_ : list Z;
  ndims_byte : Z;
  data_type : Z;
  num_elements : Z
}.

(** A write to an entry of an array; the next unused entry extends the list. *)
Definition store (d : nat) (v : Z) (l : list Z) : list Z := take d l ++ v :: drop (S d) l.

Inductive Status := OK | InvalidArgument.
#[export] Instance Status_eq_dec : EqDecision Status.
Proof. solve_decision. Defined.

Abbreviation MS := (M Rep).

Definition set_num_elements (n : Z) : MS unit :=
  modify (fun s => mkRep (tag s) (dims_ s) (ndims_byte s) (data_type s) n).
Definition set_ndims_byte (n : Z) : MS unit :=
  modify (fun s => mkRep (tag s) (dims_ s) n (data_type s) (num_elements s)).
Definition set_dims (l : list Z) : MS unit :=
  modify (fun s => mkRep (tag s) l (ndims_byte s) (data_type s) (num_elements s)).
Definition set_tag (t : RepTag) (l : list Z) : MS unit :=
  modify (fun s => mkRep t l (ndims_byte s) (data_type s) (num_elements s)).
Definition set_data_type (dt : Z) : MS unit :=
  modify (fun s => mkRep (tag s) (dims_ s) (ndims_byte s) dt (num_elements s)).

Definition ClearAllButDataType : MS unit :=
  set_tag REP16 [];; set_ndims_byte 0;; set_num_elements 1.
Definition Clear : MS unit := ClearAllButDataType;; set_data_type DT_INVALID.

Section shape.
Context (kIsPartial : bool).

Definition unknown_rank (s : Rep) : bool := kIsPartial && (ndims_byte s =? kUnknownRank).
Definition dims (s : Rep) : Z := if kIsPartial && (ndims_byte s =? kUnknownRank) then -1 else ndims_byte s.

(** The default constructor. *)
Definition TensorShapeBase_init : Rep :=
  if kIsPartial then mkRep REP16 [] kUnknownRank DT_INVALID (-1) else mkRep REP16 [] 0 DT_INVALID 1.

Definition dim_size (d : nat) : MS Z :=
  s ← get;
  if unknown_rank s then mret (-1)
  else
    CHECK (Z.of_nat d <? dims s);;
    dim ← of_option (dims_ s !! d);
    mret (match tag s with
          | REP16 => if kIsPartial && (dim =? kUnknownRep16) then -1 else dim
          | REP32 => if kIsPartial && (dim =? kUnknownRep32) then -1 else dim
          | REP_OUT_OF_LINE => dim
          end).

(** The loop [for (auto dim : s)], from [d], over [n] dimensions. *)
Fixpoint iterate (n d : nat) : MS (list Z) :=
  match n with
  | O => mret []
  | S n => x ← dim_size d; xs ← iterate n (S d); mret (x :: xs)
  end.

Definition dim_sizes : MS (list Z) :=
  s ← get; CHECK (negb (unknown_rank s));; iterate (Z.to_nat (dims s)) 0.
Definition AppendTo : MS (list Z) := dim_sizes.

(** The loop of [RecomputeNumElements]: [None] is the overflow. *)
Fixpoint count_elements (n : Z) (l : list Z) : MS (option Z) :=
  match l with
  | [] => mret (Some n)
  | d :: l =>
      if kIsPartial && (d <? 0) then mret (Some (-1))
      else
        n ← of_option (MultiplyWithoutOverflow n d);
        if n <? 0 then mret None else count_elements n l
  end.

Definition RecomputeNumElements : MS Status :=
  s ← get;
  if unknown_rank s then set_num_elements (-1);; mret OK
  else
    l ← dim_sizes;
    n ← count_elements 1 l;
    match n with
    | None => mret InvalidArgument
    | Some n => set_num_elements n;; mret OK
    end.

Definition UnsafeAddDim (size new_num_elements : Z) : MS unit :=
  s ← get;
  let nd := Z.to_nat (ndims_byte s) in
  (if bool_decide (tag s = REP16) && (ndims_byte s <? 6) && (size <? kMaxRep16) then
     set_dims (store nd (if kIsPartial && (size <? 0) then kUnknownRep16 else size mod 2 ^ 16) (dims_ s))
   else if bool_decide (tag s = REP32) && (ndims_byte s <? 3) && (size <? kMaxRep32) then
     set_dims (store nd (if kIsPartial && (size <? 0) then kUnknownRep32 else u32 size) (dims_ s))
   else if bool_decide (tag s = REP_OUT_OF_LINE) then
     set_dims (dims_ s ++ [size])
   else
     vals ← AppendTo;
     let vals := vals ++ [size] in
     if (length vals <=? 3)%nat && forallb (fun v => v <? kMaxRep32) vals then
       set_tag REP32 (map (fun v => if kIsPartial && (v <? 0) then kUnknownRep32 else u32 v) vals)
     else
       set_tag REP_OUT_OF_LINE vals);;
  set_ndims_byte (u8 (ndims_byte s + 1));;
  set_num_elements new_num_elements.

Definition AddDim (size : Z) : MS unit :=
  CHECK (kIsPartial || (0 <=? size));;
  s ← get;
  if unknown_rank s then mret tt
  else
    CHECK (ndims_byte s <? MaxDimensions);;
    if kIsPartial && ((num_elements s <? 0) || (size <? 0)) then UnsafeAddDim size (-1)
    else
      new_num_elements ← of_option (MultiplyWithoutOverflow (num_elements s) size);
      CHECK (0 <=? new_num_elements);;
      UnsafeAddDim size new_num_elements.

Definition AddDimWithStatus (size : Z) : MS Status :=
  if negb kIsPartial && (size <? 0) then mret InvalidArgument
  else
    s ← get;
    if unknown_rank s then mret OK
    else if MaxDimensions <=? ndims_byte s then mret InvalidArgument
    else if kIsPartial && ((num_elements s <? 0) || (size <? 0)) then UnsafeAddDim size (-1);; mret OK
    else
      new_num_elements ← of_option (MultiplyWithoutOverflow (num_elements s) size);
      if new_num_elements <? 0 then mret InvalidArgument
      else UnsafeAddDim size new_num_elements;; mret OK.

Fixpoint AddDims (l : list Z) : MS unit :=
  match l with [] => mret tt | d :: l => AddDim d;; AddDims l end.

Fixpoint AddDimsWithStatus (l : list Z) : MS Status :=
  match l with
  | [] => mret OK
  | d :: l => s ← AddDimWithStatus d; if bool_decide (s = OK) then AddDimsWithStatus l else mret s
  end.

(** [AppendShape]: the dimensions of the argument are read from it. *)
Definition AppendShape (shape : list Z) : MS unit := AddDims shape.

Definition Set16 (dim : nat) (val : Z) : MS bool :=
  s ← get;
  if kIsPartial && (val <? 0) then set_dims (store dim kUnknownRep16 (dims_ s));; mret true
  else
    CHECK (kIsPartial || (0 <=? val));;
    set_dims (store dim (val mod 2 ^ 16) (dims_ s));; mret false.

(** Four or fewer dimensions, each written to its entry. *)
Fixpoint Set16s (d : nat) (l : list Z) : MS bool :=
  match l with
  | [] => mret false
  | v :: l => neg ← Set16 d v; neg' ← Set16s (S d) l; mret (neg || neg')
  end.

Definition kMaxSmall : Z := 0xd744.

(** [s > kMaxSmall] compares as unsigned. *)
Definition InitDims (dim_sizes : list Z) : MS Status :=
  s ← get;
  CHECK (bool_decide (tag s = REP16));;
  let large_size := existsb (fun s => kMaxSmall <? u64 s) dim_sizes in
  if negb kIsPartial && negb large_size && existsb (fun s => s <? 0) dim_sizes then mret InvalidArgument
  else if negb large_size && (1 <=? length dim_sizes)%nat && (length dim_sizes <=? 4)%nat then
    set_ndims_byte (Z.of_nat (length dim_sizes));;
    neg ← Set16s 0 dim_sizes;
    set_num_elements (if neg : bool then -1 else foldl (fun a b => i64 (a * b)) 1 dim_sizes);;
    mret OK
  else
    set_ndims_byte 0;;
    set_num_elements 1;;
    AddDimsWithStatus dim_sizes.

(** The constructor from sizes crashes on an error, the factory reports it. *)
Definition TensorShapeBase_sizes (dim_sizes : list Z) : MS unit :=
  put (mkRep REP16 [] 0 DT_INVALID 1);;
  st ← InitDims dim_sizes; CHECK (bool_decide (st = OK)).
Definition BuildTensorShapeBase (dim_sizes : list Z) : MS Status :=
  set_tag REP16 [];; set_data_type DT_INVALID;; InitDims dim_sizes.

Definition InsertDim (d : Z) (size : Z) : MS unit :=
  s ← get;
  CHECK (0 <=? d);;
  CHECK (d <=? dims s);;
  CHECK (kIsPartial || (0 <=? size));;
  CHECK (dims s <? MaxDimensions);;
  vals ← AppendTo;
  ClearAllButDataType;;
  AddDims (take (Z.to_nat d) vals ++ size :: drop (Z.to_nat d) vals).

(** The part that [set_dim] and [SetDimWithStatus] share; [None]: the representation must change. *)
Definition set_in_place (d : nat) (size : Z) (s : Rep) : option (list Z) :=
  if bool_decide (tag s = REP16) && (size <? kMaxRep16) then
    Some (store d (if kIsPartial && (size <? 0) then kUnknownRep16 else size mod 2 ^ 16) (dims_ s))
  else if bool_decide (tag s = REP32) && (size <? kMaxRep32) then
    Some (store d (if kIsPartial && (size <? 0) then kUnknownRep32 else u32 size) (dims_ s))
  else if bool_decide (tag s = REP_OUT_OF_LINE) then Some (<[d := size]> (dims_ s))
  else None.

Definition set_dim (d : Z) (size : Z) : MS unit :=
  s ← get;
  CHECK (0 <=? d);;
  CHECK (d <? dims s);;
  CHECK (0 <=? size);;
  match set_in_place (Z.to_nat d) size s with
  | Some l => set_dims l
  | None =>
      vals ← AppendTo;
      ClearAllButDataType;;
      AddDims (<[Z.to_nat d := size]> vals)
  end;;
  st ← RecomputeNumElements;
  CHECK (bool_decide (st = OK)).

Definition SetDimWithStatus (d : Z) (size : Z) : MS Status :=
  s ← get;
  if d <? 0 then mret InvalidArgument
  else if dims s <=? d then mret InvalidArgument
  else if size <? 0 then mret InvalidArgument
  else
    st ← match set_in_place (Z.to_nat d) size s with
         | Some l => set_dims l;; mret OK
         | None =>
             vals ← AppendTo;
             ClearAllButDataType;;
             AddDimsWithStatus (<[Z.to_nat d := size]> vals)
         end;
    if bool_decide (st = OK) then RecomputeNumElements else mret st.

Definition RemoveDimRange (begin_ end_ : Z) : MS unit :=
  s ← get;
  if unknown_rank s then mret tt
  else
    let begin_ := if begin_ <? 0 then dims s + begin_ + 1 else begin_ in
    let end_ := if end_ <? 0 then dims s + end_ + 1 else end_ in
    CHECK (0 <=? begin_);;
    CHECK (begin_ <=? dims s);;
    CHECK (0 <=? end_);;
    CHECK (end_ <=? dims s);;
    if end_ <=? begin_ then mret tt
    else
      vals ← AppendTo;
      ClearAllButDataType;;
      AddDims (take (Z.to_nat begin_) vals ++ drop (Z.to_nat end_) vals);;
      st ← RecomputeNumElements;
      CHECK (bool_decide (st = OK)).

Definition RemoveDim (d : Z) : MS unit := CHECK (0 <=? d);; RemoveDimRange d (d + 1).
Definition RemoveLastDims (n : Z) : MS unit :=
  s ← get; CHECK (n <=? dims s);; RemoveDimRange (dims s - n) (dims s).

Definition IsFullyDefined (s : Rep) : bool := negb kIsPartial || negb (num_elements s =? -1).

(** ** Protocol buffers *)

Record TensorShapeProto := mkProto { proto_dim : list Z; proto_unknown_rank : bool }.

Fixpoint IsValid_loop (num_elements : Z) (l : list Z) : option bool :=
  match l with
  | [] => Some true
  | d :: l =>
      if d <? (if kIsPartial then -1 else 0) then Some false
      else if d =? -1 then IsValid_loop (-1) l
      else if negb kIsPartial || (0 <=? num_elements) then
        n ← MultiplyWithoutOverflow num_elements d;
        if n <? 0 then Some false else IsValid_loop n l
      else IsValid_loop num_elements l
  end.

Definition IsValid (proto : TensorShapeProto) : option bool :=
  if kIsPartial && proto_unknown_rank proto then Some (length (proto_dim proto) =? 0)%nat
  else if MaxDimensions <? Z.of_nat (length (proto_dim proto)) then Some false
  else IsValid_loop 1 (proto_dim proto).

(** The same test with a status. *)
Fixpoint IsValidShape_loop (num_elements : Z) (l : list Z) : option Status :=
  match l with
  | [] => Some OK
  | d :: l =>
      if d <? (if kIsPartial then -1 else 0) then Some InvalidArgument
      else if d =? -1 then IsValidShape_loop (-1) l
      else if negb kIsPartial || (0 <=? num_elements) then
        n ← MultiplyWithoutOverflow num_elements d;
        if n <? 0 then Some InvalidArgument else IsValidShape_loop n l
      else IsValidShape_loop num_elements l
  end.

Definition IsValidShape (proto : TensorShapeProto) : option Status :=
  if kIsPartial && proto_unknown_rank proto then
    Some (if (0 <? length (proto_dim proto))%nat then InvalidArgument else OK)
  else if MaxDimensions <? Z.of_nat (length (proto_dim proto)) then Some InvalidArgument
  else IsValidShape_loop 1 (proto_dim proto).

(** The constructor from a protocol buffer, which aborts on errors. *)
Definition TensorShapeBase_proto (proto : TensorShapeProto) : MS unit :=
  set_tag REP16 [];;
  set_data_type DT_INVALID;;
  if kIsPartial && proto_unknown_rank proto then
    set_ndims_byte kUnknownRank;; set_num_elements (-1)
  else
    set_ndims_byte 0;; set_num_elements 1;; AddDims (proto_dim proto).

Definition BuildTensorShapeBase_proto (proto : TensorShapeProto) : MS Status :=
  set_tag REP16 [];;
  set_data_type DT_INVALID;;
  if kIsPartial && proto_unknown_rank proto then
    set_ndims_byte kUnknownRank;; set_num_elements (-1);; mret OK
  else
    set_ndims_byte 0;; set_num_elements 1;; AddDimsWithStatus (proto_dim proto).

Definition AsProto : MS TensorShapeProto :=
  s ← get;
  if unknown_rank s then mret (mkProto [] true)
  else l ← iterate (Z.to_nat (dims s)) 0; mret (mkProto l false).

(** [MakeShapeHelper] on the array of sizes. *)
Fixpoint MakeShape_loop (l : list Z) : MS Status :=
  match l with
  | [] => mret OK
  | dim :: l =>
      s ← get;
      if dim <? 0 then
        if negb kIsPartial then mret InvalidArgument
        else if dim <? -1 then mret InvalidArgument
        else UnsafeAddDim (-1) (-1);; MakeShape_loop l
      else if num_elements s <? 0 then UnsafeAddDim dim (-1);; MakeShape_loop l
      else
        n ← of_option (MultiplyWithoutOverflow (num_elements s) dim);
        if n <? 0 then mret InvalidArgument
        else UnsafeAddDim dim n;; MakeShape_loop l
  end.

Definition MakeShapeHelper (l : list Z) : MS Status :=
  Clear;;
  if MaxDimensions <? Z.of_nat (length l) then mret InvalidArgument else MakeShape_loop l.

End shape.

(** ** Comparisons and merging

    These methods read the dimensions of two shapes that they do not change. *)

(** [dim_size(d)] of a shape that is only read. *)
Definition with_dim {A} (kIsPartial : bool) (s : Rep) (d : nat) (k : Z -> outcome A) : outcome A :=
  match dim_size kIsPartial d s with Val (x, _) => k x | Crash => Crash | NoFuel => NoFuel end.

(** The loops that compare the dimensions from [d], [n] of them; those of [this] are [offset] further on. *)
Fixpoint same_dims (kIsPartial : bool) (this shape : Rep) (offset n d : nat) : outcome bool :=
  match n with
  | O => Val true
  | S n =>
      with_dim kIsPartial this (offset + d) (fun dim0 =>
      with_dim kIsPartial shape d (fun dim1 =>
        if negb (dim0 =? dim1) then Val false else same_dims kIsPartial this shape offset n (S d)))
  end.

Definition read_dim (s : Rep) (d : nat) : MS Z := fun result => with_dim true s d (fun x => Val (x, result)).

(** The loop of [MergeWith]; the result is built in the state. *)
Fixpoint MergeWith_loop (this shape : Rep) (n i : nat) : MS Status :=
  match n with
  | O => mret OK
  | S n =>
      dim0 ← read_dim this i;
      dim1 ← read_dim shape i;
      if (0 <=? dim0) && (0 <=? dim1) && negb (dim0 =? dim1) then mret InvalidArgument
      else AddDim true (if 0 <=? dim0 then dim0 else dim1);; MergeWith_loop this shape n (S i)
  end.

(** The state is [*result], an object other than [shape]; [aliased]: it is [*this]. *)
Definition MergeWith (aliased : bool) (this shape : Rep) : MS Status :=
  if unknown_rank true this then put shape;; mret OK
  else if unknown_rank true shape then put this;; mret OK
  else if negb (dims true this =? dims true shape) then mret InvalidArgument
  else
    CHECK (negb aliased);;
    Clear;;
    MergeWith_loop this shape (Z.to_nat (dims true this)) 0.

Fixpoint compatible_loop (this shape : Rep) (n i : nat) : outcome bool :=
  match n with
  | O => Val true
  | S n =>
      with_dim true this i (fun dim0 =>
      with_dim true shape i (fun dim1 =>
        if (0 <=? dim0) && (0 <=? dim1) && negb (dim0 =? dim1) then Val false else compatible_loop this shape n (S i)))
  end.

Definition IsCompatibleWith (this shape : Rep) : outcome bool :=
  if unknown_rank true this || unknown_rank true shape then Val true
  else if negb (dims true this =? dims true shape) then Val false
  else compatible_loop this shape (Z.to_nat (dims true this)) 0.

Definition IsIdenticalTo (this shape : Rep) : outcome bool :=
  if unknown_rank true this || unknown_rank true shape then
    Val (eqb (unknown_rank true this) (unknown_rank true shape))
  else if negb (dims true this =? dims true shape) then Val false
  else same_dims true this shape 0 (Z.to_nat (dims true this)) 0.

Definition IsSameSize (this b : Rep) : outcome bool :=
  if negb (dims false b =? dims false this) then Val false
  else same_dims false this b 0 (Z.to_nat (dims false this)) 0.

(** [AsTensorShape] copies the representation. *)
Definition AsTensorShape (this : Rep) : option Rep := if IsFullyDefined true this then Some this else None.

(** ** Prefixes, concatenation and lists of shapes *)

Definition StartsWith (shape prefix : Rep) : outcome bool :=
  if dims false shape <? dims false prefix then Val false
  else same_dims false shape prefix 0 (Z.to_nat (dims false prefix)) 0.

Definition EndsWith (shape suffix : Rep) : outcome bool :=
  let suffix_size := dims false suffix in
  if dims false shape <? suffix_size then Val false
  else same_dims false shape suffix (Z.to_nat (dims false shape - suffix_size)) (Z.to_nat suffix_size) 0.

(** [PartialTensorShape::Concatenate], with a size and with a shape: the copy is the state. *)
Definition Concatenate_size (this : Rep) (size : Z) : outcome Rep :=
  match AddDim true size this with Val (_, out) => Val out | Crash => Crash | NoFuel => NoFuel end.

Definition Concatenate (this shape : Rep) : outcome Rep :=
  if unknown_rank true this || unknown_rank true shape then Val (TensorShapeBase_init true)
  else
    match dim_sizes true shape with
    | Val (l, _) => match AddDims true l this with Val (_, out) => Val out | Crash => Crash | NoFuel => NoFuel end
    | _ => Crash
    end.

(** The loops over two arrays of shapes. *)
Fixpoint all_pairs (test : Rep -> Rep -> outcome bool) (l0 l1 : list Rep) : outcome bool :=
  match l0, l1 with
  | a :: l0, b :: l1 => match test a b with Val true => all_pairs test l0 l1 | o => o end
  | _, _ => Val true
  end.

Definition AreCompatible (shapes0 shapes1 : list Rep) : outcome bool :=
  if (length shapes0 =? length shapes1)%nat then all_pairs IsCompatibleWith shapes0 shapes1 else Val false.

Definition AreIdentical (shapes0 shapes1 : list Rep) : outcome bool :=
  if (length shapes0 =? length shapes1)%nat then all_pairs IsIdenticalTo shapes0 shapes1 else Val false.

(** [TensorShapeUtils::NumElements]: the status and the result when it is set; [None] is the
    failed [CHECK] of the multiplication. *)
Fixpoint NumElements (n : Z) (shape : list Z) : option (Status * option Z) :=
  match shape with
  | [] => Some (OK, Some n)
  | dim :: shape =>
      n ← MultiplyWithoutOverflow n dim;
      if n <? 0 then Some (InvalidArgument, None) else NumElements n shape
  end.


End TensorShape.
