(* ===== verification/TensorShapeSpec.v ===== *)
(** * Tensor shapes: correctness

    A shape represents a list of dimensions, whatever its packed representation; the
    operations are the list operations, and they succeed exactly on the lists that are
    valid shapes. *)

From S2P Require Import Prelude TensorShape.
Import TensorShape.

(** ** Multiplication *)

Lemma shiftr_lor_zero a b : 0 <= a -> 0 <= b -> Z.shiftr (Z.lor a b) 32 = 0 -> a < 2 ^ 32 /\ b < 2 ^ 32.
Proof.
  intros Ha Hb H. rewrite Z.shiftr_lor in H. apply Z.lor_eq_0_iff in H as [H1 H2].
  rewrite Z.shiftr_div_pow2 in H1, H2 by lia. apply Z.div_small_iff in H1, H2; lia.
Qed.

Lemma i64_high z : 2 ^ 63 <= z < 2 ^ 64 -> i64 z < 0.
Proof.
  intros H. unfold i64. replace (z + 2 ^ 63) with (z - 2 ^ 63 + 1 * 2 ^ 64) by lia. rewrite Z.mod_add, Z.mod_small by lia. lia.
Qed.

Lemma multiply_spec x y :
  0 <= x < 2 ^ 63 -> 0 <= y < 2 ^ 63 ->
  exists r, MultiplyWithoutOverflow x y = Some r /\ (if x * y <? 2 ^ 63 then r = x * y else r < 0).
Proof.
  intros Hx Hy. unfold MultiplyWithoutOverflow. rewrite !(u64_small x), !(u64_small y) by lia.
  assert (0 <= x * y) by nia.
  assert (forall r, 0 <= r < 2 ^ 64 -> r = x * y -> if x * y <? 2 ^ 63 then i64 r = x * y else i64 r < 0) as Hr.
  { intros r Hr ->. destruct (Z.ltb_spec (x * y) (2 ^ 63)); [apply i64_small; lia|apply i64_high; lia]. }
  destruct (Z.eqb_spec (Z.shiftr (Z.lor x y) 32) 0) as [E|_]; cbn [negb].
  - apply shiftr_lor_zero in E as [? ?]; [|lia..]. assert (x * y < 2 ^ 64) by nia.
    rewrite u64_small by lia. eexists. split; [done|]. by apply Hr.
  - rewrite !(proj2 (Z.leb_le 0 _)) by lia. cbn [andb].
    destruct (Z.lt_ge_cases (x * y) (2 ^ 64)) as [Hlt|Hge].
    + rewrite u64_small by lia. destruct (Z.eqb_spec x 0) as [->|Hne]; cbn [negb andb]; [eexists; split; [done|]; by apply Hr|].
      assert (x * y / x = y) as -> by (rewrite Z.mul_comm; by apply Z.div_mul).
      rewrite Z.eqb_refl. cbn. eexists. split; [done|]. apply Hr; lia.
    + assert (x <> 0) by nia. rewrite (proj2 (Z.eqb_neq x 0)) by done. cbn [negb andb].
      pose proof (u64_range (x * y)). destruct (Z.eqb_spec (u64 (x * y) / x) y) as [E|_]; cbn [negb].
      * exfalso. pose proof (Z.mul_div_le (u64 (x * y)) x). nia.
      * eexists. split; [done|]. rewrite (proj2 (Z.ltb_ge _ _)) by lia. lia.
Qed.

(** ** Valid lists of dimensions *)

Section shape.
Context (p : bool).

Definition low : Z := if p then -1 else 0.

(** The number of elements after one more dimension, -1 for unknown. *)
Definition next (n d : Z) : Z := if p && ((n <? 0) || (d <? 0)) then -1 else n * d.

Fixpoint elems (n : Z) (l : list Z) : Z := match l with [] => n | d :: l => elems (next n d) l end.

(** No prefix has 2^63 elements or more. *)
Fixpoint fits (n : Z) (l : list Z) : bool :=
  match l with [] => true | d :: l => (next n d <? 2 ^ 63) && fits (next n d) l end.

Definition in_range (d : Z) : Prop := low <= d < 2 ^ 63.

Definition valid (l : list Z) : Prop :=
  Forall in_range l /\ (length l <= 254)%nat /\ fits 1 l = true.

#[export] Instance valid_dec l : Decision (valid l).
Proof. unfold valid, in_range. apply _. Defined.

Lemma elems_snoc n l d : elems n (l ++ [d]) = next (elems n l) d.
Proof. revert n. induction l as [|x l IH]; intros n; cbn; [done|]. apply IH. Qed.

Lemma fits_snoc n l d : fits n (l ++ [d]) = fits n l && (next (elems n l) d <? 2 ^ 63).
Proof.
  revert n. induction l as [|x l IH]; intros n; cbn; [by rewrite andb_true_r|]. rewrite IH. by rewrite andb_assoc.
Qed.

Lemma valid_snoc l d :
  valid (l ++ [d]) <-> valid l /\ in_range d /\ (length l < 254)%nat /\ next (elems 1 l) d < 2 ^ 63.
Proof.
  unfold valid. rewrite Forall_app, Forall_singleton, length_app, fits_snoc, andb_true_iff, Z.ltb_lt. cbn [length].
  split; [intros ((? & ?) & ? & ? & ?)|intros ((? & ? & ?) & ? & ? & ?)]; split_and!; try done; lia.
Qed.

Lemma valid_prefix l k : valid (l ++ k) -> valid l.
Proof.
  induction k as [|d k IH] using rev_ind; [by rewrite app_nil_r|]. rewrite app_assoc, valid_snoc. intros [? _]. auto.
Qed.

(** The counter is a known number of elements, or -1 in a partial shape. *)
Definition counter (n : Z) : Prop := 0 <= n < 2 ^ 63 \/ (p = true /\ n = -1).

Lemma next_counter n d : counter n -> in_range d -> next n d < 2 ^ 63 -> counter (next n d).
Proof.
  unfold counter, next, in_range, low. intros Hn Hd. destruct p; cbn [andb].
  - destruct (Z.ltb_spec n 0), (Z.ltb_spec d 0); cbn; intros; try (right; split; [done|lia]). left. nia.
  - intros. left. destruct Hn as [?|[? _]]; [nia|done].
Qed.

Lemma elems_counter l : valid l -> counter (elems 1 l).
Proof.
  induction l as [|d l IH] using rev_ind; [left; cbn; lia|]. intros (Hv & Hd & _ & Hn)%valid_snoc.
  rewrite elems_snoc. apply next_counter; auto.
Qed.

(** ** Representations *)

Definition decode (t : RepTag) (raw : Z) : Z :=
  match t with
  | REP16 => if p && (raw =? kUnknownRep16) then -1 else raw
  | REP32 => if p && (raw =? kUnknownRep32) then -1 else raw
  | REP_OUT_OF_LINE => raw
  end.

Definition capacity (t : RepTag) (n : nat) : Prop :=
  match t with REP16 => (n <= 6)%nat | REP32 => (n <= 3)%nat | REP_OUT_OF_LINE => True end.

(** The dimensions a shape holds, apart from the cached number of elements. *)
Record layout (s : Rep) (l : list Z) : Prop := {
  l_nd : ndims_byte s = Z.of_nat (length l);
  l_max : (length l <= 254)%nat;
  l_dims : map (decode (tag s)) (dims_ s) = l;
  l_cap : capacity (tag s) (length l);
  l_range : Forall in_range l
}.

Record repr (s : Rep) (l : list Z) : Prop := {
  r_layout : layout s l;
  r_num : num_elements s = elems 1 l;
  r_valid : valid l
}.

Lemma layout_length s l : layout s l -> length (dims_ s) = length l.
Proof. intros H. rewrite <- (l_dims _ _ H). by rewrite length_map. Qed.

Lemma known_rank s l : layout s l -> unknown_rank p s = false /\ dims p s = Z.of_nat (length l).
Proof.
  intros H. pose proof (l_nd _ _ H) as E. pose proof (l_max _ _ H). unfold unknown_rank, dims, kUnknownRank. rewrite E.
  rewrite (proj2 (Z.eqb_neq _ 255)) by lia. by rewrite andb_false_r.
Qed.

Lemma dim_size_run s l d x : layout s l -> l !! d = Some x -> dim_size p d s = Val (x, s).
Proof.
  intros H Hd. destruct (known_rank s l H) as [Eu Ed]. unfold dim_size. unfold mbind, M_bind, get. cbn. rewrite Eu, Ed.
  apply lookup_lt_Some in Hd as Hlt. rewrite (proj2 (Z.ltb_lt _ _)) by lia. cbn.
  pose proof (l_dims _ _ H) as El. apply (f_equal (fun l => l !! d)) in El. change (map ?f ?l) with (f <$> l) in El.
  rewrite list_lookup_fmap, Hd in El. destruct (dims_ s !! d) as [raw|]; [|done]. cbn in El |- *. injection El as <-.
  unfold decode. by destruct (tag s).
Qed.

Lemma iterate_run s l n d : layout s l -> (d + n <= length l)%nat -> iterate p n d s = Val (take n (drop d l), s).
Proof.
  intros H. revert d. induction n as [|n IH]; intros d Hle; [done|]. cbn [iterate].
  destruct (lookup_lt_is_Some_2 l d) as [x Hx]; [lia|]. unfold mbind, M_bind.
  rewrite (dim_size_run s l d x H Hx), IH by lia. cbn. by rewrite (drop_S _ _ _ Hx).
Qed.

Lemma dim_sizes_run s l : layout s l -> dim_sizes p s = Val (l, s).
Proof.
  intros H. destruct (known_rank s l H) as [Eu Ed]. unfold dim_sizes, mbind, M_bind, get. cbn. rewrite Eu, Ed. cbn.
  rewrite Nat2Z.id, (iterate_run s l) by (done || lia). rewrite firstn_all. done.
Qed.

Lemma wp_dim_sizes t s l (Q : list Z -> Rep -> Prop) : layout s l -> Q l s -> wp t (dim_sizes p) s Q.
Proof. intros H HQ. unfold wp. by rewrite (dim_sizes_run s l H). Qed.

(** ** Encoding a dimension *)

Definition encode16 (v : Z) : Z := if p && (v <? 0) then kUnknownRep16 else v mod 2 ^ 16.
Definition encode32 (v : Z) : Z := if p && (v <? 0) then kUnknownRep32 else u32 v.

Lemma decode16 v : in_range v -> v < kMaxRep16 -> decode REP16 (encode16 v) = v.
Proof.
  unfold in_range, low, decode, encode16, kMaxRep16, kUnknownRep16. intros Hv Hm. destruct p; cbn [andb].
  - destruct (Z.ltb_spec v 0); [by assert (v = -1) as -> by lia|]. rewrite Z.mod_small by lia. destruct (Z.eqb_spec v (2 ^ 16 - 1)); lia.
  - apply Z.mod_small. lia.
Qed.

Lemma decode32 v : in_range v -> v < kMaxRep32 -> decode REP32 (encode32 v) = v.
Proof.
  unfold in_range, low, decode, encode32, kMaxRep32, kUnknownRep32. intros Hv Hm. destruct p; cbn [andb].
  - destruct (Z.ltb_spec v 0); [by assert (v = -1) as -> by lia|]. rewrite u32_small by lia. destruct (Z.eqb_spec v (2 ^ 32 - 1)); lia.
  - apply u32_small. lia.
Qed.

Lemma store_end l v : store (length l) v l = l ++ [v].
Proof. unfold store. rewrite firstn_all, drop_ge by lia. done. Qed.

Lemma store_mid d v l : (d < length l)%nat -> store d v l = <[d := v]> l.
Proof. intros. unfold store. by rewrite insert_take_drop. Qed.

(** ** Adding a dimension *)

Lemma layout_push s l size t raws :
  layout s l -> in_range size -> (length l < 254)%nat -> capacity t (S (length l)) ->
  map (decode t) raws = l ++ [size] ->
  forall n, layout (mkRep t raws (u8 (ndims_byte s + 1)) (data_type s) n) (l ++ [size]).
Proof.
  intros H Hs Hlen Hcap Hraw n. constructor; cbn.
  - rewrite (l_nd _ _ H), length_app. cbn. rewrite u8_small; lia.
  - rewrite length_app. cbn. lia.
  - done.
  - rewrite length_app. cbn. by rewrite Nat.add_1_r.
  - apply Forall_app. split; [apply (l_range _ _ H)|by apply Forall_singleton].
Qed.

(** The new dimensions, in whichever representation holds them. *)
Definition extended (s s' : Rep) (l : list Z) : Prop :=
  capacity (tag s') (length l) /\ map (decode (tag s')) (dims_ s') = l
  /\ ndims_byte s' = ndims_byte s /\ data_type s' = data_type s.

Lemma change_rep_spec t s l size :
  layout s l -> in_range size ->
  wp t (vals ← AppendTo p;
        let vals := vals ++ [size] in
        if (length vals <=? 3)%nat && forallb (fun v => v <? kMaxRep32) vals then
          set_tag REP32 (map (fun v => if p && (v <? 0) then kUnknownRep32 else u32 v) vals)
        else set_tag REP_OUT_OF_LINE vals) s (fun _ s' => extended s s' (l ++ [size])).
Proof.
  intros H Hs. wp_step. apply (wp_dim_sizes t s l); [done|]. cbn zeta.
  assert (Forall in_range (l ++ [size])) as Hr by (apply Forall_app; split; [apply H|by apply Forall_singleton]).
  destruct ((length (l ++ [size]) <=? 3)%nat && _) eqn:E; unfold set_tag; wp_steps; unfold extended; cbn; split_and!; try done.
  - apply andb_true_iff in E as [E _]. apply Nat.leb_le in E. done.
  - apply andb_true_iff in E as [_ E]. rewrite forallb_forall in E. rewrite map_map. rewrite <- (map_id (l ++ [size])) at 2.
    apply map_ext_in. intros v Hv. specialize (E v Hv). apply Z.ltb_lt in E. apply decode32; [|done].
    rewrite Forall_forall in Hr. apply Hr. by apply list_elem_of_In.
  - apply map_id.
Qed.

Lemma UnsafeAddDim_spec t size n s l :
  layout s l -> in_range size -> (length l < 254)%nat ->
  wp t (UnsafeAddDim p size n) s (fun _ s' => layout s' (l ++ [size]) /\ num_elements s' = n /\ data_type s' = data_type s).
Proof.
  intros H Hs Hlen. pose proof (l_nd _ _ H) as End. pose proof (layout_length s l H) as El. pose proof (l_dims _ _ H) as Edims.
  unfold UnsafeAddDim. wp_step. wp_step. wp_step.
  eapply (wp_mono _ _ _ (fun _ s' => extended s s' (l ++ [size]))).
  - assert (forall raw, decode (tag s) raw = size -> capacity (tag s) (S (length l)) ->
      extended s (mkRep (tag s) (store (Z.to_nat (ndims_byte s)) raw (dims_ s)) (ndims_byte s) (data_type s) (num_elements s)) (l ++ [size])) as Hst.
    { intros raw Hd Hc. rewrite End, Nat2Z.id, <- El, store_end. unfold extended. cbn. rewrite map_app, Edims, length_app. cbn.
      rewrite Hd. split_and!; try done; [by rewrite Nat.add_1_r|congruence]. }
    destruct (tag s) eqn:Et; cbn [bool_decide andb].
    + rewrite bool_decide_eq_true_2, !bool_decide_eq_false_2 by done. cbn [andb].
      destruct (Z.ltb_spec (ndims_byte s) 6) as [H6|H6], (Z.ltb_spec size kMaxRep16) as [Hm|Hm]; cbn [andb]; try by apply change_rep_spec.
      unfold set_dims. wp_steps. rewrite Et. apply Hst; [by apply decode16|cbn; lia].
    + rewrite bool_decide_eq_false_2, bool_decide_eq_true_2, bool_decide_eq_false_2 by done. cbn [andb].
      destruct (Z.ltb_spec (ndims_byte s) 3) as [H3|H3], (Z.ltb_spec size kMaxRep32) as [Hm|Hm]; cbn [andb]; try by apply change_rep_spec.
      unfold set_dims. wp_steps. rewrite Et. apply Hst; [by apply decode32|cbn; lia].
    + rewrite !bool_decide_eq_false_2, bool_decide_eq_true_2 by done. cbn [andb]. unfold set_dims. wp_steps. unfold extended. cbn. rewrite Et.
      cbn in Edims. rewrite map_id in Edims |- *. rewrite Edims. done.
  - cbn beta. intros _ s' (Hc & Hd & Hn & Hdt). unfold set_ndims_byte, set_num_elements. wp_steps. split_and!; [|done|done]. cbn.
    rewrite length_app in Hc. cbn in Hc. rewrite Nat.add_1_r in Hc.
    constructor; cbn.
    + rewrite End, length_app. cbn. rewrite u8_small; lia.
    + rewrite length_app. cbn. lia.
    + done.
    + rewrite length_app. cbn. by rewrite Nat.add_1_r.
    + apply Forall_app. split; [apply H|by apply Forall_singleton].
Qed.

(** What the counter becomes. *)
Lemma next_spec n d :
  counter n -> in_range d -> p && ((n <? 0) || (d <? 0)) = false ->
  exists m, MultiplyWithoutOverflow n d = Some m /\ (if next n d <? 2 ^ 63 then m = next n d else m < 0).
Proof.
  intros Hn Hd E. unfold next. rewrite E. assert (0 <= n < 2 ^ 63 /\ 0 <= d < 2 ^ 63) as [? ?].
  { unfold counter, in_range, low in *. destruct p; cbn in E.
    - apply orb_false_iff in E as [?%Z.ltb_ge ?%Z.ltb_ge]. lia.
    - destruct Hn as [?|[? _]]; [lia|done]. }
  by apply multiply_spec.
Qed.

Lemma repr_push s' l size :
  valid (l ++ [size]) -> layout s' (l ++ [size]) -> num_elements s' = next (elems 1 l) size -> repr s' (l ++ [size]).
Proof. intros Hv Hl Hn. constructor; [done| |done]. by rewrite elems_snoc. Qed.

(** A size the type of the shape admits: any value for a full shape (checked), at least -1 for
    a partial one. *)
Definition arg_ok (size : Z) : Prop := (if p then -1 else - 2 ^ 63) <= size < 2 ^ 63.

Lemma AddDimWithStatus_spec t size s l :
  repr s l -> arg_ok size ->
  wp t (AddDimWithStatus p size) s (fun st s' =>
    if bool_decide (valid (l ++ [size])) then st = OK /\ repr s' (l ++ [size]) /\ data_type s' = data_type s
    else st = InvalidArgument /\ s' = s).
Proof.
  intros [Hl Hn Hv] Ha. destruct (known_rank s l Hl) as [Eu Ed]. pose proof (elems_counter l Hv) as Hc. unfold AddDimWithStatus.
  assert (negb p && (size <? 0) = false <-> in_range size) as Hin.
  { unfold in_range, low, arg_ok in *. destruct p; cbn; [split; [lia|done]|]. rewrite Z.ltb_ge. lia. }
  destruct (negb p && (size <? 0)) eqn:E0.
  { wp_steps. rewrite bool_decide_eq_false_2; [done|]. rewrite valid_snoc. intros (_ & Hr & _). by apply Hin in Hr. }
  assert (in_range size) as Hr by (by apply Hin). wp_steps. rewrite Eu, (l_nd _ _ Hl). unfold MaxDimensions.
  destruct (Z.leb_spec 254 (Z.of_nat (length l))) as [Hm|Hm].
  { wp_steps. rewrite bool_decide_eq_false_2; [done|]. rewrite valid_snoc. intros (_ & _ & ? & _). lia. }
  rewrite Hn. destruct (p && ((elems 1 l <? 0) || (size <? 0))) eqn:E1.
  - assert (next (elems 1 l) size = -1) as En by (unfold next; by rewrite E1).
    assert (valid (l ++ [size])) as Hv' by (rewrite valid_snoc, En; split_and!; try done; lia).
    wp_step. eapply wp_mono; [apply UnsafeAddDim_spec; [done..|lia]|]. cbn beta. intros _ s' (Hl' & Hn' & Hdt). wp_steps.
    rewrite bool_decide_eq_true_2 by done. split_and!; [done| |done]. apply repr_push; congruence.
  - destruct (next_spec (elems 1 l) size Hc Hr E1) as (m & Em & Hm').
    wp_step. eapply wp_of_option; [done|]. destruct (Z.ltb_spec (next (elems 1 l) size) (2 ^ 63)) as [Hlt|Hge].
    + subst m. assert (valid (l ++ [size])) as Hv' by (rewrite valid_snoc; split_and!; try done; lia).
      assert (0 <= next (elems 1 l) size).
      { unfold next. rewrite E1. unfold counter in Hc. unfold in_range, low in Hr. destruct p; cbn in E1.
        - apply orb_false_iff in E1 as [?%Z.ltb_ge ?%Z.ltb_ge]. nia.
        - destruct Hc as [?|[? _]]; [nia|done]. }
      rewrite (proj2 (Z.ltb_ge _ _)) by lia.
      wp_step. eapply wp_mono; [apply UnsafeAddDim_spec; [done..|lia]|]. cbn beta. intros _ s' (Hl' & Hn' & Hdt). wp_steps.
      rewrite bool_decide_eq_true_2 by done. split_and!; [done| |done]. by apply repr_push.
    + rewrite (proj2 (Z.ltb_lt _ _)) by lia. wp_steps. rewrite bool_decide_eq_false_2; [done|]. rewrite valid_snoc. lia.
Qed.

(** The checking variant aborts where the other reports an error. *)
Definition checked {A} (o : outcome (Status * A)) : outcome (unit * A) :=
  match o with Val (OK, s) => Val (tt, s) | Val (InvalidArgument, _) => Crash | Crash => Crash | NoFuel => NoFuel end.

Lemma AddDim_checked size s : AddDim p size s = checked (AddDimWithStatus p size s).
Proof.
  unfold AddDim, AddDimWithStatus. rewrite (Z.ltb_antisym 0 size).
  destruct (p || (0 <=? size)) eqn:E0.
  2: { apply orb_false_iff in E0 as [-> ->]. done. }
  assert (negb p && negb (0 <=? size) = false) as -> by (destruct p, (0 <=? size); done).
  unfold mbind, M_bind, get. cbn [CHECK mret M_ret]. destruct (unknown_rank p s); [done|].
  rewrite (Z.ltb_antisym MaxDimensions (ndims_byte s)). destruct (MaxDimensions <=? ndims_byte s); [done|]. cbn [negb CHECK mret M_ret].
  destruct (p && _); [by destruct (UnsafeAddDim p size (-1) s) as [[[] ?]| |]|].
  destruct (MultiplyWithoutOverflow _ _) as [m|]; [|done]. cbn [of_option mret M_ret].
  rewrite (Z.ltb_antisym 0 m). destruct (0 <=? m); [|done]. cbn [negb CHECK mret M_ret].
  by destruct (UnsafeAddDim p size m s) as [[[] ?]| |].
Qed.

Lemma AddDims_checked k s : AddDims p k s = checked (AddDimsWithStatus p k s).
Proof.
  revert s. induction k as [|d k IH]; intros s; [done|]. cbn [AddDims AddDimsWithStatus]. unfold mbind, M_bind. rewrite AddDim_checked.
  destruct (AddDimWithStatus p d s) as [[[] s']| |]; cbn; done || apply IH.
Qed.

Lemma AddDimsWithStatus_spec t k s l :
  repr s l -> Forall arg_ok k ->
  wp t (AddDimsWithStatus p k) s (fun st s' =>
    data_type s' = data_type s /\
    if bool_decide (valid (l ++ k)) then st = OK /\ repr s' (l ++ k)
    else st = InvalidArgument /\ exists k1 k2, k = k1 ++ k2 /\ repr s' (l ++ k1)).
Proof.
  revert s l. induction k as [|d k IH]; intros s l Hs Hk; cbn [AddDimsWithStatus].
  { wp_steps. rewrite app_nil_r, bool_decide_eq_true_2 by apply Hs. done. }
  apply Forall_cons in Hk as [Hd Hk]. wp_step. eapply wp_mono; [by apply AddDimWithStatus_spec|].
  cbn beta. intros st s1. replace (l ++ d :: k) with ((l ++ [d]) ++ k) by (by rewrite <- app_assoc). case_bool_decide as Hv.
  - intros (-> & Hs1 & Hdt). cbn. eapply wp_mono; [by apply IH|]. cbn beta. intros st s2 [Hdt2 H2]. split; [congruence|].
    case_bool_decide as Hv2; [done|]. destruct H2 as (-> & k1 & k2 & -> & H2). split; [done|].
    exists (d :: k1), k2. split; [done|]. by rewrite <- app_assoc in H2.
  - intros [-> ->]. cbn. wp_steps. split; [done|]. rewrite bool_decide_eq_false_2; [|intros H; by apply valid_prefix in H].
    split; [done|]. exists [], (d :: k). by rewrite app_nil_r.
Qed.

Lemma AddDims_run k s l :
  repr s l -> Forall arg_ok k ->
  if bool_decide (valid (l ++ k)) then exists s', AddDims p k s = Val (tt, s') /\ repr s' (l ++ k) /\ data_type s' = data_type s
  else AddDims p k s = Crash.
Proof.
  intros Hs Hk. rewrite AddDims_checked. pose proof (AddDimsWithStatus_spec true k s l Hs Hk) as H. unfold wp in H.
  destruct (AddDimsWithStatus p k s) as [[st s']| |]; [|done..]. destruct H as [Hdt H]. case_bool_decide.
  - destruct H as [-> H]. exists s'. done.
  - by destruct H as [-> _].
Qed.

(** ** Counting again *)

Lemma fits_unknown l : p = true -> fits (-1) l = true /\ elems (-1) l = -1.
Proof. intros E. induction l as [|d l IH]; [done|]. cbn [fits elems]. unfold next. rewrite E. cbn. done. Qed.

Lemma count_elements_spec t n l s :
  counter n -> 0 <= n -> Forall in_range l ->
  wp t (count_elements p n l) s (fun r s' => s' = s /\ r = if fits n l then Some (elems n l) else None).
Proof.
  revert n. induction l as [|d l IH]; intros n Hn H0 Hl; cbn [count_elements fits elems]; [by wp_steps|].
  apply Forall_cons in Hl as [Hd Hl]. destruct (p && (d <? 0)) eqn:E.
  - wp_steps. split; [done|]. apply andb_true_iff in E as [Ep Ed]. destruct (fits_unknown l Ep) as [H1 H2].
    unfold next. rewrite Ep, Ed, orb_true_r. cbn [andb]. rewrite H1, H2. done.
  - assert (p && ((n <? 0) || (d <? 0)) = false) as E' by (rewrite (proj2 (Z.ltb_ge n 0)) by lia; by destruct p).
    destruct (next_spec n d Hn Hd E') as (m & Em & Hm). wp_step. eapply wp_of_option; [done|].
    destruct (Z.ltb_spec (next n d) (2 ^ 63)) as [Hlt|Hge]; cbn [andb].
    + subst m. assert (0 <= next n d).
      { unfold next. rewrite E'. unfold in_range, low in Hd. destruct p; cbn in E; [apply Z.ltb_ge in E|]; nia. }
      rewrite (proj2 (Z.ltb_ge _ _)) by lia. apply IH; [left; lia|lia|done].
    + rewrite (proj2 (Z.ltb_lt _ _)) by lia. by wp_steps.
Qed.

Lemma RecomputeNumElements_spec t s l :
  layout s l ->
  wp t (RecomputeNumElements p) s (fun st s' =>
    if bool_decide (valid l) then st = OK /\ repr s' l /\ data_type s' = data_type s else st = InvalidArgument /\ s' = s).
Proof.
  intros H. destruct (known_rank s l H) as [Eu _]. unfold RecomputeNumElements. wp_steps. rewrite Eu.
  wp_step. apply (wp_dim_sizes t s l); [done|]. wp_step. eapply wp_mono; [apply count_elements_spec; [left; lia|lia|apply H]|].
  cbn beta. intros r s' [-> ->]. assert (valid l <-> fits 1 l = true) as Hv.
  { unfold valid. split; [tauto|]. intros ?. split_and!; [apply H|apply H|done]. }
  destruct (fits 1 l) eqn:E.
  - unfold set_num_elements. wp_steps. rewrite bool_decide_eq_true_2 by tauto. split_and!; [done| |done].
    constructor; [|done|tauto]. destruct H as [? ? ? ? ?]. by constructor.
  - wp_steps. rewrite bool_decide_eq_false_2; [done|]. rewrite Hv. done.
Qed.

(** ** Starting over *)

Lemma scalar_repr s : tag s = REP16 -> dims_ s = [] -> ndims_byte s = 0 -> num_elements s = 1 -> repr s [].
Proof.
  intros E1 E2 E3 E4. constructor; [constructor; rewrite ?E1, ?E2, ?E3; cbn; try done; lia|by rewrite E4|].
  split_and!; [constructor|cbn; lia|done].
Qed.

Lemma Clear_run s : exists s', ClearAllButDataType s = Val (tt, s') /\ repr s' [] /\ data_type s' = data_type s.
Proof. eexists. split; [reflexivity|]. split; [by apply scalar_repr|done]. Qed.

Lemma in_range_arg d : in_range d -> arg_ok d.
Proof. unfold in_range, arg_ok, low. destruct p; lia. Qed.

Lemma valid_args l : Forall in_range l -> Forall arg_ok l.
Proof. intros H. eapply Forall_impl; [exact H|]. apply in_range_arg. Qed.

(** ** Construction from sizes *)

(** Sizes that are small enough for the fast path. *)
Definition small (d : Z) : Prop := 0 <= d <= kMaxSmall.

Lemma not_large l :
  Forall arg_ok l -> existsb (fun s => kMaxSmall <? u64 s) l = false -> Forall small l.
Proof.
  intros Ha E. apply Forall_forall. intros d Hd. rewrite Forall_forall in Ha. specialize (Ha d Hd). unfold arg_ok in Ha.
  assert (kMaxSmall <? u64 d = false) as Hs.
  { destruct (kMaxSmall <? u64 d) eqn:E'; [|done]. rewrite <- not_true_iff_false in E. destruct E. apply existsb_exists.
    exists d. split; [by apply list_elem_of_In|done]. }
  apply Z.ltb_ge in Hs. unfold small. destruct (Z.lt_ge_cases d 0) as [Hn|Hn].
  - exfalso. unfold u64 in Hs. replace d with (d + 2 ^ 64 + (-1) * 2 ^ 64) in Hs by lia.
    rewrite Z.mod_add, Z.mod_small in Hs by (destruct p; lia). unfold kMaxSmall in Hs. destruct p; lia.
  - rewrite u64_small in Hs by lia. lia.
Qed.

Lemma small_product n l :
  0 <= n -> Forall small l -> n * kMaxSmall ^ Z.of_nat (length l) < 2 ^ 63 ->
  foldl (fun a b => i64 (a * b)) n l = elems n l /\ fits n l = true /\ 0 <= elems n l.
Proof.
  intros Hn Hl. revert n Hn. induction Hl as [|d l [Hd Hd'] Hl IH]; intros n Hn Hb; [done|]. cbn [foldl elems fits].
  assert (next n d = n * d) as -> by (unfold next; rewrite !(proj2 (Z.ltb_ge _ 0)) by lia; by rewrite andb_false_r).
  cbn [length] in Hb. rewrite Nat2Z.inj_succ, Z.pow_succ_r in Hb by lia.
  assert (1 <= kMaxSmall ^ Z.of_nat (length l)) by (apply Z.lt_pred_le, Z.pow_pos_nonneg; unfold kMaxSmall; lia).
  assert (0 <= n * d <= n * kMaxSmall) by nia. assert (n * d * kMaxSmall ^ Z.of_nat (length l) < 2 ^ 63) by nia.
  assert (n * d < 2 ^ 63) by nia. rewrite i64_small by lia. rewrite (proj2 (Z.ltb_lt _ _)) by lia. apply IH; lia.
Qed.

Lemma kMaxSmall_pow n : (n <= 4)%nat -> 1 * kMaxSmall ^ Z.of_nat n < 2 ^ 63.
Proof. intros. do 5 (destruct n as [|n]; [vm_compute; reflexivity|]). lia. Qed.

Lemma small_range d : small d -> in_range d /\ d < kMaxRep16.
Proof. unfold small, in_range, low, kMaxSmall, kMaxRep16. destruct p; lia. Qed.

Lemma Set16s_spec t k s pre :
  Forall small k -> dims_ s = pre ->
  wp t (Set16s p (length pre) k) s (fun neg s' => neg = false
    /\ s' = mkRep (tag s) (pre ++ k) (ndims_byte s) (data_type s) (num_elements s)).
Proof.
  revert s pre. induction k as [|d k IH]; intros s pre Hk E; cbn [Set16s].
  { wp_steps. rewrite app_nil_r. split; [done|]. destruct s; cbn in *; by subst. }
  apply Forall_cons in Hk as [[Hd Hd'] Hk]. wp_step. unfold Set16. wp_steps. rewrite (proj2 (Z.ltb_ge d 0)) by lia. rewrite andb_false_r.
  wp_step. apply wp_CHECK; [rewrite (proj2 (Z.leb_le 0 d)) by lia; by rewrite orb_true_r|].
  unfold set_dims. wp_steps. rewrite E, store_end, Z.mod_small by (unfold kMaxSmall in Hd'; lia).
  set (s1 := mkRep _ _ _ _ _). replace (S (length pre)) with (length (pre ++ [d])) by (rewrite length_app; cbn; lia).
  eapply wp_mono; [by apply (IH s1 (pre ++ [d]))|]. cbn beta. intros neg s' [-> ->]. wp_steps. cbn.
  by rewrite <- app_assoc.
Qed.

Lemma decode_small l : Forall small l -> map (decode REP16) l = l.
Proof.
  intros Hl. rewrite <- (map_id l) at 2. apply map_ext_in. intros d Hd. rewrite Forall_forall in Hl.
  specialize (Hl d). rewrite list_elem_of_In in Hl. specialize (Hl Hd). unfold small, kMaxSmall in Hl. unfold decode, kUnknownRep16.
  rewrite (proj2 (Z.eqb_neq _ _)) by lia. by rewrite andb_false_r.
Qed.

Lemma InitDims_spec t k s :
  tag s = REP16 -> dims_ s = [] -> Forall arg_ok k ->
  wp t (InitDims p k) s (fun st s' =>
    data_type s' = data_type s /\ if bool_decide (valid k) then st = OK /\ repr s' k else st = InvalidArgument).
Proof.
  intros Et Ed Hk. unfold InitDims. wp_steps. apply wp_CHECK; [by apply bool_decide_eq_true|]. cbn zeta.
  destruct (existsb (fun s => kMaxSmall <? u64 s) k) eqn:El; cbn [negb andb].
  - rewrite andb_false_r. cbn [andb]. unfold set_ndims_byte, set_num_elements. wp_steps.
    eapply wp_mono; [apply (AddDimsWithStatus_spec t k _ []); [by apply scalar_repr|done]|]. cbn beta. intros st s' [Hdt H].
    split; [done|]. cbn [app] in H. case_bool_decide; [done|tauto].
  - pose proof (not_large k Hk El) as Hsm. assert (existsb (fun s => s <? 0) k = false) as ->.
    { apply not_true_iff_false. intros (d & Hd%list_elem_of_In & Hn%Z.ltb_lt)%existsb_exists.
      rewrite Forall_forall in Hsm. destruct (Hsm d Hd). lia. }
    rewrite andb_false_r. destruct ((1 <=? length k)%nat && (length k <=? 4)%nat) eqn:E4.
    + apply andb_true_iff in E4 as [H1%Nat.leb_le H4%Nat.leb_le]. unfold set_ndims_byte. wp_steps.
      eapply wp_mono; [by apply (Set16s_spec t k _ [])|]. cbn beta. intros neg s' [-> ->]. unfold set_num_elements. wp_steps. cbn [app tag dims_ ndims_byte data_type].
      destruct (small_product 1 k) as (Ef & Hf & _); [lia|done|by apply kMaxSmall_pow|].
      assert (valid k) as Hv.
      { split_and!; [|lia|done]. eapply Forall_impl; [done|]. intros d Hd. by apply small_range. }
      split; [done|]. rewrite bool_decide_eq_true_2 by done. split; [done|]. constructor; [|by rewrite Ef|done].
      constructor; cbn; [done|lia| | |apply Hv]; rewrite Et; [by apply decode_small|cbn; lia].
    + unfold set_ndims_byte, set_num_elements. wp_steps.
      eapply wp_mono; [apply (AddDimsWithStatus_spec t k _ []); [by apply scalar_repr|done]|]. cbn beta. intros st s' [Hdt H].
      split; [done|]. cbn [app] in H. case_bool_decide; [done|tauto].
Qed.

(** ** Editing *)

(** The run gives a shape of dimensions [l], or aborts when [l] is not a valid shape. *)
Definition becomes (o : outcome (unit * Rep)) (s : Rep) (l : list Z) : Prop :=
  if bool_decide (valid l) then exists s', o = Val (tt, s') /\ repr s' l /\ data_type s' = data_type s else o = Crash.

Lemma rebuild_run s l (f : list Z -> list Z) :
  layout s l -> Forall arg_ok (f l) ->
  becomes ((vals ← AppendTo p; ClearAllButDataType;; AddDims p (f vals)) s) s (f l).
Proof.
  intros H Hf. unfold AppendTo, mbind, M_bind. rewrite (dim_sizes_run s l H). destruct (Clear_run s) as (s1 & -> & Hs1 & Hdt).
  unfold becomes. pose proof (AddDims_run (f l) s1 [] Hs1 Hf) as Hr. cbn [app] in Hr. case_bool_decide; [|done].
  destruct Hr as (s' & -> & ? & ?). exists s'. split_and!; [done..|congruence].
Qed.

Lemma InsertDim_run d size s l :
  repr s l -> (0 <= d <= Z.of_nat (length l)) -> arg_ok size ->
  becomes (InsertDim p d size s) s (take (Z.to_nat d) l ++ size :: drop (Z.to_nat d) l).
Proof.
  intros [Hl _ Hv] Hd Hs. destruct (known_rank s l Hl) as [Eu Ed].
  assert (Forall in_range l) as Hr by apply Hl.
  pose proof (rebuild_run s l (fun l => take (Z.to_nat d) l ++ size :: drop (Z.to_nat d) l) Hl) as Hrb. cbn beta in Hrb.
  unfold InsertDim. rewrite run_get, Ed.
  rewrite (proj2 (Z.leb_le 0 d)), (proj2 (Z.leb_le d _)) by lia. cbn [CHECK].
  assert (forall (m : MS unit), (mret tt;; m) = m) as Hret by done. rewrite !Hret.
  destruct (p || (0 <=? size)) eqn:Es; cbn [CHECK].
  2: { unfold becomes. rewrite bool_decide_eq_false_2; [done|]. intros (HF & _). apply orb_false_iff in Es as [Ep Es%Z.leb_gt].
       apply Forall_app in HF as [_ HF]. apply Forall_cons in HF as [HF _]. unfold in_range, low in HF. rewrite Ep in HF. lia. }
  rewrite Hret. destruct (Z.ltb_spec (Z.of_nat (length l)) MaxDimensions) as [Hm|Hm]; cbn [CHECK].
  2: { unfold becomes. rewrite bool_decide_eq_false_2; [done|]. intros (_ & HF & _). rewrite length_app in HF. cbn [length] in HF.
       rewrite length_take, length_drop in HF. unfold MaxDimensions in Hm. lia. }
  rewrite Hret. apply Hrb. apply Forall_app. split; [by apply Forall_take, valid_args|].
  constructor; [done|]. by apply Forall_drop, valid_args.
Qed.

Lemma RemoveDimRange_run b e s l :
  repr s l -> let norm i := if i <? 0 then Z.of_nat (length l) + i + 1 else i in
  0 <= norm b <= Z.of_nat (length l) -> 0 <= norm e <= Z.of_nat (length l) ->
  if norm e <=? norm b then RemoveDimRange p b e s = Val (tt, s)
  else becomes (RemoveDimRange p b e s) s (take (Z.to_nat (norm b)) l ++ drop (Z.to_nat (norm e)) l).
Proof.
  intros [Hl _ Hv] norm Hb He. destruct (known_rank s l Hl) as [Eu Ed].
  assert (Forall in_range l) as Hr by apply Hl.
  pose proof (rebuild_run s l (fun l => take (Z.to_nat (norm b)) l ++ drop (Z.to_nat (norm e)) l) Hl) as Hrb. cbn beta in Hrb.
  unfold RemoveDimRange. rewrite run_get, Eu, Ed. cbn zeta. fold (norm b) (norm e).
  rewrite !(proj2 (Z.leb_le 0 _)), !(proj2 (Z.leb_le _ (Z.of_nat (length l)))) by lia. cbn [CHECK].
  assert (forall (m : MS unit), (mret tt;; m) = m) as Hret by done. rewrite !Hret.
  destruct (norm e <=? norm b); [done|].
  assert (Forall (arg_ok) (take (Z.to_nat (norm b)) l ++ drop (Z.to_nat (norm e)) l)) as Hargs.
  { apply Forall_app. split; [by apply Forall_take, valid_args|by apply Forall_drop, valid_args]. }
  specialize (Hrb Hargs). unfold becomes in Hrb |- *.
  unfold mbind, M_bind in Hrb |- *. destruct (AppendTo p s) as [[vals s1]| |]; [|by case_bool_decide; [destruct Hrb as (? & ? & _)|]..].
  destruct (ClearAllButDataType s1) as [[[] s2]| |]; [|by case_bool_decide; [destruct Hrb as (? & ? & _)|]..].
  case_bool_decide as Hvl; [|by rewrite Hrb]. destruct Hrb as (s' & -> & Hs' & Hdt).
  pose proof (RecomputeNumElements_spec true s' _ (r_layout _ _ Hs')) as Hrec. rewrite bool_decide_eq_true_2 in Hrec by done. unfold wp in Hrec.
  destruct (RecomputeNumElements p s') as [[st s3]| |]; [|done..]. destruct Hrec as (-> & H3 & Hdt3). cbn. exists s3. split_and!; [done..|congruence].
Qed.

Lemma set_in_place_spec d size s l l' :
  layout s l -> (d < length l)%nat -> 0 <= size < 2 ^ 63 -> set_in_place p d size s = Some l' ->
  forall n, layout (mkRep (tag s) l' (ndims_byte s) (data_type s) n) (<[d := size]> l).
Proof.
  intros H Hd Hs E n. pose proof (layout_length s l H) as El.
  assert (in_range size) as Hr by (unfold in_range, low; destruct p; lia).
  assert (map (decode (tag s)) l' = <[d := size]> l) as Hm.
  { rewrite <- (l_dims _ _ H). change (map ?f ?l) with (f <$> l). unfold set_in_place in E.
    rewrite !store_mid in E by lia. destruct (tag s) eqn:Et; cbn [bool_decide] in E.
    - rewrite bool_decide_eq_true_2, !bool_decide_eq_false_2 in E by done. cbn [andb] in E.
      destruct (Z.ltb_spec size kMaxRep16); [|done]. injection E as <-. rewrite list_fmap_insert. f_equal. by apply decode16.
    - rewrite bool_decide_eq_false_2, bool_decide_eq_true_2, bool_decide_eq_false_2 in E by done. cbn [andb] in E.
      destruct (Z.ltb_spec size kMaxRep32); [|done]. injection E as <-. rewrite list_fmap_insert. f_equal. by apply decode32.
    - rewrite !bool_decide_eq_false_2, bool_decide_eq_true_2 in E by done. cbn [andb] in E. injection E as <-. by rewrite list_fmap_insert. }
  destruct H as [H1 H2 H3 H4 H5]. constructor; cbn; rewrite ?length_insert; try done. by apply Forall_insert.
Qed.

Lemma set_dim_run d size s l :
  repr s l -> 0 <= d < Z.of_nat (length l) -> 0 <= size < 2 ^ 63 ->
  becomes (set_dim p d size s) s (<[Z.to_nat d := size]> l).
Proof.
  intros [Hl _ Hv] Hd Hs. destruct (known_rank s l Hl) as [Eu Ed]. unfold set_dim. rewrite run_get, Ed.
  rewrite !(proj2 (Z.leb_le 0 _)), (proj2 (Z.ltb_lt d _)) by lia. cbn [CHECK].
  assert (forall (m : MS unit), (mret tt;; m) = m) as Hret by done. rewrite !Hret.
  assert (Forall in_range (<[Z.to_nat d := size]> l)) as Hr.
  { apply Forall_insert; [apply Hl|]. unfold in_range, low. destruct p; lia. }
  assert (forall s1, layout s1 (<[Z.to_nat d := size]> l) -> data_type s1 = data_type s ->
    becomes ((st ← RecomputeNumElements p; CHECK (bool_decide (st = OK))) s1) s (<[Z.to_nat d := size]> l)) as Hrec.
  { intros s1 Hl1 Hdt1. pose proof (RecomputeNumElements_spec true s1 _ Hl1) as Hrec. unfold becomes. unfold wp in Hrec. unfold mbind, M_bind.
    destruct (RecomputeNumElements p s1) as [[st s3]| |]; [|done..]. case_bool_decide.
    - destruct Hrec as (-> & H3 & Hdt3). cbn. exists s3. split_and!; [done..|congruence].
    - by destruct Hrec as [-> ->]. }
  destruct (set_in_place p (Z.to_nat d) size s) as [l'|] eqn:E.
  - apply (Hrec (mkRep (tag s) l' (ndims_byte s) (data_type s) (num_elements s))); [|done].
    apply (set_in_place_spec (Z.to_nat d) size s l l'); [done|lia|done|done].
  - pose proof (rebuild_run s l (fun l => <[Z.to_nat d := size]> l) Hl (valid_args _ Hr)) as Hrb.
    unfold becomes at 1 in Hrb. unfold mbind at 1, M_bind at 1. unfold becomes.
    case_bool_decide as Hvl; [|by rewrite Hrb]. destruct Hrb as (s1 & -> & Hs1 & Hdt1).
    specialize (Hrec s1 (r_layout _ _ Hs1) Hdt1). unfold becomes in Hrec. by rewrite bool_decide_eq_true_2 in Hrec.
Qed.

End shape.
