(* ===== verification/TensorShapeTheorems.v ===== *)
(** * Tensor shapes: the theorems

    Construction, editing, protocol buffers, merging and comparison of shapes. *)

From S2P Require Import Prelude TensorShape TensorShapeSpec.
Import TensorShape.

(** ** Reporting variants *)

Section status.
Context (p : bool).

Lemma SetDimWithStatus_spec t d size s l :
  repr p s l -> - 2 ^ 63 <= size < 2 ^ 63 ->
  wp t (SetDimWithStatus p d size) s (fun st s' =>
    if (0 <=? d) && (d <? Z.of_nat (length l)) && (0 <=? size) then
      if bool_decide (valid p (<[Z.to_nat d := size]> l)) then st = OK /\ repr p s' (<[Z.to_nat d := size]> l)
      else st = InvalidArgument
    else st = InvalidArgument /\ s' = s).
Proof.
  intros [Hl _ Hv] Hs. destruct (known_rank p s l Hl) as [Eu Ed]. unfold SetDimWithStatus. wp_steps. rewrite Ed.
  rewrite (Z.ltb_antisym 0 d). destruct (Z.leb_spec 0 d) as [Hd0|Hd0]; cbn [negb andb]; [|by wp_steps].
  rewrite (Z.leb_antisym d (Z.of_nat (length l))). destruct (Z.ltb_spec d (Z.of_nat (length l))) as [Hd1|Hd1]; cbn [negb andb]; [|by wp_steps].
  rewrite (Z.ltb_antisym 0 size). destruct (Z.leb_spec 0 size) as [Hs0|Hs0]; cbn [negb andb]; [|by wp_steps].
  assert (Forall (in_range p) (<[Z.to_nat d := size]> l)) as Hr.
  { apply Forall_insert; [apply Hl|]. unfold in_range, low. destruct p; lia. }
  assert (forall s1, layout p s1 (<[Z.to_nat d := size]> l) ->
    wp t (RecomputeNumElements p) s1 (fun st s' => if bool_decide (valid p (<[Z.to_nat d := size]> l))
      then st = OK /\ repr p s' (<[Z.to_nat d := size]> l) else st = InvalidArgument)) as Hrec.
  { intros s1 Hl1. eapply wp_mono; [by apply RecomputeNumElements_spec|]. cbn beta. intros st s' H. case_bool_decide; tauto. }
  destruct (set_in_place p (Z.to_nat d) size s) as [l'|] eqn:E.
  - unfold set_dims. wp_steps. cbn. apply Hrec. apply (set_in_place_spec p (Z.to_nat d) size s l l'); [done|lia|lia|done].
  - wp_step. wp_step. apply (wp_dim_sizes p t s l); [done|]. destruct (Clear_run p s) as (s1 & Ec & Hs1 & _).
    wp_step. unfold wp at 1. rewrite Ec.
    eapply wp_mono; [apply (AddDimsWithStatus_spec p t _ s1 []); [done|by apply valid_args]|]. cbn beta. intros st s2 [_ H2]. cbn [app] in H2.
    case_bool_decide as Hvl.
    + destruct H2 as [-> H2]. cbn. eapply wp_mono; [apply Hrec, H2|]. cbn beta. done.
    + destruct H2 as [-> _]. cbn. by wp_steps.
Qed.

(** ** Protocol buffers *)

Definition in_rangeb (d : Z) : bool := bool_decide (in_range p d).

Lemma IsValid_loop_spec n l :
  counter p n -> Forall (fun d => - 2 ^ 63 <= d < 2 ^ 63) l ->
  IsValid_loop p n l = Some (forallb in_rangeb l && fits p n l).
Proof.
  revert n. induction l as [|d l IH]; intros n Hn Hl; [done|]. apply Forall_cons in Hl as [Hd Hl]. cbn [IsValid_loop forallb fits].
  change (if p then -1 else 0) with (low p). destruct (Z.ltb_spec d (low p)) as [Hlow|Hlow].
  { unfold in_rangeb at 1. rewrite bool_decide_eq_false_2; [done|]. unfold in_range. lia. }
  assert (in_range p d) as Hr by (unfold in_range; lia). unfold in_rangeb at 1. rewrite bool_decide_eq_true_2 by done. cbn [andb].
  assert (forall m, m = next p n d -> m < 2 ^ 63 -> IsValid_loop p m l = Some (forallb in_rangeb l && ((next p n d <? 2 ^ 63) && fits p (next p n d) l))) as Hgo.
  { intros m -> Hlt. rewrite (proj2 (Z.ltb_lt _ _)) by done. cbn [andb]. apply IH; [by apply next_counter|done]. }
  destruct (Z.eqb_spec d (-1)) as [->|Hne].
  { apply Hgo; [|lia]. unfold next. unfold low in Hlow. destruct p; [|lia]. cbn. by rewrite orb_true_r. }
  destruct (negb p || (0 <=? n)) eqn:E.
  - assert (p && ((n <? 0) || (d <? 0)) = false) as E'.
    { unfold low in Hlow. destruct p; [|done]. cbn in E |- *. apply Z.leb_le in E. rewrite !(proj2 (Z.ltb_ge _ 0)) by lia. done. }
    destruct (next_spec p n d Hn Hr E') as (m & -> & Hm). cbn [mbind option_bind].
    destruct (Z.ltb_spec (next p n d) (2 ^ 63)) as [Hlt|Hge]; cbn [andb].
    + assert (0 <= m). { subst m. unfold next. rewrite E'. unfold counter in Hn. unfold low in Hlow.
        destruct p; cbn in E'; [apply orb_false_iff in E' as [?%Z.ltb_ge ?%Z.ltb_ge]; nia|destruct Hn as [?|[? _]]; [nia|done]]. }
      rewrite (proj2 (Z.ltb_ge m 0)) by lia. apply (Hgo m); [done|lia].
    + rewrite (proj2 (Z.ltb_lt m 0)) by lia. by rewrite andb_false_r.
  - apply orb_false_iff in E as [Ep%negb_false_iff E%Z.leb_gt]. destruct Hn as [?|[_ ->]]; [lia|].
    apply Hgo; [|lia]. unfold next. by rewrite Ep.
Qed.

Lemma forallb_in_range l : forallb in_rangeb l = true <-> Forall (in_range p) l.
Proof.
  rewrite forallb_forall, Forall_forall. unfold in_rangeb. split.
  - intros H d Hd. eapply bool_decide_eq_true, H. by apply list_elem_of_In.
  - intros H d Hd. apply bool_decide_eq_true, H. by apply list_elem_of_In.
Qed.

Lemma IsValid_spec l :
  Forall (fun d => - 2 ^ 63 <= d < 2 ^ 63) l -> IsValid p (mkProto l false) = Some (bool_decide (valid p l)).
Proof.
  intros Hl. unfold IsValid. cbn [proto_unknown_rank proto_dim]. rewrite andb_false_r. unfold MaxDimensions.
  destruct (Z.ltb_spec 254 (Z.of_nat (length l))) as [Hm|Hm].
  { rewrite bool_decide_eq_false_2; [done|]. unfold valid. lia. }
  rewrite IsValid_loop_spec; [|left; lia|done]. f_equal. apply eq_true_iff_eq.
  rewrite andb_true_iff, bool_decide_eq_true, forallb_in_range. unfold valid. split; [intros [? ?]; split_and!; [done|lia|done]|tauto].
Qed.

Lemma BuildProto_spec t l s :
  Forall (arg_ok p) l ->
  wp t (BuildTensorShapeBase_proto p (mkProto l false)) s (fun st s' =>
    if bool_decide (valid p l) then st = OK /\ repr p s' l else st = InvalidArgument).
Proof.
  intros Hl. unfold BuildTensorShapeBase_proto. cbn [proto_unknown_rank proto_dim]. rewrite andb_false_r.
  unfold set_tag, set_data_type, set_ndims_byte, set_num_elements. wp_steps.
  eapply wp_mono; [apply (AddDimsWithStatus_spec p t l _ []); [by apply scalar_repr|done]|].
  cbn beta. intros st s' [_ H]. cbn [app] in H. case_bool_decide; tauto.
Qed.

Lemma AsProto_run s l : layout p s l -> AsProto p s = Val (mkProto l false, s).
Proof.
  intros H. destruct (known_rank p s l H) as [Eu Ed]. unfold AsProto. rewrite run_get, Eu, Ed. unfold mbind, M_bind.
  rewrite (iterate_run p s l) by (done || lia). rewrite Nat2Z.id, firstn_all. done.
Qed.

(** ** Arrays of sizes *)

Lemma MakeShape_loop_spec t k s l :
  repr p s l -> Forall (fun d => - 2 ^ 63 <= d < 2 ^ 63) k -> (length l + length k <= 254)%nat ->
  wp t (MakeShape_loop p k) s (fun st s' =>
    if bool_decide (valid p (l ++ k)) then st = OK /\ repr p s' (l ++ k) else st = InvalidArgument).
Proof.
  revert s l. induction k as [|d k IH]; intros s l Hs Hk Hlen; cbn [MakeShape_loop].
  { wp_steps. rewrite app_nil_r, bool_decide_eq_true_2 by apply Hs. done. }
  apply Forall_cons in Hk as [Hd Hk]. cbn [length] in Hlen. pose proof Hs as [Hl Hn Hv]. pose proof (elems_counter p l Hv) as Hc.
  replace (l ++ d :: k) with ((l ++ [d]) ++ k) by (by rewrite <- app_assoc).
  assert (forall st s', ~ valid p (l ++ [d]) -> st = InvalidArgument ->
    if bool_decide (valid p ((l ++ [d]) ++ k)) then st = OK /\ repr p s' ((l ++ [d]) ++ k) else st = InvalidArgument) as Hbad.
  { intros st s' Hnv ->. rewrite bool_decide_eq_false_2; [done|]. intros H. by apply valid_prefix in H. }
  assert (forall n, in_range p d -> n = next p (elems p 1 l) d -> n < 2 ^ 63 ->
    wp t (UnsafeAddDim p d n;; MakeShape_loop p k) s (fun st s' =>
      if bool_decide (valid p ((l ++ [d]) ++ k)) then st = OK /\ repr p s' ((l ++ [d]) ++ k) else st = InvalidArgument)) as Hgood.
  { intros n Hr -> Hlt. wp_step. eapply wp_mono; [apply UnsafeAddDim_spec; [done..|lia]|]. cbn beta. intros _ s1 (Hl1 & Hn1 & _).
    apply IH; [|done|rewrite length_app; cbn; lia]. apply repr_push; [|done|done]. rewrite valid_snoc. split_and!; [done..|lia|done]. }
  wp_steps. destruct (Z.ltb_spec d 0) as [Hneg|Hpos].
  - destruct p eqn:Ep; cbn [negb].
    + destruct (Z.ltb_spec d (-1)) as [Hl1|Hl1].
      * wp_steps. apply Hbad; [|done]. rewrite valid_snoc. intros (_ & Hx & _). unfold in_range, low in Hx. cbn in Hx. lia.
      * assert (d = -1) as -> by lia. apply Hgood; [unfold in_range, low; lia| |lia]. unfold next. cbn. by rewrite orb_true_r.
    + wp_steps. apply Hbad; [|done]. rewrite valid_snoc. intros (_ & Hx & _). unfold in_range, low in Hx. cbn in Hx. lia.
  - assert (in_range p d) as Hr by (unfold in_range, low; destruct p; lia). rewrite Hn.
    destruct (Z.ltb_spec (elems p 1 l) 0) as [Hu|Hu].
    + assert (p = true) as Ep by (unfold counter in Hc; destruct Hc as [?|[? _]]; [lia|done]).
      apply Hgood; [done| |lia]. unfold next. rewrite (proj2 (Z.ltb_lt (elems p 1 l) 0) Hu), Ep. done.
    + assert (p && ((elems p 1 l <? 0) || (d <? 0)) = false) as E' by (rewrite !(proj2 (Z.ltb_ge _ 0)) by lia; by destruct p).
      destruct (next_spec p (elems p 1 l) d Hc Hr E') as (m & Em & Hm). wp_step. eapply wp_of_option; [done|].
      destruct (Z.ltb_spec (next p (elems p 1 l) d) (2 ^ 63)) as [Hlt|Hge].
      * subst m. assert (0 <= next p (elems p 1 l) d) by (unfold next; rewrite E'; nia).
        rewrite (proj2 (Z.ltb_ge _ 0)) by lia. by apply Hgood.
      * rewrite (proj2 (Z.ltb_lt m 0)) by lia. wp_steps. apply Hbad; [|done]. rewrite valid_snoc. lia.
Qed.

Lemma MakeShapeHelper_spec t k s :
  Forall (fun d => - 2 ^ 63 <= d < 2 ^ 63) k ->
  wp t (MakeShapeHelper p k) s (fun st s' =>
    if bool_decide (valid p k) then st = OK /\ repr p s' k else st = InvalidArgument).
Proof.
  intros Hk. unfold MakeShapeHelper, Clear, ClearAllButDataType, set_tag, set_data_type, set_ndims_byte, set_num_elements, MaxDimensions. wp_steps.
  destruct (Z.ltb_spec 254 (Z.of_nat (length k))) as [Hm|Hm].
  - wp_steps. rewrite bool_decide_eq_false_2; [done|]. unfold valid. lia.
  - apply (MakeShape_loop_spec t k _ []); [by apply scalar_repr|done|cbn; lia].
Qed.

End status.

(** ** Merging partial shapes *)

Definition agree (d0 d1 : Z) : Prop := d0 < 0 \/ d1 < 0 \/ d0 = d1.
#[export] Instance agree_dec d0 d1 : Decision (agree d0 d1).
Proof. unfold agree. apply _. Defined.

Definition merge (d0 d1 : Z) : Z := if 0 <=? d0 then d0 else d1.

Lemma agree_test d0 d1 : (0 <=? d0) && (0 <=? d1) && negb (d0 =? d1) = negb (bool_decide (agree d0 d1)).
Proof.
  unfold agree. apply eq_true_iff_eq. rewrite !andb_true_iff, !negb_true_iff, bool_decide_eq_false, !Z.leb_le, Z.eqb_neq. lia.
Qed.

Lemma with_dim_run {A} p s l d x (k : Z -> outcome A) : layout p s l -> l !! d = Some x -> with_dim p s d k = k x.
Proof. intros Hs Hx. unfold with_dim. by rewrite (dim_size_run p s l d x Hs Hx). Qed.

(** The next entries of two lists that a loop has not read to the end. *)
Lemma next_dims (l0 l1 : list Z) i j n : (i + S n <= length l0)%nat -> (j + S n <= length l1)%nat ->
  exists x y, l0 !! i = Some x /\ l1 !! j = Some y /\ take (S n) (drop i l0) = x :: take n (drop (S i) l0) /\ take (S n) (drop j l1) = y :: take n (drop (S j) l1).
Proof.
  intros Hi Hj. destruct (lookup_lt_is_Some_2 l0 i) as [x Hx]; [lia|]. destruct (lookup_lt_is_Some_2 l1 j) as [y Hy]; [lia|].
  exists x, y. rewrite (drop_S l0 x i Hx), (drop_S l1 y j Hy). done.
Qed.

Lemma compatible_loop_run a b l0 l1 : layout true a l0 -> layout true b l1 -> forall n i, (i + n <= length l0)%nat -> (i + n <= length l1)%nat ->
  compatible_loop a b n i = Val (bool_decide (Forall2 agree (take n (drop i l0)) (take n (drop i l1)))).
Proof.
  intros Ha Hb. induction n as [|n IH]; intros i H0 H1; cbn [compatible_loop].
  { reflexivity. }
  destruct (next_dims l0 l1 i i n H0 H1) as (x & y & Hx & Hy & -> & ->). rewrite (with_dim_run true a l0 i x), (with_dim_run true b l1 i y), agree_test by done.
  case_bool_decide as Hxy; cbn [negb].
  - rewrite IH by lia. f_equal. apply bool_decide_ext. rewrite Forall2_cons. tauto.
  - f_equal. symmetry. apply bool_decide_eq_false_2. rewrite Forall2_cons. tauto.
Qed.

(** The merged dimensions before the first two that differ. *)
Fixpoint merged (l0 l1 : list Z) : list Z :=
  match l0, l1 with
  | d0 :: l0, d1 :: l1 => if bool_decide (agree d0 d1) then merge d0 d1 :: merged l0 l1 else []
  | _, _ => []
  end.

Lemma merged_agree l0 l1 : Forall2 agree l0 l1 -> merged l0 l1 = zip_with merge l0 l1.
Proof. induction 1 as [|d0 d1 l0 l1 Ha _ IH]; [done|]. cbn. by rewrite bool_decide_eq_true_2, IH. Qed.

Lemma MergeWith_loop_run a b l0 l1 : layout true a l0 -> layout true b l1 -> forall n i s l, (i + n <= length l0)%nat -> (i + n <= length l1)%nat -> repr true s l ->
  let k0 := take n (drop i l0) in let k1 := take n (drop i l1) in
  if bool_decide (valid true (l ++ merged k0 k1)) then
    if bool_decide (Forall2 agree k0 k1) then exists s', MergeWith_loop a b n i s = Val (OK, s') /\ repr true s' (l ++ merged k0 k1)
    else exists s', MergeWith_loop a b n i s = Val (InvalidArgument, s')
  else MergeWith_loop a b n i s = Crash.
Proof.
  intros Ha Hb. induction n as [|n IH]; intros i s l H0 H1 Hs; cbn zeta.
  { rewrite !take_0. cbn [merged]. rewrite app_nil_r, !bool_decide_eq_true_2; [|constructor|apply Hs]. by exists s. }
  destruct (next_dims l0 l1 i i n H0 H1) as (x & y & Hx & Hy & -> & ->). cbn [MergeWith_loop merged]. unfold mbind, M_bind, read_dim. rewrite (with_dim_run true a l0 i x), (with_dim_run true b l1 i y) by done.
  rewrite agree_test. destruct (bool_decide_reflect (agree x y)) as [Hxy|Hxy]; cbn [negb].
  2:{ rewrite app_nil_r, bool_decide_eq_true_2 by apply Hs. rewrite bool_decide_eq_false_2 by (rewrite Forall2_cons; tauto). by exists s. }
  fold (merge x y). assert (in_range true (merge x y)) as Hr. { pose proof (l_range _ _ _ Ha) as Ra. pose proof (l_range _ _ _ Hb) as Rb. unfold merge. destruct (0 <=? x); [by apply (Forall_lookup_1 _ _ _ _ Ra Hx)|by apply (Forall_lookup_1 _ _ _ _ Rb Hy)]. }
  replace (l ++ merge x y :: merged (take n (drop (S i) l0)) (take n (drop (S i) l1))) with ((l ++ [merge x y]) ++ merged (take n (drop (S i) l0)) (take n (drop (S i) l1))) by (by rewrite <- app_assoc).
  rewrite AddDim_checked. pose proof (AddDimWithStatus_spec true true (merge x y) s l Hs (in_range_arg true _ Hr)) as Hadd. unfold wp in Hadd.
  destruct (AddDimWithStatus true (merge x y) s) as [[st s1]| |]; [|done..]. destruct (bool_decide_reflect (valid true (l ++ [merge x y]))) as [Hv|Hv].
  - destruct Hadd as (-> & Hs1 & _). cbn [checked]. specialize (IH (S i) s1 (l ++ [merge x y]) ltac:(lia) ltac:(lia) Hs1). cbn zeta in IH. case_bool_decide; [|done].
    assert (Forall2 agree (x :: take n (drop (S i) l0)) (y :: take n (drop (S i) l1)) <-> Forall2 agree (take n (drop (S i) l0)) (take n (drop (S i) l1))) as E by (rewrite Forall2_cons; tauto). by rewrite (bool_decide_ext _ _ E).
  - destruct Hadd as [-> _]. rewrite bool_decide_eq_false_2; [done|]. intros ?%valid_prefix. done.
Qed.

(** ** Shapes of unknown rank *)

(** [None]: the rank is unknown. *)
Definition denotes (p : bool) (s : Rep) (o : option (list Z)) : Prop :=
  match o with Some l => repr p s l | None => p = true /\ ndims_byte s = kUnknownRank /\ num_elements s = -1 end.

Lemma unknown_run s : denotes true s None -> unknown_rank true s = true /\ dims true s = -1.
Proof. intros (_ & E & _). unfold unknown_rank, dims. by rewrite E. Qed.

Lemma denotes_unknown s : denotes true s None <-> ndims_byte s = kUnknownRank /\ num_elements s = -1.
Proof. unfold denotes. tauto. Qed.

Definition compatible (o0 o1 : option (list Z)) : Prop := match o0, o1 with Some l0, Some l1 => Forall2 agree l0 l1 | _, _ => True end.
#[export] Instance compatible_dec o0 o1 : Decision (compatible o0 o1).
Proof. unfold compatible. destruct o0, o1; apply _. Defined.

(** ** Theorems *)

(** For sizes of 64 bits (and at least -1 for a partial shape) the factory returns; it
    reports an error exactly when the sizes are not a valid shape (a negative size in a full
    shape, more than 254 dimensions, or 2^63 elements or more in the known prefix), and otherwise
    the shape it builds, in whichever of the packed representations, has these dimensions and
    their number of elements. *)
Lemma tensor_shape_build p k s :
  Forall (arg_ok p) k ->
  exists st s', BuildTensorShapeBase p k s = Val (st, s')
    /\ if bool_decide (valid p k)
       then st = OK /\ dim_sizes p s' = Val (k, s') /\ num_elements s' = elems p 1 k /\ dims p s' = Z.of_nat (length k)
       else st = InvalidArgument.
Proof.
  intros Hk. assert (wp true (BuildTensorShapeBase p k) s (fun st s' =>
    if bool_decide (valid p k) then st = OK /\ repr p s' k else st = InvalidArgument)) as H.
  { unfold BuildTensorShapeBase, set_tag, set_data_type. wp_steps. eapply wp_mono; [by apply InitDims_spec|].
    cbn beta. intros st s' [_ H]. case_bool_decide; tauto. }
  apply wp_total in H as (st & s' & E & H). exists st, s'. split; [done|]. case_bool_decide; [|done].
  destruct H as [-> Hr]. split_and!; [done|apply dim_sizes_run, Hr|apply Hr|by eapply known_rank, Hr].
Qed.

(** A negative index counts from the end, [-1] being the end itself. *)
Definition from_end (n i : Z) : Z := if i <? 0 then n + i + 1 else i.

Lemma InsertDim_out p d size s l : repr p s l -> ~ (0 <= d <= Z.of_nat (length l)) -> InsertDim p d size s = Crash.
Proof.
  intros [Hl _ _] Hd. destruct (known_rank p s l Hl) as [_ Ed]. unfold InsertDim. rewrite run_get, Ed. destruct (Z.leb_spec 0 d); [|done]. cbn [CHECK].
  destruct (Z.leb_spec d (Z.of_nat (length l))); [lia|done].
Qed.

Lemma set_dim_out p d size s l : repr p s l -> ~ (0 <= d < Z.of_nat (length l) /\ 0 <= size) -> set_dim p d size s = Crash.
Proof.
  intros [Hl _ _] Hd. destruct (known_rank p s l Hl) as [_ Ed]. unfold set_dim. rewrite run_get, Ed. destruct (Z.leb_spec 0 d); [|done]. cbn [CHECK].
  destruct (Z.ltb_spec d (Z.of_nat (length l))); [|done]. destruct (Z.leb_spec 0 size); [lia|done].
Qed.

Lemma RemoveDimRange_out p b e s l : repr p s l -> let n := Z.of_nat (length l) in ~ (0 <= from_end n b <= n /\ 0 <= from_end n e <= n) -> RemoveDimRange p b e s = Crash.
Proof.
  intros [Hl _ _] n Hd. destruct (known_rank p s l Hl) as [Eu Ed]. unfold RemoveDimRange. rewrite run_get, Eu, Ed. cbn zeta. fold n. fold (from_end n b) (from_end n e).
  destruct (Z.leb_spec 0 (from_end n b)); [|done]. cbn [CHECK]. destruct (Z.leb_spec (from_end n b) n); [|done]. destruct (Z.leb_spec 0 (from_end n e)); [|done]. destruct (Z.leb_spec (from_end n e) n); [lia|done].
Qed.

Lemma RemoveDimRange_all p b e s l : repr p s l -> let n := Z.of_nat (length l) in
  if bool_decide (0 <= from_end n b <= n /\ 0 <= from_end n e <= n) then
    if from_end n e <=? from_end n b then RemoveDimRange p b e s = Val (tt, s)
    else becomes p (RemoveDimRange p b e s) s (take (Z.to_nat (from_end n b)) l ++ drop (Z.to_nat (from_end n e)) l)
  else RemoveDimRange p b e s = Crash.
Proof. intros Hs n. case_bool_decide as Hd; [|by eapply RemoveDimRange_out]. destruct Hd as [Hb He]. exact (RemoveDimRange_run p b e s l Hs Hb He). Qed.

(** On a shape of dimensions [l], adding, appending, inserting, removing and changing dimensions
    give a shape with the list edited accordingly, and abort exactly when an index is out of
    range or the edited list is not a valid shape. *)
Lemma tensor_shape_edits p s l d size b e k :
  repr p s l -> arg_ok p size -> Forall (arg_ok p) k -> let n := Z.of_nat (length l) in
  becomes p (AddDim p size s) s (l ++ [size])
  /\ becomes p (AppendShape p k s) s (l ++ k)
  /\ (if bool_decide (0 <= d <= n) then becomes p (InsertDim p d size s) s (take (Z.to_nat d) l ++ size :: drop (Z.to_nat d) l) else InsertDim p d size s = Crash)
  /\ (if bool_decide (0 <= from_end n b <= n /\ 0 <= from_end n e <= n) then
        if from_end n e <=? from_end n b then RemoveDimRange p b e s = Val (tt, s)
        else becomes p (RemoveDimRange p b e s) s (take (Z.to_nat (from_end n b)) l ++ drop (Z.to_nat (from_end n e)) l)
      else RemoveDimRange p b e s = Crash)
  /\ (if bool_decide (0 <= d < n) then becomes p (RemoveDim p d s) s (delete (Z.to_nat d) l) else RemoveDim p d s = Crash)
  /\ (if bool_decide (0 <= d < n /\ 0 <= size) then becomes p (set_dim p d size s) s (<[Z.to_nat d := size]> l) else set_dim p d size s = Crash).
Proof.
  intros Hs Ha Hk n. split_and!.
  - pose proof (AddDims_run p [size] s l Hs ltac:(by apply Forall_singleton)) as H. unfold becomes. cbn [AddDims] in H.
    assert ((AddDim p size;; mret tt) s = AddDim p size s) as E; [|by rewrite E in H].
    unfold mbind, M_bind. by destruct (AddDim p size s) as [[[] ?]| |].
  - exact (AddDims_run p k s l Hs Hk).
  - case_bool_decide as Hd; [by apply InsertDim_run|by eapply InsertDim_out].
  - by apply RemoveDimRange_all.
  - unfold RemoveDim. case_bool_decide as Hd.
    + rewrite (proj2 (Z.leb_le 0 d)) by lia. cbn [CHECK]. pose proof (RemoveDimRange_all p d (d + 1) s l Hs) as H. cbn zeta in H. unfold from_end in H. rewrite !(proj2 (Z.ltb_ge _ 0)) in H by lia.
      rewrite bool_decide_eq_true_2 in H by lia. rewrite (proj2 (Z.leb_gt (d + 1) d)) in H by lia. rewrite delete_take_drop. by replace (S (Z.to_nat d)) with (Z.to_nat (d + 1)) by lia.
    + destruct (Z.leb_spec 0 d); [|done]. cbn [CHECK]. change (RemoveDimRange p d (d + 1) s = Crash). eapply RemoveDimRange_out; [done|]. unfold from_end. rewrite !(proj2 (Z.ltb_ge _ 0)) by lia. lia.
  - case_bool_decide as Hd; [|by eapply set_dim_out]. destruct Hd as [Hd Hz]. apply set_dim_run; [done|done|]. unfold arg_ok in Ha. destruct p; lia.
Qed.

(** A partial shape of unknown rank stays as it is, or cannot be edited. *)
Lemma unknown_edits s d size b e : denotes true s None ->
  AddDim true size s = Val (tt, s) /\ AddDimWithStatus true size s = Val (OK, s) /\ RemoveDimRange true b e s = Val (tt, s)
  /\ InsertDim true d size s = Crash /\ set_dim true d size s = Crash /\ SetDimWithStatus true d size s = Val (InvalidArgument, s).
Proof.
  intros H. destruct (unknown_run s H) as [Eu Ed]. split; [|split; [|split; [|split; [|split]]]].
  - rewrite AddDim_checked. unfold AddDimWithStatus. cbn [negb andb]. by rewrite run_get, Eu.
  - unfold AddDimWithStatus. cbn [negb andb]. by rewrite run_get, Eu.
  - unfold RemoveDimRange. by rewrite run_get, Eu.
  - unfold InsertDim. rewrite run_get, Ed. destruct (Z.leb_spec 0 d); [|done]. cbn [CHECK]. destruct (Z.leb_spec d (-1)); [lia|done].
  - unfold set_dim. rewrite run_get, Ed. destruct (Z.leb_spec 0 d); [|done]. cbn [CHECK]. destruct (Z.ltb_spec d (-1)); [lia|done].
  - unfold SetDimWithStatus. rewrite run_get, Ed. destruct (Z.ltb_spec d 0); [done|]. destruct (Z.leb_spec (-1) d); [done|lia].
Qed.

(** The variants that return a status never abort: [AddDimWithStatus] either extends the
    shape or reports an error and leaves it unchanged, [SetDimWithStatus] reports an error for an
    index out of range, a negative size or too many elements, and [MakeShape] accepts exactly the
    arrays that are valid shapes. *)
Lemma tensor_shape_status p s l d size k s0 :
  repr p s l -> arg_ok p size -> Forall (fun d => - 2 ^ 63 <= d < 2 ^ 63) k ->
  (exists st s', AddDimWithStatus p size s = Val (st, s')
    /\ if bool_decide (valid p (l ++ [size])) then st = OK /\ repr p s' (l ++ [size]) else st = InvalidArgument /\ s' = s)
  /\ (exists st s', SetDimWithStatus p d size s = Val (st, s')
    /\ (st = OK <-> 0 <= d < Z.of_nat (length l) /\ 0 <= size /\ valid p (<[Z.to_nat d := size]> l))
    /\ (st = OK -> repr p s' (<[Z.to_nat d := size]> l)))
  /\ (exists st s', MakeShapeHelper p k s0 = Val (st, s')
    /\ if bool_decide (valid p k) then st = OK /\ repr p s' k else st = InvalidArgument).
Proof.
  intros Hs Ha Hk. split_and!.
  - destruct (wp_total _ _ _ (AddDimWithStatus_spec p true size s l Hs Ha)) as (st & s' & E & H). exists st, s'. split; [done|].
    case_bool_decide; tauto.
  - assert (- 2 ^ 63 <= size < 2 ^ 63) as Hsz by (unfold arg_ok in Ha; destruct p; lia).
    destruct (wp_total _ _ _ (SetDimWithStatus_spec p true d size s l Hs Hsz)) as (st & s' & E & H). exists st, s'. split; [done|].
    destruct ((0 <=? d) && (d <? Z.of_nat (length l)) && (0 <=? size)) eqn:Ec.
    + rewrite !andb_true_iff, !Z.leb_le, Z.ltb_lt in Ec. case_bool_decide.
      * destruct H as [-> ?]. split; [|done]. split; [|done]. intros _. split_and!; [lia..|done].
      * rewrite H. split; [|done]. split; [done|]. tauto.
    + destruct H as [-> _]. split; [|done]. split; [done|]. intros (? & ? & _). rewrite !(proj2 (Z.leb_le 0 _)), (proj2 (Z.ltb_lt _ _)) in Ec by lia. done.
  - destruct (wp_total _ _ _ (MakeShapeHelper_spec p true k s0 Hk)) as (st & s' & E & H). exists st, s'. done.
Qed.

(** C34: sizes are 64-bit numbers, for a partial shape not below -1.  The factory reports an error
    exactly when the sizes are not a valid shape (a negative size in a full shape, more than 254
    dimensions, or 2^63 elements or more in the known prefix), and otherwise makes the shape with
    those dimensions and their number of elements.  On a shape of dimensions [l], [AddDim],
    [AppendShape], [InsertDim] (at the end, too), [RemoveDimRange] (negative indices count from
    the end; an empty range changes nothing), [RemoveDim] and [set_dim] give a shape with the list
    edited accordingly, and abort exactly when an index is out of range, [set_dim] also when the
    size is negative, or when the edited list is not a valid shape.  The variants that return a
    status never abort: [AddDimWithStatus] either extends the shape or reports an error and leaves
    it unchanged, [SetDimWithStatus] reports an error for an index out of range, a negative size
    or too many elements, and [MakeShape] accepts exactly the arrays that are valid shapes.  A
    partial shape of unknown rank is left as it is by adding and removing, and setting or
    inserting a dimension in it aborts or reports an error. *)
Theorem tensor_shape_build_and_edit :
  (forall p k s,
  Forall (arg_ok p) k ->
  exists st s', BuildTensorShapeBase p k s = Val (st, s')
    /\ if bool_decide (valid p k)
       then st = OK /\ dim_sizes p s' = Val (k, s') /\ num_elements s' = elems p 1 k /\ dims p s' = Z.of_nat (length k)
       else st = InvalidArgument)
  /\ (forall p s l d size b e k,
  repr p s l -> arg_ok p size -> Forall (arg_ok p) k -> let n := Z.of_nat (length l) in
  becomes p (AddDim p size s) s (l ++ [size])
  /\ becomes p (AppendShape p k s) s (l ++ k)
  /\ (if bool_decide (0 <= d <= n) then becomes p (InsertDim p d size s) s (take (Z.to_nat d) l ++ size :: drop (Z.to_nat d) l) else InsertDim p d size s = Crash)
  /\ (if bool_decide (0 <= from_end n b <= n /\ 0 <= from_end n e <= n) then
        if from_end n e <=? from_end n b then RemoveDimRange p b e s = Val (tt, s)
        else becomes p (RemoveDimRange p b e s) s (take (Z.to_nat (from_end n b)) l ++ drop (Z.to_nat (from_end n e)) l)
      else RemoveDimRange p b e s = Crash)
  /\ (if bool_decide (0 <= d < n) then becomes p (RemoveDim p d s) s (delete (Z.to_nat d) l) else RemoveDim p d s = Crash)
  /\ (if bool_decide (0 <= d < n /\ 0 <= size) then becomes p (set_dim p d size s) s (<[Z.to_nat d := size]> l) else set_dim p d size s = Crash))
  /\ (forall p s l d size k s0,
  repr p s l -> arg_ok p size -> Forall (fun d => - 2 ^ 63 <= d < 2 ^ 63) k ->
  (exists st s', AddDimWithStatus p size s = Val (st, s')
    /\ if bool_decide (valid p (l ++ [size])) then st = OK /\ repr p s' (l ++ [size]) else st = InvalidArgument /\ s' = s)
  /\ (exists st s', SetDimWithStatus p d size s = Val (st, s')
    /\ (st = OK <-> 0 <= d < Z.of_nat (length l) /\ 0 <= size /\ valid p (<[Z.to_nat d := size]> l))
    /\ (st = OK -> repr p s' (<[Z.to_nat d := size]> l)))
  /\ (exists st s', MakeShapeHelper p k s0 = Val (st, s')
    /\ if bool_decide (valid p k) then st = OK /\ repr p s' k else st = InvalidArgument))
  /\ (forall s d size b e, denotes true s None ->
  AddDim true size s = Val (tt, s) /\ AddDimWithStatus true size s = Val (OK, s) /\ RemoveDimRange true b e s = Val (tt, s)
  /\ InsertDim true d size s = Crash /\ set_dim true d size s = Crash /\ SetDimWithStatus true d size s = Val (InvalidArgument, s)).
Proof. split; [exact tensor_shape_build|]. split; [exact tensor_shape_edits|]. split; [exact tensor_shape_status|exact unknown_edits]. Qed.

(** The test with a status is the boolean one. *)
Lemma IsValidShape_loop_spec p l : forall n,
  IsValidShape_loop p n l = (fun b : bool => if b then OK else InvalidArgument) <$> IsValid_loop p n l.
Proof.
  induction l as [|d l IH]; intros n; [done|]. cbn [IsValidShape_loop IsValid_loop]. destruct (d <? _); [done|]. destruct (d =? -1); [apply IH|].
  destruct (negb p || (0 <=? n)); [|apply IH]. destruct (MultiplyWithoutOverflow n d) as [m|]; [|done]. cbn [mbind option_bind]. destruct (m <? 0); [done|apply IH].
Qed.

Lemma IsValidShape_spec p k :
  Forall (fun d => - 2 ^ 63 <= d < 2 ^ 63) k -> IsValidShape p (mkProto k false) = Some (if bool_decide (valid p k) then OK else InvalidArgument).
Proof.
  intros Hk. pose proof (IsValid_spec p k Hk) as H. unfold IsValid, IsValidShape in *. cbn [proto_unknown_rank proto_dim] in *. rewrite andb_false_r in *.
  destruct (MaxDimensions <? _); [injection H as <-; done|]. by rewrite IsValidShape_loop_spec, H.
Qed.

Lemma NewProto_run p k s :
  Forall (arg_ok p) k ->
  if bool_decide (valid p k) then exists s', TensorShapeBase_proto p (mkProto k false) s = Val (tt, s') /\ repr p s' k
  else TensorShapeBase_proto p (mkProto k false) s = Crash.
Proof.
  intros Hk. assert (exists s1, TensorShapeBase_proto p (mkProto k false) s = AddDims p k s1 /\ repr p s1 []) as (s1 & -> & H1).
  { unfold TensorShapeBase_proto. cbn [proto_unknown_rank proto_dim]. rewrite andb_false_r. eexists. split; [reflexivity|]. by apply scalar_repr. }
  pose proof (AddDims_run p k s1 [] H1 Hk) as H. cbn [app] in H. case_bool_decide; [|done]. destruct H as (s' & E & Hr & _). by exists s'.
Qed.

(** What a protocol buffer must hold: no dimensions when the rank is unknown, otherwise a valid list. *)
Definition proto_ok (p : bool) (proto : TensorShapeProto) : Prop :=
  if p && proto_unknown_rank proto then proto_dim proto = [] else valid p (proto_dim proto).
#[export] Instance proto_ok_dec p proto : Decision (proto_ok p proto).
Proof. unfold proto_ok. destruct (p && _); apply _. Defined.

Lemma IsValid_proto p k u : Forall (fun d => - 2 ^ 63 <= d < 2 ^ 63) k ->
  IsValid p (mkProto k u) = Some (bool_decide (proto_ok p (mkProto k u)))
  /\ IsValidShape p (mkProto k u) = Some (if bool_decide (proto_ok p (mkProto k u)) then OK else InvalidArgument).
Proof.
  intros Hk. pose proof (IsValid_spec p k Hk) as H1. pose proof (IsValidShape_spec p k Hk) as H2. unfold IsValid, IsValidShape in *.
  cbn [proto_unknown_rank proto_dim] in *. rewrite andb_false_r in *. destruct (p && u) eqn:E.
  - rewrite (bool_decide_ext (proto_ok p (mkProto k u)) (k = [])) by (unfold proto_ok; cbn; by rewrite E). by destruct k.
  - rewrite (bool_decide_ext (proto_ok p (mkProto k u)) (valid p k)) by (unfold proto_ok; cbn; by rewrite E). by rewrite H1, H2.
Qed.

(** The two constructors of a shape of unknown rank. *)
Lemma unknown_proto k s0 : (exists s', BuildTensorShapeBase_proto true (mkProto k true) s0 = Val (OK, s') /\ denotes true s' None)
  /\ (exists s', TensorShapeBase_proto true (mkProto k true) s0 = Val (tt, s') /\ denotes true s' None).
Proof. split; eexists; (split; [reflexivity|done]). Qed.

(** C35: a shape, or a partial shape of unknown rank ([None]), written to a protocol buffer is
    accepted by [IsValid] and read back, by the factory and by the constructor, as a shape with
    the same dimensions or of unknown rank.  [IsValid] and [IsValidShape] accept exactly the
    buffers whose dimensions are a valid list, for a partial shape marked as of unknown rank
    those with no dimensions, and the constructor aborts on every other list of sizes (of at
    least -1 for a partial shape), unless the mark keeps it from reading them. *)
Theorem tensor_shape_proto_round_trip p s o k u s0 :
  denotes p s o -> Forall (fun d => - 2 ^ 63 <= d < 2 ^ 63) k ->
  (exists proto, AsProto p s = Val (proto, s) /\ IsValid p proto = Some true
     /\ (exists s', BuildTensorShapeBase_proto p proto s0 = Val (OK, s') /\ denotes p s' o)
     /\ exists s', TensorShapeBase_proto p proto s0 = Val (tt, s') /\ denotes p s' o)
  /\ IsValid p (mkProto k u) = Some (bool_decide (proto_ok p (mkProto k u)))
  /\ IsValidShape p (mkProto k u) = Some (if bool_decide (proto_ok p (mkProto k u)) then OK else InvalidArgument)
  /\ (Forall (arg_ok p) k -> p && u = false -> ~ valid p k -> TensorShapeBase_proto p (mkProto k u) s0 = Crash).
Proof.
  intros Hs Hk. split; [|split; [by apply IsValid_proto|split; [by apply IsValid_proto|]]].
  - destruct o as [l|].
    + pose proof (r_valid _ _ _ Hs) as Hv. assert (Forall (in_range p) l) as Hr by apply Hv. exists (mkProto l false). split; [|split; [|split]].
      * apply AsProto_run, Hs.
      * rewrite IsValid_spec; [by rewrite bool_decide_eq_true_2|]. eapply Forall_impl; [done|]. intros d. unfold in_range, low. destruct p; lia.
      * destruct (wp_total _ _ _ (BuildProto_spec p true l s0 (valid_args p l Hr))) as (st & s' & E & H).
        rewrite bool_decide_eq_true_2 in H by done. destruct H as [-> H]. by exists s'.
      * pose proof (NewProto_run p l s0 (valid_args p l Hr)) as H. by rewrite bool_decide_eq_true_2 in H.
    + pose proof Hs as [-> _]. exists (mkProto [] true). destruct (unknown_run s Hs) as [Eu _], (unknown_proto [] s0) as [Hb Hn]. split; [|done].
      unfold AsProto. by rewrite run_get, Eu.
  - intros Ha Hu Hn. pose proof (NewProto_run p k s0 Ha) as H. rewrite bool_decide_eq_false_2 in H by done.
    unfold TensorShapeBase_proto in H |- *. cbn [proto_unknown_rank proto_dim] in *. rewrite andb_false_r in H. by rewrite Hu.
Qed.

Lemma IsCompatibleWith_run a b o0 o1 : denotes true a o0 -> denotes true b o1 -> IsCompatibleWith a b = Val (bool_decide (compatible o0 o1)).
Proof.
  intros Ha Hb. unfold IsCompatibleWith. destruct o0 as [l0|]; [|by rewrite (proj1 (unknown_run a Ha)), bool_decide_eq_true_2].
  destruct Ha as [La _ _], (known_rank true a l0 La) as [-> ->], o1 as [l1|]; [|by rewrite (proj1 (unknown_run b Hb))].
  destruct Hb as [Lb _ _], (known_rank true b l1 Lb) as [-> ->]. cbn [orb].
  destruct (Z.eqb_spec (Z.of_nat (length l0)) (Z.of_nat (length l1))) as [E|E]; cbn [negb].
  - apply Nat2Z.inj in E. rewrite (compatible_loop_run a b l0 l1 La Lb) by lia. rewrite Nat2Z.id, !drop_0, firstn_all, E, firstn_all. done.
  - rewrite bool_decide_eq_false_2; [done|]. intros ?%Forall2_length. lia.
Qed.

(** What [MergeWith] does with a result of state [s]; [aliased]: it is the first shape itself. *)
Definition merges (aliased : bool) (a b s : Rep) (o0 o1 : option (list Z)) : Prop :=
  match o0, o1 with
  | None, _ => MergeWith aliased a b s = Val (OK, b)
  | Some _, None => MergeWith aliased a b s = Val (OK, a)
  | Some l0, Some l1 =>
      if (length l0 =? length l1)%nat then
        if aliased || negb (bool_decide (valid true (merged l0 l1))) then MergeWith aliased a b s = Crash
        else if bool_decide (Forall2 agree l0 l1) then
          exists s', MergeWith aliased a b s = Val (OK, s') /\ repr true s' (zip_with merge l0 l1)
        else exists s', MergeWith aliased a b s = Val (InvalidArgument, s')
      else MergeWith aliased a b s = Val (InvalidArgument, s)
  end.

Lemma MergeWith_run aliased a b s o0 o1 : denotes true a o0 -> denotes true b o1 -> merges aliased a b s o0 o1.
Proof.
  intros Ha Hb. unfold merges, MergeWith. destruct o0 as [l0|]; [|by rewrite (proj1 (unknown_run a Ha))].
  destruct Ha as [La _ _], (known_rank true a l0 La) as [-> Da], o1 as [l1|]; [|by rewrite (proj1 (unknown_run b Hb))].
  destruct Hb as [Lb _ _], (known_rank true b l1 Lb) as [-> Db]. rewrite Da, Db.
  destruct (Nat.eqb_spec (length l0) (length l1)) as [E|E]; [|by rewrite (proj2 (Z.eqb_neq _ _)) by lia].
  rewrite E, Z.eqb_refl. cbn [negb]. destruct aliased; [done|]. cbn [CHECK orb negb].
  assert (exists s1, (mret tt;; Clear;; MergeWith_loop a b (Z.to_nat (Z.of_nat (length l1))) 0) s = MergeWith_loop a b (length l1) 0 s1 /\ repr true s1 []) as (s1 & -> & Hs1).
  { rewrite Nat2Z.id. eexists. split; [reflexivity|]. by apply scalar_repr. }
  pose proof (MergeWith_loop_run a b l0 l1 La Lb (length l1) 0 s1 [] ltac:(lia) ltac:(lia) Hs1) as H. cbn zeta in H.
  rewrite !drop_0, firstn_all, <- E, firstn_all in H. cbn [app] in H. rewrite <- E. case_bool_decide; cbn [negb]; [|done].
  case_bool_decide as Ha; [|done]. by rewrite merged_agree in H.
Qed.

(** C36: for partial shapes of known or unknown ([None]) rank, [IsCompatibleWith] holds exactly
    when one rank is unknown or the ranks agree and no two known dimensions differ.  [MergeWith]
    copies the other shape when the rank of one is unknown, and reports an error that leaves the
    result alone when the ranks differ.  Otherwise it aborts when the result is the first shape
    itself, or when the merged dimensions (before the first two that differ) are not a valid
    shape; it gives the shape with the known dimensions of both when no two differ, and reports
    an error when two do.  The result is an object other than the second shape. *)
Theorem partial_shape_merge aliased a b o0 o1 s :
  denotes true a o0 -> denotes true b o1 ->
  IsCompatibleWith a b = Val (bool_decide (compatible o0 o1)) /\ merges aliased a b s o0 o1.
Proof. intros Ha Hb. split; [by apply IsCompatibleWith_run|by apply MergeWith_run]. Qed.

(** Two ways in which partial shapes escape validation.  Merging can abort the process:
    the partial shapes [?, 2^40] and [2^40, ?] are both valid and compatible, but their merge
    has 2^80 elements and [MergeWith] adds its dimensions with the aborting [AddDim] instead of
    reporting an error.  And the factory of partial shapes, which is meant for sizes the caller
    cannot validate, accepts sizes below -1: such a size reads back as -1 in a packed
    representation and as itself in an out-of-line one, while [IsValid] rejects it. *)
Theorem partial_shape_unchecked s :
  (exists a b, BuildTensorShapeBase true [-1; 2 ^ 40] s = Val (OK, a)
    /\ BuildTensorShapeBase true [2 ^ 40; -1] s = Val (OK, b)
    /\ IsCompatibleWith a b = Val true /\ MergeWith false a b s = Crash)
  /\ (exists a, BuildTensorShapeBase true [-5] s = Val (OK, a) /\ dim_sizes true a = Val ([-1], a))
  /\ (exists a, BuildTensorShapeBase true [2 ^ 40; -5] s = Val (OK, a) /\ dim_sizes true a = Val ([2 ^ 40; -5], a))
  /\ IsValid true (mkProto [2 ^ 40; -5] false) = Some false.
Proof.
  split_and!.
  - exists (mkRep REP_OUT_OF_LINE [-1; 2 ^ 40] 2 0 (-1)), (mkRep REP_OUT_OF_LINE [2 ^ 40; -1] 2 0 (-1)). split_and!; vm_compute; reflexivity.
  - exists (mkRep REP16 [kUnknownRep16] 1 0 (-1)). split; vm_compute; reflexivity.
  - exists (mkRep REP_OUT_OF_LINE [2 ^ 40; -5] 2 0 (-1)). split; vm_compute; reflexivity.
  - vm_compute. reflexivity.
Qed.

(** ** Concrete shapes: a full shape in 32-bit entries, two partial ones and one of unknown rank *)

Definition demo_full : Rep := mkRep REP32 [2; 70000; 5] 3 0 700000.
Definition demo_a : Rep := mkRep REP16 [2; kUnknownRep16] 2 0 (-1).
Definition demo_b : Rep := mkRep REP16 [kUnknownRep16; 3] 2 0 (-1).
Definition demo_u : Rep := TensorShapeBase_init true.

Lemma demo_repr : repr false demo_full [2; 70000; 5] /\ repr true demo_a [2; -1] /\ repr true demo_b [-1; 3].
Proof.
  split_and!; (constructor; [constructor|reflexivity|split_and!]); try (repeat constructor; vm_compute; done); try (vm_compute; lia); vm_compute; reflexivity.
Qed.

Lemma demo_denotes : denotes true demo_a (Some [2; -1]) /\ denotes true demo_b (Some [-1; 3]) /\ denotes true demo_u None.
Proof. split; [apply demo_repr|]. split; [apply demo_repr|]. done. Qed.

Lemma tensor_shape_build_and_edit_witness :
  (exists st s', BuildTensorShapeBase false [2; 70000; 5] (TensorShapeBase_init false) = Val (st, s')
    /\ if bool_decide (valid false [2; 70000; 5])
       then st = OK /\ dim_sizes false s' = Val ([2; 70000; 5], s') /\ num_elements s' = elems false 1 [2; 70000; 5] /\ dims false s' = 3
       else st = InvalidArgument)
  /\ becomes false (InsertDim false 3 7 demo_full) demo_full [2; 70000; 5; 7]
  /\ becomes false (RemoveDimRange false 1 (-2) demo_full) demo_full [2; 5]
  /\ (exists st s', AddDimWithStatus false (2 ^ 60) demo_full = Val (st, s')
    /\ if bool_decide (valid false ([2; 70000; 5] ++ [2 ^ 60])) then st = OK /\ repr false s' ([2; 70000; 5] ++ [2 ^ 60])
       else st = InvalidArgument /\ s' = demo_full)
  /\ AddDim true 4 demo_u = Val (tt, demo_u).
Proof.
  destruct tensor_shape_build_and_edit as (H1 & H2 & H3 & H4). pose proof demo_repr as (Hf & _ & _).
  destruct (H2 false demo_full [2; 70000; 5] 3 7 1 (-2) [] Hf ltac:(unfold arg_ok; lia) (Forall_nil_2 _)) as (_ & _ & Hi & Hr & _).
  split; [|split; [|split; [|split]]].
  - apply (H1 false [2; 70000; 5]). repeat constructor; vm_compute; done.
  - exact Hi.
  - exact Hr.
  - apply (H3 false demo_full [2; 70000; 5] 0 (2 ^ 60) [] demo_full); [done|unfold arg_ok; lia|constructor].
  - apply (H4 demo_u 0 4 0 0). done.
Defined.

Lemma tensor_shape_proto_round_trip_witness :
  (exists proto, AsProto true demo_a = Val (proto, demo_a) /\ IsValid true proto = Some true
     /\ (exists s', BuildTensorShapeBase_proto true proto demo_b = Val (OK, s') /\ denotes true s' (Some [2; -1]))
     /\ exists s', TensorShapeBase_proto true proto demo_b = Val (tt, s') /\ denotes true s' (Some [2; -1]))
  /\ (exists proto, AsProto true demo_u = Val (proto, demo_u) /\ IsValid true proto = Some true
     /\ (exists s', BuildTensorShapeBase_proto true proto demo_b = Val (OK, s') /\ denotes true s' None)
     /\ exists s', TensorShapeBase_proto true proto demo_b = Val (tt, s') /\ denotes true s' None).
Proof.
  split.
  - apply (tensor_shape_proto_round_trip true demo_a (Some [2; -1]) [] false demo_b); [apply demo_denotes|constructor].
  - apply (tensor_shape_proto_round_trip true demo_u None [] false demo_b); [apply demo_denotes|constructor].
Defined.

Lemma partial_shape_merge_witness :
  (exists s', MergeWith false demo_a demo_b demo_full = Val (OK, s') /\ repr true s' [2; 3])
  /\ MergeWith false demo_u demo_b demo_full = Val (OK, demo_b) /\ MergeWith true demo_a demo_u demo_a = Val (OK, demo_a).
Proof.
  pose proof demo_denotes as (Ha & Hb & Hu). split; [|split].
  - exact (proj2 (partial_shape_merge false demo_a demo_b _ _ demo_full Ha Hb)).
  - exact (proj2 (partial_shape_merge false demo_u demo_b _ _ demo_full Hu Hb)).
  - exact (proj2 (partial_shape_merge true demo_a demo_u _ _ demo_a Ha Hu)).
Defined.

(** ** Comparisons, concatenation and lists of shapes

    What the queries of shapes decide, in terms of the lists of dimensions. *)

Lemma same_dims_run p a b l0 l1 offset : layout p a l0 -> layout p b l1 -> forall n d, (offset + d + n <= length l0)%nat -> (d + n <= length l1)%nat ->
  same_dims p a b offset n d = Val (bool_decide (take n (drop (offset + d) l0) = take n (drop d l1))).
Proof.
  intros Ha Hb. induction n as [|n IH]; intros d H0 H1; cbn [same_dims]; [done|].
  destruct (next_dims l0 l1 (offset + d) d n H0 H1) as (x & y & Hx & Hy & -> & ->). rewrite (with_dim_run p a l0 (offset + d) x), (with_dim_run p b l1 d y) by done.
  destruct (Z.eqb_spec x y) as [->|Hn]; cbn [negb].
  - rewrite IH by lia. replace (offset + S d)%nat with (S (offset + d)) by lia. f_equal. apply bool_decide_ext. split; [by intros ->|by intros [= ->]].
  - f_equal. symmetry. apply bool_decide_eq_false_2. congruence.
Qed.

(** A comparison with all the dimensions of the second shape. *)
Lemma same_dims_all p a b l0 l1 offset : layout p a l0 -> layout p b l1 -> (offset + length l1 <= length l0)%nat ->
  same_dims p a b offset (length l1) 0 = Val (bool_decide (take (length l1) (drop offset l0) = l1)).
Proof. intros Ha Hb Hn. rewrite (same_dims_run p a b l0 l1 offset Ha Hb) by lia. by rewrite Nat.add_0_r, drop_0, (firstn_all l1). Qed.

Lemma take_prefix (l k : list Z) : take (length k) l = k <-> k `prefix_of` l.
Proof. split; [intros E; exists (drop (length k) l); by rewrite <- E at 1; rewrite take_drop|intros [r ->]; by rewrite take_app_length]. Qed.

Lemma drop_suffix (l k : list Z) : (length k <= length l)%nat -> take (length k) (drop (length l - length k) l) = k <-> k `suffix_of` l.
Proof.
  intros Hl. rewrite take_ge by (rewrite length_drop; lia). split.
  - intros E. exists (take (length l - length k) l). rewrite <- E at 2. by rewrite take_drop.
  - intros [r ->]. rewrite length_app. replace (length r + length k - length k)%nat with (length r) by lia. by rewrite drop_app_length.
Qed.

Section full.
Context (a b : Rep) (l0 l1 : list Z) (Ha : layout false a l0) (Hb : layout false b l1).

Lemma IsSameSize_run : IsSameSize a b = Val (bool_decide (l0 = l1)).
Proof using Ha Hb.
  unfold IsSameSize. destruct (known_rank false a l0 Ha) as [_ ->], (known_rank false b l1 Hb) as [_ ->].
  destruct (Z.eqb_spec (Z.of_nat (length l1)) (Z.of_nat (length l0))) as [E|E]; cbn [negb].
  - apply Nat2Z.inj in E. rewrite Nat2Z.id, <- E, (same_dims_all false a b l0 l1 0 Ha Hb) by lia. by rewrite drop_0, E, firstn_all.
  - rewrite bool_decide_eq_false_2; [done|]. congruence.
Qed.

Lemma StartsWith_run : StartsWith a b = Val (bool_decide (l1 `prefix_of` l0)).
Proof using Ha Hb.
  unfold StartsWith. destruct (known_rank false a l0 Ha) as [_ ->], (known_rank false b l1 Hb) as [_ ->].
  destruct (Z.ltb_spec (Z.of_nat (length l0)) (Z.of_nat (length l1))).
  - rewrite bool_decide_eq_false_2; [done|]. intros ?%prefix_length. lia.
  - rewrite Nat2Z.id, (same_dims_all false a b l0 l1 0 Ha Hb) by lia. rewrite drop_0. f_equal. apply bool_decide_ext, take_prefix.
Qed.

Lemma EndsWith_run : EndsWith a b = Val (bool_decide (l1 `suffix_of` l0)).
Proof using Ha Hb.
  unfold EndsWith. destruct (known_rank false a l0 Ha) as [_ ->], (known_rank false b l1 Hb) as [_ ->].
  destruct (Z.ltb_spec (Z.of_nat (length l0)) (Z.of_nat (length l1))).
  - rewrite bool_decide_eq_false_2; [done|]. intros ?%suffix_length. lia.
  - replace (Z.to_nat (Z.of_nat (length l0) - Z.of_nat (length l1))) with (length l0 - length l1)%nat by lia.
    rewrite Nat2Z.id, (same_dims_all false a b l0 l1 _ Ha Hb) by lia. f_equal. apply bool_decide_ext, drop_suffix. lia.
Qed.

End full.

Lemma NumElements_spec l : forall n, 0 <= n < 2 ^ 63 -> Forall (in_range false) l ->
  NumElements n l = Some (if fits false n l then (OK, Some (elems false n l)) else (InvalidArgument, None)).
Proof.
  induction l as [|d l IH]; intros n Hn Hl; [done|]. apply Forall_cons in Hl as [Hd Hl]. cbn [NumElements fits elems]. unfold next. cbn [andb].
  unfold in_range, low in Hd. destruct (multiply_spec n d Hn Hd) as (r & -> & Hr). cbn [mbind option_bind]. destruct (Z.ltb_spec (n * d) (2 ^ 63)); cbn [andb].
  - subst r. rewrite (proj2 (Z.ltb_ge _ 0)) by nia. apply IH; [nia|done].
  - by rewrite (proj2 (Z.ltb_lt r 0)).
Qed.

(** ** Partial shapes *)

Section partial.
Context (a b : Rep) (o0 o1 : option (list Z)) (Ha : denotes true a o0) (Hb : denotes true b o1).

Lemma IsIdenticalTo_run : IsIdenticalTo a b = Val (bool_decide (o0 = o1)).
Proof using Ha Hb.
  unfold IsIdenticalTo. destruct o0 as [l0|], o1 as [l1|]; rewrite ?(proj1 (unknown_run a Ha)), ?(proj1 (unknown_run b Hb)).
  - destruct Ha as [La _ _], Hb as [Lb _ _], (known_rank true a l0 La) as [-> ->], (known_rank true b l1 Lb) as [-> ->]. cbn [orb].
    destruct (Z.eqb_spec (Z.of_nat (length l0)) (Z.of_nat (length l1))) as [E|E]; cbn [negb].
    + apply Nat2Z.inj in E. rewrite Nat2Z.id, E, (same_dims_all true a b l0 l1 0 La Lb) by lia. rewrite drop_0, <- E, firstn_all. f_equal. apply bool_decide_ext. split; congruence.
    + rewrite bool_decide_eq_false_2; [done|]. congruence.
  - rewrite orb_true_r. destruct Ha as [La _ _], (known_rank true a l0 La) as [-> _]. done.
  - cbn [orb]. destruct Hb as [Lb _ _], (known_rank true b l1 Lb) as [-> _]. done.
  - done.
Qed.

(** Concatenation is append, and aborts exactly when the result is not a shape; when a rank is
    unknown so is that of the result. *)
Definition concatenates : Prop :=
  match o0, o1 with
  | Some l0, Some l1 => if bool_decide (valid true (l0 ++ l1)) then exists s, Concatenate a b = Val s /\ repr true s (l0 ++ l1) else Concatenate a b = Crash
  | _, _ => exists s, Concatenate a b = Val s /\ denotes true s None
  end.

Lemma Concatenate_run : concatenates.
Proof using Ha Hb.
  unfold concatenates, Concatenate. destruct o0 as [l0|]; [|rewrite (proj1 (unknown_run a Ha)); by exists (TensorShapeBase_init true)].
  destruct o1 as [l1|]; [|rewrite (proj1 (unknown_run b Hb)), orb_true_r; by exists (TensorShapeBase_init true)].
  pose proof Hb as [Lb _ [Rb _]]. destruct (known_rank true a l0) as [-> _]; [apply Ha|]. destruct (known_rank true b l1 Lb) as [-> _]. cbn [orb].
  rewrite (dim_sizes_run true b l1 Lb). pose proof (AddDims_run true l1 a l0 Ha (valid_args true l1 Rb)) as H. case_bool_decide.
  - destruct H as (s & -> & Hr & _). by exists s.
  - by rewrite H.
Qed.

(** One more dimension, known or not. *)
Definition concatenates_size (size : Z) : Prop :=
  match o0 with
  | Some l0 => if bool_decide (valid true (l0 ++ [size])) then exists s, Concatenate_size a size = Val s /\ repr true s (l0 ++ [size]) else Concatenate_size a size = Crash
  | None => Concatenate_size a size = Val a
  end.

Lemma Concatenate_size_run size : arg_ok true size -> concatenates_size size.
Proof using Ha.
  intros Hz. unfold concatenates_size, Concatenate_size. destruct o0 as [l0|].
  - pose proof (tensor_shape_edits true a l0 0 size 0 0 [] Ha Hz (Forall_nil_2 _)) as (H & _). unfold becomes in H. case_bool_decide.
    + destruct H as (s & -> & Hr & _). by exists s.
    + by rewrite H.
  - destruct (unknown_edits a 0 size 0 0 Ha) as (-> & _). done.
Qed.

End partial.

Lemma all_pairs_spec (test : Rep -> Rep -> outcome bool) (R : option (list Z) -> option (list Z) -> Prop) `{forall l k, Decision (R l k)} :
  (forall a b l k, denotes true a l -> denotes true b k -> test a b = Val (bool_decide (R l k))) ->
  forall xs ls, Forall2 (denotes true) xs ls -> forall ys ks, Forall2 (denotes true) ys ks -> length xs = length ys ->
  all_pairs test xs ys = Val (bool_decide (Forall2 R ls ks)).
Proof.
  intros Ht. induction 1 as [|a l xs ls Ha _ IH]; intros ys ks Hk Hlen; (destruct Hk as [|b k ys ks Hb Hk]; [|]); try done. cbn [all_pairs].
  rewrite (Ht a b l k Ha Hb). case_bool_decide as Hr.
  - rewrite (IH ys ks Hk) by (by injection Hlen). f_equal. apply bool_decide_ext. rewrite Forall2_cons. tauto.
  - f_equal. symmetry. apply bool_decide_eq_false_2. rewrite Forall2_cons. tauto.
Qed.

(** C37: the queries decide what they are named for.  On full shapes [IsSameSize] is equality
    of the dimensions, [StartsWith] and [EndsWith] say that the dimensions of the second are a
    prefix or a suffix, and [NumElements] of the dimensions is the cached number of elements,
    with an error exactly when it would not fit 63 bits.  On partial shapes, of known or unknown
    ([None]) rank, [IsIdenticalTo] holds exactly when both ranks are unknown or the dimensions
    are the same; [Concatenate] appends the dimensions (or one of them), aborting exactly when
    the result is not a valid shape, and gives a shape of unknown rank when one rank is unknown;
    [AreIdentical] and [AreCompatible] on arrays of shapes compare them one by one. *)
Theorem tensor_shape_queries a b l0 l1 k x y ox oy size xs ys oxs oys :
  repr false a l0 -> repr false b l1 -> Forall (in_range false) k ->
  denotes true x ox -> denotes true y oy -> arg_ok true size -> Forall2 (denotes true) xs oxs -> Forall2 (denotes true) ys oys ->
  IsSameSize a b = Val (bool_decide (l0 = l1))
  /\ StartsWith a b = Val (bool_decide (l1 `prefix_of` l0))
  /\ EndsWith a b = Val (bool_decide (l1 `suffix_of` l0))
  /\ NumElements 1 l0 = Some (OK, Some (num_elements a))
  /\ NumElements 1 k = Some (if fits false 1 k then (OK, Some (elems false 1 k)) else (InvalidArgument, None))
  /\ IsIdenticalTo x y = Val (bool_decide (ox = oy))
  /\ concatenates x y ox oy
  /\ concatenates_size x ox size
  /\ AreIdentical xs ys = Val (bool_decide (oxs = oys))
  /\ AreCompatible xs ys = Val (bool_decide (Forall2 compatible oxs oys)).
Proof.
  intros Ha Hb Hk Hx Hy Hz Hxs Hys. pose proof Ha as [La Na Va]. pose proof Hb as [Lb _ _]. pose proof (Forall2_length _ _ _ Hxs) as Ex. pose proof (Forall2_length _ _ _ Hys) as Ey.
  split; [by apply IsSameSize_run|]. split; [by apply StartsWith_run|]. split; [by apply EndsWith_run|].
  split; [|split; [by rewrite NumElements_spec by (done || lia)|split; [by apply IsIdenticalTo_run|split; [by apply Concatenate_run|split; [by apply Concatenate_size_run|split]]]]].
  - destruct Va as (Hr & _ & Hf). rewrite NumElements_spec by (done || lia). by rewrite Hf, Na.
  - unfold AreIdentical. destruct (Nat.eqb_spec (length xs) (length ys)) as [E|E].
    + rewrite (all_pairs_spec _ eq IsIdenticalTo_run xs oxs Hxs ys oys Hys E). f_equal. apply bool_decide_ext. by rewrite list_eq_Forall2.
    + rewrite bool_decide_eq_false_2; [done|]. congruence.
  - unfold AreCompatible. destruct (Nat.eqb_spec (length xs) (length ys)) as [E|E].
    + by rewrite (all_pairs_spec _ compatible IsCompatibleWith_run xs oxs Hxs ys oys Hys E).
    + rewrite bool_decide_eq_false_2; [done|]. intros ?%Forall2_length. lia.
Qed.

Lemma tensor_shape_queries_witness :
  EndsWith demo_full demo_full = Val true /\ NumElements 1 [2; 70000; 5] = Some (OK, Some 700000)
  /\ AreCompatible [demo_a; demo_u] [demo_b; demo_a] = Val true
  /\ exists s, Concatenate demo_a demo_b = Val s /\ repr true s [2; -1; -1; 3].
Proof.
  pose proof demo_repr as (Hf & _ & _). pose proof demo_denotes as (Ha & Hb & Hu).
  assert (Forall2 (denotes true) [demo_a; demo_u] [Some [2; -1]; None]) as Hab by (do 2 (constructor; [done|]); constructor).
  assert (Forall2 (denotes true) [demo_b; demo_a] [Some [-1; 3]; Some [2; -1]]) as Hba by (do 2 (constructor; [done|]); constructor).
  assert (arg_ok true 1) as Hz by (unfold arg_ok; lia).
  destruct (tensor_shape_queries demo_full demo_full _ _ [] demo_a demo_b _ _ 1 _ _ _ _ Hf Hf (Forall_nil_2 _) Ha Hb Hz Hab Hba) as (_ & _ & -> & -> & _ & _ & Hc & _ & _ & ->).
  split; [vm_compute; reflexivity|]. split; [reflexivity|]. split; [vm_compute; reflexivity|]. exact Hc.
Defined.
