(* ===== verification/StridedSlice.v ===== *)
(** * Strided slices: the model

    [core/util/strided_slice_op.cc]: a slice such as [foo[3:5, ..., -3]] is a list of begins,
    ends and strides with five bit masks; the code expands it to one entry per dimension,
    makes the ranges explicit and computes the shape of the result.  Shapes are those of
    [TensorShape]; a shift of 1 by 32 places or more (undefined) is a crash. *)

From S2P Require Import Prelude TensorShape TensorShapeSpec.
Import TensorShape.

Module StridedSlice.

Inductive dtype := DT_INT32 | DT_INT64 | DT_OTHER.
#[export] Instance dtype_eq_dec : EqDecision dtype.
Proof. solve_decision. Defined.

Record Tensor := mkTensor { t_dtype : dtype; t_rank : Z; t_flat : list Z }.
Definition NumElements (t : Tensor) : Z := Z.of_nat (length (t_flat t)).
Definition IsVector (t : Tensor) : bool := t_rank t =? 1.

Definition kShrinkAxis : Z := -1.
Definition kNewAxis : Z := -2.

Record StridedSliceSparseSpec := mkSparse {
  sparse_dims : Z;
  num_add_axis_after_ellipsis : Z;
  begin_tensor : option Tensor;
  end_tensor : option Tensor;
  strides_tensor : Tensor;
  sparse_begin_mask : Z;
  sparse_end_mask : Z;
  ellipsis_mask : Z;
  new_axis_mask : Z;
  sparse_shrink_axis_mask : Z
}.

Record StridedSliceDenseSpec := mkDense {
  dense_dims : Z;
  begin_mask : Z;
  end_mask : Z;
  begin_valid : bool;
  end_valid : bool;
  begin_ : list Z;
  end_ : list Z;
  strides : list Z;
  final_shape_gather_indices : list Z;
  shrink_axis_mask : Z
}.

Abbreviation MD := (M StridedSliceDenseSpec).

(** [1 << i] on 32 bits. *)
Definition shl1 {S} (i : Z) : M S Z := CHECK ((0 <=? i) && (i <? 32));; mret (i32 (Z.shiftl 1 i)).
Definition has_bit {S} (i mask : Z) : M S bool := b ← shl1 i; mret (negb (Z.land b mask =? 0)).

(** [v[i] = x] and [v[i]] of a vector. *)
Definition write {S} (v : list Z) (i : Z) (x : Z) : M S (list Z) :=
  CHECK ((0 <=? i) && (i <? Z.of_nat (length v)));; mret (<[Z.to_nat i := x]> v).
Definition read {S} (v : list Z) (i : Z) : M S Z := CHECK (0 <=? i);; of_option (v !! Z.to_nat i).

(** ** Step 2: one entry per dimension *)

Definition push_gather (x : Z) : MD unit :=
  modify (fun d => mkDense (dense_dims d) (begin_mask d) (end_mask d) (begin_valid d) (end_valid d) (begin_ d) (end_ d)
                     (strides d) (final_shape_gather_indices d ++ [x]) (shrink_axis_mask d)).
Definition set_vectors (b e s : list Z) : MD unit :=
  modify (fun d => mkDense (dense_dims d) (begin_mask d) (end_mask d) (begin_valid d) (end_valid d) b e s
                     (final_shape_gather_indices d) (shrink_axis_mask d)).
Definition or_masks (bm em sm : Z) : MD unit :=
  modify (fun d => mkDense (dense_dims d) (Z.lor (begin_mask d) bm) (Z.lor (end_mask d) em) (begin_valid d) (end_valid d)
                     (begin_ d) (end_ d) (strides d) (final_shape_gather_indices d) (Z.lor (shrink_axis_mask d) sm)).

(** The dimensions an ellipsis stands for, [n] of them from [full_index]. *)
Fixpoint fill_ellipsis (n : nat) (full_index : Z) : MD unit :=
  match n with
  | O => mret tt
  | S n =>
      d ← get;
      b ← write (begin_ d) full_index 0;
      e ← write (end_ d) full_index 0;
      s ← write (strides d) full_index 1;
      set_vectors b e s;;
      bit ← shl1 full_index;
      or_masks bit bit 0;;
      push_gather full_index;;
      fill_ellipsis n (full_index + 1)
  end.

(** One index or range of the specification. *)
Definition gather_entry (sparse : StridedSliceSparseSpec) (i full_index : Z) : MD unit :=
  d ← get;
  b ← match begin_tensor sparse with
      | Some t => x ← read (t_flat t) i; write (begin_ d) full_index x
      | None => mret (begin_ d)
      end;
  e ← match end_tensor sparse with
      | Some t => x ← read (t_flat t) i; write (end_ d) full_index x
      | None => mret (end_ d)
      end;
  x ← read (t_flat (strides_tensor sparse)) i;
  s ← write (strides d) full_index x;
  set_vectors b e s;;
  bit ← shl1 full_index;
  bm ← has_bit i (sparse_begin_mask sparse);
  em ← has_bit i (sparse_end_mask sparse);
  sm ← has_bit i (sparse_shrink_axis_mask sparse);
  or_masks (if bm : bool then bit else 0) (if em : bool then bit else 0) (if sm : bool then bit else 0);;
  push_gather (if sm : bool then kShrinkAxis else full_index).

(** The loop over the sparse specification, [n] entries from [i]. *)
Fixpoint BuildDenseSpec_loop (sparse : StridedSliceSparseSpec) (n : nat) (i full_index : Z) : MD Status :=
  match n with
  | O => mret OK
  | S n =>
      d ← get;
      ell ← has_bit i (ellipsis_mask sparse);
      new ← has_bit i (new_axis_mask sparse);
      if ell : bool then
        let next_index := Z.min (dense_dims d - (sparse_dims sparse - i) + 1 + num_add_axis_after_ellipsis sparse) (dense_dims d) in
        fill_ellipsis (Z.to_nat (next_index - full_index)) full_index;;
        BuildDenseSpec_loop sparse n (i + 1) (Z.max full_index next_index)
      else if new : bool then
        push_gather kNewAxis;;
        BuildDenseSpec_loop sparse n (i + 1) full_index
      else if full_index =? Z.of_nat (length (begin_ d)) then mret InvalidArgument
      else
        gather_entry sparse i full_index;;
        BuildDenseSpec_loop sparse n (i + 1) (full_index + 1)
  end.

Definition resize (v : list Z) (n : Z) : list Z := take (Z.to_nat n) v ++ replicate (Z.to_nat n - length v) 0.

Definition BuildDenseSpec (T : dtype) (sparse : StridedSliceSparseSpec) : MD Status :=
  d ← get;
  CHECK (bool_decide (t_dtype (strides_tensor sparse) = T));;
  CHECK (match begin_tensor sparse with Some t => bool_decide (t_dtype t = T) | None => true end);;
  CHECK (match end_tensor sparse with Some t => bool_decide (t_dtype t = T) | None => true end);;
  put (mkDense (dense_dims d) 0 0 (bool_decide (is_Some (begin_tensor sparse))) (bool_decide (is_Some (end_tensor sparse)))
         (resize (begin_ d) (dense_dims d)) (resize (end_ d) (dense_dims d)) (resize (strides d) (dense_dims d))
         (final_shape_gather_indices d) 0);;
  BuildDenseSpec_loop sparse (Z.to_nat (sparse_dims sparse)) 0 0.

(** ** Step 3: one dimension *)

(** [canonical]: the index for begin ([c] = 0) or end ([c] = 1). *)
Definition canonical (stride_i dim_i : Z) (masked : bool) (x : Z) (c : nat) : Z :=
  let valid_range (c : nat) : Z := match c with O => if 0 <? stride_i then 0 else -1
                                   | _ => if 0 <? stride_i then dim_i else dim_i - 1 end in
  if masked then if 0 <? stride_i then valid_range c else valid_range (1 - c)%nat
  else
    let x_fwd := if x <? 0 then dim_i + x else x in
    if x_fwd <? valid_range 0%nat then valid_range 0%nat
    else if valid_range 1%nat <? x_fwd then valid_range 1%nat else x_fwd.

Record Flags := mkFlags { is_identity : bool; is_simple_slice : bool; slice_dim0 : bool }.

(** The size of a range: C++ division truncates. *)
Definition interval_size (interval_length stride_i : Z) : Z :=
  if (interval_length =? 0) || negb (eqb (interval_length <? 0) (stride_i <? 0)) then 0
  else interval_length ÷ stride_i + (if Z.rem interval_length stride_i =? 0 then 0 else 1).

(** The body of the loop: [None] is an error; otherwise the new begin and end, the size to add
    to the processing shape and the flags. *)
Definition slice_dim (i dim_i begin_i end_i stride_i : Z) (bm em shrink_i both_valid : bool) (f : Flags)
  : option (Z * Z * Z * Flags) :=
  if stride_i =? 0 then None
  else if dim_i =? -1 then Some (begin_i, end_i, if shrink_i then 1 else -1, f)
  else if shrink_i && (stride_i <=? 0) then None
  else
    let simple := is_simple_slice f && (stride_i =? 1) in
    let both_masked := bm && em in
    if both_valid then
      let x_fwd := if begin_i <? 0 then dim_i + begin_i else begin_i in
      if shrink_i && ((x_fwd <? 0) || (dim_i <=? x_fwd)) then None
      else
        let begin_i' := if shrink_i then x_fwd else canonical stride_i dim_i bm begin_i 0 in
        let end_i' := if shrink_i then x_fwd + 1 else canonical stride_i dim_i em end_i 1 in
        let take_all := (stride_i =? 1) && (begin_i' =? 0) && (end_i' =? dim_i) in
        Some (begin_i', end_i', interval_size (end_i' - begin_i') stride_i,
              mkFlags (is_identity f && take_all) simple
                (slice_dim0 f && (((i =? 0) && (stride_i =? 1)) || take_all)))
    else
      let f' := mkFlags (is_identity f && ((stride_i =? 1) && both_masked)) simple
                  (slice_dim0 f && (((i =? 0) && (stride_i =? 1)) || both_masked)) in
      if shrink_i then Some (begin_i, end_i, interval_size 1 stride_i, f')
      else if both_masked && (0 <=? dim_i) then
        Some (begin_i, end_i, interval_size (if stride_i <? 0 then - dim_i else dim_i) stride_i, f')
      else Some (begin_i, end_i, -1, f').

(** ** The whole function *)

Record Slice := mkSlice {
  processing_shape : Rep;
  final_shape : Rep;
  flags : Flags;
  dense : StridedSliceDenseSpec
}.

Abbreviation MV := (M Slice).

Definition on_processing (m : MS unit) : MV unit := fun v =>
  match m (processing_shape v) with
  | Val (_, r) => Val (tt, mkSlice r (final_shape v) (flags v) (dense v))
  | Crash => Crash
  | NoFuel => NoFuel
  end.
Definition on_final (m : MS unit) : MV unit := fun v =>
  match m (final_shape v) with
  | Val (_, r) => Val (tt, mkSlice (processing_shape v) r (flags v) (dense v))
  | Crash => Crash
  | NoFuel => NoFuel
  end.
Definition on_dense {A} (m : MD A) : MV A := fun v =>
  match m (dense v) with
  | Val (a, d) => Val (a, mkSlice (processing_shape v) (final_shape v) (flags v) d)
  | Crash => Crash
  | NoFuel => NoFuel
  end.
Definition set_flags (f : Flags) : MV unit :=
  modify (fun v => mkSlice (processing_shape v) (final_shape v) f (dense v)).

(** The loop over the dimensions of the input, from [i]. *)
Fixpoint ranges_loop (input : list Z) (i : Z) : MV Status :=
  match input with
  | [] => mret OK
  | dim_i :: input =>
      v ← get;
      let d := dense v in
      begin_i ← read (begin_ d) i;
      end_i ← read (end_ d) i;
      stride_i ← read (strides d) i;
      bm ← has_bit i (begin_mask d);
      em ← has_bit i (end_mask d);
      shrink_i ← has_bit i (shrink_axis_mask d);
      match slice_dim i dim_i begin_i end_i stride_i bm em shrink_i (begin_valid d && end_valid d) (flags v) with
      | None => mret InvalidArgument
      | Some (begin_i, end_i, size_i, f) =>
          set_flags f;;
          b ← write (begin_ d) i begin_i;
          e ← write (end_ d) i end_i;
          on_dense (set_vectors b e (strides d));;
          on_processing (AddDim true size_i);;
          ranges_loop input (i + 1)
      end
  end.

(** The loop over [final_shape_gather_indices]. *)
Fixpoint final_loop (gather : list Z) : MV unit :=
  match gather with
  | [] => mret tt
  | g :: gather =>
      v ← get;
      (if 0 <=? g then
         match dim_size true (Z.to_nat g) (processing_shape v) with
         | Val (x, _) => on_final (AddDim true x)
         | _ => crash
         end
       else if g =? kNewAxis then on_final (AddDim true 1)
       else mret tt);;
      final_loop gather
  end.

(** The new axes after the ellipsis, and whether there is one: [n] entries from [i]. *)
Fixpoint count_new_axes (ellipsis_mask new_axis_mask : Z) (n : nat) (i : Z) (seen : bool) (count : Z) : MV (bool * Z) :=
  match n with
  | O => mret (seen, count)
  | S n =>
      new ← has_bit i new_axis_mask;
      ell ← has_bit i ellipsis_mask;
      count_new_axes ellipsis_mask new_axis_mask n (i + 1) (seen || (ell : bool))
        (if seen && (new : bool) then count + 1 else count)
  end.

Definition ValidateStridedSliceOp (begin_tensor end_tensor : option Tensor) (strides_tensor : Tensor) (input_shape : list Z)
    (begin_mask_spec end_mask_spec ellipsis_mask_spec new_axis_mask_spec shrink_axis_mask_spec : Z) : MV Status :=
  let n := NumElements strides_tensor in
  let begin_is_wrong := match begin_tensor with
                        | Some t => negb (IsVector t && (NumElements t =? n) && (NumElements t <? 32))
                        | None => false end in
  let end_is_wrong := match end_tensor with
                      | Some t => negb (IsVector t && (NumElements t =? n))
                      | None => false end in
  if begin_is_wrong || end_is_wrong || negb (IsVector strides_tensor) then mret InvalidArgument
  else if negb (ellipsis_mask_spec =? 0) && negb (Z.land ellipsis_mask_spec (i32 (ellipsis_mask_spec - 1)) =? 0) then mret InvalidArgument
  else
    '(ellipsis_seen, count) ← count_new_axes ellipsis_mask_spec new_axis_mask_spec (Z.to_nat n) 0 false 0;
    last_bit ← (if ellipsis_seen : bool then mret 0 else shl1 n);
    let sparse_spec :=
      mkSparse (if ellipsis_seen : bool then n else n + 1) count begin_tensor end_tensor strides_tensor
        begin_mask_spec end_mask_spec (Z.lor ellipsis_mask_spec last_bit) new_axis_mask_spec shrink_axis_mask_spec in
    v ← get;
    put (mkSlice (processing_shape v) (final_shape v) (flags v)
           (mkDense (Z.of_nat (length input_shape)) 0 0 false false (begin_ (dense v)) (end_ (dense v)) (strides (dense v)) [] 0));;
    CHECK (negb (bool_decide (t_dtype strides_tensor = DT_OTHER)));;
    st ← on_dense (BuildDenseSpec (t_dtype strides_tensor) sparse_spec);
    if bool_decide (st = OK) then
      set_flags (mkFlags true true true);;
      on_processing Clear;;
      st ← ranges_loop input_shape 0;
      if bool_decide (st = OK) then
        on_final Clear;;
        v ← get;
        final_loop (final_shape_gather_indices (dense v));;
        mret OK
      else mret st
    else mret st.

(** The variant for full shapes: the status and the two shapes that it has set. *)
Inductive SliceStatus := Returned (st : Status) | Internal.

Definition ValidateStridedSliceOp_full (begin_tensor end_tensor : option Tensor) (strides_tensor : Tensor) (input_shape : list Z)
    (begin_mask_spec end_mask_spec ellipsis_mask new_axis_mask shrink_axis_mask : Z) : MV (SliceStatus * option Rep * option Rep) :=
  v ← get;
  put (mkSlice (TensorShapeBase_init true) (TensorShapeBase_init true) (flags v) (dense v));;
  st ← ValidateStridedSliceOp begin_tensor end_tensor strides_tensor input_shape
         begin_mask_spec end_mask_spec ellipsis_mask new_axis_mask shrink_axis_mask;
  if negb (bool_decide (st = OK)) then mret (Returned st, None, None)
  else
    v ← get;
    mret (match AsTensorShape (processing_shape v) with
          | None => (Internal, None, None)
          | Some p =>
              match AsTensorShape (final_shape v) with
              | None => (Internal, Some p, None)
              | Some f => (Returned OK, Some p, Some f)
              end
          end).

End StridedSlice.
