(* ===== verification/StridedSliceProofs.v ===== *)
(** * Strided slices: correctness

    The size and the indices of one range, the bits of the masks, the expansion of the
    specification to one entry per dimension, and the loop over the dimensions. *)

From S2P Require Import Prelude TensorShape TensorShapeSpec StridedSlice.
Import TensorShape StridedSlice.

(** ** One range *)

(** [k] steps of [s] from [b] do not reach [e]. *)
Definition before (b e s k : Z) : Prop := (0 < s /\ b + k * s < e) \/ (s < 0 /\ e < b + k * s).

Lemma interval_size_spec len s :
  s <> 0 -> 0 <= interval_size len s /\ forall k, 0 <= k -> k < interval_size len s <-> before 0 len s k.
Proof.
  intros Hs. unfold interval_size, before. destruct (Z.eqb_spec len 0) as [->|Hl]; cbn [orb].
  { split; [lia|]. intros k Hk. split; [lia|]. nia. }
  destruct (Z.ltb_spec len 0) as [Hn|Hn], (Z.ltb_spec s 0) as [Hsn|Hsn]; cbn [eqb negb];
    try (split; [lia|]; intros k Hk; split; [lia|]; nia).
  - pose proof (Z.quot_rem len s Hs) as E. pose proof (Z.rem_bound_neg_neg len s). pose proof (Z.quot_pos (- len) (- s)) as Hq. rewrite Z.quot_opp_opp in Hq by lia.
    destruct (Z.eqb_spec (Z.rem len s) 0) as [E0|E0]; (split; [lia|]); intros k Hk; split; intros; nia.
  - pose proof (Z.quot_rem len s Hs) as E. pose proof (Z.rem_bound_pos len s). pose proof (Z.quot_pos len s) as Hq.
    destruct (Z.eqb_spec (Z.rem len s) 0) as [E0|E0]; (split; [lia|]); intros k Hk; split; intros; nia.
Qed.

(** The explicit ends of a range. *)
Lemma canonical_range s dim masked x c :
  s <> 0 -> 0 <= dim ->
  (0 < s -> 0 <= canonical s dim masked x c <= dim) /\ (s < 0 -> -1 <= canonical s dim masked x c <= dim - 1).
Proof.
  intros Hs Hd. unfold canonical. destruct (Z.ltb_spec 0 s).
  - split; [|lia]. intros _. destruct masked, c as [|[|c]]; cbn; repeat case_match; lia.
  - split; [lia|]. intros _. destruct masked, c as [|[|c]]; cbn; repeat case_match; lia.
Qed.

(** What a dimension of the result is: its [n] indices are those from [b] in steps of [s]
    before [e], and they lie within the dimension. *)
Definition range_ok (dim b e s n : Z) : Prop :=
  0 <= n <= dim /\ (forall k, 0 <= k -> k < n <-> before b e s k) /\ (forall k, 0 <= k < n -> 0 <= b + k * s < dim).

Lemma range_intro dim b e s :
  s <> 0 -> 0 <= dim -> (0 < s -> 0 <= b /\ e <= dim) -> (s < 0 -> b <= dim - 1 /\ -1 <= e) ->
  range_ok dim b e s (interval_size (e - b) s).
Proof.
  intros Hs Hd Hp Hn. destruct (interval_size_spec (e - b) s Hs) as [H0 Hk].
  assert (forall k, 0 <= k -> k < interval_size (e - b) s <-> before b e s k) as Hk'.
  { intros k H. rewrite (Hk k H). unfold before. lia. }
  assert (forall k, 0 <= k < interval_size (e - b) s -> 0 <= b + k * s < dim) as Hin.
  { intros k [H1 H2]. apply Hk' in H2; [|done]. unfold before in H2. destruct H2 as [[Hs' ?]|[Hs' ?]].
    - specialize (Hp Hs'). nia.
    - specialize (Hn Hs'). nia. }
  split_and!; [done| |done|done]. destruct (Z.le_gt_cases (interval_size (e - b) s) dim) as [?|Hgt]; [done|]. exfalso.
  destruct (Hin dim) as [? ?]; [lia|]. destruct (Z.lt_trichotomy s 0) as [Hs'|[?|Hs']]; [|done|].
  - specialize (Hn Hs'). nia.
  - specialize (Hp Hs'). nia.
Qed.

Lemma slice_dim_known i dim b e s bm em sm f b' e' n f' :
  0 <= dim -> slice_dim i dim b e s bm em sm true f = Some (b', e', n, f') ->
  s <> 0 /\ range_ok dim b' e' s n /\ (sm = true -> n = 1).
Proof.
  intros Hd. unfold slice_dim. destruct (Z.eqb_spec s 0) as [|Hs]; [done|]. rewrite (proj2 (Z.eqb_neq dim (-1))) by lia.
  destruct sm; cbn [andb].
  - destruct (Z.leb_spec s 0); [done|]. set (x := if b <? 0 then dim + b else b).
    destruct (Z.ltb_spec x 0); [done|]. destruct (Z.leb_spec dim x); [done|]. cbn [orb].
    intros [= <- <- <- _]. assert (range_ok dim x (x + 1) s (interval_size (x + 1 - x) s)) as Hr by (apply range_intro; lia).
    split_and!; [done|done|]. intros _. destruct Hr as (_ & Hk & _). unfold before in Hk. pose proof (Hk 0) as Hk0. pose proof (Hk 1) as Hk1. lia.
  - intros [= <- <- <- _]. split_and!; [done| |done]. pose proof (canonical_range s dim bm b 0 Hs Hd) as [? ?].
    pose proof (canonical_range s dim em e 1 Hs Hd) as [? ?]. apply range_intro; lia.
Qed.

(** An omitted begin and end cover the dimension. *)
Lemma full_range_size dim s : s <> 0 -> 0 <= dim ->
  interval_size (canonical s dim true 0 1 - canonical s dim true 0 0) s = interval_size (if s <? 0 then - dim else dim) s.
Proof.
  intros Hs Hd. f_equal. unfold canonical. destruct (Z.ltb_spec 0 s), (Z.ltb_spec s 0); cbn; lia.
Qed.

Lemma canonical_masked s dim x y c : canonical s dim true x c = canonical s dim true y c.
Proof. done. Qed.

(** ** Shape inference is sound, one dimension

    With less knowledge of the dimension, the begin or the end, the size is the same or
    unknown. *)
Lemma slice_dim_sound i dim dim' b e b' e' s bm em sm known f f' r1 r2 :
  0 <= dim -> dim' = dim \/ dim' = -1 ->
  (known = true -> b' = b /\ e' = e) ->
  slice_dim i dim b e s bm em sm true f = Some r1 -> slice_dim i dim' b' e' s bm em sm known f' = Some r2 ->
  snd (fst r2) = -1 \/ snd (fst r2) = snd (fst r1).
Proof.
  intros Hd Hd' Hk H1 H2. destruct r1 as [[[b1 e1] n1] f1], r2 as [[[b2 e2] n2] f2]. cbn [fst snd].
  destruct (slice_dim_known _ _ _ _ _ _ _ _ _ _ _ _ _ Hd H1) as (Hs & _ & Hsm).
  unfold slice_dim in H2. rewrite (proj2 (Z.eqb_neq s 0)) in H2 by done.
  destruct Hd' as [->| ->].
  2: { cbn in H2. destruct sm; injection H2 as <- <- <- <-; [right; by rewrite Hsm|by left]. }
  rewrite (proj2 (Z.eqb_neq dim (-1))) in H2 by lia. destruct known.
  - destruct (Hk eq_refl) as [-> ->]. right. unfold slice_dim in H1.
    rewrite (proj2 (Z.eqb_neq s 0)), (proj2 (Z.eqb_neq dim (-1))) in H1 by lia.
    destruct (sm && (s <=? 0)); [done|]. destruct (sm && _); [done|]. congruence.
  - destruct (sm && (s <=? 0)) eqn:E; [done|]. destruct sm.
    + cbn [andb] in E. apply Z.leb_gt in E. injection H2 as _ _ <- _. right. rewrite Hsm by done.
      unfold interval_size. cbn. rewrite (proj2 (Z.ltb_ge s 0)) by lia. cbn.
      destruct (Z.eq_dec s 1) as [->|]; [done|]. rewrite Z.quot_small, Z.rem_small by lia. done.
    + destruct (bm && em && (0 <=? dim)) eqn:E2; [|injection H2 as _ _ <- _; by left].
      apply andb_true_iff in E2 as [E2 _]. apply andb_true_iff in E2 as [-> ->]. injection H2 as _ _ <- _.
      right. unfold slice_dim in H1. rewrite (proj2 (Z.eqb_neq s 0)), (proj2 (Z.eqb_neq dim (-1))) in H1 by lia. cbn [andb] in H1.
      injection H1 as _ _ <- _. rewrite <- full_range_size by done. done.
Qed.

(** ** Bits *)

Definition int32 (m : Z) : Prop := - 2 ^ 31 <= m < 2 ^ 31.

Lemma i32_range z : int32 (i32 z).
Proof. unfold int32, i32. pose proof (Z.mod_pos_bound (z + 2 ^ 31) (2 ^ 32)). lia. Qed.

Lemma testbit_shl1 i j : 0 <= i < 32 -> 0 <= j < 32 -> Z.testbit (i32 (Z.shiftl 1 i)) j = (j =? i).
Proof.
  intros Hi Hj. rewrite Z.shiftl_1_l. destruct (Z.eq_dec i 31) as [->|Hne].
  - assert (i32 (2 ^ 31) = - 2 ^ 31) as -> by reflexivity. rewrite Z.bits_opp by lia.
    replace (Z.pred (2 ^ 31)) with (Z.ones 31) by reflexivity. destruct (Z.eqb_spec j 31) as [->|].
    + by rewrite Z.ones_spec_high by lia.
    + by rewrite Z.ones_spec_low by lia.
  - assert (i32 (2 ^ i) = 2 ^ i) as ->.
    { assert (0 < 2 ^ i <= 2 ^ 30) by (split; [lia|apply Z.pow_le_mono_r; lia]). unfold i32. rewrite Z.mod_small; lia. }
    destruct (Z.eqb_spec j i) as [->|]; [apply Z.pow2_bits_true; lia|apply Z.pow2_bits_false; lia].
Qed.

Lemma testbit_small m j : 0 <= m < 2 ^ j -> Z.testbit m j = false.
Proof. intros H. rewrite Z.testbit_false by (destruct (Z.lt_ge_cases j 0); [rewrite Z.pow_neg_r in H; lia|done]). by rewrite Z.div_small. Qed.

Lemma testbit_sign m : int32 m -> Z.testbit m 31 = (m <? 0).
Proof.
  intros [H1 H2]. destruct (Z.ltb_spec m 0) as [Hn|Hn]; [|apply testbit_small; lia].
  replace m with (- (- m)) by lia. rewrite Z.bits_opp, testbit_small by lia. done.
Qed.

Lemma land_shl1 i m : 0 <= i < 32 -> int32 m -> negb (Z.land (i32 (Z.shiftl 1 i)) m =? 0) = Z.testbit m i.
Proof.
  intros Hi Hm. destruct (Z.testbit m i) eqn:E.
  - apply negb_true_iff, Z.eqb_neq. intros E0. apply (f_equal (fun z => Z.testbit z i)) in E0.
    rewrite Z.land_spec, testbit_shl1, Z.eqb_refl, E, Z.bits_0 in E0 by lia. done.
  - apply negb_false_iff, Z.eqb_eq. destruct (Z.eq_dec i 31) as [->|Hne].
    + rewrite testbit_sign in E by done. apply Z.ltb_ge in E. destruct Hm as [_ Hm].
      apply Z.bits_inj'. intros j Hj. rewrite Z.land_spec, Z.bits_0. destruct (Z.lt_ge_cases j 31) as [?|?].
      * rewrite testbit_shl1 by lia. rewrite (proj2 (Z.eqb_neq j 31)) by lia. done.
      * rewrite (testbit_small m j); [by rewrite andb_false_r|]. split; [done|]. eapply Z.lt_le_trans; [exact Hm|]. apply Z.pow_le_mono_r; lia.
    + assert (i32 (Z.shiftl 1 i) = 2 ^ i) as ->.
      { rewrite Z.shiftl_1_l. assert (0 < 2 ^ i <= 2 ^ 30) by (split; [lia|apply Z.pow_le_mono_r; lia]). unfold i32. rewrite Z.mod_small; lia. }
      apply Z.bits_inj'. intros j Hj. rewrite Z.land_spec, Z.bits_0. destruct (Z.eq_dec j i) as [->|].
      * by rewrite E, andb_false_r.
      * rewrite Z.pow2_bits_false by lia. done.
Qed.

Lemma wp_shl1 {S} t i (s : S) (Q : Z -> S -> Prop) :
  0 <= i < 32 -> Q (i32 (Z.shiftl 1 i)) s -> wp t (shl1 i) s Q.
Proof.
  intros Hi HQ. unfold shl1. wp_step. apply wp_CHECK; [|by wp_steps]. rewrite (proj2 (Z.leb_le 0 i)), (proj2 (Z.ltb_lt i 32)) by lia. done.
Qed.

Lemma wp_has_bit {S} t i m (s : S) (Q : bool -> S -> Prop) :
  0 <= i < 32 -> int32 m -> Q (Z.testbit m i) s -> wp t (has_bit i m) s Q.
Proof. intros Hi Hm HQ. unfold has_bit. wp_step. apply wp_shl1; [done|]. wp_steps. by rewrite land_shl1. Qed.

Lemma wp_write {S} t v i x (s : S) (Q : list Z -> S -> Prop) :
  0 <= i < Z.of_nat (length v) -> Q (<[Z.to_nat i := x]> v) s -> wp t (write v i x) s Q.
Proof.
  intros Hi HQ. unfold write. wp_step. apply wp_CHECK; [|by wp_steps]. rewrite (proj2 (Z.leb_le 0 i)), (proj2 (Z.ltb_lt i _)) by lia. done.
Qed.

Lemma wp_read {S} t v i x (s : S) (Q : Z -> S -> Prop) :
  0 <= i -> v !! Z.to_nat i = Some x -> Q x s -> wp t (read v i) s Q.
Proof. intros Hi Hv HQ. unfold read. wp_step. apply wp_CHECK; [by apply Z.leb_le|]. by eapply wp_of_option. Qed.

Lemma int32_shiftr m : int32 m <-> Z.shiftr m 31 = 0 \/ Z.shiftr m 31 = -1.
Proof. unfold int32. rewrite Z.shiftr_div_pow2 by lia. pose proof (Z.div_mod m (2 ^ 31)). pose proof (Z.mod_pos_bound m (2 ^ 31)). lia. Qed.

Lemma lor_int32 a b : int32 a -> int32 b -> int32 (Z.lor a b).
Proof. rewrite !int32_shiftr, Z.shiftr_lor. intros [->| ->] [->| ->]; cbn; auto. Qed.

(** ** The expansion of the specification

    The sparse specification is a list of items (an ellipsis, new axes, indices and ranges);
    the dense one has an entry per dimension.  [BuildDenseSpec] replaces the ellipsis by as
    many full ranges as there are dimensions left. *)

Record entry := mkEntry { e_begin : Z; e_end : Z; e_stride : Z; e_bm : bool; e_em : bool; e_sm : bool }.

(** The whole of a dimension. *)
Definition full : entry := mkEntry 0 0 1 true true false.

Inductive item := Ellipsis | NewAxis | Index (e : entry).

(** ** The reference expansion, the ellipsis standing for [k] dimensions *)

Fixpoint expand (k : nat) (l : list item) : list entry :=
  match l with
  | [] => []
  | Ellipsis :: l => replicate k full ++ expand k l
  | NewAxis :: l => expand k l
  | Index e :: l => e :: expand k l
  end.

Fixpoint gathers (k : nat) (l : list item) (j : Z) : list Z :=
  match l with
  | [] => []
  | Ellipsis :: l => seqZ j (Z.of_nat k) ++ gathers k l (j + Z.of_nat k)
  | NewAxis :: l => kNewAxis :: gathers k l j
  | Index e :: l => (if e_sm e then kShrinkAxis else j) :: gathers k l (j + 1)
  end.

Fixpoint reals (l : list item) : nat :=
  match l with [] => 0 | Index _ :: l => S (reals l) | _ :: l => reals l end.

Definition plain (l : list item) : Prop := Forall (fun x => x <> Ellipsis) l.

Lemma expand_app k l1 l2 : expand k (l1 ++ l2) = expand k l1 ++ expand k l2.
Proof. induction l1 as [|[| |e] l IH]; cbn; [done|by rewrite IH, app_assoc|done|by rewrite IH]. Qed.

Lemma reals_app l1 l2 : reals (l1 ++ l2) = (reals l1 + reals l2)%nat.
Proof. induction l1 as [|[| |e] l IH]; cbn; lia. Qed.

Lemma expand_plain_length k l : plain l -> length (expand k l) = reals l.
Proof. induction 1 as [|[| |e] l Hx _ IH]; cbn; [done|done|done|by rewrite IH]. Qed.

Lemma expand_plain k k' l : plain l -> expand k l = expand k' l.
Proof. induction 1 as [|[| |e] l Hx _ IH]; cbn; [done|done|done|by rewrite IH]. Qed.

Lemma gathers_plain k k' l j : plain l -> gathers k l j = gathers k' l j.
Proof. intros H. revert j. induction H as [|[| |e] l Hx _ IH]; intros j; cbn; [done|done|by rewrite IH|by rewrite IH]. Qed.

Lemma gathers_app k l1 l2 j : gathers k (l1 ++ l2) j = gathers k l1 j ++ gathers k l2 (j + Z.of_nat (length (expand k l1))).
Proof.
  revert j. induction l1 as [|[| |e] l IH]; intros j; cbn [gathers expand app length].
  - by rewrite Z.add_0_r.
  - rewrite IH, <- app_assoc, length_app, length_replicate. do 3 f_equal. lia.
  - by rewrite IH.
  - rewrite IH. do 2 f_equal. f_equal. lia.
Qed.

(** ** The items of a sparse specification *)

Definition flat (t : option Tensor) (i : Z) : Z := match t with Some t => default 0 (t_flat t !! Z.to_nat i) | None => 0 end.

Definition entry_at (sp : StridedSliceSparseSpec) (i : Z) : entry :=
  mkEntry (flat (begin_tensor sp) i) (flat (end_tensor sp) i) (flat (Some (strides_tensor sp)) i)
    (Z.testbit (sparse_begin_mask sp) i) (Z.testbit (sparse_end_mask sp) i) (Z.testbit (sparse_shrink_axis_mask sp) i).

Definition item_at (sp : StridedSliceSparseSpec) (i : Z) : item :=
  if Z.testbit (ellipsis_mask sp) i then Ellipsis
  else if Z.testbit (new_axis_mask sp) i then NewAxis
  else Index (entry_at sp i).

Definition items (sp : StridedSliceSparseSpec) (i : Z) (n : nat) : list item := map (item_at sp) (seqZ i (Z.of_nat n)).

(** ** What the loop has built *)

Record built (D : nat) (d : StridedSliceDenseSpec) (E : list entry) (G : list Z) : Prop := {
  b_dims : dense_dims d = Z.of_nat D;
  b_len : (length E <= D <= 32)%nat;
  b_begin : begin_ d = map e_begin E ++ replicate (D - length E) 0;
  b_end : end_ d = map e_end E ++ replicate (D - length E) 0;
  b_strides : strides d = map e_stride E ++ replicate (D - length E) 0;
  b_int32 : int32 (begin_mask d) /\ int32 (end_mask d) /\ int32 (shrink_axis_mask d);
  b_bits : forall j : nat, (j < 32)%nat ->
    Z.testbit (begin_mask d) (Z.of_nat j) = from_option e_bm false (E !! j)
    /\ Z.testbit (end_mask d) (Z.of_nat j) = from_option e_em false (E !! j)
    /\ Z.testbit (shrink_axis_mask d) (Z.of_nat j) = from_option e_sm false (E !! j);
  b_gather : final_shape_gather_indices d = G
}.

(** The next slot of a vector. *)
Lemma slot_write (f : entry -> Z) E D e v :
  (length E < D)%nat -> v = f e ->
  <[length E := v]> (map f E ++ replicate (D - length E) 0) = map f (E ++ [e]) ++ replicate (D - length (E ++ [e])) 0.
Proof.
  intros Hlt ->. rewrite map_app, length_app. cbn [length map]. replace (D - length E)%nat with (S (D - (length E + 1)))%nat by lia.
  rewrite insert_app_r_alt by (rewrite length_map; lia). rewrite length_map, Nat.sub_diag. cbn [replicate]. by rewrite <- app_assoc.
Qed.

(** The next bit of a mask. *)
Lemma slot_bit (f : entry -> bool) E m e b (j : nat) :
  (length E < 32)%nat -> (j < 32)%nat -> b = f e ->
  (forall j, (j < 32)%nat -> Z.testbit m (Z.of_nat j) = from_option f false (E !! j)) ->
  Z.testbit (Z.lor m (if b then i32 (Z.shiftl 1 (Z.of_nat (length E))) else 0)) (Z.of_nat j) = from_option f false ((E ++ [e]) !! j).
Proof.
  intros HE Hj -> Hm. rewrite Z.lor_spec, Hm by done.
  assert (Z.testbit (if f e then i32 (Z.shiftl 1 (Z.of_nat (length E))) else 0) (Z.of_nat j) = f e && (j =? length E)%nat) as ->.
  { destruct (f e); [|by rewrite Z.bits_0]. rewrite testbit_shl1 by lia. cbn.
    destruct (Nat.eqb_spec j (length E)) as [->|]; [apply Z.eqb_refl|apply Z.eqb_neq; lia]. }
  destruct (Nat.lt_trichotomy j (length E)) as [Hl|[->|Hg]].
  - rewrite lookup_app_l, (proj2 (Nat.eqb_neq _ _)) by lia. by rewrite andb_false_r, orb_false_r.
  - rewrite lookup_app_r, Nat.sub_diag, Nat.eqb_refl, (lookup_ge_None_2 E) by lia. cbn. by rewrite andb_true_r.
  - rewrite !lookup_ge_None_2, (proj2 (Nat.eqb_neq _ _)) by (rewrite ?length_app; cbn; lia). cbn. by rewrite andb_false_r.
Qed.

Lemma bit_int32 (b : bool) i : int32 (if b then i32 (Z.shiftl 1 i) else 0).
Proof. destruct b; [apply i32_range|unfold int32; lia]. Qed.

(** One more entry. *)
Lemma built_snoc D d E G e g :
  built D d E G -> (length E < D)%nat ->
  built D (mkDense (dense_dims d)
             (Z.lor (begin_mask d) (if e_bm e then i32 (Z.shiftl 1 (Z.of_nat (length E))) else 0))
             (Z.lor (end_mask d) (if e_em e then i32 (Z.shiftl 1 (Z.of_nat (length E))) else 0))
             (begin_valid d) (end_valid d)
             (<[length E := e_begin e]> (begin_ d)) (<[length E := e_end e]> (end_ d)) (<[length E := e_stride e]> (strides d))
             (final_shape_gather_indices d ++ [g])
             (Z.lor (shrink_axis_mask d) (if e_sm e then i32 (Z.shiftl 1 (Z.of_nat (length E))) else 0)))
    (E ++ [e]) (G ++ [g]).
Proof.
  intros [Hd Hl Hb He Hs (Hi1 & Hi2 & Hi3) Hbits Hg] Hlt. constructor; cbn.
  - done.
  - rewrite length_app. cbn. lia.
  - rewrite Hb. by apply slot_write.
  - rewrite He. by apply slot_write.
  - rewrite Hs. by apply slot_write.
  - split_and!; (apply lor_int32; [done|apply bit_int32]).
  - intros j Hj. split_and!; apply slot_bit; try done; try lia; intros j' Hj'; apply (Hbits j' Hj').
  - by rewrite Hg.
Qed.

Lemma vector_length (f : entry -> Z) E D : (length E <= D)%nat -> length (map f E ++ replicate (D - length E) 0) = D.
Proof. intros. rewrite length_app, length_map, length_replicate. lia. Qed.

Definition same_valid (d d' : StridedSliceDenseSpec) : Prop := begin_valid d' = begin_valid d /\ end_valid d' = end_valid d.

Lemma fill_ellipsis_spec t n D d E G :
  built D d E G -> (length E + n <= D)%nat ->
  wp t (fill_ellipsis n (Z.of_nat (length E))) d (fun _ d' =>
    built D d' (E ++ replicate n full) (G ++ seqZ (Z.of_nat (length E)) (Z.of_nat n)) /\ same_valid d d').
Proof.
  revert d E G. induction n as [|n IH]; intros d E G Hb Hn; cbn [fill_ellipsis].
  { wp_steps. cbn. by rewrite !app_nil_r. }
  pose proof (b_len _ _ _ _ Hb) as Hlen.
  assert (length (begin_ d) = D /\ length (end_ d) = D /\ length (strides d) = D) as (L1 & L2 & L3).
  { rewrite (b_begin _ _ _ _ Hb), (b_end _ _ _ _ Hb), (b_strides _ _ _ _ Hb). split_and!; apply vector_length; lia. }
  wp_steps. apply wp_write; [lia|]. wp_steps. apply wp_write; [lia|]. wp_steps. apply wp_write; [lia|].
  unfold set_vectors, or_masks, push_gather. wp_steps. apply wp_shl1; [lia|]. wp_steps.
  pose proof (built_snoc D d E G full (Z.of_nat (length E)) Hb ltac:(lia)) as Hb1. cbn [full e_bm e_em e_sm e_begin e_end e_stride] in Hb1.
  rewrite Nat2Z.id. set (d1 := mkDense _ _ _ _ _ _ _ _ _ _). change (wp t (fill_ellipsis n (Z.of_nat (length E) + 1)) d1 (fun _ d' =>
    built D d' (E ++ replicate (S n) full) (G ++ seqZ (Z.of_nat (length E)) (Z.of_nat (S n))) /\ same_valid d d')).
  replace (Z.of_nat (length E) + 1) with (Z.of_nat (length (E ++ [full]))) by (rewrite length_app; cbn; lia).
  eapply wp_mono; [apply (IH d1 (E ++ [full])); [exact Hb1|rewrite length_app; cbn; lia]|].
  cbn beta. intros _ d' [Hb' Hv']. split; [|done]. rewrite <- !app_assoc in Hb'. cbn [app replicate] in Hb' |- *.
  replace (seqZ (Z.of_nat (length E)) (Z.of_nat (S n))) with (Z.of_nat (length E) :: seqZ (Z.of_nat (length (E ++ [full]))) (Z.of_nat n)); [done|].
  rewrite (seqZ_cons (Z.of_nat (length E)) (Z.of_nat (S n))) by lia. f_equal. f_equal; [rewrite length_app; cbn; lia|lia].
Qed.

(** ** The loop *)

Section loop.
Context (t : bool) (D : nat) (sp : StridedSliceSparseSpec) (N : nat).
Context (Hmasks : int32 (sparse_begin_mask sp) /\ int32 (sparse_end_mask sp) /\ int32 (sparse_shrink_axis_mask sp)
  /\ int32 (ellipsis_mask sp) /\ int32 (new_axis_mask sp)).
Context (HN : (N <= 32)%nat).
(** Every index that is not part of the ellipsis has an element in the tensors. *)
Context (Helem : forall i, 0 <= i < Z.of_nat N -> Z.testbit (ellipsis_mask sp) i = false ->
  (i < Z.of_nat (length (t_flat (strides_tensor sp))))
  /\ (forall tb, begin_tensor sp = Some tb -> length (t_flat tb) = length (t_flat (strides_tensor sp)))
  /\ (forall te, end_tensor sp = Some te -> length (t_flat te) = length (t_flat (strides_tensor sp)))).

(** A value that is absent keeps the zero of the vector. *)
Lemma wp_tensor_write (tensor : option Tensor) (f : entry -> Z) E e i (d : StridedSliceDenseSpec) v Q :
  (length E < D)%nat -> v = map f E ++ replicate (D - length E) 0 -> f e = flat tensor i -> 0 <= i ->
  (forall tt, tensor = Some tt -> (Z.to_nat i < length (t_flat tt))%nat) ->
  Q (<[length E := f e]> v) d ->
  wp t (match tensor with Some tb => x ← read (t_flat tb) i; write v (Z.of_nat (length E)) x | None => mret v end) d Q.
Proof using Type.
  clear -t D. intros Hlt Ev Ef Hi Hl HQ. pose proof (vector_length f E D) as Hlen. destruct tensor as [tb|].
  - destruct (lookup_lt_is_Some_2 (t_flat tb) (Z.to_nat i)) as [x Hx]; [by apply Hl|].
    wp_step. eapply wp_read; [done|done|]. apply wp_write; [rewrite Ev, Hlen by lia; lia|]. rewrite Nat2Z.id.
    cbn in Ef. rewrite Hx in Ef. cbn in Ef. by rewrite <- Ef.
  - wp_steps. cbn in Ef. rewrite Ef in HQ. rewrite Ev in HQ |- *. rewrite list_insert_id in HQ; [done|].
    rewrite lookup_app_r by (rewrite length_map; lia). rewrite length_map, Nat.sub_diag. apply lookup_replicate_2. lia.
Qed.

Lemma gather_entry_spec d E G i :
  built D d E G -> (length E < D)%nat -> 0 <= i < Z.of_nat N -> Z.testbit (ellipsis_mask sp) i = false ->
  wp t (gather_entry sp i (Z.of_nat (length E))) d (fun _ d' =>
    built D d' (E ++ [entry_at sp i]) (G ++ [if e_sm (entry_at sp i) then kShrinkAxis else Z.of_nat (length E)]) /\ same_valid d d').
Proof using HN Helem Hmasks.
  intros Hb Hlt Hi Hell. destruct (Helem i Hi Hell) as (Hs & Hbt & Het). destruct Hmasks as (M1 & M2 & M3 & _). pose proof (b_len _ _ _ _ Hb) as Hlen.
  set (e := entry_at sp i).
  unfold gather_entry. wp_steps.
  apply (wp_tensor_write (begin_tensor sp) e_begin E e i); [done|apply Hb|done|lia|intros tb Htb; rewrite (Hbt tb Htb); lia|].
  wp_steps. apply (wp_tensor_write (end_tensor sp) e_end E e i); [done|apply Hb|done|lia|intros te Hte; rewrite (Het te Hte); lia|].
  wp_steps. destruct (lookup_lt_is_Some_2 (t_flat (strides_tensor sp)) (Z.to_nat i)) as [x Hx]; [lia|].
  eapply wp_read; [lia|done|]. wp_steps. apply wp_write; [rewrite (b_strides _ _ _ _ Hb), vector_length by lia; lia|]. rewrite Nat2Z.id.
  assert (x = e_stride e) as -> by (cbn; by rewrite Hx).
  unfold set_vectors. wp_steps. apply wp_shl1; [lia|]. wp_steps. apply wp_has_bit; [lia|done|]. wp_steps. apply wp_has_bit; [lia|done|].
  wp_steps. apply wp_has_bit; [lia|done|]. unfold or_masks, push_gather. wp_steps. split; [|done].
  apply (built_snoc D d E G e); done.
Qed.

Lemma items_cons i n : items sp i (S n) = item_at sp i :: items sp (i + 1) n.
Proof using Type. clear. unfold items. rewrite seqZ_cons by lia. cbn [map]. f_equal. f_equal. f_equal; lia. Qed.

(** The loop does not touch these. *)
Definition frame (d d' : StridedSliceDenseSpec) : Prop := same_valid d d'.

(** A part without an ellipsis. *)
Lemma loop_plain m n i d E G (Q : Status -> StridedSliceDenseSpec -> Prop) :
  built D d E G -> 0 <= i -> i + Z.of_nat m <= Z.of_nat N -> plain (items sp i m) ->
  (if decide (length E + reals (items sp i m) <= D)%nat then
     forall d', built D d' (E ++ expand 0 (items sp i m)) (G ++ gathers 0 (items sp i m) (Z.of_nat (length E))) -> same_valid d d' ->
       wp t (BuildDenseSpec_loop sp n (i + Z.of_nat m) (Z.of_nat (length E + reals (items sp i m)))) d' Q
   else forall d', Q InvalidArgument d') ->
  wp t (BuildDenseSpec_loop sp (m + n) i (Z.of_nat (length E))) d Q.
Proof using HN Helem Hmasks.
  revert i d E G. induction m as [|m IH]; intros i d E G Hb Hi HiN Hpl HQ.
  { cbn [Nat.add items] in *. change (items sp i 0) with ([] : list item) in HQ. cbn [reals expand gathers] in HQ. rewrite Nat.add_0_r in HQ.
    rewrite decide_True in HQ by (pose proof (b_len _ _ _ _ Hb); lia). rewrite Z.add_0_r, !app_nil_r in HQ. by apply HQ. }
  rewrite items_cons in Hpl, HQ. apply Forall_cons in Hpl as [Hne Hpl]. cbn [Nat.add BuildDenseSpec_loop]. pose proof (b_len _ _ _ _ Hb) as Hlen.
  destruct Hmasks as (_ & _ & _ & M4 & M5). wp_steps. apply wp_has_bit; [lia|done|]. wp_steps. apply wp_has_bit; [lia|done|].
  assert (item_at sp i = if Z.testbit (ellipsis_mask sp) i then Ellipsis else if Z.testbit (new_axis_mask sp) i then NewAxis else Index (entry_at sp i)) as Ei by done.
  rewrite Ei in Hne, HQ. clear Ei. destruct (Z.testbit (ellipsis_mask sp) i) eqn:Eell; [done|].
  destruct (Z.testbit (new_axis_mask sp) i) eqn:Enew.
  - wp_step. unfold push_gather. wp_steps. set (d1 := mkDense _ _ _ _ _ _ _ _ _ _). cbn [reals expand gathers] in HQ.
    apply (IH (i + 1) d1 E (G ++ [kNewAxis])); [|lia|lia|done|].
    + destruct Hb as [? ? ? ? ? ? ? Hg]. constructor; try done. cbn. by rewrite Hg.
    + destruct (decide (length E + reals (items sp (i + 1) m) <= D)%nat); [|done]. intros d' Hb' Hv'.
      replace (i + 1 + Z.of_nat m) with (i + Z.of_nat (S m)) by lia. apply HQ; [|done]. by rewrite <- app_assoc in Hb'.
  - rewrite (b_begin _ _ _ _ Hb), vector_length by lia. cbn [reals expand gathers] in HQ.
    destruct (Z.eqb_spec (Z.of_nat (length E)) (Z.of_nat D)) as [Eq|Neq].
    + wp_steps. rewrite decide_False in HQ by lia. apply HQ.
    + wp_step. eapply wp_mono; [apply (gather_entry_spec d E G i Hb); [lia|lia|done]|].
      cbn beta. intros _ d1 [Hb1 Hv1]. assert (length (E ++ [entry_at sp i]) = S (length E)) as El by (rewrite length_app; cbn; lia).
      replace (Z.of_nat (length E) + 1) with (Z.of_nat (length (E ++ [entry_at sp i]))) by lia.
      apply (IH (i + 1) d1 _ _ Hb1); [lia|lia|done|]. rewrite El.
      destruct (decide (S (length E) + reals (items sp (i + 1) m) <= D)%nat).
      * rewrite decide_True in HQ by lia. intros d' Hb' Hv'. replace (i + 1 + Z.of_nat m) with (i + Z.of_nat (S m)) by lia.
        replace (S (length E) + reals (items sp (i + 1) m))%nat with (length E + S (reals (items sp (i + 1) m)))%nat by lia.
        apply HQ; [|destruct Hv1, Hv'; split; congruence]. rewrite <- !app_assoc in Hb'. cbn [app] in Hb'.
        replace (Z.of_nat (length E) + 1) with (Z.of_nat (S (length E))) by lia. done.
      * rewrite decide_False in HQ by lia. done.
Qed.

(** One ellipsis, with the number of new axes after it. *)
Lemma loop_ellipsis m n d E0 G0 :
  built D d E0 G0 -> E0 = [] -> G0 = [] -> (m + S n = N)%nat -> sparse_dims sp = Z.of_nat N ->
  plain (items sp 0 m) -> Z.testbit (ellipsis_mask sp) (Z.of_nat m) = true -> plain (items sp (Z.of_nat m + 1) n) ->
  num_add_axis_after_ellipsis sp = Z.of_nat n - Z.of_nat (reals (items sp (Z.of_nat m + 1) n)) ->
  let R := reals (items sp 0 N) in
  wp t (BuildDenseSpec_loop sp N 0 0) d (fun st d' =>
    if decide (R <= D)%nat then st = OK /\ built D d' (expand (D - R) (items sp 0 N)) (gathers (D - R) (items sp 0 N) 0) /\ same_valid d d'
    else st = InvalidArgument).
Proof using HN Helem Hmasks.
  intros Hb -> -> Hmn Hdims Hpre Hell Hpost Hadd R. set (pre := items sp 0 m) in *. set (post := items sp (Z.of_nat m + 1) n) in *.
  assert (items sp 0 N = pre ++ Ellipsis :: post) as EN.
  { unfold items, pre, post. rewrite <- Hmn. replace (Z.of_nat (m + S n)) with (Z.of_nat m + Z.of_nat (S n)) by lia.
    rewrite seqZ_app by lia. rewrite map_app. f_equal. rewrite seqZ_cons by lia. cbn [map]. f_equal.
    - unfold item_at. by rewrite Z.add_0_l, Hell.
    - unfold items. f_equal. f_equal; lia. }
  assert (R = reals pre + reals post)%nat as ER by (unfold R; rewrite EN, reals_app; done).
  rewrite <- Hmn at 1. apply (loop_plain m (S n) 0 d [] []); [done|lia|lia|done|]. fold pre. cbn [length app Nat.add].
  destruct (decide (reals pre <= D)%nat) as [Hp|Hp].
  2: { intros d'. rewrite decide_False by lia. done. }
  intros d1 Hb1 Hv1. rewrite Z.add_0_l. cbn [BuildDenseSpec_loop].
  assert (length (expand 0 pre) = reals pre) as El by (by apply expand_plain_length).
  destruct Hmasks as (_ & _ & _ & M4 & M5). wp_steps. apply wp_has_bit; [lia|done|]. wp_steps. apply wp_has_bit; [lia|done|]. rewrite Hell.
  rewrite (b_dims _ _ _ _ Hb1), Hdims, Hadd. fold post.
  replace (Z.min (Z.of_nat D - (Z.of_nat N - Z.of_nat m) + 1 + (Z.of_nat n - Z.of_nat (reals post))) (Z.of_nat D))
    with (Z.of_nat D - Z.of_nat (reals post)) by lia.
  set (k := Z.to_nat (Z.of_nat D - Z.of_nat (reals post) - Z.of_nat (reals pre))).
  wp_step. rewrite <- El. eapply wp_mono; [apply (fill_ellipsis_spec t k D d1 _ _ Hb1); lia|].
  cbn beta. intros _ d2 [Hb2 Hv2].
  set (E2 := expand 0 pre ++ replicate k full) in *.
  assert (length E2 = reals pre + k)%nat as El2 by (unfold E2; rewrite length_app, length_replicate; lia).
  replace (Z.max (Z.of_nat (length (expand 0 pre))) (Z.of_nat D - Z.of_nat (reals post))) with (Z.of_nat (length E2)) by lia.
  replace n with (n + 0)%nat at 1 by lia. eapply (loop_plain n 0); [exact Hb2|lia|lia|done|]. fold post. rewrite El2.
  destruct (decide (reals pre + k + reals post <= D)%nat) as [Hk|Hk].
  - intros d3 Hb3 Hv3. cbn [BuildDenseSpec_loop]. wp_steps. rewrite decide_True by lia.
    assert (D - R = k)%nat as -> by lia. split_and!; [done| |unfold same_valid in *; intuition congruence].
    rewrite EN, expand_app, gathers_app. cbn [expand gathers].
    rewrite (expand_plain k 0 pre), (expand_plain k 0 post), (gathers_plain k 0 pre), (gathers_plain k 0 post), El by done.
    rewrite El in Hb3. unfold E2 in Hb3. rewrite <- !app_assoc in Hb3.
    replace (0 + Z.of_nat (reals pre) + Z.of_nat k) with (Z.of_nat (reals pre + k)) by lia. rewrite Z.add_0_l. done.
  - intros d3. rewrite decide_False by lia. done.
Qed.

End loop.
