(* ===== verification/StridedSliceRun.v ===== *)
(** * Strided slices: the ranges and the shapes

    The loop over the dimensions of the input as a function of the entries, the shape of
    the result, and when adding a dimension can overflow. *)

From S2P Require Import Prelude TensorShape TensorShapeSpec StridedSlice StridedSliceProofs.
Import TensorShape StridedSlice.

(** ** The loop over the dimensions, as a function *)

Definition slice_entry (i dim : Z) (e : entry) (valid_tensors : bool) (f : Flags) : option (Z * Z * Z * Flags) :=
  slice_dim i dim (e_begin e) (e_end e) (e_stride e) (e_bm e) (e_em e) (e_sm e) valid_tensors f.

(** The begins, ends and sizes. *)
Fixpoint slice_all (i : Z) (input : list Z) (E : list entry) (vt : bool) (f : Flags) : option (list (Z * Z * Z) * Flags) :=
  match input, E with
  | dim :: input, e :: E =>
      '(b, e', n, f) ← slice_entry i dim e vt f;
      '(rs, f) ← slice_all (i + 1) input E vt f;
      Some ((b, e', n) :: rs, f)
  | _, _ => Some ([], f)
  end.

(** A size that cannot be added to the dimensions [l] so far. *)
Fixpoint overflows (i : Z) (input : list Z) (E : list entry) (vt : bool) (f : Flags) (l : list Z) : Prop :=
  match input, E with
  | dim :: input, e :: E =>
      match slice_entry i dim e vt f with
      | None => False
      | Some (_, _, n, f) => ~ valid true (l ++ [n]) \/ overflows (i + 1) input E vt f (l ++ [n])
      end
  | _, _ => False
  end.

(** ** Adding a dimension *)

Lemma AddDim_run size s l :
  repr true s l -> -1 <= size < 2 ^ 63 -> becomes true (AddDim true size s) s (l ++ [size]).
Proof.
  intros Hs Hsz. unfold becomes. rewrite AddDim_checked.
  pose proof (AddDimWithStatus_spec true true size s l Hs) as H. unfold wp in H. specialize (H ltac:(unfold arg_ok; lia)).
  destruct (AddDimWithStatus true size s) as [[st s']| |]; [|done..]. case_bool_decide.
  - destruct H as (-> & ? & ?). exists s'. done.
  - by destruct H as [-> _].
Qed.

Lemma interval_size_le len s : s <> 0 -> 0 <= interval_size len s <= Z.abs len.
Proof.
  intros Hs. destruct (interval_size_spec len s Hs) as [H0 Hk]. split; [done|].
  destruct (Z.le_gt_cases (interval_size len s) (Z.abs len)) as [?|Hgt]; [done|]. exfalso.
  apply (Hk (Z.abs len)) in Hgt; [|lia]. unfold before in Hgt. nia.
Qed.

(** Sizes are dimensions. *)
Lemma slice_entry_size i dim e vt f b e' n f' :
  -1 <= dim < 2 ^ 63 -> slice_entry i dim e vt f = Some (b, e', n, f') -> -1 <= n < 2 ^ 63.
Proof.
  intros Hd. unfold slice_entry. destruct (decide (dim = -1)) as [->|Hne].
  { unfold slice_dim. cbn. destruct (_ =? 0); [done|]. intros [= _ _ <- _]. destruct (e_sm e); lia. }
  destruct vt.
  { intros H. apply slice_dim_known in H as (_ & (? & _) & _); lia. }
  unfold slice_dim. destruct (Z.eqb_spec (e_stride e) 0) as [|Hs]; [done|]. rewrite (proj2 (Z.eqb_neq dim (-1))) by done.
  destruct (_ && (_ <=? 0)); [done|]. destruct (e_sm e).
  { intros [= _ _ <- _]. pose proof (interval_size_le 1 (e_stride e) Hs). lia. }
  destruct (_ && _); intros [= _ _ <- _]; [|lia].
  pose proof (interval_size_le (if e_stride e <? 0 then - dim else dim) (e_stride e) Hs). destruct (e_stride e <? 0); lia.
Qed.

(** ** The loop *)

(** The state of the loop: [rs] is done, the entries [E] are left. *)
Record in_loop (D : nat) (v : Slice) (E0 E : list entry) (G : list Z) (rs : list (Z * Z * Z)) (vt : bool) : Prop := {
  n_len : (length rs + length E = D /\ D <= 32)%nat;
  n_E : E = drop (length rs) E0;
  n_begin : begin_ (dense v) = map (fun r => r.1.1) rs ++ map e_begin E;
  n_end : end_ (dense v) = map (fun r => r.1.2) rs ++ map e_end E;
  n_strides : strides (dense v) = map e_stride E0;
  n_int32 : int32 (begin_mask (dense v)) /\ int32 (end_mask (dense v)) /\ int32 (shrink_axis_mask (dense v));
  n_bits : forall j : nat, (j < 32)%nat ->
    Z.testbit (begin_mask (dense v)) (Z.of_nat j) = from_option e_bm false (E0 !! j)
    /\ Z.testbit (end_mask (dense v)) (Z.of_nat j) = from_option e_em false (E0 !! j)
    /\ Z.testbit (shrink_axis_mask (dense v)) (Z.of_nat j) = from_option e_sm false (E0 !! j);
  n_gather : final_shape_gather_indices (dense v) = G;
  n_valid : begin_valid (dense v) && end_valid (dense v) = vt;
  n_shape : repr true (processing_shape v) (map snd rs)
}.

(** What the loop returns. *)
Definition loop_result (D : nat) (o : outcome (Status * Slice)) (fin : Rep) (E0 : list entry) (G : list Z)
    (rs : list (Z * Z * Z)) (vt : bool) (rest : option (list (Z * Z * Z) * Flags)) (over : Prop) : Prop :=
  (o = Crash /\ over)
  \/ (rest = None /\ exists v', o = Val (InvalidArgument, v'))
  \/ (exists rs' f' v', rest = Some (rs', f') /\ o = Val (OK, v') /\ in_loop D v' E0 [] G (rs ++ rs') vt
        /\ flags v' = f' /\ final_shape v' = fin).

Lemma read_run {S} (l : list Z) (i : nat) x (s : S) : l !! i = Some x -> read l (Z.of_nat i) s = Val (x, s).
Proof.
  intros E. unfold read, CHECK. rewrite (proj2 (Z.leb_le 0 (Z.of_nat i))) by lia. unfold mbind, M_bind, mret, M_ret. cbn.
  by rewrite Nat2Z.id, E.
Qed.

Lemma has_bit_run {S} (i : nat) m (s : S) : (i < 32)%nat -> int32 m -> has_bit (Z.of_nat i) m s = Val (Z.testbit m (Z.of_nat i), s).
Proof.
  intros Hi Hm. pose proof (wp_has_bit true (Z.of_nat i) m s (fun b s' => b = Z.testbit m (Z.of_nat i) /\ s' = s) ltac:(lia) Hm (conj eq_refl eq_refl)) as H.
  unfold wp in H. destruct (has_bit (Z.of_nat i) m s) as [[b s']| |]; [|done..]. by destruct H as [-> ->].
Qed.

Lemma write_run {S} (l : list Z) (i : nat) x (s : S) : (i < length l)%nat -> write l (Z.of_nat i) x s = Val (<[i := x]> l, s).
Proof.
  intros Hi. unfold write, CHECK. rewrite (proj2 (Z.leb_le 0 (Z.of_nat i))), (proj2 (Z.ltb_lt (Z.of_nat i) _)) by lia. cbn.
  by rewrite Nat2Z.id.
Qed.

(** The entry in front becomes a result. *)
Lemma slot_done (f : Z * Z * Z -> Z) (g : entry -> Z) rs e E r :
  <[length rs := f r]> (map f rs ++ map g (e :: E)) = map f (rs ++ [r]) ++ map g E.
Proof.
  rewrite insert_app_r_alt by (rewrite length_map; lia). rewrite length_map, Nat.sub_diag. cbn. rewrite map_app. by rewrite <- app_assoc.
Qed.

(** One more dimension is done. *)
Lemma in_loop_next D v E0 e E G rs vt b x n s fin f :
  in_loop D v E0 (e :: E) G rs vt -> repr true s (map snd rs ++ [n]) ->
  in_loop D (mkSlice s fin f (mkDense (dense_dims (dense v)) (begin_mask (dense v)) (end_mask (dense v))
      (begin_valid (dense v)) (end_valid (dense v)) (<[length rs := b]> (begin_ (dense v))) (<[length rs := x]> (end_ (dense v))) (strides (dense v))
      (final_shape_gather_indices (dense v)) (shrink_axis_mask (dense v))))
    E0 E G (rs ++ [(b, x, n)]) vt.
Proof.
  intros [Hl HE Hb He Hs Hint Hbits HG Hv Hr] Hs1. cbn [length] in Hl.
  constructor; cbn [dense begin_ end_ strides begin_mask end_mask shrink_axis_mask final_shape_gather_indices begin_valid end_valid processing_shape]; try done.
  - rewrite length_app. cbn. lia.
  - rewrite length_app. cbn. rewrite <- drop_drop, <- HE. done.
  - rewrite Hb. apply (slot_done (fun r => r.1.1) e_begin rs e E (b, x, n)).
  - rewrite He. apply (slot_done (fun r => r.1.2) e_end rs e E (b, x, n)).
  - by rewrite map_app.
Qed.

Lemma ranges_loop_run input : forall D v E0 E G rs vt f,
  in_loop D v E0 E G rs vt -> flags v = f -> length input = length E -> Forall (fun d => -1 <= d < 2 ^ 63) input ->
  loop_result D (ranges_loop input (Z.of_nat (length rs)) v) (final_shape v) E0 G rs vt
    (slice_all (Z.of_nat (length rs)) input E vt f) (overflows (Z.of_nat (length rs)) input E vt f (map snd rs)).
Proof.
  induction input as [|dim input IH]; intros D v E0 E G rs vt f Hi Hf Hlen Hin.
  { destruct E; [|done]. right; right. exists [], f, v. rewrite app_nil_r. done. }
  destruct E as [|e E]; [done|]. apply Forall_cons in Hin as [Hdim Hin]. cbn [ranges_loop slice_all overflows].
  pose proof Hi as [Hl HE Hb He Hs Hint Hbits HG Hv Hr]. cbn [length] in Hl.
  assert (E0 !! length rs = Some e) as He0 by (by rewrite <- (Nat.add_0_r (length rs)), <- lookup_drop, <- HE).
  destruct (Hbits (length rs) ltac:(lia)) as (B1 & B2 & B3). rewrite He0 in B1, B2, B3. cbn in B1, B2, B3.
  assert (forall (A : Type) (g : Z * Z * Z -> A) (h : entry -> A) l, l = map g rs ++ map h (e :: E) -> l !! length rs = Some (h e)) as Hlk.
  { intros A g h l ->. rewrite lookup_app_r by (rewrite length_map; lia). by rewrite length_map, Nat.sub_diag. }
  assert (length rs < 32)%nat as Hlt32 by lia. rewrite run_get. cbn beta zeta.
  rewrite (run_bind _ _ _ _ _ (read_run _ _ _ v (Hlk _ _ _ _ Hb))), (run_bind _ _ _ _ _ (read_run _ _ _ v (Hlk _ _ _ _ He))).
  assert (strides (dense v) !! length rs = Some (e_stride e)) as Hs' by (rewrite Hs; change (map ?f ?l) with (f <$> l); by rewrite list_lookup_fmap, He0).
  rewrite (run_bind _ _ _ _ _ (read_run _ _ _ v Hs')).
  rewrite (run_bind _ _ _ _ _ (has_bit_run (length rs) _ v Hlt32 (proj1 Hint))), (run_bind _ _ _ _ _ (has_bit_run (length rs) _ v Hlt32 (proj1 (proj2 Hint)))),
    (run_bind _ _ _ _ _ (has_bit_run (length rs) _ v Hlt32 (proj2 (proj2 Hint)))).
  rewrite B1, B2, B3, Hv, Hf. fold (slice_entry (Z.of_nat (length rs)) dim e vt f).
  destruct (slice_entry (Z.of_nat (length rs)) dim e vt f) as [[[[b e'] n] f']|] eqn:Es; cbn [mbind option_bind].
  2: { right; left. split; [done|]. by exists v. }
  pose proof (slice_entry_size _ _ _ _ _ _ _ _ _ Hdim Es) as Hn.
  set (v1 := mkSlice (processing_shape v) (final_shape v) f' (dense v)).
  assert (set_flags f' v = Val (tt, v1)) as E1 by done. rewrite (run_bind _ _ _ _ _ E1).
  assert (length (begin_ (dense v)) = D /\ length (end_ (dense v)) = D) as [Lb Le].
  { rewrite Hb, He, !length_app, !length_map. cbn. lia. }
  rewrite (run_bind _ _ _ _ _ (write_run (begin_ (dense v)) (length rs) _ v1 ltac:(lia))), (run_bind _ _ _ _ _ (write_run (end_ (dense v)) (length rs) _ v1 ltac:(lia))).
  match goal with |- context [on_dense (set_vectors ?x ?y ?z)] => set (d2 := mkDense (dense_dims (dense v)) (begin_mask (dense v)) (end_mask (dense v))
    (begin_valid (dense v)) (end_valid (dense v)) x y z (final_shape_gather_indices (dense v)) (shrink_axis_mask (dense v)));
    assert (on_dense (set_vectors x y z) v1 = Val (tt, mkSlice (processing_shape v) (final_shape v) f' d2)) as E2 by done end.
  rewrite (run_bind _ _ _ _ _ E2). pose proof (AddDim_run n (processing_shape v) (map snd rs) Hr Hn) as Hadd. unfold becomes in Hadd.
  case_bool_decide as Hvalid.
  - destruct Hadd as (s' & Ea & Hs1 & _). set (v3 := mkSlice s' (final_shape v) f' d2).
    assert (on_processing (AddDim true n) (mkSlice (processing_shape v) (final_shape v) f' d2) = Val (tt, v3)) as E3.
    { unfold on_processing. cbn [processing_shape]. by rewrite Ea. }
    rewrite (run_bind _ _ _ _ _ E3).
    assert (in_loop D v3 E0 E G (rs ++ [(b, e', n)]) vt) as Hi3 by (by eapply in_loop_next).
    specialize (IH D v3 E0 E G (rs ++ [(b, e', n)]) vt f' Hi3 eq_refl ltac:(by injection Hlen) Hin).
    rewrite length_app in IH. cbn [length] in IH. rewrite Nat2Z.inj_add in IH. change (Z.of_nat 1) with 1 in IH. rewrite map_app in IH. cbn [map snd] in IH.
    destruct IH as [[Eo Ho]|[[Es' Hv']|(rs' & f'' & v' & Es' & Eo & Hin' & Hf' & Hfin)]].
    + left. split; [done|by right].
    + right; left. rewrite Es'. done.
    + right; right. exists ((b, e', n) :: rs'), f'', v'. rewrite Es'. cbn. rewrite <- app_assoc in Hin'. done.
  - left. split; [|by left]. unfold on_processing, mbind, M_bind. cbn [processing_shape]. by rewrite Hadd.
Qed.

(** ** Known dimensions do not overflow *)

Lemma fits_mono n n' l l' :
  0 <= n' <= n -> Forall2 (fun a b => 0 <= a <= b) l' l -> fits true n l = true -> fits true n' l' = true.
Proof.
  intros Hn HF. revert n n' Hn. induction HF as [|a b l' l Hab HF IH]; intros n n' Hn Hf; [done|]. cbn [fits] in *.
  apply andb_true_iff in Hf as [H1%Z.ltb_lt H2].
  assert (forall n d, 0 <= n -> 0 <= d -> next true n d = n * d) as Hnext.
  { intros m d Hm Hd. unfold next. by rewrite !(proj2 (Z.ltb_ge _ 0)) by lia. }
  rewrite !Hnext in * by lia. rewrite (proj2 (Z.ltb_lt _ _)) by nia. cbn. eapply IH; [|done]. nia.
Qed.

Lemma valid_mono l l' : valid true l -> Forall2 (fun a b => 0 <= a <= b) l' l -> valid true l'.
Proof.
  intros (Hr & Hl & Hf) HF. pose proof (Forall2_length _ _ _ HF) as El. split_and!; [|lia|by eapply fits_mono; [|done|done]].
  clear -HF Hr. induction HF as [|a b l' l Hab _ IH]; [constructor|]. apply Forall_cons in Hr as [Hb Hr].
  constructor; [|by apply IH]. unfold in_range, low in *. lia.
Qed.

Lemma known_no_overflow input : forall i E f l done_,
  Forall (fun d => 0 <= d) input -> valid true (done_ ++ input) -> Forall2 (fun a b => 0 <= a <= b) l done_ ->
  length input = length E -> ~ overflows i input E true f l.
Proof.
  induction input as [|dim input IH]; intros i E f l done_ Hin Hv HF Hlen; destruct E as [|e E]; try done; [by intros H|].
  apply Forall_cons in Hin as [Hd Hin]. cbn [overflows]. destruct (slice_entry i dim e true f) as [[[[b e'] n] f']|] eqn:Es; [|tauto].
  destruct (slice_dim_known _ _ _ _ _ _ _ _ _ _ _ _ _ Hd Es) as (_ & (Hn & _) & _).
  assert (Forall2 (fun a b => 0 <= a <= b) (l ++ [n]) (done_ ++ [dim])) as HF' by (apply Forall2_app; [done|constructor; [done|constructor]]).
  replace (done_ ++ dim :: input) with ((done_ ++ [dim]) ++ input) in Hv by (by rewrite <- app_assoc).
  intros [H|H].
  - apply H. eapply valid_mono; [|done]. by eapply valid_prefix.
  - revert H. apply (IH (i + 1) E f' (l ++ [n]) (done_ ++ [dim])); [done|done|done|by injection Hlen].
Qed.

(** ** The shape of the result *)

Fixpoint final_dims (G : list Z) (P : list Z) : list Z :=
  match G with
  | [] => []
  | g :: G => (if 0 <=? g then [default 0 (P !! Z.to_nat g)] else if g =? kNewAxis then [1] else []) ++ final_dims G P
  end.

Lemma final_loop_run G : forall v P l,
  layout true (processing_shape v) P -> repr true (final_shape v) l -> Forall (fun g => g < Z.of_nat (length P)) G ->
  (exists r, final_loop G v = Val (tt, mkSlice (processing_shape v) r (flags v) (dense v)) /\ repr true r (l ++ final_dims G P))
  \/ (final_loop G v = Crash /\ ~ valid true (l ++ final_dims G P)).
Proof.
  induction G as [|g G IH]; intros v P l Hp Hl HG; cbn [final_loop final_dims].
  { left. exists (final_shape v). rewrite app_nil_r. split; [|done]. by destruct v. }
  apply Forall_cons in HG as [Hg HG]. rewrite run_get. cbn beta.
  assert (forall x, in_range true x -> (if 0 <=? g then [default 0 (P !! Z.to_nat g)] else if g =? kNewAxis then [1] else []) = [x] ->
    (exists r, (on_final (AddDim true x);; final_loop G) v = Val (tt, mkSlice (processing_shape v) r (flags v) (dense v))
       /\ repr true r (l ++ [x] ++ final_dims G P))
    \/ ((on_final (AddDim true x);; final_loop G) v = Crash /\ ~ valid true (l ++ [x] ++ final_dims G P))) as Hadd.
  { intros x Hx _. pose proof (AddDim_run x (final_shape v) l Hl) as Ha. unfold in_range, low in Hx. specialize (Ha Hx). unfold becomes in Ha.
    rewrite app_assoc. case_bool_decide as Hv.
    - destruct Ha as (r & Ea & Hr & _).
      assert (on_final (AddDim true x) v = Val (tt, mkSlice (processing_shape v) r (flags v) (dense v))) as E1 by (unfold on_final; by rewrite Ea).
      rewrite (run_bind _ _ _ _ _ E1). apply (IH (mkSlice (processing_shape v) r (flags v) (dense v)) P (l ++ [x])); done.
    - right. unfold on_final, mbind, M_bind. rewrite Ha. split; [done|]. intros H. by apply valid_prefix in H. }
  destruct (Z.leb_spec 0 g) as [H0|H0].
  - destruct (lookup_lt_is_Some_2 P (Z.to_nat g)) as [x Hx]; [lia|]. rewrite (dim_size_run true _ P _ x Hp Hx). rewrite Hx in Hadd |- *. cbn [default] in *.
    apply Hadd; [|done]. pose proof (l_range _ _ _ Hp) as Hr. rewrite Forall_forall in Hr. apply Hr. by eapply list_elem_of_lookup_2.
  - destruct (Z.eqb_spec g kNewAxis).
    + apply Hadd; [unfold in_range, low; lia|done].
    + apply (IH v P l); done.
Qed.
