(* ===== verification/StridedSliceArgs.v ===== *)
(** * Strided slices: the arguments

    The arguments of [ValidateStridedSliceOp], the items they stand for with the ellipsis
    that is implied at the end, and the whole function as a composition of its three loops. *)

From S2P Require Import Prelude TensorShape TensorShapeSpec StridedSlice StridedSliceProofs StridedSliceRun.
Import TensorShape StridedSlice.

(** ** Arguments *)

Record Args := mkArgs {
  a_begin : option Tensor; a_end : option Tensor; a_strides : Tensor;
  a_begin_mask : Z; a_end_mask : Z; a_ellipsis_mask : Z; a_new_axis_mask : Z; a_shrink_mask : Z
}.

Definition run_slice (a : Args) (input : list Z) : MV Status :=
  ValidateStridedSliceOp (a_begin a) (a_end a) (a_strides a) input
    (a_begin_mask a) (a_end_mask a) (a_ellipsis_mask a) (a_new_axis_mask a) (a_shrink_mask a).

Definition run_slice_full (a : Args) (input : list Z) : MV (SliceStatus * option Rep * option Rep) :=
  ValidateStridedSliceOp_full (a_begin a) (a_end a) (a_strides a) input
    (a_begin_mask a) (a_end_mask a) (a_ellipsis_mask a) (a_new_axis_mask a) (a_shrink_mask a).

Definition count (a : Args) : nat := length (t_flat (a_strides a)).

Definition tensor_wf (a : Args) (t : option Tensor) : Prop :=
  match t with
  | Some t => IsVector t = true /\ length (t_flat t) = count a /\ t_dtype t = t_dtype (a_strides a)
  | None => True
  end.

(** Vectors of the same size and type, at most 31 entries, masks of 32 bits and one ellipsis. *)
Record args_wf (a : Args) : Prop := {
  w_strides : IsVector (a_strides a) = true /\ (count a <= 31)%nat /\ t_dtype (a_strides a) <> DT_OTHER;
  w_begin : tensor_wf a (a_begin a);
  w_end : tensor_wf a (a_end a);
  w_masks : int32 (a_begin_mask a) /\ int32 (a_end_mask a) /\ int32 (a_shrink_mask a)
    /\ int32 (a_ellipsis_mask a) /\ int32 (a_new_axis_mask a);
  w_one : Z.land (a_ellipsis_mask a) (i32 (a_ellipsis_mask a - 1)) = 0
}.

(** The specification as written, and with the ellipsis that is implied at its end. *)
Definition sparse_of (a : Args) (dims num ell : Z) : StridedSliceSparseSpec :=
  mkSparse dims num (a_begin a) (a_end a) (a_strides a) (a_begin_mask a) (a_end_mask a) ell (a_new_axis_mask a) (a_shrink_mask a).
Definition written (a : Args) : list item := items (sparse_of a 0 0 (a_ellipsis_mask a)) 0 (count a).
Definition is_ellipsis (x : item) : bool := match x with Ellipsis => true | _ => false end.
Definition full_items (a : Args) : list item := if existsb is_ellipsis (written a) then written a else written a ++ [Ellipsis].

Definition dense_entries (a : Args) (D : nat) : list entry := expand (D - reals (full_items a)) (full_items a).
Definition dense_gather (a : Args) (D : nat) : list Z := gathers (D - reals (full_items a)) (full_items a) 0.

(** ** At most one ellipsis *)

Lemma testbit_pred m i j : 0 <= i < j -> Z.testbit m i = true -> Z.testbit (m - 1) j = Z.testbit m j.
Proof.
  intros Hij Hi. assert (m mod 2 ^ j <> 0) as Hne.
  { intros E. assert (Z.testbit (m mod 2 ^ j) i = Z.testbit m i) as Hb by (apply Z.mod_pow2_bits_low; lia).
    rewrite E, Z.bits_0 in Hb. congruence. }
  assert (0 < 2 ^ j) by (apply Z.pow_pos_nonneg; lia). pose proof (Z.mod_pos_bound m (2 ^ j)).
  assert ((m - 1) / 2 ^ j = m / 2 ^ j) as E.
  { symmetry. apply (Z.div_unique _ _ _ (m mod 2 ^ j - 1)); [left; lia|]. pose proof (Z.div_mod m (2 ^ j)). lia. }
  pose proof (Z.testbit_spec' m j ltac:(lia)) as H1. pose proof (Z.testbit_spec' (m - 1) j ltac:(lia)) as H2. rewrite E, <- H1 in H2.
  destruct (Z.testbit m j), (Z.testbit (m - 1) j); cbn in H2; done.
Qed.

Lemma one_bit m i j :
  int32 m -> Z.land m (i32 (m - 1)) = 0 -> 0 <= i < j -> j < 32 -> Z.testbit m i = true -> Z.testbit m j = true -> False.
Proof.
  intros Hm Hl Hij Hj Hi Hjb. destruct (Z.eq_dec m (- 2 ^ 31)) as [->|Hne].
  - replace (- 2 ^ 31) with (i32 (Z.shiftl 1 31)) in Hi by reflexivity. rewrite testbit_shl1 in Hi by lia. apply Z.eqb_eq in Hi. lia.
  - assert (i32 (m - 1) = m - 1) as E by (unfold int32 in Hm; unfold i32; rewrite Z.mod_small; lia).
    rewrite E in Hl. apply (f_equal (fun z => Z.testbit z j)) in Hl. rewrite Z.land_spec, Z.bits_0, Hjb in Hl.
    rewrite (testbit_pred m i j) in Hl by (done || lia). rewrite Hjb in Hl. done.
Qed.

(** ** Counting the new axes *)

Section count.
Context (sp : StridedSliceSparseSpec) (He : int32 (ellipsis_mask sp)) (Hn : int32 (new_axis_mask sp)).

Lemma plain_cons i n :
  plain (items sp i (S n)) <-> Z.testbit (ellipsis_mask sp) i = false /\ plain (items sp (i + 1) n).
Proof using Type.
  rewrite items_cons. unfold plain. rewrite Forall_cons. unfold item_at at 1.
  destruct (Z.testbit (ellipsis_mask sp) i); [split; [by intros [? _]|by intros [? _]]|].
  destruct (Z.testbit (new_axis_mask sp) i); (split; [by intros [_ ?]|by intros [_ ?]]).
Qed.

Lemma count_before m n (i : nat) c v :
  (i + m <= 32)%nat -> plain (items sp (Z.of_nat i) m) ->
  count_new_axes (ellipsis_mask sp) (new_axis_mask sp) (m + n) (Z.of_nat i) false c v
  = count_new_axes (ellipsis_mask sp) (new_axis_mask sp) n (Z.of_nat (i + m)) false c v.
Proof using He Hn.
  revert i. induction m as [|m IH]; intros i Hi Hp; [by rewrite Nat.add_0_r|]. apply plain_cons in Hp as [E Hp].
  assert (i < 32)%nat as Hi32 by lia.
  cbn [Nat.add count_new_axes]. rewrite (run_bind _ _ _ _ _ (has_bit_run i _ v Hi32 Hn)), (run_bind _ _ _ _ _ (has_bit_run i _ v Hi32 He)).
  rewrite E. cbn [orb andb]. replace (Z.of_nat i + 1) with (Z.of_nat (S i)) in * by lia. rewrite IH by (done || lia). by rewrite Nat.add_succ_comm.
Qed.

Lemma count_after n (i : nat) c v :
  (i + n <= 32)%nat -> plain (items sp (Z.of_nat i) n) ->
  count_new_axes (ellipsis_mask sp) (new_axis_mask sp) n (Z.of_nat i) true c v
  = Val ((true, c + Z.of_nat n - Z.of_nat (reals (items sp (Z.of_nat i) n))), v).
Proof using He Hn.
  revert i c. induction n as [|n IH]; intros i c Hi Hp; cbn [count_new_axes]; [change (items sp (Z.of_nat i) 0) with ([] : list item); cbn [reals]; by rewrite Z.add_0_r, Z.sub_0_r|].
  apply plain_cons in Hp as [E Hp].
  assert (i < 32)%nat as Hi32 by lia.
  rewrite (run_bind _ _ _ _ _ (has_bit_run i _ v Hi32 Hn)), (run_bind _ _ _ _ _ (has_bit_run i _ v Hi32 He)).
  rewrite items_cons. unfold item_at. rewrite E. cbn [orb andb]. replace (Z.of_nat i + 1) with (Z.of_nat (S i)) in * by lia. rewrite IH by (done || lia).
  destruct (Z.testbit (new_axis_mask sp) (Z.of_nat i)); cbn [reals]; do 3 f_equal; lia.
Qed.

End count.

(** ** The specification the code builds *)

Lemma plain_existsb l : existsb is_ellipsis l = false <-> plain l.
Proof.
  unfold plain. induction l as [|x l IH]; cbn [existsb]; [done|]. rewrite Forall_cons, orb_false_iff, IH.
  destruct x; cbn; intuition congruence.
Qed.

Lemma find_ellipsis sp n i :
  plain (items sp i n) \/ exists m k, n = (m + S k)%nat /\ plain (items sp i m) /\ Z.testbit (ellipsis_mask sp) (i + Z.of_nat m) = true.
Proof.
  revert i. induction n as [|n IH]; intros i; [left; constructor|]. rewrite plain_cons.
  destruct (Z.testbit (ellipsis_mask sp) i) eqn:E.
  { right. exists 0%nat, n. rewrite Z.add_0_r. split_and!; [done|constructor|done]. }
  destruct (IH (i + 1)) as [Hp|(m & k & -> & Hp & Hb)]; [by left|]. right. exists (S m), k. rewrite plain_cons.
  split_and!; [lia|done|done|]. by replace (i + Z.of_nat (S m)) with (i + 1 + Z.of_nat m) by lia.
Qed.

Lemma items_split sp m k : items sp 0 (m + k) = items sp 0 m ++ items sp (Z.of_nat m) k.
Proof. unfold items. rewrite <- map_app. f_equal. rewrite Nat2Z.inj_add, seqZ_app by lia. by rewrite Z.add_0_l. Qed.

Lemma items_ext sp sp' i n :
  (forall j, i <= j < i + Z.of_nat n -> item_at sp j = item_at sp' j) -> items sp i n = items sp' i n.
Proof. intros H. unfold items. apply map_ext_in. intros j Hj. apply list_elem_of_In, elem_of_seqZ in Hj. apply H. lia. Qed.

Lemma plain_bits sp i n :
  (forall j, i <= j < i + Z.of_nat n -> Z.testbit (ellipsis_mask sp) j = false) -> plain (items sp i n).
Proof.
  intros H. unfold plain, items. apply Forall_forall. intros x. rewrite list_elem_of_In, in_map_iff. intros (j & <- & Hj).
  apply list_elem_of_In, elem_of_seqZ in Hj. unfold item_at. rewrite H by lia. by destruct (Z.testbit _ _).
Qed.

Definition seen (a : Args) : bool := existsb is_ellipsis (written a).

(** The entries of the sparse specification, the implied ellipsis included. *)
Definition entries (a : Args) : nat := if seen a then count a else S (count a).
Definition mask_of (a : Args) : Z :=
  Z.lor (a_ellipsis_mask a) (if seen a then 0 else i32 (Z.shiftl 1 (Z.of_nat (count a)))).

(** Where the ellipsis is, and what the first loop counts. *)
Lemma ellipsis_place a v :
  args_wf a ->
  exists m k c, let sp := sparse_of a (Z.of_nat (entries a)) c (mask_of a) in
    (m + S k = entries a)%nat /\ items sp 0 (entries a) = full_items a
    /\ plain (items sp 0 m) /\ Z.testbit (mask_of a) (Z.of_nat m) = true /\ plain (items sp (Z.of_nat m + 1) k)
    /\ c = Z.of_nat k - Z.of_nat (reals (items sp (Z.of_nat m + 1) k))
    /\ count_new_axes (a_ellipsis_mask a) (a_new_axis_mask a) (count a) 0 false 0 v = Val ((seen a, c), v).
Proof.
  intros [(_ & Hn & _) _ _ (_ & _ & _ & He & Hnew) Hone]. set (w := sparse_of a 0 0 (a_ellipsis_mask a)).
  unfold full_items, entries, mask_of. fold (seen a). destruct (seen a) eqn:Es.
  - destruct (find_ellipsis w (count a) 0) as [Hp|(m & k & Hm & Hp & Hb)].
    { apply plain_existsb in Hp. unfold seen, written in Es. fold w in Es. congruence. }
    rewrite Z.add_0_l in Hb. change (ellipsis_mask w) with (a_ellipsis_mask a) in Hb.
    assert (plain (items w (Z.of_nat m + 1) k)) as Hpost.
    { apply plain_bits. intros j Hj. destruct (Z.testbit (ellipsis_mask w) j) eqn:Ej; [|done]. exfalso.
      apply (one_bit (a_ellipsis_mask a) (Z.of_nat m) j); [done|done|lia|lia|done|done]. }
    exists m, k, (Z.of_nat k - Z.of_nat (reals (items w (Z.of_nat m + 1) k))). rewrite Z.lor_0_r.
    split_and!; [lia|done|done|done|done|done|].
    rewrite Hm. change 0 with (Z.of_nat 0) at 1. change (a_ellipsis_mask a) with (ellipsis_mask w). change (a_new_axis_mask a) with (new_axis_mask w).
    rewrite (count_before w He Hnew m (S k) 0 0 v) by (done || lia). cbn [Nat.add count_new_axes].
    assert (m < 32)%nat as Hm32 by lia.
    rewrite (run_bind _ _ _ _ _ (has_bit_run m _ v Hm32 Hnew)), (run_bind _ _ _ _ _ (has_bit_run m _ v Hm32 He)).
    rewrite Hb. cbn [orb andb].
    replace (Z.of_nat m + 1) with (Z.of_nat (S m)) in * by lia. rewrite (count_after w He Hnew k (S m) 0 v) by (done || lia). by rewrite Z.add_0_l.
  - assert (plain (written a)) as Hp by (by apply plain_existsb).
    set (mask := Z.lor (a_ellipsis_mask a) (i32 (Z.shiftl 1 (Z.of_nat (count a))))).
    set (sp := sparse_of a (Z.of_nat (S (count a))) 0 mask).
    assert (items sp 0 (count a) = written a) as Ei.
    { apply items_ext. intros j Hj. unfold item_at. cbn [sp sparse_of ellipsis_mask]. unfold mask.
      rewrite Z.lor_spec, testbit_shl1 by lia. rewrite (proj2 (Z.eqb_neq j _)) by lia. by rewrite orb_false_r. }
    assert (Z.testbit mask (Z.of_nat (count a)) = true) as Hb.
    { unfold mask. rewrite Z.lor_spec, testbit_shl1, Z.eqb_refl by lia. by rewrite orb_true_r. }
    exists (count a), 0%nat, 0. split_and!; [lia| |by rewrite <- Ei in Hp|done|constructor|done|].
    + replace (S (count a)) with (count a + 1)%nat by lia. rewrite items_split. f_equal; [exact Ei|].
      rewrite items_cons. unfold item_at. cbn [ellipsis_mask sparse_of]. fold mask. by rewrite Hb.
    + replace (count a) with (count a + 0)%nat at 1 by lia. change 0 with (Z.of_nat 0) at 1.
      change (a_ellipsis_mask a) with (ellipsis_mask w). change (a_new_axis_mask a) with (new_axis_mask w).
      rewrite (count_before w He Hnew (count a) 0 0 0 v) by (done || lia). done.
Qed.

(** ** The expansion *)

Definition fresh (v : Slice) : Prop := begin_ (dense v) = [] /\ end_ (dense v) = [] /\ strides (dense v) = [].

Lemma resize_nil n : resize [] (Z.of_nat n) = replicate n 0.
Proof. unfold resize. rewrite Nat2Z.id, take_nil. cbn [app length]. by rewrite Nat.sub_0_r. Qed.

Lemma BuildDenseSpec_run a D d m k c :
  args_wf a -> (D <= 32)%nat -> dense_dims d = Z.of_nat D -> begin_ d = [] -> end_ d = [] -> strides d = [] ->
  final_shape_gather_indices d = [] ->
  let sp := sparse_of a (Z.of_nat (entries a)) c (mask_of a) in
  (m + S k = entries a)%nat -> items sp 0 (entries a) = full_items a ->
  plain (items sp 0 m) -> Z.testbit (mask_of a) (Z.of_nat m) = true -> plain (items sp (Z.of_nat m + 1) k) ->
  c = Z.of_nat k - Z.of_nat (reals (items sp (Z.of_nat m + 1) k)) ->
  wp true (BuildDenseSpec (t_dtype (a_strides a)) sp) d (fun st d' =>
    if decide (reals (full_items a) <= D)%nat then
      st = OK /\ built D d' (dense_entries a D) (dense_gather a D)
      /\ begin_valid d' = bool_decide (is_Some (a_begin a)) /\ end_valid d' = bool_decide (is_Some (a_end a))
    else st = InvalidArgument).
Proof.
  intros Hwf HD Hdims Eb Ee Es Eg sp Hmk Eitems Hpre Hbit Hpost Hc. pose proof Hwf as [(_ & Hn & _) Hwb Hwe (M1 & M2 & M3 & M4 & M5) _].
  unfold BuildDenseSpec. wp_steps. apply wp_CHECK; [by apply bool_decide_eq_true_2|]. wp_steps.
  apply wp_CHECK. { cbn [sp sparse_of begin_tensor]. unfold tensor_wf in Hwb. destruct (a_begin a); [apply bool_decide_eq_true_2, Hwb|done]. }
  wp_steps. apply wp_CHECK. { cbn [sp sparse_of end_tensor]. unfold tensor_wf in Hwe. destruct (a_end a); [apply bool_decide_eq_true_2, Hwe|done]. }
  wp_steps. rewrite Eb, Ee, Es, Eg, Hdims, !resize_nil. change (sparse_dims sp) with (Z.of_nat (entries a)). rewrite Nat2Z.id.
  set (d0 := mkDense _ _ _ _ _ _ _ _ _ _).
  assert (built D d0 [] []) as Hb0.
  { constructor; unfold d0; cbn [dense_dims begin_ end_ strides begin_mask end_mask shrink_axis_mask final_shape_gather_indices length map app];
      rewrite ?Nat.sub_0_r; try done; [..|intros j Hj; by rewrite !Z.bits_0]; unfold int32; lia. }
  eapply wp_mono; [apply (loop_ellipsis true D sp (entries a)) with (m := m) (n := k) (E0 := []) (G0 := []); try done|].
  - split_and!; try done. cbn [sp sparse_of ellipsis_mask]. unfold mask_of. apply lor_int32; [done|]. destruct (seen a); [unfold int32; lia|apply i32_range].
  - unfold entries. destruct (seen a); lia.
  - intros i Hi Hell. cbn [sp sparse_of strides_tensor begin_tensor end_tensor ellipsis_mask] in Hell |- *. fold (count a). split_and!.
    + unfold entries, mask_of in *. destruct (seen a); [lia|]. destruct (decide (i = Z.of_nat (count a))) as [->|]; [|lia].
      rewrite Z.lor_spec, testbit_shl1, Z.eqb_refl, orb_true_r in Hell by lia. done.
    + intros tb Htb. unfold tensor_wf in Hwb. rewrite Htb in Hwb. apply Hwb.
    + intros te Hte. unfold tensor_wf in Hwe. rewrite Hte in Hwe. apply Hwe.
  - cbn beta. fold sp. rewrite Eitems. intros st d'. destruct (decide _); [|done]. intros (-> & Hb & Hv1 & Hv2). done.
Qed.

(** ** The three loops in a row *)

Lemma full_items_shape a : args_wf a -> exists pre post, full_items a = pre ++ Ellipsis :: post /\ plain pre /\ plain post.
Proof.
  intros Hwf. unfold full_items. fold (seen a). destruct (seen a) eqn:Es.
  - set (w := sparse_of a 0 0 (a_ellipsis_mask a)). pose proof Hwf as [(_ & Hn & _) _ _ (_ & _ & _ & He & _) Hone].
    destruct (find_ellipsis w (count a) 0) as [Hp|(m & k & Hm & Hp & Hb)].
    { apply plain_existsb in Hp. unfold seen, written in Es. fold w in Es. congruence. }
    rewrite Z.add_0_l in Hb. exists (items w 0 m), (items w (Z.of_nat m + 1) k). split_and!; [|done|].
    + unfold written. fold w. rewrite Hm, items_split, items_cons. f_equal. unfold item_at at 1. by rewrite Hb.
    + apply plain_bits. intros j Hj. destruct (Z.testbit (ellipsis_mask w) j) eqn:Ej; [|done]. exfalso.
      apply (one_bit (a_ellipsis_mask a) (Z.of_nat m) j); [done|done|lia|lia|done|done].
  - exists (written a), []. split_and!; [done|by apply plain_existsb|constructor].
Qed.

Lemma dense_entries_length a D : args_wf a -> (reals (full_items a) <= D)%nat -> length (dense_entries a D) = D.
Proof.
  intros Hwf HR. destruct (full_items_shape a Hwf) as (pre & post & E & Hp1 & Hp2). unfold dense_entries. rewrite E in HR |- *.
  rewrite expand_app, length_app. cbn [expand]. rewrite length_app, length_replicate, !expand_plain_length by done.
  rewrite reals_app in *. cbn [reals] in *. lia.
Qed.

Lemma gathers_bound k l j : 0 <= j -> Forall (fun g => g < j + Z.of_nat (length (expand k l))) (gathers k l j).
Proof.
  revert j. induction l as [|[| |e] l IH]; intros j Hj; cbn [gathers expand length]; [constructor| | |].
  - rewrite length_app, length_replicate. apply Forall_app. split.
    + apply Forall_forall. intros g Hg%elem_of_seqZ. lia.
    + eapply Forall_impl; [apply (IH (j + Z.of_nat k)); lia|]. cbn. lia.
  - constructor; [unfold kNewAxis; lia|by apply IH].
  - constructor; [destruct (e_sm e); unfold kShrinkAxis; lia|]. eapply Forall_impl; [apply (IH (j + 1)); lia|]. cbn. lia.
Qed.

Definition flags0 : Flags := mkFlags true true true.
Definition both_tensors (a : Args) : bool := bool_decide (is_Some (a_begin a)) && bool_decide (is_Some (a_end a)).

(** The state at the end of a run that succeeds. *)
Record sliced (a : Args) (D : nat) (v : Slice) (rs : list (Z * Z * Z)) (f : Flags) : Prop := {
  s_processing : repr true (processing_shape v) (map snd rs);
  s_final : repr true (final_shape v) (final_dims (dense_gather a D) (map snd rs));
  s_begin : begin_ (dense v) = map (fun r => r.1.1) rs;
  s_end : end_ (dense v) = map (fun r => r.1.2) rs;
  s_strides : strides (dense v) = map e_stride (dense_entries a D);
  s_flags : flags v = f
}.

Definition rank_fits (a : Args) (D : nat) : Prop := (reals (full_items a) <= D)%nat.
#[export] Instance rank_fits_dec a D : Decision (rank_fits a D).
Proof. unfold rank_fits. apply _. Defined.

Lemma guards_pass a (v : Slice) (k : MV Status) :
  args_wf a ->
  (if (match a_begin a with Some t => negb (IsVector t && (NumElements t =? NumElements (a_strides a)) && (NumElements t <? 32)) | None => false end
       || match a_end a with Some t => negb (IsVector t && (NumElements t =? NumElements (a_strides a))) | None => false end
       || negb (IsVector (a_strides a))) then mret InvalidArgument
   else if negb (a_ellipsis_mask a =? 0) && negb (Z.land (a_ellipsis_mask a) (i32 (a_ellipsis_mask a - 1)) =? 0) then mret InvalidArgument
   else k) v = k v.
Proof.
  intros [(Hv & Hn & _) Hb He _ Hone]. rewrite Hv, Hone. cbn [negb Z.eqb]. rewrite andb_false_r, orb_false_r. unfold NumElements, tensor_wf, count in *.
  assert (match a_begin a with Some t => negb (IsVector t && (Z.of_nat (length (t_flat t)) =? Z.of_nat (length (t_flat (a_strides a)))) && (Z.of_nat (length (t_flat t)) <? 32)) | None => false end = false) as ->.
  { destruct (a_begin a); [|done]. destruct Hb as (-> & -> & _). rewrite Z.eqb_refl, (proj2 (Z.ltb_lt _ _)) by lia. done. }
  assert (match a_end a with Some t => negb (IsVector t && (Z.of_nat (length (t_flat t)) =? Z.of_nat (length (t_flat (a_strides a))))) | None => false end = false) as ->; [|done].
  destruct (a_end a); [|done]. destruct He as (-> & -> & _). by rewrite Z.eqb_refl.
Qed.

(** After the expansion. *)
Definition slice_rest (input : list Z) : MV Status :=
  set_flags flags0;;
  on_processing Clear;;
  st ← ranges_loop input 0;
  if bool_decide (st = OK) then on_final Clear;; v ← get; final_loop (final_shape_gather_indices (dense v));; mret OK else mret st.

Lemma run_slice_eq a input v :
  args_wf a -> fresh v -> (length input <= 32)%nat ->
  exists v1,
    if decide (rank_fits a (length input)) then
      run_slice a input v = slice_rest input v1
      /\ built (length input) (dense v1) (dense_entries a (length input)) (dense_gather a (length input))
      /\ begin_valid (dense v1) && end_valid (dense v1) = both_tensors a
    else run_slice a input v = Val (InvalidArgument, v1).
Proof.
  intros Hwf Hfresh HD. destruct (ellipsis_place a v Hwf) as (m & k & c & Hmk & Ei & Hpre & Hbit & Hpost & Hc & Hcount).
  assert (NumElements (a_strides a) = Z.of_nat (count a)) as En by done. pose proof Hwf as [(_ & Hn & Hdt) _ _ _ _].
  set (d0 := mkDense (Z.of_nat (length input)) 0 0 false false (begin_ (dense v)) (end_ (dense v)) (strides (dense v)) [] 0).
  destruct Hfresh as (F1 & F2 & F3).
  pose proof (BuildDenseSpec_run a (length input) d0 m k c Hwf HD eq_refl F1 F2 F3 eq_refl Hmk Ei Hpre Hbit Hpost Hc) as Hb. unfold wp in Hb.
  set (sp := sparse_of a (Z.of_nat (entries a)) c (mask_of a)) in *.
  destruct (BuildDenseSpec (t_dtype (a_strides a)) sp d0) as [[st d1]| |] eqn:Eb; [|done..].
  exists (mkSlice (processing_shape v) (final_shape v) (flags v) d1).
  assert (run_slice a input v = (if bool_decide (st = OK) then slice_rest input else mret st) (mkSlice (processing_shape v) (final_shape v) (flags v) d1)) as ->.
  { unfold run_slice, ValidateStridedSliceOp. cbv zeta. rewrite (guards_pass a v _ Hwf). rewrite En, Nat2Z.id.
    rewrite (run_bind _ _ _ _ _ Hcount). cbn beta iota.
    assert ((if seen a then mret 0 else shl1 (Z.of_nat (count a))) v = Val ((if seen a then 0 else i32 (Z.shiftl 1 (Z.of_nat (count a)))), v)) as Hlast.
    { destruct (seen a); [done|]. unfold shl1, CHECK. rewrite (proj2 (Z.leb_le 0 _)), (proj2 (Z.ltb_lt _ 32)) by lia. done. }
    rewrite (run_bind _ _ _ _ _ Hlast), run_get. fold d0. rewrite bool_decide_eq_false_2 by done. cbn [negb CHECK].
    assert ((if seen a then Z.of_nat (count a) else Z.of_nat (count a) + 1) = Z.of_nat (entries a)) as -> by (unfold entries; destruct (seen a); lia).
    fold (mask_of a). fold (sparse_of a (Z.of_nat (entries a)) c (mask_of a)). fold sp.
    unfold put at 1, mbind at 1, M_bind at 1. cbn beta iota. unfold mbind at 1, M_bind at 1. cbn [mret M_ret]. 
    unfold mbind at 1, M_bind at 1. unfold on_dense. cbn [dense]. rewrite Eb. done. }
  cbn beta in Hb. destruct (decide (rank_fits a (length input))) as [HR|HR]; [rewrite decide_True in Hb by done|rewrite decide_False in Hb by done].
  - destruct Hb as (-> & Hb & V1 & V2). rewrite bool_decide_eq_true_2 by done. split_and!; [done|done|]. cbn [dense]. by rewrite V1, V2.
  - by subst st.
Qed.
