(* ===== verification/StridedSliceTheorems.v ===== *)
(** * Strided slices: the theorems

    [ValidateStridedSliceOp] against the meaning of a slice: the ranges it selects, the shape
    and the flags it returns, the errors, and the inference of shapes with partial knowledge. *)

From S2P Require Import Prelude TensorShape TensorShapeSpec StridedSlice StridedSliceProofs StridedSliceRun StridedSliceArgs.
Import TensorShape StridedSlice.

(** ** The loops after the expansion *)

Lemma sizes_in_loop D v E0 G rs vt : in_loop D v E0 [] G rs vt -> length rs = D /\ valid true (map snd rs).
Proof. intros H. pose proof (n_len _ _ _ _ _ _ _ H) as Hl. cbn in Hl. split; [lia|]. apply (n_shape _ _ _ _ _ _ _ H). Qed.

Lemma Clear_empty s : exists s', Clear s = Val (tt, s') /\ repr true s' [].
Proof. eexists. split; [reflexivity|]. by apply scalar_repr. Qed.

Lemma slice_rest_run a input v1 :
  args_wf a -> (length input <= 32)%nat -> Forall (fun d => -1 <= d < 2 ^ 63) input -> rank_fits a (length input) ->
  built (length input) (dense v1) (dense_entries a (length input)) (dense_gather a (length input)) ->
  begin_valid (dense v1) && end_valid (dense v1) = both_tensors a ->
  let E := dense_entries a (length input) in
  (slice_rest input v1 = Crash /\ overflows 0 input E (both_tensors a) flags0 [])
  \/ (slice_all 0 input E (both_tensors a) flags0 = None /\ exists v', slice_rest input v1 = Val (InvalidArgument, v'))
  \/ (exists rs f, slice_all 0 input E (both_tensors a) flags0 = Some (rs, f) /\ length rs = length input /\ valid true (map snd rs)
       /\ ((exists v', slice_rest input v1 = Val (OK, v') /\ sliced a (length input) v' rs f)
           \/ (slice_rest input v1 = Crash /\ ~ valid true (final_dims (dense_gather a (length input)) (map snd rs))))).
Proof.
  intros Hwf HD Hin HR Hb Hvt E. set (D := length input) in *. assert (length E = D) as El by (by apply dense_entries_length).
  destruct (Clear_empty (processing_shape v1)) as (p & Ep & Hp).
  set (v2 := mkSlice p (final_shape v1) flags0 (dense v1)).
  assert (in_loop D v2 E E (dense_gather a D) [] (both_tensors a)) as Hi.
  { change (dense_entries a D) with E in Hb. destruct Hb as [_ _ B1 B2 B3 B4 B5 B6]. rewrite El, Nat.sub_diag in B1, B2, B3. cbn [replicate] in B1, B2, B3. rewrite app_nil_r in B1, B2, B3.
    constructor; cbn [v2 dense processing_shape length map app drop]; done || lia. }
  pose proof (ranges_loop_run input D v2 E E (dense_gather a D) [] (both_tensors a) flags0 Hi eq_refl ltac:(done) Hin) as Hr.
  change (Z.of_nat (length (@nil (Z * Z * Z)))) with 0 in Hr. cbn [map] in Hr.
  assert (slice_rest input v1 = (st ← ranges_loop input 0;
    if bool_decide (st = OK) then on_final Clear;; v ← get; final_loop (final_shape_gather_indices (dense v));; mret OK else mret st) v2) as ->.
  { unfold slice_rest, set_flags, modify, mbind at 1, M_bind at 1. cbn beta iota. unfold mbind at 1, M_bind at 1, on_processing. cbn [processing_shape].
    by rewrite Ep. }
  destruct Hr as [[Eo Ho]|[[Es (v' & Eo)]|(rs & f & v' & Es & Eo & Hin' & Hf & _)]].
  - left. split; [|done]. unfold mbind, M_bind. by rewrite Eo.
  - right; left. split; [done|]. exists v'. by rewrite (run_bind _ _ _ _ _ Eo).
  - right; right. rewrite app_nil_l in Hin'. destruct (sizes_in_loop _ _ _ _ _ _ Hin') as [Hl Hv].
    exists rs, f. split_and!; [done..|]. rewrite (run_bind _ _ _ _ _ Eo), bool_decide_eq_true_2 by done.
    destruct (Clear_empty (final_shape v')) as (q & Eq & Hq). set (v3 := mkSlice (processing_shape v') q (flags v') (dense v')).
    assert (on_final Clear v' = Val (tt, v3)) as E3 by (unfold on_final; by rewrite Eq). rewrite (run_bind _ _ _ _ _ E3), run_get.
    change (dense v3) with (dense v'). rewrite (n_gather _ _ _ _ _ _ _ Hin').
    assert (Forall (fun g => g < Z.of_nat (length (map snd rs))) (dense_gather a D)) as Hg.
    { rewrite length_map, Hl. eapply Forall_impl; [apply (gathers_bound (D - reals (full_items a)) (full_items a) 0); lia|].
      cbn beta. fold (dense_entries a D). change (dense_entries a D) with E. lia. }
    destruct (final_loop_run (dense_gather a D) v3 (map snd rs) [] (r_layout _ _ _ (n_shape _ _ _ _ _ _ _ Hin')) Hq Hg) as [(r & Ef & Hr)|[Ef Hn]].
    + left. rewrite (run_bind _ _ _ _ _ Ef). eexists. split; [done|]. destruct Hin' as [_ _ I1 I2 I3 _ _ _ _ I4]. cbn [map] in I1, I2. rewrite app_nil_r in I1, I2.
      constructor; cbn [processing_shape final_shape flags dense v3]; done.
    + right. split; [|done]. unfold mbind, M_bind. by rewrite Ef.
Qed.

(** ** What an entry selects of a dimension *)

Definition norm (dim x : Z) : Z := if x <? 0 then dim + x else x.

(** The nearest position a range in this direction may begin or end at. *)
Definition bound (s dim x : Z) : Z := if 0 <? s then Z.max 0 (Z.min dim x) else Z.max (-1) (Z.min (dim - 1) x).

Definition range_spec (dim : Z) (e : entry) (r : Z * Z * Z) : Prop :=
  let '(b, e', n) := r in
  let s := e_stride e in
  s <> 0 /\ range_ok dim b e' s n
  /\ if e_sm e then 0 < s /\ b = norm dim (e_begin e) /\ 0 <= b < dim /\ n = 1
     else b = (if e_bm e then if 0 <? s then 0 else dim - 1 else bound s dim (norm dim (e_begin e)))
          /\ e' = (if e_em e then if 0 <? s then dim else -1 else bound s dim (norm dim (e_end e))).

Definition range_error (dim : Z) (e : entry) : Prop :=
  e_stride e = 0 \/ (e_sm e = true /\ (e_stride e < 0 \/ norm dim (e_begin e) < 0 \/ dim <= norm dim (e_begin e))).

Lemma canonical_spec s dim masked x c :
  s <> 0 -> 0 <= dim -> (c <= 1)%nat ->
  canonical s dim masked x c
  = if masked then (if (c =? 0)%nat then if 0 <? s then 0 else dim - 1 else if 0 <? s then dim else -1)
    else bound s dim (norm dim x).
Proof.
  intros Hs Hd Hc. unfold canonical, bound, norm. destruct masked.
  - destruct c as [|[|c]]; [| |lia]; cbn; by destruct (0 <? s).
  - destruct (Z.ltb_spec 0 s), (Z.ltb_spec x 0); cbn [Nat.sub]; repeat (match goal with |- context [?a <? ?b] => destruct (Z.ltb_spec a b) end); lia.
Qed.

(** The flags: the whole dimension, a stride of one. *)
Definition whole (dim : Z) (e : entry) (r : Z * Z * Z) : bool := (e_stride e =? 1) && (r.1.1 =? 0) && (r.1.2 =? dim).
Definition flags_step (i dim : Z) (e : entry) (r : Z * Z * Z) (f : Flags) : Flags :=
  mkFlags (is_identity f && whole dim e r) (is_simple_slice f && (e_stride e =? 1))
    (slice_dim0 f && (((i =? 0) && (e_stride e =? 1)) || whole dim e r)).

Lemma slice_entry_spec i dim e f :
  0 <= dim ->
  match slice_entry i dim e true f with
  | None => range_error dim e
  | Some (b, e', n, f') => range_spec dim e (b, e', n) /\ f' = flags_step i dim e (b, e', n) f
  end.
Proof.
  intros Hd. destruct (slice_entry i dim e true f) as [[[[b e'] n] f']|] eqn:Es; unfold slice_entry in Es.
  - destruct (slice_dim_known _ _ _ _ _ _ _ _ _ _ _ _ _ Hd Es) as (Hs & Hr & Hsm). unfold slice_dim in Es.
    rewrite (proj2 (Z.eqb_neq _ 0)), (proj2 (Z.eqb_neq dim (-1))) in Es by lia. fold (norm dim (e_begin e)) in Es.
    unfold range_spec. destruct (e_sm e) eqn:Esm; cbn [andb] in Es.
    + destruct (Z.leb_spec (e_stride e) 0); [done|]. destruct (Z.ltb_spec (norm dim (e_begin e)) 0); [done|].
      destruct (Z.leb_spec dim (norm dim (e_begin e))); [done|]. cbn [orb] in Es. specialize (Hsm eq_refl).
      injection Es as <- <- <- <-. split_and!; try done. 
    + injection Es as <- <- <- <-. rewrite !canonical_spec in * by (done || lia). done.
  - unfold slice_dim in Es. unfold range_error. destruct (Z.eqb_spec (e_stride e) 0); [by left|]. right.
    rewrite (proj2 (Z.eqb_neq dim (-1))) in Es by lia. fold (norm dim (e_begin e)) in Es. destruct (e_sm e); [|done]. split; [done|]. cbn [andb] in Es.
    destruct (Z.leb_spec (e_stride e) 0); [lia|]. destruct (Z.ltb_spec (norm dim (e_begin e)) 0); [lia|].
    destruct (Z.leb_spec dim (norm dim (e_begin e))); [lia|done].
Qed.

Fixpoint flags_all (i : Z) (input : list Z) (E : list entry) (rs : list (Z * Z * Z)) (f : Flags) : Flags :=
  match input, E, rs with
  | dim :: input, e :: E, r :: rs => flags_all (i + 1) input E rs (flags_step i dim e r f)
  | _, _, _ => f
  end.

Lemma slice_all_spec input : forall i E f,
  Forall (fun d => 0 <= d) input -> length input = length E ->
  match slice_all i input E true f with
  | None => exists j dim e, input !! j = Some dim /\ E !! j = Some e /\ range_error dim e
  | Some (rs, f') => Forall3 range_spec input E rs /\ f' = flags_all i input E rs f
  end.
Proof.
  induction input as [|dim input IH]; intros i [|e E] f Hin Hl; try done; cbn [slice_all].
  { split; [constructor|done]. }
  apply Forall_cons in Hin as [Hd Hin]. pose proof (slice_entry_spec i dim e f Hd) as He.
  destruct (slice_entry i dim e true f) as [[[[b e'] n] f1]|]; cbn [mbind option_bind]; [|by exists 0%nat, dim, e].
  destruct He as [He ->]. specialize (IH (i + 1) E (flags_step i dim e (b, e', n) f) Hin ltac:(by injection Hl)).
  destruct (slice_all (i + 1) input E true _) as [[rs f2]|]; cbn [mbind option_bind].
  - destruct IH as [IH ->]. split; [by constructor|done].
  - destruct IH as (j & d' & x & H1 & H2 & H3). by exists (S j), d', x.
Qed.

(** Sizes do not exceed the dimensions. *)
Lemma sizes_le input E rs : Forall3 range_spec input E rs -> Forall2 (fun a b => 0 <= a <= b) (map snd rs) input.
Proof.
  induction 1 as [|dim e [[b e'] n] input E rs Hr _ IH]; cbn; constructor; [|done]. destruct Hr as (_ & (? & _) & _). done.
Qed.

(** ** The final shape fits *)

Lemma next_one n : 0 <= n -> next true n 1 = n.
Proof. intros Hn. unfold next. rewrite (proj2 (Z.ltb_ge n 0)) by lia. cbn. lia. Qed.

(** A dimension of size one does not matter. *)
Lemma fits_one n l : 0 <= n < 2 ^ 63 -> fits true n (1 :: l) = fits true n l.
Proof. intros Hn. cbn [fits]. rewrite next_one by lia. by rewrite (proj2 (Z.ltb_lt n _)) by lia. Qed.

Lemma fits_step n d l : 0 <= n < 2 ^ 63 -> 0 <= d -> fits true n (d :: l) = true <-> n * d < 2 ^ 63 /\ fits true (n * d) l = true.
Proof.
  intros Hn Hd. cbn [fits]. unfold next. rewrite !(proj2 (Z.ltb_ge _ 0)) by lia. cbn [orb andb].
  by rewrite andb_true_iff, Z.ltb_lt.
Qed.

Lemma final_dims_app G1 G2 P : final_dims (G1 ++ G2) P = final_dims G1 P ++ final_dims G2 P.
Proof. induction G1 as [|g G1 IH]; cbn [final_dims app]; [done|]. by rewrite IH, app_assoc. Qed.

Lemma final_dims_seq P (j k : nat) : (j + k <= length P)%nat -> final_dims (seqZ (Z.of_nat j) (Z.of_nat k)) P = take k (drop j P).
Proof.
  revert j. induction k as [|k IH]; intros j Hk; [done|]. rewrite seqZ_cons by lia. cbn [final_dims].
  destruct (lookup_lt_is_Some_2 P j) as [x Hx]; [lia|]. rewrite (drop_S P x j Hx). cbn [take].
  rewrite (proj2 (Z.leb_le 0 (Z.of_nat j))), Nat2Z.id, Hx by lia. cbn [default app]. f_equal.
  replace (Z.succ (Z.of_nat j)) with (Z.of_nat (S j)) by lia. replace (Z.pred (Z.of_nat (S k))) with (Z.of_nat k) by lia. apply IH. lia.
Qed.

Lemma fits_tail X A B :
  Forall (fun d => 0 <= d) X -> (forall m, 0 <= m < 2 ^ 63 -> fits true m B = true -> fits true m A = true) ->
  forall n, 0 <= n < 2 ^ 63 -> fits true n (X ++ B) = true -> fits true n (X ++ A) = true.
Proof.
  intros HX HAB. induction HX as [|d X Hd _ IH]; intros n Hn Hf; [by apply HAB|]. cbn [app] in *.
  apply fits_step in Hf as [H1 H2]; [|done|done]. apply fits_step; [done|done|]. split; [done|]. apply IH; [nia|done].
Qed.

Lemma final_fits k l P :
  Forall (fun d => 0 <= d) P -> forall j : nat, (j + length (expand k l) = length P)%nat ->
  (forall i e, expand k l !! i = Some e -> e_sm e = true -> P !! (j + i)%nat = Some 1) ->
  forall n, 0 <= n < 2 ^ 63 -> fits true n (drop j P) = true -> fits true n (final_dims (gathers k l (Z.of_nat j)) P) = true.
Proof.
  intros HP. induction l as [|[| |e] l IH]; intros j Hj Hone n Hn Hf; cbn [gathers expand] in *; [done| | |].
  - rewrite length_app, length_replicate in Hj. rewrite final_dims_app, final_dims_seq by lia.
    rewrite <- (take_drop k (drop j P)), drop_drop in Hf. revert Hf. apply fits_tail; [by apply Forall_take, Forall_drop| |done].
    intros m Hm Hf. replace (Z.of_nat j + Z.of_nat k) with (Z.of_nat (j + k)) by lia. apply IH; [lia| |done|done].
    intros i x Hx Hsm. replace (j + k + i)%nat with (j + (k + i))%nat by lia. apply (Hone _ x); [|done].
    rewrite lookup_app_r by (rewrite length_replicate; lia). rewrite length_replicate. by replace (k + i - k)%nat with i by lia.
  - cbn [final_dims]. change (0 <=? kNewAxis) with false. change (kNewAxis =? kNewAxis) with true. cbn [app]. rewrite fits_one by done.
    by apply IH.
  - cbn [length] in Hj. destruct (lookup_lt_is_Some_2 P j) as [x Hx]; [lia|]. rewrite (drop_S P x j Hx) in Hf.
    assert (0 <= x) as H0. { rewrite Forall_forall in HP. apply HP. by eapply list_elem_of_lookup_2. }
    assert (forall m, 0 <= m < 2 ^ 63 -> fits true m (drop (S j) P) = true -> fits true m (final_dims (gathers k l (Z.of_nat (S j))) P) = true) as Hrec.
    { apply IH; [lia|]. intros i y Hy. replace (S j + i)%nat with (j + S i)%nat by lia. by apply Hone. }
    replace (Z.of_nat j + 1) with (Z.of_nat (S j)) by lia. cbn [final_dims]. destruct (e_sm e) eqn:Esm.
    + specialize (Hone 0%nat e eq_refl Esm). rewrite Nat.add_0_r, Hx in Hone. injection Hone as ->. rewrite fits_one in Hf by done.
      change (0 <=? kShrinkAxis) with false. change (kShrinkAxis =? kNewAxis) with false. by apply Hrec.
    + rewrite (proj2 (Z.leb_le 0 (Z.of_nat j))), Nat2Z.id, Hx by lia. cbn [default app id].
      apply fits_step in Hf as [H1 H2]; [|done|done]. apply fits_step; [done|done|]. split; [done|]. apply Hrec; [nia|done].
Qed.

Lemma final_dims_length G P : (length (final_dims G P) <= length G)%nat.
Proof. induction G as [|g G IH]; cbn [final_dims]; [done|]. rewrite length_app. repeat case_match; cbn; lia. Qed.

Lemma gathers_length k pre post j : plain pre -> plain post ->
  length (gathers k (pre ++ Ellipsis :: post) j) = (length pre + k + length post)%nat.
Proof.
  intros H1 H2. assert (forall l j, plain l -> length (gathers k l j) = length l) as Hp.
  { intros l j' Hl. revert j'. induction Hl as [|[| |e] l Hx _ IH]; intros j'; cbn; [done|done|by rewrite IH|by rewrite IH]. }
  rewrite gathers_app, length_app, (Hp pre) by done. cbn [gathers]. rewrite length_app, length_seqZ, (Hp post) by done. lia.
Qed.

Lemma final_dims_range G P : Forall (in_range true) P -> Forall (in_range true) (final_dims G P).
Proof.
  intros HP. induction G as [|g G IH]; cbn [final_dims]; [constructor|]. apply Forall_app. split; [|done].
  destruct (0 <=? g); [|destruct (g =? kNewAxis); repeat constructor; unfold low; lia]. constructor; [|constructor].
  destruct (P !! Z.to_nat g) eqn:E; [|unfold in_range, low; cbn; lia]. rewrite Forall_forall in HP. apply HP. by eapply list_elem_of_lookup_2.
Qed.

(** At most 32 dimensions and 31 entries: the result is a shape. *)
Lemma dense_gather_length a D : args_wf a -> (D <= 32)%nat -> (length (dense_gather a D) <= 63)%nat.
Proof.
  intros Hwf HD. destruct (full_items_shape a Hwf) as (pre & post & E & H1 & H2). unfold dense_gather. rewrite E, gathers_length by done.
  assert (length (full_items a) <= S (count a))%nat as Hl.
  { assert (length (written a) = count a) as Ew by (unfold written, items; rewrite length_map, length_seqZ; lia).
    unfold full_items. destruct (existsb _ _); rewrite ?length_app; cbn; lia. }
  rewrite E, length_app in Hl. cbn [length] in Hl. destruct (w_strides _ Hwf) as (_ & Hn & _). lia.
Qed.

Lemma known_final_valid a input rs :
  args_wf a -> (length input <= 32)%nat -> rank_fits a (length input) -> valid true input ->
  Forall3 range_spec input (dense_entries a (length input)) rs ->
  valid true (final_dims (dense_gather a (length input)) (map snd rs)).
Proof.
  intros Hwf HD HR Hv HF. pose proof (sizes_le _ _ _ HF) as Hle. pose proof (valid_mono _ _ Hv Hle) as Hvr.
  assert (length (map snd rs) = length input) as El by (by eapply Forall2_length).
  split_and!.
  - apply final_dims_range, Hvr.
  - pose proof (final_dims_length (dense_gather a (length input)) (map snd rs)). pose proof (dense_gather_length a (length input) Hwf HD). lia.
  - apply (final_fits _ _ _) with (j := 0%nat); [| | |lia|apply Hvr].
    + clear -Hle. induction Hle as [|x y l l' ? _ IH]; constructor; [lia|done].
    + fold (dense_entries a (length input)). rewrite dense_entries_length by done. lia.
    + fold (dense_entries a (length input)). intros i e He Hsm. cbn [Nat.add].
      destruct (Forall3_lookup_m _ _ _ _ _ _ HF He) as (dim & [[b e'] n] & _ & Hr & Hs). change (map snd rs) with (snd <$> rs).
      rewrite list_lookup_fmap, Hr. cbn. destruct Hs as (_ & _ & Hs). rewrite Hsm in Hs. f_equal. apply Hs.
Qed.

(** ** A run on a known shape *)

Lemma valid_bounds input : valid true input -> Forall (fun d => -1 <= d < 2 ^ 63) input.
Proof. intros (H & _). eapply Forall_impl; [exact H|]. done. Qed.

Definition bad_entry (a : Args) (input : list Z) : Prop :=
  exists j dim e, input !! j = Some dim /\ dense_entries a (length input) !! j = Some e /\ range_error dim e.

Lemma known_run a input v :
  args_wf a -> both_tensors a = true -> (length input <= 32)%nat -> Forall (fun d => 0 <= d) input -> valid true input -> fresh v ->
  (exists v', run_slice a input v = Val (InvalidArgument, v') /\ (~ rank_fits a (length input) \/ bad_entry a input))
  \/ (exists v' rs, run_slice a input v = Val (OK, v') /\ rank_fits a (length input)
        /\ Forall3 range_spec input (dense_entries a (length input)) rs
        /\ slice_all 0 input (dense_entries a (length input)) true flags0 = Some (rs, flags v')
        /\ sliced a (length input) v' rs (flags_all 0 input (dense_entries a (length input)) rs flags0)).
Proof.
  intros Hwf Hboth HD H0 Hv Hf. destruct (run_slice_eq a input v Hwf Hf HD) as (v1 & Hr).
  destruct (decide (rank_fits a (length input))) as [HR|HR]; [|left; exists v1; split; [exact Hr|by left]].
  destruct Hr as (-> & Hb & Hvt). pose proof (dense_entries_length a _ Hwf HR) as El.
  pose proof (slice_all_spec input 0 (dense_entries a (length input)) flags0 H0 ltac:(done)) as Hs.
  destruct (slice_rest_run a input v1 Hwf HD (valid_bounds _ Hv) HR Hb Hvt) as [[_ Ho]|[[En (v' & Ev)]|(rs & f & Es & Hl & Hvr & Hend)]]; rewrite Hboth in *.
  - exfalso. revert Ho. apply (known_no_overflow input 0 _ flags0 [] []); [done|done|constructor|done].
  - left. exists v'. split; [done|]. right. by rewrite En in Hs.
  - rewrite Es in Hs. destruct Hs as [HF ->]. pose proof (known_final_valid a input rs Hwf HD HR Hv HF) as Hfin.
    destruct Hend as [(v' & Ev & Hsl)|[_ Hn]]; [|done]. right. exists v', rs. rewrite (s_flags _ _ _ _ _ Hsl). done.
Qed.

Lemma final_dims_nonneg G P : Forall (fun d => 0 <= d) P -> Forall (fun d => 0 <= d) (final_dims G P).
Proof.
  intros HP. induction G as [|g G IH]; cbn [final_dims]; [constructor|]. apply Forall_app. split; [|done].
  destruct (0 <=? g); [|destruct (g =? kNewAxis); repeat constructor; cbn; lia]. constructor; [|constructor].
  destruct (P !! Z.to_nat g) eqn:E; cbn; [|lia]. rewrite Forall_forall in HP. apply HP. by eapply list_elem_of_lookup_2.
Qed.

(** A partial shape without unknown dimensions is a full shape. *)
Lemma known_elems l : Forall (fun d => 0 <= d) l -> forall n, 0 <= n -> 0 <= elems true n l.
Proof.
  induction 1 as [|d l Hd _ IH]; intros n Hn; [done|]. cbn [elems]. apply IH. unfold next. rewrite !(proj2 (Z.ltb_ge _ 0)) by lia. cbn. nia.
Qed.

Lemma full_shape s l : repr true s l -> Forall (fun d => 0 <= d) l -> AsTensorShape s = Some s /\ layout false s l.
Proof.
  intros [[L1 L2 L3 L4 L5] Hn _] H0. split.
  - unfold AsTensorShape, IsFullyDefined. rewrite (proj2 (Z.eqb_neq _ (-1))); [done|]. pose proof (known_elems l H0 1). lia.
  - constructor; [done|done| |done|].
    + rewrite <- L3 in H0 |- *. clear -H0. induction (dims_ s) as [|raw r IH]; [done|]. cbn [map] in *. apply Forall_cons in H0 as [H1 H2]. f_equal; [|by apply IH].
      unfold decode in *. destruct (tag s); try done; cbn [andb] in *; [destruct (raw =? kUnknownRep16)|destruct (raw =? kUnknownRep32)]; lia || done.
    + clear -H0 L5. induction H0; inversion L5; subst; constructor; auto. unfold in_range, low in *. lia.
Qed.

(** On a fully known input of at most 32 dimensions, with begin, end and strides given
    (vectors of the same length, fewer than 32 entries, at most one ellipsis), the function
    for full shapes always returns, and never the internal error for shapes that are not
    known.  It fails with InvalidArgument exactly when the specification names more
    dimensions than the input has, or some dimension has a zero stride or an index that is out
    of range or has a negative stride.  Otherwise, with the ellipsis expanded to the
    dimensions that are left, each dimension gets the begin, end and number of elements of the
    Python slice, every one of its indices is in bounds, and the shapes are these sizes before
    and after dropping the indexed dimensions and adding the new axes. *)
Lemma strided_slice_shape a input v :
  args_wf a -> both_tensors a = true -> (length input <= 32)%nat -> Forall (fun d => 0 <= d) input -> valid true input -> fresh v ->
  exists st p f v', run_slice_full a input v = Val ((st, p, f), v')
    /\ (st = Returned InvalidArgument <-> (~ rank_fits a (length input) \/ bad_entry a input))
    /\ (st <> Returned InvalidArgument -> st = Returned OK /\ exists rs processing final,
          Forall3 range_spec input (dense_entries a (length input)) rs
          /\ begin_ (dense v') = map (fun r => r.1.1) rs /\ end_ (dense v') = map (fun r => r.1.2) rs
          /\ strides (dense v') = map e_stride (dense_entries a (length input))
          /\ p = Some processing /\ dim_sizes false processing = Val (map snd rs, processing)
          /\ f = Some final /\ dim_sizes false final = Val (final_dims (dense_gather a (length input)) (map snd rs), final)).
Proof.
  intros Hwf Hboth HD H0 Hv Hf. set (v0 := mkSlice (TensorShapeBase_init true) (TensorShapeBase_init true) (flags v) (dense v)).
  assert (run_slice_full a input v = (st ← run_slice a input;
    if negb (bool_decide (st = OK)) then mret (Returned st, None, None) else _) v0) as -> by reflexivity.
  destruct (known_run a input v0 Hwf Hboth HD H0 Hv Hf) as [(v' & Er & Hbad)|(v' & rs & Er & HR & HF & _ & Hs)]; rewrite (run_bind _ _ _ _ _ Er).
  - by exists (Returned InvalidArgument), None, None, v'.
  - destruct Hs as [S1 S2 S3 S4 S5 _]. pose proof (sizes_le _ _ _ HF) as Hle.
    assert (Forall (fun d => 0 <= d) (map snd rs)) as Hn by (clear -Hle; induction Hle; constructor; [lia|done]).
    pose proof (final_dims_nonneg (dense_gather a (length input)) _ Hn) as Hn'.
    destruct (full_shape _ _ S1 Hn) as [E1 L1], (full_shape _ _ S2 Hn') as [E2 L2].
    exists (Returned OK), (Some (processing_shape v')), (Some (final_shape v')), v'. split_and!.
    + cbn beta iota. rewrite bool_decide_eq_true_2 by done. cbn [negb]. by rewrite run_get, E1, E2.
    + split; [done|]. intros [Hn1|(j & dim & e & Hd & He & Herr)]; [done|]. exfalso.
      destruct (Forall3_lookup_m _ _ _ _ _ _ HF He) as (dim' & [[b e'] n] & Hd' & _ & (Hs0 & _ & Hspec)). rewrite Hd in Hd'. injection Hd' as <-.
      destruct Herr as [?|(Esm & Herr)]; [done|]. rewrite Esm in Hspec. destruct Hspec as (? & -> & ? & ?). lia.
    + intros _. split; [done|]. exists rs, (processing_shape v'), (final_shape v'). split_and!; try done; by apply dim_sizes_run.
Qed.

(** ** Flags *)

Lemma Forall3_of_lookup {A B C} (P : A -> B -> C -> Prop) l k k' :
  length l = length k -> length l = length k' ->
  (forall i x y z, l !! i = Some x -> k !! i = Some y -> k' !! i = Some z -> P x y z) -> Forall3 P l k k'.
Proof.
  revert k k'. induction l as [|x l IH]; intros [|y k] [|z k'] L1 L2 H; try done; constructor.
  - by apply (H 0%nat).
  - apply IH; [by injection L1|by injection L2|]. intros i. apply (H (S i)).
Qed.

Lemma flags_all_spec input : forall i E rs f,
  0 <= i -> Forall3 range_spec input E rs ->
  let f' := flags_all i input E rs f in
  (is_identity f' = true <-> is_identity f = true /\ Forall3 (fun d e r => whole d e r = true) input E rs)
  /\ (is_simple_slice f' = true <-> is_simple_slice f = true /\ Forall (fun e => e_stride e = 1) E)
  /\ (slice_dim0 f' = true <-> slice_dim0 f = true
        /\ forall j d e r, input !! j = Some d -> E !! j = Some e -> rs !! j = Some r ->
             (i + Z.of_nat j = 0 /\ e_stride e = 1) \/ whole d e r = true).
Proof.
  induction input as [|d input IH]; intros i E rs f Hi HF; inversion HF as [|x e r ? E' rs' Hr HF']; subst; cbn [flags_all].
  { split_and!; split; try naive_solver constructor. }
  destruct (IH (i + 1) E' rs' (flags_step i d e r f) ltac:(lia) HF') as (I1 & I2 & I3). cbn [is_identity is_simple_slice slice_dim0 flags_step] in *.
  split_and!.
  - rewrite I1, andb_true_iff. split; [intros ((? & ?) & ?); split; [done|by constructor]|].
    intros (? & H). inversion H; subst. done.
  - rewrite I2, andb_true_iff, Z.eqb_eq, Forall_cons. tauto.
  - rewrite I3, andb_true_iff, orb_true_iff, andb_true_iff, !Z.eqb_eq. split.
    + intros ((Hf0 & Hw) & Hall). split; [done|]. intros [|j] d' e' r' Hd He Hr'; cbn in Hd, He, Hr'.
      * simplify_eq. destruct Hw as [[? ?]|?]; [left; lia|by right].
      * destruct (Hall j d' e' r' Hd He Hr') as [[? ?]|?]; [left; lia|by right].
    + intros (Hf0 & Hall). split; [split; [done|]|].
      * destruct (Hall 0%nat d e r eq_refl eq_refl eq_refl) as [[? ?]|?]; [left; lia|by right].
      * intros j d' e' r' Hd He Hr'. destruct (Hall (S j) d' e' r' Hd He Hr') as [[? ?]|?]; [left; lia|by right].
Qed.

(** The three flags of a successful run say what the kernels rely on to take their
    shortcuts.  [is_identity] holds exactly when every dimension is taken whole, in order, and
    then the processing shape is the input's; [is_simple_slice] exactly when all strides are
    one; [slice_dim0] exactly when every dimension but possibly the first is taken whole and
    the first has stride one. *)
Lemma strided_slice_flags a input v v' :
  args_wf a -> both_tensors a = true -> (length input <= 32)%nat -> Forall (fun d => 0 <= d) input -> valid true input -> fresh v ->
  run_slice a input v = Val (OK, v') ->
  let E := dense_entries a (length input) in
  let whole_at j := exists d e, input !! j = Some d /\ E !! j = Some e /\ e_stride e = 1
                      /\ begin_ (dense v') !! j = Some 0 /\ end_ (dense v') !! j = Some d in
  (is_identity (flags v') = true <-> forall j, (j < length input)%nat -> whole_at j)
  /\ (is_identity (flags v') = true -> dim_sizes true (processing_shape v') = Val (input, processing_shape v'))
  /\ (is_simple_slice (flags v') = true <-> Forall (fun e => e_stride e = 1) E)
  /\ (slice_dim0 (flags v') = true <-> forall j, (j < length input)%nat ->
        (j = 0%nat /\ exists e, E !! j = Some e /\ e_stride e = 1) \/ whole_at j).
Proof.
  intros Hwf Hboth HD H0 Hv Hf Er E whole_at.
  destruct (known_run a input v Hwf Hboth HD H0 Hv Hf) as [(v1 & Er1 & _)|(v1 & rs & Er1 & HR & HF & _ & [S1 S2 S3 S4 S5 S6])]; [congruence|].
  rewrite Er in Er1. injection Er1 as <-. fold E in HF, S6. rewrite S6.
  destruct (flags_all_spec input 0 E rs flags0 ltac:(lia) HF) as (F1 & F2 & F3).
  assert (forall j, (j < length input)%nat -> exists d e r, input !! j = Some d /\ E !! j = Some e /\ rs !! j = Some r
    /\ (whole d e r = true <-> whole_at j)) as Hw.
  { intros j Hj. destruct (lookup_lt_is_Some_2 input j Hj) as [d Hd]. destruct (Forall3_lookup_l _ _ _ _ _ _ HF Hd) as (e & [[b x] n] & He & Hr & _).
    exists d, e, (b, x, n). split_and!; [done..|]. unfold whole_at, whole. rewrite S3, S4. change (map ?f rs) with (f <$> rs). rewrite !list_lookup_fmap, Hr, Hd, He. cbn.
    rewrite !andb_true_iff, !Z.eqb_eq. split; [intros ((? & ?) & ?); subst; by exists d, e|intros (? & ? & ? & ? & ? & ? & ?); by simplify_eq]. }
  assert (is_identity (flags_all 0 input E rs flags0) = true -> map snd rs = input) as Hid.
  { intros Hi. apply F1 in Hi as [_ Hi]. clear -HF Hi. induction HF as [|d e [[b x] n] input E rs Hr _ IH]; [done|]. inversion Hi; subst. cbn [map snd]. f_equal; [|by apply IH].
    unfold whole in *. cbn in *. destruct Hr as (_ & (Hn & Hk & _) & _). 
    assert (e_stride e = 1 /\ b = 0 /\ x = d) as (Es & -> & ->) by (rewrite !andb_true_iff, !Z.eqb_eq in *; tauto).
    rewrite Es in Hk. unfold before in Hk. destruct (Z.eq_dec n d); [done|]. pose proof (Hk n). lia. }
  split_and!.
  - rewrite F1. split.
    + intros [_ H] j Hj. destruct (Hw j Hj) as (d & e & r & Hd & He & Hr & <-). 
      destruct (Forall3_lookup_l _ _ _ _ _ _ H Hd) as (e1 & r1 & He1 & Hr1 & H1). by simplify_eq.
    + intros H. split; [done|]. apply Forall3_of_lookup; [by eapply Forall3_length_lm|by eapply Forall3_length_lr|].
      intros j d e r Hd He Hr. assert (j < length input)%nat as Hj by (by eapply lookup_lt_Some).
      destruct (Hw j Hj) as (d1 & e1 & r1 & Hd1 & He1 & Hr1 & Hiff). simplify_eq. apply Hiff, H, Hj.
  - intros Hi. rewrite <- (Hid Hi) at 1. apply dim_sizes_run, r_layout. done.
  - rewrite F2. cbn. tauto.
  - rewrite F3. split.
    + intros [_ H] j Hj. destruct (Hw j Hj) as (d & e & r & Hd & He & Hr & Hiff). destruct (H j d e r Hd He Hr) as [[? ?]|?]; [left; split; [lia|by exists e]|right; by apply Hiff].
    + intros H. split; [done|]. intros j d e r Hd He Hr. assert (j < length input)%nat as Hj by (by eapply lookup_lt_Some).
      destruct (Hw j Hj) as (d1 & e1 & r1 & Hd1 & He1 & Hr1 & Hiff). simplify_eq. destruct (H j Hj) as [[-> (e1 & ? & ?)]|?]; [left; by simplify_eq|right; by apply Hiff].
Qed.

(** C38: on a fully known input of at most 32 dimensions, with begin, end and strides given (vectors
    of the same length, fewer than 32 entries, at most one ellipsis), the code reports an error
    exactly when the entries do not fit the rank or one is bad; otherwise each dimension's range
    and the shapes are those that the entries describe.  The three flags of a successful run say
    what the kernels rely on to take their shortcuts: [is_identity] holds exactly when every
    dimension is taken whole, in order, [is_simple_slice] when all strides are 1, and
    [slice_dim0] when all dimensions but the first are taken whole and the first with stride 1. *)
Theorem strided_slice_result a input v :
  args_wf a -> both_tensors a = true -> (length input <= 32)%nat -> Forall (fun d => 0 <= d) input -> valid true input -> fresh v ->
  (exists st p f v', run_slice_full a input v = Val ((st, p, f), v')
    /\ (st = Returned InvalidArgument <-> (~ rank_fits a (length input) \/ bad_entry a input))
    /\ (st <> Returned InvalidArgument -> st = Returned OK /\ exists rs processing final,
          Forall3 range_spec input (dense_entries a (length input)) rs
          /\ begin_ (dense v') = map (fun r => r.1.1) rs /\ end_ (dense v') = map (fun r => r.1.2) rs
          /\ strides (dense v') = map e_stride (dense_entries a (length input))
          /\ p = Some processing /\ dim_sizes false processing = Val (map snd rs, processing)
          /\ f = Some final /\ dim_sizes false final = Val (final_dims (dense_gather a (length input)) (map snd rs), final)))
  /\ (forall v', run_slice a input v = Val (OK, v') ->
  let E := dense_entries a (length input) in
  let whole_at j := exists d e, input !! j = Some d /\ E !! j = Some e /\ e_stride e = 1
                      /\ begin_ (dense v') !! j = Some 0 /\ end_ (dense v') !! j = Some d in
  (is_identity (flags v') = true <-> forall j, (j < length input)%nat -> whole_at j)
  /\ (is_identity (flags v') = true -> dim_sizes true (processing_shape v') = Val (input, processing_shape v'))
  /\ (is_simple_slice (flags v') = true <-> Forall (fun e => e_stride e = 1) E)
  /\ (slice_dim0 (flags v') = true <-> forall j, (j < length input)%nat ->
        (j = 0%nat /\ exists e, E !! j = Some e /\ e_stride e = 1) \/ whole_at j)).
Proof. intros Hwf Hb Hl H0 Hv Hf. split; [by apply strided_slice_shape|]. intros v' Hr. by apply (strided_slice_flags a input v v'). Qed.


(** ** Shape inference

    Shape functions run the same code when begin or end are not constants ([None]) and when
    some dimensions are not known ([-1]). *)

Definition forget (kb ke : bool) (a : Args) : Args :=
  mkArgs (if kb then a_begin a else None) (if ke then a_end a else None) (a_strides a)
    (a_begin_mask a) (a_end_mask a) (a_ellipsis_mask a) (a_new_axis_mask a) (a_shrink_mask a).

(** What is inferred is right or unknown. *)
Definition agrees (d' d : Z) : Prop := d' = d \/ d' = -1.

Definition weaker (vt : bool) (e' e : entry) : Prop :=
  e_stride e' = e_stride e /\ e_bm e' = e_bm e /\ e_em e' = e_em e /\ e_sm e' = e_sm e
  /\ (vt = true -> e_begin e' = e_begin e /\ e_end e' = e_end e).
Inductive item_weaker (vt : bool) : item -> item -> Prop :=
| weaker_ellipsis : item_weaker vt Ellipsis Ellipsis
| weaker_new_axis : item_weaker vt NewAxis NewAxis
| weaker_index e' e : weaker vt e' e -> item_weaker vt (Index e') (Index e).

Lemma forget_wf kb ke a : args_wf a -> args_wf (forget kb ke a).
Proof. intros [H1 H2 H3 H4 H5]. constructor; try done; unfold forget; cbn; [by destruct kb|by destruct ke]. Qed.

Lemma written_weaker kb ke a : Forall2 (item_weaker (kb && ke)) (written (forget kb ke a)) (written a).
Proof.
  unfold written, items. change (count (forget kb ke a)) with (count a). induction (seqZ 0 (Z.of_nat (count a))) as [|i l IH]; [constructor|].
  cbn [map]. constructor; [|done]. unfold item_at. cbn [sparse_of forget ellipsis_mask new_axis_mask a_ellipsis_mask a_new_axis_mask].
  destruct (Z.testbit _ _); [constructor|]. destruct (Z.testbit _ _); [constructor|]. constructor. unfold weaker, entry_at. cbn. 
  split_and!; try done. intros [-> ->]%andb_true_iff. done.
Qed.

Lemma item_weaker_ellipsis vt l l' : Forall2 (item_weaker vt) l' l -> existsb is_ellipsis l' = existsb is_ellipsis l.
Proof. induction 1 as [|x' x l' l Hx _ IH]; cbn; [done|]. by rewrite IH; destruct Hx. Qed.

Lemma full_items_weaker kb ke a : Forall2 (item_weaker (kb && ke)) (full_items (forget kb ke a)) (full_items a).
Proof.
  pose proof (written_weaker kb ke a) as H. unfold full_items. rewrite (item_weaker_ellipsis _ _ _ H). destruct (existsb _ _); [done|].
  apply Forall2_app; [done|]. repeat constructor.
Qed.

Lemma weaker_structure vt l' l :
  Forall2 (item_weaker vt) l' l ->
  reals l' = reals l /\ forall k, Forall2 (weaker vt) (expand k l') (expand k l) /\ forall j, gathers k l' j = gathers k l j.
Proof.
  induction 1 as [|x' x l' l Hx _ (IH1 & IH)]; [split; [done|]; intros k; split; [constructor|done]|].
  destruct Hx as [| |e' e He]; cbn [reals expand gathers]; (split; [congruence|]); intros k; destruct (IH k) as [H1 H2]; (split; [|intros j]); rewrite ?H2; try done.
  - apply Forall2_app; [|done]. apply Forall2_replicate. unfold weaker. done.
  - by constructor.
  - by destruct He as (_ & _ & _ & -> & _).
Qed.

Lemma slice_entry_weaker i vt dim' dim e' e f f' r1 :
  0 <= dim -> agrees dim' dim -> weaker vt e' e -> slice_entry i dim e true f = Some r1 ->
  exists r2, slice_entry i dim' e' vt f' = Some r2 /\ agrees (snd (fst r2)) (snd (fst r1)).
Proof.
  intros Hd Hd' (W1 & W2 & W3 & W4 & W5) H1. unfold slice_entry in *. rewrite W1, W2, W3, W4.
  assert (exists r2, slice_dim i dim' (e_begin e') (e_end e') (e_stride e) (e_bm e) (e_em e) (e_sm e) vt f' = Some r2) as (r2 & E2).
  { unfold slice_dim in *. destruct (e_stride e =? 0); [done|]. destruct Hd' as [->| ->]; [|by eexists]. rewrite (proj2 (Z.eqb_neq dim (-1))) in * by lia.
    destruct (e_sm e && _); [done|]. destruct vt.
    - destruct (W5 eq_refl) as [-> ->]. destruct (_ && (_ || _)); [done|]. by eexists.
    - destruct (e_sm e); [by eexists|]. destruct (e_bm e && e_em e && (0 <=? dim)); by eexists. }
  exists r2. split; [done|]. destruct (slice_dim_sound _ _ dim' _ _ (e_begin e') (e_end e') _ _ _ _ vt _ f' _ _ Hd Hd' W5 H1 E2); [by right|by left].
Qed.

Lemma slice_all_weaker vt input' input : Forall2 agrees input' input -> forall i E' E f f' rs f1,
  Forall (fun d => 0 <= d) input -> Forall2 (weaker vt) E' E -> slice_all i input E true f = Some (rs, f1) ->
  exists rs' f2, slice_all i input' E' vt f' = Some (rs', f2) /\ Forall2 agrees (map snd rs') (map snd rs).
Proof.
  induction 1 as [|d' d input' input Hd _ IH]; intros i E' E f f' rs f1 Hin HE Hs; cbn [slice_all] in *.
  { injection Hs as <- <-. exists [], f'. split; [done|constructor]. }
  destruct HE as [|e' e E' E He HE].
  { injection Hs as <- <-. exists [], f'. split; [done|constructor]. }
  apply Forall_cons in Hin as [H0 Hin]. destruct (slice_entry i d e true f) as [[[[b x] n] g]|] eqn:E1; [|done]. cbn [mbind option_bind] in Hs.
  destruct (slice_entry_weaker i vt d' d e' e f f' _ H0 Hd He E1) as ([[[b' x'] n'] g'] & -> & Hn). cbn [fst snd] in Hn. cbn [mbind option_bind].
  destruct (slice_all (i + 1) input E true g) as [[rs1 f3]|] eqn:E2; [|done]. cbn [mbind option_bind] in Hs. injection Hs as <- <-.
  destruct (IH (i + 1) E' E g g' rs1 f3 Hin HE E2) as (rs2 & f4 & -> & HF). cbn [mbind option_bind].
  eexists _, f4. split; [done|]. cbn [map snd]. by constructor.
Qed.

Lemma slice_all_no_overflow vt input : forall i E f rs f1 l,
  slice_all i input E vt f = Some (rs, f1) -> valid true (l ++ map snd rs) -> ~ overflows i input E vt f l.
Proof.
  induction input as [|d input IH]; intros i E f rs f1 l Hs Hv Ho; [done|]. destruct E as [|e E]; [done|]. cbn [slice_all overflows] in *.
  destruct (slice_entry i d e vt f) as [[[[b x] n] g]|]; [|done]. cbn [mbind option_bind] in Hs.
  destruct (slice_all (i + 1) input E vt g) as [[rs1 f3]|] eqn:E2; [|done]. injection Hs as <- <-. cbn [map snd] in Hv.
  replace (l ++ n :: map snd rs1) with ((l ++ [n]) ++ map snd rs1) in Hv by (by rewrite <- app_assoc).
  destruct Ho as [Hn|Ho]; [apply Hn; by eapply valid_prefix|by eapply IH].
Qed.

Lemma valid_weaker l' l : valid true l -> Forall (fun d => 0 <= d) l -> Forall2 agrees l' l -> valid true l'.
Proof.
  intros (Hr & Hl & Hf) H0 HF. pose proof (Forall2_length _ _ _ HF) as El. split_and!; [|lia|].
  - clear -HF Hr. induction HF as [|a b l' l Hab _ IH]; [constructor|]. apply Forall_cons in Hr as [Hb Hr]. constructor; [|by apply IH].
    destruct Hab as [->| ->]; [done|unfold in_range, low; lia].
  - clear -HF Hf H0. assert (0 <= 1 < 2 ^ 63) as H1 by lia. revert H1 Hf. generalize 1 as n. induction HF as [|a b l' l Hab _ IH]; intros n Hn Hf; [done|].
    apply Forall_cons in H0 as [Hb H0]. apply fits_step in Hf as [Hm Hf]; [|done|done]. destruct Hab as [->| ->].
    + apply fits_step; [done|done|]. split; [done|]. apply IH; [done|nia|done].
    + cbn [fits]. unfold next. rewrite orb_true_r. cbn [andb]. by apply fits_unknown.
Qed.

Lemma final_dims_weaker G P' P : Forall2 agrees P' P -> Forall2 agrees (final_dims G P') (final_dims G P).
Proof.
  intros HF. induction G as [|g G IH]; cbn [final_dims]; [constructor|]. apply Forall2_app; [|done].
  destruct (0 <=? g); [|by destruct (g =? kNewAxis); repeat constructor]. constructor; [|constructor].
  destruct (P !! Z.to_nat g) as [x|] eqn:E.
  - destruct (Forall2_lookup_r _ _ _ _ _ HF E) as (y & -> & Hy). done.
  - apply lookup_ge_None in E. rewrite (lookup_ge_None_2 P'); [by left|]. by rewrite (Forall2_length _ _ _ HF).
Qed.

(** C39: shape inference is sound.  When the slice succeeds on the actual input, running the
    same code at graph construction, with begin or end possibly not constant and any of the
    dimensions unknown, succeeds as well, and each dimension of the shapes it infers is that
    of the actual shapes or unknown. *)
Theorem strided_slice_inference_sound a kb ke input' input v w v' :
  args_wf a -> both_tensors a = true -> (length input <= 32)%nat -> Forall (fun d => 0 <= d) input -> valid true input -> fresh v -> fresh w ->
  Forall2 agrees input' input -> run_slice a input v = Val (OK, v') ->
  exists w' p' p l' l, run_slice (forget kb ke a) input' w = Val (OK, w')
    /\ dim_sizes true (processing_shape v') = Val (p, processing_shape v') /\ dim_sizes true (processing_shape w') = Val (p', processing_shape w')
    /\ dim_sizes true (final_shape v') = Val (l, final_shape v') /\ dim_sizes true (final_shape w') = Val (l', final_shape w')
    /\ Forall2 agrees p' p /\ Forall2 agrees l' l.
Proof.
  intros Hwf Hboth HD H0 Hv Hf Hfw Hag Er.
  destruct (known_run a input v Hwf Hboth HD H0 Hv Hf) as [(v1 & Er1 & _)|(v1 & rs & Er1 & HR & HF & Hs & Hsl)]; [congruence|].
  rewrite Er in Er1. injection Er1 as <-. set (a' := forget kb ke a). pose proof (forget_wf kb ke a Hwf) as Hwf'. fold a' in Hwf'.
  destruct (weaker_structure _ _ _ (full_items_weaker kb ke a)) as (Ereals & Hst). fold a' in Ereals, Hst.
  pose proof (Forall2_length _ _ _ Hag) as El. destruct (Hst (length input - reals (full_items a))%nat) as (HE & HG).
  assert (dense_gather a' (length input') = dense_gather a (length input)) as EG by (unfold dense_gather; rewrite El, Ereals; apply HG).
  assert (Forall2 (weaker (kb && ke)) (dense_entries a' (length input')) (dense_entries a (length input))) as HE' by (unfold dense_entries; rewrite El, Ereals; exact HE).
  assert (both_tensors a' = kb && ke) as Evt.
  { unfold both_tensors in *. apply andb_true_iff in Hboth as [B1 B2]. unfold a'. cbn [forget a_begin a_end]. destruct kb, ke; rewrite ?B1, ?B2; done. }
  pose proof (sizes_le _ _ _ HF) as Hle. assert (Forall (fun d => 0 <= d) (map snd rs)) as Hnn by (clear -Hle; induction Hle as [|x y l l' ? _ IH]; constructor; [lia|done]).
  pose proof (valid_mono _ _ Hv Hle) as Hvr.
  destruct (slice_all_weaker _ _ _ Hag 0 _ _ flags0 flags0 rs _ H0 HE' Hs) as (rs' & f2 & Es' & Hag').
  pose proof (valid_weaker _ _ Hvr Hnn Hag') as Hvr'.
  assert (Forall (fun d => -1 <= d < 2 ^ 63) input') as Hin' by (apply valid_bounds; by apply (valid_weaker _ input)).
  assert (rank_fits a' (length input')) as HR' by (unfold rank_fits; rewrite El, Ereals; done).
  destruct (run_slice_eq a' input' w Hwf' Hfw ltac:(lia)) as (w1 & Hr). rewrite decide_True in Hr by done. destruct Hr as (Ew & Hb & Hvt). rewrite Ew.
  pose proof (final_dims_weaker (dense_gather a (length input)) _ _ Hag') as Hagf.
  destruct (slice_rest_run a' input' w1 Hwf' ltac:(lia) Hin' HR' Hb Hvt) as [[_ Ho]|[[En _]|(rs2 & f & Es & Hl & _ & Hend)]]; rewrite Evt in *.
  - exfalso. revert Ho. eapply slice_all_no_overflow; [exact Es'|done].
  - congruence.
  - rewrite Es' in Es. injection Es as <- <-. rewrite EG in Hend. destruct Hend as [(w' & Ew' & [S1 S2 _ _ _ _])|[_ Hn]].
    + rewrite EG in S2. destruct Hsl as [T1 T2 _ _ _ _]. exists w'. do 4 eexists. split_and!; [done| | | | |exact Hag'|exact Hagf]; apply dim_sizes_run, r_layout; done.
    + exfalso. apply Hn. eapply valid_weaker; [|by apply final_dims_nonneg|exact Hagf]. by eapply known_final_valid.
Qed.

(** ** Concrete runs *)

(** [foo[1:5:2, ..., newaxis, -1]] on a tensor of shape [6, 3, 4]. *)
Definition demo_tensor (l : list Z) : Tensor := mkTensor DT_INT32 1 l.
Definition demo_args : Args :=
  mkArgs (Some (demo_tensor [1; 0; 0; -1])) (Some (demo_tensor [5; 0; 0; 0])) (demo_tensor [2; 1; 1; 1]) 0 0 2 4 8.
Definition demo_slice : Slice :=
  mkSlice (mkRep REP16 [] 0 0 1) (mkRep REP16 [] 0 0 1) flags0 (mkDense 0 0 0 false false [] [] [] [] 0).

Lemma demo_args_wf : args_wf demo_args.
Proof. constructor; try done; cbn; unfold count; cbn; unfold int32; try (split_and!; done || lia). Qed.

Example demo_final :
  match run_slice demo_args [6; 3; 4] demo_slice with
  | Val (st, v) => (st, begin_ (dense v), end_ (dense v), dims_ (final_shape v)) = (OK, [1; 0; 3], [5; 3; 4], [2; 3; 1])
  | _ => False
  end.
Proof. vm_compute. done. Qed.


(** The whole of a tensor, as [foo[:, ...]]. *)
Definition demo_whole : Args := mkArgs (Some (demo_tensor [0; 0])) (Some (demo_tensor [0; 0])) (demo_tensor [1; 1]) 1 1 2 0 0.

Lemma demo_whole_wf : args_wf demo_whole.
Proof. constructor; try done; cbn; unfold count; cbn; unfold int32; try (split_and!; done || lia). Qed.

Definition final_state (o : outcome (Status * Slice)) (d : Slice) : Slice := match o with Val (_, v) => v | _ => d end.

Lemma strided_slice_result_witness :
  (exists st p f v', run_slice_full demo_args [6; 3; 4] demo_slice = Val ((st, p, f), v')
    /\ (st = Returned InvalidArgument <-> (~ rank_fits demo_args 3 \/ bad_entry demo_args [6; 3; 4]))
    /\ (st <> Returned InvalidArgument -> st = Returned OK /\ exists rs processing final,
          Forall3 range_spec [6; 3; 4] (dense_entries demo_args 3) rs
          /\ begin_ (dense v') = map (fun r => r.1.1) rs /\ end_ (dense v') = map (fun r => r.1.2) rs
          /\ strides (dense v') = map e_stride (dense_entries demo_args 3)
          /\ p = Some processing /\ dim_sizes false processing = Val (map snd rs, processing)
          /\ f = Some final /\ dim_sizes false final = Val (final_dims (dense_gather demo_args 3) (map snd rs), final)))
  /\ (let v' := final_state (run_slice demo_whole [2; 3] demo_slice) demo_slice in
  let whole_at (j : nat) := exists d e, [2; 3] !! j = Some d /\ dense_entries demo_whole 2 !! j = Some e /\ e_stride e = 1
                      /\ begin_ (dense v') !! j = Some 0 /\ end_ (dense v') !! j = Some d in
  (is_identity (flags v') = true <-> forall j, (j < 2)%nat -> whole_at j)
  /\ (is_identity (flags v') = true -> dim_sizes true (processing_shape v') = Val ([2; 3], processing_shape v'))
  /\ (is_simple_slice (flags v') = true <-> Forall (fun e => e_stride e = 1) (dense_entries demo_whole 2))
  /\ (slice_dim0 (flags v') = true <-> forall j, (j < 2)%nat ->
        (j = 0%nat /\ exists e, dense_entries demo_whole 2 !! j = Some e /\ e_stride e = 1) \/ whole_at j)).
Proof.
  split.
  { apply (strided_slice_result demo_args [6; 3; 4] demo_slice demo_args_wf); [reflexivity|cbn; lia|repeat constructor; lia| |done].
  by apply (bool_decide_eq_true_1 (valid true _)). }
  { intros v'. apply (strided_slice_result demo_whole [2; 3] demo_slice demo_whole_wf); [reflexivity|cbn; lia|repeat constructor; lia| |done|vm_compute; reflexivity].
  by apply (bool_decide_eq_true_1 (valid true _)). }
Defined.

Lemma strided_slice_inference_sound_witness :
  let v' := final_state (run_slice demo_args [6; 3; 4] demo_slice) demo_slice in
  exists w' p' p l' l, run_slice (forget true false demo_args) [6; -1; 4] demo_slice = Val (OK, w')
    /\ dim_sizes true (processing_shape v') = Val (p, processing_shape v') /\ dim_sizes true (processing_shape w') = Val (p', processing_shape w')
    /\ dim_sizes true (final_shape v') = Val (l, final_shape v') /\ dim_sizes true (final_shape w') = Val (l', final_shape w')
    /\ Forall2 agrees p' p /\ Forall2 agrees l' l.
Proof.
  intros v'. apply (strided_slice_inference_sound demo_args true false [6; -1; 4] [6; 3; 4] demo_slice demo_slice v' demo_args_wf);
    [reflexivity|cbn; lia|repeat constructor; lia| |done|done| |vm_compute; reflexivity].
  - by apply (bool_decide_eq_true_1 (valid true _)).
  - repeat constructor; unfold agrees; lia.
Defined.
