(* ===== verification/PendingCounts.v ===== *)
(** * Pending and dead counts of the executor: the model

    [core/common_runtime/pending_counts.h]: for each node of a running graph the executor
    keeps how many inputs are missing, how many are dead, and whether the node has started.
    Most nodes have few inputs, so the counts are packed into one byte of a shared array; the
    others take an aligned structure of eight bytes.  The array is modelled byte by byte, with
    the bit fields where the Itanium ABI puts them, little endian. *)

From S2P Require Import Prelude Coding.
Import Coding.

Module PendingCounts.

Inductive NodeState := PENDING_NOTREADY | PENDING_READY | STARTED | COMPLETED.
#[export] Instance NodeState_eq_dec : EqDecision NodeState.
Proof. solve_decision. Defined.

Record Handle := mkHandle { byte_offset_ : Z; is_large_ : bool }.

Definition kMaxCountForPackedCounts : Z := 7.

(** The fields of [PackedCounts] and of [LargeCounts]. *)
Record Counts := mkCounts { c_pending : Z; c_dead_count : Z; c_has_started : bool }.

(** The template parameter of the code: how a structure lies in its bytes. *)
Record Struct := mkStruct {
  sizeof : Z;
  alignof : Z;
  st_get : list Z -> Counts;
  st_put : list Z -> Counts -> list Z
}.

(** Three bits, three bits and one bit; the eighth bit of the byte is not used. *)
Definition PackedCounts : Struct :=
  mkStruct 1 1
    (fun bs => let b := hd 0 bs in mkCounts (b mod 8) (b / 8 mod 8) (b / 64 mod 2 =? 1))
    (fun bs c => let b := hd 0 bs in
       [c_pending c mod 8 + 8 * (c_dead_count c mod 8) + 64 * Z.b2z (c_has_started c) + 128 * (b / 128)]).

(** 32 bits, then 31 bits and one bit. *)
Definition LargeCounts : Struct :=
  mkStruct 8 4
    (fun bs => let w := le_value (drop 4 bs) in mkCounts (le_value (take 4 bs)) (w mod 2 ^ 31) (w / 2 ^ 31 =? 1))
    (fun bs c => le_bytes 4 (c_pending c mod 2 ^ 32) ++ le_bytes 4 (c_dead_count c mod 2 ^ 31 + 2 ^ 31 * Z.b2z (c_has_started c))).

(** ** The layout *)

(** A signed bit field of 31 bits. *)
Definition i31 (z : Z) : Z := (z + 2 ^ 30) mod 2 ^ 31 - 2 ^ 30.

(** The handle and the next offset. *)
Definition CreateHandle (next_offset_ max_pending_count max_dead_count : Z) : Handle * Z :=
  if (kMaxCountForPackedCounts <? max_pending_count) || (kMaxCountForPackedCounts <? max_dead_count) then
    let B := sizeof LargeCounts in
    let offset := (next_offset_ + B - 1) ÷ B * B in
    let byte_offset := i31 offset in
    (mkHandle byte_offset true, i32 (byte_offset + B))
  else
    (mkHandle (i31 next_offset_) false, i32 (next_offset_ + sizeof PackedCounts)).

(** ** The counts *)

Record PendingCounts := mkPendingCounts { num_bytes_ : Z; bytes_ : list Z }.

(** A new array has indeterminate bytes [junk]; a copy has those of the other. *)
Definition new_PendingCounts (next_offset_ : Z) (junk : nat -> Z) : PendingCounts :=
  mkPendingCounts next_offset_ (map junk (seq 0 (Z.to_nat next_offset_))).
Definition copy_PendingCounts (other : PendingCounts) : PendingCounts := mkPendingCounts (num_bytes_ other) (bytes_ other).

Abbreviation MP := (M PendingCounts).

(** [Large(h)] and [Packed(h)]: the checks, and the bytes the pointer refers to. *)
Definition struct_of (h : Handle) : Struct := if is_large_ h then LargeCounts else PackedCounts.
Definition pointer (h : Handle) : MP unit :=
  s ← get;
  CHECK ((0 <=? byte_offset_ h) && (byte_offset_ h + sizeof (struct_of h) <=? num_bytes_ s)
         && (byte_offset_ h mod alignof (struct_of h) =? 0)).
Definition load (h : Handle) : MP Counts :=
  pointer h;;
  s ← get;
  mret (st_get (struct_of h) (take (Z.to_nat (sizeof (struct_of h))) (drop (Z.to_nat (byte_offset_ h)) (bytes_ s)))).
Definition store (h : Handle) (c : Counts) : MP unit :=
  pointer h;;
  s ← get;
  let i := Z.to_nat (byte_offset_ h) in
  let n := Z.to_nat (sizeof (struct_of h)) in
  put (mkPendingCounts (num_bytes_ s)
    (take i (bytes_ s) ++ st_put (struct_of h) (take n (drop i (bytes_ s))) c ++ drop (i + n) (bytes_ s))).

Definition NodeStateForStruct (c : Counts) : NodeState :=
  if c_has_started c then if c_pending c =? 0 then STARTED else COMPLETED
  else if c_pending c =? 0 then PENDING_READY else PENDING_NOTREADY.
Definition not_ready (c : Counts) : bool := bool_decide (NodeStateForStruct c = PENDING_NOTREADY).

Definition set_initial_count (h : Handle) (pending_count : Z) : MP unit :=
  c ← load h;
  (if is_large_ h then mret tt else CHECK (pending_count <=? kMaxCountForPackedCounts));;
  store h (mkCounts pending_count 0 false).

Definition node_state (h : Handle) : MP NodeState :=
  c ← load h; mret (NodeStateForStruct c).

Definition pending (h : Handle) : MP Z :=
  c ← load h; mret (if not_ready c then i32 (c_pending c) else 0).

Definition mark_started (h : Handle) : MP unit :=
  p ← pending h;
  CHECK (p =? 0);;
  c ← load h;
  CHECK (negb (c_has_started c));;
  store h (mkCounts (c_pending c) (c_dead_count c) true).

Definition mark_completed (h : Handle) : MP unit :=
  c ← load h;
  CHECK (c_has_started c);;
  store h (mkCounts 1 (c_dead_count c) (c_has_started c)).

Definition decrement_pending (h : Handle) (v : Z) : MP Z :=
  p ← pending h;
  CHECK (v <=? p);;
  c ← load h;
  store h (mkCounts (c_pending c - v) (c_dead_count c) (c_has_started c));;
  c ← load h;
  mret (i32 (c_pending c)).

Definition mark_live (h : Handle) : MP unit :=
  c ← load h;
  if not_ready c then
    store h (mkCounts (Z.land (c_pending c) (if is_large_ h then 2 ^ 32 - 2 else 6)) (c_dead_count c) (c_has_started c))
  else mret tt.

Definition dead_count (h : Handle) : MP Z :=
  c ← load h; mret (c_dead_count c).

Definition increment_dead_count (h : Handle) : MP unit :=
  c ← load h;
  if not_ready c then
    (if is_large_ h then mret tt else CHECK (c_dead_count c <? kMaxCountForPackedCounts));;
    store h (mkCounts (c_pending c) (c_dead_count c + 1) (c_has_started c))
  else mret tt.

(** The pending result and the dead result. *)
Definition adjust_for_activation_shared (h : Handle) (increment_dead : bool) : MP (Z * Z) :=
  c ← load h;
  (if increment_dead && not_ready c
   then store h (mkCounts (c_pending c) (c_dead_count c + 1) (c_has_started c)) else mret tt);;
  c ← load h;
  store h (mkCounts (c_pending c - 1) (c_dead_count c) (c_has_started c));;
  c ← load h;
  mret (i32 (c_pending c), c_dead_count c).

Definition adjust_for_activation (h : Handle) (increment_dead : bool) : MP (Z * Z) :=
  p ← pending h;
  CHECK (1 <=? p);;
  adjust_for_activation_shared h increment_dead.

End PendingCounts.
