(* ===== verification/PendingCountsTheorems.v ===== *)
(** * Pending and dead counts of the executor: correctness

    The byte array behaves as independent counters with a state machine each; the streamlined
    activation is the sequence of calls its comment gives. *)

From S2P Require Import Prelude Coding PendingCounts.
Import Coding PendingCounts.

#[local] Open Scope runtime_scope.

(** ** The specification: a node of its own for each handle *)

Inductive Node := Waiting (p d : Z) | Running (d : Z) | Done (d : Z).

Definition state_of (n : Node) : NodeState :=
  match n with Waiting p _ => if p =? 0 then PENDING_READY else PENDING_NOTREADY | Running _ => STARTED | Done _ => COMPLETED end.
Definition dead_of (n : Node) : Z := match n with Waiting _ d | Running d | Done d => d end.

Inductive Op :=
| SetInitial (k : Z) | GetState | MarkStarted | MarkCompleted | GetPending | Decrement (v : Z)
| MarkLive | GetDead | IncrementDead | Adjust (increment_dead : bool).
Inductive Res := RUnit | RState (s : NodeState) | RInt (z : Z) | RPair (p d : Z).

(** What a call does to a node; [None]: the call is not allowed. *)
Definition node_step (o : Op) (n : option Node) : option (Res * Node) :=
  match o, n with
  | SetInitial k, _ => Some (RUnit, Waiting k 0)
  | GetState, Some n => Some (RState (state_of n), n)
  | MarkStarted, Some (Waiting p d) => if p =? 0 then Some (RUnit, Running d) else None
  | MarkCompleted, Some (Running d) | MarkCompleted, Some (Done d) => Some (RUnit, Done d)
  | GetPending, Some n => Some (RInt (match n with Waiting p _ => p | _ => 0 end), n)
  | Decrement v, Some (Waiting p d) => if v <=? p then Some (RInt (p - v), Waiting (p - v) d) else None
  | MarkLive, Some (Waiting p d) => Some (RUnit, Waiting (p - p mod 2) d)
  | MarkLive, Some n => Some (RUnit, n)
  | GetDead, Some n => Some (RInt (dead_of n), n)
  | IncrementDead, Some (Waiting p d) => Some (RUnit, if p =? 0 then Waiting p d else Waiting p (d + 1))
  | IncrementDead, Some n => Some (RUnit, n)
  | Adjust b, Some (Waiting p d) =>
      if 1 <=? p then let d := if b then d + 1 else d in Some (RPair (p - 1) d, Waiting (p - 1) d) else None
  | _, _ => None
  end.

(** The counts a handle was created for. *)
Definition within (mx : Z * Z) (n : Node) : bool :=
  match n with
  | Waiting p d => (0 <=? p) && (p <=? mx.1) && (0 <=? d) && (d <=? mx.2)
  | Running d | Done d => (0 <=? d) && (d <=? mx.2)
  end.

Fixpoint spec_run (maxs : list (Z * Z)) (ops : list (nat * Op)) (ns : list (option Node)) : option (list Res * list (option Node)) :=
  match ops with
  | [] => Some ([], ns)
  | (i, o) :: ops =>
      mx ← maxs !! i;
      n ← ns !! i;
      '(r, n') ← node_step o n;
      if within mx n' then '(rs, ns') ← spec_run maxs ops (<[i := Some n']> ns); Some (r :: rs, ns') else None
  end.

(** ** The calls on the array *)

Definition run_op (h : Handle) (o : Op) : M PendingCounts Res :=
  match o with
  | SetInitial k => set_initial_count h k;; mret RUnit
  | GetState => s ← node_state h; mret (RState s)
  | MarkStarted => mark_started h;; mret RUnit
  | MarkCompleted => mark_completed h;; mret RUnit
  | GetPending => p ← pending h; mret (RInt p)
  | Decrement v => p ← decrement_pending h v; mret (RInt p)
  | MarkLive => mark_live h;; mret RUnit
  | GetDead => d ← dead_count h; mret (RInt d)
  | IncrementDead => increment_dead_count h;; mret RUnit
  | Adjust b => '(p, d) ← adjust_for_activation h b; mret (RPair p d)
  end.

Fixpoint run_all (hs : list Handle) (ops : list (nat * Op)) : M PendingCounts (list Res) :=
  match ops with
  | [] => mret []
  | (i, o) :: ops => h ← of_option (hs !! i); r ← run_op h o; rs ← run_all hs ops; mret (r :: rs)
  end.

(** The handles for a list of maxima, from an offset. *)
Fixpoint create_all (next : Z) (maxs : list (Z * Z)) : list Handle * Z :=
  match maxs with
  | [] => ([], next)
  | mx :: maxs => let '(h, next) := CreateHandle next mx.1 mx.2 in let '(hs, last) := create_all next maxs in (h :: hs, last)
  end.

(** ** The layout *)

Definition spans (h : Handle) (lo hi : Z) : Prop :=
  lo <= byte_offset_ h /\ byte_offset_ h + sizeof (struct_of h) <= hi /\ byte_offset_ h mod alignof (struct_of h) = 0.

(** Handles in order, one after the other. *)
Fixpoint laid_out (lo : Z) (hs : list Handle) (hi : Z) : Prop :=
  match hs with
  | [] => lo <= hi
  | h :: hs => exists mid, spans h lo mid /\ laid_out mid hs hi
  end.

Lemma CreateHandle_spec next mp md :
  0 <= next -> next + 16 < 2 ^ 30 ->
  let '(h, next') := CreateHandle next mp md in
  spans h next next' /\ next < next' <= next + 16 /\ (is_large_ h = false -> mp <= 7 /\ md <= 7).
Proof.
  intros H0 H1. unfold CreateHandle, kMaxCountForPackedCounts. destruct (_ || _) eqn:E.
  - cbn [sizeof LargeCounts]. rewrite Z.quot_div_nonneg by lia. pose proof (Z.div_mod (next + 8 - 1) 8 ltac:(lia)).
    pose proof (Z.mod_pos_bound (next + 8 - 1) 8 ltac:(lia)). set (q := (next + 8 - 1) / 8) in *.
    assert (i31 (q * 8) = q * 8) as -> by (unfold i31; rewrite Z.mod_small; lia).
    assert (i32 (q * 8 + 8) = q * 8 + 8) as -> by (unfold i32; rewrite Z.mod_small; lia).
    unfold spans. cbn. split_and!; try lia; try done. replace (q * 8) with (q * 2 * 4) by lia. apply Z.mod_mul. lia.
  - apply orb_false_iff in E as [E1%Z.ltb_ge E2%Z.ltb_ge]. cbn [sizeof PackedCounts].
    assert (i31 next = next) as -> by (unfold i31; rewrite Z.mod_small; lia).
    assert (i32 (next + 1) = next + 1) as -> by (unfold i32; rewrite Z.mod_small; lia).
    unfold spans. cbn. split_and!; try lia. apply Z.mod_1_r.
Qed.

Definition max_ok (mx : Z * Z) : Prop := 0 <= mx.1 < 2 ^ 31 /\ 0 <= mx.2 < 2 ^ 31.
Definition fits_handle (mx : Z * Z) (h : Handle) : Prop := is_large_ h = false -> mx.1 <= 7 /\ mx.2 <= 7.

Lemma create_all_spec maxs : forall next,
  0 <= next -> next + 16 * Z.of_nat (length maxs) < 2 ^ 30 ->
  let '(hs, last) := create_all next maxs in
  laid_out next hs last /\ Forall2 fits_handle maxs hs /\ next <= last < 2 ^ 30.
Proof.
  induction maxs as [|[mp md] maxs IH]; intros next H0 H1; cbn [create_all fst snd]; [split_and!; [cbn; lia|constructor|lia|cbn in *; lia]|].
  cbn [length] in H1. pose proof (CreateHandle_spec next mp md H0 ltac:(lia)) as Hc.
  destruct (CreateHandle next mp md) as [h next']. destruct Hc as (Hs & Hn & Hf).
  specialize (IH next' ltac:(lia) ltac:(lia)). destruct (create_all next' maxs) as [hs last]. destruct IH as (IH1 & IH2 & IH3).
  split_and!; [by exists next'|by constructor|lia|lia].
Qed.

Lemma laid_out_le lo hs hi : laid_out lo hs hi -> lo <= hi.
Proof.
  revert lo. induction hs as [|h hs IH]; intros lo; [done|]. intros (mid & (? & ? & _) & Hr). apply IH in Hr.
  assert (0 <= sizeof (struct_of h)) by (unfold struct_of; destruct (is_large_ h); cbn; lia). lia.
Qed.

(** Handles are in range, aligned and do not overlap. *)
Lemma laid_out_lookup hs : forall lo hi i h,
  laid_out lo hs hi -> hs !! i = Some h -> spans h lo hi.
Proof.
  induction hs as [|g hs IH]; intros lo hi [|i] h Hl Hi; try done; destruct Hl as (mid & (S1 & S2 & S3) & Hr).
  - injection Hi as ->. apply laid_out_le in Hr. unfold spans. lia.
  - destruct (IH _ _ _ _ Hr Hi) as (T1 & T2 & T3). unfold spans.
    assert (0 <= sizeof (struct_of g)) by (unfold struct_of; destruct (is_large_ g); cbn; lia). split_and!; [lia|lia|done].
Qed.

Lemma laid_out_disjoint hs : forall lo hi i j g h,
  laid_out lo hs hi -> hs !! i = Some g -> hs !! j = Some h -> (i < j)%nat ->
  byte_offset_ g + sizeof (struct_of g) <= byte_offset_ h.
Proof.
  induction hs as [|x hs IH]; intros lo hi [|i] [|j] g h Hl Hi Hj Hij; try done; try lia; destruct Hl as (mid & (S1 & S2 & S3) & Hr).
  - injection Hi as ->. destruct (laid_out_lookup _ _ _ _ _ Hr Hj) as (T1 & _). lia.
  - apply (IH _ _ i j g h Hr Hi Hj). lia.
Qed.

(** ** Reading and writing a structure *)

Definition size_of (h : Handle) : nat := Z.to_nat (sizeof (struct_of h)).
Definition view (bs : list Z) (h : Handle) : Counts := st_get (struct_of h) (take (size_of h) (drop (Z.to_nat (byte_offset_ h)) bs)).

Definition fits_counts (h : Handle) (c : Counts) : Prop :=
  if is_large_ h then 0 <= c_pending c < 2 ^ 32 /\ 0 <= c_dead_count c < 2 ^ 31
  else 0 <= c_pending c < 8 /\ 0 <= c_dead_count c < 8.

Lemma get_put h bs c : fits_counts h c -> st_get (struct_of h) (st_put (struct_of h) bs c) = c.
Proof.
  unfold fits_counts, struct_of. destruct c as [p d st]. destruct (is_large_ h); cbn [LargeCounts PackedCounts st_get st_put c_pending c_dead_count c_has_started hd].
  - intros [Hp Hd]. assert (0 <= Z.b2z st <= 1) by (destruct st; cbn; lia).
    assert (forall w v, length (le_bytes w v) = w) as Hlen by (intros w; induction w as [|w IH]; intros v; cbn; [done|by rewrite IH]).
    rewrite take_app_length' by (by rewrite Hlen). rewrite drop_app_length' by (by rewrite Hlen). rewrite (Z.mod_small p), (Z.mod_small d) by lia. rewrite !le_bytes_value by (cbn; lia).
    f_equal; [symmetry; apply (Z.mod_unique _ _ (Z.b2z st)); lia|].
    replace ((d + 2 ^ 31 * Z.b2z st) / 2 ^ 31) with (Z.b2z st) by (apply (Z.div_unique _ _ _ d); lia). by destruct st.
  - intros [Hp Hd]. assert (0 <= Z.b2z st <= 1) by (destruct st; cbn; lia). rewrite (Z.mod_small p), (Z.mod_small d) by lia. set (k := hd 0 bs / 128).
    f_equal; [symmetry; apply (Z.mod_unique _ _ (d + 8 * Z.b2z st + 16 * k)); lia| |].
    + replace ((p + 8 * d + 64 * Z.b2z st + 128 * k) / 8) with (d + 8 * Z.b2z st + 16 * k) by (apply (Z.div_unique _ _ _ p); lia).
      symmetry. apply (Z.mod_unique _ _ (Z.b2z st + 2 * k)); lia.
    + replace ((p + 8 * d + 64 * Z.b2z st + 128 * k) / 64) with (Z.b2z st + 2 * k) by (apply (Z.div_unique _ _ _ (p + 8 * d)); lia).
      replace ((Z.b2z st + 2 * k) mod 2) with (Z.b2z st) by (apply (Z.mod_unique _ _ k); lia). by destruct st.
Qed.

Lemma put_length h bs c : length (st_put (struct_of h) bs c) = size_of h.
Proof.
  assert (forall w v, length (le_bytes w v) = w) as Hlen by (intros w; induction w as [|w IH]; intros v; cbn; [done|by rewrite IH]).
  unfold size_of, struct_of. destruct (is_large_ h); cbn [LargeCounts PackedCounts st_put sizeof]; [by rewrite length_app, !Hlen|done].
Qed.

(** A handle of the array, and two handles that do not overlap. *)
Definition handle_ok (s : PendingCounts) (h : Handle) : Prop :=
  spans h 0 (num_bytes_ s) /\ Z.of_nat (length (bytes_ s)) = num_bytes_ s.
Definition apart (g h : Handle) : Prop :=
  0 <= byte_offset_ g /\ (byte_offset_ g + sizeof (struct_of g) <= byte_offset_ h \/ byte_offset_ h + sizeof (struct_of h) <= byte_offset_ g).

(** [s'] differs from [s] in the counts of [h] only. *)
Record updated (h : Handle) (c : Counts) (s s' : PendingCounts) : Prop := {
  u_num : num_bytes_ s' = num_bytes_ s;
  u_len : length (bytes_ s') = length (bytes_ s);
  u_view : view (bytes_ s') h = c;
  u_frame : forall g, apart g h -> view (bytes_ s') g = view (bytes_ s) g
}.

Lemma updated_refl h s : updated h (view (bytes_ s) h) s s.
Proof. by constructor. Qed.

Lemma updated_trans h c c' s s' s'' : updated h c s s' -> updated h c' s' s'' -> updated h c' s s''.
Proof. intros [A1 A2 A3 A4] [B1 B2 B3 B4]. constructor; [congruence..|done|]. intros g Hg. by rewrite B4, A4. Qed.

Lemma updated_ok h c s s' g : updated h c s s' -> handle_ok s g -> handle_ok s' g.
Proof. intros [A1 A2 _ _] [Hs Hl]. split; [by rewrite A1|]. by rewrite A1, A2. Qed.

Lemma pointer_run h s : handle_ok s h -> pointer h s = Val (tt, s).
Proof.
  intros [(H1 & H2 & H3) _]. unfold pointer. rewrite run_get. rewrite (proj2 (Z.leb_le 0 _)), (proj2 (Z.leb_le _ (num_bytes_ s))), H3 by lia. done.
Qed.

Lemma wp_load h s (Q : Counts -> PendingCounts -> Prop) : handle_ok s h -> Q (view (bytes_ s) h) s -> load h @ s ⇓ Q.
Proof. intros Hh HQ. unfold load, wp. rewrite (run_bind _ _ _ _ _ (pointer_run h s Hh)), run_get. exact HQ. Qed.

Lemma sizeof_pos h : 0 < sizeof (struct_of h).
Proof. unfold struct_of. destruct (is_large_ h); cbn; lia. Qed.

Lemma wp_store h c s (Q : unit -> PendingCounts -> Prop) :
  handle_ok s h -> fits_counts h c -> (forall s', updated h c s s' -> Q tt s') -> store h c @ s ⇓ Q.
Proof.
  intros Hh Hc HQ. unfold store, wp. rewrite (run_bind _ _ _ _ _ (pointer_run h s Hh)), run_get. cbn -[take drop]. apply HQ.
  destruct Hh as [(H1 & H2 & H3) Hl]. pose proof (sizeof_pos h). fold (size_of h). set (i := Z.to_nat (byte_offset_ h)).
  assert (Z.of_nat (size_of h) = sizeof (struct_of h)) as En by (unfold size_of; lia).
  set (mid := st_put _ _ _). assert (length mid = size_of h) as Em by apply put_length.
  assert (length (take i (bytes_ s)) = i) as Ei by (rewrite length_take; lia).
  constructor; cbn [num_bytes_ bytes_]; [done| | |].
  - rewrite !length_app, length_drop, Ei, Em. lia.
  - unfold view. fold i. rewrite drop_app_length' by done. rewrite take_app_length' by done. by apply get_put.
  - intros g [Hg [Hb|Hb]]; unfold view; f_equal; pose proof (sizeof_pos g);
      assert (Z.of_nat (size_of g) = sizeof (struct_of g)) as Eg by (unfold size_of; lia).
    + rewrite !take_drop_commute. f_equal. rewrite take_app_le by lia. rewrite take_take. f_equal. lia.
    + set (j := Z.to_nat (byte_offset_ g)). f_equal. rewrite drop_app_ge by lia. rewrite drop_app_ge by lia. rewrite drop_drop, Ei, Em. f_equal. lia.
Qed.

(** ** One call on one handle *)

Definition counts_of (n : Node) : Counts :=
  match n with Waiting p d => mkCounts p d false | Running d => mkCounts 0 d true | Done d => mkCounts 1 d true end.

Lemma within_fits mx h n : max_ok mx -> fits_handle mx h -> within mx n = true -> fits_counts h (counts_of n).
Proof.
  intros [M1 M2] Hf. unfold within, fits_counts. destruct n; rewrite ?andb_true_iff, ?Z.leb_le; cbn; destruct (is_large_ h) eqn:E; try (specialize (Hf E)); lia.
Qed.

Lemma within_bounds mx n : within mx n = true -> 0 <= dead_of n <= mx.2 /\ match n with Waiting p _ => 0 <= p <= mx.1 | _ => True end.
Proof. unfold within. destruct n; rewrite ?andb_true_iff, ?Z.leb_le; cbn; lia. Qed.

Lemma state_counts n : NodeStateForStruct (counts_of n) = state_of n.
Proof. destruct n; unfold NodeStateForStruct; cbn; by try destruct (p =? 0). Qed.

Lemma not_ready_counts n : not_ready (counts_of n) = match n with Waiting p _ => negb (p =? 0) | _ => false end.
Proof. unfold not_ready. rewrite state_counts. destruct n; cbn; by try destruct (p =? 0). Qed.

Lemma land_live p (large : bool) : 0 <= p < 2 ^ 32 -> (large = false -> p < 8) -> Z.land p (if large then 2 ^ 32 - 2 else 6) = p - p mod 2.
Proof.
  intros Hp Hs. assert (p - p mod 2 = Z.ldiff p (Z.ones 1)) as ->.
  { rewrite Z.ldiff_ones_r, Z.shiftr_div_pow2, Z.shiftl_mul_pow2 by lia. pose proof (Z.div_mod p 2 ltac:(lia)). change (2 ^ 1) with 2. lia. }
  change (Z.ones 1) with 1.
  destruct large.
  - change (2 ^ 32 - 2) with (Z.land (Z.ones 32) (Z.lnot 1)). rewrite Z.land_assoc, Z.land_ones, Z.mod_small by lia. symmetry. apply Z.ldiff_land.
  - specialize (Hs eq_refl). change 6 with (Z.land (Z.ones 3) (Z.lnot 1)). rewrite Z.land_assoc, Z.land_ones, Z.mod_small by (cbn; lia). symmetry. apply Z.ldiff_land.
Qed.

Section call.
Context (mx : Z * Z) (h : Handle) (Hmx : max_ok mx) (Hf : fits_handle mx h).

(** The state in which the counts of [h] are those of the node [n]. *)
Definition holds (s : PendingCounts) (n : Node) : Prop := handle_ok s h /\ view (bytes_ s) h = counts_of n /\ within mx n = true.

Lemma holds_updated s s' c n : holds s n -> updated h c s s' -> forall n', c = counts_of n' -> within mx n' = true -> holds s' n'.
Proof using Type.
  intros (Hh & _ & _) Hu n' -> Hw. split_and!; [by eapply updated_ok|by apply Hu|done].
Qed.

Lemma wp_load_node s n (Q : Counts -> PendingCounts -> Prop) : holds s n -> Q (counts_of n) s -> load h @ s ⇓ Q.
Proof using Type. intros (Hh & Ev & _) HQ. apply wp_load; [done|]. by rewrite Ev. Qed.

Lemma wp_store_node s n n' (Q : unit -> PendingCounts -> Prop) :
  holds s n -> within mx n' = true -> (forall s', holds s' n' -> updated h (counts_of n') s s' -> Q tt s') ->
  store h (counts_of n') @ s ⇓ Q.
Proof using Hmx Hf.
  intros Hn Hw HQ. apply wp_store; [apply Hn|by eapply within_fits|]. intros s' Hu. apply HQ; [|done]. by eapply holds_updated.
Qed.

Definition pending_of (n : Node) : Z := match n with Waiting p _ => p | _ => 0 end.

Lemma wp_pending s n (Q : Z -> PendingCounts -> Prop) : holds s n -> Q (pending_of n) s -> pending h @ s ⇓ Q.
Proof using Hmx.
  intros Hn HQ. unfold pending. wp_steps. eapply wp_load_node; [done|]. wp_steps. rewrite not_ready_counts.
  destruct Hn as (_ & _ & Hw). apply within_bounds in Hw as [_ Hp]. destruct n as [p d|d|d]; try done. cbn in *. destruct Hmx as [M1 _].
  destruct (Z.eqb_spec p 0) as [->|]; cbn [negb]; [done|]. by rewrite i32_small by lia.
Qed.

(** The counts after a call are those of the node after the abstract call. *)
Lemma run_op_spec o s n r n' :
  holds s n -> node_step o (Some n) = Some (r, n') -> within mx n' = true ->
  run_op h o @ s ⇓ fun r' s' => r' = r /\ updated h (counts_of n') s s'.
Proof using Hmx Hf.
  intros Hn Hst Hw. pose proof Hn as (Hh & Ev & Hwn). pose proof (within_bounds _ _ Hwn) as [Bd Bp]. pose proof (within_bounds _ _ Hw) as [Bd' Bp'].
  destruct Hmx as [M1 M2].
  assert (updated h (counts_of n) s s) as Hrefl by (rewrite <- Ev; apply updated_refl).
  destruct o; cbn [run_op]; wp_steps.
  - (* set_initial_count *) injection Hst as <- <-. unfold set_initial_count. wp_steps. eapply wp_load_node; [done|]. wp_steps.
    eapply (wp_mono _ _ _ (fun _ s' => s' = s)). { cbn in Bp'. destruct (is_large_ h) eqn:E; [by wp_steps|]. apply wp_CHECK; [|done]. destruct (Hf E). apply Z.leb_le. unfold kMaxCountForPackedCounts. lia. }
    intros _ ? ->. apply (wp_store_node s n (Waiting k 0)); [done|done|]. intros s' _ Hu. by wp_steps.
  - (* node_state *) injection Hst as <- <-. unfold node_state. wp_steps. eapply wp_load_node; [done|]. wp_steps. by rewrite state_counts.
  - (* mark_started *) destruct n as [p d|d|d]; try done. cbn in Hst. destruct (Z.eqb_spec p 0) as [->|]; [|done]. injection Hst as <- <-.
    unfold mark_started. wp_steps. eapply wp_pending; [done|]. wp_steps. apply wp_CHECK; [done|]. wp_steps. eapply wp_load_node; [done|]. wp_steps.
    apply wp_CHECK; [done|]. wp_steps. apply (wp_store_node s (Waiting 0 d) (Running d)); [done|done|]. intros s' _ Hu. by wp_steps.
  - (* mark_completed *) unfold mark_completed. wp_steps. eapply wp_load_node; [done|]. wp_steps. destruct n as [p d|d|d]; try done; injection Hst as <- <-.
    + apply wp_CHECK; [done|]. apply (wp_store_node s (Running d) (Done d)); [done|done|]. intros s' _ Hu. by wp_steps.
    + apply wp_CHECK; [done|]. apply (wp_store_node s (Done d) (Done d)); [done|done|]. intros s' _ Hu. by wp_steps.
  - (* pending *) injection Hst as <- <-. eapply wp_pending; [done|]. wp_steps. by destruct n.
  - (* decrement_pending *) destruct n as [p d|d|d]; try done. cbn in Hst. destruct (Z.leb_spec v p); [|done]. injection Hst as <- <-. cbn in Bp, Bp'.
    unfold decrement_pending. wp_steps. eapply wp_pending; [done|]. wp_steps. apply wp_CHECK; [by apply Z.leb_le|]. wp_steps. eapply wp_load_node; [done|]. wp_steps.
    apply (wp_store_node s (Waiting p d) (Waiting (p - v) d)); [done|done|]. intros s' Hn' Hu. wp_steps. eapply wp_load_node; [done|]. wp_steps.
    cbn [counts_of c_pending]. by rewrite i32_small by lia.
  - (* mark_live *) unfold mark_live. wp_steps. eapply wp_load_node; [done|]. rewrite not_ready_counts. destruct n as [p d|d|d]; injection Hst as <- <-; try by wp_steps.
    destruct (Z.eqb_spec p 0) as [->|]; cbn [negb]; [by wp_steps|]. cbn [counts_of c_pending c_dead_count c_has_started]. cbn in Bp.
    rewrite land_live; [|lia|intros E; destruct (Hf E); lia].
    apply (wp_store_node s (Waiting p d) (Waiting (p - p mod 2) d)); [done|done|]. intros s' _ Hu. by wp_steps.
  - (* dead_count *) injection Hst as <- <-. unfold dead_count. wp_steps. eapply wp_load_node; [done|]. wp_steps. by destruct n.
  - (* increment_dead_count *) unfold increment_dead_count. wp_steps. eapply wp_load_node; [done|]. rewrite not_ready_counts. destruct n as [p d|d|d]; injection Hst as <- <-; try by wp_steps.
    destruct (Z.eqb_spec p 0) as [->|]; cbn [negb]; [by wp_steps|]. cbn in Bd'. wp_steps.
    eapply (wp_mono _ _ _ (fun _ s' => s' = s)). { destruct (is_large_ h) eqn:E; [by wp_steps|]. apply wp_CHECK; [|done]. destruct (Hf E). apply Z.ltb_lt. unfold kMaxCountForPackedCounts. cbn. lia. }
    intros _ ? ->. apply (wp_store_node s (Waiting p d) (Waiting p (d + 1))); [done|done|]. intros s' _ Hu. by wp_steps.
  - (* adjust_for_activation *) destruct n as [p d|d|d]; try done. cbn in Hst. destruct (Z.leb_spec 1 p) as [Hp|]; [|done]. injection Hst as <- <-. cbn in Bp, Bp', Bd, Bd'.
    unfold adjust_for_activation, adjust_for_activation_shared. wp_steps. eapply wp_pending; [done|]. wp_steps. apply wp_CHECK; [by apply Z.leb_le|]. wp_steps.
    eapply wp_load_node; [done|]. rewrite not_ready_counts, (proj2 (Z.eqb_neq p 0)), andb_true_r by lia. wp_steps.
    set (d' := if increment_dead then d + 1 else d) in *.
    eapply (wp_mono _ _ _ (fun _ s' => holds s' (Waiting p d') /\ updated h (counts_of (Waiting p d')) s s')).
    { unfold d' in *. destruct increment_dead; [|by wp_steps]. apply (wp_store_node s (Waiting p d) (Waiting p (d + 1))); [done| |done].
      cbn. rewrite !andb_true_iff, !Z.leb_le. lia. }
    intros _ s1 [Hn1 Hu1]. cbn beta. wp_steps. eapply wp_load_node; [done|]. wp_steps. apply (wp_store_node s1 (Waiting p d') (Waiting (p - 1) d')); [done|done|].
    intros s2 Hn2 Hu2. wp_steps. eapply wp_load_node; [done|]. wp_steps. cbn [counts_of c_pending c_dead_count]. rewrite i32_small by lia.
    split; [done|]. by eapply updated_trans.
Qed.

(** The first call on a handle. *)
Lemma run_first_spec k s r n' :
  handle_ok s h -> node_step (SetInitial k) None = Some (r, n') -> within mx n' = true ->
  run_op h (SetInitial k) @ s ⇓ fun r' s' => r' = r /\ updated h (counts_of n') s s'.
Proof using Hmx Hf.
  intros Hh [= <- <-] Hw. pose proof (within_bounds _ _ Hw) as [_ Bp]. cbn in Bp. cbn [run_op]. unfold set_initial_count. wp_steps. apply wp_load; [done|]. wp_steps.
  eapply (wp_mono _ _ _ (fun _ s' => s' = s)). { destruct (is_large_ h) eqn:E; [by wp_steps|]. apply wp_CHECK; [|done]. destruct (Hf E). apply Z.leb_le. unfold kMaxCountForPackedCounts. lia. }
  intros _ ? ->. apply wp_store; [done|by apply (within_fits mx h (Waiting k 0))|]. intros s' Hu. by wp_steps.
Qed.

End call.

(** ** Histories of calls *)

Record related (maxs : list (Z * Z)) (hs : list Handle) (s : PendingCounts) (ns : list (option Node)) : Prop := {
  rl_layout : laid_out 0 hs (num_bytes_ s);
  rl_len : Z.of_nat (length (bytes_ s)) = num_bytes_ s;
  rl_fit : Forall2 fits_handle maxs hs;
  rl_ns : length ns = length hs;
  rl_nodes : forall i h mx n, hs !! i = Some h -> maxs !! i = Some mx -> ns !! i = Some (Some n) ->
    within mx n = true /\ view (bytes_ s) h = counts_of n
}.

Lemma laid_out_apart lo hs hi i j g h :
  0 <= lo -> laid_out lo hs hi -> hs !! i = Some g -> hs !! j = Some h -> i <> j -> apart g h.
Proof.
  intros H0 Hl Hi Hj Hij. split; [destruct (laid_out_lookup _ _ _ _ _ Hl Hi) as (? & _); lia|].
  destruct (Nat.lt_total i j) as [?|[?|?]]; [left|done|right]; by eapply laid_out_disjoint.
Qed.

Lemma related_update maxs hs s s' ns i h mx n :
  related maxs hs s ns -> hs !! i = Some h -> maxs !! i = Some mx -> within mx n = true -> updated h (counts_of n) s s' ->
  related maxs hs s' (<[i := Some n]> ns).
Proof.
  intros [R1 R2 R3 R4 R5] Hh Hm Hw [U1 U2 U3 U4]. constructor.
  - by rewrite U1.
  - by rewrite U1, U2.
  - done.
  - by rewrite length_insert.
  - intros j g mx' n' Hg Hmx Hn. destruct (decide (j = i)) as [->|Hne].
    + rewrite list_lookup_insert_eq in Hn by (rewrite R4; by eapply lookup_lt_Some). by simplify_eq.
    + rewrite list_lookup_insert_ne in Hn by done. destruct (R5 j g mx' n' Hg Hmx Hn) as [? Ev]. split; [done|].
      rewrite U4; [done|]. by eapply (laid_out_apart 0 hs _ j i).
Qed.

Lemma run_related maxs hs ops : Forall max_ok maxs -> forall s ns rs ns',
  related maxs hs s ns -> spec_run maxs ops ns = Some (rs, ns') ->
  run_all hs ops @ s ⇓ fun r s' => r = rs /\ related maxs hs s' ns'.
Proof.
  intros HM. induction ops as [|[i o] ops IH]; intros s ns rs ns' Hr Hs; cbn [run_all spec_run] in *.
  { injection Hs as <- <-. by wp_steps. }
  destruct (maxs !! i) as [mx|] eqn:Em; [|done]. destruct (ns !! i) as [n|] eqn:En; [|done]. cbn [mbind option_bind] in Hs.
  destruct (node_step o n) as [[r n']|] eqn:Eo; [|done]. cbn [mbind option_bind] in Hs. destruct (within mx n') eqn:Ew; [|done].
  destruct (spec_run maxs ops (<[i:=Some n']> ns)) as [[rs1 ns1]|] eqn:E1; [|done]. injection Hs as <- <-.
  destruct (Forall2_lookup_l _ _ _ _ _ (rl_fit _ _ _ _ Hr) Em) as (h & Eh & Hfit).
  assert (max_ok mx) as Hmx by (rewrite Forall_forall in HM; apply HM; by eapply list_elem_of_lookup_2).
  assert (handle_ok s h) as Hok by (split; [by eapply laid_out_lookup; [apply Hr|]|apply Hr]).
  wp_steps. eapply wp_of_option; [done|]. wp_steps.
  assert (run_op h o @ s ⇓ fun r' s' => r' = r /\ updated h (counts_of n') s s') as Hop.
  { destruct n as [n|].
    - destruct (rl_nodes _ _ _ _ Hr i h mx n Eh Em En) as [Hw Ev]. by apply (run_op_spec mx h Hmx Hfit o s n).
    - destruct o; try done. by apply (run_first_spec mx h Hmx Hfit). }
  eapply wp_mono; [exact Hop|]. cbn beta. intros r' s1 [-> Hu]. wp_steps.
  eapply wp_mono; [apply (IH s1 (<[i := Some n']> ns) rs1 ns1); [by eapply related_update|done]|]. cbn beta. intros rs' s2 [-> Hr2]. by wp_steps.
Qed.

(** C19: refinement.  Whatever the array held before, and whichever nodes got a packed byte
    and which an eight-byte structure, a history of calls on the handles of one layout that
    respects the maximal counts given to [CreateHandle] and the order the executor follows
    (initialise, count down, start, complete) returns, and returns what independent counters
    without any width would return: the structures do not overlap, the bit fields do not
    overflow, and no debug check fails.  There are fewer than 2^26 nodes. *)
Theorem pending_counts_refines maxs junk ops res ns :
  Forall max_ok maxs -> 16 * Z.of_nat (length maxs) < 2 ^ 30 ->
  spec_run maxs ops (replicate (length maxs) None) = Some (res, ns) ->
  let '(hs, last) := create_all 0 maxs in
  exists s', run_all hs ops (new_PendingCounts last junk) = Val (res, s').
Proof.
  intros HM Hlen Hs. pose proof (create_all_spec maxs 0 ltac:(lia) ltac:(lia)) as Hc. destruct (create_all 0 maxs) as [hs last].
  destruct Hc as (Hl & Hf & Hb). assert (related maxs hs (new_PendingCounts last junk) (replicate (length maxs) None)) as Hr.
  { constructor; cbn [new_PendingCounts num_bytes_ bytes_]; [done| |done| |].
    - rewrite length_map, length_seq. lia.
    - rewrite length_replicate. by eapply Forall2_length.
    - intros i h mx n _ _ Hn. apply lookup_replicate in Hn as [? _]. done. }
  destruct (wp_total _ _ _ (run_related maxs hs ops HM _ _ _ _ Hr Hs)) as (r & s' & E & -> & _). by exists s'.
Qed.

(** ** The streamlined activation *)

(** The sequence of calls in the comment of [adjust_for_activation]. *)
Definition documented_activation (h : Handle) (increment_dead : bool) : M PendingCounts (Z * Z) :=
  (if increment_dead then increment_dead_count h else mret tt);;
  decrement_pending h 1;;
  p ← pending h;
  d ← dead_count h;
  mret (p, d).

Lemma le_value_range l : Forall (fun b => 0 <= b < 256) l -> 0 <= le_value l < 256 ^ Z.of_nat (length l).
Proof.
  induction 1 as [|b l Hb _ IH]; [cbn; lia|]. cbn [le_value length]. rewrite Nat2Z.inj_succ, Z.pow_succ_r by lia. lia.
Qed.

Lemma view_fits h s : handle_ok s h -> Forall (fun b => 0 <= b < 256) (bytes_ s) -> fits_counts h (view (bytes_ s) h).
Proof.
  intros [(H1 & H2 & _) Hl] Hb. unfold fits_counts, view. set (bs := take _ _).
  assert (Forall (fun b => 0 <= b < 256) bs) as Hbs by (by apply Forall_take, Forall_drop).
  assert (length bs = size_of h) as Ebs.
  { pose proof (sizeof_pos h). unfold bs, size_of. rewrite length_take, length_drop. lia. }
  unfold size_of, struct_of in *. destruct (is_large_ h); cbn [LargeCounts PackedCounts st_get sizeof c_pending c_dead_count] in *.
  - change (Z.to_nat 8) with 8%nat in Ebs. pose proof (le_value_range (take 4 bs) ltac:(by apply Forall_take)) as R1.
    rewrite length_take, Ebs in R1. pose proof (Z.mod_pos_bound (le_value (drop 4 bs)) (2 ^ 31)). cbn in R1. lia.
  - pose proof (Z.mod_pos_bound (hd 0 bs) 8). pose proof (Z.mod_pos_bound (hd 0 bs / 8) 8). lia.
Qed.

Lemma load_run h s : handle_ok s h -> load h s = Val (view (bytes_ s) h, s).
Proof. intros Hh. destruct (wp_total _ _ _ (wp_load h s (fun c s' => c = view (bytes_ s) h /\ s' = s) Hh (conj eq_refl eq_refl))) as (? & ? & E & -> & ->). done. Qed.

Lemma store_run h c s : handle_ok s h -> fits_counts h c -> exists s', store h c s = Val (tt, s') /\ handle_ok s' h /\ view (bytes_ s') h = c.
Proof.
  intros Hh Hc. destruct (wp_total _ _ _ (wp_store h c s (fun _ s' => updated h c s s') Hh Hc (fun s' H => H))) as ([] & s' & E & Hu).
  exists s'. split_and!; [done|by eapply updated_ok|apply Hu].
Qed.

Lemma pending_run h s : handle_ok s h -> pending h s = Val (if not_ready (view (bytes_ s) h) then i32 (c_pending (view (bytes_ s) h)) else 0, s).
Proof. intros Hh. unfold pending. by rewrite (run_bind _ _ _ _ _ (load_run h s Hh)). Qed.

Lemma not_ready_started p d st : not_ready (mkCounts p d st) = negb st && negb (p =? 0).
Proof. unfold not_ready, NodeStateForStruct. cbn. destruct st, (p =? 0); reflexivity. Qed.

(** Both ends of the two routines, from the same counts. *)
Lemma activation_tails h s p d :
  handle_ok s h -> view (bytes_ s) h = mkCounts p d false -> fits_counts h (mkCounts p d false) -> p <> 0 -> 1 <= i32 p ->
  exists s', (c ← load h;
              store h (mkCounts (c_pending c - 1) (c_dead_count c) (c_has_started c));;
              c ← load h;
              mret (i32 (c_pending c), c_dead_count c)) s = Val ((i32 (p - 1), d), s')
    /\ (decrement_pending h 1;; p ← pending h; d ← dead_count h; mret (p, d)) s = Val ((i32 (p - 1), d), s').
Proof.
  intros Hh Ev Hf Hp Hi. assert (fits_counts h (mkCounts (p - 1) d false)) as Hf' by (unfold fits_counts in *; cbn in *; destruct (is_large_ h); lia).
  destruct (store_run h (mkCounts (p - 1) d false) s Hh Hf') as (s' & Es & Hh' & Ev').
  pose proof (load_run h s Hh) as El. rewrite Ev in El. pose proof (load_run h s' Hh') as El'. rewrite Ev' in El'.
  exists s'. split.
  - rewrite (run_bind _ _ _ _ _ El), (run_bind _ _ _ _ _ Es), (run_bind _ _ _ _ _ El'). done.
  - pose proof (pending_run h s Hh) as Ep. rewrite Ev, not_ready_started, (proj2 (Z.eqb_neq p 0)) in Ep by done. cbn [negb andb] in Ep.
    pose proof (pending_run h s' Hh') as Ep'. rewrite Ev', not_ready_started in Ep'. cbn [negb andb c_pending] in Ep, Ep'.
    assert (decrement_pending h 1 s = Val (i32 (p - 1), s')) as Ed.
    { unfold decrement_pending. rewrite (run_bind _ _ _ _ _ Ep), (proj2 (Z.leb_le 1 _)) by done. cbn [CHECK].
      change ((c ← load h; store h (mkCounts (c_pending c - 1) (c_dead_count c) (c_has_started c));; c ← load h; mret (i32 (c_pending c))) s = Val (i32 (p - 1), s')).
      rewrite (run_bind _ _ _ _ _ El), (run_bind _ _ _ _ _ Es), (run_bind _ _ _ _ _ El'). done. }
    rewrite (run_bind _ _ _ _ _ Ed), (run_bind _ _ _ _ _ Ep'). unfold dead_count. unfold mbind at 1, M_bind at 1. rewrite (run_bind _ _ _ _ _ El').
    cbn. destruct (Z.eqb_spec (p - 1) 0) as [->|]; done.
Qed.

(** Without an input to count down, both fail their check. *)
Lemma decrement_crash h s : handle_ok s h -> (if not_ready (view (bytes_ s) h) then i32 (c_pending (view (bytes_ s) h)) else 0) < 1 ->
  decrement_pending h 1 s = Crash.
Proof. intros Hh Hlt. unfold decrement_pending. rewrite (run_bind _ _ _ _ _ (pending_run h s Hh)), (proj2 (Z.leb_gt 1 _)) by done. done. Qed.

(** C20: equivalence.  The streamlined [adjust_for_activation] does exactly what the sequence
    of calls in its comment does, results, bytes and failed checks included, in every state of
    the array, as long as the dead count has room for one more. *)
Theorem activation_equivalent h increment_dead s :
  handle_ok s h -> Forall (fun b => 0 <= b < 256) (bytes_ s) ->
  c_dead_count (view (bytes_ s) h) + 1 < (if is_large_ h then 2 ^ 31 else 8) ->
  adjust_for_activation h increment_dead s = documented_activation h increment_dead s.
Proof.
  intros Hh Hb Hd. pose proof (view_fits h s Hh Hb) as Hfit. unfold adjust_for_activation, documented_activation.
  rewrite (run_bind _ _ _ _ _ (pending_run h s Hh)). pose proof (load_run h s Hh) as El.
  destruct (view (bytes_ s) h) as [p d st] eqn:Ev. cbn [c_dead_count c_pending] in *.
  assert (fits_counts h (mkCounts p (d + 1) st)) as Hfit' by (unfold fits_counts in *; cbn in *; destruct (is_large_ h); lia).
  destruct (store_run h _ s Hh Hfit') as (s1 & Es1 & Hh1 & Ev1).
  assert (not_ready (mkCounts p d st) = true -> increment_dead_count h s = Val (tt, s1)) as Einc.
  { intros Enr. unfold increment_dead_count. rewrite (run_bind _ _ _ _ _ El), Enr.
    assert ((if is_large_ h then mret tt else CHECK (d <? kMaxCountForPackedCounts)) s = Val (tt, s)) as Ec.
    { destruct (is_large_ h); [done|]. unfold kMaxCountForPackedCounts. by rewrite (proj2 (Z.ltb_lt d 7)) by lia. }
    cbn [c_dead_count c_pending c_has_started]. by rewrite (run_bind _ _ _ _ _ Ec). }
  assert (not_ready (mkCounts p d st) = false -> increment_dead_count h s = Val (tt, s)) as Eskip.
  { intros Enr. unfold increment_dead_count. by rewrite (run_bind _ _ _ _ _ El), Enr. }
  destruct (Z.leb_spec 1 (if not_ready (mkCounts p d st) then i32 p else 0)) as [Hle|Hgt].
  - destruct (not_ready (mkCounts p d st)) eqn:Enr; [|lia]. rewrite not_ready_started in Enr. apply andb_true_iff in Enr as [Est Ep].
    destruct st; [done|]. apply negb_true_iff, Z.eqb_neq in Ep. change ((adjust_for_activation_shared h increment_dead) s = ((if increment_dead then increment_dead_count h else mret tt);; decrement_pending h 1;; p ← pending h; d ← dead_count h; mret (p, d)) s).
    unfold adjust_for_activation_shared. rewrite (run_bind _ _ _ _ _ El), not_ready_started, (proj2 (Z.eqb_neq p 0)) by done. cbn [negb andb c_pending c_dead_count c_has_started].
    destruct increment_dead; cbn [andb].
    + rewrite (run_bind _ _ _ _ _ Es1), (run_bind _ _ _ _ _ (Einc eq_refl)). destruct (activation_tails h s1 p (d + 1) Hh1 Ev1 Hfit' Ep Hle) as (s' & -> & ->). done.
    + destruct (activation_tails h s p d Hh Ev Hfit Ep Hle) as (s' & E1 & E2). transitivity (Val ((i32 (p - 1), d), s')); [exact E1|symmetry; exact E2].
  - assert (forall s', handle_ok s' h -> (if not_ready (view (bytes_ s') h) then i32 (c_pending (view (bytes_ s') h)) else 0) < 1 ->
      (decrement_pending h 1;; p ← pending h; d ← dead_count h; mret (p, d)) s' = Crash) as Hcr.
    { intros s' Hs' Hlt. unfold mbind at 1, M_bind at 1. by rewrite (decrement_crash h s'). }
    symmetry. destruct increment_dead.
    + destruct (not_ready (mkCounts p d st)) eqn:Enr.
      * rewrite (run_bind _ _ _ _ _ (Einc eq_refl)). apply Hcr; [done|]. rewrite Ev1. rewrite not_ready_started in Enr |- *. by rewrite Enr.
      * rewrite (run_bind _ _ _ _ _ (Eskip eq_refl)). apply Hcr; [done|]. by rewrite Ev, Enr.
    + apply Hcr; [done|]. by rewrite Ev.
Qed.

(** ** Concrete runs *)

Definition demo_ops : list (nat * Op) :=
  [(0, SetInitial 2); (1, SetInitial 9); (2, SetInitial 3); (0, Adjust true); (0, Decrement 1); (0, MarkStarted);
   (1, Decrement 3); (0, MarkCompleted); (0, GetState); (2, MarkLive); (2, GetPending); (1, GetPending); (0, GetDead)]%nat.

Lemma pending_counts_refines_witness :
  let '(hs, last) := create_all 0 [(2, 1); (9, 0); (3, 3)] in
  exists s', run_all hs demo_ops (new_PendingCounts last (fun i => Z.of_nat i mod 256))
    = Val ([RUnit; RUnit; RUnit; RPair 1 1; RInt 0; RUnit; RInt 6; RUnit; RState COMPLETED; RUnit; RInt 2; RInt 6; RInt 1], s').
Proof.
  apply (pending_counts_refines [(2, 1); (9, 0); (3, 3)] (fun i => Z.of_nat i mod 256) demo_ops _ [Some (Done 1); Some (Waiting 6 0); Some (Waiting 2 0)]);
    [repeat constructor; cbn; lia|cbn; lia|reflexivity].
Defined.

(** Two pending inputs and three dead ones, packed in the byte 26. *)
Lemma activation_equivalent_witness :
  adjust_for_activation (mkHandle 0 false) true (mkPendingCounts 1 [26]) = documented_activation (mkHandle 0 false) true (mkPendingCounts 1 [26])
  /\ adjust_for_activation (mkHandle 0 false) true (mkPendingCounts 1 [26]) = Val ((1, 4), mkPendingCounts 1 [33]).
Proof.
  split; [|reflexivity]. apply (activation_equivalent (mkHandle 0 false) true (mkPendingCounts 1 [26])); [|apply Forall_singleton; lia|vm_compute; reflexivity].
  split; [|done]. split_and!; vm_compute; done.
Defined.
