(* ===== verification/TableBlock.v ===== *)
(** * Blocks of sorted tables: the model

    [core/lib/io/block_builder.cc] writes key-value pairs with prefix-compressed keys and an
    array of restart points; [core/lib/io/block.cc] reads them back with an iterator that can
    seek by binary search.  Strings are lists of bytes; a pointer into the block is an offset
    and reading outside the block is a crash. *)

From S2P Require Import Prelude Coding OrderedCode.
Import Coding.

Module TableBlock.

(** [StringPiece::compare(a, b) < 0]. *)
Abbreviation less := OrderedCode.lex_lt.

Definition uint32max : Z := 2 ^ 32 - 1.

Section block.
Context (kLittleEndian : bool).

(** ** Writing *)

Record BlockBuilder := mkBuilder {
  buffer_ : list Z;
  restart_points_ : list Z;
  counter_ : Z;
  finished_ : bool;
  last_key_ : list Z
}.

Definition BlockBuilder_new : BlockBuilder := mkBuilder [] [0] 0 false [].

Abbreviation MW := (M BlockBuilder).

Definition Reset : MW unit := put (mkBuilder [] [0] 0 false []).

Definition CurrentSizeEstimate : MW Z :=
  b ← get; mret (Z.of_nat (length (buffer_ b)) + Z.of_nat (length (restart_points_ b)) * 4 + 4).

Definition empty : MW bool := b ← get; mret (bool_decide (buffer_ b = [])).

Fixpoint PutFixed32s (buffer l : list Z) : list Z :=
  match l with [] => buffer | r :: l => PutFixed32s (PutFixed32 kLittleEndian buffer r) l end.

Definition Finish : MW (list Z) :=
  b ← get;
  CHECK (Z.of_nat (length (restart_points_ b)) <=? uint32max);;
  let buffer := PutFixed32s (buffer_ b) (restart_points_ b) in
  let buffer := PutFixed32 kLittleEndian buffer (Z.of_nat (length (restart_points_ b))) in
  put (mkBuilder buffer (restart_points_ b) (counter_ b) true (last_key_ b));;
  mret buffer.

(** How much of the key is shared with the last one. *)
Fixpoint shared_length (last_key key : list Z) : nat :=
  match last_key, key with
  | a :: last_key, b :: key => if a =? b then S (shared_length last_key key) else O
  | _, _ => O
  end.

Definition Add (block_restart_interval : Z) (key value : list Z) : MW unit :=
  b ← get;
  CHECK (negb (finished_ b));;
  CHECK (counter_ b <=? block_restart_interval);;
  CHECK (bool_decide (buffer_ b = []) || less (last_key_ b) key);;
  shared ← (if counter_ b <? block_restart_interval then mret (shared_length (last_key_ b) key)
            else
              CHECK (Z.of_nat (length (buffer_ b)) <=? uint32max);;
              put (mkBuilder (buffer_ b) (restart_points_ b ++ [u32 (Z.of_nat (length (buffer_ b)))]) 0 (finished_ b) (last_key_ b));;
              mret O);
  let non_shared := (length key - shared)%nat in
  CHECK (Z.of_nat shared <=? uint32max);;
  CHECK (Z.of_nat non_shared <=? uint32max);;
  CHECK (Z.of_nat (length value) <=? uint32max);;
  b ← get;
  let buffer := PutVarint32 (buffer_ b) (u32 (Z.of_nat shared)) in
  let buffer := PutVarint32 buffer (u32 (Z.of_nat non_shared)) in
  let buffer := PutVarint32 buffer (u32 (Z.of_nat (length value))) in
  let last_key := take shared (last_key_ b) ++ drop shared key in
  CHECK (bool_decide (last_key = key));;
  put (mkBuilder (buffer ++ drop shared key ++ value) (restart_points_ b) (counter_ b + 1) (finished_ b) last_key).

(** ** Reading *)

Definition NumRestarts (data : list Z) (size : Z) : option Z :=
  if 4 <=? size then DecodeFixed32 kLittleEndian (drop (Z.to_nat (size - 4)) data) else None.

(** [Block::Block]: the size (0 marks an error) and the offset of the restart array. *)
Record Block := mkBlock { size_ : Z; restart_offset_ : Z }.
Definition Block_new (data : list Z) : option Block :=
  let size := Z.of_nat (length data) in
  if size <? 4 then Some (mkBlock 0 0)
  else
    n ← NumRestarts data size;
    if (size - 4) / 4 <? n then Some (mkBlock 0 0)
    else Some (mkBlock size (u32 (size - u32 (1 + n) * 4))).

(** The key delta, and the three lengths. *)
Definition DecodeEntry (data : list Z) (p limit : Z) : option (Z * Z * Z * Z) :=
  let bytes := drop (Z.to_nat p) (take (Z.to_nat limit) data) in
  match bytes with
  | b0 :: b1 :: b2 :: rest =>
      '(shared, non_shared, value_length, rest) ←
        (if Z.lor (Z.lor b0 b1) b2 <? 128 then Some (b0, b1, b2, rest)
         else
           '(shared, q) ← GetVarint32Ptr bytes;
           '(non_shared, q) ← GetVarint32Ptr q;
           '(value_length, q) ← GetVarint32Ptr q;
           Some (shared, non_shared, value_length, q));
      let left := Z.of_nat (length rest) in
      if u32 left <? u32 (non_shared + value_length) then None
      else Some (limit - left, shared, non_shared, value_length)
  | _ => None
  end.

Inductive IterStatus := IterOK | DataLoss.

(** [value_] is an offset and a length; [None] is the empty [StringPiece]. *)
Record Iter := mkIter {
  current_ : Z;
  restart_index_ : Z;
  key_ : list Z;
  value_ : option (Z * Z);
  status_ : IterStatus
}.

Abbreviation MI := (M Iter).

Section iter.
Context (data_ : list Z) (restarts_ num_restarts_ : Z).

Definition Iter_new : Iter := mkIter restarts_ num_restarts_ [] None IterOK.

Definition Valid (it : Iter) : bool := current_ it <? restarts_.

(** The bytes of a range of the block. *)
Definition bytes_at (p n : Z) : MI (list Z) :=
  CHECK ((0 <=? p) && (p + n <=? Z.of_nat (length data_)));;
  mret (take (Z.to_nat n) (drop (Z.to_nat p) data_)).

Definition key : MI (list Z) := it ← get; CHECK (Valid it);; mret (key_ it).
Definition value : MI (list Z) :=
  it ← get; CHECK (Valid it);; '(p, n) ← of_option (value_ it); bytes_at p n.

Definition NextEntryOffset : MI Z :=
  it ← get; '(p, n) ← of_option (value_ it); mret (u32 (p + n)).

Definition GetRestartPoint (index : Z) : MI Z :=
  CHECK (index <? num_restarts_);;
  of_option (DecodeFixed32 kLittleEndian (drop (Z.to_nat (restarts_ + index * 4)) data_)).

Definition SeekToRestartPoint (index : Z) : MI unit :=
  it ← get;
  offset ← GetRestartPoint index;
  put (mkIter (current_ it) index [] (Some (offset, 0)) (status_ it)).

Definition CorruptionError : MI unit := put (mkIter restarts_ num_restarts_ [] None DataLoss).

(** The loop that updates [restart_index_]. *)
Fixpoint AdvanceRestart (fuel : nat) (restart_index current : Z) : MI Z :=
  match fuel with
  | O => nofuel
  | S fuel =>
      if u32 (restart_index + 1) <? num_restarts_ then
        r ← GetRestartPoint (u32 (restart_index + 1));
        if r <? current then AdvanceRestart fuel (u32 (restart_index + 1)) current else mret restart_index
      else mret restart_index
  end.

Definition ParseNextKey : MI bool :=
  current ← NextEntryOffset;
  it ← get;
  if restarts_ <=? current then
    put (mkIter restarts_ num_restarts_ (key_ it) (value_ it) (status_ it));;
    mret false
  else
    match DecodeEntry data_ current restarts_ with
    | None => CorruptionError;; mret false
    | Some (p, shared, non_shared, value_length) =>
        if Z.of_nat (length (key_ it)) <? shared then CorruptionError;; mret false
        else
          delta ← bytes_at p non_shared;
          let key := take (Z.to_nat shared) (key_ it) ++ delta in
          restart_index ← AdvanceRestart (S (Z.to_nat num_restarts_)) (restart_index_ it) current;
          put (mkIter current restart_index key (Some (p + non_shared, value_length)) (status_ it));;
          mret true
    end.

Definition Next : MI unit := it ← get; CHECK (Valid it);; ParseNextKey;; mret tt.

Definition SeekToFirst : MI unit := SeekToRestartPoint 0;; ParseNextKey;; mret tt.

(** The binary search: the restart point to scan from, [None] for a bad entry. *)
Fixpoint Seek_bsearch (fuel : nat) (target : list Z) (left right : Z) : MI (option Z) :=
  match fuel with
  | O => nofuel
  | S fuel =>
      if left <? right then
        let mid := u32 (left + right + 1) / 2 in
        region_offset ← GetRestartPoint mid;
        match DecodeEntry data_ region_offset restarts_ with
        | Some (key_ptr, shared, non_shared, _) =>
            if negb (shared =? 0) then CorruptionError;; mret None
            else
              mid_key ← bytes_at key_ptr non_shared;
              if less mid_key target then Seek_bsearch fuel target mid right
              else Seek_bsearch fuel target left (u32 (mid - 1))
        | None => CorruptionError;; mret None
        end
      else mret (Some left)
  end.

Fixpoint Seek_scan (fuel : nat) (target : list Z) : MI unit :=
  match fuel with
  | O => nofuel
  | S fuel =>
      found ← ParseNextKey;
      if negb found then mret tt
      else
        it ← get;
        if negb (less (key_ it) target) then mret tt else Seek_scan fuel target
  end.

Definition Seek (target : list Z) : MI unit :=
  found ← Seek_bsearch 33 target 0 (u32 (num_restarts_ - 1));
  match found with
  | None => mret tt
  | Some index => SeekToRestartPoint index;; Seek_scan (S (length data_)) target
  end.

End iter.

(** [Block::NewIterator]. *)
Inductive BlockIterator := ErrorIterator | EmptyIterator | EntryIterator (restarts num_restarts : Z).
Definition NewIterator (data : list Z) (b : Block) : option BlockIterator :=
  if size_ b <? 4 then Some ErrorIterator
  else
    n ← NumRestarts data (size_ b);
    Some (if n =? 0 then EmptyIterator else EntryIterator (restart_offset_ b) n).

End block.
End TableBlock.
