(* ===== verification/TableBlockProofs.v ===== *)
(** * Blocks of sorted tables: the format and the iterator

    The bytes of a block as the encoding of a list of entries, and what each step of the
    iterator does on such a block. *)

From S2P Require Import Prelude Coding OrderedCode TableBlock.
Import Coding TableBlock.

#[local] Open Scope runtime_scope.

(** ** The format *)

Record Entry := mkEntry { n_shared : nat; n_key : list Z; n_value : list Z }.

Definition non_shared (e : Entry) : nat := (length (n_key e) - n_shared e)%nat.

(** The three lengths, the rest of the key and the value. *)
Definition header (e : Entry) : list Z :=
  EncodeVarint32 (Z.of_nat (n_shared e)) ++ EncodeVarint32 (Z.of_nat (non_shared e)) ++ EncodeVarint32 (Z.of_nat (length (n_value e))).
Definition enc (e : Entry) : list Z := header e ++ drop (n_shared e) (n_key e) ++ n_value e.
Definition body (es : list Entry) : list Z := concat (map enc es).
Definition off (es : list Entry) (i : nat) : nat := length (body (take i es)).

Definition bytes (l : list Z) : Prop := Forall (fun b => 0 <= b < 256) l.
Definition entry_bytes (e : Entry) : Prop :=
  bytes (n_key e) /\ bytes (n_value e) /\ (n_shared e <= length (n_key e))%nat
  /\ Z.of_nat (length (n_key e)) + Z.of_nat (length (n_value e)) < 2 ^ 32.

(** What an entry shares with the key before it. *)
Definition shares (prev : list Z) (e : Entry) : Prop :=
  (n_shared e <= length prev)%nat /\ take (n_shared e) prev = take (n_shared e) (n_key e).
Fixpoint chained (prev : list Z) (es : list Entry) : Prop :=
  match es with [] => True | e :: es => shares prev e /\ chained (n_key e) es end.

Definition restart_array (es : list Entry) (ri : list nat) : list Z :=
  concat (map (fun i => le_bytes 4 (Z.of_nat (off es i))) ri) ++ le_bytes 4 (Z.of_nat (length ri)).

(** A block of the entries [es] with restart points before the entries [ri]. *)
Record block_ok (data : list Z) (es : list Entry) (ri : list nat) : Prop := {
  k_data : data = body es ++ restart_array es ri;
  k_size : Z.of_nat (length data) < 2 ^ 32;
  k_bytes : Forall entry_bytes es;
  k_chain : chained [] es;
  k_first : ri !! 0%nat = Some 0%nat;
  k_restart : forall j i, ri !! j = Some i -> (i = 0%nat /\ es = []) \/ exists e, es !! i = Some e /\ n_shared e = 0%nat;
  k_sorted : StronglySorted lt ri;
  k_keys : StronglySorted (fun a b => less a b = true) (map n_key es)
}.

(** ** Lists *)

Lemma body_app es1 es2 : body (es1 ++ es2) = body es1 ++ body es2.
Proof. unfold body. by rewrite map_app, concat_app. Qed.

Lemma body_split es i e : es !! i = Some e -> body es = body (take i es) ++ enc e ++ body (drop (S i) es).
Proof. intros He. rewrite <- (take_drop_middle es i e He) at 1. rewrite body_app. done. Qed.

Lemma off_S es i e : es !! i = Some e -> off es (S i) = (off es i + length (enc e))%nat.
Proof. intros He. unfold off. rewrite (take_S_r _ _ _ He), body_app, length_app. cbn. by rewrite app_nil_r. Qed.

Lemma off_all es i : (length es <= i)%nat -> off es i = length (body es).
Proof. intros Hi. unfold off. by rewrite take_ge. Qed.

Lemma off_app es es' i : (i <= length es)%nat -> off (es ++ es') i = off es i.
Proof. intros Hi. unfold off. by rewrite take_app_le. Qed.

Lemma off_0 es : off es 0 = 0%nat.
Proof. done. Qed.

Lemma le_bytes_length w v : length (le_bytes w v) = w.
Proof. revert v. induction w as [|w IH]; intros v; cbn; [done|by rewrite IH]. Qed.

Lemma drop_words {A} (f : A -> list Z) l j rest :
  (forall x, length (f x) = 4%nat) -> (j <= length l)%nat -> drop (j * 4) (concat (map f l) ++ rest) = concat (map f (drop j l)) ++ rest.
Proof.
  intros Hf. revert j. induction l as [|x l IH]; intros j Hj; [by destruct j; [|cbn in Hj; lia]|]. destruct j as [|j]; [done|].
  cbn [map concat drop]. rewrite <- app_assoc. rewrite drop_app_ge by (rewrite Hf; lia). rewrite Hf.
  replace (S j * 4 - 4)%nat with (j * 4)%nat by lia. apply IH. cbn in Hj. lia.
Qed.

Lemma Fixed32_read le v rest : 0 <= v < 2 ^ 32 -> DecodeFixed32 le (le_bytes 4 v ++ rest) = Some v.
Proof.
  intros Hv. rewrite <- (le_bytes_value 4 v) at 2 by (cbn; lia). pose proof (le_bytes_range 4 v) as Hr. revert Hr.
  cbn [le_bytes app]. intros Hr. destruct le; [done|]. by apply DecodeFixed32_be.
Qed.

(** ** Order of byte strings *)

Lemma less_irrefl a : less a a = false.
Proof. induction a as [|x a IH]; [done|]. cbn. by rewrite Z.ltb_irrefl, Z.eqb_refl, IH. Qed.

Lemma less_trans a b c : less a b = true -> less b c = true -> less a c = true.
Proof.
  revert b c. induction a as [|x a IH]; intros [|y b] [|z c]; cbn; try done.
  rewrite !orb_true_iff, !andb_true_iff, !Z.ltb_lt, !Z.eqb_eq. intros [?|[-> ?]] [?|[-> ?]]; try (left; lia).
  right. split; [done|]. by eapply IH.
Qed.

(** ** Decoding an entry *)

(** One byte below 128 is a number. *)
Lemma GetVarint32_small b l : 0 <= b < 128 -> GetVarint32Ptr (b :: l) = Some (b, l).
Proof. intros Hb. cbn [GetVarint32Ptr]. by rewrite byte_high, (proj2 (Z.ltb_lt b 128)) by lia. Qed.

(** The fast path gives what the three calls give. *)
Lemma decode_lengths b0 b1 b2 rest :
  bytes [b0; b1; b2] ->
  (if Z.lor (Z.lor b0 b1) b2 <? 128 then Some (b0, b1, b2, rest)
   else '(s, q) ← GetVarint32Ptr (b0 :: b1 :: b2 :: rest); '(n, q) ← GetVarint32Ptr q; '(v, q) ← GetVarint32Ptr q; Some (s, n, v, q))
  = ('(s, q) ← GetVarint32Ptr (b0 :: b1 :: b2 :: rest); '(n, q) ← GetVarint32Ptr q; '(v, q) ← GetVarint32Ptr q; Some (s, n, v, q)).
Proof.
  unfold bytes. rewrite !Forall_cons. intros (H0 & H1 & H2 & _). destruct (Z.ltb_spec (Z.lor (Z.lor b0 b1) b2) 128) as [Hlt|]; [|done].
  set (w := Z.lor (Z.lor b0 b1) b2) in *. assert (0 <= w) as Hw by (unfold w; rewrite !Z.lor_nonneg; lia).
  assert (forall x, Z.lor x w = w -> x < 128) as Hle.
  { intros x E. destruct (Z.ldiff_le x w Hw) as [_ ?]; [|lia]. apply Z.bits_inj'. intros k Hk. rewrite <- E, Z.ldiff_spec, Z.lor_spec, Z.bits_0.
    by destruct (Z.testbit x k). }
  assert (b0 < 128 /\ b1 < 128 /\ b2 < 128) as (L0 & L1 & L2).
  { split_and!; apply Hle; unfold w; apply Z.bits_inj'; intros k Hk; rewrite !Z.lor_spec; by destruct (Z.testbit b0 k), (Z.testbit b1 k), (Z.testbit b2 k). }
  rewrite GetVarint32_small by lia. cbn [mbind option_bind]. rewrite GetVarint32_small by lia. cbn [mbind option_bind]. by rewrite GetVarint32_small by lia.
Qed.

Lemma EncodeVarint32_bytes v : 0 <= v < 2 ^ 32 -> bytes (EncodeVarint32 v) /\ (1 <= length (EncodeVarint32 v) <= 5)%nat.
Proof.
  intros Hv. rewrite EncodeVarint32_loop by done. unfold EncodeVarint64. rewrite (EncodeVarint64_loop_fuel 5) by (cbn; lia).
  split_and!; [apply EncodeVarint64_loop_bytes; cbn; lia| |apply EncodeVarint64_length]. cbn. destruct (B <=? v); cbn; lia.
Qed.

Lemma header_bytes e : entry_bytes e -> bytes (header e) /\ (3 <= length (header e) <= 15)%nat.
Proof.
  intros (_ & _ & Hs & Hl). unfold header, non_shared.
  destruct (EncodeVarint32_bytes (Z.of_nat (n_shared e)) ltac:(lia)) as [B1 L1].
  destruct (EncodeVarint32_bytes (Z.of_nat (length (n_key e) - n_shared e)) ltac:(lia)) as [B2 L2].
  destruct (EncodeVarint32_bytes (Z.of_nat (length (n_value e))) ltac:(lia)) as [B3 L3].
  split; [by repeat (apply Forall_app; split)|]. rewrite !length_app. lia.
Qed.

Lemma DecodeEntry_enc data p limit e rest :
  entry_bytes e -> bytes rest -> drop (Z.to_nat p) (take (Z.to_nat limit) data) = enc e ++ rest -> Z.of_nat (length (enc e ++ rest)) < 2 ^ 32 ->
  DecodeEntry data p limit
  = Some (limit - Z.of_nat (length (drop (n_shared e) (n_key e) ++ n_value e ++ rest)), Z.of_nat (n_shared e), Z.of_nat (non_shared e), Z.of_nat (length (n_value e))).
Proof.
  intros He Hrest E Hlen. destruct (header_bytes e He) as [Hb Hl]. pose proof He as (Bk & Bv & Hs & Hsz).
  unfold DecodeEntry. rewrite E. unfold enc in *. rewrite <- app_assoc in *.
  assert (bytes ((drop (n_shared e) (n_key e) ++ n_value e) ++ rest)) as Hall by (repeat (apply Forall_app; split); [by apply Forall_drop|done|done]).
  set (tail := (drop (n_shared e) (n_key e) ++ n_value e) ++ rest) in *. 
  assert (exists b0 b1 b2 l, header e ++ tail = b0 :: b1 :: b2 :: l /\ bytes [b0; b1; b2]) as (b0 & b1 & b2 & l & Eb & Hb3).
  { destruct (header e) as [|b0 [|b1 [|b2 h]]]; cbn in Hl; try lia. exists b0, b1, b2, (h ++ tail). split; [done|].
    unfold bytes in Hb |- *. rewrite !Forall_cons in Hb |- *. destruct Hb as (? & ? & ? & _). split_and!; try lia; constructor. }
  rewrite Eb. rewrite decode_lengths by done. rewrite <- Eb. unfold header. rewrite <- !app_assoc.
  assert (0 <= Z.of_nat (n_shared e) < 2 ^ 32 /\ 0 <= Z.of_nat (non_shared e) < 2 ^ 32 /\ 0 <= Z.of_nat (length (n_value e)) < 2 ^ 32) as (R1 & R2 & R3) by (unfold non_shared; lia).
  destruct (EncodeVarint32_bytes _ R2) as [V2 _]. destruct (EncodeVarint32_bytes _ R3) as [V3 _].
  assert (bytes (EncodeVarint32 (Z.of_nat (length (n_value e))) ++ tail)) as T3 by (apply Forall_app; split; [exact V3|exact Hall]).
  rewrite GetVarint32_encode; [|done|apply Forall_app; split; [exact V2|exact T3]]. cbn [mbind option_bind].
  rewrite GetVarint32_encode; [|done|exact T3]. cbn [mbind option_bind].
  rewrite GetVarint32_encode; [|done|exact Hall]. cbn [mbind option_bind].
  assert (Z.of_nat (length tail) < 2 ^ 32) as Ht by (rewrite length_app in Hlen; lia).
  assert (length tail = non_shared e + length (n_value e) + length rest)%nat as Et by (unfold tail; rewrite !length_app, length_drop; unfold non_shared; lia).
  rewrite !u32_small by lia. rewrite (proj2 (Z.ltb_ge _ _)) by lia. unfold tail. by rewrite <- app_assoc.
Qed.

(** ** The iterator on a block *)

Section reader.
Context (le : bool) (data : list Z) (es : list Entry) (ri : list nat) (Hok : block_ok data es ri).

Definition limit : Z := Z.of_nat (length (body es)).
Definition count : Z := Z.of_nat (length ri).

Lemma words_length (l : list nat) : length (concat (map (fun i => le_bytes 4 (Z.of_nat (off es i))) l)) = (length l * 4)%nat.
Proof using Type. clear. induction l as [|i l IH]; [done|]. cbn [map concat]. rewrite length_app, le_bytes_length, IH. cbn. lia. Qed.

Lemma data_length : Z.of_nat (length data) = limit + count * 4 + 4.
Proof using Hok.
  rewrite (k_data _ _ _ Hok). unfold restart_array, limit, count. rewrite !length_app, words_length, le_bytes_length. lia.
Qed.

Lemma sizes : 0 <= limit /\ 1 <= count /\ limit + count * 4 + 4 < 2 ^ 32.
Proof using Hok.
  pose proof (k_size _ _ _ Hok) as Hs. rewrite data_length in Hs. pose proof (lookup_lt_Some _ _ _ (k_first _ _ _ Hok)). unfold limit, count in *. lia.
Qed.

Lemma take_limit : take (Z.to_nat limit) data = body es.
Proof using Hok. rewrite (k_data _ _ _ Hok). unfold limit. by rewrite Nat2Z.id, take_app_length. Qed.

Lemma off_limit i : 0 <= Z.of_nat (off es i) <= limit.
Proof using Type.
  clear. unfold off, limit. split; [lia|]. rewrite <- (take_drop i es) at 2. rewrite body_app, length_app. lia.
Qed.

Lemma off_lt i e : es !! i = Some e -> Z.of_nat (off es i) < Z.of_nat (off es (S i)) <= limit.
Proof using Hok.
  intros He. pose proof (off_limit (S i)) as Hl. rewrite (off_S _ _ _ He) in *. pose proof (k_bytes _ _ _ Hok) as Hb. rewrite Forall_forall in Hb.
  destruct (header_bytes e) as [_ Hh]; [apply Hb; by eapply list_elem_of_lookup_2|]. unfold enc in *. rewrite length_app in *. lia.
Qed.

Lemma restart_run j i it : ri !! j = Some i -> GetRestartPoint le data limit count (Z.of_nat j) it = Val (Z.of_nat (off es i), it).
Proof using Hok.
  intros Hj. pose proof (lookup_lt_Some _ _ _ Hj) as Hlt. unfold GetRestartPoint. rewrite (proj2 (Z.ltb_lt _ count)) by (unfold count; lia). cbn [CHECK].
  assert (Z.to_nat (limit + Z.of_nat j * 4) = length (body es) + j * 4)%nat as -> by (unfold limit; lia).
  rewrite (k_data _ _ _ Hok). rewrite <- drop_drop, drop_app_length. unfold restart_array. rewrite drop_words by (lia || (intros; apply le_bytes_length)).
  rewrite (drop_S _ _ _ Hj). cbn [map concat]. rewrite <- !app_assoc. rewrite Fixed32_read; [done|]. pose proof (off_limit i). pose proof sizes. lia.
Qed.

(** The entry at its offset. *)
Lemma entry_here i e : es !! i = Some e -> drop (off es i) (body es) = enc e ++ body (drop (S i) es).
Proof using Type. clear. intros He. rewrite (body_split es i e He) at 1. unfold off. by rewrite drop_app_length. Qed.

Lemma entry_ok i e : es !! i = Some e -> entry_bytes e.
Proof using Hok. intros He. pose proof (k_bytes _ _ _ Hok) as Hb. rewrite Forall_forall in Hb. apply Hb. by eapply list_elem_of_lookup_2. Qed.

Lemma body_bytes l : Forall entry_bytes l -> bytes (body l).
Proof using Type.
  clear. induction 1 as [|e l He _ IH]; [constructor|]. cbn. apply Forall_app. split; [|done].
  destruct (header_bytes e He) as [Hh _]. destruct He as (Bk & Bv & _). apply Forall_app. split; [exact Hh|]. apply Forall_app. split; [by apply Forall_drop|done].
Qed.

(** Where the rest of the key and the value are. *)
Definition value_at (i : nat) (e : Entry) : Z := Z.of_nat (off es (S i)) - Z.of_nat (length (n_value e)).
Definition delta_at (i : nat) (e : Entry) : Z := value_at i e - Z.of_nat (non_shared e).

Lemma decode_run i e : es !! i = Some e ->
  DecodeEntry data (Z.of_nat (off es i)) limit = Some (delta_at i e, Z.of_nat (n_shared e), Z.of_nat (non_shared e), Z.of_nat (length (n_value e))).
Proof using Hok.
  intros He. pose proof (entry_ok i e He) as Heb. pose proof sizes as (_ & Hcnt & Hsz). pose proof (body_split es i e He) as Hsplit.
  assert (Z.of_nat (length (body es)) = Z.of_nat (off es (S i)) + Z.of_nat (length (body (drop (S i) es)))) as El.
  { rewrite Hsplit, !length_app, (off_S _ _ _ He). unfold off. lia. }
  rewrite (DecodeEntry_enc data _ limit e (body (drop (S i) es))); [|done| | |].
  - do 4 f_equal. unfold delta_at, value_at. fold limit in El. rewrite !length_app, length_drop. unfold non_shared. destruct Heb as (_ & _ & Hs & _). lia.
  - apply body_bytes, Forall_drop, Hok.
  - rewrite take_limit, Nat2Z.id. by apply entry_here.
  - unfold limit in *. rewrite Hsplit, length_app in Hsz. lia.
Qed.

(** The bytes of an entry after its header. *)
Lemma tail_here i e : es !! i = Some e ->
  0 <= delta_at i e /\ drop (Z.to_nat (delta_at i e)) data = drop (n_shared e) (n_key e) ++ n_value e ++ body (drop (S i) es) ++ restart_array es ri.
Proof using Hok.
  intros He. pose proof (entry_ok i e He) as (_ & _ & Hs & _).
  assert (Z.to_nat (delta_at i e) = off es i + length (header e))%nat as Ed.
  { unfold delta_at, value_at. rewrite (off_S _ _ _ He). unfold enc. rewrite !length_app, length_drop. unfold non_shared. lia. }
  split.
  { unfold delta_at, value_at. rewrite (off_S _ _ _ He). unfold enc. rewrite !length_app, length_drop. unfold non_shared. lia. }
  rewrite Ed, (k_data _ _ _ Hok), (body_split es i e He). unfold enc. rewrite <- !app_assoc. rewrite <- drop_drop.
  unfold off. rewrite drop_app_length. by rewrite drop_app_length.
Qed.

Lemma delta_run i e it : es !! i = Some e -> bytes_at data (delta_at i e) (Z.of_nat (non_shared e)) it = Val (drop (n_shared e) (n_key e), it).
Proof using Hok.
  intros He. destruct (tail_here i e He) as [H0 Et]. unfold bytes_at. pose proof (off_lt i e He). pose proof data_length. pose proof sizes.
  rewrite (proj2 (Z.leb_le 0 _)), (proj2 (Z.leb_le _ (Z.of_nat (length data)))) by (done || (unfold delta_at, value_at; lia)). cbn [andb CHECK].
  rewrite Et, Nat2Z.id, take_app_length' by (unfold non_shared; by rewrite length_drop). done.
Qed.

Lemma value_run i e it : es !! i = Some e -> bytes_at data (value_at i e) (Z.of_nat (length (n_value e))) it = Val (n_value e, it).
Proof using Hok.
  intros He. destruct (tail_here i e He) as [H0 Et]. unfold bytes_at. pose proof (off_lt i e He). pose proof data_length. pose proof sizes.
  assert (0 <= value_at i e) by (unfold delta_at in H0; lia).
  rewrite (proj2 (Z.leb_le 0 _)), (proj2 (Z.leb_le _ (Z.of_nat (length data)))) by (done || (unfold value_at; lia)). cbn [andb CHECK].
  replace (Z.to_nat (value_at i e)) with (Z.to_nat (delta_at i e) + non_shared e)%nat by (unfold delta_at in *; lia).
  rewrite <- drop_drop, Et, Nat2Z.id. rewrite drop_app_length' by (unfold non_shared; by rewrite length_drop). by rewrite take_app_length.
Qed.

(** ** Parsing *)

Lemma AdvanceRestart_spec fuel r current it :
  0 <= r <= count -> Z.of_nat fuel > count - r ->
  AdvanceRestart le data limit count fuel r current @ it ⇓ fun r' it' => it' = it /\ 0 <= r' <= count.
Proof using Hok.
  revert r. induction fuel as [|fuel IH]; intros r Hr Hf; [lia|]. cbn [AdvanceRestart]. pose proof sizes. rewrite u32_small by lia.
  destruct (Z.ltb_spec (r + 1) count) as [Hlt|]; [|by wp_steps].
  destruct (lookup_lt_is_Some_2 ri (Z.to_nat (r + 1))) as [i Hi]; [unfold count in *; lia|].
  pose proof (restart_run _ _ it Hi) as Hg. rewrite Z2Nat.id in Hg by lia. wp_step. unfold wp at 1. rewrite Hg.
  destruct (Z.of_nat (off es i) <? current); [apply IH; lia|by wp_steps].
Qed.

(** The iterator is in front of the entry [i], having read the key [k]. *)
Record before_entry (it : Iter) (i : nat) : Prop := {
  f_value : exists p n, value_ it = Some (p, n) /\ p + n = Z.of_nat (off es i);
  f_restart : 0 <= restart_index_ it <= count;
  f_status : status_ it = IterOK;
  f_shares : forall e, es !! i = Some e -> shares (key_ it) e
}.

(** The iterator is on the entry [i]. *)
Record on_entry (it : Iter) (i : nat) (e : Entry) : Prop := {
  o_current : current_ it = Z.of_nat (off es i);
  o_key : key_ it = n_key e;
  o_value : value_ it = Some (value_at i e, Z.of_nat (length (n_value e)));
  o_restart : 0 <= restart_index_ it <= count;
  o_status : status_ it = IterOK
}.

Definition at_end (it : Iter) : Prop := current_ it = limit /\ status_ it = IterOK.

Lemma chained_shares l : forall prev i e, chained prev l -> l !! i = Some e ->
  shares (match i with O => prev | S i => from_option n_key [] (l !! i) end) e.
Proof using Type.
  clear. induction l as [|x l IH]; intros prev [|i] e Hc He; try done; destruct Hc as [Hx Hc].
  - by injection He as ->.
  - specialize (IH (n_key x) i e Hc He). by destruct i.
Qed.

Lemma next_entry it i e : es !! i = Some e -> on_entry it i e -> before_entry it (S i).
Proof using Hok.
  intros He [O1 O2 O3 O4 O5]. constructor; [|done|done|].
  - exists (value_at i e), (Z.of_nat (length (n_value e))). split; [done|]. unfold value_at. lia.
  - intros e' He'. rewrite O2. pose proof (chained_shares es [] (S i) e' (k_chain _ _ _ Hok) He') as Hs. cbn beta iota in Hs. by rewrite He in Hs.
Qed.

Lemma parse_entry it i e : es !! i = Some e -> before_entry it i ->
  ParseNextKey le data limit count @ it ⇓ fun b it' => b = true /\ on_entry it' i e.
Proof using Hok.
  intros He [(p & n & Ev & Epn) Hr Hst Hsh]. destruct (Hsh e He) as [Hs1 Hs2]. pose proof (off_lt i e He). pose proof sizes. pose proof (entry_ok i e He) as (_ & _ & Hs & _).
  unfold ParseNextKey, NextEntryOffset. wp_steps. rewrite Ev. eapply wp_of_option; [done|]. cbn beta iota. wp_steps. rewrite Epn, u32_small by lia.
  rewrite (proj2 (Z.leb_gt limit _)) by lia. rewrite (decode_run i e He).
  rewrite (proj2 (Z.ltb_ge _ (Z.of_nat (n_shared e)))) by lia. wp_step. unfold wp at 1. rewrite (delta_run i e it He).
  wp_steps. eapply wp_mono; [apply AdvanceRestart_spec; [done|lia]|]. cbn beta. intros r' it' [-> Hr']. wp_steps. split; [done|].
  constructor; cbn; try done.
  - rewrite Nat2Z.id, Hs2. by rewrite take_drop.
  - f_equal. f_equal. unfold delta_at. lia.
Qed.

Lemma parse_end it : before_entry it (length es) ->
  ParseNextKey le data limit count @ it ⇓ fun b it' => b = false /\ at_end it'.
Proof using Hok.
  intros [(p & n & Ev & Epn) Hr Hst _]. pose proof sizes. pose proof (off_limit (length es)).
  unfold ParseNextKey, NextEntryOffset. wp_steps. rewrite Ev. eapply wp_of_option; [done|]. cbn beta iota. wp_steps. rewrite Epn, u32_small by lia.
  rewrite (proj2 (Z.leb_le limit _)) by (rewrite off_all by lia; unfold limit; lia). wp_steps. done.
Qed.

(** Parsing, both cases. *)
Definition lands (it : Iter) (i : nat) : Prop :=
  match es !! i with Some e => on_entry it i e | None => at_end it end.

Lemma parse_run it i : (i <= length es)%nat -> before_entry it i ->
  ParseNextKey le data limit count @ it ⇓ fun b it' => b = bool_decide (i < length es)%nat /\ lands it' i.
Proof using Hok.
  intros Hi Hb. unfold lands. destruct (es !! i) as [e|] eqn:He.
  - rewrite bool_decide_eq_true_2 by (by eapply lookup_lt_Some). by apply parse_entry.
  - apply lookup_ge_None in He. assert (i = length es) as -> by lia. rewrite bool_decide_eq_false_2 by lia. by apply parse_end.
Qed.

(** A restart point is in front of an entry that shares nothing. *)
Lemma seek_restart it j i : ri !! j = Some i -> status_ it = IterOK ->
  SeekToRestartPoint le data limit count (Z.of_nat j) @ it ⇓ fun _ it' => before_entry it' i.
Proof using Hok.
  intros Hj Hst. pose proof (lookup_lt_Some _ _ _ Hj). unfold SeekToRestartPoint. wp_steps. unfold wp at 1. rewrite (restart_run j i it Hj). wp_steps.
  constructor; cbn.
  - exists (Z.of_nat (off es i)), 0. split; [done|lia].
  - unfold count. lia.
  - done.
  - intros e He. destruct (k_restart _ _ _ Hok j i Hj) as [[_ ->]|(e' & He' & Es)]; [done|]. rewrite He in He'. injection He' as <-.
    unfold shares. rewrite Es. cbn. split; [lia|done].
Qed.

End reader.

(** ** The builder

    The state of the builder as a list of entries, what [Add] and [Finish] do to it, and that
    the block of a builder is accepted by the reader. *)

Definition pair_of (e : Entry) : list Z * list Z := (n_key e, n_value e).

(** Room for a pair: three lengths of at most five bytes, a restart point and the strings. *)
Definition pair_room (kv : list Z * list Z) : Z := 19 + Z.of_nat (length kv.1) + Z.of_nat (length kv.2).
Fixpoint room (l : list (list Z * list Z)) : Z :=
  match l with [] => 8 | kv :: l => pair_room kv + room l end.

(** Pairs a block can hold: strictly increasing keys and less than 4 GB in all. *)
Record storable (l : list (list Z * list Z)) : Prop := {
  s_keys : StronglySorted (fun a b => less a b = true) (map fst l);
  s_bytes : Forall (fun kv => bytes kv.1 /\ bytes kv.2) l;
  s_room : room l < 2 ^ 32
}.

(** All the pairs, in their order. *)
Fixpoint AddAll (K : Z) (l : list (list Z * list Z)) : M BlockBuilder unit :=
  match l with [] => mret tt | (k, v) :: l => Add K k v;; AddAll K l end.

Lemma room_app l1 l2 : room (l1 ++ l2) = room l1 + room l2 - 8.
Proof. induction l1 as [|kv l1 IH]; cbn [room app]; [lia|]. rewrite IH. lia. Qed.

Lemma room_pos l : 8 <= room l.
Proof. induction l as [|kv l IH]; cbn [room]; [lia|]. unfold pair_room. lia. Qed.

Lemma shared_length_spec a : forall b,
  (shared_length a b <= length a)%nat /\ (shared_length a b <= length b)%nat /\ take (shared_length a b) a = take (shared_length a b) b.
Proof.
  induction a as [|x a IH]; intros [|y b]; cbn [shared_length]; try (cbn; split_and!; done || lia).
  destruct (Z.eqb_spec x y) as [->|]; [|cbn; split_and!; done || lia]. destruct (IH b) as (? & ? & E). cbn [take length]. rewrite E. split_and!; done || lia.
Qed.

(** ** The state of the builder *)

Definition last_key (es : list Entry) : list Z := from_option n_key [] (last es).

(** The size of a block. *)
Definition block_bytes (es : list Entry) (ri : list nat) : Z := Z.of_nat (length (body es)) + Z.of_nat (length ri) * 4 + 4.

Record building (K : Z) (b : BlockBuilder) (es : list Entry) (ri : list nat) : Prop := {
  b_buffer : buffer_ b = body es;
  b_restarts : restart_points_ b = map (fun i => Z.of_nat (off es i)) ri;
  b_open : finished_ b = false;
  b_counter : 0 <= counter_ b <= K;
  b_fresh : es = [] -> counter_ b = 0;
  b_last : last_key_ b = last_key es;
  b_bytes : Forall entry_bytes es;
  b_chain : chained [] es;
  b_first : ri !! 0%nat = Some 0%nat;
  b_restart : forall j i, ri !! j = Some i -> (i = 0%nat /\ es = []) \/ exists e, es !! i = Some e /\ n_shared e = 0%nat;
  b_sorted : StronglySorted lt ri;
  b_room : block_bytes es ri <= room (map pair_of es)
}.

Lemma building_new K : 0 <= K -> building K (mkBuilder [] [0] 0 false []) [] [0%nat].
Proof.
  intros HK. constructor; cbn; try done; try lia.
  - intros [|j] i E; [injection E as <-; by left|done].
  - constructor; constructor.
Qed.

Lemma chained_snoc es e : forall prev, chained prev es -> shares (from_option n_key prev (last es)) e -> chained prev (es ++ [e]).
Proof.
  induction es as [|x es IH]; intros prev Hc Hs; cbn; [by split|]. destruct Hc as [Hx Hc]. split; [done|]. apply IH; [done|]. rewrite last_cons in Hs. by destruct (last es).
Qed.

Lemma sorted_snoc {A} (R : A -> A -> Prop) l x : StronglySorted R l -> Forall (fun y => R y x) l -> StronglySorted R (l ++ [x]).
Proof.
  induction 1 as [|y l Hl IH Hy]; intros Hf; cbn; [constructor; constructor|]. apply Forall_cons in Hf as [Hyx Hf]. constructor; [by apply IH|].
  apply Forall_app. split; [done|]. by constructor.
Qed.

Lemma body_snoc es e : body (es ++ [e]) = body es ++ enc e.
Proof. rewrite body_app. unfold body at 2. cbn. by rewrite app_nil_r. Qed.

(** ** Adding an entry *)

Section add.
Context (K : Z) (b : BlockBuilder) (es : list Entry) (ri : list nat) (Hb : building K b es ri).

Lemma restart_below : Forall (fun i => i <= length es)%nat ri.
Proof using Hb.
  apply Forall_lookup. intros j i Hj. destruct (b_restart _ _ _ _ Hb j i Hj) as [[-> _]|(e & He & _)]; [lia|]. apply lookup_lt_Some in He. lia.
Qed.

(** The entry with a prefix shared, and with nothing shared after a new restart point. *)
Definition snoc_shared (key value : list Z) : Entry := mkEntry (shared_length (last_key es) key) key value.
Definition snoc_restart (key value : list Z) : Entry := mkEntry 0 key value.

Lemma restarts_snoc e : map (fun i => Z.of_nat (off (es ++ [e]) i)) ri = map (fun i => Z.of_nat (off es i)) ri.
Proof using Hb.
  apply map_ext_in. intros i Hi. f_equal. apply off_app. pose proof restart_below as H. rewrite Forall_forall in H. apply H. by apply list_elem_of_In.
Qed.

Lemma restart_snoc e : (es = [] -> n_shared e = 0%nat) ->
  forall j i, ri !! j = Some i -> (i = 0%nat /\ es ++ [e] = []) \/ exists x, (es ++ [e]) !! i = Some x /\ n_shared x = 0%nat.
Proof using Hb.
  intros He j i Hj. right. destruct (b_restart _ _ _ _ Hb j i Hj) as [[-> E]|(x & Hx & Hs)].
  - rewrite E. exists e. split; [done|by apply He].
  - exists x. split; [|done]. by rewrite lookup_app_l by (by eapply lookup_lt_Some).
Qed.

(** At most one restart point is new. *)
Lemma size_snoc e ri' : entry_bytes e -> (length ri' <= S (length ri))%nat ->
  block_bytes (es ++ [e]) ri' <= block_bytes es ri + pair_room (pair_of e).
Proof using Type.
  clear. intros He Hn. destruct (header_bytes e He) as [_ Hh]. unfold block_bytes, pair_room, pair_of. cbn [fst snd]. rewrite body_snoc, length_app. unfold enc. rewrite !length_app, length_drop. lia.
Qed.

Lemma room_snoc e ri' : entry_bytes e -> (length ri' <= S (length ri))%nat -> block_bytes (es ++ [e]) ri' <= room (map pair_of (es ++ [e])).
Proof using Hb.
  intros He Hn. pose proof (b_room _ _ _ _ Hb). pose proof (size_snoc e ri' He Hn). rewrite map_app, room_app. change (map pair_of [e]) with [pair_of e]. cbn [room]. lia.
Qed.

Lemma shares_last key value : shares (last_key es) (snoc_shared key value).
Proof using Type. clear. unfold shares, snoc_shared. cbn. destruct (shared_length_spec (last_key es) key) as (? & ? & ?). done. Qed.

Lemma building_shared key value n :
  entry_bytes (snoc_shared key value) -> 0 <= n <= K ->
  building K (mkBuilder (body (es ++ [snoc_shared key value])) (restart_points_ b) n false key) (es ++ [snoc_shared key value]) ri.
Proof using Hb.
  intros He Hn. pose proof (room_snoc _ ri He ltac:(lia)) as Hr.
  constructor; cbn [buffer_ restart_points_ finished_ counter_ last_key_]; try apply Hb; try done.
  - rewrite restarts_snoc. apply Hb.
  - intros E. by destruct es.
  - unfold last_key. by rewrite last_snoc.
  - apply Forall_app. split; [apply Hb|by constructor].
  - apply chained_snoc; [apply Hb|]. apply shares_last.
  - apply restart_snoc. intros E. unfold snoc_shared. by rewrite E.
Qed.

Lemma building_restart key value n :
  es <> [] -> entry_bytes (snoc_restart key value) -> 0 <= n <= K ->
  building K (mkBuilder (body (es ++ [snoc_restart key value])) (restart_points_ b ++ [Z.of_nat (length (body es))]) n false key)
    (es ++ [snoc_restart key value]) (ri ++ [length es]).
Proof using Hb.
  intros Hne He Hn. pose proof (room_snoc _ (ri ++ [length es]) He ltac:(rewrite length_app; cbn; lia)) as Hr.
  constructor; cbn [buffer_ restart_points_ finished_ counter_ last_key_]; try done.
  - rewrite map_app, restarts_snoc, (b_restarts _ _ _ _ Hb). cbn [map]. by rewrite off_app, off_all by lia.
  - intros E. by destruct es.
  - unfold last_key. by rewrite last_snoc.
  - apply Forall_app. split; [apply Hb|by constructor].
  - apply chained_snoc; [apply Hb|]. unfold shares. cbn. split; [lia|done].
  - rewrite lookup_app_l; [apply Hb|]. eapply lookup_lt_Some, Hb.
  - intros j i [Hj|[Hj Hs]]%lookup_app_Some; [by eapply restart_snoc|]. apply list_lookup_singleton_Some in Hs as [_ <-].
    right. exists (snoc_restart key value). split; [|done]. by rewrite lookup_app_r, Nat.sub_diag by lia.
  - apply sorted_snoc; [apply Hb|]. apply Forall_lookup. intros j i Hj. destruct (b_restart _ _ _ _ Hb j i Hj) as [[_ E]|(e & Hx & _)]; [done|]. by eapply lookup_lt_Some.
Qed.

Lemma Add_spec key value :
  1 <= K -> bytes key -> bytes value -> block_bytes es ri + pair_room (key, value) < 2 ^ 32 -> (es = [] \/ less (last_key es) key = true) ->
  Add K key value @ b ⇓ fun _ b' => exists e ri', building K b' (es ++ [e]) ri' /\ pair_of e = (key, value)
    /\ block_bytes (es ++ [e]) ri' <= block_bytes es ri + pair_room (key, value).
Proof using Hb.
  intros HK Bk Bv Hroom Hlt. destruct (shared_length_spec (last_key es) key) as (S1 & S2 & S3).
  assert (8 <= block_bytes es ri) as Hpos by (unfold block_bytes; pose proof (lookup_lt_Some _ _ _ (b_first _ _ _ _ Hb)); lia).
  pose proof (b_counter _ _ _ _ Hb) as Hc. assert (Z.of_nat (length (body es)) <= block_bytes es ri) as Hr by (unfold block_bytes; lia). unfold pair_room in Hroom. cbn [fst snd] in Hroom.
  assert (forall s, (s <= length key)%nat -> entry_bytes (mkEntry s key value)) as Hent by (intros s Hs; unfold entry_bytes; cbn; split_and!; try done; lia).
  unfold Add. wp_steps. apply wp_CHECK; [by rewrite (b_open _ _ _ _ Hb)|]. wp_steps. apply wp_CHECK; [lia|]. wp_steps.
  apply wp_CHECK. { rewrite (b_buffer _ _ _ _ Hb), (b_last _ _ _ _ Hb). destruct Hlt as [->|Hlt]; [done|]. by rewrite Hlt, orb_true_r. }
  wp_steps. unfold uint32max. destruct (Z.ltb_spec (counter_ b) K) as [Hk|Hk]; wp_steps.
  - rewrite (b_last _ _ _ _ Hb). do 3 (apply wp_CHECK; [apply Z.leb_le; clear -Hroom S2 Hpos; lia|]; wp_steps). rewrite !u32_small by lia.
    apply wp_CHECK; [rewrite (b_last _ _ _ _ Hb), S3, take_drop; by apply bool_decide_eq_true_2|]. wp_steps. rewrite (b_last _ _ _ _ Hb), S3, take_drop, (b_buffer _ _ _ _ Hb), (b_open _ _ _ _ Hb).
    exists (snoc_shared key value), ri. split_and!; [|done|apply (size_snoc (snoc_shared key value)); [by apply Hent|lia]].
    pose proof (building_shared key value (counter_ b + 1) (Hent _ S2) ltac:(lia)) as Hnew. revert Hnew. rewrite body_snoc. unfold enc, header, PutVarint32. rewrite <- !app_assoc. done.
  - apply wp_CHECK; [rewrite (b_buffer _ _ _ _ Hb); lia|]. wp_steps. do 3 (apply wp_CHECK; [apply Z.leb_le; clear -Hroom Hpos; lia|]; wp_steps). cbn [buffer_ restart_points_ finished_ counter_ last_key_].
    rewrite !u32_small by (rewrite ?(b_buffer _ _ _ _ Hb); lia). apply wp_CHECK; [by apply bool_decide_eq_true_2|]. wp_steps. cbn [take drop app].
    rewrite (b_buffer _ _ _ _ Hb), (b_open _ _ _ _ Hb). exists (snoc_restart key value), (ri ++ [length es]). split_and!; [|done|apply (size_snoc (snoc_restart key value)); [apply Hent; lia|rewrite length_app; cbn; lia]].
    assert (es <> []) as Hne by (intros E; pose proof (b_fresh _ _ _ _ Hb E); lia).
    pose proof (building_restart key value (0 + 1) Hne (Hent 0%nat ltac:(lia)) ltac:(lia)) as Hnew. revert Hnew. rewrite body_snoc. unfold enc, header, PutVarint32. rewrite <- !app_assoc. done.
Qed.

End add.

(** ** A whole block *)

Lemma last_below es k l :
  StronglySorted (fun a b => less a b = true) (map fst (map pair_of es) ++ k :: l) -> es = [] \/ less (last_key es) k = true.
Proof.
  intros Hs. destruct (last es) as [e|] eqn:El; [|left; by apply last_None]. right. unfold last_key. rewrite El. cbn.
  apply last_Some in El as [es' ->]. rewrite !map_app, <- app_assoc in Hs. cbn in Hs.
  set (n := length (map fst (map pair_of es'))). apply (StronglySorted_lookup_lt _ _ n (S n) _ _ Hs).
  - unfold n. by rewrite lookup_app_r, Nat.sub_diag by lia.
  - unfold n. rewrite lookup_app_r by lia. by rewrite Nat.sub_succ_l, Nat.sub_diag by lia.
  - lia.
Qed.

Lemma AddAll_spec K l : 1 <= K -> forall b es ri,
  building K b es ri -> storable (map pair_of es ++ l) ->
  AddAll K l @ b ⇓ fun _ b' => exists es' ri', building K b' es' ri' /\ map pair_of es' = map pair_of es ++ l.
Proof.
  intros HK. induction l as [|[k v] l IH]; intros b es ri Hb Hst; cbn [AddAll].
  { wp_steps. exists es, ri. by rewrite app_nil_r. }
  pose proof Hst as [Hkeys Hbytes Hroom]. wp_step. apply Forall_app in Hbytes as [_ [[Bk Bv] _]%Forall_cons].
  rewrite room_app in Hroom. cbn [room] in Hroom. pose proof (room_pos l). rewrite map_app in Hkeys. cbn [map fst] in Hkeys.
  pose proof (b_room _ _ _ _ Hb).
  eapply wp_mono; [apply (Add_spec K b es ri Hb k v HK Bk Bv); [lia|by eapply last_below]|].
  cbn beta. intros _ b' (e & ri' & Hb' & He & _). assert (map pair_of (es ++ [e]) ++ l = map pair_of es ++ (k, v) :: l) as E.
  { rewrite map_app. cbn [map]. by rewrite He, <- app_assoc. }
  eapply wp_mono; [apply (IH b' (es ++ [e]) ri' Hb'); by rewrite E|]. cbn beta. intros _ b2 (es2 & ri2 & Hb2 & E2). exists es2, ri2. by rewrite E2, E.
Qed.

Lemma PutFixed32s_spec le l : forall buffer, PutFixed32s le buffer l = buffer ++ concat (map (le_bytes 4) l).
Proof.
  induction l as [|r l IH]; intros buffer; cbn [PutFixed32s map concat]; [by rewrite app_nil_r|]. rewrite IH. unfold PutFixed32.
  destruct (EncodeFixed_le le r) as (_ & -> & _). by rewrite app_assoc.
Qed.

(** [Finish] returns a well-formed block. *)
Lemma Finish_spec le K b es ri :
  building K b es ri -> block_bytes es ri < 2 ^ 32 -> StronglySorted (fun a b => less a b = true) (map n_key es) ->
  Finish le @ b ⇓ fun data _ => block_ok data es ri /\ Z.of_nat (length data) = block_bytes es ri.
Proof.
  intros Hb Hs Hk. unfold block_bytes in *. unfold Finish, uint32max. wp_steps.
  rewrite (b_restarts _ _ _ _ Hb), (b_buffer _ _ _ _ Hb), length_map. apply wp_CHECK; [apply Z.leb_le; clear -Hs; lia|]. wp_steps.
  set (data := PutFixed32 _ _ _). assert (data = body es ++ restart_array es ri) as Ed.
  { unfold data. rewrite PutFixed32s_spec. unfold PutFixed32. destruct (EncodeFixed_le le (Z.of_nat (length ri))) as (_ & -> & _).
    unfold restart_array. by rewrite map_map, <- app_assoc. }
  assert (Z.of_nat (length data) = Z.of_nat (length (body es)) + Z.of_nat (length ri) * 4 + 4) as El.
  { rewrite Ed. unfold restart_array. rewrite !length_app, words_length, le_bytes_length. lia. }
  split; [|lia]. constructor; try apply Hb; [done|lia|done].
Qed.

(** The announced size. *)
Lemma CurrentSizeEstimate_run K b es ri : building K b es ri -> CurrentSizeEstimate b = Val (block_bytes es ri, b).
Proof. intros Hb. unfold CurrentSizeEstimate. rewrite run_get, (b_restarts _ _ _ _ Hb), (b_buffer _ _ _ _ Hb), length_map. done. Qed.

(** The constructor of a block and its iterator accept it. *)
Lemma NewIterator_run le data es ri : block_ok data es ri ->
  (blk ← Block_new le data; NewIterator le data blk) = Some (EntryIterator (limit es) (count ri)).
Proof.
  intros Hok. pose proof (sizes _ _ _ Hok) as (H0 & H1 & H2). pose proof (data_length _ _ _ Hok) as Hl.
  assert (NumRestarts le data (Z.of_nat (length data)) = Some (count ri)) as Hn.
  { unfold NumRestarts. rewrite Hl, (proj2 (Z.leb_le 4 _)) by lia.
    replace (Z.to_nat (limit es + count ri * 4 + 4 - 4)) with (length (body es) + length ri * 4)%nat by (unfold limit, count in *; lia).
    rewrite (k_data _ _ _ Hok), <- drop_drop, drop_app_length. unfold restart_array. rewrite drop_words by (done || (intros; apply le_bytes_length)).
    rewrite drop_all. cbn [map concat app]. rewrite <- (app_nil_r (le_bytes 4 _)). unfold count in *. apply Fixed32_read. lia. }
  unfold Block_new. rewrite (proj2 (Z.ltb_ge _ 4)) by lia. rewrite Hn. cbn [mbind option_bind].
  rewrite (proj2 (Z.ltb_ge _ (count ri))) by (apply Z.div_le_lower_bound; lia). cbn [mbind option_bind]. unfold NewIterator. cbn [size_ restart_offset_].
  rewrite (proj2 (Z.ltb_ge _ 4)) by lia. rewrite Hn. cbn [mbind option_bind]. rewrite (proj2 (Z.eqb_neq (count ri) 0)) by lia.
  rewrite (u32_small (1 + count ri)) by lia. rewrite u32_small by lia. do 2 f_equal. lia.
Qed.
