(* ===== verification/TableBlockTheorems.v ===== *)
(** * Blocks of sorted tables: the theorems

    What the builder writes is what the iterator reads; seeking finds the first key that is
    not smaller; a length check that can be defeated. *)

From S2P Require Import Prelude Coding OrderedCode TableBlock TableBlockProofs.
Import Coding TableBlock.

#[local] Open Scope runtime_scope.

(** ** Walking and seeking *)

Section walk.
Context (le : bool) (data : list Z) (restarts num_restarts : Z).

(** The pairs from the position of the iterator to the end. *)
Fixpoint collect (fuel : nat) : M Iter (list (list Z * list Z)) :=
  match fuel with
  | O => nofuel
  | S fuel =>
      it ← get;
      if Valid restarts it then
        k ← key restarts;
        v ← value data restarts;
        Next le data restarts num_restarts;;
        rest ← collect fuel;
        mret ((k, v) :: rest)
      else mret []
  end.

End walk.

Section reader.
Context (le : bool) (data : list Z) (es : list Entry) (ri : list nat) (Hok : block_ok data es ri).
Abbreviation lim := (limit es).
Abbreviation cnt := (count ri).

Lemma lands_valid it i : (i <= length es)%nat -> lands es ri it i -> Valid lim it = bool_decide (i < length es)%nat.
Proof using Hok.
  intros Hi Hl. unfold lands in Hl. unfold Valid. destruct (es !! i) as [e|] eqn:He.
  - rewrite bool_decide_eq_true_2 by (by eapply lookup_lt_Some). rewrite (o_current _ _ _ _ _ Hl). apply Z.ltb_lt. pose proof (off_lt data es ri Hok i e He). lia.
  - apply lookup_ge_None in He. rewrite bool_decide_eq_false_2 by lia. destruct Hl as [-> _]. apply Z.ltb_irrefl.
Qed.

(** The accessors on an entry. *)
Lemma key_on it i e : es !! i = Some e -> on_entry es ri it i e -> key lim it = Val (n_key e, it).
Proof using Hok.
  intros He Ho. unfold key. rewrite run_get, (lands_valid it i); [|apply lookup_lt_Some in He; lia|unfold lands; by rewrite He].
  rewrite bool_decide_eq_true_2 by (by eapply lookup_lt_Some). cbn [CHECK]. by rewrite <- (o_key _ _ _ _ _ Ho).
Qed.

Lemma value_on it i e : es !! i = Some e -> on_entry es ri it i e -> value data lim it = Val (n_value e, it).
Proof using Hok.
  intros He Ho. unfold value. rewrite run_get, (lands_valid it i); [|apply lookup_lt_Some in He; lia|unfold lands; by rewrite He].
  rewrite bool_decide_eq_true_2 by (by eapply lookup_lt_Some). cbn [CHECK]. rewrite (o_value _ _ _ _ _ Ho). apply (value_run data es ri Hok i e it He).
Qed.

Lemma collect_spec fuel : forall it i,
  (i <= length es)%nat -> lands es ri it i -> (length es - i < fuel)%nat ->
  collect le data lim cnt fuel @ it ⇓ fun l it' => l = map pair_of (drop i es) /\ at_end es it'.
Proof using Hok.
  induction fuel as [|fuel IH]; intros it i Hi Hl Hf; [lia|]. cbn [collect]. wp_steps. rewrite (lands_valid it i Hi Hl). unfold lands in Hl.
  destruct (es !! i) as [e|] eqn:He.
  - pose proof (lookup_lt_Some _ _ _ He) as Hlt. rewrite bool_decide_eq_true_2 by done. wp_step. unfold wp at 1. rewrite (key_on it i e He Hl).
    wp_step. unfold wp at 1. rewrite (value_on it i e He Hl). unfold Next. wp_steps.
    apply wp_CHECK; [rewrite (lands_valid it i); [by apply bool_decide_eq_true_2|lia|unfold lands; by rewrite He]|]. wp_steps.
    eapply wp_mono; [apply (parse_run le data es ri Hok it (S i)); [lia|by eapply next_entry]|]. cbn beta. intros b it1 [_ Hl1]. wp_steps.
    eapply wp_mono; [apply (IH it1 (S i)); [lia|done|lia]|]. cbn beta. intros l it2 [-> Hend]. wp_steps. split; [|done]. by rewrite (drop_S _ _ _ He).
  - apply lookup_ge_None in He. rewrite bool_decide_eq_false_2 by lia. wp_steps. rewrite drop_ge by lia. done.
Qed.

Lemma first_spec it : status_ it = IterOK -> SeekToFirst le data lim cnt @ it ⇓ fun _ it' => lands es ri it' 0.
Proof using Hok.
  intros Hst. unfold SeekToFirst. wp_step. eapply wp_mono; [apply (seek_restart le data es ri Hok it 0 0); [apply Hok|done]|].
  cbn beta. intros _ it1 Hb. wp_steps. eapply wp_mono; [apply (parse_run le data es ri Hok it1 0); [lia|done]|]. cbn beta. intros b it2 [_ Hl]. by wp_steps.
Qed.

(** Every restart point after the first has an entry. *)
Lemma restart_entry j i : ri !! j = Some i -> (0 < j)%nat -> exists e, es !! i = Some e /\ n_shared e = 0%nat.
Proof using Hok.
  intros Hj H0. destruct (k_restart _ _ _ Hok j i Hj) as [[-> _]|He]; [|done].
  pose proof (StronglySorted_lookup_lt _ _ _ _ _ _ (k_sorted _ _ _ Hok) (k_first _ _ _ Hok) Hj H0). lia.
Qed.

(** The key at a restart point is smaller than the target, or it is the first one. *)
Definition safe_start (target : list Z) (j : nat) : Prop :=
  (j < length ri)%nat /\ (j = 0%nat \/ exists i e, ri !! j = Some i /\ es !! i = Some e /\ less (n_key e) target = true).

Lemma bsearch_spec target fuel : forall (left right : nat) it,
  (left <= right < length ri)%nat -> Z.of_nat (right - left) < 2 ^ (Z.of_nat fuel - 1) -> safe_start target left ->
  Seek_bsearch le data lim cnt fuel target (Z.of_nat left) (Z.of_nat right) @ it ⇓
    fun o it' => it' = it /\ exists j, o = Some (Z.of_nat j) /\ safe_start target j.
Proof using Hok.
  pose proof (sizes data es ri Hok) as (_ & _ & Hsz). assert (Z.of_nat (length ri) < 2 ^ 30) as Hn by (pose proof (off_limit es 0); unfold count in Hsz; lia).
  induction fuel as [|fuel IH]; intros left right it Hlr Hf Hs; [cbn in Hf; lia|]. cbn [Seek_bsearch].
  destruct (Z.ltb_spec (Z.of_nat left) (Z.of_nat right)) as [Hlt|Hge].
  2: { wp_steps. split; [done|]. by exists left. }
  assert (0 < Z.of_nat fuel) as Hf0 by (destruct fuel; [cbn in Hf; lia|lia]).
  replace (Z.of_nat (S fuel) - 1) with (Z.succ (Z.of_nat fuel - 1)) in Hf by lia. rewrite Z.pow_succ_r in Hf by lia.
  set (mid := ((left + right + 1) / 2)%nat). rewrite u32_small by lia.
  assert (mid * 2 <= left + right + 1 < mid * 2 + 2)%nat as Hmid by (unfold mid; pose proof (Nat.div_mod_eq (left + right + 1) 2); pose proof (Nat.mod_upper_bound (left + right + 1) 2); lia).
  assert ((Z.of_nat left + Z.of_nat right + 1) / 2 = Z.of_nat mid) as -> by (symmetry; apply (Z.div_unique_pos _ _ _ (Z.of_nat (left + right + 1 - mid * 2))); lia).
  destruct (lookup_lt_is_Some_2 ri mid) as [i Hi]; [lia|]. destruct (restart_entry mid i Hi ltac:(lia)) as (e & He & Esh).
  wp_step. unfold wp at 1. rewrite (restart_run le data es ri Hok mid i it Hi). rewrite (decode_run data es ri Hok i e He). rewrite Esh. cbn beta iota. change (negb (Z.of_nat 0 =? 0)) with false. cbn beta iota.
  wp_step. unfold wp at 1. rewrite (delta_run data es ri Hok i e it He). rewrite Esh. rewrite drop_0. cbn beta iota.
  destruct (less (n_key e) target) eqn:Elt.
  - apply IH; [lia|lia|]. split; [lia|]. right. by exists i, e.
  - rewrite u32_small by lia. replace (Z.of_nat mid - 1) with (Z.of_nat (mid - 1)) by lia. apply IH; [lia|lia|done].
Qed.

(** Where a seek must end: the first key that is not smaller than the target. *)
Definition first_not_less (target : list Z) (k : nat) : Prop :=
  (k <= length es)%nat /\ (forall j e, (j < k)%nat -> es !! j = Some e -> less (n_key e) target = true)
  /\ (forall e, es !! k = Some e -> less (n_key e) target = false).

Lemma scan_spec target fuel : forall it i,
  (i <= length es)%nat -> before_entry es ri it i -> (length es - i < fuel)%nat ->
  (forall j e, (j < i)%nat -> es !! j = Some e -> less (n_key e) target = true) ->
  Seek_scan le data lim cnt fuel target @ it ⇓ fun _ it' => exists k, first_not_less target k /\ lands es ri it' k.
Proof using Hok.
  induction fuel as [|fuel IH]; intros it i Hi Hb Hf Hbelow; [lia|]. cbn [Seek_scan]. wp_step.
  eapply wp_mono; [apply (parse_run le data es ri Hok it i Hi Hb)|]. cbn beta. intros b it1 [-> Hl]. pose proof Hl as Hl'. unfold lands in Hl'. destruct (es !! i) as [e|] eqn:He.
  - rewrite bool_decide_eq_true_2 by (by eapply lookup_lt_Some). cbn [negb]. wp_steps. rewrite (o_key _ _ _ _ _ Hl').
    pose proof (lookup_lt_Some _ _ _ He). destruct (less (n_key e) target) eqn:Elt; cbn [negb].
    + apply (IH it1 (S i)); [lia|by eapply next_entry|lia|]. intros j x Hj Hx. destruct (decide (j = i)) as [->|]; [by simplify_eq|]. apply (Hbelow j x); [lia|done].
    + wp_steps. exists i. split; [|done]. split_and!; [lia|done|]. intros x Hx. by simplify_eq.
  - rewrite bool_decide_eq_false_2 by (apply lookup_ge_None in He; lia). cbn [negb]. wp_steps. exists i. split; [|done]. split_and!; [done|done|]. intros x Hx. congruence.
Qed.

Lemma entries_le_bytes : (length es <= length data)%nat.
Proof using Hok.
  rewrite (k_data _ _ _ Hok), length_app. assert (length es <= length (body es))%nat; [|lia]. pose proof (k_bytes _ _ _ Hok) as Hb. clear -Hb.
  induction Hb as [|e l He _ IH]; [done|]. destruct (header_bytes e He) as [_ Hh]. unfold body in *. cbn [map concat length]. unfold enc at 1. rewrite !length_app. lia.
Qed.

Lemma seek_spec target it : status_ it = IterOK ->
  Seek le data lim cnt target @ it ⇓ fun _ it' => exists k, first_not_less target k /\ lands es ri it' k.
Proof using Hok.
  intros Hst. pose proof (sizes data es ri Hok) as (_ & Hc & Hsz). pose proof (off_limit es 0) as Hl0. unfold Seek. wp_step.
  assert (0 < length ri)%nat as Hpos by (unfold count in Hc; lia).
  rewrite u32_small by lia. replace (cnt - 1) with (Z.of_nat (length ri - 1)) by (unfold count; lia). change 0 with (Z.of_nat 0).
  eapply wp_mono; [apply (bsearch_spec target 33 0 (length ri - 1)); [lia|unfold count in Hsz; lia|split; [lia|by left]]|].
  cbn beta. intros o it1 (-> & j & -> & Hj & Hs). wp_steps. destruct (lookup_lt_is_Some_2 ri j Hj) as [i Hi].
  eapply wp_mono; [apply (seek_restart le data es ri Hok it j i Hi Hst)|]. cbn beta. intros _ it2 Hb.
  assert (i <= length es)%nat as Hile. { destruct (k_restart _ _ _ Hok j i Hi) as [[-> _]|(e & He & _)]; [lia|apply lookup_lt_Some in He; lia]. }
  pose proof entries_le_bytes. apply (scan_spec target _ it2 i); [done|done|lia|].
  intros m x Hm Hx. destruct Hs as [->|(i' & e & Hi' & He & Hlt)].
  - rewrite (k_first _ _ _ Hok) in Hi. injection Hi as <-. lia.
  - rewrite Hi in Hi'. injection Hi' as <-. eapply less_trans; [|exact Hlt].
    eapply (StronglySorted_lookup_lt _ _ _ _ _ _ (k_keys _ _ _ Hok)); [| |exact Hm]; change (map n_key es) with (n_key <$> es); rewrite list_lookup_fmap; [by rewrite Hx|by rewrite He].
Qed.

End reader.

(** ** The theorems *)

(** A builder, reset and filled: the announced size and the block. *)
Definition build (le : bool) (K : Z) (l : list (list Z * list Z)) : M BlockBuilder (Z * list Z) :=
  Reset;; AddAll K l;; n ← CurrentSizeEstimate; data ← Finish le; mret (n, data).

Lemma build_spec le K l b : 1 <= K -> storable l ->
  build le K l @ b ⇓ fun '(n, data) _ => n = Z.of_nat (length data) /\ exists es ri, block_ok data es ri /\ map pair_of es = l.
Proof.
  intros HK Hl. unfold build, Reset. wp_steps. eapply wp_mono; [apply (AddAll_spec K l HK _ [] [0%nat]); [apply building_new; lia|exact Hl]|].
  cbn beta. intros _ b1 (es & ri & Hb & El). cbn [map app] in El. rewrite <- El in Hl. pose proof (b_room _ _ _ _ Hb). pose proof (s_room _ Hl). pose proof (s_keys _ Hl) as Hk. rewrite map_map in Hk.
  wp_step. unfold wp at 1. rewrite (CurrentSizeEstimate_run K b1 es ri Hb). wp_step. eapply wp_mono; [apply (Finish_spec le K b1 es ri Hb); [lia|done]|]. cbn beta. intros data b2 [Hok En]. wp_steps. split; [done|]. by exists es, ri.
Qed.

(** What a seek leaves to read are the pairs whose key is not smaller. *)
Lemma drop_filter target es k :
  StronglySorted (fun a b => less a b = true) (map n_key es) -> first_not_less es target k ->
  map pair_of (drop k es) = filter (fun kv => less kv.1 target = false) (map pair_of es).
Proof.
  revert k. induction es as [|e es IH]; intros k Hs (Hk & Hbelow & Hat); [by destruct k|]. cbn [map] in Hs |- *. apply StronglySorted_inv in Hs as [Hs He]. destruct k as [|k].
  - rewrite (filter_all _ (pair_of e :: map pair_of es)); [done|]. pose proof (Hat e eq_refl) as H0. constructor; [done|].
    apply Forall_map, Forall_forall. intros x Hx. cbn. destruct (less (n_key x) target) eqn:E; [|done].
    rewrite <- H0. symmetry. apply (less_trans _ (n_key x)); [|done]. rewrite Forall_map, Forall_forall in He. by apply He.
  - cbn [drop]. rewrite filter_cons_False by (cbn; by rewrite (Hbelow 0%nat e) by (lia || done)). apply IH; [done|].
    cbn in Hk. split_and!; [lia|intros j x Hj Hx; apply (Hbelow (S j) x); [lia|done]|exact Hat].
Qed.

(** C30: pairs with strictly increasing keys that are added to a builder of any restart
    interval (after [Reset], whatever it held) give a block of the size
    [CurrentSizeEstimate] announced, which [Block::NewIterator] accepts, and whose iterator
    returns exactly these pairs in order and ends invalid with an OK status; the host that
    writes and the host that reads may have different byte orders.  [Seek] from any position
    of an iterator whose status is OK, and then reading to the end, returns exactly the pairs
    whose key is not smaller than the target: the binary search over the restart points never
    skips the first of them.  Offsets have 32 bits: the pairs, with 19 more bytes for each and 8 for
    the block, take up less than 2^32 bytes. *)
Theorem block_round_trip le le' K l b fuel :
  1 <= K -> storable l -> (length l < fuel)%nat ->
  build le K l @ b ⇓ fun '(n, data) _ =>
    n = Z.of_nat (length data) /\ exists restarts num_restarts,
    (blk ← Block_new le' data; NewIterator le' data blk) = Some (EntryIterator restarts num_restarts)
    /\ ((SeekToFirst le' data restarts num_restarts;; collect le' data restarts num_restarts fuel) @ Iter_new restarts num_restarts ⇓
         fun pairs it => pairs = l /\ Valid restarts it = false /\ status_ it = IterOK)
    /\ forall target it, status_ it = IterOK ->
         (Seek le' data restarts num_restarts target;; collect le' data restarts num_restarts fuel) @ it ⇓
           fun pairs it' => pairs = filter (fun kv => less kv.1 target = false) l /\ Valid restarts it' = false /\ status_ it' = IterOK.
Proof.
  intros HK Hl Hf. eapply wp_mono; [by apply build_spec|]. cbn beta. intros [n data] _ (-> & es & ri & Hok & El). split; [done|].
  exists (limit es), (count ri). rewrite <- El, length_map in Hf. split_and!; [by apply NewIterator_run| |intros target it0 Hit0].
  - wp_steps. eapply wp_mono; [by apply first_spec|]. cbn beta. intros _ it Hit. eapply wp_mono; [apply (collect_spec le' data es ri Hok fuel it 0); [lia|done|lia]|].
    cbn beta. intros pairs it' (-> & Ec & Est). rewrite drop_0, El. split_and!; [done| |done]. unfold Valid. rewrite Ec. apply Z.ltb_irrefl.
  - wp_steps. eapply wp_mono; [by apply seek_spec|]. cbn beta. intros _ it1 (k & Hk & Hl1). eapply wp_mono; [apply (collect_spec le' data es ri Hok fuel it1 k); [apply Hk|done|lia]|].
    cbn beta. intros pairs it' (-> & Ec & Est). rewrite <- El. split_and!; [apply drop_filter; [apply Hok|done]| |done]. unfold Valid. rewrite Ec. apply Z.ltb_irrefl.
Qed.

(** A block of 16 bytes whose only entry announces a key of 4294967295 bytes and a value of one. *)
Definition wrapped_block : list Z := [0; 255; 255; 255; 255; 15; 1; 97; 0; 0; 0; 0; 1; 0; 0; 0].

(** The length check of [DecodeEntry] keeps the key delta and the value inside the
    entries when the two lengths have a 32-bit sum; when the sum wraps the check passes, and
    the iterator reads outside the block: a 16-byte block, accepted by the constructor, does
    so on [SeekToFirst] instead of reporting corruption. *)
Theorem entry_length_check data p limit key_ptr shared non_shared value_length :
  DecodeEntry data p limit = Some (key_ptr, shared, non_shared, value_length) ->
  (0 <= non_shared + value_length < 2 ^ 32 -> key_ptr + non_shared + value_length <= limit)
  /\ (blk ← Block_new true wrapped_block; NewIterator true wrapped_block blk) = Some (EntryIterator 8 1)
  /\ DecodeEntry wrapped_block 0 8 = Some (7, 0, 2 ^ 32 - 1, 1)
  /\ SeekToFirst true wrapped_block 8 1 (Iter_new 8 1) = Crash.
Proof.
  intros Hd. split; [|by vm_compute]. intros Hr. unfold DecodeEntry in Hd.
  destruct (drop (Z.to_nat p) (take (Z.to_nat limit) data)) as [|b0 [|b1 [|b2 rest]]]; try done.
  apply bind_Some in Hd as ([[[s n] v] q] & _ & Hd). destruct (Z.ltb_spec (u32 (Z.of_nat (length q))) (u32 (n + v))) as [|Hle]; [done|].
  injection Hd as <- <- <- <-. rewrite (u32_small (n + v)) in Hle by lia. pose proof (Z.mod_le (Z.of_nat (length q)) (2 ^ 32)). unfold u32 in Hle. lia.
Qed.

(** ** Witnesses *)

Definition fruit : list (list Z * list Z) := [([97], [1]); ([97; 98], [2; 3]); ([97; 98; 99], []); ([98], [4])].

Lemma fruit_storable : storable fruit.
Proof. constructor; [repeat constructor|repeat constructor; cbn; lia|by vm_compute]. Qed.

Lemma block_round_trip_witness :
  exists data b restarts num_restarts it it', build true 2 fruit BlockBuilder_new = Val (34, data, b)
  /\ (SeekToFirst false data restarts num_restarts;; collect false data restarts num_restarts 5) (Iter_new restarts num_restarts) = Val (fruit, it)
  /\ Valid restarts it = false
  /\ (Seek false data restarts num_restarts [97; 98; 0];; collect false data restarts num_restarts 5) it = Val ([([97; 98; 99], []); ([98], [4])], it').
Proof.
  destruct (wp_total _ _ _ (block_round_trip true false 2 fruit BlockBuilder_new 5 ltac:(lia) fruit_storable ltac:(cbn; lia))) as ([n data] & b & Eb & En & r & m & _ & Hread & Hseek).
  destruct (wp_total _ _ _ Hread) as (pairs & it & Er & -> & Hv & Hst). destruct (wp_total _ _ _ (Hseek [97; 98; 0] it Hst)) as (pairs & it' & Es & -> & _).
  exists data, b, r, m, it, it'. split_and!; [|done|done|exact Es]. rewrite Eb. revert Eb. vm_compute. intros [= -> _ _]. reflexivity.
Defined.

Lemma entry_length_check_witness : 3 + 1 + 1 <= 22 /\ SeekToFirst true wrapped_block 8 1 (Iter_new 8 1) = Crash.
Proof.
  destruct (entry_length_check [0; 1; 1; 97; 1; 1; 1; 2; 98; 2; 3; 0; 3; 0; 97; 98; 99; 0; 1; 1; 98; 4] 0 22 3 0 1 1 ltac:(by vm_compute)) as (H1 & _ & _ & H2).
  split; [apply H1; lia|exact H2].
Defined.
