(* ===== verification/Crc32cTheorems.v ===== *)
(** * CRC-32C checksums: the theorems

    The tables and the unrolled loops compute the cyclic redundancy check bit by bit. *)

From S2P Require Import Prelude Coding Crc32c.
Import Coding Crc32c.

(** ** The reference: one bit at a time *)

(** The reversed polynomial of Castagnoli. *)
Definition polynomial : Z := 0x82f63b78.

Definition crc_bit (x : Z) : Z := if Z.odd x then Z.lxor (Z.shiftr x 1) polynomial else Z.shiftr x 1.
Fixpoint crc_bits (n : nat) (x : Z) : Z := match n with O => x | S n => crc_bit (crc_bits n x) end.

(** A byte enters at the low end and eight bits leave. *)
Definition crc_byte (l b : Z) : Z := crc_bits 8 (Z.lxor l b).
Definition crc_update (l : Z) (bs : list Z) : Z := foldl crc_byte l bs.
Definition crc32c (crc : Z) (bs : list Z) : Z := Z.lxor (crc_update (Z.lxor crc 0xffffffff) bs) 0xffffffff.

Definition byte (b : Z) : Prop := 0 <= b < 256.
Definition word32 (x : Z) : Prop := 0 <= x < 2 ^ 32.

(** ** Linearity *)

Lemma crc_bit_lxor a b : crc_bit (Z.lxor a b) = Z.lxor (crc_bit a) (crc_bit b).
Proof.
  unfold crc_bit. rewrite <- !Z.bit0_odd, Z.lxor_spec, Z.shiftr_lxor. destruct (Z.testbit a 0), (Z.testbit b 0); cbn [xorb];
    apply Z.bits_inj'; intros n _; rewrite !Z.lxor_spec; destruct (Z.testbit (Z.shiftr a 1) n), (Z.testbit (Z.shiftr b 1) n), (Z.testbit polynomial n); done.
Qed.

Lemma crc_bits_lxor n a b : crc_bits n (Z.lxor a b) = Z.lxor (crc_bits n a) (crc_bits n b).
Proof. induction n as [|n IH]; [done|]. cbn [crc_bits]. by rewrite IH, crc_bit_lxor. Qed.

Lemma crc_bits_add n m x : crc_bits (n + m) x = crc_bits n (crc_bits m x).
Proof. induction n as [|n IH]; [done|]. cbn [crc_bits Nat.add]. by rewrite IH. Qed.

(** Bits that are still far from the low end only move. *)
Lemma crc_bits_shift n x : crc_bits n (Z.shiftl x (Z.of_nat n)) = x.
Proof.
  induction n as [|n IH]; [by rewrite Z.shiftl_0_r|]. rewrite <- Nat.add_1_r, crc_bits_add. cbn [crc_bits]. rewrite Nat.add_1_r.
  replace (crc_bit (Z.shiftl x (Z.of_nat (S n)))) with (Z.shiftl x (Z.of_nat n)); [done|].
  unfold crc_bit. rewrite <- Z.bit0_odd, Z.shiftl_spec_low by lia. rewrite Z.shiftr_shiftl_l by lia. f_equal. lia.
Qed.

Lemma crc_bits_shifted n m x : crc_bits (n + m) (Z.shiftl x (Z.of_nat m)) = crc_bits n x.
Proof. by rewrite crc_bits_add, crc_bits_shift. Qed.

Lemma crc_bit_word x : word32 x -> word32 (crc_bit x).
Proof.
  unfold word32, crc_bit. intros Hx. assert (0 <= Z.shiftr x 1 < 2 ^ 31) as Hs.
  { rewrite Z.shiftr_div_pow2 by lia. split; [apply Z.div_pos; lia|apply Z.div_lt_upper_bound; lia]. }
  destruct (Z.odd x); [|lia]. split; [rewrite Z.lxor_nonneg; unfold polynomial; lia|].
  destruct (Z.eq_dec (Z.lxor (Z.shiftr x 1) polynomial) 0) as [->|Hne]; [lia|].
  apply Z.log2_lt_pow2; [pose proof (proj2 (Z.lxor_nonneg (Z.shiftr x 1) polynomial) ltac:(unfold polynomial; lia)); lia|].
  eapply Z.le_lt_trans; [apply Z.log2_lxor; unfold polynomial; lia|]. apply Z.max_lub_lt; [|by vm_compute].
  destruct (Z.eq_dec (Z.shiftr x 1) 0) as [->|]; [by vm_compute|]. apply Z.log2_lt_pow2; lia.
Qed.

Lemma crc_bits_word n x : word32 x -> word32 (crc_bits n x).
Proof. intros Hx. induction n as [|n IH]; [done|]. cbn [crc_bits]. by apply crc_bit_word. Qed.

Lemma lxor_word a b : word32 a -> word32 b -> word32 (Z.lxor a b).
Proof.
  unfold word32. intros Ha Hb. assert (0 <= Z.lxor a b) as H0 by (apply Z.lxor_nonneg; lia). split; [done|].
  destruct (Z.eq_dec (Z.lxor a b) 0) as [->|Hne]; [lia|]. apply Z.log2_lt_pow2; [lia|]. eapply Z.le_lt_trans; [apply Z.log2_lxor; lia|].
  apply Z.max_lub_lt; [destruct (Z.eq_dec a 0) as [->|]|destruct (Z.eq_dec b 0) as [->|]]; try (by vm_compute); apply Z.log2_lt_pow2; lia.
Qed.

Lemma byte_word b : byte b -> word32 b.
Proof. unfold byte, word32. lia. Qed.
#[local] Hint Resolve crc_bits_word lxor_word byte_word : machine.

Lemma crc_byte_word l b : word32 l -> byte b -> word32 (crc_byte l b).
Proof. unfold crc_byte. auto with machine. Qed.

Lemma crc_update_word bs : forall l, word32 l -> Forall byte bs -> word32 (crc_update l bs).
Proof. unfold crc_update. induction bs as [|b bs IH]; intros l Hl Hb; [done|]. apply Forall_cons in Hb as [Hb Hbs]. cbn. apply IH; [by apply crc_byte_word|done]. Qed.

Lemma crc_update_app l a b : crc_update l (a ++ b) = crc_update (crc_update l a) b.
Proof. unfold crc_update. by rewrite foldl_app. Qed.

(** ** Words are sums of bytes *)

Lemma add_lxor_shift b v k : 0 <= k -> 0 <= b < 2 ^ k -> b + 2 ^ k * v = Z.lxor b (Z.shiftl v k).
Proof.
  intros Hk Hb. rewrite Z.shiftl_mul_pow2, (Z.mul_comm v) by lia. apply Z.add_nocarry_lxor. apply Z.bits_inj'. intros n Hn.
  rewrite Z.land_spec, Z.bits_0. destruct (Z.lt_ge_cases n k).
  - rewrite (Z.mul_comm (2 ^ k)), <- (Z.shiftl_mul_pow2 v k) by lia. rewrite Z.shiftl_spec_low by lia. apply andb_false_r.
  - destruct (Z.eq_dec b 0) as [->|]; [by rewrite Z.bits_0|]. rewrite (Z.bits_above_log2 b n); [done|lia|]. apply Z.log2_lt_pow2; [lia|].
    eapply Z.lt_le_trans; [apply Hb|]. apply Z.pow_le_mono_r; lia.
Qed.

(** Several bytes at once: the bytes as a little-endian number. *)
Lemma crc_update_word_at bs : forall l, Forall byte bs -> crc_update l bs = crc_bits (length bs * 8) (Z.lxor l (le_value bs)).
Proof.
  induction bs as [|b bs IH]; intros l Hb; [by cbn; rewrite Z.lxor_0_r|]. apply Forall_cons in Hb as [Hb Hbs].
  cbn [crc_update foldl length le_value]. change (foldl crc_byte (crc_byte l b) bs) with (crc_update (crc_byte l b) bs). rewrite IH by done.
  replace (S (length bs) * 8)%nat with (length bs * 8 + 8)%nat by lia. rewrite crc_bits_add. f_equal.
  change 256 with (2 ^ 8). rewrite (add_lxor_shift b (le_value bs) 8) by (unfold byte in Hb; lia).
  rewrite <- Z.lxor_assoc, crc_bits_lxor. change 8 with (Z.of_nat 8). by rewrite crc_bits_shift.
Qed.

(** ** The tables *)

Definition crc_table (n : nat) : list Z := map (fun i => crc_bits n (Z.of_nat i)) (seq 0 256).

Lemma tables_ok : table0_ = crc_table 8 /\ table1_ = crc_table 16 /\ table2_ = crc_table 24 /\ table3_ = crc_table 32.
Proof. split_and!; vm_compute; reflexivity. Qed.

Lemma table_run n c : byte c -> table_at (crc_table n) c = Some (crc_bits n c).
Proof.
  unfold byte, table_at, crc_table. intros Hc. change (map ?f ?l) with (f <$> l). rewrite list_lookup_fmap, lookup_seq_lt by lia. cbn.
  by rewrite Z2Nat.id by lia.
Qed.

Lemma land_byte x : byte (Z.land x 255).
Proof. change 255 with (Z.ones 8). rewrite Z.land_ones by lia. unfold byte. apply Z.mod_pos_bound. lia. Qed.

Lemma split_low x : x = Z.lxor (Z.land x 255) (Z.shiftl (Z.shiftr x 8) 8).
Proof.
  pose proof (land_byte x) as Hb. unfold byte in Hb. rewrite <- (add_lxor_shift (Z.land x 255) (Z.shiftr x 8) 8) by lia.
  change 255 with (Z.ones 8). rewrite Z.land_ones, Z.shiftr_div_pow2 by lia. rewrite Z.add_comm. apply Z.div_mod. lia.
Qed.

Lemma byte_low b : byte b -> Z.land b 255 = b /\ Z.shiftr b 8 = 0.
Proof.
  unfold byte. intros Hb. change 255 with (Z.ones 8). rewrite Z.land_ones, Z.shiftr_div_pow2 by lia.
  split; [apply Z.mod_small; lia|apply Z.div_small; lia].
Qed.

Lemma STEP1_run l b p : word32 l -> byte b -> STEP1 l (b :: p) = Some (crc_byte l b, p).
Proof.
  intros Hl Hb. destruct (byte_low b Hb) as [E1 E2]. unfold STEP1. destruct tables_ok as (-> & _).
  assert (Z.lxor (Z.land l 255) b = Z.land (Z.lxor l b) 255) as ->.
  { rewrite <- E1 at 1. apply Z.bits_inj'. intros n _. rewrite !Z.lxor_spec, !Z.land_spec, Z.lxor_spec. by destruct (Z.testbit l n), (Z.testbit b n), (Z.testbit 255 n). }
  rewrite table_run by apply land_byte. cbn [mbind option_bind]. f_equal. f_equal. unfold crc_byte.
  rewrite (split_low (Z.lxor l b)) at 2. rewrite crc_bits_lxor. change 8 with (Z.of_nat 8). rewrite crc_bits_shift.
  change (Z.of_nat 8) with 8. by rewrite Z.shiftr_lxor, E2, Z.lxor_0_r.
Qed.

Lemma word_high c : word32 c -> byte (Z.shiftr c 24).
Proof. unfold word32, byte. intros Hc. rewrite Z.shiftr_div_pow2 by lia. split; [apply Z.div_pos; lia|apply Z.div_lt_upper_bound; lia]. Qed.

(** Four tables at once. *)
Lemma slice_word c : 
  crc_bits 32 c = Z.lxor (Z.lxor (Z.lxor (crc_bits 32 (Z.land c 255)) (crc_bits 24 (Z.land (Z.shiftr c 8) 255)))
    (crc_bits 16 (Z.land (Z.shiftr c 16) 255))) (crc_bits 8 (Z.shiftr c 24)).
Proof.
  rewrite (split_low c) at 1. rewrite crc_bits_lxor, (crc_bits_shifted 24 8).
  rewrite (split_low (Z.shiftr c 8)) at 1. rewrite crc_bits_lxor, (crc_bits_shifted 16 8), Z.shiftr_shiftr by lia.
  change (8 + 8) with 16. rewrite (split_low (Z.shiftr c 16)) at 1. rewrite crc_bits_lxor, (crc_bits_shifted 8 8), Z.shiftr_shiftr by lia.
  change (16 + 8) with 24. by rewrite !Z.lxor_assoc.
Qed.

Lemma le_value_word bs : Forall byte bs -> 0 <= le_value bs < 256 ^ Z.of_nat (length bs).
Proof.
  induction 1 as [|b bs Hb _ IH]; [cbn; lia|]. unfold byte in Hb. cbn [le_value length]. rewrite Nat2Z.inj_succ, Z.pow_succ_r by lia. lia.
Qed.

Lemma STEP4_run le l p : word32 l -> Forall byte p -> (4 <= length p)%nat -> STEP4 le l p = Some (crc_update l (take 4 p), drop 4 p).
Proof.
  intros Hl Hp Hlen. destruct p as [|b0 [|b1 [|b2 [|b3 p]]]]; cbn in Hlen; try lia. cbn [take drop].
  assert (Forall byte [b0; b1; b2; b3]) as Hb by (rewrite !Forall_cons in Hp |- *; destruct Hp as (? & ? & ? & ? & _); split_and!; [done..|constructor]).
  assert (DecodeFixed32 le (b0 :: b1 :: b2 :: b3 :: p) = Some (le_value [b0; b1; b2; b3])) as Hd by (destruct le; [done|by apply DecodeFixed32_be]).
  unfold STEP4. rewrite Hd. cbn [mbind option_bind]. rewrite crc_update_word_at by done. pose proof (le_value_word _ Hb) as Hw.
  set (c := Z.lxor l (le_value [b0; b1; b2; b3])). assert (word32 c) as Hc by (apply lxor_word; [done|exact Hw]).
  destruct tables_ok as (-> & -> & -> & ->). rewrite !table_run by (apply land_byte || by apply word_high). cbn [mbind option_bind].
  do 2 f_equal. symmetry. apply slice_word.
Qed.

(** ** The loops *)

Lemma bytes1_run n : forall l p, word32 l -> Forall byte p -> (n <= length p)%nat -> bytes1 n l p = Some (crc_update l (take n p), drop n p).
Proof.
  induction n as [|n IH]; intros l p Hl Hp Hn; [done|]. destruct p as [|b p]; cbn in Hn; [lia|]. apply Forall_cons in Hp as [Hb Hp].
  cbn [bytes1]. rewrite STEP1_run by done. cbn [mbind option_bind]. rewrite IH by (done || lia || by apply crc_byte_word). done.
Qed.

(** A loop has consumed a prefix. *)
Definition consumed (l : Z) (p : list Z) (r : option (Z * list Z)) (rest : nat) : Prop :=
  exists a b, p = a ++ b /\ (length b < rest)%nat /\ r = Some (crc_update l a, b).

Lemma consumed_step l a b r rest : consumed (crc_update l a) b r rest -> consumed l (a ++ b) r rest.
Proof. intros (c & d & -> & Hd & ->). exists (a ++ c), d. split_and!; [by rewrite app_assoc|done|by rewrite crc_update_app]. Qed.

Lemma STEP4_bind le l p (k : Z -> list Z -> option (Z * list Z)) : word32 l -> Forall byte p -> (4 <= length p)%nat ->
  ('(l, p) ← STEP4 le l p; k l p) = k (crc_update l (take 4 p)) (drop 4 p)
  /\ word32 (crc_update l (take 4 p)) /\ Forall byte (drop 4 p) /\ length (drop 4 p) = (length p - 4)%nat.
Proof.
  intros Hl Hp H4. split_and!; [by rewrite STEP4_run|apply crc_update_word; [done|by apply Forall_take]|by apply Forall_drop|by rewrite length_drop].
Qed.

Lemma bytes4_run le fuel : forall l p, word32 l -> Forall byte p -> (length p < fuel)%nat -> consumed l p (bytes4 le fuel l p) 4.
Proof.
  induction fuel as [|fuel IH]; intros l p Hl Hp Hf; [lia|]. cbn [bytes4]. destruct (Nat.leb_spec 4 (length p)) as [H4|H4]; [|by exists [], p].
  rewrite STEP4_run by done. cbn [mbind option_bind]. rewrite <- (take_drop 4 p) at 1. apply consumed_step.
  apply IH; [apply crc_update_word; [done|by apply Forall_take]|by apply Forall_drop|rewrite length_drop; lia].
Qed.

Lemma bytes16_run le fuel : forall l p, word32 l -> Forall byte p -> (length p < fuel)%nat -> consumed l p (bytes16 le fuel l p) 16.
Proof.
  induction fuel as [|fuel IH]; intros l p Hl Hp Hf; [lia|]. cbn [bytes16]. destruct (Nat.leb_spec 16 (length p)) as [H16|H16]; [|by exists [], p].
  set (k := bytes16 le fuel).
  destruct (STEP4_bind le l p (fun l p => '(l, p) ← STEP4 le l p; '(l, p) ← STEP4 le l p; '(l, p) ← STEP4 le l p; k l p) Hl Hp ltac:(lia)) as (-> & W1 & B1 & L1).
  destruct (STEP4_bind le _ _ (fun l p => '(l, p) ← STEP4 le l p; '(l, p) ← STEP4 le l p; k l p) W1 B1 ltac:(lia)) as (-> & W2 & B2 & L2).
  destruct (STEP4_bind le _ _ (fun l p => '(l, p) ← STEP4 le l p; k l p) W2 B2 ltac:(lia)) as (-> & W3 & B3 & L3).
  destruct (STEP4_bind le _ _ k W3 B3 ltac:(lia)) as (-> & _). rewrite <- !crc_update_app, !drop_drop. cbn [Nat.add].
  assert (take 4 p ++ take 4 (drop 4 p) ++ take 4 (drop 8 p) ++ take 4 (drop 12 p) = take 16 p) as -> by (by rewrite !app_assoc, !take_take_drop). unfold k.
  rewrite <- (take_drop 16 p) at 1. apply consumed_step.
  apply IH; [apply crc_update_word; [done|by apply Forall_take]|by apply Forall_drop|rewrite length_drop; lia].
Qed.

Lemma unaligned_le k pval size : 0 <= size -> (unaligned k pval size <= Z.to_nat size)%nat.
Proof. intros Hs. unfold unaligned. destruct (Z.leb_spec (Z.shiftl (Z.shiftr (pval + (2 ^ k - 1)) k) k) (pval + size)); lia. Qed.

Lemma ExtendPortable_run le crc pval buf : word32 crc -> Forall byte buf -> ExtendPortable le crc pval buf = Some (crc32c crc buf).
Proof.
  intros Hc Hb. unfold ExtendPortable, crc32c. set (l := Z.lxor crc 0xffffffff). assert (word32 l) as Hl by (apply lxor_word; [done|unfold word32; lia]).
  set (n := unaligned 2 pval _). pose proof (unaligned_le 2 pval (Z.of_nat (length buf)) ltac:(lia)) as Hn. fold n in Hn. rewrite Nat2Z.id in Hn.
  rewrite bytes1_run by done. cbn [mbind option_bind].
  assert (word32 (crc_update l (take n buf)) /\ Forall byte (drop n buf)) as [H1 B1] by (split; [apply crc_update_word; [done|by apply Forall_take]|by apply Forall_drop]).
  destruct (bytes16_run le (S (length (drop n buf))) _ _ H1 B1 ltac:(lia)) as (a & b & E1 & _ & ->). cbn [mbind option_bind].
  rewrite E1 in B1. apply Forall_app in B1 as [Ba Bb]. pose proof (crc_update_word a _ H1 Ba) as H2.
  destruct (bytes4_run le (S (length b)) _ _ H2 Bb ltac:(lia)) as (c & d & -> & _ & ->). cbn [mbind option_bind]. apply Forall_app in Bb as [Bc Bd].
  rewrite bytes1_run; [|by apply crc_update_word|done|lia]. cbn [mbind option_bind]. rewrite (take_ge d) by lia.
  rewrite <- !crc_update_app, <- E1, take_drop. done.
Qed.

(** ** The accelerated routine *)

Section accelerated.
Context (mm_crc32_u8 mm_crc32_u64 : Z -> Z -> Z).

(** What the processor's manual says of the instructions. *)
Definition instruction_u8 : Prop := forall l b, word32 l -> byte b -> mm_crc32_u8 l b = crc_bits 8 (Z.lxor l b).
Definition instruction_u64 : Prop := forall l w, word32 l -> 0 <= w < 2 ^ 64 -> mm_crc32_u64 l w = crc_bits 64 (Z.lxor l w).

Context (H8 : instruction_u8) (H64 : instruction_u64).

Lemma accel1_run p : forall l, word32 l -> Forall byte p -> accel1 mm_crc32_u8 l p = crc_update l p.
Proof using H8.
  induction p as [|b p IH]; intros l Hl Hp; [done|]. apply Forall_cons in Hp as [Hb Hp]. cbn [accel1]. rewrite H8 by done.
  pose proof (crc_byte_word l b Hl Hb) as Hw. rewrite u32_small by exact Hw. by apply IH.
Qed.

Lemma u64_run l p : word32 l -> Forall byte p -> (8 <= length p)%nat ->
  exists w, DecodeFixed64 true p = Some w /\ mm_crc32_u64 l w = crc_update l (take 8 p).
Proof using H64.
  intros Hl Hp Hlen. destruct p as [|b0 [|b1 [|b2 [|b3 [|b4 [|b5 [|b6 [|b7 p]]]]]]]]; cbn in Hlen; try lia.
  exists (le_value [b0; b1; b2; b3; b4; b5; b6; b7]). split; [done|]. assert (Forall byte [b0; b1; b2; b3; b4; b5; b6; b7]) as Hb.
  { change [b0; b1; b2; b3; b4; b5; b6; b7] with (take 8 (b0 :: b1 :: b2 :: b3 :: b4 :: b5 :: b6 :: b7 :: p)). by apply Forall_take. }
  rewrite H64; [|done|exact (le_value_word _ Hb)]. cbn [take]. by rewrite crc_update_word_at.
Qed.

Lemma accel16_run fuel : forall l p, word32 l -> Forall byte p -> (length p < fuel)%nat -> consumed l p (accel16 mm_crc32_u64 fuel l p) 16.
Proof using H64.
  induction fuel as [|fuel IH]; intros l p Hl Hp Hf; [lia|]. cbn [accel16]. destruct (Nat.leb_spec 16 (length p)) as [H16|H16]; [|by exists [], p].
  destruct (u64_run l p Hl Hp ltac:(lia)) as (w0 & -> & E0). cbn [mbind option_bind].
  assert (word32 (crc_update l (take 8 p))) as W1 by (apply crc_update_word; [done|by apply Forall_take]).
  destruct (u64_run (crc_update l (take 8 p)) (drop 8 p) W1) as (w1 & -> & E1); [by apply Forall_drop|rewrite length_drop; lia|]. cbn [mbind option_bind].
  rewrite E0, E1, <- crc_update_app, take_take_drop. cbn [Nat.add]. rewrite <- (take_drop 16 p) at 1. apply consumed_step.
  apply IH; [apply crc_update_word; [done|by apply Forall_take]|by apply Forall_drop|rewrite length_drop; lia].
Qed.

Lemma AcceleratedExtend_run crc pval buf : word32 crc -> Forall byte buf ->
  AcceleratedExtend mm_crc32_u8 mm_crc32_u64 crc pval buf = Some (crc32c crc buf).
Proof using H8 H64.
  intros Hc Hb. unfold AcceleratedExtend, crc32c. set (l := Z.lxor crc 0xffffffff). assert (word32 l) as Hl by (apply lxor_word; [done|unfold word32; lia]).
  set (n := unaligned 3 pval _). rewrite accel1_run by (done || by apply Forall_take).
  assert (word32 (crc_update l (take n buf)) /\ Forall byte (drop n buf)) as [H1 B1] by (split; [apply crc_update_word; [done|by apply Forall_take]|by apply Forall_drop]).
  destruct (accel16_run (S (length buf)) _ _ H1 B1) as (a & b & E1 & _ & ->); [rewrite length_drop; lia|]. cbn [mbind option_bind].
  rewrite E1 in B1. apply Forall_app in B1 as [Ba Bb]. pose proof (crc_update_word a _ H1 Ba) as H2.
  rewrite u32_small by exact H2. rewrite accel1_run by done. rewrite <- !crc_update_app, <- E1, take_drop. done.
Qed.

Lemma Extend_run le acc crc pval buf : word32 crc -> Forall byte buf -> Extend le acc mm_crc32_u8 mm_crc32_u64 crc pval buf = Some (crc32c crc buf).
Proof using H8 H64. intros Hc Hb. unfold Extend. destruct acc; [by apply AcceleratedExtend_run|by apply ExtendPortable_run]. Qed.

End accelerated.

(** ** Masking *)

(** A rotation of 32 bits, both ways. *)
Lemma rotate_back a b x : 0 <= a -> 0 <= b -> a + b = 32 -> word32 x ->
  let rot := Z.lor (Z.shiftr x a) (u32 (Z.shiftl x b)) in word32 rot /\ Z.lor (Z.shiftr rot b) (u32 (Z.shiftl rot a)) = x.
Proof.
  intros Ha Hb Hab Hx rot. assert (forall n, 0 <= n -> Z.testbit x n = true -> n < 32) as Htop.
  { intros n Hn Ht. destruct (Z.lt_ge_cases n 32); [done|]. unfold word32 in Hx. rewrite Z.bits_above_log2 in Ht; [done|lia|].
    destruct (Z.eq_dec x 0) as [->|]; [cbn; lia|]. apply Z.log2_lt_pow2; [lia|]. eapply Z.lt_le_trans; [apply Hx|]. apply Z.pow_le_mono_r; lia. }
  assert (forall y n, 0 <= n -> Z.testbit (u32 y) n = (n <? 32) && Z.testbit y n) as Hu.
  { intros y n Hn. unfold u32. destruct (Z.ltb_spec n 32); [by rewrite Z.mod_pow2_bits_low by lia|by rewrite Z.mod_pow2_bits_high by lia]. }
  assert (forall n, 0 <= n -> Z.testbit rot n = (n <? 32) && if n <? b then Z.testbit x (n + a) else Z.testbit x (n - b)) as Hrot.
  { intros n Hn. unfold rot. rewrite Z.lor_spec, Z.shiftr_spec, Hu by lia. destruct (Z.ltb_spec n 32) as [H32|H32]; cbn [andb].
    - destruct (Z.ltb_spec n b); [rewrite Z.shiftl_spec_low by lia; apply orb_false_r|]. rewrite Z.shiftl_spec_high by lia.
      destruct (Z.testbit x (n + a)) eqn:E; [apply Htop in E; lia|done].
    - rewrite orb_false_r. destruct (Z.testbit x (n + a)) eqn:E; [apply Htop in E; lia|done]. }
  assert (0 <= rot) as H0. { unfold rot. rewrite Z.lor_nonneg, Z.shiftr_nonneg. pose proof (u32_range (Z.shiftl x b)). unfold word32 in Hx. lia. }
  split.
  - split; [done|]. destruct (Z.eq_dec rot 0) as [->|]; [lia|]. apply Z.log2_lt_pow2; [lia|]. apply Z.nle_gt. intros Hge.
    pose proof (Z.bit_log2 rot ltac:(lia)) as Ht. rewrite Hrot in Ht by lia. rewrite (proj2 (Z.ltb_ge _ 32)) in Ht by lia. done.
  - apply Z.bits_inj'. intros n Hn. rewrite Z.lor_spec, Z.shiftr_spec, Hu, Hrot by lia.
    destruct (Z.ltb_spec n 32) as [H32|H32]; cbn [andb].
    + destruct (Z.ltb_spec n a).
      * rewrite Z.shiftl_spec_low, orb_false_r by lia. rewrite (proj2 (Z.ltb_lt (n + b) 32)), (proj2 (Z.ltb_ge (n + b) b)) by lia. cbn [andb]. f_equal. lia.
      * rewrite Z.shiftl_spec_high, Hrot by lia. rewrite (proj2 (Z.ltb_ge (n + b) 32)), (proj2 (Z.ltb_lt (n - a) 32)), (proj2 (Z.ltb_lt (n - a) b)) by lia.
        cbn [andb orb]. f_equal. lia.
    + rewrite (proj2 (Z.ltb_ge (n + b) 32)) by lia. cbn. destruct (Z.testbit x n) eqn:E; [apply Htop in E; lia|done].
Qed.

Lemma Unmask_Mask crc : word32 crc -> word32 (Mask crc) /\ Unmask (Mask crc) = crc.
Proof.
  intros Hc. split; [apply u32_range|]. unfold Unmask, Mask. destruct (rotate_back 15 17 crc ltac:(lia) ltac:(lia) ltac:(lia) Hc) as [Hr E].
  set (rot := Z.lor (Z.shiftr crc 15) (u32 (Z.shiftl crc 17))) in *. replace (u32 (u32 (rot + kMaskDelta) - kMaskDelta)) with rot; [exact E|].
  unfold u32. rewrite Zminus_mod_idemp_l, Z.add_simpl_r, Z.mod_small; [done|exact Hr].
Qed.

Lemma crc32c_word crc bs : word32 crc -> Forall byte bs -> word32 (crc32c crc bs).
Proof. intros Hc Hb. apply lxor_word; [|unfold word32; lia]. apply crc_update_word; [apply lxor_word; [done|unfold word32; lia]|done]. Qed.

Lemma crc32c_app crc a b : crc32c (crc32c crc a) b = crc32c crc (a ++ b).
Proof. unfold crc32c. rewrite Z.lxor_assoc, Z.lxor_nilpotent, Z.lxor_0_r. by rewrite crc_update_app. Qed.

(** ** Errors that the check detects *)

(** The polynomial has its top bit: no information is lost. *)
Lemma crc_bit_zero x : word32 x -> crc_bit x = 0 -> x = 0.
Proof.
  unfold word32, crc_bit. intros Hx. assert (0 <= Z.shiftr x 1 < 2 ^ 31) as Hs.
  { rewrite Z.shiftr_div_pow2 by lia. split; [apply Z.div_pos; lia|apply Z.div_lt_upper_bound; lia]. }
  destruct (Z.odd x) eqn:Eo; intros E.
  - apply Z.lxor_eq in E. unfold polynomial in E. lia.
  - rewrite Z.shiftr_div_pow2 in E by lia. change (2 ^ 1) with 2 in E. rewrite <- Z.div2_div in E. rewrite (Z.div2_odd x), Eo, E. done.
Qed.

Lemma crc_bits_zero n x : word32 x -> crc_bits n x = 0 -> x = 0.
Proof. intros Hx. induction n as [|n IH]; [done|]. cbn [crc_bits]. intros E. apply IH. by apply crc_bit_zero; [apply crc_bits_word|]. Qed.

Lemma crc_bits_inj n x y : word32 x -> word32 y -> crc_bits n x = crc_bits n y -> x = y.
Proof.
  intros Hx Hy E. apply Z.lxor_eq. apply (crc_bits_zero n); [by apply lxor_word|]. by rewrite crc_bits_lxor, E, Z.lxor_nilpotent.
Qed.

Lemma crc_update_inj bs : forall x y, word32 x -> word32 y -> Forall byte bs -> crc_update x bs = crc_update y bs -> x = y.
Proof.
  induction bs as [|b bs IH]; intros x y Hx Hy Hb E; [done|]. apply Forall_cons in Hb as [Hb Hbs]. cbn [crc_update foldl] in E. change (crc_update (crc_byte x b) bs = crc_update (crc_byte y b) bs) in E.
  apply IH in E; [|by apply crc_byte_word..|done]. unfold crc_byte in E. apply crc_bits_inj in E; [|auto with machine..].
  apply (f_equal (fun z => Z.lxor z b)) in E. by rewrite !Z.lxor_assoc, Z.lxor_nilpotent, !Z.lxor_0_r in E.
Qed.

Lemma le_value_inj a : forall b, length a = length b -> Forall byte a -> Forall byte b -> le_value a = le_value b -> a = b.
Proof.
  induction a as [|x a IH]; intros [|y b] El Ha Hb E; try done. apply Forall_cons in Ha as [Hx Ha], Hb as [Hy Hb]. cbn [le_value] in E. unfold byte in *.
  injection El as El. assert (x = y) as -> by lia. f_equal. apply IH; [done..|lia].
Qed.

(** Two strings that differ inside four consecutive bytes have different checksums. *)
Lemma crc_burst crc a w w' z :
  word32 crc -> Forall byte (a ++ w ++ z) -> Forall byte w' -> length w = length w' -> (length w <= 4)%nat -> w <> w' ->
  crc32c crc (a ++ w ++ z) <> crc32c crc (a ++ w' ++ z).
Proof.
  intros Hc Hb Hw' El Hlen Hne E. apply Forall_app in Hb as [Ha Hb]. apply Forall_app in Hb as [Hw Hz].
  unfold crc32c in E. apply (f_equal (fun v => Z.lxor v 0xffffffff)) in E. rewrite !Z.lxor_assoc, Z.lxor_nilpotent, !Z.lxor_0_r in E.
  set (l := Z.lxor crc 0xffffffff) in *. assert (word32 l) as Hl by (apply lxor_word; [done|unfold word32; lia]). rewrite !crc_update_app in E.
  pose proof (crc_update_word a l Hl Ha) as Hla. apply crc_update_inj in E; [|by apply crc_update_word..|done].
  rewrite (crc_update_word_at w), (crc_update_word_at w'), <- El in E by done.
  assert (forall v, Forall byte v -> (length v <= 4)%nat -> word32 (le_value v)) as Hv.
  { intros v Hv H4. pose proof (le_value_word v Hv) as Hr. unfold word32. split; [lia|]. eapply Z.lt_le_trans; [apply Hr|]. change (2 ^ 32) with (256 ^ 4). apply Z.pow_le_mono_r; lia. }
  apply crc_bits_inj in E; [|apply lxor_word; [done|apply Hv; [done|lia]]..].
  apply (f_equal (Z.lxor (crc_update l a))) in E. rewrite <- !Z.lxor_assoc, Z.lxor_nilpotent, !Z.lxor_0_l in E. by apply le_value_inj in E.
Qed.

Lemma Mask_Unmask x : word32 x -> word32 (Unmask x) /\ Mask (Unmask x) = x.
Proof.
  intros Hx. unfold Unmask, Mask. pose proof (u32_range (x - kMaskDelta)) as Hr. destruct (rotate_back 17 15 (u32 (x - kMaskDelta)) ltac:(lia) ltac:(lia) ltac:(lia) Hr) as [Hw ->].
  split; [exact Hw|]. unfold u32. rewrite Zplus_mod_idemp_l, Z.sub_add, Z.mod_small; [done|exact Hx].
Qed.

(** ** The theorems *)

(** Instructions that do what the manual says. *)
Definition crc32_u8 (l b : Z) : Z := crc_bits 8 (Z.lxor l b).
Definition crc32_u64 (l w : Z) : Z := crc_bits 64 (Z.lxor l w).

Lemma crc32_u8_instruction : instruction_u8 crc32_u8.
Proof. done. Qed.

Lemma crc32_u64_instruction : instruction_u64 crc32_u64.
Proof. done. Qed.

(** Equivalence. Extending a checksum, by the table-driven routine or by the processor's
    instructions, on a host of either byte order and for a buffer at any address, gives the
    CRC-32C of the bytes as it is defined one bit at a time; extending in two steps gives the
    checksum of the concatenation; and masking, as done for stored checksums, loses nothing. *)
Lemma crc32c_extend (mm8 mm64 : Z -> Z -> Z) : instruction_u8 mm8 -> instruction_u64 mm64 ->
  forall le acc crc pval pval' a b, word32 crc -> Forall byte a -> Forall byte b ->
    Extend le acc mm8 mm64 crc pval a = Some (crc32c crc a)
    /\ (v ← Extend le acc mm8 mm64 crc pval a; Extend le acc mm8 mm64 v pval' b) = Extend le acc mm8 mm64 crc pval (a ++ b)
    /\ word32 (crc32c crc a) /\ word32 (Mask crc) /\ Unmask (Mask crc) = crc /\ Mask (Unmask crc) = crc.
Proof.
  intros H8 H64 le acc crc pval pval' a b Hc Ha Hb. pose proof (crc32c_word crc a Hc Ha) as Hw.
  rewrite !(Extend_run mm8 mm64 H8 H64) by (done || by apply Forall_app). cbn [mbind option_bind].
  rewrite (Extend_run mm8 mm64 H8 H64), crc32c_app by done. destruct (Unmask_Mask _ Hc), (Mask_Unmask _ Hc). done.
Qed.


(** Error detection. Two byte strings of the same length that differ, but only inside four
    consecutive bytes, have different checksums, and different masked checksums. *)
Lemma crc32c_detects_bursts (mm8 mm64 : Z -> Z -> Z) : instruction_u8 mm8 -> instruction_u64 mm64 ->
  forall le acc pval pval' a w w' z, Forall byte (a ++ w ++ z) -> Forall byte w' -> length w = length w' -> (length w <= 4)%nat -> w <> w' ->
  exists v v', Crc32c.Value le acc mm8 mm64 pval (a ++ w ++ z) = Some v /\ Crc32c.Value le acc mm8 mm64 pval' (a ++ w' ++ z) = Some v'
    /\ v <> v' /\ Mask v <> Mask v'.
Proof.
  intros H8 H64 le acc pval pval' a w w' z Hb Hw' El H4 Hne. assert (word32 0) as H0 by (unfold word32; lia).
  assert (Forall byte (a ++ w' ++ z)) as Hb'. { revert Hb. rewrite !Forall_app. tauto. }
  pose proof (crc_burst 0 a w w' z H0 Hb Hw' El H4 Hne) as Hdiff. exists (crc32c 0 (a ++ w ++ z)), (crc32c 0 (a ++ w' ++ z)).
  unfold Crc32c.Value. rewrite !(Extend_run mm8 mm64 H8 H64) by done. split_and!; try done. intros E. apply Hdiff.
  rewrite <- (proj2 (Unmask_Mask _ (crc32c_word 0 _ H0 Hb))), E. by apply Unmask_Mask, crc32c_word.
Qed.

(** C27: equivalence and error detection.  Extending a checksum, by the table-driven routine or by
    the processor's instructions, on a host of either byte order and for a buffer at any address,
    is division by the CRC-32C polynomial; extending piece by piece is extending at once; masking
    can be undone.  Two byte strings of the same length that differ, but only inside four
    consecutive bytes, have different checksums, and different masked checksums. *)
Theorem crc32c_extend_and_detect (mm8 mm64 : Z -> Z -> Z) : instruction_u8 mm8 -> instruction_u64 mm64 ->
  (forall le acc crc pval pval' a b, word32 crc -> Forall byte a -> Forall byte b ->
    Extend le acc mm8 mm64 crc pval a = Some (crc32c crc a)
    /\ (v ← Extend le acc mm8 mm64 crc pval a; Extend le acc mm8 mm64 v pval' b) = Extend le acc mm8 mm64 crc pval (a ++ b)
    /\ word32 (crc32c crc a) /\ word32 (Mask crc) /\ Unmask (Mask crc) = crc /\ Mask (Unmask crc) = crc)
  /\ (forall le acc pval pval' a w w' z, Forall byte (a ++ w ++ z) -> Forall byte w' -> length w = length w' -> (length w <= 4)%nat -> w <> w' ->
  exists v v', Crc32c.Value le acc mm8 mm64 pval (a ++ w ++ z) = Some v /\ Crc32c.Value le acc mm8 mm64 pval' (a ++ w' ++ z) = Some v'
    /\ v <> v' /\ Mask v <> Mask v').
Proof. intros H8 H64. split; [exact (crc32c_extend mm8 mm64 H8 H64)|exact (crc32c_detects_bursts mm8 mm64 H8 H64)]. Qed.

Lemma crc32c_extend_and_detect_witness :
  (Extend true false crc32_u8 crc32_u64 0 3 [49; 50; 51; 52; 53; 54; 55; 56; 57] = Some 0xe3069283
  /\ Extend false true crc32_u8 crc32_u64 0 3 [49; 50; 51; 52; 53; 54; 55; 56; 57] = Some 0xe3069283)
  /\ (exists v v', Crc32c.Value true false crc32_u8 crc32_u64 0 ([7] ++ [1; 2; 3; 4] ++ [9]) = Some v
    /\ Crc32c.Value true false crc32_u8 crc32_u64 0 ([7] ++ [1; 0; 3; 255] ++ [9]) = Some v' /\ v <> v' /\ Mask v <> Mask v').
Proof.
  split.
  { assert (Forall byte [49; 50; 51; 52; 53; 54; 55; 56; 57]) as Hb by (repeat constructor; lia).
  assert (word32 0) as H0 by (unfold word32; lia).
  split.
  - etransitivity; [apply (proj1 (crc32c_extend_and_detect _ _ crc32_u8_instruction crc32_u64_instruction) true false 0 3 3 _ [] H0 Hb); constructor|vm_compute; reflexivity].
  - etransitivity; [apply (proj1 (crc32c_extend_and_detect _ _ crc32_u8_instruction crc32_u64_instruction) false true 0 3 3 _ [] H0 Hb); constructor|vm_compute; reflexivity]. }
  { apply (proj2 (crc32c_extend_and_detect _ _ crc32_u8_instruction crc32_u64_instruction) true false 0 0 [7] [1; 2; 3; 4] [1; 0; 3; 255] [9]);
    [repeat constructor; lia|repeat constructor; lia|reflexivity|cbn; lia|discriminate]. }
Defined.
