(* ===== verification/InputStream.v ===== *)
(** * Input streams: the model

    [core/lib/io/inputstream_interface.h]: the interface of input streams and what it
    promises; [random_inputstream.cc], a stream over a file; [buffered_inputstream.cc], a
    stream with a buffer over another stream.  The file ([RandomAccessFile]) is an interface of
    the platform: a function with its documented behaviour. *)

From S2P Require Import Prelude.

#[local] Open Scope runtime_scope.

Definition IsOutOfRange (s : Status) : bool := match s with Err OUT_OF_RANGE => true | _ => false end.

(** ** The interface

    [ReadNBytes n result] returns the status and the new value of [*result]. *)

Class InputStreamInterface (S : Type) := {
  ReadNBytes : Z -> list Z -> M S (Status * list Z);
  SkipNBytes : Z -> M S Status;
  Tell : S -> Z;
  Reset : M S Status
}.

(** The bytes of a range, as far as they exist. *)
Definition slice (content : list Z) (p n : Z) : list Z := take (Z.to_nat n) (drop (Z.to_nat p) content).

(** What the interface promises of a stream over the bytes [content]: reading and skipping
    stop at the end of the file, report [OUT_OF_RANGE] when there was not enough, and [Tell]
    is the offset of the next byte. *)
Class StreamOf (S : Type) `{InputStreamInterface S} (content : list Z) := {
  stream_inv : S -> Prop;
  position : S -> Z;
  position_range : forall s, stream_inv s -> 0 <= position s <= Z.of_nat (length content);
  read_spec : forall s n r, stream_inv s -> 0 <= n -> ReadNBytes n r @ s ⇓ fun '(st, out) s' =>
    stream_inv s' /\ out = slice content (position s) n /\ position s' = position s + Z.of_nat (length out)
    /\ st = (if Z.of_nat (length out) =? n then OK else Err OUT_OF_RANGE);
  read_negative : forall s n r, stream_inv s -> n < 0 -> ReadNBytes n r s = Val ((Err INVALID_ARGUMENT, r), s);
  skip_spec : forall s n, stream_inv s -> 0 <= n -> position s + n < 2 ^ 63 -> SkipNBytes n @ s ⇓ fun st s' =>
    stream_inv s' /\ position s' = Z.min (position s + n) (Z.of_nat (length content))
    /\ st = (if position s + n <=? Z.of_nat (length content) then OK else Err OUT_OF_RANGE);
  skip_negative : forall s n, stream_inv s -> n < 0 -> SkipNBytes n s = Val (Err INVALID_ARGUMENT, s);
  tell_spec : forall s, stream_inv s -> Tell s = position s;
  reset_spec : forall s, stream_inv s -> Reset @ s ⇓ fun st s' => stream_inv s' /\ position s' = 0 /\ st = OK
}.

(** ** A stream over a file *)

Definition kMaxSkipSize : Z := 8 * 1024 * 1024.

Module RandomAccess.

Section random.
(** [RandomAccessFile::Read offset n]: the status and the bytes. *)
Context (file_Read : Z -> Z -> Status * list Z).

Record RandomAccessInputStream := mkRandom { pos_ : Z }.

Definition RandomAccessInputStream_new : RandomAccessInputStream := mkRandom 0.

Definition ReadNBytes (bytes_to_read : Z) (result : list Z) : M RandomAccessInputStream (Status * list Z) :=
  if bytes_to_read <? 0 then mret (Err INVALID_ARGUMENT, result)
  else
    s ← get;
    let '(st, data) := file_Read (pos_ s) bytes_to_read in
    (if ok st || IsOutOfRange st then put (mkRandom (pos_ s + Z.of_nat (length data))) else mret tt);;
    mret (st, data).

(** The loop that reads and drops at most 8 MB at a time. *)
Fixpoint SkipNBytes_loop (fuel : nat) (bytes_to_skip : Z) : M RandomAccessInputStream Status :=
  match fuel with
  | O => nofuel
  | S fuel =>
      if 0 <? bytes_to_skip then
        let bytes_to_read := Z.min kMaxSkipSize bytes_to_skip in
        s ← get;
        let '(st, data) := file_Read (pos_ s) bytes_to_read in
        if ok st || IsOutOfRange st then
          put (mkRandom (pos_ s + Z.of_nat (length data)));;
          if Z.of_nat (length data) <? bytes_to_read then mret (Err OUT_OF_RANGE)
          else SkipNBytes_loop fuel (bytes_to_skip - bytes_to_read)
        else mret st
      else mret OK
  end.

(** Signed overflow of the probed position is undefined behaviour. *)
Definition SkipNBytes (bytes_to_skip : Z) : M RandomAccessInputStream Status :=
  if bytes_to_skip <? 0 then mret (Err INVALID_ARGUMENT)
  else
    s ← get;
    CHECK (pos_ s + bytes_to_skip <? 2 ^ 63);;
    let '(st, data) := if 0 <? bytes_to_skip then file_Read (pos_ s + bytes_to_skip - 1) 1 else (Err UNKNOWN, []) in
    if (0 <? bytes_to_skip) && (ok st || IsOutOfRange st) && (length data =? 1)%nat then
      put (mkRandom (pos_ s + bytes_to_skip));;
      mret OK
    else SkipNBytes_loop (S (Z.to_nat (bytes_to_skip / kMaxSkipSize + 1))) bytes_to_skip.

Definition Tell (s : RandomAccessInputStream) : Z := pos_ s.

Definition Seek (position : Z) : M RandomAccessInputStream Status := put (mkRandom position);; mret OK.

Definition Reset : M RandomAccessInputStream Status := Seek 0.

#[local] Instance RandomAccess_stream : InputStreamInterface RandomAccessInputStream :=
  { InputStream.ReadNBytes := ReadNBytes; InputStream.SkipNBytes := SkipNBytes; InputStream.Tell := Tell; InputStream.Reset := Reset }.

End random.
End RandomAccess.

(** ** The default implementation of skipping *)

Section default.
Context {S : Type} `{InputStreamInterface S}.

Fixpoint DefaultSkip_loop (fuel : nat) (unused : list Z) (bytes_to_skip : Z) : M S Status :=
  match fuel with
  | O => nofuel
  | Datatypes.S fuel =>
      if 0 <? bytes_to_skip then
        let bytes_to_read := Z.min kMaxSkipSize bytes_to_skip in
        '(st, unused) ← ReadNBytes bytes_to_read unused;
        if ok st then DefaultSkip_loop fuel unused (bytes_to_skip - bytes_to_read) else mret st
      else mret OK
  end.

Definition DefaultSkipNBytes (bytes_to_skip : Z) : M S Status :=
  if bytes_to_skip <? 0 then mret (Err INVALID_ARGUMENT)
  else DefaultSkip_loop (Datatypes.S (Z.to_nat (bytes_to_skip / kMaxSkipSize + 1))) [] bytes_to_skip.

End default.

(** ** A buffered stream *)

Module Buffered.

Section buffered.
Context {S : Type} `{InputStreamInterface S} (size_ : Z).

Record BufferedInputStream := mkBuffered {
  input_stream_ : S;
  buf_ : list Z;
  pos_ : Z;
  limit_ : Z;
  file_status_ : Status
}.

Abbreviation MB := (M BufferedInputStream).

Definition BufferedInputStream_new (input : S) : BufferedInputStream := mkBuffered input [] 0 0 OK.

(** A call of the underlying stream. *)
Definition on_input {A} (m : M S A) : MB A := fun b =>
  match m (input_stream_ b) with
  | Val (a, s) => Val (a, mkBuffered s (buf_ b) (pos_ b) (limit_ b) (file_status_ b))
  | Crash => Crash
  | NoFuel => NoFuel
  end.

Definition set_buffer (buf : list Z) (pos limit : Z) : MB unit :=
  modify (fun b => mkBuffered (input_stream_ b) buf pos limit (file_status_ b)).
Definition set_window (pos limit : Z) : MB unit :=
  modify (fun b => mkBuffered (input_stream_ b) (buf_ b) pos limit (file_status_ b)).
Definition set_status (st : Status) : MB unit :=
  modify (fun b => mkBuffered (input_stream_ b) (buf_ b) (pos_ b) (limit_ b) st).

Definition FillBuffer : MB Status :=
  b ← get;
  if negb (ok (file_status_ b)) then set_window 0 0;; mret (file_status_ b)
  else
    '(st, buf) ← on_input (ReadNBytes size_ (buf_ b));
    set_buffer buf 0 (Z.of_nat (length buf));;
    (if bool_decide (buf = []) then CHECK (negb (ok st));; set_status st else mret tt);;
    mret st.

(** The loop of [ReadNBytes]: the status of the last fill and the bytes so far. *)
Fixpoint ReadNBytes_loop (fuel : nat) (bytes_to_read : Z) (st : Status) (result : list Z) : MB (Status * list Z) :=
  match fuel with
  | O => nofuel
  | Datatypes.S fuel =>
      if Z.of_nat (length result) <? bytes_to_read then
        b ← get;
        st ← (if pos_ b =? limit_ b then FillBuffer else mret st);
        refilled ← get;
        if (pos_ b =? limit_ b) && (limit_ refilled =? 0) then
          CHECK (negb (ok st));;
          set_status st;;
          mret (st, result)
        else
          let bytes_to_copy := Z.min (limit_ refilled - pos_ refilled) (bytes_to_read - Z.of_nat (length result)) in
          set_window (pos_ refilled + bytes_to_copy) (limit_ refilled);;
          ReadNBytes_loop fuel bytes_to_read st (result ++ slice (buf_ refilled) (pos_ refilled) bytes_to_copy)
      else mret (st, result)
  end.

Definition ReadNBytes (bytes_to_read : Z) (result : list Z) : MB (Status * list Z) :=
  if bytes_to_read <? 0 then mret (Err INVALID_ARGUMENT, result)
  else
    b ← get;
    if negb (ok (file_status_ b)) && (0 <? bytes_to_read) then mret (file_status_ b, [])
    else
      '(st, result) ← ReadNBytes_loop (Datatypes.S (Z.to_nat bytes_to_read)) bytes_to_read OK [];
      if IsOutOfRange st && (Z.of_nat (length result) =? bytes_to_read) then mret (OK, result)
      else mret (st, result).

Definition SkipNBytes (bytes_to_skip : Z) : MB Status :=
  if bytes_to_skip <? 0 then mret (Err INVALID_ARGUMENT)
  else
    b ← get;
    if pos_ b + bytes_to_skip <? limit_ b then
      set_window (pos_ b + bytes_to_skip) (limit_ b);;
      mret OK
    else
      st ← on_input (SkipNBytes (bytes_to_skip - (limit_ b - pos_ b)));
      set_window 0 0;;
      (if IsOutOfRange st then set_status st else mret tt);;
      mret st.

Definition Tell (b : BufferedInputStream) : Z := Tell (input_stream_ b) - (limit_ b - pos_ b).

Definition Reset : MB Status :=
  st ← on_input Reset;
  if ok st then
    set_window 0 0;;
    set_status OK;;
    mret OK
  else mret st.

Definition Seek (position : Z) : MB Status :=
  if position <? 0 then mret (Err INVALID_ARGUMENT)
  else
    b ← get;
    let bufpos := Tell b in
    if position <? bufpos then
      st ← Reset;
      if ok st then SkipNBytes position else mret st
    else SkipNBytes (position - bufpos).

(** The loop of [ReadLineHelper], one byte at a time; [fuel] bounds the length of the line. *)
Fixpoint ReadLine_loop (fuel : nat) (include_eol : bool) (st : Status) (result : list Z) : MB (Status * list Z) :=
  match fuel with
  | O => nofuel
  | Datatypes.S fuel =>
      b ← get;
      st ← (if pos_ b =? limit_ b then FillBuffer else mret st);
      refilled ← get;
      if (pos_ b =? limit_ b) && (limit_ refilled =? 0) then
        if IsOutOfRange st && negb (bool_decide (result = [])) then mret (OK, result) else mret (st, result)
      else
        c ← of_option (buf_ refilled !! Z.to_nat (pos_ refilled));
        set_window (pos_ refilled + 1) (limit_ refilled);;
        if c =? 10 then mret (OK, if include_eol then result ++ [c] else result)
        else ReadLine_loop fuel include_eol st (if c =? 13 then result else result ++ [c])
  end.

Definition ReadLineHelper (fuel : nat) (include_eol : bool) : MB (Status * list Z) := ReadLine_loop fuel include_eol OK [].
Definition ReadLine (fuel : nat) : MB (Status * list Z) := ReadLineHelper fuel false.
Definition ReadLineAsString (fuel : nat) : MB (list Z) := '(_, result) ← ReadLineHelper fuel true; mret result.

Fixpoint ReadAll_loop (fuel : nat) (status : Status) (result : list Z) : MB (Status * list Z) :=
  match fuel with
  | O => nofuel
  | Datatypes.S fuel =>
      if ok status then
        status ← FillBuffer;
        b ← get;
        if limit_ b =? 0 then mret (status, result)
        else
          set_window (limit_ b) (limit_ b);;
          ReadAll_loop fuel status (result ++ buf_ b)
      else mret (status, result)
  end.

Definition ReadAll (fuel : nat) : MB (Status * list Z) :=
  '(status, result) ← ReadAll_loop fuel OK [];
  if IsOutOfRange status then set_status status;; mret (OK, result) else mret (status, result).

#[local] Instance Buffered_stream : InputStreamInterface BufferedInputStream :=
  { InputStream.ReadNBytes := ReadNBytes; InputStream.SkipNBytes := SkipNBytes; InputStream.Tell := Tell; InputStream.Reset := Reset }.

End buffered.
End Buffered.
