(* ===== verification/InputStreamProofs.v ===== *)
(** * Input streams: the implementations keep the promise of the interface *)

From S2P Require Import Prelude InputStream.

#[local] Open Scope runtime_scope.

(** ** Slices *)

Section slices.
Context (content : list Z).
Abbreviation len := (Z.of_nat (length content)).

Lemma slice_length p n : 0 <= p <= len -> 0 <= n -> Z.of_nat (length (slice content p n)) = Z.min n (len - p).
Proof using Type. clear. intros Hp Hn. unfold slice. rewrite length_take, length_drop. lia. Qed.

Lemma slice_enough p n : 0 <= p <= len -> 0 <= n -> (Z.of_nat (length (slice content p n)) =? n) = (p + n <=? len).
Proof using Type.
  clear. intros Hp Hn. rewrite slice_length by done. destruct (Z.leb_spec (p + n) len); [apply Z.eqb_eq|apply Z.eqb_neq]; lia.
Qed.

Lemma slice_app p n m : 0 <= p -> 0 <= n -> 0 <= m -> slice content p (n + m) = slice content p n ++ slice content (p + n) m.
Proof using Type.
  clear. intros Hp Hn Hm. unfold slice. rewrite !Z2Nat.inj_add by lia. rewrite <- drop_drop, <- take_take_drop. done.
Qed.

Lemma slice_0 p : slice content p 0 = [].
Proof using Type. done. Qed.

Lemma slice_end n : slice content len n = [].
Proof using Type. unfold slice. rewrite Nat2Z.id, drop_all. by rewrite take_nil. Qed.

(** A slice of a slice. *)
Lemma slice_slice p n q m : 0 <= p -> 0 <= q -> 0 <= m -> q + m <= n -> slice (slice content p n) q m = slice content (p + q) m.
Proof using Type.
  clear. intros Hp Hq Hm Hle. unfold slice. rewrite Z2Nat.inj_add, <- drop_drop by lia. rewrite skipn_firstn_comm, take_take.
  f_equal. lia.
Qed.

Lemma slice_past p n : 0 <= p -> len <= p + n -> slice content p n = drop (Z.to_nat p) content.
Proof using Type. clear. intros Hp Hn. unfold slice. apply take_ge. rewrite length_drop. lia. Qed.

End slices.

(** Success and the end of the file are the two results of a read. *)
Lemma eof_ok (b : bool) : ok (if b then OK else Err OUT_OF_RANGE) || IsOutOfRange (if b then OK else Err OUT_OF_RANGE) = true.
Proof. by destruct b. Qed.

(** ** The stream over a file *)

(** The documented behaviour of [RandomAccessFile::Read]: [n] bytes and OK, or fewer and
    [OUT_OF_RANGE] at the end of the file. *)
Definition file_of (content : list Z) (file_Read : Z -> Z -> Status * list Z) : Prop :=
  forall offset n, 0 <= offset -> 0 <= n -> file_Read offset n =
    (if Z.of_nat (length (slice content offset n)) =? n then OK else Err OUT_OF_RANGE, slice content offset n).

Section random.
Import RandomAccess.
Context (content : list Z) (file_Read : Z -> Z -> Status * list Z) (Hfile : file_of content file_Read).
Abbreviation len := (Z.of_nat (length content)).

Definition random_inv (s : RandomAccessInputStream) : Prop := 0 <= pos_ s <= len.

Lemma random_read s n r : random_inv s -> 0 <= n -> ReadNBytes file_Read n r @ s ⇓ fun '(st, out) s' =>
  random_inv s' /\ out = slice content (pos_ s) n /\ pos_ s' = pos_ s + Z.of_nat (length out)
  /\ st = (if Z.of_nat (length out) =? n then OK else Err OUT_OF_RANGE).
Proof using Hfile.
  intros Hi Hn. unfold random_inv in *. unfold ReadNBytes. rewrite (proj2 (Z.ltb_ge n 0)) by lia. wp_steps. rewrite Hfile by lia.
  pose proof (slice_length content (pos_ s) n Hi Hn). rewrite eof_ok. wp_steps. cbn [pos_]. split_and!; try done; lia.
Qed.

Lemma random_skip_loop fuel : forall n s,
  random_inv s -> 0 <= n -> len < pos_ s + n -> n < Z.of_nat fuel * kMaxSkipSize ->
  SkipNBytes_loop file_Read fuel n @ s ⇓ fun st s' => pos_ s' = len /\ st = Err OUT_OF_RANGE.
Proof using Hfile.
  induction fuel as [|fuel IH]; intros n s Hi Hn Hpast Hf; [lia|]. unfold random_inv in *. cbn [SkipNBytes_loop].
  rewrite (proj2 (Z.ltb_lt 0 n)) by lia. wp_steps. set (m := Z.min kMaxSkipSize n). assert (0 < m <= kMaxSkipSize) by (unfold m, kMaxSkipSize; lia). rewrite Hfile by lia.
  pose proof (slice_length content (pos_ s) m Hi ltac:(lia)) as Hl. rewrite eof_ok. wp_steps.
  destruct (Z.ltb_spec (Z.of_nat (length (slice content (pos_ s) m))) m).
  - wp_steps. cbn [pos_]. split; [lia|done].
  - apply IH; cbn [pos_]; unfold m, kMaxSkipSize in *; lia.
Qed.

Lemma random_skip s n : random_inv s -> 0 <= n -> pos_ s + n < 2 ^ 63 -> SkipNBytes file_Read n @ s ⇓ fun st s' =>
  random_inv s' /\ pos_ s' = Z.min (pos_ s + n) len /\ st = (if pos_ s + n <=? len then OK else Err OUT_OF_RANGE).
Proof using Hfile.
  intros Hi Hn Hmax. pose proof Hi as Hi'. unfold random_inv in *. unfold SkipNBytes. rewrite (proj2 (Z.ltb_ge n 0)) by lia. wp_steps. apply wp_CHECK; [by apply Z.ltb_lt|].
  destruct (Z.ltb_spec 0 n) as [H0|H0]; cbn [andb].
  - rewrite Hfile by lia. rewrite eof_ok. cbn [andb].
    destruct (Z.leb_spec (pos_ s + n) len) as [Hin|Hout].
    + pose proof (slice_length content (pos_ s + n - 1) 1 ltac:(lia) ltac:(lia)) as Hl. rewrite (proj2 (Nat.eqb_eq _ 1)) by lia. wp_steps. cbn [pos_]. split_and!; done || lia.
    + rewrite (proj2 (Nat.eqb_neq _ 1)); [|unfold slice; rewrite length_take, length_drop; lia].
      eapply wp_mono; [apply (random_skip_loop _ n s Hi' Hn Hout)|].
      * pose proof (Z.mul_succ_div_gt n kMaxSkipSize ltac:(done)). pose proof (Z.div_pos n kMaxSkipSize Hn ltac:(done)). unfold kMaxSkipSize in *. lia.
      * cbn beta. intros st s' [E ->]. split_and!; done || lia.
  - assert (n = 0) as -> by lia. rewrite (proj2 (Z.leb_le (pos_ s + 0) len)) by lia. cbn. split_and!; done || lia.
Qed.

(** The stream over a file keeps the promise. *)
Definition random_stream_of : @StreamOf RandomAccessInputStream (RandomAccess_stream file_Read) content.
Proof using Hfile.
  refine (@Build_StreamOf _ (RandomAccess_stream file_Read) content random_inv pos_ _ _ _ _ _ _ _).
  - done.
  - exact random_read.
  - intros s n r _ Hn. cbn. unfold ReadNBytes. by rewrite (proj2 (Z.ltb_lt n 0)).
  - exact random_skip.
  - intros s n _ Hn. cbn. unfold SkipNBytes. by rewrite (proj2 (Z.ltb_lt n 0)).
  - done.
  - intros s _. cbn. unfold Reset, Seek, random_inv. wp_steps. cbn. split_and!; done || lia.
Defined.

End random.

(** ** The default skip *)

Section default.
Context {St : Type} `{Hstream : StreamOf St content}.
Abbreviation len := (Z.of_nat (length content)).

Lemma default_skip_loop fuel : forall r n s,
  stream_inv s -> 0 <= n -> n <= (Z.of_nat fuel - 1) * kMaxSkipSize ->
  DefaultSkip_loop fuel r n @ s ⇓ fun st s' =>
    stream_inv s' /\ position s' = Z.min (position s + n) len /\ st = (if position s + n <=? len then OK else Err OUT_OF_RANGE).
Proof using Type.
  induction fuel as [|fuel IH]; intros r n s Hi Hn Hf; [unfold kMaxSkipSize in Hf; lia|]. pose proof (position_range s Hi) as Hp. cbn [DefaultSkip_loop].
  destruct (Z.ltb_spec 0 n) as [H0|H0]; cycle 1.
  { assert (n = 0) as -> by lia. rewrite (proj2 (Z.leb_le (position s + 0) len)) by lia. wp_steps. split_and!; done || lia. }
  wp_steps. set (m := Z.min kMaxSkipSize n). assert (0 < m <= kMaxSkipSize) by (unfold m, kMaxSkipSize; lia).
  eapply wp_mono; [apply read_spec; [done|lia]|]. cbn beta. intros [st out] s' (Hi' & -> & Ep & ->). rewrite slice_length in Ep by lia.
  rewrite slice_enough by lia. destruct (Z.leb_spec (position s + m) len).
  - cbn [ok]. eapply wp_mono; [apply IH; [done|unfold m in *; lia|unfold m, kMaxSkipSize in *; lia]|]. cbn beta. intros st s2 (? & E2 & ->).
    rewrite E2, Ep. split_and!; [done|lia|]. replace (position s + Z.min m (len - position s) + (n - m)) with (position s + n) by lia. done.
  - cbn [ok]. wp_steps. rewrite (proj2 (Z.leb_gt (position s + n) len)) by (unfold m in *; lia). split_and!; [done|unfold m in *; lia|done].
Qed.

(** Skipping by reading keeps the promise too. *)
Lemma default_skip s n : stream_inv s -> 0 <= n -> DefaultSkipNBytes n @ s ⇓ fun st s' =>
  stream_inv s' /\ position s' = Z.min (position s + n) len /\ st = (if position s + n <=? len then OK else Err OUT_OF_RANGE).
Proof using Type.
  intros Hi Hn. unfold DefaultSkipNBytes. rewrite (proj2 (Z.ltb_ge n 0)) by lia. apply default_skip_loop; [done|done|].
  pose proof (Z.mul_succ_div_gt n kMaxSkipSize ltac:(done)). pose proof (Z.div_pos n kMaxSkipSize Hn ltac:(done)). unfold kMaxSkipSize in *. lia.
Qed.

End default.
