(* ===== verification/BufferedStream.v ===== *)
(** * The buffered stream keeps the promise of the interface

    Over any stream that keeps it: the buffer is a window of the file in front of the position
    of the underlying stream. *)

From S2P Require Import Prelude InputStream InputStreamProofs.
Import Buffered.

#[local] Open Scope runtime_scope.

Section buffered.
Context {St : Type} `{Hstream : StreamOf St content} (size_ : Z) (Hsize : 0 < size_).
Abbreviation len := (Z.of_nat (length content)).
Abbreviation B := (@BufferedInputStream St).

Definition window (b : B) : Z := limit_ b - pos_ b.
Definition buffered_position (b : B) : Z := position (input_stream_ b) - window b.

Record buffered_inv (b : B) : Prop := {
  f_input : stream_inv (input_stream_ b);
  f_window : 0 <= pos_ b <= limit_ b /\ window b <= position (input_stream_ b);
  f_bytes : slice (buf_ b) (pos_ b) (window b) = slice content (buffered_position b) (window b);
  f_limit : limit_ b <= Z.of_nat (length (buf_ b));
  f_status : file_status_ b = OK \/ (file_status_ b = Err OUT_OF_RANGE /\ window b = 0 /\ position (input_stream_ b) = len)
}.

Lemma buffered_range b : buffered_inv b -> 0 <= buffered_position b <= len.
Proof using Type. intros [Hi Hw _ _ _]. pose proof (position_range _ Hi). unfold buffered_position, window in *. lia. Qed.

(** An empty window satisfies the invariant whatever the buffer holds. *)
Lemma empty_window_inv s buf p st :
  stream_inv s -> 0 <= p <= Z.of_nat (length buf) -> st = OK \/ (st = Err OUT_OF_RANGE /\ position s = len) -> buffered_inv (mkBuffered s buf p p st).
Proof using Type.
  intros Hi Hp Hst. pose proof (position_range _ Hi). constructor; cbn; unfold window; cbn; rewrite ?Z.sub_diag; try done; try lia.
  destruct Hst as [->|[-> ?]]; [by left|right]. split_and!; done || lia.
Qed.

(** ** Filling *)

Lemma FillBuffer_spec b : buffered_inv b -> window b = 0 ->
  FillBuffer size_ @ b ⇓ fun st b' => buffered_inv b' /\ buffered_position b' = buffered_position b /\ pos_ b' = 0
    /\ if buffered_position b =? len then limit_ b' = 0 /\ st = Err OUT_OF_RANGE
       else 0 < limit_ b' /\ limit_ b' = Z.of_nat (length (buf_ b')) /\ buf_ b' = slice content (buffered_position b) size_ /\ file_status_ b' = OK
            /\ st = (if buffered_position b + size_ <=? len then OK else Err OUT_OF_RANGE).
Proof using Hsize.
  intros Hb Hw. pose proof Hb as [Hi Hwin _ _ Hst]. pose proof (position_range _ Hi) as Hr.
  assert (buffered_position b = position (input_stream_ b)) as Ep by (unfold buffered_position; lia). rewrite Ep. unfold FillBuffer. wp_steps.
  destruct Hst as [Est|(Est & _ & Eend)]; rewrite Est; cbn [ok OK negb].
  - wp_steps. unfold on_input, wp at 1. destruct (wp_total _ _ _ (read_spec (input_stream_ b) size_ (buf_ b) Hi ltac:(lia))) as ([st out] & s' & -> & Hi' & -> & Ep' & ->).
    cbn beta iota. wp_steps. unfold set_buffer. wp_steps. pose proof (slice_length content (position (input_stream_ b)) size_ Hr ltac:(lia)) as Hl.
    rewrite slice_enough by lia. set (p := position (input_stream_ b)) in *. destruct (Z.eqb_spec p len) as [E|E].
    + assert (slice content p size_ = []) as Es by (rewrite E; apply slice_end). rewrite Es. rewrite bool_decide_eq_true_2 by done.
      rewrite (proj2 (Z.leb_gt (p + size_) len)) by lia. cbn [ok negb CHECK]. unfold set_status. wp_steps. cbn [length]. cbn.
      rewrite Es in Ep'. cbn in Ep'. split_and!; try done.
      * apply empty_window_inv; [done|lia|]. right. split; [done|]. lia.
      * unfold buffered_position, window. cbn. lia.
    + assert (slice content p size_ <> []) as Es by (intros E0; rewrite E0 in Hl; cbn in Hl; lia). rewrite bool_decide_eq_false_2 by done. wp_steps. cbn [input_stream_ pos_ limit_ buf_ file_status_].
      assert (buffered_position (mkBuffered s' (slice content p size_) 0 (Z.of_nat (length (slice content p size_))) (file_status_ b)) = p) as Epos by (unfold buffered_position, window; cbn; lia).
      split_and!; try done; try lia. constructor; cbn [input_stream_ pos_ limit_ buf_ file_status_]; [done|unfold window; cbn; lia| |lia|by left].
      rewrite Epos. unfold window. cbn. rewrite Z.sub_0_r, Hl. rewrite slice_slice by lia. by rewrite Z.add_0_r.
  - unfold set_window. wp_steps. rewrite Est. cbn. split_and!; [|unfold buffered_position, window; cbn; lia|done|].
    + rewrite <- Est. apply empty_window_inv; [done|lia|]. right. by rewrite Est.
    + by rewrite (proj2 (Z.eqb_eq _ len)).
Qed.

(** ** Reading *)

(** Taking bytes out of the window. *)
Lemma take_window b n : buffered_inv b -> file_status_ b = OK -> 0 <= n <= window b ->
  slice (buf_ b) (pos_ b) n = slice content (buffered_position b) n
  /\ buffered_inv (mkBuffered (input_stream_ b) (buf_ b) (pos_ b + n) (limit_ b) (file_status_ b))
  /\ buffered_position (mkBuffered (input_stream_ b) (buf_ b) (pos_ b + n) (limit_ b) (file_status_ b)) = buffered_position b + n.
Proof using Type.
  intros [Hi Hw Hby Hl Hst] Hok Hn. unfold buffered_position, window in *.
  assert (forall q m, 0 <= q -> 0 <= m -> q + m <= limit_ b - pos_ b -> slice (buf_ b) (pos_ b + q) m = slice content (position (input_stream_ b) - (limit_ b - pos_ b) + q) m) as Hsub.
  { intros q m Hq Hm Hle. rewrite <- (slice_slice (buf_ b) (pos_ b) (limit_ b - pos_ b)) by lia. rewrite Hby. apply slice_slice; lia. }
  split_and!.
  - pose proof (Hsub 0 n ltac:(lia) ltac:(lia) ltac:(lia)) as E. by rewrite !Z.add_0_r in E.
  - constructor; unfold buffered_position, window; cbn [limit_ pos_ input_stream_ buf_ file_status_]; [done|lia| |lia|by left].
    rewrite (Hsub n (limit_ b - (pos_ b + n))) by lia. by replace (position (input_stream_ b) - (limit_ b - (pos_ b + n))) with (position (input_stream_ b) - (limit_ b - pos_ b) + n) by lia.
  - unfold window. cbn [limit_ pos_ input_stream_]. lia.
Qed.

(** The buffer after a possible refill, as both reading loops do it. *)
Lemma refill_spec b st : buffered_inv b -> ok st || IsOutOfRange st = true ->
  (if pos_ b =? limit_ b then FillBuffer size_ else mret st) @ b ⇓ fun st' b' => buffered_inv b' /\ buffered_position b' = buffered_position b
    /\ ok st' || IsOutOfRange st' = true
    /\ (if (pos_ b =? limit_ b) && (limit_ b' =? 0) then buffered_position b = len /\ st' = Err OUT_OF_RANGE else file_status_ b' = OK /\ 0 < window b').
Proof using Hsize.
  intros Hb Hst. pose proof (f_window _ Hb) as [Hw _]. destruct (Z.eqb_spec (pos_ b) (limit_ b)) as [E|E]; cbn [andb].
  - eapply wp_mono; [apply FillBuffer_spec; [done|unfold window; lia]|]. cbn beta. intros st' b' (Hb' & Ep' & E0 & Hc). split_and!; [done|done| |].
    + destruct (_ =? len); [by destruct Hc as [_ ->]|]. destruct Hc as (_ & _ & _ & _ & ->). apply eof_ok.
    + destruct (Z.eqb_spec (buffered_position b) len) as [El|El]; [by destruct Hc as [-> ->]|]. destruct Hc as (Hl & _ & _ & Ef & _).
      rewrite (proj2 (Z.eqb_neq (limit_ b') 0)) by lia. split; [done|]. unfold window. lia.
  - wp_steps. split_and!; try done; [|unfold window; lia]. destruct (f_status _ Hb) as [?|(_ & Hw0 & _)]; [done|]. unfold window in Hw0. lia.
Qed.

Lemma read_loop_spec fuel : forall n st b p0 r,
  buffered_inv b -> file_status_ b = OK -> 0 <= p0 -> r = slice content p0 (Z.of_nat (length r)) -> buffered_position b = p0 + Z.of_nat (length r) ->
  Z.of_nat (length r) <= n -> n - Z.of_nat (length r) < Z.of_nat fuel -> ok st || IsOutOfRange st = true ->
  ReadNBytes_loop size_ fuel n st r @ b ⇓ fun '(st', out) b' =>
    buffered_inv b' /\ out = slice content p0 n /\ buffered_position b' = p0 + Z.of_nat (length out)
    /\ (if Z.of_nat (length out) =? n then ok st' || IsOutOfRange st' = true else st' = Err OUT_OF_RANGE).
Proof using Hsize.
  induction fuel as [|fuel IH]; intros n st b p0 r Hb Hok Hp0 Er Epos Hrn Hf Hst; [lia|]. cbn [ReadNBytes_loop].
  destruct (Z.ltb_spec (Z.of_nat (length r)) n) as [Hlt|Hge]; cycle 1.
  { assert (Z.of_nat (length r) = n) as En by lia. wp_steps. rewrite <- En, <- Er, Z.eqb_refl. split_and!; done. }
  wp_step. wp_step. wp_step.
  eapply wp_mono; [by apply refill_spec|]. cbn beta. intros st' b' (Hb' & Ep' & Hst' & Hc). wp_steps. destruct ((pos_ b =? limit_ b) && (limit_ b' =? 0)) eqn:Eend.
  - destruct Hc as [El ->]. cbn [ok negb CHECK]. unfold set_status. wp_steps. apply andb_true_iff in Eend as [_ E0%Z.eqb_eq].
    pose proof Hb' as [Hi' Hw' Hby' Hl' _]. unfold buffered_position, window in *.
    assert (r = slice content p0 n) as Ern by (rewrite Er; rewrite !slice_past by lia; done). split_and!; try done; try lia.
    + constructor; cbn; try done. right. unfold window. cbn. split_and!; [done|lia|lia].
    + cbn [limit_ pos_ input_stream_]. lia.
    + by rewrite (proj2 (Z.eqb_neq _ n)) by lia.
  - destruct Hc as [Hok' Hpos']. unfold set_window. wp_steps. set (m := Z.min _ _). assert (0 < m <= window b' /\ m <= n - Z.of_nat (length r)) as Hm by (unfold m, window in *; lia).
    destruct (take_window b' m Hb' Hok' ltac:(lia)) as (Es & Hinv & Epos').
    pose proof (buffered_range _ Hinv) as Hrange.
    assert (Z.of_nat (length (slice content (buffered_position b') m)) = m) as Hlm by (rewrite slice_length; [|by apply buffered_range|lia]; rewrite Epos' in Hrange; lia).
    apply IH; try done.
    + rewrite Es, length_app, Nat2Z.inj_add, Hlm. rewrite slice_app by lia. rewrite <- Er. f_equal. f_equal. lia.
    + rewrite Epos', Es, length_app. lia.
    + rewrite Es, length_app. lia.
    + rewrite Es, length_app. lia.
Qed.

Lemma buffered_read b n r : buffered_inv b -> 0 <= n -> ReadNBytes size_ n r @ b ⇓ fun '(st, out) b' =>
  buffered_inv b' /\ out = slice content (buffered_position b) n /\ buffered_position b' = buffered_position b + Z.of_nat (length out)
  /\ st = (if Z.of_nat (length out) =? n then OK else Err OUT_OF_RANGE).
Proof using Hsize.
  intros Hb Hn. pose proof (buffered_range b Hb) as Hr. unfold ReadNBytes. rewrite (proj2 (Z.ltb_ge n 0)) by lia. wp_steps.
  destruct (f_status _ Hb) as [Est|(Est & Hw & Eend)].
  - rewrite Est. cbn [ok OK negb andb]. wp_steps. eapply wp_mono; [apply (read_loop_spec _ n OK b (buffered_position b) []); try done; cbn; try lia|].
    cbn beta. intros [st out] b' (Hb' & -> & Ep & Hst). destruct (Z.eqb_spec (Z.of_nat (length (slice content (buffered_position b) n))) n).
    + destruct st as [[]|c]; [|destruct c; try done]; cbn [IsOutOfRange andb]; wp_steps; by rewrite (proj2 (Z.eqb_eq _ n)).
    + rewrite Hst. cbn [IsOutOfRange andb]. wp_steps. by rewrite (proj2 (Z.eqb_neq _ n)).
  - rewrite Est. cbn [ok negb andb]. assert (buffered_position b = len) as El by (unfold buffered_position; lia). rewrite El, slice_end. cbn [length].
    destruct (Z.ltb_spec 0 n).
    + wp_steps. rewrite (proj2 (Z.eqb_neq _ n)) by (cbn; lia). split_and!; done || (cbn; lia).
    + assert (n = 0) as -> by lia. cbn [Z.to_nat ReadNBytes_loop length]. wp_steps. cbn [IsOutOfRange OK andb]. wp_steps. cbn [length]. split_and!; try done. rewrite El. symmetry. apply Z.add_0_r.
Qed.

(** ** Lines *)

(** The bytes in front of the next newline, and whether there is one. *)
Fixpoint until_eol (l : list Z) : list Z * bool :=
  match l with
  | [] => ([], false)
  | c :: l => if c =? 10 then ([], true) else let '(a, found) := until_eol l in (c :: a, found)
  end.

(** A line without its carriage returns, with or without the newline. *)
Definition line_of (include_eol : bool) (l : list Z) : list Z :=
  filter (fun c => c <> 13) (until_eol l).1 ++ (if (until_eol l).2 && include_eol then [10] else []).
Definition line_bytes (l : list Z) : Z := Z.of_nat (length (until_eol l).1) + (if (until_eol l).2 then 1 else 0).

Lemma read_line_loop fuel : forall eol st b r,
  buffered_inv b -> (length content - Z.to_nat (buffered_position b) < fuel)%nat -> ok st || IsOutOfRange st = true ->
  let rest := drop (Z.to_nat (buffered_position b)) content in
  ReadLine_loop size_ fuel eol st r @ b ⇓ fun '(st', out) b' =>
    buffered_inv b' /\ out = r ++ line_of eol rest /\ buffered_position b' = buffered_position b + line_bytes rest
    /\ st' = (if (until_eol rest).2 || negb (bool_decide (out = [])) then OK else Err OUT_OF_RANGE).
Proof using Hsize.
  induction fuel as [|fuel IH]; intros eol st b r Hb Hf Hst rest; [lia|]. cbn [ReadLine_loop]. wp_steps.
  eapply wp_mono; [by apply refill_spec|]. cbn beta. intros st' b' (Hb' & Ep & Hst' & Hc). wp_steps. destruct ((pos_ b =? limit_ b) && (limit_ b' =? 0)).
  - destruct Hc as [El ->]. unfold rest. rewrite El, Nat2Z.id, drop_all. unfold line_of, line_bytes. cbn. rewrite app_nil_r. cbn [IsOutOfRange andb].
    destruct (bool_decide (r = [])) eqn:Er; cbn [negb]; wp_steps; rewrite ?app_nil_r, ?Er; split_and!; done || lia.
  - destruct Hc as [Hok' Hpos']. destruct (take_window b' 1 Hb' Hok' ltac:(lia)) as (Es & Hinv & Epos'). pose proof (buffered_range _ Hinv) as Hr'. rewrite Epos' in Hr'. pose proof (buffered_range _ Hb') as Hr.
    rewrite Ep in *. destruct (lookup_lt_is_Some_2 content (Z.to_nat (buffered_position b))) as [c Hcc]; [lia|].
    assert (rest = c :: drop (Z.to_nat (buffered_position b + 1)) content) as Erest.
    { unfold rest. rewrite (drop_S _ _ _ Hcc). do 2 f_equal. lia. }
    assert (buf_ b' !! Z.to_nat (pos_ b') = Some c) as Hbc.
    { unfold slice in Es. rewrite (drop_S _ _ _ Hcc) in Es. change (Z.to_nat 1) with 1%nat in Es. rewrite <- (Nat.add_0_r (Z.to_nat (pos_ b'))), <- lookup_drop.
      destruct (drop (Z.to_nat (pos_ b')) (buf_ b')) as [|c' l]; [done|]. by injection Es as ->. }
    wp_step. eapply wp_of_option; [exact Hbc|]. unfold set_window. wp_steps. unfold line_of, line_bytes. rewrite Erest. cbn [until_eol]. destruct (Z.eqb_spec c 10) as [->|Hn].
    + wp_steps. rewrite Epos'. cbn. split_and!; [done|by destruct eol; cbn; rewrite ?app_nil_r|done|done].
    + eapply wp_mono; [apply IH; [exact Hinv|rewrite Epos'; lia|exact Hst']|]. cbn beta. rewrite Epos'. intros [st2 out] b2 (Hb2 & -> & Ep2 & ->).
      unfold line_of, line_bytes in *. destruct (until_eol (drop (Z.to_nat (buffered_position b + 1)) content)) as [a found]. cbn [fst snd length] in *.
      split_and!; [done| |lia|done]. destruct (Z.eqb_spec c 13) as [->|H13]; [by rewrite filter_cons_False by tauto|]. rewrite filter_cons_True by done. by rewrite <- !app_assoc.
Qed.

Lemma buffered_read_line b eol fuel : buffered_inv b -> (length content < fuel)%nat ->
  let rest := drop (Z.to_nat (buffered_position b)) content in
  ReadLineHelper size_ fuel eol @ b ⇓ fun '(st, out) b' =>
    buffered_inv b' /\ out = line_of eol rest /\ buffered_position b' = buffered_position b + line_bytes rest
    /\ st = (if (until_eol rest).2 || negb (bool_decide (out = [])) then OK else Err OUT_OF_RANGE).
Proof using Hsize. intros Hb Hf. apply (read_line_loop fuel eol OK b []); [done|lia|done]. Qed.

(** ** Everything

    [ReadAll] starts by filling the buffer: what the buffer still held is lost. *)
Lemma read_all_loop fuel : forall b r,
  buffered_inv b -> window b = 0 -> (length content - Z.to_nat (buffered_position b) < fuel)%nat ->
  ReadAll_loop size_ fuel OK r @ b ⇓ fun '(st, out) b' =>
    buffered_inv b' /\ buffered_position b' = len /\ window b' = 0 /\ out = r ++ drop (Z.to_nat (buffered_position b)) content /\ st = Err OUT_OF_RANGE.
Proof using Hsize.
  induction fuel as [|fuel IH]; intros b r Hb Hw Hf; [lia|]. cbn [ReadAll_loop ok OK]. wp_steps. pose proof (buffered_range b Hb) as Hr.
  eapply wp_mono; [by apply FillBuffer_spec|]. cbn beta. intros st b' (Hb' & Ep & E0 & Hc). wp_steps. destruct (Z.eqb_spec (buffered_position b) len) as [El|El].
  - destruct Hc as [Hl0 ->]. rewrite Hl0. cbn [Z.eqb]. wp_steps. rewrite El, Nat2Z.id, drop_all, app_nil_r. split_and!; try done; [by rewrite Ep|]. 
    pose proof (f_window _ Hb') as [? _]. unfold window in *. lia.
  - destruct Hc as (Hl & Elim & Ebuf & Ef & ->). rewrite (proj2 (Z.eqb_neq _ 0)) by lia. unfold set_window. wp_steps.
    assert (window b' = limit_ b') as Ew by (unfold window; lia). destruct (take_window b' (limit_ b') Hb' Ef ltac:(lia)) as (_ & Hinv & Epos'). rewrite E0, Z.add_0_l in Hinv, Epos'.
    set (b2 := mkBuffered (input_stream_ b') (buf_ b') (limit_ b') (limit_ b') (file_status_ b')) in *. pose proof (slice_length content (buffered_position b) size_ Hr ltac:(lia)) as Hsl. rewrite <- Ebuf, <- Elim in Hsl.
    assert (buf_ b' ++ drop (Z.to_nat (buffered_position b2)) content = drop (Z.to_nat (buffered_position b)) content) as Eall.
    { rewrite Ebuf, Epos', Ep, Hsl. unfold slice. rewrite <- (take_drop (Z.to_nat size_) (drop (Z.to_nat (buffered_position b)) content)) at 2. f_equal. rewrite drop_drop.
      destruct (Z.le_ge_cases size_ (len - buffered_position b)); [f_equal; lia|]. rewrite !drop_ge; [done|lia|lia]. }
    destruct (Z.leb_spec (buffered_position b + size_) len) as [Hin|Hout].
    + change OK with OK. eapply wp_mono; [apply IH; [exact Hinv|unfold window; cbn; lia|rewrite Epos', Ep; lia]|]. cbn beta.
      intros [st out] b3 (? & ? & ? & -> & ->). split_and!; try done. by rewrite <- app_assoc, Eall.
    + destruct fuel; [lia|]. cbn [ReadAll_loop ok]. wp_steps. split_and!; [done|rewrite Epos'; lia|unfold window; cbn; lia| |done].
      rewrite <- Eall. rewrite (drop_ge content (Z.to_nat (buffered_position b2))) by (rewrite Epos', Ep; lia). by rewrite app_nil_r.
Qed.

(** Filling does not look at the window. *)
Lemma FillBuffer_window s buf p l p' l' st : FillBuffer size_ (mkBuffered s buf p l st) = FillBuffer size_ (mkBuffered (S := St) s buf p' l' st).
Proof using Type.
  unfold FillBuffer. rewrite !run_get. cbn [file_status_ buf_]. destruct (ok st); cbn [negb]; [|done].
  unfold mbind, M_bind, on_input. cbn [input_stream_ buf_ pos_ limit_ file_status_]. by destruct (InputStream.ReadNBytes size_ buf s) as [[[] ?]| |].
Qed.

Lemma buffered_read_all b fuel : buffered_inv b -> (length content < fuel)%nat ->
  ReadAll size_ fuel @ b ⇓ fun '(st, out) b' =>
    buffered_inv b' /\ buffered_position b' = len /\ st = OK /\ out = drop (Z.to_nat (position (input_stream_ b))) content.
Proof using Hsize.
  intros Hb Hf. destruct b as [s buf p l st]. pose proof Hb as [Hi Hw _ Hl Hst]. cbn [input_stream_ pos_ limit_ buf_ file_status_] in *. set (b0 := mkBuffered s buf l l st).
  assert (buffered_inv b0) as Hb0 by (apply empty_window_inv; [done|lia|]; destruct Hst as [?|(? & _ & ?)]; [by left|by right]).
  assert (ReadAll_loop size_ fuel OK [] (mkBuffered s buf p l st) = ReadAll_loop size_ fuel OK [] b0) as E.
  { destruct fuel; [lia|]. cbn [ReadAll_loop ok OK]. unfold mbind at 1, M_bind at 1. rewrite (FillBuffer_window s buf p l l l st). done. }
  unfold ReadAll. wp_step. unfold wp at 1. rewrite E. assert (buffered_position b0 = position s) as Ep by (unfold buffered_position, window; cbn; lia).
  destruct (wp_total _ _ _ (read_all_loop fuel b0 [] Hb0 ltac:(unfold window; cbn; lia) ltac:(lia))) as ([st' out] & b' & -> & Hb' & Epos & Hw' & -> & ->). cbn beta iota.
  cbn [IsOutOfRange]. unfold set_status. wp_steps. rewrite Ep. split_and!; try done. pose proof Hb' as [Hi' Hwin' Hby' Hl' _]. constructor; cbn [input_stream_ pos_ limit_ buf_ file_status_]; try done.
  right. unfold buffered_position in Epos. split_and!; [done|done|lia].
Qed.

(** ** Skipping, resetting, seeking *)

Lemma buffered_skip b n : buffered_inv b -> 0 <= n -> buffered_position b + n < 2 ^ 63 -> SkipNBytes n @ b ⇓ fun st b' =>
  buffered_inv b' /\ buffered_position b' = Z.min (buffered_position b + n) len
  /\ st = (if buffered_position b + n <=? len then OK else Err OUT_OF_RANGE).
Proof using Type.
  intros Hb Hn Hmax. pose proof (buffered_range b Hb) as Hr. pose proof Hb as [Hi [Hw Hwp] _ Hl Hst]. pose proof (position_range _ Hi) as Hpr.
  unfold SkipNBytes. rewrite (proj2 (Z.ltb_ge n 0)) by lia. wp_steps. destruct (Z.ltb_spec (pos_ b + n) (limit_ b)) as [Hin|Hout].
  - unfold set_window. wp_steps. assert (file_status_ b = OK) as Hok by (destruct Hst as [?|(_ & E & _)]; [done|unfold window in E; lia]).
    destruct (take_window b n Hb Hok ltac:(unfold window; lia)) as (_ & Hinv & Ep). pose proof (buffered_range _ Hinv) as Hr'. rewrite Ep in Hr' |- *.
    split_and!; [done|lia|]. by rewrite (proj2 (Z.leb_le _ len)) by lia.
  - wp_steps. unfold buffered_position, window in *.
    unfold on_input, wp at 1. destruct (wp_total _ _ _ (skip_spec (input_stream_ b) (n - (limit_ b - pos_ b)) Hi ltac:(lia) ltac:(lia))) as (st & s' & -> & Hi' & Ep & Est).
    replace (position (input_stream_ b) + (n - (limit_ b - pos_ b))) with (position (input_stream_ b) - (limit_ b - pos_ b) + n) in Ep, Est by lia.
    cbn beta iota. unfold set_window. wp_steps. destruct (Z.leb_spec (position (input_stream_ b) - (limit_ b - pos_ b) + n) len); rewrite Est; cbn [IsOutOfRange OK]; unfold set_status; wp_steps; cbn [input_stream_ pos_ limit_ buf_ file_status_].
    + split_and!; [|lia|done]. apply empty_window_inv; [done|lia|]. destruct Hst as [->|(-> & ? & ?)]; [by left|]. right. split; [done|]. lia.
    + split_and!; [|lia|done]. apply empty_window_inv; [done|lia|]. right. split; [done|]. lia.
Qed.

Lemma buffered_reset b : buffered_inv b -> Reset @ b ⇓ fun st b' => buffered_inv b' /\ buffered_position b' = 0 /\ st = OK.
Proof using Type.
  intros Hb. pose proof (f_input _ Hb) as Hi. unfold Reset. wp_steps. unfold on_input, wp at 1.
  destruct (wp_total _ _ _ (reset_spec (input_stream_ b) Hi)) as (st & s' & -> & Hi' & Ep & ->). cbn [ok OK]. unfold set_window, set_status. wp_steps. cbn [input_stream_ pos_ limit_ buf_ file_status_].
  split_and!; [|unfold buffered_position, window; cbn; lia|done]. apply empty_window_inv; [done|lia|by left].
Qed.

Lemma buffered_seek b p : buffered_inv b -> 0 <= p < 2 ^ 63 -> Seek p @ b ⇓ fun st b' =>
  buffered_inv b' /\ buffered_position b' = Z.min p len /\ st = (if p <=? len then OK else Err OUT_OF_RANGE).
Proof using Type.
  intros Hb Hp. pose proof (buffered_range b Hb) as Hr. unfold Seek. rewrite (proj2 (Z.ltb_ge p 0)) by lia. wp_steps.
  assert (Tell b = buffered_position b) as -> by (unfold Tell, buffered_position, window; by rewrite tell_spec by apply Hb).
  destruct (Z.ltb_spec p (buffered_position b)).
  - wp_steps. eapply wp_mono; [by apply buffered_reset|]. cbn beta. intros st b' (Hb' & Ep & ->). cbn [ok OK].
    eapply wp_mono; [apply buffered_skip; [done|lia|lia]|]. cbn beta. rewrite Ep. done.
  - eapply wp_mono; [apply buffered_skip; [done|lia|lia]|]. cbn beta. by rewrite Zplus_minus.
Qed.

(** The buffered stream keeps the promise of the interface. *)
Definition buffered_stream_of : @StreamOf B (Buffered_stream size_) content.
Proof using Hstream Hsize.
  refine (@Build_StreamOf _ (Buffered_stream size_) content buffered_inv buffered_position _ _ _ _ _ _ _).
  - exact buffered_range.
  - exact buffered_read.
  - intros b n r _ Hn. cbn. unfold ReadNBytes. by rewrite (proj2 (Z.ltb_lt n 0)).
  - exact buffered_skip.
  - intros b n _ Hn. cbn. unfold SkipNBytes. by rewrite (proj2 (Z.ltb_lt n 0)).
  - intros b Hb. cbn. unfold Tell, buffered_position, window. by rewrite tell_spec by apply Hb.
  - exact buffered_reset.
Defined.

Lemma buffered_new s : stream_inv s -> buffered_inv (BufferedInputStream_new s) /\ buffered_position (BufferedInputStream_new s) = position s.
Proof using Type.
  intros Hs. split; [|unfold buffered_position, window; cbn; lia]. apply empty_window_inv; [done|cbn; lia|by left].
Qed.

End buffered.

(** ** The theorems *)

(** A file in memory. *)
Definition memory_file (content : list Z) (offset n : Z) : Status * list Z :=
  (if Z.of_nat (length (slice content offset n)) =? n then OK else Err OUT_OF_RANGE, slice content offset n).

Lemma memory_file_of content : file_of content (memory_file content).
Proof. done. Qed.

(** C25: refinement. The stream over a file and the buffered stream over any other stream, with any
    positive buffer size, keep the promise of the interface: a read returns the bytes at the
    position, as many as there are, with [OUT_OF_RANGE] when there are fewer than asked for, a
    skip stops at the end of the file, [Tell] is the position and [Reset] goes back to 0.  A
    new stream is at the position 0, a new buffer at the position of its stream.  The default
    implementation of skipping keeps the promise of a skip. *)
Theorem streams_keep_promise (content : list Z) :
  (forall file_Read, file_of content file_Read ->
    exists P : @StreamOf _ (RandomAccess.RandomAccess_stream file_Read) content,
      stream_inv (StreamOf := P) RandomAccess.RandomAccessInputStream_new /\ position (StreamOf := P) RandomAccess.RandomAccessInputStream_new = 0)
  /\ forall St (I : InputStreamInterface St) (P : @StreamOf St I content),
      (forall size, 0 < size -> exists P' : @StreamOf _ (Buffered_stream (S := St) size) content,
        forall s, stream_inv (StreamOf := P) s ->
          stream_inv (StreamOf := P') (BufferedInputStream_new s) /\ position (StreamOf := P') (BufferedInputStream_new s) = position (StreamOf := P) s)
      /\ (forall s n, stream_inv s -> 0 <= n -> DefaultSkipNBytes n @ s ⇓ fun st s' =>
            stream_inv s' /\ position s' = Z.min (position s + n) (Z.of_nat (length content))
            /\ st = (if position s + n <=? Z.of_nat (length content) then OK else Err OUT_OF_RANGE)).
Proof.
  split.
  - intros file_Read Hf. exists (random_stream_of content file_Read Hf). split; [|done]. cbn. unfold random_inv. cbn. lia.
  - intros St I P. split; [|exact default_skip]. intros size Hs. exists (buffered_stream_of size Hs). exact buffered_new.
Qed.

Lemma streams_keep_promise_witness :
  exists P : @StreamOf _ (RandomAccess.RandomAccess_stream (memory_file [1; 2; 3])) [1; 2; 3],
    stream_inv (StreamOf := P) RandomAccess.RandomAccessInputStream_new /\ position (StreamOf := P) RandomAccess.RandomAccessInputStream_new = 0.
Proof. apply (streams_keep_promise [1; 2; 3]). apply memory_file_of. Defined.

(** [ReadAll] in general: it starts by filling the buffer anew, so it returns what the underlying
    stream has not read yet, and neither the part of the file before the position nor the bytes
    that the buffer still holds. *)
Theorem buffered_read_all_rest {St} {I : InputStreamInterface St} content (P : @StreamOf St I content) size b fuel :
  0 < size -> buffered_inv b -> (length content < fuel)%nat ->
  ReadAll size fuel @ b ⇓ fun '(st, out) b' => buffered_inv b' /\ buffered_position b' = Z.of_nat (length content)
    /\ st = OK /\ out = drop (Z.to_nat (position (input_stream_ b))) content.
Proof. intros Hs Hb Hf. by apply buffered_read_all. Qed.

(** C26: the buffered stream's own operations. [Seek] goes to the position, or to the end of the
    file with [OUT_OF_RANGE]; [ReadLine] and [ReadLineAsString] return the bytes up to the next
    newline or the end of the file, less every carriage return, and advance behind the
    newline, with [OUT_OF_RANGE] exactly when there was no newline and nothing to return (at the
    end of the file, or before it when only carriage returns are left);
    [ReadAll], on a stream that has not read anything yet (as after construction on a new stream
    or after [Reset]), returns the entire contents of the file and ends at its end.  Once
    something was read it returns less than the entire contents that its comment promises, which
    [buffered_read_all_rest] states. *)
Theorem buffered_seek_and_lines {St} {I : InputStreamInterface St} content (P : @StreamOf St I content) size b :
  0 < size -> buffered_inv b ->
  let rest := drop (Z.to_nat (buffered_position b)) content in
  (forall p, 0 <= p < 2 ^ 63 -> Seek p @ b ⇓ fun st b' => buffered_inv b'
     /\ buffered_position b' = Z.min p (Z.of_nat (length content)) /\ st = (if p <=? Z.of_nat (length content) then OK else Err OUT_OF_RANGE))
  /\ (forall p, p < 0 -> Seek p b = Val (Err INVALID_ARGUMENT, b))
  /\ forall fuel, (length content < fuel)%nat ->
     (ReadLine size fuel @ b ⇓ fun '(st, out) b' => buffered_inv b' /\ out = line_of false rest
        /\ buffered_position b' = buffered_position b + line_bytes rest
        /\ st = (if (until_eol rest).2 || negb (bool_decide (out = [])) then OK else Err OUT_OF_RANGE))
     /\ (ReadLineAsString size fuel @ b ⇓ fun out b' => buffered_inv b' /\ out = line_of true rest
           /\ buffered_position b' = buffered_position b + line_bytes rest)
     /\ (position (input_stream_ b) = 0 -> ReadAll size fuel @ b ⇓ fun '(st, out) b' =>
           buffered_inv b' /\ buffered_position b' = Z.of_nat (length content) /\ st = OK /\ out = content).
Proof.
  intros Hs Hb rest. split; [intros p Hp; by apply buffered_seek|]. split; [intros p Hp; unfold Seek; by rewrite (proj2 (Z.ltb_lt p 0) Hp)|].
  intros fuel Hf. split; [by apply buffered_read_line|]. split; [|intros E; eapply wp_mono; [by apply buffered_read_all|]; cbn beta; intros [st out]; by rewrite E].
  unfold ReadLineAsString. wp_step. eapply wp_mono; [by apply (buffered_read_line size Hs b true)|]. cbn beta. intros [st out] b' (Hb' & -> & Ep & _). wp_steps. done.
Qed.

Lemma buffered_seek_and_lines_witness :
  let P := random_stream_of [97; 98; 13; 10; 99] (memory_file [97; 98; 13; 10; 99]) (memory_file_of _) in
  let I := RandomAccess.RandomAccess_stream (memory_file [97; 98; 13; 10; 99]) in
  (exists b', (ReadLine (H := I) 2 6 (BufferedInputStream_new RandomAccess.RandomAccessInputStream_new)) = Val ((OK, [97; 98]), b'))
  /\ (exists b', (ReadAll (H := I) 2 6 (BufferedInputStream_new RandomAccess.RandomAccessInputStream_new)) = Val ((OK, [97; 98; 13; 10; 99]), b')).
Proof.
  intros P I. assert (buffered_inv (Hstream := P) (BufferedInputStream_new RandomAccess.RandomAccessInputStream_new)) as Hb.
  { apply buffered_new. cbn. unfold random_inv. cbn. lia. }
  destruct (buffered_seek_and_lines _ P 2 _ ltac:(lia) Hb) as (_ & _ & Hl). destruct (Hl 6%nat) as (Hline & _ & Hall); [cbn; lia|]. split.
  - destruct (wp_total _ _ _ Hline) as ([st out] & b' & E & _ & -> & _ & ->). exists b'. exact E.
  - destruct (wp_total _ _ _ (Hall eq_refl)) as ([st out] & b' & E & _ & _ & -> & ->). exists b'. exact E.
Defined.
