(* ===== verification/RecordFile.v ===== *)
(** * Files of records: the model

    [core/lib/io/record_writer.cc] and [record_reader.cc]: records framed with their length and
    two masked checksums, read back through any input stream.  The compressed variant is the
    same code over zlib's streams, which are not in the repository. *)

From S2P Require Import Prelude Coding Crc32c InputStream.
Import Coding.

Module RecordFile.

Definition kHeaderSize : Z := 12.
Definition kFooterSize : Z := 4.
Definition SIZE_MAX : Z := 2 ^ 64 - 1.

Section record.
Context (kLittleEndian can_accelerate : bool) (mm_crc32_u8 mm_crc32_u64 : Z -> Z -> Z).
(** Where a buffer with these bytes is in memory. *)
Context (address : list Z -> Z).

Definition Value (data : list Z) : option Z :=
  Crc32c.Value kLittleEndian can_accelerate mm_crc32_u8 mm_crc32_u64 (address data) data.

(** ** Writing *)

Class WritableFile (F : Type) := {
  Append : list Z -> M F Status;
  Flush : M F Status;
  Close : M F Status
}.

Definition MaskedCrc (data : list Z) : option Z := crc ← Value data; Some (Crc32c.Mask crc).

Definition PopulateHeader (n : Z) : option (list Z) :=
  let header := EncodeFixed64 kLittleEndian n in
  crc ← MaskedCrc header;
  Some (header ++ EncodeFixed32 kLittleEndian crc).

Definition PopulateFooter (data : list Z) : option (list Z) :=
  crc ← MaskedCrc data;
  Some (EncodeFixed32 kLittleEndian crc).

Section writer.
Context {F : Type} `{WritableFile F}.

Record RecordWriter := mkWriter { dest_ : option F; zlib_compressed : bool }.

Abbreviation MW := (M RecordWriter).

(** A call of the file; a null pointer is a crash. *)
Definition on_dest (m : M F Status) : MW Status := fun w =>
  match dest_ w with
  | Some f => match m f with
              | Val (st, f) => Val (st, mkWriter (Some f) (zlib_compressed w))
              | Crash => Crash
              | NoFuel => NoFuel
              end
  | None => Crash
  end.

Definition WriteRecord (data : list Z) : MW Status :=
  w ← get;
  match dest_ w with
  | None => mret (Err FAILED_PRECONDITION)
  | Some _ =>
      header ← of_option (PopulateHeader (Z.of_nat (length data)));
      footer ← of_option (PopulateFooter data);
      st ← on_dest (Append header);
      if negb (ok st) then mret st
      else
        st ← on_dest (Append data);
        if negb (ok st) then mret st else on_dest (Append footer)
  end.

Definition RecordWriter_Close : MW Status :=
  w ← get;
  match dest_ w with
  | None => mret OK
  | Some _ =>
      if zlib_compressed w then
        st ← on_dest Close;
        put (mkWriter None (zlib_compressed w));;
        mret st
      else mret OK
  end.

Definition RecordWriter_Flush : MW Status :=
  w ← get;
  match dest_ w with None => mret (Err FAILED_PRECONDITION) | Some _ => on_dest Flush end.

End writer.

(** ** Reading *)

Record Stats := mkStats { file_size : Z; data_size : Z; entries : Z }.

Section reader.
Context {S : Type} `{InputStreamInterface S}.

Record RecordReader := mkReader {
  input_stream_ : S;
  last_read_failed_ : bool;
  cached_metadata_ : option Stats
}.

Definition RecordReader_new (stream : S) : RecordReader := mkReader stream false None.

Abbreviation MR := (M RecordReader).

Definition on_stream {A} (m : M S A) : MR A := fun r =>
  match m (input_stream_ r) with
  | Val (a, s) => Val (a, mkReader s (last_read_failed_ r) (cached_metadata_ r))
  | Crash => Crash
  | NoFuel => NoFuel
  end.

Definition set_failed (b : bool) : MR unit :=
  modify (fun r => mkReader (input_stream_ r) b (cached_metadata_ r)).

Definition ReadChecksummed (n : Z) (result : list Z) : MR (Status * list Z) :=
  if SIZE_MAX - 4 <=? n then mret (Err DATA_LOSS, result)
  else
    let expected := n + 4 in
    '(st, result) ← on_stream (ReadNBytes (i64 expected) result);
    if negb (ok st) then mret (st, result)
    else if negb (Z.of_nat (length result) =? expected) then
      mret (Err (if bool_decide (result = []) then OUT_OF_RANGE else DATA_LOSS), result)
    else
      masked_crc ← of_option (DecodeFixed32 kLittleEndian (drop (Z.to_nat n) result));
      value ← of_option (Value (take (Z.to_nat n) result));
      if negb (Crc32c.Unmask masked_crc =? value) then mret (Err DATA_LOSS, result)
      else mret (OK, take (Z.to_nat n) result).

(** Positioning the stream at the record. *)
Definition position_stream (offset : Z) : MR Status :=
  r ← get;
  let curr_pos := Tell (input_stream_ r) in
  let desired_pos := i64 offset in
  if (desired_pos <? curr_pos) || (curr_pos <? 0) || ((curr_pos =? desired_pos) && last_read_failed_ r) then
    set_failed false;;
    st ← on_stream Reset;
    if negb (ok st) then mret st else on_stream (SkipNBytes desired_pos)
  else if curr_pos <? desired_pos then on_stream (SkipNBytes (desired_pos - curr_pos))
  else mret OK.

(** The status, the new value of [*offset] and that of [*record]. *)
Definition ReadRecord (offset : Z) (record : list Z) : MR (Status * Z * list Z) :=
  st ← position_stream offset;
  if negb (ok st) then mret (st, offset, record)
  else
    r ← get;
    CHECK (i64 offset =? Tell (input_stream_ r));;
    '(st, record) ← ReadChecksummed 8 record;
    if negb (ok st) then set_failed true;; mret (st, offset, record)
    else
      length ← of_option (DecodeFixed64 kLittleEndian record);
      '(st, record) ← ReadChecksummed length record;
      if negb (ok st) then
        set_failed true;;
        mret (if IsOutOfRange st then Err DATA_LOSS else st, offset, record)
      else
        let offset := u64 (offset + kHeaderSize + length + kFooterSize) in
        r ← get;
        CHECK (offset =? Tell (input_stream_ r));;
        mret (OK, offset, record).

(** The loop of [GetMetadata]. *)
Fixpoint GetMetadata_loop (fuel : nat) (record : list Z) (data_size entries : Z) : MR (Status * Z * Z) :=
  match fuel with
  | O => nofuel
  | Datatypes.S fuel =>
      '(st, record) ← ReadChecksummed 8 record;
      if negb (ok st) then mret (if IsOutOfRange st then OK else st, data_size, entries)
      else
        length ← of_option (DecodeFixed64 kLittleEndian record);
        st ← on_stream (SkipNBytes (i64 (length + kFooterSize)));
        if negb (ok st) then mret (st, data_size, entries)
        else GetMetadata_loop fuel record (i64 (data_size + length)) (entries + 1)
  end.

Definition GetMetadata (fuel : nat) : MR (Status * option Stats) :=
  r ← get;
  match cached_metadata_ r with
  | Some stats => mret (OK, Some stats)
  | None =>
      st ← on_stream Reset;
      if negb (ok st) then mret (st, None)
      else
        '(st, data_size, entries) ← GetMetadata_loop fuel [] 0 0;
        if negb (ok st) then mret (st, None)
        else
          let stats := mkStats (i64 (data_size + (kHeaderSize + kFooterSize) * entries)) data_size entries in
          modify (fun r => mkReader (input_stream_ r) (last_read_failed_ r) (Some stats));;
          mret (OK, Some stats)
  end.

(** ** Sequential reading *)

Record SequentialRecordReader := mkSequential { underlying_ : RecordReader; offset_ : Z }.

Definition SequentialRecordReader_new (stream : S) : SequentialRecordReader := mkSequential (RecordReader_new stream) 0.

Definition Sequential_ReadRecord (record : list Z) : M SequentialRecordReader (Status * list Z) := fun r =>
  match ReadRecord (offset_ r) record (underlying_ r) with
  | Val ((st, offset, record), u) => Val ((st, record), mkSequential u offset)
  | Crash => Crash
  | NoFuel => NoFuel
  end.

Definition TellOffset (r : SequentialRecordReader) : Z := offset_ r.

Definition SeekOffset (offset : Z) : M SequentialRecordReader Status :=
  r ← get;
  if offset <? offset_ r then mret (Err INVALID_ARGUMENT)
  else put (mkSequential (underlying_ r) offset);; mret OK.

End reader.
End record.
End RecordFile.
