(* ===== verification/RecordFileProofs.v ===== *)
(** * Files of records: what the writer and the reader do

    The bytes of a record, and an exact account of reading at any offset of any file. *)

From S2P Require Import Prelude Coding Crc32c Crc32cTheorems InputStream InputStreamProofs RecordFile.
Import Coding RecordFile.

#[local] Open Scope runtime_scope.

(** ** The format *)

Definition length_bytes (n : Z) : list Z := le_bytes 8 n.
Definition checksum (data : list Z) : list Z := le_bytes 4 (Crc32c.Mask (crc32c 0 data)).
Definition frame (r : list Z) : list Z :=
  (length_bytes (Z.of_nat (length r)) ++ checksum (length_bytes (Z.of_nat (length r)))) ++ r ++ checksum r.

Lemma le_bytes_byte w v : Forall byte (le_bytes w v).
Proof. exact (le_bytes_range w v). Qed.

Lemma le_bytes_len w v : length (le_bytes w v) = w.
Proof. revert v. induction w as [|w IH]; intros v; cbn; [done|by rewrite IH]. Qed.

Lemma word_0 : word32 0.
Proof. unfold word32. lia. Qed.
#[local] Hint Resolve word_0 : core.

Lemma mask_word data : Forall byte data -> word32 (Crc32c.Mask (crc32c 0 data)).
Proof. intros Hd. apply Unmask_Mask, crc32c_word; done. Qed.

Lemma frame_length r : Z.of_nat (length (frame r)) = 16 + Z.of_nat (length r).
Proof. unfold frame, length_bytes, checksum. rewrite !length_app, !le_bytes_len. lia. Qed.

(** Four bytes are a checksum exactly when their number unmasks to it. *)
Lemma checksum_read le data stored : Forall byte data -> Forall byte stored -> length stored = 4%nat ->
  exists m, DecodeFixed32 le stored = Some m /\ (Crc32c.Unmask m =? crc32c 0 data) = bool_decide (stored = checksum data).
Proof.
  intros Hd Hs Hl. destruct stored as [|b0 [|b1 [|b2 [|b3 [|? ?]]]]]; try done. exists (le_value [b0; b1; b2; b3]).
  split; [destruct le; [done|by apply DecodeFixed32_be]|]. pose proof (le_value_word _ Hs) as Hw. destruct (Z.eqb_spec (Crc32c.Unmask (le_value [b0; b1; b2; b3])) (crc32c 0 data)) as [E|E].
  - symmetry. apply bool_decide_eq_true. unfold checksum. rewrite <- E. destruct (Mask_Unmask _ Hw) as [_ ->].
    apply le_value_inj; [done|done|apply le_bytes_byte|]. by rewrite le_bytes_value.
  - symmetry. apply bool_decide_eq_false. intros E1. apply E. rewrite E1. unfold checksum. rewrite le_bytes_value by (apply mask_word; done). by apply Unmask_Mask, crc32c_word.
Qed.

Section records.
Context (le acc : bool) (mm8 mm64 : Z -> Z -> Z) (address : list Z -> Z).
Context (H8 : instruction_u8 mm8) (H64 : instruction_u64 mm64).

Lemma Value_run data : Forall byte data -> RecordFile.Value le acc mm8 mm64 address data = Some (crc32c 0 data).
Proof using H8 H64. intros Hd. by apply Extend_run. Qed.

Lemma PopulateHeader_run n : PopulateHeader le acc mm8 mm64 address n = Some (length_bytes n ++ checksum (length_bytes n)).
Proof using H8 H64.
  unfold PopulateHeader, MaskedCrc. destruct (EncodeFixed_le le n) as (_ & _ & ->). rewrite Value_run by apply le_bytes_byte. cbn [mbind option_bind].
  by destruct (EncodeFixed_le le (Crc32c.Mask (crc32c 0 (le_bytes 8 n)))) as (_ & -> & _).
Qed.

Lemma PopulateFooter_run data : Forall byte data -> PopulateFooter le acc mm8 mm64 address data = Some (checksum data).
Proof using H8 H64.
  intros Hd. unfold PopulateFooter, MaskedCrc. rewrite Value_run by done. cbn [mbind option_bind].
  by destruct (EncodeFixed_le le (Crc32c.Mask (crc32c 0 data))) as (_ & -> & _).
Qed.

(** ** Reading at any offset of any file *)

Section reader.
Context {St : Type} `{Hstream : StreamOf St content}.
Context (Hbytes : Forall byte content) (Hlen : Z.of_nat (length content) < 2 ^ 63).
Abbreviation len := (Z.of_nat (length content)).
Abbreviation R := (@RecordReader St).

Lemma slice_bytes p n : Forall byte (slice content p n).
Proof using Hbytes. apply Forall_take, Forall_drop. exact Hbytes. Qed.

(** What [ReadChecksummed] says of the [n] bytes at [p]. *)
Definition check (p n : Z) : Status :=
  if SIZE_MAX - 4 <=? n then Err DATA_LOSS
  else if 2 ^ 63 <=? n + 4 then Err INVALID_ARGUMENT
  else if len <? p + n + 4 then Err OUT_OF_RANGE
  else if bool_decide (slice content (p + n) 4 = checksum (slice content p n)) then OK else Err DATA_LOSS.

Definition at_position (r : R) (p : Z) : Prop := stream_inv (input_stream_ r) /\ position (input_stream_ r) = p.

(** A call of the stream. *)
Lemma wp_on_stream {A} (m : M St A) (r : R) (Q : A -> R -> Prop) :
  wp true m (input_stream_ r) (fun a s => Q a (mkReader s (last_read_failed_ r) (cached_metadata_ r))) -> wp true (on_stream m) r Q.
Proof using Type. unfold wp, on_stream. by destruct (m (input_stream_ r)) as [[a s]| |]. Qed.

Lemma ReadChecksummed_spec r p n res : at_position r p -> 0 <= n < 2 ^ 64 ->
  ReadChecksummed le acc mm8 mm64 address n res @ r ⇓ fun '(st, out) r' =>
    stream_inv (input_stream_ r') /\ last_read_failed_ r' = last_read_failed_ r /\ cached_metadata_ r' = cached_metadata_ r
    /\ st = check p n /\ (st = OK -> out = slice content p n /\ position (input_stream_ r') = p + n + 4 /\ p + n + 4 <= len).
Proof using All.
  intros [Hi Ep] Hn. pose proof (position_range _ Hi) as Hr. rewrite Ep in Hr. unfold ReadChecksummed, check. destruct (SIZE_MAX - 4 <=? n) eqn:Emax; [by wp_steps|].
  unfold SIZE_MAX in Emax. wp_step. apply wp_on_stream. destruct (Z.leb_spec (2 ^ 63) (n + 4)) as [Hbig|Hsmall].
  { assert (i64 (n + 4) < 0) as Hneg. { unfold i64. replace (n + 4 + 2 ^ 63) with (n + 4 - 2 ^ 63 + 1 * 2 ^ 64) by lia. rewrite Z.mod_add, Z.mod_small by lia. lia. }
    unfold wp at 1. rewrite read_negative by done. cbn beta iota. cbn [ok negb]. wp_steps. done. }
  rewrite i64_small by lia. eapply wp_mono; [apply read_spec; [done|lia]|]. cbn beta. intros [st out] s (Hi' & -> & Ep' & ->). rewrite Ep in *.
  pose proof (slice_length content p (n + 4) Hr ltac:(lia)) as Hl. rewrite slice_enough by lia. destruct (Z.ltb_spec len (p + n + 4)) as [Hshort|Henough].
  { rewrite (proj2 (Z.leb_gt (p + (n + 4)) len)) by lia. cbn [ok negb]. wp_steps. done. }
  rewrite (proj2 (Z.leb_le (p + (n + 4)) len)) by lia. cbn [ok OK negb].
  rewrite slice_app by lia. assert (length (slice content p n) = Z.to_nat n) as Hln by (pose proof (slice_length content p n Hr ltac:(lia)); lia).
  rewrite drop_app_length', take_app_length' by done. assert (length (slice content (p + n) 4) = 4%nat) as Hl4 by (pose proof (slice_length content (p + n) 4 ltac:(lia) ltac:(lia)); lia).
  destruct (checksum_read le (slice content p n) (slice content (p + n) 4) (slice_bytes _ _) (slice_bytes _ _) Hl4) as (m & Em & Eb).
  wp_steps. eapply wp_of_option; [exact Em|]. wp_steps. eapply wp_of_option; [apply Value_run, slice_bytes|]. rewrite Eb. case_bool_decide; cbn [negb]; wp_steps; cbn [input_stream_ last_read_failed_ cached_metadata_].
  - split_and!; try done. intros _. split_and!; done || lia.
  - done.
Qed.

Lemma position_stream_spec r o : stream_inv (input_stream_ r) -> 0 <= o < 2 ^ 63 ->
  position_stream o @ r ⇓ fun st r' => at_position r' (Z.min o len) /\ cached_metadata_ r' = cached_metadata_ r /\ st = (if o <=? len then OK else Err OUT_OF_RANGE).
Proof using All.
  intros Hi Ho. pose proof (position_range _ Hi) as Hr. unfold position_stream. wp_steps. rewrite (tell_spec _ Hi), i64_small by lia. set (p := position (input_stream_ r)) in *.
  rewrite (proj2 (Z.ltb_ge p 0)) by lia. rewrite orb_false_r. destruct ((o <? p) || ((p =? o) && last_read_failed_ r)) eqn:Eback.
  - unfold set_failed. wp_steps. apply wp_on_stream. cbn [input_stream_ last_read_failed_ cached_metadata_]. eapply wp_mono; [by apply reset_spec|]. cbn beta. intros st s (Hi' & Ep & ->). cbn [ok OK negb].
    apply wp_on_stream. cbn [input_stream_ last_read_failed_ cached_metadata_]. eapply wp_mono; [apply skip_spec; [done|lia|lia]|]. cbn beta. rewrite Ep, Z.add_0_l. intros st s2 (Hi2 & Ep2 & ->). done.
  - apply orb_false_iff in Eback as [Hge%Z.ltb_ge _]. destruct (Z.ltb_spec p o).
    + apply wp_on_stream. eapply wp_mono; [apply skip_spec; [done|lia|fold p; lia]|]. fold p. rewrite Zplus_minus. cbn beta. intros st s2 (Hi2 & Ep2 & ->). done.
    + wp_steps. rewrite (proj2 (Z.leb_le o len)) by lia. split_and!; [split; [done|fold p; lia]|done|done].
Qed.

Definition record_length (o : Z) : Z := le_value (slice content o 8).

(** What [ReadRecord] says at the offset [o]. *)
Definition record_status (o : Z) : Status :=
  if len <? o then Err OUT_OF_RANGE
  else if ok (check o 8) then
    let st := check (o + kHeaderSize) (record_length o) in if IsOutOfRange st then Err DATA_LOSS else st
  else check o 8.

Lemma record_length_range o : 0 <= o -> o + 12 <= len -> 0 <= record_length o < 2 ^ 64 /\ DecodeFixed64 le (slice content o 8) = Some (record_length o).
Proof using Hbytes.
  intros Ho Hle. unfold record_length. pose proof (slice_bytes o 8) as Hb. pose proof (slice_length content o 8 ltac:(lia) ltac:(lia)) as Hl. revert Hb Hl.
  generalize (slice content o 8). intros l Hb Hl. destruct l as [|b0 [|b1 [|b2 [|b3 [|b4 [|b5 [|b6 [|b7 [|? ?]]]]]]]]]; cbn in Hl; try lia.
  split; [exact (le_value_word _ Hb)|]. destruct le; [done|]. by apply DecodeFixed64_be.
Qed.

Lemma ReadRecord_spec r o res : stream_inv (input_stream_ r) -> 0 <= o < 2 ^ 63 ->
  ReadRecord le acc mm8 mm64 address o res @ r ⇓ fun '(st, o', out) r' =>
    stream_inv (input_stream_ r') /\ st = record_status o
    /\ (if ok st then out = slice content (o + kHeaderSize) (record_length o) /\ o' = o + kHeaderSize + record_length o + kFooterSize /\ o' <= len else o' = o).
Proof using All.
  intros Hi Ho. unfold ReadRecord, record_status. wp_step. eapply wp_mono; [by apply position_stream_spec|]. cbn beta. intros st r1 ([Hi1 Ep1] & Ec1 & ->).
  destruct (Z.leb_spec o len) as [Hin|Hout]; cycle 1. { rewrite (proj2 (Z.ltb_lt len o)) by done. cbn [ok negb]. wp_steps. done. }
  rewrite (proj2 (Z.ltb_ge len o)) by done. cbn [ok OK negb]. wp_steps. rewrite Z.min_l in Ep1 by done. rewrite (tell_spec _ Hi1), Ep1, i64_small by lia. apply wp_CHECK; [apply Z.eqb_refl|].
  wp_steps. eapply wp_mono; [apply (ReadChecksummed_spec r1 o 8); [done|lia]|]. cbn beta. intros [st out] r2 (Hi2 & _ & _ & -> & Hok).
  destruct (ok (check o 8)) eqn:Ehd; cbn [negb]; cycle 1. { unfold set_failed. wp_steps. cbn [input_stream_]. by rewrite Ehd. }
  destruct Hok as (-> & Ep2 & Hle2); [by destruct (check o 8) as [[]|]|]. destruct (record_length_range o ltac:(lia) ltac:(lia)) as [Hrl Ed].
  wp_steps. eapply wp_of_option; [exact Ed|]. wp_steps. eapply wp_mono; [apply (ReadChecksummed_spec r2 (o + kHeaderSize) (record_length o)); [split; [done|unfold kHeaderSize; lia]|done]|].
  cbn beta. intros [st out] r3 (Hi3 & _ & _ & -> & Hok). destruct (ok (check (o + kHeaderSize) (record_length o))) eqn:Edata; cbn [negb]; cycle 1.
  { unfold set_failed. wp_steps. cbn [input_stream_]. destruct (check (o + kHeaderSize) (record_length o)) as [|[]]; done. }
  assert (check (o + kHeaderSize) (record_length o) = OK) as EOK by (by revert Edata; destruct (check (o + kHeaderSize) (record_length o)) as [[]|]). destruct (Hok EOK) as (-> & Ep3 & Hle3).
  wp_steps. unfold kHeaderSize, kFooterSize in *. rewrite (tell_spec _ Hi3), Ep3, u64_small by lia. apply wp_CHECK; [apply Z.eqb_eq; lia|]. wp_steps. rewrite EOK. cbn [IsOutOfRange OK ok]. split_and!; done || lia.
Qed.

End reader.
End records.
