(* ===== verification/RecordFileTheorems.v ===== *)
(** * Files of records: the theorems *)

From S2P Require Import Prelude Coding Crc32c Crc32cTheorems InputStream InputStreamProofs BufferedStream RecordFile RecordFileProofs.
Import Coding RecordFile.

#[local] Open Scope runtime_scope.

(** ** Records in a file *)

Lemma slice_mid (a b c : list Z) : slice (a ++ b ++ c) (Z.of_nat (length a)) (Z.of_nat (length b)) = b.
Proof. unfold slice. by rewrite !Nat2Z.id, drop_app_length, take_app_length. Qed.

(** The part of a list that comes after [a]. *)
Lemma slice_at (l a b c : list Z) p n : l = a ++ b ++ c -> p = Z.of_nat (length a) -> n = Z.of_nat (length b) -> slice l p n = b.
Proof. intros -> -> ->. apply slice_mid. Qed.

Definition records (rs : list (list Z)) : list Z := concat (map frame rs).
Definition offset (rs : list (list Z)) (i : nat) : Z := Z.of_nat (length (records (take i rs))).

(** Records of bytes that fit a file. *)
Definition storable_records (rs : list (list Z)) : Prop := Forall (Forall byte) rs /\ Z.of_nat (length (records rs)) < 2 ^ 63.

Lemma frame_bytes r : Forall byte r -> Forall byte (frame r).
Proof.
  intros Hr. unfold frame, length_bytes, checksum. apply Forall_app. split; [apply Forall_app; split; apply le_bytes_byte|]. apply Forall_app. split; [done|apply le_bytes_byte].
Qed.

Lemma records_bytes rs : Forall (Forall byte) rs -> Forall byte (records rs).
Proof. induction 1 as [|r rs Hr _ IH]; [constructor|]. change (Forall byte (frame r ++ records rs)). apply Forall_app. split; [by apply frame_bytes|done]. Qed.

Lemma records_split rs i r : rs !! i = Some r -> records rs = records (take i rs) ++ frame r ++ records (drop (S i) rs).
Proof. intros Hi. rewrite <- (take_drop_middle rs i r Hi) at 1. unfold records. by rewrite map_app, concat_app. Qed.

Lemma offset_S rs i r : rs !! i = Some r -> offset rs (S i) = offset rs i + 16 + Z.of_nat (length r).
Proof.
  intros Hi. unfold offset. rewrite (take_S_r _ _ _ Hi). unfold records. rewrite map_app, concat_app, length_app. cbn [map concat]. rewrite app_nil_r.
  pose proof (frame_length r). lia.
Qed.

Lemma offset_end rs i : (length rs <= i)%nat -> offset rs i = Z.of_nat (length (records rs)).
Proof. intros Hi. unfold offset. by rewrite take_ge. Qed.

Lemma offset_le rs i : 0 <= offset rs i <= Z.of_nat (length (records rs)).
Proof. unfold offset. split; [lia|]. rewrite <- (take_drop i rs) at 2. unfold records. rewrite map_app, concat_app, length_app. lia. Qed.

(** The parts of a record at its place. *)
Section frame_at.
Context (pre r post : list Z).
Let content := pre ++ frame r ++ post.
Let o := Z.of_nat (length pre).
Let n := Z.of_nat (length r).

Lemma frame_parts :
  slice content o 8 = length_bytes n /\ slice content (o + 8) 4 = checksum (length_bytes n)
  /\ slice content (o + 12) n = r /\ slice content (o + 12 + n) 4 = checksum r.
Proof using Type.
  assert (length (length_bytes n) = 8%nat /\ forall d, length (checksum d) = 4%nat) as [L8 L4] by (unfold length_bytes, checksum; split; intros; apply le_bytes_len).
  unfold content, frame. fold n. split_and!.
  - apply (slice_at _ pre _ (checksum (length_bytes n) ++ r ++ checksum r ++ post)); [by rewrite <- !app_assoc|done|lia].
  - apply (slice_at _ (pre ++ length_bytes n) _ (r ++ checksum r ++ post)); [by rewrite <- !app_assoc|rewrite length_app, L8; unfold o; lia|rewrite L4; lia].
  - apply (slice_at _ (pre ++ length_bytes n ++ checksum (length_bytes n)) _ (checksum r ++ post)); [by rewrite <- !app_assoc|rewrite !length_app, L8, L4; unfold o; lia|done].
  - apply (slice_at _ (pre ++ length_bytes n ++ checksum (length_bytes n) ++ r) _ post); [by rewrite <- !app_assoc|rewrite !length_app, L8, L4; unfold o, n; lia|rewrite L4; lia].
Qed.

Lemma frame_room : Z.of_nat (length content) = o + 16 + n + Z.of_nat (length post).
Proof using Type. unfold content. rewrite !length_app. pose proof (frame_length r). unfold o, n. lia. Qed.

Context (Hmax : Z.of_nat (length content) < 2 ^ 63).

Lemma frame_record_length : record_length (content := content) o = n.
Proof using Hmax.
  unfold record_length. destruct frame_parts as (-> & _). unfold length_bytes. apply le_bytes_value. pose proof frame_room. unfold n in *. lia.
Qed.

Lemma frame_check_header : check (content := content) o 8 = OK.
Proof using Hmax.
  unfold check, SIZE_MAX. pose proof frame_room. rewrite (proj2 (Z.leb_gt _ 8)), (proj2 (Z.leb_gt _ (8 + 4))), (proj2 (Z.ltb_ge _ (o + 8 + 4))) by (unfold o, n in *; lia).
  destruct frame_parts as (-> & -> & _). by rewrite bool_decide_eq_true_2.
Qed.

Lemma frame_check_data : check (content := content) (o + kHeaderSize) n = OK.
Proof using Hmax.
  unfold check, SIZE_MAX, kHeaderSize. pose proof frame_room. rewrite (proj2 (Z.leb_gt _ n)), (proj2 (Z.leb_gt _ (n + 4))), (proj2 (Z.ltb_ge _ (o + 12 + n + 4))) by (unfold o, n in *; lia).
  destruct frame_parts as (_ & _ & -> & ->). by rewrite bool_decide_eq_true_2.
Qed.

Lemma frame_status : record_status (content := content) o = OK /\ slice content (o + kHeaderSize) n = r.
Proof using Hmax.
  split; [|apply frame_parts]. unfold record_status. pose proof frame_room. rewrite (proj2 (Z.ltb_ge _ o)) by (unfold o, n in *; lia).
  by rewrite frame_check_header, frame_record_length, frame_check_data.
Qed.

End frame_at.

(** ** Writing *)

(** What a file that does not fail promises. *)
Class AppendOnly (F : Type) `{WritableFile F} := {
  file_bytes : F -> list Z;
  append_spec : forall d f, Append d @ f ⇓ fun st f' => st = OK /\ file_bytes f' = file_bytes f ++ d
}.

(** ** Several records *)

Section sequences.
Context (le acc : bool) (mm8 mm64 : Z -> Z -> Z) (address : list Z -> Z).

Fixpoint WriteAll {F} `{WritableFile F} (rs : list (list Z)) : M (@RecordWriter F) Status :=
  match rs with
  | [] => mret OK
  | r :: rs => st ← WriteRecord le acc mm8 mm64 address r; if ok st then WriteAll rs else mret st
  end.

(** Records until the first error. *)
Fixpoint ReadSequence {St} `{InputStreamInterface St} (fuel : nat) (record : list Z) : M (@SequentialRecordReader St) (list (list Z) * Status) :=
  match fuel with
  | O => nofuel
  | S fuel =>
      '(st, record) ← Sequential_ReadRecord le acc mm8 mm64 address record;
      if ok st then '(rs, st) ← ReadSequence fuel record; mret (record :: rs, st) else mret ([], st)
  end.

Context (H8 : instruction_u8 mm8) (H64 : instruction_u64 mm64).

Lemma wp_on_dest {F} `{AppendOnly F} d w f (Q : Status -> RecordWriter -> Prop) :
  dest_ w = Some f -> (forall f', file_bytes f' = file_bytes f ++ d -> Q OK (mkWriter (Some f') (zlib_compressed w))) -> wp true (on_dest (Append d)) w Q.
Proof using Type.
  intros Ed HQ. unfold wp, on_dest. rewrite Ed. destruct (wp_total _ _ _ (append_spec d f)) as (st & f' & -> & -> & Hf). by apply HQ.
Qed.

Lemma WriteRecord_spec {F} `{AppendOnly F} r w f : Forall byte r -> dest_ w = Some f ->
  WriteRecord le acc mm8 mm64 address r @ w ⇓ fun st w' => st = OK /\ exists f', dest_ w' = Some f' /\ file_bytes f' = file_bytes f ++ frame r.
Proof using H8 H64.
  intros Hr Ed. unfold WriteRecord. wp_steps. rewrite Ed. wp_step. eapply wp_of_option; [by apply PopulateHeader_run|]. wp_step. eapply wp_of_option; [by apply PopulateFooter_run|].
  wp_step. eapply wp_on_dest; [done|]. intros f1 E1. cbn [ok OK negb]. wp_step. eapply wp_on_dest; [done|]. intros f2 E2. cbn [ok OK negb].
  eapply wp_on_dest; [done|]. intros f3 E3. split; [done|]. exists f3. split; [done|]. rewrite E3, E2, E1. unfold frame. by rewrite <- !app_assoc.
Qed.

Lemma WriteAll_spec {F} `{AppendOnly F} rs : forall w f, Forall (Forall byte) rs -> dest_ w = Some f ->
  WriteAll rs @ w ⇓ fun st w' => st = OK /\ exists f', dest_ w' = Some f' /\ file_bytes f' = file_bytes f ++ records rs.
Proof using H8 H64.
  induction rs as [|r rs IH]; intros w f Hrs Ed; cbn [WriteAll].
  { wp_steps. split; [done|]. exists f. by rewrite app_nil_r. }
  apply Forall_cons in Hrs as [Hr Hrs]. wp_step. eapply wp_mono; [by apply WriteRecord_spec|]. cbn beta. intros st w1 (-> & f1 & Ed1 & E1). cbn [ok OK].
  eapply wp_mono; [by apply (IH w1 f1)|]. cbn beta. intros st w2 (-> & f2 & Ed2 & E2). split; [done|]. exists f2. split; [done|]. rewrite E2, E1. unfold records. cbn [map concat]. by rewrite <- app_assoc.
Qed.

(** ** Reading them back *)

Section reader.
Context (rs : list (list Z)) {St : Type} `{Hstream : StreamOf St (records rs)} (Hrs : storable_records rs).

Lemma read_record_at r i x res : stream_inv (input_stream_ r) -> rs !! i = Some x ->
  ReadRecord le acc mm8 mm64 address (offset rs i) res @ r ⇓ fun '(st, o', out) r' =>
    stream_inv (input_stream_ r') /\ st = OK /\ o' = offset rs (S i) /\ out = x.
Proof using All.
  intros Hi Hx. destruct Hrs as [Hb Hl]. pose proof (offset_le rs i) as Ho. pose proof (records_split rs i x Hx) as Es.
  eapply wp_mono; [apply (ReadRecord_spec le acc mm8 mm64 address H8 H64 (records_bytes rs Hb) Hl r (offset rs i) res Hi); lia|].
  cbn beta. intros [[st o'] out] r' (Hi' & Est & Hc). unfold offset in Est, Hc. assert (Z.of_nat (length (records rs)) < 2 ^ 63) as Hl' by done. rewrite Es in Hl'.
  pose proof (frame_status (records (take i rs)) x (records (drop (S i) rs)) Hl') as [Hst Hsl]. rewrite <- Es in Hst, Hsl.
  pose proof (frame_record_length (records (take i rs)) x (records (drop (S i) rs)) Hl') as Hrl. rewrite <- Es in Hrl.
  rewrite Hst in Est. rewrite Est in Hc. cbn [ok OK] in Hc. rewrite Hrl in Hc. rewrite Hsl in Hc. destruct Hc as (-> & -> & _).
  split_and!; [done|done| |done]. rewrite (offset_S rs i x Hx). unfold offset, kHeaderSize, kFooterSize. lia.
Qed.

(** The end of the file. *)
Lemma read_record_end r res : stream_inv (input_stream_ r) ->
  ReadRecord le acc mm8 mm64 address (offset rs (length rs)) res @ r ⇓ fun '(st, o', out) r' =>
    stream_inv (input_stream_ r') /\ st = Err OUT_OF_RANGE /\ o' = offset rs (length rs).
Proof using All.
  intros Hi. destruct Hrs as [Hb Hl]. rewrite offset_end by lia.
  eapply wp_mono; [apply (ReadRecord_spec le acc mm8 mm64 address H8 H64 (records_bytes rs Hb) Hl r _ res Hi); lia|].
  cbn beta. intros [[st o'] out] r' (Hi' & Est & Hc).
  assert (st = Err OUT_OF_RANGE) as ->; [|done]. rewrite Est. unfold record_status, check, SIZE_MAX. rewrite (proj2 (Z.ltb_ge _ (Z.of_nat (length (records rs))))) by lia.
  rewrite (proj2 (Z.leb_gt _ 8)), (proj2 (Z.leb_gt _ (8 + 4))), (proj2 (Z.ltb_lt _ (_ + 8 + 4))) by lia. done.
Qed.

Lemma read_sequence fuel : forall i r res, stream_inv (input_stream_ (underlying_ r)) -> offset_ r = offset rs i -> (i <= length rs)%nat -> (length rs - i < fuel)%nat ->
  ReadSequence fuel res @ r ⇓ fun '(out, st) _ => out = drop i rs /\ st = Err OUT_OF_RANGE.
Proof using All.
  induction fuel as [|fuel IH]; intros i r res Hi Eo Hi' Hf; [lia|]. cbn [ReadSequence]. wp_step. unfold wp at 1, Sequential_ReadRecord. rewrite Eo. destruct (rs !! i) as [x|] eqn:Hx.
  - destruct (wp_total _ _ _ (read_record_at (underlying_ r) i x res Hi Hx)) as ([[st o'] out] & u & -> & Hu & -> & -> & ->). cbn [ok OK]. wp_step.
    pose proof (lookup_lt_Some _ _ _ Hx). eapply wp_mono; [apply (IH (S i)); [done|done|lia|lia]|]. cbn beta. intros [out st] r2 [-> ->]. wp_steps. split; [|done]. by rewrite (drop_S _ _ _ Hx).
  - apply lookup_ge_None in Hx. assert (i = length rs) as -> by lia.
    destruct (wp_total _ _ _ (read_record_end (underlying_ r) res Hi)) as ([[st o'] out] & u & -> & Hu & -> & ->). cbn [ok]. wp_steps. by rewrite drop_all.
Qed.

(** ** Statistics *)

Definition total (l : list (list Z)) : Z := zsum (map (fun r => Z.of_nat (length r)) l).

Lemma total_records l : Z.of_nat (length (records l)) = total l + 16 * Z.of_nat (length l).
Proof using Type.
  clear. unfold records, total. induction l as [|r l IH]; [done|]. cbn [map concat zsum foldr length]. rewrite length_app. pose proof (frame_length r). unfold zsum in *. lia.
Qed.

Lemma total_bytes_nonneg l : 0 <= total l.
Proof using Type. clear. unfold total. apply zsum_nonneg, Forall_map, Forall_forall. intros x _. lia. Qed.

Lemma metadata_loop fuel : forall i r res d, at_position r (offset rs i) -> (i <= length rs)%nat -> (length rs - i < fuel)%nat -> d = total (take i rs) ->
  GetMetadata_loop le acc mm8 mm64 address fuel res d (Z.of_nat i) @ r ⇓ fun '(st, d', n) r' =>
    stream_inv (input_stream_ r') /\ st = OK /\ d' = total rs /\ n = Z.of_nat (length rs).
Proof using All.
  induction fuel as [|fuel IH]; intros i r res d Hat Hi Hf Ed; [lia|]. destruct Hrs as [Hb Hl]. cbn [GetMetadata_loop]. wp_step.
  eapply wp_mono; [apply (ReadChecksummed_spec le acc mm8 mm64 address H8 H64 (records_bytes rs Hb) Hl r (offset rs i) 8 res Hat); lia|]. cbn beta. intros [st out] r1 (Hi1 & _ & _ & -> & Hok).
  destruct (rs !! i) as [x|] eqn:Hx.
  - pose proof (records_split rs i x Hx) as Es. assert (Z.of_nat (length (records rs)) < 2 ^ 63) as Hl' by done. rewrite Es in Hl'.
    pose proof (frame_check_header (records (take i rs)) x (records (drop (S i) rs)) Hl') as Hh. rewrite <- Es in Hh. fold (offset rs i) in Hh. rewrite Hh in Hok |- *. cbn [ok OK negb].
    destruct (Hok eq_refl) as (-> & Ep1 & Hle1). destruct (record_length_range (content := records rs) le (records_bytes rs Hb) (offset rs i)) as [_ Edl]; [apply offset_le|lia|].
    wp_step. eapply wp_of_option; [exact Edl|]. pose proof (frame_record_length (records (take i rs)) x (records (drop (S i) rs)) Hl') as Hrl. rewrite <- Es in Hrl. fold (offset rs i) in Hrl. rewrite Hrl.
    pose proof (offset_S rs i x Hx) as EoS. pose proof (offset_le rs (S i)) as HoS. pose proof (offset_le rs i). unfold kFooterSize. rewrite (i64_small (Z.of_nat (length x) + 4)) by lia. wp_step. apply wp_on_stream.
    eapply wp_mono; [apply skip_spec; [done|lia|lia]|]. cbn beta. rewrite Ep1. intros st s2 (Hi2 & Ep2 & ->). rewrite (proj2 (Z.leb_le _ (Z.of_nat (length (records rs))))) by lia. cbn [ok OK negb].
    assert (total (take (S i) rs) = total (take i rs) + Z.of_nat (length x)) as Et by (rewrite (take_S_r _ _ _ Hx); unfold total; rewrite map_app, zsum_app; cbn; lia).
    assert (total (take (S i) rs) <= total rs) as Htot by (rewrite <- (take_drop (S i) rs) at 2; unfold total; rewrite map_app, zsum_app; pose proof (total_bytes_nonneg (drop (S i) rs)); unfold total in *; lia).
    pose proof (total_records rs). pose proof (total_bytes_nonneg (take i rs)). rewrite i64_small by lia. replace (Z.of_nat i + 1) with (Z.of_nat (S i)) by lia. pose proof (lookup_lt_Some _ _ _ Hx).
    apply IH; [split; [done|cbn; rewrite Ep2; lia]|lia|lia|rewrite Et, Ed; done].
  - apply lookup_ge_None in Hx. assert (i = length rs) as -> by lia. assert (check (content := records rs) (offset rs (length rs)) 8 = Err OUT_OF_RANGE) as ->.
    { unfold check, SIZE_MAX. rewrite offset_end by lia. rewrite (proj2 (Z.leb_gt _ 8)), (proj2 (Z.leb_gt _ (8 + 4))), (proj2 (Z.ltb_lt _ (_ + 8 + 4))) by lia. done. }
    cbn [ok negb IsOutOfRange]. wp_steps. rewrite Ed, firstn_all. done.
Qed.

Lemma GetMetadata_spec s : stream_inv s ->
  GetMetadata le acc mm8 mm64 address (S (length rs)) @ RecordReader_new s ⇓ fun '(st, stats) r' =>
    stream_inv (input_stream_ r') /\ st = OK /\ stats = Some (mkStats (Z.of_nat (length (records rs))) (total rs) (Z.of_nat (length rs)))
    /\ cached_metadata_ r' = stats.
Proof using All.
  intros Hi. unfold GetMetadata. wp_steps. cbn [cached_metadata_ RecordReader_new]. wp_step. apply wp_on_stream. cbn [input_stream_ RecordReader_new].
  eapply wp_mono; [by apply reset_spec|]. cbn beta. intros st s1 (Hi1 & Ep1 & ->). cbn [ok OK negb]. wp_step.
  eapply wp_mono; [apply (metadata_loop (S (length rs)) 0); [split; [done|exact Ep1]|lia|lia|done]|]. cbn beta. intros [[st d] n] r2 (Hi2 & -> & -> & ->). cbn [ok OK negb].
  wp_steps. pose proof (total_records rs) as Et. pose proof (proj2 Hrs). unfold kHeaderSize, kFooterSize. replace (total rs + (12 + 4) * Z.of_nat (length rs)) with (Z.of_nat (length (records rs))) by lia.
  rewrite i64_small by lia. done.
Qed.

End reader.
End sequences.

(** ** The theorem *)

(** C23: round trip. Records written one after the other to a file that does not fail make the file
    the concatenation of their frames.  Any stream over such a file gives the records back:
    reading in sequence returns all of them in order and then [OUT_OF_RANGE]; reading at the
    offset of any of them, in any order and from any state of the reader, returns that record
    and the offset of the next; and [GetMetadata] returns their number, the bytes of their
    data and the size of the file.  The host that writes and the one that reads may differ in
    byte order and in how they compute checksums. *)
Theorem record_round_trip (mm8 mm64 : Z -> Z -> Z) rs : instruction_u8 mm8 -> instruction_u64 mm64 -> storable_records rs ->
  (forall le acc address F (W : WritableFile F) (A : AppendOnly F) w f, dest_ w = Some f ->
     WriteAll le acc mm8 mm64 address rs @ w ⇓ fun st w' => st = OK /\ exists f', dest_ w' = Some f' /\ file_bytes f' = file_bytes f ++ records rs)
  /\ forall le acc address St (I : InputStreamInterface St) (P : @StreamOf St I (records rs)),
     (forall s, stream_inv s ->
        (ReadSequence le acc mm8 mm64 address (S (length rs)) [] @ SequentialRecordReader_new s ⇓ fun '(out, st) _ => out = rs /\ st = Err OUT_OF_RANGE)
        /\ (GetMetadata le acc mm8 mm64 address (S (length rs)) @ RecordReader_new s ⇓ fun '(st, stats) _ =>
              st = OK /\ stats = Some (mkStats (Z.of_nat (length (records rs))) (total rs) (Z.of_nat (length rs)))))
     /\ (forall r i x res, stream_inv (input_stream_ r) -> rs !! i = Some x ->
          ReadRecord le acc mm8 mm64 address (offset rs i) res @ r ⇓ fun '(st, o', out) r' =>
            stream_inv (input_stream_ r') /\ st = OK /\ o' = offset rs (S i) /\ out = x).
Proof.
  intros H8 H64 Hrs. split; [intros le acc address F W A w f; apply WriteAll_spec; [done|done|apply Hrs]|].
  intros le acc address St I P. split; [|intros r i x res; by apply read_record_at]. intros s Hi. split.
  - eapply wp_mono; [apply (read_sequence le acc mm8 mm64 address H8 H64 rs Hrs _ 0); [done|done|lia|lia]|]. by intros [out st] _.
  - eapply wp_mono; [by apply (GetMetadata_spec le acc mm8 mm64 address H8 H64 rs Hrs)|]. cbn beta. intros [st stats] r' (_ & -> & -> & _). done.
Qed.

(** A file in memory, written and read. *)
#[local] Instance memory_writable : WritableFile (list Z) :=
  { Append d := fun f => Val (OK, f ++ d); Flush := mret OK; Close := mret OK }.
#[local] Instance memory_append : AppendOnly (list Z) := { file_bytes f := f; append_spec d f := conj eq_refl eq_refl }.

Definition sample_records : list (list Z) := [[1; 2; 3]; []; [255]].

Lemma sample_storable : storable_records sample_records.
Proof. split; [repeat constructor; lia|vm_compute; reflexivity]. Qed.

Lemma record_round_trip_witness :
  let rs := sample_records in
  let I := RandomAccess.RandomAccess_stream (memory_file (records rs)) in
  (WriteAll true false crc32_u8 crc32_u64 (fun _ => 0) rs @ mkWriter (Some []) false ⇓ fun st w' => st = OK /\ exists f', dest_ w' = Some f' /\ file_bytes f' = file_bytes (F := list Z) [] ++ records rs)
  /\ (ReadSequence (H := I) false true crc32_u8 crc32_u64 (fun _ => 5) (S (length rs)) [] @ SequentialRecordReader_new RandomAccess.RandomAccessInputStream_new ⇓
       fun '(out, st) _ => out = rs /\ st = Err OUT_OF_RANGE).
Proof.
  intros rs I. subst rs.
  destruct (record_round_trip _ _ _ crc32_u8_instruction crc32_u64_instruction sample_storable) as [Hw Hr]. split; [exact (Hw true false (fun _ => 0) _ memory_writable memory_append (mkWriter (Some []) false) [] eq_refl)|].
  refine (proj1 (proj1 (Hr false true (fun _ => 5) _ I (random_stream_of _ _ (memory_file_of (records sample_records)))) RandomAccess.RandomAccessInputStream_new _)).
  cbn [stream_inv random_stream_of]. unfold random_inv. cbn [RandomAccess.pos_ RandomAccess.RandomAccessInputStream_new]. lia.
Defined.
