(* ===== verification/RecordIntegrity.v ===== *)
(** * Files of records: integrity

    What the reader accepts, and what it says of damaged and truncated files. *)

From S2P Require Import Prelude Coding Crc32c Crc32cTheorems InputStream InputStreamProofs BufferedStream RecordFile RecordFileProofs RecordFileTheorems.
Import Coding RecordFile.

#[local] Open Scope runtime_scope.

Section integrity.
Context (content : list Z) (Hbytes : Forall byte content) (Hlen : Z.of_nat (length content) < 2 ^ 63).
Abbreviation len := (Z.of_nat (length content)).

Lemma check_ok p n : 0 <= p -> 0 <= n -> check (content := content) p n = OK ->
  p + n + 4 <= len /\ slice content (p + n) 4 = checksum (slice content p n).
Proof using Type.
  intros Hp Hn. unfold check. destruct (SIZE_MAX - 4 <=? n); [done|]. destruct (2 ^ 63 <=? n + 4); [done|].
  destruct (Z.ltb_spec len (p + n + 4)); [done|]. case_bool_decide; [done|by intros].
Qed.

(** An accepted record is a frame of the file. *)
Lemma accepted_frame o : 0 <= o -> record_status (content := content) o = OK ->
  let x := slice content (o + kHeaderSize) (record_length (content := content) o) in
  Z.of_nat (length x) = record_length (content := content) o /\ o + 16 + Z.of_nat (length x) <= len
  /\ slice content o (16 + Z.of_nat (length x)) = frame x.
Proof using Hbytes.
  intros Ho. unfold record_status. destruct (Z.ltb_spec len o); [done|]. destruct (check (content := content) o 8) as [[]|] eqn:E8; cbn [ok]; [|done].
  destruct (check_ok o 8 Ho ltac:(lia) E8) as [Hle8 Es8]. destruct (record_length_range (content := content) true Hbytes o Ho ltac:(lia)) as [Hrl _].
  set (n := record_length (content := content) o) in *. unfold kHeaderSize. destruct (check (content := content) (o + 12) n) as [[]|c] eqn:En; [|by destruct c].
  destruct (check_ok (o + 12) n ltac:(lia) ltac:(lia) En) as [Hlen' Esn]. intros _. set (x := slice content (o + 12) n) in *.
  assert (Z.of_nat (length x) = n) as Hx by (unfold x; rewrite slice_length by lia; lia). rewrite Hx. split_and!; [done|lia|].
  assert (slice content o 8 = length_bytes n) as El.
  { assert (length (slice content o 8) = 8%nat) as L by (pose proof (slice_length content o 8 ltac:(lia) ltac:(lia)); lia).
    apply le_value_inj; [by rewrite L; unfold length_bytes; rewrite le_bytes_len|by apply slice_bytes|apply le_bytes_byte|]. unfold length_bytes. by rewrite le_bytes_value. }
  replace (16 + n) with (8 + (4 + (n + 4))) by lia. rewrite !slice_app by lia. replace (o + 8 + 4) with (o + 12) by lia. rewrite Es8, Esn, El. fold x. unfold frame. rewrite Hx. by rewrite <- app_assoc.
Qed.

(** A frame in the file is accepted. *)
Lemma frame_accepted o x : 0 <= o <= len -> slice content o (16 + Z.of_nat (length x)) = frame x ->
  record_status (content := content) o = OK /\ record_length (content := content) o = Z.of_nat (length x) /\ slice content (o + kHeaderSize) (Z.of_nat (length x)) = x.
Proof using Hlen.
  clear Hbytes. intros Ho Ef. assert (content = take (Z.to_nat o) content ++ frame x ++ drop (Z.to_nat (16 + Z.of_nat (length x))) (drop (Z.to_nat o) content)) as Ec.
  { rewrite <- Ef. unfold slice. by rewrite take_drop, take_drop. }
  assert (o = Z.of_nat (length (take (Z.to_nat o) content))) as Eo by (rewrite length_take; lia). clear Ef.
  revert Hlen Eo. generalize (take (Z.to_nat o) content), (drop (Z.to_nat (16 + Z.of_nat (length x))) (drop (Z.to_nat o) content)), Ec. clear Ec. intros pre post -> Hl ->.
  split; [by apply frame_status|]. split; [by apply frame_record_length|by apply frame_status].
Qed.
End integrity.

(** Integrity. On any file, however its bytes came about, and at any offset, [ReadRecord]
    returns; it returns a record exactly when the bytes at the offset are the frame of that record (its length, the
    checksum of the length, the data and the checksum of the data), and then the new offset is
    the one behind the frame; otherwise the offset is unchanged. *)
Lemma record_integrity (mm8 mm64 : Z -> Z -> Z) : instruction_u8 mm8 -> instruction_u64 mm64 ->
  forall le acc address content, Forall byte content -> Z.of_nat (length content) < 2 ^ 63 ->
  forall St (I : InputStreamInterface St) (P : @StreamOf St I content) r o res, stream_inv (input_stream_ r) -> 0 <= o < 2 ^ 63 ->
  ReadRecord le acc mm8 mm64 address o res @ r ⇓ fun '(st, o', out) r' =>
    stream_inv (input_stream_ r')
    /\ (st = OK -> slice content o (16 + Z.of_nat (length out)) = frame out /\ o' = o + 16 + Z.of_nat (length out) /\ o' <= Z.of_nat (length content))
    /\ (st <> OK -> o' = o /\ forall x, slice content o (16 + Z.of_nat (length x)) <> frame x).
Proof.
  intros H8 H64 le acc address content Hb Hl St I P r o res Hi Ho. eapply wp_mono; [by apply ReadRecord_spec|]. cbn beta. intros [[st o'] out] r' (Hi' & -> & Hc). split_and!; [done| |].
  - intros E. rewrite E in Hc. cbn [ok OK] in Hc. destruct Hc as (-> & -> & Hle). destruct (accepted_frame content Hb o ltac:(lia) E) as (Hx & _ & Hf). rewrite Hx in *. unfold kHeaderSize, kFooterSize in *. split_and!; [done|lia|lia].
  - intros Hne. split; [by destruct (record_status o) as [[]|]|]. intros x Ef. apply Hne. destruct (Z.le_gt_cases o (Z.of_nat (length content))) as [Hle|Hgt].
    + apply (frame_accepted content Hl o x); [lia|done].
    + exfalso. apply (f_equal length) in Ef. unfold slice in Ef. rewrite length_take, length_drop in Ef. pose proof (frame_length x). lia.
Qed.


(** ** Damage *)

Lemma checksum_inj a b : Forall byte a -> Forall byte b -> checksum a = checksum b -> crc32c 0 a = crc32c 0 b.
Proof.
  intros Ha Hb E. apply (f_equal le_value) in E. unfold checksum in E. rewrite !le_bytes_value in E by (by apply mask_word).
  assert (word32 0) as H0 by (unfold word32; lia). rewrite <- (proj2 (Unmask_Mask _ (crc32c_word 0 a H0 Ha))), E. by apply Unmask_Mask, crc32c_word.
Qed.

(** Another string of the same length that differs inside four consecutive bytes. *)
Inductive burst : list Z -> list Z -> Prop :=
| burst_at a w w' z : Forall byte w' -> length w = length w' -> (length w <= 4)%nat -> w <> w' -> burst (a ++ w ++ z) (a ++ w' ++ z).

Lemma burst_length d d' : burst d d' -> length d = length d'.
Proof. destruct 1. rewrite !length_app. lia. Qed.

Lemma burst_bytes d d' : burst d d' -> Forall byte d -> Forall byte d'.
Proof. destruct 1. rewrite !Forall_app. tauto. Qed.

Lemma burst_checksum d d' : Forall byte d -> burst d d' -> checksum d <> checksum d'.
Proof.
  intros Hd Hb E. assert (word32 0) as H0 by (unfold word32; lia). apply checksum_inj in E; [|done|by apply (burst_bytes d)]. revert E. destruct Hb. by apply crc_burst.
Qed.

(** A frame with an error in one of its four parts. *)
Inductive damaged (r : list Z) : list Z -> Prop :=
| damaged_length l : burst (length_bytes (Z.of_nat (length r))) l -> damaged r ((l ++ checksum (length_bytes (Z.of_nat (length r)))) ++ r ++ checksum r)
| damaged_length_checksum c : length c = 4%nat -> Forall byte c -> c <> checksum (length_bytes (Z.of_nat (length r))) ->
    damaged r ((length_bytes (Z.of_nat (length r)) ++ c) ++ r ++ checksum r)
| damaged_data d : burst r d -> damaged r ((length_bytes (Z.of_nat (length r)) ++ checksum (length_bytes (Z.of_nat (length r)))) ++ d ++ checksum r)
| damaged_data_checksum c : length c = 4%nat -> Forall byte c -> c <> checksum r ->
    damaged r ((length_bytes (Z.of_nat (length r)) ++ checksum (length_bytes (Z.of_nat (length r)))) ++ r ++ c).

(** The four parts in general. *)
Section parts.
Context (pre l c d e post : list Z).
Let content := pre ++ ((l ++ c) ++ d ++ e) ++ post.
Let o := Z.of_nat (length pre).
Context (Ll : length l = 8%nat) (Lc : length c = 4%nat) (Le : length e = 4%nat) (Hmax : Z.of_nat (length content) < 2 ^ 63).

Lemma parts_slices : slice content o 8 = l /\ slice content (o + 8) 4 = c /\ slice content (o + 12) (Z.of_nat (length d)) = d
  /\ slice content (o + 12 + Z.of_nat (length d)) 4 = e /\ o + 16 + Z.of_nat (length d) <= Z.of_nat (length content).
Proof using Ll Lc Le.
  clear Hmax. unfold content. split_and!.
  - apply (slice_at _ pre _ (c ++ d ++ e ++ post)); [by rewrite <- !app_assoc|done|lia].
  - apply (slice_at _ (pre ++ l) _ (d ++ e ++ post)); [by rewrite <- !app_assoc|rewrite length_app; unfold o; lia|lia].
  - apply (slice_at _ (pre ++ l ++ c) _ (e ++ post)); [by rewrite <- !app_assoc|rewrite !length_app; unfold o; lia|done].
  - apply (slice_at _ (pre ++ l ++ c ++ d) _ post); [by rewrite <- !app_assoc|rewrite !length_app; unfold o; lia|lia].
  - rewrite !length_app. unfold o. lia.
Qed.

Lemma parts_status : Forall byte l -> le_value l = Z.of_nat (length d) \/ c <> checksum l ->
  record_status (content := content) o = if bool_decide (c = checksum l) && bool_decide (e = checksum d) then OK else Err DATA_LOSS.
Proof using Ll Lc Le Hmax.
  intros Hl Hd. destruct parts_slices as (E1 & E2 & E3 & E4 & Hle). unfold record_status. rewrite (proj2 (Z.ltb_ge _ o)) by lia.
  assert (check (content := content) o 8 = if bool_decide (c = checksum l) then OK else Err DATA_LOSS) as ->.
  { unfold check, SIZE_MAX. rewrite (proj2 (Z.leb_gt _ 8)), (proj2 (Z.leb_gt _ (8 + 4))), (proj2 (Z.ltb_ge _ (o + 8 + 4))) by lia. by rewrite E1, E2. }
  case_bool_decide as Hc; cbn [ok OK andb]; [|done]. destruct Hd as [Hd|]; [|done]. unfold record_length, kHeaderSize. rewrite E1, Hd.
  assert (check (content := content) (o + 12) (Z.of_nat (length d)) = if bool_decide (e = checksum d) then OK else Err DATA_LOSS) as ->; [|by case_bool_decide].
  unfold check, SIZE_MAX. rewrite (proj2 (Z.leb_gt _ (Z.of_nat (length d)))), (proj2 (Z.leb_gt _ (Z.of_nat (length d) + 4))), (proj2 (Z.ltb_ge _ (o + 12 + Z.of_nat (length d) + 4))) by lia. by rewrite E3, E4.
Qed.
End parts.

Lemma damaged_status pre r f post : Forall byte r -> damaged r f -> Z.of_nat (length (pre ++ f ++ post)) < 2 ^ 63 ->
  record_status (content := pre ++ f ++ post) (Z.of_nat (length pre)) = Err DATA_LOSS.
Proof.
  intros Hr Hd Hmax. assert (length (length_bytes (Z.of_nat (length r))) = 8%nat /\ forall d, length (checksum d) = 4%nat) as [L8 L4] by (unfold length_bytes, checksum; split; intros; apply le_bytes_len).
  pose proof (le_bytes_byte 8 (Z.of_nat (length r)) : Forall byte (length_bytes (Z.of_nat (length r)))) as Hlb.
  assert (Z.of_nat (length r) < 2 ^ 63) as Hn. { revert Hmax. destruct Hd as [| |d Hd|]; rewrite !length_app; [lia..| |lia]. pose proof (burst_length _ _ Hd). lia. }
  assert (le_value (length_bytes (Z.of_nat (length r))) = Z.of_nat (length r)) as Hv by (apply le_bytes_value; change (256 ^ Z.of_nat 8) with (2 ^ 64); lia).
  destruct Hd as [l Hb|c Lc Hc Hne|d Hb|c Lc Hc Hne].
  - pose proof (burst_checksum _ _ Hlb Hb) as Hne. rewrite parts_status; [|by rewrite <- (burst_length _ _ Hb)|done|done|done|by apply (burst_bytes _ _ Hb)|by right]. by rewrite bool_decide_eq_false_2.
  - rewrite parts_status; [|done..|by right]. by rewrite bool_decide_eq_false_2.
  - pose proof (burst_checksum _ _ Hr Hb) as Hne. rewrite parts_status; [|done..|left; by rewrite <- (burst_length _ _ Hb)]. by rewrite (bool_decide_eq_false_2 (checksum r = _)), andb_false_r.
  - rewrite parts_status; [|done..|by left]. by rewrite (bool_decide_eq_false_2 (c = _)), andb_false_r.
Qed.

(** A file that ends inside a frame. *)
Lemma truncated_status pre r k : (k < length (frame r))%nat -> Z.of_nat (length pre) + 16 + Z.of_nat (length r) < 2 ^ 63 ->
  record_status (content := pre ++ take k (frame r)) (Z.of_nat (length pre)) = Err (if (k <? 12)%nat then OUT_OF_RANGE else DATA_LOSS).
Proof.
  intros Hk Hmax. set (content := pre ++ take k (frame r)). set (o := Z.of_nat (length pre)). pose proof (frame_length r) as Hf.
  assert (Z.of_nat (length content) = o + Z.of_nat k) as Hlen by (unfold content; rewrite length_app, length_take; unfold o; lia).
  unfold record_status. rewrite (proj2 (Z.ltb_ge _ o)) by lia. destruct (Nat.ltb_spec k 12) as [H12|H12].
  - assert (check (content := content) o 8 = Err OUT_OF_RANGE) as ->; [|done].
    unfold check, SIZE_MAX. by rewrite (proj2 (Z.leb_gt _ 8)), (proj2 (Z.leb_gt _ (8 + 4))), (proj2 (Z.ltb_lt _ (o + 8 + 4))) by lia.
  - assert (slice content o 12 = slice (pre ++ frame r) o 12) as E12.
    { unfold content, slice, o. rewrite !Nat2Z.id, !drop_app_length. rewrite take_take. f_equal. lia. }
    assert (forall q n, 0 <= q -> 0 <= n -> q + n <= 12 -> slice content (o + q) n = slice (pre ++ frame r ++ []) (o + q) n) as Esl.
    { intros q n Hq Hn Hqn. rewrite app_nil_r. rewrite <- (slice_slice content o 12 q n), <- (slice_slice (pre ++ frame r) o 12 q n) by lia. by rewrite E12. }
    destruct (frame_parts pre r []) as (P1 & P2 & _). fold o in P1, P2.
    assert (slice content o 8 = length_bytes (Z.of_nat (length r)) /\ slice content (o + 8) 4 = checksum (length_bytes (Z.of_nat (length r)))) as [Q1 Q2].
    { split; [rewrite <- P1, <- (Z.add_0_r o); apply Esl; lia|]. etransitivity; [apply Esl; lia|exact P2]. }
    assert (check (content := content) o 8 = OK) as ->.
    { unfold check, SIZE_MAX. rewrite (proj2 (Z.leb_gt _ 8)), (proj2 (Z.leb_gt _ (8 + 4))), (proj2 (Z.ltb_ge _ (o + 8 + 4))) by lia. by rewrite Q1, Q2, bool_decide_eq_true_2. }
    cbn [ok OK]. unfold record_length. rewrite Q1. unfold length_bytes. rewrite le_bytes_value by (change (256 ^ Z.of_nat 8) with (2 ^ 64); lia).
    assert (check (content := content) (o + kHeaderSize) (Z.of_nat (length r)) = Err OUT_OF_RANGE) as ->; [|done].
    unfold check, SIZE_MAX, kHeaderSize. by rewrite (proj2 (Z.leb_gt _ (Z.of_nat (length r)))), (proj2 (Z.leb_gt _ (Z.of_nat (length r) + 4))), (proj2 (Z.ltb_lt _ (o + 12 + Z.of_nat (length r) + 4))) by lia.
Qed.

(** Errors. A record of which a part (the length, the data, or either checksum) was changed,
    the length and the data inside four consecutive bytes and a checksum in any way, is reported
    as [DATA_LOSS], and the offset stays.  So is a file that ends inside the data or the last
    checksum; but a file that ends inside the first twelve bytes of a record, where an
    [OUT_OF_RANGE] of the stream passes through, is not told from one that ends before it. *)
Lemma record_damage (mm8 mm64 : Z -> Z -> Z) : instruction_u8 mm8 -> instruction_u64 mm64 ->
  forall le acc address content pre r, Forall byte content -> Z.of_nat (length content) < 2 ^ 63 -> Forall byte r ->
  forall St (I : InputStreamInterface St) (P : @StreamOf St I content) reader res, stream_inv (input_stream_ reader) ->
  ((exists f post, damaged r f /\ content = pre ++ f ++ post) ->
     ReadRecord le acc mm8 mm64 address (Z.of_nat (length pre)) res @ reader ⇓ fun '(st, o', _) _ => st = Err DATA_LOSS /\ o' = Z.of_nat (length pre))
  /\ forall k, (k < length (frame r))%nat -> Z.of_nat (length pre) + 16 + Z.of_nat (length r) < 2 ^ 63 -> content = pre ++ take k (frame r) ->
     ReadRecord le acc mm8 mm64 address (Z.of_nat (length pre)) res @ reader ⇓ fun '(st, o', _) _ =>
       st = Err (if (k <? 12)%nat then OUT_OF_RANGE else DATA_LOSS) /\ o' = Z.of_nat (length pre).
Proof.
  intros H8 H64 le acc address content pre r Hb Hl Hr St I P reader res Hi.
  assert (forall c, record_status (content := content) (Z.of_nat (length pre)) = Err c -> Z.of_nat (length pre) < 2 ^ 63 ->
    ReadRecord le acc mm8 mm64 address (Z.of_nat (length pre)) res @ reader ⇓ fun '(st, o', _) _ => st = Err c /\ o' = Z.of_nat (length pre)) as Hrun.
  { intros c Ec Hp. eapply wp_mono; [apply ReadRecord_spec; [done|done|done|done|done|lia]|]. cbn beta. intros [[st o'] out] r' (_ & -> & Hc). rewrite Ec in *. done. }
  split.
  - intros (f & post & Hd & ->). apply Hrun; [by apply (damaged_status pre r)|]. rewrite length_app in Hl. lia.
  - intros k Hk Hmax ->. apply Hrun; [by apply truncated_status|lia].
Qed.

(** C24: integrity.  On any file, however its bytes came about, and at any offset, [ReadRecord]
    returns; it returns a record exactly when the bytes at the offset are the frame of that
    record.  A record of which a part (the length, the data, or either checksum) was changed, the
    length and the data inside four consecutive bytes and a checksum in any way, is reported as
    DATA_LOSS; a file that ends inside a record is reported as OUT_OF_RANGE when the header is
    not complete and as DATA_LOSS otherwise. *)
Theorem record_integrity_and_damage (mm8 mm64 : Z -> Z -> Z) : instruction_u8 mm8 -> instruction_u64 mm64 ->
  (forall le acc address content, Forall byte content -> Z.of_nat (length content) < 2 ^ 63 ->
  forall St (I : InputStreamInterface St) (P : @StreamOf St I content) r o res, stream_inv (input_stream_ r) -> 0 <= o < 2 ^ 63 ->
  ReadRecord le acc mm8 mm64 address o res @ r ⇓ fun '(st, o', out) r' =>
    stream_inv (input_stream_ r')
    /\ (st = OK -> slice content o (16 + Z.of_nat (length out)) = frame out /\ o' = o + 16 + Z.of_nat (length out) /\ o' <= Z.of_nat (length content))
    /\ (st <> OK -> o' = o /\ forall x, slice content o (16 + Z.of_nat (length x)) <> frame x))
  /\ (forall le acc address content pre r, Forall byte content -> Z.of_nat (length content) < 2 ^ 63 -> Forall byte r ->
  forall St (I : InputStreamInterface St) (P : @StreamOf St I content) reader res, stream_inv (input_stream_ reader) ->
  ((exists f post, damaged r f /\ content = pre ++ f ++ post) ->
     ReadRecord le acc mm8 mm64 address (Z.of_nat (length pre)) res @ reader ⇓ fun '(st, o', _) _ => st = Err DATA_LOSS /\ o' = Z.of_nat (length pre))
  /\ forall k, (k < length (frame r))%nat -> Z.of_nat (length pre) + 16 + Z.of_nat (length r) < 2 ^ 63 -> content = pre ++ take k (frame r) ->
     ReadRecord le acc mm8 mm64 address (Z.of_nat (length pre)) res @ reader ⇓ fun '(st, o', _) _ =>
       st = Err (if (k <? 12)%nat then OUT_OF_RANGE else DATA_LOSS) /\ o' = Z.of_nat (length pre)).
Proof. intros H8 H64. split; [exact (record_integrity mm8 mm64 H8 H64)|exact (record_damage mm8 mm64 H8 H64)]. Qed.

Lemma record_integrity_and_damage_witness :
  (let content := records sample_records in
  ReadRecord (H := RandomAccess.RandomAccess_stream (memory_file content)) true false crc32_u8 crc32_u64 (fun _ => 0) 1 [] @ RecordReader_new RandomAccess.RandomAccessInputStream_new ⇓ fun '(st, o', out) r' =>
    0 <= RandomAccess.pos_ (input_stream_ r') <= Z.of_nat (length content)
    /\ (st = OK -> slice content 1 (16 + Z.of_nat (length out)) = frame out /\ o' = 1 + 16 + Z.of_nat (length out) /\ o' <= Z.of_nat (length content))
    /\ (st <> OK -> o' = 1 /\ forall x, slice content 1 (16 + Z.of_nat (length x)) <> frame x))
  /\ (let content := frame [1; 2] ++ ((length_bytes 2 ++ checksum (length_bytes 2)) ++ [1; 3] ++ checksum [1; 2]) ++ [] in
  ReadRecord (H := RandomAccess.RandomAccess_stream (memory_file content)) true false crc32_u8 crc32_u64 (fun _ => 0) (Z.of_nat (length (frame [1; 2]))) []
    @ RecordReader_new RandomAccess.RandomAccessInputStream_new ⇓ fun '(st, o', _) _ => st = Err DATA_LOSS /\ o' = Z.of_nat (length (frame [1; 2]))).
Proof.
  split.
  { intros content. destruct sample_storable as [Hb Hl].
  refine (proj1 (record_integrity_and_damage _ _ crc32_u8_instruction crc32_u64_instruction) true false (fun _ => 0) content (records_bytes _ Hb) Hl _ _
    (random_stream_of _ _ (memory_file_of content)) (RecordReader_new RandomAccess.RandomAccessInputStream_new) 1 [] _ _); [|lia].
  cbn [stream_inv random_stream_of input_stream_ RecordReader_new]. unfold random_inv. cbn [RandomAccess.pos_ RandomAccess.RandomAccessInputStream_new]. lia.
  }
  { intros content. assert (Forall byte [1; 2]) as Hb by (repeat constructor; lia).
  refine (proj1 (proj2 (record_integrity_and_damage _ _ crc32_u8_instruction crc32_u64_instruction) true false (fun _ => 0) content (frame [1; 2]) [1; 2] _ _ Hb _ _
    (random_stream_of _ _ (memory_file_of content)) (RecordReader_new RandomAccess.RandomAccessInputStream_new) [] _) _).
  - vm_compute. repeat constructor; discriminate.
  - vm_compute. reflexivity.
  - cbn [stream_inv random_stream_of input_stream_ RecordReader_new]. unfold random_inv. cbn [RandomAccess.pos_ RandomAccess.RandomAccessInputStream_new]. lia.
  - exists ((length_bytes 2 ++ checksum (length_bytes 2)) ++ [1; 3] ++ checksum [1; 2]), []. split; [|reflexivity].
    apply (damaged_data [1; 2]). apply (burst_at [1] [2] [3] []); [repeat constructor; lia|reflexivity|cbn; lia|discriminate].
  }
Defined.
