(* ===== verification/TableIterator.v ===== *)
(** * Iterators over sorted tables

    [core/lib/io/iterator.h]: the interface of iterators and what it promises of one over a
    list of pairs; [iterator.cc]: the empty iterator; the iterator of a block behind the
    interface; [two_level_iterator.cc]: an iterator over blocks that an index names. *)

From S2P Require Import Prelude OrderedCode TableBlock InputStream.

#[local] Open Scope runtime_scope.

Module TableIterator.

Abbreviation less := OrderedCode.lex_lt.
Abbreviation pair := (list Z * list Z)%type.

(** ** The interface *)

Class Iterator (I : Type) := {
  Valid : I -> bool;
  SeekToFirst : M I unit;
  Seek : list Z -> M I unit;
  Next : M I unit;
  key : M I (list Z);
  value : M I (list Z);
  status : I -> Status
}.

(** The index of the first pair whose key is at or past the target. *)
Definition first_at_or_past (pairs : list pair) (target : list Z) (i : nat) : Prop :=
  (i <= length pairs)%nat /\ (forall j kv, (j < i)%nat -> pairs !! j = Some kv -> less kv.1 target = true)
  /\ (forall kv, pairs !! i = Some kv -> less kv.1 target = false).

(** What the comments of the interface promise of an iterator over [pairs]: it stands at a
    pair, or behind the last one. *)
Class IteratorOver (I : Type) `{Iterator I} (pairs : list pair) := {
  iter_ok : I -> Prop;
  iter_at : I -> nat -> Prop;
  at_ok : forall it i, iter_at it i -> iter_ok it;
  at_le : forall it i, iter_at it i -> (i <= length pairs)%nat;
  at_valid : forall it i, iter_at it i -> Valid it = bool_decide (i < length pairs)%nat;
  ok_status : forall it, iter_ok it -> status it = OK;
  first_at : forall it, iter_ok it -> SeekToFirst @ it ⇓ fun _ it' => iter_at it' 0;
  seek_at : forall it target, iter_ok it -> Seek target @ it ⇓ fun _ it' => exists i, first_at_or_past pairs target i /\ iter_at it' i;
  next_at : forall it i, iter_at it i -> (i < length pairs)%nat -> Next @ it ⇓ fun _ it' => iter_at it' (S i);
  key_at : forall it i k v, iter_at it i -> pairs !! i = Some (k, v) -> key it = Val (k, it);
  value_at : forall it i k v, iter_at it i -> pairs !! i = Some (k, v) -> value it = Val (v, it)
}.

(** ** The iterator of a block *)

Section block.
Context (kLittleEndian : bool).

(** [EmptyIterator] with its status, or the iterator of a block with its data. *)
Inductive BlockIter :=
| Empty (st : Status)
| Entries (data : list Z) (restarts num_restarts : Z) (it : TableBlock.Iter).

Definition NewEmptyIterator : BlockIter := Empty OK.
Definition NewErrorIterator (st : Status) : BlockIter := Empty st.

Definition block_status (st : TableBlock.IterStatus) : Status :=
  match st with TableBlock.IterOK => OK | TableBlock.DataLoss => Err DATA_LOSS end.

(** A method of the class: that of [EmptyIterator], or that of [Block::Iter]. *)
Definition dispatch {A} (empty : Status -> M BlockIter A)
    (entries : list Z -> Z -> Z -> M TableBlock.Iter A) : M BlockIter A := fun b =>
  match b with
  | Empty st => empty st b
  | Entries data r n it =>
      match entries data r n it with
      | Val (a, it) => Val (a, Entries data r n it)
      | Crash => Crash
      | NoFuel => NoFuel
      end
  end.

#[local] Instance Block_iterator : Iterator BlockIter := {
  Valid b := match b with Empty _ => false | Entries _ r _ it => TableBlock.Valid r it end;
  SeekToFirst := dispatch (fun _ => mret tt) (fun data r n => TableBlock.SeekToFirst kLittleEndian data r n);
  Seek target := dispatch (fun _ => mret tt) (fun data r n => TableBlock.Seek kLittleEndian data r n target);
  Next := dispatch (fun _ => crash) (fun data r n => TableBlock.Next kLittleEndian data r n);
  key := dispatch (fun _ => crash) (fun _ r _ => TableBlock.key r);
  value := dispatch (fun _ => crash) (fun data r _ => TableBlock.value data r);
  status b := match b with Empty st => st | Entries _ _ _ it => block_status (TableBlock.status_ it) end
}.

(** [Block::NewIterator] of a block made from its contents. *)
Definition Block_NewIterator (data : list Z) : option BlockIter :=
  block ← TableBlock.Block_new kLittleEndian data;
  it ← TableBlock.NewIterator kLittleEndian data block;
  Some match it with
       | TableBlock.ErrorIterator => NewErrorIterator (Err DATA_LOSS)
       | TableBlock.EmptyIterator => NewEmptyIterator
       | TableBlock.EntryIterator r n => Entries data r n (TableBlock.Iter_new r n)
       end.

End block.

(** ** The iterator of a table *)

Section two_level.
Context {I D : Type} `{Iterator I, Iterator D}.
(** [block_function_] with its argument; [None] is an access outside a buffer. *)
Context (block_function_ : list Z -> option D) (fuel : nat).

Record TwoLevelIterator := mkTwoLevel {
  status_ : Status;
  index_iter_ : I;
  data_iter_ : option D;
  data_block_handle_ : list Z
}.

Abbreviation MT := (M TwoLevelIterator).

Definition TwoLevelIterator_new (index_iter : I) : TwoLevelIterator := mkTwoLevel OK index_iter None [].

Definition on_index {A} (m : M I A) : MT A := fun t =>
  match m (index_iter_ t) with
  | Val (a, it) => Val (a, mkTwoLevel (status_ t) it (data_iter_ t) (data_block_handle_ t))
  | Crash => Crash
  | NoFuel => NoFuel
  end.

(** A call through [data_iter_]; a null pointer is a crash. *)
Definition on_data {A} (m : M D A) : MT A := fun t =>
  match data_iter_ t with
  | None => Crash
  | Some d =>
      match m d with
      | Val (a, d) => Val (a, mkTwoLevel (status_ t) (index_iter_ t) (Some d) (data_block_handle_ t))
      | Crash => Crash
      | NoFuel => NoFuel
      end
  end.

(** [if (data_iter_ != nullptr)]. *)
Definition if_data (m : M D unit) : MT unit :=
  t ← get; match data_iter_ t with Some _ => on_data m | None => mret tt end.

Definition two_level_Valid (t : TwoLevelIterator) : bool := match data_iter_ t with None => false | Some d => Valid d end.

Definition two_level_status (t : TwoLevelIterator) : Status :=
  if negb (ok (status (index_iter_ t))) then status (index_iter_ t)
  else match data_iter_ t with
       | Some d => if negb (ok (status d)) then status d else status_ t
       | None => status_ t
       end.

Definition SaveError (s : Status) : MT unit :=
  t ← get;
  if ok (status_ t) && negb (ok s) then put (mkTwoLevel s (index_iter_ t) (data_iter_ t) (data_block_handle_ t)) else mret tt.

Definition SetDataIterator (data_iter : option D) : MT unit :=
  t ← get;
  match data_iter_ t with Some d => SaveError (status d) | None => mret tt end;;
  t ← get;
  put (mkTwoLevel (status_ t) (index_iter_ t) data_iter (data_block_handle_ t)).

Definition InitDataBlock : MT unit :=
  t ← get;
  if negb (Valid (index_iter_ t)) then SetDataIterator None
  else
    handle ← on_index value;
    t ← get;
    if bool_decide (is_Some (data_iter_ t)) && bool_decide (handle = data_block_handle_ t) then mret tt
    else
      iter ← of_option (block_function_ handle);
      put (mkTwoLevel (status_ t) (index_iter_ t) (data_iter_ t) handle);;
      SetDataIterator (Some iter).

Fixpoint SkipEmptyDataBlocksForward (fuel : nat) : MT unit :=
  match fuel with
  | O => nofuel
  | S fuel =>
      t ← get;
      if two_level_Valid t then mret tt
      else if negb (Valid (index_iter_ t)) then SetDataIterator None
      else
        on_index Next;;
        InitDataBlock;;
        if_data SeekToFirst;;
        SkipEmptyDataBlocksForward fuel
  end.

Definition two_level_Seek (target : list Z) : MT unit :=
  on_index (Seek target);; InitDataBlock;; if_data (Seek target);; SkipEmptyDataBlocksForward fuel.

Definition two_level_SeekToFirst : MT unit :=
  on_index SeekToFirst;; InitDataBlock;; if_data SeekToFirst;; SkipEmptyDataBlocksForward fuel.

Definition two_level_Next : MT unit :=
  t ← get; CHECK (two_level_Valid t);; on_data Next;; SkipEmptyDataBlocksForward fuel.

Definition two_level_key : MT (list Z) := t ← get; CHECK (two_level_Valid t);; on_data key.
Definition two_level_value : MT (list Z) := t ← get; CHECK (two_level_Valid t);; on_data value.

#[local] Instance TwoLevel_iterator : Iterator TwoLevelIterator := {
  Valid := two_level_Valid;
  SeekToFirst := two_level_SeekToFirst;
  Seek := two_level_Seek;
  Next := two_level_Next;
  key := two_level_key;
  value := two_level_value;
  status := two_level_status
}.

End two_level.
End TableIterator.
