(* ===== verification/TableIteratorProofs.v ===== *)
(** * Iterators over sorted tables: the promise is kept

    The iterator of a block keeps the promise of the interface for the pairs of the block, and
    the two-level iterator for the pairs of all the blocks if the index separates them. *)

From S2P Require Import Prelude OrderedCode TableBlock TableBlockProofs TableBlockTheorems InputStream TableIterator.
Import TableIterator.

#[local] Open Scope runtime_scope.

Lemma less_le_trans a b c : less a b = true -> less c b = false -> less a c = true.
Proof.
  revert b c. induction a as [|x a IH]; intros [|y b] [|z c]; cbn; try done.
  rewrite !orb_true_iff, !orb_false_iff, !andb_true_iff, !Z.ltb_lt, !Z.ltb_ge, !Z.eqb_eq. intros [?|[-> ?]] [Hz Hc]; [left; lia|].
  destruct (Z.eq_dec y z) as [->|]; [|left; lia]. right. split; [done|]. rewrite Z.eqb_refl in Hc. by eapply IH.
Qed.

(** The position of the first key at or past a key. *)
Fixpoint first_index (l : list pair) (key : list Z) : nat :=
  match l with [] => 0 | kv :: l => if less kv.1 key then S (first_index l key) else 0 end.

Lemma first_index_at l key : first_at_or_past l key (first_index l key).
Proof.
  induction l as [|kv l (IH1 & IH2 & IH3)]; cbn [first_index]; [done|]. destruct (less kv.1 key) eqn:E.
  - split_and!; [cbn; lia|intros [|j] x Hj Hx; cbn in Hx; [by injection Hx as <-|apply (IH2 j); [lia|done]]|exact IH3].
  - split_and!; [lia|lia|]. by intros x [= <-].
Qed.

Lemma first_at_or_past_unique l key i j : first_at_or_past l key i -> first_at_or_past l key j -> i = j.
Proof.
  assert (forall i j, first_at_or_past l key i -> first_at_or_past l key j -> ~ (i < j)%nat) as Hlt.
  { intros n m (_ & _ & Hn) (Hm & Hb & _) Hnm. destruct (lookup_lt_is_Some_2 l n) as [kv Hkv]; [lia|]. pose proof (Hb n kv Hnm Hkv). pose proof (Hn kv Hkv). congruence. }
  intros Hi Hj. pose proof (Hlt i j Hi Hj). pose proof (Hlt j i Hj Hi). lia.
Qed.

Lemma first_index_mono l key key' : less key' key = false -> (first_index l key <= first_index l key')%nat.
Proof. intros Hle. induction l as [|kv l IH]; cbn [first_index]; [done|]. destruct (less kv.1 key) eqn:E; [|lia]. rewrite (less_le_trans _ _ _ E Hle). lia. Qed.

(** ** Reading to the end *)

Section drain.
Context {I : Type} {HI : Iterator I}.

(** The pairs from the position of an iterator on. *)
Fixpoint drain (fuel : nat) : M I (list pair) :=
  match fuel with
  | O => nofuel
  | S fuel =>
      it ← get;
      if Valid it then
        k ← key; v ← value;
        Next;;
        rest ← drain fuel;
        mret ((k, v) :: rest)
      else mret []
  end.

Context {pairs : list pair} {P : IteratorOver I pairs}.

Lemma drain_at fuel : forall it i, iter_at it i -> (length pairs - i < fuel)%nat -> drain fuel @ it ⇓ fun l it' => l = drop i pairs /\ iter_at it' (length pairs).
Proof using Type.
  induction fuel as [|fuel IH]; intros it i Hi Hf; [lia|]. cbn [drain]. wp_steps. rewrite (at_valid it i Hi). pose proof (at_le it i Hi) as Hle. case_bool_decide as Hlt.
  - destruct (lookup_lt_is_Some_2 pairs i Hlt) as [[k v] Hkv]. wp_step. unfold wp at 1. rewrite (key_at it i k v Hi Hkv). wp_step. unfold wp at 1. rewrite (value_at it i k v Hi Hkv).
    wp_step. eapply wp_mono; [by apply (next_at it i Hi)|]. cbn beta. intros _ it1 H1. wp_step. eapply wp_mono; [apply (IH it1 (S i) H1); lia|]. cbn beta. intros l it2 [-> H2]. wp_steps. split; [|done]. by rewrite (drop_S _ _ _ Hkv).
  - wp_steps. assert (i = length pairs) as -> by lia. by rewrite drop_all.
Qed.

Lemma filter_at target i : StronglySorted (fun a b => less a b = true) (map fst pairs) -> first_at_or_past pairs target i ->
  drop i pairs = filter (fun kv => less kv.1 target = false) pairs.
Proof using Type.
  clear P. revert i. induction pairs as [|kv l IH]; intros i Hs (Hi & Hbelow & Hat); [by destruct i|]. cbn [map] in Hs. apply StronglySorted_inv in Hs as [Hs Hl]. destruct i as [|i].
  - pose proof (Hat kv eq_refl) as H0. rewrite (filter_all _ (kv :: l)); [done|]. constructor; [done|]. apply Forall_forall. intros x Hx. destruct (less x.1 target) eqn:E; [|done].
    rewrite <- H0. symmetry. apply (less_trans _ x.1); [|done]. rewrite Forall_map, Forall_forall in Hl. by apply Hl.
  - cbn [drop]. rewrite filter_cons_False by (rewrite (Hbelow 0%nat kv) by (lia || done); done). apply IH; [done|]. cbn in Hi. split_and!; [lia|intros j x Hj Hx; apply (Hbelow (S j) x); [lia|done]|exact Hat].
Qed.

(** Reading from the first pair, and from a target. *)
Lemma walk_first fuel it : iter_ok it -> (length pairs < fuel)%nat ->
  (SeekToFirst;; drain fuel) @ it ⇓ fun l it' => l = pairs /\ Valid it' = false /\ status it' = OK.
Proof using P.
  intros Hok Hf. wp_step. eapply wp_mono; [exact (first_at it Hok)|]. cbn beta. intros _ it1 H1. eapply wp_mono; [apply (drain_at fuel it1 0 H1); lia|]. cbn beta. intros l it2 [-> H2].
  rewrite (at_valid _ _ H2), bool_decide_eq_false_2 by lia. split_and!; [done|done|]. apply (ok_status it2). by eapply at_ok.
Qed.

Lemma walk_seek fuel it target : StronglySorted (fun a b => less a b = true) (map fst pairs) -> iter_ok it -> (length pairs < fuel)%nat ->
  (Seek target;; drain fuel) @ it ⇓ fun l it' => l = filter (fun kv => less kv.1 target = false) pairs /\ Valid it' = false /\ status it' = OK.
Proof using P.
  intros Hs Hok Hf. wp_step. eapply wp_mono; [exact (seek_at it target Hok)|]. cbn beta. intros _ it1 (i & Hi & H1). eapply wp_mono; [apply (drain_at fuel it1 i H1); lia|]. cbn beta. intros l it2 [-> H2].
  rewrite (at_valid _ _ H2), bool_decide_eq_false_2 by lia. split_and!; [by apply filter_at|done|]. apply (ok_status it2). by eapply at_ok.
Qed.

End drain.

(** ** Blocks *)

Section block.
Context (le : bool) (pairs : list pair).

(** An iterator over a well-formed block of the pairs, with an OK status. *)
Inductive block_iter (Q : list Entry -> list nat -> TableBlock.Iter -> Prop) : BlockIter -> Prop :=
| block_iter_intro data es ri it : block_ok data es ri -> map pair_of es = pairs -> TableBlock.status_ it = TableBlock.IterOK -> Q es ri it ->
    block_iter Q (Entries data (limit es) (count ri) it).

Lemma lands_ok es ri it i : lands es ri it i -> TableBlock.status_ it = TableBlock.IterOK.
Proof. unfold lands. destruct (es !! i); [apply o_status|by intros [_ ?]]. Qed.

Lemma wp_dispatch {A} (empty : Status -> M BlockIter A) (entries : list Z -> Z -> Z -> M TableBlock.Iter A) data r n it (Q : A -> BlockIter -> Prop) :
  (entries data r n @ it ⇓ fun a it' => Q a (Entries data r n it')) -> dispatch empty entries @ Entries data r n it ⇓ Q.
Proof. unfold wp, dispatch. by destruct (entries data r n it) as [[a it']| |]. Qed.

Lemma entry_pair es i k v : map pair_of es !! i = Some (k, v) -> exists e, es !! i = Some e /\ n_key e = k /\ n_value e = v.
Proof. change (map pair_of es) with (pair_of <$> es). rewrite list_lookup_fmap. destruct (es !! i) as [e|]; [|done]. intros [= <- <-]. by exists e. Qed.

Lemma first_not_less_pairs es target k : first_not_less es target k -> first_at_or_past (map pair_of es) target k.
Proof.
  intros (Hk & Hb & Ha). split; [by rewrite length_map|]. split.
  - intros j [k' v'] Hj Hl. apply entry_pair in Hl as (e & He & <- & _). by apply (Hb j).
  - intros [k' v'] Hl. apply entry_pair in Hl as (e & He & <- & _). by apply Ha.
Qed.

#[local] Program Instance Block_over : IteratorOver (H := Block_iterator le) BlockIter pairs := {
  iter_ok := block_iter (fun _ _ _ => True);
  iter_at b i := (i <= length pairs)%nat /\ block_iter (fun es ri it => lands es ri it i) b
}.
Next Obligation. intros b i [_ [data es ri it ? ? ? ?]]. by constructor. Qed.
Next Obligation. by intros b i []. Qed.
Next Obligation.
  intros b i [Hi [data es ri it Hok <- _ Hl]]. rewrite length_map in *. cbn. by apply (lands_valid data es ri Hok).
Qed.
Next Obligation. intros b [data es ri it _ _ Hst _]. cbn. by rewrite Hst. Qed.
Next Obligation.
  intros b [data es ri it Hok E Hst _]. apply wp_dispatch. eapply wp_mono; [by apply (first_spec le data es ri Hok)|]. cbn beta.
  intros _ it' Hl. split; [lia|]. constructor; eauto using lands_ok.
Qed.
Next Obligation.
  intros b target [data es ri it Hok E Hst _]. apply wp_dispatch. eapply wp_mono; [by apply (seek_spec le data es ri Hok)|]. cbn beta.
  intros _ it' (k & Hk & Hl). pose proof (first_not_less_pairs _ _ _ Hk) as Hp. rewrite E in Hp. exists k. split; [done|]. split; [apply Hp|]. constructor; eauto using lands_ok.
Qed.
Next Obligation.
  intros b i [Hi [data es ri it Hok E Hst Hl]] Hlt. assert (i < length es)%nat as Hes by (by rewrite <- E, length_map in Hlt). apply wp_dispatch.
  unfold TableBlock.Next. wp_steps. apply wp_CHECK; [rewrite (lands_valid data es ri Hok it i); [by apply bool_decide_eq_true_2|lia|done]|]. wp_steps.
  unfold lands in Hl. destruct (lookup_lt_is_Some_2 es i Hes) as [e He]. rewrite He in Hl.
  eapply wp_mono; [apply (parse_run le data es ri Hok it (S i)); [lia|by eapply next_entry]|]. cbn beta. intros b' it' [_ Hl']. wp_steps.
  split; [lia|]. constructor; eauto using lands_ok.
Qed.
Next Obligation.
  intros b i k v [_ [data es ri it Hok E Hst Hl]] Hp. rewrite <- E in Hp. apply entry_pair in Hp as (e & He & <- & _). unfold lands in Hl. rewrite He in Hl.
  cbn. by rewrite (key_on data es ri Hok it i e He Hl).
Qed.
Next Obligation.
  intros b i k v [_ [data es ri it Hok E Hst Hl]] Hp. rewrite <- E in Hp. apply entry_pair in Hp as (e & He & _ & <-). unfold lands in Hl. rewrite He in Hl.
  cbn. by rewrite (value_on data es ri Hok it i e He Hl).
Qed.

Lemma Block_NewIterator_run data es ri : block_ok data es ri -> map pair_of es = pairs ->
  exists b, Block_NewIterator le data = Some b /\ iter_ok (IteratorOver := Block_over) b.
Proof.
  intros Hok E. pose proof (NewIterator_run le data es ri Hok) as Hn. unfold Block_NewIterator. destruct (TableBlock.Block_new le data) as [blk|]; [|done]. cbn [mbind option_bind] in *.
  rewrite Hn. cbn [mbind option_bind]. eexists. split; [done|]. by constructor.
Qed.

End block.

(** ** Two levels *)

(** The keys of the index separate the blocks. *)
Record separated (index : list pair) (blocks : list (list pair)) : Prop := {
  sep_length : length index = length blocks;
  sep_handles : NoDup (map snd index);
  sep_upper : forall i k h b kv, index !! i = Some (k, h) -> blocks !! i = Some b -> kv ∈ b -> less k kv.1 = false;
  sep_lower : forall i j k h b kv, index !! i = Some (k, h) -> blocks !! j = Some b -> (i < j)%nat -> kv ∈ b -> less k kv.1 = true
}.

Section two_level.
Context {I D : Type} {HI : Iterator I} {HD : Iterator D} (index : list pair) (blocks : list (list pair)).
Context {PI : IteratorOver I index} {PD : forall b, IteratorOver D b}.
Context (block_function : list Z -> option D) (Hsep : separated index blocks).
(** The block function opens the blocks that the index names. *)
Context (Hopen : forall i k h b, index !! i = Some (k, h) -> blocks !! i = Some b ->
  exists d, block_function h = Some d /\ iter_ok (IteratorOver := PD b) d).
Abbreviation T := (@TwoLevelIterator I D).

(** The data iterator is one over the block that its handle names. *)
Definition data_ok (t : T) : Prop :=
  match data_iter_ t with
  | None => True
  | Some d => exists i k b, index !! i = Some (k, data_block_handle_ t) /\ blocks !! i = Some b /\ iter_ok (IteratorOver := PD b) d
  end.

Definition two_level_ok (t : T) : Prop := status_ t = OK /\ iter_ok (index_iter_ t) /\ data_ok t.

(** The index is at its entry [i], and the data iterator at the pair [j] of the block [i]. *)
Definition resting (t : T) (i j : nat) : Prop :=
  status_ t = OK /\ iter_at (index_iter_ t) i
  /\ match blocks !! i with
     | None => data_iter_ t = None /\ j = 0%nat
     | Some b => exists k d, index !! i = Some (k, data_block_handle_ t) /\ data_iter_ t = Some d /\ iter_at (IteratorOver := PD b) d j
     end.

Definition block_offset (i : nat) : nat := length (concat (take i blocks)).

Definition two_level_at (t : T) (n : nat) : Prop :=
  exists i j, resting t i j /\ n = (block_offset i + j)%nat /\ forall b, blocks !! i = Some b -> (j < length b)%nat.

Lemma block_offset_S i b : blocks !! i = Some b -> block_offset (S i) = (block_offset i + length b)%nat.
Proof using Type. intros Hi. unfold block_offset. by rewrite (take_S_r _ _ _ Hi), concat_app, length_app, concat_cons, app_nil_r. Qed.

Lemma resting_ok t i j : resting t i j -> two_level_ok t.
Proof using Type.
  intros (Hs & Hi & Hd). split; [done|]. split; [by eapply at_ok|]. unfold data_ok. destruct (blocks !! i) as [b|] eqn:Hb.
  - destruct Hd as (k & d & Hk & -> & Hj). exists i, k, b. split_and!; [done|done|by eapply at_ok].
  - by destruct Hd as [-> _].
Qed.

Lemma wp_on_index {A} (m : M I A) (t : T) (Q : A -> T -> Prop) :
  (m @ index_iter_ t ⇓ fun a it => Q a (mkTwoLevel (status_ t) it (data_iter_ t) (data_block_handle_ t))) -> on_index m @ t ⇓ Q.
Proof using Type. unfold wp, on_index. by destruct (m (index_iter_ t)) as [[a it]| |]. Qed.

Lemma wp_on_data {A} (m : M D A) (t : T) d (Q : A -> T -> Prop) : data_iter_ t = Some d ->
  (m @ d ⇓ fun a d' => Q a (mkTwoLevel (status_ t) (index_iter_ t) (Some d') (data_block_handle_ t))) -> on_data m @ t ⇓ Q.
Proof using Type. intros E. unfold wp, on_data. rewrite E. by destruct (m d) as [[a d']| |]. Qed.

(** Replacing the data iterator of a good iterator saves no error. *)
Lemma SetDataIterator_run (t : T) o : status_ t = OK -> (forall d, data_iter_ t = Some d -> status d = OK) ->
  SetDataIterator o t = Val (tt, mkTwoLevel OK (index_iter_ t) o (data_block_handle_ t)).
Proof using Type.
  destruct t as [st ix dt h]. cbn. intros -> Hd. unfold SetDataIterator, SaveError. rewrite run_get. cbn. destruct dt as [d|]; [|done]. by rewrite (Hd d eq_refl).
Qed.

Lemma data_status t d : data_ok t -> data_iter_ t = Some d -> status d = OK.
Proof using Type. unfold data_ok. intros Hd E. rewrite E in Hd. destruct Hd as (i & k & b & _ & _ & Hd). by apply (ok_status d Hd). Qed.

(** After [InitDataBlock] the data iterator, if any, is one over the block at the index. *)
Lemma InitDataBlock_spec t i : two_level_ok t -> iter_at (index_iter_ t) i ->
  InitDataBlock block_function @ t ⇓ fun _ t' => status_ t' = OK /\ index_iter_ t' = index_iter_ t
    /\ match blocks !! i with
       | None => data_iter_ t' = None
       | Some b => exists k d, index !! i = Some (k, data_block_handle_ t') /\ data_iter_ t' = Some d /\ iter_ok (IteratorOver := PD b) d
       end.
Proof using Hsep Hopen.
  intros (Hs & Hok & Hd) Hi. unfold InitDataBlock. wp_steps. rewrite (at_valid _ _ Hi). pose proof (sep_length _ _ Hsep) as Hlen. destruct (blocks !! i) as [b|] eqn:Hb.
  - pose proof (lookup_lt_Some _ _ _ Hb). destruct (lookup_lt_is_Some_2 index i ltac:(lia)) as [[k h] Hk]. rewrite bool_decide_eq_true_2 by lia. cbn [negb].
    wp_step. apply wp_on_index. unfold wp at 1. rewrite (value_at _ _ _ _ Hi Hk). wp_steps. cbn [data_iter_ data_block_handle_ status_ index_iter_].
    destruct (bool_decide (is_Some (data_iter_ t)) && bool_decide (h = data_block_handle_ t)) eqn:E.
    + apply andb_prop in E as [[d Ed]%bool_decide_eq_true ->%bool_decide_eq_true]. wp_steps. cbn. split_and!; [done|done|]. exists k, d. split_and!; [done|done|].
      unfold data_ok in Hd. rewrite Ed in Hd. destruct Hd as (i' & k' & b' & Hk' & Hb' & Hd).
      assert (i = i') as <-. { eapply NoDup_lookup; [apply Hsep| |]; change (map snd index) with (snd <$> index); rewrite list_lookup_fmap; [by rewrite Hk|by rewrite Hk']. }
      by simplify_eq.
    + destruct (Hopen i k h b Hk Hb) as (d & Ed & Hdok). wp_step. eapply wp_of_option; [exact Ed|]. wp_steps. unfold wp. rewrite SetDataIterator_run by eauto using data_status.
      cbn. split_and!; [done|done|]. by exists k, d.
  - apply lookup_ge_None in Hb. rewrite bool_decide_eq_false_2 by lia. cbn [negb]. unfold wp. by rewrite SetDataIterator_run by eauto using data_status.
Qed.

(** ... and after a first move of it, the iterator rests at that block. *)
Lemma load_spec t i (m : M D unit) (J : list pair -> nat -> Prop) : two_level_ok t -> iter_at (index_iter_ t) i ->
  (forall b d, iter_ok (IteratorOver := PD b) d -> m @ d ⇓ fun _ d' => exists j, J b j /\ iter_at (IteratorOver := PD b) d' j) ->
  forall (k : M T unit) (Q : unit -> T -> Prop), (forall t' j, resting t' i j -> (forall b, blocks !! i = Some b -> J b j) -> k @ t' ⇓ Q) ->
  (InitDataBlock block_function;; if_data m;; k) @ t ⇓ Q.
Proof using Hsep Hopen.
  intros Hok Hi Hm k Q HQ. wp_step. eapply wp_mono; [by apply InitDataBlock_spec|]. cbn beta. intros _ t' (Hs & Ei & Hb). wp_step. unfold if_data. wp_steps. destruct (blocks !! i) as [b|] eqn:Eb.
  - destruct Hb as (kk & d & Hk & Ed & Hd). rewrite Ed. eapply wp_on_data; [exact Ed|]. eapply wp_mono; [by apply (Hm b)|]. cbn beta. intros _ d' (j & HJ & Hj). apply (HQ _ j); [|by intros ? [= <-]].
    unfold resting. cbn. rewrite Ei, Eb. split_and!; [done|done|]. by exists kk, d'.
  - rewrite Hb. wp_steps. apply (HQ _ 0%nat); [|done]. unfold resting. rewrite Ei, Eb. done.
Qed.

Lemma Skip_spec f : forall t i j, resting t i j -> (length blocks - i + 2 <= f)%nat ->
  SkipEmptyDataBlocksForward block_function f @ t ⇓ fun _ t' => two_level_at t' (block_offset i + j).
Proof using Hsep Hopen.
  induction f as [|f IH]; intros t i j Hr Hf; [lia|]. cbn [SkipEmptyDataBlocksForward]. pose proof (sep_length _ _ Hsep) as Hlen.
  pose proof Hr as (Hs & Hi & Hd). wp_steps. unfold two_level_Valid. rewrite (at_valid _ _ Hi). destruct (blocks !! i) as [b|] eqn:Eb.
  - pose proof (lookup_lt_Some _ _ _ Eb) as Hlt. destruct Hd as (k & d & Hk & Ed & Hj). rewrite Ed, (at_valid _ _ Hj). destruct (decide (j < length b)%nat) as [Hjb|Hjb].
    + rewrite bool_decide_eq_true_2 by done. wp_steps. exists i, j. split_and!; [done|done|]. intros b' ?. by simplify_eq.
    + rewrite bool_decide_eq_false_2 by done. rewrite bool_decide_eq_true_2 by lia. cbn [negb]. pose proof (at_le _ _ Hj) as Hle. wp_step. apply wp_on_index.
      eapply wp_mono; [apply (next_at _ _ Hi); lia|]. cbn beta. intros _ it Hit. eapply (load_spec _ (S i) SeekToFirst (fun _ j => j = 0%nat)).
      * split; [done|]. split; [by eapply at_ok|]. unfold data_ok. cbn. rewrite Ed. exists i, k, b. split_and!; [done|done|by eapply at_ok].
      * done.
      * intros b' d' Hd'. eapply wp_mono; [exact (first_at d' Hd')|]. cbn beta. intros _ d'' H''. by exists 0%nat.
      * intros t' j' Hr' Hj'. replace (block_offset i + j)%nat with (block_offset (S i) + j')%nat; [apply IH; [done|lia]|]. rewrite (block_offset_S i b Eb).
        assert (j' = 0%nat); [|lia]. destruct (blocks !! S i) as [b'|] eqn:Eb'; [by apply (Hj' b')|]. destruct Hr' as (_ & _ & Hr'). rewrite Eb' in Hr'. apply Hr'.
  - destruct Hd as [Ed ->]. rewrite Ed. apply lookup_ge_None in Eb. rewrite bool_decide_eq_false_2 by lia. cbn [negb]. unfold wp. rewrite SetDataIterator_run by (done || (intros d Hd; congruence)).
    exists i, 0%nat. split_and!; [|done|intros b Hb; apply lookup_lt_Some in Hb; lia]. unfold resting. rewrite (proj2 (lookup_ge_None blocks i)) by lia. done.
Qed.

Lemma pair_position i b j : blocks !! i = Some b -> (j < length b)%nat -> concat blocks !! (block_offset i + j)%nat = b !! j.
Proof using Type.
  intros Hb Hj. unfold block_offset. assert (concat blocks = concat (take i blocks) ++ b ++ concat (drop (S i) blocks)) as ->.
  { rewrite <- (take_drop_middle _ _ _ Hb) at 1. by rewrite concat_app. }
  rewrite lookup_app_r, lookup_app_l by lia. f_equal. lia.
Qed.

Lemma block_offset_end i : (length blocks <= i)%nat -> block_offset i = length (concat blocks).
Proof using Type. intros Hi. unfold block_offset. by rewrite take_ge. Qed.

Lemma two_level_at_bound t n : two_level_at t n -> (n <= length (concat blocks))%nat /\ two_level_Valid t = bool_decide (n < length (concat blocks))%nat.
Proof using Hsep.
  intros (i & j & (Hs & Hi & Hd) & -> & Hj). unfold two_level_Valid. destruct (blocks !! i) as [b|] eqn:Eb.
  - destruct Hd as (k & d & _ & -> & Hdj). specialize (Hj b eq_refl). rewrite (at_valid _ _ Hdj). pose proof (lookup_lt_is_Some_2 b j Hj) as Hl.
    rewrite <- (pair_position i b j Eb Hj) in Hl. apply lookup_lt_is_Some_1 in Hl. rewrite !bool_decide_eq_true_2 by lia. split; [lia|done].
  - destruct Hd as [-> ->]. apply lookup_ge_None in Eb. rewrite block_offset_end by done. rewrite bool_decide_eq_false_2 by lia. split; [lia|done].
Qed.

(** The pair of the block that the iterator is at. *)
Lemma at_pair t n kv : two_level_at t n -> concat blocks !! n = Some kv ->
  exists b d j, data_iter_ t = Some d /\ iter_at (IteratorOver := PD b) d j /\ b !! j = Some kv.
Proof using Type.
  intros (i & j & (Hs & Hi & Hd) & -> & Hj) Hkv. destruct (blocks !! i) as [b|] eqn:Eb.
  - destruct Hd as (k & d & _ & Ed & Hdj). exists b, d, j. split_and!; [done|done|]. rewrite <- Hkv. symmetry. apply pair_position; [done|by apply Hj].
  - destruct Hd as [_ ->]. apply lookup_ge_None in Eb. rewrite block_offset_end in Hkv by done. apply lookup_lt_Some in Hkv. lia.
Qed.

(** Any position in the blocks before [i] is at an earlier block. *)
Lemma position_before n i kv : concat blocks !! n = Some kv -> (n < block_offset i)%nat -> exists i' b, (i' < i)%nat /\ blocks !! i' = Some b /\ kv ∈ b.
Proof using Type.
  intros Hn Hlt. rewrite <- (take_drop i blocks), concat_app, lookup_app_l in Hn by done. apply list_elem_of_lookup_2, list_elem_of_In, in_concat in Hn as (b & Hb & Hkv).
  apply list_elem_of_In, elem_of_take in Hb as (i' & Hi' & Hlt'). exists i', b. split_and!; [done|done|]. by apply list_elem_of_In.
Qed.


(** Where the index and then the block were sought, the whole was. *)
Lemma seek_position target i j : first_at_or_past index target i ->
  (forall b, blocks !! i = Some b -> first_at_or_past b target j) -> (blocks !! i = None -> j = 0%nat) ->
  first_at_or_past (concat blocks) target (block_offset i + j).
Proof using Hsep.
  intros (Hi & Hbefore & Hat) Hb H0. pose proof (sep_length _ _ Hsep) as Hlen.
  assert (forall n kv, concat blocks !! n = Some kv -> (n < block_offset i)%nat -> less kv.1 target = true) as Hlow.
  { intros n kv Hn Hlt. destruct (position_before n i kv Hn Hlt) as (i' & b & Hi' & Hb' & Hkv). destruct (lookup_lt_is_Some_2 index i') as [[k h] Hk]; [lia|].
    pose proof (sep_upper _ _ Hsep i' k h b kv Hk Hb' Hkv) as Hu. pose proof (Hbefore i' (k, h) Hi' Hk) as Hl. cbn in Hl. destruct (less kv.1 target) eqn:E; [done|].
    by rewrite (less_le_trans k target kv.1) in Hu. }
  destruct (blocks !! i) as [b|] eqn:Eb.
  2: { rewrite (H0 eq_refl), Nat.add_0_r. apply lookup_ge_None in Eb. pose proof (block_offset_end i Eb) as Eo. split_and!; [lia|intros n kv Hn Hl; by apply (Hlow n)|].
       intros kv Hkv. apply lookup_lt_Some in Hkv. lia. }
  destruct (Hb b eq_refl) as (Hj & Hbj & Haj). pose proof (block_offset_S i b Eb) as Es. split_and!.
  - transitivity (block_offset (S i)); [lia|]. unfold block_offset. rewrite <- (take_drop (S i) blocks) at 2. rewrite concat_app, length_app. lia.
  - intros n kv Hn Hl. destruct (decide (n < block_offset i)%nat) as [|Hge]; [by apply (Hlow n)|].
    apply (Hbj (n - block_offset i)%nat); [lia|]. rewrite <- (pair_position i b) by (done || lia). by replace (block_offset i + (n - block_offset i))%nat with n by lia.
  - intros kv Hkv. destruct (decide (j < length b)%nat) as [Hjb|Hjb]; [apply Haj; by rewrite <- (pair_position i b)|].
    assert (j = length b) as -> by lia. destruct (lookup_lt_is_Some_2 index i) as [[k h] Hk]; [apply lookup_lt_Some in Eb; lia|]. pose proof (Hat (k, h) Hk) as Hk'. cbn in Hk'.
    rewrite <- Es in Hkv. rewrite <- (take_drop (S i) blocks), concat_app, lookup_app_r in Hkv by (unfold block_offset; lia). apply list_elem_of_lookup_2, list_elem_of_In, in_concat in Hkv as (b' & Hb' & Hkv).
    apply list_elem_of_In, list_elem_of_lookup_1 in Hb' as (i' & Hi'). rewrite lookup_drop in Hi'. apply list_elem_of_In in Hkv. pose proof (sep_lower _ _ Hsep i _ k h b' kv Hk Hi' ltac:(lia) Hkv) as Hl.
    destruct (less kv.1 target) eqn:E; [|done]. by rewrite (less_trans k kv.1 target) in Hk'.
Qed.

Context (fuel : nat) (Hfuel : (length blocks + 2 <= fuel)%nat).

#[local] Program Instance TwoLevel_over : IteratorOver (H := TwoLevel_iterator block_function fuel) T (concat blocks) := {
  iter_ok := two_level_ok;
  iter_at := two_level_at
}.
Next Obligation. intros t n (i & j & Hr & _). by eapply resting_ok. Qed.
Next Obligation. intros t n Ht. by apply two_level_at_bound in Ht as []. Qed.
Next Obligation. intros t n Ht. by apply two_level_at_bound in Ht as []. Qed.
Next Obligation.
  intros t (Hs & Hi & Hd). cbn. unfold two_level_status. rewrite (ok_status _ Hi). cbn [ok negb OK]. destruct (data_iter_ t) as [d|] eqn:Ed; [|done]. by rewrite (data_status t d Hd Ed).
Qed.
Next Obligation.
  intros t (Hs & Hi & Hd). cbn. unfold two_level_SeekToFirst. wp_step. apply wp_on_index. eapply wp_mono; [exact (first_at _ Hi)|]. cbn beta. intros _ it Hit.
  eapply (load_spec _ 0 SeekToFirst (fun _ j => j = 0%nat)); [split_and!; [done|by eapply at_ok|done]|done| |].
  - intros b d Hbd. eapply wp_mono; [exact (first_at d Hbd)|]. cbn beta. intros _ d' Hd'. by exists 0%nat.
  - intros t' j Hr Hj. assert (j = 0%nat) as ->. { destruct (blocks !! 0%nat) as [b|] eqn:Eb; [by apply (Hj b)|]. destruct Hr as (_ & _ & Hr). rewrite Eb in Hr. apply Hr. }
    eapply wp_mono; [apply (Skip_spec fuel t' 0 0 Hr); lia|]. done.
Qed.
Next Obligation.
  intros t target (Hs & Hi & Hd). cbn. unfold two_level_Seek. wp_step. apply wp_on_index. eapply wp_mono; [exact (seek_at _ target Hi)|]. cbn beta. intros _ it (i & Hpast & Hit).
  eapply (load_spec _ i (Seek target) (fun b j => first_at_or_past b target j)); [split_and!; [done|by eapply at_ok|done]|done| |].
  - intros b d Hbd. exact (seek_at d target Hbd).
  - intros t' j Hr Hj. eapply wp_mono; [apply (Skip_spec fuel t' i j Hr); lia|]. cbn beta. intros _ t'' Ht. exists (block_offset i + j)%nat. split; [|done].
    apply seek_position; [done|done|]. intros Eb. destruct Hr as (_ & _ & Hr). rewrite Eb in Hr. apply Hr.
Qed.
Next Obligation.
  intros t n Ht Hn. cbn. unfold two_level_Next. wp_steps. pose proof (two_level_at_bound t n Ht) as [_ Hv]. apply wp_CHECK; [rewrite Hv; by apply bool_decide_eq_true_2|]. cbn beta.
  destruct Ht as (i & j & (Hs & Hi & Hd) & -> & Hj). destruct (blocks !! i) as [b|] eqn:Eb; [|destruct Hd as [_ ->]; apply lookup_ge_None in Eb; rewrite block_offset_end in Hn by done; lia].
  destruct Hd as (k & d & Hk & Ed & Hdj). wp_step. eapply wp_on_data; [exact Ed|]. eapply wp_mono; [exact (next_at d j Hdj (Hj b eq_refl))|]. cbn beta. intros _ d' Hd'.
  replace (S (block_offset i + j)) with (block_offset i + S j)%nat by lia. apply Skip_spec; [|lia]. unfold resting. cbn. rewrite Eb. split_and!; [done|done|]. by exists k, d'.
Qed.
Next Obligation.
  intros t n k v Ht Hkv. cbn [key value TwoLevel_iterator]. pose proof (two_level_at_bound t n Ht) as [_ Hv]. unfold two_level_key. rewrite run_get, Hv, bool_decide_eq_true_2 by (by eapply lookup_lt_Some). erewrite run_bind by done.
  destruct (at_pair t n (k, v) Ht Hkv) as (b & d & j & Ed & Hj & Hb). unfold on_data. rewrite Ed, (key_at d j k v Hj Hb). by destruct t; cbn in *; subst.
Qed.
Next Obligation.
  intros t n k v Ht Hkv. cbn [key value TwoLevel_iterator]. pose proof (two_level_at_bound t n Ht) as [_ Hv]. unfold two_level_value. rewrite run_get, Hv, bool_decide_eq_true_2 by (by eapply lookup_lt_Some). erewrite run_bind by done.
  destruct (at_pair t n (k, v) Ht Hkv) as (b & d & j & Ed & Hj & Hb). unfold on_data. rewrite Ed, (value_at d j k v Hj Hb). by destruct t; cbn in *; subst.
Qed.

End two_level.
