(* ===== verification/TableFile.v ===== *)
(** * Table files: the model

    [core/lib/io/format.cc]: handles, the footer and the framing of blocks in a file;
    [table_builder.cc]: the builder, which cuts sorted pairs into blocks and writes them with
    an index; [table.cc]: opening a table and reading it.  The compression library and the
    file are parameters; memory ownership is left out. *)

From S2P Require Import Prelude Coding OrderedCode TableBlock Crc32c InputStream RecordFile TableIterator.
Import Coding.

Module TableFile.

Abbreviation less := OrderedCode.lex_lt.

(** ** Handles and footers *)

Definition kMaxEncodedLength : Z := 10 + 10.
Definition kEncodedLength : Z := 2 * kMaxEncodedLength + 8.
Definition kTableMagicNumber : Z := 0xdb4775248b80fb57.
Definition kBlockTrailerSize : Z := 5.

Record BlockHandle := mkHandle { offset_ : Z; size_ : Z }.

Definition BlockHandle_new : BlockHandle := mkHandle (2 ^ 64 - 1) (2 ^ 64 - 1).

(** [None]: a handle that was not set. *)
Definition BlockHandle_EncodeTo (h : BlockHandle) (dst : list Z) : option (list Z) :=
  if (offset_ h =? 2 ^ 64 - 1) || (size_ h =? 2 ^ 64 - 1) then None
  else Some (PutVarint64 (PutVarint64 dst (offset_ h)) (size_ h)).

(** The handle and the rest of the input. *)
Definition BlockHandle_DecodeFrom (input : list Z) : result (BlockHandle * list Z) :=
  match GetVarint64 input with
  | (Some offset, input) =>
      match GetVarint64 input with
      | (Some size, input) => Ok (mkHandle offset size, input)
      | (None, _) => Err DATA_LOSS
      end
  | (None, _) => Err DATA_LOSS
  end.

Inductive CompressionType := kNoCompression | kSnappyCompression.
Definition type_byte (type : CompressionType) : Z := match type with kNoCompression => 0 | kSnappyCompression => 1 end.

Record Options := mkOptions { block_size : Z; block_restart_interval : Z; compression : CompressionType }.

Section table.
Context (kLittleEndian can_accelerate : bool) (mm_crc32_u8 mm_crc32_u64 : Z -> Z -> Z) (address : list Z -> Z).
(** [port::Snappy_Compress], [Snappy_GetUncompressedLength] and [Snappy_Uncompress]. *)
Context (Snappy_Compress : list Z -> option (list Z)) (Snappy_GetUncompressedLength : list Z -> option Z) (Snappy_Uncompress : list Z -> option (list Z)).

Record Footer := mkFooter { metaindex_handle_ : BlockHandle; index_handle_ : BlockHandle }.

(** [dst->resize]. *)
Definition resize_string (n : nat) (dst : list Z) : list Z := take n dst ++ replicate (n - length dst) 0.

Definition Footer_EncodeTo (f : Footer) (dst : list Z) : option (list Z) :=
  let original_size := Z.of_nat (length dst) in
  dst ← BlockHandle_EncodeTo (metaindex_handle_ f) dst;
  dst ← BlockHandle_EncodeTo (index_handle_ f) dst;
  let dst := resize_string (Z.to_nat (2 * kMaxEncodedLength)) dst in
  let dst := PutFixed32 kLittleEndian dst (u32 (Z.land kTableMagicNumber 0xffffffff)) in
  let dst := PutFixed32 kLittleEndian dst (u32 (Z.shiftr kTableMagicNumber 32)) in
  if Z.of_nat (length dst) =? original_size + kEncodedLength then Some dst else None.

(** The footer and what follows it; the outer [None] is a read past the end of the input. *)
Definition Footer_DecodeFrom (input : list Z) : option (result (Footer * list Z)) :=
  let magic_ptr := Z.to_nat (kEncodedLength - 8) in
  magic_lo ← DecodeFixed32 kLittleEndian (drop magic_ptr input);
  magic_hi ← DecodeFixed32 kLittleEndian (drop (magic_ptr + 4) input);
  let magic := Z.lor (Z.shiftl magic_hi 32) magic_lo in
  Some (if negb (magic =? kTableMagicNumber) then Err DATA_LOSS
        else
          '(metaindex_handle, rest) ← BlockHandle_DecodeFrom input;
          '(index_handle, _) ← BlockHandle_DecodeFrom rest;
          Ok (mkFooter metaindex_handle index_handle, drop (magic_ptr + 8) input)).

(** ** Reading a block of a file *)

Section reading.
Context (file_Read : Z -> Z -> Status * list Z).

(** The contents of the block; the outer [None] is an access outside a buffer. *)
Definition ReadBlock (handle : BlockHandle) : option (result (list Z)) :=
  let n := size_ handle in
  if 2 ^ 64 - 1 - n <? kBlockTrailerSize then Some (Err DATA_LOSS)
  else
    match file_Read (offset_ handle) (n + kBlockTrailerSize) with
    | (Err c, _) => Some (Err c)
    | (Ok _, contents) =>
        if negb (Z.of_nat (length contents) =? n + kBlockTrailerSize) then Some (Err DATA_LOSS)
        else
          masked ← DecodeFixed32 kLittleEndian (drop (Z.to_nat (n + 1)) contents);
          actual ← RecordFile.Value kLittleEndian can_accelerate mm_crc32_u8 mm_crc32_u64 address (take (Z.to_nat (n + 1)) contents);
          if negb (actual =? Crc32c.Unmask masked) then Some (Err DATA_LOSS)
          else
            type ← contents !! Z.to_nat n;
            let data := take (Z.to_nat n) contents in
            if type =? type_byte kNoCompression then Some (Ok data)
            else if type =? type_byte kSnappyCompression then
              match Snappy_GetUncompressedLength data with
              | None => Some (Err DATA_LOSS)
              | Some ulength =>
                  match Snappy_Uncompress data with
                  | None => Some (Err DATA_LOSS)
                  | Some ubuf => if Z.of_nat (length ubuf) =? ulength then Some (Ok ubuf) else None
                  end
              end
            else Some (Err DATA_LOSS)
    end.

(** ** Tables *)

(** The contents of the index block stand for the block. *)
Record Table := mkTable { metaindex_handle : BlockHandle; index_block : list Z }.

Definition Open (size : Z) : option (result Table) :=
  if size <? kEncodedLength then Some (Err DATA_LOSS)
  else
    match file_Read (size - kEncodedLength) kEncodedLength with
    | (Err c, _) => Some (Err c)
    | (Ok _, footer_input) =>
        footer ← Footer_DecodeFrom footer_input;
        match footer with
        | Err c => Some (Err c)
        | Ok (footer, _) =>
            contents ← ReadBlock (index_handle_ footer);
            match contents with
            | Err c => Some (Err c)
            | Ok contents =>
                _ ← TableBlock.Block_new kLittleEndian contents;
                Some (Ok (mkTable (metaindex_handle_ footer) contents))
            end
        end
    end.

Definition BlockReader (index_value : list Z) : option TableIterator.BlockIter :=
  match BlockHandle_DecodeFrom index_value with
  | Err c => Some (TableIterator.NewErrorIterator (Err c))
  | Ok (handle, _) =>
      contents ← ReadBlock handle;
      match contents with
      | Ok contents => TableIterator.Block_NewIterator kLittleEndian contents
      | Err c => Some (TableIterator.NewErrorIterator (Err c))
      end
  end.

Definition NewIterator (table : Table) : option (@TableIterator.TwoLevelIterator TableIterator.BlockIter TableIterator.BlockIter) :=
  index_iter ← TableIterator.Block_NewIterator kLittleEndian (index_block table);
  Some (TableIterator.TwoLevelIterator_new index_iter).

#[local] Instance block_iterators : TableIterator.Iterator TableIterator.BlockIter := TableIterator.Block_iterator kLittleEndian.

(** A method of an iterator that the caller holds. *)
Definition call {I A} (m : M I A) (it : I) : M unit (A * I) := fun s =>
  match m it with Val r => Val (r, s) | Crash => Crash | NoFuel => NoFuel end.

(** What the saver is called with, and the status. *)
Definition InternalGet (table : Table) (k : list Z) : M unit (option (list Z * list Z) * Status) :=
  iiter ← of_option (TableIterator.Block_NewIterator kLittleEndian (index_block table));
  '(_, iiter) ← call (TableIterator.Seek k) iiter;
  if TableIterator.Valid iiter then
    '(handle, iiter) ← call TableIterator.value iiter;
    block_iter ← of_option (BlockReader handle);
    '(_, block_iter) ← call (TableIterator.Seek k) block_iter;
    saved ← (if TableIterator.Valid block_iter then
               '(key, _) ← call TableIterator.key block_iter;
               '(value, _) ← call TableIterator.value block_iter;
               mret (Some (key, value))
             else mret None);
    let s := TableIterator.status block_iter in
    mret (saved, if ok s then TableIterator.status iiter else s)
  else mret (None, TableIterator.status iiter).

Definition ApproximateOffsetOf (table : Table) (k : list Z) : M unit Z :=
  index_iter ← of_option (TableIterator.Block_NewIterator kLittleEndian (index_block table));
  '(_, index_iter) ← call (TableIterator.Seek k) index_iter;
  if TableIterator.Valid index_iter then
    '(input, _) ← call TableIterator.value index_iter;
    mret match BlockHandle_DecodeFrom input with
         | Ok (handle, _) => offset_ handle
         | Err _ => offset_ (metaindex_handle table)
         end
  else mret (offset_ (metaindex_handle table)).

End reading.

(** ** Building a table *)

(** [None]: the assertion fails. *)
Definition FindShortestSeparator (start limit : list Z) : option (list Z) :=
  let min_length := Nat.min (length start) (length limit) in
  let diff_index := TableBlock.shared_length start limit in
  if (min_length <=? diff_index)%nat then Some start
  else
    diff_byte ← start !! diff_index;
    limit_byte ← limit !! diff_index;
    if (diff_byte <? 255) && (diff_byte + 1 <? limit_byte) then
      let start := take diff_index start ++ [diff_byte + 1] in
      if less start limit then Some start else None
    else Some start.

Fixpoint FindShortSuccessor (key : list Z) : list Z :=
  match key with
  | [] => []
  | byte :: key => if negb (byte =? 255) then [u8 (byte + 1)] else byte :: FindShortSuccessor key
  end.

Section builder.
Context {F : Type} `{RecordFile.WritableFile F} (options : Options).

Record Rep := mkRep {
  file : F;
  offset : Z;
  status : Status;
  data_block : TableBlock.BlockBuilder;
  index_block_ : TableBlock.BlockBuilder;
  last_key : list Z;
  num_entries : Z;
  closed : bool;
  pending_index_entry : bool;
  pending_handle : BlockHandle
}.

Definition TableBuilder_new (f : F) : Rep :=
  mkRep f 0 OK TableBlock.BlockBuilder_new TableBlock.BlockBuilder_new [] 0 false false BlockHandle_new.

Abbreviation MR := (M Rep).

Definition set_file (f : F) (r : Rep) : Rep := mkRep f (offset r) (status r) (data_block r) (index_block_ r) (last_key r) (num_entries r) (closed r) (pending_index_entry r) (pending_handle r).
Definition set_offset (o : Z) (r : Rep) : Rep := mkRep (file r) o (status r) (data_block r) (index_block_ r) (last_key r) (num_entries r) (closed r) (pending_index_entry r) (pending_handle r).
Definition set_status (st : Status) (r : Rep) : Rep := mkRep (file r) (offset r) st (data_block r) (index_block_ r) (last_key r) (num_entries r) (closed r) (pending_index_entry r) (pending_handle r).
Definition set_data_block (b : TableBlock.BlockBuilder) (r : Rep) : Rep := mkRep (file r) (offset r) (status r) b (index_block_ r) (last_key r) (num_entries r) (closed r) (pending_index_entry r) (pending_handle r).
Definition set_index_block (b : TableBlock.BlockBuilder) (r : Rep) : Rep := mkRep (file r) (offset r) (status r) (data_block r) b (last_key r) (num_entries r) (closed r) (pending_index_entry r) (pending_handle r).
Definition set_last_key (k : list Z) (r : Rep) : Rep := mkRep (file r) (offset r) (status r) (data_block r) (index_block_ r) k (num_entries r) (closed r) (pending_index_entry r) (pending_handle r).
Definition set_num_entries (n : Z) (r : Rep) : Rep := mkRep (file r) (offset r) (status r) (data_block r) (index_block_ r) (last_key r) n (closed r) (pending_index_entry r) (pending_handle r).
Definition set_closed (b : bool) (r : Rep) : Rep := mkRep (file r) (offset r) (status r) (data_block r) (index_block_ r) (last_key r) (num_entries r) b (pending_index_entry r) (pending_handle r).
Definition set_pending (b : bool) (r : Rep) : Rep := mkRep (file r) (offset r) (status r) (data_block r) (index_block_ r) (last_key r) (num_entries r) (closed r) b (pending_handle r).
Definition set_pending_handle (h : BlockHandle) (r : Rep) : Rep := mkRep (file r) (offset r) (status r) (data_block r) (index_block_ r) (last_key r) (num_entries r) (closed r) (pending_index_entry r) h.

(** [r->status = r->file->Append(data)]. *)
Definition Append (data : list Z) : MR unit := fun r =>
  match RecordFile.Append data (file r) with
  | Val (st, f) => Val (tt, set_status st (set_file f r))
  | Crash => Crash
  | NoFuel => NoFuel
  end.

(** A method of a block builder. *)
Definition on_block {A} (m : M TableBlock.BlockBuilder A) (b : TableBlock.BlockBuilder) : MR (A * TableBlock.BlockBuilder) := fun r =>
  match m b with Val p => Val (p, r) | Crash => Crash | NoFuel => NoFuel end.

(** The handle of the block. *)
Definition WriteRawBlock (block_contents : list Z) (type : CompressionType) : MR BlockHandle :=
  r ← get;
  let handle := mkHandle (offset r) (Z.of_nat (length block_contents)) in
  Append block_contents;;
  r ← get;
  (if ok (status r) then
     crc ← of_option (RecordFile.Value kLittleEndian can_accelerate mm_crc32_u8 mm_crc32_u64 address block_contents);
     let trailer := [type_byte type] in
     crc ← of_option (Crc32c.Extend kLittleEndian can_accelerate mm_crc32_u8 mm_crc32_u64 crc (address trailer) trailer);
     Append (trailer ++ EncodeFixed32 kLittleEndian (Crc32c.Mask crc));;
     r ← get;
     if ok (status r) then put (set_offset (u64 (offset r + Z.of_nat (length block_contents) + kBlockTrailerSize)) r) else mret tt
   else mret tt);;
  mret handle.

(** The handle of the block, and the block, which is reset. *)
Definition WriteBlock (block : TableBlock.BlockBuilder) : MR (BlockHandle * TableBlock.BlockBuilder) :=
  r ← get;
  CHECK (ok (status r));;
  '(raw, block) ← on_block (TableBlock.Finish kLittleEndian) block;
  let '(block_contents, type) :=
    match compression options with
    | kNoCompression => (raw, kNoCompression)
    | kSnappyCompression =>
        match Snappy_Compress raw with
        | Some compressed =>
            if Z.of_nat (length compressed) <? Z.of_nat (length raw) - Z.of_nat (length raw) / 8 then (compressed, kSnappyCompression)
            else (raw, kNoCompression)
        | None => (raw, kNoCompression)
        end
    end in
  handle ← WriteRawBlock block_contents type;
  '(_, block) ← on_block TableBlock.Reset block;
  mret (handle, block).

Definition Flush : MR unit :=
  r ← get;
  CHECK (negb (closed r));;
  if negb (ok (status r)) then mret tt
  else
    '(is_empty, _) ← on_block TableBlock.empty (data_block r);
    if (is_empty : bool) then mret tt
    else
      CHECK (negb (pending_index_entry r));;
      '(handle, block) ← WriteBlock (data_block r);
      modify (set_data_block block);;
      modify (set_pending_handle handle);;
      r ← get;
      if ok (status r) then put (set_pending true r) else mret tt.

(** The index entry of the last block. *)
Definition AddIndexEntry (separator : list Z) : MR unit :=
  modify (set_last_key separator);;
  r ← get;
  handle_encoding ← of_option (BlockHandle_EncodeTo (pending_handle r) []);
  '(_, block) ← on_block (TableBlock.Add 1 separator handle_encoding) (index_block_ r);
  modify (set_index_block block);;
  modify (set_pending false).

Definition Add (key value : list Z) : MR unit :=
  r ← get;
  CHECK (negb (closed r));;
  if negb (ok (status r)) then mret tt
  else
    (if 0 <? num_entries r then
       CHECK (less (last_key r) key);;
       let kOverlyLargeBlockRatio := 2 in
       let this_entry_bytes := Z.of_nat (length key) + Z.of_nat (length value) in
       if u64 (kOverlyLargeBlockRatio * block_size options) <=? this_entry_bytes then Flush else mret tt
     else mret tt);;
    r ← get;
    (if pending_index_entry r then
       '(is_empty, _) ← on_block TableBlock.empty (data_block r);
       CHECK is_empty;;
       separator ← of_option (FindShortestSeparator (last_key r) key);
       AddIndexEntry separator
     else mret tt);;
    modify (set_last_key key);;
    modify (fun r => set_num_entries (num_entries r + 1) r);;
    r ← get;
    '(_, block) ← on_block (TableBlock.Add (block_restart_interval options) key value) (data_block r);
    modify (set_data_block block);;
    '(estimated_block_size, _) ← on_block TableBlock.CurrentSizeEstimate block;
    if block_size options <=? estimated_block_size then Flush else mret tt.

Definition Finish : MR Status :=
  Flush;;
  r ← get;
  CHECK (negb (closed r));;
  put (set_closed true r);;
  metaindex_block_handle ← (if ok (status r) then '(handle, _) ← WriteBlock TableBlock.BlockBuilder_new; mret handle else mret BlockHandle_new);
  r ← get;
  index_block_handle ←
    (if ok (status r) then
       (if pending_index_entry r then AddIndexEntry (FindShortSuccessor (last_key r)) else mret tt);;
       r ← get;
       '(handle, block) ← WriteBlock (index_block_ r);
       modify (set_index_block block);;
       mret handle
     else mret BlockHandle_new);
  r ← get;
  (if ok (status r) then
     footer_encoding ← of_option (Footer_EncodeTo (mkFooter metaindex_block_handle index_block_handle) []);
     Append footer_encoding;;
     r ← get;
     if ok (status r) then put (set_offset (u64 (offset r + Z.of_nat (length footer_encoding))) r) else mret tt
   else mret tt);;
  gets status.

Definition Abandon : MR unit := r ← get; CHECK (negb (closed r));; put (set_closed true r).

Definition NumEntries (r : Rep) : Z := num_entries r.
Definition FileSize (r : Rep) : Z := offset r.

End builder.
End table.
End TableFile.
