(* ===== verification/TableFileFormat.v ===== *)
(** * Table files: the format

    Handles and the footer are read back; a block framed with its type and checksum is read
    back, and a frame that was damaged is reported. *)

From S2P Require Import Prelude Coding OrderedCode TableBlock TableBlockProofs Crc32c Crc32cTheorems InputStream InputStreamProofs RecordFile RecordFileProofs RecordFileTheorems RecordIntegrity TableFile.
Import Coding TableFile.

#[local] Open Scope runtime_scope.

(** ** Handles *)

Definition set_handle (h : BlockHandle) : Prop := 0 <= offset_ h < 2 ^ 64 - 1 /\ 0 <= size_ h < 2 ^ 64 - 1.
Definition handle_bytes (h : BlockHandle) : list Z := EncodeVarint64 (offset_ h) ++ EncodeVarint64 (size_ h).

Lemma handle_encode h dst : set_handle h -> BlockHandle_EncodeTo h dst = Some (dst ++ handle_bytes h).
Proof.
  intros [Ho Hs]. unfold BlockHandle_EncodeTo. rewrite (proj2 (Z.eqb_neq _ _)), (proj2 (Z.eqb_neq _ _)) by lia. unfold PutVarint64, handle_bytes. cbn [orb]. by rewrite app_assoc.
Qed.

Lemma handle_decode h rest : set_handle h -> BlockHandle_DecodeFrom (handle_bytes h ++ rest) = Ok (h, rest).
Proof.
  intros [Ho Hs]. unfold BlockHandle_DecodeFrom, GetVarint64, handle_bytes. rewrite <- app_assoc, GetVarint64_encode by lia. rewrite GetVarint64_encode by lia. by destruct h.
Qed.

Lemma handle_inj h h' : set_handle h -> set_handle h' -> handle_bytes h = handle_bytes h' -> h = h'.
Proof. intros Hh Hh' E. pose proof (handle_decode h [] Hh) as H1. rewrite E, handle_decode in H1 by done. congruence. Qed.

Lemma varint64_bytes v : 0 <= v < 2 ^ 64 -> bytes (EncodeVarint64 v) /\ (1 <= length (EncodeVarint64 v) <= 10)%nat.
Proof.
  intros Hv. destruct (varint_round_trip v [] Hv ltac:(done)) as (_ & Hl & Hle & _). unfold PutVarint64 in *. cbn [app] in *. split.
  - unfold EncodeVarint64. apply EncodeVarint64_loop_bytes; cbn; lia.
  - split; [|done]. unfold EncodeVarint64. cbn [EncodeVarint64_loop]. case_match; cbn; lia.
Qed.

Lemma handle_length h : set_handle h -> bytes (handle_bytes h) /\ (2 <= length (handle_bytes h) <= 20)%nat.
Proof.
  intros [Ho Hs]. destruct (varint64_bytes (offset_ h)) as [B1 L1]; [lia|]. destruct (varint64_bytes (size_ h)) as [B2 L2]; [lia|].
  unfold handle_bytes. rewrite length_app. split; [by apply Forall_app|lia].
Qed.

(** ** The footer *)

Definition magic_bytes : list Z := le_bytes 8 kTableMagicNumber.
Definition footer_bytes (f : Footer) : list Z :=
  let handles := handle_bytes (metaindex_handle_ f) ++ handle_bytes (index_handle_ f) in
  handles ++ replicate (40 - length handles) 0 ++ magic_bytes.

Lemma footer_length f : set_handle (metaindex_handle_ f) -> set_handle (index_handle_ f) -> length (footer_bytes f) = 48%nat.
Proof.
  intros Hm Hi. destruct (handle_length _ Hm) as [_ Lm], (handle_length _ Hi) as [_ Li]. unfold footer_bytes. rewrite !length_app, length_replicate. unfold magic_bytes. rewrite le_bytes_length. lia.
Qed.

Lemma footer_encode le f : set_handle (metaindex_handle_ f) -> set_handle (index_handle_ f) -> Footer_EncodeTo le f [] = Some (footer_bytes f).
Proof.
  intros Hm Hi. destruct (handle_length _ Hm) as [_ Lm], (handle_length _ Hi) as [_ Li]. unfold Footer_EncodeTo. rewrite handle_encode by done. cbn [mbind option_bind app].
  rewrite handle_encode by done. cbn [mbind option_bind]. unfold PutFixed32. rewrite !(proj1 (proj2 (EncodeFixed_le le _))).
  set (handles := handle_bytes (metaindex_handle_ f) ++ handle_bytes (index_handle_ f)) in *. assert (length handles <= 40)%nat as Lh by (unfold handles; rewrite length_app; lia).
  change (Z.to_nat (2 * kMaxEncodedLength)) with 40%nat. unfold resize_string. rewrite take_ge by done.
  set (lo := le_bytes 4 _). set (hi := le_bytes 4 _). assert (lo ++ hi = magic_bytes) as Em by (vm_compute; reflexivity).
  rewrite !length_app. unfold lo at 1, hi at 1. rewrite !le_bytes_length, length_replicate. rewrite (proj2 (Z.eqb_eq _ _)) by (unfold kEncodedLength, kMaxEncodedLength; cbn [length]; lia).
  f_equal. unfold footer_bytes. fold handles. rewrite <- Em, <- !app_assoc. done.
Qed.

Lemma footer_decode le f : set_handle (metaindex_handle_ f) -> set_handle (index_handle_ f) -> Footer_DecodeFrom le (footer_bytes f) = Some (Ok (f, [])).
Proof.
  intros Hm Hi. destruct (handle_length _ Hm) as [_ Lm], (handle_length _ Hi) as [_ Li]. unfold Footer_DecodeFrom. change (Z.to_nat (kEncodedLength - 8)) with 40%nat.
  set (handles := handle_bytes (metaindex_handle_ f) ++ handle_bytes (index_handle_ f)). assert (length handles <= 40)%nat as Lh by (unfold handles; rewrite length_app; lia).
  assert (drop 40 (footer_bytes f) = magic_bytes) as Ed.
  { unfold footer_bytes. fold handles. rewrite app_assoc, drop_app_length'; [done|]. rewrite length_app, length_replicate. lia. }
  rewrite <- !drop_drop, !Ed. change (drop 8 magic_bytes) with (@nil Z). assert (DecodeFixed32 le magic_bytes = Some (Z.land kTableMagicNumber 0xffffffff)) as -> by (destruct le; vm_compute; reflexivity). cbn [mbind option_bind].
  assert (DecodeFixed32 le (drop 4 magic_bytes) = Some (Z.shiftr kTableMagicNumber 32)) as -> by (destruct le; vm_compute; reflexivity). cbn [mbind option_bind].
  change (negb _) with false. cbn beta iota. unfold footer_bytes. rewrite <- app_assoc, handle_decode by done. cbn [mbind result_bind]. rewrite handle_decode by done. cbn [mbind result_bind]. by destruct f.
Qed.

(** ** Blocks in a file *)

(** The contents, the type, and the checksum of both. *)
Definition block_frame (contents : list Z) (type : CompressionType) : list Z :=
  (contents ++ [type_byte type]) ++ checksum (contents ++ [type_byte type]).

Lemma block_frame_length contents type : length (block_frame contents type) = (length contents + 5)%nat.
Proof. unfold block_frame, checksum. rewrite !length_app, le_bytes_length. cbn [length]. lia. Qed.

Lemma block_frame_bytes contents type : bytes contents -> bytes (block_frame contents type).
Proof. intros Hc. unfold bytes, block_frame. rewrite !Forall_app. split_and!; [done|repeat constructor; by destruct type|apply le_bytes_range]. Qed.

Section frames.
Context (le acc : bool) (mm8 mm64 : Z -> Z -> Z) (address : list Z -> Z) (H8 : instruction_u8 mm8) (H64 : instruction_u64 mm64).
Context (Snappy_GetUncompressedLength : list Z -> option Z) (Snappy_Uncompress : list Z -> option (list Z)).

(** What [ReadBlock] makes of checked contents of a type. *)
Definition unpack (type : Z) (data : list Z) : option (result (list Z)) :=
  if type =? 0 then Some (Ok data)
  else if type =? 1 then
    match Snappy_GetUncompressedLength data with
    | None => Some (Err DATA_LOSS)
    | Some ulength =>
        match Snappy_Uncompress data with
        | None => Some (Err DATA_LOSS)
        | Some ubuf => if Z.of_nat (length ubuf) =? ulength then Some (Ok ubuf) else None
        end
    end
  else Some (Err DATA_LOSS).

Section file.
Context (content : list Z) (file_Read : Z -> Z -> Status * list Z) (Hfile : file_of content file_Read) (Hbytes : Forall byte content).
Abbreviation Read h := (ReadBlock le acc mm8 mm64 address Snappy_GetUncompressedLength Snappy_Uncompress file_Read h).

(** Reading a handle of any file. *)
Lemma ReadBlock_run h : 0 <= offset_ h -> 0 <= size_ h -> size_ h + 5 < 2 ^ 64 ->
  let f := slice content (offset_ h) (size_ h + 5) in
  Read h = if negb (Z.of_nat (length f) =? size_ h + 5) then Some (Err OUT_OF_RANGE)
           else if bool_decide (drop (Z.to_nat (size_ h + 1)) f = checksum (take (Z.to_nat (size_ h + 1)) f))
                then type ← f !! Z.to_nat (size_ h); unpack type (take (Z.to_nat (size_ h)) f)
                else Some (Err DATA_LOSS).
Proof using Hfile Hbytes H8 H64.
  intros Ho Hs Hmax f. unfold ReadBlock. rewrite (proj2 (Z.ltb_ge _ kBlockTrailerSize)) by (unfold kBlockTrailerSize; lia). change kBlockTrailerSize with 5.
  rewrite Hfile by lia. fold f. destruct (Z.eqb_spec (Z.of_nat (length f)) (size_ h + 5)) as [El|El]; cbn [negb OK]; [|done].
  assert (Forall byte f) as Hf by (by apply Forall_take, Forall_drop).
  destruct (checksum_read le (take (Z.to_nat (size_ h + 1)) f) (drop (Z.to_nat (size_ h + 1)) f)) as (m & -> & Em); [by apply Forall_take|by apply Forall_drop|rewrite length_drop; lia|].
  cbn [mbind option_bind]. rewrite (Value_run le acc mm8 mm64 address H8 H64) by (by apply Forall_take). cbn [mbind option_bind]. rewrite Z.eqb_sym, Em.
  case_bool_decide; cbn [negb]; [|done]. destruct (f !! Z.to_nat (size_ h)) as [type|]; [|done]. cbn [mbind option_bind]. done.
Qed.

(** A frame is read back. *)
Lemma ReadBlock_frame pre contents type post : content = pre ++ block_frame contents type ++ post -> Z.of_nat (length contents) + 5 < 2 ^ 64 ->
  Read (mkHandle (Z.of_nat (length pre)) (Z.of_nat (length contents))) = unpack (type_byte type) contents.
Proof using Hfile Hbytes H8 H64.
  intros Ec Hmax. rewrite ReadBlock_run by (cbn [offset_ size_]; lia). cbn [offset_ size_].
  assert (slice content (Z.of_nat (length pre)) (Z.of_nat (length contents) + 5) = block_frame contents type) as ->.
  { apply (slice_at _ pre _ post); [done|done|]. rewrite block_frame_length. lia. }
  rewrite block_frame_length. rewrite (proj2 (Z.eqb_eq _ _)) by lia. cbn [negb].
  replace (Z.to_nat (Z.of_nat (length contents) + 1)) with (length (contents ++ [type_byte type])) by (rewrite length_app; cbn [length]; lia).
  unfold block_frame. rewrite drop_app_length, take_app_length, bool_decide_eq_true_2 by done. rewrite Nat2Z.id.
  rewrite <- app_assoc, lookup_app_r, Nat.sub_diag by lia. cbn [app lookup list_lookup mbind option_bind]. by rewrite take_app_length.
Qed.

(** A frame whose contents or type changed inside four consecutive bytes, or whose checksum changed, is reported. *)
Inductive frame_damage (c : list Z) : list Z -> Prop :=
| damage_contents d : burst c d -> frame_damage c (d ++ checksum c)
| damage_checksum e : length e = 4%nat -> Forall byte e -> e <> checksum c -> frame_damage c (c ++ e).

Lemma ReadBlock_damaged pre contents type f post : bytes contents -> frame_damage (contents ++ [type_byte type]) f -> content = pre ++ f ++ post ->
  Z.of_nat (length contents) + 5 < 2 ^ 64 -> Read (mkHandle (Z.of_nat (length pre)) (Z.of_nat (length contents))) = Some (Err DATA_LOSS).
Proof using Hfile Hbytes H8 H64.
  intros Hc Hd Ec Hmax. set (c := contents ++ [type_byte type]) in *. assert (length c = (length contents + 1)%nat) as Lc by (unfold c; rewrite length_app; done).
  assert (Forall byte c) as Bc by (unfold c; apply Forall_app; split; [done|repeat constructor; by destruct type]).
  assert (exists d e, f = d ++ e /\ length d = length c /\ length e = 4%nat /\ e <> checksum d) as (d & e & -> & Ld & Le & Hne).
  { destruct Hd as [d Hb|e Le Be Hne]; [exists d, (checksum c)|exists c, e].
    - split_and!; [done|by rewrite (burst_length _ _ Hb)|apply le_bytes_len|by apply (burst_checksum c d)].
    - done. }
  rewrite ReadBlock_run by (cbn [offset_ size_]; lia). cbn [offset_ size_].
  assert (slice content (Z.of_nat (length pre)) (Z.of_nat (length contents) + 5) = d ++ e) as ->.
  { apply (slice_at _ pre _ post); [done|done|]. rewrite length_app. lia. }
  rewrite (proj2 (Z.eqb_eq _ _)) by (rewrite length_app; lia). cbn [negb]. replace (Z.to_nat (Z.of_nat (length contents) + 1)) with (length d) by lia.
  by rewrite drop_app_length, take_app_length, bool_decide_eq_false_2.
Qed.

End file.
End frames.
