(* ===== verification/TableFileBuild.v ===== *)
(** * Table files: the builder

    Separators of keys, what writing a block does to the file, and the state of the builder as
    the blocks written so far, their index entries, and the pairs of the open block. *)

From S2P Require Import Prelude Coding OrderedCode TableBlock TableBlockProofs Crc32c Crc32cTheorems InputStream InputStreamProofs RecordFile RecordFileProofs RecordFileTheorems TableIterator TableIteratorProofs TableFile TableFileFormat.
Import Coding TableFile.

Abbreviation pair := TableIterator.pair.
Abbreviation less := OrderedCode.lex_lt.

#[local] Open Scope runtime_scope.

(** ** Separators *)

Lemma shared_split start : forall limit, exists p x y, start = p ++ x /\ limit = p ++ y /\ TableBlock.shared_length start limit = length p
  /\ (x = [] \/ y = [] \/ exists a x' b y', x = a :: x' /\ y = b :: y' /\ a <> b).
Proof.
  induction start as [|a start IH]; intros limit; [exists [], [], limit; split_and!; auto|]. destruct limit as [|b limit]; [exists [], (a :: start), []; split_and!; auto|].
  cbn [TableBlock.shared_length]. destruct (Z.eqb_spec a b) as [->|Hne].
  - destruct (IH limit) as (p & x & y & -> & -> & -> & Hxy). by exists (b :: p), x, y.
  - exists [], (a :: start), (b :: limit). split_and!; [done..|]. right. right. by exists a, start, b, limit.
Qed.

Lemma separator_spec start limit : bytes start -> bytes limit -> less start limit = true ->
  exists s, FindShortestSeparator start limit = Some s /\ less s start = false /\ less s limit = true /\ (length s <= length start)%nat /\ bytes s.
Proof.
  intros Bs Bl Hlt. assert (exists s, Some start = Some s /\ less s start = false /\ less s limit = true /\ (length s <= length start)%nat /\ bytes s) as Hsame.
  { exists start. split_and!; [done|apply less_irrefl|done|lia|done]. }
  unfold FindShortestSeparator. destruct (shared_split start limit) as (p & x & y & -> & -> & -> & Hxy). rewrite OrderedCode.lex_lt_app in Hlt. rewrite !length_app in *.
  destruct Hxy as [->|[->|(a & x' & b & y' & -> & -> & Hne)]]; [|by destruct x|].
  - rewrite (proj2 (Nat.leb_le _ _)) by (cbn; lia). done.
  - rewrite (proj2 (Nat.leb_gt _ _)) by (cbn; lia). rewrite !lookup_app_r, !Nat.sub_diag by lia. cbn [lookup list_lookup mbind option_bind].
    apply Forall_app in Bs as [Bp Ba%Forall_inv]. apply Forall_app in Bl as [_ Bb%Forall_inv].
    destruct (Z.ltb_spec a 255); cbn [andb]; [|done]. destruct (Z.ltb_spec (a + 1) b) as [Hab|]; [|done]. rewrite take_app_length.
    rewrite !OrderedCode.lex_lt_app. cbn [OrderedCode.lex_lt]. rewrite (proj2 (Z.ltb_lt _ _) Hab). cbn [orb]. exists (p ++ [a + 1]). split_and!.
    + done.
    + rewrite OrderedCode.lex_lt_app. cbn [OrderedCode.lex_lt]. rewrite (proj2 (Z.ltb_ge _ _)), (proj2 (Z.eqb_neq _ _)) by lia. done.
    + rewrite OrderedCode.lex_lt_app. cbn [OrderedCode.lex_lt]. by rewrite (proj2 (Z.ltb_lt _ _) Hab).
    + rewrite length_app. cbn. lia.
    + apply Forall_app. split; [done|]. repeat constructor; lia.
Qed.

Lemma successor_spec key : bytes key -> less (FindShortSuccessor key) key = false /\ (length (FindShortSuccessor key) <= length key)%nat /\ bytes (FindShortSuccessor key).
Proof.
  induction 1 as [|b key Hb _ IH]; [split_and!; constructor|]. cbn [FindShortSuccessor]. destruct (Z.eqb_spec b 255) as [->|Hne]; cbn [negb].
  - destruct IH as (Hl & Hn & Hs). cbn. split_and!; [done|lia|by constructor].
  - rewrite u8_small by lia. cbn [OrderedCode.lex_lt length]. rewrite (proj2 (Z.ltb_ge _ _)), (proj2 (Z.eqb_neq _ _)) by lia. split_and!; [done|lia|repeat constructor; lia].
Qed.

(** ** Blocks that were written *)

Record stored := mkStored { st_pairs : list pair; st_contents : list Z; st_type : CompressionType }.

Definition frame_of (w : stored) : list Z := block_frame (st_contents w) (st_type w).
Definition frames (ws : list stored) : list Z := concat (map frame_of ws).
Definition handle_at (ws : list stored) (w : stored) : BlockHandle := mkHandle (Z.of_nat (length (frames ws))) (Z.of_nat (length (st_contents w))).

Lemma frames_snoc ws w : frames (ws ++ [w]) = frames ws ++ frame_of w.
Proof. unfold frames. rewrite map_app, concat_app. cbn [map concat]. by rewrite app_nil_r. Qed.

(** A compression library gives back what it was given. *)
Definition snappy_ok (compress : list Z -> option (list Z)) (uncompressed_length : list Z -> option Z) (uncompress : list Z -> option (list Z)) : Prop :=
  forall d c, bytes d -> compress d = Some c -> bytes c /\ uncompressed_length c = Some (Z.of_nat (length d)) /\ uncompress c = Some d.

Section build.
Context (le acc : bool) (mm8 mm64 : Z -> Z -> Z) (address : list Z -> Z) (H8 : instruction_u8 mm8) (H64 : instruction_u64 mm64).
Context (compress : list Z -> option (list Z)) (uncompressed_length : list Z -> option Z) (uncompress : list Z -> option (list Z)).
Context (Hsnappy : snappy_ok compress uncompressed_length uncompress).
Context {F : Type} {HF : RecordFile.WritableFile F} {HA : AppendOnly F} (options : Options).
Abbreviation R := (@Rep F).

(** The contents unpack to a well-formed block of the pairs. *)
Definition stored_ok (w : stored) : Prop :=
  bytes (st_contents w) /\ Z.of_nat (length (st_contents w)) < 2 ^ 32
  /\ exists raw es ri, block_ok raw es ri /\ map pair_of es = st_pairs w /\ unpack uncompressed_length uncompress (type_byte (st_type w)) (st_contents w) = Some (Ok raw).

Lemma wp_Append d (r : R) (Q : unit -> R -> Prop) : status r = OK ->
  (forall f', file_bytes f' = file_bytes (file r) ++ d -> Q tt (set_file f' r)) -> TableFile.Append d @ r ⇓ Q.
Proof using Type.
  intros Hs HQ. unfold wp, TableFile.Append. pose proof (append_spec d (file r)) as Ha. unfold wp in Ha. destruct (RecordFile.Append d (file r)) as [[st f']| |]; [|done..].
  destruct Ha as [-> Ef]. specialize (HQ f' Ef). destruct r. cbn in *. by subst.
Qed.

Lemma wp_on_block {A} (m : M TableBlock.BlockBuilder A) b (r : R) (Q : A * TableBlock.BlockBuilder -> R -> Prop) :
  (m @ b ⇓ fun a b' => Q (a, b') r) -> on_block m b @ r ⇓ Q.
Proof using Type. unfold wp, on_block. by destruct (m b) as [[a b']| |]. Qed.

Lemma body_bytes_ok data es ri : block_ok data es ri -> bytes data.
Proof using Type.
  intros Hok. rewrite (k_data _ _ _ Hok). apply Forall_app. split; [apply body_bytes; apply Hok|]. unfold restart_array. apply Forall_app. split; [|apply le_bytes_range].
  apply Forall_concat, Forall_map, Forall_forall. intros i _. apply le_bytes_range.
Qed.

(** Writing the block of a builder appends a frame. *)
Lemma WriteBlock_spec K b es ri (r : R) : building K b es ri -> block_bytes es ri < 2 ^ 32 -> StronglySorted (fun a b => less a b = true) (map n_key es) ->
  status r = OK -> 0 <= offset r < 2 ^ 63 ->
  WriteBlock le acc mm8 mm64 address compress options b @ r ⇓ fun '(h, b') r' => exists w f', stored_ok w /\ st_pairs w = map pair_of es
    /\ h = mkHandle (offset r) (Z.of_nat (length (st_contents w))) /\ b' = TableBlock.BlockBuilder_new
    /\ r' = set_offset (offset r + Z.of_nat (length (frame_of w))) (set_file f' r) /\ file_bytes f' = file_bytes (file r) ++ frame_of w.
Proof using H8 H64 Hsnappy.
  intros Hb Hsz Hk Hs Ho. unfold WriteBlock. wp_steps. apply wp_CHECK; [by rewrite Hs|]. wp_step. apply wp_on_block. eapply wp_mono; [by apply (Finish_spec le K b es ri Hb Hsz Hk)|].
  cbn beta. intros raw b1 [Hok Hlen]. pose proof (body_bytes_ok raw es ri Hok) as Hraw. cbn beta iota.
  set (chosen := match compression options with kNoCompression => _ | kSnappyCompression => _ end).
  assert (exists w, chosen = (st_contents w, st_type w) /\ stored_ok w /\ st_pairs w = map pair_of es) as (w & -> & Hw & Ep).
  { assert (stored_ok (mkStored (map pair_of es) raw kNoCompression)) as Hplain.
    { split_and!; [done|cbn [st_contents]; lia|]. exists raw, es, ri. split_and!; done. }
    unfold chosen. destruct (compression options); [by exists (mkStored (map pair_of es) raw kNoCompression)|]. destruct (compress raw) as [c|] eqn:Ec; [|by exists (mkStored (map pair_of es) raw kNoCompression)].
    destruct (Z.ltb_spec (Z.of_nat (length c)) (Z.of_nat (length raw) - Z.of_nat (length raw) / 8)) as [Hc|]; [|by exists (mkStored (map pair_of es) raw kNoCompression)].
    exists (mkStored (map pair_of es) c kSnappyCompression). split_and!; [done| |done]. destruct (Hsnappy raw c Hraw Ec) as (Bc & Hul & Hu).
    split_and!; [done|cbn [st_contents]; pose proof (Z.div_pos (Z.of_nat (length raw)) 8); lia|]. exists raw, es, ri. split_and!; [done|done|]. unfold unpack. cbn. by rewrite Hul, Hu, Z.eqb_refl. }
  destruct Hw as (Bc & Lc & Hw). cbn beta iota. wp_step. unfold WriteRawBlock. wp_steps. apply wp_Append; [done|]. intros f1 E1. wp_steps. cbn [status set_file]. rewrite Hs. cbn [ok OK].
  wp_step. eapply wp_of_option; [by apply (Value_run le acc mm8 mm64 address H8 H64)|]. wp_step. assert (word32 0) as H0 by (unfold word32; lia).
  eapply wp_of_option; [apply (Extend_run mm8 mm64 H8 H64); [by apply crc32c_word|repeat constructor; by destruct (st_type w)]|]. wp_steps. apply wp_Append; [done|]. intros f2 E2. wp_steps. cbn [status set_file]. rewrite Hs. cbn [ok OK]. wp_steps.
  apply wp_on_block. unfold TableBlock.Reset. wp_steps. exists w, f2. rewrite (proj1 (proj2 (EncodeFixed_le le _))) in E2. cbn [file set_file] in E1, E2.
  assert (file_bytes f2 = file_bytes (file r) ++ frame_of w) as Ef.
  { rewrite E2, E1, <- app_assoc. f_equal. unfold frame_of, block_frame. rewrite <- app_assoc. f_equal. unfold checksum. by rewrite <- crc32c_app. }
  split_and!; [done|done|done|done| |done]. unfold frame_of. rewrite block_frame_length. cbn [offset set_file]. rewrite u64_small by (unfold kBlockTrailerSize; lia).
  destruct r. unfold set_offset, set_file. cbn. f_equal. unfold kBlockTrailerSize. lia.
Qed.

(** ** The state of the builder *)

Abbreviation K := (block_restart_interval options).

Definition pairs_of (done : list stored) : list pair := concat (map st_pairs done).
Definition sorted_pairs (l : list pair) : Prop := StronglySorted (fun a b => less a b = true) (map fst l).

(** What an index entry of a block may take, for every pair: at most 20 bytes of a handle and
    19 of lengths and a restart point. *)
Definition key_room (kv : pair) : Z := 39 + Z.of_nat (length kv.1).
Definition index_room (l : list pair) : Z := zsum (map key_room l).

(** [done]: the blocks in the file; [index]: the entries of the index block, one for each of
    them except for a pending last one; [cur]: the pairs of the open block, which has less
    than [B] bytes. *)
Record table_inv (B : Z) (r : R) (done : list stored) (index cur : list pair) : Prop := {
  t_file : file_bytes (file r) = frames done;
  t_offset : offset r = Z.of_nat (length (frames done));
  t_status : status r = OK;
  t_closed : closed r = false;
  t_data : exists es ri, building K (data_block r) es ri /\ map pair_of es = cur /\ block_bytes es ri < B;
  t_index : exists es ri, building 1 (index_block_ r) es ri /\ map pair_of es = index;
  t_stored : Forall stored_ok done;
  t_nonempty : Forall (fun w => st_pairs w <> []) done;
  t_count : length done = (length index + if pending_index_entry r then 1 else 0)%nat;
  t_pending : pending_index_entry r = true -> cur = [] /\ exists ws w, done = ws ++ [w] /\ pending_handle r = handle_at ws w;
  t_handles : forall i k h, index !! i = Some (k, h) -> exists w, done !! i = Some w /\ h = handle_bytes (handle_at (take i done) w);
  t_upper : forall i k h w kv, index !! i = Some (k, h) -> done !! i = Some w -> kv ∈ st_pairs w -> less k kv.1 = false;
  t_lower : forall i j k h w kv, index !! i = Some (k, h) -> done !! j = Some w -> (i < j)%nat -> kv ∈ st_pairs w -> less k kv.1 = true;
  t_below : forall k h kv, (k, h) ∈ index -> kv ∈ cur -> less k kv.1 = true;
  t_sorted : sorted_pairs (pairs_of done ++ cur);
  t_bytes : Forall (fun kv => bytes kv.1 /\ bytes kv.2) (pairs_of done ++ cur);
  t_keys : sorted_pairs index;
  t_room : room index <= 8 + index_room (pairs_of (take (length index) done));
  t_size : Z.of_nat (length (frames done)) <= Z.of_nat (length done) * 2 ^ 33
}.

Lemma pairs_of_snoc ws w : pairs_of (ws ++ [w]) = pairs_of ws ++ st_pairs w.
Proof using Type. unfold pairs_of. rewrite map_app, concat_app. cbn [map concat]. by rewrite app_nil_r. Qed.

Lemma index_room_app l l' : index_room (l ++ l') = index_room l + index_room l'.
Proof using Type. unfold index_room. by rewrite map_app, zsum_app. Qed.

Lemma index_room_length l : 39 * Z.of_nat (length l) <= index_room l.
Proof using Type. induction l as [|kv l IH]; [done|]. unfold index_room, zsum in *. cbn [map foldr length]. unfold key_room at 1. lia. Qed.

(** There are no more blocks than pairs. *)
Lemma done_length done : Forall (fun w => st_pairs w <> []) done -> (length done <= length (pairs_of done))%nat.
Proof using Type. induction 1 as [|w ws Hw _ IH]; [done|]. unfold pairs_of in *. cbn [map concat length]. rewrite length_app. destruct (st_pairs w); [done|]. cbn [length]. lia. Qed.

Lemma frame_length_bound w : stored_ok w -> Z.of_nat (length (frame_of w)) <= 2 ^ 33.
Proof using Type. intros (_ & Hl & _). unfold frame_of. rewrite block_frame_length. lia. Qed.

Lemma body_nil es : Forall entry_bytes es -> body es = [] -> es = [].
Proof using Type.
  intros Hes. destruct Hes as [|e es He _]; [done|]. intros E. apply (f_equal length) in E. unfold body in E. cbn [map concat] in E. unfold enc at 1 in E. rewrite !length_app in E.
  destruct (header_bytes e He) as [_ Hh]. cbn in E. lia.
Qed.

(** The invariant after the open block was written. *)
Lemma table_inv_flush B r done index cur w f' : table_inv B r done index cur -> 9 <= B -> pending_index_entry r = false -> stored_ok w -> st_pairs w = cur -> cur <> [] ->
  file_bytes f' = file_bytes (file r) ++ frame_of w ->
  table_inv 9 (set_pending true (set_pending_handle (handle_at done w) (set_data_block TableBlock.BlockBuilder_new
     (set_offset (offset r + Z.of_nat (length (frame_of w))) (set_file f' r))))) (done ++ [w]) index [].
Proof using Type.
  intros Hi HB Hp Hw <- Hne Ef. pose proof (t_count _ _ _ _ _ Hi) as Hc. rewrite Hp, Nat.add_0_r in Hc.
  constructor; cbn [file offset status closed data_block index_block_ pending_index_entry pending_handle set_pending set_pending_handle set_data_block set_offset set_file].
  - by rewrite Ef, (t_file _ _ _ _ _ Hi), frames_snoc.
  - rewrite (t_offset _ _ _ _ _ Hi), frames_snoc, length_app. lia.
  - apply Hi.
  - apply Hi.
  - exists [], [0%nat]. split_and!; [|done|done]. destruct (t_data _ _ _ _ _ Hi) as (es & ri & Hb & _). apply building_new. pose proof (b_counter _ _ _ _ Hb). lia.
  - apply Hi.
  - apply Forall_app. split; [apply Hi|by apply Forall_singleton].
  - apply Forall_app. split; [apply Hi|by apply Forall_singleton].
  - rewrite length_app. cbn. lia.
  - intros _. split; [done|]. by exists done, w.
  - intros i k h Hih. destruct (t_handles _ _ _ _ _ Hi i k h Hih) as (x & Hx & ->). pose proof (lookup_lt_Some _ _ _ Hx). exists x. rewrite lookup_app_l, take_app_le by lia. done.
  - intros i k h x kv Hih Hx Hkv. pose proof (lookup_lt_Some _ _ _ Hih). rewrite lookup_app_l in Hx by lia. by eapply (t_upper _ _ _ _ _ Hi).
  - intros i j k h x kv Hih Hx Hlt Hkv. apply lookup_app_Some in Hx as [Hx|[_ Hx]]; [by eapply (t_lower _ _ _ _ _ Hi)|]. apply list_lookup_singleton_Some in Hx as [_ <-].
    eapply (t_below _ _ _ _ _ Hi); [by eapply list_elem_of_lookup_2|done].
  - intros k h kv _ Hkv. by apply elem_of_nil in Hkv.
  - rewrite pairs_of_snoc, app_nil_r. apply Hi.
  - rewrite pairs_of_snoc, app_nil_r. apply Hi.
  - apply Hi.
  - rewrite take_app_le by lia. apply Hi.
  - rewrite frames_snoc, !length_app. pose proof (t_size _ _ _ _ _ Hi). pose proof (frame_length_bound w Hw). cbn [length]. lia.
Qed.

(** The file stays below 2^63 bytes. *)
Lemma table_inv_offset B r done index cur : table_inv B r done index cur -> index_room (pairs_of done ++ cur) < 2 ^ 32 - 8 ->
  (length done <= length (pairs_of done))%nat /\ 0 <= Z.of_nat (length (pairs_of done ++ cur)) < 2 ^ 27 /\ 0 <= offset r < 2 ^ 61.
Proof using Type.
  intros Hi Hroom. pose proof (index_room_length (pairs_of done ++ cur)) as Hl. pose proof (done_length done (t_nonempty _ _ _ _ _ Hi)) as Hd. pose proof (t_size _ _ _ _ _ Hi). rewrite (t_offset _ _ _ _ _ Hi).
  rewrite length_app in *. split_and!; lia.
Qed.

(** [Flush] writes the open block, if it has pairs. *)
Lemma Flush_spec B r done index cur : table_inv B r done index cur -> 9 <= B <= 2 ^ 32 -> index_room (pairs_of done ++ cur) < 2 ^ 32 - 8 ->
  Flush le acc mm8 mm64 address compress options @ r ⇓ fun _ r' =>
    (cur = [] /\ r' = r)
    \/ (cur <> [] /\ last_key r' = last_key r /\ num_entries r' = num_entries r /\ pending_index_entry r' = true
        /\ exists w, st_pairs w = cur /\ table_inv 9 r' (done ++ [w]) index []).
Proof using H8 H64 Hsnappy.
  intros Hi HB Hroom. destruct (t_data _ _ _ _ _ Hi) as (es & ri & Hb & E & Hsz). unfold Flush. wp_steps. apply wp_CHECK; [by rewrite (t_closed _ _ _ _ _ Hi)|].
  rewrite (t_status _ _ _ _ _ Hi). cbn [ok OK negb]. wp_step. apply wp_on_block. unfold TableBlock.empty. wp_steps. rewrite (b_buffer _ _ _ _ Hb). case_bool_decide as He.
  { wp_steps. left. split; [|done]. by rewrite <- E, (body_nil es (b_bytes _ _ _ _ Hb) He). }
  assert (cur <> []) as Hne by (rewrite <- E; destruct es; [done|by intros ?]). destruct (pending_index_entry r) eqn:Hp; [by destruct (t_pending _ _ _ _ _ Hi Hp)|].
  wp_step. apply wp_CHECK; [done|]. cbn beta. wp_step. destruct (table_inv_offset _ _ _ _ _ Hi Hroom) as (_ & _ & Ho).
  assert (StronglySorted (fun a b => less a b = true) (map n_key es)) as Hk.
  { pose proof (t_sorted _ _ _ _ _ Hi) as Hs. unfold sorted_pairs in Hs. rewrite <- E, map_app, map_map in Hs. by eapply StronglySorted_app_1_r. }
  eapply wp_mono; [apply (WriteBlock_spec K (data_block r) es ri r Hb ltac:(lia) Hk (t_status _ _ _ _ _ Hi) ltac:(lia))|]. cbn beta. intros [h b'] r' (w & f' & Hw & Ew & -> & -> & -> & Ef). rewrite E in Ew. wp_steps.
  cbn [status set_pending_handle set_data_block set_offset set_file]. rewrite (t_status _ _ _ _ _ Hi). cbn [ok OK]. wp_steps. right. split_and!; [done..|]. exists w. split; [done|].
  pose proof (table_inv_flush B r done index cur w f' Hi ltac:(lia) Hp Hw Ew Hne Ef) as Hnew. unfold handle_at in Hnew. by rewrite <- (t_offset _ _ _ _ _ Hi) in Hnew.
Qed.

(** The last key of some pairs. *)
Definition last_pair_key (l : list pair) (k : list Z) : Prop := exists l' v, l = l' ++ [(k, v)].

Lemma last_key_block ws w k : st_pairs w <> [] -> last_pair_key (pairs_of (ws ++ [w])) k -> last_pair_key (st_pairs w) k.
Proof using Type.
  intros Hne (l' & v & E). rewrite pairs_of_snoc in E. destruct (st_pairs w) as [|kv l _] eqn:Ew using rev_ind; [done|]. rewrite app_assoc in E. apply app_inj_tail in E as [_ ->]. by exists l, v.
Qed.

Lemma last_key_max l k kv : sorted_pairs l -> last_pair_key l k -> kv ∈ l -> less k kv.1 = false.
Proof using Type.
  intros Hs (l' & v & ->) Hkv. destruct (less k kv.1) eqn:E; [|done]. apply elem_of_app in Hkv as [Hkv|Hkv].
  - unfold sorted_pairs in Hs. rewrite map_app in Hs. rewrite <- (less_irrefl k). symmetry. eapply less_trans; [exact E|]. apply (StronglySorted_app_1_elem_of (fun a b => less a b = true) _ _ _ _ Hs); [|by apply list_elem_of_singleton].
    change (map fst l') with (fst <$> l'). apply list_elem_of_fmap. by exists kv.
  - apply list_elem_of_singleton in Hkv as ->. cbn in E. by rewrite less_irrefl in E.
Qed.

Lemma last_key_elem l k : last_pair_key l k -> exists v, (k, v) ∈ l.
Proof using Type. intros (l' & v & ->). exists v. apply elem_of_app. right. by constructor. Qed.

Lemma last_key_room l k : last_pair_key l k -> 39 + Z.of_nat (length k) <= index_room l.
Proof using Type.
  intros (l' & v & ->). rewrite index_room_app. pose proof (index_room_length l'). unfold index_room, zsum. cbn [map foldr]. unfold key_room at 2. cbn [fst]. unfold index_room, zsum in *. lia.
Qed.

Section entry.
Context (B : Z) (r : R) (ws : list stored) (w : stored) (index : list pair) (sep k0 : list Z).
Context (Hi : table_inv B r (ws ++ [w]) index []) (Hp : pending_index_entry r = true).
Context (Hlast : last_pair_key (pairs_of (ws ++ [w])) k0) (Hsep : less sep k0 = false) (Hlen : (length sep <= length k0)%nat).

Lemma entry_count : length index = length ws.
Proof using Hi Hp. clear Hlast Hsep Hlen. pose proof (t_count _ _ _ _ _ Hi) as Hc. rewrite Hp, length_app in Hc. cbn in Hc. lia. Qed.

Lemma entry_block : last_pair_key (st_pairs w) k0.
Proof using Hi Hlast. apply (last_key_block ws); [|done]. pose proof (t_nonempty _ _ _ _ _ Hi) as Hn. apply Forall_app in Hn as [_ Hn]. exact (Forall_inv Hn). Qed.

Lemma entry_above k h : (k, h) ∈ index -> less k sep = true.
Proof using Hi Hp Hlast Hsep.
  clear Hlen. intros [i Hih]%list_elem_of_lookup_1. destruct (last_key_elem _ _ entry_block) as [v Hv]. apply (less_le_trans _ k0); [|done].
  apply (t_lower _ _ _ _ _ Hi i (length ws) k h w (k0, v)); [done|by rewrite lookup_app_r, Nat.sub_diag by lia|rewrite <- entry_count; by eapply lookup_lt_Some|done].
Qed.

Lemma entry_upper kv : kv ∈ st_pairs w -> less sep kv.1 = false.
Proof using Hi Hlast Hsep.
  intros Hkv. destruct (less sep kv.1) eqn:E; [|done]. pose proof (t_sorted _ _ _ _ _ Hi) as Hs. rewrite app_nil_r, pairs_of_snoc in Hs. unfold sorted_pairs in Hs. rewrite map_app in Hs.
  pose proof (last_key_max (st_pairs w) k0 kv (StronglySorted_app_1_r _ _ _ Hs) entry_block Hkv) as Hm. by rewrite (less_le_trans sep kv.1 k0) in Hsep.
Qed.

Lemma entry_room h : (length h <= 20)%nat -> room (index ++ [(sep, h)]) <= 8 + index_room (pairs_of (ws ++ [w])).
Proof using Hi Hp Hlast Hlen.
  intros Hh. rewrite room_app. cbn [room]. unfold pair_room. cbn [fst snd]. pose proof (t_room _ _ _ _ _ Hi) as Hr. rewrite take_app_le, take_ge in Hr by (rewrite entry_count; lia).
  rewrite pairs_of_snoc, index_room_app. pose proof (last_key_room _ _ entry_block). lia.
Qed.

Lemma table_inv_entry b es ri : building 1 b es ri -> map pair_of es = index ++ [(sep, handle_bytes (handle_at ws w))] -> set_handle (handle_at ws w) ->
  table_inv B (set_pending false (set_index_block b (set_last_key sep r))) (ws ++ [w]) (index ++ [(sep, handle_bytes (handle_at ws w))]) [].
Proof using Hi Hp Hlast Hsep Hlen.
  intros Hb Ees Hh. constructor; cbn [file offset status closed data_block index_block_ pending_index_entry pending_handle set_pending set_index_block set_last_key]; try apply Hi.
  - by exists es, ri.
  - rewrite !length_app, entry_count. cbn. lia.
  - done.
  - intros i k h [Hih|[Hge Hih]]%lookup_app_Some; [by apply (t_handles _ _ _ _ _ Hi i k h)|]. apply list_lookup_singleton_Some in Hih as [Ei [= <- <-]]. assert (i = length ws) as -> by (rewrite <- entry_count; lia).
    exists w. rewrite lookup_app_r, Nat.sub_diag, take_app_length by lia. done.
  - intros i k h x kv [Hih|[Hge Hih]]%lookup_app_Some Hx Hkv; [by eapply (t_upper _ _ _ _ _ Hi)|]. apply list_lookup_singleton_Some in Hih as [Ei [= <- _]]. assert (i = length ws) as -> by (rewrite <- entry_count; lia).
    rewrite lookup_app_r, Nat.sub_diag in Hx by lia. injection Hx as <-. by apply entry_upper.
  - intros i j k h x kv [Hih|[Hge Hih]]%lookup_app_Some Hx Hlt Hkv; [by eapply (t_lower _ _ _ _ _ Hi)|]. rewrite entry_count in Hge. apply lookup_lt_Some in Hx. rewrite length_app in Hx. cbn in Hx. lia.
  - intros k h kv _ Hkv. by apply elem_of_nil in Hkv.
  - unfold sorted_pairs. rewrite map_app. apply sorted_snoc; [apply Hi|]. apply Forall_map, Forall_forall. intros [k h] Hkh. by eapply entry_above.
  - rewrite take_ge by (rewrite !length_app, entry_count; cbn; lia). apply entry_room. by apply handle_length.
Qed.

Lemma entry_spec : index_room (pairs_of (ws ++ [w])) < 2 ^ 32 - 8 -> bytes sep ->
  AddIndexEntry sep @ r ⇓ fun _ r' => last_key r' = sep /\ num_entries r' = num_entries r /\ pending_index_entry r' = false
    /\ exists h, table_inv B r' (ws ++ [w]) (index ++ [(sep, h)]) [].
Proof using Hi Hp Hlast Hsep Hlen.
  intros Hroom Bs. destruct (t_pending _ _ _ _ _ Hi Hp) as (_ & ws' & w' & E & Eh). apply app_inj_tail in E as [<- <-].
  assert (set_handle (handle_at ws w)) as Hset.
  { destruct (table_inv_offset _ _ _ _ _ Hi) as (_ & _ & Ho); [by rewrite app_nil_r|]. rewrite (t_offset _ _ _ _ _ Hi), frames_snoc, length_app in Ho.
    pose proof (t_stored _ _ _ _ _ Hi) as Hst. apply Forall_app in Hst as [_ Hst]. destruct (Forall_inv Hst) as (_ & Hl & _). split; cbn; lia. }
  destruct (handle_length _ Hset) as [Bh Lh]. destruct (t_index _ _ _ _ _ Hi) as (es & ri & Hb & Ees). pose proof (entry_room (handle_bytes (handle_at ws w)) ltac:(lia)) as Hr.
  rewrite room_app in Hr. cbn [room] in Hr. pose proof (b_room _ _ _ _ Hb) as Hbr. rewrite Ees in Hbr.
  unfold AddIndexEntry. wp_steps. cbn [pending_handle set_last_key]. rewrite Eh. eapply wp_of_option; [by apply handle_encode|]. cbn beta. cbn [app index_block_ set_last_key]. wp_step. apply wp_on_block.
  eapply wp_mono; [apply (Add_spec 1 (index_block_ r) es ri Hb); [lia|done|done|lia|]|].
  { destruct (last es) as [e|] eqn:El; [|left; by apply last_None]. right. unfold TableBlockProofs.last_key. rewrite El. cbn. apply (entry_above (n_key e) (n_value e)).
    rewrite <- Ees. apply last_Some in El as [es' ->]. rewrite map_app. apply elem_of_app. right. by constructor. }
  cbn beta. intros _ b (e & ri' & Hb' & Ee & _). wp_steps. split_and!; [done..|]. exists (handle_bytes (handle_at ws w)).
  eapply table_inv_entry; [exact Hb'| |done]. rewrite map_app, Ees. cbn [map]. by rewrite Ee.
Qed.

End entry.

(** A pair is added to the open block. *)
Lemma table_inv_pair B r done index cur b es ri kv n : table_inv B r done index cur -> pending_index_entry r = false ->
  building K b es ri -> map pair_of es = cur ++ [kv] -> block_bytes es ri < 2 ^ 32 ->
  sorted_pairs (pairs_of done ++ cur ++ [kv]) -> bytes kv.1 -> bytes kv.2 -> (forall k h, (k, h) ∈ index -> less k kv.1 = true) ->
  table_inv (2 ^ 32) (set_data_block b (set_num_entries n (set_last_key kv.1 r))) done index (cur ++ [kv]).
Proof using Type.
  intros Hi Hp Hb Ees Hsz Hs B1 B2 Hbelow. constructor; cbn [file offset status closed data_block index_block_ pending_index_entry pending_handle set_data_block set_num_entries set_last_key]; try apply Hi.
  - by exists es, ri.
  - congruence.
  - intros k h x Hkh [Hx|Hx%list_elem_of_singleton]%elem_of_app; [by eapply (t_below _ _ _ _ _ Hi)|subst x; by eapply Hbelow].
  - done.
  - rewrite app_assoc. apply Forall_app. split; [apply Hi|by apply Forall_singleton].
Qed.

Lemma table_inv_size B B' r done index cur : table_inv B r done index cur ->
  (exists es ri, building K (data_block r) es ri /\ map pair_of es = cur /\ block_bytes es ri < B') -> table_inv B' r done index cur.
Proof using Type. intros Hi Hd. constructor; try apply Hi. done. Qed.

(** ** Between calls *)

Context (Hsize : 0 <= block_size options <= 2 ^ 31) (HK : 1 <= K).

(** The builder holds the pairs [l]. *)
Definition builder_at (r : R) (l : list pair) : Prop := exists done index cur,
  table_inv (2 ^ 31 + 1) r done index cur /\ pairs_of done ++ cur = l /\ num_entries r = Z.of_nat (length l)
  /\ (l <> [] -> last_pair_key l (last_key r)) /\ (cur = [] -> done = [] \/ pending_index_entry r = true).

Lemma builder_new f : file_bytes f = [] -> builder_at (TableBuilder_new f) [].
Proof using HK.
  intros Hf. exists [], [], []. split_and!; [|done|done|done|by left]. constructor; cbn; try done; try (by constructor).
  - exists [], [0%nat]. split_and!; [apply building_new; lia|done|done].
  - exists [], [0%nat]. split; [apply building_new; lia|done].
  - intros k h kv Hkh. by apply elem_of_nil in Hkh.
Qed.

Lemma Flush_at r l : builder_at r l -> index_room l < 2 ^ 32 - 8 -> Flush le acc mm8 mm64 address compress options @ r ⇓ fun _ r' => builder_at r' l
  /\ last_key r' = last_key r /\ num_entries r' = num_entries r.
Proof using H8 H64 Hsnappy.
  intros (done & index & cur & Hi & <- & Hn & Hl & Hc) Hroom. eapply wp_mono; [apply (Flush_spec (2 ^ 31 + 1) r done index cur Hi ltac:(lia) Hroom)|].
  cbn beta. intros _ r' [[-> ->]|(Hne & El & En & Hp & w & <- & Hi')].
  - split_and!; [|done..]. exists done, index, []. done.
  - split_and!; [|done..]. exists (done ++ [w]), index, []. rewrite pairs_of_snoc, app_nil_r, El, En. split_and!; [|done|done|done|by right].
    eapply table_inv_size; [done|]. destruct (t_data _ _ _ _ _ Hi') as (es & ri & ? & ? & ?). exists es, ri. split_and!; [done|done|lia].
Qed.

Lemma last_key_less l k v kv : sorted_pairs (l ++ [(k, v)]) -> kv ∈ l -> less kv.1 k = true.
Proof using Type.
  unfold sorted_pairs. rewrite map_app. intros Hs Hkv. apply (StronglySorted_app_1_elem_of (fun a b => less a b = true) _ _ _ _ Hs); [|by apply list_elem_of_singleton].
  change (map fst l) with (fst <$> l). apply list_elem_of_fmap. by exists kv.
Qed.

(** The index entry that [Add] writes before the key [key]. *)
Lemma add_entry r l key value : builder_at r l -> sorted_pairs (l ++ [(key, value)]) -> bytes key -> index_room l < 2 ^ 32 - 8 ->
  (if pending_index_entry r then
     '(is_empty, _) ← on_block TableBlock.empty (data_block r);
     CHECK is_empty;;
     separator ← of_option (FindShortestSeparator (last_key r) key);
     AddIndexEntry separator
   else mret tt) @ r ⇓ fun _ r' => num_entries r' = num_entries r /\ pending_index_entry r' = false
    /\ exists done index cur, table_inv (2 ^ 31 + 1) r' done index cur /\ pairs_of done ++ cur = l /\ forall k h, (k, h) ∈ index -> less k key = true.
Proof using Type.
  intros (done & index & cur & Hi & <- & Hn & Hl & Hc) Hs Bk Hroom. destruct (pending_index_entry r) eqn:Hp.
  - destruct (t_pending _ _ _ _ _ Hi Hp) as (-> & ws & w & -> & Eh). destruct (t_data _ _ _ _ _ Hi) as (es & ri & Hb & Ees & _). rewrite app_nil_r in *.
    wp_step. apply wp_on_block. unfold TableBlock.empty. wp_steps. apply wp_CHECK; [destruct es; [|done]; rewrite (b_buffer _ _ _ _ Hb); by apply bool_decide_eq_true_2|].
    assert (last_pair_key (pairs_of (ws ++ [w])) (last_key r)) as Hlast.
    { apply Hl. rewrite pairs_of_snoc. pose proof (t_nonempty _ _ _ _ _ Hi) as Hne. apply Forall_app in Hne as [_ Hne]. apply Forall_inv in Hne. by intros [_ ?]%app_nil. }
    destruct (last_key_elem _ _ Hlast) as [v Hv]. pose proof (last_key_less _ _ _ _ Hs Hv) as Hlt. cbn in Hlt.
    assert (bytes (last_key r)) as Bl. { pose proof (t_bytes _ _ _ _ _ Hi) as HB. rewrite app_nil_r, Forall_forall in HB. apply (HB _ Hv). }
    destruct (separator_spec (last_key r) key Bl Bk Hlt) as (sep & Esep & Hge & Hlt' & Hlen & Bsep). wp_step. eapply wp_of_option; [exact Esep|]. cbn beta.
    eapply wp_mono; [eapply (entry_spec (2 ^ 31 + 1) r ws w index sep (last_key r)); done|]. cbn beta. intros _ r' (_ & En & Hp' & h & Hi'). split_and!; [done..|].
    exists (ws ++ [w]), (index ++ [(sep, h)]), []. split_and!; [done|by rewrite app_nil_r|]. intros k h' [Hk|Hk%list_elem_of_singleton]%elem_of_app; [|congruence].
    eapply less_trans; [|exact Hlt']. eapply (entry_above (2 ^ 31 + 1) r ws w index sep (last_key r)); done.
  - wp_steps. split_and!; [done|done|]. exists done, index, cur. split_and!; [done|done|]. intros k h Hk. destruct cur as [|kv cur].
    + destruct (Hc eq_refl) as [->|]; [|done]. pose proof (t_count _ _ _ _ _ Hi) as Hct. rewrite Hp in Hct. destruct index; [by apply elem_of_nil in Hk|]. cbn in Hct. lia.
    + eapply less_trans; [apply (t_below _ _ _ _ _ Hi k h kv Hk); by left|]. apply (last_key_less _ _ _ kv Hs). apply elem_of_app. right. by left.
Qed.

(** [Add] adds the pair. *)
Lemma Add_at r l key value : builder_at r l -> sorted_pairs (l ++ [(key, value)]) -> bytes key -> bytes value -> pair_room (key, value) < 2 ^ 31 ->
  index_room (l ++ [(key, value)]) < 2 ^ 32 - 8 ->
  TableFile.Add le acc mm8 mm64 address compress options key value @ r ⇓ fun _ r' => builder_at r' (l ++ [(key, value)]).
Proof using H8 H64 Hsnappy Hsize HK.
  intros Hr Hs Bk Bv Hpair Hroom. assert (index_room l < 2 ^ 32 - 8) as Hroom' by (rewrite index_room_app in Hroom; pose proof (index_room_length [(key, value)]); lia).
  pose proof Hr as (done & index & cur & Hi & El & Hn & Hl & Hc). unfold TableFile.Add. wp_steps. apply wp_CHECK; [by rewrite (t_closed _ _ _ _ _ Hi)|]. rewrite (t_status _ _ _ _ _ Hi). cbn [ok OK negb].
  wp_step. apply (wp_mono _ _ _ (fun _ r1 => builder_at r1 l /\ num_entries r1 = num_entries r)).
  { destruct (Z.ltb_spec 0 (num_entries r)) as [H0|]; [|by wp_steps]. wp_step. assert (l <> []) as Hne by (intros ->; cbn in Hn; lia). destruct (last_key_elem _ _ (Hl Hne)) as [v Hv].
    apply wp_CHECK; [exact (last_key_less _ _ _ _ Hs Hv)|]. cbn beta. case_match; [|by wp_steps]. eapply wp_mono; [by apply Flush_at|]. cbn beta. by intros _ r1 (? & _ & ?). }
  cbn beta. intros _ r1 [Hr1 En1]. clear done index cur Hi El Hl Hc. wp_steps. eapply wp_mono; [by apply (add_entry r1 l key value)|]. cbn beta.
  intros _ r2 (En2 & Hp2 & done & index & cur & Hi & El & Hbelow). wp_steps. destruct (t_data _ _ _ _ _ Hi) as (es & ri & Hb & Ees & Hsz).
  cbn [data_block set_num_entries set_last_key]. apply wp_on_block. eapply wp_mono; [apply (TableBlockProofs.Add_spec K (data_block r2) es ri Hb key value HK Bk Bv); [lia|]|].
  { apply (last_below es key []). rewrite Ees. unfold sorted_pairs in Hs. rewrite <- El, <- app_assoc, !map_app in Hs. by apply StronglySorted_app_1_r in Hs. }
  cbn beta. intros _ b (e & ri' & Hb' & Ee & Hsz'). wp_steps. apply wp_on_block. unfold wp. rewrite (CurrentSizeEstimate_run K b _ _ Hb').
  assert (map pair_of (es ++ [e]) = cur ++ [(key, value)]) as Ees' by (rewrite map_app, Ees; cbn [map]; by rewrite Ee).
  pose proof (table_inv_pair (2 ^ 31 + 1) r2 done index cur b (es ++ [e]) ri' (key, value) (num_entries r2 + 1) Hi Hp2 Hb' Ees' ltac:(lia)) as Hi'. rewrite <- app_assoc_reverse, El in Hi'.
  specialize (Hi' Hs Bk Bv Hbelow). cbn [fst] in Hi'. set (r3 := set_data_block b _) in *. assert (cur ++ [(key, value)] <> []) as Hne by (by intros [_ ?]%app_nil).
  assert (num_entries r3 = Z.of_nat (length (l ++ [(key, value)]))) as En3 by (unfold r3; cbn; rewrite length_app, En2, En1, Hn; cbn; lia).
  destruct (Z.leb_spec (block_size options) (block_bytes (es ++ [e]) ri')) as [Hflush|Hfits].
  - eapply (wp_mono true); [apply (Flush_spec (2 ^ 32) r3 done index (cur ++ [(key, value)]) Hi' ltac:(lia)); by rewrite app_assoc, El|]. cbn beta. intros _ r4 [[? _]|(_ & El4 & En4 & Hp4 & w & Ew & Hi4)]; [done|].
    exists (done ++ [w]), index, []. rewrite pairs_of_snoc, Ew, app_nil_r, app_assoc, El. split_and!; [|done|by rewrite En4| |by right].
    + eapply table_inv_size; [done|]. destruct (t_data _ _ _ _ _ Hi4) as (es4 & ri4 & ? & ? & ?). exists es4, ri4. split_and!; [done|done|lia].
    + intros _. rewrite El4. by exists l, value.
  - exists done, index, (cur ++ [(key, value)]). rewrite app_assoc, El. split_and!; [|done|done| |done].
    + eapply table_inv_size; [done|]. exists (es ++ [e]), ri'. split_and!; [done|done|lia].
    + intros _. by exists l, value.
Qed.

(** ** The finished file *)

(** The blocks, an empty meta-index block, the index block and the footer. *)
Record table_layout (content : list Z) (done : list stored) (index : list pair) : Prop := {
  l_content : exists wm wi, stored_ok wm /\ stored_ok wi /\ st_pairs wm = [] /\ st_pairs wi = index
    /\ content = frames done ++ frame_of wm ++ frame_of wi ++ footer_bytes (mkFooter (handle_at done wm) (handle_at (done ++ [wm]) wi));
  l_stored : Forall stored_ok done;
  l_handles : forall i k h, index !! i = Some (k, h) -> exists w, done !! i = Some w /\ h = handle_bytes (handle_at (take i done) w);
  l_length : length index = length done;
  l_blocks : (length done <= length (pairs_of done))%nat;
  l_upper : forall i k h w kv, index !! i = Some (k, h) -> done !! i = Some w -> kv ∈ st_pairs w -> less k kv.1 = false;
  l_lower : forall i j k h w kv, index !! i = Some (k, h) -> done !! j = Some w -> (i < j)%nat -> kv ∈ st_pairs w -> less k kv.1 = true;
  l_sorted : sorted_pairs (pairs_of done);
  l_size : Z.of_nat (length content) < 2 ^ 62
}.

Lemma set_handle_at ws w : stored_ok w -> Z.of_nat (length (frames ws)) < 2 ^ 62 -> set_handle (handle_at ws w).
Proof using Type. intros (_ & Hl & _) Ho. split; cbn; lia. Qed.

(** The entry of the last block, if it is pending, then the index block. *)
Lemma finish_index B r done index : table_inv B r done index [] -> index_room (pairs_of done) < 2 ^ 32 - 8 -> (pairs_of done <> [] -> last_pair_key (pairs_of done) (last_key r)) ->
  (if pending_index_entry r then AddIndexEntry (FindShortSuccessor (last_key r)) else mret tt) @ r ⇓ fun _ r' =>
    num_entries r' = num_entries r /\ pending_index_entry r' = false /\ exists index', table_inv B r' done index' [].
Proof using Type.
  intros Hi Hroom Hl. destruct (pending_index_entry r) eqn:Hp; [|by wp_steps; eauto]. destruct (t_pending _ _ _ _ _ Hi Hp) as (_ & ws & w & -> & _).
  assert (last_pair_key (pairs_of (ws ++ [w])) (last_key r)) as Hlast.
  { apply Hl. rewrite pairs_of_snoc. pose proof (t_nonempty _ _ _ _ _ Hi) as Hne. apply Forall_app in Hne as [_ Hne]. apply Forall_inv in Hne. by intros [_ ?]%app_nil. }
  assert (bytes (last_key r)) as Bl. { destruct (last_key_elem _ _ Hlast) as [v Hv]. pose proof (t_bytes _ _ _ _ _ Hi) as HB. rewrite app_nil_r, Forall_forall in HB. apply (HB _ Hv). }
  destruct (successor_spec _ Bl) as (Hge & Hlen & Bs). eapply wp_mono; [by apply (entry_spec B r ws w index _ (last_key r))|]. cbn beta. intros _ r' (_ & En & Hp' & h & Hi'). eauto.
Qed.

(** An index entry does not touch the file. *)
Definition elsewhere (f : F) (o : Z) (c : bool) (r : R) : R := set_offset o (set_file f (set_closed c r)).

Lemma entry_elsewhere sep f o c (r : R) (Q : unit -> R -> Prop) :
  (AddIndexEntry sep @ r ⇓ Q) -> AddIndexEntry sep @ elsewhere f o c r ⇓ fun a r' => exists r0, Q a r0 /\ r' = elsewhere f o c r0.
Proof using Type.
  unfold wp, AddIndexEntry, modify, get, of_option, on_block, mbind, M_bind, mret, M_ret. cbn. destruct (BlockHandle_EncodeTo (pending_handle r) []) as [h|]; [|done].
  destruct (TableBlock.Add 1 sep h (index_block_ r)) as [[[] b]| |]; [|done..]. cbn. intros HQ. eexists. split; [exact HQ|done].
Qed.

Lemma flush_all r l : builder_at r l -> index_room l < 2 ^ 32 - 8 -> Flush le acc mm8 mm64 address compress options @ r ⇓ fun _ r' => exists done index,
  table_inv (2 ^ 31 + 1) r' done index [] /\ pairs_of done = l /\ num_entries r' = Z.of_nat (length l) /\ (l <> [] -> last_pair_key l (last_key r')).
Proof using H8 H64 Hsnappy.
  intros (done & index & cur & Hi & <- & Hn & Hl & Hc) Hroom. eapply wp_mono; [apply (Flush_spec (2 ^ 31 + 1) r done index cur Hi ltac:(lia) Hroom)|].
  cbn beta. intros _ r' [[-> ->]|(Hne & El & En & Hp & w & <- & Hi')].
  - exists done, index. rewrite app_nil_r in *. done.
  - exists (done ++ [w]), index. rewrite pairs_of_snoc, El, En. split_and!; [|done..].
    eapply table_inv_size; [done|]. destruct (t_data _ _ _ _ _ Hi') as (es & ri & ? & ? & ?). exists es, ri. split_and!; [done|done|lia].
Qed.

(** The empty meta-index block. *)
Lemma write_meta (r : R) : status r = OK -> 0 <= offset r < 2 ^ 63 ->
  WriteBlock le acc mm8 mm64 address compress options TableBlock.BlockBuilder_new @ r ⇓ fun '(h, b') r' => exists w f', stored_ok w /\ st_pairs w = []
    /\ h = mkHandle (offset r) (Z.of_nat (length (st_contents w))) /\ r' = set_offset (offset r + Z.of_nat (length (frame_of w))) (set_file f' r) /\ file_bytes f' = file_bytes (file r) ++ frame_of w.
Proof using H8 H64 Hsnappy HK.
  intros Hs Ho. eapply wp_mono; [apply (WriteBlock_spec K _ [] [0%nat] r); [apply building_new; lia|done|constructor|done|done]|]. cbn beta.
  intros [h b'] r' (w & f' & Hw & Ep & Eh & _ & Er & Ef). by exists w, f'.
Qed.

(** The index block. *)
Lemma write_index B r done index f o c : table_inv B r done index [] -> index_room (pairs_of done) < 2 ^ 32 - 8 -> pending_index_entry r = false -> 0 <= o < 2 ^ 63 ->
  WriteBlock le acc mm8 mm64 address compress options (index_block_ (elsewhere f o c r)) @ elsewhere f o c r ⇓ fun '(h, b') r' => exists w f', stored_ok w /\ st_pairs w = index
    /\ h = mkHandle o (Z.of_nat (length (st_contents w))) /\ r' = elsewhere f' (o + Z.of_nat (length (frame_of w))) c r /\ file_bytes f' = file_bytes f ++ frame_of w.
Proof using H8 H64 Hsnappy.
  intros Hi Hroom Hp Ho. destruct (t_index _ _ _ _ _ Hi) as (es & ri & Hb & Ees). pose proof (b_room _ _ _ _ Hb) as Hr. rewrite Ees in Hr. pose proof (t_room _ _ _ _ _ Hi) as Hr'.
  pose proof (t_count _ _ _ _ _ Hi) as Hc. rewrite Hp in Hc. rewrite take_ge in Hr' by lia. pose proof (t_keys _ _ _ _ _ Hi) as Hk. unfold sorted_pairs in Hk. rewrite <- Ees, map_map in Hk.
  eapply wp_mono; [apply (WriteBlock_spec 1 (index_block_ r) es ri (elsewhere f o c r) Hb ltac:(lia) Hk (t_status _ _ _ _ _ Hi) Ho)|]. cbn beta.
  intros [h b'] r' (w & f' & Hw & Ep & Eh & _ & Er & Ef). exists w, f'. rewrite Ees in Ep. split_and!; [done|done|done|by rewrite Er|done].
Qed.

Lemma Finish_at r l : builder_at r l -> index_room l < 2 ^ 32 - 8 ->
  TableFile.Finish le acc mm8 mm64 address compress options @ r ⇓ fun st r' => st = OK /\ num_entries r' = Z.of_nat (length l) /\ closed r' = true
    /\ exists done index, table_layout (file_bytes (file r')) done index /\ pairs_of done = l /\ offset r' = Z.of_nat (length (file_bytes (file r'))).
Proof using H8 H64 Hsnappy HK.
  intros Hr Hroom. unfold TableFile.Finish. wp_step. eapply wp_mono; [by apply flush_all|]. cbn beta. intros _ r1 (done & index0 & Hi & <- & Hn & Hl).
  destruct (table_inv_offset _ _ _ _ _ Hi) as (_ & _ & Ho); [by rewrite app_nil_r|]. wp_steps. apply wp_CHECK; [by rewrite (t_closed _ _ _ _ _ Hi)|]. wp_steps. rewrite (t_status _ _ _ _ _ Hi). cbn [ok OK].
  wp_step. eapply wp_mono; [apply write_meta; [apply Hi|cbn; lia]|]. cbn beta. intros [h b'] r' (wm & f1 & Hm & Em & -> & -> & E1). cbn [offset file set_closed] in *. wp_steps.
  pose proof (frame_length_bound wm Hm) as Lm. set (o1 := offset r1 + Z.of_nat (length (frame_of wm))). change (set_offset o1 (set_file f1 (set_closed true r1))) with (elsewhere f1 o1 true r1).
  cbn [status elsewhere set_offset set_file set_closed pending_index_entry last_key]. rewrite (t_status _ _ _ _ _ Hi). cbn [ok OK]. wp_step.
  apply (wp_mono _ _ _ (fun _ r' => exists r2, (num_entries r2 = num_entries r1 /\ pending_index_entry r2 = false /\ exists index, table_inv (2 ^ 31 + 1) r2 done index []) /\ r' = elsewhere f1 o1 true r2)).
  { pose proof (finish_index (2 ^ 31 + 1) r1 done index0 Hi Hroom Hl) as Hf. destruct (pending_index_entry r1) eqn:Hp1; [by apply entry_elsewhere|]. wp_steps. exists r1. unfold wp in Hf. cbn in Hf. done. }
  cbn beta. intros _ r' (r2 & (En2 & Hp2 & index & Hi2) & ->). wp_steps. eapply wp_mono; [apply (write_index (2 ^ 31 + 1) r2 done index); [done|done|done|unfold o1; lia]|].
  cbn beta. intros [h2 b2] r' (wi & f2 & Hwi & Ei & -> & -> & E2). wp_steps. cbn [status elsewhere set_offset set_file set_closed set_index_block]. rewrite (t_status _ _ _ _ _ Hi2). cbn [ok OK]. wp_step.
  pose proof (frame_length_bound wi Hwi) as Li. pose proof (t_offset _ _ _ _ _ Hi) as Eo.
  assert (mkHandle (offset r1) (Z.of_nat (length (st_contents wm))) = handle_at done wm) as -> by (unfold handle_at; by rewrite Eo).
  assert (mkHandle o1 (Z.of_nat (length (st_contents wi))) = handle_at (done ++ [wm]) wi) as ->. { unfold handle_at, o1. rewrite (t_offset _ _ _ _ _ Hi), frames_snoc, length_app. f_equal. lia. }
  set (footer := mkFooter (handle_at done wm) (handle_at (done ++ [wm]) wi)). assert (set_handle (metaindex_handle_ footer)) as S1 by (apply set_handle_at; [done|lia]).
  assert (set_handle (index_handle_ footer)) as S2 by (apply set_handle_at; [done|rewrite frames_snoc, length_app; lia]). pose proof (footer_length footer S1 S2) as Lf.
  eapply wp_of_option; [by apply footer_encode|]. cbn beta. wp_step. apply wp_Append; [apply Hi2|]. intros f3 E3. wp_steps. cbn [status elsewhere set_offset set_file set_closed set_index_block]. rewrite (t_status _ _ _ _ _ Hi2). cbn [ok OK]. wp_steps.
  cbn [status elsewhere set_offset set_file set_closed set_index_block num_entries closed file offset] in *. rewrite E2, E1, (t_file _ _ _ _ _ Hi), <- !app_assoc in E3. rewrite (t_file _ _ _ _ _ Hi) in *.
  assert (Z.of_nat (length (file_bytes f3)) = o1 + Z.of_nat (length (frame_of wi)) + 48) as L3 by (rewrite E3, !length_app; unfold o1; lia).
  rewrite (t_status _ _ _ _ _ Hi2), En2, Hn, Lf, u64_small by (unfold o1; lia). split_and!; [done|done|done|]. exists done, index. split_and!; [|done|lia].
  constructor; try apply Hi2; [by exists wm, wi| |apply done_length, Hi2| |lia].
  - pose proof (t_count _ _ _ _ _ Hi2) as Hc. rewrite Hp2 in Hc. lia.
  - pose proof (t_sorted _ _ _ _ _ Hi2) as Hs. by rewrite app_nil_r in Hs.
Qed.

End build.

