(* ===== verification/TableFileRead.v ===== *)
(** * Table files: reading a finished table

    A file with the layout that the builder leaves is opened; the iterator of the table is one
    over its pairs, and lookups find the key or the least one past it. *)

From S2P Require Import Prelude Coding OrderedCode TableBlock TableBlockProofs Crc32c Crc32cTheorems InputStream InputStreamProofs BufferedStream RecordFile RecordFileProofs RecordFileTheorems RecordIntegrity TableIterator TableIteratorProofs TableFile TableFileFormat TableFileBuild.
Import Coding TableIterator TableFile.

#[local] Open Scope runtime_scope.

(** ** Opening a table *)

Section read.
Context (le acc : bool) (mm8 mm64 : Z -> Z -> Z) (address : list Z -> Z) (H8 : instruction_u8 mm8) (H64 : instruction_u64 mm64).
Context (uncompressed_length : list Z -> option Z) (uncompress : list Z -> option (list Z)).
Context (content : list Z) (done : list stored) (index : list pair) (Hlay : table_layout uncompressed_length uncompress content done index).
Context (file_Read : Z -> Z -> Status * list Z) (Hfile : file_of content file_Read).
Abbreviation stored_ok := (TableFileBuild.stored_ok uncompressed_length uncompress).
Abbreviation Read := (ReadBlock le acc mm8 mm64 address uncompressed_length uncompress file_Read).
Abbreviation OpenBlock := (BlockReader le acc mm8 mm64 address uncompressed_length uncompress file_Read).

Lemma frames_bytes ws : Forall stored_ok ws -> bytes (frames ws).
Proof using Type. induction 1 as [|w ws Hw _ IH]; [constructor|]. unfold frames. cbn [map concat]. apply Forall_app. split; [apply block_frame_bytes, Hw|exact IH]. Qed.

Lemma footer_ok_bytes f : set_handle (metaindex_handle_ f) -> set_handle (index_handle_ f) -> bytes (footer_bytes f).
Proof using Type.
  intros Hm Hi. unfold bytes, footer_bytes. rewrite !Forall_app. split_and!; [apply (handle_length _ Hm)|apply (handle_length _ Hi)|apply Forall_replicate; lia|apply le_bytes_range].
Qed.

(** The parts of the file. *)
Lemma layout_parts : exists wm wi, stored_ok wm /\ stored_ok wi /\ st_pairs wi = index
  /\ let footer := mkFooter (handle_at done wm) (handle_at (done ++ [wm]) wi) in
     content = frames done ++ frame_of wm ++ frame_of wi ++ footer_bytes footer
     /\ set_handle (metaindex_handle_ footer) /\ set_handle (index_handle_ footer) /\ Forall byte content
     /\ Z.of_nat (length (frames (done ++ [wm]))) < Z.of_nat (length content).
Proof using Hlay.
  destruct (l_content _ _ _ _ _ Hlay) as (wm & wi & Hm & Hi & _ & Ei & Ec). pose proof (l_size _ _ _ _ _ Hlay) as Hsz. exists wm, wi. split_and!; [done..|].
  intros footer. fold footer in Ec. assert (Z.of_nat (length (frames (done ++ [wm]))) < Z.of_nat (length content)) as Hlt.
  { rewrite Ec, frames_snoc, !length_app. unfold frame_of at 3. rewrite block_frame_length. lia. }
  assert (set_handle (metaindex_handle_ footer)) as S1 by (apply (set_handle_at uncompressed_length uncompress); [done|rewrite frames_snoc, length_app in Hlt; lia]).
  assert (set_handle (index_handle_ footer)) as S2 by (apply (set_handle_at uncompressed_length uncompress); [done|lia]). split_and!; [done..| |done].
  rewrite Ec. apply Forall_app. split; [apply frames_bytes, Hlay|]. apply Forall_app. split; [apply block_frame_bytes, Hm|]. apply Forall_app. split; [apply block_frame_bytes, Hi|by apply footer_ok_bytes].
Qed.

(** A block in the file is read and opened. *)
Lemma read_stored ws w post : stored_ok w -> content = frames ws ++ frame_of w ++ post -> exists raw es ri,
  Read (handle_at ws w) = Some (Ok raw) /\ block_ok raw es ri /\ map pair_of es = st_pairs w.
Proof using H8 H64 Hlay Hfile.
  intros (Bc & Lc & raw & es & ri & Hok & Ees & Hu) Ec. destruct layout_parts as (_ & _ & _ & _ & _ & _ & _ & _ & Hb & _). exists raw, es, ri. split_and!; [|done|done].
  unfold handle_at. rewrite (ReadBlock_frame le acc mm8 mm64 address H8 H64 uncompressed_length uncompress content file_Read Hfile Hb (frames ws) (st_contents w) (st_type w) post Ec ltac:(lia)). done.
Qed.

Lemma done_split i w : done !! i = Some w -> exists post, content = frames (take i done) ++ frame_of w ++ post.
Proof using Hlay.
  intros Hi. destruct (l_content _ _ _ _ _ Hlay) as (wm & wi & _ & _ & _ & _ & Ec). rewrite Ec.
  pose proof (f_equal frames (take_drop_middle done i w Hi)) as E. unfold frames in E at 1. rewrite map_app, concat_app in E. cbn [map concat] in E. rewrite <- E, <- !app_assoc. by eexists.
Qed.

Lemma done_handle i w : done !! i = Some w -> set_handle (handle_at (take i done) w).
Proof using Hlay.
  intros Hw. pose proof (l_stored _ _ _ _ _ Hlay) as Hst. rewrite Forall_lookup in Hst. destruct (done_split i w Hw) as [post Ec].
  apply (set_handle_at uncompressed_length uncompress); [by apply (Hst i)|]. pose proof (l_size _ _ _ _ _ Hlay) as Hsz. rewrite Ec, length_app in Hsz. lia.
Qed.

Lemma open_block i k h w : index !! i = Some (k, h) -> done !! i = Some w ->
  h = handle_bytes (handle_at (take i done) w) /\ exists b, OpenBlock h = Some b /\ iter_ok (IteratorOver := Block_over le (st_pairs w)) b.
Proof using H8 H64 Hlay Hfile.
  intros Hih Hw. destruct (l_handles _ _ _ _ _ Hlay i k h Hih) as (w' & Hw' & Eh). assert (w' = w) as -> by congruence. split; [done|].
  pose proof (l_stored _ _ _ _ _ Hlay) as Hst. rewrite Forall_lookup in Hst. destruct (done_split i w Hw) as [post Ec]. destruct (read_stored (take i done) w post (Hst i w Hw) Ec) as (raw & es & ri & Er & Hok & Ees).
  destruct (Block_NewIterator_run le (st_pairs w) raw es ri Hok Ees) as (b & Eb & Hb). exists b. split; [|done].
  unfold BlockReader. rewrite Eh, <- (app_nil_r (handle_bytes _)), handle_decode.
  - rewrite Er. cbn [mbind option_bind]. exact Eb.
  - by apply done_handle.
Qed.

Lemma handle_nodup : NoDup (map snd index).
Proof using Hlay.
  apply NoDup_alt. intros i j h Hi Hj. change (map snd index) with (snd <$> index) in *. rewrite list_lookup_fmap in Hi, Hj.
  destruct (index !! i) as [[k h1]|] eqn:Ei; [|done]. destruct (index !! j) as [[k' h2]|] eqn:Ej; [|done]. cbn in Hi, Hj. injection Hi as ->. injection Hj as ->.
  destruct (l_handles _ _ _ _ _ Hlay i k h Ei) as (w & Hw & Eh). destruct (l_handles _ _ _ _ _ Hlay j k' h Ej) as (w' & Hw' & Eh').
  assert (forall i j w, (i < j)%nat -> done !! i = Some w -> (length (frames (take i done)) < length (frames (take j done)))%nat) as Hmono.
  { intros n m x Hnm Hx. rewrite <- (take_drop n (take m done)), take_take, Nat.min_l by lia. unfold frames at 2. rewrite map_app, concat_app, length_app. fold (frames (take n done)).
    rewrite skipn_firstn_comm, (drop_S _ _ _ Hx). destruct (m - n)%nat as [|d] eqn:Ed; [lia|]. cbn [take map concat]. rewrite length_app. unfold frame_of at 1. rewrite block_frame_length. lia. }
  rewrite Eh in Eh'. apply handle_inj in Eh'; [|by apply done_handle|by apply done_handle]. unfold handle_at in Eh'. injection Eh' as Eo _. apply Nat2Z.inj in Eo.
  destruct (lt_eq_lt_dec i j) as [[Hlt| ->]|Hlt]; [|done|]; [pose proof (Hmono i j w Hlt Hw)|pose proof (Hmono j i w' Hlt Hw')]; lia.
Qed.

Lemma layout_separated : separated index (map st_pairs done).
Proof using Hlay.
  assert (forall i b, map st_pairs done !! i = Some b -> exists w, done !! i = Some w /\ b = st_pairs w) as Hb.
  { intros i b Hb. change (map st_pairs done) with (st_pairs <$> done) in Hb. rewrite list_lookup_fmap in Hb. destruct (done !! i) as [w|]; [|done]. injection Hb as <-. by exists w. }
  constructor.
  - rewrite length_map. apply Hlay.
  - apply handle_nodup.
  - intros i k h b kv Hi (w & Hw & ->)%Hb Hkv. by eapply (l_upper _ _ _ _ _ Hlay).
  - intros i j k h b kv Hi (w & Hw & ->)%Hb Hlt Hkv. by eapply (l_lower _ _ _ _ _ Hlay).
Qed.

(** [Open] gives the table and its index. *)
Lemma Open_run : exists t, Open le acc mm8 mm64 address uncompressed_length uncompress file_Read (Z.of_nat (length content)) = Some (Ok t)
  /\ 0 <= offset_ (metaindex_handle t) < Z.of_nat (length content) /\ Z.of_nat (length (frames done)) = offset_ (metaindex_handle t)
  /\ exists es ri, block_ok (index_block t) es ri /\ map pair_of es = index.
Proof using H8 H64 Hlay Hfile.
  destruct layout_parts as (wm & wi & Hm & Hi & Ei & Ec & S1 & S2 & Hb & Hlt). set (footer := mkFooter (handle_at done wm) (handle_at (done ++ [wm]) wi)) in *.
  pose proof (footer_length footer S1 S2) as Lf. assert (48 <= Z.of_nat (length content)) as L48 by (rewrite Ec, !length_app; lia).
  destruct (read_stored (done ++ [wm]) wi (footer_bytes footer) Hi) as (raw & es & ri & Er & Hok & Ees); [rewrite frames_snoc, <- app_assoc; exact Ec|].
  exists (mkTable (handle_at done wm) raw). unfold Open. change kEncodedLength with 48. rewrite (proj2 (Z.ltb_ge _ 48)) by done. rewrite Hfile by lia.
  assert (slice content (Z.of_nat (length content) - 48) 48 = footer_bytes footer) as ->.
  { apply (slice_at _ (frames done ++ frame_of wm ++ frame_of wi) _ []); [rewrite app_nil_r, <- !app_assoc; exact Ec|rewrite Ec, !length_app; lia|lia]. }
  rewrite Lf. cbn [OK Z.of_nat]. change (Z.of_nat 48 =? 48) with true. cbn beta iota. rewrite footer_decode by done. cbn [mbind option_bind index_handle_ footer]. unfold footer. cbn [index_handle_ metaindex_handle_]. rewrite Er. cbn [mbind option_bind].
  pose proof (NewIterator_run le raw es ri Hok) as Hnew. destruct (TableBlock.Block_new le raw) as [blk|]; [|done]. cbn [mbind option_bind metaindex_handle index_block offset_ handle_at].
  rewrite frames_snoc, length_app in Hlt. split_and!; [done|lia|lia|done|]. exists es, ri. by rewrite Ees.
Qed.

(** ** The iterator and the lookup *)

(** The iterator of the table is one over its pairs. *)
Lemma table_iterator_run t : (exists es ri, block_ok (index_block t) es ri /\ map pair_of es = index) -> forall fuel, (length (pairs_of done) + 2 <= fuel)%nat ->
  exists it, NewIterator le t = Some it /\ exists P : @IteratorOver _ (TwoLevel_iterator (H := Block_iterator le) (H0 := Block_iterator le) OpenBlock fuel) (pairs_of done), iter_ok (IteratorOver := P) it.
Proof using H8 H64 Hlay Hfile.
  intros (es & ri & Hok & Ees) fuel Hf. destruct (Block_NewIterator_run le index (index_block t) es ri Hok Ees) as (b & Eb & Hb). exists (TwoLevelIterator_new b). split; [unfold NewIterator; by rewrite Eb|].
  pose proof (l_blocks _ _ _ _ _ Hlay) as Hbl.
  assert (forall i k h b, index !! i = Some (k, h) -> map st_pairs done !! i = Some b -> exists d, OpenBlock h = Some d /\ iter_ok (IteratorOver := Block_over le b) d) as Hopen.
  { intros i k h b' Hi Hb'. change (map st_pairs done) with (st_pairs <$> done) in Hb'. rewrite list_lookup_fmap in Hb'. destruct (done !! i) as [w|] eqn:Hw; [|done]. injection Hb' as <-. by destruct (open_block i k h w Hi Hw) as [_ ?]. }
  assert (length (map st_pairs done) + 2 <= fuel)%nat as Hf' by (rewrite length_map; lia).
  exists (@TwoLevel_over _ _ (Block_iterator le) (Block_iterator le) index (map st_pairs done) (Block_over le index) (Block_over le) OpenBlock layout_separated Hopen fuel Hf'). split_and!; [done|exact Hb|done].
Qed.

(** The least pair at or past a key. *)
Definition least_at_or_past (l : list pair) (k : list Z) (kv : pair) : Prop :=
  kv ∈ l /\ less kv.1 k = false /\ forall kv', kv' ∈ l -> less kv'.1 k = false -> less kv'.1 kv.1 = false.

Lemma wp_call {I A} (m : M I A) it s (Q : A * I -> unit -> Prop) : (m @ it ⇓ fun a it' => Q (a, it') s) -> call m it @ s ⇓ Q.
Proof using Type. unfold wp, call. by destruct (m it) as [[a it']| |]. Qed.

Lemma in_done kv : kv ∈ pairs_of done -> exists i k h w, index !! i = Some (k, h) /\ done !! i = Some w /\ kv ∈ st_pairs w.
Proof using Hlay.
  intros Hkv%list_elem_of_In%in_concat. destruct Hkv as (b & Hb & Hkv). apply list_elem_of_In in Hb, Hkv. change (map st_pairs done) with (st_pairs <$> done) in Hb. apply list_elem_of_fmap in Hb as (w & -> & Hw).
  apply list_elem_of_lookup_1 in Hw as [i Hi]. pose proof (lookup_lt_Some _ _ _ Hi) as Hlt. rewrite <- (l_length _ _ _ _ _ Hlay) in Hlt. destruct (lookup_lt_is_Some_2 index i Hlt) as [[k h] Hk]. by exists i, k, h, w.
Qed.

Lemma not_found key v : first_at_or_past index key (length index) -> (key, v) ∉ pairs_of done.
Proof using Hlay.
  intros (_ & Hb & _) Hkv. destruct (in_done _ Hkv) as (i & k & h & w & Hk & Hw & Hin). pose proof (l_upper _ _ _ _ _ Hlay i k h w _ Hk Hw Hin) as Hu.
  pose proof (Hb i (k, h) (lookup_lt_Some _ _ _ Hk) Hk) as Hl. cbn in Hu, Hl. congruence.
Qed.

Lemma sorted_at l n n' kv kv' : sorted_pairs l -> l !! n = Some kv -> l !! n' = Some kv' -> (n < n')%nat -> less kv.1 kv'.1 = true.
Proof using Type.
  intros Hs Hn Hn' Hlt. eapply (StronglySorted_lookup_lt _ _ n n' _ _ Hs); [| |done]; change (map fst l) with (fst <$> l); rewrite list_lookup_fmap; [by rewrite Hn|by rewrite Hn'].
Qed.

Lemma first_least l key n kv : sorted_pairs l -> first_at_or_past l key n -> l !! n = Some kv -> least_at_or_past l key kv.
Proof using Type.
  intros Hs (_ & Hb & Ha) Hn. split_and!; [by eapply list_elem_of_lookup_2|by apply Ha|]. intros kv' [n' Hn']%list_elem_of_lookup_1 Hge. destruct (lt_eq_lt_dec n' n) as [[Hlt| ->]|Hlt].
  - rewrite (Hb n' kv' Hlt Hn') in Hge. done.
  - rewrite Hn in Hn'. injection Hn' as <-. apply less_irrefl.
  - destruct (less kv'.1 kv.1) eqn:E; [|done]. pose proof (sorted_at l n n' kv kv' Hs Hn Hn' Hlt) as Hl. rewrite <- (less_irrefl kv.1). symmetry. by eapply less_trans.
Qed.

Lemma found_least i k h w j kv key : index !! i = Some (k, h) -> done !! i = Some w -> first_at_or_past index key i -> first_at_or_past (st_pairs w) key j -> st_pairs w !! j = Some kv ->
  least_at_or_past (pairs_of done) key kv.
Proof using Hlay.
  intros Hk Hw Hi Hj Hkv. assert (map st_pairs done !! i = Some (st_pairs w)) as Hb by (change (map st_pairs done) with (st_pairs <$> done); by rewrite list_lookup_fmap, Hw).
  apply (first_least _ _ (TableIteratorProofs.block_offset (map st_pairs done) i + j)); [apply Hlay| |].
  - apply (seek_position index (map st_pairs done) layout_separated); [done|by intros b; rewrite Hb; intros [= <-]|congruence].
  - etransitivity; [apply (pair_position (map st_pairs done) i (st_pairs w) j Hb); by eapply lookup_lt_Some|done].
Qed.

(** The block of a key is the one that the index gives. *)
Lemma key_block i key v : first_at_or_past index key i -> (key, v) ∈ pairs_of done -> exists w, done !! i = Some w /\ (key, v) ∈ st_pairs w.
Proof using Hlay.
  intros (Hil & Hib & Hia) Hkv. destruct (in_done _ Hkv) as (i' & k' & h' & w' & Hk' & Hw' & Hin). destruct (lt_eq_lt_dec i' i) as [[Hlt| ->]|Hlt]; [|by exists w'|].
  - pose proof (l_upper _ _ _ _ _ Hlay i' k' h' w' _ Hk' Hw' Hin) as Hu. pose proof (Hib i' (k', h') Hlt Hk') as Hl. cbn in Hu, Hl. congruence.
  - destruct (lookup_lt_is_Some_2 index i) as [[k h] Hk]; [apply lookup_lt_Some in Hk'; lia|]. pose proof (l_lower _ _ _ _ _ Hlay i i' k h w' _ Hk Hw' Hlt Hin) as Hl. pose proof (Hia (k, h) Hk) as Ha. cbn in Hl, Ha. congruence.
Qed.

Lemma found_key i w j key v : done !! i = Some w -> first_at_or_past index key i -> first_at_or_past (st_pairs w) key j -> (key, v) ∈ pairs_of done ->
  st_pairs w !! j = Some (key, v).
Proof using Hlay.
  intros Hw Hi (Hjl & Hjb & Hja) Hkv. destruct (key_block i key v Hi Hkv) as (w' & Hw' & Hin). rewrite Hw in Hw'. injection Hw' as <-. pose proof Hin as [j' Hj']%list_elem_of_lookup_1. destruct (lt_eq_lt_dec j' j) as [[Hlt| ->]|Hlt]; [|done|].
  - pose proof (Hjb j' _ Hlt Hj') as Hl. cbn in Hl. by rewrite less_irrefl in Hl.
  - assert (sorted_pairs (st_pairs w)) as Hs.
    { pose proof (l_sorted _ _ _ _ _ Hlay) as Hs. rewrite <- (take_drop_middle _ _ _ Hw) in Hs. unfold sorted_pairs, pairs_of in Hs. rewrite map_app, concat_app, map_app in Hs. apply StronglySorted_app_1_r in Hs.
      cbn [map concat] in Hs. rewrite map_app in Hs. by apply StronglySorted_app_1_l in Hs. }
    destruct (lookup_lt_is_Some_2 (st_pairs w) j) as [kv Hj]; [apply lookup_lt_Some in Hj'; lia|]. pose proof (sorted_at _ _ _ _ _ Hs Hj Hj' Hlt) as Hl. cbn [fst] in Hl. rewrite (Hja kv Hj) in Hl. done.
Qed.

Lemma InternalGet_run t key : (exists es ri, block_ok (index_block t) es ri /\ map pair_of es = index) ->
  InternalGet le acc mm8 mm64 address uncompressed_length uncompress file_Read t key @ tt ⇓ fun '(saved, st) _ => st = OK
    /\ (forall v, (key, v) ∈ pairs_of done -> saved = Some (key, v))
    /\ (forall kv, saved = Some kv -> least_at_or_past (pairs_of done) key kv).
Proof using H8 H64 Hlay Hfile.
  intros (es & ri & Hok & Ees). destruct (Block_NewIterator_run le index (index_block t) es ri Hok Ees) as (b & Eb & Hb). unfold InternalGet. wp_step. eapply wp_of_option; [exact Eb|]. cbn beta. wp_step. apply wp_call.
  eapply wp_mono; [exact (seek_at (IteratorOver := Block_over le index) b key Hb)|]. cbn beta. intros _ b1 (i & Hi & H1). cbn beta iota. unfold block_iterators. rewrite (at_valid (IteratorOver := Block_over le index) b1 i H1).
  pose proof (at_le (IteratorOver := Block_over le index) b1 i H1) as Hle. pose proof (ok_status (IteratorOver := Block_over le index) b1 (at_ok (IteratorOver := Block_over le index) b1 i H1)) as Hst. case_bool_decide as Hlt.
  - destruct (lookup_lt_is_Some_2 index i Hlt) as [[k h] Hih]. pose proof (l_length _ _ _ _ _ Hlay) as Hlen. destruct (lookup_lt_is_Some_2 done i ltac:(lia)) as [w Hw].
    destruct (open_block i k h w Hih Hw) as (_ & d & Ed & Hd). wp_step. apply wp_call. unfold wp at 1. rewrite (value_at (IteratorOver := Block_over le index) b1 i k h H1 Hih). wp_step. eapply wp_of_option; [exact Ed|]. cbn beta.
    wp_step. apply wp_call. eapply wp_mono; [exact (seek_at (IteratorOver := Block_over le (st_pairs w)) d key Hd)|]. cbn beta. intros _ d1 (j & Hj & Hd1). cbn beta iota.
    rewrite (at_valid (IteratorOver := Block_over le (st_pairs w)) d1 j Hd1). pose proof (ok_status (IteratorOver := Block_over le (st_pairs w)) d1 (at_ok (IteratorOver := Block_over le (st_pairs w)) d1 j Hd1)) as Hst'. case_bool_decide as Hjl.
    + destruct (lookup_lt_is_Some_2 (st_pairs w) j Hjl) as [[k' v'] Hkv]. wp_step. wp_step. apply wp_call. unfold wp at 1. rewrite (key_at (IteratorOver := Block_over le (st_pairs w)) d1 j k' v' Hd1 Hkv).
      wp_step. apply wp_call. unfold wp at 1. rewrite (value_at (IteratorOver := Block_over le (st_pairs w)) d1 j k' v' Hd1 Hkv). wp_steps. rewrite Hst', Hst. split_and!; [done| |].
      * intros v Hv. rewrite <- Hkv. by eapply found_key.
      * intros kv [= <-]. by eapply found_least.
    + wp_steps. rewrite Hst', Hst. split_and!; [done| |done]. intros v Hv. pose proof (found_key i w j key v Hw Hi Hj Hv) as Hkv. by apply lookup_lt_Some in Hkv.
  - wp_steps. rewrite Hst. split_and!; [done| |done]. intros v Hv. assert (i = length index) as -> by lia. by destruct (not_found key v Hi).
Qed.

(** The offset of the block that has, or would have, a key. *)
Lemma ApproximateOffsetOf_run t key : (exists es ri, block_ok (index_block t) es ri /\ map pair_of es = index) -> Z.of_nat (length (frames done)) = offset_ (metaindex_handle t) ->
  ApproximateOffsetOf le t key @ tt ⇓ fun o _ => exists i, first_at_or_past index key i /\ o = Z.of_nat (length (frames (take i done))).
Proof using Hlay.
  intros (es & ri & Hok & Ees) Hm. destruct (Block_NewIterator_run le index (index_block t) es ri Hok Ees) as (b & Eb & Hb). unfold ApproximateOffsetOf. wp_step. eapply wp_of_option; [exact Eb|]. cbn beta. wp_step. apply wp_call.
  eapply wp_mono; [exact (seek_at (IteratorOver := Block_over le index) b key Hb)|]. cbn beta. intros _ b1 (i & Hi & H1). cbn beta iota. unfold block_iterators. rewrite (at_valid (IteratorOver := Block_over le index) b1 i H1).
  pose proof (at_le (IteratorOver := Block_over le index) b1 i H1) as Hle. pose proof (l_length _ _ _ _ _ Hlay) as Hlen. case_bool_decide as Hlt.
  - destruct (lookup_lt_is_Some_2 index i Hlt) as [[k h] Hih]. destruct (l_handles _ _ _ _ _ Hlay i k h Hih) as (w & Hw & Eh). wp_step. apply wp_call. unfold wp at 1. rewrite (value_at (IteratorOver := Block_over le index) b1 i k h H1 Hih).
    wp_steps. rewrite Eh, <- (app_nil_r (handle_bytes _)), handle_decode by (by apply done_handle). by exists i.
  - wp_steps. exists i. split; [done|]. rewrite take_ge by lia. done.
Qed.

End read.
