(* ===== verification/TableFileTheorems.v ===== *)
(** * Table files: the theorems

    What the builder was given is read from the file that it wrote, by any host: in order, from
    a key on, and by key.  A two-level iterator keeps the promise of the interface, and damage
    of a block is reported. *)

From S2P Require Import Prelude Coding OrderedCode TableBlock TableBlockProofs Crc32c Crc32cTheorems InputStream InputStreamProofs BufferedStream RecordFile RecordFileProofs RecordFileTheorems RecordIntegrity TableIterator TableIteratorProofs TableFile TableFileFormat TableFileBuild TableFileRead.
Import Coding TableIterator TableFile.

#[local] Open Scope runtime_scope.

(** ** Building *)

(** A call of a client between the constructor and [Finish]. *)
Inductive builder_call := Put (key value : list Z) | FlushBlock.

Definition put_of (c : builder_call) : list pair := match c with Put k v => [(k, v)] | FlushBlock => [] end.
Definition puts (cs : list builder_call) : list pair := concat (map put_of cs).

(** The keys ascend, and blocks and the index stay below the sizes that the format has. *)
Record storable_table (l : list pair) : Prop := {
  s_sorted : sorted_pairs l;
  s_pairs : Forall (fun kv => bytes kv.1 /\ bytes kv.2 /\ pair_room kv < 2 ^ 31) l;
  s_index : index_room l < 2 ^ 32 - 8
}.

Definition valid_options (options : Options) : Prop := 0 <= block_size options <= 2 ^ 31 /\ 1 <= block_restart_interval options.

Section build.
Context (le acc : bool) (mm8 mm64 : Z -> Z -> Z) (address : list Z -> Z) (H8 : instruction_u8 mm8) (H64 : instruction_u64 mm64).
Context (compress : list Z -> option (list Z)) (uncompressed_length : list Z -> option Z) (uncompress : list Z -> option (list Z)).
Context (Hsnappy : snappy_ok compress uncompressed_length uncompress).
Context {F : Type} {HF : RecordFile.WritableFile F} {HA : AppendOnly F} (options : Options) (Hopt : valid_options options).

Definition run_call (c : builder_call) : M (@Rep F) unit :=
  match c with
  | Put k v => TableFile.Add le acc mm8 mm64 address compress options k v
  | FlushBlock => Flush le acc mm8 mm64 address compress options
  end.

Fixpoint run_calls (cs : list builder_call) : M (@Rep F) unit := match cs with [] => mret tt | c :: cs => run_call c;; run_calls cs end.

Definition Build (cs : list builder_call) : M (@Rep F) Status := run_calls cs;; Finish le acc mm8 mm64 address compress options.

Lemma run_calls_at cs : forall (r : @Rep F) l, builder_at uncompressed_length uncompress options r l -> storable_table (l ++ puts cs) ->
  run_calls cs @ r ⇓ fun _ r' => builder_at uncompressed_length uncompress options r' (l ++ puts cs).
Proof using H8 H64 Hsnappy Hopt.
  destruct Hopt as [Hsize HK]. induction cs as [|c cs IH]; intros r l Hr Hst; cbn [run_calls]; [wp_steps; unfold puts; cbn; by rewrite app_nil_r|].
  assert (forall l l', storable_table (l ++ l') -> storable_table l) as Hpre.
  { intros a a' [Hs Hp Hi]. unfold sorted_pairs in Hs. rewrite map_app in Hs. rewrite index_room_app in Hi. pose proof (index_room_length a'). constructor; [by apply StronglySorted_app_1_l in Hs|by apply Forall_app in Hp as []|lia]. }
  unfold puts in *. cbn [map concat] in *. rewrite app_assoc in *. pose proof (Hpre _ _ Hst) as Hc. wp_step. destruct c as [k v|]; cbn [run_call put_of] in *.
  - destruct Hc as [Hs Hp Hi]. apply Forall_app in Hp as [_ (Bk & Bv & Hroom)%Forall_inv]. eapply wp_mono; [by apply Add_at|]. cbn beta. intros _ r' Hr'. by apply IH.
  - rewrite app_nil_r in *. eapply wp_mono; [apply Flush_at; [..|exact Hr|apply Hc]|]; [done..|]. cbn beta. intros _ r' [Hr' _]. by apply IH.
Qed.

Lemma Build_spec cs (f : F) : file_bytes f = [] -> storable_table (puts cs) ->
  Build cs @ TableBuilder_new f ⇓ fun st r => st = OK /\ NumEntries r = Z.of_nat (length (puts cs)) /\ FileSize r = Z.of_nat (length (file_bytes (file r)))
    /\ exists done index, table_layout uncompressed_length uncompress (file_bytes (file r)) done index /\ pairs_of done = puts cs.
Proof using H8 H64 Hsnappy Hopt.
  intros Hf Hst. pose proof Hopt as [Hsize HK]. unfold Build. wp_step. eapply wp_mono; [apply (run_calls_at cs _ []); [by apply builder_new|done]|]. cbn beta. intros _ r Hr.
  eapply wp_mono; [eapply Finish_at; [done..|apply Hst]|]. cbn beta. intros st r' (-> & En & _ & done & index & Hlay & Ep & Eo). unfold NumEntries, FileSize. split_and!; [done|done|done|]. by exists done, index.
Qed.

End build.

(** ** What a reader sees *)

(** A reader on any host that can read the file. *)
Definition for_readers (mm8 mm64 : Z -> Z -> Z) (uncompressed_length : list Z -> option Z) (uncompress : list Z -> option (list Z)) (content : list Z)
    (P : forall (le acc : bool) (address : list Z -> Z) (file_Read : Z -> Z -> Status * list Z) (t : Table), Prop) : Prop :=
  forall le acc address file_Read, file_of content file_Read ->
    exists t, Open le acc mm8 mm64 address uncompressed_length uncompress file_Read (Z.of_nat (length content)) = Some (Ok t) /\ P le acc address file_Read t.

(** The offset of the block that has, or would have, a key. *)
Definition approximate_offset (index : list pair) (done : list stored) (key : list Z) : Z := Z.of_nat (length (frames (take (first_index index key) done))).

Lemma frames_take_mono done i j : (i <= j)%nat -> (length (frames (take i done)) <= length (frames (take j done)))%nat.
Proof.
  intros Hij. rewrite <- (take_drop i (take j done)), take_take, Nat.min_l by done. unfold frames. rewrite map_app, concat_app, length_app. lia.
Qed.

Section claims.
Context (mm8 mm64 : Z -> Z -> Z) (compress : list Z -> option (list Z)) (uncompressed_length : list Z -> option Z) (uncompress : list Z -> option (list Z)).
Context (H8 : instruction_u8 mm8) (H64 : instruction_u64 mm64) (Hsnappy : snappy_ok compress uncompressed_length uncompress).
Context (options : Options) (Hopt : valid_options options) (cs : list builder_call) (Hst : storable_table (puts cs)).
Context (le acc : bool) (address : list Z -> Z) {F : Type} {HF : RecordFile.WritableFile F} {HA : AppendOnly F} (f : F) (Hf : file_bytes f = []).
Abbreviation TwoLevel le acc address file_Read fuel :=
  (TwoLevel_iterator (H := Block_iterator le) (H0 := Block_iterator le) (BlockReader le acc mm8 mm64 address uncompressed_length uncompress file_Read) fuel).

(** From a file with this layout the iterator gives the pairs of the blocks. *)
Lemma layout_iterates content done index : table_layout uncompressed_length uncompress content done index ->
  for_readers mm8 mm64 uncompressed_length uncompress content (fun le acc address file_Read t =>
    exists it, NewIterator le t = Some it /\ forall fuel, (length (pairs_of done) + 2 <= fuel)%nat -> let I := TwoLevel le acc address file_Read fuel in
      ((SeekToFirst;; drain fuel) @ it ⇓ fun l it' => l = pairs_of done /\ Valid it' = false /\ TableIterator.status it' = OK)
      /\ forall target, (Seek target;; drain fuel) @ it ⇓ fun l it' =>
           l = filter (fun kv => less kv.1 target = false) (pairs_of done) /\ Valid it' = false /\ TableIterator.status it' = OK).
Proof using H8 H64.
  intros Hlay le' acc' address' file_Read Hfile. destruct (Open_run le' acc' mm8 mm64 address' H8 H64 _ _ _ _ _ Hlay file_Read Hfile) as (t & Et & _ & _ & Hb). exists t. split; [done|].
  destruct (table_iterator_run le' acc' mm8 mm64 address' H8 H64 _ _ _ _ _ Hlay file_Read Hfile t Hb (length (pairs_of done) + 2) ltac:(lia)) as (it & Eit & _). exists it. split; [done|].
  intros fuel Hfuel I. destruct (table_iterator_run le' acc' mm8 mm64 address' H8 H64 _ _ _ _ _ Hlay file_Read Hfile t Hb fuel Hfuel) as (it' & Eit' & P & Hok). assert (it' = it) as -> by congruence.
  split; [apply (walk_first (P := P)); [exact Hok|lia]|]. intros target. apply (walk_seek (P := P)); [apply Hlay|exact Hok|lia].
Qed.

(** A block is read at the approximate offset of the keys that it has. *)
Lemma offset_block content done index : table_layout uncompressed_length uncompress content done index ->
  forall le acc address file_Read, file_of content file_Read -> forall key v, (key, v) ∈ pairs_of done -> exists n raw es ri,
  ReadBlock le acc mm8 mm64 address uncompressed_length uncompress file_Read (mkHandle (approximate_offset index done key) n) = Some (Ok raw)
  /\ block_ok raw es ri /\ (key, v) ∈ map pair_of es.
Proof using H8 H64.
  intros Hlay le' acc' address' file_Read Hfile key v Hkv. destruct (key_block _ _ _ _ _ Hlay (first_index index key) key v) as (w & Hw & Hin); [apply first_index_at|done|].
  destruct (done_split _ _ _ _ _ Hlay _ _ Hw) as [post Ec]. pose proof (l_stored _ _ _ _ _ Hlay) as Hso. rewrite Forall_lookup in Hso.
  destruct (read_stored le' acc' mm8 mm64 address' H8 H64 _ _ _ _ _ Hlay file_Read Hfile _ w post (Hso _ _ Hw) Ec) as (raw & es & ri & Er & Hok & Ees). exists (Z.of_nat (length (st_contents w))), raw, es, ri.
  split_and!; [exact Er|done|by rewrite Ees].
Qed.

(** C28: Building a table from any sequence of [Add]s in ascending order of keys and
    [Flush]es, with any compression library that gives back what it was given, succeeds and
    counts the entries and the bytes of the file.  A reader on any host opens the file, and
    the iterator of the table gives, from the first pair on, all the pairs that were added in
    order, and after [Seek] exactly those whose keys are not less than the target; it ends
    with an OK status.  Two more rounds than there are pairs are enough for its loops.  A
    lookup finds the value of every key that was added; for another key, what it finds, if
    anything, is the pair with the least key past it.  The approximate offset of a key is
    inside the file, does not decrease with the key, and is that of the block that has the key
    if it was added.  The sizes are bounded: a block size of at most 2^31, every key and
    value together less than 2^31 - 19 bytes, and 39 bytes plus the key, summed over the pairs,
    less than 2^32 - 8; the restart interval is at least 1. *)
Theorem table_round_trip :
  Build le acc mm8 mm64 address compress options cs @ TableBuilder_new f ⇓ fun st r =>
    st = OK /\ NumEntries r = Z.of_nat (length (puts cs)) /\ FileSize r = Z.of_nat (length (file_bytes (file r)))
    /\ for_readers mm8 mm64 uncompressed_length uncompress (file_bytes (file r)) (fun le acc address file_Read t =>
         exists it, NewIterator le t = Some it /\ forall fuel, (length (puts cs) + 2 <= fuel)%nat -> let I := TwoLevel le acc address file_Read fuel in
           ((SeekToFirst;; drain fuel) @ it ⇓ fun l it' => l = puts cs /\ Valid it' = false /\ TableIterator.status it' = OK)
           /\ forall target, (Seek target;; drain fuel) @ it ⇓ fun l it' =>
                l = filter (fun kv => less kv.1 target = false) (puts cs) /\ Valid it' = false /\ TableIterator.status it' = OK)
    /\ for_readers mm8 mm64 uncompressed_length uncompress (file_bytes (file r)) (fun le acc address file_Read t =>
         (forall key, InternalGet le acc mm8 mm64 address uncompressed_length uncompress file_Read t key @ tt ⇓ fun '(saved, st) _ => st = OK
            /\ (forall v, (key, v) ∈ puts cs -> saved = Some (key, v))
            /\ (forall kv, saved = Some kv -> least_at_or_past (puts cs) key kv))
         /\ exists offset_of, (forall key, ApproximateOffsetOf le t key @ tt ⇓ fun o _ => o = offset_of key)
              /\ (forall key, 0 <= offset_of key < FileSize r)
              /\ (forall key key', less key' key = false -> offset_of key <= offset_of key')
              /\ forall key v, (key, v) ∈ puts cs -> exists n raw es ri,
                   ReadBlock le acc mm8 mm64 address uncompressed_length uncompress file_Read (mkHandle (offset_of key) n) = Some (Ok raw)
                   /\ block_ok raw es ri /\ (key, v) ∈ map pair_of es).
Proof using H8 H64 Hsnappy Hopt Hst Hf.
  eapply wp_mono; [by apply Build_spec|]. cbn beta. intros st r (-> & En & Es & done & index & Hlay & Ep). split; [done|]. split; [done|]. split; [done|]. rewrite <- Ep, Es. split; [by eapply layout_iterates|].
  intros le' acc' address' file_Read Hfile. destruct (Open_run le' acc' mm8 mm64 address' H8 H64 _ _ _ _ _ Hlay file_Read Hfile) as (t & Et & Ho & Em & Hb). exists t. split; [done|]. split.
  - intros key. by apply (InternalGet_run le' acc' mm8 mm64 address' H8 H64 _ _ _ _ _ Hlay file_Read Hfile).
  - exists (approximate_offset index done). split_and!.
    + intros key. eapply wp_mono; [by apply (ApproximateOffsetOf_run le' _ _ _ _ _ Hlay)|]. cbn beta. intros o _ (i & Hi & ->). unfold approximate_offset. by rewrite (first_at_or_past_unique _ _ _ _ (first_index_at index key) Hi).
    + intros key. pose proof (frames_take_mono done (first_index index key) (first_index index key + length done) ltac:(lia)) as Hm. rewrite (take_ge done (_ + _)) in Hm by lia. unfold approximate_offset. lia.
    + intros key key' Hle. apply inj_le, frames_take_mono, first_index_mono, Hle.
    + intros key v Hkv. by eapply offset_block.
Qed.

End claims.

(** ** Two levels *)

(** An iterator over a list in memory. *)
#[local] Instance list_iterator : Iterator (list pair * nat) := {
  Valid c := bool_decide (c.2 < length c.1)%nat;
  SeekToFirst := modify (fun c => (c.1, 0%nat));
  Seek target := modify (fun c => (c.1, first_index c.1 target));
  Next := modify (fun c => (c.1, S c.2));
  key := c ← get; of_option (fst <$> c.1 !! c.2);
  value := c ← get; of_option (snd <$> c.1 !! c.2);
  TableIterator.status _ := OK
}.

#[local] Program Instance list_over pairs : IteratorOver (list pair * nat) pairs := {
  iter_ok c := c.1 = pairs;
  iter_at c i := c = (pairs, i) /\ (i <= length pairs)%nat
}.
Next Obligation. by intros pairs c i [-> _]. Qed.
Next Obligation. by intros pairs c i [-> ?]. Qed.
Next Obligation. by intros pairs c i [-> ?]. Qed.
Next Obligation. done. Qed.
Next Obligation. intros pairs [l i] <-. wp_steps. split; [done|lia]. Qed.
Next Obligation. intros pairs [l i] target <-. cbn [fst]. wp_steps. exists (first_index l target). pose proof (first_index_at l target) as Hf. split_and!; [done|done|apply Hf]. Qed.
Next Obligation. intros pairs c i [-> ?] Hi. wp_steps. split; [done|lia]. Qed.
Next Obligation. intros pairs c i k v [-> _] Hkv. cbn. rewrite run_get. cbn. by rewrite Hkv. Qed.
Next Obligation. intros pairs c i k v [-> _] Hkv. cbn. rewrite run_get. cbn. by rewrite Hkv. Qed.

(** Over an index whose keys separate the blocks that it names (a key is not less
    than any of its block, and less than all of the later ones), with iterators over the
    index and over each block that keep the promise of the interface, the two-level iterator
    keeps it for the pairs of all the blocks one after another, empty blocks included.  Two
    more rounds than there are blocks are enough for its loop. *)
Theorem two_level_keeps_promise {I D} {HI : Iterator I} {HD : Iterator D} (index : list pair) (blocks : list (list pair))
    (PI : IteratorOver I index) (PD : forall b, IteratorOver D b) (block_function : list Z -> option D) fuel it :
  separated index blocks ->
  (forall i k h b, index !! i = Some (k, h) -> blocks !! i = Some b -> exists d, block_function h = Some d /\ iter_ok (IteratorOver := PD b) d) ->
  (length blocks + 2 <= fuel)%nat -> iter_ok (IteratorOver := PI) it ->
  exists P : @IteratorOver _ (TwoLevel_iterator block_function fuel) (concat blocks), iter_ok (IteratorOver := P) (TwoLevelIterator_new it).
Proof.
  intros Hsep Hopen Hfuel Hit. exists (@TwoLevel_over _ _ HI HD index blocks PI PD block_function Hsep Hopen fuel Hfuel). by split_and!.
Qed.

(** ** Damage *)

Lemma magic_read le input : Forall byte input -> length input = 48%nat -> drop 40 input <> magic_bytes -> Footer_DecodeFrom le input = Some (Err DATA_LOSS).
Proof.
  intros Hb Hl Hm. unfold Footer_DecodeFrom. change (Z.to_nat (kEncodedLength - 8)) with 40%nat. rewrite <- (drop_drop input 4 40).
  assert (length (drop 40 input) = 8%nat) as Ld by (rewrite length_drop; lia). pose proof (Forall_drop _ 40 _ Hb) as Bd. revert Ld Bd Hm. generalize (drop 40 input). intros d.
  destruct d as [|b0 [|b1 [|b2 [|b3 [|b4 [|b5 [|b6 [|b7 [|]]]]]]]]]; try done. intros _ Bd Hm. cbn [drop].
  assert (Forall byte [b0; b1; b2; b3] /\ Forall byte [b4; b5; b6; b7]) as [B1 B2] by (rewrite <- Forall_app; exact Bd).
  assert (forall x0 x1 x2 x3 r, Forall byte [x0; x1; x2; x3] -> DecodeFixed32 le (x0 :: x1 :: x2 :: x3 :: r) = Some (le_value [x0; x1; x2; x3])) as Hd by (intros; destruct le; [done|by apply DecodeFixed32_be]).
  rewrite !Hd by done. cbn [mbind option_bind]. rewrite (proj2 (Z.eqb_neq _ _)); [done|]. intros E. apply Hm.
  pose proof (le_value_word _ B1) as W1. change (256 ^ _) with (2 ^ 32) in W1. rewrite Z.lor_comm, (lor_bytes _ _ 32 4294967296) in E by (reflexivity || lia).
  apply le_value_inj; [done|done|apply le_bytes_range|]. unfold magic_bytes. rewrite le_bytes_value by (vm_compute; done). rewrite <- E. cbn [le_value]. lia.
Qed.

(** The status of a block that cannot be read is that of its iterator. *)
Lemma BlockReader_error le acc mm8 mm64 address uncompressed_length uncompress file_Read h rest c : set_handle h ->
  ReadBlock le acc mm8 mm64 address uncompressed_length uncompress file_Read h = Some (Err c) ->
  BlockReader le acc mm8 mm64 address uncompressed_length uncompress file_Read (handle_bytes h ++ rest) = Some (NewErrorIterator (Err c)).
Proof. intros Hh Hr. unfold BlockReader. rewrite handle_decode by done. rewrite Hr. done. Qed.

(** C29: errors. A block of which the contents or the type changed inside four consecutive bytes,
    or whose checksum changed in any way, is reported as [DATA_LOSS], whatever else the file
    has and whatever the compression library does; one that the file ends inside of gives the
    [OUT_OF_RANGE] of the file.  The block reader of a table passes either on as the status of
    an iterator without pairs.  [Open] reports [DATA_LOSS] for a file that is shorter than the
    footer or does not end with the magic number. *)
Theorem table_damage (mm8 mm64 : Z -> Z -> Z) : instruction_u8 mm8 -> instruction_u64 mm64 ->
  forall le acc address uncompressed_length uncompress content file_Read, Forall byte content -> file_of content file_Read ->
  let Read := ReadBlock le acc mm8 mm64 address uncompressed_length uncompress file_Read in
  let Reader := BlockReader le acc mm8 mm64 address uncompressed_length uncompress file_Read in
  (forall pre contents type f post rest, bytes contents -> frame_damage (contents ++ [type_byte type]) f -> content = pre ++ f ++ post -> Z.of_nat (length content) < 2 ^ 63 ->
     let h := mkHandle (Z.of_nat (length pre)) (Z.of_nat (length contents)) in
     Read h = Some (Err DATA_LOSS) /\ Reader (handle_bytes h ++ rest) = Some (NewErrorIterator (Err DATA_LOSS)))
  /\ (forall h rest, set_handle h -> size_ h < 2 ^ 63 -> Z.of_nat (length content) < offset_ h + size_ h + kBlockTrailerSize ->
        Read h = Some (Err OUT_OF_RANGE) /\ Reader (handle_bytes h ++ rest) = Some (NewErrorIterator (Err OUT_OF_RANGE)))
  /\ (Z.of_nat (length content) < kEncodedLength \/ drop (length content - 8) content <> magic_bytes ->
        Open le acc mm8 mm64 address uncompressed_length uncompress file_Read (Z.of_nat (length content)) = Some (Err DATA_LOSS)).
Proof.
  intros H8 H64 le acc address ul u content file_Read Hb Hfile Read Reader. split_and!.
  - intros pre contents type f post rest Hc Hd Ec Hmax h. assert (Z.of_nat (length pre) + Z.of_nat (length contents) < 2 ^ 63) as Hlen.
    { rewrite Ec, !length_app in Hmax. assert (length contents <= length f)%nat; [|lia]. destruct Hd as [d Hbu|e _ _ _]; [pose proof (burst_length _ _ Hbu) as Hbl|]; rewrite !length_app in *; lia. }
    assert (Read h = Some (Err DATA_LOSS)) as Hr by (apply (ReadBlock_damaged le acc mm8 mm64 address H8 H64 ul u content file_Read Hfile Hb pre contents type f post); done || lia).
    split; [done|]. apply BlockReader_error; [split; cbn; lia|done].
  - intros h rest Hh Hn Hlen. assert (Read h = Some (Err OUT_OF_RANGE)) as Hr.
    { destruct Hh as [Ho Hs]. unfold Read. rewrite (ReadBlock_run le acc mm8 mm64 address H8 H64 ul u content file_Read Hfile Hb) by lia. rewrite (proj2 (Z.eqb_neq _ _)); [done|].
      unfold slice. rewrite length_take, length_drop. change kBlockTrailerSize with 5 in Hlen. lia. }
    split; [done|]. by apply BlockReader_error.
  - intros Hbad. unfold Open. change kEncodedLength with 48 in *. destruct (Z.ltb_spec (Z.of_nat (length content)) 48) as [|Hge]; [done|]. destruct Hbad as [|Hmagic]; [lia|].
    rewrite Hfile by lia. set (input := slice content (Z.of_nat (length content) - 48) 48). assert (length input = 48%nat) as Hl by (unfold input, slice; rewrite length_take, length_drop; lia).
    rewrite Hl. change (Z.of_nat 48 =? 48) with true. cbn beta iota. cbn [OK]. rewrite magic_read; [done|by apply Forall_take, Forall_drop|done|].
    unfold input, slice. rewrite skipn_firstn_comm, drop_drop, take_ge by (rewrite length_drop; lia). replace (Z.to_nat _ + 40)%nat with (length content - 8)%nat by lia. done.
Qed.

(** ** Witnesses *)

(** A toy compression that leaves out the restart array of a block with one restart point. *)
Definition one_restart : list Z := [0; 0; 0; 0; 1; 0; 0; 0].
Definition toy_compress (d : list Z) : option (list Z) :=
  if bool_decide (drop (length d - 8) d = one_restart) then Some (take (length d - 8) d) else None.
Definition toy_length (c : list Z) : option Z := Some (Z.of_nat (length (c ++ one_restart))).
Definition toy_uncompress (c : list Z) : option (list Z) := Some (c ++ one_restart).

Lemma toy_snappy_ok : snappy_ok toy_compress toy_length toy_uncompress.
Proof.
  intros d c Hd. unfold toy_compress. case_bool_decide as E; [|done]. intros [= <-]. unfold toy_length, toy_uncompress. rewrite <- E, take_drop. split_and!; [by apply Forall_take|done|done].
Qed.

#[local] Instance memory_table : RecordFile.WritableFile (list Z) := RecordFileTheorems.memory_writable.
#[local] Instance memory_table_append : AppendOnly (list Z) := RecordFileTheorems.memory_append.

Definition sample_calls : list builder_call := [Put [97] [1]; Put [97; 98] [2; 3]; FlushBlock; Put [97; 98; 99] []; Put [98] [4]].
Definition sample_options : Options := mkOptions 12 2 kSnappyCompression.

Lemma sample_table : storable_table (puts sample_calls) /\ valid_options sample_options.
Proof. split; [constructor; [repeat constructor|repeat constructor; cbn; lia|by vm_compute]|split; cbn; lia]. Qed.

Lemma table_round_trip_witness :
  exists r t it it', Build true false crc32_u8 crc32_u64 (fun _ => 0) toy_compress sample_options sample_calls (TableBuilder_new []) = Val (OK, r)
  /\ Open false false crc32_u8 crc32_u64 (fun _ => 3) toy_length toy_uncompress (memory_file (file_bytes (file r))) (FileSize r) = Some (Ok t)
  /\ NewIterator false t = Some it
  /\ (let I := TwoLevel_iterator (H := Block_iterator false) (H0 := Block_iterator false)
        (BlockReader false false crc32_u8 crc32_u64 (fun _ => 3) toy_length toy_uncompress (memory_file (file_bytes (file r)))) 6 in
      (Seek [97; 98];; drain 6) it = Val ([([97; 98], [2; 3]); ([97; 98; 99], []); ([98], [4])], it'))
  /\ InternalGet false false crc32_u8 crc32_u64 (fun _ => 3) toy_length toy_uncompress (memory_file (file_bytes (file r))) t [97; 98] tt = Val ((Some ([97; 98], [2; 3]), OK), tt).
Proof.
  destruct sample_table as [Hst Hopt].
  destruct (wp_total _ _ _ (table_round_trip crc32_u8 crc32_u64 toy_compress toy_length toy_uncompress crc32_u8_instruction crc32_u64_instruction toy_snappy_ok sample_options Hopt sample_calls Hst
    true false (fun _ => 0) (F := list Z) (HA := memory_table_append) [] eq_refl)) as (st & r & Er & -> & _ & Es & Hread & Hfind).
  destruct (Hread false false (fun _ => 3) (memory_file (file_bytes (file r))) (memory_file_of _)) as (t & Et & it & Eit & Hit).
  destruct (wp_total _ _ _ (proj2 (Hit 6%nat ltac:(cbn; lia)) [97; 98])) as (l & it' & El & -> & _).
  destruct (Hfind false false (fun _ => 3) (memory_file (file_bytes (file r))) (memory_file_of _)) as (t' & Et' & Hget & _). assert (t' = t) as -> by congruence.
  destruct (wp_total _ _ _ (Hget [97; 98])) as ([saved st'] & [] & Eg & -> & Hv & _).
  exists r, t, it, it'. split_and!; [exact Er|rewrite Es; exact Et|exact Eit|exact El|]. rewrite (Hv [2; 3]) in Eg; [exact Eg|]. apply list_elem_of_In. cbn. auto.
Defined.

(** An index over two blocks and an empty one between them. *)
Definition sample_blocks : list (list pair) := [[([1], []); ([2], [])]; []; [([5], [])]].
Definition sample_index : list pair := [([3], [0]); ([4], [1]); ([6], [2])].

Lemma sample_separated : separated sample_index sample_blocks.
Proof.
  constructor; [done|repeat constructor; set_solver| |].
  - intros [|[|[|?]]] k h b kv Hi Hb Hkv; cbn in Hi, Hb; simplify_eq; rewrite ?elem_of_cons, ?elem_of_nil in Hkv; destruct_or?; simplify_eq; done.
  - intros [|[|[|?]]] [|[|[|?]]] k h b kv Hi Hb Hlt Hkv; cbn in Hi, Hb; simplify_eq; try lia; rewrite ?elem_of_cons, ?elem_of_nil in Hkv; destruct_or?; simplify_eq; done.
Qed.

Definition sample_function (h : list Z) : option (list pair * nat) :=
  match h with [i] => (fun b => (b, 0%nat)) <$> sample_blocks !! Z.to_nat i | _ => None end.

Lemma two_level_keeps_promise_witness :
  exists P : @IteratorOver _ (TwoLevel_iterator sample_function 5) [([1], []); ([2], []); ([5], [])],
    iter_ok (IteratorOver := P) (TwoLevelIterator_new (sample_index, 0%nat)).
Proof.
  refine (two_level_keeps_promise sample_index sample_blocks (list_over _) list_over sample_function 5 (sample_index, 0%nat) sample_separated _ _ eq_refl); [|cbn; lia].
  intros [|[|[|?]]] k h b Hi Hb; cbn in Hi, Hb; simplify_eq; eexists; split; reflexivity.
Defined.

Lemma table_damage_witness :
  let content := block_frame [7; 8] kNoCompression ++ ([9; 8; 0] ++ checksum [7; 8; 0]) ++ [] in
  ReadBlock true false crc32_u8 crc32_u64 (fun _ => 0) toy_length toy_uncompress (memory_file content) (mkHandle 7 2) = Some (Err DATA_LOSS).
Proof.
  intros content. assert (Forall byte content) as Hb by (vm_compute; repeat constructor; discriminate).
  refine (proj1 (proj1 (table_damage crc32_u8 crc32_u64 crc32_u8_instruction crc32_u64_instruction true false (fun _ => 0) toy_length toy_uncompress content (memory_file content) Hb (memory_file_of _))
    (block_frame [7; 8] kNoCompression) [7; 8] kNoCompression ([9; 8; 0] ++ checksum [7; 8; 0]) [] [] _ _ eq_refl _)).
  - repeat constructor; lia.
  - apply damage_contents. apply (burst_at [] [7] [9] [8; 0]); [repeat constructor; lia|reflexivity|cbn; lia|discriminate].
  - vm_compute. reflexivity.
Defined.
