(* ===== verification/Hash.v ===== *)
(** * Hashes of byte strings

    [core/lib/hash/hash.cc] and [hash.h]: the 32-bit and 64-bit hashes, with which the
    rendezvous and the caches index their tables. *)

From S2P Require Import Prelude Coding Crc32c Crc32cTheorems.
Import Coding.

Module Hash.

Section hash.
Context (kLittleEndian : bool).

(** The [switch] on the bytes that are left: from the last one down to the first. *)
Fixpoint tail (shift : Z) (data : list Z) (h : Z) : Z :=
  match data with
  | [] => h
  | c :: data => Z.lxor (tail (shift + 8) data h) (Z.shiftl (Z.land c 0xff) shift)
  end.

(** ** 32 bits *)

Definition m32 : Z := 0x5bd1e995.

Fixpoint Hash32_loop (fuel : nat) (h : Z) (data : list Z) : option (Z * list Z) :=
  match fuel with
  | O => None
  | S fuel =>
      if (4 <=? length data)%nat then
        k ← DecodeFixed32 kLittleEndian data;
        let k := u32 (k * m32) in
        let k := Z.lxor k (Z.shiftr k 24) in
        let k := u32 (k * m32) in
        let h := u32 (h * m32) in
        let h := Z.lxor h k in
        Hash32_loop fuel h (drop 4 data)
      else Some (h, data)
  end.

Definition Hash32 (data : list Z) (seed : Z) : option Z :=
  let h := u32 (Z.lxor seed (Z.of_nat (length data))) in
  '(h, data) ← Hash32_loop (S (length data)) h data;
  let h := match data with [] => h | _ => u32 (tail 0 data h * m32) end in
  let h := Z.lxor h (Z.shiftr h 13) in
  let h := u32 (h * m32) in
  Some (Z.lxor h (Z.shiftr h 15)).

(** ** 64 bits *)

Definition m64 : Z := 0xc6a4a7935bd1e995.
Definition r64 : Z := 47.

Fixpoint Hash64_loop (fuel : nat) (h : Z) (data : list Z) : option (Z * list Z) :=
  match fuel with
  | O => None
  | S fuel =>
      if (8 <=? length data)%nat then
        k ← DecodeFixed64 kLittleEndian data;
        let k := u64 (k * m64) in
        let k := Z.lxor k (Z.shiftr k r64) in
        let k := u64 (k * m64) in
        let h := Z.lxor h k in
        let h := u64 (h * m64) in
        Hash64_loop fuel h (drop 8 data)
      else Some (h, data)
  end.

Definition Hash64 (data : list Z) (seed : Z) : option Z :=
  let h := Z.lxor seed (u64 (Z.of_nat (length data) * m64)) in
  '(h, data) ← Hash64_loop (S (length data)) h data;
  let h := match data with [] => h | _ => u64 (tail 0 data h * m64) end in
  let h := Z.lxor h (Z.shiftr h r64) in
  let h := u64 (h * m64) in
  Some (Z.lxor h (Z.shiftr h r64)).

Definition Hash64_default (data : list Z) : option Z := Hash64 data 0xDECAFCAFFE.

End hash.

Definition Hash64Combine (a b : Z) : Z := Z.lxor a (u64 (b + 0x9e3779b97f4a7800 + u64 (Z.shiftl a 10) + Z.shiftr a 4)).
Definition Hash64Combine3 (a b c : Z) : Z := Hash64Combine a (Hash64Combine b c).
Definition Hash64Combine5 (a b c d e : Z) : Z := Hash64Combine (Hash64Combine3 a b c) (Hash64Combine d e).
Definition Hash64CombineUnordered (a b : Z) : Z := u64 (a + b).

End Hash.
Import Hash.

(** ** Invertible steps *)

Definition word64 (x : Z) : Prop := 0 <= x < 2 ^ 64.

Lemma lxor_word64 x y : word64 x -> word64 y -> word64 (Z.lxor x y).
Proof.
  intros Hx Hy. split; [apply Z.lxor_nonneg; unfold word64 in *; lia|]. destruct (Z.eq_dec (Z.lxor x y) 0) as [->|]; [lia|].
  assert (0 < Z.lxor x y) by (assert (0 <= Z.lxor x y) by (apply Z.lxor_nonneg; unfold word64 in *; lia); lia).
  apply Z.log2_lt_pow2; [done|]. pose proof (Z.log2_lxor x y ltac:(apply Hx) ltac:(apply Hy)).
  assert (forall v, word64 v -> Z.log2 v < 64) as Hl by (intros v [? ?]; destruct (Z.eq_dec v 0) as [->|]; [cbn; lia|apply Z.log2_lt_pow2; lia]).
  pose proof (Hl x Hx). pose proof (Hl y Hy). lia.
Qed.

(** [x ^ (x >> r)] determines [x], for [r] of at least half the width. *)
Lemma xorshift_inj r x y : 32 <= r -> word64 x -> word64 y -> Z.lxor x (Z.shiftr x r) = Z.lxor y (Z.shiftr y r) -> x = y.
Proof.
  intros Hr Hx Hy E. assert (forall v, word64 v -> Z.lxor (Z.lxor v (Z.shiftr v r)) (Z.shiftr (Z.lxor v (Z.shiftr v r)) r) = v) as Hback.
  { intros v Hv. rewrite Z.shiftr_lxor, Z.shiftr_shiftr by lia. assert (Z.shiftr v (r + r) = 0) as ->.
    { apply Z.shiftr_eq_0; [apply Hv|]. destruct (Z.eq_dec v 0) as [->|]; [cbn; lia|]. assert (Z.log2 v < 64) by (apply Z.log2_lt_pow2; unfold word64 in Hv; lia). lia. }
    by rewrite Z.lxor_0_r, Z.lxor_assoc, Z.lxor_nilpotent, Z.lxor_0_r. }
  by rewrite <- (Hback x Hx), E, Hback.
Qed.

Lemma xorshift_word r x : 0 <= r -> word64 x -> word64 (Z.lxor x (Z.shiftr x r)).
Proof.
  intros Hr Hx. apply lxor_word64; [done|]. rewrite Z.shiftr_div_pow2 by done. unfold word64 in *. split; [apply Z.div_pos; [lia|apply Z.pow_pos_nonneg; lia]|].
  eapply Z.le_lt_trans; [apply Z.div_le_upper_bound; [apply Z.pow_pos_nonneg; lia|]|apply Hx]. pose proof (Z.pow_pos_nonneg 2 r ltac:(lia) Hr). nia.
Qed.

(** Multiplication by an odd constant. *)
Lemma mul_inj x y : word64 x -> word64 y -> u64 (x * m64) = u64 (y * m64) -> x = y.
Proof.
  intros Hx Hy E. apply (f_equal (fun v => u64 (v * 0x5f7a0ea7e59b19bd))) in E. unfold u64 in E. rewrite !Zmult_mod_idemp_l, <- !Z.mul_assoc in E.
  assert (forall v, word64 v -> (v * (m64 * 0x5f7a0ea7e59b19bd)) mod 2 ^ 64 = v) as Hinv.
  { intros v Hv. rewrite <- Zmult_mod_idemp_r. change ((m64 * 0x5f7a0ea7e59b19bd) mod 2 ^ 64) with 1. by rewrite Z.mul_1_r, Z.mod_small. }
  by rewrite !Hinv in E.
Qed.

Lemma lxor_inj_l a x y : Z.lxor a x = Z.lxor a y -> x = y.
Proof. intros E. apply (f_equal (Z.lxor a)) in E. by rewrite <- !Z.lxor_assoc, Z.lxor_nilpotent, !Z.lxor_0_l in E. Qed.

Lemma lxor_inj_r a x y : Z.lxor x a = Z.lxor y a -> x = y.
Proof. rewrite !(Z.lxor_comm _ a). apply lxor_inj_l. Qed.

(** A step that loses nothing. *)
Definition invertible (g : Z -> Z) : Prop := (forall h, word64 h -> word64 (g h)) /\ forall h h', word64 h -> word64 h' -> g h = g h' -> h = h'.

Definition mix (k : Z) : Z := u64 (Z.lxor (u64 (k * m64)) (Z.shiftr (u64 (k * m64)) r64) * m64).
Definition absorb (k h : Z) : Z := u64 (Z.lxor h (mix k) * m64).
Definition finish (h : Z) : Z := Z.lxor (u64 (Z.lxor h (Z.shiftr h r64) * m64)) (Z.shiftr (u64 (Z.lxor h (Z.shiftr h r64) * m64)) r64).

#[local] Hint Resolve u64_range lxor_word64 : core.

Lemma mul_word x : word64 (u64 x).
Proof. apply u64_range. Qed.
#[local] Hint Resolve mul_word : core.

Lemma mul_invertible : invertible (fun h => u64 (h * m64)).
Proof. split; [auto|]. apply mul_inj. Qed.

Lemma xorshift_invertible : invertible (fun h => Z.lxor h (Z.shiftr h r64)).
Proof. split; [intros h Hh; apply xorshift_word; [done|done]|]. intros h h' Hh Hh'. by apply xorshift_inj. Qed.

Lemma lxor_invertible v : word64 v -> invertible (fun h => Z.lxor h v).
Proof. intros Hv. split; [auto|]. intros h h' _ _. apply lxor_inj_r. Qed.

Lemma compose_invertible f g : invertible f -> invertible g -> invertible (fun h => g (f h)).
Proof. intros [Wf If] [Wg Ig]. split; auto. Qed.

Lemma id_invertible : invertible (fun h => h).
Proof. split; auto. Qed.

Lemma mix_invertible : invertible mix.
Proof. exact (compose_invertible _ _ (compose_invertible _ _ mul_invertible xorshift_invertible) mul_invertible). Qed.

Lemma absorb_invertible k : word64 k -> invertible (absorb k).
Proof. intros Hk. exact (compose_invertible _ _ (lxor_invertible _ (proj1 mix_invertible k Hk)) mul_invertible). Qed.

Lemma absorb_key h : word64 h -> invertible (fun k => absorb k h).
Proof.
  intros Hh. assert (invertible (fun k => Z.lxor h k)) as Hx by (split; [auto|]; intros k k' _ _; apply lxor_inj_l).
  exact (compose_invertible _ _ (compose_invertible _ _ mix_invertible Hx) mul_invertible).
Qed.

Lemma finish_invertible : invertible finish.
Proof. exact (compose_invertible _ _ (compose_invertible _ _ xorshift_invertible mul_invertible) xorshift_invertible). Qed.

(** ** The loop *)

Lemma DecodeFixed64_any le w p : Forall byte w -> length w = 8%nat -> DecodeFixed64 le (w ++ p) = Some (le_value w) /\ word64 (le_value w).
Proof.
  intros Hw Hl. pose proof (le_value_word w Hw) as Hr. rewrite Hl in Hr. split; [|exact Hr].
  destruct w as [|b0 [|b1 [|b2 [|b3 [|b4 [|b5 [|b6 [|b7 [|? ?]]]]]]]]]; try done. cbn [app]. destruct le; [done|by apply DecodeFixed64_be].
Qed.

Lemma loop_block le fuel h w p : Forall byte w -> length w = 8%nat -> Hash64_loop le (S fuel) h (w ++ p) = Hash64_loop le fuel (absorb (le_value w) h) p.
Proof.
  intros Hw Hl. cbn [Hash64_loop]. rewrite (proj2 (Nat.leb_le 8 _)) by (rewrite length_app; lia). destruct (DecodeFixed64_any le w p Hw Hl) as [-> _]. cbn [mbind option_bind].
  by rewrite drop_app_length' by done.
Qed.

(** The bytes that are left. *)
Lemma tail_value n data h : 0 <= n -> Forall byte data -> tail n data h = Z.lxor h (Z.shiftl (le_value data) n).
Proof.
  intros Hn Hd. revert n Hn. induction Hd as [|b data Hb Hd IH]; intros n Hn; cbn [tail le_value]; [by rewrite Z.shiftl_0_l, Z.lxor_0_r|].
  rewrite IH by lia. rewrite Z.lxor_assoc. f_equal. unfold byte in Hb. assert (Z.land b 0xff = b) as -> by (change 0xff with (Z.ones 8); rewrite Z.land_ones by lia; apply Z.mod_small; lia).
  assert (b + 256 * le_value data = Z.lxor (Z.shiftl (le_value data) 8) b) as ->.
  { rewrite Z.shiftl_mul_pow2 by lia. rewrite <- Z.add_nocarry_lxor; [lia|]. apply Z.bits_inj'. intros i Hi. rewrite Z.land_spec, Z.bits_0, <- Z.shiftl_mul_pow2 by lia.
    destruct (Z.lt_ge_cases i 8); [by rewrite Z.shiftl_spec_low by lia|]. assert (Z.testbit b i = false) as ->; [|apply andb_false_r].
    destruct (Z.eq_dec b 0) as [->|]; [apply Z.bits_0|]. apply Z.bits_above_log2; [lia|]. assert (Z.log2 b < 8) by (apply Z.log2_lt_pow2; lia). lia. }
  rewrite Z.shiftl_lxor, Z.shiftl_shiftl by lia. f_equal. f_equal. lia.
Qed.

Definition last_bytes (data : list Z) (h : Z) : Z := match data with [] => h | _ => u64 (tail 0 data h * m64) end.

Lemma last_word data : Forall byte data -> (length data < 8)%nat -> word64 (le_value data).
Proof.
  intros Hd Hl. pose proof (le_value_word data Hd) as Hr. unfold word64. split; [lia|]. eapply Z.lt_le_trans; [apply Hr|]. change (2 ^ 64) with (256 ^ 8). apply Z.pow_le_mono_r; lia.
Qed.

Lemma last_run data h : Forall byte data -> data <> [] -> last_bytes data h = u64 (Z.lxor h (le_value data) * m64).
Proof. intros Hd Hn. destruct data as [|b data]; [done|]. unfold last_bytes. by rewrite tail_value, Z.shiftl_0_r. Qed.

Lemma last_invertible data : Forall byte data -> (length data < 8)%nat -> invertible (last_bytes data).
Proof.
  intros Hd Hl. destruct data as [|b data]; [apply id_invertible|]. pose proof (compose_invertible _ _ (lxor_invertible _ (last_word _ Hd Hl)) mul_invertible) as [Hw Hi].
  split; intros h; rewrite last_run by done; [apply Hw|]. intros h'. rewrite last_run by done. apply Hi.
Qed.

(** The rest of the computation from any point of the string. *)
Lemma rest_run n : forall z, length z = n -> Forall byte z -> exists g, invertible g /\ forall le fuel h, (length z < fuel)%nat ->
  ('(h, data) ← Hash64_loop le fuel h z; Some (last_bytes data h)) = Some (g h).
Proof.
  induction n as [n IH] using lt_wf_ind. intros z Hz Hb. destruct (Nat.le_gt_cases 8 n) as [H8|H8].
  - destruct (IH (n - 8)%nat ltac:(lia) (drop 8 z)) as (g & Hg & Hrun); [rewrite length_drop; lia|by apply Forall_drop|].
    assert (Forall byte (take 8 z) /\ length (take 8 z) = 8%nat) as [Hw Hl] by (split; [by apply Forall_take|rewrite length_take; lia]).
    exists (fun h => g (absorb (le_value (take 8 z)) h)). split; [apply compose_invertible; [|done]; apply absorb_invertible, (DecodeFixed64_any true _ [] Hw Hl)|].
    intros le fuel h Hf. destruct fuel as [|fuel]; [lia|]. rewrite <- (take_drop 8 z) at 1. rewrite loop_block by done. apply Hrun. rewrite length_drop. lia.
  - exists (last_bytes z). split; [by apply last_invertible; [|lia]|]. intros le fuel h Hf. destruct fuel as [|fuel]; [lia|]. cbn [Hash64_loop]. by rewrite (proj2 (Nat.leb_gt 8 _)) by lia.
Qed.

Lemma prefix_run i : forall a, length a = (8 * i)%nat -> Forall byte a -> exists g, invertible g /\ forall le fuel h p, Hash64_loop le (i + fuel) h (a ++ p) = Hash64_loop le fuel (g h) p.
Proof.
  induction i as [|i IH]; intros a Ha Hb; [destruct a; [|done]; exists (fun h => h); split; [apply id_invertible|done]|].
  destruct (IH (drop 8 a)) as (g & Hg & Hrun); [rewrite length_drop; lia|by apply Forall_drop|].
  assert (Forall byte (take 8 a) /\ length (take 8 a) = 8%nat) as [Hw Hl] by (split; [by apply Forall_take|rewrite length_take; lia]).
  exists (fun h => g (absorb (le_value (take 8 a)) h)). split; [apply compose_invertible; [|done]; apply absorb_invertible, (DecodeFixed64_any true _ [] Hw Hl)|].
  intros le fuel h p. rewrite <- (take_drop 8 a) at 1. rewrite <- app_assoc. cbn [Nat.add]. by rewrite loop_block.
Qed.

Lemma Hash64_unfold le data seed : Hash64 le data seed =
  (h ← ('(h, data) ← Hash64_loop le (S (length data)) (Z.lxor seed (u64 (Z.of_nat (length data) * m64))) data; Some (last_bytes data h)); Some (finish h)).
Proof. unfold Hash64. by destruct (Hash64_loop le (S (length data)) _ data) as [[h [|b d]]|]. Qed.

Lemma Hash64_total le data seed : Forall byte data -> exists v, Hash64 le data seed = Some v.
Proof. intros Hb. destruct (rest_run _ data eq_refl Hb) as (g & _ & Hg). rewrite Hash64_unfold, Hg by lia. by eexists. Qed.

(** A block in the middle, or the last bytes. *)
Lemma block_run i a w w' z : length a = (8 * i)%nat -> length w = length w' -> length w = 8%nat \/ (length w < 8)%nat /\ z = [] ->
  Forall byte (a ++ w ++ z) -> Forall byte w' -> w <> w' -> forall h, word64 h ->
  exists v v', v <> v' /\ word64 v /\ word64 v' /\ forall le fuel, (length (w ++ z) < fuel)%nat ->
    ('(h, data) ← Hash64_loop le (i + fuel) h (a ++ w ++ z); Some (last_bytes data h)) = Some v
    /\ ('(h, data) ← Hash64_loop le (i + fuel) h (a ++ w' ++ z); Some (last_bytes data h)) = Some v'.
Proof.
  intros Ha El Hc Hb Hw' Hne h Hh. apply Forall_app in Hb as [Hba Hb]. apply Forall_app in Hb as [Hw Hz].
  destruct (prefix_run i a Ha Hba) as (g & [Wg _] & Hg). pose proof (Wg h Hh) as Hh'. destruct Hc as [H8|[Hlt ->]].
  - destruct (rest_run _ z eq_refl Hz) as (f & [Wf If] & Hf). destruct (absorb_key (g h) Hh') as [Wk Ik].
    destruct (DecodeFixed64_any true w [] Hw H8) as [_ V]. destruct (DecodeFixed64_any true w' [] Hw' ltac:(lia)) as [_ V'].
    exists (f (absorb (le_value w) (g h))), (f (absorb (le_value w') (g h))). split_and!; [|auto|auto|].
    + intros E. apply Hne. apply le_value_inj; [done..|]. apply Ik; [done|done|]. by apply If; [auto|auto|].
    + intros le fuel Hfuel. rewrite !Hg. destruct fuel as [|fuel]; [lia|]. rewrite !length_app in Hfuel. rewrite !loop_block by (done || lia). split; apply Hf; lia.
  - rewrite !app_nil_r. assert (w <> [] /\ w' <> []) as [Hn Hn'] by (destruct w, w'; done).
    exists (last_bytes w (g h)), (last_bytes w' (g h)). pose proof (last_word w Hw Hlt) as V. pose proof (last_word w' Hw' ltac:(lia)) as V'. rewrite !last_run by done. split_and!; [|auto|auto|].
    + intros E. apply Hne. apply le_value_inj; [done..|]. apply mul_inj in E; [|auto|auto]. by apply lxor_inj_l in E.
    + intros le fuel Hfuel. rewrite !Hg. destruct fuel as [|fuel]; [lia|]. cbn [Hash64_loop]. rewrite !(proj2 (Nat.leb_gt 8 _)) by lia. by rewrite <- !last_run by done.
Qed.

(** ** The theorem *)

(** C40: hashing. [Hash64] returns a 64-bit value that does not depend on the byte order of the
    host.  Two strings of the same length that differ only inside one aligned block of eight
    bytes, or only in the bytes after the last such block, never collide; nor does one string
    hashed with two different seeds. *)
Theorem hash64_separates data seed : Forall byte data -> word64 seed ->
  (exists v, word64 v /\ forall le, Hash64 le data seed = Some v)
  /\ (forall le seed', word64 seed' -> Hash64 le data seed = Hash64 le data seed' -> seed = seed')
  /\ (forall le i a w w' z, data = a ++ w ++ z -> length a = (8 * i)%nat -> length w = length w' ->
        length w = 8%nat \/ (length w < 8)%nat /\ z = [] -> Forall byte w' -> w <> w' ->
        Hash64 le (a ++ w' ++ z) seed <> Hash64 le data seed).
Proof.
  intros Hb Hs. destruct (rest_run _ data eq_refl Hb) as (g & [Wg Ig] & Hg). destruct finish_invertible as [Wf If].
  assert (forall le s, Hash64 le data s = Some (finish (g (Z.lxor s (u64 (Z.of_nat (length data) * m64)))))) as Hrun.
  { intros le s. rewrite Hash64_unfold, Hg by lia. done. }
  split_and!.
  - eexists. split; [|intros le; apply Hrun]. auto.
  - intros le s' Hs' E. rewrite !Hrun in E. apply (inj Some) in E. apply If in E; [|auto..]. apply Ig in E; [|auto..]. by apply lxor_inj_r in E.
  - intros le i a w w' z -> Ha El Hc Hw' Hne E.
    assert (length (a ++ w' ++ z) = length (a ++ w ++ z)) as Elen by (rewrite !length_app; lia). rewrite !Hash64_unfold, Elen in E.
    set (h := Z.lxor seed _) in E. destruct (block_run i a w w' z Ha El Hc Hb Hw' Hne h ltac:(unfold h; auto)) as (v & v' & Hvv & V & V' & Hblock).
    destruct (Hblock le (S (length (a ++ w ++ z)) - i)%nat) as [E1 E2]; [rewrite !length_app; lia|].
    replace (i + (S (length (a ++ w ++ z)) - i))%nat with (S (length (a ++ w ++ z))) in E1, E2 by (rewrite !length_app; lia).
    rewrite E1, E2 in E. cbn [mbind option_bind] in E. apply (inj Some) in E. apply If in E; [congruence|done|done].
Qed.

Lemma hash64_separates_witness : Hash64 true ([1; 2; 3; 4; 5; 6; 7; 8] ++ [10] ++ []) 0xDECAFCAFFE <> Hash64 true [1; 2; 3; 4; 5; 6; 7; 8; 9] 0xDECAFCAFFE.
Proof.
  refine (proj2 (proj2 (hash64_separates [1; 2; 3; 4; 5; 6; 7; 8; 9] 0xDECAFCAFFE _ _)) true 1%nat [1; 2; 3; 4; 5; 6; 7; 8] [9] [10] [] eq_refl eq_refl eq_refl _ _ _);
    [repeat constructor; lia|split; lia|right; split; [cbn; lia|reflexivity]|repeat constructor; lia|discriminate].
Defined.
