(* ===== verification/Cancellation.v ===== *)
(** * Cancellation

    [core/framework/cancellation.cc]: tokens, callbacks, and the flags that say whether the
    callbacks are running or have run.  Each definition is one critical section of the mutex
    [mu_]; between two of them other threads may run.  [CancelCallback], a closure, is a type of
    the client. *)

From S2P Require Import Prelude.

Module Cancellation.

Definition kInvalidToken : Z := -1.

Section manager.
Context {CancelCallback : Type}.

Record CancellationManager := mkManager {
  is_cancelling_ : bool;
  is_cancelled_ : bool;
  cancelled_notification_ : bool;
  next_cancellation_token_ : Z;
  callbacks_ : gmap Z CancelCallback
}.

Definition CancellationManager_new : CancellationManager := mkManager false false false 0 ∅.

(** [StartCancel] up to the calls: the callbacks to run, or [None] if it has been called. *)
Definition StartCancel_begin (m : CancellationManager) : option (gmap Z CancelCallback * CancellationManager) :=
  if is_cancelled_ m || is_cancelling_ m then None
  else Some (callbacks_ m, mkManager true (is_cancelled_ m) (cancelled_notification_ m) (next_cancellation_token_ m) ∅).

(** After the calls. *)
Definition StartCancel_end (m : CancellationManager) : CancellationManager :=
  mkManager false true (cancelled_notification_ m) (next_cancellation_token_ m) (callbacks_ m).

(** [cancelled_notification_.Notify()]. *)
Definition StartCancel_notify (m : CancellationManager) : CancellationManager :=
  mkManager (is_cancelling_ m) (is_cancelled_ m) true (next_cancellation_token_ m) (callbacks_ m).

Definition IsCancelled (m : CancellationManager) : bool := is_cancelled_ m.

Definition get_cancellation_token (m : CancellationManager) : Z * CancellationManager :=
  (next_cancellation_token_ m,
   mkManager (is_cancelling_ m) (is_cancelled_ m) (cancelled_notification_ m) (next_cancellation_token_ m + 1) (callbacks_ m)).

Definition with_callbacks (callbacks : gmap Z CancelCallback) (m : CancellationManager) : CancellationManager :=
  mkManager (is_cancelling_ m) (is_cancelled_ m) (cancelled_notification_ m) (next_cancellation_token_ m) callbacks.

(** [None]: the [CHECK_LT] fails. *)
Definition RegisterCallback (token : Z) (callback : CancelCallback) (m : CancellationManager) : option (bool * CancellationManager) :=
  if token <? next_cancellation_token_ m then
    let should_register := negb (is_cancelled_ m) && negb (is_cancelling_ m) in
    Some (should_register, if should_register then with_callbacks (<[token := callback]> (callbacks_ m)) m else m)
  else None.

(** The result, or [None] if the caller has to wait for the notification. *)
Definition DeregisterCallback (token : Z) (m : CancellationManager) : option bool * CancellationManager :=
  if is_cancelled_ m then (Some false, m)
  else if is_cancelling_ m then (None, m)
  else (Some true, with_callbacks (delete token (callbacks_ m)) m).

Definition TryDeregisterCallback (token : Z) (m : CancellationManager) : bool * CancellationManager :=
  if is_cancelled_ m || is_cancelling_ m then (false, m)
  else (true, with_callbacks (delete token (callbacks_ m)) m).

End manager.
End Cancellation.
