(* ===== verification/FifoQueue.v ===== *)
(** * Queues of tensors: the model

    [core/kernels/queue_base.cc], [fifo_queue.cc], [typed_queue.h] and the kernels of
    [queue_op.cc]: a bounded queue whose elements are tuples of tensors, one deque for each
    component, with attempts to enqueue, to dequeue and to close that wait in two deques.

    Threads are lists of actions, an action being what the code does in one critical section of
    the mutex [mu_] of the queue or of a cancellation manager, or the call of a closure.  The
    callback of a manager is registered inside a critical section of [mu_], which it does not
    leave.  The closures that an attempt captures are data ([RunCallback], [DoneCallback]).

    The values of a tensor are of an arbitrary type; those of a new tensor are [junk].  Shapes
    are lists of sizes, as in [TensorShapeSpec].  The n-th allocation succeeds if [allocates n]. *)

From S2P Require Import Prelude Cancellation.
Import Cancellation.

Module FifoQueue.

Definition kUnbounded : Z := 2 ^ 31 - 1.
Definition kMaxDimensions : Z := 254.

(** The types that [batch_util] can copy: all but [DT_QINT16], [DT_QUINT16] and references. *)
Definition handled (dt : Z) : bool := (1 <=? dt) && (dt <=? 23) && negb (dt =? 15) && negb (dt =? 16).

Definition num_elements (dims : list Z) : Z := foldr Z.mul 1 dims.

Inductive Action := kEnqueue | kDequeue.
Inductive RunResult := kNoProgress | kProgress | kComplete.

(** An operation and the cancellation manager of its step. *)
Record Context := mkContext { op_id : nat; cancellation_manager : nat }.

(** What a callback that is registered with a manager captures. *)
Record CancelClosure := mkClosure { closure_action : Action; closure_manager : nat; closure_token : Z }.
Abbreviation Manager := (@CancellationManager CancelClosure).

Record Config := mkConfig { capacity_ : Z; component_dtypes_ : list Z; component_shapes_ : list (list Z) }.

(** [QueueOp::QueueOp]. *)
Definition QueueOp_capacity (capacity : Z) : Z := if capacity <? 0 then kUnbounded else capacity.

Section queue.
Context {V : Type} (junk : V) (AllocatedBytes : list V -> Z).
Context (cfg : Config) (allocates : nat -> bool).

Record Tensor := mkTensor { dtype : Z; shape : list Z; values : list V }.
Abbreviation Tuple := (list Tensor).

Definition no_tensor : Tensor := mkTensor 1 [0] [].
Definition NumElements (t : Tensor) : Z := num_elements (shape t).
Definition num_components : nat := length (component_dtypes_ cfg).
Definition specified_shapes : bool := (0 <? length (component_shapes_ cfg))%nat.

(** ** State *)

(** [callback()], or [callback(tuple)] in a kernel with outputs. *)
Inductive DoneCallback := Plain (ctx : Context) | WithTuple (ctx : Context) (tuple : Tuple).

Inductive RunCallback :=
| RunEnqueue (tuple : Tuple)
| RunEnqueueMany (tuple : Tuple)
| RunDequeue
| RunDequeueMany (allow_small_batch : bool)
| RunClose.

(** The manager of an attempt to close is null; a callback that was moved away is [None]. *)
Record Attempt := mkAttempt {
  elements_requested : Z;
  done_callback : option DoneCallback;
  context : Context;
  attempt_manager : option nat;
  cancellation_token : Z;
  run_callback : RunCallback;
  is_cancelled : bool;
  attempt_tuple : Tuple
}.

Definition with_requested (r : Z) (a : Attempt) : Attempt := mkAttempt r (done_callback a) (context a) (attempt_manager a) (cancellation_token a) (run_callback a) (is_cancelled a) (attempt_tuple a).
Definition with_done (d : option DoneCallback) (a : Attempt) : Attempt := mkAttempt (elements_requested a) d (context a) (attempt_manager a) (cancellation_token a) (run_callback a) (is_cancelled a) (attempt_tuple a).
Definition with_tuple (t : Tuple) (a : Attempt) : Attempt := mkAttempt (elements_requested a) (done_callback a) (context a) (attempt_manager a) (cancellation_token a) (run_callback a) (is_cancelled a) t.
(** Cancelled, without its callback. *)
Definition cancel_attempt (a : Attempt) : Attempt := mkAttempt (elements_requested a) None (context a) (attempt_manager a) (cancellation_token a) (run_callback a) true (attempt_tuple a).

Record CleanUp := mkCleanUp { finished : DoneCallback; to_deregister : Z; cm : nat }.

Inductive event :=
| EDone (id : nat) (st : Status) (tuple : Tuple)
| ESize (id : nat) (n : Z)
| EIsClosed (id : nat) (b : bool).

(** [statuses]: those of the contexts, [OK] at first; [allocs]: how many allocations there were. *)
Record shared := mkShared {
  queues_ : list (list Tensor);
  closed_ : bool;
  enqueue_attempts_ : list Attempt;
  dequeue_attempts_ : list Attempt;
  managers : list Manager;
  statuses : gmap nat Status;
  allocs : nat;
  log : list event
}.

Abbreviation MQ := (M shared).

Definition set_queues (q : list (list Tensor)) (s : shared) : shared := mkShared q (closed_ s) (enqueue_attempts_ s) (dequeue_attempts_ s) (managers s) (statuses s) (allocs s) (log s).
Definition set_closed (s : shared) : shared := mkShared (queues_ s) true (enqueue_attempts_ s) (dequeue_attempts_ s) (managers s) (statuses s) (allocs s) (log s).
Definition set_attempts (action : Action) (l : list Attempt) (s : shared) : shared :=
  match action with
  | kEnqueue => mkShared (queues_ s) (closed_ s) l (dequeue_attempts_ s) (managers s) (statuses s) (allocs s) (log s)
  | kDequeue => mkShared (queues_ s) (closed_ s) (enqueue_attempts_ s) l (managers s) (statuses s) (allocs s) (log s)
  end.
Definition attempts (action : Action) (s : shared) : list Attempt := match action with kEnqueue => enqueue_attempts_ s | kDequeue => dequeue_attempts_ s end.
Definition set_manager (c : nat) (m : Manager) (s : shared) : shared := mkShared (queues_ s) (closed_ s) (enqueue_attempts_ s) (dequeue_attempts_ s) (<[c:=m]> (managers s)) (statuses s) (allocs s) (log s).
Definition emit (e : event) (s : shared) : shared := mkShared (queues_ s) (closed_ s) (enqueue_attempts_ s) (dequeue_attempts_ s) (managers s) (statuses s) (allocs s) (log s ++ [e]).

(** [OpKernelContext::status] and [SetStatus], which keeps the first error. *)
Definition status_of (id : nat) (s : shared) : Status := default OK (statuses s !! id).
Definition update_status (id : nat) (st : Status) (s : shared) : shared :=
  match st with
  | Ok _ => s
  | Err _ => if ok (status_of id s) then mkShared (queues_ s) (closed_ s) (enqueue_attempts_ s) (dequeue_attempts_ s) (managers s) (<[id:=st]> (statuses s)) (allocs s) (log s) else s
  end.
Definition SetStatus (ctx : Context) (st : Status) : MQ unit := modify (update_status (op_id ctx) st).
Definition status_ok (ctx : Context) : MQ bool := gets (fun s => ok (status_of (op_id ctx) s)).

(** [allocate_temp] and [allocate_persistent]. *)
Definition allocate (dt : Z) (dims : list Z) : MQ (result Tensor) :=
  s ← get;
  put (mkShared (queues_ s) (closed_ s) (enqueue_attempts_ s) (dequeue_attempts_ s) (managers s) (statuses s) (S (allocs s)) (log s));;
  mret (if allocates (allocs s) then Ok (mkTensor dt dims (replicate (Z.to_nat (num_elements dims)) junk)) else Err RESOURCE_EXHAUSTED).

(** ** Slices ([batch_util.cc]) *)

Definition dim0 (t : Tensor) : MQ Z := match shape t with n :: _ => mret n | [] => crash end.

Definition ValidateInput (parent element : Tensor) (index : Z) : MQ Status :=
  n ← dim0 parent;
  CHECK (negb (n =? 0));;
  CHECK (0 <=? index);;
  mret (if NumElements element =? NumElements parent / n then OK else Err INTERNAL).

(** A slice outside the parent is an access out of range. *)
Definition CopySliceToElement (parent element : Tensor) (index : Z) : MQ (result Tensor) :=
  st ← ValidateInput parent element index;
  match st with
  | Err c => mret (Err c)
  | Ok _ =>
      if handled (dtype parent) then
        n ← dim0 parent;
        CHECK (index <? n);;
        let k := Z.to_nat (NumElements element) in
        mret (Ok (mkTensor (dtype element) (shape element) (take k (drop (Z.to_nat index * k) (values parent)))))
      else mret (Err UNIMPLEMENTED)
  end.

Definition CopyElementToSlice (element parent : Tensor) (index : Z) : MQ (result Tensor) :=
  st ← ValidateInput parent element index;
  match st with
  | Err c => mret (Err c)
  | Ok _ =>
      if handled (dtype element) then
        n ← dim0 parent;
        CHECK (index <? n);;
        let k := Z.to_nat (NumElements element) in
        mret (Ok (mkTensor (dtype parent) (shape parent)
          (take (Z.to_nat index * k) (values parent) ++ take k (values element) ++ drop (Z.to_nat index * k + k) (values parent))))
      else mret (Err UNIMPLEMENTED)
  end.

Definition GetElementComponentFromBatch (tuple : Tuple) (index : Z) (component : nat) : MQ (result Tensor) :=
  t ← of_option (tuple !! component);
  _ ← dim0 t;
  r ← allocate (dtype t) (tail (shape t));
  match r with
  | Err c => mret (Err c)
  | Ok element_access => CopySliceToElement t element_access index
  end.

(** ** Validation *)

Definition ManyOutShape (i : nat) (batch_size : Z) : MQ (list Z) :=
  s ← of_option (component_shapes_ cfg !! i);
  CHECK ((num_elements (batch_size :: s) <? 2 ^ 63) && (Z.of_nat (length (batch_size :: s)) <=? kMaxDimensions));;
  mret (batch_size :: s).

Definition ValidateTupleCommon (tuple : Tuple) : Status :=
  if bool_decide (map dtype tuple = component_dtypes_ cfg) then OK else Err INVALID_ARGUMENT.

Definition ValidateTuple (tuple : Tuple) : Status :=
  _ ← ValidateTupleCommon tuple;
  if specified_shapes then if bool_decide (map shape tuple = component_shapes_ cfg) then OK else Err INVALID_ARGUMENT else OK.

Fixpoint validate_many_shapes (i : nat) (batch_size : Z) (tuple : Tuple) : MQ Status :=
  match tuple with
  | [] => mret OK
  | t :: tuple =>
      expected_shape ← ManyOutShape i batch_size;
      if bool_decide (expected_shape = shape t) then validate_many_shapes (S i) batch_size tuple else mret (Err INVALID_ARGUMENT)
  end.

Fixpoint validate_many_sizes (batch_size : Z) (tuple : Tuple) : MQ Status :=
  match tuple with
  | [] => mret OK
  | t :: tuple => n ← dim0 t; if n =? batch_size then validate_many_sizes batch_size tuple else mret (Err INVALID_ARGUMENT)
  end.

Definition ValidateManyTuple (tuple : Tuple) : MQ Status :=
  match ValidateTupleCommon tuple with
  | Err c => mret (Err c)
  | Ok _ =>
      t ← of_option (tuple !! 0%nat);
      batch_size ← dim0 t;
      if specified_shapes then validate_many_shapes 0 batch_size tuple else validate_many_sizes batch_size (tail tuple)
  end.

(** ** The deques of the components *)

Definition queue_size : MQ Z := s ← get; q ← of_option (queues_ s !! 0%nat); mret (Z.of_nat (length q)).
Definition change_queue (i : nat) (f : list Tensor -> option (list Tensor)) : MQ unit :=
  s ← get; q ← of_option (queues_ s !! i); q ← of_option (f q); put (set_queues (<[i:=q]> (queues_ s)) s).
Definition push_back (i : nat) (t : Tensor) : MQ unit := change_queue i (fun q => Some (q ++ [t])).
Definition push_front (i : nat) (t : Tensor) : MQ unit := change_queue i (fun q => Some (t :: q)).

(** [queues_[i][0]], removed. *)
Definition pop_front (i : nat) : MQ Tensor :=
  s ← get; q ← of_option (queues_ s !! i);
  match q with t :: q => put (set_queues (<[i:=q]> (queues_ s)) s);; mret t | [] => crash end.

(** The components [i], ..., [i + n - 1] of the first element. *)
Fixpoint pop_components (i n : nat) : MQ Tuple :=
  match n with O => mret [] | S n => t ← pop_front i; rest ← pop_components (S i) n; mret (t :: rest) end.

Definition DequeueLocked : MQ Tuple := k ← queue_size; CHECK (0 <? k);; pop_components 0 num_components.

Fixpoint push_components (tuple : Tuple) (i n : nat) : MQ unit :=
  match n with O => mret tt | S n => t ← of_option (tuple !! i); push_back i t;; push_components tuple (S i) n end.

(** ** The callbacks of the attempts *)

Definition size_t_capacity : Z := u64 (capacity_ cfg).

Definition run_enqueue (tuple : Tuple) (a : Attempt) : MQ (RunResult * Attempt) :=
  closed ← gets closed_;
  if closed : bool then SetStatus (context a) (Err CANCELLED);; mret (kComplete, a)
  else
    k ← queue_size;
    if k <? size_t_capacity then push_components tuple 0 num_components;; mret (kComplete, a) else mret (kNoProgress, a).

(** One element of the batch; [false] after an error. *)
Fixpoint enqueue_slice (tuple : Tuple) (index : Z) (ctx : Context) (i n : nat) : MQ bool :=
  match n with
  | O => mret true
  | S n =>
      r ← GetElementComponentFromBatch tuple index i;
      SetStatus ctx (_ ← r; OK);;
      b ← status_ok ctx;
      match r with
      | Ok element => if b : bool then push_back i element;; enqueue_slice tuple index ctx (S i) n else mret false
      | Err _ => mret false
      end
  end.

Fixpoint enqueue_many_loop (fuel : nat) (tuple : Tuple) (result : RunResult) (a : Attempt) : MQ (RunResult * Attempt) :=
  match fuel with
  | O => nofuel
  | S fuel =>
      k ← queue_size;
      if k <? size_t_capacity then
        t ← of_option (tuple !! 0%nat);
        n ← dim0 t;
        b ← enqueue_slice tuple (n - elements_requested a) (context a) 0 num_components;
        if b : bool then
          let a := with_requested (elements_requested a - 1) a in
          if elements_requested a =? 0 then mret (kComplete, a) else enqueue_many_loop fuel tuple kProgress a
        else mret (kComplete, a)
      else mret (result, a)
  end.

Definition run_enqueue_many (tuple : Tuple) (a : Attempt) : MQ (RunResult * Attempt) :=
  closed ← gets closed_;
  if closed : bool then SetStatus (context a) (Err CANCELLED);; mret (kComplete, a)
  else enqueue_many_loop (S (Z.to_nat (elements_requested a))) tuple kNoProgress a.

Definition run_dequeue (a : Attempt) : MQ (RunResult * Attempt) :=
  k ← queue_size;
  closed ← gets closed_;
  if closed && (k =? 0) then SetStatus (context a) (Err OUT_OF_RANGE);; mret (kComplete, a)
  else if 0 <? k then tuple ← DequeueLocked; mret (kComplete, with_done (Some (WithTuple (context a) tuple)) a)
  else mret (kNoProgress, a).

(** Elements that a batch holds go back to the front: slice [i - 1], ..., slice 0. *)
Fixpoint restore_components (tuple : Tuple) (index : Z) (ctx : Context) (j n : nat) : MQ unit :=
  match n with
  | O => mret tt
  | S n =>
      r ← GetElementComponentFromBatch tuple index j;
      match r with
      | Ok element => push_front j element
      | Err _ => SetStatus ctx (Err DATA_LOSS);; push_front j no_tensor
      end;;
      restore_components tuple index ctx (S j) n
  end.

Fixpoint restore (tuple : Tuple) (ctx : Context) (i : nat) : MQ unit :=
  match i with O => mret tt | S i => restore_components tuple (Z.of_nat i) ctx 0 num_components;; restore tuple ctx i end.

(** The tensors of a batch: the tuple so far; [false] after an error. *)
Fixpoint allocate_batch (batch_size : Z) (ctx : Context) (tuple : Tuple) (i n : nat) : MQ (bool * Tuple) :=
  match n with
  | O => mret (true, tuple)
  | S n =>
      dims ← ManyOutShape i batch_size;
      dt ← of_option (component_dtypes_ cfg !! i);
      r ← allocate dt dims;
      SetStatus ctx (_ ← r; OK);;
      b ← status_ok ctx;
      match r with
      | Ok element => if b : bool then allocate_batch batch_size ctx (tuple ++ [element]) (S i) n else mret (false, tuple)
      | Err _ => mret (false, tuple)
      end
  end.

(** One element into the slice [index] of the batch. *)
Fixpoint copy_components (element : Tuple) (index : Z) (ctx : Context) (tuple : Tuple) (i n : nat) : MQ (bool * Tuple) :=
  match n with
  | O => mret (true, tuple)
  | S n =>
      t ← of_option (element !! i);
      parent ← of_option (tuple !! i);
      r ← CopyElementToSlice t parent index;
      SetStatus ctx (_ ← r; OK);;
      b ← status_ok ctx;
      match r with
      | Ok parent => if b : bool then copy_components element index ctx (<[i:=parent]> tuple) (S i) n else mret (false, <[i:=parent]> tuple)
      | Err _ => mret (false, tuple)
      end
  end.

Fixpoint dequeue_many_loop (queue_size : nat) (result : RunResult) (a : Attempt) : MQ (RunResult * Attempt) :=
  match queue_size with
  | O => mret (result, a)
  | S queue_size =>
      '(b, batch) ← match attempt_tuple a with [] => allocate_batch (elements_requested a) (context a) [] 0 num_components | t => mret (true, t) end;
      let a := with_tuple batch a in
      if negb b then mret (kComplete, a)
      else
        tuple ← DequeueLocked;
        t ← of_option (batch !! 0%nat);
        n ← dim0 t;
        '(b, batch) ← copy_components tuple (n - elements_requested a) (context a) batch 0 num_components;
        let a := with_tuple batch a in
        if negb b then mret (kComplete, a)
        else
          let a := with_requested (elements_requested a - 1) a in
          if elements_requested a =? 0 then mret (kComplete, with_done (Some (WithTuple (context a) batch)) a)
          else dequeue_many_loop queue_size kProgress a
  end.

Definition run_dequeue_many (allow_small_batch : bool) (a : Attempt) : MQ (RunResult * Attempt) :=
  k ← queue_size;
  closed ← gets closed_;
  if closed && (k <? elements_requested a) then
    match attempt_tuple a with
    | [] => mret tt
    | t :: _ => n ← dim0 t; restore (attempt_tuple a) (context a) (Z.to_nat (n - elements_requested a))
    end;;
    k' ← queue_size;
    if allow_small_batch && negb (k' =? 0) then dequeue_many_loop (Z.to_nat k') kNoProgress (with_requested (i32 k') (with_tuple [] a))
    else
      waiting ← gets enqueue_attempts_;
      if allow_small_batch && match waiting with [] => false | _ => true end then mret (kProgress, a)
      else
        b ← status_ok (context a);
        (if b : bool then SetStatus (context a) (Err OUT_OF_RANGE) else mret tt);;
        mret (kComplete, a)
  else dequeue_many_loop (Z.to_nat k) kNoProgress a.

Definition run_close (a : Attempt) : MQ (RunResult * Attempt) :=
  closed ← gets closed_;
  (if closed : bool then SetStatus (context a) (Err CANCELLED) else modify set_closed);;
  mret (kComplete, a).

Definition run_attempt (a : Attempt) : MQ (RunResult * Attempt) :=
  match run_callback a with
  | RunEnqueue tuple => run_enqueue tuple a
  | RunEnqueueMany tuple => run_enqueue_many tuple a
  | RunDequeue => run_dequeue a
  | RunDequeueMany small => run_dequeue_many small a
  | RunClose => run_close a
  end.

(** ** Flushing *)

(** The loop over a deque of attempts: each round removes the first one or is the last. *)
Fixpoint try_attempts (action : Action) (l : list Attempt) (progress : bool) (clean_up : list CleanUp) : MQ (bool * list CleanUp) :=
  match l with
  | [] => mret (progress, clean_up)
  | front :: rest =>
      if is_cancelled front then modify (set_attempts action rest);; try_attempts action rest progress clean_up
      else
        '(result, front) ← run_attempt front;
        match result with
        | kNoProgress => modify (set_attempts action (front :: rest));; mret (progress, clean_up)
        | kProgress => modify (set_attempts action (front :: rest));; mret (true, clean_up)
        | kComplete =>
            done ← of_option (done_callback front);
            modify (set_attempts action rest);;
            try_attempts action rest true (clean_up ++ [mkCleanUp done (cancellation_token front) (cancellation_manager (context front))])
        end
  end.

Definition TryAttemptLocked (action : Action) (clean_up : list CleanUp) : MQ (bool * list CleanUp) :=
  l ← gets (attempts action); try_attempts action l false clean_up.

Fixpoint flush_loop (fuel : nat) (clean_up : list CleanUp) : MQ (list CleanUp) :=
  match fuel with
  | O => nofuel
  | S fuel =>
      '(changed, clean_up) ← TryAttemptLocked kEnqueue clean_up;
      '(changed', clean_up) ← TryAttemptLocked kDequeue clean_up;
      if changed' || changed then flush_loop fuel clean_up else mret clean_up
  end.

(** Each round but the last completes an attempt or moves an element that one asks for. *)
Definition work (l : list Attempt) : nat := sum_list_with (fun a => S (Z.to_nat (elements_requested a))) l.
Definition flush_fuel (s : shared) : nat := S (work (enqueue_attempts_ s) + work (dequeue_attempts_ s)).

(** ** Actions *)

Inductive action :=
| AEnqueue (ctx : Context) (tuple : Tuple)
| AEnqueueMany (ctx : Context) (tuple : Tuple)
| ADequeue (ctx : Context)
| ADequeueMany (ctx : Context) (num : Z) (allow_small_batch : bool)
| AClose (ctx : Context) (cancel_pending_enqueues : bool)
| ASize (ctx : Context)
| AIsClosed (ctx : Context)
| ARegister (act : Action) (a : Attempt)
| ACloseAndCancel
| AFlush
| ACancel (act : Action) (c : nat) (token : Z)
| ACall (callback : DoneCallback)
| ADeregister (c : nat) (token : Z)
| AWaitCancelled (c : nat)
| AStartCancel (c : nat)
| AFinishCancel (c : nat)
| ANotify (c : nat).

(** The actions that a thread does next in place of the one it did; [None]: it has to wait. *)
Abbreviation next := (MQ (option (list action))).

Definition manager_at (c : nat) : MQ Manager := s ← get; of_option (managers s !! c).

(** [OP_REQUIRES_OK_ASYNC]. *)
Definition fail (ctx : Context) (st : Status) (callback : DoneCallback) : next := SetStatus ctx st;; mret (Some [ACall callback]).

(** A new attempt, with a token from the manager. *)
Definition attempt (act : Action) (requested : Z) (callback : DoneCallback) (ctx : Context) (run : RunCallback) : next :=
  m ← manager_at (cancellation_manager ctx);
  let '(token, m) := get_cancellation_token m in
  modify (set_manager (cancellation_manager ctx) m);;
  mret (Some [ARegister act (mkAttempt (i32 requested) (Some callback) ctx (Some (cancellation_manager ctx)) token run false [])]).

(** [EnqueueOp] and [TryEnqueue]. *)
Definition TryEnqueue (ctx : Context) (tuple : Tuple) : next := attempt kEnqueue 1 (Plain ctx) ctx (RunEnqueue tuple).
Definition EnqueueOp (ctx : Context) (tuple : Tuple) : next :=
  match ValidateTuple tuple with Err c => fail ctx (Err c) (Plain ctx) | Ok _ => TryEnqueue ctx tuple end.

(** [EnqueueManyOp] and [TryEnqueueMany]. *)
Definition TryEnqueueMany (ctx : Context) (tuple : Tuple) : next :=
  t ← of_option (tuple !! 0%nat);
  batch_size ← dim0 t;
  if batch_size =? 0 then mret (Some [ACall (Plain ctx)]) else attempt kEnqueue batch_size (Plain ctx) ctx (RunEnqueueMany tuple).
Definition EnqueueManyOp (ctx : Context) (tuple : Tuple) : next :=
  st ← ValidateManyTuple tuple;
  match st with Err c => fail ctx (Err c) (Plain ctx) | Ok _ => TryEnqueueMany ctx tuple end.

(** [TryDequeue], which [DequeueOp] calls. *)
Definition TryDequeue (ctx : Context) : next := attempt kDequeue 1 (WithTuple ctx []) ctx RunDequeue.

(** [DequeueManyOp] and [DequeueUpToOp], and [TryDequeueMany]. *)
Definition TryDequeueMany (ctx : Context) (num : Z) (allow_small_batch : bool) : next :=
  if negb specified_shapes then fail ctx (Err INVALID_ARGUMENT) (WithTuple ctx [])
  else if num =? 0 then
    '(b, batch) ← allocate_batch 0 ctx [] 0 num_components;
    mret (Some [ACall (WithTuple ctx (if b : bool then batch else []))])
  else attempt kDequeue num (WithTuple ctx []) ctx (RunDequeueMany allow_small_batch).
Definition DequeueManyOp (ctx : Context) (num : Z) (allow_small_batch : bool) : next :=
  if num <? 0 then fail ctx (Err INVALID_ARGUMENT) (Plain ctx) else TryDequeueMany ctx num allow_small_batch.

(** The critical section of [TryEnqueue] and the like: the manager may be cancelled already. *)
Definition register (act : Action) (a : Attempt) : next :=
  let c := cancellation_manager (context a) in
  m ← manager_at c;
  match RegisterCallback (cancellation_token a) (mkClosure act c (cancellation_token a)) m with
  | None => crash
  | Some (true, m) =>
      modify (set_manager c m);;
      modify (fun s => set_attempts act (attempts act s ++ [a]) s);;
      mret (Some [AFlush])
  | Some (false, _) => done ← of_option (done_callback a); fail (context a) (Err CANCELLED) done
  end.

Definition FlushUnlocked : next :=
  s ← get;
  clean_up ← flush_loop (flush_fuel s) [];
  mret (Some (concat (map (fun c => (if to_deregister c =? kInvalidToken then [] else [ADeregister (cm c) (to_deregister c)]) ++ [ACall (finished c)]) clean_up))).

(** Marks the attempts that are not cancelled, and takes their callbacks. *)
Fixpoint cancel_all (l : list Attempt) : MQ (list Attempt * list DoneCallback) :=
  match l with
  | [] => mret ([], [])
  | a :: l =>
      if is_cancelled a then '(l, callbacks) ← cancel_all l; mret (a :: l, callbacks)
      else
        SetStatus (context a) (Err CANCELLED);;
        done ← of_option (done_callback a);
        '(l, callbacks) ← cancel_all l;
        mret (cancel_attempt a :: l, done :: callbacks)
  end.

Definition CloseAndCancel : next :=
  modify set_closed;;
  l ← gets enqueue_attempts_;
  '(l, callbacks) ← cancel_all l;
  modify (set_attempts kEnqueue l);;
  mret (Some (map ACall callbacks ++ [AFlush])).

Definition Close (ctx : Context) (cancel_pending_enqueues : bool) : next :=
  if cancel_pending_enqueues then mret (Some [ACloseAndCancel; ACall (Plain ctx)])
  else
    modify (fun s => set_attempts kEnqueue (enqueue_attempts_ s ++ [mkAttempt 0 (Some (Plain ctx)) ctx None kInvalidToken RunClose false []]) s);;
    mret (Some [AFlush]).

Definition is_attempt (c : nat) (token : Z) (a : Attempt) : Prop := attempt_manager a = Some c /\ cancellation_token a = token.
#[export] Instance is_attempt_dec c token a : Decision (is_attempt c token a).
Proof. unfold is_attempt. apply _. Defined.

Definition Cancel (act : Action) (c : nat) (token : Z) : next :=
  l ← gets (attempts act);
  match list_find (is_attempt c token) l with
  | None => mret (Some [])
  | Some (i, a) =>
      if is_cancelled a then mret (Some [])
      else
        SetStatus (context a) (Err CANCELLED);;
        modify (set_attempts act (<[i:=cancel_attempt a]> l));;
        match done_callback a with Some callback => mret (Some [ACall callback; AFlush]) | None => mret (Some []) end
  end.

(** The call of a closure: a kernel with outputs sets them unless its status is an error. *)
Definition call (callback : DoneCallback) : next :=
  match callback with
  | Plain ctx => st ← gets (status_of (op_id ctx)); modify (emit (EDone (op_id ctx) st []));; mret (Some [])
  | WithTuple ctx tuple =>
      st ← gets (status_of (op_id ctx));
      if ok st then CHECK (length tuple =? num_components)%nat;; modify (emit (EDone (op_id ctx) st tuple));; mret (Some [])
      else modify (emit (EDone (op_id ctx) st []));; mret (Some [])
  end.

Context (iterate : gmap Z CancelClosure -> list (Z * CancelClosure)).

Definition StartCancel (c : nat) : next :=
  m ← manager_at c;
  match StartCancel_begin m with
  | None => mret (Some [])
  | Some (callbacks, m) =>
      modify (set_manager c m);;
      mret (Some (map (fun p => ACancel (closure_action p.2) (closure_manager p.2) (closure_token p.2)) (iterate callbacks) ++ [AFinishCancel c; ANotify c]))
  end.

Definition exec (a : action) : next :=
  match a with
  | AEnqueue ctx tuple => EnqueueOp ctx tuple
  | AEnqueueMany ctx tuple => EnqueueManyOp ctx tuple
  | ADequeue ctx => TryDequeue ctx
  | ADequeueMany ctx num small => DequeueManyOp ctx num small
  | AClose ctx cancel => Close ctx cancel
  | ASize ctx => k ← queue_size; modify (emit (ESize (op_id ctx) (i32 k)));; mret (Some [])
  | AIsClosed ctx => b ← gets closed_; modify (emit (EIsClosed (op_id ctx) b));; mret (Some [])
  | ARegister act a => register act a
  | ACloseAndCancel => CloseAndCancel
  | AFlush => FlushUnlocked
  | ACancel act c token => Cancel act c token
  | ACall callback => call callback
  | ADeregister c token =>
      m ← manager_at c;
      let '(result, m) := DeregisterCallback token m in
      modify (set_manager c m);;
      mret (Some match result with Some _ => [] | None => [AWaitCancelled c] end)
  | AWaitCancelled c => m ← manager_at c; mret (if cancelled_notification_ m then Some [] else None)
  | AStartCancel c => StartCancel c
  | AFinishCancel c => m ← manager_at c; modify (set_manager c (StartCancel_end m));; mret (Some [])
  | ANotify c => m ← manager_at c; modify (set_manager c (StartCancel_notify m));; mret (Some [])
  end.

(** ** Threads *)

Inductive call_ :=
| CEnqueue (c : nat) (tuple : Tuple)
| CEnqueueMany (c : nat) (tuple : Tuple)
| CDequeue (c : nat)
| CDequeueMany (c : nat) (num : Z) (allow_small_batch : bool)
| CClose (c : nat) (cancel_pending_enqueues : bool)
| CSize (c : nat)
| CIsClosed (c : nat)
| CStartCancel (c : nat).

(** [calls]: what the clients have called so far; a call is known by its number. *)
Record state := mkState { sh : shared; threads : list (list action); calls : list call_ }.

Definition start (c : call_) (id : nat) : list action :=
  match c with
  | CEnqueue c tuple => [AEnqueue (mkContext id c) tuple]
  | CEnqueueMany c tuple => [AEnqueueMany (mkContext id c) tuple]
  | CDequeue c => [ADequeue (mkContext id c)]
  | CDequeueMany c num small => [ADequeueMany (mkContext id c) num small]
  | CClose c cancel => [AClose (mkContext id c) cancel]
  | CSize c => [ASize (mkContext id c)]
  | CIsClosed c => [AIsClosed (mkContext id c)]
  | CStartCancel c => [AStartCancel c]
  end.

Inductive move := Call (c : call_) | Run (i : nat).

(** A move of a thread that has nothing to do, or has to wait, changes nothing. *)
Definition step (m : move) (s : state) : outcome state :=
  match m with
  | Call c => Val (mkState (sh s) (threads s ++ [start c (length (calls s))]) (calls s ++ [c]))
  | Run i =>
      match threads s !! i with
      | Some (a :: rest) =>
          match exec a (sh s) with
          | Val (Some acts, sh') => Val (mkState sh' (<[i:=acts ++ rest]> (threads s)) (calls s))
          | Val (None, _) => Val s
          | Crash => Crash
          | NoFuel => NoFuel
          end
      | _ => Val s
      end
  end.

Fixpoint run (ms : list move) (s : state) : outcome state :=
  match ms with
  | [] => Val s
  | m :: ms => match step m s with Val s => run ms s | Crash => Crash | NoFuel => NoFuel end
  end.

(** [Initialize]. *)
Definition Initialize : result (list (list Tensor)) :=
  if (length (component_dtypes_ cfg) =? 0)%nat then Err INVALID_ARGUMENT
  else if specified_shapes && negb (length (component_dtypes_ cfg) =? length (component_shapes_ cfg))%nat then Err INVALID_ARGUMENT
  else Ok (replicate num_components []).

Definition initial (n : nat) : result state :=
  q ← Initialize; Ok (mkState (mkShared q false [] [] (replicate n CancellationManager_new) ∅ 0 []) [] []).

(** [MemoryUsed]: the sum is an [int]. *)
Definition SizeOf (q : list Tensor) : Z := match q with [] => 0 | t :: _ => Z.of_nat (length q) * AllocatedBytes (values t) end.
Definition MemoryUsed (s : shared) : Z := foldl (fun memory_size q => i32 (memory_size + SizeOf q)) 0 (queues_ s).

End queue.
End FifoQueue.
