(* ===== verification/FifoQueueProofs.v ===== *)
(** * Queues of tensors: elements, slices and attempts

    The deques of the components as one list of elements, batches as lists of elements, and
    what each attempt does when it is run. *)

From S2P Require Import Prelude Cancellation FifoQueue.
Import Cancellation FifoQueue.

#[local] Open Scope runtime_scope.

Lemma num_elements_nonneg l : Forall (fun x => 0 <= x) l -> 0 <= num_elements l.
Proof. induction 1 as [|x l Hx _ IH]; [done|]. change (0 <= x * num_elements l). nia. Qed.

Section queue.
Context {V : Type} (junk : V) (cfg : Config) (allocates : nat -> bool).

Abbreviation Tensor := (Tensor (V := V)).
Abbreviation Tuple := (list Tensor).
Abbreviation Attempt := (Attempt (V := V)).
Abbreviation shared := (shared (V := V)).
Abbreviation n := (num_components cfg).

(** ** Elements *)

Definition tensor_ok (t : Tensor) : Prop := Forall (fun x => 0 <= x) (shape t) /\ length (values t) = Z.to_nat (num_elements (shape t)).

Record elem_ok (x : Tuple) : Prop := {
  x_types : map dtype x = component_dtypes_ cfg;
  x_shapes : specified_shapes cfg = true -> map shape x = component_shapes_ cfg;
  x_values : Forall tensor_ok x
}.

Record config_ok : Prop := {
  c_capacity : 0 <= capacity_ cfg < 2 ^ 31;
  c_types : component_dtypes_ cfg <> [];
  c_handled : Forall (fun dt => handled dt = true) (component_dtypes_ cfg);
  c_shapes : specified_shapes cfg = true -> length (component_shapes_ cfg) = n;
  c_sizes : Forall (fun s => Forall (fun x => 0 <= x) s /\ num_elements s < 2 ^ 32 /\ (length s < 254)%nat) (component_shapes_ cfg)
}.

Definition comp (j : nat) (x : Tuple) : Tensor := default no_tensor (x !! j).

Lemma comp_at x j : length x = n -> (j < n)%nat -> x !! j = Some (comp j x).
Proof. intros Hx Hj. unfold comp. destruct (lookup_lt_is_Some_2 x j) as [t ->]; [lia|done]. Qed.

Lemma elem_length x : elem_ok x -> length x = n.
Proof. intros [H _ _]. apply (f_equal length) in H. by rewrite length_map in H. Qed.

(** The elements in the deques: all of them, or the first [i] components of other ones. *)
Definition part_q (qs : list (list Tensor)) (i : nat) (done todo : list Tuple) : Prop :=
  length qs = n /\ forall j, (j < n)%nat -> qs !! j = Some (map (comp j) (if (j <? i)%nat then done else todo)).
Abbreviation rep_q qs items := (part_q qs 0 items items).

Lemma part_start qs items done : rep_q qs items <-> part_q qs 0 done items.
Proof. done. Qed.

Lemma part_end qs items todo : part_q qs n items todo <-> rep_q qs items.
Proof.
  unfold part_q. apply and_iff_compat_l. split; intros H j Hj; specialize (H j Hj); rewrite (proj2 (Nat.ltb_lt j n) Hj) in *; done.
Qed.

Lemma part_step qs i done todo q : part_q qs i done todo -> (i < n)%nat -> q = map (comp i) done -> part_q (<[i:=q]> qs) (S i) done todo.
Proof.
  intros [Hl Hq] Hi ->. split; [by rewrite length_insert|]. intros j Hj. destruct (decide (j = i)) as [->|Hne].
  - rewrite list_lookup_insert_eq by lia. by rewrite (proj2 (Nat.ltb_lt i (S i))) by lia.
  - rewrite list_lookup_insert_ne, Hq by done. destruct (Nat.ltb_spec j i), (Nat.ltb_spec j (S i)); (done || lia).
Qed.

Lemma part_next qs i done todo : part_q qs i done todo -> (i < n)%nat -> qs !! i = Some (map (comp i) todo).
Proof. intros [_ Hq] Hi. rewrite Hq by done. by rewrite Nat.ltb_irrefl. Qed.

(** ** Steps that change the deques and the number of allocations *)

Definition upd (qs : list (list Tensor)) (k : nat) (s : shared) : shared := mkShared qs (closed_ s) (enqueue_attempts_ s) (dequeue_attempts_ s) (managers s) (statuses s) k (log s).

Lemma shared_upd_id s : s = upd (queues_ s) (allocs s) s.
Proof. by destruct s. Qed.

(** What holds after steps of this kind. *)
Definition moved (s : shared) (done : list Tuple) (s' : shared) : Prop := exists qs k, s' = upd qs k s /\ rep_q qs done.
Definition moving (s : shared) (i : nat) (done todo : list Tuple) (s' : shared) : Prop := exists qs k, s' = upd qs k s /\ part_q qs i done todo.

Lemma queue_size_run s items (Q : Z -> shared -> Prop) : n <> 0%nat -> rep_q (queues_ s) items -> Q (Z.of_nat (length items)) s -> queue_size @ s ⇓ Q.
Proof. intros Hn [_ Hq] HQ. unfold queue_size. wp_step. wp_step. wp_step. eapply wp_of_option; [apply Hq; lia|]. wp_steps. by rewrite length_map. Qed.

Lemma push_back_run s s0 i x items t (Q : unit -> shared -> Prop) : moving s0 i (items ++ [x]) items s -> (i < n)%nat -> comp i x = t ->
  (forall s', moving s0 (S i) (items ++ [x]) items s' -> Q tt s') -> push_back i t @ s ⇓ Q.
Proof.
  intros (qs & k & -> & Hp) Hi <- HQ. unfold push_back, change_queue. wp_step. wp_step. wp_step. eapply wp_of_option; [by eapply part_next|]. wp_step. eapply wp_of_option; [done|]. wp_steps. apply HQ. eexists _, k. split; [done|]. apply part_step; [done|done|]. by rewrite map_app.
Qed.

Lemma push_front_run s s0 i x items t (Q : unit -> shared -> Prop) : moving s0 i (x :: items) items s -> (i < n)%nat -> comp i x = t ->
  (forall s', moving s0 (S i) (x :: items) items s' -> Q tt s') -> push_front i t @ s ⇓ Q.
Proof.
  intros (qs & k & -> & Hp) Hi <- HQ. unfold push_front, change_queue. wp_step. wp_step. wp_step. eapply wp_of_option; [by eapply part_next|]. wp_step. eapply wp_of_option; [done|]. wp_steps. apply HQ. eexists _, k. split; [done|]. by apply part_step.
Qed.

Lemma push_components_run s0 x items : length x = n -> forall m i s (Q : unit -> shared -> Prop), (i + m = n)%nat -> moving s0 i (items ++ [x]) items s ->
  (forall s', moved s0 (items ++ [x]) s' -> Q tt s') -> push_components x i m @ s ⇓ Q.
Proof.
  intros Hx. induction m as [|m IH]; intros i s Q Hi Hm HQ; cbn [push_components].
  - wp_steps. apply HQ. destruct Hm as (qs & k & -> & Hp). exists qs, k. split; [done|]. replace i with n in Hp by lia. by apply part_end in Hp.
  - wp_step. eapply wp_of_option; [apply comp_at; [done|lia]|]. wp_step. eapply push_back_run; [done|lia|done|]. intros s' Hm'. eapply IH; [lia|done|done].
Qed.

Lemma pop_components_run s0 x items : length x = n -> forall m i s (Q : Tuple -> shared -> Prop), (i + m = n)%nat -> moving s0 i items (x :: items) s ->
  (forall s', moved s0 items s' -> Q (drop i x) s') -> pop_components i m @ s ⇓ Q.
Proof.
  intros Hx. induction m as [|m IH]; intros i s Q Hi Hm HQ; cbn [pop_components].
  - wp_steps. destruct Hm as (qs & k & -> & Hp). rewrite <- (drop_ge x i) by lia. apply HQ. exists qs, k. split; [done|]. replace i with n in Hp by lia. by apply part_end in Hp.
  - destruct Hm as (qs & k & -> & Hp). unfold pop_front. wp_step. wp_step. wp_step. wp_step. eapply wp_of_option; [eapply part_next; [done|lia]|]. cbn [map]. wp_steps. eapply (IH (S i)); [lia|eexists _, k; split; [done|]; apply part_step; [done|lia|done]|]. intros s' Hs'. wp_steps.
    rewrite <- (drop_S x (comp i x) i); [by apply HQ|]. apply comp_at; [done|lia].
Qed.

Lemma DequeueLocked_run s x items (Q : Tuple -> shared -> Prop) : n <> 0%nat -> length x = n -> rep_q (queues_ s) (x :: items) -> (forall s', moved s items s' -> Q x s') -> DequeueLocked cfg @ s ⇓ Q.
Proof.
  intros Hn Hx Hr HQ. unfold DequeueLocked. wp_step. eapply queue_size_run; [done|done|]. wp_step. apply wp_CHECK; [apply Z.ltb_lt; cbn [length]; lia|]. eapply (pop_components_run s x items Hx); [done| |done]. exists (queues_ s), (allocs s). split; [apply shared_upd_id|]. by apply part_start.
Qed.

(** ** Slices *)

Lemma num_elements_cons d l : num_elements (d :: l) = d * num_elements l.
Proof using. done. Qed.

(** The slice [i] of a tensor. *)
Definition width (t : Tensor) : nat := Z.to_nat (num_elements (tail (shape t))).
Definition slice_of (t : Tensor) (i : nat) : Tensor := mkTensor (dtype t) (tail (shape t)) (take (width t) (drop (i * width t) (values t))).

Lemma width_values t d rest : tensor_ok t -> shape t = d :: rest -> 0 <= d /\ 0 <= num_elements rest /\ length (values t) = (Z.to_nat d * width t)%nat.
Proof using.
  intros [Hs Hv] E. unfold width. rewrite E in *. apply Forall_cons in Hs as [Hd Hr]. pose proof (num_elements_nonneg _ Hr). split_and!; [done|done|]. cbn [tail]. rewrite Hv, num_elements_cons. lia.
Qed.

Lemma slice_ok t d rest i : tensor_ok t -> shape t = d :: rest -> (i < Z.to_nat d)%nat -> tensor_ok (slice_of t i).
Proof using.
  intros Ht E Hi. destruct (width_values t d rest Ht E) as (Hd & Hr & Hv). destruct Ht as [Hs _]. rewrite E in Hs. apply Forall_cons in Hs as [_ Hs]. split; [by unfold slice_of; cbn [shape]; rewrite E|]. unfold slice_of. cbn [shape values]. rewrite length_take, length_drop, Hv. fold (width t). assert ((S i) * width t <= Z.to_nat d * width t)%nat by (apply Nat.mul_le_mono_r; lia). lia.
Qed.

Section allocating.
Context (Hall : forall k, allocates k = true).

Lemma allocate_run dt dims s (Q : result Tensor -> shared -> Prop) : (forall k, Q (Ok (mkTensor dt dims (replicate (Z.to_nat (num_elements dims)) junk))) (upd (queues_ s) k s)) -> allocate junk allocates dt dims @ s ⇓ Q.
Proof using Hall. intros HQ. unfold allocate. wp_steps. rewrite Hall. apply HQ. Qed.

Lemma ValidateInput_run parent element i d rest s (Q : Status -> shared -> Prop) : shape parent = d :: rest -> 0 <= i < d -> num_elements (shape element) = num_elements rest -> Q OK s -> ValidateInput parent element i @ s ⇓ Q.
Proof using.
  intros E Hi He HQ. unfold ValidateInput, dim0. rewrite E. wp_steps. apply wp_CHECK; [apply negb_true_iff, Z.eqb_neq; lia|]. wp_step. apply wp_CHECK; [apply Z.leb_le; lia|]. wp_steps. unfold NumElements. rewrite E, num_elements_cons, He, Z.mul_comm, Z.div_mul, Z.eqb_refl by lia. done.
Qed.

Lemma GetElement_run tuple j t d rest i s (Q : result Tensor -> shared -> Prop) : tuple !! j = Some t -> shape t = d :: rest -> handled (dtype t) = true -> 0 <= i < d ->
  (forall k, Q (Ok (slice_of t (Z.to_nat i))) (upd (queues_ s) k s)) -> GetElementComponentFromBatch junk allocates tuple i j @ s ⇓ Q.
Proof using Hall.
  intros Hj E Hh Hi HQ. unfold GetElementComponentFromBatch. wp_step. eapply wp_of_option; [done|]. unfold dim0 at 1. rewrite E. wp_steps. apply allocate_run. intros k. cbn beta iota. unfold CopySliceToElement. wp_step. eapply ValidateInput_run; [done|done|done|]. cbn [OK]. rewrite Hh. unfold dim0. rewrite E. wp_steps. apply wp_CHECK; [apply Z.ltb_lt; lia|]. wp_steps.
  specialize (HQ k). unfold slice_of, width in HQ. rewrite E in HQ. exact HQ.
Qed.
End allocating.

(** ** Batches *)

Definition shape_of (j : nat) : list Z := default [] (component_shapes_ cfg !! j).
Definition dtype_of (j : nat) : Z := default 0 (component_dtypes_ cfg !! j).
Definition size_of (j : nat) : nat := Z.to_nat (num_elements (shape_of j)).

(** The component [j] of a batch for [m] elements, of which the first ones are [xs]. *)
Record batch_col (m : nat) (j : nat) (xs : list Tuple) (t : Tensor) : Prop := {
  b_dtype : dtype t = dtype_of j;
  b_shape : shape t = Z.of_nat m :: shape_of j;
  b_length : length (values t) = (m * size_of j)%nat;
  b_values : exists rest, values t = concat (map (fun x => values (comp j x)) xs) ++ rest
}.

Definition part_batch (m i : nat) (done todo : list Tuple) (tup : Tuple) : Prop :=
  length tup = n /\ forall j, (j < n)%nat -> exists t, tup !! j = Some t /\ batch_col m j (if (j <? i)%nat then done else todo) t.
Abbreviation is_batch m xs tup := (part_batch m 0 xs xs tup).

Definition batch (xs : list Tuple) : Tuple :=
  map (fun j => mkTensor (dtype_of j) (Z.of_nat (length xs) :: shape_of j) (concat (map (fun x => values (comp j x)) xs))) (seq 0 n).

Lemma concat_length_k {A} k (ls : list (list A)) : Forall (fun l => length l = k) ls -> length (concat ls) = (length ls * k)%nat.
Proof using. induction 1 as [|l ls Hl _ IH]; cbn; [done|]. rewrite length_app, Hl, IH. done. Qed.

Lemma concat_slice {A} k (ls : list (list A)) tl i l : Forall (fun l => length l = k) ls -> ls !! i = Some l -> take k (drop (i * k) (concat ls ++ tl)) = l.
Proof using.
  intros Hf. revert i. induction Hf as [|x ls Hx _ IH]; intros [|i] Hi; try done; cbn in *.
  - injection Hi as ->. rewrite drop_0, <- app_assoc, take_app_le, take_ge by lia. done.
  - rewrite <- app_assoc, drop_app_ge by lia. replace (k + i * k - length x)%nat with (i * k)%nat by lia. by apply IH.
Qed.

Section shaped.
Context (Hc : config_ok) (Hs : specified_shapes cfg = true).

Lemma comp_facts x j : elem_ok x -> (j < n)%nat -> dtype (comp j x) = dtype_of j /\ shape (comp j x) = shape_of j /\ length (values (comp j x)) = size_of j.
Proof using Hs.
  intros Hx Hj. pose proof (comp_at x j (elem_length x Hx) Hj) as Hat. destruct Hx as [Ht Hsh Hv]. specialize (Hsh Hs). assert (dtype (comp j x) = dtype_of j) as E1 by (unfold dtype_of; rewrite <- Ht, list_lookup_fmap, Hat; done). assert (shape (comp j x) = shape_of j) as E2 by (unfold shape_of; rewrite <- Hsh, list_lookup_fmap, Hat; done).
  split_and!; [done|done|]. apply (Forall_lookup_1 _ _ _ _ Hv) in Hat as [_ ->]. by rewrite E2.
Qed.

Lemma comp_lengths xs j : Forall elem_ok xs -> (j < n)%nat -> Forall (fun l => length l = size_of j) (map (fun x => values (comp j x)) xs).
Proof using Hs. intros Hxs Hj. apply Forall_map. eapply Forall_impl; [exact Hxs|]. intros x Hx. by apply comp_facts. Qed.

Lemma shape_facts j : (j < n)%nat -> 0 <= num_elements (shape_of j) < 2 ^ 32 /\ (length (shape_of j) < 254)%nat /\ component_shapes_ cfg !! j = Some (shape_of j) /\ component_dtypes_ cfg !! j = Some (dtype_of j) /\ handled (dtype_of j) = true.
Proof using Hc Hs.
  intros Hj. assert (component_shapes_ cfg !! j = Some (shape_of j)) as Ej by (unfold shape_of; destruct (lookup_lt_is_Some_2 (component_shapes_ cfg) j) as [t ->]; [rewrite (c_shapes Hc Hs); lia|done]).
  assert (component_dtypes_ cfg !! j = Some (dtype_of j)) as Ed by (unfold dtype_of; destruct (lookup_lt_is_Some_2 (component_dtypes_ cfg) j) as [t ->]; [done|done]).
  destruct (Forall_lookup_1 _ _ _ _ (c_sizes Hc) Ej) as (H1 & H2 & H3). pose proof (num_elements_nonneg _ H1). pose proof (Forall_lookup_1 _ _ _ _ (c_handled Hc) Ed). split_and!; (done || lia).
Qed.

Lemma batch_slice m j xs t i x : Forall elem_ok xs -> batch_col m j xs t -> (j < n)%nat -> xs !! i = Some x -> slice_of t i = comp j x.
Proof using Hs.
  intros Hxs [B1 B2 B3 (rest & B4)] Hj Hi. destruct (comp_facts x j (Forall_lookup_1 _ _ _ _ Hxs Hi) Hj) as (E1 & E2 & E3). unfold slice_of, width. rewrite B1, B2, B4. cbn [tail]. fold (size_of j). rewrite (concat_slice (size_of j) _ rest i (values (comp j x))); [|by apply comp_lengths|by rewrite list_lookup_fmap, Hi].
  rewrite <- E1, <- E2. by destruct (comp j x).
Qed.

(** A batch that is full has no other values. *)
Lemma full_batch xs tup : Forall elem_ok xs -> is_batch (length xs) xs tup -> tup = batch xs.
Proof using Hs.
  intros Hxs [Hl Hb]. apply list_eq. intros j. unfold batch. rewrite list_lookup_fmap. destruct (decide (j < n)%nat) as [Hj|Hj].
  - rewrite lookup_seq_lt by done. cbn. destruct (Hb j Hj) as (t & -> & [B1 B2 B3 (rest & B4)]). change (if (j <? 0)%nat then xs else xs) with xs in B4. assert (rest = []) as ->. { apply nil_length_inv. rewrite B4, length_app, (concat_length_k (size_of j)), length_map in B3 by (by apply comp_lengths). lia. }
    rewrite app_nil_r in B4. destruct t; cbn in *. by subst.
  - rewrite lookup_ge_None_2 by lia. rewrite lookup_ge_None_2; [done|]. rewrite length_seq. lia.
Qed.

Lemma ManyOutShape_run j m s (Q : list Z -> shared -> Prop) : (j < n)%nat -> 0 <= m < 2 ^ 31 -> Q (m :: shape_of j) s -> ManyOutShape cfg j m @ s ⇓ Q.
Proof using Hc Hs.
  intros Hj Hm HQ. destruct (shape_facts j Hj) as (H1 & H2 & H3 & _). unfold ManyOutShape. wp_step. eapply wp_of_option; [done|]. wp_step. apply wp_CHECK; [|by wp_steps]. apply andb_true_iff. rewrite num_elements_cons, Z.ltb_lt, Z.leb_le. unfold kMaxDimensions. cbn [length]. split; [nia|lia].
Qed.

(** ** Filling a batch *)

Section filling.
Context (Hall : forall k, allocates k = true).

Lemma SetStatus_ok ctx s (Q : unit -> shared -> Prop) : Q tt s -> SetStatus ctx OK @ s ⇓ Q.
Proof using. done. Qed.

Lemma status_ok_run ctx s (Q : bool -> shared -> Prop) : status_of (op_id ctx) s = OK -> Q true s -> status_ok ctx @ s ⇓ Q.
Proof using. intros E HQ. unfold status_ok. wp_step. by rewrite E. Qed.

Lemma allocate_batch_run m ctx s : (m < 2 ^ 31)%Z -> status_of (op_id ctx) s = OK -> forall r i k tup (Q : bool * Tuple -> shared -> Prop), 0 <= m -> (i + r = n)%nat ->
  length tup = i -> (forall j, (j < i)%nat -> exists t, tup !! j = Some t /\ batch_col (Z.to_nat m) j [] t) ->
  (forall k' tup', is_batch (Z.to_nat m) [] tup' -> Q (true, tup') (upd (queues_ s) k' s)) -> allocate_batch junk cfg allocates m ctx tup i r @ upd (queues_ s) k s ⇓ Q.
Proof using Hc Hs Hall.
  intros Hm Hst. induction r as [|r IH]; intros i k tup Q H0 Hi Hl Hb HQ; cbn [allocate_batch].
  - wp_steps. apply HQ. split; [lia|]. intros j Hj. replace (if (j <? 0)%nat then [] else []) with ([] : list Tuple) by by destruct (j <? 0)%nat. apply Hb. lia.
  - destruct (shape_facts i ltac:(lia)) as (H1 & H2 & H3 & H4 & H5). wp_step. apply ManyOutShape_run; [lia|lia|]. wp_step. eapply wp_of_option; [done|]. wp_step. apply (allocate_run Hall). intros k'. cbn beta iota. wp_step. apply SetStatus_ok. wp_step. apply status_ok_run; [done|]. cbn iota.
    change (upd (queues_ (upd (queues_ s) k s)) k' (upd (queues_ s) k s)) with (upd (queues_ s) k' s). apply IH; [done|lia|rewrite length_app; cbn; lia| |done].
    intros j Hj. destruct (decide (j = i)) as [->|Hne].
    + eexists. split; [rewrite lookup_app_r, Hl, Nat.sub_diag by lia; done|]. constructor; cbn [dtype shape values]; [done|by rewrite Z2Nat.id|rewrite length_replicate, num_elements_cons; unfold size_of; lia|]. cbn. by eexists.
    + destruct (Hb j ltac:(lia)) as (t & Ht & Hbt). exists t. split; [|done]. by rewrite lookup_app_l by lia.
Qed.

Lemma copy_col m j xs x t (Q : result Tensor -> shared -> Prop) s : Forall elem_ok xs -> elem_ok x -> (j < n)%nat -> (length xs < m)%nat -> batch_col m j xs t ->
  (forall t', batch_col m j (xs ++ [x]) t' -> Q (Ok t') s) -> CopyElementToSlice (comp j x) t (Z.of_nat (length xs)) @ s ⇓ Q.
Proof using Hc Hs.
  intros Hxs Hx Hj Hm [B1 B2 B3 (rest & B4)] HQ. destruct (comp_facts x j Hx Hj) as (E1 & E2 & E3). destruct (shape_facts j Hj) as (H1 & _ & _ & _ & H5). unfold CopyElementToSlice. wp_step. eapply ValidateInput_run; [exact B2|lia|by rewrite E2|]. cbn [OK]. rewrite E1, H5. unfold dim0. rewrite B2. wp_steps. apply wp_CHECK; [apply Z.ltb_lt; lia|]. wp_steps. unfold NumElements. rewrite E2. fold (size_of j).
  rewrite Nat2Z.id. pose proof (concat_length_k _ _ (comp_lengths xs j Hxs Hj)) as Hlen. rewrite length_map in Hlen. apply HQ. constructor; cbn [dtype shape values]; [done|done| |].
  - rewrite !length_app, !length_take, length_drop, E3, B3. assert (S (length xs) * size_of j <= m * size_of j)%nat by (apply Nat.mul_le_mono_r; lia). lia.
  - exists (drop (length xs * size_of j + size_of j) (values t)). rewrite map_app, concat_app. cbn [map concat]. rewrite app_nil_r, <- app_assoc. rewrite B4 at 1. rewrite take_app_le, (take_ge (concat _)), (take_ge (values (comp j x))) by lia. done.
Qed.

Lemma copy_components_run m xs x ctx s : Forall elem_ok xs -> elem_ok x -> (length xs < m)%nat -> status_of (op_id ctx) s = OK -> forall r i tup (Q : bool * Tuple -> shared -> Prop), (i + r = n)%nat ->
  part_batch m i (xs ++ [x]) xs tup -> (forall tup', is_batch m (xs ++ [x]) tup' -> Q (true, tup') s) -> copy_components x (Z.of_nat (length xs)) ctx tup i r @ s ⇓ Q.
Proof using Hc Hs.
  intros Hxs Hx Hm Hst. induction r as [|r IH]; intros i tup Q Hi [Hl Hb] HQ; cbn [copy_components].
  - wp_steps. apply HQ. split; [done|]. intros j Hj. destruct (Hb j Hj) as (t & ? & Ht). exists t. split; [done|]. rewrite (proj2 (Nat.ltb_lt j i)) in Ht by lia. by destruct (j <? 0)%nat.
  - wp_step. eapply wp_of_option; [apply comp_at; [by apply elem_length|lia]|]. destruct (Hb i ltac:(lia)) as (t & Ht & Hbt). rewrite Nat.ltb_irrefl in Hbt. wp_step. eapply wp_of_option; [done|]. wp_step. eapply copy_col; [done|done|lia|done|done|]. intros t' Ht'. cbn beta iota. wp_step. apply SetStatus_ok. wp_step. apply status_ok_run; [done|]. cbn iota.
    apply IH; [lia| |done]. split; [by rewrite length_insert|]. intros j Hj. destruct (decide (j = i)) as [->|Hne].
    + exists t'. rewrite list_lookup_insert_eq by lia. by rewrite (proj2 (Nat.ltb_lt i (S i))) by lia.
    + destruct (Hb j Hj) as (u & Hu & Hbu). exists u. rewrite list_lookup_insert_ne by done. split; [done|]. destruct (Nat.ltb_spec j i), (Nat.ltb_spec j (S i)); (done || lia).
Qed.

(** ** Elements that go back *)

Lemma restore_components_run m xs tup i x ctx s0 items : Forall elem_ok xs -> is_batch m xs tup -> (length xs <= m)%nat -> xs !! i = Some x -> forall r j s (Q : unit -> shared -> Prop), (j + r = n)%nat ->
  moving s0 j (x :: items) items s -> (forall s', moved s0 (x :: items) s' -> Q tt s') -> restore_components junk allocates tup (Z.of_nat i) ctx j r @ s ⇓ Q.
Proof using Hc Hs Hall.
  intros Hxs [Hl Hb] Hm Hi. induction r as [|r IH]; intros j s Q Hj Hmv HQ; cbn [restore_components].
  - wp_steps. apply HQ. destruct Hmv as (qs & k & -> & Hp). exists qs, k. split; [done|]. replace j with n in Hp by lia. by apply part_end in Hp.
  - destruct (Hb j ltac:(lia)) as (t & Ht & Hbt). replace (if (j <? 0)%nat then xs else xs) with xs in Hbt by by destruct (j <? 0)%nat. apply lookup_lt_Some in Hi as Hlt. destruct (shape_facts j ltac:(lia)) as (_ & _ & _ & _ & H5).
    wp_step. eapply (GetElement_run Hall); [done|apply Hbt|by rewrite (b_dtype _ _ _ _ Hbt)|lia|]. intros k. cbn beta iota. rewrite Nat2Z.id, (batch_slice m j xs t i x) by (done || lia). wp_step. destruct Hmv as (qs & k0 & -> & Hp). eapply (push_front_run _ s0); [exists qs, k; split; [done|exact Hp]|lia|done|]. intros s' Hs'. eapply IH; [lia|done|done].
Qed.

Lemma restore_run m xs tup ctx s0 items : Forall elem_ok xs -> is_batch m xs tup -> (length xs <= m)%nat -> forall i s (Q : unit -> shared -> Prop), (i <= length xs)%nat ->
  moved s0 (drop i xs ++ items) s -> (forall s', moved s0 (xs ++ items) s' -> Q tt s') -> restore junk cfg allocates tup ctx i @ s ⇓ Q.
Proof using Hc Hs Hall.
  intros Hxs Hb Hm. induction i as [|i IH]; intros s Q Hi Hmv HQ; cbn [restore]; [wp_steps; by apply HQ|]. destruct (lookup_lt_is_Some_2 xs i ltac:(lia)) as [x Hx]. wp_step.
  eapply (restore_components_run m xs tup i x ctx s0 (drop (S i) xs ++ items)); [done|done|done|done|done|destruct Hmv as (qs & k & -> & Hr); exists qs, k; split; [done|by apply part_start]|].
  intros s' Hs'. eapply IH; [lia| |done]. by rewrite (drop_S xs x i) by done.
Qed.
End filling.
End shaped.

(** ** Attempts as lists of elements *)

Definition element (tup : Tuple) (i : nat) : Tuple := map (fun t => slice_of t i) tup.
Definition elements_of (tup : Tuple) (k : nat) : list Tuple := map (element tup) (seq 0 k).
Definition first_dim (tup : Tuple) : Z := match tup with t :: _ => match shape t with d :: _ => d | [] => 0 end | [] => 0 end.

(** What an attempt still has to put into the queue, and what it holds of a batch. *)
Definition todo (a : Attempt) : list Tuple :=
  match run_callback a with
  | RunEnqueue x => [x]
  | RunEnqueueMany tup => drop (Z.to_nat (first_dim tup - elements_requested a)) (elements_of tup (Z.to_nat (first_dim tup)))
  | _ => []
  end.
Definition held (a : Attempt) : list Tuple := elements_of (attempt_tuple a) (Z.to_nat (first_dim (attempt_tuple a) - elements_requested a)).

Record many_ok (d : nat) (tup : Tuple) : Prop := {
  m_types : map dtype tup = component_dtypes_ cfg;
  m_dims : Forall (fun t => shape t = Z.of_nat d :: tail (shape t)) tup;
  m_shapes : specified_shapes cfg = true -> map (fun t => tail (shape t)) tup = component_shapes_ cfg;
  m_values : Forall tensor_ok tup
}.

(** Attempts that are not cancelled, in the two deques. *)
Definition enq_ok (a : Attempt) : Prop :=
  done_callback a = Some (Plain (context a)) /\
  match run_callback a with
  | RunEnqueue x => elem_ok x /\ elements_requested a = 1
  | RunEnqueueMany tup => exists d r, many_ok d tup /\ elements_requested a = Z.of_nat r /\ (1 <= r <= d)%nat
  | RunClose => True
  | _ => False
  end.

Definition deq_ok (a : Attempt) : Prop :=
  done_callback a = Some (WithTuple (context a) []) /\
  match run_callback a with
  | RunDequeue => elements_requested a = 1 /\ attempt_tuple a = []
  | RunDequeueMany _ => specified_shapes cfg = true /\ exists m xs, Forall elem_ok xs /\ (length xs < m)%nat /\ Z.of_nat m < 2 ^ 31
      /\ elements_requested a = Z.of_nat m - Z.of_nat (length xs) /\ (xs = [] /\ attempt_tuple a = [] \/ xs <> [] /\ is_batch m xs (attempt_tuple a))
  | _ => False
  end.

(** What an attempt to dequeue passes to its callback. *)
Definition delivery (a : Attempt) (xs : list Tuple) : Tuple := match run_callback a with RunDequeue => default [] (head xs) | _ => batch xs end.

Lemma elements_length tup k : length (elements_of tup k) = k.
Proof using. unfold elements_of. by rewrite length_map, length_seq. Qed.

Lemma elements_lookup tup k i : (i < k)%nat -> elements_of tup k !! i = Some (element tup i).
Proof using. intros Hi. unfold elements_of. rewrite list_lookup_fmap, lookup_seq_lt by done. done. Qed.

Lemma many_length d tup : many_ok d tup -> length tup = n.
Proof using. intros [H _ _ _]. apply (f_equal length) in H. by rewrite length_map in H. Qed.

Lemma many_at d tup j : many_ok d tup -> (j < n)%nat -> exists t, tup !! j = Some t /\ shape t = Z.of_nat d :: tail (shape t) /\ tensor_ok t /\ component_dtypes_ cfg !! j = Some (dtype t).
Proof using.
  intros Hm Hj. destruct (lookup_lt_is_Some_2 tup j) as [t Ht]; [rewrite (many_length d tup Hm); done|]. exists t. split_and!; [done|by apply (Forall_lookup_1 _ _ _ _ (m_dims _ _ Hm) Ht)|by apply (Forall_lookup_1 _ _ _ _ (m_values _ _ Hm) Ht)|]. by rewrite <- (m_types _ _ Hm), list_lookup_fmap, Ht.
Qed.

Lemma element_ok d tup i : many_ok d tup -> (i < d)%nat -> elem_ok (element tup i).
Proof using.
  intros Hm Hi. unfold element. constructor.
  - rewrite map_map. apply Hm.
  - intros Hs. rewrite map_map. by apply Hm.
  - apply Forall_map, Forall_lookup_2. intros j t Ht. pose proof (Forall_lookup_1 _ _ _ _ (m_dims _ _ Hm) Ht) as Hd. cbn beta in Hd. eapply slice_ok; [by apply (Forall_lookup_1 _ _ _ _ (m_values _ _ Hm) Ht)|exact Hd|lia].
Qed.

Lemma first_dim_many d tup : n <> 0%nat -> many_ok d tup -> first_dim tup = Z.of_nat d.
Proof using. intros Hn Hm. destruct (many_at d tup 0 Hm ltac:(lia)) as (t & Ht & E & _). destruct tup as [|t' tup]; [done|]. cbn in Ht. injection Ht as ->. cbn. by rewrite E. Qed.

Lemma todo_many a tup d r : n <> 0%nat -> run_callback a = RunEnqueueMany tup -> many_ok d tup -> elements_requested a = Z.of_nat r -> (r <= d)%nat -> todo a = drop (d - r) (elements_of tup d).
Proof using. intros Hn Hr Hm He Hle. unfold todo. rewrite Hr, He, (first_dim_many d tup Hn Hm). f_equal; [lia|]. by rewrite Nat2Z.id. Qed.

Lemma todo_length a tup d r : n <> 0%nat -> run_callback a = RunEnqueueMany tup -> many_ok d tup -> elements_requested a = Z.of_nat r -> (r <= d)%nat -> length (todo a) = r.
Proof using. intros. erewrite todo_many by done. rewrite length_drop, elements_length. lia. Qed.

(** A batch holds what was put into it. *)
Lemma held_batch a m xs : n <> 0%nat -> specified_shapes cfg = true -> Forall elem_ok xs -> (length xs <= m)%nat -> elements_requested a = Z.of_nat m - Z.of_nat (length xs) -> is_batch m xs (attempt_tuple a) -> held a = xs.
Proof using.
  intros Hn Hs Hxs Hm Hr [Hl Hb]. unfold held. assert (first_dim (attempt_tuple a) = Z.of_nat m) as ->. { destruct (Hb 0%nat ltac:(lia)) as (t & Ht & Hbt). destruct (attempt_tuple a) as [|t' l]; [done|]. cbn in Ht. injection Ht as ->. cbn. by rewrite (b_shape _ _ _ _ Hbt). }
  replace (Z.to_nat (Z.of_nat m - elements_requested a)) with (length xs) by lia. apply list_eq. intros i. destruct (decide (i < length xs)%nat) as [Hi|Hi]; [|by rewrite !lookup_ge_None_2 by (rewrite ?elements_length; lia)]. rewrite elements_lookup by done. destruct (lookup_lt_is_Some_2 xs i Hi) as [x Hx]. rewrite Hx. f_equal.
  pose proof (Forall_lookup_1 _ _ _ _ Hxs Hx) as Hox. apply list_eq. intros j. unfold element. rewrite list_lookup_fmap. destruct (decide (j < n)%nat) as [Hj|Hj]; [|rewrite !lookup_ge_None_2 by (rewrite ?(elem_length x Hox); lia); done].
  destruct (Hb j Hj) as (t & -> & Hbt). replace (if (j <? 0)%nat then xs else xs) with xs in Hbt by by destruct (j <? 0)%nat. cbn. rewrite (batch_slice Hs m j xs t i x) by done. symmetry. apply comp_at; [by apply elem_length|done].
Qed.

Lemma held_none a : 0 < elements_requested a -> attempt_tuple a = [] -> held a = [].
Proof using. intros Hr Ht. unfold held. rewrite Ht. cbn [first_dim]. by replace (Z.to_nat (0 - elements_requested a)) with 0%nat by lia. Qed.

Section running.
Context (Hc : config_ok) (Hall : forall k, allocates k = true).

Lemma n_pos : n <> 0%nat.
Proof using Hc. intros E. apply (c_types Hc), nil_length_inv, E. Qed.

Lemma capacity_size : size_t_capacity cfg = capacity_ cfg.
Proof using Hc. pose proof (c_capacity Hc). unfold size_t_capacity. apply u64_small. lia. Qed.

Lemma enqueue_slice_run d tup i ctx s0 items : many_ok d tup -> (i < d)%nat -> status_of (op_id ctx) s0 = OK -> forall m j s (Q : bool -> shared -> Prop), (j + m = n)%nat ->
  moving s0 j (items ++ [element tup i]) items s -> (forall s', moved s0 (items ++ [element tup i]) s' -> Q true s') -> enqueue_slice junk allocates tup (Z.of_nat i) ctx j m @ s ⇓ Q.
Proof using Hc Hall.
  intros Hm Hi Hst. induction m as [|m IH]; intros j s Q Hj Hmv HQ; cbn [enqueue_slice].
  - wp_steps. apply HQ. destruct Hmv as (qs & k & -> & Hp). exists qs, k. split; [done|]. replace j with n in Hp by lia. by apply part_end in Hp.
  - destruct (many_at d tup j Hm ltac:(lia)) as (t & Ht & Hsh & Hok & Hdt). destruct Hmv as (qs & k0 & -> & Hp). wp_step. eapply (GetElement_run Hall); [done|exact Hsh|by apply (Forall_lookup_1 _ _ _ _ (c_handled Hc) Hdt)|lia|]. intros k. cbn beta iota. rewrite Nat2Z.id. wp_step. apply SetStatus_ok. wp_step. apply status_ok_run; [done|]. cbn iota.
    wp_step. eapply (push_back_run _ s0 j (element tup i) items); [exists qs, k; split; [done|exact Hp]|lia| |].
    { unfold comp, element. rewrite list_lookup_fmap, Ht. done. }
    intros s' Hs'. eapply IH; [lia|done|done].
Qed.

Lemma moved_refl s items : rep_q (queues_ s) items -> moved s items s.
Proof using. intros H. exists (queues_ s), (allocs s). split; [apply shared_upd_id|done]. Qed.

Lemma moved_rep s0 items s : moved s0 items s -> rep_q (queues_ s) items.
Proof using. by intros (qs & k & -> & H). Qed.

Lemma moved_start s0 items s done : moved s0 items s -> moving s0 0 done items s.
Proof using. intros (qs & k & -> & H). exists qs, k. split; [done|by apply part_start]. Qed.

Lemma moved_status s0 items s id : moved s0 items s -> status_of id s = status_of id s0.
Proof using. by intros (qs & k & -> & _). Qed.

(** The slices of a batch go in while there is room. *)
Lemma enqueue_many_loop_run d tup s0 : many_ok d tup -> forall fuel r a result items s, run_callback a = RunEnqueueMany tup -> elements_requested a = Z.of_nat r -> (1 <= r <= d)%nat -> (r < fuel)%nat -> status_of (op_id (context a)) s0 = OK -> moved s0 items s ->
  enqueue_many_loop junk cfg allocates fuel tup result a @ s ⇓ fun '(res, a') s' => exists j, (j <= r)%nat /\ a' = with_requested (Z.of_nat (r - j)) a /\ moved s0 (items ++ take j (todo a)) s'
    /\ Z.of_nat (length items + j) <= Z.max (Z.of_nat (length items)) (capacity_ cfg)
    /\ if (j =? r)%nat then res = kComplete else capacity_ cfg <= Z.of_nat (length items + j) /\ res = if (j =? 0)%nat then result else kProgress.
Proof using Hc Hall.
  intros Hm. pose proof n_pos as Hn. induction fuel as [|fuel IH]; intros r a result items s Hrun Hr Hrd Hf Hst Hmv; [lia|]. cbn [enqueue_many_loop]. pose proof (todo_many a tup d r Hn Hrun Hm Hr ltac:(lia)) as Htodo. wp_step. eapply queue_size_run; [done|by eapply moved_rep|]. rewrite capacity_size. destruct (Z.ltb_spec (Z.of_nat (length items)) (capacity_ cfg)) as [Hlt|Hge].
  2:{ wp_steps. exists 0%nat. rewrite take_0, app_nil_r, Nat.sub_0_r, <- Hr. split_and!; [lia|by destruct a|done|lia|]. destruct (Nat.eqb_spec 0 r); [lia|]. split; [lia|done]. }
  destruct (many_at d tup 0 Hm ltac:(lia)) as (t & Ht & Hsh & _). wp_step. eapply wp_of_option; [done|]. wp_step. unfold dim0. rewrite Hsh. wp_step. replace (Z.of_nat d - elements_requested a) with (Z.of_nat (d - r)) by lia.
  wp_step. eapply (enqueue_slice_run d tup (d - r) (context a) s0 items); [done|lia|done|done|by eapply moved_start|]. intros s' Hs'. cbn beta iota. set (x := element tup (d - r)). assert (todo a = x :: todo (with_requested (Z.of_nat (r - 1)) a)) as Ex.
  { rewrite Htodo, (todo_many (with_requested _ a) tup d (r - 1)) by (done || lia). rewrite (drop_S _ x (d - r)) by (apply elements_lookup; lia). f_equal. f_equal. lia. }
  cbn [elements_requested with_requested]. replace (elements_requested a - 1) with (Z.of_nat (r - 1)) by lia. destruct (Z.eqb_spec (Z.of_nat (r - 1)) 0) as [H0|H0].
  - wp_steps. exists 1%nat. assert (r = 1%nat) as -> by lia. split_and!; [lia|done| |lia|done]. rewrite Ex. exact Hs'.
  - eapply wp_mono; [apply (IH (r - 1)%nat _ kProgress (items ++ [x])); [done|done|lia|lia|done|done]|]. cbn beta. intros [res a'] s1 (j & Hj & -> & Hmv' & Hcap & Hres). rewrite length_app in Hcap, Hres. cbn [length] in Hcap, Hres. exists (S j). split_and!; [lia|unfold with_requested; cbn; f_equal; lia| |lia|].
    + rewrite Ex. cbn [take]. by rewrite <- app_assoc in Hmv'.
    + replace (S j =? r)%nat with (j =? r - 1)%nat by (destruct (Nat.eqb_spec j (r - 1)), (Nat.eqb_spec (S j) r); (done || lia)). destruct (j =? r - 1)%nat; [done|]. destruct Hres as [Hc' ->]. split; [lia|]. by destruct (j =? 0)%nat.
Qed.

(** ** What running an attempt does *)

(** The state with other elements, another status of an operation, and closed or not. *)
Definition after (s : shared) (items : list Tuple) (id : nat) (st : Status) (cl : bool) (s' : shared) : Prop :=
  exists qs k, s' = update_status id st (upd qs k (if cl then set_closed s else s)) /\ rep_q qs items.

Definition same_attempt (a a' : Attempt) : Prop := context a' = context a /\ attempt_manager a' = attempt_manager a /\ cancellation_token a' = cancellation_token a /\ run_callback a' = run_callback a /\ is_cancelled a' = is_cancelled a.

(** The result, what goes into the queue, the status, and whether the queue is closed by it. *)
Inductive enq_result (closed : bool) (size : nat) (a : Attempt) : RunResult -> Attempt -> list Tuple -> Status -> bool -> Prop :=
| enq_closed : closed = true -> enq_result closed size a kComplete a [] (Err CANCELLED) false
| enq_close : closed = false -> run_callback a = RunClose -> enq_result closed size a kComplete a [] OK true
| enq_all a' : closed = false -> run_callback a <> RunClose -> same_attempt a a' -> done_callback a' = done_callback a -> todo a <> [] -> Z.of_nat (size + length (todo a)) <= capacity_ cfg -> enq_result closed size a kComplete a' (todo a) OK false
| enq_some a' puts : closed = false -> run_callback a <> RunClose -> same_attempt a a' -> enq_ok a' -> todo a = puts ++ todo a' -> puts <> [] -> todo a' <> [] -> Z.of_nat (size + length puts) = capacity_ cfg ->
    elements_requested a' = elements_requested a - Z.of_nat (length puts) -> enq_result closed size a kProgress a' puts OK false
| enq_full : closed = false -> run_callback a <> RunClose -> capacity_ cfg <= Z.of_nat size -> enq_result closed size a kNoProgress a [] OK false.

Lemma after_moved s items' id s' : moved s items' s' -> after s items' id OK false s'.
Proof using. intros (qs & k & -> & H). by exists qs, k. Qed.

Lemma after_status s items id st : rep_q (queues_ s) items -> after s items id st false (update_status id st s).
Proof using. intros H. exists (queues_ s), (allocs s). split; [|done]. by rewrite <- shared_upd_id. Qed.

Lemma run_enq a s items : enq_ok a -> rep_q (queues_ s) items -> status_of (op_id (context a)) s = OK ->
  run_attempt junk cfg allocates a @ s ⇓ fun '(res, a') s' => exists puts st cl, enq_result (closed_ s) (length items) a res a' puts st cl /\ after s (items ++ puts) (op_id (context a)) st cl s'.
Proof using Hc Hall.
  intros [Hdone Hok] Hr Hst. pose proof n_pos as Hn. unfold run_attempt.
  assert (closed_ s = true -> (SetStatus (context a) (Err CANCELLED);; mret (kComplete, a)) @ s ⇓ fun '(res, a') s' => exists puts st cl, enq_result (closed_ s) (length items) a res a' puts st cl /\ after s (items ++ puts) (op_id (context a)) st cl s') as Hclosed.
  { intros Hcl. unfold SetStatus. wp_steps. exists [], (Err CANCELLED), false. split; [by constructor|]. rewrite app_nil_r. by apply after_status. }
  destruct (run_callback a) as [x|tup| | |] eqn:Hrun; try done.
  - destruct Hok as [Hx Hreq]. unfold run_enqueue. wp_step. wp_step. destruct (closed_ s) eqn:Hcl; [by apply Hclosed|]. wp_step. eapply queue_size_run; [done|done|]. rewrite capacity_size. destruct (Z.ltb_spec (Z.of_nat (length items)) (capacity_ cfg)) as [Hlt|Hge].
    + wp_step. eapply (push_components_run s x items); [by apply elem_length|done|by apply moved_start, moved_refl|]. intros s' Hs'. wp_steps. exists [x], OK, false. split; [|by eapply after_moved]. assert (todo a = [x]) as Et by (unfold todo; by rewrite Hrun). rewrite <- Et. constructor; [done|by rewrite Hrun|done|done|by rewrite Et|rewrite Et; cbn; lia].
    + wp_steps. exists [], OK, false. rewrite app_nil_r. split; [constructor; [done|by rewrite Hrun|done]|]. by eapply after_moved, moved_refl.
  - destruct Hok as (d & r & Hm & Hreq & Hrd). unfold run_enqueue_many. wp_step. wp_step. destruct (closed_ s) eqn:Hcl; [by apply Hclosed|]. eapply wp_mono; [apply (enqueue_many_loop_run d tup s Hm _ r a kNoProgress items); [done|done|done|lia|done|by apply moved_refl]|].
    cbn beta. intros [res a'] s' (j & Hj & -> & Hmv & Hcap & Hres). exists (take j (todo a)), OK, false. split; [|by eapply after_moved]. pose proof (todo_length a tup d r Hn Hrun Hm Hreq ltac:(lia)) as Hlen. destruct (Nat.eqb_spec j r) as [->|Hne].
    + subst res. rewrite take_ge by lia. constructor; [done|by rewrite Hrun|done|done|intros E; rewrite E in Hlen; cbn in Hlen; lia|lia].
    + destruct Hres as [Hfull ->]. destruct (Nat.eqb_spec j 0) as [->|H0].
      * rewrite take_0, Nat.sub_0_r, <- Hreq. replace (with_requested (elements_requested a) a) with a by by destruct a. constructor; [done|by rewrite Hrun|lia].
      * assert (todo (with_requested (Z.of_nat (r - j)) a) = drop j (todo a)) as Et. { rewrite (todo_many a tup d r), (todo_many (with_requested _ a) tup d (r - j)) by (done || lia). rewrite drop_drop. f_equal. lia. }
        assert (length (take j (todo a)) = j) as Hlj by (rewrite length_take; lia). constructor; [done|by rewrite Hrun|done| |by rewrite Et, take_drop| | |lia|cbn; lia].
        -- split; [done|]. cbn. rewrite Hrun. exists d, (r - j)%nat. split_and!; [done|done|lia|lia].
        -- intros E. rewrite E in Hlj. cbn in Hlj. lia.
        -- rewrite Et. intros E. apply (f_equal length) in E. rewrite length_drop in E. cbn in E. lia.
  - unfold run_close. wp_step. wp_step. destruct (closed_ s) eqn:Hcl; [by apply Hclosed|]. wp_steps. exists [], OK, true. rewrite app_nil_r. split; [by constructor|]. exists (queues_ s), (allocs s). split; [by destruct s|done].
Qed.

(** An attempt that fills a batch for [m] elements and has [xs]. *)
Definition fills (m : nat) (xs : list Tuple) (a : Attempt) : Prop :=
  Forall elem_ok xs /\ (length xs < m)%nat /\ Z.of_nat m < 2 ^ 31 /\ elements_requested a = Z.of_nat m - Z.of_nat (length xs) /\ (xs = [] /\ attempt_tuple a = [] \/ xs <> [] /\ is_batch m xs (attempt_tuple a)).

Lemma fills_held m xs a : specified_shapes cfg = true -> fills m xs a -> held a = xs.
Proof using Hc. intros Hs (Hxs & Hm & _ & Hr & [[-> Ht]|[_ Hb]]); [apply held_none; [cbn in Hr; lia|done]|]. eapply held_batch; [apply n_pos|done|done| |done|done]. lia. Qed.

Lemma is_batch_first m xs tup : is_batch m xs tup -> exists t, tup !! 0%nat = Some t /\ shape t = Z.of_nat m :: shape_of 0 /\ tup <> [].
Proof using Hc. intros [_ Hb]. pose proof n_pos. destruct (Hb 0%nat ltac:(lia)) as (t & Ht & Hbt). exists t. split_and!; [done|apply Hbt|by intros ->]. Qed.

Lemma dequeue_many_loop_run m s0 : specified_shapes cfg = true -> forall items xs a result s, Forall elem_ok items -> fills m xs a -> status_of (op_id (context a)) s0 = OK -> moved s0 items s ->
  dequeue_many_loop junk cfg allocates (length items) result a @ s ⇓ fun '(res, a') s' => same_attempt a a' /\
    if decide (length items < m - length xs)%nat then res = (match items with [] => result | _ => kProgress end) /\ done_callback a' = done_callback a /\ fills m (xs ++ items) a' /\ moved s0 [] s'
    else res = kComplete /\ done_callback a' = Some (WithTuple (context a) (batch (xs ++ take (m - length xs) items))) /\ moved s0 (drop (m - length xs) items) s'.
Proof using Hc Hall.
  intros Hs. pose proof n_pos as Hn. induction items as [|x items IH]; intros xs a result s Hok Hfill Hst Hmv; cbn [dequeue_many_loop length].
  { wp_steps. split; [done|]. pose proof Hfill as (_ & ? & _). rewrite decide_True by lia. by rewrite app_nil_r. }
  apply Forall_cons in Hok as [Hx Hok]. pose proof Hfill as (Hxs & Hlt & Hm & Hr & Hb). wp_step.
  assert (match attempt_tuple a with [] => allocate_batch junk cfg allocates (elements_requested a) (context a) [] 0 n | t => mret (true, t) end @ s ⇓ fun '(b, tup) s' => b = true /\ is_batch m xs tup /\ moved s0 (x :: items) s') as Halloc.
  { destruct Hb as [[-> Ht]|[Hne Hb]].
    - rewrite Ht, Hr. cbn [length]. rewrite Z.sub_0_r. rewrite (shared_upd_id s) at 1. apply (allocate_batch_run Hc Hs Hall (Z.of_nat m)); [lia|by rewrite (moved_status s0 (x :: items) s)|lia|done|done|intros j Hj; lia|]. intros k tup Htup. rewrite Nat2Z.id in Htup. split_and!; [done|done|]. destruct Hmv as (qs & k' & -> & Hq). by exists qs, k.
    - destruct (is_batch_first m xs _ Hb) as (t & _ & _ & Hne'). destruct (attempt_tuple a) as [|t' tup]; [done|]. wp_steps. done. }
  eapply wp_mono; [exact Halloc|]. cbn beta. intros [b tup] s1 (-> & Htup & Hmv1). cbn [negb]. destruct (is_batch_first m xs tup Htup) as (t & Ht & Hsh & _).
  wp_step. eapply (DequeueLocked_run s1 x items); [done|by apply elem_length|by eapply moved_rep|]. intros s2 Hmv2. assert (moved s0 items s2) as Hmv2' by (destruct Hmv1 as (qs & k & -> & _), Hmv2 as (qs' & k' & -> & ?); by exists qs', k'). clear Hmv1 Hmv2.
  wp_step. eapply wp_of_option; [done|]. wp_step. unfold dim0. rewrite Hsh. wp_step. cbn [elements_requested with_tuple]. replace (Z.of_nat m - elements_requested a) with (Z.of_nat (length xs)) by lia.
  wp_step. eapply (copy_components_run Hc Hs m xs x); [done|done|lia|by rewrite (moved_status s0 items s2)|done| |]. { destruct Htup as [Hl Hcols]. split; [done|]. intros j Hj. destruct (Hcols j Hj) as (u & Hu & Hbu). exists u. split; [exact Hu|exact Hbu]. }
  intros tup' Htup'. cbn [negb]. assert (Forall elem_ok (xs ++ [x])) as Hxs1 by (apply Forall_app; split; [done|by constructor]). set (a1 := with_requested (elements_requested a - 1) (with_tuple tup' (with_tuple tup a))). change (elements_requested a1) with (elements_requested a - 1). destruct (Z.eqb_spec (elements_requested a - 1) 0) as [H0|H0].
  - wp_steps. split; [done|]. assert (m = S (length xs)) as Em by lia. rewrite decide_False by lia. rewrite Em. replace (S (length xs) - length xs)%nat with 1%nat by lia. cbn [take drop]. split_and!; [done| |done]. cbn. do 2 f_equal. apply (full_batch Hs); [done|]. rewrite length_app. cbn. by rewrite Nat.add_1_r, <- Em.
  - assert (fills m (xs ++ [x]) a1) as Hfill1. { split_and!; [done|rewrite length_app; cbn; lia|done|rewrite length_app; cbn; lia|]. right. split; [by destruct xs|done]. }
    eapply wp_mono; [eapply (IH (xs ++ [x]) a1 kProgress s2); [done|exact Hfill1|done|done]|]. cbn beta. intros [res a'] s' [Hsame Hres]. split; [exact Hsame|]. rewrite length_app in Hres. cbn [length] in Hres. destruct (decide (length items < m - (length xs + 1))%nat) as [Hd|Hd].
    + rewrite decide_True by lia. destruct Hres as (-> & Hdone & Hf & Hmv'). rewrite <- app_assoc in Hf. split_and!; [by destruct items|done|done|done].
    + rewrite decide_False by lia. destruct Hres as (-> & Hdone & Hmv'). replace (m - length xs)%nat with (S (m - (length xs + 1))) by lia. cbn [take drop]. rewrite <- app_assoc in Hdone. done.
Qed.

Definition small (a : Attempt) : bool := match run_callback a with RunDequeueMany b => b | _ => false end.

(** The result, what is delivered, what remains in the queue, and the status.  A queue that is
    closed fails attempts that it cannot satisfy, or gives what there is. *)
Inductive deq_result (closed waiting : bool) (items : list Tuple) (a : Attempt) : RunResult -> Attempt -> option (list Tuple) -> list Tuple -> Status -> Prop :=
| deq_done a' xs items' : held a ++ items = xs ++ items' -> xs <> [] -> same_attempt a a' -> done_callback a' = Some (WithTuple (context a) (delivery a xs)) ->
    Z.of_nat (length xs) = elements_requested a + Z.of_nat (length (held a)) \/ (closed = true /\ small a = true /\ items' = [] /\ Z.of_nat (length xs) < elements_requested a + Z.of_nat (length (held a))) ->
    deq_result closed waiting items a kComplete a' (Some xs) items' OK
| deq_fail : closed = true -> Z.of_nat (length items) < elements_requested a -> small a = false \/ held a ++ items = [] -> deq_result closed waiting items a kComplete a None (held a ++ items) (Err OUT_OF_RANGE)
| deq_part a' : closed = false -> items <> [] -> same_attempt a a' -> deq_ok a' -> held a' = held a ++ items -> elements_requested a' = elements_requested a - Z.of_nat (length items) -> deq_result closed waiting items a kProgress a' None [] OK
| deq_wait : closed = false -> items = [] -> deq_result closed waiting items a kNoProgress a None [] OK
| deq_yield : closed = true -> waiting = true -> held a ++ items = [] -> deq_result closed waiting items a kProgress a None [] OK.

Definition is_waiting (s : shared) : bool := match enqueue_attempts_ s with [] => false | _ => true end.

Lemma run_deq a s items : deq_ok a -> Forall elem_ok items -> rep_q (queues_ s) items -> status_of (op_id (context a)) s = OK ->
  run_attempt junk cfg allocates a @ s ⇓ fun '(res, a') s' => exists out items' st, deq_result (closed_ s) (is_waiting s) items a res a' out items' st /\ after s items' (op_id (context a)) st false s'.
Proof using Hc Hall.
  intros [Hdone Hok] Hit Hr Hst. pose proof n_pos as Hn. unfold run_attempt. destruct (run_callback a) as [| | |sm|] eqn:Hrun; try done.
  - destruct Hok as [Hreq Ht]. assert (held a = []) as Hh by (apply held_none; [lia|done]). assert (small a = false) as Hsm by (unfold small; by rewrite Hrun). unfold run_dequeue. wp_step. eapply queue_size_run; [done|done|]. wp_step. wp_step. destruct items as [|x items].
    + cbn [length]. destruct (closed_ s) eqn:Hcl; cbn [andb Z.eqb Z.ltb].
      * unfold SetStatus. wp_steps. exists None, [], (Err OUT_OF_RANGE). split; [|by apply after_status]. replace (@nil Tuple) with (held a ++ []) at 2 by by rewrite Hh. constructor; [done|cbn; lia|by left].
      * wp_steps. exists None, [], OK. split; [by constructor|]. by eapply after_moved, moved_refl.
    + apply Forall_cons in Hit as [Hx Hit]. rewrite (proj2 (Z.eqb_neq _ 0)), andb_false_r by (cbn [length]; lia). rewrite (proj2 (Z.ltb_lt 0 _)) by (cbn [length]; lia). wp_step. eapply (DequeueLocked_run s x items); [done|by apply elem_length|done|]. intros s' Hs'. wp_steps. exists (Some [x]), items, OK. split; [|by eapply after_moved].
      constructor; [by rewrite Hh|done|done|cbn; unfold delivery; by rewrite Hrun|]. left. rewrite Hh, Hreq. done.
  - destruct Hok as [Hs (m & xs & Hf)]. fold (fills m xs a) in Hf. pose proof (fills_held m xs a Hs Hf) as Hh. assert (small a = sm) as Hsm by (unfold small; by rewrite Hrun). pose proof Hf as (Hxs & Hlt & Hm & Hreq & Hb). unfold run_dequeue_many. wp_step. eapply queue_size_run; [done|done|]. wp_step. wp_step.
    assert (forall l, delivery a l = batch l) as Hdel by (intros l; unfold delivery; by rewrite Hrun).
    destruct (closed_ s && (Z.of_nat (length items) <? elements_requested a)) eqn:Hshort.
    + apply andb_true_iff in Hshort as [Hcl Hlen%Z.ltb_lt]. wp_step.
      assert (match attempt_tuple a with [] => mret tt | t :: _ => d ← dim0 t; restore junk cfg allocates (attempt_tuple a) (context a) (Z.to_nat (d - elements_requested a)) end @ s ⇓ fun _ s' => moved s (xs ++ items) s') as Hrest.
      { destruct Hb as [[-> Ht]|[Hne Hb]]; [rewrite Ht; wp_steps; by apply moved_refl|]. destruct (is_batch_first m xs _ Hb) as (t & Ht & Hsh & _). destruct (attempt_tuple a) as [|t' tup] eqn:Etup; [done|]. cbn in Ht. injection Ht as ->. wp_step. unfold dim0. rewrite Hsh. wp_step. replace (Z.to_nat (Z.of_nat m - elements_requested a)) with (length xs) by lia.
        eapply (restore_run Hc Hs Hall m xs (t :: tup) (context a) s items); [done|done|lia|lia|rewrite drop_ge by lia; by apply moved_refl|done]. }
      eapply wp_mono; [exact Hrest|]. cbn beta. intros _ s1 Hmv. wp_step. eapply queue_size_run; [done|by eapply moved_rep|]. rewrite length_app. destruct (sm && negb (Z.of_nat (length xs + length items) =? 0)) eqn:Esm.
      * apply andb_true_iff in Esm as [-> E0%negb_true_iff%Z.eqb_neq]. rewrite Nat2Z.id, i32_small by lia. set (a1 := with_requested _ (with_tuple [] a)). assert (fills (length (xs ++ items)) [] a1) as Hf1. { split_and!; [constructor|rewrite length_app; cbn; lia|rewrite length_app; lia|cbn; rewrite length_app; lia|by left]. }
        rewrite <- length_app. eapply wp_mono; [apply (dequeue_many_loop_run (length (xs ++ items)) s Hs (xs ++ items) [] a1); [by apply Forall_app|done|done|done]|]. cbn beta. intros [res a'] s' [Hsame Hres]. cbn [length] in Hres. rewrite Nat.sub_0_r, decide_False, take_ge, drop_ge in Hres by lia. destruct Hres as (-> & Hd & Hmv').
        exists (Some (xs ++ items)), [], OK. split; [|by eapply after_moved]. constructor; [by rewrite Hh, app_nil_r|intros E; apply (f_equal length) in E; rewrite length_app in E; cbn in E; lia|exact Hsame|by rewrite Hdel|]. right. rewrite length_app, Hh, Hreq. split_and!; [done|done|done|lia].
      * wp_step. wp_step. assert (sm = false \/ xs ++ items = []) as Hwhy. { destruct sm; [right|by left]. cbn in Esm. apply negb_false_iff, Z.eqb_eq in Esm. apply nil_length_inv. rewrite length_app. lia. }
        assert (enqueue_attempts_ s1 = enqueue_attempts_ s /\ status_of (op_id (context a)) s1 = OK) as [-> Hst1] by (destruct Hmv as (qs & k & -> & _); done). fold (is_waiting s). destruct (sm && is_waiting s) eqn:Ew.
        -- apply andb_true_iff in Ew as [-> Ew]. destruct Hwhy as [?|E]; [done|]. wp_steps. exists None, [], OK. split; [by constructor; rewrite ?Hh|]. rewrite E in Hmv. by eapply after_moved.
        -- wp_step. apply status_ok_run; [done|]. unfold SetStatus. wp_steps. exists None, (xs ++ items), (Err OUT_OF_RANGE). split; [rewrite <- Hh; constructor; [done|done|by rewrite Hsm, Hh]|]. destruct Hmv as (qs & k & -> & Hq). by exists qs, k.
    + rewrite Nat2Z.id. destruct items as [|x items].
      { apply andb_false_iff in Hshort as [Hcl|?%Z.ltb_ge]; [|cbn in *; lia]. cbn [length dequeue_many_loop]. wp_steps. exists None, [], OK. split; [by constructor|]. by eapply after_moved, moved_refl. }
      eapply wp_mono; [apply (dequeue_many_loop_run m s Hs (x :: items) xs a); [done|done|done|by apply moved_refl]|]. cbn beta. intros [res a'] s' [Hsame Hres]. destruct (decide (length (x :: items) < m - length xs)%nat) as [Hd|Hd].
      * destruct Hres as (-> & Hdone' & Hf' & Hmv). apply andb_false_iff in Hshort as [Hcl|?%Z.ltb_ge]; [|lia]. exists None, [], OK. split; [|by eapply after_moved].
        constructor; [done|done|done| |by rewrite Hh, (fills_held m _ a' Hs Hf')|]. 2:{ destruct Hf' as (_ & _ & _ & -> & _). rewrite Hreq, length_app. lia. } split; [rewrite Hdone', Hdone; by rewrite (proj1 Hsame)|]. rewrite (proj1 (proj2 (proj2 (proj2 Hsame)))), Hrun. split; [done|]. by exists m, (xs ++ x :: items).
      * destruct Hres as (-> & Hdone' & Hmv). exists (Some (xs ++ take (m - length xs) (x :: items))), (drop (m - length xs) (x :: items)), OK. split; [|by eapply after_moved]. constructor; [by rewrite Hh, <- app_assoc, take_drop| |done|by rewrite Hdel|].
        -- intros E. apply (f_equal length) in E. rewrite length_app, length_take in E. cbn in E. lia.
        -- left. rewrite Hh, Hreq, length_app, length_take. lia.
Qed.
End running.
End queue.
