(* ===== verification/FifoQueueFlush.v ===== *)
(** * Queues of tensors: flushing

    The history of a queue: which elements went in and out and for which operation.  Flushing
    ends, accounts for every element, and leaves only attempts that have to wait. *)

From S2P Require Import Prelude Cancellation FifoQueue FifoQueueProofs.
Import Cancellation FifoQueue.

#[local] Open Scope runtime_scope.

Section queue.
Context {V : Type} (junk : V) (cfg : Config) (allocates : nat -> bool).

Abbreviation Tensor := (Tensor (V := V)).
Abbreviation Tuple := (list Tensor).
Abbreviation Attempt := (Attempt (V := V)).
Abbreviation shared := (shared (V := V)).
Abbreviation call_ := (call_ (V := V)).
Abbreviation n := (num_components cfg).
Abbreviation rep_q qs items := (part_q cfg qs 0 items items).

(** ** Histories *)

(** An operation put an element into the queue, got elements, or held elements when it was
    cancelled. *)
Inductive hevent := Put (id : nat) (x : Tuple) | Get (id : nat) (xs : list Tuple) | Lost (id : nat) (xs : list Tuple).

(** The abstract queue: what it holds after a history. *)
Inductive fifo : list hevent -> list Tuple -> Prop :=
| fifo_empty : fifo [] []
| fifo_put h q id x : fifo h q -> fifo (h ++ [Put id x]) (q ++ [x])
| fifo_get h q id xs : fifo h (xs ++ q) -> fifo (h ++ [Get id xs]) q
| fifo_lost h q id xs : fifo h (xs ++ q) -> fifo (h ++ [Lost id xs]) q.

Lemma fifo_puts h q id xs : fifo h q -> fifo (h ++ map (Put id) xs) (q ++ xs).
Proof.
  revert h q. induction xs as [|x xs IH]; intros h q Hq; cbn; [by rewrite !app_nil_r|]. specialize (IH _ _ (fifo_put h q id x Hq)). by rewrite <- !app_assoc in IH.
Qed.

(** [turns l k l']: the operations [k] were served in the order in which they wait in [l], each
    of them perhaps several times, and [l'] waits afterwards. *)
Inductive turns : list nat -> list nat -> list nat -> Prop :=
| turns_end l : turns l [] l
| turns_serve i l k l' : turns (i :: l) k l' -> turns (i :: l) (i :: k) l'
| turns_next i l k l' : turns l k l' -> turns (i :: l) k l'.

Lemma turns_trans l k l1 : turns l k l1 -> forall k' l2, turns l1 k' l2 -> turns l (k ++ k') l2.
Proof. induction 1 as [|i l k l' _ IH|i l k l' _ IH]; intros k' l2 H2; [done|apply turns_serve, IH, H2|apply turns_next, IH, H2]. Qed.

Lemma turns_repeat i l n l' : turns (i :: l) [] l' -> turns (i :: l) (replicate n i) l'.
Proof. intros H. induction n as [|n IH]; [done|]. by apply turns_serve. Qed.

Definition put_ids (ev : list hevent) : list nat := omap (fun e => match e with Put i _ => Some i | _ => None end) ev.
Definition get_ids (ev : list hevent) : list nat := omap (fun e => match e with Get i _ => Some i | _ => None end) ev.

Lemma put_ids_puts id xs : put_ids (map (Put id) xs) = replicate (length xs) id /\ get_ids (map (Put id) xs) = [].
Proof. unfold put_ids, get_ids. induction xs as [|x xs [IH1 IH2]]; cbn; [done|]. by rewrite IH1, IH2. Qed.

Definition puts_of (id : nat) (h : list hevent) : list Tuple := omap (fun e => match e with Put i x => if decide (i = id) then Some x else None | _ => None end) h.
Definition gets_of (id : nat) (h : list hevent) : list (list Tuple) := omap (fun e => match e with Get i xs => if decide (i = id) then Some xs else None | _ => None end) h.
Definition lost_of (id : nat) (h : list hevent) : list (list Tuple) := omap (fun e => match e with Lost i xs => if decide (i = id) then Some xs else None | _ => None end) h.

(** The elements that a call puts into the queue. *)
Definition elements (c : call_) : list Tuple :=
  match c with CEnqueue _ x => [x] | CEnqueueMany _ tup => elements_of tup (Z.to_nat (first_dim tup)) | _ => [] end.

(** What the history says of an operation. *)
Definition view (id : nat) (h : list hevent) := (puts_of id h, gets_of id h, lost_of id h).

Definition hid (e : hevent) : nat := match e with Put i _ | Get i _ | Lost i _ => i end.

Lemma view_other id h ev : Forall (fun e => hid e <> id) ev -> view id (h ++ ev) = view id h.
Proof.
  intros Hev. unfold view, puts_of, gets_of, lost_of. rewrite !omap_app. assert (forall {B} (f : hevent -> option B), (forall e, hid e <> id -> f e = None) -> omap f ev = []) as Hnil.
  { intros B f Hf. induction Hev as [|e ev He _ IH]; [done|]. cbn. by rewrite Hf. }
  rewrite !Hnil, !app_nil_r; [done|..]; intros [] ?; cbn in *; try done; by rewrite decide_False.
Qed.

Lemma view_puts id h xs : view id (h ++ map (Put id) xs) = (puts_of id h ++ xs, gets_of id h, lost_of id h).
Proof.
  unfold view, puts_of, gets_of, lost_of. rewrite !omap_app. f_equal; [f_equal|]; (f_equal || rewrite <- (app_nil_r (omap _ h)) at 2; f_equal); induction xs as [|x xs IH]; cbn; rewrite ?decide_True by done; (done || by f_equal).
Qed.

(** ** Attempts and operations *)

Definition att_ids (a : Attempt) : list nat := if is_cancelled a then [] else [op_id (context a)].
Definition ids_of (l : list Attempt) : list nat := concat (map att_ids l).
Definition ids (s : shared) : list nat := ids_of (enqueue_attempts_ s) ++ ids_of (dequeue_attempts_ s).

(** What the attempts that are not cancelled hold of their batches. *)
Definition holding (a : Attempt) : list Tuple := if is_cancelled a then [] else held a.

Fixpoint front_holds (l : list Attempt) : Prop :=
  match l with [] => True | a :: l => if is_cancelled a then front_holds l else Forall (fun b => holding b = []) l end.

Definition matches (c : call_) (a : Attempt) : Prop :=
  match c, run_callback a with
  | CEnqueue _ x, RunEnqueue y => x = y
  | CEnqueueMany _ tup, RunEnqueueMany tup' => tup = tup'
  | CDequeue _, RunDequeue => True
  | CDequeueMany _ num sm, RunDequeueMany sm' => sm' = sm /\ elements_requested a + Z.of_nat (length (held a)) = num
  | CClose _ _, RunClose => True
  | _, _ => False
  end.

Section history.
Context (calls : list call_).

(** The account of an attempt: what it has put in and still has to are its elements. *)
Definition account (h : list hevent) (a : Attempt) : Prop :=
  exists c, calls !! op_id (context a) = Some c /\ matches c a /\ puts_of (op_id (context a)) h ++ todo a = elements c /\ gets_of (op_id (context a)) h = [] /\ lost_of (op_id (context a)) h = [].

(** What an operation that succeeds returns. *)
Definition delivers (c : call_) (out : Tuple) (gets : list (list Tuple)) : Prop :=
  match c with
  | CDequeue _ => exists x, gets = [[x]] /\ out = x
  | CDequeueMany _ num sm => (num = 0 /\ gets = [] /\ out = batch cfg []) \/ exists xs, gets = [xs] /\ out = batch cfg xs /\ (Z.of_nat (length xs) = num \/ sm = true /\ 0 < Z.of_nat (length xs) < num)
  | _ => gets = [] /\ out = []
  end.

(** The account of an operation with a status and a result. *)
Definition finishes (h : list hevent) (id : nat) (st : Status) (out : Tuple) : Prop :=
  exists c rest, calls !! id = Some c /\ puts_of id h ++ rest = elements c
  /\ match st with
     | Ok _ => rest = [] /\ delivers c out (gets_of id h) /\ lost_of id h = []
     | Err e => gets_of id h = [] /\ (lost_of id h = [] \/ e = CANCELLED)
     end.

Definition callback_ctx (d : DoneCallback (V := V)) : Context := match d with Plain ctx | WithTuple ctx _ => ctx end.
Definition callback_out (d : DoneCallback (V := V)) : Tuple := match d with Plain _ => [] | WithTuple _ t => t end.
(** A callback of an operation that is done. *)
Definition callback_ok (h : list hevent) (s : shared) (d : DoneCallback) : Prop :=
  finishes h (op_id (callback_ctx d)) (status_of (op_id (callback_ctx d)) s) (callback_out d)
  /\ (status_of (op_id (callback_ctx d)) s = OK -> match d with Plain _ => True | WithTuple _ t => length t = n end).

Definition live_ok (P : Attempt -> Prop) (h : list hevent) (s : shared) (a : Attempt) : Prop :=
  is_cancelled a = false -> P a /\ account h a /\ status_of (op_id (context a)) s = OK /\ (cancellation_manager (context a) < length (managers s))%nat.

(** The invariant of the state that the mutex of the queue protects. *)
Record locked (h : list hevent) (s : shared) (items : list Tuple) : Prop := {
  l_rep : rep_q (queues_ s) items;
  l_items : Forall (elem_ok cfg) items;
  l_enq : Forall (live_ok (enq_ok cfg) h s) (enqueue_attempts_ s);
  l_deq : Forall (live_ok (deq_ok cfg) h s) (dequeue_attempts_ s);
  l_front : front_holds (dequeue_attempts_ s);
  l_fifo : fifo h (concat (map holding (dequeue_attempts_ s)) ++ items);
  l_capacity : closed_ s = false -> Z.of_nat (length items) <= capacity_ cfg;
  l_ids : NoDup (ids s)
}.

(** ** Progress of the attempts *)

Definition cleanup_ok (h : list hevent) (s : shared) (c : CleanUp) : Prop := callback_ok h s (finished c) /\ (cm c < length (managers s))%nat.
Definition cleanup_id (c : CleanUp (V := V)) : nat := op_id (callback_ctx (finished c)).

(** The operations that wait were served in turn. *)
Definition in_turns (h : list hevent) (s : shared) (h' : list hevent) (s' : shared) : Prop :=
  exists ev, h' = h ++ ev /\ turns (ids_of (enqueue_attempts_ s)) (put_ids ev) (ids_of (enqueue_attempts_ s')) /\ turns (ids_of (dequeue_attempts_ s)) (get_ids ev) (ids_of (dequeue_attempts_ s')).

Lemma in_turns_same h s s' : enqueue_attempts_ s' = enqueue_attempts_ s -> dequeue_attempts_ s' = dequeue_attempts_ s -> in_turns h s h s'.
Proof. unfold in_turns. intros -> ->. exists []. rewrite app_nil_r. split_and!; [done|constructor|constructor]. Qed.

Lemma in_turns_trans h s h1 s1 h2 s2 : in_turns h s h1 s1 -> in_turns h1 s1 h2 s2 -> in_turns h s h2 s2.
Proof.
  intros (e1 & -> & P1 & G1) (e2 & -> & P2 & G2). exists (e1 ++ e2). unfold put_ids, get_ids. rewrite !omap_app. split_and!; [by rewrite app_assoc|by eapply turns_trans|by eapply turns_trans].
Qed.

Record advances (h : list hevent) (s : shared) (h' : list hevent) (s' : shared) (new : list CleanUp) : Prop := {
  a_ids : ids s ≡ₚ ids s' ++ map cleanup_id new;
  a_others : forall id, id ∉ ids s -> view id h' = view id h /\ status_of id s' = status_of id s;
  a_new : Forall (cleanup_ok h' s') new;
  a_managers : managers s' = managers s;
  a_log : log s' = log s;
  a_closed : closed_ s = true -> closed_ s' = true;
  a_turns : in_turns h s h' s'
}.

Lemma finishes_view h h' id st out : view id h' = view id h -> finishes h id st out -> finishes h' id st out.
Proof. unfold view. intros [= E1 E2 E3]. unfold finishes. by rewrite E1, E2, E3. Qed.

Lemma account_view h h' a : view (op_id (context a)) h' = view (op_id (context a)) h -> account h a -> account h' a.
Proof. unfold view. intros [= E1 E2 E3]. unfold account. by rewrite E1, E2, E3. Qed.

Lemma advances_refl h s : advances h s h s [].
Proof. constructor; try done; [cbn; by rewrite app_nil_r|by apply in_turns_same]. Qed.

Lemma advances_trans h s h1 s1 new1 h2 s2 new2 : NoDup (ids s) -> advances h s h1 s1 new1 -> advances h1 s1 h2 s2 new2 -> advances h s h2 s2 (new1 ++ new2).
Proof.
  intros Hnd [A1 A2 A3 A4 A5 A6 A7] [B1 B2 B3 B4 B5 B6 B7]. assert (forall id, id ∉ ids s -> id ∉ ids s1) as Hsub by (intros id Hid Hin; apply Hid; rewrite A1; apply elem_of_app; by left). constructor.
  - rewrite A1, B1, map_app, <- app_assoc. f_equiv. apply Permutation_app_comm.
  - intros id Hid. destruct (A2 id Hid), (B2 id (Hsub id Hid)). split; congruence.
  - apply Forall_app. split; [|done]. apply List.Forall_forall. intros c Hc. rewrite List.Forall_forall in A3. destruct (A3 c Hc) as [Hok Hcm]. assert (cleanup_id c ∉ ids s1) as Hnot. { rewrite A1 in Hnd. apply NoDup_app in Hnd as (_ & Hd & _). intros Hin. apply (Hd _ Hin). apply list_elem_of_fmap. exists c. split; [done|]. by apply list_elem_of_In. }
    destruct (B2 _ Hnot) as [Ev Es]. split; [|by rewrite B4]. unfold callback_ok in *. fold (cleanup_id c) in *. rewrite Es. destruct Hok as [Hok Hlen]. split; [by eapply finishes_view|done].
  - congruence.
  - congruence.
  - auto.
  - by eapply in_turns_trans.
Qed.

(** ** One attempt *)

Lemma ids_of_elem a l : a ∈ l -> is_cancelled a = false -> op_id (context a) ∈ ids_of l.
Proof. intros Ha Hc. unfold ids_of. apply list_elem_of_In, in_concat. exists (att_ids a). split; [by apply in_map, list_elem_of_In|]. unfold att_ids. rewrite Hc. by left. Qed.

Lemma ids_of_live a l : is_cancelled a = false -> ids_of (a :: l) = op_id (context a) :: ids_of l.
Proof. intros H. unfold ids_of. cbn. unfold att_ids at 1. by rewrite H. Qed.

Lemma ids_of_cancelled a l : is_cancelled a = true -> ids_of (a :: l) = ids_of l.
Proof. intros H. unfold ids_of. cbn. unfold att_ids at 1. by rewrite H. Qed.

Lemma live_others P h s h' s' l : Forall (live_ok P h s) l -> managers s' = managers s -> (forall id, id ∈ ids_of l -> view id h' = view id h /\ status_of id s' = status_of id s) -> Forall (live_ok P h' s') l.
Proof.
  intros Hl Hm Hv. apply List.Forall_forall. intros a Ha Hc. rewrite List.Forall_forall in Hl. destruct (Hl a Ha Hc) as (H1 & H2 & H3 & H4). apply list_elem_of_In in Ha. destruct (Hv _ (ids_of_elem a l Ha Hc)) as [Ev Es]. split_and!; [done|by eapply account_view|congruence|by rewrite Hm].
Qed.

Lemma update_status_id id st (s : shared) : status_of id s = OK -> status_of id (update_status id st s) = st.
Proof. intros E. unfold update_status. destruct st as [[]|e]; [done|]. rewrite E. cbn. unfold status_of. cbn. by rewrite lookup_insert_eq. Qed.

Lemma update_status_ne id id' st (s : shared) : id' <> id -> status_of id' (update_status id st s) = status_of id' s.
Proof. intros Hne. unfold update_status. destruct st as [|e]; [done|]. destruct (ok (status_of id s)); [|done]. unfold status_of. cbn. by rewrite lookup_insert_ne. Qed.

(** The fields that [update_status] keeps. *)
Lemma update_status_fields id st (s : shared) : queues_ (update_status id st s) = queues_ s /\ closed_ (update_status id st s) = closed_ s /\ enqueue_attempts_ (update_status id st s) = enqueue_attempts_ s
  /\ dequeue_attempts_ (update_status id st s) = dequeue_attempts_ s /\ managers (update_status id st s) = managers s /\ log (update_status id st s) = log s.
Proof. unfold update_status. destruct st as [|e]; [done|]. by destruct (ok (status_of id s)). Qed.

Lemma after_fields (s : shared) items id st cl (s' : shared) : after cfg s items id st cl s' -> status_of id s = OK -> rep_q (queues_ s') items /\ closed_ s' = (cl || closed_ s) /\ enqueue_attempts_ s' = enqueue_attempts_ s /\ dequeue_attempts_ s' = dequeue_attempts_ s
  /\ managers s' = managers s /\ log s' = log s /\ status_of id s' = st /\ forall id', id' <> id -> status_of id' s' = status_of id' s.
Proof.
  intros (qs & k & -> & Hq) Hst. set (s0 := upd qs k (if cl then set_closed s else s)). destruct (update_status_fields id st s0) as (-> & -> & -> & -> & -> & ->). assert (forall i, status_of i s0 = status_of i s) as Es by (intros i; by destruct cl). split_and!; try (by destruct cl).
  - apply update_status_id. by rewrite Es.
  - intros id' Hne. by rewrite update_status_ne, Es.
Qed.

Lemma set_attempts_status act l id (s : shared) : status_of id (set_attempts act l s) = status_of id s.
Proof. by destruct act. Qed.

Definition cleanup_of (a : Attempt) (d : DoneCallback (V := V)) : CleanUp (V := V) := mkCleanUp d (cancellation_token a) (cancellation_manager (context a)).

Section enqueue_step.
Context (h : list hevent) (s : shared) (items : list Tuple) (front : Attempt) (rest : list Attempt).
Context (L : locked h s items) (Hfront : enqueue_attempts_ s = front :: rest) (Hlive : is_cancelled front = false).
Context (res : RunResult) (front' : Attempt) (puts : list Tuple) (st : Status) (cl : bool) (s1 : shared).
Context (Hres : enq_result cfg (closed_ s) (length items) front res front' puts st cl) (Haf : after cfg s (items ++ puts) (op_id (context front)) st cl s1).

Abbreviation id := (op_id (context front)).
Abbreviation h' := (h ++ map (Put id) puts).

Lemma front_ok : enq_ok cfg front /\ account h front /\ status_of id s = OK /\ (cancellation_manager (context front) < length (managers s))%nat.
Proof using L Hfront Hlive. pose proof (l_enq _ _ _ L) as He. rewrite Hfront in He. apply Forall_cons in He as [He _]. by apply He. Qed.

Lemma front_ids : ids s = id :: ids_of rest ++ ids_of (dequeue_attempts_ s).
Proof using Hfront Hlive. unfold ids. rewrite Hfront. by rewrite ids_of_live. Qed.

Lemma others_view i : i ∈ ids_of rest \/ i ∈ ids_of (dequeue_attempts_ s) -> i <> id.
Proof using L Hfront Hlive. intros Hi ->. pose proof (l_ids _ _ _ L) as Hnd. rewrite front_ids in Hnd. apply NoDup_cons in Hnd as [Hn _]. apply Hn, elem_of_app. tauto. Qed.

Lemma view_ne i : i <> id -> view i h' = view i h.
Proof using. intros Hne. apply view_other, Forall_map, List.Forall_forall. intros x _. cbn. congruence. Qed.

Lemma enq_items : Forall (elem_ok cfg) (items ++ puts).
Proof using L Hfront Hlive Hres Haf.
  apply Forall_app. split; [apply L|]. destruct front_ok as ([Hd Hok] & _). assert (Forall (elem_ok cfg) (todo front)) as Ht.
  { unfold todo. destruct (run_callback front) as [x|tup| | |]; [by constructor; [apply Hok|]| |constructor..]. destruct Hok as (d & r & Hm & Hr & Hrd). apply Forall_drop, List.Forall_forall. intros x (i & <- & Hi)%in_map_iff. apply in_seq in Hi. eapply element_ok; [done|]. destruct (decide (n = 0%nat)) as [Hn|Hn].
    - exfalso. unfold first_dim in Hi. pose proof (many_length cfg d tup Hm) as Hl. destruct tup; [cbn in Hi; lia|cbn in Hl; lia].
    - rewrite (first_dim_many cfg d tup Hn Hm) in Hi. lia. }
  destruct Hres; [constructor|constructor|done| |constructor]. rewrite H3 in Ht. by apply Forall_app in Ht as [? _].
Qed.

(** The state after the step, with the other attempts and perhaps the first one. *)
Lemma enq_locked l : (l = [] /\ res = kComplete \/ l = [front'] /\ res <> kComplete) -> locked h' (set_attempts kEnqueue (l ++ rest) s1) (items ++ puts).
Proof using L Hfront Hlive Hres Haf.
  intros Hl. destruct front_ok as (Hok & Hacc & Hst & Hcm). destruct (after_fields _ _ _ _ _ _ Haf Hst) as (F1 & F2 & F3 & F4 & F5 & F6 & F7 & F8). pose proof (l_ids _ _ _ L) as Hnd. rewrite front_ids in Hnd.
  assert (forall i, i ∈ ids_of rest \/ i ∈ ids_of (dequeue_attempts_ s) -> view i h' = view i h /\ status_of i (set_attempts kEnqueue (l ++ rest) s1) = status_of i s) as Hoth. { intros i Hi. apply others_view in Hi. split; [by apply view_ne|]. rewrite set_attempts_status. by apply F8. }
  set (s' := set_attempts kEnqueue (l ++ rest) s1) in *. assert (enqueue_attempts_ s' = l ++ rest /\ dequeue_attempts_ s' = dequeue_attempts_ s /\ managers s' = managers s) as (S1 & S2 & S3) by done. assert (status_of id s' = st) as S4 by (unfold s'; by rewrite set_attempts_status). constructor.
  - exact F1.
  - apply enq_items.
  - rewrite S1. apply Forall_app. split.
    + destruct Hl as [[-> _]|[-> Hne]]; [constructor|]. constructor; [|constructor]. destruct Hacc as (c & Hc & Hmat & Hputs & Hgets & Hlost). pose proof (view_puts id h puts) as Hv. unfold view in Hv. injection Hv as V1 V2 V3.
      destruct Hres as [| |a' Hcl Hnc Hsame|a' puts' Hcl Hnc (E1 & E2 & E3 & E4 & E5) Hok' Ht Hp Hne' Hcap Hreq|]; try done.
      * intros _. rewrite S3, E1, S4. split_and!; [done| |done|done]. exists c. rewrite E1. split_and!; [done| |by rewrite V1, <- app_assoc, <- Ht|congruence|congruence]. destruct Hok as [_ Hk]. unfold matches in *. rewrite E4. by destruct c, (run_callback front).
      * intros _. rewrite S3, S4. split_and!; [done| |done|done]. exists c. split_and!; [done|done|by rewrite V1, app_nil_r|congruence|congruence].
    + pose proof (l_enq _ _ _ L) as He. rewrite Hfront in He. apply Forall_cons in He as [_ He]. eapply live_others; [exact He|done|]. intros i Hi. apply Hoth. by left.
  - rewrite S2. eapply live_others; [apply L|done|]. intros i Hi. apply Hoth. by right.
  - rewrite S2. apply L.
  - rewrite S2, app_assoc. apply fifo_puts, L.
  - change (closed_ s') with (closed_ s1). rewrite F2. intros [-> Hcl]%orb_false_iff. rewrite length_app. pose proof (l_capacity _ _ _ L Hcl). destruct Hres; cbn [length]; lia || congruence.
  - unfold ids. rewrite S1, S2. destruct Hl as [[-> _]|[-> Hne]]; [by apply NoDup_cons in Hnd as [_ ?]|]. assert (context front' = context front /\ is_cancelled front' = is_cancelled front) as [Ec Ei] by (destruct Hres; unfold same_attempt in *; destruct_and?; done). cbn [app]. rewrite ids_of_live, Ec by congruence. done.
Qed.

Lemma enq_done : res = kComplete -> done_callback front' = Some (Plain (context front)) /\ finishes h' id st [] /\ same_attempt front front'.
Proof using L Hfront Hlive Hres Haf.
  intros Hr. destruct front_ok as ([Hd Hok] & (c & Hc & Hmat & Hputs & Hgets & Hlost) & _). pose proof (view_puts id h puts) as Hv. unfold view in Hv. injection Hv as V1 V2 V3. assert (gets_of id h' = [] /\ lost_of id h' = []) as [G1 G2] by (split; congruence).
  assert (match c with CDequeue _ | CDequeueMany _ _ _ => False | _ => True end) as Hkind by (unfold matches in Hmat; destruct c, (run_callback front); done). unfold finishes.
  destruct Hres as [Hcl|Hcl Hrun|a' Hcl Hnc Hsame Hdone Ht Hcap|a' puts' Hcl Hnc Hsame Hok' Ht Hp Hne Hcap Hreq|]; try done; (split; [congruence|split; [|done]]); exists c.
  - exists (todo front). rewrite V1, app_nil_r, G1, G2. split_and!; [done|done|done|by left].
  - exists []. assert (todo front = []) as Et by (unfold todo; by rewrite Hrun). rewrite Et, app_nil_r in Hputs. rewrite V1, G1, G2, !app_nil_r. split; [done|split; [done|split; [done|]]]. split; [by destruct c|done].
  - exists []. rewrite V1, G1, G2, app_nil_r. split; [done|split; [done|split; [done|]]]. split; [by destruct c|done].
Qed.

Lemma enq_advances l new : (l = [] /\ res = kComplete /\ new = [cleanup_of front' (Plain (context front))] \/ l = [front'] /\ res <> kComplete /\ new = []) -> advances h s h' (set_attempts kEnqueue (l ++ rest) s1) new.
Proof using L Hfront Hlive Hres Haf.
  intros Hl. destruct front_ok as (Hok & Hacc & Hst & Hcm). destruct (after_fields _ _ _ _ _ _ Haf Hst) as (F1 & F2 & F3 & F4 & F5 & F6 & F7 & F8). assert (context front' = context front /\ is_cancelled front' = is_cancelled front) as [Ec Ei] by (destruct Hres; unfold same_attempt in *; destruct_and?; done). constructor.
  - rewrite front_ids. unfold ids. cbn [enqueue_attempts_ dequeue_attempts_ set_attempts]. rewrite F4. destruct Hl as [(-> & _ & ->)|(-> & _ & ->)]; cbn [app map].
    + apply Permutation_cons_append.
    + rewrite ids_of_live, Ec, app_nil_r by congruence. done.
  - intros i Hi. rewrite set_attempts_status. rewrite front_ids in Hi. apply not_elem_of_cons in Hi as [Hne _]. split; [by apply view_ne|by apply F8].
  - destruct Hl as [(_ & Hr & ->)|(_ & _ & ->)]; [|constructor]. constructor; [|constructor]. split; [|cbn; by rewrite Ec, F5]. unfold callback_ok. cbn [callback_ctx callback_out finished cleanup_of]. rewrite set_attempts_status, F7. split; [by apply enq_done|done].
  - done.
  - done.
  - cbn. rewrite F2. intros ->. apply orb_true_r.
  - exists (map (Put id) puts). destruct (put_ids_puts id puts) as [-> ->]. cbn [enqueue_attempts_ dequeue_attempts_ set_attempts]. rewrite F4, Hfront, ids_of_live by done. split_and!; [done| |constructor]. apply turns_repeat. destruct Hl as [(-> & _)|(-> & _)]; cbn [app]; [apply turns_next; constructor|]. rewrite ids_of_live, Ec by congruence. constructor.
Qed.
End enqueue_step.

Lemma view_get id h xs : view id (h ++ [Get id xs]) = (puts_of id h, gets_of id h ++ [xs], lost_of id h).
Proof. unfold view, puts_of, gets_of, lost_of. rewrite !omap_app. cbn. rewrite decide_True by done. by rewrite !app_nil_r. Qed.

Lemma view_lost id h xs : view id (h ++ [Lost id xs]) = (puts_of id h, gets_of id h, lost_of id h ++ [xs]).
Proof. unfold view, puts_of, gets_of, lost_of. rewrite !omap_app. cbn. rewrite decide_True by done. by rewrite !app_nil_r. Qed.

Lemma none_hold l : Forall (fun b => holding b = []) l -> concat (map holding l) = [] /\ front_holds l.
Proof. induction 1 as [|b l Hb Hl IH]; [done|]. cbn. rewrite Hb. split; [apply IH|]. destruct (is_cancelled b); [apply IH|done]. Qed.

Lemma deq_held_ok (Hc : config_ok cfg) (a : Attempt) : deq_ok cfg a -> Forall (elem_ok cfg) (held a) /\ 0 < elements_requested a.
Proof.
  intros [_ Hok]. destruct (run_callback a); try done.
  - destruct Hok as [Hr Ht]. rewrite held_none by (done || lia). split; [constructor|lia].
  - destruct Hok as [Hs (m & xs & Hf)]. fold (fills cfg m xs a) in Hf. rewrite (fills_held cfg Hc m xs a Hs Hf). destruct Hf as (? & ? & ? & ? & _). split; [done|lia].
Qed.

(** What is delivered goes out. *)
Definition out_events (id : nat) (out : option (list Tuple)) : list hevent := match out with Some xs => [Get id xs] | None => [] end.

Lemma dview_ne i id h out : i <> id -> view i (h ++ out_events id out) = view i h.
Proof. intros Hne. apply view_other. destruct out; [|constructor]. constructor; [cbn; congruence|constructor]. Qed.

Section dequeue_step.
Context (Hcfg : config_ok cfg).
Context (h : list hevent) (s : shared) (items : list Tuple) (front : Attempt) (rest : list Attempt).
Context (L : locked h s items) (Hfront : dequeue_attempts_ s = front :: rest) (Hlive : is_cancelled front = false).
Context (res : RunResult) (front' : Attempt) (out : option (list Tuple)) (items' : list Tuple) (st : Status) (s1 : shared).
Context (Hres : deq_result cfg (closed_ s) (is_waiting s) items front res front' out items' st) (Haf : after cfg s items' (op_id (context front)) st false s1).

Abbreviation id := (op_id (context front)).
Abbreviation h' := (h ++ out_events id out).

Lemma dfront_ok : deq_ok cfg front /\ account h front /\ status_of id s = OK /\ (cancellation_manager (context front) < length (managers s))%nat.
Proof using L Hfront Hlive. pose proof (l_deq _ _ _ L) as He. rewrite Hfront in He. apply Forall_cons in He as [He _]. by apply He. Qed.

Lemma dfront_ids : ids s ≡ₚ id :: ids_of (enqueue_attempts_ s) ++ ids_of rest.
Proof using Hfront Hlive. unfold ids. rewrite Hfront, ids_of_live by done. by rewrite <- Permutation_middle. Qed.

Lemma dothers i : i ∈ ids_of (enqueue_attempts_ s) \/ i ∈ ids_of rest -> i <> id.
Proof using L Hfront Hlive. intros Hi ->. pose proof (l_ids _ _ _ L) as Hnd. rewrite dfront_ids in Hnd. apply NoDup_cons in Hnd as [Hn _]. apply Hn, elem_of_app. tauto. Qed.

Lemma drest_holds : Forall (fun b => holding b = []) rest /\ fifo h (held front ++ items).
Proof using L Hfront Hlive.
  pose proof (l_front _ _ _ L) as Hf. pose proof (l_fifo _ _ _ L) as Hi. rewrite Hfront in Hf, Hi. cbn in Hf, Hi. unfold holding at 1 in Hi. rewrite Hlive in Hf, Hi. split; [done|]. by rewrite (proj1 (none_hold rest Hf)), app_nil_r in Hi.
Qed.

Lemma deq_same : same_attempt front front'.
Proof using Hres Haf. by destruct Hres. Qed.

Lemma deq_items : Forall (elem_ok cfg) items' /\ (closed_ s = false -> (length items' <= length items)%nat).
Proof using Hcfg L Hfront Hlive Hres Haf.
  destruct (deq_held_ok Hcfg front (proj1 dfront_ok)) as [Hh Hr]. pose proof (l_items _ _ _ L) as Hit. assert (Forall (elem_ok cfg) (held front ++ items)) as Hall by (by apply Forall_app). destruct Hres as [a' xs items0 E Hx Hsame Hd Hlen|Hcl| | |]; try (split; [done|intros; cbn; lia]).
  - rewrite E in Hall. apply Forall_app in Hall as [_ ?]. split; [done|]. intros Hcl. apply (f_equal length) in E. rewrite !length_app in E. destruct Hlen as [?|(? & _)]; [lia|congruence].
  - split; [done|congruence].
Qed.

Lemma deq_locked l : (l = [] /\ res = kComplete \/ l = [front'] /\ res <> kComplete) -> locked h' (set_attempts kDequeue (l ++ rest) s1) items'.
Proof using Hcfg L Hfront Hlive Hres Haf.
  intros Hl. destruct dfront_ok as (Hok & Hacc & Hst & Hcm). destruct (after_fields _ _ _ _ _ _ Haf Hst) as (F1 & F2 & F3 & F4 & F5 & F6 & F7 & F8). pose proof (l_ids _ _ _ L) as Hnd. rewrite dfront_ids in Hnd. destruct drest_holds as [Hrest Hfifo]. destruct (none_hold rest Hrest) as [Hnone Hfh]. destruct deq_same as (E1 & E2 & E3 & E4 & E5).
  set (s' := set_attempts kDequeue (l ++ rest) s1). assert (enqueue_attempts_ s' = enqueue_attempts_ s /\ dequeue_attempts_ s' = l ++ rest /\ managers s' = managers s) as (S1 & S2 & S3) by done. assert (status_of id s' = st) as S4 by (unfold s'; by rewrite set_attempts_status).
  assert (forall i, i ∈ ids_of (enqueue_attempts_ s) \/ i ∈ ids_of rest -> view i h' = view i h /\ status_of i s' = status_of i s) as Hoth. { intros i Hi. apply dothers in Hi. split; [by apply dview_ne|]. unfold s'. rewrite set_attempts_status. by apply F8. }
  assert (l = [front'] -> res <> kComplete -> deq_ok cfg front' /\ out = None /\ st = OK /\ held front' ++ items' = held front ++ items /\ elements_requested front' + Z.of_nat (length (held front')) = elements_requested front + Z.of_nat (length (held front))) as Hstay.
  { intros _ Hne. destruct Hres as [| |a' Hcl Hi Hsame Hok' Hheld Hreq|Hcl Hi|Hcl Hw Hi]; try done; split_and!; try done.
    - by rewrite Hheld, app_nil_r.
    - rewrite Hheld, Hreq, length_app. lia.
    - by rewrite Hi.
    - by rewrite Hi in *; apply app_eq_nil in Hi as [-> _]. }
  constructor.
  - exact F1.
  - apply deq_items.
  - rewrite S1. eapply live_others; [apply L|done|]. intros i Hi. apply Hoth. by left.
  - rewrite S2. apply Forall_app. split.
    + destruct Hl as [[-> _]|[-> Hne]]; [constructor|]. destruct (Hstay eq_refl Hne) as (Hok' & Hout & Hst' & _ & Hwant). constructor; [|constructor]. intros _. rewrite S3, E1, S4. split_and!; [done| |done|done]. unfold out_events. rewrite Hout, app_nil_r. destruct Hacc as (c & Hc & Hmat & Hputs & Hgl). exists c. rewrite E1. split_and!; [done| | |apply Hgl|apply Hgl].
      * unfold matches in *. rewrite E4. destruct c, (run_callback front); try done. destruct Hmat as [? ?]. split; [done|lia].
      * unfold todo in *. rewrite E4. destruct Hok as [_ Hk]. by destruct (run_callback front).
    + pose proof (l_deq _ _ _ L) as He. rewrite Hfront in He. apply Forall_cons in He as [_ He]. eapply live_others; [exact He|done|]. intros i Hi. apply Hoth. by right.
  - rewrite S2. destruct Hl as [[-> _]|[-> Hne]]; [done|]. cbn. by rewrite E5, Hlive.
  - rewrite S2. assert (concat (map holding (l ++ rest)) = concat (map holding l)) as -> by (by rewrite map_app, concat_app, Hnone, app_nil_r). unfold out_events. destruct Hl as [[-> Hr]|[-> Hne]].
    + cbn. destruct Hres as [a' xs items0 E Hx Hsame Hd Hlen|Hcl| | |]; try done; [|by rewrite app_nil_r]. apply fifo_get. by rewrite <- E.
    + destruct (Hstay eq_refl Hne) as (_ & -> & _ & Heq & _). rewrite app_nil_r. cbn. unfold holding. by rewrite E5, Hlive, app_nil_r, Heq.
  - change (closed_ s') with (closed_ s1). rewrite F2. cbn. intros Hcl. pose proof (l_capacity _ _ _ L Hcl). pose proof (proj2 deq_items Hcl). lia.
  - unfold ids. rewrite S1, S2. destruct Hl as [[-> _]|[-> Hne]]; [by apply NoDup_cons in Hnd as [_ ?]|]. cbn [app]. rewrite ids_of_live, E1, <- Permutation_middle by congruence. done.
Qed.

Lemma deq_finishes : res = kComplete -> exists d, done_callback front' = Some d /\ callback_ctx d = context front /\ finishes h' id st (callback_out d) /\ (st = OK -> match d with Plain _ => True | WithTuple _ t => length t = n end).
Proof using Hcfg L Hfront Hlive Hres Haf.
  intros Hr. destruct dfront_ok as ([Hd Hok] & (c & Hc & Hmat & Hputs & Hgets & Hlost) & _). assert (todo front = []) as Et by (unfold todo; by destruct (run_callback front)). rewrite Et, app_nil_r in Hputs. unfold out_events.
  destruct Hres as [a' xs items0 E Hx Hsame Hdone Hlen|Hcl Hlt Hwhy| | |]; try done.
  - assert (Forall (elem_ok cfg) xs) as Hxs. { destruct (deq_held_ok Hcfg front ltac:(by split)) as [Hh _]. pose proof (l_items _ _ _ L) as Hit. assert (Forall (elem_ok cfg) (held front ++ items)) as Hall by (by apply Forall_app). rewrite E in Hall. by apply Forall_app in Hall as [? _]. }
    exists (WithTuple (context front) (delivery cfg front xs)). split; [done|split; [done|split]].
    2:{ intros _. unfold delivery. destruct (run_callback front); try done; [|unfold batch; by rewrite length_map, length_seq]. destruct xs as [|x xs]; [done|]. apply Forall_cons in Hxs as [Hx' _]. by apply elem_length. }
    pose proof (view_get id h xs) as Hv. unfold view in Hv. injection Hv as V1 V2 V3. exists c, []. rewrite V1, V2, V3, Hgets, Hlost, app_nil_r. split; [done|split; [done|split; [done|split; [|done]]]]. cbn [callback_out app]. unfold delivery, matches in *. destruct c, (run_callback front) eqn:Hrun; try done.
    + destruct Hok as [Hreq Ht]. rewrite held_none in Hlen by (done || lia). unfold small in Hlen. rewrite Hrun, Hreq in Hlen. destruct xs as [|x [|y xs]]; [done| |cbn in Hlen; destruct Hlen as [?|(_ & ? & _)]; [lia|done]]. by exists x.
    + destruct Hmat as [-> Hnum]. right. exists xs. split_and!; [done|done|]. destruct Hlen as [?|(_ & Hsm & _ & ?)]; [left; lia|right]. unfold small in Hsm. rewrite Hrun in Hsm. split; [done|]. destruct xs; [done|cbn [length] in *; lia].
  - exists (WithTuple (context front) []). split; [done|split; [done|split; [|done]]]. exists c, []. rewrite !app_nil_r. split_and!; [done|done|done|by left].
Qed.

Lemma deq_advances l d new : (l = [] /\ res = kComplete /\ done_callback front' = Some d /\ new = [cleanup_of front' d] \/ l = [front'] /\ res <> kComplete /\ new = []) -> advances h s h' (set_attempts kDequeue (l ++ rest) s1) new.
Proof using Hcfg L Hfront Hlive Hres Haf.
  intros Hl. destruct dfront_ok as (Hok & Hacc & Hst & Hcm). destruct (after_fields _ _ _ _ _ _ Haf Hst) as (F1 & F2 & F3 & F4 & F5 & F6 & F7 & F8). destruct deq_same as (E1 & E2 & E3 & E4 & E5).
  assert (res = kComplete -> done_callback front' = Some d -> callback_ctx d = context front /\ finishes h' id st (callback_out d) /\ (st = OK -> match d with Plain _ => True | WithTuple _ t => length t = n end)) as Hd. { intros Hr Hdd. destruct (deq_finishes Hr) as (d' & Hd' & ? & ?). rewrite Hdd in Hd'. by injection Hd' as <-. }
  constructor.
  - rewrite dfront_ids. unfold ids. cbn [enqueue_attempts_ dequeue_attempts_ set_attempts]. rewrite F3. destruct Hl as [(-> & Hr & Hdd & ->)|(-> & _ & ->)]; cbn [app map].
    + unfold cleanup_id. cbn [finished cleanup_of]. rewrite (proj1 (Hd Hr Hdd)). apply Permutation_cons_append.
    + rewrite ids_of_live, E1, app_nil_r, <- Permutation_middle by congruence. done.
  - intros i Hi. rewrite set_attempts_status. rewrite dfront_ids in Hi. apply not_elem_of_cons in Hi as [Hne _]. split; [by apply dview_ne|by apply F8].
  - destruct Hl as [(_ & Hr & Hdd & ->)|(_ & _ & ->)]; [|constructor]. destruct (Hd Hr Hdd) as [Ed Hf]. constructor; [|constructor]. split; [|cbn; by rewrite E1, F5]. unfold callback_ok. cbn [finished cleanup_of]. by rewrite Ed, set_attempts_status, F7.
  - done.
  - done.
  - cbn. rewrite F2. done.
  - exists (out_events id out). cbn [enqueue_attempts_ dequeue_attempts_ set_attempts]. rewrite F3, Hfront, ids_of_live by done. split_and!; [done|unfold out_events; destruct out; constructor|]. destruct Hl as [(-> & _)|(-> & Hne & _)]; cbn [app].
    + unfold out_events. destruct out; [apply turns_serve|]; apply turns_next; constructor.
    + rewrite ids_of_live, E1 by congruence. assert (out = None) as -> by (by destruct Hres). constructor.
Qed.
End dequeue_step.

(** ** The loops *)

Lemma drop_cancelled act h s items front rest : locked h s items -> attempts act s = front :: rest -> is_cancelled front = true -> locked h (set_attempts act rest s) items /\ advances h s h (set_attempts act rest s) [].
Proof.
  intros L Hf Hc. assert (ids (set_attempts act rest s) = ids s) as Hids. { destruct act; cbn in Hf; unfold ids; cbn [enqueue_attempts_ dequeue_attempts_ set_attempts]; rewrite Hf, ids_of_cancelled by done; done. }
  assert (forall P l, Forall (live_ok P h s) l -> Forall (live_ok P h (set_attempts act rest s)) l) as Hlive by (intros P l Hl; eapply live_others; [exact Hl|by destruct act|intros i _; by rewrite set_attempts_status]). split.
  - assert (NoDup (ids (set_attempts act rest s))) as Hnd by (rewrite Hids; apply L). destruct L as [L1 L2 L3 L4 L5 L6 L7 L8]. destruct act; cbn in Hf; constructor; cbn [queues_ closed_ enqueue_attempts_ dequeue_attempts_ set_attempts]; try done; try (by apply (Hlive _ _ L3)); try (by apply (Hlive _ _ L4)); try exact Hnd.
    + rewrite Hf in L3. apply Forall_cons in L3 as [_ L3]. by apply (Hlive _ _ L3).
    + rewrite Hf in L4. apply Forall_cons in L4 as [_ L4]. by apply (Hlive _ _ L4).
    + rewrite Hf in L5. cbn in L5. by rewrite Hc in L5.
    + rewrite Hf in L6. cbn in L6. unfold holding at 1 in L6. by rewrite Hc in L6.
  - constructor; try (by destruct act); [cbn [map]; by rewrite Hids, app_nil_r|]. exists []. rewrite app_nil_r. destruct act; cbn in Hf; cbn [enqueue_attempts_ dequeue_attempts_ set_attempts]; rewrite Hf, ids_of_cancelled by done; (split_and!; [done|constructor|constructor]).
Qed.

Definition blocked_enq (s : shared) (items : list Tuple) : Prop :=
  match enqueue_attempts_ s with [] => True | a :: _ => is_cancelled a = false /\ run_callback a <> RunClose /\ closed_ s = false /\ capacity_ cfg <= Z.of_nat (length items) end.
Definition blocked_deq (s : shared) (items : list Tuple) : Prop :=
  match dequeue_attempts_ s with [] => True | a :: _ => is_cancelled a = false /\ closed_ s = false /\ items = [] end.

Section loops.
Context (Hc : config_ok cfg) (Hall : forall k, allocates k = true).

Lemma work_cons (a : Attempt) l : work (a :: l) = S (Z.to_nat (elements_requested a) + work l).
Proof. done. Qed.

Lemma enq_requested (a : Attempt) : enq_ok cfg a -> run_callback a <> RunClose -> 0 < elements_requested a.
Proof. intros [_ Hok] Hne. destruct (run_callback a); try done; [lia|]. destruct Hok as (d & r & _ & -> & ?). lia. Qed.

Lemma try_enq : forall l h s items progress clean, enqueue_attempts_ s = l -> locked h s items ->
  try_attempts junk cfg allocates kEnqueue l progress clean @ s ⇓ fun '(p, clean') s' => exists h' items' new, clean' = clean ++ new /\ locked h' s' items' /\ advances h s h' s' new /\ dequeue_attempts_ s' = dequeue_attempts_ s
    /\ (progress = true -> p = true) /\ (work (enqueue_attempts_ s') + (if p && negb progress then 1 else 0) <= work l)%nat
    /\ (p = false -> items' = items /\ closed_ s' = closed_ s /\ blocked_enq s' items') /\ (closed_ s' = true -> enqueue_attempts_ s' = []).
Proof using Hc Hall.
  induction l as [|front rest IH]; intros h s items progress clean Hl L; cbn [try_attempts].
  { wp_steps. exists h, items, []. rewrite app_nil_r, Hl. unfold blocked_enq. rewrite Hl. split_and!; try done; [apply advances_refl|by destruct progress]. }
  pose proof (l_ids _ _ _ L) as Hnd. destruct (is_cancelled front) eqn:Hcan.
  - destruct (drop_cancelled kEnqueue h s items front rest L Hl Hcan) as [L' A']. wp_steps. eapply wp_mono; [apply (IH h _ items); [done|done]|]. cbn beta. intros [p clean'] s' (h' & items' & new & -> & L1 & A1 & D1 & P1 & W1 & B1 & C1). exists h', items', new. rewrite work_cons. split_and!; try done; [by apply (advances_trans _ _ _ _ [] _ _ new Hnd A')|lia].
  - destruct (front_ok h s items front rest L Hl Hcan) as (Hok & Hacc & Hst & Hcm). wp_step. eapply wp_mono; [by apply (run_enq junk cfg allocates Hc Hall front s items); [|apply L|]|]. cbn beta. intros [res front'] s1 (puts & st & cl & Hres & Haf).
    pose proof (after_fields _ _ _ _ _ _ Haf Hst) as (F1 & F2 & F3 & F4 & F5 & F6 & F7 & F8). destruct res.
    + wp_steps. pose proof (enq_locked h s items front rest L Hl Hcan _ _ _ _ _ _ Hres Haf [front'] ltac:(by right)) as L'. pose proof (enq_advances h s items front rest L Hl Hcan _ _ _ _ _ _ Hres Haf [front'] [] ltac:(by right)) as A'. inversion Hres; subst. eexists _, _, []. split_and!; [by rewrite app_nil_r|exact L'|exact A'|done|done| | |].
      * cbn [enqueue_attempts_ set_attempts app]. rewrite !work_cons. destruct progress; cbn; lia.
      * intros _. rewrite app_nil_r. split_and!; [done|cbn; by rewrite F2|]. unfold blocked_enq. cbn [enqueue_attempts_ set_attempts app closed_]. rewrite F2. cbn. done.
      * cbn. rewrite F2. cbn. congruence.
    + wp_steps. pose proof (enq_locked h s items front rest L Hl Hcan _ _ _ _ _ _ Hres Haf [front'] ltac:(by right)) as L'. pose proof (enq_advances h s items front rest L Hl Hcan _ _ _ _ _ _ Hres Haf [front'] [] ltac:(by right)) as A'. inversion Hres; subst. eexists _, _, []. split_and!; [by rewrite app_nil_r|exact L'|exact A'|done|done| |done|].
      * cbn [enqueue_attempts_ set_attempts app]. rewrite !work_cons. pose proof (enq_requested front' ltac:(done) ltac:(by destruct H1 as (_ & _ & _ & -> & _))). assert (0 < Z.of_nat (length puts)) by (destruct puts; [done|cbn; lia]). destruct progress; cbn; lia.
      * cbn. rewrite F2. cbn. congruence.
    + destruct (enq_done h s items front rest L Hl Hcan _ _ _ _ _ _ Hres Haf eq_refl) as (Hdone & Hfin & Hsame). wp_step. eapply wp_of_option; [done|]. wp_step. wp_step. pose proof (enq_locked h s items front rest L Hl Hcan _ _ _ _ _ _ Hres Haf [] ltac:(by left)) as L'. pose proof (enq_advances h s items front rest L Hl Hcan _ _ _ _ _ _ Hres Haf [] [cleanup_of front' (Plain (context front))] ltac:(by left)) as A'. cbn [app] in L', A'.
      eapply wp_mono; [by eapply (IH _ _ _ true)|]. cbn beta. intros [p clean'] s' (h' & items' & new & -> & L1 & A1 & D1 & P1 & W1 & B1 & C1). exists h', items', (cleanup_of front' (Plain (context front)) :: new). rewrite work_cons. split_and!; try done.
      * by rewrite <- app_assoc.
      * by apply (advances_trans _ _ _ _ [_] _ _ new Hnd A').
      * by rewrite D1.
      * intros _. by apply P1.
      * rewrite andb_false_r in W1. destruct (p && negb progress); lia.
      * intros ->. by specialize (P1 eq_refl).
Qed.

Lemma try_deq : forall l h s items progress clean, dequeue_attempts_ s = l -> locked h s items -> (closed_ s = true -> enqueue_attempts_ s = []) ->
  try_attempts junk cfg allocates kDequeue l progress clean @ s ⇓ fun '(p, clean') s' => exists h' items' new, clean' = clean ++ new /\ locked h' s' items' /\ advances h s h' s' new /\ enqueue_attempts_ s' = enqueue_attempts_ s /\ closed_ s' = closed_ s
    /\ (progress = true -> p = true) /\ (work (dequeue_attempts_ s') + (if p && negb progress then 1 else 0) <= work l)%nat /\ (p = false -> items' = items /\ blocked_deq s' items').
Proof using Hc Hall.
  induction l as [|front rest IH]; intros h s items progress clean Hl L Hcl; cbn [try_attempts].
  { wp_steps. exists h, items, []. rewrite app_nil_r, Hl. unfold blocked_deq. rewrite Hl. split_and!; try done; [apply advances_refl|by destruct progress]. }
  pose proof (l_ids _ _ _ L) as Hnd. destruct (is_cancelled front) eqn:Hcan.
  - destruct (drop_cancelled kDequeue h s items front rest L Hl Hcan) as [L' A']. wp_steps. eapply wp_mono; [apply (IH h _ items); [done|done|done]|]. cbn beta. intros [p clean'] s' (h' & items' & new & -> & L1 & A1 & D1 & C1 & P1 & W1 & B1). exists h', items', new. rewrite work_cons. split_and!; try done; [by apply (advances_trans _ _ _ _ [] _ _ new Hnd A')|lia].
  - destruct (dfront_ok h s items front rest L Hl Hcan) as (Hok & Hacc & Hst & Hcm). wp_step. eapply wp_mono; [by apply (run_deq junk cfg allocates Hc Hall front s items); [|apply L|apply L|]|]. cbn beta. intros [res front'] s1 (out & items' & st & Hres & Haf).
    pose proof (after_fields _ _ _ _ _ _ Haf Hst) as (F1 & F2 & F3 & F4 & F5 & F6 & F7 & F8). destruct (deq_held_ok Hc front Hok) as [_ Hreq0]. assert (closed_ s1 = closed_ s) as Ecl by (by rewrite F2). destruct res.
    + wp_steps. pose proof (deq_locked Hc h s items front rest L Hl Hcan _ _ _ _ _ _ Hres Haf [front'] ltac:(by right)) as L'. pose proof (deq_advances Hc h s items front rest L Hl Hcan _ _ _ _ _ _ Hres Haf [front'] (Plain (context front)) [] ltac:(by right)) as A'. inversion Hres; subst. eexists _, _, []. split_and!; [by rewrite app_nil_r|exact L'|exact A'|done|done|done| |].
      * cbn [dequeue_attempts_ set_attempts app]. rewrite !work_cons. destruct progress; cbn; lia.
      * intros _. split; [done|]. unfold blocked_deq. cbn [dequeue_attempts_ set_attempts app closed_]. split_and!; [done|congruence|done].
    + wp_steps. pose proof (deq_locked Hc h s items front rest L Hl Hcan _ _ _ _ _ _ Hres Haf [front'] ltac:(by right)) as L'. pose proof (deq_advances Hc h s items front rest L Hl Hcan _ _ _ _ _ _ Hres Haf [front'] (Plain (context front)) [] ltac:(by right)) as A'. inversion Hres as [| |a' Hcl' Hi Hsame Hok' Hheld Hreq| |Hcl' Hw]; subst.
      2:{ unfold is_waiting in Hw. by rewrite (Hcl Hcl') in Hw. }
      eexists _, _, []. split_and!; [by rewrite app_nil_r|exact L'|exact A'|done|done|done| |done]. cbn [dequeue_attempts_ set_attempts app]. rewrite !work_cons. destruct (deq_held_ok Hc front' Hok') as [_ ?]. assert (0 < Z.of_nat (length items)) by (destruct items; [done|cbn; lia]). destruct progress; cbn; lia.
    + destruct (deq_finishes Hc h s items front rest L Hl Hcan _ _ _ _ _ _ Hres Haf eq_refl) as (d & Hdone & Hctx & _). wp_step. eapply wp_of_option; [done|]. wp_step. wp_step. pose proof (deq_locked Hc h s items front rest L Hl Hcan _ _ _ _ _ _ Hres Haf [] ltac:(by left)) as L'. pose proof (deq_advances Hc h s items front rest L Hl Hcan _ _ _ _ _ _ Hres Haf [] d [cleanup_of front' d] ltac:(by left)) as A'. cbn [app] in L', A'.
      eapply wp_mono; [eapply (IH _ _ _ true); [done|exact L'|cbn; rewrite F3, Ecl; done]|]. cbn beta. intros [p clean'] s' (h' & items2 & new & -> & L1 & A1 & D1 & C1 & P1 & W1 & B1). exists h', items2, (cleanup_of front' d :: new). rewrite work_cons. split_and!; try done.
      * by rewrite <- app_assoc.
      * by apply (advances_trans _ _ _ _ [_] _ _ new Hnd A').
      * by rewrite D1.
      * by rewrite C1.
      * intros _. by apply P1.
      * rewrite andb_false_r in W1. destruct (p && negb progress); lia.
      * intros ->. by specialize (P1 eq_refl).
Qed.

(** Flushing ends; the first attempts that remain cannot go on. *)
Lemma flush_run : forall fuel h s items clean, locked h s items -> (work (enqueue_attempts_ s) + work (dequeue_attempts_ s) < fuel)%nat ->
  flush_loop junk cfg allocates fuel clean @ s ⇓ fun clean' s' => exists h' items' new, clean' = clean ++ new /\ locked h' s' items' /\ advances h s h' s' new /\ blocked_enq s' items' /\ blocked_deq s' items'.
Proof using Hc Hall.
  induction fuel as [|fuel IH]; intros h s items clean L Hf; [lia|]. cbn [flush_loop]. pose proof (l_ids _ _ _ L) as Hnd. unfold TryAttemptLocked. wp_step. wp_step. wp_step. cbn [attempts]. eapply wp_mono; [by apply (try_enq _ h s items)|]. cbn beta. intros [p clean1] s1 (h1 & items1 & new1 & -> & L1 & A1 & D1 & _ & W1 & B1 & C1).
  wp_step. wp_step. wp_step. eapply wp_mono; [by apply (try_deq _ h1 s1 items1)|]. cbn beta. intros [p' clean2] s2 (h2 & items2 & new2 & -> & L2 & A2 & D2 & C2 & _ & W2 & B2). pose proof (advances_trans _ _ _ _ _ _ _ _ Hnd A1 A2) as A. cbn [attempts] in W1, W2. rewrite !andb_true_r in W1, W2. rewrite D1 in W2. destruct (p' || p) eqn:Ep.
  - eapply wp_mono; [apply (IH h2 s2 items2); [done|]|].
    + rewrite D2. destruct p', p; cbn in *; try done; lia.
    + cbn beta. intros clean3 s3 (h3 & items3 & new3 & -> & L3 & A3 & B3). exists h3, items3, ((new1 ++ new2) ++ new3). split_and!; [by rewrite !app_assoc|done|by eapply advances_trans|apply B3|apply B3].
  - apply orb_false_iff in Ep as [-> ->]. wp_steps. destruct (B1 eq_refl) as (-> & Ecl & Hb1). destruct (B2 eq_refl) as (-> & Hb2). exists h2, items, (new1 ++ new2). split_and!; [by rewrite app_assoc|done|done| |done]. unfold blocked_enq in *. rewrite D2, C2. done.
Qed.
End loops.
End history.
End queue.
