(* ===== verification/FifoQueueThreads.v ===== *)
(** * Queues of tensors: threads

    The invariant of all threads: every operation is in exactly one place, with an account of
    the elements that it has put into the queue or got, and a queue that no thread is about to
    flush has no attempt that could go on.  Every action keeps it. *)

From S2P Require Import Prelude Cancellation FifoQueue FifoQueueProofs FifoQueueFlush.
Import Cancellation FifoQueue.

#[local] Open Scope runtime_scope.

Section queue.
Context {V : Type} (junk : V) (cfg : Config) (allocates : nat -> bool) (iterate : gmap Z CancelClosure -> list (Z * CancelClosure)).
Context (Hc : config_ok cfg) (Hall : forall k, allocates k = true) (Hiter : forall m, iterate m ≡ₚ map_to_list m).

Abbreviation Tensor := (Tensor (V := V)).
Abbreviation Tuple := (list Tensor).
Abbreviation Attempt := (Attempt (V := V)).
Abbreviation shared := (shared (V := V)).
Abbreviation action := (action (V := V)).
Abbreviation call_ := (call_ (V := V)).
Abbreviation event := (event (V := V)).
Abbreviation hevent := (hevent (V := V)).
Abbreviation n := (num_components cfg).

(** ** Calls *)

(** What a call needs: a manager, tensors with as many values as their shapes say, and for a
    batch a first dimension that fits the counter of the attempt. *)
Definition permitted (N : nat) (c : call_) : Prop :=
  match c with
  | CEnqueue c x => (c < N)%nat /\ Forall tensor_ok x
  | CEnqueueMany c tup => (c < N)%nat /\ Forall tensor_ok tup /\ Forall (fun t => match shape t with d :: _ => d < 2 ^ 31 | [] => False end) tup
  | CDequeueMany c num _ => (c < N)%nat /\ num < 2 ^ 31
  | CDequeue c | CClose c _ | CSize c | CIsClosed c | CStartCancel c => (c < N)%nat
  end.

(** The operations that end with a callback. *)
Definition is_op (c : call_) : bool := match c with CSize _ | CIsClosed _ | CStartCancel _ => false | _ => true end.
Definition op_ids (calls : list call_) : list nat := concat (imap (fun i c => if is_op c then [i] else []) calls).

Lemma op_ids_snoc calls c : op_ids (calls ++ [c]) = op_ids calls ++ if is_op c then [length calls] else [].
Proof. unfold op_ids. rewrite imap_app, concat_app. cbn. rewrite Nat.add_0_r. by rewrite app_nil_r. Qed.

Lemma op_ids_lt calls id : id ∈ op_ids calls -> (id < length calls)%nat.
Proof.
  induction calls as [|c calls IH] using rev_ind; [by intros ?%elem_of_nil|]. rewrite op_ids_snoc, elem_of_app, length_app. cbn. intros [Hi|Hi]; [specialize (IH Hi); lia|]. destruct (is_op c); [|by apply elem_of_nil in Hi]. apply list_elem_of_singleton in Hi. lia.
Qed.

Lemma op_ids_nodup calls : NoDup (op_ids calls).
Proof.
  induction calls as [|c calls IH] using rev_ind; [constructor|]. rewrite op_ids_snoc. apply NoDup_app. split_and!; [done| |destruct (is_op c); [apply NoDup_singleton|constructor]]. intros id Hi Hj. apply op_ids_lt in Hi. destruct (is_op c); [|by apply elem_of_nil in Hj]. apply list_elem_of_singleton in Hj. lia.
Qed.

(** ** Where the operations are *)

Definition act_ids (a : action) : list nat :=
  match a with
  | AEnqueue ctx _ | AEnqueueMany ctx _ | ADequeue ctx | ADequeueMany ctx _ _ | AClose ctx _ => [op_id ctx]
  | ARegister _ a => [op_id (context a)]
  | ACall d => [op_id (callback_ctx d)]
  | _ => []
  end.
Definition ev_ids (e : event) : list nat := match e with EDone id _ _ => [id] | _ => [] end.

Definition all_ids (A : list action) (s : shared) : list nat := concat (map act_ids A) ++ ids s ++ concat (map ev_ids (log s)).

Section invariant.
Context (N : nat) (calls : list call_).

(** An operation that nothing has been done for yet. *)
Definition fresh_op (h : list hevent) (s : shared) (ctx : Context) (c : call_) : Prop :=
  calls !! op_id ctx = Some c /\ permitted N c /\ view (op_id ctx) h = ([], [], []) /\ status_of (op_id ctx) s = OK /\ (cancellation_manager ctx < N)%nat.

Definition token_ok (s : shared) (c : nat) (token : Z) : Prop := exists m, managers s !! c = Some m /\ token < next_cancellation_token_ m.

Definition act_ok (h : list hevent) (s : shared) (a : action) : Prop :=
  match a with
  | AEnqueue ctx x => fresh_op h s ctx (CEnqueue (cancellation_manager ctx) x)
  | AEnqueueMany ctx tup => fresh_op h s ctx (CEnqueueMany (cancellation_manager ctx) tup)
  | ADequeue ctx => fresh_op h s ctx (CDequeue (cancellation_manager ctx))
  | ADequeueMany ctx num sm => fresh_op h s ctx (CDequeueMany (cancellation_manager ctx) num sm)
  | AClose ctx cancel => fresh_op h s ctx (CClose (cancellation_manager ctx) cancel)
  | ARegister act a =>
      match act with kEnqueue => enq_ok cfg a | kDequeue => deq_ok cfg a /\ held a = [] end /\ is_cancelled a = false /\ account calls h a /\ status_of (op_id (context a)) s = OK
      /\ (cancellation_manager (context a) < N)%nat /\ token_ok s (cancellation_manager (context a)) (cancellation_token a)
  | ACall d => callback_ok cfg calls h s d
  | ADeregister c _ | AWaitCancelled c | AStartCancel c | AFinishCancel c | ANotify c => (c < N)%nat
  | ASize _ | AIsClosed _ | ACloseAndCancel | AFlush | ACancel _ _ _ => True
  end.

Definition ev_ok (h : list hevent) (e : event) : Prop := match e with EDone id st out => finishes cfg calls h id st out | _ => True end.

Definition settled (A : list action) (s : shared) (items : list Tuple) : Prop := AFlush ∈ A \/ blocked_enq cfg s items /\ blocked_deq s items.

Record inv (h : list hevent) (s : shared) (A : list action) : Prop := {
  i_locked : exists items, locked cfg calls h s items /\ settled A s items;
  i_ids : all_ids A s ≡ₚ op_ids calls;
  i_acts : Forall (act_ok h s) A;
  i_log : Forall (ev_ok h) (log s);
  i_fresh : forall id, id ∉ op_ids calls -> view id h = ([], [], []) /\ status_of id s = OK;
  i_managers : length (managers s) = N
}.

(** ** What other operations keep *)

Definition managers_le (s s' : shared) : Prop := length (managers s') = length (managers s) /\ forall c m, managers s !! c = Some m -> exists m', managers s' !! c = Some m' /\ next_cancellation_token_ m <= next_cancellation_token_ m'.

Lemma same_managers_le s s' : managers s' = managers s -> managers_le s s'.
Proof. intros E. split; [by rewrite E|]. intros c m Hm. exists m. rewrite E. split; [done|lia]. Qed.

Definition kept (h : list hevent) (s : shared) (h' : list hevent) (s' : shared) (id : nat) : Prop := view id h' = view id h /\ status_of id s' = status_of id s.

Lemma act_ok_kept h s h' s' a : (forall id, id ∈ act_ids a -> kept h s h' s' id) -> managers_le s s' -> act_ok h s a -> act_ok h' s' a.
Proof.
  intros Hk Hm. destruct a; cbn [act_ok act_ids] in *; try done.
  1-5: destruct (Hk (op_id ctx) ltac:(by left)) as [Ev Es]; unfold fresh_op; by rewrite Ev, Es.
  - destruct (Hk _ ltac:(by left)) as [Ev Es]. intros (H1 & H2 & H3 & H4 & H5 & (m & H6 & H7)). rewrite Es. split_and!; [done|done|by eapply account_view|done|done|]. destruct (proj2 Hm _ _ H6) as (m' & ? & ?). exists m'. split; [done|lia].
  - destruct (Hk _ ltac:(by left)) as [Ev Es]. intros [H1 H2]. unfold callback_ok. rewrite Es. split; [by eapply finishes_view|done].
Qed.

Lemma ids_elem {A} (f : A -> list nat) x l i : x ∈ l -> i ∈ f x -> i ∈ concat (map f l).
Proof. intros Hx Hi. apply list_elem_of_In, in_concat. exists (f x). split; [by apply in_map, list_elem_of_In|by apply list_elem_of_In]. Qed.

Lemma acts_kept h s h' s' B : Forall (act_ok h s) B -> (forall id, id ∈ concat (map act_ids B) -> kept h s h' s' id) -> managers_le s s' -> Forall (act_ok h' s') B.
Proof.
  intros HB Hk Hm. apply List.Forall_forall. intros b Hb. rewrite List.Forall_forall in HB. eapply act_ok_kept; [|done|by apply HB]. intros id Hid. apply Hk. eapply ids_elem; [by apply list_elem_of_In|done].
Qed.

Lemma log_kept h h' l : Forall (ev_ok h) l -> (forall id, id ∈ concat (map ev_ids l) -> view id h' = view id h) -> Forall (ev_ok h') l.
Proof.
  intros Hl Hk. apply List.Forall_forall. intros e He. rewrite List.Forall_forall in Hl. specialize (Hl e He). destruct e as [id st out| |]; [|done..]. cbn in *. eapply finishes_view; [|done]. apply Hk. eapply (ids_elem ev_ids); [by apply list_elem_of_In|by left].
Qed.

(** ** One action *)

(** What one action does to the history: either the operations that wait are served in turn, or
    none is served and at most one begins to wait, behind those that wait already. *)
Definition takes_turn (h : list hevent) (s : shared) (h' : list hevent) (s' : shared) : Prop :=
  in_turns h s h' s'
  \/ exists ev ne nd, h' = h ++ ev /\ put_ids ev = [] /\ get_ids ev = [] /\ (length (ne ++ nd) <= 1)%nat
     /\ ids_of (enqueue_attempts_ s') `sublist_of` ids_of (enqueue_attempts_ s) ++ ne /\ ids_of (dequeue_attempts_ s') `sublist_of` ids_of (dequeue_attempts_ s) ++ nd.


(** An action changes its own operation and those that wait in the queue. *)
Record acts (h : list hevent) (s : shared) (a : action) (h' : list hevent) (s' : shared) (new : list action) : Prop := {
  n_ids : concat (map act_ids new) ++ ids s' ++ concat (map ev_ids (log s')) ≡ₚ act_ids a ++ ids s ++ concat (map ev_ids (log s));
  n_acts : Forall (act_ok h' s') new;
  n_log : exists l, log s' = log s ++ l /\ Forall (ev_ok h') l;
  n_others : forall id, id ∉ act_ids a ++ ids s -> kept h s h' s' id;
  n_managers : managers_le s s'
}.

Lemma inv_step h s a B h' s' new : inv h s (a :: B) -> acts h s a h' s' new -> (exists items, locked cfg calls h' s' items /\ settled (new ++ B) s' items) -> takes_turn h s h' s' -> inv h' s' (new ++ B) /\ takes_turn h s h' s'.
Proof.
  intros [I1 I2 I3 I4 I5 I6] [A1 A2 (l & A3 & A4) A5 A6] Hl Hturn. split; [|done]. pose proof (op_ids_nodup calls) as Hnd. rewrite <- I2 in Hnd. unfold all_ids in Hnd, I2. cbn [map concat] in Hnd, I2. assert (act_ids a ++ concat (map act_ids B) ++ ids s ++ concat (map ev_ids (log s)) ≡ₚ (act_ids a ++ ids s) ++ concat (map act_ids B) ++ concat (map ev_ids (log s))) as Hp by solve_Permutation.
  rewrite <- app_assoc in Hnd, I2. rewrite Hp in Hnd. apply NoDup_app in Hnd as (_ & Hdis & _).
  assert (forall id, id ∈ concat (map act_ids B) -> kept h s h' s' id) as HB by (intros id Hi; apply A5; intros Hin; apply (Hdis id Hin), elem_of_app; by left).
  assert (forall id, id ∈ concat (map ev_ids (log s)) -> kept h s h' s' id) as HL by (intros id Hi; apply A5; intros Hin; apply (Hdis id Hin), elem_of_app; by right).
  apply Forall_cons in I3 as [_ I3]. constructor.
  - done.
  - rewrite <- I2. unfold all_ids. rewrite map_app, concat_app. transitivity (concat (map act_ids B) ++ (concat (map act_ids new) ++ ids s' ++ concat (map ev_ids (log s')))); [solve_Permutation|]. rewrite A1. solve_Permutation.
  - apply Forall_app. split; [done|]. by eapply acts_kept.
  - rewrite A3. apply Forall_app. split; [|done]. eapply log_kept; [done|]. intros id Hi. by apply HL.
  - intros id Hid. assert (id ∉ act_ids a ++ ids s) as Hno by (intros Hin; apply Hid; rewrite <- I2; rewrite !elem_of_app in *; tauto).
    destruct (A5 id Hno) as [-> ->]. by apply I5.
  - rewrite (proj1 A6). done.
Qed.

(** ** Actions that leave the queue as it is *)

Definition same_queue (s s' : shared) : Prop := queues_ s' = queues_ s /\ closed_ s' = closed_ s /\ enqueue_attempts_ s' = enqueue_attempts_ s /\ dequeue_attempts_ s' = dequeue_attempts_ s.

Lemma locked_same h s s' items : locked cfg calls h s items -> same_queue s s' -> length (managers s') = length (managers s) -> (forall id, id ∈ ids s -> status_of id s' = status_of id s) -> locked cfg calls h s' items.
Proof.
  intros [L1 L2 L3 L4 L5 L6 L7 L8] (Q1 & Q2 & Q3 & Q4) Hm Hst. assert (forall P l, (forall id, id ∈ ids_of l -> id ∈ ids s) -> Forall (live_ok calls P h s) l -> Forall (live_ok calls P h s') l) as Hlive.
  { intros P l Hsub Hl. apply List.Forall_forall. intros a Ha Hcan. rewrite List.Forall_forall in Hl. destruct (Hl a Ha Hcan) as (H1 & H2 & H3 & H4). rewrite Hm, Hst; [done|]. apply Hsub, ids_of_elem; [by apply list_elem_of_In|done]. }
  constructor; rewrite ?Q1, ?Q2, ?Q3, ?Q4; try done.
  - apply Hlive; [|done]. intros id Hi. apply elem_of_app. by left.
  - apply Hlive; [|done]. intros id Hi. apply elem_of_app. by right.
  - unfold ids. by rewrite Q3, Q4.
Qed.

Lemma quiet_step h s a B s' new : inv h s (a :: B) -> a <> AFlush -> same_queue s s' -> (forall id, id ∈ ids s -> status_of id s' = status_of id s) -> acts h s a h s' new -> inv h s' (new ++ B) /\ takes_turn h s h s'.
Proof.
  intros I Hne Hq Hst A. eapply inv_step; [done|done| |left; by apply in_turns_same; apply Hq]. destruct (i_locked _ _ _ I) as (items & L & Hs). exists items. split; [eapply locked_same; [done|done|apply A|done]|]. destruct Hq as (Q1 & Q2 & Q3 & Q4). destruct Hs as [Hf|Hb]; [left|right].
  - apply elem_of_cons in Hf as [Hf|Hf]; [done|]. apply elem_of_app. by right.
  - unfold blocked_enq, blocked_deq in *. by rewrite Q2, Q3, Q4.
Qed.

(** The operation of an action is not one that waits in the queue. *)
Lemma act_not_waiting h s a B id : inv h s (a :: B) -> id ∈ act_ids a -> id ∉ ids s.
Proof.
  intros I Hi Hin. pose proof (op_ids_nodup calls) as Hnd. rewrite <- (i_ids _ _ _ I) in Hnd. unfold all_ids in Hnd. cbn [map concat] in Hnd. rewrite <- app_assoc in Hnd. apply NoDup_app in Hnd as (_ & Hd & _). apply (Hd id Hi). rewrite !elem_of_app. tauto.
Qed.

(** Each action brings the threads nearer to their end; without cancellations none has to wait. *)
Definition weight (a : action) : nat :=
  match a with
  | AEnqueue _ _ | AEnqueueMany _ _ | ADequeue _ | ADequeueMany _ _ _ => 7
  | ARegister _ _ => 6
  | AClose _ _ => 5
  | AStartCancel _ => 3
  | ACloseAndCancel | ADeregister _ _ => 2
  | _ => 1
  end.
Definition registered (s : shared) : nat := sum_list_with (fun m => size (callbacks_ m)) (managers s).
Definition total (A : list action) (s : shared) : nat := (sum_list_with weight A + 3 * length (ids s) + registered s)%nat.

Definition calm_act (a : action) : Prop := match a with ACancel _ _ _ | AWaitCancelled _ | AStartCancel _ | AFinishCancel _ | ANotify _ => False | _ => True end.
Definition calm_manager (m : Manager) : Prop := is_cancelling_ m = false /\ is_cancelled_ m = false.
Definition calm (A : list action) (s : shared) : Prop := Forall calm_act A /\ Forall calm_manager (managers s).

Definition better (a : action) (s : shared) (new : list action) (s' : shared) : Prop := (total new s' < total [a] s)%nat /\ (calm [a] s -> calm new s').

Lemma better_managers a s new s' k : length (ids s) = (length (ids s') + k)%nat -> managers s' = managers s -> (sum_list_with weight new < weight a + 3 * k)%nat -> Forall calm_act new -> better a s new s'.
Proof. intros Hi Hm Hw Hn. split; [|intros [_ ?]; split; [done|by rewrite Hm]]. unfold total, registered. rewrite Hm, Hi. cbn. lia. Qed.

Lemma better_quiet a s new s' : same_queue s s' -> managers s' = managers s -> (sum_list_with weight new < weight a)%nat -> Forall calm_act new -> better a s new s'.
Proof. intros (_ & _ & Q3 & Q4) Hm Hw Hn. apply (better_managers a s new s' 0); [unfold ids; rewrite Q3, Q4; lia|done|lia|done]. Qed.

(** A manager has changed, and [k] operations are no longer in the queue or new in it. *)
Lemma better_manager a s new s' c m m' : ids s' = ids s -> managers s' = <[c:=m']> (managers s) -> managers s !! c = Some m -> (sum_list_with weight new + size (callbacks_ m') < weight a + size (callbacks_ m))%nat ->
  (calm_act a -> calm_manager m -> Forall calm_act new /\ calm_manager m') -> better a s new s'.
Proof.
  intros Hi Hm Hc' Hw Hn. pose proof (sum_insert (fun m => size (callbacks_ m)) (managers s) c m m' Hc') as Hsum. split.
  - unfold total, registered. rewrite Hm, Hi. cbn [sum_list_with]. lia.
  - intros [[Ha _]%Forall_cons Hms]. destruct (Hn Ha (Forall_lookup_1 _ _ _ _ Hms Hc')) as [? ?]. split; [done|]. rewrite Hm. by apply Forall_insert.
Qed.

Definition good (h : list hevent) (a : action) (s : shared) (B : list action) (o : option (list action)) (s' : shared) : Prop := exists new h', o = Some new /\ (inv h' s' (new ++ B) /\ takes_turn h s h' s') /\ better a s new s'.

Lemma manager_at_run h s A c (Q : Manager -> shared -> Prop) : inv h s A -> (c < N)%nat -> (forall m, managers s !! c = Some m -> Q m s) -> manager_at c @ s ⇓ Q.
Proof. intros I Hlt HQ. unfold manager_at. wp_steps. destruct (lookup_lt_is_Some_2 (managers s) c) as [m Hm]; [rewrite (i_managers _ _ _ I); done|]. eapply wp_of_option; [done|]. by apply HQ. Qed.

Lemma set_manager_le c m m' s : managers s !! c = Some m -> next_cancellation_token_ m <= next_cancellation_token_ m' -> managers_le s (set_manager c m' s).
Proof.
  intros Hm Hle. split; [cbn; by rewrite length_insert|]. intros c' x Hx. cbn. destruct (decide (c' = c)) as [->|Hne]; [|rewrite list_lookup_insert_ne by done; exists x; split; [done|lia]]. rewrite list_lookup_insert_eq by (by eapply lookup_lt_Some). exists m'. split; [done|]. assert (x = m) as -> by congruence. done.
Qed.

(** An action that only changes managers. *)
Lemma manager_step h s a B s' new : inv h s (a :: B) -> a <> AFlush -> act_ids a = [] -> same_queue s s' -> statuses s' = statuses s -> log s' = log s -> managers_le s s' -> concat (map act_ids new) = [] -> Forall (act_ok h s') new -> better a s new s' -> good h a s B (Some new) s'.
Proof.
  intros I Hne Hids Hq Hst Hlog Hm Hn Hok Hb. assert (forall id, status_of id s' = status_of id s) as Es by (intros id; unfold status_of; by rewrite Hst). exists new, h. split; [done|]. split; [|done]. eapply quiet_step; [done|done|done|done|]. constructor; [|done| | |done].
  - rewrite Hn, Hids, Hlog. unfold ids. destruct Hq as (_ & _ & -> & ->). done.
  - exists []. rewrite app_nil_r. split; [done|constructor].
  - intros id _. by split.
Qed.

Lemma fail_step h s a B ctx e cb c : inv h s (a :: B) -> a <> AFlush -> (1 < weight a)%nat -> act_ids a = [op_id ctx] -> fresh_op h s ctx c -> callback_ctx cb = ctx -> fail ctx (Err e) cb @ s ⇓ good h a s B.
Proof.
  intros I Hne Hw Hids (Hcall & _ & Hv & Hst & _) Hcb. unfold fail, SetStatus. wp_steps. eexists _, h. split; [done|]. pose proof (act_not_waiting h s a B (op_id ctx) I ltac:(rewrite Hids; by left)) as Hnot. destruct (update_status_fields (op_id ctx) (Err e) s) as (U1 & U2 & U3 & U4 & U5 & U6). split; [|apply better_quiet; [done|done|done|by constructor]].
  assert (forall id, id <> op_id ctx -> kept h s h (update_status (op_id ctx) (Err e) s) id) as Hk by (intros id Hi; split; [done|by apply update_status_ne]). eapply quiet_step; [done|done|done|intros id Hi; apply Hk; by intros ->|]. constructor.
  - rewrite U6, Hids. unfold ids. rewrite U3, U4. cbn. by rewrite Hcb.
  - constructor; [|constructor]. cbn [act_ok]. unfold callback_ok. rewrite Hcb, update_status_id by done. split; [|done]. exists c, (elements c). unfold view in Hv. injection Hv as V1 V2 V3. rewrite V1, V2, V3. split_and!; [done|done|done|by left].
  - exists []. rewrite U6, app_nil_r. split; [done|constructor].
  - intros id Hi. apply Hk. intros ->. apply Hi. rewrite Hids. apply elem_of_app. left. by left.
  - by apply same_managers_le.
Qed.

Lemma attempt_step h s a B act r cb ctx run c : inv h s (a :: B) -> a <> AFlush -> weight a = 7%nat -> act_ids a = [op_id ctx] -> fresh_op h s ctx c ->
  (forall token, let at' := mkAttempt (i32 r) (Some cb) ctx (Some (cancellation_manager ctx)) token run false [] in match act with kEnqueue => enq_ok cfg at' | kDequeue => deq_ok cfg at' /\ held at' = [] end /\ matches c at' /\ todo at' = elements c) ->
  attempt act r cb ctx run @ s ⇓ good h a s B.
Proof.
  intros I Hne Hw Hids Hfresh Hok. pose proof Hfresh as (Hcall & _ & Hv & Hst & Hcm). unfold attempt. wp_step. eapply manager_at_run; [done|done|]. intros m Hm. cbn [get_cancellation_token]. wp_steps. eexists _, h. split; [done|]. set (m' := mkManager _ _ _ _ _). set (s' := set_manager _ m' s). destruct (Hok (next_cancellation_token_ m)) as (H1 & H2 & H3). split; [|eapply better_manager; [done|done|exact Hm|rewrite Hw; cbn; lia|by intros _ [? ?]; split; [by constructor|]]].
  eapply quiet_step; [done|done|done|done|]. constructor.
  - rewrite Hids. done.
  - constructor; [|constructor]. cbn [act_ok context is_cancelled cancellation_token]. split_and!; [done|done| |done|done|].
    + unfold view in Hv. injection Hv as V1 V2 V3. exists c. cbn [context]. rewrite V1, V2, V3, H3. done.
    + exists m'. split; [|cbn; lia]. cbn. apply list_lookup_insert_eq. by eapply lookup_lt_Some.
  - exists []. rewrite app_nil_r. split; [done|constructor].
  - intros id _. by split.
  - eapply set_manager_le; [done|]. cbn. lia.
Qed.

(** ** The operations *)

Lemma ValidateTuple_spec (x : Tuple) : Forall tensor_ok x -> match ValidateTuple cfg x with Ok _ => elem_ok cfg x | Err _ => True end.
Proof.
  intros Hx. unfold ValidateTuple, ValidateTupleCommon. unfold mbind, result_bind, OK. case_bool_decide as Ht; [|done]. destruct (specified_shapes cfg) eqn:Hs; [case_bool_decide as Hsh; [|done]|]; constructor; (done || intros ?; congruence).
Qed.

Lemma step_Enqueue h s B ctx x : inv h s (AEnqueue ctx x :: B) -> EnqueueOp cfg ctx x @ s ⇓ good h (AEnqueue ctx x) s B.
Proof.
  intros I. pose proof (i_acts _ _ _ I) as Ha. apply Forall_cons in Ha as [Ha _]. cbn in Ha. pose proof Ha as (_ & [_ Hx] & _). unfold EnqueueOp. pose proof (ValidateTuple_spec x Hx) as Hv. destruct (ValidateTuple cfg x) as [[]|e]; [|by eapply fail_step; try done; cbn; lia].
  eapply attempt_step; [done|done|done|done|done|]. intros token. cbn. split_and!; [|done|done]. split; [done|]. by split.
Qed.

Lemma validate_shapes_run (s : shared) batch_size : 0 <= batch_size < 2 ^ 31 -> specified_shapes cfg = true -> forall tup i, (i + length tup = n)%nat ->
  validate_many_shapes cfg i batch_size tup @ s ⇓ fun st s' => s' = s /\ match st with Ok _ => map shape tup = map (cons batch_size) (drop i (component_shapes_ cfg)) | Err _ => True end.
Proof.
  intros Hb Hs. induction tup as [|t tup IH]; intros i Hi; cbn [validate_many_shapes].
  - wp_steps. split; [done|]. cbn [length] in Hi. by rewrite drop_ge by (rewrite (c_shapes cfg Hc Hs); lia).
  - cbn [length] in Hi. wp_step. eapply (ManyOutShape_run cfg Hc Hs); [lia|done|]. destruct (shape_facts cfg Hc Hs i ltac:(lia)) as (_ & _ & Hat & _). case_bool_decide as E; [|wp_steps; done]. eapply wp_mono; [apply (IH (S i)); lia|]. cbn beta. intros [[]|e] s' [-> Hm]; [|done]. split; [done|]. rewrite (drop_S _ (shape_of cfg i) i Hat). cbn. by rewrite <- E, Hm.
Qed.

Lemma validate_sizes_run (s : shared) d : forall tup, Forall (fun t => shape t <> []) tup -> validate_many_sizes d tup @ s ⇓ fun st s' => s' = s /\ match st with Ok _ => Forall (fun t => shape t = d :: tail (shape t)) tup | Err _ => True end.
Proof.
  induction tup as [|t tup IH]; intros Hne; cbn [validate_many_sizes]; [wp_steps; split; [done|constructor]|]. apply Forall_cons in Hne as [Ht Hne]. wp_step. unfold dim0. destruct (shape t) as [|d' rest] eqn:E; [done|]. wp_step. destruct (Z.eqb_spec d' d) as [->|]; [|wp_steps; done]. eapply wp_mono; [by apply IH|]. cbn beta. intros [[]|e] s' [-> Hm]; [|done]. split; [done|]. constructor; [by rewrite E|done].
Qed.

Lemma first_dim_nonneg (tup : Tuple) t : tup !! 0%nat = Some t -> Forall tensor_ok tup -> 0 <= first_dim tup.
Proof. intros Ht Hok. destruct tup as [|t' tup]; [done|]. apply Forall_cons in Hok as [[Hs _] _]. cbn. destruct (shape t'); [lia|]. by apply Forall_cons in Hs as [? _]. Qed.

Lemma ValidateMany_run (s : shared) (tup : Tuple) : Forall tensor_ok tup -> Forall (fun t => match shape t with d :: _ => d < 2 ^ 31 | [] => False end) tup ->
  ValidateManyTuple cfg tup @ s ⇓ fun st s' => s' = s /\ match st with Ok _ => exists d, many_ok cfg d tup /\ Z.of_nat d < 2 ^ 31 | Err _ => True end.
Proof.
  intros Hok Hd. pose proof (n_pos cfg Hc) as Hn. unfold ValidateManyTuple, ValidateTupleCommon. case_bool_decide as Ht; cbn [OK]; [|wp_steps; done]. assert (length tup = n) as Hl by (apply (f_equal length) in Ht; by rewrite length_map in Ht). destruct tup as [|t0 tup]; [cbn in Hl; lia|]. wp_step. eapply wp_of_option; [done|].
  pose proof Hd as [Hd0 Hd']%Forall_cons. pose proof Hok as [[Hs0 _] _]%Forall_cons. wp_step. unfold dim0. destruct (shape t0) as [|d rest] eqn:E0; [done|]. apply Forall_cons in Hs0 as [Hd1 _]. wp_step. assert (Forall (fun t : Tensor => shape t = d :: tail (shape t)) (t0 :: tup) -> (specified_shapes cfg = true -> map (fun t => tail (shape t)) (t0 :: tup) = component_shapes_ cfg) -> exists d, many_ok cfg d (t0 :: tup) /\ Z.of_nat d < 2 ^ 31) as Hfin.
  { intros H1 H2. exists (Z.to_nat d). split; [|lia]. constructor; [done| |done|done]. eapply Forall_impl; [exact H1|]. intros t Et. by rewrite Z2Nat.id. }
  destruct (specified_shapes cfg) eqn:Hs.
  - eapply wp_mono; [apply (validate_shapes_run s d); [lia|done|done]|]. cbn beta. intros [[]|e] s' [-> Hm]; [|done]. split; [done|]. rewrite drop_0 in Hm. apply Hfin.
    + clear -Hm. revert Hm. generalize (component_shapes_ cfg). generalize (t0 :: tup). intros l. induction l as [|t l IH]; intros [|sh shs] Hm; try done. cbn in Hm. injection Hm as E1 E2. constructor; [by rewrite E1|by eapply IH].
    + intros _. apply (f_equal (map (@tail Z))) in Hm. rewrite !map_map in Hm. cbn [tail] in Hm. by rewrite map_id in Hm.
  - cbn [tail]. eapply wp_mono; [apply (validate_sizes_run s d)|].
    + eapply Forall_impl; [exact Hd'|]. intros t Ht' E. cbn in Ht'. by rewrite E in Ht'.
    + cbn beta. intros [[]|e] s' [-> Hm]; [|done]. split; [done|]. apply Hfin; [constructor; [by rewrite E0|done]|done].
Qed.

Lemma step_EnqueueMany h s B ctx tup : inv h s (AEnqueueMany ctx tup :: B) -> EnqueueManyOp cfg ctx tup @ s ⇓ good h (AEnqueueMany ctx tup) s B.
Proof.
  intros I. pose proof (n_pos cfg Hc) as Hn. pose proof (i_acts _ _ _ I) as Ha. apply Forall_cons in Ha as [Ha _]. cbn in Ha. pose proof Ha as (Hcall & (_ & Hx & Hd) & Hv & Hst & _). unfold EnqueueManyOp. wp_step. eapply wp_mono; [by apply ValidateMany_run|]. cbn beta. intros [[]|e] s' [-> Hm]; [|by eapply fail_step; try done; cbn; lia]. destruct Hm as (d & Hm & Hlt).
  unfold TryEnqueueMany. destruct (many_at cfg d tup 0 Hm ltac:(lia)) as (t & Ht & Hsh & _). wp_step. eapply wp_of_option; [done|]. wp_step. unfold dim0. rewrite Hsh. wp_step. pose proof (first_dim_many cfg d tup Hn Hm) as Hfd. destruct (Z.eqb_spec (Z.of_nat d) 0) as [H0|H0].
  - wp_steps. eexists _, h. split; [done|]. split; [|apply better_quiet; [done|done|cbn; lia|by repeat constructor]]. eapply quiet_step; [done|done|done|done|]. constructor; [done| |exists []; rewrite app_nil_r; split; [done|constructor]|done|by apply same_managers_le]. constructor; [|constructor]. cbn [act_ok]. unfold callback_ok. cbn [callback_ctx callback_out]. rewrite Hst. split; [|done]. unfold view in Hv. injection Hv as V1 V2 V3.
    eexists _, []. rewrite V1, V2, V3. split; [exact Hcall|]. split; [cbn; by rewrite Hfd, H0|]. done.
  - eapply attempt_step; [done|done|done|done|done|]. intros token. cbn beta zeta. rewrite i32_small by lia. split; [|split; [done|]].
    + split; [done|]. cbn. exists d, d. split_and!; [done|done|lia|lia].
    + unfold todo, elements. cbn [run_callback elements_requested]. by rewrite Hfd, Z.sub_diag.
Qed.

Lemma step_Dequeue h s B ctx : inv h s (ADequeue ctx :: B) -> TryDequeue ctx @ s ⇓ good h (ADequeue ctx) s B.
Proof.
  intros I. pose proof (i_acts _ _ _ I) as Ha. apply Forall_cons in Ha as [Ha _]. cbn in Ha. unfold TryDequeue. eapply attempt_step; [done|done|done|done|done|]. intros token. cbn beta zeta. rewrite i32_small by lia. split; [|done]. split; [by split|]. by apply held_none.
Qed.

Lemma step_DequeueMany h s B ctx num sm : inv h s (ADequeueMany ctx num sm :: B) -> DequeueManyOp junk cfg allocates ctx num sm @ s ⇓ good h (ADequeueMany ctx num sm) s B.
Proof.
  intros I. pose proof (i_acts _ _ _ I) as Ha. apply Forall_cons in Ha as [Ha _]. cbn in Ha. pose proof Ha as (Hcall & [_ Hnum] & Hv & Hst & _). unfold DequeueManyOp. destruct (Z.ltb_spec num 0) as [Hneg|Hpos]; [by eapply fail_step; try done; cbn; lia|]. unfold TryDequeueMany. destruct (specified_shapes cfg) eqn:Hs; cbn [negb]; [|by eapply fail_step; try done; cbn; lia]. destruct (Z.eqb_spec num 0) as [->|H0].
  - wp_step. rewrite (shared_upd_id s) at 1. eapply (allocate_batch_run junk cfg allocates Hc Hs Hall 0 ctx s); [lia|done|lia|done|done|intros j Hj; lia|]. intros k tup Htup. wp_steps. eexists _, h. split; [done|]. split; [|apply better_quiet; [done|done|cbn; lia|by repeat constructor]]. apply (full_batch cfg Hs []) in Htup; [|constructor]. subst tup.
    eapply quiet_step; [done|done|done|done|]. constructor; [done| |exists []; rewrite app_nil_r; split; [done|constructor]|done|by apply same_managers_le]. constructor; [|constructor]. cbn [act_ok]. unfold callback_ok. cbn [callback_ctx callback_out]. change (status_of (op_id ctx) (upd _ _ s)) with (status_of (op_id ctx) s). rewrite Hst. split; [|intros _; unfold batch; by rewrite length_map, length_seq]. unfold view in Hv. injection Hv as V1 V2 V3.
    eexists _, []. rewrite V1, V2, V3. split; [exact Hcall|]. split; [done|]. split; [done|split; [by left|done]].
  - eapply attempt_step; [done|done|done|done|done|]. intros token. cbn beta zeta. rewrite i32_small by lia. set (a := mkAttempt _ _ _ _ _ _ _ _). assert (held a = []) as Hh by (apply held_none; [cbn; lia|done]). split_and!; [|done| |done].
    + split; [done|]. cbn. split; [done|]. exists (Z.to_nat num), []. cbn. split_and!; [constructor|lia|lia|lia|by left].
    + split; [done|]. rewrite Hh. cbn. lia.
Qed.

(** ** A new attempt *)

Lemma front_holds_snoc (l : list Attempt) a : front_holds l -> holding a = [] -> front_holds (l ++ [a]).
Proof.
  induction l as [|b l IH]; intros Hf Ha; cbn in *; [destruct (is_cancelled a); [done|constructor]|]. destruct (is_cancelled b); [by apply IH|]. apply Forall_app. split; [done|by constructor].
Qed.

Lemma ids_of_snoc (l : list Attempt) a : is_cancelled a = false -> ids_of (l ++ [a]) = ids_of l ++ [op_id (context a)].
Proof. intros Ha. unfold ids_of. rewrite map_app, concat_app. cbn. unfold att_ids at 2. by rewrite Ha. Qed.

Lemma ids_push act (a : Attempt) (s : shared) : is_cancelled a = false -> ids (set_attempts act (attempts act s ++ [a]) s) ≡ₚ op_id (context a) :: ids s.
Proof.
  intros Ha. destruct act; unfold ids; cbn [attempts set_attempts enqueue_attempts_ dequeue_attempts_]; rewrite (ids_of_snoc _ a Ha); solve_Permutation.
Qed.

Lemma push_locked act a h s items : locked cfg calls h s items -> match act with kEnqueue => enq_ok cfg a | kDequeue => deq_ok cfg a /\ held a = [] end -> is_cancelled a = false -> account calls h a -> status_of (op_id (context a)) s = OK -> (cancellation_manager (context a) < length (managers s))%nat -> op_id (context a) ∉ ids s ->
  locked cfg calls h (set_attempts act (attempts act s ++ [a]) s) items.
Proof.
  intros L Hok Ha Hacc Hst Hcm Hno. pose proof (ids_push act a s Ha) as Hids. set (s' := set_attempts act (attempts act s ++ [a]) s) in *. assert (forall P l, Forall (live_ok calls P h s) l -> Forall (live_ok calls P h s') l) as Hlive by (intros P l Hl; eapply live_others; [exact Hl|by destruct act|intros i _; split; [done|apply set_attempts_status]]).
  assert (NoDup (ids s')) as Hnd by (rewrite Hids; apply NoDup_cons; split; [done|apply L]). assert (live_ok calls (match act with kEnqueue => enq_ok cfg | kDequeue => deq_ok cfg end) h s' a) as Hla. { intros _. unfold s'. rewrite set_attempts_status. split_and!; [by destruct act; [|destruct Hok]|done|done|by destruct act]. }
  destruct L as [L1 L2 L3 L4 L5 L6 L7 L8]. destruct act; constructor; try done; try (by apply (Hlive _ _ L3)); try (by apply (Hlive _ _ L4)).
  - cbn. apply Forall_app. split; [by apply (Hlive _ _ L3)|]. constructor; [exact Hla|constructor].
  - cbn. apply Forall_app. split; [by apply (Hlive _ _ L4)|]. constructor; [exact Hla|constructor].
  - cbn. apply front_holds_snoc; [done|]. unfold holding. rewrite Ha. by destruct Hok.
  - cbn. rewrite map_app, concat_app. cbn. unfold holding at 2. rewrite Ha. destruct Hok as [_ ->]. by rewrite !app_nil_r.
Qed.

(** An attempt joins its deque, and the queue will be flushed. *)
Lemma push_step act a h s s0 a0 B : inv h s (a0 :: B) -> act_ids a0 = [op_id (context a)] -> same_queue s s0 -> statuses s0 = statuses s -> log s0 = log s -> managers_le s s0 ->
  match act with kEnqueue => enq_ok cfg a | kDequeue => deq_ok cfg a /\ held a = [] end -> is_cancelled a = false -> account calls h a -> status_of (op_id (context a)) s = OK -> (cancellation_manager (context a) < N)%nat -> (4 + registered s0 < weight a0 + registered s)%nat -> (Forall calm_manager (managers s) -> Forall calm_manager (managers s0)) -> good h a0 s B (Some [AFlush]) (set_attempts act (attempts act s0 ++ [a]) s0).
Proof.
  intros I Hids Hq Hst0 Hlog Hm Hok Ha Hacc Hst Hcm Hw Hcalm. eexists _, h. split; [done|]. assert (forall id, status_of id s0 = status_of id s) as Es by (intros id; unfold status_of; by rewrite Hst0). pose proof (act_not_waiting h s a0 B _ I ltac:(rewrite Hids; by left)) as Hno. assert (ids s0 = ids s) as Ei by (unfold ids; destruct Hq as (_ & _ & -> & ->); done). destruct (i_locked _ _ _ I) as (items & L & _). split.
  2:{ assert (managers (set_attempts act (attempts act s0 ++ [a]) s0) = managers s0) as Em by (by destruct act). split; [|intros [_ ?]; split; [by constructor|rewrite Em; auto]]. unfold total, registered in *. rewrite (ids_push act a s0 Ha), Ei, Em. cbn [length sum_list_with weight]. lia. }
  eapply inv_step; [done| | |].
  - constructor.
    + rewrite Hids, (ids_push act a s0 Ha), Ei. replace (log (set_attempts act (attempts act s0 ++ [a]) s0)) with (log s) by (destruct act; done). done.
    + constructor; [done|constructor].
    + exists []. rewrite app_nil_r. split; [by destruct act|constructor].
    + intros id Hi. split; [done|]. by rewrite set_attempts_status, Es.
    + by destruct act.
  - exists items. split; [|left; apply elem_of_app; left; by left]. apply push_locked; [eapply locked_same; [done|done|apply Hm|done]|done|done|done|by rewrite Es|rewrite (proj1 Hm), (i_managers _ _ _ I); done|by rewrite Ei].
  - right. exists [], (match act with kEnqueue => [op_id (context a)] | kDequeue => [] end), (match act with kEnqueue => [] | kDequeue => [op_id (context a)] end). destruct Hq as (_ & _ & Q3 & Q4). rewrite app_nil_r. split_and!; [done|done|done|by destruct act|..]; destruct act; cbn [attempts set_attempts enqueue_attempts_ dequeue_attempts_]; rewrite ?Q3, ?Q4, ?(ids_of_snoc _ a Ha), ?app_nil_r; done.
Qed.

Lemma step_Close h s B ctx cancel : inv h s (AClose ctx cancel :: B) -> Close ctx cancel @ s ⇓ good h (AClose ctx cancel) s B.
Proof.
  intros I. pose proof (i_acts _ _ _ I) as Ha. apply Forall_cons in Ha as [Ha _]. cbn in Ha. pose proof Ha as (Hcall & _ & Hv & Hst & Hcm). unfold view in Hv. injection Hv as V1 V2 V3. unfold Close. destruct cancel.
  - wp_steps. eexists _, h. split; [done|]. split; [|apply better_quiet; [done|done|cbn; lia|by repeat constructor]]. eapply quiet_step; [done|done|done|done|]. constructor; [done| |exists []; rewrite app_nil_r; split; [done|constructor]|done|by apply same_managers_le]. constructor; [done|]. constructor; [|constructor]. cbn [act_ok]. unfold callback_ok. cbn [callback_ctx callback_out]. rewrite Hst. split; [|done]. eexists _, []. rewrite V1, V2, V3. split; [exact Hcall|]. split; [done|]. done.
  - wp_steps. set (a := mkAttempt _ _ _ _ _ _ _ _). apply (push_step kEnqueue a h s s (AClose ctx false)); try done; [by apply same_managers_le| |cbn; lia]. eexists. cbn [context a]. rewrite V1, V2, V3. split; [exact Hcall|]. done.
Qed.

Lemma step_Register h s B act a : inv h s (ARegister act a :: B) -> register act a @ s ⇓ good h (ARegister act a) s B.
Proof.
  intros I. pose proof (i_acts _ _ _ I) as Ha. apply Forall_cons in Ha as [Ha _]. cbn in Ha. destruct Ha as (Hok & Hcan & Hacc & Hst & Hcm & (m' & Hm' & Htok)). unfold register. wp_step. eapply manager_at_run; [done|done|]. intros m Hm. assert (m' = m) as -> by congruence. unfold RegisterCallback. rewrite (proj2 (Z.ltb_lt _ _) Htok).
  destruct (negb (is_cancelled_ m) && negb (is_cancelling_ m)).
  - wp_steps. apply (push_step act a h s (set_manager (cancellation_manager (context a)) (with_callbacks (<[cancellation_token a:=mkClosure act (cancellation_manager (context a)) (cancellation_token a)]> (callbacks_ m)) m) s) (ARegister act a)); try done; [eapply set_manager_le; [done|cbn; lia]| |].
    + unfold registered. cbn [managers set_manager weight]. match goal with |- context [<[_:=?m']> _] => pose proof (sum_insert (fun m => size (callbacks_ m)) (managers s) _ m m' Hm) as Hsum end. cbn [callbacks_ with_callbacks] in Hsum. rewrite map_size_insert in Hsum. destruct (callbacks_ m !! cancellation_token a); cbn in Hsum; lia.
    + intros Hms. cbn. apply Forall_insert; [done|]. by apply (Forall_lookup_1 _ _ _ _ Hms Hm).
  - assert (exists d, done_callback a = Some d /\ callback_ctx d = context a) as (d & Hd & Hctx) by (destruct act; [destruct Hok as [-> _]|destruct Hok as [[-> _] _]]; by eexists). wp_step. eapply wp_of_option; [done|]. destruct Hacc as (c & Hc' & Hmat & Hp & Hg & Hlost).
    unfold fail, SetStatus. wp_steps. eexists _, h. split; [done|]. pose proof (act_not_waiting h s _ B (op_id (context a)) I ltac:(by left)) as Hnot. destruct (update_status_fields (op_id (context a)) (Err CANCELLED) s) as (U1 & U2 & U3 & U4 & U5 & U6). split; [|apply better_quiet; [done|done|cbn; lia|by constructor]].
    assert (forall id, id <> op_id (context a) -> kept h s h (update_status (op_id (context a)) (Err CANCELLED) s) id) as Hk by (intros id Hi; split; [done|by apply update_status_ne]). eapply quiet_step; [done|done|done|intros id Hi; apply Hk; by intros ->|]. constructor.
    + rewrite U6. unfold ids. rewrite U3, U4. cbn. by rewrite Hctx.
    + constructor; [|constructor]. cbn [act_ok]. unfold callback_ok. rewrite Hctx, update_status_id by done. split; [|done]. exists c, (todo a). split_and!; [done|done|done|by left].
    + exists []. rewrite U6, app_nil_r. split; [done|constructor].
    + intros id Hi. apply Hk. intros ->. apply Hi. apply elem_of_app. left. by left.
    + by apply same_managers_le.
Qed.

(** ** Flushing and calling *)

Lemma step_Flush h s B : inv h s (AFlush :: B) -> FlushUnlocked junk cfg allocates @ s ⇓ good h (AFlush) s B.
Proof.
  intros I. destruct (i_locked _ _ _ I) as (items & L & _). unfold FlushUnlocked. wp_step. wp_step. wp_step. eapply wp_mono; [apply (flush_run junk cfg allocates calls Hc Hall _ h s items []); [done|unfold flush_fuel; lia]|]. cbn beta. intros clean s' (h' & items' & new & -> & L' & A & B1 & B2). wp_steps. eexists _, h'. split; [done|]. cbn [app]. destruct A as [A1 A2 A3 A4 A5 A6 A7]. split.
  2:{ apply (better_managers _ _ _ _ (length new)); [by rewrite A1, length_app, length_map|done| |]; clear; induction new as [|c new IH]; cbn [map concat]; [cbn; lia|rewrite sum_list_with_app, sum_list_with_app in *; destruct (to_deregister c =? kInvalidToken); cbn [sum_list_with weight length] in *; lia|constructor|]. apply Forall_app. split; [|done]. destruct (to_deregister c =? kInvalidToken); by repeat constructor. }
  eapply inv_step; [done| |exists items'; split; [done|by right]|by left]. constructor.
  - rewrite A5. cbn [act_ids app]. rewrite A1. assert (concat (map act_ids (concat (map (fun c => (if to_deregister c =? kInvalidToken then [] else [ADeregister (cm c) (to_deregister c)]) ++ [ACall (finished c)]) new))) = map cleanup_id new) as ->; [|solve_Permutation].
    clear. induction new as [|c new IH]; [done|]. cbn [map concat]. rewrite map_app, concat_app, IH. by destruct (to_deregister c =? kInvalidToken).
  - apply List.Forall_concat, Forall_map. eapply Forall_impl; [exact A3|]. intros c [Hok Hcm]. rewrite A4, (i_managers _ _ _ I) in Hcm. apply Forall_app. split; [|constructor; [exact Hok|constructor]]. destruct (to_deregister c =? kInvalidToken); [constructor|]. constructor; [exact Hcm|constructor].
  - exists []. rewrite app_nil_r. split; [done|constructor].
  - intros id Hi. by apply A2.
  - by apply same_managers_le.
Qed.

Lemma step_Call h s B d : inv h s (ACall d :: B) -> call cfg d @ s ⇓ good h (ACall d) s B.
Proof.
  intros I. pose proof (i_acts _ _ _ I) as Ha. apply Forall_cons in Ha as [Ha _]. cbn in Ha. destruct Ha as [Hf Hlen].
  assert (forall out, finishes cfg calls h (op_id (callback_ctx d)) (status_of (op_id (callback_ctx d)) s) out -> good h (ACall d) s B (Some []) (emit (EDone (op_id (callback_ctx d)) (status_of (op_id (callback_ctx d)) s) out) s)) as Hemit.
  { intros out Hout. eexists _, h. split; [done|]. split; [|apply better_quiet; [done|done|cbn; lia|by repeat constructor]]. eapply quiet_step; [done|done|done|done|]. constructor; [|constructor| |done|by apply same_managers_le].
    - cbn [log emit act_ids map concat app]. rewrite map_app, concat_app. cbn. change (ids (emit _ s)) with (ids s). solve_Permutation.
    - eexists. split; [done|]. constructor; [exact Hout|constructor]. }
  unfold call. destruct d as [ctx|ctx t]; cbn [callback_ctx callback_out] in *; wp_step; wp_step.
  - wp_steps. by apply Hemit.
  - destruct (status_of (op_id ctx) s) as [[]|e] eqn:Est; cbn [ok].
    + wp_step. apply wp_CHECK; [apply Nat.eqb_eq, Hlen; done|]. wp_steps. by apply Hemit.
    + wp_steps. apply Hemit. destruct Hf as (c & rest & H1 & H2 & H3). by exists c, rest.
Qed.

(** ** Cancelling *)

(** An attempt to dequeue that is cancelled takes what it holds with it. *)
Definition lost_events (act : Action) (a : Attempt) : list hevent :=
  match act with kEnqueue => [] | kDequeue => match held a with [] => [] | xs => [Lost (op_id (context a)) xs] end end.

Lemma lost_view act a h : account calls h a -> puts_of (op_id (context a)) (h ++ lost_events act a) = puts_of (op_id (context a)) h /\ gets_of (op_id (context a)) (h ++ lost_events act a) = [].
Proof.
  intros (c & _ & _ & _ & Hg & _). unfold lost_events. destruct act; [by rewrite app_nil_r|]. destruct (held a) as [|x xs]; [by rewrite app_nil_r|]. pose proof (view_lost (op_id (context a)) h (x :: xs)) as Hv. unfold view in Hv. injection Hv as V1 V2 V3. by rewrite V1, V2.
Qed.

Lemma lost_other act a h id : id <> op_id (context a) -> view id (h ++ lost_events act a) = view id h.
Proof. intros Hne. apply view_other. unfold lost_events. destruct act; [constructor|]. destruct (held a); constructor; [cbn; congruence|constructor]. Qed.

Lemma front_holds_cancel (l1 l2 : list Attempt) a : front_holds (l1 ++ a :: l2) -> front_holds (l1 ++ cancel_attempt a :: l2).
Proof.
  induction l1 as [|b l1 IH]; cbn.
  - destruct (is_cancelled a); [done|]. intros Hl. by apply none_hold.
  - destruct (is_cancelled b); [done|]. rewrite !Forall_app, !Forall_cons. intros (? & _ & ?). done.
Qed.

Lemma front_holds_first (l1 l2 : list Attempt) a : front_holds (l1 ++ a :: l2) -> holding a <> [] -> concat (map holding l1) = [].
Proof.
  induction l1 as [|b l1 IH]; cbn; [done|]. destruct (is_cancelled b) eqn:Hb; [|rewrite Forall_app, Forall_cons; naive_solver]. intros Hf Ha. unfold holding at 1. rewrite Hb. by apply IH.
Qed.

Lemma ids_of_middle (l1 l2 : list Attempt) a : is_cancelled a = false -> ids_of (l1 ++ a :: l2) ≡ₚ op_id (context a) :: ids_of (l1 ++ cancel_attempt a :: l2).
Proof. intros Ha. unfold ids_of. rewrite !map_app, !concat_app. cbn. unfold att_ids at 2. rewrite Ha. cbn. solve_Permutation. Qed.

Lemma ids_of_cancel (l1 l2 : list Attempt) a : ids_of (l1 ++ cancel_attempt a :: l2) `sublist_of` ids_of (l1 ++ a :: l2).
Proof.
  unfold ids_of. rewrite !map_app, !concat_app. cbn [map concat]. apply sublist_app; [done|]. change (att_ids (cancel_attempt a)) with (@nil nat). by apply sublist_inserts_l.
Qed.

Lemma lost_ids act a : put_ids (lost_events act a) = [] /\ get_ids (lost_events act a) = [].
Proof. unfold lost_events. destruct act; [done|]. by destruct (held a). Qed.

Lemma cancel_locked act h s items l1 a l2 : locked cfg calls h s items -> attempts act s = l1 ++ a :: l2 -> is_cancelled a = false ->
  let s' := set_attempts act (l1 ++ cancel_attempt a :: l2) (update_status (op_id (context a)) (Err CANCELLED) s) in locked cfg calls (h ++ lost_events act a) s' items /\ ids s ≡ₚ op_id (context a) :: ids s' /\ status_of (op_id (context a)) s' = Err CANCELLED /\ account calls h a /\ exists d, done_callback a = Some d /\ callback_ctx d = context a.
Proof.
  intros L Hl Ha s'. set (id := op_id (context a)) in *. destruct (update_status_fields id (Err CANCELLED) s) as (U1 & U2 & U3 & U4 & U5 & U6).
  assert (ids s ≡ₚ id :: ids s') as Hids. { unfold ids, s'. destruct act; cbn [attempts] in Hl; cbn [set_attempts enqueue_attempts_ dequeue_attempts_]; rewrite Hl, ?U3, ?U4, (ids_of_middle l1 l2 a Ha); solve_Permutation. }
  pose proof (l_ids _ _ _ _ _ L) as Hnd. rewrite Hids in Hnd. apply NoDup_cons in Hnd as [Hno Hnd].
  assert (exists P, Forall (live_ok calls P h s) (l1 ++ a :: l2) /\ P = match act with kEnqueue => enq_ok cfg | kDequeue => deq_ok cfg end) as (P & HP & EP). { destruct act; cbn in Hl; rewrite <- Hl; eexists; (split; [apply L|done]). }
  pose proof HP as HP'. apply Forall_app in HP' as [HP1 [HPa HP2]%Forall_cons]. destruct (HPa Ha) as (Hok & Hacc & Hst & Hcm).
  assert (forall i, i <> id -> status_of i s' = status_of i s) as Hs' by (intros i Hi; unfold s'; rewrite set_attempts_status; by apply update_status_ne).
  assert (forall Q l, (forall i, i ∈ ids_of l -> i <> id) -> Forall (live_ok calls Q h s) l -> Forall (live_ok calls Q (h ++ lost_events act a) s') l) as Hlive.
  { intros Q l Hne HQ. eapply live_others; [exact HQ|by destruct act; cbn|]. intros i Hi. split; [apply lost_other, Hne, Hi|apply Hs', Hne, Hi]. }
  assert (forall i, i ∈ ids s' -> i <> id) as Hne by (by intros i Hi ->). assert (Forall (live_ok calls P (h ++ lost_events act a) s') (l1 ++ cancel_attempt a :: l2)) as Hnew.
  { assert (forall i, i ∈ ids_of (l1 ++ cancel_attempt a :: l2) -> i <> id) as Hne' by (intros i Hi; apply Hne; unfold ids, s'; destruct act; cbn [set_attempts enqueue_attempts_ dequeue_attempts_]; apply elem_of_app; auto).
    apply Hlive; [done|]. apply Forall_app. split; [done|]. constructor; [by intros|done]. }
  split_and!; [|done| |done|].
  - destruct L as [L1 L2 L3 L4 L5 L6 L7 L8]. assert (queues_ s' = queues_ s /\ closed_ s' = closed_ s) as [S1 S2] by (unfold s'; by destruct act). assert (enqueue_attempts_ s' = (match act with kEnqueue => l1 ++ cancel_attempt a :: l2 | kDequeue => enqueue_attempts_ s end) /\ dequeue_attempts_ s' = (match act with kDequeue => l1 ++ cancel_attempt a :: l2 | kEnqueue => dequeue_attempts_ s end)) as [S3 S4] by (unfold s'; by destruct act).
    assert (forall i, i ∈ ids_of (enqueue_attempts_ s') \/ i ∈ ids_of (dequeue_attempts_ s') -> i <> id) as Hne' by (intros i Hi; apply Hne; unfold ids; apply elem_of_app; tauto). subst P. destruct act; cbn [attempts] in Hl; constructor; rewrite ?S1, ?S2; try done; rewrite ?S3, ?S4; try done.
    + apply Hlive; [|done]. intros i Hi. apply Hne'. rewrite S4. by right.
    + cbn [lost_events]. by rewrite app_nil_r.
    + apply Hlive; [|done]. intros i Hi. apply Hne'. rewrite S3. by left.
    + rewrite Hl in L5. by apply front_holds_cancel.
    + rewrite Hl in L5, L6. rewrite map_app, concat_app in L6 |- *. cbn [map concat] in L6 |- *. change (holding (cancel_attempt a)) with (@nil Tuple). cbn [app]. unfold holding at 2 in L6. rewrite Ha in L6. unfold lost_events. destruct (held a) as [|x xs] eqn:Hh; [by rewrite app_nil_r|]. rewrite (front_holds_first l1 l2 a L5) in L6 |- * by (unfold holding; by rewrite Ha, Hh). apply fifo_lost. by rewrite !app_assoc in L6 |- *.
  - unfold s'. rewrite set_attempts_status. by apply update_status_id.
  - subst P. destruct act; destruct Hok as [-> _]; by eexists.
Qed.

Lemma cancelled_callback act h s' a d : account calls h a -> status_of (op_id (context a)) s' = Err CANCELLED -> callback_ctx d = context a -> callback_ok cfg calls (h ++ lost_events act a) s' d.
Proof.
  intros Hacc Hst Hctx. unfold callback_ok. rewrite Hctx, Hst. split; [|done]. destruct (lost_view act a h Hacc) as [E1 E2]. destruct Hacc as (c & H1 & H2 & H3 & _). exists c, (todo a). rewrite E1, E2. split_and!; [done|done|done|by right].
Qed.

Lemma step_Cancel h s B act c token : inv h s (ACancel act c token :: B) -> Cancel act c token @ s ⇓ good h (ACancel act c token) s B.
Proof.
  intros I. assert (good h (ACancel act c token) s B (Some []) s) as Hnothing by (apply (manager_step h s (ACancel act c token) B s []); try done; [by apply same_managers_le|apply better_quiet; [done|done|cbn; lia|constructor]]). unfold Cancel. wp_step. wp_step. destruct (list_find (is_attempt c token) (attempts act s)) as [[i a]|] eqn:Hf; [|wp_steps; done]. apply list_find_Some in Hf as (Hi & _ & _). destruct (is_cancelled a) eqn:Ha; [wp_steps; done|].
  destruct (i_locked _ _ _ I) as (items & L & _). pose proof (take_drop_middle _ _ _ Hi) as Hl. symmetry in Hl. destruct (cancel_locked act h s items _ a _ L Hl Ha) as (L' & Hids & Hst & Hacc & (d & Hd & Hctx)). rewrite Hd. unfold SetStatus. wp_steps. rewrite insert_take_drop by (by eapply lookup_lt_Some). set (s' := set_attempts act _ _) in *. eexists _, (h ++ lost_events act a). split; [done|].
  destruct (update_status_fields (op_id (context a)) (Err CANCELLED) s) as (U1 & U2 & U3 & U4 & U5 & U6). assert (log s' = log s /\ managers s' = managers s) as [Elog Em] by (unfold s'; destruct act; done). split; [|apply (better_managers _ _ _ _ 1); [rewrite Hids; cbn; lia|done|cbn; lia|by repeat constructor]]. eapply inv_step; [done| |exists items; split; [done|left; right; by left]|]; [constructor|].
  - rewrite Elog. cbn [map concat act_ids app]. rewrite Hids, Hctx. done.
  - constructor; [|constructor; [done|constructor]]. by apply cancelled_callback.
  - exists []. rewrite app_nil_r. split; [done|constructor].
  - intros id Hi'. cbn [act_ids app] in Hi'. rewrite Hids in Hi'. apply not_elem_of_cons in Hi' as [Hne _]. split; [by apply lost_other|]. unfold s'. rewrite set_attempts_status. by apply update_status_ne.
  - by apply same_managers_le.
  - right. exists (lost_events act a), [], []. destruct (lost_ids act a) as [-> ->]. pose proof (ids_of_cancel (take i (attempts act s)) (drop (S i) (attempts act s)) a) as Hsub. rewrite <- Hl in Hsub. rewrite !app_nil_r. split_and!; [done|done|done|cbn; lia|..]; unfold s'; destruct act; cbn [attempts set_attempts enqueue_attempts_ dequeue_attempts_] in *; rewrite ?U3, ?U4; done.
Qed.

Lemma set_attempts_status_twice l l' id st (s : shared) : set_attempts kEnqueue l (update_status id st (set_attempts kEnqueue l' s)) = set_attempts kEnqueue l (update_status id st s).
Proof. unfold update_status. destruct st as [|e]; [done|]. change (status_of id (set_attempts kEnqueue l' s)) with (status_of id s). by destruct (ok (status_of id s)). Qed.

(** The attempts [l] of the queue are cancelled, those before them are as they are. *)
Lemma cancel_all_run h items : forall l pre s, locked cfg calls h (set_attempts kEnqueue (pre ++ l) s) items ->
  cancel_all l @ s ⇓ fun '(l', cbs) s' => let v := set_attempts kEnqueue (pre ++ l) s in let v' := set_attempts kEnqueue (pre ++ l') s' in
    locked cfg calls h v' items /\ ids v ≡ₚ ids v' ++ map (fun d => op_id (callback_ctx d)) cbs /\ Forall (callback_ok cfg calls h v') cbs /\ (forall id, id ∉ ids v -> status_of id s' = status_of id s) /\ managers s' = managers s /\ log s' = log s /\ dequeue_attempts_ s' = dequeue_attempts_ s /\ ids_of l' `sublist_of` ids_of l.
Proof.
  induction l as [|a l IH]; intros pre s L; cbn [cancel_all].
  { wp_steps. cbn zeta. cbn [map]. split; [done|split; [by rewrite !app_nil_r|done]]. }
  assert (pre ++ a :: l = (pre ++ [a]) ++ l) as Epre by (by rewrite <- app_assoc). destruct (is_cancelled a) eqn:Ha.
  - wp_step. rewrite Epre in L |- *. eapply wp_mono; [apply (IH (pre ++ [a]) s L)|]. cbn beta zeta. intros [l' cbs] s' (H1 & H2 & H3 & H4 & H5 & H6 & H7 & H8). wp_steps. cbn zeta. rewrite <- (app_assoc pre [a] l') in H1, H2, H3. split_and!; try done. by rewrite !ids_of_cancelled.
  - unfold SetStatus. wp_step. wp_step. destruct (cancel_locked kEnqueue h _ items pre a l L eq_refl Ha) as (L' & Hids & Hst & Hacc & (d & Hd & Hctx)). wp_step. eapply wp_of_option; [done|]. cbn [lost_events] in L'. rewrite app_nil_r in L'. rewrite set_attempts_status_twice in L', Hids, Hst. set (s1 := update_status (op_id (context a)) (Err CANCELLED) s) in *.
    destruct (update_status_fields (op_id (context a)) (Err CANCELLED) s) as (U1 & U2 & U3 & U4 & U5 & U6). assert (pre ++ cancel_attempt a :: l = (pre ++ [cancel_attempt a]) ++ l) as Epre' by (by rewrite <- app_assoc). rewrite Epre' in L', Hids. wp_step. eapply wp_mono; [apply (IH (pre ++ [cancel_attempt a]) s1 L')|]. cbn beta zeta. intros [l' cbs] s' (H1 & H2 & H3 & H4 & H5 & H6 & H7 & H8). rewrite <- (app_assoc pre [cancel_attempt a] l') in H1, H2, H3. wp_steps. cbn zeta.
    pose proof (l_ids _ _ _ _ _ L) as Hnd. rewrite Hids in Hnd. apply NoDup_cons in Hnd as [Hno _]. assert (status_of (op_id (context a)) s' = Err CANCELLED) as Hst' by (rewrite (H4 _ Hno); done). split_and!.
    + exact H1.
    + rewrite Hids, H2. cbn [map app]. rewrite Hctx. solve_Permutation.
    + constructor; [|done]. replace h with (h ++ lost_events kEnqueue a) by apply app_nil_r. by apply cancelled_callback.
    + intros id Hi. rewrite Hids in Hi. apply not_elem_of_cons in Hi as [Hne Hi]. rewrite (H4 id Hi). by apply update_status_ne.
    + by rewrite H5.
    + by rewrite H6.
    + by rewrite H7.
    + rewrite (ids_of_live a l Ha), (ids_of_cancelled (cancel_attempt a) l' eq_refl). by apply sublist_cons.
Qed.

Lemma locked_close h s items : locked cfg calls h s items -> locked cfg calls h (set_closed s) items.
Proof. intros [L1 L2 L3 L4 L5 L6 L7 L8]. by constructor. Qed.

Lemma step_CloseAndCancel h s B : inv h s (ACloseAndCancel :: B) -> CloseAndCancel @ s ⇓ good h (ACloseAndCancel) s B.
Proof.
  intros I. destruct (i_locked _ _ _ I) as (items & L & _). apply locked_close in L. unfold CloseAndCancel. wp_step. wp_step. wp_step. wp_step. wp_step. assert (set_closed s = set_attempts kEnqueue ([] ++ enqueue_attempts_ (set_closed s)) (set_closed s)) as Ev by (by destruct s). rewrite Ev in L. eapply wp_mono; [apply (cancel_all_run h items _ [] _ L)|].
  cbn beta zeta. intros [l' cbs] s' (H1 & H2 & H3 & H4 & H5 & H6 & H7 & H8). rewrite <- Ev in H2, H4. cbn [app] in *. wp_steps. change (ids (set_closed s)) with (ids s) in *. eexists _, h. split; [done|]. set (s2 := set_attempts kEnqueue l' s') in *. split.
  2:{ apply (better_managers _ _ _ _ (length cbs)); [by rewrite H2, length_app, length_map|done| |apply Forall_app; split; [apply Forall_map, List.Forall_forall; done|by repeat constructor]]. rewrite sum_list_with_app. clear. induction cbs as [|d cbs IH]; cbn [map sum_list_with weight length] in *; lia. }
  eapply inv_step; [done| |exists items; split; [done|left; apply elem_of_app; left; apply elem_of_app; right; by left]|right; exists [], [], []; rewrite !app_nil_r; split_and!; [done|done|done|cbn; lia|exact H8|cbn; by rewrite H7]]. constructor.
  - change (log s2) with (log s'). rewrite H6. change (log (set_closed s)) with (log s). cbn [act_ids app]. rewrite H2, map_app, concat_app. cbn [map concat act_ids app]. assert (concat (map act_ids (map ACall cbs)) = map (fun d => op_id (callback_ctx d)) cbs) as ->; [|solve_Permutation]. clear. induction cbs as [|d cbs IH]; [done|]. cbn. by rewrite IH.
  - apply Forall_app. split; [apply Forall_map; exact H3|]. constructor; [done|constructor].
  - exists []. rewrite app_nil_r. split; [done|constructor].
  - intros id Hi. split; [done|]. unfold s2. rewrite set_attempts_status. by apply H4.
  - by apply same_managers_le.
Qed.

(** ** Every action *)

Lemma exec_good h s a B : inv h s (a :: B) -> exec junk cfg allocates iterate a @ s ⇓ fun o s' => (o = None /\ ~ calm_act a) \/ good h a s B o s'.
Proof.
  intros I. assert (forall m, (m @ s ⇓ good h a s B) -> (m @ s ⇓ fun o s' => (o = None /\ ~ calm_act a) \/ good h a s B o s')) as Hgood by (intros m Hm; eapply wp_mono; [exact Hm|]; cbn beta; by right).
  pose proof (i_acts _ _ _ I) as Ha. apply Forall_cons in Ha as [Ha _]. destruct a; cbn [exec act_ok] in *.
  - apply Hgood. by eapply step_Enqueue.
  - apply Hgood. by eapply step_EnqueueMany.
  - apply Hgood. by eapply step_Dequeue.
  - apply Hgood. by eapply step_DequeueMany.
  - apply Hgood. by eapply step_Close.
  - apply Hgood. destruct (i_locked _ _ _ I) as (items & L & _). wp_step. eapply queue_size_run; [apply (n_pos cfg Hc)|apply L|]. wp_steps. eexists _, h. split; [done|]. split; [|apply better_quiet; [done|done|cbn; lia|by repeat constructor]]. eapply quiet_step; [done|done|done|done|]. constructor; [|constructor| |done|by apply same_managers_le]; cbn [log emit]; [rewrite map_app, concat_app; cbn; by rewrite app_nil_r|]. eexists. split; [done|]. by constructor.
  - apply Hgood. wp_steps. eexists _, h. split; [done|]. split; [|apply better_quiet; [done|done|cbn; lia|by repeat constructor]]. eapply quiet_step; [done|done|done|done|]. constructor; [|constructor| |done|by apply same_managers_le]; cbn [log emit]; [rewrite map_app, concat_app; cbn; by rewrite app_nil_r|]. eexists. split; [done|]. by constructor.
  - apply Hgood. by eapply step_Register.
  - apply Hgood. by eapply step_CloseAndCancel.
  - apply Hgood. by eapply step_Flush.
  - apply Hgood. by eapply step_Cancel.
  - apply Hgood. by eapply step_Call.
  - apply Hgood. wp_step. eapply manager_at_run; [done|done|]. intros m Hm. assert (size (delete token (callbacks_ m)) <= size (callbacks_ m))%nat as Hsz by (rewrite map_size_delete; destruct (callbacks_ m !! token); cbn; lia). unfold DeregisterCallback. destruct (is_cancelled_ m) eqn:Ec; [|destruct (is_cancelling_ m) eqn:Eg]; wp_steps; (eapply manager_step; [done|done|done|done|done|done|eapply set_manager_le; [done|cbn; lia]|done| |eapply better_manager; [done|done|exact Hm|cbn; lia|]]).
    + constructor.
    + intros _ [? ?]. congruence.
    + constructor; [done|constructor].
    + intros _ [? ?]. congruence.
    + constructor.
    + intros _ ?. split; [constructor|done].
  - wp_step. eapply manager_at_run; [done|done|]. intros m Hm. wp_steps. destruct (cancelled_notification_ m); [right|left; split; [done|by intros []]]. eapply manager_step; try done; [by apply same_managers_le|apply better_quiet; [done|done|cbn; lia|constructor]].
  - apply Hgood. unfold StartCancel. wp_step. eapply manager_at_run; [done|done|]. intros m Hm. unfold StartCancel_begin. destruct (is_cancelled_ m || is_cancelling_ m); wp_steps; (eapply manager_step; [done|done|done|done|done|done| | | |]).
    + by apply same_managers_le.
    + done.
    + constructor.
    + apply better_quiet; [done|done|cbn; lia|constructor].
    + eapply set_manager_le; [done|cbn; lia].
    + rewrite map_app, concat_app, map_map. cbn. rewrite app_nil_r. induction (iterate (callbacks_ m)) as [|p l IH]; [done|]. cbn. done.
    + apply Forall_app. split; [|constructor; [done|constructor; [done|constructor]]]. apply Forall_map. apply List.Forall_forall. done.
    + eapply better_manager; [done|done|exact Hm| |done]. assert (size (callbacks_ m) = length (iterate (callbacks_ m))) as -> by (by rewrite Hiter, length_map_to_list). rewrite sum_list_with_app. cbn [callbacks_ sum_list_with weight]. rewrite map_size_empty. induction (iterate (callbacks_ m)) as [|p l IH]; cbn [map sum_list_with weight length] in *; lia.
  - apply Hgood. wp_step. eapply manager_at_run; [done|done|]. intros m Hm. wp_steps. eapply manager_step; try done; [eapply set_manager_le; [done|cbn; lia]|eapply better_manager; [done|done|exact Hm|cbn; lia|done]].
  - apply Hgood. wp_step. eapply manager_at_run; [done|done|]. intros m Hm. wp_steps. eapply manager_step; try done; [eapply set_manager_le; [done|cbn; lia]|eapply better_manager; [done|done|exact Hm|cbn; lia|done]].
Qed.
End invariant.
End queue.
