(* ===== verification/FifoQueueTheorems.v ===== *)
(** * Queues of tensors: theorems

    Every schedule of permitted calls and moves of threads, from a new queue on. *)

From S2P Require Import Prelude Cancellation FifoQueue FifoQueueProofs FifoQueueFlush FifoQueueThreads.
Import Cancellation FifoQueue.

#[local] Open Scope runtime_scope.

Section queue.
Context {V : Type} (junk : V) (cfg : Config) (allocates : nat -> bool) (iterate : gmap Z CancelClosure -> list (Z * CancelClosure)).

Abbreviation Tensor := (Tensor (V := V)).
Abbreviation Tuple := (list Tensor).
Abbreviation Attempt := (Attempt (V := V)).
Abbreviation shared := (shared (V := V)).
Abbreviation action := (action (V := V)).
Abbreviation call_ := (call_ (V := V)).
Abbreviation state := (state (V := V)).
Abbreviation move := (move (V := V)).
Abbreviation n := (num_components cfg).
Abbreviation step := (step junk cfg allocates iterate).
Abbreviation run := (run junk cfg allocates iterate).

(** A queue that can be made, whose types can be copied and whose batches are not too large;
    allocation succeeds, and a hash table enumerates its entries. *)
Definition environment_ok : Prop := config_ok cfg /\ (forall k, allocates k = true) /\ forall m, iterate m ≡ₚ map_to_list m.

Definition move_ok (N : nat) (m : move) : Prop := match m with Call c => permitted N c | Run _ => True end.

Section calls_grow.
Context (N : nat) (calls : list call_) (c : call_).

Lemma calls_at id x : calls !! id = Some x -> (calls ++ [c]) !! id = Some x.
Proof. apply lookup_app_l_Some. Qed.

Lemma account_grows h a : account calls h a -> account (calls ++ [c]) h a.
Proof. intros (x & Hx & H). exists x. split; [by apply calls_at|done]. Qed.

Lemma finishes_grows h id st out : finishes cfg calls h id st out -> finishes cfg (calls ++ [c]) h id st out.
Proof. intros (x & rest & Hx & H). exists x, rest. split; [by apply calls_at|done]. Qed.

Lemma act_ok_grows h s a : act_ok cfg N calls h s a -> act_ok cfg N (calls ++ [c]) h s a.
Proof.
  destruct a; cbn; try done; try (intros (Hx & H); split; [by apply calls_at|done]).
  - intros (H1 & H2 & H3 & H4). split_and!; [done|done|by apply account_grows|apply H4..].
  - intros [H1 H2]. split; [by apply finishes_grows|done].
Qed.

Lemma locked_grows h s items : locked cfg calls h s items -> locked cfg (calls ++ [c]) h s items.
Proof.
  intros [L1 L2 L3 L4 L5 L6 L7 L8]. constructor; try done; eapply Forall_impl; try eassumption; intros a Ha Hc; destruct (Ha Hc) as (H1 & H2 & H3); (split; [done|split; [by apply account_grows|done]]).
Qed.
End calls_grow.

Lemma inv_perm N (calls : list call_) h (s : shared) A A' : A ≡ₚ A' -> inv cfg N calls h s A -> inv cfg N calls h s A'.
Proof.
  intros Hp [(items & L & Hs) I2 I3 I4 I5 I6]. constructor; try done.
  - exists items. split; [done|]. destruct Hs as [Hf|Hb]; [left; by rewrite <- Hp|by right].
  - rewrite <- I2. unfold all_ids. apply Permutation_app_tail. clear -Hp. induction Hp; cbn; [done|by f_equiv|solve_Permutation|by etransitivity].
  - by rewrite <- Hp.
Qed.

Lemma queue_inv_call N (calls : list call_) h (s : shared) A c : inv cfg N calls h s A -> permitted N c -> inv cfg N (calls ++ [c]) h s (start c (length calls) ++ A).
Proof.
  intros [(items & L & Hs) I2 I3 I4 I5 I6] Hc. constructor.
  - exists items. split; [by apply locked_grows|]. destruct Hs as [Hf|Hb]; [left; apply elem_of_app; by right|by right].
  - rewrite op_ids_snoc, <- I2. unfold all_ids. rewrite map_app, concat_app. destruct c; cbn; solve_Permutation.
  - apply Forall_app. split; [|eapply Forall_impl; [exact I3|]; intros a; apply act_ok_grows]. destruct (I5 (length calls)) as [Hv Hst]; [intros ?%op_ids_lt; lia|]. assert (forall c', (calls ++ [c']) !! length calls = Some c') as Hat by (intros c'; rewrite lookup_app_r, Nat.sub_diag by lia; done).
    destruct c; cbn in *; (constructor; [|constructor]); try done; unfold fresh_op; cbn; (split_and!; [by rewrite Hat|by cbn|done|done|tauto]).
  - eapply Forall_impl; [exact I4|]. intros [id st out| |]; [apply finishes_grows|done..].
  - intros id Hid. apply I5. intros Hin. apply Hid. rewrite op_ids_snoc. apply elem_of_app. by left.
  - done.
Qed.

(** ** Schedules *)

Definition state_inv (N : nat) (h : list (hevent (V := V))) (s : state) : Prop := inv cfg N (calls s) h (sh s) (concat (threads s)).

(** How far the threads are from their end. *)
Definition measure (s : state) : nat := total (concat (threads s)) (sh s).

Definition calm_state (s : state) : Prop := calm (concat (threads s)) (sh s).

Lemma thread_split (ts : list (list action)) i l l' : ts !! i = Some l -> exists B, concat ts ≡ₚ l ++ B /\ concat (<[i:=l']> ts) ≡ₚ l' ++ B.
Proof.
  intros Hi. exists (concat (take i ts) ++ concat (drop (S i) ts)). rewrite <- (take_drop_middle ts i l Hi) at 1. rewrite insert_take_drop by (by eapply lookup_lt_Some). rewrite !concat_app. cbn. split; solve_Permutation.
Qed.

Lemma weights_perm (A A' : list action) : A ≡ₚ A' -> sum_list_with weight A = sum_list_with weight A'.
Proof. induction 1; cbn; lia. Qed.

Lemma queue_step_inv N h s m : environment_ok -> state_inv N h s -> move_ok N m -> exists s' h', step m s = Val s' /\ state_inv N h' s' /\ takes_turn h (sh s) h' (sh s')
  /\ (forall i, m = Run i -> (s' = s \/ (measure s' < measure s)%nat) /\ (calm_state s -> calm_state s' /\ forall a l, threads s !! i = Some (a :: l) -> (measure s' < measure s)%nat)).
Proof.
  intros (Hc & Hall & Hit) I Hm. assert (forall s1 : state, sh s1 = sh s -> takes_turn h (sh s) h (sh s1)) as Hsame by (intros s1 ->; left; by apply in_turns_same). destruct m as [c|i]; cbn [FifoQueue.step].
  - eexists _, h. split; [done|]. split; [|split; [by apply Hsame|done]]. unfold state_inv. cbn [calls sh threads]. rewrite concat_app. cbn [concat]. rewrite app_nil_r. eapply inv_perm; [apply Permutation_app_comm|]. by apply queue_inv_call.
  - assert (threads s !! i = None \/ threads s !! i = Some [] -> exists s' h', Val s = Val s' /\ state_inv N h' s' /\ takes_turn h (sh s) h' (sh s') /\ (forall j, Run (V := V) i = Run j -> (s' = s \/ (measure s' < measure s)%nat) /\ (calm_state s -> calm_state s' /\ forall a l, threads s !! j = Some (a :: l) -> (measure s' < measure s)%nat))) as Hidle.
    { intros Hi. exists s, h. split_and!; [done|done|by apply Hsame|]. intros ? [= <-]. split; [by left|]. intros Hcs. split; [done|]. intros a l Ha. destruct Hi; congruence. }
    destruct (threads s !! i) as [[|a l]|] eqn:Hi; [by apply Hidle; right| |by apply Hidle; left]. clear Hidle.
    destruct (thread_split (threads s) i (a :: l) [] Hi) as (B & HB & _). unfold state_inv in I. eapply inv_perm in I; [|exact HB]. cbn [app] in I. pose proof (exec_good junk cfg allocates iterate Hc Hall Hit N (calls s) h (sh s) a (l ++ B) I) as Hex. apply wp_total in Hex as (o & sh' & -> & Hex).
    destruct Hex as [(-> & Hnc)|(new & h' & -> & [I' Hturn] & Hbet)].
    + exists s, h. split_and!; [done|unfold state_inv; eapply inv_perm; [|exact I]; by rewrite HB|by apply Hsame|]. intros j [= <-]. split; [by left|]. intros [Hcalm _]. exfalso. rewrite HB in Hcalm. cbn in Hcalm. apply Forall_cons in Hcalm as [? _]. done.
    + destruct (thread_split (threads s) i (a :: l) (new ++ l) Hi) as (B' & HB' & HN). assert (B' ≡ₚ B) as EB by (rewrite HB in HB'; cbn in HB'; apply Permutation_cons_inv in HB'; by apply Permutation_app_inv_l in HB').
      eexists _, h'. split; [done|]. unfold state_inv, measure, calm_state, total. cbn [calls sh threads]. destruct Hbet as [Hlt Hcalm]. unfold total in Hlt. rewrite (weights_perm _ _ HN), (weights_perm _ _ HB'), !sum_list_with_app. cbn [sum_list_with] in *.
      assert (sum_list_with weight new + sum_list_with weight l + sum_list_with weight B' + 3 * length (ids sh') + registered sh' < weight a + sum_list_with weight l + sum_list_with weight B' + 3 * length (ids (sh s)) + registered (sh s))%nat as Hless by lia. split.
      { eapply inv_perm; [|exact I']. rewrite HN, EB. by rewrite <- app_assoc. }
      split; [done|]. intros j [= <-]. split; [right; cbn [app sum_list_with] in *; lia|]. intros [HA HM]. rewrite HB' in HA. apply Forall_cons in HA as [Ha Hl]. destruct Hcalm as [Hn Hm']; [split; [by constructor|done]|]. split; [|intros; cbn [app sum_list_with] in *; lia]. split; [|done]. rewrite HN. apply Forall_app in Hl as [? ?]. apply Forall_app. split; [by apply Forall_app|done].
Qed.

Definition first_state (N : nat) : state := mkState (mkShared (replicate n []) false [] [] (replicate N CancellationManager_new) ∅ 0 []) [] [].

Lemma initial_run N : config_ok cfg -> initial cfg N = Ok (first_state N).
Proof.
  intros Hc. unfold initial, Initialize. rewrite (proj2 (Nat.eqb_neq _ 0)) by apply (n_pos cfg Hc). destruct (specified_shapes cfg) eqn:Hs; [|done]. cbn [andb]. rewrite (c_shapes cfg Hc Hs), Nat.eqb_refl. done.
Qed.

Lemma first_inv N : config_ok cfg -> state_inv N [] (first_state N) /\ calm_state (first_state N).
Proof.
  intros Hc. pose proof (c_capacity cfg Hc) as Hcap. split; [|split; [constructor|]; apply Forall_replicate; done]. constructor; cbn.
  - exists []. split; [|by right]. constructor; cbn; try done; try apply NoDup_nil_2; try apply fifo_empty; try lia.
    split; [by rewrite length_replicate|]. intros j Hj. rewrite lookup_replicate_2 by done. by destruct (j <? 0)%nat.
  - done.
  - constructor.
  - constructor.
  - done.
  - by rewrite length_replicate.
Qed.

Lemma run_inv N ms : environment_ok -> Forall (move_ok N) ms -> forall h s, state_inv N h s -> exists s' h', run ms s = Val s' /\ state_inv N h' s' /\ ((forall c, Call (CStartCancel c) ∉ ms) -> calm_state s -> calm_state s').
Proof.
  intros He. induction 1 as [|m ms Hm _ IH]; intros h s I; [by exists s, h|]. cbn [FifoQueue.run]. destruct (queue_step_inv N h s m He I Hm) as (s1 & h1 & Es & I1 & _ & H1). rewrite Es. destruct (IH h1 s1 I1) as (s' & h' & Er & I' & Hcalm). exists s', h'. split_and!; [done|done|]. intros Hno Hc. apply Hcalm; [intros c Hin; apply (Hno c); by right|]. destruct m as [c|i].
  - cbn in Es. injection Es as <-. destruct Hc as [HA HM]. split; [|done]. cbn [threads]. rewrite concat_app. apply Forall_app. split; [done|]. cbn. rewrite app_nil_r. destruct c as [| | | | | | |c]; try (by repeat constructor). exfalso. apply (Hno c). by left.
  - destruct (H1 i eq_refl) as (_ & H2). by apply H2.
Qed.

(** ** What clients can rely on *)

(** The deques of the components hold these elements. *)
Definition contents (s : shared) (items : list Tuple) : Prop := length (queues_ s) = n /\ forall j, (j < n)%nat -> queues_ s !! j = Some (map (comp j) items).

Definition completed (s : state) : list nat := concat (map ev_ids (log (sh s))).
Definition waiting (s : state) : list nat := ids (sh s).
Definition under_way (s : state) : list nat := concat (map act_ids (concat (threads s))).

Lemma rep_contents s items : part_q cfg (queues_ s) 0 items items -> contents s items.
Proof. intros [H1 H2]. split; [done|]. intros j Hj. rewrite (H2 j Hj). by destruct (j <? 0)%nat. Qed.






(** C11: safety.  Every operation that was called is in one place: its callback was called once,
    or it waits in the queue, or a thread is about to go on with it.  Allocations succeed and
    clients pass well-formed tensors ([environment_ok], [move_ok]). *)
Theorem queue_exactly_once N ms : environment_ok -> Forall (move_ok N) ms -> exists s0 s,
  initial cfg N = Ok s0 /\ run ms s0 = Val s /\ NoDup (completed s) /\ completed s ++ waiting s ++ under_way s ≡ₚ op_ids (calls s).
Proof.
  intros He Hms. pose proof (proj1 He) as Hc. destruct (first_inv N Hc) as [I0 _]. destruct (run_inv N ms He Hms [] _ I0) as (s & h & Er & I & _). exists (first_state N), s. pose proof (i_ids _ _ _ _ _ _ I) as Hids. unfold all_ids in Hids. assert (completed s ++ waiting s ++ under_way s ≡ₚ op_ids (calls s)) as Hp by (rewrite <- Hids; unfold completed, waiting, under_way; solve_Permutation).
  split_and!; [by apply initial_run|done| |done]. pose proof (op_ids_nodup (calls s)) as Hnd. rewrite <- Hp in Hnd. by apply NoDup_app in Hnd as [? _].
Qed.

(** C12: liveness.  A thread that does not wait comes nearer to its end with each move; if no
    step is cancelled no thread ever waits, so all of them end.  Then the first operation that
    waits to put elements in does so because the queue is full, one that waits for elements
    because it is empty, and if the queue is closed every operation has completed.  Allocations
    succeed and clients pass well-formed tensors ([environment_ok], [move_ok]). *)
Theorem queue_progress N ms : environment_ok -> Forall (move_ok N) ms -> exists s0 s,
  initial cfg N = Ok s0 /\ run ms s0 = Val s
  /\ (forall i, step (Run i) s = Val s \/ exists s', step (Run i) s = Val s' /\ (measure s' < measure s)%nat)
  /\ ((forall c, Call (CStartCancel c) ∉ ms) -> (forall i, step (Run i) s = Val s) -> concat (threads s) = [])
  /\ (concat (threads s) = [] -> exists items, contents (sh s) items /\ blocked_enq cfg (sh s) items /\ blocked_deq (sh s) items /\ (closed_ (sh s) = true -> completed s ≡ₚ op_ids (calls s))).
Proof.
  intros He Hms. pose proof (proj1 He) as Hc. destruct (first_inv N Hc) as [I0 C0]. destruct (run_inv N ms He Hms [] _ I0) as (s & h & Er & I & Hcalm). exists (first_state N), s. assert (forall i, exists s', step (Run i) s = Val s' /\ (s' = s \/ (measure s' < measure s)%nat) /\ (calm_state s -> forall a l, threads s !! i = Some (a :: l) -> (measure s' < measure s)%nat)) as Hstep.
  { intros i. destruct (queue_step_inv N h s (Run i) He I ltac:(done)) as (s' & h' & Es & _ & _ & H). destruct (H i eq_refl) as (H1 & H2). exists s'. split_and!; [done|done|]. intros Hcs. by apply H2. }
  split_and!; [by apply initial_run|done| | |].
  - intros i. destruct (Hstep i) as (s' & Es & [->|Hlt] & _); [by left|]. right. by exists s'.
  - intros Hno Hstuck. specialize (Hcalm Hno C0). destruct (concat (threads s)) as [|a A] eqn:EA; [done|]. exfalso. assert (exists i b l, threads s !! i = Some (b :: l)) as (i & b & l & Hi). { assert (a ∈ concat (threads s)) as Ha by (rewrite EA; by left). apply list_elem_of_In, in_concat in Ha as (l & Hl & Ha). apply list_elem_of_In, list_elem_of_lookup_1 in Hl as [i Hi]. destruct l as [|b l]; [done|]. by exists i, b, l. }
    destruct (Hstep i) as (s' & Es & _ & H). specialize (H Hcalm b l Hi). rewrite Hstuck in Es. injection Es as <-. lia.
  - intros Hend. destruct (i_locked _ _ _ _ _ _ I) as (items & L & Hs). rewrite Hend in Hs. destruct Hs as [?%elem_of_nil|[B1 B2]]; [done|]. exists items. split_and!; [apply rep_contents, L|done|done|]. intros Hcl. pose proof (i_ids _ _ _ _ _ _ I) as Hids. unfold all_ids in Hids. rewrite Hend in Hids. cbn [map concat app] in Hids. assert (ids (sh s) = []) as Ei; [|rewrite Ei in Hids; done].
    unfold blocked_enq, blocked_deq in *. unfold ids. destruct (enqueue_attempts_ (sh s)) as [|a1 l1]; [|destruct B1 as (_ & _ & ? & _); congruence]. destruct (dequeue_attempts_ (sh s)) as [|a2 l2]; [done|]. destruct B2 as (_ & ? & _). congruence.
Qed.
End queue.

(** ** Concrete runs *)

Definition demo_queue : Config := mkConfig 2 [1] [[]].
Definition scalar (v : Z) : Tensor := mkTensor 1 [] [v].
Definition vector (l : list Z) : Tensor := mkTensor 1 [Z.of_nat (length l)] l.
Definition listed (m : gmap Z CancelClosure) : list (Z * CancelClosure) := reverse (map_to_list m).

Lemma demo_queue_ok : environment_ok demo_queue (fun _ => true) listed.
Proof. split_and!; [|done|intros m; apply reverse_Permutation]. constructor; cbn; [lia|done|by repeat constructor|done|]. constructor; [|done]. split; [by apply List.Forall_nil|]. split; [done|cbn; lia]. Qed.

(** A batch of five through a queue for two, in parts of three and, when it is closed, of two. *)
Definition demo_moves : list move :=
  [Call (CEnqueueMany 0 [vector [1; 2; 3; 4; 5]]); Run 0; Run 0; Run 0; Call (CDequeueMany 0 3 false); Run 1; Run 1; Run 1; Run 1; Run 1; Run 1; Run 1;
   Call (CDequeueMany 0 3 true); Run 2; Run 2; Run 2; Call (CClose 0 false); Run 3; Run 3; Run 3; Run 3; Run 3].

Lemma demo_moves_ok : Forall (move_ok 1) demo_moves.
Proof. repeat constructor; cbn; lia. Qed.


Lemma queue_exactly_once_witness : exists s0 s,
  initial demo_queue 1 = Ok s0 /\ run 0 demo_queue (fun _ => true) listed demo_moves s0 = Val s /\ NoDup (completed s) /\ completed s ++ waiting s ++ under_way s ≡ₚ op_ids (calls s).
Proof. apply queue_exactly_once; [apply demo_queue_ok|apply demo_moves_ok]. Defined.

Lemma queue_progress_witness : exists s0 s,
  initial demo_queue 1 = Ok s0 /\ run 0 demo_queue (fun _ => true) listed demo_moves s0 = Val s
  /\ (forall i, step 0 demo_queue (fun _ => true) listed (Run i) s = Val s \/ exists s', step 0 demo_queue (fun _ => true) listed (Run i) s = Val s' /\ (measure s' < measure s)%nat)
  /\ ((forall c, Call (CStartCancel c) ∉ demo_moves) -> (forall i, step 0 demo_queue (fun _ => true) listed (Run i) s = Val s) -> concat (threads s) = [])
  /\ (concat (threads s) = [] -> exists items, contents demo_queue (sh s) items /\ blocked_enq demo_queue (sh s) items /\ blocked_deq (sh s) items /\ (closed_ (sh s) = true -> completed s ≡ₚ op_ids (calls s))).
Proof. apply queue_progress; [apply demo_queue_ok|apply demo_moves_ok]. Defined.

Definition outcome_of (N : nat) (cfg : Config) (ms : list move) : outcome (state (V := Z)) :=
  match initial cfg N with Ok s => run 0 cfg (fun _ => true) listed ms s | Err _ => Crash end.

Example demo_queue_run :
  match outcome_of 1 demo_queue demo_moves with
  | Val s => log (sh s) = [EDone 1 OK [vector [1; 2; 3]]; EDone 0 OK []; EDone 3 OK []; EDone 2 OK [vector [4; 5]]] /\ queues_ (sh s) = [[]] /\ concat (threads s) = []
  | _ => False
  end.
Proof. by vm_compute. Qed.

(** ** Defects *)

(** A step is cancelled while it waits to put elements into a full queue, with an operation that
    closes the queue and another one that puts elements in behind it.  The callback of the first
    flushes the queue, which completes the others; before it calls their callbacks it waits for
    the end of the cancellation, which is the thread that it runs in. *)
Definition deadlock_moves : list move :=
  [Call (CEnqueueMany 0 [vector [1; 2; 3]]); Run 0; Run 0; Run 0; Call (CClose 0 false); Run 1; Run 1; Call (CEnqueue 0 [scalar 9]); Run 2; Run 2; Run 2;
   Call (CStartCancel 0); Run 3; Run 3; Run 3; Run 3; Run 3; Run 3; Run 3].

Theorem queue_cancel_deadlock : exists s, outcome_of 1 demo_queue deadlock_moves = Val s
  /\ threads s !! 3%nat = Some [AWaitCancelled 0; ACall (Plain (mkContext 2 0)); ACancel kEnqueue 0 1; AFinishCancel 0; ANotify 0]
  /\ forall i, step 0 demo_queue (fun _ => true) listed (Run i) s = Val s.
Proof.
  eexists. split; [by vm_compute|]. split; [done|]. intros [|[|[|[|i]]]]; [by vm_compute..|done].
Qed.

(** A batch with a component of a type that cannot be copied leaves the components of the
    elements before it in the queue: the deques differ in length, and the next operation that
    takes an element reads from an empty one. *)
Definition mixed_queue : Config := mkConfig 2 [1; 15] [].
Definition mixed_moves : list move := [Call (CEnqueueMany 0 [vector [1]; mkTensor 15 [1] [1]]); Run 0; Run 0; Run 0; Run 0; Run 0].

Theorem queue_batch_misaligned :
  (exists s, outcome_of 1 mixed_queue mixed_moves = Val s /\ log (sh s) = [EDone 0 (Err UNIMPLEMENTED) []] /\ queues_ (sh s) = [[scalar 1]; []])
  /\ outcome_of 1 mixed_queue (mixed_moves ++ [Call (CDequeue 0); Run 1; Run 1; Run 1]) = Crash.
Proof. split; [|by vm_compute]. eexists. by split_and!; [by vm_compute|..]. Qed.

(** The memory of a queue is added up in an [int]: three gigabytes are a negative number. *)
Theorem queue_memory_wraps (t : Tensor (V := Z)) s : queues_ s = [[t]] -> MemoryUsed (fun _ => 3 * 2 ^ 30) s = - 2 ^ 30.
Proof. intros E. unfold MemoryUsed. rewrite E. by vm_compute. Qed.
