(* ===== verification/Rendezvous.v ===== *)
(** * Rendezvous: the model

    [core/framework/rendezvous.cc]: [LocalRendezvousImpl] with the cancellation managers of its
    receivers.  Threads are lists of actions, an action being what the code does between two
    points at which another thread can interfere: a critical section of [mu_] (held across the
    calls of the cancellation manager in [RecvAsync]), a critical section of a manager, or the
    call of a closure.  A schedule is a list of moves: a call by a new thread, the next action
    of a thread, or the expiry of a timeout.

    A closure [done] is a number; calling it appends to a log.  The order in which the code
    iterates over its hash tables ([gtl::FlatMap]) is a parameter. *)

From stdpp Require Import gmap.
From S2P Require Import Prelude InputStream Hash Cancellation.
Import Cancellation.

Module Rendezvous.

(** An action may have to wait, or be an error (a failed [CHECK], an access to freed memory). *)
Inductive outcome (A : Type) := Blocked | Failed | Next (a : A).
Arguments Blocked {A}.
Arguments Failed {A}.
Arguments Next {A} _.

(** ** Data *)

Section rendezvous.
Context (kLittleEndian : bool) {Tensor : Type} (no_tensor : Tensor).
Context (iterate : forall A, gmap Z A -> list (Z * A)).

(** Device contexts and cancellation managers are pointers. *)
Record Args := mkArgs { device_context : option Z; alloc_attrs : Z; cancellation_manager : option nat }.
Definition Args_new : Args := mkArgs None 0 None.

(** A receiver's closure, or that closure wrapped with its manager and token. *)
Record Waiter := mkWaiter { done_ : nat; wrapped : option (nat * Z) }.

(** The token of a sent value is not initialised, and not read. *)
Record Item := mkItem {
  waiter : option Waiter;
  value : Tensor;
  is_dead : bool;
  send_args : Args;
  recv_args : Args;
  cancellation_token : Z
}.

Definition IsSendValue (it : Item) : bool := match waiter it with None => true | Some _ => false end.

Abbreviation ItemQueue := (list Item).
Abbreviation Table := (gmap Z ItemQueue).

(** What the closure registered with the manager captures. *)
Record CancelClosure := mkClosure { closure_token : Z; closure_hash : Z }.
Abbreviation Manager := (@CancellationManager CancelClosure).

Definition KeyHash (k : list Z) : option Z := Hash.Hash64_default kLittleEndian k.

(** ** Shared state *)

(** The arguments of a call of [done]. *)
Record Delivery := mkDelivery {
  d_done : nat; d_status : Status; d_send_args : Args; d_recv_args : Args; d_value : Tensor; d_is_dead : bool
}.

Inductive event :=
| EDone (d : Delivery)
| ESend (id : nat) (st : Status)
| ERecv (done : nat) (st : Status)
| EDeregister (id : nat) (b : bool).

(** [refs]: the references held on device contexts; [expired]: the frames of calls of [Recv]
    that have timed out. *)
Record shared := mkShared {
  table_ : Table;
  status_ : Status;
  mu_ : bool;
  managers : list Manager;
  refs : list Z;
  expired : list nat;
  log : list event
}.

Definition with_table (t : Table) (s : shared) : shared := mkShared t (status_ s) (mu_ s) (managers s) (refs s) (expired s) (log s).
Definition with_mu (b : bool) (s : shared) : shared := mkShared (table_ s) (status_ s) b (managers s) (refs s) (expired s) (log s).
Definition with_status (st : Status) (s : shared) : shared := mkShared (table_ s) st (mu_ s) (managers s) (refs s) (expired s) (log s).
Definition with_manager (c : nat) (m : Manager) (s : shared) : shared :=
  mkShared (table_ s) (status_ s) (mu_ s) (<[c := m]> (managers s)) (refs s) (expired s) (log s).
Definition with_refs (r : list Z) (s : shared) : shared := mkShared (table_ s) (status_ s) (mu_ s) (managers s) r (expired s) (log s).
Definition with_expired (l : list nat) (s : shared) : shared := mkShared (table_ s) (status_ s) (mu_ s) (managers s) (refs s) l (log s).
Definition emit (e : event) (s : shared) : shared := mkShared (table_ s) (status_ s) (mu_ s) (managers s) (refs s) (expired s) (log s ++ [e]).

(** [table_[h]], which creates an empty queue. *)
Definition queue_at (h : Z) (t : Table) : ItemQueue := default [] (t !! h).
Definition touch (h : Z) (t : Table) : Table := <[h := queue_at h t]> t.

(** The queue without its first element, and no queue instead of an empty one. *)
Definition pop (h : Z) (q : ItemQueue) (t : Table) : Table :=
  match q with
  | [_] => delete h t
  | _ => <[h := tail q]> t
  end.

(** ** Actions *)

Inductive action :=
| ASend (id : nat) (key : list Z) (args : Args) (val : Tensor) (dead : bool)
| ASent (id : nat) (st : Status)
| ARecvAsync (key : list Z) (args : Args) (done : nat)
| ARecvToken (h : Z) (args : Args) (c : nat) (done : nat)
| ARecvRegister (h : Z) (args : Args) (c : nat) (token : Z) (done : nat)
| ARecvEnqueue (h : Z) (args : Args) (c : nat) (token : Z) (done : nat)
| ADone (d : Delivery)
| ADelete (it : Item)
| AWait (done : nat) (timeout_ms : Z)
| AStartAbort (st : Status)
| ADestroy
| ACancelled (token h : Z)
| AStartCancel (c : nat)
| AFinishCancel (c : nat)
| ANotify (c : nat)
| ATryDeregister (c : nat) (token : Z)
| ADeregister (id c : nat) (token : Z)
| AWaitCancelled (id c : nat)
| ADestroyManager (c : nat).

(** The closure of a waiter: a wrapped one deregisters its cancellation callback first. *)
Definition call_waiter (w : Waiter) (st : Status) (sargs rargs : Args) (val : Tensor) (dead : bool) : list action :=
  match wrapped w with Some (c, token) => [ATryDeregister c token] | None => [] end
  ++ [ADone (mkDelivery (done_ w) st sargs rargs val dead)].

Definition held (context : option Z) : list Z := match context with Some d => [d] | None => [] end.
Definition Ref (context : option Z) (s : shared) : shared := with_refs (held context ++ refs s) s.

(** Releasing a reference that is not held is an error. *)
Definition Unref (context : option Z) (s : shared) : option shared :=
  match context with
  | None => Some s
  | Some d => '(i, _) ← list_find (eq d) (refs s); Some (with_refs (delete i (refs s)) s)
  end.

(** A receiver at the end of its queue, and the end of the critical section. *)
Definition enqueue_receiver (h : Z) (args : Args) (w : Waiter) (token : Z) (s : shared) : shared :=
  let s := Ref (device_context args) s in
  with_mu false (with_table (<[h := queue_at h (table_ s) ++ [mkItem (Some w) no_tensor false Args_new args token]]> (table_ s)) s).

Definition cancelled (done : nat) (args : Args) : action := ADone (mkDelivery done (Err CANCELLED) Args_new args no_tensor false).

(** [Send]. *)
Definition Send (id : nat) (key : list Z) (args : Args) (val : Tensor) (dead : bool) (s : shared) : outcome (shared * list action) :=
  match KeyHash key with
  | None => Failed
  | Some h =>
      if mu_ s then Blocked
      else if negb (ok (status_ s)) then Next (s, [ASent id (status_ s)])
      else
        let q := queue_at h (table_ s) in
        match q with
        | it :: _ =>
            match waiter it with
            | Some w => Next (with_table (pop h q (table_ s)) s, call_waiter w OK args (recv_args it) val dead ++ [ADelete it; ASent id OK])
            | None =>
                let item := mkItem None val dead args Args_new kInvalidToken in
                Next (with_table (<[h := q ++ [item]]> (table_ s)) (Ref (device_context args) s), [ASent id OK])
            end
        | [] =>
            let item := mkItem None val dead args Args_new kInvalidToken in
            Next (with_table (<[h := q ++ [item]]> (table_ s)) (Ref (device_context args) s), [ASent id OK])
        end
  end.

(** [RecvAsync], up to the calls of the cancellation manager. *)
Definition RecvAsync (key : list Z) (args : Args) (done : nat) (s : shared) : outcome (shared * list action) :=
  match KeyHash key with
  | None => Failed
  | Some h =>
      if mu_ s then Blocked
      else if negb (ok (status_ s)) then Next (s, [ADone (mkDelivery done (status_ s) Args_new args no_tensor false)])
      else
        let q := queue_at h (table_ s) in
        let nothing_sent := match q with [] => true | it :: _ => negb (IsSendValue it) end in
        if nothing_sent then
          match cancellation_manager args with
          | Some c => Next (with_mu true (with_table (touch h (table_ s)) s), [ARecvToken h args c done])
          | None => Next (enqueue_receiver h args (mkWaiter done None) kInvalidToken s, [])
          end
        else
          match q with
          | [] => Failed
          | it :: _ =>
              Next (with_table (pop h q (table_ s)) s,
                    [ADone (mkDelivery done OK (send_args it) args (value it) (is_dead it)); ADelete it])
          end
  end.

(** The callback that [RecvAsync] registers: the first waiter with the token, removed. *)
Definition Cancel (token h : Z) (s : shared) : outcome (shared * list action) :=
  if mu_ s then Blocked
  else
    let q := queue_at h (table_ s) in
    let s' := with_table (touch h (table_ s)) s in
    match q with
    | [] => Next (s', [])
    | front :: _ =>
        if IsSendValue front then Next (s', [])
        else
          match list_find (fun it => cancellation_token it = token) q with
          | None => Next (s', [])
          | Some (i, it) =>
              let t := if (length q =? 1)%nat then delete h (table_ s) else <[h := delete i q]> (table_ s) in
              match waiter it with
              | Some w => Next (with_table t s, call_waiter w (Err CANCELLED) Args_new (recv_args it) no_tensor false ++ [ADelete it])
              | None => Failed
              end
          end
    end.

(** The actions of [StartAbort] for one item. *)
Definition abort_item (st : Status) (it : Item) : list action :=
  match waiter it with Some w => call_waiter w st Args_new Args_new no_tensor false | None => [] end ++ [ADelete it].

Definition StartAbort (st : Status) (s : shared) : outcome (shared * list action) :=
  if ok st then Failed
  else if mu_ s then Blocked
  else
    Next (with_table ∅ (with_status (if ok (status_ s) then st else status_ s) s),
          concat (map (fun p => concat (map (abort_item st) (snd p))) (iterate _ (table_ s)))).

Definition on_manager (c : nat) (s : shared) (f : Manager -> outcome (shared * list action)) : outcome (shared * list action) :=
  match managers s !! c with Some m => f m | None => Failed end.

Definition call_closure (p : Z * CancelClosure) : action := ACancelled (closure_token (snd p)) (closure_hash (snd p)).

Definition StartCancel (c : nat) (s : shared) : outcome (shared * list action) :=
  on_manager c s (fun m =>
    match StartCancel_begin m with
    | None => Next (s, [])
    | Some (callbacks, m) => Next (with_manager c m s, map call_closure (iterate _ callbacks) ++ [AFinishCancel c; ANotify c])
    end).

(** The notification of a blocking [Recv]: the status that its closure was called with. *)
Fixpoint notified (done : nat) (l : list event) : option Status :=
  match l with
  | [] => None
  | EDone d :: l => if decide (d_done d = done) then Some (d_status d) else notified done l
  | _ :: l => notified done l
  end.

Definition exec (a : action) (s : shared) : outcome (shared * list action) :=
  match a with
  | ASend id key args val dead => Send id key args val dead s
  | ASent id st => Next (emit (ESend id st) s, [])
  | ARecvAsync key args done => RecvAsync key args done s
  | ARecvToken h args c done =>
      on_manager c s (fun m =>
        let '(token, m) := get_cancellation_token m in Next (with_manager c m s, [ARecvRegister h args c token done]))
  | ARecvRegister h args c token done =>
      on_manager c s (fun m =>
        match RegisterCallback token (mkClosure token h) m with
        | None => Failed
        | Some (true, m) => Next (with_manager c m s, [ARecvEnqueue h args c token done])
        | Some (false, m) => Next (with_mu false (with_manager c m s), [cancelled done args])
        end)
  | ARecvEnqueue h args c token done => Next (enqueue_receiver h args (mkWaiter done (Some (c, token))) token s, [])
  | ADone d => if decide (d_done d ∈ expired s) then Failed else Next (emit (EDone d) s, [])
  | ADelete it =>
      match (s ← Unref (device_context (send_args it)) s; Unref (device_context (recv_args it)) s) with
      | Some s => Next (s, [])
      | None => Failed
      end
  | AWait done _ => match notified done (log s) with Some st => Next (emit (ERecv done st) s, []) | None => Blocked end
  | AStartAbort st => StartAbort st s
  | ADestroy => if (size (table_ s) =? 0)%nat then Next (s, []) else Next (s, [AStartAbort (Err CANCELLED)])
  | ACancelled token h => Cancel token h s
  | AStartCancel c => StartCancel c s
  | AFinishCancel c => on_manager c s (fun m => Next (with_manager c (StartCancel_end m) s, []))
  | ANotify c => on_manager c s (fun m => Next (with_manager c (StartCancel_notify m) s, []))
  | ATryDeregister c token => on_manager c s (fun m => let '(_, m) := TryDeregisterCallback token m in Next (with_manager c m s, []))
  | ADeregister id c token =>
      on_manager c s (fun m =>
        let '(result, m) := DeregisterCallback token m in
        match result with
        | Some b => Next (emit (EDeregister id b) (with_manager c m s), [])
        | None => Next (with_manager c m s, [AWaitCancelled id c])
        end)
  | AWaitCancelled id c => on_manager c s (fun m => if cancelled_notification_ m then Next (emit (EDeregister id false) s, []) else Blocked)
  | ADestroyManager c => on_manager c s (fun m => if (size (callbacks_ m) =? 0)%nat then Next (s, []) else Next (s, [AStartCancel c]))
  end.

(** ** Threads *)

(** [requests]: the closures that receivers have passed so far. *)
Record state := mkState { sh : shared; threads : list (list action); next_id : nat; requests : list nat }.

Definition initial (n : nat) : state := mkState (mkShared ∅ OK false (replicate n CancellationManager_new) [] [] []) [] O [].

Inductive call :=
| CSend (key : list Z) (args : Args) (val : Tensor) (dead : bool)
| CRecvAsync (key : list Z) (args : Args)
| CRecv (key : list Z) (args : Args) (timeout_ms : Z)
| CStartAbort (st : Status)
| CDestroy
| CStartCancel (c : nat)
| CTryDeregister (c : nat) (token : Z)
| CDeregister (c : nat) (token : Z)
| CDestroyManager (c : nat).

Inductive move := Call (c : call) | Run (i : nat) | Timeout (i : nat).

(** A call by a new thread; [id] is its number, and that of its closure. *)
Definition start (c : call) (id : nat) : list action :=
  match c with
  | CSend key args val dead => [ASend id key args val dead]
  | CRecvAsync key args => [ARecvAsync key args id]
  | CRecv key args timeout_ms => [ARecvAsync key args id; AWait id timeout_ms]
  | CStartAbort st => [AStartAbort st]
  | CDestroy => [ADestroy]
  | CStartCancel c => [AStartCancel c]
  | CTryDeregister c token => [ATryDeregister c token]
  | CDeregister c token => [ADeregister id c token]
  | CDestroyManager c => [ADestroyManager c]
  end.

Definition requested (c : call) (id : nat) : list nat := match c with CRecvAsync _ _ | CRecv _ _ _ => [id] | _ => [] end.

Definition step (m : move) (s : state) : outcome state :=
  match m with
  | Call c => Next (mkState (sh s) (threads s ++ [start c (next_id s)]) (S (next_id s)) (requests s ++ requested c (next_id s)))
  | Run i =>
      match threads s !! i with
      | Some (a :: rest) =>
          match exec a (sh s) with
          | Next (sh', acts) => Next (mkState sh' (<[i := acts ++ rest]> (threads s)) (next_id s) (requests s))
          | Blocked => Blocked
          | Failed => Failed
          end
      | _ => Blocked
      end
  | Timeout i =>
      match threads s !! i with
      | Some (AWait done timeout_ms :: rest) =>
          if 0 <? timeout_ms then
            Next (mkState (with_expired (done :: expired (sh s)) (emit (ERecv done (Err DEADLINE_EXCEEDED)) (sh s))) (<[i := rest]> (threads s)) (next_id s) (requests s))
          else Blocked
      | _ => Blocked
      end
  end.

Fixpoint run (ms : list move) (s : state) : outcome state :=
  match ms with
  | [] => Next s
  | m :: ms => match step m s with Next s => run ms s | Blocked => Blocked | Failed => Failed end
  end.

End rendezvous.
End Rendezvous.
