(* ===== verification/RendezvousSteps.v ===== *)
(** * Rendezvous: the actions as a step relation

    Each action that can be taken, with what it does to the queues; sums over the items of the
    table, with which the invariants count. *)

From stdpp Require Import gmap.
From S2P Require Import Prelude InputStream Hash Cancellation Rendezvous.
Import Cancellation Rendezvous.

Section steps.
Context (le : bool) {Tensor : Type} (no_tensor : Tensor) (iterate : forall A, gmap Z A -> list (Z * A)).
Abbreviation Item := (@Item Tensor).
Abbreviation Table := (gmap Z (list Item)).
Abbreviation shared := (@shared Tensor).
Abbreviation action := (@action Tensor).
Abbreviation exec := (exec le no_tensor iterate).

(** ** Queues *)

Lemma queue_insert h q (t : Table) h' : queue_at h' (<[h := q]> t) = if decide (h' = h) then q else queue_at h' t.
Proof using Type. unfold queue_at. destruct (decide (h' = h)) as [->|]; [by rewrite lookup_insert_eq|by rewrite lookup_insert_ne]. Qed.

Lemma queue_delete h (t : Table) h' : queue_at h' (delete h t) = if decide (h' = h) then [] else queue_at h' t.
Proof using Type. unfold queue_at. destruct (decide (h' = h)) as [->|]; [by rewrite lookup_delete_eq|by rewrite lookup_delete_ne]. Qed.

Lemma queue_touch h (t : Table) h' : queue_at h' (touch h t) = queue_at h' t.
Proof using Type. unfold touch. rewrite queue_insert. by destruct (decide (h' = h)) as [->|]. Qed.

Lemma queue_pop h it q (t : Table) h' : queue_at h' (pop h (it :: q) t) = if decide (h' = h) then q else queue_at h' t.
Proof using Type. unfold pop. destruct q; [apply queue_delete|apply queue_insert]. Qed.

(** The table without one element of a queue. *)
Definition drop_at (h : Z) (i : nat) (q : list Item) (t : Table) : Table := if (length q =? 1)%nat then delete h t else <[h := delete i q]> t.

Lemma queue_drop h i it q (t : Table) h' : q !! i = Some it -> queue_at h' (drop_at h i q t) = if decide (h' = h) then delete i q else queue_at h' t.
Proof using Type.
  intros Hi. unfold drop_at. destruct (Nat.eqb_spec (length q) 1) as [E|]; [|apply queue_insert]. rewrite queue_delete.
  destruct q as [|x [|? ?]]; try done. by destruct i.
Qed.

(** ** Sums over the items of a table *)

Definition items (t : Table) : list Item := concat (map snd (map_to_list t)).
Definition weigh (w : Item -> nat) (t : Table) : nat := sum_list_with w (items t).

Lemma sum_permutation {A} (w : A -> nat) l l' : l ≡ₚ l' -> sum_list_with w l = sum_list_with w l'.
Proof using Type. clear. induction 1; cbn; lia. Qed.

Lemma items_insert h q (t : Table) : t !! h = None -> items (<[h := q]> t) ≡ₚ q ++ items t.
Proof using Type. intros Hh. unfold items. by rewrite map_to_list_insert. Qed.

Lemma weigh_queue w h (t : Table) : (weigh w t = sum_list_with w (queue_at h t) + weigh w (delete h t))%nat.
Proof using Type.
  unfold weigh, queue_at. destruct (t !! h) as [q|] eqn:E; cbn.
  - rewrite <- (insert_delete_id t h q E) at 1. rewrite (sum_permutation _ _ _ (items_insert h q _ (lookup_delete_eq t h))). apply sum_list_with_app.
  - by rewrite delete_id.
Qed.

Lemma weigh_insert w h q (t : Table) : (weigh w (<[h := q]> t) = sum_list_with w q + weigh w (delete h t))%nat.
Proof using Type. rewrite (weigh_queue w h). unfold queue_at. rewrite lookup_insert_eq, delete_insert_eq. done. Qed.

Lemma weigh_touch w h (t : Table) : weigh w (touch h t) = weigh w t.
Proof using Type. unfold touch. by rewrite weigh_insert, <- weigh_queue. Qed.

Lemma weigh_push w h it (t : Table) : (weigh w (<[h := queue_at h t ++ [it]]> t) = w it + weigh w t)%nat.
Proof using Type. rewrite weigh_insert, (weigh_queue w h t), sum_list_with_app. cbn. lia. Qed.

Lemma weigh_pop w h it q (t : Table) : queue_at h t = it :: q -> (w it + weigh w (pop h (it :: q) t) = weigh w t)%nat.
Proof using Type.
  intros E. rewrite (weigh_queue w h t), E. unfold pop. destruct q; [cbn; lia|]. rewrite weigh_insert. cbn. lia.
Qed.

Lemma sum_delete (w : Item -> nat) i it q : q !! i = Some it -> (sum_list_with w q = w it + sum_list_with w (delete i q))%nat.
Proof using Type. intros Hi. rewrite (sum_permutation w _ _ (delete_Permutation q i it Hi)). done. Qed.

Lemma weigh_drop w h i it (t : Table) : queue_at h t !! i = Some it -> (w it + weigh w (drop_at h i (queue_at h t) t) = weigh w t)%nat.
Proof using Type.
  intros Hi. rewrite (weigh_queue w h t), (sum_delete w i it _ Hi). unfold drop_at. destruct (Nat.eqb_spec (length (queue_at h t)) 1) as [E|]; [|rewrite weigh_insert; lia].
  destruct (queue_at h t) as [|x [|? ?]]; try done. destruct i; [|done]. cbn. lia.
Qed.

(** ** The step relation *)

(** There is nobody to receive, or nothing to receive. *)
Definition no_waiter (q : list Item) : Prop := match q with [] => True | it :: _ => IsSendValue it = true end.
Definition no_message (q : list Item) : Prop := match q with [] => True | it :: _ => IsSendValue it = false end.

Definition unlocked (s : shared) : Prop := mu_ s = false.
Definition running (s : shared) : Prop := ok (status_ s) = true.
Definition message (val : Tensor) (dead : bool) (args : Args) : Item := mkItem None val dead args Args_new kInvalidToken.

Inductive does : action -> shared -> shared -> list action -> Prop :=
| do_send_aborted id key args val dead s : unlocked s -> ~ running s -> does (ASend id key args val dead) s s [ASent id (status_ s)]
| do_send_queue id key args val dead s h : KeyHash le key = Some h -> unlocked s -> running s -> no_waiter (queue_at h (table_ s)) ->
    does (ASend id key args val dead) s
      (with_table (<[h := queue_at h (table_ s) ++ [message val dead args]]> (table_ s)) (Ref (device_context args) s)) [ASent id OK]
| do_send_match id key args val dead s h it q w : KeyHash le key = Some h -> unlocked s -> running s -> queue_at h (table_ s) = it :: q -> waiter it = Some w ->
    does (ASend id key args val dead) s (with_table (pop h (it :: q) (table_ s)) s) (call_waiter w OK args (recv_args it) val dead ++ [ADelete it; ASent id OK])
| do_sent id st s : does (ASent id st) s (emit (ESend id st) s) []
| do_recv_aborted key args done s : unlocked s -> ~ running s ->
    does (ARecvAsync key args done) s s [ADone (mkDelivery done (status_ s) Args_new args no_tensor false)]
| do_recv_queue key args done s h : KeyHash le key = Some h -> unlocked s -> running s -> no_message (queue_at h (table_ s)) -> cancellation_manager args = None ->
    does (ARecvAsync key args done) s (enqueue_receiver no_tensor h args (mkWaiter done None) kInvalidToken s) []
| do_recv_lock key args done s h c : KeyHash le key = Some h -> unlocked s -> running s -> no_message (queue_at h (table_ s)) -> cancellation_manager args = Some c ->
    does (ARecvAsync key args done) s (with_mu true (with_table (touch h (table_ s)) s)) [ARecvToken h args c done]
| do_recv_match key args done s h it q : KeyHash le key = Some h -> unlocked s -> running s -> queue_at h (table_ s) = it :: q -> waiter it = None ->
    does (ARecvAsync key args done) s (with_table (pop h (it :: q) (table_ s)) s)
      [ADone (mkDelivery done OK (send_args it) args (value it) (is_dead it)); ADelete it]
| do_token h args c done s m : managers s !! c = Some m ->
    does (ARecvToken h args c done) s (with_manager c (get_cancellation_token m).2 s) [ARecvRegister h args c (next_cancellation_token_ m) done]
| do_register h args c token done s m : managers s !! c = Some m -> token < next_cancellation_token_ m -> is_cancelled_ m = false -> is_cancelling_ m = false ->
    does (ARecvRegister h args c token done) s (with_manager c (with_callbacks (<[token := mkClosure token h]> (callbacks_ m)) m) s) [ARecvEnqueue h args c token done]
| do_refuse h args c token done s m : managers s !! c = Some m -> token < next_cancellation_token_ m -> is_cancelled_ m || is_cancelling_ m = true ->
    does (ARecvRegister h args c token done) s (with_mu false (with_manager c m s)) [cancelled no_tensor done args]
| do_enqueue h args c token done s :
    does (ARecvEnqueue h args c token done) s (enqueue_receiver no_tensor h args (mkWaiter done (Some (c, token))) token s) []
| do_done d s : d_done d ∉ expired s -> does (ADone d) s (emit (EDone d) s) []
| do_delete it s s1 s2 : Unref (device_context (send_args it)) s = Some s1 -> Unref (device_context (recv_args it)) s1 = Some s2 -> does (ADelete it) s s2 []
| do_wait done t st s : notified done (log s) = Some st -> does (AWait done t) s (emit (ERecv done st) s) []
| do_abort st s : ok st = false -> unlocked s ->
    does (AStartAbort st) s (with_table ∅ (with_status (if ok (status_ s) then st else status_ s) s))
      (concat (map (fun p => concat (map (abort_item no_tensor st) (snd p))) (iterate _ (table_ s))))
| do_destroy_empty s : does ADestroy s s []
| do_destroy s : does ADestroy s s [AStartAbort (Err CANCELLED)]
| do_cancel_miss token h s : unlocked s -> no_waiter (queue_at h (table_ s)) \/ Forall (fun it => cancellation_token it <> token) (queue_at h (table_ s)) ->
    does (ACancelled token h) s (with_table (touch h (table_ s)) s) []
| do_cancel token h s i it w : unlocked s -> queue_at h (table_ s) !! i = Some it -> cancellation_token it = token -> waiter it = Some w ->
    Forall (fun it => cancellation_token it <> token) (take i (queue_at h (table_ s))) ->
    does (ACancelled token h) s (with_table (drop_at h i (queue_at h (table_ s)) (table_ s)) s)
      (call_waiter w (Err CANCELLED) Args_new (recv_args it) no_tensor false ++ [ADelete it])
| do_start_again c s m : managers s !! c = Some m -> is_cancelled_ m || is_cancelling_ m = true -> does (AStartCancel c) s s []
| do_start c s m : managers s !! c = Some m -> is_cancelled_ m = false -> is_cancelling_ m = false ->
    does (AStartCancel c) s (with_manager c (mkManager true false (cancelled_notification_ m) (next_cancellation_token_ m) ∅) s)
      (map call_closure (iterate _ (callbacks_ m)) ++ [AFinishCancel c; ANotify c])
| do_finish c s m : managers s !! c = Some m -> does (AFinishCancel c) s (with_manager c (StartCancel_end m) s) []
| do_notify c s m : managers s !! c = Some m -> does (ANotify c) s (with_manager c (StartCancel_notify m) s) []
| do_try c token s m : managers s !! c = Some m -> does (ATryDeregister c token) s (with_manager c (TryDeregisterCallback token m).2 s) []
| do_deregister id c token s m b : managers s !! c = Some m -> (DeregisterCallback token m).1 = Some b ->
    does (ADeregister id c token) s (emit (EDeregister id b) (with_manager c (DeregisterCallback token m).2 s)) []
| do_deregister_wait id c token s m : managers s !! c = Some m -> is_cancelling_ m = true ->
    does (ADeregister id c token) s (with_manager c m s) [AWaitCancelled id c]
| do_wait_cancelled id c s m : managers s !! c = Some m -> cancelled_notification_ m = true -> does (AWaitCancelled id c) s (emit (EDeregister id false) s) []
| do_destroy_manager_idle c s : does (ADestroyManager c) s s []
| do_destroy_manager c s : does (ADestroyManager c) s s [AStartCancel c].

Lemma list_find_split (P : Item -> Prop) `{forall x, Decision (P x)} q :
  match list_find P q with Some (i, it) => q !! i = Some it /\ P it /\ Forall (fun x => ~ P x) (take i q) | None => Forall (fun x => ~ P x) q end.
Proof using Type.
  destruct (list_find P q) as [[i it]|] eqn:E; [|by apply (proj1 (list_find_None P q))]. apply list_find_Some in E as (Hi & Hp & Hn). split_and!; [done..|].
  apply Forall_lookup. intros j x Hj. apply lookup_take_Some in Hj as [Hj Hlt]. by apply (Hn j).
Qed.

(** Every action that can be taken is a step of the relation. *)
Lemma exec_send id key args val dead s s' acts : Send le id key args val dead s = Next (s', acts) -> does (ASend id key args val dead) s s' acts.
Proof using Type.
  unfold Send. destruct (KeyHash le key) as [h|] eqn:Eh; [|done]. destruct (mu_ s) eqn:Em; [done|]. destruct (ok (status_ s)) eqn:Eo; cbn [negb]; [|intros [= <- <-]; apply do_send_aborted; [done|unfold running; congruence]].
  destruct (queue_at h (table_ s)) as [|it q] eqn:Eq; [|destruct (waiter it) as [w|] eqn:Ew]; intros [= <- <-].
  - change ([] ++ ?l) with l. pose proof (do_send_queue id key args val dead s h Eh Em Eo) as Hd. rewrite Eq in Hd. by apply Hd.
  - by apply do_send_match.
  - pose proof (do_send_queue id key args val dead s h Eh Em Eo) as Hd. rewrite Eq in Hd. apply Hd. cbn. unfold IsSendValue. by rewrite Ew.
Qed.

Lemma exec_recv key args done s s' acts : RecvAsync le no_tensor key args done s = Next (s', acts) -> does (ARecvAsync key args done) s s' acts.
Proof using Type.
  unfold RecvAsync. destruct (KeyHash le key) as [h|] eqn:Eh; [|done]. destruct (mu_ s) eqn:Em; [done|]. destruct (ok (status_ s)) eqn:Eo; cbn [negb]; [|intros [= <- <-]; apply do_recv_aborted; [done|unfold running; congruence]].
  assert (no_message (queue_at h (table_ s)) -> match cancellation_manager args with
          | Some c => Next (with_mu true (with_table (touch h (table_ s)) s), [ARecvToken h args c done])
          | None => Next (enqueue_receiver no_tensor h args (mkWaiter done None) kInvalidToken s, [])
          end = Next (s', acts) -> does (ARecvAsync key args done) s s' acts) as Hwait.
  { intros Hn. destruct (cancellation_manager args) as [c|] eqn:Ec; intros [= <- <-]; [by apply do_recv_lock|by apply (do_recv_queue _ _ _ _ h)]. }
  destruct (queue_at h (table_ s)) as [|it q] eqn:Eq; [by apply Hwait|]. destruct (IsSendValue it) eqn:Ei; cbn [negb]; [|by apply Hwait].
  intros [= <- <-]. apply do_recv_match; [done..|]. unfold IsSendValue in Ei. by destruct (waiter it).
Qed.

Lemma exec_cancel token h s s' acts : Cancel no_tensor token h s = Next (s', acts) -> does (ACancelled token h) s s' acts.
Proof using Type.
  unfold Cancel. destruct (mu_ s) eqn:Em; [done|]. destruct (queue_at h (table_ s)) as [|front q] eqn:Eq; [intros [= <- <-]; apply do_cancel_miss; [done|left; by rewrite Eq]|].
  rewrite <- Eq. destruct (IsSendValue front) eqn:Ef; [intros [= <- <-]; apply do_cancel_miss; [done|left; by rewrite Eq]|].
  pose proof (list_find_split (fun it => cancellation_token it = token) (queue_at h (table_ s))) as Hf.
  destruct (list_find _ (queue_at h (table_ s))) as [[i it]|]; [|intros [= <- <-]; apply do_cancel_miss; [done|by right]].
  destruct Hf as (Hi & Ht & Hn). destruct (waiter it) as [w|] eqn:Ew; [|done]. intros [= <- <-]. by apply (do_cancel token h s i it w).
Qed.

Lemma exec_does a s s' acts : exec a s = Next (s', acts) -> does a s s' acts.
Proof using Type.
  destruct a; cbn [Rendezvous.exec]; unfold on_manager, StartCancel, on_manager;
    try (destruct (managers s !! c) as [m|] eqn:Em; [|done]).
  - apply exec_send.
  - intros [= <- <-]. constructor.
  - apply exec_recv.
  - intros [= <- <-]. by apply (do_token h args c done s m).
  - unfold RegisterCallback. destruct (Z.ltb_spec token (next_cancellation_token_ m)); [|done].
    destruct (is_cancelled_ m) eqn:E1, (is_cancelling_ m) eqn:E2; cbn [negb andb]; intros [= <- <-]; try (by apply (do_refuse _ _ _ token); [done|lia|rewrite E1, E2]). by apply do_register.
  - intros [= <- <-]. constructor.
  - case_decide; [done|]. intros [= <- <-]. by constructor.
  - destruct (Unref _ s) as [s1|] eqn:E1; cbn [mbind option_bind]; [|done]. destruct (Unref _ s1) as [s2|] eqn:E2; [|done]. intros [= <- <-]. by apply (do_delete it s s1).
  - destruct (notified done (log s)) as [st|] eqn:E; [|done]. intros [= <- <-]. by constructor.
  - unfold StartAbort. destruct (ok st) eqn:E1; [done|]. destruct (mu_ s) eqn:E2; [done|]. intros [= <- <-]. by apply do_abort.
  - destruct (size (table_ s) =? 0)%nat; intros [= <- <-]; constructor.
  - apply exec_cancel.
  - unfold StartCancel_begin. destruct (is_cancelled_ m) eqn:E1, (is_cancelling_ m) eqn:E2; cbn [orb]; intros [= <- <-]; try (by apply (do_start_again _ _ m); [done|rewrite E1, E2]). by apply do_start.
  - intros [= <- <-]. by apply do_finish.
  - intros [= <- <-]. by apply do_notify.
  - pose proof (do_try c token s m Em) as Hd. destruct (TryDeregisterCallback token m). intros [= <- <-]. exact Hd.
  - unfold DeregisterCallback. pose proof (do_deregister id c token s m) as Hd. unfold DeregisterCallback in Hd.
    destruct (is_cancelled_ m); [intros [= <- <-]; by apply Hd|]. destruct (is_cancelling_ m) eqn:E; intros [= <- <-]; [by apply do_deregister_wait|by apply Hd].
  - destruct (cancelled_notification_ m) eqn:E; [|done]. intros [= <- <-]. by apply (do_wait_cancelled id c s m).
  - destruct (size (callbacks_ m) =? 0)%nat; intros [= <- <-]; constructor.
Qed.

(** A released reference was held. *)
Lemma Unref_refs c (s s' : shared) : Unref c s = Some s' -> exists r, s' = with_refs r s /\ refs s ≡ₚ held c ++ r.
Proof using Type.
  destruct c as [d|]; cbn; [|intros [= <-]; exists (refs s); by destruct s]. destruct (list_find (eq d) (refs s)) as [[i x]|] eqn:E; cbn; [|done].
  intros [= <-]. exists (delete i (refs s)). split; [done|]. apply list_find_Some in E as (Hi & -> & _). by apply delete_Permutation.
Qed.

End steps.

(** What an action did to a sum over the table: the equations for the queue that it changed. *)
Ltac weigh_facts w :=
  try match goal with
  | H : queue_at ?h ?t = ?it :: ?q |- _ => pose proof (weigh_pop w h it q t H)
  | H : queue_at ?h ?t !! ?i = Some ?it |- _ => pose proof (weigh_drop w h i it t H)
  end.

(** The effect of an action on the components of the shared state. *)
Ltac shared_simpl :=
  try match goal with H : Unref _ ?s = Some ?s1, H' : Unref _ ?s1 = Some ?s2 |- _ => apply Unref_refs in H as (? & -> & ?), H' as (? & -> & ?) end;
  cbn [table_ status_ mu_ managers refs expired log with_table with_mu with_status with_manager with_refs with_expired emit Ref enqueue_receiver].
