(* ===== verification/RendezvousInv.v ===== *)
(** * Rendezvous: invariants of the interleavings

    Counting: every closure is in exactly one place (a queue, a thread, or the log), and every
    reference to a device context belongs to one item.  Queues hold only messages or only
    waiters, the lock is held by at most one thread, and an aborted rendezvous is empty. *)

From stdpp Require Import gmap.
From S2P Require Import Prelude InputStream Crc32cTheorems Hash Cancellation Rendezvous RendezvousSteps.
Import Cancellation Rendezvous.

Section inv.
Context (le : bool) {Tensor : Type} (no_tensor : Tensor) (iterate : forall A, gmap Z A -> list (Z * A)).
Context (Hiterate : forall A (m : gmap Z A), iterate A m ≡ₚ map_to_list m).
Abbreviation Item := (@Item Tensor).
Abbreviation shared := (@shared Tensor).
Abbreviation action := (@action Tensor).
Abbreviation state := (@state Tensor).
Abbreviation does := (does le no_tensor iterate).
Abbreviation step := (step le no_tensor iterate).

(** ** Sums over threads *)

Definition total (f : action -> nat) (ts : list (list action)) : nat := sum_list_with (sum_list_with f) ts.

Lemma total_step f ts i a rest acts : ts !! i = Some (a :: rest) -> (total f (<[i := acts ++ rest]> ts) + f a = total f ts + sum_list_with f acts)%nat.
Proof using Type. intros Hi. pose proof (sum_insert (sum_list_with f) ts i _ (acts ++ rest) Hi) as E. rewrite sum_list_with_app in E. cbn [sum_list_with] in E. unfold total. lia. Qed.

Lemma total_app f ts l : total f (ts ++ [l]) = (total f ts + sum_list_with f l)%nat.
Proof using Type. unfold total. rewrite sum_list_with_app. cbn. lia. Qed.

Lemma total_in f ts i l a : ts !! i = Some l -> a ∈ l -> (f a <= total f ts)%nat.
Proof using Type.
  intros Hi Ha. unfold total. rewrite <- (take_drop_middle ts i l Hi), sum_list_with_app. apply list_elem_of_split in Ha as (l1 & l2 & ->). cbn [sum_list_with]. rewrite sum_list_with_app. cbn [sum_list_with]. lia.
Qed.

(** ** Weights and what [StartAbort] takes out of the table *)

Lemma sum_concat {A} (f : A -> nat) ls : sum_list_with f (concat ls) = sum_list_with (sum_list_with f) ls.
Proof using Type. clear. induction ls as [|l ls IH]; [done|]. cbn. rewrite sum_list_with_app. lia. Qed.

Lemma sum_map {A B} (f : B -> nat) (g : A -> B) l : sum_list_with f (map g l) = sum_list_with (fun x => f (g x)) l.
Proof using Type. clear. induction l as [|x l IH]; [done|]. cbn. lia. Qed.

Lemma sum_ext {A} (f g : A -> nat) l : (forall x, f x = g x) -> sum_list_with f l = sum_list_with g l.
Proof using Type. clear. intros E. induction l as [|x l IH]; [done|]. cbn. by rewrite E, IH. Qed.

Lemma abort_sum f st (t : gmap Z (list Item)) :
  sum_list_with f (concat (map (fun p => concat (map (abort_item no_tensor st) (snd p))) (iterate _ t)))
  = weigh (fun it => sum_list_with f (abort_item no_tensor st it)) t.
Proof using Hiterate.
  rewrite sum_concat, sum_map, (sum_permutation _ _ _ (Hiterate _ t)). unfold weigh, items. rewrite sum_concat, sum_map. apply sum_ext.
  intros [h q]. cbn. by rewrite sum_concat, sum_map.
Qed.

Lemma weigh_empty (w : Item -> nat) : weigh w ∅ = 0%nat.
Proof using Type. unfold weigh, items. by rewrite map_to_list_empty. Qed.

Lemma weigh_mono (w w' : Item -> nat) t : (forall it, (w it <= w' it)%nat) -> (weigh w t <= weigh w' t)%nat.
Proof using Type. intros Hw. unfold weigh. induction (items t) as [|x l IH]; [done|]. cbn. specialize (Hw x). lia. Qed.

(** ** Closures *)

Definition occurs (d d' : nat) : nat := if decide (d = d') then 1 else 0.

Definition action_done (d : nat) (a : action) : nat :=
  match a with
  | ARecvAsync _ _ d' | ARecvToken _ _ _ d' | ARecvRegister _ _ _ _ d' | ARecvEnqueue _ _ _ _ d' => occurs d d'
  | ADone x => occurs d (d_done x)
  | _ => 0
  end%nat.
Definition item_done (d : nat) (it : Item) : nat := match waiter it with Some w => occurs d (done_ w) | None => O end.
Definition event_done (d : nat) (e : @event Tensor) : nat := match e with EDone x => occurs d (d_done x) | _ => O end.

Definition log_done (d : nat) (s : shared) : nat := sum_list_with (event_done d) (log s).

Lemma call_waiter_done d w st a b v x : sum_list_with (action_done d) (call_waiter w st a b v x) = occurs d (done_ w).
Proof using Type. unfold call_waiter. rewrite sum_list_with_app. destruct (wrapped w) as [[]|]; cbn; lia. Qed.

Lemma abort_item_done d st it : sum_list_with (action_done d) (abort_item no_tensor st it) = item_done d it.
Proof using Type. unfold abort_item, item_done. rewrite sum_list_with_app. destruct (waiter it); [rewrite call_waiter_done|]; cbn; lia. Qed.

Lemma item_done_waiter d (it : Item) w : waiter it = Some w -> item_done d it = occurs d (done_ w).
Proof using Type. unfold item_done. by intros ->. Qed.

Lemma item_done_message d (it : Item) : waiter it = None -> item_done d it = O.
Proof using Type. unfold item_done. by intros ->. Qed.

Lemma closure_sum f n (m : gmap Z CancelClosure) : (forall p, f (call_closure p) = n) -> sum_list_with f (map (call_closure (Tensor := Tensor)) (iterate _ m)) = (n * size m)%nat.
Proof using Hiterate.
  intros Hf. rewrite sum_map, (sum_permutation _ _ _ (Hiterate _ m)), <- length_map_to_list. induction (map_to_list m) as [|p l IH]; cbn; [lia|]. rewrite Hf, IH. lia.
Qed.

Lemma weigh_ext (f g : Item -> nat) t : (forall it, f it = g it) -> weigh f t = weigh g t.
Proof using Type. apply sum_ext. Qed.

(** No action loses or duplicates a closure. *)
Lemma does_done d a s s' acts : does a s s' acts ->
  (sum_list_with (action_done d) acts + weigh (item_done d) (table_ s') + log_done d s' = action_done d a + weigh (item_done d) (table_ s) + log_done d s)%nat.
Proof using Hiterate.
  unfold log_done. destruct 1; weigh_facts (item_done d); shared_simpl;
    rewrite ?sum_list_with_app, ?call_waiter_done, ?weigh_touch, ?weigh_push, ?abort_sum, ?weigh_empty, ?(closure_sum _ 0), ?(weigh_ext _ _ _ (abort_item_done d _)) by done;
    cbn [action_done sum_list_with message waiter event_done cancelled d_done done_ item_done];
    try match goal with H : waiter ?it = Some _ |- _ => rewrite (item_done_waiter d it _ H) in * | H : waiter ?it = None |- _ => rewrite (item_done_message d it H) in * end; lia.
Qed.

(** ** References *)

Definition occurrences (c : Z) (l : list Z) : nat := sum_list_with (fun x => if decide (c = x) then 1 else 0)%nat l.
Definition item_refs (c : Z) (it : Item) : nat := (occurrences c (held (device_context (send_args it))) + occurrences c (held (device_context (recv_args it))))%nat.
Definition action_refs (c : Z) (a : action) : nat := match a with ADelete it => item_refs c it | _ => O end.

Lemma call_waiter_refs c w st a b v x : sum_list_with (action_refs c) (call_waiter w st a b v x) = O.
Proof using Type. unfold call_waiter. by destruct (wrapped w) as [[]|]. Qed.

Lemma abort_item_refs c st it : sum_list_with (action_refs c) (abort_item no_tensor st it) = item_refs c it.
Proof using Type. unfold abort_item. rewrite sum_list_with_app. destruct (waiter it); [rewrite call_waiter_refs|]; cbn; lia. Qed.

(** References are taken when an item is queued and released when it is deleted. *)
Lemma does_refs c a s s' acts : does a s s' acts ->
  (occurrences c (refs s') + action_refs c a + weigh (item_refs c) (table_ s) = occurrences c (refs s) + sum_list_with (action_refs c) acts + weigh (item_refs c) (table_ s'))%nat.
Proof using Hiterate.
  destruct 1; weigh_facts (item_refs c); shared_simpl; unfold occurrences in *;
    repeat match goal with H : refs ?s ≡ₚ _ |- _ => apply (sum_permutation (fun x => if decide (c = x) then 1 else 0)%nat) in H end;
    rewrite ?sum_list_with_app, ?call_waiter_refs, ?weigh_touch, ?weigh_push, ?abort_sum, ?weigh_empty, ?(closure_sum _ 0), ?(weigh_ext _ _ _ (abort_item_refs c _)) by done;
    cbn [action_refs sum_list_with message cancelled]; try lia.
  all: cbn [refs with_refs] in *; rewrite ?sum_list_with_app in *; unfold item_refs, occurrences; cbn [message send_args recv_args Args_new device_context held sum_list_with]; lia.
Qed.

(** ** Termination *)

Definition item_cost (it : Item) : nat := 3.
Definition manager_cost (m : @CancellationManager CancelClosure) : nat := size (callbacks_ m).

Definition action_cost (a : action) : nat :=
  match a with
  | ASend _ _ _ _ _ => 8
  | ARecvAsync _ _ _ => 8
  | ARecvToken _ _ _ _ => 7
  | ARecvRegister _ _ _ _ _ => 6
  | ARecvEnqueue _ _ _ _ _ => 4
  | AStartCancel _ => 3
  | ADestroyManager _ => 4
  | ADestroy | ADeregister _ _ _ => 2
  | _ => 1
  end%nat.

Definition shared_cost (s : shared) : nat := (weigh item_cost (table_ s) + sum_list_with manager_cost (managers s))%nat.

Lemma call_waiter_cost w st a b v x : (sum_list_with action_cost (call_waiter w st a b v x) <= 2)%nat.
Proof using Type. unfold call_waiter. destruct (wrapped w) as [[]|]; cbn; lia. Qed.

Lemma abort_item_cost st it : (sum_list_with action_cost (abort_item no_tensor st it) <= item_cost it)%nat.
Proof using Type.
  unfold abort_item, item_cost. rewrite sum_list_with_app. destruct (waiter it) as [w|]; [pose proof (call_waiter_cost w st Args_new Args_new no_tensor false)|]; cbn; lia.
Qed.

Lemma deregister_cost t (m : @CancellationManager CancelClosure) : (manager_cost (TryDeregisterCallback t m).2 <= manager_cost m)%nat /\ (manager_cost (DeregisterCallback t m).2 <= manager_cost m)%nat.
Proof using Type.
  unfold manager_cost, TryDeregisterCallback, DeregisterCallback. assert (size (delete t (callbacks_ m)) <= size (callbacks_ m))%nat as H.
  { destruct (callbacks_ m !! t) as [x|] eqn:E; [rewrite map_size_delete_Some by (by eexists); lia|by rewrite delete_id]. }
  destruct (is_cancelled_ m), (is_cancelling_ m); cbn; lia.
Qed.

Lemma register_cost t x (m : @CancellationManager CancelClosure) : (manager_cost (with_callbacks (<[t := x]> (callbacks_ m)) m) <= S (manager_cost m))%nat.
Proof using Type. unfold manager_cost. cbn [with_callbacks callbacks_]. rewrite map_size_insert. destruct (callbacks_ m !! t); cbn; lia. Qed.

(** Every action makes progress. *)
Lemma does_cost a s s' acts : does a s s' acts -> (sum_list_with action_cost acts + shared_cost s' < action_cost a + shared_cost s)%nat.
Proof using Hiterate.
  unfold shared_cost. destruct 1; weigh_facts item_cost; shared_simpl;
    try match goal with H : managers ?s !! ?c = Some ?m |- context [<[?c := ?m']> (managers ?s)] => pose proof (sum_insert manager_cost _ c m m' H) end;
    try match goal with |- context [call_waiter ?w ?st ?a ?b ?v ?x] => pose proof (call_waiter_cost w st a b v x) end;
    try match goal with |- context [abort_item _ ?st] => pose proof (weigh_mono _ _ (table_ s) (abort_item_cost st)) end;
    try match goal with |- context [(TryDeregisterCallback ?t ?m).2] => pose proof (deregister_cost t m) | |- context [(DeregisterCallback ?t ?m).2] => pose proof (deregister_cost t m) end;
    try match goal with |- context [with_callbacks (<[?t := ?x]> _) ?m] => pose proof (register_cost t x m) end;
    rewrite ?sum_list_with_app, ?weigh_touch, ?weigh_push, ?abort_sum, ?weigh_empty, ?(closure_sum _ 1) by done;
    cbn [action_cost sum_list_with cancelled]; try (unfold item_cost in *; lia).
  all: unfold manager_cost in *; cbn [callbacks_ StartCancel_end StartCancel_notify get_cancellation_token snd] in *; rewrite ?map_size_empty in *; lia.
Qed.
End inv.

(** ** Reachable states

    The invariant of every interleaving, and what it gives: no action fails, and there is no
    deadlock. *)

Section reach.
Context (le : bool) {Tensor : Type} (no_tensor : Tensor) (iterate : forall A, gmap Z A -> list (Z * A)).
Context (Hiterate : forall A (m : gmap Z A), iterate A m ≡ₚ map_to_list m).
Abbreviation Item := (@Item Tensor).
Abbreviation Table := (gmap Z (list Item)).
Abbreviation shared := (@shared Tensor).
Abbreviation action := (@action Tensor).
Abbreviation state := (@state Tensor).
Abbreviation Manager := (@CancellationManager CancelClosure).
Abbreviation does := (does le no_tensor iterate).
Abbreviation exec := (exec le no_tensor iterate).
Abbreviation step := (step le no_tensor iterate).

(** ** Properties of all items *)

Definition table_all (P : Item -> Prop) (t : Table) : Prop := forall h, Forall P (queue_at h t).

Lemma table_all_change P t t' h q : table_all P t -> Forall P q -> (forall h', queue_at h' t' = if decide (h' = h) then q else queue_at h' t) -> table_all P t'.
Proof using Type. intros Ht Hq E h'. rewrite E. by destruct (decide (h' = h)). Qed.

Lemma table_all_empty P : table_all P ∅.
Proof using Type. intros h. unfold queue_at. by rewrite lookup_empty. Qed.

Lemma abort_forall (P : Item -> Prop) (R : action -> Prop) st t :
  (forall it, P it -> Forall R (abort_item no_tensor st it)) -> table_all P t ->
  Forall R (concat (map (fun p => concat (map (abort_item no_tensor st) (snd p))) (iterate _ t))).
Proof using Hiterate.
  intros HR Ht. apply Forall_concat, Forall_map, Forall_forall. intros [h q] Hin. apply Forall_concat, Forall_map. cbn [snd].
  rewrite Hiterate in Hin. apply elem_of_map_to_list in Hin. specialize (Ht h). unfold queue_at in Ht. rewrite Hin in Ht. by apply (Forall_impl P).
Qed.

(** ** Queues hold only messages or only waiters *)

Definition homogeneous (q : list Item) : Prop := exists b, Forall (fun it => IsSendValue it = b) q.

Lemma homogeneous_push b q it : homogeneous q -> match q with [] => True | x :: _ => IsSendValue x = b end -> IsSendValue it = b -> homogeneous (q ++ [it]).
Proof using Type.
  intros [b' Hq] Hf Hi. exists b. apply Forall_app. split; [|by constructor]. destruct q as [|x q]; [constructor|].
  assert (b' = b) as <-; [|done]. apply Forall_cons in Hq as [<- _]. done.
Qed.

Lemma homogeneous_sublist q q' : q' ⊆ q -> homogeneous q -> homogeneous q'.
Proof using Type. intros Hs [b Hq]. exists b. apply Forall_forall. intros x Hx. by apply (proj1 (Forall_forall _ q) Hq), Hs. Qed.

Definition queues_ok (t : Table) : Prop := forall h, homogeneous (queue_at h t).

Lemma queues_ok_change t t' h q : queues_ok t -> homogeneous q -> (forall h', queue_at h' t' = if decide (h' = h) then q else queue_at h' t) -> queues_ok t'.
Proof using Type. intros Ht Hq E h'. rewrite E. by destruct (decide (h' = h)). Qed.

Lemma delete_subset {A} i (q : list A) : delete i q ⊆ q.
Proof using Type. clear. intros x. rewrite !list_elem_of_lookup. intros [j Hj]. destruct (decide (j < i)%nat); [rewrite list_lookup_delete_lt in Hj by done|rewrite list_lookup_delete_ge in Hj by lia]; eauto. Qed.

(** The key of a receiver that holds the lock. *)
Definition locked_key (a : action) : option Z :=
  match a with ARecvToken h _ _ _ | ARecvRegister h _ _ _ _ | ARecvEnqueue h _ _ _ _ => Some h | _ => None end.

Definition nothing_there (t : Table) (a : action) : Prop := match locked_key a with Some h => no_message (queue_at h t) | None => True end.

Lemma does_queues a s s' acts : does a s s' acts -> nothing_there (table_ s) a -> queues_ok (table_ s) -> queues_ok (table_ s').
Proof using Type.
  clear Hiterate. intros H Hn Hq. destruct H; shared_simpl; try done;
    try match goal with H : queue_at ?h _ = ?it :: ?q |- _ => pose proof (Hq h) as Hh; rewrite H in Hh end;
    try match goal with |- queues_ok (touch _ _) => intros h'; rewrite queue_touch; apply Hq end;
    try match goal with |- queues_ok (pop _ _ _) => eapply queues_ok_change; [done| |intros h'; apply queue_pop]; revert Hh; apply homogeneous_sublist; set_solver end.
  - eapply queues_ok_change; [done| |intros h'; apply queue_insert]. by apply (homogeneous_push true).
  - eapply queues_ok_change; [done| |intros h'; apply queue_insert]. by apply (homogeneous_push false).
  - eapply queues_ok_change; [done| |intros h'; apply queue_insert]. by apply (homogeneous_push false).
  - intros h'. exists true. unfold queue_at. rewrite lookup_empty. constructor.
  - eapply queues_ok_change; [done| |intros h'; by eapply queue_drop]. eapply homogeneous_sublist; [apply delete_subset|apply Hq].
Qed.
(** ** The lock *)

Definition holder (a : action) : nat := match locked_key a with Some _ => 1 | None => 0 end.
Definition lock_count (s : shared) : nat := if mu_ s then 1 else 0.

Lemma call_waiter_sum f w st a b v x : (forall c t, f (ATryDeregister c t) = 0%nat) -> (forall d, f (ADone d) = 0%nat) -> sum_list_with f (call_waiter (Tensor := Tensor) w st a b v x) = 0%nat.
Proof using Type. intros H1 H2. unfold call_waiter. destruct (wrapped w) as [[]|]; cbn; by rewrite ?H1, ?H2. Qed.

Lemma abort_holder st (t : Table) : sum_list_with holder (concat (map (fun p => concat (map (abort_item no_tensor st) (snd p))) (iterate _ t))) = 0%nat.
Proof using Hiterate.
  rewrite (abort_sum _ _ Hiterate). unfold weigh. induction (items t) as [|it l IH]; [done|]. cbn [sum_list_with]. rewrite IH. unfold abort_item. rewrite sum_list_with_app.
  destruct (waiter it); [rewrite call_waiter_sum by done|]; done.
Qed.

Lemma tail_sum {A} (f : A -> nat) l : (sum_list_with f (tail l) <= sum_list_with f l)%nat.
Proof using Type. clear. destruct l; cbn; lia. Qed.

Lemma does_lock a s s' acts : does a s s' acts -> (holder a <= lock_count s)%nat ->
  (sum_list_with holder acts + lock_count s = holder a + lock_count s')%nat /\ sum_list_with holder (tail acts) = 0%nat.
Proof using Hiterate.
  intros H Hl. assert (sum_list_with holder acts + lock_count s = holder a + lock_count s')%nat as E.
  { unfold lock_count in *. destruct H; shared_simpl;
      rewrite ?sum_list_with_app, ?abort_holder, ?(closure_sum _ Hiterate _ 0), ?call_waiter_sum by done; cbn [holder locked_key sum_list_with cancelled] in *;
      unfold unlocked in *; destruct (mu_ s); try done; lia. }
  split; [done|]. destruct (Nat.eq_dec (sum_list_with holder acts) 0) as [E0|]; [pose proof (tail_sum holder acts); lia|].
  destruct H; cbn [sum_list_with tail] in *; try done; exfalso;
    rewrite ?sum_list_with_app, ?abort_holder, ?(closure_sum _ Hiterate _ 0), ?call_waiter_sum in * by done; cbn [sum_list_with holder locked_key] in *; lia.
Qed.
(** ** Well-formed actions *)

Definition started (m : Manager) : bool := is_cancelled_ m || is_cancelling_ m.

Definition managers_le (ms ms' : list Manager) : Prop :=
  length ms' = length ms /\ forall c m, ms !! c = Some m -> exists m', ms' !! c = Some m'
    /\ next_cancellation_token_ m <= next_cancellation_token_ m' /\ (started m = true -> started m' = true).

Lemma managers_le_refl ms : managers_le ms ms.
Proof using Type. split; [done|]. intros c m Hm. exists m. split_and!; [done|lia|done]. Qed.

Lemma managers_le_insert ms c m m' : ms !! c = Some m -> next_cancellation_token_ m <= next_cancellation_token_ m' -> (started m = true -> started m' = true) -> managers_le ms (<[c := m']> ms).
Proof using Type.
  intros Hm Hn Hs. split; [apply length_insert|]. intros c' x Hx. destruct (decide (c' = c)) as [->|].
  - exists m'. rewrite list_lookup_insert_eq by (by eapply lookup_lt_Some). replace x with m by congruence. done.
  - exists x. rewrite list_lookup_insert_ne by done. split_and!; [done|lia|done].
Qed.

Lemma does_managers a s s' acts : does a s s' acts -> managers_le (managers s) (managers s').
Proof using Type.
  destruct 1; shared_simpl; try apply managers_le_refl;
    (eapply managers_le_insert; [eassumption| |]; unfold started, TryDeregisterCallback, DeregisterCallback in *; destruct (is_cancelled_ m) eqn:?, (is_cancelling_ m) eqn:?; cbn in *; (lia || done || by rewrite ?Heqb, ?Heqb0)).
Qed.

Definition action_ok (ms : list Manager) (reqs : list nat) (a : action) : Prop :=
  match a with
  | ASend _ key _ _ _ => Forall byte key
  | ARecvAsync key args _ => Forall byte key /\ forall c, cancellation_manager args = Some c -> (c < length ms)%nat
  | ARecvToken _ _ c _ | ARecvEnqueue _ _ c _ _ | AStartCancel c | ANotify c | ATryDeregister c _ | ADeregister _ c _ | ADestroyManager c => (c < length ms)%nat
  | ARecvRegister _ _ c t _ => exists m, ms !! c = Some m /\ t < next_cancellation_token_ m
  | AWaitCancelled _ c | AFinishCancel c => exists m, ms !! c = Some m /\ started m = true
  | AWait d _ => d ∈ reqs
  | AStartAbort st => ok st = false
  | _ => True
  end.

Definition item_ok (n : nat) (it : Item) : Prop :=
  match waiter it with Some (mkWaiter _ (Some (c, _))) => (c < n)%nat | _ => True end.

Lemma action_ok_mono ms ms' reqs reqs' a : managers_le ms ms' -> reqs ⊆ reqs' -> action_ok ms reqs a -> action_ok ms' reqs' a.
Proof using Type.
  intros [Hl Hm] Hr. destruct a; cbn; rewrite ?Hl; try done; try (by apply Hr).
  - intros (m & E & Ht). destruct (Hm _ _ E) as (m' & E' & Hn & _). exists m'. split; [done|lia].
  - intros (m & E & Hs). destruct (Hm _ _ E) as (m' & E' & _ & Hs'). exists m'. auto.
  - intros (m & E & Hs). destruct (Hm _ _ E) as (m' & E' & _ & Hs'). exists m'. auto.
Qed.

Lemma call_waiter_ok ms reqs w st a b v x : match wrapped w with Some (c, _) => (c < length ms)%nat | None => True end ->
  Forall (action_ok ms reqs) (call_waiter w st a b v x).
Proof using Type. intros Hw. unfold call_waiter. apply Forall_app. split; [|by repeat constructor]. destruct (wrapped w) as [[c t]|]; by repeat constructor. Qed.

Lemma item_ok_waiter n (it : Item) w : item_ok n it -> waiter it = Some w -> match wrapped w with Some (c, _) => (c < n)%nat | None => True end.
Proof using Type. unfold item_ok. intros Hi E. rewrite E in Hi. by destruct w. Qed.

Lemma does_actions_ok a s s' acts reqs : does a s s' acts -> action_ok (managers s) reqs a -> table_all (item_ok (length (managers s))) (table_ s) ->
  Forall (action_ok (managers s') reqs) acts.
Proof using Hiterate.
  intros H Ha Ht.
  assert (forall h it w st x b v d, it ∈ queue_at h (table_ s) -> waiter it = Some w -> Forall (action_ok (managers s) reqs) (call_waiter w st x b v d)) as Hw.
  { intros h it w st x b v d Hin Ew. apply call_waiter_ok. eapply item_ok_waiter; [|done]. by apply (proj1 (Forall_forall _ _) (Ht h)). }
  destruct H; shared_simpl; cbn [action_ok] in Ha; try apply Forall_app; try (by repeat constructor).
  - split; [|by repeat constructor]. apply (Hw h it); [|done]. rewrite H2. left.
  - constructor; [|done]. cbn. by apply Ha.
  - constructor; [|done]. eexists. rewrite list_lookup_insert_eq by done. split; [done|]. cbn. lia.
  - constructor; [|done]. cbn. rewrite length_insert. by eapply lookup_lt_Some.
  - eapply abort_forall; [|exact Ht]. intros it Hi. unfold abort_item. apply Forall_app. split; [|by repeat constructor].
    destruct (waiter it) as [w|] eqn:Ew; [|done]. apply call_waiter_ok. by eapply item_ok_waiter.
  - split; [|by repeat constructor]. apply (Hw h it); [|done]. by eapply list_elem_of_lookup_2.
  - split; [apply Forall_map, Forall_forall; done|]. pose proof (lookup_lt_Some _ _ _ H) as Hc. constructor; [|repeat constructor; cbn; by rewrite length_insert].
    eexists. rewrite list_lookup_insert_eq by done. done.
  - constructor; [|done]. cbn. exists m. rewrite list_lookup_insert_eq by done. split; [done|]. unfold started. by rewrite H0, orb_true_r.
Qed.

Lemma does_items_ok a s s' acts reqs : does a s s' acts -> action_ok (managers s) reqs a ->
  table_all (item_ok (length (managers s))) (table_ s) -> table_all (item_ok (length (managers s))) (table_ s').
Proof using Type.
  clear Hiterate. intros H Ha Ht. destruct H; shared_simpl; cbn [action_ok] in Ha; try done;
    try match goal with H : queue_at ?h _ = ?it :: ?q |- _ => pose proof (Ht h) as Hh; rewrite H in Hh; apply Forall_cons in Hh as [_ Hh] end;
    try match goal with |- table_all _ (touch _ _) => intros h'; rewrite queue_touch; apply Ht end;
    try match goal with |- table_all _ (pop _ _ _) => eapply table_all_change; [done|exact Hh|intros h'; apply queue_pop] end;
    try match goal with |- table_all _ (<[_ := _]> _) => eapply table_all_change; [done| |intros h'; apply queue_insert]; apply Forall_app; split; [apply Ht|by repeat constructor] end.
  - apply table_all_empty.
  - eapply table_all_change; [done| |intros h'; by eapply queue_drop]. apply Forall_delete, Ht.
Qed.

(** ** An aborted rendezvous is empty *)

Lemma does_aborted a s s' acts : does a s s' acts -> (holder a <= lock_count s)%nat -> (mu_ s = true -> running s) ->
  (~ running s -> table_all (fun _ => False) (table_ s)) ->
  (mu_ s' = true -> running s') /\ (~ running s' -> table_all (fun _ => False) (table_ s')).
Proof using Type.
  clear Hiterate. unfold running, lock_count. intros H Hl Hmu He. destruct H; shared_simpl; cbn [holder locked_key] in Hl; try (split; [done|intros Hr; specialize (He Hr); done || (intros h'; rewrite queue_touch; apply He)]); unfold running, unlocked in *.
  all: try (split; [congruence|intros Hr; congruence]).
  - split; [done|]. intros Hr. destruct Hr. apply Hmu. destruct (mu_ s); [done|lia].
  - split; [congruence|]. intros _. apply table_all_empty.
  - split; [done|]. intros Hr. specialize (He Hr h). exfalso. by apply (proj1 (Forall_forall _ _) He it), (list_elem_of_lookup_2 _ i).
Qed.

(** ** Threads that wait

    Actions that may wait for an event are the last of their thread, and such a thread does
    not cancel. *)

Definition kind (a : action) : nat :=
  match a with AStartCancel _ | ADestroyManager _ => 1 | AWait _ _ | AWaitCancelled _ _ | ADeregister _ _ _ => 2 | _ => 0 end.

Definition thread_ok (l : list action) : Prop :=
  Forall (fun a => (kind a <= 1)%nat) l \/ exists pre x, l = pre ++ [x] /\ kind x = 2%nat /\ Forall (fun a => kind a = 0%nat) pre.

Lemma call_waiter_kind w st a b v x : Forall (fun a => kind a = 0%nat) (call_waiter (Tensor := Tensor) w st a b v x).
Proof using Type. unfold call_waiter. destruct (wrapped w) as [[]|]; by repeat constructor. Qed.

Lemma does_kind a s s' acts : does a s s' acts ->
  match kind a with
  | O => Forall (fun a => kind a = 0%nat) acts
  | S O => Forall (fun a => (kind a <= 1)%nat) acts
  | _ => acts = [] \/ exists x, acts = [x] /\ kind x = 2%nat
  end.
Proof using Hiterate.
  destruct 1; cbn [kind]; try apply Forall_app; try (by repeat constructor); try (split; [apply call_waiter_kind|by repeat constructor]); try (by left).
  - apply (abort_forall (fun _ => True)); [|intros h; by apply Forall_forall]. intros it _. unfold abort_item. apply Forall_app. split; [|by repeat constructor]. destruct (waiter it); [apply call_waiter_kind|done].
  - split; [|repeat constructor]. apply Forall_map, Forall_forall. intros p _. cbn. lia.
  - right. by eexists.
Qed.

Lemma does_thread a rest s s' acts : does a s s' acts -> thread_ok (a :: rest) -> thread_ok (acts ++ rest).
Proof using Hiterate.
  intros H%does_kind [Hl|(pre & x & El & Hx & Hp)].
  - left. apply Forall_cons in Hl as [Ha Hl]. apply Forall_app. split; [|done]. destruct (kind a) as [|[|]]; [|done|lia]. eapply Forall_impl; [exact H|]. cbn. lia.
  - destruct pre as [|b pre]; cbn in El; injection El as -> ->.
    + rewrite Hx in H. destruct H as [->|(y & -> & Hy)]; [by left|right; by exists [], y].
    + right. apply Forall_cons in Hp as [Hb Hp]. rewrite Hb in H. exists (acts ++ pre), x. rewrite <- app_assoc. split_and!; [done..|]. by apply Forall_app.
Qed.

(** A cancellation that has started will be notified: a thread has the notification in front
    of it, and does not wait. *)
Definition notified_soon (ms : list Manager) (ts : list (list action)) : Prop :=
  forall c m, ms !! c = Some m -> started m = true -> cancelled_notification_ m = true
    \/ exists i l, ts !! i = Some l /\ ANotify c ∈ l /\ Forall (fun a => (kind a <= 1)%nat) l.

(** Which managers an action changes, and how. *)
Lemma does_manager_flags a s s' acts reqs c m' : does a s s' acts -> action_ok (managers s) reqs a -> managers s' !! c = Some m' ->
  exists m, managers s !! c = Some m /\ (cancelled_notification_ m = true -> cancelled_notification_ m' = true)
    /\ (started m' = true -> started m = true \/ (kind a = 1%nat /\ ANotify c ∈ acts)) /\ (a = ANotify c -> cancelled_notification_ m' = true).
Proof using Type.
  clear Hiterate. intros H Hok E.
  assert (managers s' = managers s -> a <> ANotify c -> exists m, managers s !! c = Some m /\ (cancelled_notification_ m = true -> cancelled_notification_ m' = true)
    /\ (started m' = true -> started m = true \/ (kind a = 1%nat /\ ANotify c ∈ acts)) /\ (a = ANotify c -> cancelled_notification_ m' = true)) as Hsame.
  { intros Em Ha. rewrite Em in E. exists m'. split_and!; try done. auto. }
  destruct H; try (by apply Hsame); revert Hsame E; shared_simpl; intros Hsame E; try (apply Hsame; [reflexivity|discriminate]);
    match goal with Hm : managers s !! ?k = Some ?m, E : <[?k := ?m1]> (managers s) !! c = Some m' |- _ =>
      destruct (decide (c = k)) as [->|Hne];
      [rewrite list_lookup_insert_eq in E by (by eapply lookup_lt_Some); injection E as <-; exists m; split; [done|]
      |rewrite list_lookup_insert_ne in E by done; exists m'; split_and!; [done|done|by left|by intros [= ->]]]
    end; unfold started, TryDeregisterCallback, DeregisterCallback in *; try (cbn; split_and!; [done|by auto|done]).
  - cbn. split_and!; [done| |done]. intros _. right. split; [done|]. apply elem_of_app. right. set_solver.
  - destruct Hok as (m1 & E1 & Hs). replace m1 with m in Hs by congruence. split_and!; [done|by left|done].
  - destruct (is_cancelled_ m) eqn:E1, (is_cancelling_ m) eqn:E2; cbn; rewrite ?E1, ?E2; (split_and!; [done|by auto|done]).
  - destruct (is_cancelled_ m) eqn:E1, (is_cancelling_ m) eqn:E2; cbn; rewrite ?E1, ?E2; (split_and!; [done|by auto|done]).
Qed.
End reach.
