(* ===== verification/RendezvousSafety.v ===== *)
(** * Rendezvous: the invariant of every interleaving *)

From stdpp Require Import gmap.
From S2P Require Import Prelude InputStream Crc32cTheorems Hash Cancellation Rendezvous RendezvousSteps RendezvousInv.
Import Cancellation Rendezvous.

Section safety.
Context (le : bool) {Tensor : Type} (no_tensor : Tensor) (iterate : forall A, gmap Z A -> list (Z * A)).
Context (Hiterate : forall A (m : gmap Z A), iterate A m ≡ₚ map_to_list m).
Abbreviation Item := (@Item Tensor).
Abbreviation Table := (gmap Z (list Item)).
Abbreviation shared := (@shared Tensor).
Abbreviation action := (@action Tensor).
Abbreviation state := (@state Tensor).
Abbreviation does := (does le no_tensor iterate).
Abbreviation exec := (exec le no_tensor iterate).
Abbreviation step := (step le no_tensor iterate).

(** ** Reachable states *)

(** Calls with keys that are strings, managers that exist, and an error to abort with. *)
Definition call_ok (n : nat) (c : @call Tensor) : Prop :=
  match c with
  | CSend key _ _ _ => Forall byte key
  | CRecvAsync key args | CRecv key args _ => Forall byte key /\ forall c, cancellation_manager args = Some c -> (c < n)%nat
  | CStartAbort st => ok st = false
  | CDestroy => True
  | CStartCancel c | CTryDeregister c _ | CDeregister c _ | CDestroyManager c => (c < n)%nat
  end.

(** Any interleaving of calls, in which no [Recv] times out. *)
Definition allowed (n : nat) (m : @move Tensor) : Prop := match m with Call c => call_ok n c | Run _ => True | Timeout _ => False end.

Inductive reaches_by (P : @move Tensor -> Prop) (n : nat) : state -> Prop :=
| reaches_initial : reaches_by P n (initial n)
| reaches_step m s s' : reaches_by P n s -> P m -> step m s = Next s' -> reaches_by P n s'.

Definition reaches (n : nat) : state -> Prop := reaches_by (allowed n) n.

Lemma reaches_mono (P Q : @move Tensor -> Prop) n s : (forall m, P m -> Q m) -> reaches_by P n s -> reaches_by Q n s.
Proof using Type. intros HPQ. induction 1 as [|m s s' _ IH Hm E]; [constructor|]. by eapply reaches_step; [done|apply HPQ|]. Qed.

Lemma run_reaches (P : @move Tensor -> Prop) n ms : forall s s', reaches_by P n s -> Forall P ms -> run le no_tensor iterate ms s = Next s' -> reaches_by P n s'.
Proof using Type.
  induction ms as [|m ms IH]; intros s s' Hs Hms; cbn; [by intros [= <-]|]. apply Forall_cons in Hms as [Hm Hms].
  destruct (step m s) as [| |s1] eqn:E; try done. apply IH; [by eapply reaches_step|done].
Qed.

(** ** The key of the receiver that holds the lock *)

Lemma nothing_trivial (t : Table) a : holder a = 0%nat -> nothing_there t a.
Proof using Type. unfold holder, nothing_there. by destruct (locked_key a). Qed.

Lemma holders_none ts (t : Table) : total holder ts = 0%nat -> Forall (Forall (nothing_there t)) ts.
Proof using Type.
  intros E. apply Forall_lookup. intros i l Hi. apply Forall_forall. intros a Ha. apply nothing_trivial. pose proof (total_in holder ts i l a Hi Ha). lia.
Qed.

Lemma does_table_same a s s' acts : does a s s' acts -> mu_ s = true -> mu_ s' = true -> table_ s' = table_ s.
Proof using Type.
  clear Hiterate. intros H H1 H2. destruct H; revert H2; shared_simpl; intros H2; try done; unfold unlocked in *; congruence.
Qed.

Lemma does_nothing a s s' acts : does a s s' acts -> nothing_there (table_ s) a -> Forall (nothing_there (table_ s')) acts.
Proof using Hiterate.
  intros H Hn. assert (sum_list_with holder acts = 0%nat -> Forall (nothing_there (table_ s')) acts) as Hz.
  { intros Hz. apply Forall_forall. intros x Hx. apply nothing_trivial. apply list_elem_of_split in Hx as (l1 & l2 & ->). rewrite sum_list_with_app in Hz. cbn in Hz. lia. }
  destruct H; try (apply Hz; rewrite ?sum_list_with_app, ?(abort_holder _ _ Hiterate), ?(closure_sum _ Hiterate _ 0), ?call_waiter_sum by done; done); shared_simpl; (constructor; [|done]); unfold nothing_there; cbn [locked_key]; try done.
  by rewrite queue_touch.
Qed.

(** ** The invariant *)

Record inv (n : nat) (s : state) : Prop := {
  v_managers : length (managers (sh s)) = n;
  v_actions : Forall (Forall (action_ok (managers (sh s)) (requests s))) (threads s);
  v_items : table_all (item_ok n) (table_ (sh s));
  v_queues : queues_ok (table_ (sh s));
  v_keys : Forall (Forall (nothing_there (table_ (sh s)))) (threads s);
  v_lock : total holder (threads s) = lock_count (sh s);
  v_heads : Forall (fun l => sum_list_with holder (tail l) = 0%nat) (threads s);
  v_running : mu_ (sh s) = true -> running (sh s);
  v_aborted : ~ running (sh s) -> table_all (fun _ => False) (table_ (sh s));
  v_kinds : Forall thread_ok (threads s);
  v_notify : notified_soon (managers (sh s)) (threads s);
  v_done : forall d, (total (action_done d) (threads s) + weigh (item_done d) (table_ (sh s)) + log_done d (sh s) = sum_list_with (occurs d) (requests s))%nat;
  v_requests : NoDup (requests s) /\ Forall (fun d => (d < next_id s)%nat) (requests s);
  v_refs : forall c, occurrences c (refs (sh s)) = (total (action_refs c) (threads s) + weigh (item_refs c) (table_ (sh s)))%nat;
  v_expired : expired (sh s) = []
}.

Lemma inv_initial n : inv n (initial n).
Proof using Type.
  assert (forall h, queue_at (Tensor := Tensor) h ∅ = []) as Hq by (intros h; unfold queue_at; by rewrite lookup_empty).
  constructor; cbn; try done.
  - apply length_replicate.
  - intros h. by rewrite Hq.
  - intros h. exists true. by rewrite Hq.
  - intros c m Hm. apply lookup_replicate in Hm as [-> _]. done.
  - split; [apply NoDup_nil_2|done].
Qed.

Lemma call_actions_ok n c id ms reqs : length ms = n -> call_ok n c -> Forall (action_ok ms (reqs ++ requested c id)) (start c id).
Proof using Type. clear Hiterate. intros E. subst n. intros Hc. destruct c; repeat constructor; try apply Hc; try done. cbn. set_solver. Qed.

Lemma start_facts c id : thread_ok (start (Tensor := Tensor) c id) /\ sum_list_with holder (start (Tensor := Tensor) c id) = 0%nat
  /\ (forall d, sum_list_with (action_done d) (start (Tensor := Tensor) c id) = sum_list_with (occurs d) (requested c id))
  /\ (forall r, sum_list_with (action_refs r) (start (Tensor := Tensor) c id) = 0%nat).
Proof using Type.
  split_and!; [|by destruct c|by intros d; destruct c; cbn; lia|by destruct c]. destruct c; try (left; repeat constructor; cbn; lia).
  - right. exists [ARecvAsync key args id], (AWait id timeout_ms). by repeat constructor.
  - right. exists [], (ADeregister id c token). by repeat constructor.
Qed.

Lemma inv_call n s c : inv n s -> call_ok n c -> inv n (mkState (sh s) (threads s ++ [start c (next_id s)]) (S (next_id s)) (requests s ++ requested c (next_id s))).
Proof using Type.
  clear Hiterate. intros [] Hc. destruct (start_facts c (next_id s)) as (Hk & Hh & Hd & Hr). constructor; cbn [sh threads next_id requests]; try done.
  - apply Forall_app. split; [|constructor; [by apply (call_actions_ok n)|done]]. eapply Forall_impl; [exact v_actions0|]. intros l Hl. eapply Forall_impl; [exact Hl|].
    intros a. apply action_ok_mono; [apply managers_le_refl|set_solver].
  - apply Forall_app. split; [done|]. constructor; [|done]. apply Forall_forall. intros a Ha. apply nothing_trivial.
    apply list_elem_of_split in Ha as (l1 & l2 & E). rewrite E, sum_list_with_app in Hh. cbn in Hh. lia.
  - rewrite total_app. lia.
  - apply Forall_app. split; [done|]. constructor; [|done]. pose proof (tail_sum holder (start (Tensor := Tensor) c (next_id s))). lia.
  - apply Forall_app. split; [done|]. by constructor.
  - intros k m Hm Hs. destruct (v_notify0 k m Hm Hs) as [?|(i & l & Hi & Hl)]; [by left|]. right. exists i, l. split; [|done]. by apply lookup_app_l_Some.
  - intros d. specialize (v_done0 d). rewrite total_app, sum_list_with_app, Hd. lia.
  - destruct v_requests0 as [Hn Hlt]. split.
    + apply NoDup_app. split_and!; [done| |destruct c; cbn; (apply NoDup_nil_2 || apply NoDup_singleton)].
      intros x Hx Hx'. apply (proj1 (Forall_forall _ _) Hlt) in Hx. destruct c; cbn in Hx'; set_unfold in Hx'; lia || done.
    + apply Forall_app. split; [eapply Forall_impl; [exact Hlt|]; cbn; lia|]. destruct c; cbn; repeat constructor; lia.
  - intros r. rewrite v_refs0, total_app, Hr. lia.
Qed.
Lemma Forall_step (P : list action -> Prop) ts i l : Forall P ts -> P l -> Forall P (<[i := l]> ts).
Proof using Type. clear. intros H Hl. by apply Forall_insert. Qed.

(** The other threads and the rest of this one stay well-formed. *)
Lemma threads_step (P P' : action -> Prop) ts i a rest acts : ts !! i = Some (a :: rest) -> Forall (Forall P) ts -> (forall x, P x -> P' x) -> Forall P' acts ->
  Forall (Forall P') (<[i := acts ++ rest]> ts).
Proof using Type.
  intros Hi H HP Ha. apply Forall_step; [eapply Forall_impl; [exact H|]; intros l Hl; eapply Forall_impl; [exact Hl|done]|].
  apply Forall_app. split; [done|]. pose proof (Forall_lookup_1 _ _ _ _ H Hi) as Hl. apply Forall_cons in Hl as [_ Hl]. eapply Forall_impl; [exact Hl|done].
Qed.

Lemma notify_step ms ms' ts i a rest acts reqs s s' : managers s = ms -> managers s' = ms' -> does a s s' acts -> action_ok ms reqs a -> ts !! i = Some (a :: rest) ->
  thread_ok (a :: rest) -> notified_soon ms ts -> notified_soon ms' (<[i := acts ++ rest]> ts).
Proof using Hiterate.
  intros <- <- H Hok Hi Hth Hn c m' Hm' Hs'. destruct (does_manager_flags _ _ _ _ _ _ _ _ _ _ H Hok Hm') as (m & Hm & Hnot & Hst & Hself).
  pose proof (does_kind _ _ _ Hiterate _ _ _ _ H) as Hk. pose proof (lookup_lt_Some _ _ _ Hi) as Hlt.
  destruct (Hst Hs') as [Hs|[Hk1 Hin]].
  - destruct (Hn c m Hm Hs) as [?|(j & l & Hj & Hin & Hl)]; [by left; auto|]. destruct (decide (j = i)) as [->|Hne].
    + rewrite Hi in Hj. injection Hj as <-. apply elem_of_cons in Hin as [<-|Hin]; [by left; auto|]. right. exists i, (acts ++ rest).
      rewrite list_lookup_insert_eq by done. apply Forall_cons in Hl as [Ha Hl]. split_and!; [done|apply elem_of_app; by right|]. apply Forall_app. split; [|done].
      destruct (kind a) as [|[|]]; [|done|lia]. eapply Forall_impl; [exact Hk|]. cbn. lia.
    + right. exists j, l. by rewrite list_lookup_insert_ne by done.
  - right. exists i, (acts ++ rest). rewrite list_lookup_insert_eq by done. rewrite Hk1 in Hk. split_and!; [done|apply elem_of_app; by left|]. apply Forall_app. split; [done|].
    destruct Hth as [Hl|(pre & x & El & Hx & Hp)]; [by apply Forall_cons in Hl as [_ Hl]|]. destruct pre as [|b pre]; cbn in El; injection El as -> ->; [lia|]. apply Forall_cons in Hp as [Hb _]. lia.
Qed.

Lemma inv_run n s i a rest sh' acts : inv n s -> threads s !! i = Some (a :: rest) -> does a (sh s) sh' acts ->
  inv n (mkState sh' (<[i := acts ++ rest]> (threads s)) (next_id s) (requests s)).
Proof using Hiterate.
  intros [] Hi H. pose proof (Forall_lookup_1 _ _ _ _ v_actions0 Hi) as Hok. apply Forall_cons in Hok as [Hok _].
  pose proof (Forall_lookup_1 _ _ _ _ v_keys0 Hi) as Hkey. apply Forall_cons in Hkey as [Hkey _].
  pose proof (Forall_lookup_1 _ _ _ _ v_kinds0 Hi) as Hth. pose proof (Forall_lookup_1 _ _ _ _ v_heads0 Hi) as Hhead. cbn [tail] in Hhead.
  pose proof (total_in holder (threads s) i _ a Hi ltac:(left)) as Hin. rewrite v_lock0 in Hin.
  destruct (does_lock _ _ _ Hiterate _ _ _ _ H Hin) as [Hlock Htail]. pose proof (does_managers _ _ _ _ _ _ _ H) as Hle.
  assert (total holder (<[i := acts ++ rest]> (threads s)) = lock_count sh') as Hlock' by (pose proof (total_step holder (threads s) i a rest acts Hi); lia).
  constructor; cbn [sh threads next_id requests]; try done.
  - rewrite <- v_managers0. apply Hle.
  - eapply threads_step; [done|exact v_actions0|intros x; by apply action_ok_mono|]. eapply does_actions_ok; [done|done|done|]. by rewrite v_managers0.
  - rewrite <- v_managers0. eapply does_items_ok; [done|done|]. by rewrite v_managers0.
  - by eapply does_queues.
  - destruct (mu_ sh') eqn:Em'; [|apply holders_none; rewrite Hlock'; unfold lock_count; by rewrite Em'].
    destruct (mu_ (sh s)) eqn:Em; [|pose proof (holders_none (threads s) (table_ sh')) as Hnone].
    + eapply threads_step; [done|exact v_keys0| |by eapply does_nothing]. rewrite (does_table_same _ _ _ _ H Em Em'). done.
    + eapply threads_step; [done|apply Hnone; rewrite v_lock0; unfold lock_count; by rewrite Em|done|by eapply does_nothing].
  - apply Forall_step; [done|]. destruct acts as [|x acts]; cbn; [pose proof (tail_sum holder rest); lia|]. rewrite sum_list_with_app. cbn in Htail. lia.
  - by eapply does_aborted.
  - by eapply does_aborted.
  - apply Forall_step; [done|]. by eapply does_thread.
  - by eapply notify_step.
  - intros d. specialize (v_done0 d). pose proof (total_step (action_done d) (threads s) i a rest acts Hi). pose proof (does_done _ _ _ Hiterate d _ _ _ _ H). lia.
  - intros c. specialize (v_refs0 c). pose proof (total_step (action_refs c) (threads s) i a rest acts Hi). pose proof (does_refs _ _ _ Hiterate c _ _ _ _ H). lia.
  - rewrite <- v_expired0. clear -H. destruct H; shared_simpl; done.
Qed.

Lemma reaches_inv n s : reaches n s -> inv n s.
Proof using Hiterate.
  induction 1 as [|m s s' Hs IH Hm E]; [apply inv_initial|]. destruct m as [c|i|i]; [|cbn in E|done].
  - injection E as <-. by apply inv_call.
  - destruct (threads s !! i) as [[|a rest]|] eqn:Hi; try done. destruct (exec a (sh s)) as [| |[sh' acts]] eqn:Ex; try done. injection E as <-.
    eapply inv_run; [done..|]. by apply exec_does.
Qed.
End safety.
