(* ===== verification/RendezvousTheorems.v ===== *)
(** * Rendezvous: safety and progress of every interleaving *)

From stdpp Require Import gmap.
From S2P Require Import Prelude InputStream Crc32cTheorems Hash Cancellation Rendezvous RendezvousSteps RendezvousInv RendezvousSafety.
Import Cancellation Rendezvous.

Section progress.
Context (le : bool) {Tensor : Type} (no_tensor : Tensor) (iterate : forall A, gmap Z A -> list (Z * A)).
Context (Hiterate : forall A (m : gmap Z A), iterate A m ≡ₚ map_to_list m).
Abbreviation Item := (@Item Tensor).
Abbreviation shared := (@shared Tensor).
Abbreviation action := (@action Tensor).
Abbreviation state := (@state Tensor).
Abbreviation exec := (exec le no_tensor iterate).
Abbreviation step := (step le no_tensor iterate).
Abbreviation reaches := (reaches le no_tensor iterate).

(** ** Nothing fails *)

Lemma KeyHash_total key : Forall byte key -> exists h, KeyHash le key = Some h.
Proof using Type. apply Hash64_total. Qed.

Lemma Unref_held c (s : shared) : (forall d, (occurrences d (held c) <= occurrences d (refs s))%nat) -> exists s', Unref c s = Some s'.
Proof using Type.
  intros H. destruct c as [d|]; [|by eexists]. cbn. specialize (H d). destruct (list_find (eq d) (refs s)) as [[i x]|] eqn:E; [by eexists|]. exfalso.
  apply (proj1 (list_find_None (eq d) (refs s))) in E. unfold occurrences in H. cbn in H. rewrite decide_True in H by done.
  assert (sum_list_with (fun x => if decide (d = x) then 1 else 0)%nat (refs s) = 0%nat) as E0; [|lia].
  induction E as [|y l Hy _ IH]; [done|]. cbn. rewrite decide_False by done. apply IH. cbn in H. rewrite decide_False in H by done. done.
Qed.

Lemma exec_not_failed n s i a rest : inv n s -> threads s !! i = Some (a :: rest) -> exec a (sh s) <> Failed.
Proof using Hiterate.
  intros [] Hi. pose proof (Forall_lookup_1 _ _ _ _ v_actions Hi) as Hok. apply Forall_cons in Hok as [Hok _].
  destruct a; cbn [action_ok] in Hok; cbn [Rendezvous.exec]; unfold StartCancel, on_manager;
    try (destruct (lookup_lt_is_Some_2 _ _ Hok) as [m ->]); try (by repeat case_match).
  - unfold Send. destruct (KeyHash_total key Hok) as [h ->]. by repeat case_match.
  - unfold RecvAsync. destruct Hok as [Hb _]. destruct (KeyHash_total key Hb) as [h ->]. destruct (queue_at h (table_ (sh s))); by repeat case_match.
  - destruct Hok as (m & -> & Ht). unfold RegisterCallback. rewrite (proj2 (Z.ltb_lt token _)) by done. by repeat case_match.
  - rewrite v_expired, decide_False by apply not_elem_of_nil. done.
  - assert (forall c, item_refs c it <= occurrences c (refs (sh s)))%nat as Hr.
    { intros c. rewrite v_refs. pose proof (total_in (action_refs c) (threads s) i _ (ADelete it) Hi ltac:(left)) as Hin. cbn [action_refs] in Hin. lia. }
    unfold item_refs in Hr. destruct (Unref_held (device_context (send_args it)) (sh s)) as [s1 E1]; [intros d; specialize (Hr d); lia|]. rewrite E1. cbn [mbind option_bind].
    apply Unref_refs in E1 as (r & -> & Hp). destruct (Unref_held (device_context (recv_args it)) (with_refs r (sh s))) as [s2 ->]; [|done].
    intros d. specialize (Hr d). unfold occurrences in *. rewrite (sum_permutation _ _ _ Hp), sum_list_with_app in Hr. cbn [refs with_refs]. lia.
  - unfold StartAbort. rewrite Hok. by case_match.
  - unfold Cancel. destruct (mu_ (sh s)); [done|]. destruct (queue_at h (table_ (sh s))) as [|front q] eqn:Eq; [done|]. destruct (IsSendValue front) eqn:Ef; [done|]. rewrite <- Eq.
    pose proof (list_find_split (fun it => cancellation_token it = token) (queue_at h (table_ (sh s)))) as Hf. destruct (list_find _ _) as [[j it]|]; [|done]. destruct Hf as (Hj & _ & _).
    destruct (v_queues h) as [b Hq]. assert (b = false) as -> by (rewrite Eq in Hq; apply Forall_cons in Hq as [<- _]; done).
    pose proof (Forall_lookup_1 _ _ _ _ Hq Hj) as Hw. unfold IsSendValue in Hw. by destruct (waiter it).
  - destruct Hok as (m & -> & _). done.
  - destruct Hok as (m & -> & _). by case_match.
Qed.

Lemma step_not_failed n s i : inv n s -> step (Run i) s <> Failed.
Proof using Hiterate.
  intros Hinv. cbn. destruct (threads s !! i) as [[|a rest]|] eqn:Hi; try done. pose proof (exec_not_failed n s i a rest Hinv Hi). by destruct (exec a (sh s)) as [| |[]].
Qed.
(** ** Progress *)

Lemma exec_blocked a (s : shared) : exec a s = Blocked -> (mu_ s = true /\ holder a = 0%nat) \/ (exists d t, a = AWait d t /\ notified d (log s) = None)
  \/ (exists id c m, a = AWaitCancelled id c /\ managers s !! c = Some m /\ cancelled_notification_ m = false).
Proof using Type.
  destruct a; cbn [Rendezvous.exec holder locked_key]; unfold Send, RecvAsync, StartAbort, Cancel, StartCancel, on_manager; intros E;
    try (left; split; [by repeat case_match|done]); try (by repeat case_match).
  - right. left. exists done, timeout_ms. by destruct (notified done (log s)).
  - right. right. destruct (managers s !! c) as [m|] eqn:Em; [|done]. exists id, c, m. by destruct (cancelled_notification_ m).
Qed.

(** No thread can act. *)
Definition stuck (s : state) : Prop := forall i s', step (Run i) s <> Next s'.

Lemma stuck_blocked n s i a rest : inv n s -> stuck s -> threads s !! i = Some (a :: rest) -> exec a (sh s) = Blocked.
Proof using Hiterate.
  intros Hinv Hs Hi. pose proof (exec_not_failed n s i a rest Hinv Hi) as Hf. specialize (Hs i). cbn in Hs. rewrite Hi in Hs. destruct (exec a (sh s)) as [| |[sh' acts]]; [done|done|]. by destruct (Hs _ eq_refl).
Qed.

Lemma total_pos f (ts : list (list action)) : (0 < total f ts)%nat -> exists i l, ts !! i = Some l /\ (0 < sum_list_with f l)%nat.
Proof using Type.
  unfold total. clear. induction ts as [|l ts IH]; cbn; [lia|]. destruct (sum_list_with f l) as [|k] eqn:E; [|exists 0%nat, l; split; [done|lia]].
  intros H. destruct (IH H) as (i & l' & Hi & Hl). by exists (S i), l'.
Qed.

Lemma stuck_unlocked n s : inv n s -> stuck s -> mu_ (sh s) = false.
Proof using Hiterate.
  intros Hinv Hs. destruct (mu_ (sh s)) eqn:Em; [|done]. exfalso. pose proof Hinv as []. destruct (total_pos holder (threads s)) as (i & l & Hi & Hl); [rewrite v_lock; unfold lock_count; rewrite Em; lia|].
  destruct l as [|a rest]; [cbn in Hl; lia|]. pose proof (Forall_lookup_1 _ _ _ _ v_heads Hi) as Hh. cbn in Hl, Hh.
  destruct (exec_blocked a (sh s) (stuck_blocked n s i a rest Hinv Hs Hi)) as [[_ ?]|[(d & t & -> & _)|(id & c & m & -> & _)]]; cbn in Hl; lia.
Qed.

Lemma stuck_heads n s i a rest : inv n s -> stuck s -> threads s !! i = Some (a :: rest) -> kind a = 2%nat /\
  ((exists d t, a = AWait d t /\ notified d (log (sh s)) = None) \/ (exists id c m, a = AWaitCancelled id c /\ managers (sh s) !! c = Some m /\ cancelled_notification_ m = false)).
Proof using Hiterate.
  intros Hinv Hs Hi. pose proof (stuck_unlocked n s Hinv Hs) as Hmu. destruct (exec_blocked a (sh s) (stuck_blocked n s i a rest Hinv Hs Hi)) as [[Hm _]|H]; [congruence|].
  split; [|done]. by destruct H as [(d & t & -> & _)|(id & c & m & -> & _)].
Qed.

(** When no thread can act, the calls that have not returned are receivers without a message. *)
Lemma stuck_threads n s i l : inv n s -> stuck s -> threads s !! i = Some l -> l = [] \/ exists d t, l = [AWait d t] /\ notified d (log (sh s)) = None.
Proof using Hiterate.
  intros Hinv Hs Hi. destruct l as [|a rest]; [by left|right]. destruct (stuck_heads n s i a rest Hinv Hs Hi) as [Hk Ha]. pose proof Hinv as [].
  assert (rest = []) as ->.
  { destruct (Forall_lookup_1 _ _ _ _ v_kinds Hi) as [Hl|(pre & x & El & Hx & Hp)]; [apply Forall_cons in Hl as [? _]; lia|]. destruct pre as [|b pre]; cbn in El; injection El as -> ->; [done|].
    apply Forall_cons in Hp as [? _]. lia. }
  destruct Ha as [(d & t & -> & Hd)|(id & c & m & -> & Hm & Hn)]; [by exists d, t|]. exfalso.
  pose proof (Forall_lookup_1 _ _ _ _ v_actions Hi) as Hok. apply Forall_cons in Hok as [(m' & Em' & Hst) _]. replace m' with m in Hst by congruence.
  destruct (v_notify c m Hm Hst) as [?|(j & l & Hj & Hin & Hl)]; [congruence|]. destruct l as [|b l]; [set_solver|]. destruct (stuck_heads n s j b l Hinv Hs Hj) as [Hkb _]. apply Forall_cons in Hl as [? _]. lia.
Qed.

(** ** Termination *)

Definition cost (s : state) : nat := (total action_cost (threads s) + shared_cost (sh s))%nat.

Lemma step_cost i s s' : step (Run i) s = Next s' -> (cost s' < cost s)%nat.
Proof using Hiterate.
  cbn. destruct (threads s !! i) as [[|a rest]|] eqn:Hi; try done. destruct (exec a (sh s)) as [| |[sh' acts]] eqn:E; try done. intros [= <-]. unfold cost. cbn [threads sh].
  pose proof (total_step action_cost (threads s) i a rest acts Hi). pose proof (does_cost _ _ _ Hiterate _ _ _ _ (exec_does _ _ _ _ _ _ _ E)). lia.
Qed.

Lemma run_cost ks s s' : run le no_tensor iterate (map Run ks) s = Next s' -> (length ks + cost s' <= cost s)%nat.
Proof using Hiterate.
  revert s. induction ks as [|k ks IH]; intros s; cbn [map run]; [intros [= <-]; cbn; lia|]. destruct (step (Run k) s) as [| |s1] eqn:E; try done. intros Hr.
  pose proof (step_cost k s s1 E). specialize (IH s1 Hr). cbn [length]. lia.
Qed.

Definition can_act (s : state) (i : nat) : bool := match step (Run i) s with Next _ => true | _ => false end.

Lemma stuck_or_acts s : stuck s \/ exists i s', step (Run i) s = Next s'.
Proof using Type.
  destruct (list_find (fun i => can_act s i = true) (seq 0 (length (threads s)))) as [[j i]|] eqn:E.
  - right. apply list_find_Some in E as (_ & Hc & _). exists i. unfold can_act in Hc. destruct (step (Run i) s) as [| |s']; try done. by exists s'.
  - left. apply (proj1 (list_find_None _ _)) in E. intros i s' Hn. assert (i < length (threads s))%nat as Hi.
    { cbn in Hn. destruct (threads s !! i) as [l|] eqn:El; [by eapply lookup_lt_Some|done]. }
    apply (proj1 (Forall_forall _ _) E i); [apply elem_of_seq; lia|]. unfold can_act. by rewrite Hn.
Qed.

(** Any state is followed by one in which no thread can act. *)
Lemma run_to_stuck s : exists ks s', run le no_tensor iterate (map Run ks) s = Next s' /\ stuck s'.
Proof using Hiterate.
  remember (cost s) as k eqn:Ek. revert s Ek. induction k as [k IH] using lt_wf_ind. intros s ->. destruct (stuck_or_acts s) as [Hs|(i & s1 & E)]; [by exists [], s|].
  destruct (IH (cost s1) (step_cost i s s1 E) s1 eq_refl) as (ks & s' & Hr & Hs). exists (i :: ks), s'. cbn [map run]. by rewrite E.
Qed.

(** ** What is left in the end *)

Lemma notified_none d (l : list (@event Tensor)) : notified d l = None -> sum_list_with (event_done d) l = 0%nat.
Proof using Type.
  induction l as [|e l IH]; [done|]. destruct e as [x| | |]; cbn [notified sum_list_with event_done]; [|done..]. case_decide; [done|]. unfold occurs. rewrite decide_False by done. done.
Qed.

Lemma requests_once (d : nat) l : NoDup l -> sum_list_with (occurs d) l = if decide (d ∈ l) then 1%nat else 0%nat.
Proof using Type.
  clear. induction 1 as [|x l Hx _ IH]; [done|]. cbn [sum_list_with]. rewrite IH. unfold occurs. repeat case_decide; set_solver.
Qed.

Lemma stuck_total n s f : inv n s -> stuck s -> (forall d t, f (AWait d t) = 0%nat) -> total f (threads s) = 0%nat.
Proof using Hiterate.
  intros Hinv Hs Hf. destruct (total f (threads s)) as [|k] eqn:E; [done|]. destruct (total_pos f (threads s)) as (i & l & Hi & Hl); [lia|].
  destruct (stuck_threads n s i l Hinv Hs Hi) as [->|(d & t & -> & _)]; cbn in Hl; [lia|]. rewrite Hf in Hl. lia.
Qed.

Lemma weigh_item (w : Item -> nat) (t : gmap Z (list Item)) : (0 < weigh w t)%nat -> exists h it, it ∈ queue_at h t /\ (0 < w it)%nat.
Proof using Type.
  clear. unfold weigh. intros H. assert (exists it, it ∈ items t /\ (0 < w it)%nat) as (it & Hin & Hw).
  { revert H. induction (items t) as [|x l IH]; cbn; [lia|]. destruct (w x) eqn:E; [|intros _; exists x; split; [left|lia]]. intros H. destruct (IH H) as (it & ? & ?). exists it. split; [by right|done]. }
  unfold items in Hin. apply list_elem_of_In, in_concat in Hin as (q & Hq & Hit). apply in_map_iff in Hq as ([h q'] & <- & Hq). apply list_elem_of_In, elem_of_map_to_list in Hq.
  exists h, it. unfold queue_at. rewrite Hq. split; [by apply list_elem_of_In|done].
Qed.

(** A closure that was not called waits in a queue. *)
Lemma stuck_waiting n s d : inv n s -> stuck s -> d ∈ requests s -> log_done d (sh s) = 0%nat -> exists h it w, it ∈ queue_at h (table_ (sh s)) /\ waiter it = Some w /\ done_ w = d.
Proof using Hiterate.
  intros Hinv Hs Hd Hl. pose proof Hinv as []. specialize (v_done d). rewrite (stuck_total n s _ Hinv Hs), requests_once, decide_True in v_done by (done || apply v_requests).
  destruct (weigh_item (item_done d) (table_ (sh s))) as (h & it & Hin & Hw); [lia|]. unfold item_done in Hw. destruct (waiter it) as [w|] eqn:Ew; [|lia].
  exists h, it, w. split_and!; [done..|]. unfold occurs in Hw. case_decide; [done|lia].
Qed.
End progress.
