(* ===== verification/RendezvousCancel.v ===== *)
(** * Rendezvous: cancellation with one manager

    Tokens are unique only within a manager.  When the receivers of a rendezvous share one, the
    callback of every waiting receiver is registered or about to run, and finds that receiver. *)

From stdpp Require Import gmap.
From S2P Require Import Prelude InputStream Crc32cTheorems Hash Cancellation Rendezvous RendezvousSteps RendezvousInv RendezvousSafety RendezvousTheorems.
Import Cancellation Rendezvous.

Section cancel.
Context (le : bool) {Tensor : Type} (no_tensor : Tensor) (iterate : forall A, gmap Z A -> list (Z * A)).
Context (Hiterate : forall A (m : gmap Z A), iterate A m ≡ₚ map_to_list m).
Abbreviation Item := (@Item Tensor).
Abbreviation Table := (gmap Z (list Item)).
Abbreviation shared := (@shared Tensor).
Abbreviation action := (@action Tensor).
Abbreviation state := (@state Tensor).
Abbreviation does := (does le no_tensor iterate).
Abbreviation exec := (exec le no_tensor iterate).
Abbreviation step := (step le no_tensor iterate).

Context (c : nat).

(** Receivers pass the manager [c] or none, and nobody else deregisters their callbacks. *)
Definition single (m : @move Tensor) : Prop :=
  match m with
  | Call (CRecvAsync _ args) | Call (CRecv _ args _) => cancellation_manager args = None \/ cancellation_manager args = Some c
  | Call (CTryDeregister _ _) | Call (CDeregister _ _) => False
  | _ => True
  end.

(** ** Tokens *)

Definition same (t t' : Z) : nat := if decide (t = t') then 1 else 0.
Definition action_token (t : Z) (a : action) : nat :=
  match a with ARecvRegister _ _ _ t' _ | ARecvEnqueue _ _ _ t' _ | ATryDeregister _ t' => same t t' | _ => 0 end.
Definition item_token (t : Z) (it : Item) : nat :=
  match waiter it with Some (mkWaiter _ (Some (_, t'))) => same t t' | _ => 0%nat end.

(** The actions that change a registration. *)
Definition disturbs (t : Z) (a : action) : nat := match a with ARecvRegister _ _ _ t' _ | ATryDeregister _ t' => same t t' | _ => 0 end.

(** The manager of every action is [c]. *)
Definition action_single (a : action) : Prop :=
  match a with
  | ARecvAsync _ args _ => cancellation_manager args = None \/ cancellation_manager args = Some c
  | ARecvToken _ args c' _ => c' = c /\ cancellation_manager args = Some c
  | ARecvRegister _ args c' t _ | ARecvEnqueue _ args c' t _ => c' = c /\ 0 <= t /\ cancellation_manager args = Some c
  | ATryDeregister c' _ => c' = c
  | ADeregister _ _ _ => False
  | _ => True
  end.

Definition item_single (it : Item) : Prop :=
  match waiter it with
  | Some (mkWaiter _ (Some (c', t))) => c' = c /\ cancellation_token it = t /\ 0 <= t
  | Some (mkWaiter _ None) => cancellation_token it = kInvalidToken /\ cancellation_manager (recv_args it) = None
  | None => True
  end.

Definition wrapped_token (it : Item) : option Z := match waiter it with Some (mkWaiter _ (Some (_, t))) => Some t | _ => None end.

Lemma item_token_wrapped t it : item_token t it = match wrapped_token it with Some t' => same t t' | None => O end.
Proof using Type. unfold item_token, wrapped_token. by destruct (waiter it) as [[d [[c' t']|]]|]. Qed.

Lemma call_waiter_token t w st a b v x : sum_list_with (action_token t) (call_waiter (Tensor := Tensor) w st a b v x) = match wrapped w with Some (_, t') => same t t' | None => O end.
Proof using Type. unfold call_waiter. destruct (wrapped w) as [[c' t']|]; cbn; lia. Qed.

Lemma item_token_waiter t (it : Item) w : waiter it = Some w -> item_token t it = match wrapped w with Some (_, t') => same t t' | None => O end.
Proof using Type. unfold item_token. intros ->. by destruct w as [d [[c' t']|]]. Qed.

Lemma abort_item_token t st it : sum_list_with (action_token t) (abort_item no_tensor st it) = item_token t it.
Proof using Type.
  unfold abort_item. rewrite sum_list_with_app. destruct (waiter it) as [w|] eqn:E; [rewrite call_waiter_token, (item_token_waiter t it w E)|unfold item_token; rewrite E]; cbn; lia.
Qed.

(** A token belongs to one receiver: to its action, or to its item. *)
Lemma does_token t a s s' acts : does a s s' acts ->
  (sum_list_with (action_token t) acts + weigh (item_token t) (table_ s')
   <= action_token t a + weigh (item_token t) (table_ s)
      + match a with ARecvToken _ _ c' _ => match managers s !! c' with Some m => same t (next_cancellation_token_ m) | None => 0 end | _ => 0 end)%nat.
Proof using Hiterate.
  destruct 1; weigh_facts (item_token t); shared_simpl;
    rewrite ?sum_list_with_app, ?call_waiter_token, ?weigh_touch, ?weigh_push, ?(abort_sum _ _ Hiterate), ?weigh_empty, ?(closure_sum _ Hiterate _ 0), ?(weigh_ext _ _ _ (abort_item_token t _)) by done;
    cbn [action_token sum_list_with cancelled];
    try match goal with H : waiter ?it = Some ?w |- _ => rewrite (item_token_waiter t it w H) in * end;
    try match goal with H : managers ?s !! ?k = Some ?m |- context [managers ?s !! ?k] => rewrite H end; try lia.
  all: unfold item_token; cbn [waiter message]; lia.
Qed.

Lemma does_single a s s' acts : does a s s' acts -> action_single a -> (forall m, managers s !! c = Some m -> 0 <= next_cancellation_token_ m) ->
  table_all item_single (table_ s) -> Forall action_single acts /\ table_all item_single (table_ s').
Proof using Hiterate.
  intros H Ha Hn Ht.
  assert (forall it w st x b v d, item_single it -> waiter it = Some w -> Forall action_single (call_waiter (Tensor := Tensor) w st x b v d)) as Hw.
  { intros it w st x b v d Hi Ew. unfold item_single in Hi. rewrite Ew in Hi. unfold call_waiter. destruct w as [dn [[c' t]|]]; cbn; repeat constructor. apply Hi. }
  split.
  - destruct H; cbn [action_single] in Ha; try apply Forall_app; try (by repeat constructor).
    + split; [|by repeat constructor]. apply (Hw it); [|done]. pose proof (Ht h) as Hh. rewrite H2 in Hh. by apply Forall_cons in Hh as [? _].
    + constructor; [|done]. destruct Ha as [Ha|Ha]; [congruence|]. split; [congruence|done].
    + constructor; [|done]. destruct Ha as [-> Ha]. split_and!; [done|by apply Hn|done].
    + constructor; [exact Ha|done].
    + apply (abort_forall _ _ Hiterate item_single); [|done]. intros it Hi. unfold abort_item. apply Forall_app. split; [|by repeat constructor]. destruct (waiter it) as [w|] eqn:Ew; [by apply (Hw it)|done].
    + split; [|by repeat constructor]. apply (Hw it); [|done]. by apply (Forall_lookup_1 _ _ _ _ (Ht h) H0).
    + split; [|by repeat constructor]. apply Forall_map, Forall_forall. done.
  - clear Hiterate Hw. destruct H; shared_simpl; cbn [action_single] in Ha; try done;
    try match goal with H : queue_at ?h _ = ?it :: ?q |- _ => pose proof (Ht h) as Hh; rewrite H in Hh; apply Forall_cons in Hh as [_ Hh] end;
    try match goal with |- table_all _ (touch _ _) => intros h'; rewrite queue_touch; apply Ht end;
    try match goal with |- table_all _ (pop _ _ _) => eapply table_all_change; [done|exact Hh|intros h'; apply queue_pop] end;
    try match goal with |- table_all _ (<[_ := _]> _) => eapply table_all_change; [done| |intros h'; apply queue_insert]; apply Forall_app; split; [apply Ht|constructor; [|done]] end.
    + done.
    + done.
    + cbn. destruct Ha as (-> & Ht0 & _). done.
    + apply table_all_empty.
    + eapply table_all_change; [done| |intros h'; by eapply queue_drop]. apply Forall_delete, Ht.
Qed.
(** ** Callbacks *)

(** The callback of a receiver is registered, or a thread is about to run it. *)
Definition covered (ms : list (@CancellationManager CancelClosure)) (ts : list (list action)) (h t : Z) : Prop :=
  (exists m, ms !! c = Some m /\ callbacks_ m !! t = Some (mkClosure t h)) \/ exists i l, ts !! i = Some l /\ ACancelled t h ∈ l.

Record cancel_inv (s : state) : Prop := {
  c_actions : Forall (Forall action_single) (threads s);
  c_items : table_all item_single (table_ (sh s));
  c_next : forall m, managers (sh s) !! c = Some m -> 0 <= next_cancellation_token_ m /\ (started m = true -> callbacks_ m = ∅);
  c_tokens : forall t, (total (action_token t) (threads s) + weigh (item_token t) (table_ (sh s)) <= 1)%nat;
  c_fresh : forall m t, managers (sh s) !! c = Some m -> next_cancellation_token_ m <= t -> (total (action_token t) (threads s) + weigh (item_token t) (table_ (sh s)) = 0)%nat;
  c_waiting : forall h it t, it ∈ queue_at h (table_ (sh s)) -> wrapped_token it = Some t -> covered (managers (sh s)) (threads s) h t;
  c_enqueue : forall i l h args c' t d, threads s !! i = Some l -> ARecvEnqueue h args c' t d ∈ l -> covered (managers (sh s)) (threads s) h t
}.

(** What an action does to the manager [c]. *)
Lemma does_next a s s' acts reqs m' : does a s s' acts -> action_ok (managers s) reqs a -> managers s' !! c = Some m' -> exists m, managers s !! c = Some m
  /\ next_cancellation_token_ m' = next_cancellation_token_ m + match a with ARecvToken _ _ c' _ => if decide (c' = c) then 1 else 0 | _ => 0 end
  /\ ((started m = true -> callbacks_ m = ∅) -> started m' = true -> callbacks_ m' = ∅).
Proof using Type.
  clear Hiterate. intros H Hok E.
  assert (managers s' = managers s -> (forall h args c' d, a <> ARecvToken h args c' d) -> exists m, managers s !! c = Some m
    /\ next_cancellation_token_ m' = next_cancellation_token_ m + match a with ARecvToken _ _ c' _ => if decide (c' = c) then 1 else 0 | _ => 0 end
    /\ ((started m = true -> callbacks_ m = ∅) -> started m' = true -> callbacks_ m' = ∅)) as Hsame.
  { intros Em Ha. rewrite Em in E. exists m'. split_and!; [done| |done]. destruct a; try lia. by destruct (Ha h args c0 done). }
  destruct H; try (by apply Hsame); revert Hsame E; shared_simpl; intros Hsame E; try (apply Hsame; [reflexivity|discriminate]);
    match goal with Hm : managers s !! ?k = Some ?m, E : <[?k := ?m1]> (managers s) !! c = Some m' |- _ =>
      destruct (decide (k = c)) as [->|Hne];
      [rewrite list_lookup_insert_eq in E by (by eapply lookup_lt_Some); injection E as <-; exists m; split; [done|]
      |rewrite list_lookup_insert_ne in E by done; exists m'; split_and!; [done|lia|done]]
    end; unfold started, TryDeregisterCallback, DeregisterCallback in *; try (cbn; split; [lia|by auto]);
    try (destruct (is_cancelled_ m) eqn:E1, (is_cancelling_ m) eqn:E2; cbn; rewrite ?E1, ?E2; (split; [lia|by auto])).
  destruct Hok as (m1 & E1 & Hs). replace m1 with m in Hs by congruence. cbn. split; [lia|]. intros Hc _. by apply Hc.
Qed.

(** A registered callback stays, or is about to run. *)
Lemma does_callback a s s' acts m h t : does a s s' acts -> managers s !! c = Some m -> callbacks_ m !! t = Some (mkClosure t h) ->
  action_single a -> disturbs t a = 0%nat ->
  (exists m', managers s' !! c = Some m' /\ callbacks_ m' !! t = Some (mkClosure t h)) \/ ACancelled t h ∈ acts.
Proof using Hiterate.
  intros H Em Et Ha Ht.
  assert (managers s' = managers s -> (exists m', managers s' !! c = Some m' /\ callbacks_ m' !! t = Some (mkClosure t h)) \/ ACancelled t h ∈ acts) as Hsame by (intros ->; eauto).
  assert (forall k m1, managers s' = <[k := m1]> (managers s) -> (k = c -> callbacks_ m1 !! t = Some (mkClosure t h)) ->
    (exists m', managers s' !! c = Some m' /\ callbacks_ m' !! t = Some (mkClosure t h)) \/ ACancelled t h ∈ acts) as Hset.
  { intros k m1 -> Hk. left. destruct (decide (k = c)) as [->|]; [exists m1; rewrite list_lookup_insert_eq by (by eapply lookup_lt_Some); auto|exists m; by rewrite list_lookup_insert_ne]. }
  assert (forall t', same t t' = 0%nat -> t <> t') as Hsm by (unfold same; intros t'; case_decide; [lia|done]).
  destruct H; cbn [action_single disturbs] in Ha, Ht; try (by apply Hsame); revert Hsame Hset; shared_simpl; intros Hsame Hset; try (by apply Hsame).
  - apply (Hset c0 _ eq_refl). intros ->. replace m0 with m by congruence. done.
  - apply (Hset c0 _ eq_refl). intros ->. replace m0 with m by congruence. cbn. rewrite lookup_insert_ne; [done|]. intros ->. by apply (Hsm t).
  - apply (Hset c0 _ eq_refl). intros ->. by replace m0 with m by congruence.
  - destruct (decide (c0 = c)) as [->|Hne]; [|by apply (Hset c0 _ eq_refl)]. right. apply elem_of_app. left. replace m0 with m by congruence.
    apply list_elem_of_fmap. exists (t, mkClosure t h). split; [done|]. rewrite Hiterate. by apply elem_of_map_to_list.
  - apply (Hset c0 _ eq_refl). intros ->. by replace m0 with m by congruence.
  - apply (Hset c0 _ eq_refl). intros ->. by replace m0 with m by congruence.
  - apply (Hset c0 _ eq_refl). intros ->. replace m0 with m by congruence. unfold TryDeregisterCallback. destruct (is_cancelled_ m || is_cancelling_ m); [done|]. cbn.
    rewrite lookup_delete_ne; [done|]. intros ->. by apply (Hsm t).
Qed.

Lemma covered_step ts i a rest s s' acts h t : does a s s' acts -> ts !! i = Some (a :: rest) -> covered (managers s) ts h t -> action_single a -> disturbs t a = 0%nat ->
  a <> ACancelled t h -> covered (managers s') (<[i := acts ++ rest]> ts) h t.
Proof using Hiterate.
  intros H Hi [(m & Em & Et)|(j & l & Hj & Hin)] Ha Ht Hne; pose proof (lookup_lt_Some _ _ _ Hi) as Hlt.
  - destruct (does_callback _ _ _ _ _ _ _ H Em Et Ha Ht) as [Hc|Hc]; [by left|right]. exists i, (acts ++ rest). rewrite list_lookup_insert_eq by done. split; [done|]. apply elem_of_app. by left.
  - right. destruct (decide (j = i)) as [->|Hji]; [|exists j, l; by rewrite list_lookup_insert_ne by done]. rewrite Hi in Hj. injection Hj as <-.
    apply elem_of_cons in Hin as [<-|Hin]; [done|]. exists i, (acts ++ rest). rewrite list_lookup_insert_eq by done. split; [done|]. apply elem_of_app. by right.
Qed.
Lemma disturbs_token t a : (disturbs t a <= action_token t a)%nat.
Proof using Type. destruct a; cbn; lia. Qed.

(** Where the receivers of the next state come from. *)
Lemma does_item_origin a s s' acts h it t : does a s s' acts -> it ∈ queue_at h (table_ s') -> wrapped_token it = Some t ->
  it ∈ queue_at h (table_ s) \/ exists args c' d, a = ARecvEnqueue h args c' t d.
Proof using Type.
  clear Hiterate. intros H Hin Hw.
  assert (forall k q q', (forall h', queue_at h' (table_ s') = if decide (h' = k) then q' else queue_at h' (table_ s)) -> q = queue_at k (table_ s) ->
    (it ∈ q' -> it ∈ q \/ exists args c' d, a = ARecvEnqueue k args c' t d) -> it ∈ queue_at h (table_ s) \/ exists args c' d, a = ARecvEnqueue h args c' t d) as Hchange.
  { intros k q q' E Eq Hq. rewrite E in Hin. destruct (decide (h = k)) as [->|]; [|by left]. subst q. auto. }
  destruct H; revert Hin Hchange; shared_simpl; intros Hin Hchange; try (by left); try (left; by rewrite queue_touch in Hin).
  - eapply Hchange; [intros h'; apply queue_insert|reflexivity|]. intros [Hq|Hq%list_elem_of_singleton]%elem_of_app; [by left|by subst it].
  - eapply Hchange; [intros h'; apply queue_pop|reflexivity|]. intros Hq. left. rewrite H2. by right.
  - eapply Hchange; [intros h'; apply queue_insert|reflexivity|]. intros [Hq|Hq%list_elem_of_singleton]%elem_of_app; [by left|by subst it].
  - eapply Hchange; [intros h'; apply queue_pop|reflexivity|]. intros Hq. left. rewrite H2. by right.
  - eapply Hchange; [intros h'; apply queue_insert|reflexivity|]. intros [Hq|Hq%list_elem_of_singleton]%elem_of_app; [by left|]. subst it. right. cbn in Hw. injection Hw as ->. by eexists _, _, _.
  - unfold queue_at in Hin. rewrite lookup_empty in Hin. by apply not_elem_of_nil in Hin.
  - eapply Hchange; [intros h'; by eapply queue_drop|reflexivity|]. intros Hq. left. by eapply delete_subset.
Qed.

Lemma sum_in {A} (f : A -> nat) l x : x ∈ l -> (f x <= sum_list_with f l)%nat.
Proof using Type. clear. intros (l1 & l2 & ->)%list_elem_of_split. rewrite sum_list_with_app. cbn [sum_list_with]. lia. Qed.

(** The callback finds its receiver. *)
Lemma cancel_removes t h s s' acts it : does (ACancelled t h) s s' acts -> queues_ok (table_ s) -> table_all item_single (table_ s) -> (weigh (item_token t) (table_ s) <= 1)%nat ->
  it ∈ queue_at h (table_ s') -> wrapped_token it <> Some t.
Proof using Type.
  clear Hiterate. intros H Hq Hs Hone Hin Hw.
  assert (forall x, x ∈ queue_at h (table_ s) -> wrapped_token x = Some t -> cancellation_token x = t /\ 0 <= t /\ IsSendValue x = false) as Hsingle.
  { intros x Hx Hxw. pose proof (proj1 (Forall_forall _ _) (Hs h) x Hx) as Hi. unfold item_single, IsSendValue in *. unfold wrapped_token in Hxw.
    destruct (waiter x) as [[d [[c' t']|]]|]; try done. injection Hxw as ->. destruct Hi as (_ & ? & ?). done. }
  remember (ACancelled t h) as a eqn:Ea. destruct H; try discriminate; injection Ea as -> ->; revert Hin; shared_simpl; intros Hin.
  - rewrite queue_touch in Hin. destruct (Hsingle it Hin Hw) as (Et & _ & Hsv). destruct H0 as [Hnw|Hall]; [|by apply (proj1 (Forall_forall _ _) Hall it Hin)].
    destruct (Hq h) as [b Hb]. destruct (queue_at h (table_ s)) as [|x q] eqn:Eq; [by apply not_elem_of_nil in Hin|]. pose proof (proj1 (Forall_forall _ _) Hb it Hin) as E1. cbn in E1.
    apply Forall_cons in Hb as [E2 _]. unfold no_waiter in Hnw. congruence.
  - rewrite (queue_drop h i it0) in Hin by done. rewrite decide_True in Hin by done. assert (it ∈ queue_at h (table_ s)) as Hold by (by eapply delete_subset).
    destruct (Hsingle it Hold Hw) as (_ & Hpos & _). pose proof (Forall_lookup_1 _ _ _ _ (Hs h) H0) as Hi0.
    assert (item_token t it0 = 1%nat) as E0.
    { unfold item_single in Hi0. unfold item_token. rewrite H2 in *. destruct w as [d [[c' t']|]]; [destruct Hi0 as (_ & E & _); unfold same; rewrite decide_True; congruence|]. destruct Hi0 as [Ei _]. unfold kInvalidToken in Ei. lia. }
    assert (item_token t it = 1%nat) as E1 by (rewrite item_token_wrapped, Hw; unfold same; by rewrite decide_True).
    pose proof (sum_in (item_token t) _ it Hin) as Hsum. rewrite (weigh_queue _ h), (sum_delete _ i it0 _ H0) in Hone. lia.
Qed.

(** A second action of the threads. *)
Lemma total_two f (ts : list (list action)) i a rest j l x : ts !! i = Some (a :: rest) -> <[i := rest]> ts !! j = Some l -> x ∈ l -> (f a + f x <= total f ts)%nat.
Proof using Type.
  intros Hi Hj Hx. pose proof (total_step f ts i a rest [] Hi) as E. cbn [app sum_list_with] in E. pose proof (total_in f _ j l x Hj Hx). lia.
Qed.

(** An action of the next state is new, or was there before. *)
Lemma thread_origin (ts : list (list action)) i a rest acts j l x : ts !! i = Some (a :: rest) -> <[i := acts ++ rest]> ts !! j = Some l -> x ∈ l -> x ∈ acts \/ exists l', <[i := rest]> ts !! j = Some l' /\ x ∈ l'.
Proof using Type.
  intros Hi Hj Hx. pose proof (lookup_lt_Some _ _ _ Hi) as Hlt. destruct (decide (i = j)) as [<-|Hne].
  - rewrite list_lookup_insert_eq in Hj |- * by done. injection Hj as <-. apply elem_of_app in Hx as [Hx|Hx]; [by left|right]. by exists rest.
  - rewrite list_lookup_insert_ne in Hj |- * by done. right. by exists l.
Qed.

Lemma other_thread (ts : list (list action)) i a rest j l : ts !! i = Some (a :: rest) -> <[i := rest]> ts !! j = Some l -> exists l', ts !! j = Some l' /\ l ⊆ l'.
Proof using Type.
  intros Hi Hj. pose proof (lookup_lt_Some _ _ _ Hi) as Hlt. destruct (decide (i = j)) as [<-|Hne].
  - rewrite list_lookup_insert_eq in Hj by done. injection Hj as <-. exists (a :: rest). split; [done|]. intros x. by right.
  - rewrite list_lookup_insert_ne in Hj by done. by exists l.
Qed.

Lemma does_enqueue_origin a s s' acts h args c' t d : does a s s' acts -> ARecvEnqueue h args c' t d ∈ acts ->
  exists m, a = ARecvRegister h args c' t d /\ managers s !! c' = Some m /\ managers s' = <[c' := with_callbacks (<[t := mkClosure t h]> (callbacks_ m)) m]> (managers s).
Proof using Hiterate.
  intros H Hin. assert (sum_list_with holder acts = 0%nat -> False) as Hz by (intros Hz; pose proof (sum_in holder acts _ Hin) as Hh; cbn in Hh; lia).
  destruct H; try (exfalso; apply Hz; rewrite ?sum_list_with_app, ?(abort_holder _ _ Hiterate), ?(closure_sum _ Hiterate _ 0), ?call_waiter_sum by done; done).
  - apply list_elem_of_singleton in Hin. done.
  - apply list_elem_of_singleton in Hin. done.
  - apply list_elem_of_singleton in Hin. injection Hin as -> -> -> -> ->. exists m. done.
Qed.

Lemma cancel_run n s i a rest sh' acts : inv n s -> cancel_inv s -> threads s !! i = Some (a :: rest) -> does a (sh s) sh' acts ->
  cancel_inv (mkState sh' (<[i := acts ++ rest]> (threads s)) (next_id s) (requests s)).
Proof using Hiterate.
  intros [] [] Hi H. pose proof (Forall_lookup_1 _ _ _ _ v_actions Hi) as Hok. apply Forall_cons in Hok as [Hok _].
  pose proof (Forall_lookup_1 _ _ _ _ c_actions0 Hi) as Hsg. apply Forall_cons in Hsg as [Hsg _].
  destruct (does_single _ _ _ _ H Hsg (fun m Hm => proj1 (c_next0 m Hm)) c_items0) as [Hacts Hitems].
  assert (forall t, total (action_token t) (<[i := acts ++ rest]> (threads s)) + action_token t a = total (action_token t) (threads s) + sum_list_with (action_token t) acts)%nat as Htot by (intros t; by apply total_step).
  assert (forall t, action_token t a <= total (action_token t) (threads s))%nat as Hle by (intros t; apply (total_in _ _ i _ a Hi); left).
  constructor; cbn [sh threads].
  - by eapply threads_step.
  - done.
  - intros m' Hm'. destruct (does_next _ _ _ _ _ _ H Hok Hm') as (m & Hm & En & Hcb). destruct (c_next0 m Hm) as [H0 Hc]. split; [|by apply Hcb]. rewrite En. destruct a; try lia. case_decide; lia.
  - intros t. pose proof (does_token t _ _ _ _ H) as Hd. specialize (Htot t). specialize (Hle t). pose proof (c_tokens0 t) as Hone. destruct a; try lia.
    destruct Hsg as [-> _]. cbn [action_token] in *. destruct (managers (sh s) !! c) as [m|] eqn:Em; [|lia]. unfold same in Hd. case_decide as Et; [|lia]. pose proof (c_fresh0 m t eq_refl ltac:(lia)). lia.
  - intros m' t Hm' Ht. destruct (does_next _ _ _ _ _ _ H Hok Hm') as (m & Hm & En & _). pose proof (does_token t _ _ _ _ H) as Hd. specialize (Htot t). specialize (Hle t).
    assert (next_cancellation_token_ m <= t) as Hmt by (rewrite En in Ht; destruct a; try lia; case_decide; lia). pose proof (c_fresh0 m t Hm Hmt) as Hz. destruct a; try lia.
    destruct Hsg as [-> _]. cbn [action_token] in *. rewrite decide_True in En by done. rewrite Hm in Hd. unfold same in Hd. case_decide; lia.
  - intros h it t Hin Hw. assert (covered (managers (sh s)) (threads s) h t /\ disturbs t a = 0%nat /\ a <> ACancelled t h) as (Hc & Hd & Hne); [|by eapply covered_step].
    destruct (does_item_origin _ _ _ _ _ _ _ H Hin Hw) as [Hold|(args & c' & d & ->)].
    + split; [by eapply c_waiting0|]. pose proof (c_tokens0 t) as Hone. specialize (Hle t). pose proof (disturbs_token t a).
      assert (1 <= weigh (item_token t) (table_ (sh s)))%nat.
      { rewrite (weigh_queue _ h). pose proof (sum_in (item_token t) _ it Hold) as Hs. rewrite item_token_wrapped, Hw in Hs. unfold same in Hs. rewrite decide_True in Hs by done. lia. }
      split; [lia|]. intros ->. eapply (cancel_removes t h); [exact H|done|done|lia|done|done].
    + split_and!; [|done|done]. eapply (c_enqueue0 i _ h args c' t d); [done|left].
  - intros j l h args c' t d Hj Hin. destruct (thread_origin _ _ _ _ _ _ _ _ Hi Hj Hin) as [Hnew|(l' & Hl' & Hx)].
    + destruct (does_enqueue_origin _ _ _ _ _ _ _ _ _ H Hnew) as (m & -> & Hm & Em'). destruct Hsg as (-> & _). left. eexists. rewrite Em', list_lookup_insert_eq by (by eapply lookup_lt_Some).
      split; [done|]. cbn. apply lookup_insert_eq.
    + destruct (other_thread _ _ _ _ _ _ Hi Hl') as (l0 & Hl0 & Hsub). assert (covered (managers (sh s)) (threads s) h t) as Hc by (eapply c_enqueue0; [exact Hl0|by apply Hsub]).
      pose proof (total_two (action_token t) _ _ _ _ _ _ _ Hi Hl' Hx) as H2. pose proof (c_tokens0 t). pose proof (disturbs_token t a). cbn [action_token] in H2. assert (same t t = 1%nat) as Es by (unfold same; by rewrite decide_True).
      eapply covered_step; [done|done|done|done|lia|]. intros ->. pose proof (total_in holder _ _ _ _ Hl0 (Hsub _ Hx)) as Hh. rewrite v_lock in Hh. unfold lock_count in Hh. cbn in Hh.
      remember (ACancelled t h) as x. destruct H; try done; unfold unlocked in *; rewrite H in Hh; lia.
Qed.
Lemma cancel_call s cl : cancel_inv s -> single (Call cl) ->
  cancel_inv (mkState (sh s) (threads s ++ [start cl (next_id s)]) (S (next_id s)) (requests s ++ requested cl (next_id s))).
Proof using Type.
  clear Hiterate. intros [] Hc. assert (Forall action_single (start cl (next_id s)) /\ (forall t, sum_list_with (action_token t) (start cl (next_id s)) = 0%nat)
    /\ forall h args c' t d, ARecvEnqueue h args c' t d ∉ start cl (next_id s)) as (Hs & Ht & He).
  { split; [|split; [intros t; by destruct cl|]].
    - destruct cl; cbn [start single] in *; try done; repeat (apply Forall_cons; split; [done|]); apply Forall_nil_2.
    - intros h args c' t d Hin. assert (sum_list_with holder (start cl (next_id s)) = 0%nat) as Hz by (by destruct cl). pose proof (sum_in holder _ _ Hin) as Hh. cbn in Hh. lia. }
  assert (forall h t, covered (managers (sh s)) (threads s) h t -> covered (managers (sh s)) (threads s ++ [start cl (next_id s)]) h t) as Hcov.
  { intros h t [?|(i & l & Hi & Hl)]; [by left|]. right. exists i, l. split; [by apply lookup_app_l_Some|done]. }
  constructor; cbn [sh threads]; try done.
  - apply Forall_app. split; [done|by constructor].
  - intros t. rewrite total_app, Ht. specialize (c_tokens0 t). lia.
  - intros m t Hm Hn. rewrite total_app, Ht. specialize (c_fresh0 m t Hm Hn). lia.
  - intros h it t Hin Hw. eapply Hcov, c_waiting0; done.
  - intros i l h args c' t d Hi Hin. apply Hcov. apply lookup_app_Some in Hi as [Hi|[_ Hi]]; [by eapply c_enqueue0|].
    apply list_lookup_singleton_Some in Hi as [_ <-]. by apply He in Hin.
Qed.

Lemma cancel_initial n : cancel_inv (initial n).
Proof using Type.
  assert (forall h, queue_at (Tensor := Tensor) h ∅ = []) as Hq by (intros h; unfold queue_at; by rewrite lookup_empty).
  constructor; cbn [sh threads initial table_ managers total sum_list_with]; try done.
  - intros h. by rewrite Hq.
  - intros m Hm. apply lookup_replicate in Hm as [-> _]. done.
  - intros t. rewrite weigh_empty. cbn. lia.
  - intros h it t Hin. rewrite Hq in Hin. by apply not_elem_of_nil in Hin.
Qed.

Lemma reaches_cancel n s : reaches_by le no_tensor iterate (fun m => allowed n m /\ single m) n s -> inv n s /\ cancel_inv s.
Proof using Hiterate.
  intros Hr. split; [eapply (reaches_inv le no_tensor iterate Hiterate), reaches_mono; [|exact Hr]; by intros m [? _]|].
  induction Hr as [|m s s' Hr IH [Hm Hsg] E]; [apply cancel_initial|].
  assert (inv n s) as Hinv by (eapply (reaches_inv le no_tensor iterate Hiterate), reaches_mono; [|exact Hr]; by intros x [? _]).
  destruct m as [cl|i|i]; [|cbn in E|done].
  - injection E as <-. by apply cancel_call.
  - destruct (threads s !! i) as [[|a rest]|] eqn:Hi; try done. destruct (exec a (sh s)) as [| |[sh' acts]] eqn:Ex; try done. injection E as <-.
    eapply cancel_run; [done..|]. by apply exec_does.
Qed.

(** When no thread can act and the manager is cancelled, no receiver that passed it waits. *)
Lemma cancelled_none_waits n s m h it : inv n s -> cancel_inv s -> stuck le no_tensor iterate s -> managers (sh s) !! c = Some m -> started m = true ->
  it ∈ queue_at h (table_ (sh s)) -> IsSendValue it = true \/ cancellation_manager (recv_args it) = None.
Proof using Hiterate.
  intros Hinv [] Hs Hm Hst Hin. pose proof (proj1 (Forall_forall _ _) (c_items0 h) it Hin) as Hi. unfold item_single in Hi. unfold IsSendValue.
  destruct (waiter it) as [[d [[c' t]|]]|] eqn:Ew; [|right; apply Hi|by left]. exfalso. destruct (c_waiting0 h it t Hin) as [(m' & Em' & Et)|(i & l & Hi' & Hl)]; [unfold wrapped_token; by rewrite Ew| |].
  - replace m' with m in Et by congruence. destruct (c_next0 m Hm) as [_ Hc]. rewrite (Hc Hst), lookup_empty in Et. done.
  - destruct (stuck_threads _ _ _ Hiterate n s i l Hinv Hs Hi') as [->|(d' & t' & -> & _)]; [by apply not_elem_of_nil in Hl|]. by apply list_elem_of_singleton in Hl.
Qed.
End cancel.
