(* ===== verification/RendezvousLiveness.v ===== *)
(** * Rendezvous: exactly one call of every closure, progress, and two defects *)

From stdpp Require Import gmap.
From S2P Require Import Prelude InputStream Crc32cTheorems Hash Cancellation Rendezvous RendezvousSteps RendezvousInv RendezvousSafety RendezvousTheorems RendezvousCancel.
Import Cancellation Rendezvous.

(** C8: safety of every interleaving. Whatever calls are made and however their threads
    interleave (no [Recv] timing out), a queue holds only messages or only waiters, as the
    comment in the code says; the closure of every receiver is in exactly one place, a thread
    that is about to call it, a queue, or the log of calls, so that it is called at most once
    and never lost; every reference held on a device context belongs to an item that will be
    deleted; and no thread fails a check or releases what it does not hold. *)
Theorem rendezvous_exactly_once (le : bool) (Tensor : Type) (no_tensor : Tensor) (iterate : forall A, gmap Z A -> list (Z * A)) :
  (forall A m, iterate A m ≡ₚ map_to_list m) -> forall n s, reaches le no_tensor iterate n s ->
  (forall h, homogeneous (queue_at h (table_ (sh s))))
  /\ (forall d, (total (action_done d) (threads s) + weigh (item_done d) (table_ (sh s)) + log_done d (sh s))%nat = if decide (d ∈ requests s) then 1%nat else 0%nat)
  /\ (forall r, occurrences r (refs (sh s)) = (total (action_refs r) (threads s) + weigh (item_refs r) (table_ (sh s)))%nat)
  /\ (forall i, step le no_tensor iterate (Run i) s <> Failed).
Proof.
  intros Hit n s Hr. pose proof (reaches_inv le no_tensor iterate Hit n s Hr) as Hinv. split_and!; [apply Hinv| |apply Hinv|intros i; by apply (step_not_failed _ _ _ Hit n)].
  intros d. rewrite (v_done _ _ Hinv). apply requests_once, Hinv.
Qed.

(** Lists of a map's bindings, an order to iterate in. *)
Definition bindings (A : Type) (m : gmap Z A) : list (Z * A) := map_to_list m.

Lemma bindings_perm A (m : gmap Z A) : bindings A m ≡ₚ map_to_list m.
Proof. done. Qed.

Definition args_of (c : option nat) : Args := mkArgs (Some 7) 0 c.

(** Two receivers, a message for the first, and a cancellation that comes too late for it. *)
Definition sample_calls : list (@move Z) :=
  [Call (CRecvAsync [107] (args_of (Some 0%nat))); Run 0; Run 0; Run 0; Run 0; Call (CRecvAsync [107] (args_of None)); Run 1;
   Call (CSend [107] (args_of None) 42 false); Run 2; Call (CStartCancel 0); Run 3].

(** Concrete calls are well-formed. *)
Ltac calls_ok :=
  repeat match goal with
  | |- Forall _ [] => apply Forall_nil_2
  | |- Forall _ (_ :: _) => apply Forall_cons; split
  | |- byte _ => unfold byte; lia
  | |- allowed _ _ => cbn
  | |- single _ _ => cbn
  | |- True => exact I
  | |- (_ < _)%nat => lia
  | |- _ /\ _ => split
  | |- _ \/ _ => (left; reflexivity) || (right; reflexivity)
  | |- forall c, _ => let H := fresh in intros c H; cbn in H; (discriminate || (injection H as <-))
  end.

Lemma sample_allowed : Forall (fun m => allowed 1 m /\ single 0 m) sample_calls.
Proof. unfold sample_calls. calls_ok. Qed.

Lemma rendezvous_exactly_once_witness :
  exists s, run true 0 bindings sample_calls (initial 1) = Next s /\ forall i, step true 0 bindings (Run i) s <> Failed.
Proof.
  destruct (run true 0 bindings sample_calls (initial 1)) as [| |s] eqn:E; [vm_compute in E; discriminate..|]. exists s. split; [reflexivity|].
  refine (proj2 (proj2 (proj2 (rendezvous_exactly_once true Z 0 bindings bindings_perm 1 s _)))).
  eapply run_reaches; [apply reaches_initial| |exact E]. eapply Forall_impl; [exact sample_allowed|]. by intros m [? _].
Defined.

(** C9: liveness. From every reachable state, if no more calls are made, the threads take at
    most [cost s] further steps, in any order, and reach a state in which none can act: there
    is no deadlock and no livelock.  In such a state every call has returned, except blocking
    receivers for which no message was sent; if the rendezvous was aborted, every call has
    returned and every receiver's closure has been called exactly once; and if the receivers
    pass one cancellation manager, or none, nobody else deregisters their callbacks from it, and
    it is cancelled, no receiver that passed it still waits. *)
Theorem rendezvous_liveness (le : bool) (Tensor : Type) (no_tensor : Tensor) (iterate : forall A, gmap Z A -> list (Z * A)) :
  (forall A m, iterate A m ≡ₚ map_to_list m) -> forall n s, reaches le no_tensor iterate n s ->
  (forall ks s', run le no_tensor iterate (map Run ks) s = Next s' -> (length ks <= cost s)%nat)
  /\ (exists ks s', run le no_tensor iterate (map Run ks) s = Next s' /\ stuck le no_tensor iterate s')
  /\ (stuck le no_tensor iterate s ->
       (forall i l, threads s !! i = Some l -> l = [] \/ exists d t h it w, l = [AWait d t] /\ it ∈ queue_at h (table_ (sh s)) /\ waiter it = Some w /\ done_ w = d)
       /\ (ok (status_ (sh s)) = false -> (forall i l, threads s !! i = Some l -> l = []) /\ forall d, d ∈ requests s -> log_done d (sh s) = 1%nat)
       /\ (forall c m, reaches_by le no_tensor iterate (fun mv => allowed n mv /\ single c mv) n s -> managers (sh s) !! c = Some m -> is_cancelled_ m = true ->
             forall h it, it ∈ queue_at h (table_ (sh s)) -> IsSendValue it = true \/ cancellation_manager (recv_args it) = None)).
Proof.
  intros Hit n s Hr. pose proof (reaches_inv le no_tensor iterate Hit n s Hr) as Hinv. split; [|split; [by apply run_to_stuck|intros Hs]].
  { intros ks s' Hk. pose proof (run_cost _ _ _ Hit ks s s' Hk). lia. }
  assert (forall i l, threads s !! i = Some l -> l = [] \/ exists d t h it w, l = [AWait d t] /\ it ∈ queue_at h (table_ (sh s)) /\ waiter it = Some w /\ done_ w = d) as Hth.
  { intros i l Hi. destruct (stuck_threads _ _ _ Hit n s i l Hinv Hs Hi) as [->|(d & t & -> & Hn)]; [by left|right].
    pose proof (Forall_lookup_1 _ _ _ _ (v_actions _ _ Hinv) Hi) as Hok. apply Forall_cons in Hok as [Hd _].
    destruct (stuck_waiting _ _ _ Hit n s d Hinv Hs Hd (notified_none d _ Hn)) as (h & it & w & Hw). by exists d, t, h, it, w. }
  split_and!; [done| |].
  - intros Hab. assert (forall h it, it ∉ queue_at h (table_ (sh s))) as Hempty.
    { intros h it Hin. apply (proj1 (Forall_forall _ _) (v_aborted _ _ Hinv ltac:(unfold running; congruence) h) it Hin). }
    split; [intros i l Hi; destruct (Hth i l Hi) as [?|(d & t & h & it & w & _ & Hin & _)]; [done|by apply Hempty in Hin]|].
    intros d Hd. pose proof (v_done _ _ Hinv d) as Hc. rewrite (stuck_total _ _ _ Hit n s _ Hinv Hs), requests_once, decide_True in Hc by (done || apply Hinv).
    destruct (log_done d (sh s)) as [|[|k]] eqn:El; [|done|lia]. destruct (stuck_waiting _ _ _ Hit n s d Hinv Hs Hd El) as (h & it & w & Hin & _). by apply Hempty in Hin.
  - intros c m Hc Hm Hca h it Hin. destruct (reaches_cancel le no_tensor iterate Hit c n s Hc) as [_ Hci].
    eapply (cancelled_none_waits le no_tensor iterate Hit c n s m h it); [done..| |done]. unfold started. by rewrite Hca.
Qed.

(** The calls of the sample, run to the end: the first receiver has its message and the second,
    which passed no manager, waits. *)
Lemma rendezvous_liveness_witness :
  exists s ks, run true 0 bindings sample_calls (initial 1) = Next s /\ (length ks <= cost s)%nat
    /\ exists s', run true 0 bindings (map Run ks) s = Next s' /\ stuck true 0 bindings s'.
Proof.
  destruct (run true 0 bindings sample_calls (initial 1)) as [| |s] eqn:E; [vm_compute in E; discriminate..|].
  assert (reaches true 0 bindings 1 s) as Hr.
  { eapply run_reaches; [apply reaches_initial| |exact E]. eapply Forall_impl; [exact sample_allowed|]. by intros m [? _]. }
  destruct (rendezvous_liveness true Z 0 bindings bindings_perm 1 s Hr) as (Hb & (ks & s' & Hk & Hs) & _).
  exists s, ks. split; [reflexivity|]. split; [exact (Hb ks s' Hk)|]. exists s'. split; [exact Hk|exact Hs].
Defined.

(** ** Two defects *)

(** Tokens of two managers collide.  A receiver with the manager 1 and then one with the manager
    0 wait on a key; both have the token 0.  Cancelling the manager 0 cancels the first
    receiver, whose manager is not cancelled, and leaves the second waiting. *)
Theorem rendezvous_token_collision : exists s,
  run true 0 bindings
    ([Call (CRecvAsync [107] (mkArgs None 0 (Some 1%nat))); Run 0; Run 0; Run 0; Run 0; Call (CRecvAsync [107] (mkArgs None 0 (Some 0%nat))); Run 1; Run 1; Run 1; Run 1;
      Call (CStartCancel 0)] ++ replicate 7 (Run 2)) (initial 2) = Next s
  /\ threads s = [[]; []; []] /\ map is_cancelled_ (managers (sh s)) = [true; false]
  /\ log (sh s) = [EDone (mkDelivery 0 (Err CANCELLED) Args_new (mkArgs None 0 (Some 1%nat)) 0 false)]
  /\ map (fun p => map waiter (snd p)) (map_to_list (table_ (sh s))) = [[Some (mkWaiter 1 (Some (0%nat, 0)))]].
Proof. eexists. split; [vm_compute; reflexivity|]. repeat split. Qed.

(** The closure of [Recv] refers to variables of its frame.  When [Recv] has timed out, the
    message that arrives later is written to a frame that is gone. *)
Theorem rendezvous_timeout_dangling : exists s,
  run true 0 bindings [Call (CRecv [107] Args_new 5); Run 0; Timeout 0; Call (CSend [107] Args_new 42 false); Run 1] (initial 0) = Next s
  /\ log (sh s) = [ERecv 0 (Err DEADLINE_EXCEEDED)] /\ step true 0 bindings (Run 1) s = Failed.
Proof. eexists. split; [vm_compute; reflexivity|]. split; reflexivity. Qed.
