(* ===== verification/RendezvousRefine.v ===== *)
(** * Rendezvous: refinement of a mailbox

    The specification is a mailbox with two lists in order of arrival: the messages that nobody
    has asked for and the receivers that have nothing yet.  Every interleaving of the threads is
    a sequence of its operations, in the order of the critical sections. *)

From stdpp Require Import gmap.
From S2P Require Import Prelude InputStream Crc32cTheorems Hash Cancellation Rendezvous RendezvousSteps RendezvousInv RendezvousSafety RendezvousTheorems RendezvousLiveness.
Import Cancellation Rendezvous.

(** ** The specification *)

Section mailbox.
Context {Tensor : Type} (no_tensor : Tensor).
Abbreviation Delivery := (@Delivery Tensor).

Record Letter := mkLetter { l_value : Tensor; l_dead : bool; l_args : Args }.

Record mailbox := mkMailbox {
  pending : list (Z * Letter);
  waiting : list (Z * (nat * Args));
  stopped : Status;
  delivered : list Delivery
}.

Definition empty_mailbox : mailbox := mkMailbox [] [] OK [].

Inductive op :=
| OSend (h : Z) (l : Letter)
| ORecv (h : Z) (d : nat) (args : Args)
| OCancel (h : Z) (d : nat)
| ORefuse (d : nat) (args : Args)
| OAbort (st : Status).

(** The first entry that satisfies [P], and the others. *)
Fixpoint take_by {A} (P : A -> bool) (l : list A) : option (A * list A) :=
  match l with
  | [] => None
  | x :: l => if P x then Some (x, l) else match take_by P l with Some (y, l') => Some (y, x :: l') | None => None end
  end.

Definition deliver (l : Letter) (d : nat) (args : Args) : Delivery := mkDelivery d OK (l_args l) args (l_value l) (l_dead l).
Definition dismiss (st : Status) (d : nat) (args : Args) : Delivery := mkDelivery d st Args_new args no_tensor false.

(** A message goes to the receiver that has waited longest on its key, a receiver gets the
    oldest message of its key. *)
Definition perform (m : mailbox) (o : op) : mailbox :=
  match o with
  | OSend h l =>
      if ok (stopped m) then
        match take_by (fun p => fst p =? h) (waiting m) with
        | Some ((_, (d, args)), rest) => mkMailbox (pending m) rest (stopped m) (delivered m ++ [deliver l d args])
        | None => mkMailbox (pending m ++ [(h, l)]) (waiting m) (stopped m) (delivered m)
        end
      else m
  | ORecv h d args =>
      if ok (stopped m) then
        match take_by (fun p => fst p =? h) (pending m) with
        | Some ((_, l), rest) => mkMailbox rest (waiting m) (stopped m) (delivered m ++ [deliver l d args])
        | None => mkMailbox (pending m) (waiting m ++ [(h, (d, args))]) (stopped m) (delivered m)
        end
      else mkMailbox (pending m) (waiting m) (stopped m) (delivered m ++ [dismiss (stopped m) d args])
  | OCancel h d =>
      match take_by (fun p => (fst p =? h) && (fst (snd p) =? d)%nat) (waiting m) with
      | Some ((_, (d, args)), rest) => mkMailbox (pending m) rest (stopped m) (delivered m ++ [dismiss (Err CANCELLED) d args])
      | None => m
      end
  | ORefuse d args => mkMailbox (pending m) (waiting m) (stopped m) (delivered m ++ [dismiss (Err CANCELLED) d args])
  | OAbort st =>
      mkMailbox [] [] (if ok (stopped m) then st else stopped m) (delivered m ++ map (fun p => dismiss st (fst (snd p)) Args_new) (waiting m))
  end.

Lemma take_by_spec {A} (P : A -> bool) l :
  match take_by P l with
  | Some (x, l') => exists l1 l2, l = l1 ++ x :: l2 /\ l' = l1 ++ l2 /\ P x = true /\ Forall (fun y => P y = false) l1
  | None => Forall (fun y => P y = false) l
  end.
Proof using Type.
  clear. induction l as [|x l IH]; cbn; [done|]. destruct (P x) eqn:E; [by exists [], l|]. destruct (take_by P l) as [[y l']|]; [|by constructor].
  destruct IH as (l1 & l2 & -> & -> & Hy & H1). exists (x :: l1), l2. split_and!; [done..|by constructor].
Qed.

(** The entries of a key. *)
Definition keyed {A} (h : Z) (l : list (Z * A)) : list A := omap (fun p => if fst p =? h then Some (snd p) else None) l.

Lemma keyed_app {A} h (a b : list (Z * A)) : keyed h (a ++ b) = keyed h a ++ keyed h b.
Proof using Type. clear. unfold keyed. apply omap_app. Qed.

Lemma keyed_cons {A} h k x (l : list (Z * A)) : keyed h ((k, x) :: l) = (if k =? h then [x] else []) ++ keyed h l.
Proof using Type. clear. unfold keyed. cbn. by destruct (k =? h). Qed.

Lemma keyed_none {A} h (l : list (Z * A)) : Forall (fun p => (fst p =? h) = false) l -> keyed h l = [].
Proof using Type. clear. induction 1 as [|[k x] l Hx _ IH]; [done|]. rewrite keyed_cons. cbn in Hx. by rewrite Hx. Qed.

Lemma keyed_some {A} h (l : list (Z * A)) : keyed h l = [] -> Forall (fun p => (fst p =? h) = false) l.
Proof using Type. clear. induction l as [|[k x] l IH]; [done|]. rewrite keyed_cons. cbn. destruct (k =? h) eqn:E; [done|]. intros H. constructor; [done|by apply IH]. Qed.

(** Taking the first entry of a key. *)
Lemma take_key {A} h (l : list (Z * A)) x q : keyed h l = x :: q ->
  exists rest, take_by (fun p => fst p =? h) l = Some ((h, x), rest) /\ l ≡ₚ (h, x) :: rest
    /\ forall h', keyed h' rest = if decide (h' = h) then q else keyed h' l.
Proof using Type.
  clear. intros E. pose proof (take_by_spec (fun p => fst p =? h) l) as Hs. destruct (take_by _ l) as [[[k y] rest]|]; [|by rewrite keyed_none in E].
  destruct Hs as (l1 & l2 & -> & -> & Hk & H1). cbn in Hk. apply Z.eqb_eq in Hk as ->. rewrite keyed_app, keyed_cons, Z.eqb_refl, (keyed_none h l1) in E by done. cbn in E. injection E as -> <-.
  exists (l1 ++ l2). split_and!; [done|by rewrite Permutation_middle|]. intros h'. rewrite !keyed_app, keyed_cons. destruct (decide (h' = h)) as [->|Hne]; [by rewrite (keyed_none h l1)|].
  by rewrite (proj2 (Z.eqb_neq h h')) by done.
Qed.

Lemma take_key_none {A} h (l : list (Z * A)) : keyed h l = [] -> take_by (fun p => fst p =? h) l = None.
Proof using Type.
  clear. intros E%keyed_some. pose proof (take_by_spec (fun p => fst p =? h) l) as Hs. destruct (take_by _ l) as [[x rest]|]; [|done].
  destruct Hs as (l1 & l2 & -> & _ & Hx & _). apply Forall_app in E as [_ E]. apply Forall_cons in E as [E _]. congruence.
Qed.
End mailbox.

(** ** The simulation *)

Section refine.
Context (le : bool) {Tensor : Type} (no_tensor : Tensor) (iterate : forall A, gmap Z A -> list (Z * A)).
Context (Hiterate : forall A (m : gmap Z A), iterate A m ≡ₚ map_to_list m).
Abbreviation Item := (@Item Tensor).
Abbreviation Table := (gmap Z (list Item)).
Abbreviation shared := (@shared Tensor).
Abbreviation action := (@action Tensor).
Abbreviation state := (@state Tensor).
Abbreviation does := (does le no_tensor iterate).
Abbreviation exec := (exec le no_tensor iterate).
Abbreviation step := (step le no_tensor iterate).
Abbreviation perform := (perform no_tensor).

Definition item_letter (it : Item) : option Letter := match waiter it with None => Some (mkLetter (value it) (is_dead it) (send_args it)) | Some _ => None end.
Definition item_waiter (it : Item) : option (nat * Args) := match waiter it with Some w => Some (done_ w, recv_args it) | None => None end.

Definition action_delivery (a : action) : list Delivery := match a with ADone d => [d] | _ => [] end.
Definition event_delivery (e : @event Tensor) : list Delivery := match e with EDone d => [d] | _ => [] end.

(** The operation of the mailbox that an action performs, given the actions it leads to. *)
Definition label (a : action) (acts : list action) : list op :=
  match a with
  | ASend _ key args val dead => match KeyHash le key with Some h => [OSend h (mkLetter val dead args)] | None => [] end
  | ARecvAsync key args d =>
      match KeyHash le key, acts with
      | Some h, [ARecvToken _ _ _ _] => []
      | Some h, _ => [ORecv h d args]
      | None, _ => []
      end
  | ARecvRegister _ args _ _ d => match acts with [ARecvEnqueue _ _ _ _ _] => [] | _ => [ORefuse d args] end
  | ARecvEnqueue h args _ _ d => [ORecv h d args]
  | AStartAbort st => [OAbort st]
  | ACancelled _ h => map (fun d => OCancel h (d_done d)) (flat_map action_delivery acts)
  | _ => []
  end.

(** The operations performed along a schedule. *)
Fixpoint history (ms : list (@move Tensor)) (s : state) : list op :=
  match ms with
  | [] => []
  | m :: ms =>
      match m with
      | Run i =>
          match threads s !! i with
          | Some (a :: _) => match exec a (sh s) with Next (_, acts) => label a acts | _ => [] end
          | _ => []
          end
      | _ => []
      end ++ match step m s with Next s' => history ms s' | _ => [] end
  end.

(** The mailbox of a table. *)
Record represents (m : mailbox) (t : Table) (st : Status) : Prop := {
  r_pending : forall h, keyed h (pending m) = omap item_letter (queue_at h t);
  r_waiting : forall h, keyed h (waiting m) = omap item_waiter (queue_at h t);
  r_all : map snd (waiting m) ≡ₚ omap item_waiter (items t);
  r_status : stopped m = st
}.

(** ** Items of a table up to order *)

Lemma items_queue h (t : Table) : items t ≡ₚ queue_at h t ++ items (delete h t).
Proof using Type.
  unfold queue_at. destruct (t !! h) as [q|] eqn:E; cbn; [|by rewrite delete_id]. rewrite <- (insert_delete_id t h q E) at 1. apply items_insert, lookup_delete_eq.
Qed.

Lemma items_set h q (t : Table) : items (<[h := q]> t) ≡ₚ q ++ items (delete h t).
Proof using Type. rewrite (items_queue h). unfold queue_at. by rewrite lookup_insert_eq, delete_insert_eq. Qed.

Lemma items_touch h (t : Table) : items (touch h t) ≡ₚ items t.
Proof using Type. unfold touch. by rewrite items_set, <- items_queue. Qed.

Lemma items_push h it (t : Table) : items (<[h := queue_at h t ++ [it]]> t) ≡ₚ it :: items t.
Proof using Type. rewrite items_set, (items_queue h t). rewrite <- app_assoc. cbn. by rewrite Permutation_middle. Qed.

Lemma items_pop h it q (t : Table) : queue_at h t = it :: q -> items t ≡ₚ it :: items (pop h (it :: q) t).
Proof using Type. intros E. rewrite (items_queue h t), E. unfold pop. destruct q; [done|]. by rewrite items_set. Qed.

Lemma items_drop h i it (t : Table) : queue_at h t !! i = Some it -> items t ≡ₚ it :: items (drop_at h i (queue_at h t) t).
Proof using Type.
  intros Hi. rewrite (items_queue h t). unfold drop_at. destruct (Nat.eqb_spec (length (queue_at h t)) 1) as [E|]; [|by rewrite items_set, (delete_Permutation _ i it Hi) at 1].
  destruct (queue_at h t) as [|x [|? ?]]; try done. destruct i; [|done]. injection Hi as ->. done.
Qed.

(** ** Changes of one queue *)

Lemma represents_same m t st t' : represents m t st -> (forall h, queue_at h t' = queue_at h t) -> items t' ≡ₚ items t -> represents m t' st.
Proof using Type. intros [H1 H2 H3 H4] Hq Hi. constructor; [intros h; by rewrite Hq|intros h; by rewrite Hq|by rewrite Hi|done]. Qed.

Lemma omap_letters q : Forall (fun it => IsSendValue it = true) q -> omap item_waiter q = [].
Proof using Type. induction 1 as [|it q Hi _ IH]; [done|]. cbn. unfold IsSendValue in Hi. unfold item_waiter at 1. by destruct (waiter it). Qed.

Lemma omap_waiters q : Forall (fun it => IsSendValue it = false) q -> omap item_letter q = [].
Proof using Type. induction 1 as [|it q Hi _ IH]; [done|]. cbn. unfold IsSendValue in Hi. unfold item_letter at 1. by destruct (waiter it). Qed.

Lemma no_waiter_omap q : homogeneous q -> no_waiter q -> omap item_waiter q = [].
Proof using Type. intros [b Hq] Hn. destruct q as [|it q]; [done|]. apply omap_letters. assert (b = true) as ->; [|done]. apply Forall_cons in Hq as [<- _]. done. Qed.

Lemma no_message_omap q : homogeneous q -> no_message q -> omap item_letter q = [].
Proof using Type. intros [b Hq] Hn. destruct q as [|it q]; [done|]. apply omap_waiters. assert (b = false) as ->; [|done]. apply Forall_cons in Hq as [<- _]. done. Qed.
(** What a critical section does to the mailbox, and what it delivers. *)
Definition becomes (m : mailbox) (o : op) (t : Table) (st : Status) (new : list Delivery) : Prop :=
  represents (perform m o) t st /\ delivered (perform m o) = delivered m ++ new.

Lemma send_queued m t st h l it : represents m t st -> ok st = true -> homogeneous (queue_at h t) -> no_waiter (queue_at h t) ->
  item_letter it = Some l -> item_waiter it = None -> becomes m (OSend h l) (<[h := queue_at h t ++ [it]]> t) st [].
Proof using Type.
  intros [H1 H2 H3 H4] Hst Hq Hn El Ew. assert (keyed h (waiting m) = []) as E by (rewrite H2; by apply no_waiter_omap).
  unfold becomes. cbn [RendezvousRefine.perform]. rewrite H4, Hst, (take_key_none h _ E). split; [|cbn; by rewrite app_nil_r]. constructor; cbn [pending waiting stopped].
  - intros h'. rewrite queue_insert, keyed_app, keyed_cons, H1. cbn [keyed omap list_omap]. destruct (decide (h' = h)) as [->|Hne].
    + rewrite Z.eqb_refl, omap_app. cbn. by rewrite El.
    + rewrite (proj2 (Z.eqb_neq h h')) by done. cbn. by rewrite app_nil_r.
  - intros h'. rewrite queue_insert, H2. destruct (decide (h' = h)) as [->|Hne]; [|done]. rewrite omap_app. cbn. by rewrite Ew, app_nil_r.
  - rewrite items_push, H3. cbn. by rewrite Ew.
  - done.
Qed.

Lemma recv_queued m t st h d args it : represents m t st -> ok st = true -> homogeneous (queue_at h t) -> no_message (queue_at h t) ->
  item_waiter it = Some (d, args) -> item_letter it = None -> becomes m (ORecv h d args) (<[h := queue_at h t ++ [it]]> t) st [].
Proof using Type.
  intros [H1 H2 H3 H4] Hst Hq Hn Ew El. assert (keyed h (pending m) = []) as E by (rewrite H1; by apply no_message_omap).
  unfold becomes. cbn [RendezvousRefine.perform]. rewrite H4, Hst, (take_key_none h _ E). split; [|cbn; by rewrite app_nil_r]. constructor; cbn [pending waiting stopped].
  - intros h'. rewrite queue_insert, H1. destruct (decide (h' = h)) as [->|Hne]; [|done]. rewrite omap_app. cbn. by rewrite El, app_nil_r.
  - intros h'. rewrite queue_insert, keyed_app, keyed_cons, H2. cbn [keyed omap list_omap]. destruct (decide (h' = h)) as [->|Hne].
    + rewrite Z.eqb_refl, omap_app. cbn. by rewrite Ew.
    + rewrite (proj2 (Z.eqb_neq h h')) by done. cbn. by rewrite app_nil_r.
  - rewrite items_push. cbn. rewrite Ew, map_app, H3. cbn. by rewrite <- Permutation_cons_append.
  - done.
Qed.

Lemma send_matched m t st h l it q d args : represents m t st -> ok st = true -> queue_at h t = it :: q -> item_waiter it = Some (d, args) -> item_letter it = None ->
  becomes m (OSend h l) (pop h (it :: q) t) st [deliver l d args].
Proof using Type.
  intros [H1 H2 H3 H4] Hst Eq Ew El. assert (keyed h (waiting m) = (d, args) :: omap item_waiter q) as E by (rewrite H2, Eq; cbn; by rewrite Ew).
  destruct (take_key h _ _ _ E) as (rest & Et & Hp & Hk). unfold becomes. cbn [RendezvousRefine.perform]. rewrite H4, Hst, Et. split; [|done]. constructor; cbn [pending waiting stopped].
  - intros h'. rewrite queue_pop, H1. destruct (decide (h' = h)) as [->|Hne]; [|done]. rewrite Eq. cbn. by rewrite El.
  - intros h'. rewrite queue_pop, Hk. destruct (decide (h' = h)) as [->|Hne]; [done|apply H2].
  - rewrite Hp, (items_pop h it q t Eq) in H3. cbn in H3. rewrite Ew in H3. by apply Permutation_cons_inv in H3.
  - done.
Qed.

Lemma recv_matched m t st h l it q d args : represents m t st -> ok st = true -> queue_at h t = it :: q -> item_letter it = Some l -> item_waiter it = None ->
  becomes m (ORecv h d args) (pop h (it :: q) t) st [deliver l d args].
Proof using Type.
  intros [H1 H2 H3 H4] Hst Eq El Ew. assert (keyed h (pending m) = l :: omap item_letter q) as E by (rewrite H1, Eq; cbn; by rewrite El).
  destruct (take_key h _ _ _ E) as (rest & Et & Hp & Hk). unfold becomes. cbn [RendezvousRefine.perform]. rewrite H4, Hst, Et. split; [|done]. constructor; cbn [pending waiting stopped].
  - intros h'. rewrite queue_pop, Hk. destruct (decide (h' = h)) as [->|Hne]; [done|apply H1].
  - intros h'. rewrite queue_pop, H2. destruct (decide (h' = h)) as [->|Hne]; [|done]. rewrite Eq. cbn. by rewrite Ew.
  - rewrite H3, (items_pop h it q t Eq). cbn. by rewrite Ew.
  - done.
Qed.

(** The receiver that a cancellation takes out of the middle of its queue. *)
Lemma take_waiter h (l : list (Z * (nat * Args))) a d args b : keyed h l = a ++ (d, args) :: b -> Forall (fun p => fst p <> d) a ->
  exists rest, take_by (fun p => (fst p =? h) && (fst (snd p) =? d)%nat) l = Some ((h, (d, args)), rest) /\ l ≡ₚ (h, (d, args)) :: rest
    /\ forall h', keyed h' rest = if decide (h' = h) then a ++ b else keyed h' l.
Proof using Type.
  clear. revert a. induction l as [|[k [e x]] l IH]; intros a E Ha; [by destruct a|]. rewrite keyed_cons in E. cbn [take_by fst snd].
  destruct (Z.eqb_spec k h) as [->|Hne]; cbn [app andb] in *.
  - destruct a as [|[e' x'] a]; cbn in E; injection E as -> -> E.
    + rewrite Nat.eqb_refl. exists l. split_and!; [done|done|]. intros h'. rewrite keyed_cons. destruct (decide (h' = h)) as [->|]; [done|]. by rewrite (proj2 (Z.eqb_neq h h')) by done.
    + apply Forall_cons in Ha as [Hd Ha]. cbn in Hd. rewrite (proj2 (Nat.eqb_neq e' d)) by done. destruct (IH a E Ha) as (rest & -> & Hp & Hk). exists ((h, (e', x')) :: rest). split_and!; [done| |].
      * rewrite Hp. apply Permutation_swap.
      * intros h'. rewrite !keyed_cons, Hk. destruct (decide (h' = h)) as [->|]; [by rewrite Z.eqb_refl|done].
  - destruct (IH a E Ha) as (rest & -> & Hp & Hk). exists ((k, (e, x)) :: rest). split_and!; [done| |].
    * rewrite Hp. apply Permutation_swap.
    * intros h'. rewrite !keyed_cons, Hk. destruct (decide (h' = h)) as [->|]; [by rewrite (proj2 (Z.eqb_neq k h)) by done|done].
Qed.

Lemma recv_cancelled m t st h i it d args : represents m t st -> queue_at h t !! i = Some it -> item_waiter it = Some (d, args) -> item_letter it = None ->
  (weigh (item_done d) t <= 1)%nat -> becomes m (OCancel h d) (drop_at h i (queue_at h t) t) st [dismiss no_tensor (Err CANCELLED) d args].
Proof using Type.
  intros [H1 H2 H3 H4] Hi Ew El Hone. set (q := queue_at h t) in *. assert (q = take i q ++ it :: drop (S i) q) as Eq by (symmetry; by apply take_drop_middle).
  assert (keyed h (waiting m) = omap item_waiter (take i q) ++ (d, args) :: omap item_waiter (drop (S i) q)) as E.
  { rewrite H2. fold q. rewrite Eq at 1. rewrite omap_app. cbn. by rewrite Ew. }
  assert (Forall (fun p => fst p <> d) (omap item_waiter (take i q))) as Ha.
  { apply Forall_forall. intros [e x] Hin Hex. cbn in Hex. subst e. apply list_elem_of_omap in Hin as (it' & Hin' & Ew'). rewrite (weigh_queue _ h) in Hone. fold q in Hone. rewrite Eq, sum_list_with_app in Hone. cbn [sum_list_with] in Hone.
    assert (forall y z, item_waiter y = Some (d, z) -> item_done d y = 1%nat) as Hd by (intros y z; unfold item_waiter, item_done; destruct (waiter y); [|done]; intros [= <- _]; unfold occurs; by rewrite decide_True).
    pose proof (Hd _ _ Ew). pose proof (Hd _ _ Ew') as H1'. apply list_elem_of_split in Hin' as (l1 & l2 & El'). rewrite El', sum_list_with_app in Hone. cbn [sum_list_with] in Hone. lia. }
  destruct (take_waiter h _ _ d args _ E Ha) as (rest & Et & Hp & Hk). unfold becomes. cbn [RendezvousRefine.perform]. rewrite Et. split; [|done].
  assert (forall {A} (f : Item -> option A), omap f (delete i q) = omap f (take i q) ++ omap f (drop (S i) q)) as Hdel by (intros A f; by rewrite delete_take_drop, omap_app).
  constructor; cbn [pending waiting stopped].
  - intros h'. rewrite (queue_drop h i it q t h' Hi), H1. destruct (decide (h' = h)) as [->|Hne]; [|done]. fold q. rewrite Hdel. rewrite Eq at 1. rewrite omap_app. cbn. by rewrite El.
  - intros h'. rewrite (queue_drop h i it q t h' Hi), Hk. destruct (decide (h' = h)) as [->|Hne]; [by rewrite Hdel|apply H2].
  - rewrite Hp, (items_drop h i it t Hi) in H3. fold q in H3. cbn in H3. rewrite Ew in H3. by apply Permutation_cons_inv in H3.
  - done.
Qed.
(** ** Deliveries *)

Abbreviation calls := (flat_map action_delivery).

Lemma call_waiter_delivery w st a b v x : calls (call_waiter w st a b v x) = [mkDelivery (done_ w) st a b v x].
Proof using Type. unfold call_waiter. by destruct (wrapped w) as [[]|]. Qed.

Lemma abort_deliveries st (t : Table) :
  calls (concat (map (fun p => concat (map (abort_item no_tensor st) (snd p))) (iterate _ t))) ≡ₚ map (fun p => dismiss no_tensor st (fst p) Args_new) (omap item_waiter (items t)).
Proof using Hiterate.
  assert (forall l : list (Z * list Item), concat (map (fun p => concat (map (abort_item no_tensor st) (snd p))) l) = concat (map (abort_item no_tensor st) (concat (map snd l)))) as E1.
  { clear. induction l as [|[h q] l IH]; [done|]. cbn [map concat snd]. by rewrite IH, map_app, concat_app. }
  assert (forall l, calls (concat (map (abort_item no_tensor st) l)) = map (fun p => dismiss no_tensor st (fst p) Args_new) (omap item_waiter l)) as E2.
  { clear. induction l as [|it l IH]; [done|]. cbn [map concat omap list_omap]. rewrite flat_map_app, IH. unfold abort_item. rewrite flat_map_app.
    unfold item_waiter at 2. destruct (waiter it) as [w|]; [|done]. by rewrite call_waiter_delivery. }
  rewrite E1, E2. unfold items. by rewrite (Hiterate _ t).
Qed.

Definition deliveries (s : state) : list Delivery := flat_map event_delivery (log (sh s)) ++ calls (concat (threads s)).

Lemma deliveries_step s i a rest sh' acts new : threads s !! i = Some (a :: rest) ->
  calls acts ++ flat_map event_delivery (log sh') ≡ₚ action_delivery a ++ flat_map event_delivery (log (sh s)) ++ new ->
  deliveries (mkState sh' (<[i := acts ++ rest]> (threads s)) (next_id s) (requests s)) ≡ₚ deliveries s ++ new.
Proof using Type.
  intros Hi E. unfold deliveries. cbn [sh threads]. rewrite (insert_take_drop (threads s) i) by (by eapply lookup_lt_Some). rewrite <- (take_drop_middle (threads s) i _ Hi) at 3.
  rewrite !concat_app. cbn [concat]. rewrite !flat_map_app. cbn [flat_map app].
  set (x := calls (concat (take i (threads s)))). set (y := calls (concat (drop (S i) (threads s)))). set (r := calls rest).
  transitivity ((calls acts ++ flat_map event_delivery (log sh')) ++ x ++ r ++ y); [solve_Permutation|]. rewrite E. solve_Permutation.
Qed.

(** ** One action *)

Lemma does_refines n s i a rest sh' acts m : inv n s -> threads s !! i = Some (a :: rest) -> does a (sh s) sh' acts -> represents m (table_ (sh s)) (status_ (sh s)) ->
  exists new, represents (foldl perform m (label a acts)) (table_ sh') (status_ sh') /\ delivered (foldl perform m (label a acts)) ≡ₚ delivered m ++ new
    /\ calls acts ++ flat_map event_delivery (log sh') ≡ₚ action_delivery a ++ flat_map event_delivery (log (sh s)) ++ new.
Proof using Hiterate.
  intros Hinv Hi H Hm. pose proof Hinv as [].
  pose proof (Forall_lookup_1 _ _ _ _ v_keys Hi) as Hkey. apply Forall_cons in Hkey as [Hkey _].
  pose proof (Forall_lookup_1 _ _ _ _ v_actions Hi) as Hok. apply Forall_cons in Hok as [Hok _].
  pose proof (total_in holder (threads s) i _ a Hi ltac:(left)) as Hhold. rewrite v_lock in Hhold.
  assert (forall o new, label a acts = [o] -> becomes m o (table_ sh') (status_ sh') new -> calls acts ++ flat_map event_delivery (log sh') ≡ₚ action_delivery a ++ flat_map event_delivery (log (sh s)) ++ new ->
    exists new, represents (foldl perform m (label a acts)) (table_ sh') (status_ sh') /\ delivered (foldl perform m (label a acts)) ≡ₚ delivered m ++ new
      /\ calls acts ++ flat_map event_delivery (log sh') ≡ₚ action_delivery a ++ flat_map event_delivery (log (sh s)) ++ new) as Hone.
  { intros o new El [Hr Hd] Hp. exists new. rewrite El. cbn [foldl]. split_and!; [done|by rewrite Hd|done]. }
  assert (label a acts = [] -> (forall h, queue_at h (table_ sh') = queue_at h (table_ (sh s))) -> items (table_ sh') ≡ₚ items (table_ (sh s)) -> status_ sh' = status_ (sh s) ->
    calls acts ++ flat_map event_delivery (log sh') ≡ₚ action_delivery a ++ flat_map event_delivery (log (sh s)) ->
    exists new, represents (foldl perform m (label a acts)) (table_ sh') (status_ sh') /\ delivered (foldl perform m (label a acts)) ≡ₚ delivered m ++ new
      /\ calls acts ++ flat_map event_delivery (log sh') ≡ₚ action_delivery a ++ flat_map event_delivery (log (sh s)) ++ new) as Hnone.
  { intros El Hq Hi' Hst Hp. exists []. rewrite El, !app_nil_r, Hst. cbn [foldl]. split_and!; [by eapply represents_same|done|done]. }
  assert (forall d, (weigh (item_done d) (table_ (sh s)) <= 1)%nat) as Hweigh.
  { intros d. specialize (v_done d). rewrite requests_once in v_done by apply v_requests. case_decide; lia. }
  clear Hinv Hi v_managers v_actions v_items v_keys v_lock v_heads v_aborted v_kinds v_notify v_done v_requests v_refs v_expired. revert Hok. generalize (requests s) as reqs. intros reqs Hok. remember (sh s) as s0 eqn:Es. clear Es s rest i n.
  destruct H; unfold running, unlocked, lock_count in *; revert Hone Hnone; shared_simpl; intros Hone Hnone; try (apply Hnone; [done|done|done|done|by rewrite ?flat_map_app, ?app_nil_r]);
    try match goal with H : KeyHash le ?key = Some ?h |- context [label] => cbn [label] in Hone, Hnone |- *; rewrite H in * end.
  - destruct (KeyHash_total le key Hok) as [h Eh]. cbn [label] in *. rewrite Eh in *. eapply (Hone _ [] eq_refl); [|by rewrite app_nil_r]. split; cbn [RendezvousRefine.perform]; rewrite (r_status _ _ _ Hm); destruct (ok (status_ s)); try done. by rewrite app_nil_r.
  - eapply (Hone _ [] eq_refl); [by apply send_queued|by rewrite app_nil_r].
  - assert (item_waiter it = Some (done_ w, recv_args it) /\ item_letter it = None) as [E1 E2] by (unfold item_waiter, item_letter; by rewrite H3).
    eapply (Hone _ _ eq_refl); [by eapply send_matched|]. cbn [action_delivery app]. rewrite flat_map_app, call_waiter_delivery. cbn. solve_Permutation.
  - destruct Hok as [Hb _]. destruct (KeyHash_total le key Hb) as [h Eh]. cbn [label] in *. rewrite Eh in *. eapply (Hone _ [dismiss no_tensor (status_ s) done args] eq_refl); [|cbn; solve_Permutation].
    split; cbn [RendezvousRefine.perform]; rewrite (r_status _ _ _ Hm); destruct (ok (status_ s)); try done. destruct Hm. by constructor.
  - eapply (Hone _ [] eq_refl); [by apply recv_queued|by rewrite app_nil_r].
  - apply Hnone; [done|intros h'; by rewrite queue_touch|apply items_touch|done|done].
  - assert (item_letter it = Some (mkLetter (value it) (is_dead it) (send_args it)) /\ item_waiter it = None) as [E1 E2] by (unfold item_waiter, item_letter; by rewrite H3).
    eapply (Hone _ _ eq_refl); [by eapply recv_matched|]. cbn. solve_Permutation.
  - cbn [label cancelled] in *. eapply (Hone _ [dismiss no_tensor (Err CANCELLED) done args] eq_refl); [|cbn; solve_Permutation]. split; cbn [RendezvousRefine.perform]; [|done]. destruct Hm. by constructor.
  - cbn [holder locked_key] in Hhold. eapply (Hone _ [] eq_refl); [|by rewrite app_nil_r]. apply recv_queued; try done. apply v_running. destruct (mu_ s); [done|lia].
  - apply Hnone; [done..|]. rewrite flat_map_app. cbn. solve_Permutation.
  - cbn [label] in *. eapply (Hone _ _ eq_refl); [split; [|done]|].
    + constructor; cbn; [intros h; unfold queue_at; by rewrite lookup_empty|intros h; unfold queue_at; by rewrite lookup_empty|done|]. by rewrite (r_status _ _ _ Hm).
    + cbn [action_delivery app]. rewrite abort_deliveries. rewrite <- (r_all _ _ _ Hm), map_map. solve_Permutation.
  - apply Hnone; [done|intros h'; by rewrite queue_touch|apply items_touch|done|done].
  - assert (item_waiter it = Some (done_ w, recv_args it) /\ item_letter it = None) as [E1 E2] by (unfold item_waiter, item_letter; by rewrite H2).
    cbn [label] in *. rewrite flat_map_app, call_waiter_delivery in *. cbn [app flat_map action_delivery map d_done] in *. eapply (Hone _ _ eq_refl); [by eapply recv_cancelled|]. solve_Permutation.
  - apply Hnone; [done..|]. rewrite flat_map_app. cbn. rewrite app_nil_r. assert (forall l, calls (map call_closure l) = []) as -> by (clear; induction l as [|p l IH]; [done|exact IH]). done.
Qed.
(** A schedule and its history. *)
Lemma run_refines n ms : forall s s' m, inv n s -> Forall (allowed n) ms -> run le no_tensor iterate ms s = Next s' ->
  represents m (table_ (sh s)) (status_ (sh s)) -> delivered m ≡ₚ deliveries s ->
  represents (foldl perform m (history ms s)) (table_ (sh s')) (status_ (sh s')) /\ delivered (foldl perform m (history ms s)) ≡ₚ deliveries s'.
Proof using Hiterate.
  induction ms as [|mv ms IH]; intros s s' m Hinv Hms Hr Hm Hd; cbn [run history] in *; [injection Hr as <-; done|]. apply Forall_cons in Hms as [Hmv Hms].
  destruct (step mv s) as [| |s1] eqn:E; [done..|]. rewrite foldl_app. destruct mv as [c|i|i]; [|cbn in E|done].
  - injection E as <-. apply IH; [by apply inv_call|done|done|done|]. rewrite Hd. unfold deliveries. cbn [sh threads foldl]. rewrite concat_app, flat_map_app.
    assert (calls (concat [start c (next_id s)]) = []) as -> by (by destruct c). by rewrite app_nil_r.
  - destruct (threads s !! i) as [[|a rest]|] eqn:Hi; try done. destruct (exec a (sh s)) as [| |[sh' acts]] eqn:Ex; try done. injection E as <-.
    pose proof (exec_does _ _ _ _ _ _ _ Ex) as Hdo. destruct (does_refines n s i a rest sh' acts m Hinv Hi Hdo Hm) as (new & Hm' & Hd' & Hp).
    apply IH; [by eapply inv_run|done|done|done|]. rewrite Hd', Hd. symmetry. by eapply deliveries_step.
Qed.

Lemma represents_empty : represents empty_mailbox ∅ OK.
Proof using Type. constructor; try done; intros h; unfold queue_at; by rewrite lookup_empty. Qed.
End refine.

(** C7: refinement. Every interleaving of calls (no [Recv] timing out) refines a mailbox: run
    the operations of its critical sections, in their order, on an empty mailbox, in which a
    message goes to the receiver that has waited longest on its key and a receiver gets the
    oldest message of its key.  The table then holds the messages and the receivers of the
    mailbox, key by key and in its order, and the calls of closures that threads have made or
    are about to make are, with their arguments, what the mailbox has delivered. *)
Theorem rendezvous_refines_mailbox (le : bool) (Tensor : Type) (no_tensor : Tensor) (iterate : forall A, gmap Z A -> list (Z * A)) :
  (forall A m, iterate A m ≡ₚ map_to_list m) -> forall n ms s, Forall (allowed n) ms -> run le no_tensor iterate ms (initial n) = Next s ->
  let m := foldl (perform no_tensor) empty_mailbox (history le no_tensor iterate ms (initial n)) in
  represents m (table_ (sh s)) (status_ (sh s)) /\ delivered m ≡ₚ deliveries s.
Proof. intros Hit n ms s Hms Hr. apply (run_refines le no_tensor iterate Hit n ms); [apply inv_initial|done|done|apply represents_empty|done]. Qed.

(** In the sample, the message goes to the first of the two receivers. *)
Lemma rendezvous_refines_mailbox_witness :
  exists s, run true 0 bindings sample_calls (initial 1) = Next s
    /\ delivered (foldl (perform 0) empty_mailbox (history true 0 bindings sample_calls (initial 1))) ≡ₚ deliveries s
    /\ delivered (foldl (perform 0) empty_mailbox (history true 0 bindings sample_calls (initial 1))) = [mkDelivery 0 OK (args_of None) (args_of (Some 0%nat)) 42 false].
Proof.
  destruct (run true 0 bindings sample_calls (initial 1)) as [| |s] eqn:E; [vm_compute in E; discriminate..|]. exists s. split; [reflexivity|]. split; [|vm_compute; reflexivity].
  refine (proj2 (rendezvous_refines_mailbox true Z 0 bindings bindings_perm 1 sample_calls s _ E)). eapply Forall_impl; [exact sample_allowed|]. by intros mv [? _].
Defined.
